(* ===== verification/_CoqProject ===== *)
-Q . S2P
Prelude.v
Usage.v
Pricing.v
Policy.v
Clock.v
PyText.v
Reservation.v
Rollout.v
QuotaStore.v
QuotaService.v
QuotaInvariants.v
QuotaIdentity.v
QuotaWorld.v
QuotaAdmission.v
QuotaSettlement.v
QuotaManagement.v
QuotaOperations.v
QuotaGovernance.v
QuotaPrices.v
QuotaGoverned.v
QuotaPromises.v
QuotaRules.v
QuotaStewards.v
Reporting.v
ReportingSafety.v
ReportingTools.v
ReportingPromises.v
Storage.v
StorageSafety.v
Json.v
TurnStore.v
TurnReliability.v
TurnSafety.v
OutboxSafety.v
WorkerEvents.v
WorkerEventsSafety.v
WorkerTasks.v
WorkerSafety.v
SandboxStore.v
Sandbox.v
SandboxSafety.v
GatewayTurns.v
GatewaySafety.v
EventFeed.v
EventFeedSafety.v
KnowledgeStore.v
KnowledgeBook.v
KnowledgeSafety.v
KnowledgePublication.v
KnowledgeWorld.v
ModelUsage.v
ModelRuntime.v
ModelRuntimeSafety.v
ModelRuntimePromises.v
Authorization.v
IdentityStore.v
IdentityCodes.v
IdentityAdmin.v
IdentityAccounts.v
IdentityAuth.v
IdentityFrame.v
IdentitySafety.v
IdentityPromises.v
IdentityRoles.v
IdentityGrants.v
IdentitySpaces.v
IdentityLimits.v
ToolCatalog.v
ToolExecution.v
ToolSafety.v
ToolLocks.v
McpRuntime.v
McpSafety.v
ContextLayers.v
ContextManager.v
ContextSnip.v
ContextSafety.v
ContextFolding.v
SessionKeys.v
