(* ===== verification/Prelude.v ===== *)
(** * Nova: the transactional core of an NLP teaching agent, verified

    Nova serves chat Turns of students and teachers.  A Turn is admitted against the quota
    of its user, claimed by a worker under a lease, priced and settled from the tokens its
    model calls consumed, and its events, tool calls and messages are written under a
    storage quota; a recovery and outbox loop hands the Turns of dead workers over.  Inside a
    Turn a coordinator spawns worker agents, which run under a capacity limit and report
    through an event bus.  What happens in a Turn reaches the browser through a numbered event log, and
    the teaching material lives in a book of pages with drafts and publications.  Who may do what is
    read from accounts, roles, workspaces and classrooms, through browser sessions that a change of
    any of these ends.  The agents act through tools, local ones and those of MCP servers, which a
    policy grants and an executor runs under limits, locks and retries, and what a model is shown of a
    long conversation is cleared, folded, summarised and cut to its limit.  The development models the services as transactions over explicit
    stores and the worker runtime as state machines, and proves what they promise: the books
    balance, nothing is oversubscribed, a stale worker is fenced off, no message is lost,
    repeating a call changes nothing, and readers see what was published.

    ** How the code is read

    A method that runs inside a database transaction is a function [ST S E A]: from a store
    to an error, which rolls the store back, or to an answer and the next store (Prelude).
    [SELECT]s are reads of the store, [INSERT]s fail on the unique constraints the table
    declares, column assignments are record updates.  MySQL serialises the transactions that
    touch the same rows by [SELECT ... FOR UPDATE], so interleavings are sequences of whole
    transactions: step relations ([QuotaInvariants.step], [StorageSafety.storage_step],
    [TurnSafety.tstep], [OutboxSafety.relay_reachable], [SandboxSafety.pool_step], [GatewaySafety.gstep],
    [KnowledgeSafety.kstep], [IdentityFrame.identity_step], [IdentityLimits.mail_step]) with
    reachability as their closure.  The SQLite repository holds one lock per
    critical section, which is a transaction here; a call that takes it more than once is a step for
    each ([update_knowledge_book_file] in [kstep]).
    Instants are microseconds of UTC in [Z]; Clock justifies that for the datetimes of the
    quota service.  The in-memory runtime has no rollback: its methods are functions
    [Py S E A] (Prelude), in which an exception keeps what was written before it; a method
    that waits on the event loop is one function per stretch between two waits, and the
    step relation [WorkerTasks.sys_step] interleaves the stretches of all workers, as
    [ToolLocks.executor_step] and [ToolSafety.desk_step] do those of the calls of tools,
    [McpRuntime.mcp_task_step] those of connecting and closing, and [WorkerEvents.bus_task_step]
    those of publishers and consumers; a suspended call may be cancelled.  Where a method is also
    given as one function, a lemma shows that it is its stretches with nothing in between
    ([execute_is_its_stretches], [publish_is_its_stretches], [pop_is_its_stretches],
    [update_file_is_its_sections]).
    Python integers are [Z]; the only machine-width arithmetic in the
    modelled code is MySQL's unsigned columns: a write outside them fails, and the counters of
    the buckets are shown to stay inside ([replay_agrees_with_books]).
    [uuid4] is a supply of strings indexed by a counter in the store ([Prelude.Uuids]): the
    theorems that need distinct identifiers say so.

    ** Files

    Quota (src/server/quota, src/core/model_runtime/usage.py)
    - Usage: the token-usage contract and its validators.
    - Pricing: versioned price rules and the exact charge of one provider attempt.
    - Policy: policies, bindings, balances, and the one policy that governs a principal.
    - Clock: datetimes and their normalisation.
    - PyText: strip, lower, substring and whitespace on UTF-8 bytes, shared with the other parts.
    - Reservation: the pure lifecycle of a reservation.
    - Rollout: which users enforcement applies to.
    - QuotaStore: the tables (policies, bindings, grants, buckets, reservations, ledger,
      concurrency locks) and the row-level helpers of [QuotaService].
    - QuotaService: [admit], [reserve_feature_usage], [release_feature_usage],
      [settle_usage], [reconcile_usage], [finish], [expire_reservations],
      [begin_reservation], [heartbeat] and the deadlock retry wrapper.
    - QuotaInvariants: buckets are running totals of the ledger, by a class of postings
      ([posting_laws]) that every loop over buckets instantiates.
    - QuotaIdentity: uniqueness of what a reservation is found by.
    - QuotaWorld: a concrete deployment for the witnesses.
    - QuotaAdmission, QuotaSettlement: the theorems on admission and on settlement.
    - QuotaManagement: the writers of policies, bindings, prices, grants and
      adjustments ([QuotaManagementService]).
    - QuotaOperations: replay and repair of buckets, provider bills, gifts and resets.
    - QuotaGovernance, QuotaPrices: what no call of the service writes, and the accounts and the
      prices under every call of the managers; QuotaGoverned: the stores service and managers reach together
      ([QuotaGoverned.governed]).
    - QuotaPromises, QuotaRules: what managers can rely on; QuotaStewards: a concrete deployment.
    - Reporting: the durable usage reporter ([DurableModelUsageReporter]): the price and the row of
      a report, its transaction, the re-run after a lost insert, the holds of billable tools.
    - ReportingSafety: the calls that post no usage, the stores reports, service and
      managers reach ([metered]), and the account of an operation; ReportingTools: a hold and its
      release; ReportingPromises: the theorems and their deployment.

    Storage (src/server/storage)
    - Storage: role policies, the account ledger, both adapters' reserve, finalize, release
      and reconcile.
    - StorageSafety: reserved counters equal the open reservations; limits are kept.

    Turns (src/server/application/turn_reliability.py, src/server/worker/runtime.py)
    - Json: the JSON values stored and the encoder whose length is charged to storage.
    - TurnStore, TurnReliability: claims, heartbeats, fenced events and tool operations,
      recovery of stuck Turns, the outbox relay and the loop that runs both.
    - TurnSafety: fencing, leases, event numbering, and recovery against a specification of the
      rows it leaves ([recovered]).
    - OutboxSafety: at-least-once delivery, nothing lost, and the relay loop over any number of rounds.

    Worker agents (src/core, src/server/tools/worker_tool.py)
    - WorkerEvents: the event bus that carries completions to the coordinator.
    - WorkerEventsSafety: nothing lost or doubled however calls interleave; without
      interleaving the bus is one ordered list per session.
    - WorkerTasks: lifecycle table, capacity, cancellation, wait plans, and the system of a
      task manager with its workers.
    - WorkerSafety: the invariant of that system and what follows from it.

    Sandbox (src/server/sandbox)
    - SandboxStore: environments, runtimes, leases, sessions, users and their roles.
    - Sandbox: the runtime state machine, leases, claims from the warm pool with their
      priorities, refills, resets, destruction and reconciliation, transaction by transaction.
    - SandboxSafety: the pool as a step relation, and isolation, fencing and capacity.

    Gateway (src/gateway, src/server/web/websocket.py)
    - GatewayTurns: the Turn rows and the event log of the SQLite repository:
      idempotent creation, status changes, numbered events, cursors, retention, recovery.
    - GatewaySafety: the shape of the rows, what a key finds, settled Turns
      stay settled, and what retention may remove.
    - EventFeed: the broker with its bounded subscriptions, and replay, delivery and the send
      queue of a websocket connection, against the interface [EventLog] of a log.
    - EventFeedSafety: the repository implements [EventLog]; a client sees each event once, in
      order ([EventFeedSafety.connection_run]).

    Model runtime (src/core/model_runtime)
    - ModelUsage: token usage read out of provider responses, chunks and errors.
    - ModelRuntime: the circuit breaker, the classification of errors, retries, failover,
      streaming and the accounting of a call; providers, consumer, reporter and clock are a script.
    - ModelRuntimeSafety: the usages that are reported are valid, and the language of the logs of
      an attempt, of a candidate and of a call.
    - ModelRuntimePromises: what follows from that language, and the breaker as a function of its
      history.

    Knowledge book (src/gateway/repository.py)
    - KnowledgeStore, KnowledgeBook: pages with revisions, drafts and
      publications, assets, files with ordered references, imports, the whiteboard library.
    - KnowledgeSafety: the calls, and the overlapping sections of file changes, as steps that leave
      unpublished pages alone but for the changes that had passed their check ([kw_kept]).
    - KnowledgePublication: round trip of references, optimistic concurrency,
      publication, and packages applied as a whole.
    - KnowledgeWorld: a concrete course, and two flaws of the published side.

    Identity and access (src/core/rbac.py, src/core/identity.py, src/server/rbac, src/server/user,
    src/server/workspace, src/server/classroom_join, src/server/auth, src/server/web/database_auth.py)
    - Authorization: permissions, role packages, scopes, the decision on an object, the seed rows.
    - IdentityStore: the tables, and the view of them the sandbox transactions run on.
    - IdentityCodes: e-mail addresses, one-time codes, the limits on sending them, both endpoints.
    - IdentityAdmin: [RbacService]: principals, roles and permissions, classrooms, audit rows.
    - IdentityAccounts: [UserService], [WorkspaceService] and the requests to join a classroom.
    - IdentityAuth: logins and their limiter, sessions, CSRF, websocket tickets, the worker's check.
    - IdentityFrame: every call as a step, and what no call undoes ([grows]); IdentitySafety: the
      calls that change what a user may do, and a concrete deployment.
    - IdentityPromises, IdentityRoles, IdentityGrants, IdentitySpaces, IdentityLimits: fencing and
      tickets; developers; what roles grant; workspaces and requests; the limits on e-mails.

    Tools (src/core/tool_runtime.py, src/core/tool_safety.py, src/core/mcp_runtime.py)
    - ToolCatalog: descriptors and their validators, the catalog, grants of high-risk tools, the
      policy ([resolve]) and the tool sets built and restored from it.
    - ToolExecution: one call with its retries and audit events, the errors read out of outputs and
      exceptions, batches of calls, what the model is shown of a long result.
    - ToolSafety: what is granted, what a risky invocation presupposes, retries, batches, bounds.
    - ToolLocks: the semaphores and locks around a call, as a state machine; exclusion and progress.
    - McpRuntime: connecting tool servers, discovery, calls and closing, undisturbed and
      overlapping; McpSafety: the names and descriptors of their tools, where each tool of the
      catalog comes from and who owns each open session.

    Context of the models (src/server/agent/compression, src/utils/tokens.py, src/core/session_context.py)
    - ContextLayers: messages, token estimates, marks of synthetic context, halves of tool calls; the
      clearing of old tool results, the folding of old ranges, the summary of a whole history.
    - ContextManager: the hard limit, and [prepare], which runs one layer per call under the lock
      of its session.
    - ContextSnip: cutting a range or the oldest messages out of a history; stored transcripts.
    - ContextSafety: what every prepared view satisfies; ContextFolding: what folding hides and what it
      never hides, summarising again, and a concrete session.
    - SessionKeys: the identity of a session, its storage key in base64, and the directories of states.

    ** What the theorems show

    - Conservation and capacity: [ledger_conservation], [admission_within_capacity],
      and the lemmas [storage_reserved_conservation], [storage_reserve_within_limits],
      [admission_concurrency], [storage_finalize_within_limits].
    - The managers of the quota: [grants_match_ledger], [replay_agrees_with_books],
      and the lemmas [repair_restores_books], [prices_never_overlap], [reset_replaces_credits],
      [create_grant_retry], [retire_undoes_binding], [explain_agrees_with_admission].
    - The reporter: [event_agrees_with_ledger], [report_settles_once], and the lemmas
      [priced_event_is_final], [late_price_charges_once], [cancelled_tool_returns_hold].
    - Exactly once: [settle_exactly_once], and the lemmas [settle_charges_buckets], [admission_retry_idempotent], [created_turn_is_found_again], [finish_idempotent], [finish_releases_hold], [record_operation_idempotent].
    - Fencing and liveness: [stale_worker_fenced],
      [recovery_recovers_every_turn], [recovered_turn_redispatched],
      [outbox_never_loses_a_message], and the lemmas [lease_exclusive], [events_numbered].
    - The worker runtime: [capacity_is_accounted], [stop_task_cancels_subtree],
      [events_neither_lost_nor_repeated], and the lemmas [event_bus_refines_mailbox], [events_delivered_once_in_order], [no_lost_wakeup].
    - The sandbox: [container_serves_one_user], [reset_fences_runtime],
      and the lemmas [refill_within_caps], [claim_ticket_works].
    - The gateway: [gateway_rows_well_formed], [client_sees_events_once_in_order], and the lemmas
      [settled_turn_is_final], [prune_keeps_running_and_newest], [deliver_sends_missing_events].
    - The knowledge book: [readers_see_publications_only], and the lemmas [file_refs_roundtrip],
      [import_applies_package], [stale_draft_refused], [publication_shows_draft].
    - The model runtime: [answer_never_replayed], [attempts_reported_once],
      [circuit_breaker_is_its_history], and the lemma [attempts_within_policy].
    - Identity: [change_fences_credentials], [ticket_opens_one_connection], [active_developer_remains],
      [principal_is_what_roles_grant], [role_grants_read_back], [email_sends_bounded], and the lemmas
      [change_is_announced], [workspace_owner_remains], [join_request_decided_once].
    - Tools: [high_risk_invocation_was_granted], [resolve_grants_exactly],
      [tool_repeated_only_when_safe], [unsafe_call_runs_alone], [locks_exclude], [waiting_ends],
      [mcp_tools_and_sessions_accounted], and the lemmas [mcp_tools_have_open_sessions], [mcp_descriptor_accepted],
      [safe_details_bounded], [compaction_respects_limit].
    - Context: [prepared_view_is_legal], [recent_messages_never_folded], [storage_key_names_session],
      [delete_session_is_exact], and the lemmas [snip_spares_recent], [autocompact_is_idempotent],
      [saved_state_is_own].
    - Pure cores: pricing is exact and total on documented inputs, policy resolution is the
      unique maximum and independent of order, the lifecycle is safe.
    - Behaviour worth knowing, proved of the code as it is: [expiry_is_one_shot],
      [handed_over_operation_refused], [poisoned_turn_stops_relay],
      [poisoned_message_stops_batch], [sync_reserve_ignores_file_limit],
      [rearmed_turn_blocks_user], [rearmed_settlement_charges_both_days],
      [cleanup_counts_removals_twice], [cancelled_unstarted_stays_active],
      [stale_generation_locks_out], [replay_never_returns_on_hole],
      [empty_key_refuses_second_turn], [published_file_rewritten],
      [closing_counts_as_failure], [moved_reservation_charges_twice],
      [asset_served_with_draft_digest], [emptied_role_regains_package],
      [same_answer_twice_fails], [developers_can_lock_themselves_out],
      [failed_discovery_is_never_retried], [lost_boundary_hides_rest], [newest_question_vanishes],
      [circuit_stays_open], [revoked_while_sleeping], [cancelled_connect_leaks],
      [disconnect_overtakes_listing], [stranded_in_overflow], [overlapping_edit].

    ** Parameters, bounds and limits of the model

    Redis is a function from the commands accepted so far to an answer; a reporter that races
    with others takes what they commit between its read and its writes as an argument; SHA-256 is a
    function of what is hashed, the verification of a password hash and the host of an origin are functions
    too ([verify], [netloc]), as are the floating-point token estimate of a message and the share of a limit
    ([rough], [share]) and the model that writes summaries ([summarize]), tokens and codes are drawn by the caller, and the e-mail provider answers through an argument; what Docker and the host probes answer, and which rows a concurrent
    transaction holds, are arguments of the operations of the sandbox, as is the target its
    load estimator computes in floating point; the byte sizes of the tables are a function of the store; both
    storage settings are variables.  Loops are structural over the rows read at their start, and the retry
    wrapper over its six attempts.  Three kinds of definition take fuel: the re-runs of a report, of which a lost insert
    needs one ([report_settles_once]); the loops that empty
    an event queue, with the number of events in it, one of which leaves it each round; and
    [stop_task], whose fuel is the interpreter's recursion limit and may run out, with
    [stop_task_cancels_subtree] giving a bound that is enough.  The replay of a
    websocket connection takes the stores its reads meet as a list, and answers [None] where it would read
    once more.  A call of the model runtime is driven by a list of scripts, one per attempt: delays,
    chunks, errors, the consumer, cancellations and the answers of the reporter; a list that runs out is
    silence, so the definitions recurse on the candidates, the attempts and the reads.  Its clock does
    not advance in computations and its delays are exact where the code has floats; the texts of
    exceptions and of printed containers are variables.  A call of a tool is driven by a script too, one end per attempt, and JSON is decoded
    and Python values are printed by variables ([loads], [str_of]); a tool server is a function
    ([world]) from the number of the connection to what it answers.  The rows of the outbox are
    stamped by the database's clock, a variable ([db_clock]) apart from the clocks of workers and relays;
    [recovered_turn_redispatched] states what it needs of the two ([can_take]).  Where a statement
    gives no order ([SELECT] without [ORDER BY]) the model takes the map's own order, and
    the theorems do not depend on it.  In the identity services a request is
    one transaction, which an exception rolls back, and MySQL's comparisons of text are byte by byte, so
    what a collation would identify is distinct; an e-mail that was delivered in a request that is
    rolled back afterwards is not counted.  [Sandbox.ensure_environment] reads its row once where the service
    reads it without and then with the lock, and [Sandbox.execute_claimed] ends with the transaction of the
    gate, before the wait for the execution semaphore and the command itself.  The transactions
    of the MySQL copy of the knowledge book are not interleaved, and deleting a directory of a session
    does not fail.  Not modelled: problem texts, log lines, snapshot
    notifications after a commit, telemetry spans, the reports over usage events with their alerts and roll-ups, the permanent deletion of accounts, menus
    and audit reports, the HTTP and agent layers, the gateway's orchestration of a Turn, and the rest of the parts the manifest lists as such. *)
From stdpp Require Export base numbers list gmap strings pretty sorting.
From Stdlib Require Export Ascii Lia.

(** ** Notation scope and hint databases *)

Declare Scope nova_scope.
Delimit Scope nova_scope with nova.

Create HintDb nova discriminated.

(** ** Results: a Python call either returns or raises *)

Inductive result (E A : Type) : Type :=
| Ok (a : A)
| Err (e : E).
Arguments Ok {E A} a.
Arguments Err {E A} e.

#[export] Instance result_ret {E} : MRet (result E) := fun A a => Ok a.
#[export] Instance result_bind {E} : MBind (result E) := fun A B f m =>
  match m with Ok a => f a | Err e => Err e end.
#[export] Instance result_fmap {E} : FMap (result E) := fun A B f m =>
  match m with Ok a => Ok (f a) | Err e => Err e end.

Definition is_ok {E A} (r : result E A) : bool :=
  match r with Ok _ => true | Err _ => false end.

(** ** Transactions: state passing with an exception that discards the state *)

Definition ST (S E A : Type) : Type := S -> result E (A * S).

#[export] Instance st_ret {S E} : MRet (ST S E) := fun A a s => Ok (a, s).
#[export] Instance st_bind {S E} : MBind (ST S E) := fun A B f m s =>
  match m s with Ok (a, s') => f a s' | Err e => Err e end.

Definition raise {S E A} (e : E) : ST S E A := fun _ => Err e.
Definition gets {S E A} (f : S -> A) : ST S E A := fun s => Ok (f s, s).
Definition modify {S E} (f : S -> S) : ST S E () := fun s => Ok ((), f s).
Definition lift {S E A} (r : result E A) : ST S E A := fun s =>
  match r with Ok a => Ok (a, s) | Err e => Err e end.
Definition when {S E} (b : bool) (m : ST S E ()) : ST S E () :=
  if b then m else mret ().

(** [for x in l: body(x)]. *)
Fixpoint st_iter {S E A} (body : A -> ST S E ()) (l : list A) : ST S E () :=
  match l with
  | [] => mret ()
  | x :: l' => _ ← body x; st_iter body l'
  end.

(** [with engine.begin() as connection]: a raised exception rolls the transaction back. *)
Definition run_tx {S E A} (m : ST S E A) (s : S) : result E A * S :=
  match m s with Ok (a, s') => (Ok a, s') | Err e => (Err e, s) end.

(** A transaction preserves [I] on every normal return. *)
Definition st_inv {S E A} (I : S -> Prop) (m : ST S E A) : Prop :=
  forall s a s', I s -> m s = Ok (a, s') -> I s'.

(** [m] takes a store with [P] to a result and a store with [Q], whenever it returns. *)
Definition st_triple {S E A} (P : S -> Prop) (m : ST S E A) (Q : A -> S -> Prop) : Prop :=
  forall s a s', P s -> m s = Ok (a, s') -> Q a s'.

(** Every normal return of [m] is a step of the relation [R]. *)
Definition st_moves {S E A} (R : S -> S -> Prop) (m : ST S E A) : Prop :=
  forall s a s', m s = Ok (a, s') -> R s s'.

(** ** Calls on a mutable object: an exception keeps what was done before it *)

Definition Py (S E A : Type) : Type := S -> result E A * S.

#[export] Instance py_ret {S E} : MRet (Py S E) := fun A a s => (Ok a, s).
#[export] Instance py_bind {S E} : MBind (Py S E) := fun A B f m s =>
  match m s with (Ok a, s') => f a s' | (Err e, s') => (Err e, s') end.

Definition py_raise {S E A} (e : E) : Py S E A := fun s => (Err e, s).
Definition py_gets {S E A} (f : S -> A) : Py S E A := fun s => (Ok (f s), s).
Definition py_modify {S E} (f : S -> S) : Py S E () := fun s => (Ok (), f s).
Definition py_when {S E} (b : bool) (m : Py S E ()) : Py S E () := if b then m else mret ().

(** [for x in l: body(x)]. *)
Fixpoint py_iter {S E A} (body : A -> Py S E ()) (l : list A) : Py S E () :=
  match l with
  | [] => mret ()
  | x :: l' => _ ← body x; py_iter body l'
  end.

(** [m] keeps [I], whether it returns or raises. *)
Definition py_inv {S E A} (I : S -> Prop) (m : Py S E A) : Prop := forall s, I s -> I (m s).2.

(** What holds after [m] on [s]: of the answer or the exception, and of the state it leaves. *)
Definition py_wp {S E A} (m : Py S E A) (s : S) (Q : result E A -> S -> Prop) : Prop := Q (m s).1 (m s).2.

(** ** Insertion-ordered dictionaries whose values carry their key *)

Section keyed.
Context {A : Type} (key : A -> string).

Definition kfind (k : string) (l : list A) : option A := List.find (fun x => String.eqb (key x) k) l.
Definition kupdate (k : string) (f : A -> A) (l : list A) : list A :=
  List.map (fun x => if String.eqb (key x) k then f x else x) l.
Definition kremove (k : string) (l : list A) : list A := List.filter (fun x => negb (String.eqb (key x) k)) l.
End keyed.

(** ** Identifiers *)

(** [uuid.uuid4()] as a supply of strings, and [uuid.uuid5(NAMESPACE_URL, name)]. *)
Class Uuids := {
  uuid4 : nat -> string;
  uuid5_url : string -> string;
}.

(** ** Arithmetic and list definitions the components share *)

(** Python's [(n + d - 1) // d]. *)
Definition ceil_div (n d : Z) : Z := ((n + d - 1) `div` d)%Z.

(** [sum(f(x) for x in l)]. *)
Definition sum_by {A} (f : A -> Z) (l : list A) : Z :=
  foldr (fun x acc => (f x + acc)%Z) 0%Z l.

(** Python's stable [sorted(l, key=...)], with the order given as a boolean [<=] on elements:
    an element is inserted before the first one that is strictly greater. *)
Fixpoint insert_by {A} (leb : A -> A -> bool) (x : A) (l : list A) : list A :=
  match l with
  | [] => [x]
  | y :: l' => if leb x y then x :: y :: l' else y :: insert_by leb x l'
  end.
Definition sort_by {A} (leb : A -> A -> bool) (l : list A) : list A :=
  foldr (insert_by leb) [] l.

(** [sorted(set(l))] on strings (code-point order is byte order in UTF-8). *)
Definition string_leb (a b : string) : bool :=
  match String.compare a b with Gt => false | _ => true end.
Definition sorted_set (l : list string) : list string :=
  sort_by string_leb (remove_dups l).

(** [max(xs)] of a non-empty sequence of integers. *)
Definition list_maxZ (d : Z) (l : list Z) : Z := foldr Z.max d l.
Definition list_minZ (d : Z) (l : list Z) : Z := foldr Z.min d l.

(** Membership in a Python set or tuple literal of strings. *)
Definition string_in (x : string) (l : list string) : bool := bool_decide (x ∈ l).

(** [s[:n]] on text: strings are UTF-8, whose continuation bytes belong to the character before. *)
Definition utf8_continuation (c : ascii) : bool :=
  let n := nat_of_ascii c in (128 <=? n)%nat && (n <? 192)%nat.
Fixpoint str_take (n : nat) (s : string) : string :=
  match s with
  | EmptyString => EmptyString
  | String c s' =>
      if utf8_continuation c then String c (str_take n s')
      else match n with O => EmptyString | S m => String c (str_take m s') end
  end.

(** ** SQL [LIKE]: [%] matches any run of characters and [_] any single one *)
Fixpoint sql_like (pat s : string) {struct pat} : bool :=
  match pat with
  | EmptyString => match s with EmptyString => true | _ => false end
  | String "%"%char pat' =>
      (fix any (s : string) : bool :=
         sql_like pat' s || match s with EmptyString => false | String _ s' => any s' end) s
  | String "_"%char pat' => match s with EmptyString => false | String _ s' => sql_like pat' s' end
  | String c pat' =>
      match s with EmptyString => false | String d s' => Ascii.eqb c d && sql_like pat' s' end
  end.

(** ** Lemmas *)

Section results.
Context {S E : Type}.
Implicit Types I : S -> Prop.

Lemma st_bind_ok {A B} (m : ST S E A) (f : A -> ST S E B) s b s'' :
  (m ≫= f) s = Ok (b, s'') <-> exists a s', m s = Ok (a, s') /\ f a s' = Ok (b, s'').
Proof.
  unfold mbind, st_bind. destruct (m s) as [[a s']|e]; split.
  - eauto.
  - intros (a' & s1 & [= <- <-] & H). done.
  - done.
  - intros (a' & s1 & H & _). done.
Qed.

Lemma st_inv_ret {A} I (a : A) : st_inv I (mret a : ST S E A).
Proof. intros s b s' HI [= <- <-]. done. Qed.

Lemma st_inv_raise {A} I (e : E) : st_inv I (raise e : ST S E A).
Proof. intros s b s' HI H. discriminate. Qed.

Lemma st_inv_gets {A} I (f : S -> A) : st_inv I (gets f : ST S E A).
Proof. intros s b s' HI [= <- <-]. done. Qed.

Lemma st_inv_lift {A} I (r : result E A) : st_inv I (lift r : ST S E A).
Proof. intros s b s' HI H. unfold lift in H. destruct r; [|done]. by injection H as <- <-. Qed.

Lemma st_inv_bind {A B} I (m : ST S E A) (f : A -> ST S E B) :
  st_inv I m -> (forall a, st_inv I (f a)) -> st_inv I (m ≫= f).
Proof.
  intros Hm Hf s b s'' HI (a & s' & H1 & H2)%st_bind_ok.
  eapply Hf; [|done]. eapply Hm; done.
Qed.

Lemma st_inv_iter {A} I (body : A -> ST S E ()) l :
  (forall x, st_inv I (body x)) -> st_inv I (st_iter body l).
Proof.
  intros Hb. induction l as [|x l IH]; simpl.
  - apply st_inv_ret.
  - apply st_inv_bind; [done|]. intros _. done.
Qed.

Lemma st_inv_when I b (m : ST S E ()) : st_inv I m -> st_inv I (when b m).
Proof. destruct b; simpl; [done|]. intros _. apply st_inv_ret. Qed.

Lemma st_inv_modify I f : (forall s, I s -> I (f s)) -> st_inv I (modify f : ST S E ()).
Proof. intros Hf s a s' HI [= <- <-]. by apply Hf. Qed.

(** [{{P}} m {{Q}}] on normal returns. *)
Lemma st_triple_bind {A B} (P : S -> Prop) (R : A -> S -> Prop) (Q : B -> S -> Prop)
  (m : ST S E A) (f : A -> ST S E B) :
  st_triple P m R -> (forall a, st_triple (R a) (f a) Q) -> st_triple P (m ≫= f) Q.
Proof.
  intros Hm Hf s b s'' HP (a & s' & H1 & H2)%st_bind_ok.
  eapply Hf; [|done]. eapply Hm; done.
Qed.

Lemma st_triple_ret {A} (Q : A -> S -> Prop) a : st_triple (Q a) (mret a : ST S E A) Q.
Proof. intros s b s' HQ [= <- <-]. done. Qed.

Lemma st_triple_conseq {A} (P P' : S -> Prop) (Q Q' : A -> S -> Prop) (m : ST S E A) :
  st_triple P' m Q' -> (forall s, P s -> P' s) -> (forall a s, Q' a s -> Q a s) -> st_triple P m Q.
Proof. intros Hm HP HQ s a s' Hs Hr. eapply HQ, Hm; [by apply HP|done]. Qed.

(** A loop whose assertion speaks of the elements still to be visited. *)
Lemma st_triple_iter {A} (I : list A -> S -> Prop) (body : A -> ST S E ()) l :
  (forall x l', st_triple (I (x :: l')) (body x) (fun _ => I l')) ->
  st_triple (I l) (st_iter body l) (fun _ => I []).
Proof.
  intros Hb. induction l as [|x l IH]; simpl.
  - intros s a s' HI Hr. injection Hr as <- Hs. by rewrite <- Hs.
  - eapply st_triple_bind; [apply Hb|]. intros ?. exact IH.
Qed.

(** A transaction that preserves [eq s] only reads. *)
Lemma st_readonly {A} (m : ST S E A) s a s' :
  st_inv (eq s) m -> m s = Ok (a, s') -> s' = s.
Proof. intros Hm Hr. symmetry. by eapply Hm. Qed.

(** A raised exception leaves the store as it was. *)
Lemma run_tx_err {A} (m : ST S E A) s e : (run_tx m s).1 = Err e -> (run_tx m s).2 = s.
Proof. unfold run_tx. by destruct (m s) as [[a s']|e']. Qed.

Lemma run_tx_inv {A} I (m : ST S E A) s : st_inv I m -> I s -> I (run_tx m s).2.
Proof.
  intros Hm HI. unfold run_tx. destruct (m s) as [[a s']|e] eqn:Hs; [|done]. eapply Hm; done.
Qed.
End results.

(** Transactions whose leaves are steps of a preorder are steps of it. *)
Section moves.
Context {S E : Type} (R : S -> S -> Prop) `{!PreOrder R}.

Lemma st_moves_reads {A} (m : ST S E A) : (forall s a s', m s = Ok (a, s') -> s' = s) -> st_moves R m.
Proof. intros Hm s a s' ->%Hm. reflexivity. Qed.

Lemma st_moves_ret {A} (a : A) : st_moves R (mret a : ST S E A).
Proof. apply st_moves_reads. by intros s b s' [= _ <-]. Qed.

Lemma st_moves_raise {A} e : st_moves R (raise e : ST S E A).
Proof. by intros s b s'. Qed.

Lemma st_moves_gets {A} (f : S -> A) : st_moves R (gets f : ST S E A).
Proof. apply st_moves_reads. by intros s b s' [= _ <-]. Qed.

Lemma st_moves_lift {A} (r : result E A) : st_moves R (lift r : ST S E A).
Proof. apply st_moves_reads. intros s a s' Hr. unfold lift in Hr. destruct r; [by injection Hr as _ <-|done]. Qed.

Lemma st_moves_modify f : (forall s, R s (f s)) -> st_moves R (modify f : ST S E ()).
Proof. intros Hf s a s' [= _ <-]. apply Hf. Qed.

Lemma st_moves_bind {A B} (m : ST S E A) (f : A -> ST S E B) :
  st_moves R m -> (forall a, st_moves R (f a)) -> st_moves R (m ≫= f).
Proof.
  intros Hm Hf s b s'' (a & s' & H1 & H2)%st_bind_ok. transitivity s'; [by eapply Hm|by eapply Hf].
Qed.

Lemma st_moves_when b (m : ST S E ()) : st_moves R m -> st_moves R (when b m).
Proof. destruct b; [done|]. intros _. apply st_moves_ret. Qed.

Lemma st_moves_iter {A} (body : A -> ST S E ()) l :
  (forall x, st_moves R (body x)) -> st_moves R (st_iter body l).
Proof.
  intros Hb. induction l as [|x l IH]; [apply st_moves_ret|]. apply st_moves_bind; [done|]. by intros _.
Qed.

Lemma st_moves_run {A} (m : ST S E A) s : st_moves R m -> R s (run_tx m s).2.
Proof. intros Hm. unfold run_tx. destruct (m s) as [[a s']|e] eqn:Hr; [by eapply Hm|reflexivity]. Qed.
End moves.

#[export] Hint Resolve st_inv_ret st_inv_raise st_inv_gets st_inv_lift st_inv_when
  st_inv_modify st_inv_iter : nova.

(** Walks the binds, branches and loops of a transaction body whose leaves preserve [I]. *)
Ltac st_inv_step :=
  first
    [ apply st_inv_ret | apply st_inv_raise | apply st_inv_gets | apply st_inv_lift
    | apply st_inv_bind; [|intros ?]
    | apply st_inv_when
    | apply st_inv_iter; intros ?
    | case_match ].

(** The same walk for the steps of a preorder, whose instance is found once the goal names it. *)
Ltac moves_leaf :=
  first [ refine (st_moves_ret _ _) | refine (st_moves_raise _ _) | refine (st_moves_gets _ _)
        | refine (st_moves_lift _ _) ].
Ltac moves_bind := refine (st_moves_bind _ _ _ _ _).
Ltac moves_when := refine (st_moves_when _ _ _ _).
Ltac moves_iter := refine (st_moves_iter _ _ _ _).
Ltac moves_modify := refine (st_moves_modify _ _ _).
Ltac moves_run := match goal with |- _ _ (run_tx _ _).2 => refine (st_moves_run _ _ _ _) end.
Ltac st_moves_step :=
  first [ assumption | moves_leaf | moves_bind; [|intros ?] | moves_when | moves_iter; intros ? | case_match ].

(** Splits a successful run [m s = Ok (a, s')] into the runs of the parts of [m]. *)
Ltac st_run H :=
  repeat match type of H with
  | (_ ≫= _) _ = Ok _ =>
      let a := fresh "a" in let s := fresh "s" in let H1 := fresh "Hrun" in
      apply st_bind_ok in H as (a & s & H1 & H)
  end.

Section sums.
Local Open Scope Z_scope.

Lemma sum_by_app {A} (f : A -> Z) l k : sum_by f (l ++ k) = sum_by f l + sum_by f k.
Proof. unfold sum_by. induction l as [|x l IH]; simpl; lia. Qed.

Lemma sum_by_nonneg {A} (f : A -> Z) l : Forall (fun x => 0 <= f x) l -> 0 <= sum_by f l.
Proof. unfold sum_by. induction 1; simpl; lia. Qed.

Lemma sum_by_ext {A} (f g : A -> Z) l : Forall (fun x => f x = g x) l -> sum_by f l = sum_by g l.
Proof. unfold sum_by. induction 1; simpl; lia. Qed.

Lemma sum_by_zero {A} (f : A -> Z) l : Forall (fun x => f x = 0) l -> sum_by f l = 0.
Proof. unfold sum_by. induction 1; simpl; lia. Qed.

Lemma sum_by_le {A} (f g : A -> Z) l : Forall (fun x => f x <= g x) l -> sum_by f l <= sum_by g l.
Proof. unfold sum_by. induction 1; simpl; lia. Qed.

#[export] Instance sum_by_perm {A} (f : A -> Z) : Proper (Permutation ==> eq) (sum_by f).
Proof. unfold sum_by. induction 1; simpl; lia. Qed.

(** The rounded-up quotient is the least integer whose multiple covers the numerator. *)
Lemma ceil_div_spec n d : 0 < d -> d * ceil_div n d - n < d /\ n <= d * ceil_div n d.
Proof. unfold ceil_div. intros Hd. Z.to_euclidean_division_equations. nia. Qed.

Lemma ceil_div_nonneg n d : 0 < d -> 0 <= n -> 0 <= ceil_div n d.
Proof. unfold ceil_div. intros. apply Z.div_pos; lia. Qed.

Lemma ceil_div_mono n m d : 0 < d -> n <= m -> ceil_div n d <= ceil_div m d.
Proof. unfold ceil_div. intros. apply Z.div_le_mono; lia. Qed.
End sums.

#[export] Hint Resolve sum_by_nonneg ceil_div_nonneg : nova.
#[export] Hint Rewrite @sum_by_app : nova.

(** The sum of a measure over the values of a finite map. *)
Definition map_sum {A} (f : A -> Z) (m : gmap string A) : Z := sum_by f (map_to_list m).*2.

Section map_sums.
Local Open Scope Z_scope.
Context {A : Type} (f : A -> Z).

Lemma map_sum_insert m k v : m !! k = None -> map_sum f (<[k := v]> m) = map_sum f m + f v.
Proof. intros Hk. unfold map_sum. rewrite map_to_list_insert by done.
  rewrite fmap_cons. change (f v + sum_by f (map_to_list m).*2 = sum_by f (map_to_list m).*2 + f v). lia.
Qed.

Lemma map_sum_update m k v x : m !! k = Some x -> map_sum f (<[k := v]> m) = map_sum f m - f x + f v.
Proof.
  intros Hk. rewrite <- insert_delete_eq. rewrite map_sum_insert by apply lookup_delete_eq.
  assert (Hm : map_sum f m = map_sum f (delete k m) + f x).
  { rewrite <- (map_sum_insert _ k) by apply lookup_delete_eq. by rewrite insert_delete_id. }
  lia.
Qed.

Lemma map_sum_alter m k g x : m !! k = Some x -> map_sum f (alter g k m) = map_sum f m - f x + f (g x).
Proof.
  intros Hk. rewrite <- (map_sum_update m k (g x) x Hk). f_equal. apply map_eq. intros j.
  destruct (decide (k = j)) as [->|Hne].
  - by rewrite lookup_alter_eq, lookup_insert_eq, Hk.
  - by rewrite lookup_alter_ne, lookup_insert_ne.
Qed.

Lemma map_sum_nonneg m : (forall k v, m !! k = Some v -> 0 <= f v) -> 0 <= map_sum f m.
Proof.
  intros Hf. unfold map_sum. apply sum_by_nonneg. rewrite Forall_forall. intros v Hv.
  apply list_elem_of_fmap in Hv as ([k v'] & -> & Hk). apply elem_of_map_to_list in Hk. by eapply Hf.
Qed.

Lemma map_sum_ge m k x :
  (forall k v, m !! k = Some v -> 0 <= f v) -> m !! k = Some x -> f x <= map_sum f m.
Proof.
  intros Hf Hk. rewrite <- (insert_delete_id m k x Hk), map_sum_insert by apply lookup_delete_eq.
  assert (0 <= map_sum f (delete k m)); [|lia].
  apply map_sum_nonneg. intros j v [_ Hj]%lookup_delete_Some. by eapply Hf.
Qed.
End map_sums.

Lemma map_sum_empty {A} (f : A -> Z) : map_sum f ∅ = 0%Z.
Proof. unfold map_sum. by rewrite map_to_list_empty. Qed.

Lemma map_sum_fmap {A B} (f : B -> Z) (g : A -> B) (m : gmap string A) :
  map_sum f (g <$> m) = map_sum (fun x => f (g x)) m.
Proof.
  unfold map_sum, sum_by. rewrite map_to_list_fmap, <- list_fmap_compose.
  induction (map_to_list m) as [|[k x] l IH]; cbn; [done|]. cbn in IH. by rewrite IH.
Qed.

Lemma map_sum_le {A} (f g : A -> Z) (m : gmap string A) :
  (forall x, (f x <= g x)%Z) -> (map_sum f m <= map_sum g m)%Z.
Proof. intros Hfg. apply sum_by_le, Forall_true. intros x. apply Hfg. Qed.

(** The number of rows that satisfy a test, as a sum. *)
Lemma map_sum_count {A} (p : A -> bool) (m : gmap string A) :
  Z.of_nat (length (List.filter (fun kv : string * A => p kv.2) (map_to_list m)))
  = map_sum (fun x => if p x then 1 else 0)%Z m.
Proof.
  unfold map_sum, sum_by. induction (map_to_list m) as [|[k x] l IH]; cbn; [done|]. cbn in IH.
  destruct (p x); cbn; lia.
Qed.

Section sorting.
Context {A : Type} (leb : A -> A -> bool).

Lemma insert_by_perm x l : Permutation (insert_by leb x l) (x :: l).
Proof.
  induction l as [|y l IH]; simpl; [done|]. destruct (leb x y); [done|].
  rewrite IH. apply Permutation_swap.
Qed.

Lemma sort_by_perm l : Permutation (sort_by leb l) l.
Proof.
  unfold sort_by. induction l as [|x l IH]; simpl; [done|]. by rewrite insert_by_perm, IH.
Qed.

Lemma insert_by_sorted x l :
  (forall a b, leb a b = false -> leb b a = true) ->
  Sorted (fun a b => leb a b = true) l -> Sorted (fun a b => leb a b = true) (insert_by leb x l).
Proof.
  intros Htot. induction 1 as [|y l Hs IH Hd]; simpl; [by repeat constructor|].
  destruct (leb x y) eqn:Hxy; [by repeat constructor|].
  constructor; [done|]. destruct l as [|z l]; simpl; [constructor; auto|].
  destruct (leb x z); constructor; auto. by inversion Hd.
Qed.

Lemma sort_by_sorted l :
  (forall a b, leb a b = false -> leb b a = true) ->
  Sorted (fun a b => leb a b = true) (sort_by leb l).
Proof.
  intros Htot. unfold sort_by. induction l as [|x l IH]; simpl; [constructor|].
  by apply insert_by_sorted.
Qed.
End sorting.

Lemma string_leb_total a b : string_leb a b = false -> string_leb b a = true.
Proof. unfold string_leb. rewrite (String.compare_antisym a b). by destruct (String.compare b a). Qed.

(** What a stable sort cuts off is not before what it keeps, for any measure the order refines. *)
Lemma sort_by_cut {A} (leb : A -> A -> bool) (R : A -> A -> Prop) n l x y :
  (forall a b, leb a b = false -> leb b a = true) -> (forall a b, leb a b = true -> R a b) -> Transitive R ->
  x ∈ take n (sort_by leb l) -> y ∈ drop n (sort_by leb l) -> R x y.
Proof.
  intros Htot HR Htr. pose proof (sort_by_sorted leb l Htot) as Hs.
  assert (Hss : StronglySorted R (sort_by leb l)).
  { apply Sorted_StronglySorted; [exact Htr|]. induction Hs as [|z k Hs IH Hd]; constructor; [done|].
    destruct Hd; constructor. by apply HR. }
  rewrite <- (take_drop n (sort_by leb l)) in Hss. revert Hss. generalize (take n (sort_by leb l)), (drop n (sort_by leb l)).
  intros k m. induction k as [|z k IH]; intros Hss Hx Hy; [by apply elem_of_nil in Hx|].
  inversion Hss as [|? ? Hk Hall]; subst. apply elem_of_cons in Hx as [->|Hx]; [|by apply IH].
  rewrite Forall_forall in Hall. apply Hall. apply elem_of_app. by right.
Qed.

(** ** [List.filter] with a boolean test *)

Lemma filter_elem_of {A} (p : A -> bool) l x : x ∈ List.filter p l <-> x ∈ l /\ p x = true.
Proof. by rewrite !list_elem_of_In, filter_In. Qed.

Lemma filter_filter_and {A} (p q : A -> bool) l :
  List.filter p (List.filter q l) = List.filter (fun x => q x && p x) l.
Proof.
  induction l as [|x l IH]; simpl; [done|]. destruct (q x); simpl; [destruct (p x)|]; by rewrite IH.
Qed.

Lemma filter_perm {A} (p : A -> bool) l l' :
  Permutation l l' -> Permutation (List.filter p l) (List.filter p l').
Proof.
  induction 1; simpl; repeat case_match; eauto using Permutation_trans, perm_swap.
Qed.

Lemma filter_sublist_of {A} (p : A -> bool) l : List.filter p l `sublist_of` l.
Proof. induction l as [|x l IH]; simpl; [done|]. destruct (p x); by constructor. Qed.

Lemma filter_split {A} (p : A -> bool) l :
  Permutation (List.filter p l ++ List.filter (fun x => negb (p x)) l) l.
Proof.
  induction l as [|x l IH]; simpl; [done|]. destruct (p x); simpl; [by rewrite IH|].
  by rewrite <- Permutation_middle, IH.
Qed.

Lemma StronglySorted_filter {A} (R : A -> A -> Prop) p l : StronglySorted R l -> StronglySorted R (List.filter p l).
Proof.
  induction 1 as [|x l Hs IH Hall]; simpl; [constructor|]. destruct (p x); [|done]. constructor; [done|].
  rewrite Forall_forall in *. intros y [Hy _]%filter_elem_of. by apply Hall.
Qed.

Lemma StronglySorted_fmap {A B} (R : B -> B -> Prop) (f : A -> B) l :
  StronglySorted R (f <$> l) <-> StronglySorted (fun a b => R (f a) (f b)) l.
Proof.
  induction l as [|x l IH]; cbn; [by split; constructor|].
  split; intros [Hs Hall]%StronglySorted_inv; constructor; try (by apply IH); by apply Forall_fmap.
Qed.

Lemma filter_none {A} (p : A -> bool) l : (forall x, x ∈ l -> p x = false) -> List.filter p l = [].
Proof.
  induction l as [|x l IH]; simpl; intros Hp; [done|]. rewrite (Hp x) by apply elem_of_cons, or_introl, eq_refl.
  apply IH. intros y Hy. apply Hp. by right.
Qed.

Lemma filter_all {A} (p : A -> bool) l : (forall x, x ∈ l -> p x = true) -> List.filter p l = l.
Proof.
  induction l as [|x l IH]; simpl; intros Hp; [done|]. rewrite (Hp x) by apply elem_of_cons, or_introl, eq_refl.
  f_equal. apply IH. intros y Hy. apply Hp. by right.
Qed.

Lemma sum_by_filter {A} (f : A -> Z) (p : A -> bool) l :
  (forall x, x ∈ l -> f x = if p x then 1%Z else 0%Z) -> sum_by f l = Z.of_nat (length (List.filter p l)).
Proof.
  unfold sum_by. induction l as [|x l IH]; intros Hf; [done|]. cbn. rewrite Hf by (by left).
  rewrite IH by (intros; apply Hf; by right). destruct (p x); cbn; lia.
Qed.

Lemma existsb_false_elem {A} (p : A -> bool) l x : existsb p l = false -> x ∈ l -> p x = false.
Proof.
  intros Hn Hx. apply not_true_iff_false. intros Hp. apply not_true_iff_false in Hn. apply Hn.
  apply existsb_exists. exists x. split; [by apply list_elem_of_In|done].
Qed.

Lemma list_maxZ_perm d l l' : Permutation l l' -> list_maxZ d l = list_maxZ d l'.
Proof. unfold list_maxZ. induction 1; simpl; lia. Qed.

Lemma list_maxZ_ge d l x : x ∈ l -> (x <= list_maxZ d l)%Z.
Proof.
  unfold list_maxZ. induction l as [|y l IH]; simpl; [by intros ?%not_elem_of_nil|].
  intros [->|Hx]%elem_of_cons; [lia|]. specialize (IH Hx). lia.
Qed.

Lemma list_maxZ_in d l : list_maxZ d l = d \/ list_maxZ d l ∈ l.
Proof.
  unfold list_maxZ. induction l as [|y l IH]; simpl; [by left|].
  rewrite elem_of_cons. destruct (Z.max_spec y (foldr Z.max d l)) as [[? ->]|[? ->]]; tauto.
Qed.

(** A [LIKE] pattern that is a literal prefix followed by [%] tests for that prefix. *)
Definition like_literal (s : string) : bool :=
  forallb (fun c => negb (Ascii.eqb c "%"%char || Ascii.eqb c "_"%char)) (String.list_ascii_of_string s).

Lemma sql_like_any s : sql_like "%" s = true.
Proof. induction s as [|c s IH]; [done|]. exact IH. Qed.

(** A key matches the pattern made of its own prefix, wildcards included. *)
Lemma sql_like_self p s : sql_like (p +:+ "%") (p +:+ s) = true.
Proof.
  induction p as [|c p IH]; [apply sql_like_any|].
  destruct c as [[] [] [] [] [] [] [] []]; try exact IH.
  change (sql_like (p +:+ "%") (String "%"%char (p +:+ s)) ||
    sql_like (String "%"%char (p +:+ "%")) (p +:+ s) = true).
  apply orb_true_iff. right.
  destruct (p +:+ s) as [|d t] eqn:Hps.
  - change (sql_like (p +:+ "%") "" || false = true). by rewrite IH.
  - change (sql_like (p +:+ "%") (String d t) ||
      sql_like (String "%"%char (p +:+ "%")) t = true). by rewrite IH.
Qed.

Lemma sql_like_prefix p s :
  like_literal p = true -> sql_like (p ++ "%") s = String.prefix p s.
Proof.
  unfold like_literal. revert s. induction p as [|c p IH]; intros s Hp.
  - rewrite sql_like_any. by destruct s.
  - simpl in Hp. apply andb_true_iff in Hp as [Hc Hp].
    apply negb_true_iff, orb_false_iff in Hc as [Hc1 Hc2].
    assert (Hstep : sql_like (String c (p ++ "%")) s =
      match s with EmptyString => false | String d s' => Ascii.eqb c d && sql_like (p ++ "%") s' end).
    { destruct c as [[] [] [] [] [] [] [] []]; simpl in *; try discriminate; reflexivity. }
    change (sql_like (String c (p ++ "%")) s = String.prefix (String c p) s).
    rewrite Hstep. destruct s as [|d s]; [done|]. simpl. rewrite IH by done.
    destruct (Ascii.ascii_dec c d) as [->|Hne]; [by rewrite Ascii.eqb_refl|].
    by apply Ascii.eqb_neq in Hne as ->.
Qed.

(** ** Lemmas on calls and on keyed lists *)

Section calls.
Context {S E : Type}.
Implicit Types I : S -> Prop.

Lemma py_inv_ret {A} I (a : A) : py_inv I (mret a : Py S E A).
Proof. by intros s HI. Qed.

Lemma py_inv_raise {A} I (e : E) : py_inv I (py_raise e : Py S E A).
Proof. by intros s HI. Qed.

Lemma py_inv_gets {A} I (f : S -> A) : py_inv I (py_gets f : Py S E A).
Proof. by intros s HI. Qed.

Lemma py_inv_modify I f : (forall s, I s -> I (f s)) -> py_inv I (py_modify f : Py S E ()).
Proof. intros Hf s HI. by apply Hf. Qed.

Lemma py_inv_bind {A B} I (m : Py S E A) (f : A -> Py S E B) :
  py_inv I m -> (forall a, py_inv I (f a)) -> py_inv I (m ≫= f).
Proof.
  intros Hm Hf s HI. unfold mbind, py_bind. specialize (Hm s HI).
  destruct (m s) as [[a|e] s']; [by apply Hf|done].
Qed.

Lemma py_inv_when I b (m : Py S E ()) : py_inv I m -> py_inv I (py_when b m).
Proof. destruct b; simpl; [done|]. intros _. apply py_inv_ret. Qed.

Lemma py_inv_iter {A} I (body : A -> Py S E ()) l : (forall x, py_inv I (body x)) -> py_inv I (py_iter body l).
Proof.
  intros Hb. induction l as [|x l IH]; simpl; [apply py_inv_ret|]. apply py_inv_bind; [done|]. by intros _.
Qed.

Lemma py_bind_eq {A B} (m : Py S E A) (f : A -> Py S E B) s :
  (m ≫= f) s = match m s with (Ok a, s') => f a s' | (Err e, s') => (Err e, s') end.
Proof. unfold mbind, py_bind. by destruct (m s) as [[a|e] s']. Qed.

(** The rules of [py_wp], one for every way to build a call. *)
Implicit Types s : S.

Lemma py_wp_ret {A} (a : A) s (Q : result E A -> S -> Prop) : Q (Ok a) s -> py_wp (mret a) s Q.
Proof. done. Qed.

Lemma py_wp_raise {A} (e : E) s (Q : result E A -> S -> Prop) : Q (Err e) s -> py_wp (py_raise e) s Q.
Proof. done. Qed.

Lemma py_wp_gets {A} (f : S -> A) s (Q : result E A -> S -> Prop) : Q (Ok (f s)) s -> py_wp (py_gets f) s Q.
Proof. done. Qed.

Lemma py_wp_modify (f : S -> S) s (Q : result E () -> S -> Prop) : Q (Ok ()) (f s) -> py_wp (py_modify f) s Q.
Proof. done. Qed.

Lemma py_wp_conseq {A} (m : Py S E A) s (Q R : result E A -> S -> Prop) :
  py_wp m s Q -> (forall r s', Q r s' -> R r s') -> py_wp m s R.
Proof. unfold py_wp. eauto. Qed.

Lemma py_wp_bind {A B} (m : Py S E A) (f : A -> Py S E B) s (Q : result E B -> S -> Prop) :
  py_wp m s (fun r s' => match r with Ok a => py_wp (f a) s' Q | Err e => Q (Err e) s' end) -> py_wp (m ≫= f) s Q.
Proof. unfold py_wp, mbind, py_bind. by destruct (m s) as [[a|e] s']. Qed.
End calls.

#[export] Hint Resolve py_inv_ret py_inv_raise py_inv_gets py_inv_modify py_inv_when py_inv_iter : nova.

Ltac py_inv_step :=
  first
    [ apply py_inv_ret | apply py_inv_raise | apply py_inv_gets
    | apply py_inv_bind; [|intros ?]
    | apply py_inv_when
    | apply py_inv_iter; intros ?
    | case_match ].

Ltac py_wp_step :=
  first [ apply py_wp_bind | apply py_wp_ret | apply py_wp_raise | apply py_wp_gets | apply py_wp_modify ].

Lemma list_ascii_app a b :
  String.list_ascii_of_string (a +:+ b) = String.list_ascii_of_string a ++ String.list_ascii_of_string b.
Proof.
  induction a as [|c a IH]; [done|].
  change (c :: String.list_ascii_of_string (a +:+ b) = c :: (String.list_ascii_of_string a ++ String.list_ascii_of_string b)).
  by rewrite IH.
Qed.

Section keyed_lemmas.
Context {A : Type} (key : A -> string).
Abbreviation keys l := (key <$> l).

Lemma kfind_some k l x : kfind key k l = Some x -> x ∈ l /\ key x = k.
Proof. intros [Hin Hk]%List.find_some. apply String.eqb_eq in Hk. split; [by apply list_elem_of_In|done]. Qed.

Lemma kfind_none k l : kfind key k l = None <-> k ∉ keys l.
Proof.
  unfold kfind. induction l as [|x l IH]; cbn; [set_solver|].
  destruct (String.eqb_spec (key x) k) as [->|Hne]; [set_solver|]. rewrite IH. set_solver.
Qed.

Lemma kfind_in k l x : NoDup (keys l) -> x ∈ l -> key x = k -> kfind key k l = Some x.
Proof.
  unfold kfind. induction l as [|y l IH]; cbn; [set_solver|]. intros [Hni Hnd]%NoDup_cons.
  intros [->|Hx]%elem_of_cons Hk.
  - by rewrite Hk, String.eqb_refl.
  - destruct (String.eqb_spec (key y) k) as [Hy|Hne]; [|by apply IH].
    destruct Hni. rewrite Hy, <- Hk. by apply list_elem_of_fmap_2.
Qed.

Lemma kupdate_keys k f l : (forall x, key (f x) = key x) -> keys (kupdate key k f l) = keys l.
Proof.
  intros Hf. unfold kupdate. induction l as [|x l IH]; cbn; [done|]. cbn in IH. rewrite IH. f_equal.
  destruct (String.eqb _ _); [apply Hf|done].
Qed.

Lemma kupdate_elem k f l x :
  x ∈ kupdate key k f l <-> exists y, y ∈ l /\ x = if String.eqb (key y) k then f y else y.
Proof. unfold kupdate. rewrite list_elem_of_In, in_map_iff. setoid_rewrite list_elem_of_In. naive_solver. Qed.

Lemma kupdate_none k f l : kfind key k l = None -> kupdate key k f l = l.
Proof.
  unfold kfind, kupdate. induction l as [|x l IH]; cbn; [done|].
  destruct (String.eqb (key x) k); [done|]. intros Hl. by rewrite IH.
Qed.

Lemma kupdate_sum (g : A -> Z) k f l x :
  NoDup (keys l) -> kfind key k l = Some x ->
  sum_by g (kupdate key k f l) = (sum_by g l - g x + g (f x))%Z.
Proof.
  unfold kfind, kupdate, sum_by. induction l as [|y l IH]; cbn; [done|]. intros [Hni Hnd]%NoDup_cons.
  destruct (String.eqb_spec (key y) k) as [Hy|Hne].
  - intros Heq. injection Heq as ->. change (List.map _ l) with (kupdate key k f l). rewrite kupdate_none; [lia|].
    apply kfind_none. by rewrite <- Hy.
  - intros Hx. specialize (IH Hnd Hx). lia.
Qed.

Lemma kremove_elem k l x : x ∈ kremove key k l <-> x ∈ l /\ key x <> k.
Proof.
  unfold kremove. rewrite !list_elem_of_In, filter_In, negb_true_iff, String.eqb_neq. done.
Qed.

Lemma kremove_keys k l : NoDup (keys l) -> NoDup (keys (kremove key k l)) /\ k ∉ keys (kremove key k l).
Proof.
  intros Hnd. split.
  - unfold kremove. induction l as [|x l IH]; cbn in *; [done|]. apply NoDup_cons in Hnd as [Hni Hnd].
    destruct (String.eqb (key x) k); cbn; [by apply IH|]. apply NoDup_cons. split; [|by apply IH].
    intros (y & Hy & Hin)%list_elem_of_fmap. apply Hni. apply list_elem_of_fmap. exists y. split; [done|].
    by apply list_elem_of_In, filter_In in Hin as [Hin%list_elem_of_In _].
  - intros (y & Hy & Hin)%list_elem_of_fmap. apply kremove_elem in Hin as [_ Hk]. by destruct Hk.
Qed.

Lemma kremove_none k l : kfind key k l = None -> kremove key k l = l.
Proof.
  unfold kfind, kremove. induction l as [|x l IH]; cbn; [done|].
  destruct (String.eqb (key x) k); cbn; [done|]. intros Hl. by rewrite IH.
Qed.
Lemma kremove_sum (g : A -> Z) k l x :
  NoDup (keys l) -> kfind key k l = Some x -> sum_by g (kremove key k l) = (sum_by g l - g x)%Z.
Proof.
  unfold kfind, kremove, sum_by. induction l as [|y l IH]; cbn; [done|]. intros [Hni Hnd]%NoDup_cons.
  destruct (String.eqb_spec (key y) k) as [Hy|Hne]; cbn.
  - intros Heq. injection Heq as ->. change (List.filter _ l) with (kremove key k l). rewrite kremove_none; [lia|].
    apply kfind_none. by rewrite <- Hy.
  - intros Hx. specialize (IH Hnd Hx). lia.
Qed.

End keyed_lemmas.

Lemma find_app_none {A} (p : A -> bool) l k : List.find p l = None -> List.find p (l ++ k) = List.find p k.
Proof. induction l as [|x l IH]; [done|]. cbn. by destruct (p x). Qed.

Lemma kupdate_split {A} (key : A -> string) f l1 x l2 :
  key x ∉ key <$> l1 -> key x ∉ key <$> l2 -> kupdate key (key x) f (l1 ++ x :: l2) = l1 ++ f x :: l2.
Proof.
  intros H1 H2. unfold kupdate. rewrite List.map_app. cbn. rewrite String.eqb_refl.
  change (List.map _ l1) with (kupdate key (key x) f l1). change (List.map _ l2) with (kupdate key (key x) f l2).
  by rewrite !kupdate_none by (by apply kfind_none).
Qed.

Lemma kfind_last {A} (key : A -> string) l x : key x ∉ key <$> l -> kfind key (key x) (l ++ [x]) = Some x.
Proof. intros Hni. unfold kfind. rewrite find_app_none by (by apply kfind_none). cbn. by rewrite String.eqb_refl. Qed.

Lemma kfind_kupdate {A} (key : A -> string) k f l :
  (forall x, key (f x) = key x) -> kfind key k (kupdate key k f l) = f <$> kfind key k l.
Proof.
  intros Hf. unfold kfind, kupdate. induction l as [|x l IH]; cbn; [done|].
  destruct (String.eqb (key x) k) eqn:Hk; cbn; rewrite ?Hf, Hk; done.
Qed.

Lemma kupdate_fmap {A B} (key : A -> string) (p : A -> B) id f l :
  (forall x, p (f x) = p x) -> p <$> kupdate key id f l = p <$> l.
Proof. intros Hf. unfold kupdate. induction l as [|x l IH]; [done|]. cbn. f_equal; [by destruct (String.eqb _ _)|exact IH]. Qed.

Section filtered_sums.
Local Open Scope Z_scope.

Lemma sum_filter_and {A} (f : A -> Z) p q l :
  Forall (fun x => p x = true -> q x = true \/ f x = 0) l ->
  sum_by f (List.filter (fun x => p x && q x) l) = sum_by f (List.filter p l).
Proof.
  induction 1 as [|x l Hx _ IH]; [done|]. cbn. destruct (p x) eqn:Hp; cbn; [|exact IH].
  destruct (q x); cbn in *; [unfold sum_by in *; cbn; lia|]. destruct Hx as [|Hx]; [done..|].
  unfold sum_by in *. cbn. lia.
Qed.

Lemma sum_filter_single {A} (f : A -> Z) p l x :
  NoDup l -> x ∈ l -> (forall y, y ∈ l -> p y = true -> y = x) ->
  sum_by f (List.filter p l) = if p x : bool then f x else 0.
Proof.
  intros Hnd Hx Hone.
  apply elem_of_Permutation in Hx as [k Hperm]. rewrite Hperm in Hnd. apply NoDup_cons in Hnd as [Hni _].
  assert (Hk : List.filter p k = []).
  { apply filter_none. intros y Hy. destruct (p y) eqn:Hp; [|done]. destruct Hni.
    rewrite <- (Hone y); [done| |done]. rewrite Hperm. by right. }
  rewrite (filter_perm p _ _ Hperm). cbn. rewrite Hk. destruct (p x); [|done]. unfold sum_by. cbn. lia.
Qed.

End filtered_sums.
