(* ===== verification/Usage.v ===== *)
(** * Usage: the token-usage contract of the model runtime

    [core/model_runtime/usage.py]: the frozen pydantic models that carry what one model
    invocation consumed, with their validators as functions that return the value or the
    error the validator raises.  [Pricing] and [QuotaService] are clients: they rely on
    [usage_valid] and [feature_valid], the facts a constructed value satisfies. *)
From S2P Require Import Prelude.
Local Open Scope Z_scope.

(** [UsageSource], [UsageSemantics], [CacheMeasurementStatus] and [InvocationStatus]. *)
Inductive UsageSource := SrcProvider | SrcEstimated | SrcNone.
Inductive UsageSemantics := SemFinal | SemCumulative | SemDelta | SemPartial.
Inductive CacheMeasurementStatus := CacheMeasured | CacheUnavailable.
Inductive UsagePurpose :=
| PCoordinator | PWorker | PCompact | PMemory | PVision | PEvaluation | POther.
Inductive InvocationStatus := Succeeded | Failed | Cancelled | Interrupted.

#[export] Instance UsageSource_eq_dec : EqDecision UsageSource.
Proof. solve_decision. Defined.
#[export] Instance CacheMeasurementStatus_eq_dec : EqDecision CacheMeasurementStatus.
Proof. solve_decision. Defined.
#[export] Instance UsagePurpose_eq_dec : EqDecision UsagePurpose.
Proof. solve_decision. Defined.

Record ModelIdentity := {
  provider : string;
  provider_model : string;
  model_profile : option string;
  preset : string;
  route : option string;
  pricing_key : option string;
  context_window_tokens : option Z;
  max_output_tokens : option Z;
}.

Record UsageAttributionContext := {
  ua_request_id : string;
  ua_user_id : string;
  ua_workspace_id : option string;
  ua_conversation_id : option string;
  ua_turn_id : option string;
  ua_reservation_id : option string;
  ua_worker_id : option string;
  ua_parent_operation_id : option string;
  ua_purpose : UsagePurpose;
}.

Record CanonicalTokenUsage := {
  input_tokens : Z;
  cached_input_tokens : Z;
  cache_miss_input_tokens : Z;
  cache_write_input_tokens : Z;
  output_tokens : Z;
  reasoning_output_tokens : Z;
  total_tokens : Z;
  source : UsageSource;
  cache_status : CacheMeasurementStatus;
  semantics : UsageSemantics;
  provider_response_id : option string;
}.

Record BillableFeatureUsage := {
  visual_input_tokens : Z;
  image_units : Z;
  search_calls : Z;
  link_pages : Z;
}.

Record ModelInvocation := {
  operation_id : string;
  identity : ModelIdentity;
  attribution : UsageAttributionContext;
  attempt : Z;
  fallback_index : Z;
  started_at : Z;
  feature_usage : BillableFeatureUsage;
}.

Record InvocationOutcome := {
  oc_status : InvocationStatus;
  finish_reason : option string;
  error_kind : option string;
  completed_at : Z;
}.

#[export] Instance UsageSemantics_eq_dec : EqDecision UsageSemantics.
Proof. solve_decision. Defined.
#[export] Instance InvocationStatus_eq_dec : EqDecision InvocationStatus.
Proof. solve_decision. Defined.
#[export] Instance ModelIdentity_eq_dec : EqDecision ModelIdentity.
Proof. solve_decision. Defined.
#[export] Instance UsageAttributionContext_eq_dec : EqDecision UsageAttributionContext.
Proof. solve_decision. Defined.
#[export] Instance CanonicalTokenUsage_eq_dec : EqDecision CanonicalTokenUsage.
Proof. solve_decision. Defined.
#[export] Instance BillableFeatureUsage_eq_dec : EqDecision BillableFeatureUsage.
Proof. solve_decision. Defined.
#[export] Instance ModelInvocation_eq_dec : EqDecision ModelInvocation.
Proof. solve_decision. Defined.
#[export] Instance InvocationOutcome_eq_dec : EqDecision InvocationOutcome.
Proof. solve_decision. Defined.

(** What a failed validator says; each constructor is one [raise ValueError] of the models. *)
Inductive usage_error :=
| FieldNegative
| CachedPlusMissExceedsInput
| CachedPlusWriteExceedsInput
| ReasoningNotSubset
| TotalMismatch
| NoneCarriesTokens
| MeasuredNeedsProvider
| VisualAndImageExclusive.

(** [StrictNonNegativeInt] on every token field. *)
Definition usage_fields (u : CanonicalTokenUsage) : list Z :=
  [input_tokens u; cached_input_tokens u; cache_miss_input_tokens u;
   cache_write_input_tokens u; output_tokens u; reasoning_output_tokens u; total_tokens u].

Definition all_nonneg (l : list Z) : bool := forallb (fun z => 0 <=? z) l.

(** [CanonicalTokenUsage]: the field constraints, then [validate_subsets_and_total]. *)
Definition validate_subsets_and_total (u : CanonicalTokenUsage)
  : result usage_error CanonicalTokenUsage :=
  if negb (all_nonneg (usage_fields u)) then Err FieldNegative
  else if input_tokens u <? cached_input_tokens u + cache_miss_input_tokens u
  then Err CachedPlusMissExceedsInput
  else if input_tokens u <? cached_input_tokens u + cache_write_input_tokens u
  then Err CachedPlusWriteExceedsInput
  else if output_tokens u <? reasoning_output_tokens u then Err ReasoningNotSubset
  else if negb (total_tokens u =? input_tokens u + output_tokens u) then Err TotalMismatch
  else if bool_decide (source u = SrcNone) && existsb (fun z => negb (z =? 0)) (usage_fields u)
  then Err NoneCarriesTokens
  else if bool_decide (cache_status u = CacheMeasured) && negb (bool_decide (source u = SrcProvider))
  then Err MeasuredNeedsProvider
  else Ok u.

Definition usage_valid (u : CanonicalTokenUsage) : Prop := validate_subsets_and_total u = Ok u.

(** [BillableFeatureUsage]: the field constraints, then [validate_vision_fallback]. *)
Definition validate_vision_fallback (f : BillableFeatureUsage)
  : result usage_error BillableFeatureUsage :=
  if negb (all_nonneg [visual_input_tokens f; image_units f; search_calls f; link_pages f])
  then Err FieldNegative
  else if negb (visual_input_tokens f =? 0) && negb (image_units f =? 0)
  then Err VisualAndImageExclusive
  else Ok f.

Definition feature_valid (f : BillableFeatureUsage) : Prop := validate_vision_fallback f = Ok f.

(** [BillableFeatureUsage()]. *)
Definition no_features : BillableFeatureUsage :=
  {| visual_input_tokens := 0; image_units := 0; search_calls := 0; link_pages := 0 |}.

(** [worker_usage_attribution]: the parent's attribution with the worker's identity. *)
Definition worker_usage_attribution (parent : option UsageAttributionContext) (worker_id : string)
  : option UsageAttributionContext :=
  match parent with
  | None => None
  | Some p =>
      Some {| ua_request_id := ua_request_id p; ua_user_id := ua_user_id p;
              ua_workspace_id := ua_workspace_id p; ua_conversation_id := ua_conversation_id p;
              ua_turn_id := ua_turn_id p; ua_reservation_id := ua_reservation_id p;
              ua_worker_id := Some worker_id;
              ua_parent_operation_id := ua_parent_operation_id p; ua_purpose := PWorker |}
  end.

(** The facts a constructed usage value carries, in the form arithmetic proofs use. *)
Lemma usage_valid_facts u :
  usage_valid u ->
  0 <= input_tokens u /\ 0 <= cached_input_tokens u /\ 0 <= cache_miss_input_tokens u /\
  0 <= cache_write_input_tokens u /\ 0 <= output_tokens u /\ 0 <= reasoning_output_tokens u /\
  cached_input_tokens u + cache_miss_input_tokens u <= input_tokens u /\
  cached_input_tokens u + cache_write_input_tokens u <= input_tokens u /\
  reasoning_output_tokens u <= output_tokens u /\
  total_tokens u = input_tokens u + output_tokens u.
Proof.
  unfold usage_valid, validate_subsets_and_total, all_nonneg, usage_fields. simpl forallb.
  intros H. repeat case_match; try discriminate.
  repeat match goal with
  | H : negb _ = false |- _ => apply negb_false_iff in H
  | H : _ && _ = true |- _ => apply andb_true_iff in H as [? ?]
  end. lia.
Qed.

Lemma feature_valid_facts f :
  feature_valid f ->
  0 <= visual_input_tokens f /\ 0 <= image_units f /\ 0 <= search_calls f /\ 0 <= link_pages f /\
  (visual_input_tokens f = 0 \/ image_units f = 0).
Proof.
  unfold feature_valid, validate_vision_fallback, all_nonneg. simpl forallb.
  intros H. repeat case_match; try discriminate.
  repeat match goal with
  | H : negb _ = false |- _ => apply negb_false_iff in H
  | H : _ && _ = true |- _ => apply andb_true_iff in H as [? ?]
  | H : _ && _ = false |- _ => apply andb_false_iff in H as [H|H]
  end; lia.
Qed.
