(* ===== verification/Pricing.v ===== *)
(** * Pricing: exact, versioned credits over canonical usage

    [server/quota/pricing.py]: the price rules, the catalogue that selects one active rule
    per pricing key, and the price of one provider attempt.  The catalogue keeps, as the
    source does, a dictionary from pricing key to rules sorted by [effective_from]; instants
    are microseconds of UTC.  The theorems show that a validated catalogue never has two
    active rules, that the priced partitions split the measured tokens exactly, and that the
    charge is the exact rounded-up price. *)
From S2P Require Import Prelude Usage.
Local Open Scope Z_scope.

Definition TOKENS_PER_MILLION : Z := 1000000.

Inductive pricing_error :=
| UnknownPricingKeyError
| UnknownUsageCannotBePricedError
| EstimatedUsageCannotBePricedError
| MissingFeaturePricingError
| PricingValueError
| PricingValidationError.

Record PricingRule := {
  rule_key : string;
  rule_version : string;
  effective_from : Z;
  effective_until : option Z;
  ordinary_input_rate : Z;
  cached_input_rate : Z;
  cache_write_rate : Z;
  output_rate : Z;
  reasoning_output_rate : option Z;
  visual_input_rate : option Z;
  image_unit_micro : option Z;
  search_call_micro : option Z;
  link_page_micro : option Z;
}.

Record PricedUsage := {
  priced_key : string;
  priced_version : string;
  usage_source : UsageSource;
  p_ordinary_input : Z;
  p_cached_input : Z;
  p_cache_write_input : Z;
  p_ordinary_output : Z;
  p_reasoning_output : Z;
  p_visual_input : Z;
  p_image_units : Z;
  p_search_calls : Z;
  p_link_pages : Z;
  credits_micro : Z;
}.

Definition opt_nonneg (o : option Z) : bool := match o with Some z => 0 <=? z | None => true end.
Definition nonempty (s : string) : bool := negb (String.eqb s "").

(** [PricingRule]: the field constraints, then [validate_effective_range]. *)
Definition validate_pricing_rule (r : PricingRule) : result pricing_error PricingRule :=
  if negb (nonempty (rule_key r) && nonempty (rule_version r)
           && all_nonneg [ordinary_input_rate r; cached_input_rate r; cache_write_rate r; output_rate r]
           && forallb opt_nonneg [reasoning_output_rate r; visual_input_rate r; image_unit_micro r;
                                  search_call_micro r; link_page_micro r])
  then Err PricingValidationError
  else match effective_until r with
       | Some u => if u <=? effective_from r then Err PricingValidationError else Ok r
       | None => Ok r
       end.

Definition rule_valid (r : PricingRule) : Prop := validate_pricing_rule r = Ok r.

(** [PricedUsage]: the strict non-negative integer fields. *)
Definition validate_priced_usage (p : PricedUsage) : result pricing_error PricedUsage :=
  if nonempty (priced_key p) && nonempty (priced_version p)
     && all_nonneg [p_ordinary_input p; p_cached_input p; p_cache_write_input p; p_ordinary_output p;
                    p_reasoning_output p; p_visual_input p; p_image_units p; p_search_calls p;
                    p_link_pages p; credits_micro p]
  then Ok p else Err PricingValidationError.

(** ** The catalogue *)

Abbreviation RulesByKey := (gmap string (list PricingRule)).

Definition rule_leb (a b : PricingRule) : bool := effective_from a <=? effective_from b.

(** [grouped[rule.pricing_key].append(rule)] over the rules in order. *)
Definition group_rules (rules : list PricingRule) : RulesByKey :=
  foldl (fun (m : RulesByKey) r => <[rule_key r := default [] (m !! rule_key r) ++ [r]]> m) ∅ rules.

(** One step of the loop over [zip(rules, rules[1:])]. *)
Definition ranges_overlap (current following : PricingRule) : bool :=
  match effective_until current with
  | None => true
  | Some u => effective_from following <? u
  end.

Fixpoint validate_ranges (rules : list PricingRule) : bool :=
  match rules with
  | current :: ((following :: _) as rest) =>
      negb (ranges_overlap current following) && validate_ranges rest
  | _ => true
  end.

(** [PricingCatalog.__init__]: sort each group and refuse overlapping ranges. *)
Definition PricingCatalog (rules : list PricingRule) : result pricing_error RulesByKey :=
  let by_key : RulesByKey := sort_by rule_leb <$> group_rules rules in
  if forallb (fun kr : string * list PricingRule => validate_ranges kr.2) (map_to_list by_key)
  then Ok by_key else Err PricingValueError.

Definition rule_active_at (at_ : Z) (r : PricingRule) : bool :=
  (effective_from r <=? at_)
  && match effective_until r with None => true | Some u => at_ <? u end.

(** [PricingCatalog._active_rule]. *)
Definition active_rule (cat : RulesByKey) (pricing_key : option string) (at_ : Z)
  : result pricing_error PricingRule :=
  match pricing_key with
  | None => Err UnknownPricingKeyError
  | Some k =>
      match List.filter (rule_active_at at_) (default [] (cat !! k)) with
      | [r] => Ok r
      | _ => Err UnknownPricingKeyError
      end
  end.

(** ** The price of one attempt *)

(** The checks that every measured feature has a configured price. *)
Definition check_feature_prices (r : PricingRule) (u : CanonicalTokenUsage)
  (f : BillableFeatureUsage) : result pricing_error () :=
  if input_tokens u <? visual_input_tokens f then Err PricingValueError
  else if negb (visual_input_tokens f =? 0) && bool_decide (visual_input_rate r = None)
  then Err MissingFeaturePricingError
  else if negb (image_units f =? 0) && bool_decide (image_unit_micro r = None)
  then Err MissingFeaturePricingError
  else if negb (search_calls f =? 0) && bool_decide (search_call_micro r = None)
  then Err MissingFeaturePricingError
  else if negb (link_pages f =? 0) && bool_decide (link_page_micro r = None)
  then Err MissingFeaturePricingError
  else Ok ().

(** The input partitions after the measured visual tokens are taken out, in the fixed order
    ordinary, cached, cache write: [(ordinary_input, cached_input, cache_write_input)]. *)
Definition split_input (u : CanonicalTokenUsage) (f : BillableFeatureUsage) : Z * Z * Z :=
  let ordinary_input := input_tokens u - cached_input_tokens u - cache_write_input_tokens u in
  let cached_input := cached_input_tokens u in
  let cache_write_input := cache_write_input_tokens u in
  let visual_remaining := visual_input_tokens f in
  let visual_from_ordinary := Z.min ordinary_input visual_remaining in
  let ordinary_input := ordinary_input - visual_from_ordinary in
  let visual_remaining := visual_remaining - visual_from_ordinary in
  let visual_from_cached := Z.min cached_input visual_remaining in
  let cached_input := cached_input - visual_from_cached in
  let visual_remaining := visual_remaining - visual_from_cached in
  let cache_write_input := cache_write_input - Z.min cache_write_input visual_remaining in
  (ordinary_input, cached_input, cache_write_input).

(** [(ordinary_output, reasoning_output)]. *)
Definition split_output (r : PricingRule) (u : CanonicalTokenUsage) : Z * Z :=
  match reasoning_output_rate r with
  | None => (output_tokens u, 0)
  | Some _ => (output_tokens u - reasoning_output_tokens u, reasoning_output_tokens u)
  end.

(** The per-million numerator and the fixed per-unit credits. *)
Definition price_numerator (r : PricingRule) (u : CanonicalTokenUsage) (f : BillableFeatureUsage) : Z :=
  let '(ordinary_input, cached_input, cache_write_input) := split_input u f in
  let '(ordinary_output, reasoning_output) := split_output r u in
  ordinary_input * ordinary_input_rate r
  + cached_input * cached_input_rate r
  + cache_write_input * cache_write_rate r
  + visual_input_tokens f * default 0 (visual_input_rate r)
  + ordinary_output * output_rate r
  + reasoning_output * default 0 (reasoning_output_rate r).

Definition fixed_credits (r : PricingRule) (f : BillableFeatureUsage) : Z :=
  image_units f * default 0 (image_unit_micro r)
  + search_calls f * default 0 (search_call_micro r)
  + link_pages f * default 0 (link_page_micro r).

(** [PricingCatalog.price]. *)
Definition price (cat : RulesByKey) (inv : ModelInvocation) (u : CanonicalTokenUsage)
  (outcome : InvocationOutcome) (allow_estimated : bool) : result pricing_error PricedUsage :=
  if bool_decide (source u = SrcNone) then Err UnknownUsageCannotBePricedError
  else if bool_decide (source u = SrcEstimated) && negb allow_estimated
  then Err EstimatedUsageCannotBePricedError
  else
    rule ← active_rule cat (pricing_key (identity inv)) (completed_at outcome);
    let f := feature_usage inv in
    _ ← check_feature_prices rule u f;
    let '(ordinary_input, cached_input, cache_write_input) := split_input u f in
    let '(ordinary_output, reasoning_output) := split_output rule u in
    validate_priced_usage
      {| priced_key := rule_key rule;
         priced_version := rule_version rule;
         usage_source := source u;
         p_ordinary_input := ordinary_input;
         p_cached_input := cached_input;
         p_cache_write_input := cache_write_input;
         p_ordinary_output := ordinary_output;
         p_reasoning_output := reasoning_output;
         p_visual_input := visual_input_tokens f;
         p_image_units := image_units f;
         p_search_calls := search_calls f;
         p_link_pages := link_pages f;
         credits_micro :=
           ceil_div (price_numerator rule u f) TOKENS_PER_MILLION + fixed_credits rule f |}.

(** ** The catalogue has one active rule at any time *)

Lemma rule_valid_facts r :
  rule_valid r ->
  0 <= ordinary_input_rate r /\ 0 <= cached_input_rate r /\ 0 <= cache_write_rate r /\
  0 <= output_rate r /\ 0 <= default 0 (reasoning_output_rate r) /\
  0 <= default 0 (visual_input_rate r) /\ 0 <= default 0 (image_unit_micro r) /\
  0 <= default 0 (search_call_micro r) /\ 0 <= default 0 (link_page_micro r) /\
  nonempty (rule_key r) = true /\ nonempty (rule_version r) = true /\
  (forall u, effective_until r = Some u -> effective_from r < u).
Proof.
  unfold rule_valid, validate_pricing_rule, all_nonneg. simpl forallb. intros H.
  case_match eqn:Hc; [discriminate|]. apply negb_false_iff in Hc.
  repeat match goal with H : _ && _ = true |- _ => apply andb_true_iff in H as [? ?] end.
  assert (Ho : forall o, opt_nonneg o = true -> 0 <= default 0 o)
    by (intros [z|]; simpl; lia).
  repeat match goal with
  | H : opt_nonneg _ = true |- _ => apply Ho in H
  end.
  assert (forall u, effective_until r = Some u -> effective_from r < u).
  { intros u Hu. rewrite Hu in H. case_match; [discriminate|lia]. }
  repeat (split; [first [lia|done]|]). done.
Qed.

Lemma rule_valid_range r u : rule_valid r -> effective_until r = Some u -> effective_from r < u.
Proof. intros Hr. apply rule_valid_facts in Hr. destruct_and!. eauto. Qed.

(** In a validated sorted group every later rule starts after every earlier one ended. *)
Lemma validate_ranges_later r rs r' :
  Forall rule_valid (r :: rs) ->
  validate_ranges (r :: rs) = true -> r' ∈ rs ->
  exists u, effective_until r = Some u /\ u <= effective_from r'.
Proof.
  revert r r'. induction rs as [|s rs IH]; intros r r' Hv Hr Hin; [by apply not_elem_of_nil in Hin|].
  apply Forall_cons in Hv as [Hvr Hv]. pose proof Hv as [Hvs _]%Forall_cons.
  cbn [validate_ranges] in Hr. apply andb_true_iff in Hr as [Ho Hr].
  unfold ranges_overlap in Ho. apply negb_true_iff in Ho.
  destruct (effective_until r) as [u|] eqn:Hu; [|discriminate]. exists u. split; [done|].
  apply elem_of_cons in Hin as [->|Hin]; [lia|].
  destruct (IH s r' Hv Hr Hin) as (w & Hw & Hle).
  pose proof (rule_valid_range _ _ Hvs Hw). lia.
Qed.

Lemma validate_ranges_unique rs at_ :
  Forall rule_valid rs -> validate_ranges rs = true ->
  (length (List.filter (rule_active_at at_) rs) <= 1)%nat.
Proof.
  induction rs as [|r rs IH]; intros Hv Hr; simpl; [lia|].
  assert (Htl : validate_ranges rs = true).
  { destruct rs; [done|]. cbn [validate_ranges] in Hr. by apply andb_true_iff in Hr as [_ ?]. }
  pose proof Hv as [_ Hvs]%Forall_cons.
  destruct (rule_active_at at_ r) eqn:Ha; [|by apply IH]. simpl.
  enough (List.filter (rule_active_at at_) rs = []) as -> by (simpl; lia).
  destruct (List.filter (rule_active_at at_) rs) as [|r' l] eqn:Hf; [done|exfalso].
  assert (Hin : r' ∈ List.filter (rule_active_at at_) rs) by (rewrite Hf; constructor).
  apply list_elem_of_In, filter_In in Hin as [Hin Ha']. apply list_elem_of_In in Hin.
  destruct (validate_ranges_later r rs r' Hv Hr Hin) as (u & Hu & Hle).
  unfold rule_active_at in *. rewrite Hu in Ha. lia.
Qed.

Lemma group_rules_in rules (m : RulesByKey) k rs r :
  foldl (fun (m : RulesByKey) r => <[rule_key r := default [] (m !! rule_key r) ++ [r]]> m) m rules !! k = Some rs ->
  r ∈ rs -> r ∈ rules \/ exists rs0, m !! k = Some rs0 /\ r ∈ rs0.
Proof.
  revert m. induction rules as [|x rules IH]; intros m Hk Hr; simpl in Hk; [eauto|].
  destruct (IH _ Hk Hr) as [Hin|(rs0 & H0 & Hin)]; [left; by constructor|].
  rewrite lookup_insert in H0. case_decide as Hx; [|eauto].
  injection H0 as <-. apply elem_of_app in Hin as [Hin|Hin%list_elem_of_singleton]; [|subst; left; constructor].
  right. subst k. destruct (m !! rule_key x) as [rs1|]; [eauto|by apply not_elem_of_nil in Hin].
Qed.

Lemma PricingCatalog_groups rules cat k rs :
  Forall rule_valid rules -> PricingCatalog rules = Ok cat -> cat !! k = Some rs ->
  Forall rule_valid rs /\ validate_ranges rs = true.
Proof.
  unfold PricingCatalog. intros Hv Hc Hk. case_match eqn:Hall; [|discriminate]. injection Hc as <-.
  split.
  - rewrite lookup_fmap in Hk. apply fmap_Some in Hk as (rs0 & Hrs0 & ->).
    rewrite Forall_forall in Hv. apply Forall_forall. intros r Hr.
    rewrite sort_by_perm in Hr.
    destruct (group_rules_in _ _ _ _ _ Hrs0 Hr) as [|(? & Hno & _)]; [by apply Hv|].
    by rewrite lookup_empty in Hno.
  - rewrite forallb_forall in Hall.
    apply (Hall (k, rs)), list_elem_of_In, elem_of_map_to_list. done.
Qed.

(** ** The partitions are exact *)

Lemma split_input_exact u f a b c :
  usage_valid u -> feature_valid f -> visual_input_tokens f <= input_tokens u ->
  split_input u f = (a, b, c) ->
  0 <= a /\ 0 <= b /\ 0 <= c /\ a + b + c + visual_input_tokens f = input_tokens u.
Proof.
  intros Hu%usage_valid_facts Hf%feature_valid_facts Hle [= <- <- <-]. lia.
Qed.

Lemma split_output_exact r u a b :
  usage_valid u -> split_output r u = (a, b) -> 0 <= a /\ 0 <= b /\ a + b = output_tokens u.
Proof.
  intros Hu%usage_valid_facts. unfold split_output. destruct (reasoning_output_rate r); intros [= <- <-]; lia.
Qed.

Lemma price_numerator_nonneg r u f :
  rule_valid r -> usage_valid u -> feature_valid f -> visual_input_tokens f <= input_tokens u ->
  0 <= price_numerator r u f.
Proof.
  intros Hr%rule_valid_facts Hu Hf Hle. unfold price_numerator.
  destruct (split_input u f) as [[a b] c] eqn:Hi. destruct (split_output r u) as [d e] eqn:Ho.
  apply split_input_exact in Hi; try done. apply split_output_exact in Ho; try done.
  apply feature_valid_facts in Hf. destruct_and!.
  repeat apply Z.add_nonneg_nonneg; apply Z.mul_nonneg_nonneg; done.
Qed.

Lemma fixed_credits_nonneg r f : rule_valid r -> feature_valid f -> 0 <= fixed_credits r f.
Proof.
  intros Hr%rule_valid_facts Hf%feature_valid_facts. unfold fixed_credits. destruct_and!.
  repeat apply Z.add_nonneg_nonneg; apply Z.mul_nonneg_nonneg; done.
Qed.

Lemma check_feature_prices_visual r u f :
  check_feature_prices r u f = Ok () -> visual_input_tokens f <= input_tokens u.
Proof. unfold check_feature_prices. intros H. repeat case_match; try discriminate. lia. Qed.

Lemma price_inv cat inv u oc allow p :
  price cat inv u oc allow = Ok p ->
  exists rule, active_rule cat (pricing_key (identity inv)) (completed_at oc) = Ok rule /\
    check_feature_prices rule u (feature_usage inv) = Ok () /\
    priced_key p = rule_key rule /\
    split_input u (feature_usage inv) = (p_ordinary_input p, p_cached_input p, p_cache_write_input p) /\
    split_output rule u = (p_ordinary_output p, p_reasoning_output p) /\
    p_visual_input p = visual_input_tokens (feature_usage inv) /\
    credits_micro p = ceil_div (price_numerator rule u (feature_usage inv)) TOKENS_PER_MILLION
                      + fixed_credits rule (feature_usage inv).
Proof.
  unfold price. intros H. do 2 (case_match; [discriminate|]).
  destruct (active_rule _ _ _) as [rule|e] eqn:Hr; [|discriminate]. simpl in H.
  destruct (check_feature_prices _ _ _) as [[]|e] eqn:Hc; [|discriminate]. simpl in H.
  destruct (split_input _ _) as [[a b] c] eqn:Hi. destruct (split_output _ _) as [d e] eqn:Ho.
  unfold validate_priced_usage in H. case_match; [|discriminate]. injection H as <-.
  exists rule. repeat (split; [done|]). done.
Qed.

Lemma group_rules_complete rules (m : RulesByKey) r :
  (r ∈ rules \/ r ∈ default [] (m !! rule_key r)) ->
  r ∈ default [] (foldl (fun (m : RulesByKey) r =>
        <[rule_key r := default [] (m !! rule_key r) ++ [r]]> m) m rules !! rule_key r).
Proof.
  revert m. induction rules as [|x rules IH]; intros m; simpl.
  - intros [Hn|]; [by apply not_elem_of_nil in Hn|done].
  - rewrite elem_of_cons. intros H. apply IH.
    rewrite lookup_insert. case_decide as Hk; simpl.
    + rewrite <- Hk in *. rewrite elem_of_app, list_elem_of_singleton. tauto.
    + destruct H as [[->|]|]; [done|tauto|tauto].
Qed.

Lemma group_rules_key rules (m : RulesByKey) k rs r :
  (forall k rs r, m !! k = Some rs -> r ∈ rs -> rule_key r = k) ->
  foldl (fun (m : RulesByKey) r =>
    <[rule_key r := default [] (m !! rule_key r) ++ [r]]> m) m rules !! k = Some rs ->
  r ∈ rs -> rule_key r = k.
Proof.
  revert m. induction rules as [|x rules IH]; intros m Hm; simpl; [eauto|]. apply IH.
  intros k' rs' r'. rewrite lookup_insert. case_decide as Hk; [|eauto].
  intros [= <-] [Hin|Hin%list_elem_of_singleton]%elem_of_app; [|congruence].
  destruct (m !! rule_key x) eqn:Hx; [|by apply not_elem_of_nil in Hin]. subst k'. eauto.
Qed.

Lemma PricingCatalog_mem rules cat k r :
  PricingCatalog rules = Ok cat ->
  r ∈ default [] (cat !! k) <-> r ∈ rules /\ rule_key r = k.
Proof.
  unfold PricingCatalog. intros Hc. case_match; [|discriminate]. injection Hc as <-.
  rewrite lookup_fmap. split.
  - destruct (group_rules rules !! k) as [rs|] eqn:Hk; simpl; [|by intros ?%not_elem_of_nil].
    rewrite sort_by_perm. intros Hr. split.
    + destruct (group_rules_in _ _ _ _ _ Hk Hr) as [|(? & Hno & _)]; [done|].
      by rewrite lookup_empty in Hno.
    + eapply group_rules_key; [|done..]. intros k' rs' r'. by rewrite lookup_empty.
  - intros [Hr <-].
    pose proof (group_rules_complete rules ∅ r (or_introl Hr)) as Hin.
    change (foldl _ _ rules) with (group_rules rules) in Hin.
    destruct (group_rules rules !! rule_key r); simpl in *; [by rewrite sort_by_perm|done].
Qed.

(** A validated catalogue resolves a pricing key at an instant to the one rule that is
    active then: lookups succeed exactly on the active rules and never see two of them. *)
Lemma active_rule_iff rules cat k at_ r :
  Forall rule_valid rules -> PricingCatalog rules = Ok cat ->
  active_rule cat (Some k) at_ = Ok r <->
  r ∈ rules /\ rule_key r = k /\ rule_active_at at_ r = true.
Proof.
  intros Hv Hc. pose proof (PricingCatalog_mem rules cat k r Hc) as Hmem.
  assert (Hlen : (length (List.filter (rule_active_at at_) (default [] (cat !! k))) <= 1)%nat).
  { destruct (cat !! k) as [rs|] eqn:Hk; simpl; [|lia].
    destruct (PricingCatalog_groups _ _ _ _ Hv Hc Hk). by apply validate_ranges_unique. }
  assert (Hf : r ∈ List.filter (rule_active_at at_) (default [] (cat !! k)) <->
    r ∈ rules /\ rule_key r = k /\ rule_active_at at_ r = true).
  { rewrite list_elem_of_In, filter_In, <- list_elem_of_In, Hmem. tauto. }
  rewrite <- Hf. unfold active_rule.
  destruct (List.filter _ _) as [|x [|y l]]; simpl in Hlen; [| |lia].
  - split; [discriminate|by intros ?%not_elem_of_nil].
  - rewrite list_elem_of_singleton. split; congruence.
Qed.

(** Pricing charges every measured token once: the priced input partitions and the
    visual tokens add up to the provider's input tokens, the output partitions to its output
    tokens, and no partition is negative. *)
Lemma price_partitions_tokens cat inv u oc allow p :
  usage_valid u -> feature_valid (feature_usage inv) ->
  price cat inv u oc allow = Ok p ->
  p_ordinary_input p + p_cached_input p + p_cache_write_input p + p_visual_input p = input_tokens u /\
  p_ordinary_output p + p_reasoning_output p = output_tokens u /\
  Forall (fun z => 0 <= z)
    [p_ordinary_input p; p_cached_input p; p_cache_write_input p; p_ordinary_output p;
     p_reasoning_output p].
Proof.
  intros Hu Hf (rule & _ & Hc & _ & Hi & Ho & Hv & _)%price_inv.
  apply split_input_exact in Hi; eauto using check_feature_prices_visual.
  apply split_output_exact in Ho; [|done]. rewrite Hv. destruct_and!.
  split; [lia|]. split; [lia|]. by repeat constructor.
Qed.

(** The charge is the exact price rounded up to one micro-credit, plus the fixed unit
    prices: it covers the per-million numerator of the active rule and exceeds it by less
    than one micro-credit. *)
Lemma price_charge_exact cat inv u oc allow p :
  price cat inv u oc allow = Ok p ->
  exists rule,
    active_rule cat (pricing_key (identity inv)) (completed_at oc) = Ok rule /\
    let variable := credits_micro p - fixed_credits rule (feature_usage inv) in
    price_numerator rule u (feature_usage inv) <= TOKENS_PER_MILLION * variable
    < price_numerator rule u (feature_usage inv) + TOKENS_PER_MILLION.
Proof.
  intros (rule & Hr & _ & _ & _ & _ & _ & Hcr)%price_inv. exists rule. split; [done|]. cbv zeta.
  rewrite Hcr. pose proof (ceil_div_spec (price_numerator rule u (feature_usage inv)) TOKENS_PER_MILLION).
  unfold TOKENS_PER_MILLION in *. lia.
Qed.

(** On contract-valid inputs pricing fails only for the documented reasons: unknown or
    unallowed estimated usage, no active rule, or an unpriced feature; the priced result
    itself never fails its own validation. *)
Lemma price_succeeds_iff rules cat inv u oc allow :
  Forall rule_valid rules -> PricingCatalog rules = Ok cat ->
  usage_valid u -> feature_valid (feature_usage inv) ->
  is_ok (price cat inv u oc allow) = true <->
  source u <> SrcNone /\ (source u = SrcEstimated -> allow = true) /\
  exists rule, active_rule cat (pricing_key (identity inv)) (completed_at oc) = Ok rule /\
    check_feature_prices rule u (feature_usage inv) = Ok ().
Proof.
  intros Hv Hc Hu Hf. unfold price. split.
  - intros H. repeat case_bool_decide; simpl in H; try discriminate.
    1: destruct allow; [|discriminate]; simpl in H.
    all: split; [done|]; split; [done|].
    all: destruct (active_rule _ _ _) as [rule|]; [|discriminate]; simpl in H.
    all: exists rule; split; [done|].
    all: destruct (check_feature_prices _ _ _) as [[]|]; [done|discriminate].
  - intros (Hs & Ha & rule & Hr & Hck).
    rewrite bool_decide_false by done.
    assert (bool_decide (source u = SrcEstimated) && negb allow = false) as ->.
    { case_bool_decide; [by rewrite Ha|done]. }
    rewrite Hr. cbn [mbind result_bind]. rewrite Hck. cbn [mbind result_bind].
    assert (Hrule : rule_valid rule).
    { destruct (pricing_key (identity inv)) as [k|]; [|discriminate].
      apply (active_rule_iff rules cat k) in Hr; [|done..]. rewrite Forall_forall in Hv. by apply Hv, Hr. }
    pose proof (check_feature_prices_visual _ _ _ Hck) as Hvis.
    pose proof (price_numerator_nonneg _ _ _ Hrule Hu Hf Hvis).
    pose proof (fixed_credits_nonneg _ _ Hrule Hf).
    destruct (split_input _ _) as [[a b] c] eqn:Hi. destruct (split_output _ _) as [d e] eqn:Ho.
    apply split_input_exact in Hi; try done. apply split_output_exact in Ho; [|done].
    apply feature_valid_facts in Hf. destruct_and!. unfold validate_priced_usage, all_nonneg. simpl.
    destruct (rule_valid_facts _ Hrule) as (_ & _ & _ & _ & _ & _ & _ & _ & _ & -> & -> & _). simpl.
    pose proof (ceil_div_nonneg (price_numerator rule u (feature_usage inv)) TOKENS_PER_MILLION eq_refl).
    repeat match goal with
    | |- context [0 <=? ?z] => rewrite (proj2 (Z.leb_le 0 z)) by lia
    end. done.
Qed.

(** ** A catalogue with two consecutive rules, and one priced vision call *)

Module PricingExample.
Definition rule1 : PricingRule :=
  {| rule_key := "glm"; rule_version := "v1"; effective_from := 0; effective_until := Some 100;
     ordinary_input_rate := 1500000; cached_input_rate := 200000; cache_write_rate := 300000;
     output_rate := 4000000; reasoning_output_rate := Some 5000000; visual_input_rate := Some 2500001;
     image_unit_micro := None; search_call_micro := Some 7; link_page_micro := None |}.
Definition rule2 : PricingRule :=
  {| rule_key := "glm"; rule_version := "v2"; effective_from := 100; effective_until := None;
     ordinary_input_rate := 1; cached_input_rate := 1; cache_write_rate := 1;
     output_rate := 1; reasoning_output_rate := None; visual_input_rate := None;
     image_unit_micro := None; search_call_micro := None; link_page_micro := None |}.
Definition rules : list PricingRule := [rule2; rule1].
Definition cat : RulesByKey := match PricingCatalog rules with Ok c => c | Err _ => ∅ end.
Definition usage : CanonicalTokenUsage :=
  {| input_tokens := 10; cached_input_tokens := 3; cache_miss_input_tokens := 0;
     cache_write_input_tokens := 2; output_tokens := 4; reasoning_output_tokens := 1;
     total_tokens := 14; source := SrcProvider; cache_status := CacheMeasured;
     semantics := SemFinal; provider_response_id := None |}.
Definition attribution0 : UsageAttributionContext :=
  {| ua_request_id := "r"; ua_user_id := "u"; ua_workspace_id := None; ua_conversation_id := None;
     ua_turn_id := None; ua_reservation_id := None; ua_worker_id := None;
     ua_parent_operation_id := None; ua_purpose := PVision |}.
Definition invocation : ModelInvocation :=
  {| operation_id := "op";
     identity := {| provider := "zhipu"; provider_model := "glm-v"; model_profile := None;
                    preset := "p"; route := None; pricing_key := Some "glm";
                    context_window_tokens := None; max_output_tokens := None |};
     attribution := attribution0; attempt := 1; fallback_index := 0; started_at := 0;
     feature_usage := {| visual_input_tokens := 7; image_units := 0; search_calls := 2; link_pages := 0 |} |}.
Definition outcome (t : Z) : InvocationOutcome :=
  {| oc_status := Succeeded; finish_reason := None; error_kind := None; completed_at := t |}.
Definition priced : PricedUsage :=
  {| priced_key := "glm"; priced_version := "v1"; usage_source := SrcProvider;
     p_ordinary_input := 0; p_cached_input := 1; p_cache_write_input := 2; p_ordinary_output := 3;
     p_reasoning_output := 1; p_visual_input := 7; p_image_units := 0; p_search_calls := 2;
     p_link_pages := 0; credits_micro := 50 |}.

Lemma rules_valid : Forall rule_valid rules.
Proof. by repeat constructor. Defined.
End PricingExample.




