(* ===== verification/Policy.v ===== *)
(** * Policy: quota contracts and effective-policy selection

    [server/quota/contracts.py], [server/quota/errors.py] and [server/quota/policy.py]: the
    policy, binding and grant values, the account balance, the machine codes of quota
    decisions, and [resolve_effective_policy], which picks the one policy that governs a
    principal bound through several roles, classrooms and workspaces.  The theorems state
    that the chosen binding is the unique maximum of (precedence, priority), and that the
    order in which bindings are read does not matter. *)
From S2P Require Import Prelude.
Local Open Scope Z_scope.

(** [QuotaErrorCode]. *)
Inductive QuotaErrorCode :=
| POLICY_NOT_FOUND | POLICY_AMBIGUOUS | MODEL_NOT_ALLOWED | REQUEST_LIMIT | CONCURRENCY_LIMIT
| DAILY_EXHAUSTED | WEEKLY_EXHAUSTED | WORKSPACE_EXHAUSTED | RESERVATION_CONFLICT
| RESERVATION_NOT_ACTIVE | SETTLEMENT_CONFLICT | INVALID_USAGE | ADMISSION_DENIED
| UPSTREAM_PROVIDER_QUOTA_EXHAUSTED | OVER_LIMIT | POLICY_VERSION_CONFLICT | POLICY_CONFLICT
| GRANT_CONFLICT | ADJUSTMENT_CONFLICT | BINDING_CONFLICT | INVALID_GRANT | PRICING_RULE_CONFLICT.

#[export] Instance QuotaErrorCode_eq_dec : EqDecision QuotaErrorCode.
Proof. solve_decision. Defined.

Inductive PolicySubjectType := SubDefault | SubRole | SubUser | SubWorkspace | SubClassroom.

#[export] Instance PolicySubjectType_eq_dec : EqDecision PolicySubjectType.
Proof. solve_decision. Defined.

Record QuotaPolicy := {
  policy_id : string;
  code : string;
  version : string;
  request_limit_micro : option Z;
  daily_limit_micro : option Z;
  weekly_limit_micro : option Z;
  concurrency_limit : option Z;
  max_overdraft_micro : Z;
  allowed_model_profiles : list string;
  unlimited : bool;
}.

Record PolicyBinding := {
  subject_type : PolicySubjectType;
  subject_id : string;
  policy : QuotaPolicy;
  priority : Z;
  pb_effective_from : Z;
  pb_effective_until : option Z;
}.

#[export] Instance QuotaPolicy_eq_dec : EqDecision QuotaPolicy.
Proof. solve_decision. Defined.
#[export] Instance PolicyBinding_eq_dec : EqDecision PolicyBinding.
Proof. solve_decision. Defined.

(** A half-open validity window [from <= at < until] on UTC instants. *)
Definition in_window (from : Z) (until : option Z) (at_ : Z) : bool :=
  (from <=? at_) && match until with None => true | Some u => at_ <? u end.

Definition is_effective_at (b : PolicyBinding) (at_ : Z) : bool :=
  in_window (pb_effective_from b) (pb_effective_until b) at_.

(** ** Grants and balances *)

Inductive GrantStatus := GrantActive | GrantExhausted | GrantExpired | GrantRevoked.

#[export] Instance GrantStatus_eq_dec : EqDecision GrantStatus.
Proof. solve_decision. Defined.

Record QuotaGrant := {
  grant_id : string;
  allocated_micro : Z;
  grant_consumed_micro : Z;
  grant_reserved_micro : Z;
  grant_effective_from : Z;
  grant_expires_at : option Z;
  grant_status : GrantStatus;
}.

(** [QuotaGrant]: the field constraints, then [validate_amounts_and_range]. *)
Definition grant_valid (g : QuotaGrant) : bool :=
  (0 <=? allocated_micro g) && (0 <=? grant_consumed_micro g) && (0 <=? grant_reserved_micro g)
  && (grant_consumed_micro g + grant_reserved_micro g <=? allocated_micro g)
  && match grant_expires_at g with
     | Some e => grant_effective_from g <? e
     | None => true
     end.

Definition grant_effective_at (g : QuotaGrant) (at_ : option Z) : bool :=
  if negb (bool_decide (grant_status g = GrantActive)) then false
  else match at_ with
       | None => true
       | Some t => in_window (grant_effective_from g) (grant_expires_at g) t
       end.

Record QuotaBalance := {
  bal_allocated : Z;
  bal_adjustment : Z;
  bal_consumed : Z;
  bal_reserved : Z;
  bal_available : Z;
}.

(** [calculate_balance]. *)
Definition calculate_balance (grants : list QuotaGrant) (adjustment_micro : Z) (at_ : option Z)
  : QuotaBalance :=
  let active_grants := List.filter (fun g => grant_effective_at g at_) grants in
  let allocated := sum_by allocated_micro active_grants in
  let consumed := sum_by grant_consumed_micro active_grants in
  let reserved := sum_by grant_reserved_micro active_grants in
  {| bal_allocated := allocated; bal_adjustment := adjustment_micro; bal_consumed := consumed;
     bal_reserved := reserved;
     bal_available := allocated + adjustment_micro - consumed - reserved |}.

(** ** Effective policy *)

Definition PRECEDENCE (t : PolicySubjectType) : Z :=
  match t with
  | SubDefault => 0
  | SubRole => 1
  | SubClassroom => 2
  | SubWorkspace => 2
  | SubUser => 3
  end.

(** Whether the loop appends [b] to [eligible]. *)
Definition binding_eligible (user_id : string) (workspace_id : option string)
  (role_codes classroom_ids : list string) (at_ : Z) (b : PolicyBinding) : bool :=
  is_effective_at b at_ &&
  match subject_type b with
  | SubDefault => String.eqb (subject_id b) "*"
  | SubUser => String.eqb (subject_id b) user_id
  | SubWorkspace =>
      match workspace_id with Some w => String.eqb (subject_id b) w | None => false end
  | SubRole => string_in (subject_id b) role_codes
  | SubClassroom => string_in (subject_id b) classroom_ids
  end.

(** The candidates left after the precedence cut, then after the priority cut. *)
Definition keep_max (f : PolicyBinding -> Z) (l : list PolicyBinding) : list PolicyBinding :=
  let highest := list_maxZ 0 (f <$> l) in List.filter (fun b => f b =? highest) l.

Definition binding_precedence (b : PolicyBinding) : Z := PRECEDENCE (subject_type b).

Definition select_candidates (eligible : list PolicyBinding) : list PolicyBinding :=
  keep_max priority (keep_max binding_precedence eligible).

(** [resolve_effective_policy]. *)
Definition resolve_effective_policy (bindings : list PolicyBinding) (user_id : string)
  (workspace_id : option string) (role_codes classroom_ids : list string) (at_ : Z)
  : result QuotaErrorCode PolicyBinding :=
  let eligible :=
    List.filter (binding_eligible user_id workspace_id role_codes classroom_ids at_) bindings in
  match eligible with
  | [] => Err POLICY_NOT_FOUND
  | _ =>
      match select_candidates eligible with
      | [b] => Ok b
      | _ => Err POLICY_AMBIGUOUS
      end
  end.

(** [StrictNonNegativeInt] on the priority. *)
Definition binding_valid (b : PolicyBinding) : Prop := 0 <= priority b.

(** The rank that selection maximises: precedence first, priority second. *)
Definition rank_le (a b : PolicyBinding) : Prop :=
  binding_precedence a < binding_precedence b \/
  (binding_precedence a = binding_precedence b /\ priority a <= priority b).

Definition same_rank (a b : PolicyBinding) : Prop :=
  binding_precedence a = binding_precedence b /\ priority a = priority b.

(** ** Lemmas *)

Lemma in_window_iff from until at_ :
  in_window from until at_ = true <-> from <= at_ /\ (forall u, until = Some u -> at_ < u).
Proof.
  unfold in_window. rewrite andb_true_iff, Z.leb_le. destruct until as [u|].
  - rewrite Z.ltb_lt. naive_solver.
  - naive_solver.
Qed.

Lemma keep_max_perm f l l' : Permutation l l' -> Permutation (keep_max f l) (keep_max f l').
Proof.
  intros Hp. unfold keep_max. rewrite (list_maxZ_perm 0 (f <$> l) (f <$> l')) by (by rewrite Hp).
  by apply filter_perm.
Qed.

(** With non-negative keys, [keep_max] keeps exactly the elements of greatest key. *)
Lemma keep_max_elem f l b :
  Forall (fun x => 0 <= f x) l ->
  b ∈ keep_max f l <-> b ∈ l /\ Forall (fun x => f x <= f b) l.
Proof.
  intros Hn. unfold keep_max. rewrite filter_elem_of, Z.eqb_eq. split; intros [Hb H]; split; try done.
  - apply Forall_forall. intros x Hx. rewrite H. apply list_maxZ_ge. by apply list_elem_of_fmap_2.
  - rewrite Forall_forall in H, Hn. pose proof (list_maxZ_ge 0 (f <$> l) (f b)) as Hge.
    specialize (Hge (list_elem_of_fmap_2 f _ _ Hb)).
    destruct (list_maxZ_in 0 (f <$> l)) as [H0|Hin].
    + specialize (Hn b Hb). lia.
    + apply list_elem_of_fmap in Hin as (x & Hx & Hin). specialize (H x Hin). lia.
Qed.

Lemma precedence_nonneg b : 0 <= binding_precedence b.
Proof. unfold binding_precedence. by destruct (subject_type b). Qed.

Lemma select_candidates_elem l b :
  Forall binding_valid l ->
  b ∈ select_candidates l <-> b ∈ l /\ Forall (fun x => rank_le x b) l.
Proof.
  intros Hv. unfold select_candidates.
  assert (Hp : Forall (fun x => 0 <= binding_precedence x) l)
    by (apply Forall_forall; intros; apply precedence_nonneg).
  rewrite keep_max_elem.
  2: { apply Forall_forall. intros x Hx%keep_max_elem; [|done]. rewrite Forall_forall in Hv.
       apply Hv, Hx. }
  rewrite keep_max_elem by done. rewrite !Forall_forall. unfold rank_le. split.
  - intros [[Hb Hprec] Hprio]. split; [done|]. intros x Hx. pose proof (Hprec x Hx) as Hpx.
    destruct (decide (binding_precedence x = binding_precedence b)); [|left; lia].
    right. split; [done|]. apply Hprio, keep_max_elem; [done|]. split; [done|].
    apply Forall_forall. intros y Hy. specialize (Hprec y Hy). simpl in *. lia.
  - intros [Hb Hr]. split.
    + split; [done|]. intros x Hx. specialize (Hr x Hx). lia.
    + intros x Hx%keep_max_elem; [|done]. destruct Hx as [Hx Hmax]. specialize (Hr x Hx).
      rewrite Forall_forall in Hmax. specialize (Hmax b Hb). lia.
Qed.

#[export] Instance rank_le_dec a b : Decision (rank_le a b).
Proof. unfold rank_le. apply _. Defined.
#[export] Instance same_rank_dec a b : Decision (same_rank a b).
Proof. unfold same_rank. apply _. Defined.

Lemma select_candidates_filter l :
  Forall binding_valid l ->
  select_candidates l = List.filter (fun b => bool_decide (Forall (fun x => rank_le x b) l)) l.
Proof.
  intros Hv.
  assert (Hboth : forall b, b ∈ l ->
    binding_precedence b =? list_maxZ 0 (binding_precedence <$> l) = true ->
    (priority b =? list_maxZ 0 (priority <$> keep_max binding_precedence l)) =
    bool_decide (Forall (fun x => rank_le x b) l)).
  { intros b Hb Hp. apply eq_true_iff_eq. rewrite bool_decide_eq_true.
    assert (Hk : b ∈ keep_max binding_precedence l) by (unfold keep_max; by apply filter_elem_of).
    pose proof (select_candidates_elem l b Hv) as Hs. unfold select_candidates in Hs.
    unfold keep_max at 1 in Hs. rewrite filter_elem_of in Hs. tauto. }
  unfold select_candidates, keep_max at 1. unfold keep_max at 2.
  rewrite filter_filter_and. apply filter_ext_in. intros b Hb%list_elem_of_In.
  destruct (binding_precedence b =? _) eqn:Hp; simpl; [by rewrite Hboth|].
  symmetry. apply bool_decide_eq_false. intros Hmax.
  apply Z.eqb_neq in Hp. apply Hp.
  assert (Hs : b ∈ select_candidates l) by (by apply select_candidates_elem).
  unfold select_candidates in Hs. unfold keep_max in Hs at 1.
  apply filter_elem_of in Hs as [Hs _]. unfold keep_max in Hs.
  apply filter_elem_of in Hs as [_ Hs]. lia.
Qed.

Lemma resolve_ok_select el b :
  match el with
  | [] => Err POLICY_NOT_FOUND
  | _ => match select_candidates el with [b] => Ok b | _ => Err POLICY_AMBIGUOUS end
  end = Ok b <-> select_candidates el = [b].
Proof.
  destruct el as [|e el]; [by split|]. destruct (select_candidates _) as [|x [|]]; split; congruence.
Qed.

Lemma resolve_match_perm el el' :
  Permutation el el' ->
  match el with
  | [] => Err POLICY_NOT_FOUND
  | _ => match select_candidates el with [b] => Ok b | _ => Err POLICY_AMBIGUOUS end
  end =
  match el' with
  | [] => Err POLICY_NOT_FOUND
  | _ => match select_candidates el' with [b] => Ok b | _ => Err POLICY_AMBIGUOUS end
  end.
Proof.
  intros Hp.
  assert (Hs : Permutation (select_candidates el) (select_candidates el'))
    by (by apply keep_max_perm, keep_max_perm).
  revert Hs. generalize (select_candidates el) (select_candidates el'). intros s s' Hs.
  assert (Hm : match s with [b] => Ok b | _ => Err POLICY_AMBIGUOUS end =
               match s' with [b] => Ok b | _ => Err POLICY_AMBIGUOUS end).
  { destruct s as [|x [|y s]].
    - apply Permutation_nil_l in Hs. by subst.
    - apply Permutation_singleton_l in Hs. by subst.
    - pose proof (Permutation_length Hs). by destruct s' as [|? [|]]. }
  destruct el, el'; try done.
  - by apply Permutation_nil_cons in Hp.
  - symmetry in Hp. by apply Permutation_nil_cons in Hp.
Qed.

(** Selection returns [b] exactly when [b] is the only binding of greatest rank
    (precedence, then priority) among the bindings that apply to the principal: limits of
    several roles are never combined, and a tie at the top is refused. *)
Lemma resolve_effective_policy_iff bindings uid wid roles classrooms at_ b :
  Forall binding_valid bindings ->
  resolve_effective_policy bindings uid wid roles classrooms at_ = Ok b <->
  let eligible := List.filter (binding_eligible uid wid roles classrooms at_) bindings in
  b ∈ eligible /\ Forall (fun x => rank_le x b) eligible /\
  length (List.filter (fun x => bool_decide (same_rank x b)) eligible) = 1%nat.
Proof.
  intros Hv. cbv zeta. unfold resolve_effective_policy.
  set (el := List.filter _ bindings).
  assert (Hel : Forall binding_valid el).
  { rewrite Forall_forall in *. intros x [Hx _]%filter_elem_of. by apply Hv. }
  assert (Hsel : forall c, c ∈ el -> Forall (fun x => rank_le x c) el ->
    select_candidates el = List.filter (fun x => bool_decide (same_rank x c)) el).
  { intros c Hc Hmax. rewrite select_candidates_filter by done.
    apply filter_ext_in. intros x Hx%list_elem_of_In. apply bool_decide_ext.
    rewrite Forall_forall in *. split.
    - intros Hall. specialize (Hall c Hc). specialize (Hmax x Hx). unfold rank_le, same_rank in *. lia.
    - intros Hs y Hy. specialize (Hmax y Hy). unfold rank_le, same_rank in *. lia. }
  rewrite (resolve_ok_select el). split.
  - intros Hs.
    assert (Hb : b ∈ el /\ Forall (fun x => rank_le x b) el)
      by (apply select_candidates_elem; [done|]; rewrite Hs; constructor).
    destruct Hb as [Hb Hmax]. rewrite <- (Hsel b) by done. by rewrite Hs.
  - intros (Hb & Hmax & Hlen). rewrite <- (Hsel b) in Hlen by done.
    assert (Hin : b ∈ select_candidates el) by (by apply select_candidates_elem).
    destruct (select_candidates el) as [|x [|]]; try discriminate.
    by apply list_elem_of_singleton in Hin as ->.
Qed.

(** The outcome does not depend on the order in which bindings are read from the
    database. *)
Lemma resolve_effective_policy_perm bindings bindings' uid wid roles classrooms at_ :
  Permutation bindings bindings' ->
  resolve_effective_policy bindings uid wid roles classrooms at_ =
  resolve_effective_policy bindings' uid wid roles classrooms at_.
Proof.
  intros Hp. unfold resolve_effective_policy. cbv zeta. by apply resolve_match_perm, filter_perm.
Qed.

(** An account's available credits never fall below its adjustment: every counted grant holds
    at least what it has consumed and reserved. *)
Lemma calculate_balance_covers grants adj at_ :
  Forall (fun g => grant_valid g = true) grants ->
  adj <= bal_available (calculate_balance grants adj at_).
Proof.
  intros Hv. unfold calculate_balance. simpl.
  set (act := List.filter _ grants).
  assert (Hact : Forall (fun g => grant_valid g = true) act).
  { rewrite Forall_forall in *. intros g [Hg _]%filter_elem_of. by apply Hv. }
  assert (sum_by grant_consumed_micro act + sum_by grant_reserved_micro act <= sum_by allocated_micro act).
  { clear -Hact. unfold sum_by. induction Hact as [|g l Hg _ IH]; simpl; [lia|].
    unfold grant_valid in Hg. repeat rewrite andb_true_iff in Hg. lia. }
  lia.
Qed.

(** ** Two roles, one classroom and a user override *)

Module PolicyExample.
Definition pol (n : string) (daily : Z) : QuotaPolicy :=
  {| policy_id := n; code := n; version := "1"; request_limit_micro := None;
     daily_limit_micro := Some daily; weekly_limit_micro := None; concurrency_limit := Some 1;
     max_overdraft_micro := 0; allowed_model_profiles := []; unlimited := false |}.
Definition bind (t : PolicySubjectType) (sid : string) (p : QuotaPolicy) (prio : Z) : PolicyBinding :=
  {| subject_type := t; subject_id := sid; policy := p; priority := prio;
     pb_effective_from := 0; pb_effective_until := None |}.
Definition b_default := bind SubDefault "*" (pol "base" 10) 9.
Definition b_student := bind SubRole "student" (pol "student" 20) 1.
Definition b_teacher := bind SubRole "teacher" (pol "teacher" 30) 2.
Definition b_other := bind SubUser "bob" (pol "bob" 40) 5.
Definition bindings := [b_default; b_student; b_other; b_teacher].
End PolicyExample.


