(* ===== verification/Clock.v ===== *)
(** * Clock: the instants of the quota service

    [_utc], [_db_time] and [_aware] of [server/quota/service.py].  A Python datetime is its
    wall clock in microseconds plus an optional UTC offset (none for a naive value).  The
    service normalises every datetime through these functions before it compares or stores
    it; the round trips below are why the rest of the development uses plain UTC instants
    ([Z], microseconds since 1970-01-01, which was a Thursday). *)
From S2P Require Import Prelude.
Local Open Scope Z_scope.

Record Datetime := { dt_wall : Z; dt_offset : option Z }.

#[export] Instance Datetime_eq_dec : EqDecision Datetime.
Proof. solve_decision. Defined.

(** The UTC instant a datetime denotes, a naive value counting as UTC. *)
Definition instant (d : Datetime) : Z := dt_wall d - default 0 (dt_offset d).

(** [_utc]: [None] is the current time [now_], a naive value is UTC, an aware one is converted. *)
Definition utc (now_ : Datetime) (value : option Datetime) : Datetime :=
  match value with
  | None => now_
  | Some d =>
      match dt_offset d with
      | None => {| dt_wall := dt_wall d; dt_offset := Some 0 |}
      | Some o => {| dt_wall := dt_wall d - o; dt_offset := Some 0 |}
      end
  end.

(** [_db_time]: MySQL DATETIME stores UTC without a timezone marker. *)
Definition db_time (now_ value : Datetime) : Datetime :=
  {| dt_wall := dt_wall (utc now_ (Some value)); dt_offset := None |}.

(** [_aware]: reads a stored value back as UTC. *)
Definition aware (now_ : Datetime) (value : option Datetime) : option Datetime :=
  match value with
  | None => None
  | Some d =>
      match dt_offset d with
      | None => Some {| dt_wall := dt_wall d; dt_offset := Some 0 |}
      | Some _ => Some (utc now_ (Some d))
      end
  end.

Definition SECOND : Z := 1000000.
Definition DAY : Z := 86400 * SECOND.

(** [timedelta(seconds=n)]. *)
Definition seconds (n : Z) : Z := n * SECOND.

(** [at.replace(hour=0, minute=0, second=0, microsecond=0)]. *)
Definition midnight (at_ : Z) : Z := at_ - at_ `mod` DAY.

(** [at.weekday()], Monday being 0. *)
Definition weekday (at_ : Z) : Z := (at_ `div` DAY + 3) `mod` 7.

(** Storing a datetime and reading it back gives the same UTC value, so comparisons in the
    database and in Python are comparisons of the instants denoted. *)
Lemma db_time_roundtrip now_ d :
  aware now_ (Some (db_time now_ d)) = Some (utc now_ (Some d)) /\
  dt_wall (db_time now_ d) = instant d /\
  instant (utc now_ (Some d)) = instant d.
Proof.
  unfold aware, db_time, utc, instant. destruct d as [w [o|]]; simpl; repeat split; lia.
Qed.

Lemma midnight_bounds at_ : midnight at_ <= at_ < midnight at_ + DAY.
Proof.
  unfold midnight. assert (0 < DAY) by done.
  pose proof (Z.mod_pos_bound at_ DAY). lia.
Qed.

Lemma midnight_div at_ : midnight at_ = DAY * (at_ `div` DAY).
Proof. unfold midnight. pose proof (Z.div_mod at_ DAY ltac:(done)). lia. Qed.

Lemma midnight_idem at_ : midnight (midnight at_) = midnight at_.
Proof.
  rewrite (midnight_div at_) at 1. rewrite (midnight_div at_).
  unfold midnight. rewrite Z.mul_comm, Z.mod_mul by done. lia.
Qed.

Lemma weekday_bounds at_ : 0 <= weekday at_ < 7.
Proof. unfold weekday. apply Z.mod_pos_bound. done. Qed.

(** The days before [at_]'s weekday start exactly on a Monday at midnight. *)
Lemma week_start_monday at_ :
  midnight (at_ - weekday at_ * DAY) = DAY * (at_ `div` DAY - weekday at_) /\
  weekday (midnight (at_ - weekday at_ * DAY)) = 0.
Proof.
  assert (Hd : (at_ - weekday at_ * DAY) `div` DAY = at_ `div` DAY - weekday at_).
  { replace (at_ - weekday at_ * DAY) with (at_ + (- weekday at_) * DAY) by lia.
    rewrite Z.div_add by done. lia. }
  split; [by rewrite midnight_div, Hd|].
  rewrite midnight_div, Hd. unfold weekday at 1.
  rewrite Z.mul_comm, Z.div_mul by done.
  unfold weekday. pose proof (Z.div_mod (at_ `div` DAY + 3) 7 ltac:(done)) as Hm.
  replace (at_ `div` DAY - (at_ `div` DAY + 3) `mod` 7 + 3)
    with ((at_ `div` DAY + 3) `div` 7 * 7) by lia.
  by rewrite Z.mod_mul.
Qed.
