(* ===== verification/PyText.v ===== *)
(** * PyText: text functions of Python the components share

    Strings are UTF-8 byte strings.  [str.isspace], [str.strip] and [str.lower] look at characters:
    the characters of several bytes that matter are listed. *)
From S2P Require Import Prelude.

(** The bytes of the whitespace character a string starts with, if it does: the characters for
    which [str.isspace] holds, which are also those [\s] matches. *)
Definition bytes (l : list nat) : string := String.string_of_list_ascii (ascii_of_nat <$> l).
Definition WIDE_SPACES : list string :=
  bytes <$> [[194; 133]; [194; 160]; [225; 154; 128]; [226; 128; 168]; [226; 128; 169]; [226; 128; 175];
             [226; 129; 159]; [227; 128; 128]]%nat
            ++ ((fun n => [226; 128; n]) <$> seq 128 11)%nat.

Definition narrow_space (c : ascii) : bool :=
  let n := nat_of_ascii c in ((9 <=? n)%nat && (n <=? 13)%nat) || ((28 <=? n)%nat && (n <=? 32)%nat).

Definition space_width (s : string) : nat :=
  match s with
  | EmptyString => 0
  | String c _ =>
      if narrow_space c then 1
      else match List.find (fun w => String.prefix w s) WIDE_SPACES with
           | Some w => String.length w
           | None => 0
           end
  end.

(** [not s.strip()]: nothing but whitespace; [skip] counts the bytes of the current character. *)
Fixpoint blank_from (skip : nat) (s : string) : bool :=
  match s with
  | EmptyString => true
  | String _ s' =>
      match skip with
      | S k => blank_from k s'
      | O => match space_width s with O => false | S k => blank_from k s' end
      end
  end.
Definition blank (s : string) : bool := blank_from 0 s.

(** [s.strip()]. *)
Fixpoint lstrip_from (skip : nat) (s : string) : string :=
  match s with
  | EmptyString => EmptyString
  | String _ s' =>
      match skip with
      | S k => lstrip_from k s'
      | O => match space_width s with O => s | S k => lstrip_from k s' end
      end
  end.
Fixpoint rstrip (s : string) : string :=
  if blank s then EmptyString
  else match s with EmptyString => EmptyString | String c s' => String c (rstrip s') end.
Definition strip (s : string) : string := rstrip (lstrip_from 0 s).

(** [s.lower()], exact on the ASCII letters of the result, which are all that is compared: besides the
    ASCII capitals, the Kelvin sign and the dotted capital I have one in their lower case. *)
Definition ascii_lower (c : ascii) : ascii :=
  let n := nat_of_ascii c in if (65 <=? n)%nat && (n <=? 90)%nat then ascii_of_nat (n + 32) else c.
Definition KELVIN : string := bytes [226; 132; 170]%nat.
Definition DOTTED_I : string := bytes [196; 176]%nat.
Fixpoint lower_from (skip : nat) (s : string) : string :=
  match s with
  | EmptyString => EmptyString
  | String c s' =>
      match skip with
      | S k => lower_from k s'
      | O => if String.prefix KELVIN s then String "k" (lower_from 2 s')
             else if String.prefix DOTTED_I s then String "i" (bytes [204; 135]%nat +:+ lower_from 1 s')
             else String (ascii_lower c) (lower_from 0 s')
      end
  end.
Definition lower (s : string) : string := lower_from 0 s.

(** [len(s)]: the bytes that start a character. *)
Definition starts_character (c : ascii) : bool :=
  let n := nat_of_ascii c in (n <? 128)%nat || (192 <=? n)%nat.
Definition char_length (s : string) : nat := length (List.filter starts_character (String.list_ascii_of_string s)).

(** [marker in text]. *)
Fixpoint contains (marker text : string) : bool :=
  String.prefix marker text || match text with EmptyString => false | String _ rest => contains marker rest end.

Example strip_example : strip (String.append " a b" (bytes [194; 160; 10]%nat)) = "a b".
Proof. vm_compute. reflexivity. Qed.

Example lower_example : lower "Rate LIMIT" = "rate limit".
Proof. vm_compute. reflexivity. Qed.
