(* ===== verification/Reservation.v ===== *)
(** * Reservation: the pure lifecycle of one Turn reservation

    [server/quota/reservation.py] over the [Reservation] model of
    [server/quota/contracts.py]: begin, renew, expire, settle and release as total functions
    that return the new value or the error raised, and a step relation over them.
    [model_copy] does not re-run the pydantic validator, so that the terminal-state
    validator holds after every transition is a theorem, by induction on the steps. *)
From S2P Require Import Prelude Clock Policy.
Local Open Scope Z_scope.

(** [ReservationStatus]. *)
Inductive ReservationStatus := reserved | running | settling | settled | released | expired.

#[export] Instance ReservationStatus_eq_dec : EqDecision ReservationStatus.
Proof. solve_decision. Defined.

Record Reservation := {
  reservation_id : string;
  reserved_micro : Z;
  settled_micro : Z;
  status : ReservationStatus;
  res_max_overdraft_micro : Z;
  lease_expires_at : option Z;
  last_heartbeat_at : option Z;
  concurrency_units : Z;
}.

Definition is_terminal (s : ReservationStatus) : bool :=
  match s with settled | released | expired => true | _ => false end.

(** The field constraints and [Reservation.validate_terminal_state]. *)
Definition validate_terminal_state (r : Reservation) : bool :=
  (0 <=? reserved_micro r) && (0 <=? settled_micro r)
  && negb (is_terminal (status r) && negb (reserved_micro r =? 0))
  && negb (bool_decide (status r = released \/ status r = expired) && negb (settled_micro r =? 0)).

Inductive lifecycle_error :=
| QuotaDomainError (code : QuotaErrorCode)
| ValueError.

(** [model_copy(update={"status", "lease_expires_at", "last_heartbeat_at"})]. *)
Definition with_lease (r : Reservation) (s : ReservationStatus) (lease now_ : Z) : Reservation :=
  {| reservation_id := reservation_id r; reserved_micro := reserved_micro r;
     settled_micro := settled_micro r; status := s;
     res_max_overdraft_micro := res_max_overdraft_micro r;
     lease_expires_at := Some lease; last_heartbeat_at := Some now_;
     concurrency_units := concurrency_units r |}.

(** [model_copy(update={"status", "reserved_micro": 0, "settled_micro"})]. *)
Definition with_terminal (r : Reservation) (s : ReservationStatus) (settled_ : Z) : Reservation :=
  {| reservation_id := reservation_id r; reserved_micro := 0; settled_micro := settled_;
     status := s; res_max_overdraft_micro := res_max_overdraft_micro r;
     lease_expires_at := lease_expires_at r; last_heartbeat_at := last_heartbeat_at r;
     concurrency_units := concurrency_units r |}.

Definition begin (r : Reservation) (now_ lease_seconds : Z) : result lifecycle_error Reservation :=
  match status r with
  | reserved =>
      if lease_seconds <=? 0 then Err ValueError
      else Ok (with_lease r running (now_ + seconds lease_seconds) now_)
  | _ => Err (QuotaDomainError RESERVATION_NOT_ACTIVE)
  end.

Definition renew (r : Reservation) (now_ lease_seconds : Z) : result lifecycle_error Reservation :=
  match status r with
  | running =>
      if lease_seconds <=? 0 then Err ValueError
      else if match lease_expires_at r with Some e => e <=? now_ | None => false end
      then Err (QuotaDomainError RESERVATION_NOT_ACTIVE)
      else Ok (with_lease r (status r) (now_ + seconds lease_seconds) now_)
  | _ => Err (QuotaDomainError RESERVATION_NOT_ACTIVE)
  end.

Definition expire (r : Reservation) (at_ : Z) : result lifecycle_error Reservation :=
  match status r with
  | expired => Ok r
  | settled | released => Err (QuotaDomainError RESERVATION_CONFLICT)
  | _ =>
      match lease_expires_at r with
      | None => Err (QuotaDomainError RESERVATION_NOT_ACTIVE)
      | Some e => if at_ <? e then Err (QuotaDomainError RESERVATION_NOT_ACTIVE)
                  else Ok (with_terminal r expired 0)
      end
  end.

Definition settle (r : Reservation) (actual_micro : Z) : result lifecycle_error Reservation :=
  if actual_micro <? 0 then Err ValueError
  else match status r with
  | settled => if settled_micro r =? actual_micro then Ok r
               else Err (QuotaDomainError RESERVATION_CONFLICT)
  | released | expired => Err (QuotaDomainError RESERVATION_CONFLICT)
  | _ => Ok (with_terminal r settled actual_micro)
  end.

Definition release (r : Reservation) : result lifecycle_error Reservation :=
  match status r with
  | released => Ok r
  | settled | expired => Err (QuotaDomainError RESERVATION_CONFLICT)
  | _ => Ok (with_terminal r released 0)
  end.

(** ** The lifecycle as a step relation *)

Inductive action :=
| ABegin (now_ lease_seconds : Z)
| ARenew (now_ lease_seconds : Z)
| AExpire (at_ : Z)
| ASettle (actual_micro : Z)
| ARelease.

Definition apply_action (a : action) (r : Reservation) : result lifecycle_error Reservation :=
  match a with
  | ABegin n l => begin r n l
  | ARenew n l => renew r n l
  | AExpire t => expire r t
  | ASettle m => settle r m
  | ARelease => release r
  end.

Inductive reachable (r0 : Reservation) : Reservation -> Prop :=
| reach_refl : reachable r0 r0
| reach_step r a r' : reachable r0 r -> apply_action a r = Ok r' -> reachable r0 r'.

(** ** Lemmas *)

Lemma apply_action_valid a r r' :
  validate_terminal_state r = true -> apply_action a r = Ok r' -> validate_terminal_state r' = true.
Proof.
  intros Hv H. destruct a; simpl in H; unfold begin, renew, expire, settle, release in H;
    repeat case_match; simplify_eq; try done;
    unfold validate_terminal_state, with_lease, with_terminal in *; simpl in *;
    repeat match goal with H : status _ = _ |- _ => rewrite H in *; clear H end; simpl in *; lia.
Qed.

Lemma apply_action_terminal a r r' :
  is_terminal (status r) = true -> apply_action a r = Ok r' -> r' = r.
Proof.
  intros Ht H. destruct a; simpl in H; unfold begin, renew, expire, settle, release in H;
    destruct (status r); simpl in Ht; try discriminate; repeat case_match; congruence.
Qed.

(** A reservation that satisfies the model validator satisfies it in every reachable
    state, and a terminal reservation never changes again: no replay of any action can move
    it, alter the settled amount or bring back a hold. *)
Lemma reservation_lifecycle_safe r0 r :
  validate_terminal_state r0 = true -> reachable r0 r ->
  validate_terminal_state r = true /\
  (is_terminal (status r) = true -> forall r', reachable r r' -> r' = r).
Proof.
  intros Hv Hr. split.
  - induction Hr; eauto using apply_action_valid.
  - intros Ht r' Hr'. induction Hr' as [|s a s' _ -> Hs]; [done|].
    by eapply apply_action_terminal.
Qed.

(** Terminal actions are replay-safe: repeating the action that closed the reservation
    returns it unchanged, and closing it in a different way is refused. *)
Lemma terminal_action_replay a r r' :
  match a with ASettle _ | ARelease | AExpire _ => True | _ => False end ->
  is_terminal (status r) = false -> apply_action a r = Ok r' ->
  apply_action a r' = Ok r' /\
  forall b, apply_action b r' = Ok r' \/ exists e, apply_action b r' = Err e.
Proof.
  intros Ha Ht H. assert (Hs : is_terminal (status r') = true /\ apply_action a r' = Ok r').
  { destruct a; try done; simpl in H |- *; unfold expire, settle, release in *;
      destruct (status r); simpl in Ht; try discriminate; repeat case_match; simplify_eq; simpl in *;
      try done; try (rewrite Z.eqb_refl; done); lia. }
  destruct Hs as [Hs Hrep]. split; [done|]. intros b.
  destruct (apply_action b r') as [r''|e] eqn:Hb; [left|by eauto].
  f_equal. by eapply apply_action_terminal.
Qed.

(** The lease decides: at any instant a running reservation can be renewed or expired,
    never both and never neither. *)
Lemma renew_xor_expire r at_ lease_seconds e :
  status r = running -> lease_expires_at r = Some e -> 0 < lease_seconds ->
  (is_ok (renew r at_ lease_seconds) = true /\ is_ok (expire r at_) = false /\ at_ < e) \/
  (is_ok (renew r at_ lease_seconds) = false /\ is_ok (expire r at_) = true /\ e <= at_).
Proof.
  intros Hs Hl Hp. unfold renew, expire. rewrite Hs, Hl.
  destruct (Z.leb_spec lease_seconds 0); [lia|].
  destruct (Z.leb_spec e at_), (Z.ltb_spec at_ e); simpl; (left; split_and!; [done..|lia]) || (right; split_and!; [done..|lia]) || lia.
Qed.

Module ReservationExample.
Definition r0 : Reservation :=
  {| reservation_id := "res"; reserved_micro := 50; settled_micro := 0; status := reserved;
     res_max_overdraft_micro := 0; lease_expires_at := None; last_heartbeat_at := None;
     concurrency_units := 1 |}.
Definition r1 : Reservation := with_lease r0 running (seconds 30) 0.
Definition r2 : Reservation := with_terminal r1 settled 20.
End ReservationExample.


