(* ===== verification/Rollout.v ===== *)
(** * Rollout: which users quota enforcement applies to

    [server/quota/rollout.py].  The SHA-256 digest is a parameter: [bucket_hash key] stands
    for [int(sha256(key).hexdigest()[:8], 16)], of which the model uses only that it is a
    function of the key.  Configuration strings are split and stripped on ASCII white space. *)
From S2P Require Import Prelude.
Local Open Scope Z_scope.

(** [str.isspace] on the ASCII range. *)
Definition is_space (c : ascii) : bool :=
  let n := nat_of_ascii c in
  (Nat.leb 9 n && Nat.leb n 13) || (Nat.leb 28 n && Nat.leb n 32).

Fixpoint lstrip (s : string) : string :=
  match s with
  | EmptyString => EmptyString
  | String c s' => if is_space c then lstrip s' else s
  end.

Fixpoint rstrip (s : string) : string :=
  match s with
  | EmptyString => EmptyString
  | String c s' =>
      match rstrip s' with
      | EmptyString => if is_space c then EmptyString else String c EmptyString
      | t => String c t
      end
  end.

(** [s.strip()]. *)
Definition strip (s : string) : string := rstrip (lstrip s).

(** [s.split(sep)] for a one-character separator. *)
Fixpoint split_char (sep : ascii) (s : string) : list string :=
  match s with
  | EmptyString => [EmptyString]
  | String c s' =>
      if Ascii.eqb c sep then EmptyString :: split_char sep s'
      else match split_char sep s' with
           | [] => [String c EmptyString]
           | w :: ws => String c w :: ws
           end
  end.

(** What a configuration entry may hold: nothing, a comma-separated string, or an iterable. *)
Inductive ConfigValue := CNone | CStr (s : string) | CIter (l : list string) | COther.

(** [_values]. *)
Definition values (v : ConfigValue) : gset string :=
  let keep l := list_to_set (List.filter (fun w => negb (String.eqb w "")) (strip <$> l)) in
  match v with
  | CNone | COther => ∅
  | CStr s => keep (split_char "," s)
  | CIter l => keep l
  end.

Record QuotaRollout := {
  global_enabled : bool;
  percentage : Z;
  user_ids : gset string;
  workspace_ids : gset string;
}.

(** [__post_init__]: [None] is the ValueError. *)
Definition post_init (r : QuotaRollout) : option QuotaRollout :=
  if (0 <=? percentage r) && (percentage r <=? 100) then Some r else None.

Definition configured (r : QuotaRollout) : bool :=
  global_enabled r || negb (percentage r =? 0)
  || negb (bool_decide (user_ids r = ∅)) || negb (bool_decide (workspace_ids r = ∅)).

(** [from_config], the percentage entry being an integer when present. *)
Definition from_config (percentage_value : option Z) (users workspaces : ConfigValue)
  (global_enabled_ : bool) : option QuotaRollout :=
  let configured_percentage := percentage_value in
  let pct :=
    if global_enabled_
       && match configured_percentage with None => true | Some p => p =? 0 end
    then 100
    else default 0 configured_percentage in
  post_init {| global_enabled := global_enabled_; percentage := pct;
               user_ids := values users; workspace_ids := values workspaces |}.

Section rollout.
Variable bucket_hash : string -> Z.

Definition rollout_key (user_id : string) (workspace_id : option string) : string :=
  default "" workspace_id +:+ ":" +:+ user_id.

(** The allow lists. *)
Definition allow_listed (r : QuotaRollout) (user_id : string) (workspace_id : option string) : bool :=
  bool_decide (user_id ∈ user_ids r)
  || match workspace_id with Some w => bool_decide (w ∈ workspace_ids r) | None => false end.

(** [enabled_for]. *)
Definition enabled_for (r : QuotaRollout) (user_id : string) (workspace_id : option string) : bool :=
  if allow_listed r user_id workspace_id then true
  else if global_enabled r && (percentage r =? 0) then true
  else if percentage r =? 0 then false
  else if 100 <=? percentage r then true
  else bucket_hash (rollout_key user_id workspace_id) `mod` 100 <? percentage r.

(** Raising the percentage only ever adds users: whoever is enrolled at one percentage
    stays enrolled at every higher one with the same allow lists, so a staged rollout is
    stable. *)
Lemma enabled_for_monotone r r' u w :
  global_enabled r = false -> global_enabled r' = false ->
  user_ids r ⊆ user_ids r' -> workspace_ids r ⊆ workspace_ids r' ->
  0 <= percentage r <= percentage r' ->
  enabled_for r u w = true -> enabled_for r' u w = true.
Proof.
  intros Hg Hg' Hu Hw Hp H. unfold enabled_for in *. rewrite Hg' in *. rewrite Hg in H. simpl in *.
  destruct (allow_listed r' u w) eqn:Ha'; [done|].
  assert (allow_listed r u w = false) as Ha.
  { unfold allow_listed in *. apply orb_false_iff in Ha' as [H1 H2]. apply orb_false_iff. split.
    - apply bool_decide_eq_false. apply bool_decide_eq_false in H1. set_solver.
    - destruct w; [|done]. apply bool_decide_eq_false. apply bool_decide_eq_false in H2. set_solver. }
  rewrite Ha in H.
  destruct (Z.eqb_spec (percentage r) 0); [discriminate|].
  destruct (Z.eqb_spec (percentage r') 0); [lia|].
  destruct (Z.leb_spec 100 (percentage r')); [done|].
  destruct (Z.leb_spec 100 (percentage r)); [lia|]. lia.
Qed.

(** A global switch with no (or zero) percentage enrols everyone. *)
Lemma from_config_global r users workspaces p u w :
  p = None \/ p = Some 0 -> from_config p users workspaces true = Some r -> enabled_for r u w = true.
Proof.
  intros Hp.
  unfold from_config, post_init. destruct Hp as [-> | ->]; simpl; intros [= <-];
    unfold enabled_for; simpl; by case_match.
Qed.
End rollout.

Module RolloutExample.
Definition hash (k : string) : Z := Z.of_nat (String.length k).
Definition r (p : Z) : QuotaRollout :=
  {| global_enabled := false; percentage := p; user_ids := ∅; workspace_ids := ∅ |}.
End RolloutExample.

