(* ===== verification/QuotaStore.v ===== *)
(** * QuotaStore: the tables of the quota service and its row-level helpers

    The rows of [server/quota/models.py] and the private helpers of [QuotaService]
    ([server/quota/service.py]) that read and write them.  Keyed tables are finite maps from
    the primary key, the ledger is the list of its rows in insertion order, and a scan of a
    keyed table visits its rows in the map's own order, since the source's [SELECT]s give
    none.  Inserts fail with [IntegrityError] on the unique constraints the table declares.
    Identifiers come from the [Uuids] interface.  Not modelled: the texts of problems, and the
    time stamps of rows that are only shown. *)
From S2P Require Import Prelude Clock Usage Pricing Policy Reservation.
Local Open Scope Z_scope.

Inductive OwnerType := OUser | OWorkspace | OClassroom.
Inductive BucketType := Daily | Weekly.

#[export] Instance OwnerType_eq_dec : EqDecision OwnerType.
Proof. solve_decision. Defined.
#[export] Instance BucketType_eq_dec : EqDecision BucketType.
Proof. solve_decision. Defined.

(** ** Rows *)

Record PolicyRow := {
  po_policy : QuotaPolicy;
  po_name : string;
  po_status : string;
  po_effective_from : Z;
  po_effective_until : option Z;
  po_created_by : string;
}.

Record BindingRow := {
  bi_id : string;
  bi_subject_type : PolicySubjectType;
  bi_subject_id : string;
  bi_policy_id : string;
  bi_priority : Z;
  bi_status : string;
  bi_effective_from : Z;
  bi_effective_until : option Z;
}.

Record ClassroomRow := { cl_id : string; cl_workspace_id : string; cl_status : string }.

Record PricingRuleRow := {
  prr_id : string;
  prr_rule : PricingRule;
  prr_status : string;
  prr_created_by : string;
}.

Record GrantRow := {
  gr_id : string;
  gr_owner_type : OwnerType;
  gr_owner_id : string;
  gr_bucket_type : BucketType;
  gr_period_start : Z;
  gr_period_end : Z;
  gr_allocated_micro : Z;
  gr_status : string;
  gr_effective_from : Z;
  gr_expires_at : option Z;
  gr_source_type : string;
  gr_source_id : option string;
  gr_reason : string;
  gr_created_by : string;
  gr_idempotency_key : string;
  gr_revoked_at : option Z;
  gr_revoked_by : option string;
  gr_revocation_key : option string;
  gr_created_at : Z;
}.

Record AdjustmentRow := {
  ad_id : string;
  ad_owner_type : OwnerType;
  ad_owner_id : string;
  ad_bucket_type : BucketType;
  ad_period_start : Z;
  ad_period_end : Z;
  ad_amount_micro : Z;
  ad_actor_user_id : string;
  ad_reason : string;
  ad_idempotency_key : string;
  ad_created_at : Z;
}.

Record BucketRow := {
  b_id : string;
  b_owner_type : OwnerType;
  b_owner_id : string;
  b_policy_id : string;
  b_policy_version : string;
  b_bucket_type : BucketType;
  b_period_start : Z;
  b_period_end : Z;
  b_limit_micro : option Z;
  b_consumed_micro : Z;
  b_reserved_micro : Z;
  b_limit_revision : Z;
  b_effective_policy_version : string;
  b_version : Z;
  b_over_limit : bool;
  b_created_at : Z;
  b_updated_at : Z;
}.

Record LockRow := { lk_active_units : Z; lk_version : Z; lk_updated_at : Z }.

(** The JSON of [policy_snapshot_json], by the keys that are read back. *)
Record PolicySnapshot := {
  ps_policy : QuotaPolicy;
  ps_request_limit_micro : option Z;
  ps_overdrafts : gmap string Z;
  ps_base_source : PolicySubjectType * string;
  ps_workspace_source : option (PolicySubjectType * string);
  ps_classroom_sources : list string;
}.

Record ReservationRow := {
  r_id : string;
  r_turn_id : string;
  r_user_id : string;
  r_workspace_id : option string;
  r_policy_id : string;
  r_policy_version : string;
  r_snapshot : PolicySnapshot;
  r_idempotency_key : string;
  r_reserved_micro : Z;
  r_settled_micro : Z;
  r_status : ReservationStatus;
  r_lease_expires_at : Z;
  r_last_heartbeat_at : Z;
  r_max_overdraft_micro : Z;
  r_concurrency_units : Z;
  r_over_limit : bool;
  r_created_at : Z;
  r_updated_at : Z;
}.

(** [metadata_json]: the keys the service writes, each absent or present. *)
Record LedgerMeta := {
  m_turn_id : option string;
  m_bucket_type : option BucketType;
  m_operation_id : option string;
  m_credits_micro : option Z;
  m_usage_status : option string;
  m_usage_source : option string;
  m_pricing_key : option string;
  m_pricing_version : option string;
  m_over_limit : option bool;
  m_feature_usage : option BillableFeatureUsage;
  m_reserved_micro : option Z;
  m_released_micro : option Z;
  m_status : option ReservationStatus;
  m_reconciled_from : option string;
}.

Record LedgerRow := {
  le_id : string;
  le_reservation_id : option string;
  le_bucket_id : option string;
  le_grant_id : option string;
  le_entry_type : string;
  le_amount_micro : Z;
  le_reserved_delta_micro : Z;
  le_consumed_delta_micro : Z;
  le_idempotency_key : string;
  le_reason : string;
  le_metadata : LedgerMeta;
  le_created_at : Z;
}.

(** The rows of [server/quota/operations.py]. *)
Record CreditOperationRow := {
  co_id : string;
  co_operation_type : string;
  co_owner_type : OwnerType;
  co_owner_id : string;
  co_bucket_type : BucketType;
  co_period_start : Z;
  co_period_end : Z;
  co_amount_micro : Z;
  co_grant_id : string;
  co_actor_user_id : string;
  co_reason : string;
  co_effective_from : Z;
  co_expires_at : option Z;
  co_idempotency_key : string;
}.

Record RoleCreditRow := {
  rc_role_code : string;
  rc_bucket_type : BucketType;
  rc_period_start : Z;
  rc_period_end : Z;
  rc_amount_micro : Z;
  rc_actor_user_id : string;
  rc_reason : string;
  rc_effective_from : Z;
  rc_expires_at : option Z;
  rc_idempotency_key : string;
  rc_recipient_user_ids : list string;
}.

(** [raw_usage_json]: the report as it came in. *)
Record UsagePayload := {
  up_invocation : ModelInvocation;
  up_usage : CanonicalTokenUsage;
  up_outcome : InvocationOutcome;
}.

#[export] Instance UsagePayload_eq_dec : EqDecision UsagePayload.
Proof. solve_decision. Defined.

Record UsageEventRow := {
  ue_id : string;
  ue_operation_id : string;
  ue_reservation_id : option string;
  ue_user_id : string;
  ue_workspace_id : option string;
  ue_conversation_id : option string;
  ue_turn_id : option string;
  ue_worker_id : option string;
  ue_parent_operation_id : option string;
  ue_purpose : UsagePurpose;
  ue_provider : string;
  ue_provider_model : string;
  ue_provider_response_id : option string;
  ue_model_profile : option string;
  ue_preset : string;
  ue_route : option string;
  ue_pricing_key : option string;
  ue_attempt : Z;
  ue_fallback_index : Z;
  ue_outcome_status : InvocationStatus;
  ue_finish_reason : option string;
  ue_error_kind : option string;
  ue_input_tokens : Z;
  ue_cached_input_tokens : Z;
  ue_cache_miss_input_tokens : Z;
  ue_cache_write_input_tokens : Z;
  ue_output_tokens : Z;
  ue_reasoning_output_tokens : Z;
  ue_visual_input_tokens : Z;
  ue_image_units : Z;
  ue_search_calls : Z;
  ue_link_pages : Z;
  ue_total_tokens : Z;
  ue_usage_source : UsageSource;
  ue_cache_status : CacheMeasurementStatus;
  ue_usage_status : string;
  ue_pricing_version : option string;
  ue_credits_micro : option Z;
  ue_raw_usage : UsagePayload;
  ue_dedupe_key : string;
  ue_idempotency_key : string;
  ue_started_at : Z;
  ue_occurred_at : Z;
  ue_created_at : Z;
  ue_archived_at : option Z;
  ue_archive_batch_id : option string;
}.

Record BillingRow := {
  bl_id : string;
  bl_provider : string;
  bl_statement_id : string;
  bl_operation_id : string;
  bl_billed_at : Z;
  bl_billed_credits_micro : option Z;
  bl_billed_tokens : gmap string Z;
  bl_matched_usage_event_id : option string;
  bl_local_credits_micro : option Z;
  bl_difference_micro : option Z;
  bl_status : string;
  bl_idempotency_key : string;
  bl_reconciled_at : Z;
}.

Record OperationsTables := {
  ot_credits : list CreditOperationRow;
  ot_role_credits : list RoleCreditRow;
  ot_usage_events : list UsageEventRow;
  ot_billing : list BillingRow;
}.

Record DB := {
  db_policies : gmap string PolicyRow;
  db_bindings : list BindingRow;
  db_classrooms : list ClassroomRow;
  db_pricing : list PricingRuleRow;
  db_grants : list GrantRow;
  db_adjustments : list AdjustmentRow;
  db_buckets : gmap string BucketRow;
  db_reservations : gmap string ReservationRow;
  db_ledger : list LedgerRow;
  db_locks : gmap string LockRow;
  db_operations : OperationsTables;
  db_next_uuid : nat;
}.

(** ** Errors and transactions *)

(** [QuotaProblem], the transport-ready part of a rejection. *)
Record QuotaProblem := {
  pb_code : QuotaErrorCode;
  pb_remaining_micro : Z;
  pb_reset_at : option Z;
  pb_allowed_model_profiles : list string;
  pb_retryable : bool;
}.

Inductive QuotaError :=
| Rejected (p : QuotaProblem)
| Domain (c : QuotaErrorCode)
| IntegrityError
| NoResultFound
| KeyError
| AttributeError
| ValidationError
| ValueError
| DataError
| UsageEventConflictError
| UsageReporterUnavailableError
| UnpricedInvocation (e : pricing_error).

Abbreviation Tx := (ST DB QuotaError).

(** [_rejection]. *)
Definition rejection (code : QuotaErrorCode) (remaining_micro : Z) (reset_at : option Z)
  (profiles : list string) (retryable : bool) : QuotaError :=
  Rejected {| pb_code := code; pb_remaining_micro := remaining_micro; pb_reset_at := reset_at;
              pb_allowed_model_profiles := profiles; pb_retryable := retryable |}.

(** ** Writing single tables *)

Definition set_buckets (db : DB) (bs : gmap string BucketRow) : DB :=
  {| db_policies := db_policies db; db_bindings := db_bindings db; db_classrooms := db_classrooms db;
     db_pricing := db_pricing db; db_grants := db_grants db; db_adjustments := db_adjustments db;
     db_buckets := bs; db_reservations := db_reservations db; db_ledger := db_ledger db;
     db_locks := db_locks db; db_operations := db_operations db; db_next_uuid := db_next_uuid db |}.

Definition set_reservations (db : DB) (rs : gmap string ReservationRow) : DB :=
  {| db_policies := db_policies db; db_bindings := db_bindings db; db_classrooms := db_classrooms db;
     db_pricing := db_pricing db; db_grants := db_grants db; db_adjustments := db_adjustments db;
     db_buckets := db_buckets db; db_reservations := rs; db_ledger := db_ledger db;
     db_locks := db_locks db; db_operations := db_operations db; db_next_uuid := db_next_uuid db |}.

Definition set_ledger (db : DB) (l : list LedgerRow) : DB :=
  {| db_policies := db_policies db; db_bindings := db_bindings db; db_classrooms := db_classrooms db;
     db_pricing := db_pricing db; db_grants := db_grants db; db_adjustments := db_adjustments db;
     db_buckets := db_buckets db; db_reservations := db_reservations db; db_ledger := l;
     db_locks := db_locks db; db_operations := db_operations db; db_next_uuid := db_next_uuid db |}.

Definition set_locks (db : DB) (lk : gmap string LockRow) : DB :=
  {| db_policies := db_policies db; db_bindings := db_bindings db; db_classrooms := db_classrooms db;
     db_pricing := db_pricing db; db_grants := db_grants db; db_adjustments := db_adjustments db;
     db_buckets := db_buckets db; db_reservations := db_reservations db; db_ledger := db_ledger db;
     db_locks := lk; db_operations := db_operations db; db_next_uuid := db_next_uuid db |}.

Definition set_next_uuid (db : DB) (n : nat) : DB :=
  {| db_policies := db_policies db; db_bindings := db_bindings db; db_classrooms := db_classrooms db;
     db_pricing := db_pricing db; db_grants := db_grants db; db_adjustments := db_adjustments db;
     db_buckets := db_buckets db; db_reservations := db_reservations db; db_ledger := db_ledger db;
     db_locks := db_locks db; db_operations := db_operations db; db_next_uuid := n |}.

Definition set_policies (db : DB) (ps : gmap string PolicyRow) : DB :=
  {| db_policies := ps; db_bindings := db_bindings db; db_classrooms := db_classrooms db;
     db_pricing := db_pricing db; db_grants := db_grants db; db_adjustments := db_adjustments db;
     db_buckets := db_buckets db; db_reservations := db_reservations db; db_ledger := db_ledger db;
     db_locks := db_locks db; db_operations := db_operations db; db_next_uuid := db_next_uuid db |}.

Definition set_bindings (db : DB) (bs : list BindingRow) : DB :=
  {| db_policies := db_policies db; db_bindings := bs; db_classrooms := db_classrooms db;
     db_pricing := db_pricing db; db_grants := db_grants db; db_adjustments := db_adjustments db;
     db_buckets := db_buckets db; db_reservations := db_reservations db; db_ledger := db_ledger db;
     db_locks := db_locks db; db_operations := db_operations db; db_next_uuid := db_next_uuid db |}.

Definition set_pricing (db : DB) (ps : list PricingRuleRow) : DB :=
  {| db_policies := db_policies db; db_bindings := db_bindings db; db_classrooms := db_classrooms db;
     db_pricing := ps; db_grants := db_grants db; db_adjustments := db_adjustments db;
     db_buckets := db_buckets db; db_reservations := db_reservations db; db_ledger := db_ledger db;
     db_locks := db_locks db; db_operations := db_operations db; db_next_uuid := db_next_uuid db |}.

Definition set_grants (db : DB) (gs : list GrantRow) : DB :=
  {| db_policies := db_policies db; db_bindings := db_bindings db; db_classrooms := db_classrooms db;
     db_pricing := db_pricing db; db_grants := gs; db_adjustments := db_adjustments db;
     db_buckets := db_buckets db; db_reservations := db_reservations db; db_ledger := db_ledger db;
     db_locks := db_locks db; db_operations := db_operations db; db_next_uuid := db_next_uuid db |}.

Definition set_adjustments (db : DB) (l : list AdjustmentRow) : DB :=
  {| db_policies := db_policies db; db_bindings := db_bindings db; db_classrooms := db_classrooms db;
     db_pricing := db_pricing db; db_grants := db_grants db; db_adjustments := l;
     db_buckets := db_buckets db; db_reservations := db_reservations db; db_ledger := db_ledger db;
     db_locks := db_locks db; db_operations := db_operations db; db_next_uuid := db_next_uuid db |}.

Definition set_operations (db : DB) (t : OperationsTables) : DB :=
  {| db_policies := db_policies db; db_bindings := db_bindings db; db_classrooms := db_classrooms db;
     db_pricing := db_pricing db; db_grants := db_grants db; db_adjustments := db_adjustments db;
     db_buckets := db_buckets db; db_reservations := db_reservations db; db_ledger := db_ledger db;
     db_locks := db_locks db; db_operations := t; db_next_uuid := db_next_uuid db |}.

(** The rows of a keyed table that satisfy a [WHERE] clause. *)
Definition rows {A} (m : gmap string A) : list A := (map_to_list m).*2.
Definition select {A} (p : A -> bool) (m : gmap string A) : list A := List.filter p (rows m).

(** A transaction given by its effect on the store. *)
Definition stmt {A} (f : DB -> result QuotaError (A * DB)) : Tx A := f.

Section store.
Context `{Uuids}.

Definition fresh_uuid : Tx string := stmt (fun db =>
  Ok (uuid4 (db_next_uuid db), set_next_uuid db (S (db_next_uuid db)))).

(** [reservation_id_for_turn]. *)
Definition reservation_id_for_turn (turn_id : string) : string :=
  uuid5_url ("pro-nlp:quota-reservation:" +:+ turn_id).

(** The counters of a bucket are [BIGINT UNSIGNED] columns. *)
Definition UNSIGNED_BOUND : Z := 2 ^ 64.
Definition unsigned (z : Z) : bool := (0 <=? z) && (z <? UNSIGNED_BOUND).
Definition counters_fit (b : BucketRow) : bool := unsigned (b_consumed_micro b) && unsigned (b_reserved_micro b).

(** [UPDATE nlp_quota_buckets SET ... WHERE id = :id]: a counter out of range is an error. *)
Definition update_bucket (id : string) (f : BucketRow -> BucketRow) : Tx () := stmt (fun db =>
  match db_buckets db !! id with
  | Some b => if counters_fit (f b) then Ok ((), set_buckets db (alter f id (db_buckets db))) else Err DataError
  | None => Ok ((), db)
  end).

Definition update_reservation (id : string) (f : ReservationRow -> ReservationRow) : Tx () :=
  modify (fun db => set_reservations db (alter f id (db_reservations db))).

(** [INSERT INTO nlp_quota_reservations], with its primary key and two unique constraints. *)
Definition insert_reservation (row : ReservationRow) : Tx () := stmt (fun db =>
  if bool_decide (is_Some (db_reservations db !! r_id row))
     || existsb (fun r => String.eqb (r_turn_id r) (r_turn_id row)
                          || String.eqb (r_idempotency_key r) (r_idempotency_key row))
          (rows (db_reservations db))
  then Err IntegrityError
  else Ok ((), set_reservations db (<[r_id row := row]> (db_reservations db)))).

(** [INSERT INTO nlp_quota_buckets]: the primary key and the owner/period constraint. *)
Definition same_scope (o : OwnerType) (oid : string) (bt : BucketType) (s e : Z) (b : BucketRow) : bool :=
  bool_decide (b_owner_type b = o) && String.eqb (b_owner_id b) oid
  && bool_decide (b_bucket_type b = bt) && (b_period_start b =? s) && (b_period_end b =? e).

Definition insert_bucket (row : BucketRow) : Tx () := stmt (fun db =>
  if bool_decide (is_Some (db_buckets db !! b_id row))
     || existsb (same_scope (b_owner_type row) (b_owner_id row) (b_bucket_type row)
                   (b_period_start row) (b_period_end row)) (rows (db_buckets db))
  then Err IntegrityError
  else Ok ((), set_buckets db (<[b_id row := row]> (db_buckets db)))).

(** The values of one [INSERT INTO nlp_quota_ledger_entries]. *)
Definition ledger_row (reservation_id bucket_id : option string) (entry_type : string)
  (amount_micro reserved_delta_micro consumed_delta_micro : Z) (idempotency_key reason : string)
  (metadata : LedgerMeta) (created_at : Z) (id : string) : LedgerRow :=
  {| le_id := id; le_reservation_id := reservation_id; le_bucket_id := bucket_id; le_grant_id := None;
     le_entry_type := entry_type; le_amount_micro := amount_micro;
     le_reserved_delta_micro := reserved_delta_micro;
     le_consumed_delta_micro := consumed_delta_micro;
     le_idempotency_key := idempotency_key; le_reason := reason;
     le_metadata := metadata; le_created_at := created_at |}.

(** [_insert_ledger]: the idempotency key is unique over the whole ledger. *)
Definition insert_ledger (reservation_id bucket_id : option string) (entry_type : string)
  (amount_micro reserved_delta_micro consumed_delta_micro : Z) (idempotency_key reason : string)
  (metadata : LedgerMeta) (created_at : Z) : Tx () :=
  id ← fresh_uuid;
  stmt (fun db =>
    if existsb (fun e => String.eqb (le_idempotency_key e) idempotency_key) (db_ledger db)
    then Err IntegrityError
    else Ok ((), set_ledger db (db_ledger db ++
      [ledger_row reservation_id bucket_id entry_type amount_micro reserved_delta_micro
         consumed_delta_micro idempotency_key reason metadata created_at id]))).

(** The ledger rows of one reservation with an entry type and a key [LIKE] pattern. *)
Definition ledger_like (reservation_id entry_type pattern : string) (db : DB) : list LedgerRow :=
  List.filter (fun e =>
      bool_decide (le_reservation_id e = Some reservation_id)
      && String.eqb (le_entry_type e) entry_type
      && sql_like pattern (le_idempotency_key e)) (db_ledger db).

(** [_find_existing_reservation]: by idempotency key first, then by Turn. *)
Definition find_existing_reservation (idempotency_key turn_id : string) : Tx (option ReservationRow) :=
  gets (fun db =>
    match head (select (fun r => String.eqb (r_idempotency_key r) idempotency_key) (db_reservations db)) with
    | Some r => Some r
    | None => head (select (fun r => String.eqb (r_turn_id r) turn_id) (db_reservations db))
    end).

(** [_classrooms_in_workspace]. *)
Definition classrooms_in_workspace (classroom_ids : list string) (workspace_id : option string)
  : Tx (list string) :=
  match classroom_ids, workspace_id with
  | [], _ | _, None => mret []
  | _, Some w => gets (fun db =>
      sorted_set (cl_id <$> List.filter (fun c =>
        string_in (cl_id c) classroom_ids && String.eqb (cl_workspace_id c) w
        && String.eqb (cl_status c) "active") (db_classrooms db)))
  end.

(** ** Capacity *)

(** [_available], with [2**63 - 1] for a bucket without a limit. *)
Definition available (b : BucketRow) (overdraft_micro additional_capacity_micro : Z) : Z :=
  match b_limit_micro b with
  | None => 2 ^ 63 - 1
  | Some limit => limit + overdraft_micro + additional_capacity_micro
                  - b_consumed_micro b - b_reserved_micro b
  end.

(** [_capacity_statement] on grants. *)
Definition grant_counts (o : OwnerType) (oid : string) (bt : BucketType) (s e at_ : Z) (g : GrantRow) : bool :=
  bool_decide (gr_owner_type g = o) && String.eqb (gr_owner_id g) oid
  && bool_decide (gr_bucket_type g = bt) && (gr_period_start g =? s) && (gr_period_end g =? e)
  && String.eqb (gr_status g) "active"
  && in_window (gr_effective_from g) (gr_expires_at g) at_.

Definition adjustment_counts (o : OwnerType) (oid : string) (bt : BucketType) (s e : Z)
  (a : AdjustmentRow) : bool :=
  bool_decide (ad_owner_type a = o) && String.eqb (ad_owner_id a) oid
  && bool_decide (ad_bucket_type a = bt) && (ad_period_start a =? s) && (ad_period_end a =? e).

(** [_capacity_components]: the granted and the adjusted credits of a period. *)
Definition capacity_components (o : OwnerType) (oid : string) (bt : BucketType) (s e at_ : Z) (db : DB)
  : Z * Z :=
  (sum_by gr_allocated_micro (List.filter (grant_counts o oid bt s e at_) (db_grants db)),
   sum_by ad_amount_micro (List.filter (adjustment_counts o oid bt s e) (db_adjustments db))).

(** [_additional_capacity]. *)
Definition additional_capacity (o : OwnerType) (oid : string) (bt : BucketType) (s e at_ : Z) (db : DB) : Z :=
  let '(grant, adjustment) := capacity_components o oid bt s e at_ db in grant + adjustment.

(** [_additional_capacity_for_bucket]. *)
Definition additional_capacity_for_bucket (b : BucketRow) (at_ : Z) (db : DB) : Z :=
  additional_capacity (b_owner_type b) (b_owner_id b) (b_bucket_type b)
    (b_period_start b) (b_period_end b) at_ db.

(** [_has_active_classroom_capacity]. *)
Definition has_active_classroom_capacity (classroom_id : string) (at_ : Z) (db : DB) : bool :=
  existsb (fun g =>
      bool_decide (gr_owner_type g = OClassroom) && String.eqb (gr_owner_id g) classroom_id
      && String.eqb (gr_status g) "active"
      && in_window (gr_effective_from g) (gr_expires_at g) at_
      && (gr_period_start g <=? at_) && (at_ <? gr_period_end g)) (db_grants db)
  || existsb (fun a =>
      bool_decide (ad_owner_type a = OClassroom) && String.eqb (ad_owner_id a) classroom_id
      && (ad_period_start a <=? at_) && (at_ <? ad_period_end a)) (db_adjustments db).

(** [_reservation_overdraft]: the overdraft the snapshot froze for an owner. *)
Definition reservation_overdraft (r : ReservationRow) (o : OwnerType) (owner_id : string) : Z :=
  let key := match o with
             | OUser => "user" | OWorkspace => "workspace"
             | OClassroom => "classroom:" +:+ owner_id end in
  default (r_max_overdraft_micro r) (ps_overdrafts (r_snapshot r) !! key).

(** [_periods]: the policy's buckets that contain [at]. *)
Definition periods (p : QuotaPolicy) (at_ : Z) : list (BucketType * Z * Z * Z) :=
  if unlimited p then []
  else
    (match daily_limit_micro p with
     | Some limit => let start := midnight at_ in [(Daily, start, start + DAY, limit)]
     | None => []
     end) ++
    (match weekly_limit_micro p with
     | Some limit =>
         let start := midnight (at_ - weekday at_ * DAY) in [(Weekly, start, start + 7 * DAY, limit)]
     | None => []
     end).

(** ** Buckets *)

(** The limit refresh of [_get_or_create_bucket]. *)
Definition refresh_limit (limit : option Z) (p : QuotaPolicy) (now_ : Z) (b : BucketRow) : BucketRow :=
  {| b_id := b_id b; b_owner_type := b_owner_type b; b_owner_id := b_owner_id b;
     b_policy_id := policy_id p; b_policy_version := version p; b_bucket_type := b_bucket_type b;
     b_period_start := b_period_start b; b_period_end := b_period_end b; b_limit_micro := limit;
     b_consumed_micro := b_consumed_micro b; b_reserved_micro := b_reserved_micro b;
     b_limit_revision := b_limit_revision b + 1; b_effective_policy_version := version p;
     b_version := b_version b + 1;
     b_over_limit := match limit with Some l => l <? b_consumed_micro b | None => false end;
     b_created_at := b_created_at b; b_updated_at := now_ |}.

Definition new_bucket (id : string) (o : OwnerType) (oid : string) (bt : BucketType) (s e : Z)
  (p : QuotaPolicy) (limit : option Z) (now_ : Z) : BucketRow :=
  {| b_id := id; b_owner_type := o; b_owner_id := oid; b_policy_id := policy_id p;
     b_policy_version := version p; b_bucket_type := bt; b_period_start := s; b_period_end := e;
     b_limit_micro := limit; b_consumed_micro := 0; b_reserved_micro := 0; b_limit_revision := 1;
     b_effective_policy_version := version p; b_version := 1; b_over_limit := false;
     b_created_at := now_; b_updated_at := now_ |}.

(** [.mappings().one()]. *)
Definition select_one {A} (l : list A) : Tx A :=
  match l with [x] => mret x | _ => raise NoResultFound end.

(** [_get_or_create_bucket]: find the row of the owner's period or insert it, then bring its
    limit up to date with the policy. *)
Definition get_or_create_bucket (o : OwnerType) (oid : string) (bt : BucketType) (s e : Z)
  (p : QuotaPolicy) (limit : option Z) (now_ : Z) : Tx BucketRow :=
  id ← fresh_uuid;
  found ← gets (fun db => select (same_scope o oid bt s e) (db_buckets db));
  _ ← match found with
      | [] => insert_bucket (new_bucket id o oid bt s e p limit now_)
      | _ => mret ()
      end;
  here ← gets (fun db => select (same_scope o oid bt s e) (db_buckets db));
  row ← select_one here;
  if bool_decide (b_limit_micro row = limit) && String.eqb (b_policy_version row) (version p)
  then mret row
  else
    _ ← update_bucket (b_id row) (refresh_limit limit p now_);
    again ← gets (fun db => option_list (db_buckets db !! b_id row));
    select_one again.

(** [_reservation_buckets]: the distinct buckets the reservation's [reserve] entries name. *)
Definition reservation_bucket_ids (reservation_id : string) (db : DB) : list string :=
  remove_dups (omap le_bucket_id (List.filter (fun e =>
    bool_decide (le_reservation_id e = Some reservation_id)
    && String.eqb (le_entry_type e) "reserve") (db_ledger db))).

Definition reservation_buckets (reservation_id : string) : Tx (list BucketRow) :=
  gets (fun db =>
    let ids := reservation_bucket_ids reservation_id db in
    select (fun b => string_in (b_id b) ids) (db_buckets db)).

(** ** The per-user concurrency counter *)

(** [_get_or_create_concurrency_lock]. *)
Definition get_or_create_concurrency_lock (user_id : string) (now_ : Z) : Tx () :=
  modify (fun db =>
    match db_locks db !! user_id with
    | Some _ => db
    | None => set_locks db (<[user_id := {| lk_active_units := 0; lk_version := 1; lk_updated_at := now_ |}]>
                              (db_locks db))
    end).

(** [_reserve_concurrency]: the conditional update must touch the row. *)
Definition reserve_concurrency (user_id : string) (concurrency_limit now_ : Z) : Tx () :=
  _ ← get_or_create_concurrency_lock user_id now_;
  stmt (fun db =>
    match db_locks db !! user_id with
    | Some lk =>
        if lk_active_units lk + 1 <=? concurrency_limit
        then Ok ((), set_locks db (<[user_id := {| lk_active_units := lk_active_units lk + 1;
                                                  lk_version := lk_version lk + 1;
                                                  lk_updated_at := now_ |}]> (db_locks db)))
        else Err (rejection CONCURRENCY_LIMIT 0 None [] true)
    | None => Err (rejection CONCURRENCY_LIMIT 0 None [] true)
    end).

(** [_release_concurrency]. *)
Definition release_concurrency (user_id : string) (units now_ : Z) : Tx () :=
  if units <=? 0 then mret ()
  else modify (fun db =>
    match db_locks db !! user_id with
    | None => db
    | Some lk => set_locks db (<[user_id := {| lk_active_units := Z.max 0 (lk_active_units lk - units);
                                              lk_version := lk_version lk + 1;
                                              lk_updated_at := now_ |}]> (db_locks db))
    end).
End store.
