(* ===== verification/QuotaService.v ===== *)
(** * QuotaService: admission, holds, settlement, reconciliation and expiry

    The public operations of [QuotaService] ([server/quota/service.py]), each the body of
    its [..._in_transaction] method as a transaction over [QuotaStore.DB], in the source's
    order of reads, guards and writes.  [now] arguments are UTC instants (see [Clock]).
    Snapshot notifications after the commit and log lines are not modelled. *)
From S2P Require Import Prelude Clock Usage Pricing Policy Reservation QuotaStore.
Local Open Scope Z_scope.

(** ** Commands and results *)

Record AdmitTurn := {
  at_request_id : string;
  at_user_id : string;
  at_workspace_id : option string;
  at_turn_id : string;
  at_model_profile : string;
  at_estimated_input_tokens : option Z;
  at_estimated_output_tokens : Z;
  at_estimated_micro : Z;
  at_pricing_key : option string;
  at_idempotency_key : string;
}.

Record FinishTurn := {
  fi_reservation_id : string;
  fi_turn_id : string;
  fi_idempotency_key : string;
}.

Record TurnAdmissionResult := {
  ta_reservation_id : string;
  ta_reserved_micro : Z;
  ta_policy_id : string;
  ta_policy_version : string;
  ta_duplicate : bool;
}.

Record TurnFinishResult := {
  tf_reservation_id : string;
  tf_status : ReservationStatus;
  tf_released_micro : Z;
}.

Record UsageRecordResult := {
  ur_operation_id : string;
  ur_usage_source : string;
  ur_credits_micro : Z;
  ur_usage_status : string;
  ur_over_limit : bool;
  ur_pricing_key : option string;
  ur_pricing_version : option string;
}.

(** [_ACTIVE_RESERVATION_STATUSES]. *)
Definition is_active (s : ReservationStatus) : bool :=
  match s with reserved | running | settling => true | _ => false end.

(** An empty [metadata_json]. *)
Definition meta0 : LedgerMeta :=
  {| m_turn_id := None; m_bucket_type := None; m_operation_id := None; m_credits_micro := None;
     m_usage_status := None; m_usage_source := None; m_pricing_key := None;
     m_pricing_version := None; m_over_limit := None; m_feature_usage := None;
     m_reserved_micro := None; m_released_micro := None; m_status := None;
     m_reconciled_from := None |}.

Definition meta_turn (turn_id : string) (bt : option BucketType) : LedgerMeta :=
  {| m_turn_id := Some turn_id; m_bucket_type := bt; m_operation_id := None; m_credits_micro := None;
     m_usage_status := None; m_usage_source := None; m_pricing_key := None;
     m_pricing_version := None; m_over_limit := None; m_feature_usage := None;
     m_reserved_micro := None; m_released_micro := None; m_status := None;
     m_reconciled_from := None |}.

Definition meta_feature (operation_id pricing_key : string) (f : BillableFeatureUsage)
  (reserved_ : Z) (bt : option BucketType) : LedgerMeta :=
  {| m_turn_id := None; m_bucket_type := bt; m_operation_id := Some operation_id;
     m_credits_micro := None; m_usage_status := None; m_usage_source := None;
     m_pricing_key := Some pricing_key; m_pricing_version := None; m_over_limit := None;
     m_feature_usage := Some f; m_reserved_micro := Some reserved_; m_released_micro := None;
     m_status := None; m_reconciled_from := None |}.

Definition meta_release (operation_id : string) (released_ : Z) : LedgerMeta :=
  {| m_turn_id := None; m_bucket_type := None; m_operation_id := Some operation_id;
     m_credits_micro := None; m_usage_status := None; m_usage_source := None;
     m_pricing_key := None; m_pricing_version := None; m_over_limit := None;
     m_feature_usage := None; m_reserved_micro := None; m_released_micro := Some released_;
     m_status := None; m_reconciled_from := None |}.

Definition meta_finish (s : ReservationStatus) (released_ : Z) : LedgerMeta :=
  {| m_turn_id := None; m_bucket_type := None; m_operation_id := None; m_credits_micro := None;
     m_usage_status := None; m_usage_source := None; m_pricing_key := None;
     m_pricing_version := None; m_over_limit := None; m_feature_usage := None;
     m_reserved_micro := None; m_released_micro := Some released_; m_status := Some s;
     m_reconciled_from := None |}.

(** One usage fact, the arguments [settle_usage] and [reconcile_usage] share. *)
Record UsageFact := {
  uf_reservation_id : string;
  uf_operation_id : string;
  uf_credits_micro : Z;
  uf_usage_status : string;
  uf_usage_source : string;
  uf_pricing_key : option string;
  uf_pricing_version : option string;
}.

Definition meta_usage (u : UsageFact) (over : bool) (reconciled_from : option string) : LedgerMeta :=
  {| m_turn_id := None; m_bucket_type := None; m_operation_id := Some (uf_operation_id u);
     m_credits_micro := Some (uf_credits_micro u); m_usage_status := Some (uf_usage_status u);
     m_usage_source := Some (uf_usage_source u); m_pricing_key := uf_pricing_key u;
     m_pricing_version := uf_pricing_version u; m_over_limit := Some over;
     m_feature_usage := None; m_reserved_micro := None; m_released_micro := None;
     m_status := None; m_reconciled_from := reconciled_from |}.

(** ** Column updates *)

(** [reserved_micro], [consumed_micro] and [over_limit], with the version bump. *)
Definition write_counters (reserved_ consumed_ : Z) (over : bool) (ver now_ : Z) (b : BucketRow) : BucketRow :=
  {| b_id := b_id b; b_owner_type := b_owner_type b; b_owner_id := b_owner_id b;
     b_policy_id := b_policy_id b; b_policy_version := b_policy_version b;
     b_bucket_type := b_bucket_type b; b_period_start := b_period_start b;
     b_period_end := b_period_end b; b_limit_micro := b_limit_micro b;
     b_consumed_micro := consumed_; b_reserved_micro := reserved_;
     b_limit_revision := b_limit_revision b;
     b_effective_policy_version := b_effective_policy_version b; b_version := ver + 1;
     b_over_limit := over; b_created_at := b_created_at b; b_updated_at := now_ |}.

(** [.values(reserved_micro=..., version=..., updated_at=...)]: the other columns stay. *)
Definition write_reserved (row : BucketRow) (reserved_ now_ : Z) (b : BucketRow) : BucketRow :=
  write_counters reserved_ (b_consumed_micro b) (b_over_limit b) (b_version row) now_ b.

Definition write_amounts (reserved_ settled_ : Z) (s : ReservationStatus) (over : bool)
  (lease heartbeat now_ : Z) (r : ReservationRow) : ReservationRow :=
  {| r_id := r_id r; r_turn_id := r_turn_id r; r_user_id := r_user_id r;
     r_workspace_id := r_workspace_id r; r_policy_id := r_policy_id r;
     r_policy_version := r_policy_version r; r_snapshot := r_snapshot r;
     r_idempotency_key := r_idempotency_key r; r_reserved_micro := reserved_;
     r_settled_micro := settled_; r_status := s; r_lease_expires_at := lease;
     r_last_heartbeat_at := heartbeat; r_max_overdraft_micro := r_max_overdraft_micro r;
     r_concurrency_units := r_concurrency_units r; r_over_limit := over;
     r_created_at := r_created_at r; r_updated_at := now_ |}.

Section service.
Context `{Uuids}.

(** [QuotaService.lease_seconds]. *)
Variable lease_seconds : Z.

(** ** Finishing *)

Definition get_reservation (id : string) : Tx (option ReservationRow) :=
  gets (fun db => db_reservations db !! id).

(** The hold given back to each bucket when a Turn is closed. *)
Definition finish_bucket (cmd : FinishTurn) (st : ReservationStatus) (released_ db_now : Z)
  (bucket : BucketRow) : Tx () :=
  let bucket_release := Z.min (b_reserved_micro bucket) released_ in
  _ ← insert_ledger (Some (fi_reservation_id cmd)) (Some (b_id bucket)) "release"
        (- bucket_release) (- bucket_release) 0
        ("finish:" +:+ fi_idempotency_key cmd +:+ ":" +:+ b_id bucket)
        (if bool_decide (st = settled) then "turn_finished" else "reservation_expired")
        (meta_finish st released_) db_now;
  update_bucket (b_id bucket)
    (write_reserved bucket (Z.max 0 (b_reserved_micro bucket - bucket_release)) db_now).

(** [finish_in_transaction]. *)
Definition finish_in_transaction (cmd : FinishTurn) (now_ : Z)
  (terminal_status : option ReservationStatus) : Tx TurnFinishResult :=
  let rid := fi_reservation_id cmd in
  let prefix := "finish:" +:+ fi_idempotency_key cmd +:+ ":" in
  reservation ← get_reservation rid;
  match reservation with
  | None => raise (Domain RESERVATION_NOT_ACTIVE)
  | Some r =>
      existing ← gets (fun db => head (ledger_like rid "release" (prefix +:+ "%") db));
      match existing with
      | Some e =>
          match m_status (le_metadata e), m_released_micro (le_metadata e) with
          | Some st, Some rel =>
              mret {| tf_reservation_id := rid; tf_status := st; tf_released_micro := rel |}
          | _, _ => raise KeyError
          end
      | None =>
          if negb (String.eqb (r_turn_id r) (fi_turn_id cmd)) then raise (Domain RESERVATION_CONFLICT)
          else if is_terminal (r_status r)
          then mret {| tf_reservation_id := rid; tf_status := r_status r; tf_released_micro := 0 |}
          else
            let released_ := r_reserved_micro r in
            bucket_rows ← reservation_buckets rid;
            let st := match terminal_status with
                      | Some t => t
                      | None => if 0 <? r_settled_micro r then settled else released
                      end in
            _ ← when (bool_decide (bucket_rows = []))
                  (insert_ledger (Some rid) None "release" (- released_) (- released_) 0
                     (prefix +:+ "none")
                     (if bool_decide (st = settled) then "turn_finished" else "reservation_expired")
                     (meta_finish st released_) now_);
            _ ← st_iter (finish_bucket cmd st released_ now_) bucket_rows;
            _ ← when (is_active (r_status r))
                  (release_concurrency (r_user_id r) (r_concurrency_units r) now_);
            _ ← update_reservation rid (fun row =>
                  write_amounts 0 (r_settled_micro row) st (r_over_limit row) now_
                    (r_last_heartbeat_at row) now_ row);
            mret {| tf_reservation_id := rid; tf_status := st; tf_released_micro := released_ |}
      end
  end.

(** The stale reservations that [expire_reservations] and [_expire_stale_in_transaction] select. *)
Definition stale_reservations (at_ : Z) : Tx (list ReservationRow) :=
  gets (fun db => select (fun r => is_active (r_status r) && (r_lease_expires_at r <=? at_))
                    (db_reservations db)).

Definition expire_one (at_ : Z) (row : ReservationRow) : Tx () :=
  _ ← finish_in_transaction
        {| fi_reservation_id := r_id row; fi_turn_id := r_turn_id row;
           fi_idempotency_key := "expiry:" +:+ r_id row |} at_ (Some expired);
  mret ().

(** [_expire_stale_in_transaction]. *)
Definition expire_stale_in_transaction (at_ : Z) : Tx () :=
  stale ← stale_reservations at_;
  st_iter (expire_one at_) stale.

(** [expire_reservations]: the number of stale reservations visited. *)
Definition expire_reservations (at_ : Z) : Tx Z :=
  stale ← stale_reservations at_;
  _ ← st_iter (expire_one at_) stale;
  mret (Z.of_nat (length stale)).

(** [begin_reservation] and [heartbeat]: the lease is extended while it has not lapsed; the
    first call that finds it lapsed closes the reservation. *)
Definition touch_lease (label : string) (next : ReservationStatus -> ReservationStatus)
  (reservation_id : string) (at_ : Z) : Tx bool :=
  reservation ← get_reservation reservation_id;
  match reservation with
  | None => mret false
  | Some r =>
      if negb (is_active (r_status r)) then mret false
      else if r_lease_expires_at r <=? at_ then
        _ ← finish_in_transaction
              {| fi_reservation_id := reservation_id; fi_turn_id := r_turn_id r;
                 fi_idempotency_key := label +:+ reservation_id |} at_ (Some expired);
        mret false
      else
        _ ← update_reservation reservation_id (fun row =>
              write_amounts (r_reserved_micro row) (r_settled_micro row) (next (r_status row))
                (r_over_limit row) (at_ + seconds lease_seconds) at_ at_ row);
        mret true
  end.

Definition begin_reservation (reservation_id : string) (at_ : Z) : Tx bool :=
  touch_lease "begin-expiry:" (fun _ => running) reservation_id at_.

Definition heartbeat (reservation_id : string) (at_ : Z) : Tx bool :=
  touch_lease "heartbeat-expiry:" (fun s => s) reservation_id at_.

(** ** Admission *)

(** A binding row with its policy row, when both are active at the instant. *)
Definition binding_of_row (db : DB) (at_ : Z) (subject_types : list PolicySubjectType)
  (row : BindingRow) : option PolicyBinding :=
  if negb (bool_decide (bi_subject_type row ∈ subject_types)) then None
  else match db_policies db !! bi_policy_id row with
  | None => None
  | Some p =>
      if negb (String.eqb (bi_status row) "active") || negb (String.eqb (po_status p) "active") then None
      else if negb (in_window (bi_effective_from row) (bi_effective_until row) at_) then None
      else if negb (in_window (po_effective_from p) (po_effective_until p) at_) then None
      else Some {| subject_type := bi_subject_type row; subject_id := bi_subject_id row;
                   policy := po_policy p; priority := bi_priority row;
                   pb_effective_from := bi_effective_from row;
                   pb_effective_until := bi_effective_until row |}
  end.

(** [_effective_binding]. *)
Definition effective_binding (cmd : AdmitTurn) (role_codes classroom_ids : list string) (at_ : Z)
  (subject_types : list PolicySubjectType) (optional : bool) : Tx (option PolicyBinding) :=
  bindings ← gets (fun db => omap (binding_of_row db at_ subject_types) (db_bindings db));
  match resolve_effective_policy bindings (at_user_id cmd) (at_workspace_id cmd)
          role_codes classroom_ids at_ with
  | Ok b => mret (Some b)
  | Err c =>
      if optional && bool_decide (c = POLICY_NOT_FOUND) then mret None
      else raise (rejection c 0 None [] false)
  end.

(** The active rules [_estimate_micro] and [_estimate_feature_micro] select. *)
Definition active_pricing_rows (pricing_key : string) (at_ : Z) (db : DB) : list PricingRuleRow :=
  List.filter (fun p =>
      String.eqb (rule_key (prr_rule p)) pricing_key && String.eqb (prr_status p) "active"
      && in_window (effective_from (prr_rule p)) (effective_until (prr_rule p)) at_) (db_pricing db).

(** [_estimate_micro]: the input estimate plus the output reserve at the dearer output rate. *)
Definition estimate_micro (cmd : AdmitTurn) (at_ : Z) (db : DB) : result QuotaErrorCode Z :=
  match at_pricing_key cmd with
  | None => Ok 0
  | Some k =>
      match active_pricing_rows k at_ db with
      | [row] =>
          let r := prr_rule row in
          let rate := Z.max (output_rate r) (default 0 (reasoning_output_rate r)) in
          Ok (ceil_div (default 0 (at_estimated_input_tokens cmd) * ordinary_input_rate r
                        + at_estimated_output_tokens cmd * rate) 1000000)
      | _ => Err ADMISSION_DENIED
      end
  end.

(** [_estimate_feature_micro]. *)
Definition estimate_feature_micro (pricing_key : string) (f : BillableFeatureUsage) (at_ : Z) (db : DB)
  : result QuotaErrorCode Z :=
  match active_pricing_rows pricing_key at_ db with
  | [row] =>
      let r := prr_rule row in
      let required_rates :=
        [(visual_input_tokens f, visual_input_rate r); (image_units f, image_unit_micro r);
         (search_calls f, search_call_micro r); (link_pages f, link_page_micro r)] in
      if existsb (fun ur : Z * option Z => negb (ur.1 =? 0) && bool_decide (ur.2 = None)) required_rates
      then Err ADMISSION_DENIED
      else Ok (ceil_div (visual_input_tokens f * default 0 (visual_input_rate r)) 1000000
               + image_units f * default 0 (image_unit_micro r)
               + search_calls f * default 0 (search_call_micro r)
               + link_pages f * default 0 (link_page_micro r))
  | _ => Err ADMISSION_DENIED
  end.

(** [_admission_result]. *)
Definition admission_result (r : ReservationRow) (duplicate : bool) : TurnAdmissionResult :=
  {| ta_reservation_id := r_id r; ta_reserved_micro := r_reserved_micro r;
     ta_policy_id := r_policy_id r; ta_policy_version := r_policy_version r;
     ta_duplicate := duplicate |}.

(** What admission does with an existing row: answer with it, re-arm it, or start afresh. *)
Inductive replay := ReturnExisting (r : TurnAdmissionResult) | RearmExisting | StartFresh.

Definition admit_replay (cmd : AdmitTurn) (existing : option ReservationRow) (at_ : Z) : Tx replay :=
  match existing with
  | None => mret StartFresh
  | Some e =>
      if negb (String.eqb (r_turn_id e) (at_turn_id cmd))
         || negb (String.eqb (r_user_id e) (at_user_id cmd))
         || negb (String.eqb (r_idempotency_key e) (at_idempotency_key cmd))
      then raise (rejection RESERVATION_CONFLICT 0 None [] false)
      else if is_active (r_status e) && (at_ <? r_lease_expires_at e)
      then mret (ReturnExisting (admission_result e true))
      else if (bool_decide (r_status e = released \/ r_status e = expired) && (r_settled_micro e =? 0))
              || (is_active (r_status e) && (r_lease_expires_at e <=? at_))
      then mret RearmExisting
      else mret (ReturnExisting (admission_result e true))
  end.

(** The policies that govern one admission. *)
Record AdmitPolicies := {
  ap_base : PolicyBinding;
  ap_workspace : option PolicyBinding;
  ap_classrooms : list (string * PolicyBinding);
}.

Definition classroom_policy (cmd : AdmitTurn) (at_ : Z) (classroom_id : string)
  : Tx (option (string * PolicyBinding)) :=
  b ← effective_binding cmd [] [classroom_id] at_ [SubClassroom] true;
  match b with
  | Some b => mret (Some (classroom_id, b))
  | None =>
      has ← gets (has_active_classroom_capacity classroom_id at_);
      if has : bool then raise (rejection ADMISSION_DENIED 0 None [] false) else mret None
  end.

Fixpoint classroom_policies (cmd : AdmitTurn) (at_ : Z) (ids : list string)
  : Tx (list (string * PolicyBinding)) :=
  match ids with
  | [] => mret []
  | i :: ids' =>
      p ← classroom_policy cmd at_ i;
      ps ← classroom_policies cmd at_ ids';
      mret (option_list p ++ ps)
  end.

Definition admit_policies (cmd : AdmitTurn) (role_codes classroom_ids : list string) (at_ : Z)
  : Tx AdmitPolicies :=
  base ← effective_binding cmd role_codes classroom_ids at_ [SubDefault; SubRole; SubUser; SubClassroom] false;
  match base with
  | None => raise AttributeError
  | Some base =>
      ws ← effective_binding cmd role_codes classroom_ids at_ [SubWorkspace] true;
      cls ← classroom_policies cmd at_ (sorted_set classroom_ids);
      mret {| ap_base := base; ap_workspace := ws; ap_classrooms := cls |}
  end.

Definition policies_of (ap : AdmitPolicies) : list QuotaPolicy :=
  policy (ap_base ap) :: (policy <$> option_list (ap_workspace ap))
  ++ ((fun cb : string * PolicyBinding => policy cb.2) <$> ap_classrooms ap).

(** The first policy whose profile list excludes the requested model. *)
Fixpoint check_profiles (cmd : AdmitTurn) (ps : list QuotaPolicy) : Tx () :=
  match ps with
  | [] => mret ()
  | p :: ps' =>
      if negb (bool_decide (allowed_model_profiles p = []))
         && negb (string_in (at_model_profile cmd) (allowed_model_profiles p))
      then raise (rejection MODEL_NOT_ALLOWED 0 None (allowed_model_profiles p) false)
      else check_profiles cmd ps'
  end.

Definition request_limit (ps : list QuotaPolicy) : option Z :=
  match omap request_limit_micro ps with
  | [] => None
  | l :: ls => Some (list_minZ l ls)
  end.

(** The estimate of the reservation, checked against the per-request limit. *)
Definition admit_estimate (cmd : AdmitTurn) (at_ : Z) (ps : list QuotaPolicy) : Tx Z :=
  micro ← (if at_estimated_micro cmd =? 0 then
             est ← gets (estimate_micro cmd at_);
             match est with
             | Ok m => mret m
             | Err c => raise (rejection c 0 None [] true)
             end
           else mret (at_estimated_micro cmd));
  match request_limit ps with
  | Some l => if l <? micro then raise (rejection REQUEST_LIMIT l None [] false) else mret micro
  | None => mret micro
  end.

(** The owners whose buckets the admission must fit in. *)
Definition subjects_of (cmd : AdmitTurn) (ap : AdmitPolicies) : list (OwnerType * string * QuotaPolicy) :=
  (OUser, at_user_id cmd, policy (ap_base ap))
  :: (match ap_workspace ap, at_workspace_id cmd with
      | Some wb, Some w => [(OWorkspace, w, policy wb)]
      | _, _ => []
      end)
  ++ ((fun cb : string * PolicyBinding => (OClassroom, cb.1, policy cb.2)) <$> ap_classrooms ap).

Definition exhausted_code (o : OwnerType) (bt : BucketType) : QuotaErrorCode :=
  match o, bt with
  | OWorkspace, _ => WORKSPACE_EXHAUSTED
  | _, Daily => DAILY_EXHAUSTED
  | _, Weekly => WEEKLY_EXHAUSTED
  end.

(** One period of one owner: materialise its bucket and check that the estimate fits. *)
Definition admit_period (micro at_ : Z) (o : OwnerType) (oid : string) (p : QuotaPolicy)
  (period : BucketType * Z * Z * Z) : Tx BucketRow :=
  let '(bt, s, e, limit) := period in
  bucket ← get_or_create_bucket o oid bt s e p (Some limit) at_;
  extra ← gets (additional_capacity o oid bt s e at_);
  let avail := available bucket (max_overdraft_micro p) extra in
  if avail <? micro then raise (rejection (exhausted_code o bt) avail (Some e) [] true)
  else mret bucket.

Fixpoint st_collect {A B} (f : A -> Tx B) (l : list A) : Tx (list B) :=
  match l with
  | [] => mret []
  | x :: l' => y ← f x; ys ← st_collect f l'; mret (y :: ys)
  end.

(** The nested loops over subjects and periods, as one list of (owner, period) pairs. *)
Definition admit_buckets (cmd : AdmitTurn) (ap : AdmitPolicies) (micro at_ : Z) : Tx (list BucketRow) :=
  st_collect
    (fun sp : OwnerType * string * QuotaPolicy * (BucketType * Z * Z * Z) =>
       let '(o, oid, p, period) := sp in admit_period micro at_ o oid p period)
    (flat_map (fun s : OwnerType * string * QuotaPolicy =>
                 (fun period => (s, period)) <$> periods s.2 at_) (subjects_of cmd ap)).

(** [snapshot]: what the reservation freezes of the policies. *)
Definition policy_snapshot (ap : AdmitPolicies) : PolicySnapshot :=
  let p := policy (ap_base ap) in
  {| ps_policy := p;
     ps_request_limit_micro := request_limit_micro p;
     ps_overdrafts :=
       list_to_map (((fun cb : string * PolicyBinding =>
                        ("classroom:" +:+ cb.1, max_overdraft_micro (policy cb.2))) <$> ap_classrooms ap)
                    ++ ((fun wb => ("workspace", max_overdraft_micro (policy wb)))
                          <$> option_list (ap_workspace ap))
                    ++ [("user", max_overdraft_micro p)]);
     ps_base_source := (subject_type (ap_base ap), subject_id (ap_base ap));
     ps_workspace_source := (fun wb => (subject_type wb, subject_id wb)) <$> ap_workspace ap;
     ps_classroom_sources := (ap_classrooms ap).*1 |}.

(** The row inserted for a fresh Turn. *)
Definition new_reservation (cmd : AdmitTurn) (ap : AdmitPolicies) (micro at_ : Z) : ReservationRow :=
  let p := policy (ap_base ap) in
  {| r_id := reservation_id_for_turn (at_turn_id cmd); r_turn_id := at_turn_id cmd;
     r_user_id := at_user_id cmd; r_workspace_id := at_workspace_id cmd;
     r_policy_id := policy_id p; r_policy_version := version p; r_snapshot := policy_snapshot ap;
     r_idempotency_key := at_idempotency_key cmd; r_reserved_micro := micro; r_settled_micro := 0;
     r_status := reserved; r_lease_expires_at := at_ + seconds lease_seconds;
     r_last_heartbeat_at := at_; r_max_overdraft_micro := max_overdraft_micro p;
     r_concurrency_units := 1; r_over_limit := false; r_created_at := at_; r_updated_at := at_ |}.

(** The columns a re-armed Turn overwrites. *)
Definition rearm_reservation (ap : AdmitPolicies) (micro at_ : Z) (r : ReservationRow) : ReservationRow :=
  let p := policy (ap_base ap) in
  {| r_id := r_id r; r_turn_id := r_turn_id r; r_user_id := r_user_id r;
     r_workspace_id := r_workspace_id r; r_policy_id := policy_id p; r_policy_version := version p;
     r_snapshot := policy_snapshot ap; r_idempotency_key := r_idempotency_key r;
     r_reserved_micro := micro; r_settled_micro := 0; r_status := reserved;
     r_lease_expires_at := at_ + seconds lease_seconds; r_last_heartbeat_at := at_;
     r_max_overdraft_micro := max_overdraft_micro p; r_concurrency_units := r_concurrency_units r;
     r_over_limit := false; r_created_at := r_created_at r; r_updated_at := at_ |}.

(** The suffix that keeps the ledger keys of a retried Turn distinct. *)
Definition reserve_suffix (rearm : bool) (reservation_id : string) (db : DB) : string :=
  let generation :=
    if rearm then
      Z.of_nat (length (List.filter (fun e =>
        bool_decide (le_reservation_id e = Some reservation_id)
        && String.eqb (le_entry_type e) "reserve") (db_ledger db))) + 1
    else 1 in
  if generation =? 1 then "" else ":retry" +:+ pretty generation.

(** The hold written to each bucket. *)
Definition hold_bucket (cmd : AdmitTurn) (rid suffix : string) (micro db_now : Z) (bucket : BucketRow) : Tx () :=
  _ ← update_bucket (b_id bucket) (write_reserved bucket (b_reserved_micro bucket + micro) db_now);
  insert_ledger (Some rid) (Some (b_id bucket)) "reserve" micro micro 0
    ("reserve:" +:+ rid +:+ ":" +:+ b_id bucket +:+ suffix) "turn_admission"
    (meta_turn (at_turn_id cmd) (Some (b_bucket_type bucket))) db_now.

(** The writes of an admission that fits: counter, reservation row, holds. *)
Definition admit_write (cmd : AdmitTurn) (ap : AdmitPolicies) (rearm : bool) (micro at_ : Z)
  (buckets : list BucketRow) : Tx TurnAdmissionResult :=
  let rid := reservation_id_for_turn (at_turn_id cmd) in
  let p := policy (ap_base ap) in
  _ ← match concurrency_limit p with
      | Some c => reserve_concurrency (at_user_id cmd) c at_
      | None => mret ()
      end;
  _ ← (if rearm then update_reservation rid (rearm_reservation ap micro at_)
       else insert_reservation (new_reservation cmd ap micro at_));
  suffix ← gets (reserve_suffix rearm rid);
  _ ← when (bool_decide (buckets = []))
        (insert_ledger (Some rid) None "reserve" micro micro 0
           ("reserve:" +:+ rid +:+ ":none" +:+ suffix) "turn_admission"
           (meta_turn (at_turn_id cmd) None) at_);
  _ ← st_iter (hold_bucket cmd rid suffix micro at_) buckets;
  mret {| ta_reservation_id := rid; ta_reserved_micro := micro; ta_policy_id := policy_id p;
          ta_policy_version := version p; ta_duplicate := false |}.

(** [admit_in_transaction]. *)
Definition admit_in_transaction (cmd : AdmitTurn) (role_codes classroom_ids : list string) (at_ : Z)
  : Tx TurnAdmissionResult :=
  classroom_ids ← classrooms_in_workspace classroom_ids (at_workspace_id cmd);
  existing ← find_existing_reservation (at_idempotency_key cmd) (at_turn_id cmd);
  decision ← admit_replay cmd existing at_;
  match decision with
  | ReturnExisting r => mret r
  | _ =>
      let rearm := match decision with RearmExisting => true | _ => false end in
      ap ← admit_policies cmd role_codes classroom_ids at_;
      _ ← check_profiles cmd (policies_of ap);
      micro ← admit_estimate cmd at_ (policies_of ap);
      _ ← match concurrency_limit (policy (ap_base ap)) with
          | Some _ => get_or_create_concurrency_lock (at_user_id cmd) at_
          | None => mret ()
          end;
      _ ← expire_stale_in_transaction at_;
      buckets ← admit_buckets cmd ap micro at_;
      admit_write cmd ap rearm micro at_ buckets
  end.

(** ** Feature holds *)

Definition reserve_feature_prefix (operation_id : string) : string :=
  "reserve-feature:" +:+ operation_id +:+ ":".
Definition release_feature_prefix (operation_id : string) : string :=
  "release-feature:" +:+ operation_id +:+ ":".

(** One bucket must have room for the feature hold. *)
Definition feature_fits (r : ReservationRow) (feature_micro at_ : Z) (bucket : BucketRow) : Tx () :=
  extra ← gets (additional_capacity_for_bucket bucket at_);
  let avail := available bucket
                 (reservation_overdraft r (b_owner_type bucket) (b_owner_id bucket)) extra in
  if avail <? feature_micro
  then raise (rejection (exhausted_code (b_owner_type bucket) (b_bucket_type bucket))
                avail (Some (b_period_end bucket)) [] true)
  else mret ().

Definition feature_hold (rid operation_id pricing_key : string) (f : BillableFeatureUsage)
  (feature_micro db_now : Z) (bucket : BucketRow) : Tx () :=
  _ ← update_bucket (b_id bucket)
        (write_reserved bucket (b_reserved_micro bucket + feature_micro) db_now);
  insert_ledger (Some rid) (Some (b_id bucket)) "reserve" feature_micro feature_micro 0
    (reserve_feature_prefix operation_id +:+ b_id bucket) "feature_admission"
    (meta_feature operation_id pricing_key f feature_micro (Some (b_bucket_type bucket))) db_now.

(** Only the reserved amount and the timestamp change. *)
Definition set_reserved (reserved_ now_ : Z) (r : ReservationRow) : ReservationRow :=
  write_amounts reserved_ (r_settled_micro r) (r_status r) (r_over_limit r)
    (r_lease_expires_at r) (r_last_heartbeat_at r) now_ r.

(** [reserve_feature_usage_in_transaction]. *)
Definition reserve_feature_usage_in_transaction (reservation_id operation_id pricing_key : string)
  (f : BillableFeatureUsage) (at_ : Z) : Tx Z :=
  let prefix := reserve_feature_prefix operation_id in
  let inactive := rejection RESERVATION_NOT_ACTIVE 0 None [] false in
  reservation ← get_reservation reservation_id;
  match reservation with
  | None => raise inactive
  | Some r =>
      if negb (is_active (r_status r)) || (r_lease_expires_at r <=? at_) then raise inactive
      else
        existing ← gets (ledger_like reservation_id "reserve" (prefix +:+ "%"));
        match existing with
        | e :: _ =>
            let m := le_metadata e in
            if negb (bool_decide (m_pricing_key m = Some pricing_key))
               || negb (bool_decide (m_feature_usage m = Some f))
            then raise (rejection RESERVATION_CONFLICT 0 None [] false)
            else match m_reserved_micro m with Some v => mret v | None => raise KeyError end
        | [] =>
            est ← gets (estimate_feature_micro pricing_key f at_);
            feature_micro ← match est with
                            | Ok v => mret v
                            | Err c => raise (rejection c 0 None [] true)
                            end;
            let used := r_settled_micro r + r_reserved_micro r in
            _ ← match ps_request_limit_micro (r_snapshot r) with
                | Some l => if l <? used + feature_micro
                            then raise (rejection REQUEST_LIMIT (Z.max 0 (l - used)) None [] false)
                            else mret ()
                | None => mret ()
                end;
            bucket_rows ← reservation_buckets reservation_id;
            _ ← st_iter (feature_fits r feature_micro at_) bucket_rows;
            _ ← when (bool_decide (bucket_rows = []))
                  (insert_ledger (Some reservation_id) None "reserve" feature_micro feature_micro 0
                     (prefix +:+ "none") "feature_admission"
                     (meta_feature operation_id pricing_key f feature_micro None) at_);
            _ ← st_iter (feature_hold reservation_id operation_id pricing_key f feature_micro at_)
                  bucket_rows;
            _ ← update_reservation reservation_id
                  (set_reserved (r_reserved_micro r + feature_micro) at_);
            mret feature_micro
        end
  end.

Definition feature_release (rid operation_id : string) (released_ db_now : Z) (bucket : BucketRow) : Tx () :=
  let bucket_release := Z.min (b_reserved_micro bucket) released_ in
  _ ← insert_ledger (Some rid) (Some (b_id bucket)) "release" (- bucket_release) (- bucket_release) 0
        (release_feature_prefix operation_id +:+ b_id bucket) "feature_execution_failed"
        (meta_release operation_id released_) db_now;
  update_bucket (b_id bucket)
    (write_reserved bucket (Z.max 0 (b_reserved_micro bucket - bucket_release)) db_now).

(** [release_feature_usage_in_transaction]. *)
Definition release_feature_usage_in_transaction (reservation_id operation_id : string) (db_now : Z) : Tx Z :=
  reservation ← get_reservation reservation_id;
  match reservation with
  | None => raise (Domain RESERVATION_NOT_ACTIVE)
  | Some r =>
      prior ← gets (ledger_like reservation_id "release" (release_feature_prefix operation_id +:+ "%"));
      match prior with
      | _ :: _ => mret 0
      | [] =>
          reserves ← gets (ledger_like reservation_id "reserve"
                             (reserve_feature_prefix operation_id +:+ "%"));
          match reserves with
          | [] => mret 0
          | e :: _ =>
              match m_reserved_micro (le_metadata e) with
              | None => raise KeyError
              | Some requested =>
                  let released_ := Z.min (r_reserved_micro r) requested in
                  bucket_rows ← reservation_buckets reservation_id;
                  _ ← when (bool_decide (bucket_rows = []))
                        (insert_ledger (Some reservation_id) None "release" (- released_) (- released_) 0
                           (release_feature_prefix operation_id +:+ "none") "feature_execution_failed"
                           (meta_release operation_id released_) db_now);
                  _ ← st_iter (feature_release reservation_id operation_id released_ db_now) bucket_rows;
                  _ ← update_reservation reservation_id
                        (set_reserved (Z.max 0 (r_reserved_micro r - released_)) db_now);
                  mret released_
              end
          end
      end
  end.

(** ** Settlement and reconciliation *)

Definition settle_prefix (operation_id : string) : string := "settle:" +:+ operation_id +:+ ":".
Definition reconcile_prefix (operation_id : string) : string := "reconcile:" +:+ operation_id +:+ ":".

(** The constructor of [UsageRecordResult], with the constraints of its fields. *)
Definition usage_record_result (u : UsageFact) (source_ : string) (over : bool)
  (pkey pver : option string) : Tx UsageRecordResult :=
  if String.eqb (uf_operation_id u) "" || negb (string_in source_ ["provider"; "estimated"; "none"])
  then raise ValidationError
  else mret {| ur_operation_id := uf_operation_id u; ur_usage_source := source_;
               ur_credits_micro := uf_credits_micro u; ur_usage_status := uf_usage_status u;
               ur_over_limit := over; ur_pricing_key := pkey; ur_pricing_version := pver |}.

(** A replayed fact: the recorded credits and status must be the ones presented. *)
Definition replay_usage (u : UsageFact) (existing_rows : list LedgerRow) (first : LedgerRow)
  : Tx UsageRecordResult :=
  let m := le_metadata first in
  if negb (default (-1) (m_credits_micro m) =? uf_credits_micro u)
     || negb (bool_decide (m_usage_status m = Some (uf_usage_status u)))
  then raise (Domain SETTLEMENT_CONFLICT)
  else usage_record_result u (default (uf_usage_source u) (m_usage_source m))
         (existsb (fun row => default false (m_over_limit (le_metadata row))) existing_rows)
         (m_pricing_key m) (m_pricing_version m).

(** One bucket charged with the usage and relieved of its share of the hold; the result is
    the bucket's [over_limit]. *)
Definition charge_bucket (u : UsageFact) (r : ReservationRow) (entry_type prefix reason : string)
  (reconciled_from : option string) (release_amount db_now : Z) (bucket : BucketRow) : Tx bool :=
  let bucket_release := Z.min (b_reserved_micro bucket) release_amount in
  let new_consumed := b_consumed_micro bucket + uf_credits_micro u in
  extra ← gets (additional_capacity_for_bucket bucket db_now);
  let over := match b_limit_micro bucket with
              | None => false
              | Some limit =>
                  limit + extra + reservation_overdraft r (b_owner_type bucket) (b_owner_id bucket)
                    <? new_consumed
              end in
  _ ← insert_ledger (Some (uf_reservation_id u)) (Some (b_id bucket)) entry_type
        (uf_credits_micro u) (- bucket_release) (uf_credits_micro u)
        (prefix +:+ b_id bucket) reason (meta_usage u over reconciled_from) db_now;
  _ ← update_bucket (b_id bucket)
        (write_counters (Z.max 0 (b_reserved_micro bucket - bucket_release)) new_consumed over
           (b_version bucket) db_now);
  mret over.

(** The charge both operations end with: every bucket, then the reservation row. *)
Definition charge (u : UsageFact) (r : ReservationRow) (entry_type prefix reason : string)
  (reconciled_from : option string) (release_amount db_now : Z) (bucket_rows : list BucketRow) : Tx bool :=
  _ ← when (bool_decide (bucket_rows = []))
        (insert_ledger (Some (uf_reservation_id u)) None entry_type
           (uf_credits_micro u) (- release_amount) (uf_credits_micro u) (prefix +:+ "none") reason
           (meta_usage u false reconciled_from) db_now);
  overs ← st_collect (charge_bucket u r entry_type prefix reason reconciled_from release_amount db_now)
            bucket_rows;
  let over := existsb id overs in
  _ ← update_reservation (uf_reservation_id u) (fun row =>
        write_amounts (Z.max 0 (r_reserved_micro r - release_amount))
          (r_settled_micro r + uf_credits_micro u)
          (if is_terminal (r_status r) then settled else settling) (over || r_over_limit r)
          (r_lease_expires_at row) (r_last_heartbeat_at row) db_now row);
  mret over.

(** [reconcile_usage_in_transaction]. *)
Definition reconcile_usage_in_transaction (u : UsageFact) (db_now : Z) : Tx UsageRecordResult :=
  let rid := uf_reservation_id u in
  let prefix := reconcile_prefix (uf_operation_id u) in
  if uf_credits_micro u <? 0 then raise (Domain INVALID_USAGE)
  else if negb (string_in (uf_usage_status u) ["exact"; "estimated"]) then raise (Domain INVALID_USAGE)
  else
    reservation ← get_reservation rid;
    match reservation with
    | None => raise (Domain RESERVATION_NOT_ACTIVE)
    | Some r =>
        existing_rows ← gets (ledger_like rid "reconcile" (prefix +:+ "%"));
        match existing_rows with
        | first :: _ => replay_usage u existing_rows first
        | [] =>
            pending ← gets (fun db =>
              head (ledger_like rid "settle" (settle_prefix (uf_operation_id u) +:+ "%") db));
            match m_usage_status ∘ le_metadata <$> pending with
            | Some (Some from_) =>
                if negb (string_in from_ ["pending"; "unavailable"])
                then raise (Domain SETTLEMENT_CONFLICT)
                else
                  bucket_rows ← reservation_buckets rid;
                  over ← charge u r "reconcile" prefix "usage_reconcile" (Some from_)
                           (Z.min (r_reserved_micro r) (uf_credits_micro u)) db_now bucket_rows;
                  usage_record_result u (uf_usage_source u) over (uf_pricing_key u) (uf_pricing_version u)
            | _ => raise (Domain SETTLEMENT_CONFLICT)
            end
        end
    end.

(** [usage_source if usage_source in {...} else "provider"]. *)
Definition known_source (s : string) : string :=
  if string_in s ["provider"; "estimated"; "none"] then s else "provider".

(** The hold a feature operation left behind, which its settlement releases in full. *)
Definition feature_hold_micro (rid operation_id : string) (db : DB) : Z :=
  match head (ledger_like rid "reserve" (reserve_feature_prefix operation_id +:+ "%") db) with
  | Some e => default 0 (m_reserved_micro (le_metadata e))
  | None => 0
  end.

(** [settle_usage_in_transaction]. *)
Definition settle_usage_in_transaction (u : UsageFact) (db_now : Z) : Tx UsageRecordResult :=
  let rid := uf_reservation_id u in
  let prefix := settle_prefix (uf_operation_id u) in
  if uf_credits_micro u <? 0 then raise (Domain INVALID_USAGE)
  else if negb (string_in (uf_usage_status u) ["exact"; "estimated"; "pending"; "unavailable"])
  then raise (Domain INVALID_USAGE)
  else
    reservation ← get_reservation rid;
    match reservation with
    | None => raise (Domain RESERVATION_NOT_ACTIVE)
    | Some r =>
        existing_rows ← gets (ledger_like rid "settle" (prefix +:+ "%"));
        match existing_rows with
        | first :: _ =>
            if bool_decide (m_usage_status (le_metadata first) = Some "pending"
                            \/ m_usage_status (le_metadata first) = Some "unavailable")
               && string_in (uf_usage_status u) ["exact"; "estimated"]
            then reconcile_usage_in_transaction u db_now
            else replay_usage u existing_rows first
        | [] =>
            if string_in (uf_usage_status u) ["pending"; "unavailable"] then
              _ ← insert_ledger (Some rid) None "settle" 0 0 0 (prefix +:+ "none")
                    (if String.eqb (uf_usage_status u) "pending" then "usage_pending" else "usage_unavailable")
                    (meta_usage u false None) db_now;
              _ ← when (negb (is_terminal (r_status r)))
                    (update_reservation rid (fun row =>
                       write_amounts (r_reserved_micro row) (r_settled_micro row) settling
                         (r_over_limit row) (r_lease_expires_at row) (r_last_heartbeat_at row) db_now row));
              usage_record_result u (known_source (uf_usage_source u)) false
                (uf_pricing_key u) (uf_pricing_version u)
            else
              bucket_rows ← reservation_buckets rid;
              feature_hold_micro ← gets (feature_hold_micro rid (uf_operation_id u));
              over ← charge u r "settle" prefix "provider_usage" None
                       (Z.min (r_reserved_micro r) (Z.max (uf_credits_micro u) feature_hold_micro))
                       db_now bucket_rows;
              usage_record_result u (known_source (uf_usage_source u)) over
                (uf_pricing_key u) (uf_pricing_version u)
        end
    end.
End service.

(** ** Bounded retry of a whole transaction

    [retry_mysql_transaction]: the attempts are the successive outcomes of [operation], a
    database error carrying whether it invalidated the connection and its MySQL code. *)
Record DBAPIError := { dbe_invalidated : bool; dbe_code : option Z }.

Definition MYSQL_TRANSACTION_ATTEMPTS : nat := 6.

Definition retryable (e : DBAPIError) : bool :=
  negb (dbe_invalidated e)
  && match dbe_code e with Some c => (c =? 1205) || (c =? 1213) | None => false end.

(** The outcome and the attempts made; [attempts] is what remains of the range. *)
Fixpoint retry_from {A} (operation : nat -> result DBAPIError A) (attempt attempts : nat)
  : option (result DBAPIError A * nat) :=
  match attempts with
  | O => None
  | S rest =>
      match operation attempt with
      | Ok a => Some (Ok a, S attempt)
      | Err e =>
          if negb (retryable e) || (MYSQL_TRANSACTION_ATTEMPTS <=? S attempt)%nat
          then Some (Err e, S attempt)
          else retry_from operation (S attempt) rest
      end
  end.

(** [None] stands for the [RuntimeError] after the loop. *)
Definition retry_mysql_transaction {A} (operation : nat -> result DBAPIError A)
  : option (result DBAPIError A * nat) :=
  retry_from operation 0 MYSQL_TRANSACTION_ATTEMPTS.
