(* ===== verification/QuotaInvariants.v ===== *)
(** * QuotaInvariants: the buckets are the running totals of the ledger

    The invariant every transaction of [QuotaService] keeps: a bucket's reserved and
    consumed credits are the sums of the deltas the ledger records for it, ledger keys are
    distinct and every ledger entry names an existing bucket.  A loop that posts to the
    buckets read before it is handled once, in [post_loop]. *)
From S2P Require Import Prelude Clock Usage Pricing Policy Reservation QuotaStore QuotaService.
Local Open Scope Z_scope.

(** ** The invariant *)

Definition entries_of (k : string) (l : list LedgerRow) : list LedgerRow :=
  List.filter (fun e => bool_decide (le_bucket_id e = Some k)) l.

Definition key_taken (key : string) (l : list LedgerRow) : bool :=
  existsb (fun e => String.eqb (le_idempotency_key e) key) l.

Record books (bs : gmap string BucketRow) (l : list LedgerRow) : Prop := {
  bk_key : forall k b, bs !! k = Some b -> b_id b = k;
  bk_reserved : forall k b, bs !! k = Some b ->
    b_reserved_micro b = sum_by le_reserved_delta_micro (entries_of k l);
  bk_consumed : forall k b, bs !! k = Some b ->
    b_consumed_micro b = sum_by le_consumed_delta_micro (entries_of k l);
  bk_dom : forall e k, e ∈ l -> le_bucket_id e = Some k -> is_Some (bs !! k);
  bk_unique : NoDup (le_idempotency_key <$> l);
}.

Definition balanced (db : DB) : Prop := books (db_buckets db) (db_ledger db).

(** Buckets and ledger are exactly these. *)
Definition frame (bs : gmap string BucketRow) (l : list LedgerRow) (db : DB) : Prop :=
  db_buckets db = bs /\ db_ledger db = l.

(** The rows a loop has read are still the rows of the table. *)
Definition current (bs : gmap string BucketRow) (rows : list BucketRow) : Prop :=
  Forall (fun b => bs !! b_id b = Some b) rows.

(** ** The ledger as a list *)

Lemma entries_of_app k l e :
  entries_of k (l ++ e) = entries_of k l ++ entries_of k e.
Proof. apply List.filter_app. Qed.

Lemma entries_of_other k l :
  (forall e, e ∈ l -> le_bucket_id e <> Some k) -> entries_of k l = [].
Proof.
  unfold entries_of. induction l as [|e l IH]; intros H; [done|]. simpl.
  rewrite bool_decide_eq_false_2 by (apply H; set_solver). apply IH. set_solver.
Qed.

Lemma key_taken_spec key l :
  key_taken key l = true <-> key ∈ (le_idempotency_key <$> l).
Proof.
  unfold key_taken. rewrite existsb_exists, list_elem_of_fmap. split.
  - intros (e & He & Hk%String.eqb_eq). exists e. split; [done|]. by apply list_elem_of_In.
  - intros (e & -> & He). exists e. split; [by apply list_elem_of_In|]. apply String.eqb_refl.
Qed.

Lemma key_taken_app key l e :
  key_taken key (l ++ [e]) = key_taken key l || String.eqb (le_idempotency_key e) key.
Proof. unfold key_taken. rewrite existsb_app. simpl. by rewrite orb_false_r. Qed.

Lemma key_taken_app_l key l e : key_taken key l = true -> key_taken key (l ++ [e]) = true.
Proof. rewrite key_taken_app. by intros ->. Qed.

(** ** Posting one entry *)

(** A ledger entry without a bucket. *)
Lemma books_post_none bs l e :
  books bs l -> le_bucket_id e = None -> key_taken (le_idempotency_key e) l = false ->
  books bs (l ++ [e]).
Proof.
  intros [Hk Hr Hc Hd Hu] He Hn.
  assert (Hsame : forall k, entries_of k (l ++ [e]) = entries_of k l).
  { intros k. rewrite entries_of_app, (entries_of_other k [e]); [by rewrite app_nil_r|].
    intros e' ->%list_elem_of_singleton. by rewrite He. }
  split; [done|..].
  - intros k b Hb. rewrite Hsame. by apply Hr.
  - intros k b Hb. rewrite Hsame. by apply Hc.
  - intros e' k [Hin| ->%list_elem_of_singleton]%elem_of_app Hbk; [by eapply Hd|congruence].
  - rewrite fmap_app. apply NoDup_app. split; [done|]. split.
    + intros x Hx ->%list_elem_of_singleton. apply key_taken_spec in Hx. congruence.
    + apply NoDup_singleton.
Qed.

(** An entry for a bucket, together with the bucket's new totals. *)
Lemma books_post bs l e b (f : BucketRow -> BucketRow) :
  books bs l -> bs !! b_id b = Some b -> le_bucket_id e = Some (b_id b) ->
  key_taken (le_idempotency_key e) l = false -> b_id (f b) = b_id b ->
  b_reserved_micro (f b) = b_reserved_micro b + le_reserved_delta_micro e ->
  b_consumed_micro (f b) = b_consumed_micro b + le_consumed_delta_micro e ->
  books (alter f (b_id b) bs) (l ++ [e]).
Proof.
  intros [Hk Hr Hc Hd Hu] Hb He Hn Hid Hres Hcon.
  assert (Hother : forall k, k <> b_id b -> entries_of k (l ++ [e]) = entries_of k l).
  { intros k Hne. rewrite entries_of_app, (entries_of_other k [e]); [by rewrite app_nil_r|].
    intros e' ->%list_elem_of_singleton. rewrite He. congruence. }
  assert (Hown : forall g : LedgerRow -> Z,
    sum_by g (entries_of (b_id b) (l ++ [e])) = sum_by g (entries_of (b_id b) l) + g e).
  { intros g. rewrite entries_of_app, sum_by_app. unfold entries_of at 2. simpl.
    rewrite bool_decide_eq_true_2 by done. unfold sum_by at 2. simpl. lia. }
  split.
  - intros k b'. destruct (decide (k = b_id b)) as [->|Hne].
    + rewrite lookup_alter_eq, Hb. simpl. intros [= <-]. done.
    + rewrite lookup_alter_ne by done. apply Hk.
  - intros k b'. destruct (decide (k = b_id b)) as [->|Hne].
    + rewrite lookup_alter_eq, Hb. simpl. intros [= <-]. rewrite Hres, Hown. f_equal. by apply Hr.
    + rewrite lookup_alter_ne, Hother by done. apply Hr.
  - intros k b'. destruct (decide (k = b_id b)) as [->|Hne].
    + rewrite lookup_alter_eq, Hb. simpl. intros [= <-]. rewrite Hcon, Hown. f_equal. by apply Hc.
    + rewrite lookup_alter_ne, Hother by done. apply Hc.
  - intros e' k Hin Hbk. destruct (decide (k = b_id b)) as [->|Hne].
    + rewrite lookup_alter_eq, Hb. by eexists.
    + rewrite lookup_alter_ne by done. apply elem_of_app in Hin as [Hin| ->%list_elem_of_singleton].
      * by eapply Hd.
      * congruence.
  - rewrite fmap_app. apply NoDup_app. split; [done|]. split.
    + intros x Hx ->%list_elem_of_singleton. apply key_taken_spec in Hx. congruence.
    + apply NoDup_singleton.
Qed.

(** A new bucket nobody has posted to. *)
Lemma books_insert bs l b :
  books bs l -> bs !! b_id b = None -> b_reserved_micro b = 0 -> b_consumed_micro b = 0 ->
  books (<[b_id b := b]> bs) l.
Proof.
  intros [Hk Hr Hc Hd Hu] Hnone Hr0 Hc0.
  assert (Hempty : entries_of (b_id b) l = []).
  { apply entries_of_other. intros e He Hbk. destruct (Hd e _ He Hbk) as [? ?]. congruence. }
  split.
  - intros k b' [[<- <-]|[Hne Hb]]%lookup_insert_Some; [done|by apply Hk].
  - intros k b' [[<- <-]|[Hne Hb]]%lookup_insert_Some; [by rewrite Hempty|by apply Hr].
  - intros k b' [[<- <-]|[Hne Hb]]%lookup_insert_Some; [by rewrite Hempty|by apply Hc].
  - intros e k He Hbk. destruct (decide (k = b_id b)) as [->|Hne].
    + rewrite lookup_insert_eq. by eexists.
    + rewrite lookup_insert_ne by done. by eapply Hd.
  - done.
Qed.

(** A change of a bucket's other columns. *)
Lemma books_alter bs l k (f : BucketRow -> BucketRow) :
  books bs l ->
  (forall b, b_id (f b) = b_id b /\ b_reserved_micro (f b) = b_reserved_micro b
             /\ b_consumed_micro (f b) = b_consumed_micro b) ->
  books (alter f k bs) l.
Proof.
  intros [Hk Hr Hc Hd Hu] Hf.
  assert (Hl : forall j b', alter f k bs !! j = Some b' -> exists b, bs !! j = Some b /\
    b_id b' = b_id b /\ b_reserved_micro b' = b_reserved_micro b /\ b_consumed_micro b' = b_consumed_micro b).
  { intros j b'. destruct (decide (k = j)) as [->|Hne].
    - rewrite lookup_alter_eq. intros (b & Hb & Hfb)%fmap_Some. subst b'.
      exists b. split; [done|]. apply Hf.
    - rewrite lookup_alter_ne by done. eauto. }
  split.
  - intros j b' (b & Hb & -> & _)%Hl. by apply Hk.
  - intros j b' (b & Hb & _ & -> & _)%Hl. by apply Hr.
  - intros j b' (b & Hb & _ & _ & ->)%Hl. by apply Hc.
  - intros e j He Hbk. destruct (Hd e j He Hbk) as [b Hb]. destruct (decide (k = j)) as [->|Hne].
    + rewrite lookup_alter_eq, Hb. by eexists.
    + rewrite lookup_alter_ne by done. eauto.
  - done.
Qed.

Lemma current_alter bs k f rows :
  current bs rows -> k ∉ (b_id <$> rows) -> current (alter f k bs) rows.
Proof.
  unfold current. intros Hc Hk. rewrite Forall_forall in *. intros b Hb.
  rewrite lookup_alter_ne; [by apply Hc|]. intros ->. apply Hk. by apply list_elem_of_fmap_2.
Qed.

(** ** Posting loops *)

(** The store after one bucket update and one ledger insert. *)
Definition post (f : BucketRow -> BucketRow) (b : BucketRow) (e : LedgerRow) (db : DB) : DB :=
  set_ledger (set_next_uuid (set_buckets db (alter f (b_id b) (db_buckets db))) (S (db_next_uuid db)))
    (db_ledger db ++ [e]).

(** Everything but the buckets, the ledger and the identifier supply is unchanged. *)
Definition same_rest (db db' : DB) : Prop :=
  exists bs l n, db' = set_next_uuid (set_ledger (set_buckets db bs) l) n.

#[export] Instance same_rest_preorder : PreOrder same_rest.
Proof.
  split.
  - intros []. by eexists _, _, _.
  - intros [] ? ? (?&?&?&->) (?&?&?&->). by eexists _, _, _.
Qed.

Lemma same_rest_buckets db bs : same_rest db (set_buckets db bs).
Proof. exists bs, (db_ledger db), (db_next_uuid db). by destruct db. Qed.

Lemma same_rest_uuid db n : same_rest db (set_next_uuid db n).
Proof. exists (db_buckets db), (db_ledger db), n. by destruct db. Qed.

Lemma same_rest_ledger db l : same_rest db (set_ledger db l).
Proof. exists (db_buckets db), l, (db_next_uuid db). by destruct db. Qed.

Lemma same_rest_post f b e db : same_rest db (post f b e db).
Proof.
  exists (alter f (b_id b) (db_buckets db)), (db_ledger db ++ [e]), (S (db_next_uuid db)). by destruct db.
Qed.

Section posting.
(** [upd b] is the row written over [b]; [mk b id] the entry recorded for it. *)
Context (upd : BucketRow -> BucketRow -> BucketRow) (mk : BucketRow -> string -> LedgerRow).

Inductive post_all : list BucketRow -> DB -> DB -> Prop :=
| post_nil db : post_all [] db db
| post_cons b bs id db db' :
    key_taken (le_idempotency_key (mk b id)) (db_ledger db) = false ->
    post_all bs (post (upd b) b (mk b id) db) db' ->
    post_all (b :: bs) db db'.

Record posting_laws : Prop := {
  pl_bucket : forall b id, le_bucket_id (mk b id) = Some (b_id b);
  pl_key : forall b b' id id', b_id b = b_id b' ->
    le_idempotency_key (mk b id) = le_idempotency_key (mk b' id');
  pl_id : forall b, b_id (upd b b) = b_id b;
  pl_reserved : forall b id,
    b_reserved_micro (upd b b) = b_reserved_micro b + le_reserved_delta_micro (mk b id);
  pl_consumed : forall b id,
    b_consumed_micro (upd b b) = b_consumed_micro b + le_consumed_delta_micro (mk b id);
}.

Lemma post_all_iter (body : BucketRow -> Tx ()) bs db db' u :
  (forall b s u' s', body b s = Ok (u', s') ->
     exists id, key_taken (le_idempotency_key (mk b id)) (db_ledger s) = false
                /\ s' = post (upd b) b (mk b id) s) ->
  st_iter body bs db = Ok (u, db') -> post_all bs db db'.
Proof.
  intros Hbody. revert db. induction bs as [|b bs IH]; simpl; intros db Hr.
  - injection Hr as _ <-. constructor.
  - apply st_bind_ok in Hr as (u' & s & (id & Hk & ->)%Hbody & Hr). econstructor; eauto.
Qed.

Lemma post_all_same_rest bs db db' : post_all bs db db' -> same_rest db db'.
Proof.
  induction 1 as [|b bs id db db' _ _ IH]; [done|]. etransitivity; [|exact IH].
  apply same_rest_post.
Qed.

(** The entries written, in order. *)
Lemma post_all_ledger bs db db' : post_all bs db db' ->
  exists ids, length ids = length bs /\ db_ledger db' = db_ledger db ++ zip_with mk bs ids.
Proof.
  induction 1 as [db|b bs id db db' _ _ (ids & Hlen & Hl)].
  - exists []. by rewrite app_nil_r.
  - exists (id :: ids). simpl. split; [by f_equal|]. rewrite Hl. simpl. by rewrite <- app_assoc.
Qed.

Section laws.
Context (Hlaws : posting_laws).

(** A bucket that occurs twice makes the loop fail on the ledger's unique key. *)
Lemma post_all_nodup bs db db' :
  post_all bs db db' ->
  NoDup (b_id <$> bs)
  /\ (forall b id, b ∈ bs -> key_taken (le_idempotency_key (mk b id)) (db_ledger db) = false).
Proof.
  induction 1 as [|b bs id db db' Hk _ (Hnd & Hfresh)].
  - split; [constructor|]. intros b id H. by apply not_elem_of_nil in H.
  - split.
    + simpl. constructor; [|done]. intros (b' & Hid & Hin)%list_elem_of_fmap.
      specialize (Hfresh b' id Hin). unfold post in Hfresh. simpl in Hfresh.
      rewrite key_taken_app in Hfresh. apply orb_false_iff in Hfresh as [_ Hne].
      rewrite (pl_key Hlaws b b' id id Hid), String.eqb_refl in Hne. done.
    + intros b' id' [->|Hin]%elem_of_cons.
      * by rewrite (pl_key Hlaws b b id' id eq_refl).
      * specialize (Hfresh b' id' Hin). unfold post in Hfresh. simpl in Hfresh.
        rewrite key_taken_app in Hfresh. by apply orb_false_iff in Hfresh as [-> _].
Qed.

Lemma post_all_lookup_ne bs db db' k :
  post_all bs db db' -> k ∉ (b_id <$> bs) -> db_buckets db' !! k = db_buckets db !! k.
Proof.
  induction 1 as [|b bs id db db' _ _ IH]; intros Hk; [done|]. simpl in Hk.
  rewrite IH by set_solver. unfold post. simpl. apply lookup_alter_ne. set_solver.
Qed.

Lemma post_all_lookup bs db db' b :
  post_all bs db db' -> current (db_buckets db) bs -> b ∈ bs ->
  db_buckets db' !! b_id b = Some (upd b b).
Proof.
  intros Hp. pose proof (proj1 (post_all_nodup _ _ _ Hp)) as Hnd. revert Hnd.
  induction Hp as [|b' bs id db db' Hk Hp IH]; simpl; intros Hnd Hc Hin;
    [by apply not_elem_of_nil in Hin|].
  apply NoDup_cons in Hnd as [Hnin Hnd]. apply Forall_cons in Hc as [Hb' Hc].
  apply elem_of_cons in Hin as [->|Hin].
  - rewrite (post_all_lookup_ne _ _ _ _ Hp Hnin). unfold post. simpl.
    by rewrite lookup_alter_eq, Hb'.
  - apply IH; [done| |done]. by apply current_alter.
Qed.

Lemma post_all_books bs db db' :
  post_all bs db db' -> current (db_buckets db) bs -> balanced db -> balanced db'.
Proof.
  intros Hp. pose proof (proj1 (post_all_nodup _ _ _ Hp)) as Hnd. revert Hnd.
  induction Hp as [|b bs id db db' Hk Hp IH]; simpl; intros Hnd Hc Hbk; [done|].
  apply NoDup_cons in Hnd as [Hnin Hnd]. apply Forall_cons in Hc as [Hb Hc].
  apply IH; [done|by apply current_alter|]. unfold balanced, post. simpl.
  apply books_post; auto; [by rewrite (pl_bucket Hlaws)|by apply pl_id
    |by apply pl_reserved|by apply pl_consumed].
Qed.
End laws.
End posting.

(** ** Statements of the store *)

Section statements.
Context `{Uuids}.

Lemma insert_ledger_ok rid bid et a rd cd key reason meta at_ db u db' :
  insert_ledger rid bid et a rd cd key reason meta at_ db = Ok (u, db') ->
  key_taken key (db_ledger db) = false
  /\ db' = set_ledger (set_next_uuid db (S (db_next_uuid db)))
       (db_ledger db ++
        [ledger_row rid bid et a rd cd key reason meta at_ (uuid4 (db_next_uuid db))]).
Proof.
  unfold insert_ledger, fresh_uuid, stmt. intros (a' & s & Hs & Hr)%st_bind_ok.
  injection Hs as <- <-. simpl in Hr. unfold key_taken.
  destruct (existsb _ (db_ledger db)); [done|]. injection Hr as _ <-. done.
Qed.

Lemma update_bucket_ok id f db u db' :
  update_bucket id f db = Ok (u, db') ->
  db' = set_buckets db (alter f id (db_buckets db))
  /\ (forall b, db_buckets db !! id = Some b -> counters_fit (f b) = true).
Proof.
  unfold update_bucket, stmt. destruct (db_buckets db !! id) as [b|] eqn:Hb.
  - destruct (counters_fit (f b)) eqn:Hfit; [|done]. intros [= _ <-]. split; [done|]. by intros b' [= <-].
  - intros [= _ <-]. split; [|done]. rewrite alter_id by (intros b; by rewrite Hb). by destruct db.
Qed.

Lemma insert_ledger_none_balanced rid et a rd cd key reason meta at_ :
  st_inv balanced (insert_ledger rid None et a rd cd key reason meta at_).
Proof.
  intros db u db' Hb (Hk & ->)%insert_ledger_ok. unfold balanced. simpl.
  by apply books_post_none.
Qed.

(** Reading the buckets of a reservation. *)
Definition read_rows (rows : list BucketRow) (db : DB) : Prop :=
  balanced db /\ current (db_buckets db) rows.

Lemma select_current bs l p : books bs l -> current bs (select p bs).
Proof.
  intros Hbk. unfold current, select, rows. rewrite Forall_forall. intros b Hb.
  apply list_elem_of_In, filter_In in Hb as [Hb _]. apply list_elem_of_In in Hb.
  apply list_elem_of_fmap in Hb as ([k b'] & -> & Hkb). apply elem_of_map_to_list in Hkb. simpl.
  by rewrite (bk_key _ _ Hbk k b').
Qed.

Lemma reservation_buckets_current rid :
  st_triple balanced (reservation_buckets rid) (fun rows db => read_rows rows db).
Proof.
  intros db rows db' Hb [= <- <-]. split; [done|]. by eapply select_current.
Qed.

Lemma insert_ledger_none_rows rows b rid et a rd cd key reason meta at_ :
  st_triple (read_rows rows) (when b (insert_ledger rid None et a rd cd key reason meta at_))
    (fun _ => read_rows rows).
Proof.
  intros db u db' [Hb Hc] Hr. destruct b; simpl in Hr; [|by injection Hr as _ <-].
  split; [by eapply insert_ledger_none_balanced|].
  apply insert_ledger_ok in Hr as [_ ->]. exact Hc.
Qed.

(** A statement that writes neither buckets nor ledger. *)
Lemma modify_frame (f : DB -> DB) :
  (forall db, db_buckets (f db) = db_buckets db /\ db_ledger (f db) = db_ledger db) ->
  forall bs l, st_inv (frame bs l) (modify f : Tx ()).
Proof. intros Hf bs l. apply st_inv_modify. intros db [<- <-]. apply Hf. Qed.

Lemma balanced_frame {A} (m : Tx A) : (forall bs l, st_inv (frame bs l) m) -> st_inv balanced m.
Proof.
  intros Hm db a db' Hb Hr. destruct (Hm (db_buckets db) (db_ledger db) db a db') as [Hbs Hl];
    [done|done|]. unfold balanced. by rewrite Hbs, Hl.
Qed.

Lemma update_reservation_frame id f bs l : st_inv (frame bs l) (update_reservation id f).
Proof. by apply modify_frame. Qed.

Lemma insert_reservation_frame row bs l : st_inv (frame bs l) (insert_reservation row).
Proof.
  intros db u db' Hf. unfold insert_reservation, stmt. destruct (_ || _); [done|].
  intros Hr. by injection Hr as _ <-.
Qed.

Lemma get_or_create_concurrency_lock_frame user now_ bs l :
  st_inv (frame bs l) (get_or_create_concurrency_lock user now_).
Proof. apply modify_frame. intros db. by case_match. Qed.

Lemma reserve_concurrency_frame user limit now_ bs l :
  st_inv (frame bs l) (reserve_concurrency user limit now_).
Proof.
  apply st_inv_bind; [apply get_or_create_concurrency_lock_frame|]. intros _ db u db' Hf. unfold stmt.
  destruct (db_locks db !! user); [|done]. destruct (_ <=? _); [|done]. intros Hr. by injection Hr as _ <-.
Qed.

Lemma release_concurrency_frame user units now_ bs l :
  st_inv (frame bs l) (release_concurrency user units now_).
Proof.
  unfold release_concurrency. destruct (units <=? 0); [apply st_inv_ret|].
  apply modify_frame. intros db. by case_match.
Qed.
End statements.

#[export] Hint Resolve update_reservation_frame insert_reservation_frame
  get_or_create_concurrency_lock_frame reserve_concurrency_frame release_concurrency_frame
  insert_ledger_none_balanced : nova.

(** ** The posting loops of the service *)

Section loops.
Context `{Uuids}.

(** A body that inserts an entry and then writes the bucket, or the other way round. *)
Lemma insert_then_update b f rid et a rd cd key reason meta at_ s u s' :
  (_ ← insert_ledger rid (Some (b_id b)) et a rd cd key reason meta at_;
   update_bucket (b_id b) f) s = Ok (u, s') ->
  exists id, key_taken key (db_ledger s) = false
    /\ s' = post f b (ledger_row rid (Some (b_id b)) et a rd cd key reason meta at_ id) s.
Proof.
  intros (u' & s1 & (Hk & ->)%insert_ledger_ok & [-> _]%update_bucket_ok)%st_bind_ok.
  eexists. split; [done|]. by destruct s.
Qed.

Lemma update_then_insert b f rid et a rd cd key reason meta at_ s u s' :
  (_ ← update_bucket (b_id b) f;
   insert_ledger rid (Some (b_id b)) et a rd cd key reason meta at_) s = Ok (u, s') ->
  exists id, key_taken key (db_ledger s) = false
    /\ s' = post f b (ledger_row rid (Some (b_id b)) et a rd cd key reason meta at_ id) s.
Proof.
  intros (u' & s1 & [-> _]%update_bucket_ok & (Hk & ->)%insert_ledger_ok)%st_bind_ok.
  eexists. split; [done|]. by destruct s.
Qed.

Lemma release_all n m : n - Z.min n m = n + - Z.min n m /\ Z.max 0 (n - Z.min n m) = n + - Z.min n m.
Proof. lia. Qed.

Ltac posting_laws_tac :=
  split; simpl; intros; try done; try congruence; try lia.

Definition finish_upd (released_ now_ : Z) (b : BucketRow) : BucketRow -> BucketRow :=
  write_reserved b (Z.max 0 (b_reserved_micro b - Z.min (b_reserved_micro b) released_)) now_.

Definition finish_mk (cmd : FinishTurn) (st : ReservationStatus) (released_ now_ : Z) (b : BucketRow)
  : string -> LedgerRow :=
  ledger_row (Some (fi_reservation_id cmd)) (Some (b_id b)) "release"
    (- Z.min (b_reserved_micro b) released_) (- Z.min (b_reserved_micro b) released_) 0
    ("finish:" +:+ fi_idempotency_key cmd +:+ ":" +:+ b_id b)
    (if bool_decide (st = settled) then "turn_finished" else "reservation_expired")
    (meta_finish st released_) now_.

Lemma finish_laws cmd st released_ now_ :
  posting_laws (finish_upd released_ now_) (finish_mk cmd st released_ now_).
Proof. posting_laws_tac. Qed.

Lemma finish_loop cmd st released_ now_ bs db db' u :
  st_iter (finish_bucket cmd st released_ now_) bs db = Ok (u, db') ->
  post_all (finish_upd released_ now_) (finish_mk cmd st released_ now_) bs db db'.
Proof. apply post_all_iter. intros b s u' s'. apply insert_then_update. Qed.

Definition hold_upd (micro now_ : Z) (b : BucketRow) : BucketRow -> BucketRow :=
  write_reserved b (b_reserved_micro b + micro) now_.

Definition hold_mk (cmd : AdmitTurn) (rid suffix : string) (micro now_ : Z) (b : BucketRow)
  : string -> LedgerRow :=
  ledger_row (Some rid) (Some (b_id b)) "reserve" micro micro 0
    ("reserve:" +:+ rid +:+ ":" +:+ b_id b +:+ suffix) "turn_admission"
    (meta_turn (at_turn_id cmd) (Some (b_bucket_type b))) now_.

Lemma hold_laws cmd rid suffix micro now_ :
  posting_laws (hold_upd micro now_) (hold_mk cmd rid suffix micro now_).
Proof. posting_laws_tac. Qed.

Lemma hold_loop cmd rid suffix micro now_ bs db db' u :
  st_iter (hold_bucket cmd rid suffix micro now_) bs db = Ok (u, db') ->
  post_all (hold_upd micro now_) (hold_mk cmd rid suffix micro now_) bs db db'.
Proof. apply post_all_iter. intros b s u' s'. apply update_then_insert. Qed.

Definition feature_mk (rid operation_id pricing_key : string) (f : BillableFeatureUsage)
  (micro now_ : Z) (b : BucketRow) : string -> LedgerRow :=
  ledger_row (Some rid) (Some (b_id b)) "reserve" micro micro 0
    (reserve_feature_prefix operation_id +:+ b_id b) "feature_admission"
    (meta_feature operation_id pricing_key f micro (Some (b_bucket_type b))) now_.

Lemma feature_laws rid op pk f micro now_ :
  posting_laws (hold_upd micro now_) (feature_mk rid op pk f micro now_).
Proof. posting_laws_tac. Qed.

Lemma feature_loop rid op pk f micro now_ bs db db' u :
  st_iter (feature_hold rid op pk f micro now_) bs db = Ok (u, db') ->
  post_all (hold_upd micro now_) (feature_mk rid op pk f micro now_) bs db db'.
Proof. apply post_all_iter. intros b s u' s'. apply update_then_insert. Qed.

Definition feature_release_mk (rid operation_id : string) (released_ now_ : Z) (b : BucketRow)
  : string -> LedgerRow :=
  ledger_row (Some rid) (Some (b_id b)) "release"
    (- Z.min (b_reserved_micro b) released_) (- Z.min (b_reserved_micro b) released_) 0
    (release_feature_prefix operation_id +:+ b_id b) "feature_execution_failed"
    (meta_release operation_id released_) now_.

Lemma feature_release_laws rid op released_ now_ :
  posting_laws (finish_upd released_ now_) (feature_release_mk rid op released_ now_).
Proof. posting_laws_tac. Qed.

Lemma feature_release_loop rid op released_ now_ bs db db' u :
  st_iter (feature_release rid op released_ now_) bs db = Ok (u, db') ->
  post_all (finish_upd released_ now_) (feature_release_mk rid op released_ now_) bs db db'.
Proof. apply post_all_iter. intros b s u' s'. apply insert_then_update. Qed.

(** [charge_bucket]'s verdict on a bucket, in the store the charge started from. *)
Definition over_after (u : UsageFact) (r : ReservationRow) (now_ : Z) (db : DB) (b : BucketRow) : bool :=
  match b_limit_micro b with
  | None => false
  | Some limit =>
      limit + additional_capacity_for_bucket b now_ db
        + reservation_overdraft r (b_owner_type b) (b_owner_id b)
        <? b_consumed_micro b + uf_credits_micro u
  end.

Definition charge_upd (u : UsageFact) (r : ReservationRow) (release_amount now_ : Z) (db : DB)
  (b : BucketRow) : BucketRow -> BucketRow :=
  write_counters (Z.max 0 (b_reserved_micro b - Z.min (b_reserved_micro b) release_amount))
    (b_consumed_micro b + uf_credits_micro u) (over_after u r now_ db b) (b_version b) now_.

Definition charge_mk (u : UsageFact) (r : ReservationRow) (entry_type prefix reason : string)
  (reconciled_from : option string) (release_amount now_ : Z) (db : DB) (b : BucketRow)
  : string -> LedgerRow :=
  ledger_row (Some (uf_reservation_id u)) (Some (b_id b)) entry_type
    (uf_credits_micro u) (- Z.min (b_reserved_micro b) release_amount) (uf_credits_micro u)
    (prefix +:+ b_id b) reason (meta_usage u (over_after u r now_ db b) reconciled_from) now_.

Lemma charge_laws u r et p rs rf ra now_ db :
  posting_laws (charge_upd u r ra now_ db) (charge_mk u r et p rs rf ra now_ db).
Proof. posting_laws_tac. Qed.

Lemma over_after_same_rest u r now_ db db' b :
  same_rest db db' -> over_after u r now_ db' b = over_after u r now_ db b.
Proof. intros (bs & l & n & ->). done. Qed.

Lemma charge_loop u r et p rs rf ra now_ db0 bs db db' overs :
  same_rest db0 db ->
  st_collect (charge_bucket u r et p rs rf ra now_) bs db = Ok (overs, db') ->
  post_all (charge_upd u r ra now_ db0) (charge_mk u r et p rs rf ra now_ db0) bs db db'
  /\ overs = over_after u r now_ db0 <$> bs.
Proof.
  revert db overs. induction bs as [|b bs IH]; cbn [st_collect]; intros db overs Hsame Hr.
  - injection Hr as <- <-. split; [constructor|done].
  - apply st_bind_ok in Hr as (o & s & Hb & Hr).
    apply st_bind_ok in Hr as (os & s2 & Hos & Hr). injection Hr as <- <-.
    unfold charge_bucket in Hb. apply st_bind_ok in Hb as (extra & s1 & He & Hb).
    injection He as <- <-. cbv zeta in Hb. fold (over_after u r now_ db b) in Hb.
    rewrite (over_after_same_rest _ _ _ _ _ _ Hsame) in Hb.
    apply st_bind_ok in Hb as (u1 & s1 & (Hk & ->)%insert_ledger_ok & Hb).
    apply st_bind_ok in Hb as (u2 & s3 & [-> _]%update_bucket_ok & Hb). injection Hb as <- <-.
    eapply IH in Hos as [Hp ->]; [|etransitivity; [exact Hsame|destruct db; by eexists _, _, _]].
    split; [|done]. econstructor; [exact Hk|]. exact Hp.
Qed.
End loops.

(** ** Every operation keeps the books balanced *)

Section balanced.
Context `{Uuids}.
Variable lease_seconds : Z.

Lemma post_loop upd mk (body : BucketRow -> Tx ()) bs :
  posting_laws upd mk ->
  (forall db db' u, st_iter body bs db = Ok (u, db') -> post_all upd mk bs db db') ->
  st_triple (read_rows bs) (st_iter body bs) (fun _ => balanced).
Proof. intros Hl Hp db u db' [Hb Hc] Hr. eapply post_all_books; [done|by eapply Hp|done|done]. Qed.

Lemma get_reservation_inv I id : st_inv I (get_reservation id).
Proof. apply st_inv_gets. Qed.

Lemma frame_inv {A} (m : Tx A) : (forall bs l, st_inv (frame bs l) m) ->
  st_triple balanced m (fun _ => balanced).
Proof. apply balanced_frame. Qed.

Lemma finish_balanced cmd now_ ts : st_inv balanced (finish_in_transaction cmd now_ ts).
Proof.
  unfold finish_in_transaction.
  apply st_inv_bind; [apply get_reservation_inv|]. intros [r|]; [|apply st_inv_raise].
  apply st_inv_bind; [apply st_inv_gets|]. intros [e|]; [repeat st_inv_step|].
  destruct (negb _); [apply st_inv_raise|]. destruct (is_terminal _); [apply st_inv_ret|]. cbv zeta.
  eapply st_triple_bind; [apply reservation_buckets_current|]. intros rows.
  eapply st_triple_bind; [apply insert_ledger_none_rows|]. intros ?.
  eapply st_triple_bind; [eapply post_loop; [apply finish_laws|]; intros; by eapply finish_loop|].
  intros ?. apply balanced_frame. intros bs l.
  apply st_inv_bind; [apply st_inv_when, release_concurrency_frame|]. intros _.
  apply st_inv_bind; [apply update_reservation_frame|]. intros _. apply st_inv_ret.
Qed.

Lemma expire_stale_balanced at_ : st_inv balanced (expire_stale_in_transaction at_).
Proof.
  apply st_inv_bind; [apply st_inv_gets|]. intros stale. apply st_inv_iter. intros row.
  apply st_inv_bind; [apply finish_balanced|]. intros _. apply st_inv_ret.
Qed.

Lemma expire_reservations_balanced at_ : st_inv balanced (expire_reservations at_).
Proof.
  apply st_inv_bind; [apply st_inv_gets|]. intros stale.
  apply st_inv_bind; [|intros _; apply st_inv_ret]. apply st_inv_iter. intros row.
  apply st_inv_bind; [apply finish_balanced|]. intros _. apply st_inv_ret.
Qed.

Lemma touch_lease_balanced label next rid at_ :
  st_inv balanced (touch_lease lease_seconds label next rid at_).
Proof.
  apply st_inv_bind; [apply get_reservation_inv|]. intros [r|]; [|apply st_inv_ret].
  destruct (negb _); [apply st_inv_ret|]. destruct (_ <=? _).
  - apply st_inv_bind; [apply finish_balanced|]. intros _. apply st_inv_ret.
  - apply st_inv_bind; [apply balanced_frame, update_reservation_frame|]. intros _. apply st_inv_ret.
Qed.

(** *** Admission *)

Lemma effective_binding_readonly cmd roles cls at_ st opt db :
  st_inv (eq db) (effective_binding cmd roles cls at_ st opt).
Proof. unfold effective_binding. repeat st_inv_step. Qed.

Lemma classroom_policies_readonly cmd at_ ids db : st_inv (eq db) (classroom_policies cmd at_ ids).
Proof.
  induction ids as [|i ids IH]; cbn [classroom_policies]; [apply st_inv_ret|].
  apply st_inv_bind; [|intros ?; apply st_inv_bind; [exact IH|intros ?; apply st_inv_ret]].
  unfold classroom_policy. apply st_inv_bind; [apply effective_binding_readonly|].
  intros ?. repeat st_inv_step.
Qed.

Lemma admit_policies_readonly cmd roles cls at_ db : st_inv (eq db) (admit_policies cmd roles cls at_).
Proof.
  unfold admit_policies. apply st_inv_bind; [apply effective_binding_readonly|].
  intros [base|]; [|apply st_inv_raise].
  apply st_inv_bind; [apply effective_binding_readonly|]. intros ws.
  apply st_inv_bind; [apply classroom_policies_readonly|]. intros cls'. apply st_inv_ret.
Qed.

Lemma check_profiles_readonly cmd ps db : st_inv (eq db) (check_profiles cmd ps).
Proof. induction ps as [|p ps IH]; cbn [check_profiles]; repeat st_inv_step. exact IH. Qed.

Lemma admit_estimate_readonly cmd at_ ps db : st_inv (eq db) (admit_estimate cmd at_ ps).
Proof. unfold admit_estimate. repeat st_inv_step. Qed.

Lemma admit_replay_readonly cmd ex at_ db : st_inv (eq db) (admit_replay cmd ex at_).
Proof. unfold admit_replay. repeat st_inv_step. Qed.

Lemma classrooms_readonly cls w db : st_inv (eq db) (classrooms_in_workspace cls w).
Proof. unfold classrooms_in_workspace. repeat st_inv_step. Qed.

Lemma readonly_inv {A} (I : DB -> Prop) (m : Tx A) : (forall db, st_inv (eq db) m) -> st_inv I m.
Proof. intros Hm db a db' HI Hr. by rewrite (st_readonly _ _ _ _ (Hm db) Hr). Qed.

Lemma select_in p (bs : gmap string BucketRow) k b : bs !! k = Some b -> p b = true -> b ∈ select p bs.
Proof.
  intros Hb Hp. apply list_elem_of_In, filter_In. split; [|done]. apply list_elem_of_In.
  apply list_elem_of_fmap. exists (k, b). split; [done|]. by apply elem_of_map_to_list.
Qed.

Lemma same_scope_new id o oid bt s e p limit now_ :
  same_scope o oid bt s e (new_bucket id o oid bt s e p limit now_) = true.
Proof.
  unfold same_scope, new_bucket. simpl.
  by rewrite !bool_decide_eq_true_2, !String.eqb_refl, !Z.eqb_refl by done.
Qed.

(** The find-or-insert half: the row of the scope is stored under its own identifier. *)
Lemma find_or_insert_ok o oid bt s e p limit now_ n db u db' row :
  balanced db ->
  match select (same_scope o oid bt s e) (db_buckets db) with
  | [] => insert_bucket (new_bucket n o oid bt s e p limit now_)
  | _ => mret ()
  end db = Ok (u, db') ->
  select (same_scope o oid bt s e) (db_buckets db') = [row] ->
  balanced db' /\ db_buckets db' !! b_id row = Some row
  /\ (forall k, k <> b_id row -> db_buckets db' !! k = db_buckets db !! k) /\ same_rest db db'.
Proof.
  intros Hbal Hr Hsel'.
  assert (Hcur : balanced db' -> db_buckets db' !! b_id row = Some row).
  { intros Hb. pose proof (select_current _ _ (same_scope o oid bt s e) Hb) as Hc.
    rewrite Hsel' in Hc. by apply Forall_cons in Hc as [? _]. }
  destruct (select (same_scope o oid bt s e) (db_buckets db)) as [|x xs] eqn:Hsel.
  - set (nb := new_bucket n o oid bt s e p limit now_) in *.
    unfold insert_bucket, stmt in Hr. destruct (_ || _) eqn:Hc; [done|]. injection Hr as _ <-.
    apply orb_false_iff in Hc as [Hc _]. apply bool_decide_eq_false in Hc.
    assert (Hb' : balanced (set_buckets db (<[b_id nb := nb]> (db_buckets db)))).
    { apply books_insert; [done| |done|done]. by apply eq_None_not_Some. }
    assert (Hnb : nb ∈ [row]).
    { rewrite <- Hsel'. eapply select_in; [apply lookup_insert_eq|apply same_scope_new]. }
    apply list_elem_of_singleton in Hnb as <-.
    split; [done|]. split; [by apply Hcur|]. split.
    + intros k Hk. simpl. by apply lookup_insert_ne.
    + apply same_rest_buckets.
  - injection Hr as _ <-. split; [done|]. split; [by apply Hcur|]. done.
Qed.

(** Materialising the bucket of one owner's period: the row returned is the row stored and
    carries the scope and the limit asked for; other rows, totals and tables stay. *)
Lemma get_or_create_bucket_ok o oid bt s e p limit now_ db b db' :
  balanced db ->
  get_or_create_bucket o oid bt s e p limit now_ db = Ok (b, db') ->
  (balanced db' /\ db_buckets db' !! b_id b = Some b
   /\ (forall k, k <> b_id b -> db_buckets db' !! k = db_buckets db !! k) /\ same_rest db db')
  /\ same_scope o oid bt s e b = true /\ b_limit_micro b = limit.
Proof.
  intros Hbal Hr. unfold get_or_create_bucket in Hr. st_run Hr.
  injection Hrun as <- <-. injection Hrun0 as <- <-. injection Hrun2 as <- <-.
  unfold select_one in Hrun3 at 1.
  destruct (select _ (db_buckets s2)) as [|row [|? ?]] eqn:Hsel2; try done.
  injection Hrun3 as <- <-.
  eapply (find_or_insert_ok _ _ _ _ _ _ _ _ _ (set_next_uuid db _)) in Hrun1
    as (Hb2 & Hrow & Hne & Hrest); [|exact Hbal|exact Hsel2].
  assert (Hscope : same_scope o oid bt s e row = true).
  { assert (Hin : row ∈ select (same_scope o oid bt s e) (db_buckets s2)) by (rewrite Hsel2; set_solver).
    by apply list_elem_of_In, filter_In in Hin as [_ ?]. }
  assert (Hrest0 : same_rest db s2).
  { etransitivity; [|exact Hrest]. apply same_rest_uuid. }
  destruct (bool_decide (b_limit_micro row = limit) && _) eqn:Hup.
  - injection Hr as <- <-. apply andb_true_iff in Hup as [Hl%bool_decide_eq_true _]. done.
  - st_run Hr. apply update_bucket_ok in Hrun as [-> _]. injection Hrun0 as <- <-. simpl in Hr.
    rewrite lookup_alter_eq, Hrow in Hr. simpl in Hr. injection Hr as <- <-.
    split; [|done]. simpl. rewrite lookup_alter_eq, Hrow. split; [|split; [done|split]].
    + unfold balanced. simpl. by apply books_alter.
    + intros k Hk. rewrite lookup_alter_ne by done. by apply Hne.
    + etransitivity; [exact Hrest0|]. apply same_rest_buckets.
Qed.

(** An owner's period with its policy, as [admit_buckets] visits them. *)
Definition OwnerPeriod : Type := OwnerType * string * QuotaPolicy * (BucketType * Z * Z * Z).

(** The bucket found for an owner's period carries its limit and has room for the estimate. *)
Definition fits (micro at_ : Z) (db : DB) (sp : OwnerPeriod) (b : BucketRow) : Prop :=
  let '(o, oid, p, (bt, s, e, limit)) := sp in
  same_scope o oid bt s e b = true /\ b_limit_micro b = Some limit
  /\ micro <= available b (max_overdraft_micro p) (additional_capacity o oid bt s e at_ db).

Lemma fits_same_rest micro at_ db db' sp b :
  same_rest db db' -> fits micro at_ db' sp b -> fits micro at_ db sp b.
Proof. intros (bs & l & n & ->). by destruct sp as [[[o oid] p] [[[bt s] e] limit]]. Qed.

Lemma admit_period_ok micro at_ o oid p period db b db' :
  balanced db ->
  admit_period micro at_ o oid p period db = Ok (b, db') ->
  balanced db' /\ db_buckets db' !! b_id b = Some b
  /\ (forall k, k <> b_id b -> db_buckets db' !! k = db_buckets db !! k)
  /\ same_rest db db' /\ fits micro at_ db (o, oid, p, period) b.
Proof.
  destruct period as [[[bt s] e] limit]. intros Hbal Hr. unfold admit_period in Hr.
  apply st_bind_ok in Hr as (b0 & s0 & ((Hb & Hl & Hne & Hrest) & Hsc & Hlim)%get_or_create_bucket_ok & Hr);
    [|done].
  apply st_bind_ok in Hr as (extra & s1 & He & Hr). injection He as <- <-. cbv zeta in Hr.
  destruct (available _ _ _ <? micro) eqn:Hav; [done|]. injection Hr as <- <-.
  do 4 (split; [done|]). eapply fits_same_rest; [exact Hrest|].
  split; [done|]. split; [done|]. by apply Z.ltb_ge in Hav.
Qed.

Definition admit_period_of (micro at_ : Z) (sp : OwnerPeriod) : Tx BucketRow :=
  let '(o, oid, p, period) := sp in admit_period micro at_ o oid p period.

Lemma collect_periods_ok micro at_ sps db bs db' :
  balanced db ->
  st_collect (admit_period_of micro at_) sps db = Ok (bs, db') ->
  balanced db' /\ same_rest db db' /\ (NoDup (b_id <$> bs) -> current (db_buckets db') bs)
  /\ (forall k, k ∉ (b_id <$> bs) -> db_buckets db' !! k = db_buckets db !! k)
  /\ Forall2 (fits micro at_ db) sps bs.
Proof.
  revert db bs. induction sps as [|sp sps IH]; cbn [st_collect]; intros db bs Hbal Hr.
  - injection Hr as <- <-. split; [done|]. split; [done|]. split; [constructor|]. by split.
  - apply st_bind_ok in Hr as (b & s & Hb & Hr).
    apply st_bind_ok in Hr as (bs' & s2 & Hbs & Hr). injection Hr as <- <-.
    destruct sp as [[[o oid] p] period].
    apply admit_period_ok in Hb as (Hbal1 & Hl1 & Hne1 & Hrest1 & Hfit); [|done].
    apply IH in Hbs as (Hbal2 & Hrest2 & Hcur & Hne2 & Hfits); [|done].
    split; [done|]. split; [by etransitivity|]. split; [|split].
    + simpl. intros [Hnin Hnd]%NoDup_cons. constructor; [|by apply Hcur]. by rewrite Hne2.
    + simpl. intros k Hk. rewrite Hne2 by set_solver. apply Hne1. set_solver.
    + constructor; [done|]. eapply Forall2_impl; [exact Hfits|]. intros sp b' Hf.
      by eapply fits_same_rest.
Qed.

(** The pairs of [admit_buckets]. *)
Definition owner_periods (cmd : AdmitTurn) (ap : AdmitPolicies) (at_ : Z) : list OwnerPeriod :=
  flat_map (fun s : OwnerType * string * QuotaPolicy => (fun period => (s, period)) <$> periods s.2 at_)
    (subjects_of cmd ap).

(** The parts of [admit_write], in the order they ran. *)
Lemma admit_write_run cmd ap (rearm : bool) micro at_ bs db res db' :
  admit_write lease_seconds cmd ap rearm micro at_ bs db = Ok (res, db') ->
  let rid := reservation_id_for_turn (at_turn_id cmd) in
  let suffix := reserve_suffix rearm rid in
  exists s1 s2 s3,
    match concurrency_limit (policy (ap_base ap)) with
    | Some c => reserve_concurrency (at_user_id cmd) c at_
    | None => mret ()
    end db = Ok ((), s1)
    /\ (if rearm then update_reservation rid (rearm_reservation lease_seconds ap micro at_)
        else insert_reservation (new_reservation lease_seconds cmd ap micro at_)) s1 = Ok ((), s2)
    /\ when (bool_decide (bs = []))
         (insert_ledger (Some rid) None "reserve" micro micro 0
            ("reserve:" +:+ rid +:+ ":none" +:+ suffix s2) "turn_admission"
            (meta_turn (at_turn_id cmd) None) at_) s2 = Ok ((), s3)
    /\ post_all (hold_upd micro at_) (hold_mk cmd rid (suffix s2) micro at_) bs s3 db'
    /\ res = {| ta_reservation_id := rid; ta_reserved_micro := micro;
                ta_policy_id := policy_id (policy (ap_base ap));
                ta_policy_version := version (policy (ap_base ap)); ta_duplicate := false |}.
Proof.
  intros Hr rid suffix. unfold admit_write in Hr. fold rid in Hr. st_run Hr.
  destruct a, a0, a2. injection Hrun1 as <- <-. injection Hr as <- <-.
  exists s, s0, s2. split; [done|]. split; [done|]. split; [done|]. split; [|done].
  by eapply hold_loop.
Qed.

(** The tables capacity is computed from. *)
Definition capacity_frame (g : list GrantRow) (a : list AdjustmentRow) (db : DB) : Prop :=
  db_grants db = g /\ db_adjustments db = a.

Lemma additional_capacity_frame o oid bt s e at_ db db' :
  capacity_frame (db_grants db) (db_adjustments db) db' ->
  additional_capacity o oid bt s e at_ db' = additional_capacity o oid bt s e at_ db.
Proof. unfold additional_capacity, capacity_components. by intros [-> ->]. Qed.

Lemma fits_frame micro at_ db db' sp b :
  capacity_frame (db_grants db) (db_adjustments db) db' -> fits micro at_ db sp b -> fits micro at_ db' sp b.
Proof.
  intros Hf. destruct sp as [[[o oid] p] [[[bt s] e] limit]]. unfold fits.
  by rewrite (additional_capacity_frame _ _ _ _ _ _ _ _ Hf).
Qed.

(** The concurrency counter and the reservation row leave buckets, ledger and capacity alone. *)
Lemma admit_prefix_frame cmd (c : option Z) (rearm : bool) rid f row at_ db s1 s2 :
  match c with Some c => reserve_concurrency (at_user_id cmd) c at_ | None => mret () end db = Ok ((), s1) ->
  (if rearm then update_reservation rid f else insert_reservation row) s1 = Ok ((), s2) ->
  frame (db_buckets db) (db_ledger db) s2 /\ capacity_frame (db_grants db) (db_adjustments db) s2.
Proof.
  intros Hc Hw.
  assert (H1 : frame (db_buckets db) (db_ledger db) s1 /\ capacity_frame (db_grants db) (db_adjustments db) s1).
  { destruct c as [c|]; [|by injection Hc as <-].
    split; [by eapply reserve_concurrency_frame|].
    unfold reserve_concurrency in Hc. apply st_bind_ok in Hc as (u & s & Hg & Hc).
    injection Hg as _ <-. unfold stmt in Hc.
    destruct (db_locks db !! at_user_id cmd) eqn:Hl; simpl in Hc;
      repeat case_match; try done; injection Hc as <-; done. }
  destruct H1 as [[Hb Hl] [Hg Ha]]. rewrite <- Hb, <- Hl, <- Hg, <- Ha.
  destruct rearm.
  - by injection Hw as <-.
  - unfold insert_reservation, stmt in Hw. destruct (_ || _); [done|]. by injection Hw as <-.
Qed.

(** What a fresh admission wrote: every owner period's bucket had room in a balanced store
    whose rows were current, and the holds were posted to exactly those buckets. *)
Record admitted (cmd : AdmitTurn) (ap : AdmitPolicies) (micro at_ : Z) (suffix : string)
  (bs : list BucketRow) (db db' : DB) : Prop := {
  am_before : balanced db;
  am_current : current (db_buckets db) bs;
  am_fits : Forall2 (fits micro at_ db) (owner_periods cmd ap at_) bs;
  am_posts : post_all (hold_upd micro at_)
               (hold_mk cmd (reservation_id_for_turn (at_turn_id cmd)) suffix micro at_) bs db db';
}.

Lemma admit_write_ok cmd ap rearm micro at_ db bs res db' :
  balanced db ->
  (NoDup (b_id <$> bs) -> current (db_buckets db) bs) ->
  Forall2 (fits micro at_ db) (owner_periods cmd ap at_) bs ->
  admit_write lease_seconds cmd ap rearm micro at_ bs db = Ok (res, db') ->
  exists suffix s, admitted cmd ap micro at_ suffix bs s db'.
Proof.
  intros Hbal Hcur Hfits (s1 & s2 & s3 & Hc & Hw & Hn & Hp & _)%admit_write_run.
  destruct (admit_prefix_frame _ _ _ _ _ _ _ _ _ _ Hc Hw) as [[Hb Hl] Hcap].
  assert (Hrows : read_rows bs s2).
  { split; [unfold balanced; by rewrite Hb, Hl|]. rewrite Hb. apply Hcur.
    by apply (post_all_nodup _ _ (hold_laws _ _ _ _ _)) in Hp as [? _]. }
  eexists _, s3. destruct (insert_ledger_none_rows _ _ _ _ _ _ _ _ _ _ _ _ _ _ Hrows Hn) as [Hb3 Hc3].
  split; [done|done| |exact Hp].
  eapply Forall2_impl; [exact Hfits|]. intros sp b Hf. eapply fits_frame; [|exact Hf].
  destruct (bool_decide (bs = [])); simpl in Hn.
  - apply insert_ledger_ok in Hn as [_ ->]. exact Hcap.
  - by injection Hn as <-.
Qed.

Lemma admitted_balanced cmd ap micro at_ suffix bs db db' :
  admitted cmd ap micro at_ suffix bs db db' -> balanced db'.
Proof. intros []. eapply post_all_books; [apply hold_laws|done..]. Qed.

(** The decision an admission acts on, and the store it writes to. *)
Lemma admit_run cmd roles cls at_ db res db' :
  balanced db ->
  admit_in_transaction lease_seconds cmd roles cls at_ db = Ok (res, db') ->
  exists cls' ex dec,
    classrooms_in_workspace cls (at_workspace_id cmd) db = Ok (cls', db)
    /\ find_existing_reservation (at_idempotency_key cmd) (at_turn_id cmd) db = Ok (ex, db)
    /\ admit_replay cmd ex at_ db = Ok (dec, db)
    /\ ((exists r, dec = ReturnExisting r /\ res = r /\ db' = db)
        \/ (exists ap micro rearm bs s1 s2 s3,
              admit_policies cmd roles cls' at_ db = Ok (ap, db)
              /\ rearm = match dec with RearmExisting => true | _ => false end
              /\ (forall r, dec <> ReturnExisting r)
              /\ check_profiles cmd (policies_of ap) db = Ok ((), db)
              /\ admit_estimate cmd at_ (policies_of ap) db = Ok (micro, db)
              /\ match concurrency_limit (policy (ap_base ap)) with
                 | Some _ => get_or_create_concurrency_lock (at_user_id cmd) at_
                 | None => mret ()
                 end db = Ok ((), s1)
              /\ expire_stale_in_transaction at_ s1 = Ok ((), s2)
              /\ st_collect (admit_period_of micro at_) (owner_periods cmd ap at_) s2 = Ok (bs, s3)
              /\ admit_write lease_seconds cmd ap rearm micro at_ bs s3 = Ok (res, db'))).
Proof.
  intros Hbal Hr. unfold admit_in_transaction in Hr. st_run Hr.
  pose proof (st_readonly _ _ _ _ (classrooms_readonly _ _ _) Hrun) as ->.
  injection Hrun0 as <- <-.
  pose proof (st_readonly _ _ _ _ (admit_replay_readonly _ _ _ _) Hrun1) as ->.
  eexists a, _, a1. split; [done|]. split; [reflexivity|]. split; [done|].
  destruct a1 as [r| |]; [left; injection Hr as <- <-; eauto|right..]; st_run Hr;
    pose proof (st_readonly _ _ _ _ (admit_policies_readonly _ _ _ _ _) Hrun0) as ->;
    pose proof (st_readonly _ _ _ _ (check_profiles_readonly _ _ _) Hrun2) as ->;
    pose proof (st_readonly _ _ _ _ (admit_estimate_readonly _ _ _ _) Hrun3) as ->;
    destruct a1, a3, a4; eexists a0, a2, _, a5, _, _, _; repeat (split; [eassumption || done|]); done.
Qed.

(** From a balanced store, a fresh admission passes through [admitted]. *)
Lemma admit_fresh_run cmd roles cls at_ db res db' :
  balanced db ->
  admit_in_transaction lease_seconds cmd roles cls at_ db = Ok (res, db') ->
  db' = db \/ exists ap micro suffix bs s, admitted cmd ap micro at_ suffix bs s db'.
Proof.
  intros Hbal Hr. apply admit_run in Hr as (cls' & ex & dec & _ & _ & _ & Hr); [|done].
  destruct Hr as [(r & _ & _ & ->)|(ap & micro & rearm & bs & s1 & s2 & s3 & _ & _ & _ & _ & _ & Hlk & Hex & Hco & Hw)];
    [by left|right].
  assert (Hb1 : balanced s1).
  { revert Hlk. apply balanced_frame; [|done]. intros bs' l'.
    destruct (concurrency_limit _); [apply get_or_create_concurrency_lock_frame|apply st_inv_ret]. }
  pose proof (expire_stale_balanced _ _ _ _ Hb1 Hex) as Hb2.
  apply collect_periods_ok in Hco as (Hb3 & Hrest & Hcur & _ & Hfits); [|done].
  eapply admit_write_ok in Hw as (suffix & s & Had); [by eexists _, _, _, _, _|done|done|].
  eapply Forall2_impl; [exact Hfits|]. intros sp b. apply fits_frame.
  destruct Hrest as (? & ? & ? & ->). done.
Qed.

Lemma admit_balanced cmd roles cls at_ : st_inv balanced (admit_in_transaction lease_seconds cmd roles cls at_).
Proof.
  intros db res db' Hb Hr. apply admit_fresh_run in Hr as [->|(ap & micro & suffix & bs & s & Had)]; [done| |done].
  by eapply admitted_balanced.
Qed.

(** *** Feature holds *)

Lemma feature_fits_rows rows r micro at_ bs :
  st_inv (read_rows rows) (st_iter (feature_fits r micro at_) bs).
Proof. apply st_inv_iter. intros b. unfold feature_fits. repeat st_inv_step. Qed.

Lemma reserve_feature_balanced rid op pk f at_ :
  st_inv balanced (reserve_feature_usage_in_transaction rid op pk f at_).
Proof.
  unfold reserve_feature_usage_in_transaction.
  apply st_inv_bind; [apply get_reservation_inv|]. intros [r|]; [|apply st_inv_raise].
  destruct (_ || _); [apply st_inv_raise|].
  apply st_inv_bind; [apply st_inv_gets|]. intros [|e es]; [|repeat st_inv_step].
  apply st_inv_bind; [apply st_inv_gets|]. intros est.
  apply st_inv_bind; [repeat st_inv_step|]. intros micro. cbv zeta.
  apply st_inv_bind; [repeat st_inv_step|]. intros ?.
  eapply st_triple_bind; [apply reservation_buckets_current|]. intros rows.
  eapply st_triple_bind; [apply feature_fits_rows|]. intros ?.
  eapply st_triple_bind; [apply insert_ledger_none_rows|]. intros ?.
  eapply st_triple_bind; [eapply post_loop; [apply feature_laws|]; intros; by eapply feature_loop|].
  intros ?. apply balanced_frame. intros bs l.
  apply st_inv_bind; [apply update_reservation_frame|]. intros ?. apply st_inv_ret.
Qed.

Lemma release_feature_balanced rid op now_ :
  st_inv balanced (release_feature_usage_in_transaction rid op now_).
Proof.
  unfold release_feature_usage_in_transaction.
  apply st_inv_bind; [apply get_reservation_inv|]. intros [r|]; [|apply st_inv_raise].
  apply st_inv_bind; [apply st_inv_gets|]. intros [|? ?]; [|apply st_inv_ret].
  apply st_inv_bind; [apply st_inv_gets|]. intros [|e es]; [apply st_inv_ret|].
  destruct (m_reserved_micro _) as [req|]; [|apply st_inv_raise]. cbv zeta.
  eapply st_triple_bind; [apply reservation_buckets_current|]. intros rows.
  eapply st_triple_bind; [apply insert_ledger_none_rows|]. intros ?.
  eapply st_triple_bind;
    [eapply post_loop; [apply feature_release_laws|]; intros; by eapply feature_release_loop|].
  intros ?. apply balanced_frame. intros bs l.
  apply st_inv_bind; [apply update_reservation_frame|]. intros ?. apply st_inv_ret.
Qed.

(** *** Settlement *)

(** The parts of [charge], in the order they ran. *)
Lemma charge_run u r et p rs rf ra now_ rows db over db' :
  charge u r et p rs rf ra now_ rows db = Ok (over, db') ->
  exists s1 s2,
    when (bool_decide (rows = []))
      (insert_ledger (Some (uf_reservation_id u)) None et (uf_credits_micro u) (- ra) (uf_credits_micro u)
         (p +:+ "none") rs (meta_usage u false rf) now_) db = Ok ((), s1)
    /\ post_all (charge_upd u r ra now_ s1) (charge_mk u r et p rs rf ra now_ s1) rows s1 s2
    /\ over = existsb id (over_after u r now_ s1 <$> rows)
    /\ update_reservation (uf_reservation_id u) (fun row =>
         write_amounts (Z.max 0 (r_reserved_micro r - ra)) (r_settled_micro r + uf_credits_micro u)
           (if is_terminal (r_status r) then settled else settling) (over || r_over_limit r)
           (r_lease_expires_at row) (r_last_heartbeat_at row) now_ row) s2 = Ok ((), db').
Proof.
  intros Hr. unfold charge in Hr. st_run Hr. destruct a, a1.
  injection Hr as <- <-.
  eapply charge_loop in Hrun0 as [Hp Ho]; [|reflexivity].
  exists s, s0. by rewrite Ho in *.
Qed.

Lemma charge_balanced u r et p rs rf ra now_ rows :
  st_triple (read_rows rows) (charge u r et p rs rf ra now_ rows) (fun _ => balanced).
Proof.
  intros db over db' Hrows (s1 & s2 & Hn & Hp & _ & Hu)%charge_run.
  destruct (insert_ledger_none_rows _ _ _ _ _ _ _ _ _ _ _ _ _ _ Hrows Hn) as [Hb Hc].
  eapply balanced_frame; [apply update_reservation_frame| |exact Hu].
  eapply post_all_books; [apply charge_laws|done..].
Qed.

Lemma usage_record_result_inv I u src over pk pv : st_inv I (usage_record_result u src over pk pv).
Proof. unfold usage_record_result. repeat st_inv_step. Qed.

Lemma replay_usage_inv I u es e : st_inv I (replay_usage u es e).
Proof. unfold replay_usage. case_match; [apply st_inv_raise|apply usage_record_result_inv]. Qed.

Lemma reconcile_balanced u now_ : st_inv balanced (reconcile_usage_in_transaction u now_).
Proof.
  unfold reconcile_usage_in_transaction. case_match; [apply st_inv_raise|].
  case_match; [apply st_inv_raise|].
  apply st_inv_bind; [apply get_reservation_inv|]. intros [r|]; [|apply st_inv_raise].
  apply st_inv_bind; [apply st_inv_gets|]. intros [|e es]; [|apply replay_usage_inv].
  apply st_inv_bind; [apply st_inv_gets|]. intros pending.
  destruct (_ <$> pending) as [[from_|]|]; [|apply st_inv_raise..].
  case_match; [apply st_inv_raise|].
  eapply st_triple_bind; [apply reservation_buckets_current|]. intros rows.
  eapply st_triple_bind; [apply charge_balanced|]. intros over.
  exact (usage_record_result_inv balanced _ _ _ _ _).
Qed.

Lemma settle_balanced u now_ : st_inv balanced (settle_usage_in_transaction u now_).
Proof.
  unfold settle_usage_in_transaction. case_match; [apply st_inv_raise|].
  case_match; [apply st_inv_raise|].
  apply st_inv_bind; [apply get_reservation_inv|]. intros [r|]; [|apply st_inv_raise].
  apply st_inv_bind; [apply st_inv_gets|]. intros [|e es].
  - case_match.
    + apply st_inv_bind; [apply insert_ledger_none_balanced|]. intros _.
      apply st_inv_bind; [apply st_inv_when, balanced_frame; intros; apply update_reservation_frame|].
      intros _.
      apply usage_record_result_inv.
    + eapply st_triple_bind; [apply reservation_buckets_current|]. intros rows.
      eapply st_triple_bind; [apply (st_inv_gets (read_rows rows))|]. intros hold.
      eapply st_triple_bind; [apply charge_balanced|]. intros over.
  exact (usage_record_result_inv balanced _ _ _ _ _).
  - case_match; [apply reconcile_balanced|apply replay_usage_inv].
Qed.
End balanced.

(** ** The service as a transition system

    One step is one committed or rolled-back call, or an administrator's change of the
    tables the service only reads. *)
Section system.
Context `{Uuids}.
Variable lease_seconds : Z.

Inductive service_step (db : DB) : DB -> Prop :=
| step_admit cmd roles cls at_ :
    service_step db (run_tx (admit_in_transaction lease_seconds cmd roles cls at_) db).2
| step_begin rid at_ : service_step db (run_tx (begin_reservation lease_seconds rid at_) db).2
| step_heartbeat rid at_ : service_step db (run_tx (heartbeat lease_seconds rid at_) db).2
| step_reserve_feature rid op pk f at_ :
    service_step db (run_tx (reserve_feature_usage_in_transaction rid op pk f at_) db).2
| step_release_feature rid op at_ :
    service_step db (run_tx (release_feature_usage_in_transaction rid op at_) db).2
| step_settle u at_ : service_step db (run_tx (settle_usage_in_transaction u at_) db).2
| step_reconcile u at_ : service_step db (run_tx (reconcile_usage_in_transaction u at_) db).2
| step_finish cmd at_ ts : service_step db (run_tx (finish_in_transaction cmd at_ ts) db).2
| step_expire at_ : service_step db (run_tx (expire_reservations at_) db).2.

(** The other writers of the database, as far as the books are concerned. *)
Inductive step (db : DB) : DB -> Prop :=
| step_service db' : service_step db db' -> step db db'
| step_admin db' :
    db_buckets db' = db_buckets db -> db_reservations db' = db_reservations db ->
    db_ledger db' = db_ledger db -> db_locks db' = db_locks db -> step db db'.

(** A store whose quota tables are still empty. *)
Definition initial (db : DB) : Prop :=
  db_buckets db = ∅ /\ db_reservations db = ∅ /\ db_ledger db = [] /\ db_locks db = ∅.

Inductive reachable : DB -> Prop :=
| reach_init db : initial db -> reachable db
| reach_step db db' : reachable db -> step db db' -> reachable db'.

Lemma step_balanced db db' : balanced db -> step db db' -> balanced db'.
Proof.
  intros Hb [db1 [| | | | | | | |]|db1 Hbs _ Hl _]; try (eapply run_tx_inv; [|exact Hb]).
  - apply admit_balanced.
  - unfold begin_reservation, heartbeat. apply touch_lease_balanced.
  - unfold begin_reservation, heartbeat. apply touch_lease_balanced.
  - apply reserve_feature_balanced.
  - apply release_feature_balanced.
  - apply settle_balanced.
  - apply reconcile_balanced.
  - apply finish_balanced.
  - apply expire_reservations_balanced.
  - unfold balanced in *. by rewrite Hbs, Hl.
Qed.

Lemma initial_balanced db : initial db -> balanced db.
Proof.
  intros (Hb & _ & Hl & _). unfold balanced. rewrite Hb, Hl. split.
  - intros k b Hk. by rewrite lookup_empty in Hk.
  - intros k b Hk. by rewrite lookup_empty in Hk.
  - intros k b Hk. by rewrite lookup_empty in Hk.
  - intros e k He. by apply not_elem_of_nil in He.
  - constructor.
Qed.

Lemma reachable_balanced db : reachable db -> balanced db.
Proof.
  induction 1 as [db Hi|db db' _ IH Hs]; [by apply initial_balanced|by eapply step_balanced].
Qed.
End system.
