(* ===== verification/QuotaIdentity.v ===== *)
(** * QuotaIdentity: what a reservation row is found by

    A reservation's identity (its key, Turn, user and idempotency key) is written once, by
    the admission that inserts the row; every other write keeps it.  From this follow the
    uniqueness facts that make [_find_existing_reservation] a function of the command, and
    the writes of one admission as seen by a later lookup. *)
From S2P Require Import Prelude Clock Usage Pricing Policy Reservation QuotaStore QuotaService QuotaInvariants.
Local Open Scope Z_scope.

Record Identity := { id_row : string; id_turn : string; id_user : string; id_key : string }.

Definition identity (r : ReservationRow) : Identity :=
  {| id_row := r_id r; id_turn := r_turn_id r; id_user := r_user_id r; id_key := r_idempotency_key r |}.

Definition identities (db : DB) : gmap string Identity := identity <$> db_reservations db.

(** The identities of the table are exactly these. *)
Definition ids (m : gmap string Identity) (db : DB) : Prop := identities db = m.

Section identity.
Context `{Uuids}.
Variable lease_seconds : Z.

(** Rows are stored under their own identifier, which is the Turn's, and no idempotency key
    occurs twice. *)
Record ids_wf (m : gmap string Identity) : Prop := {
  iw_row : forall k i, m !! k = Some i -> id_row i = k /\ k = reservation_id_for_turn (id_turn i);
  iw_key : forall k k' i i', m !! k = Some i -> m !! k' = Some i' -> id_key i = id_key i' -> k = k';
}.

Lemma modify_ids (f : DB -> DB) m :
  (forall db, identities (f db) = identities db) -> st_inv (ids m) (modify f : Tx ()).
Proof. intros Hf. apply st_inv_modify. unfold ids. intros db <-. apply Hf. Qed.

Lemma update_bucket_ids k f m : st_inv (ids m) (update_bucket k f).
Proof. intros db u db' Hi [-> _]%update_bucket_ok. exact Hi. Qed.

Lemma fresh_uuid_ids m : st_inv (ids m) fresh_uuid.
Proof. intros db a db' Hi Hr. by injection Hr as _ <-. Qed.

Lemma insert_ledger_ids rid bid et a rd cd key reason meta at_ m :
  st_inv (ids m) (insert_ledger rid bid et a rd cd key reason meta at_).
Proof. intros db u db' Hi (_ & ->)%insert_ledger_ok. exact Hi. Qed.

Lemma insert_bucket_ids row m : st_inv (ids m) (insert_bucket row).
Proof.
  intros db u db' Hi Hr. unfold insert_bucket, stmt in Hr. destruct (_ || _); [done|]. by injection Hr as _ <-.
Qed.

Lemma update_reservation_ids k f m :
  (forall r, identity (f r) = identity r) -> st_inv (ids m) (update_reservation k f).
Proof.
  intros Hf. apply modify_ids. intros db. unfold identities. simpl.
  apply map_eq. intros j. rewrite !lookup_fmap. destruct (decide (k = j)) as [->|Hne].
  - rewrite lookup_alter_eq. destruct (db_reservations db !! j) as [r|]; simpl; [|done]. by rewrite Hf.
  - by rewrite lookup_alter_ne.
Qed.

Lemma locks_ids user now_ m : st_inv (ids m) (get_or_create_concurrency_lock user now_).
Proof. apply modify_ids. intros db. by case_match. Qed.

Lemma reserve_concurrency_ids user limit now_ m : st_inv (ids m) (reserve_concurrency user limit now_).
Proof.
  apply st_inv_bind; [apply locks_ids|]. intros _ db u db' Hf. unfold stmt.
  destruct (db_locks db !! user); [|done]. destruct (_ <=? _); [|done]. intros Hr. by injection Hr as _ <-.
Qed.

Lemma release_concurrency_ids user units now_ m : st_inv (ids m) (release_concurrency user units now_).
Proof.
  unfold release_concurrency. destruct (units <=? 0); [apply st_inv_ret|].
  apply modify_ids. intros db. by case_match.
Qed.

(** Walks a body down to the statements above. *)
Ltac ids_tac := cbv zeta; repeat first
  [ apply insert_ledger_ids | apply update_bucket_ids | apply insert_bucket_ids | apply fresh_uuid_ids
  | apply locks_ids | apply reserve_concurrency_ids | apply release_concurrency_ids
  | apply update_reservation_ids; done | apply usage_record_result_inv | apply replay_usage_inv
  | assumption | st_inv_step ].

Lemma finish_ids cmd now_ ts m : st_inv (ids m) (finish_in_transaction cmd now_ ts).
Proof. unfold finish_in_transaction, get_reservation, reservation_buckets, finish_bucket. ids_tac. Qed.

Lemma expire_stale_ids at_ m : st_inv (ids m) (expire_stale_in_transaction at_).
Proof.
  unfold expire_stale_in_transaction, stale_reservations, expire_one.
  apply st_inv_bind; [apply st_inv_gets|]. intros stale. apply st_inv_iter. intros row.
  apply st_inv_bind; [apply finish_ids|]. intros _. apply st_inv_ret.
Qed.

Lemma expire_reservations_ids at_ m : st_inv (ids m) (expire_reservations at_).
Proof.
  unfold expire_reservations. apply st_inv_bind; [apply st_inv_gets|]. intros stale.
  apply st_inv_bind; [|intros _; apply st_inv_ret]. apply st_inv_iter. intros row.
  apply st_inv_bind; [apply finish_ids|]. intros _. apply st_inv_ret.
Qed.

Lemma touch_lease_ids label next rid at_ m : st_inv (ids m) (touch_lease lease_seconds label next rid at_).
Proof.
  unfold touch_lease, get_reservation. apply st_inv_bind; [apply st_inv_gets|].
  intros [r|]; [|apply st_inv_ret]. destruct (negb _); [apply st_inv_ret|]. destruct (_ <=? _).
  - apply st_inv_bind; [apply finish_ids|]. intros _. apply st_inv_ret.
  - apply st_inv_bind; [by apply update_reservation_ids|]. intros _. apply st_inv_ret.
Qed.

Lemma reserve_feature_ids rid op pk f at_ m :
  st_inv (ids m) (reserve_feature_usage_in_transaction rid op pk f at_).
Proof.
  unfold reserve_feature_usage_in_transaction, get_reservation, reservation_buckets, feature_hold, feature_fits.
  ids_tac.
Qed.

Lemma release_feature_ids rid op now_ m : st_inv (ids m) (release_feature_usage_in_transaction rid op now_).
Proof.
  unfold release_feature_usage_in_transaction, get_reservation, reservation_buckets, feature_release. ids_tac.
Qed.

Lemma st_collect_inv {A B} I (f : A -> Tx B) l : (forall x, st_inv I (f x)) -> st_inv I (st_collect f l).
Proof.
  intros Hf. induction l as [|x l IH]; cbn [st_collect]; [apply st_inv_ret|].
  apply st_inv_bind; [apply Hf|]. intros y. apply st_inv_bind; [exact IH|]. intros ys. apply st_inv_ret.
Qed.

Lemma charge_ids u r et p rs rf ra now_ rows m : st_inv (ids m) (charge u r et p rs rf ra now_ rows).
Proof.
  unfold charge. apply st_inv_bind; [apply st_inv_when, insert_ledger_ids|]. intros _.
  apply st_inv_bind; [apply st_collect_inv; intros b; unfold charge_bucket; ids_tac|]. intros overs.
  apply st_inv_bind; [by apply update_reservation_ids|]. intros _. apply st_inv_ret.
Qed.

Lemma reconcile_ids u now_ m : st_inv (ids m) (reconcile_usage_in_transaction u now_).
Proof.
  pose proof charge_ids. unfold reconcile_usage_in_transaction, get_reservation, reservation_buckets.
  repeat first [solve [eauto] | apply usage_record_result_inv | apply replay_usage_inv | st_inv_step].
Qed.

Lemma settle_ids u now_ m : st_inv (ids m) (settle_usage_in_transaction u now_).
Proof.
  pose proof charge_ids. unfold settle_usage_in_transaction, get_reservation, reservation_buckets.
  repeat first [solve [eauto] | apply reconcile_ids | apply insert_ledger_ids
    | apply update_reservation_ids; done | apply usage_record_result_inv | apply replay_usage_inv | st_inv_step].
Qed.

(** *** Lookups *)

Lemma find_existing_in key turn db r :
  find_existing_reservation key turn db = Ok (Some r, db) ->
  exists k, db_reservations db !! k = Some r.
Proof.
  intros Hr. injection Hr as Hr.
  assert (Hsel : forall p x, head (select p (db_reservations db)) = Some x -> exists k, db_reservations db !! k = Some x).
  { intros p x Hh. destruct (select p _) as [|y l] eqn:Hs; [done|]. injection Hh as ->.
    assert (Hin : x ∈ select p (db_reservations db)) by (rewrite Hs; set_solver).
    apply list_elem_of_In, filter_In in Hin as [Hin _]. apply list_elem_of_In in Hin.
    apply list_elem_of_fmap in Hin as ([k x'] & -> & Hk). exists k. by apply elem_of_map_to_list in Hk. }
  destruct (head (select (fun r => String.eqb (r_idempotency_key r) key) _)) as [x|] eqn:Hh.
  - injection Hr as <-. by eapply Hsel.
  - by eapply Hsel.
Qed.

Lemma find_existing_key db k r turn :
  ids_wf (identities db) -> db_reservations db !! k = Some r ->
  find_existing_reservation (r_idempotency_key r) turn db = Ok (Some r, db).
Proof.
  intros Hwf Hk. unfold find_existing_reservation, gets.
  assert (Hin : r ∈ select (fun r' => String.eqb (r_idempotency_key r') (r_idempotency_key r)) (db_reservations db)).
  { apply list_elem_of_In, filter_In. split; [|apply String.eqb_refl]. apply list_elem_of_In.
    apply list_elem_of_fmap. exists (k, r). split; [done|]. by apply elem_of_map_to_list. }
  destruct (select _ _) as [|x l] eqn:Hs; [by apply not_elem_of_nil in Hin|]. simpl.
  assert (Hx : x ∈ select (fun r' => String.eqb (r_idempotency_key r') (r_idempotency_key r)) (db_reservations db)).
  { rewrite Hs. set_solver. }
  apply list_elem_of_In, filter_In in Hx as [Hx Hxk%String.eqb_eq]. apply list_elem_of_In in Hx.
  apply list_elem_of_fmap in Hx as ([k' x'] & -> & Hk'). apply elem_of_map_to_list in Hk'. simpl in *.
  assert (k' = k) as ->.
  { apply (iw_key _ Hwf k' k (identity x') (identity r)); [..|done];
      unfold identities; rewrite lookup_fmap; [by rewrite Hk'|by rewrite Hk]. }
  congruence.
Qed.

(** An identifier is found again after any change that keeps the identities. *)
Lemma identities_lookup db db' k r :
  identities db' = identities db -> db_reservations db !! k = Some r ->
  exists r', db_reservations db' !! k = Some r' /\ identity r' = identity r.
Proof.
  intros Hi Hk. assert (Hl : identities db' !! k = Some (identity r)).
  { rewrite Hi. unfold identities. by rewrite lookup_fmap, Hk. }
  unfold identities in Hl. rewrite lookup_fmap in Hl.
  destruct (db_reservations db' !! k) as [r'|]; [|done]. apply (inj Some) in Hl. eauto.
Qed.

(** *** Admission *)

Lemma insert_reservation_ok row db u db' :
  insert_reservation row db = Ok (u, db') ->
  db_reservations db' = <[r_id row := row]> (db_reservations db)
  /\ db_reservations db !! r_id row = None
  /\ (forall k r, db_reservations db !! k = Some r -> r_idempotency_key r <> r_idempotency_key row).
Proof.
  unfold insert_reservation, stmt. destruct (_ || _) eqn:Hc; [done|]. intros Hr. injection Hr as _ <-.
  apply orb_false_iff in Hc as [Hc Hkey]. apply bool_decide_eq_false in Hc.
  split; [done|]. split; [by apply eq_None_not_Some|].
  intros k r Hk Heq. apply Bool.not_true_iff_false in Hkey. apply Hkey. apply existsb_exists.
  exists r. split.
  - apply list_elem_of_In, list_elem_of_fmap. exists (k, r). split; [done|]. by apply elem_of_map_to_list.
  - rewrite Heq, String.eqb_refl. by apply orb_true_r.
Qed.

Lemma ids_wf_insert row db :
  ids_wf (identities db) -> r_id row = reservation_id_for_turn (r_turn_id row) ->
  (forall k r, db_reservations db !! k = Some r -> r_idempotency_key r <> r_idempotency_key row) ->
  ids_wf (identity <$> <[r_id row := row]> (db_reservations db)).
Proof.
  intros Hwf Hid Hfresh. rewrite fmap_insert.
  assert (Hfresh' : forall k i, identities db !! k = Some i -> id_key i <> r_idempotency_key row).
  { intros k i. unfold identities. rewrite lookup_fmap. intros (r & Hr & ->)%fmap_Some. by eapply Hfresh. }
  split.
  - intros k i [[<- <-]|[_ Hk]]%lookup_insert_Some; [done|]. by apply (iw_row _ Hwf).
  - intros k k' i i' [[<- <-]|[_ Hk]]%lookup_insert_Some [[<- <-]|[_ Hk']]%lookup_insert_Some Heq; try done.
    + destruct (Hfresh' _ _ Hk'). by symmetry.
    + by destruct (Hfresh' _ _ Hk).
    + by eapply (iw_key _ Hwf).
Qed.

(** The row an admission leaves behind. *)
Record admitted_row (cmd : AdmitTurn) (ap : AdmitPolicies) (micro at_ : Z) (row : ReservationRow) : Prop := {
  ar_id : r_id row = reservation_id_for_turn (at_turn_id cmd);
  ar_turn : r_turn_id row = at_turn_id cmd;
  ar_user : r_user_id row = at_user_id cmd;
  ar_key : r_idempotency_key row = at_idempotency_key cmd;
  ar_status : r_status row = reserved;
  ar_lease : r_lease_expires_at row = at_ + seconds lease_seconds;
  ar_reserved : r_reserved_micro row = micro;
  ar_policy : r_policy_id row = policy_id (policy (ap_base ap));
  ar_version : r_policy_version row = version (policy (ap_base ap));
}.

(** The three answers of [admit_replay]. *)
Lemma admit_replay_ok cmd ex at_ db dec db' :
  admit_replay cmd ex at_ db = Ok (dec, db') ->
  match dec with
  | ReturnExisting r => ta_duplicate r = true
  | RearmExisting => exists e, ex = Some e /\ r_turn_id e = at_turn_id cmd
      /\ r_user_id e = at_user_id cmd /\ r_idempotency_key e = at_idempotency_key cmd
  | StartFresh => ex = None
  end.
Proof.
  unfold admit_replay. destruct ex as [e|]; [|intros Hr; by injection Hr as <- <-].
  destruct (_ || _) eqn:Hc; [done|]. rewrite !orb_false_iff, !negb_false_iff, !String.eqb_eq in Hc.
  destruct Hc as [[? ?] ?].
  repeat (destruct (_ && _)); try destruct (_ || _); intros Hr; injection Hr as <- <-; eauto.
Qed.

(** The reservation row survives the rest of the admission's writes. *)
Lemma post_all_reservations upd mk bs db db' :
  post_all upd mk bs db db' -> db_reservations db' = db_reservations db.
Proof. intros (? & ? & ? & ->)%post_all_same_rest. done. Qed.

(** After an admission that is not a replay the identities are well formed and the Turn's row
    is the one the command describes. *)
Lemma admit_write_row cmd ap (rearm : bool) micro at_ bs db res db' :
  ids_wf (identities db) ->
  (rearm = true -> exists r, db_reservations db !! reservation_id_for_turn (at_turn_id cmd) = Some r
     /\ identity r = {| id_row := reservation_id_for_turn (at_turn_id cmd); id_turn := at_turn_id cmd;
                        id_user := at_user_id cmd; id_key := at_idempotency_key cmd |}) ->
  admit_write lease_seconds cmd ap rearm micro at_ bs db = Ok (res, db') ->
  exists row, ids_wf (identities db') /\ admitted_row cmd ap micro at_ row
     /\ db_reservations db' !! reservation_id_for_turn (at_turn_id cmd) = Some row.
Proof.
  intros Hwf Hre (s1 & s2 & s3 & Hc & Hw & Hn & Hp & _)%admit_write_run.
  assert (Hs1 : db_reservations s1 = db_reservations db).
  { destruct (concurrency_limit _) as [c|]; [|by injection Hc as <-].
    unfold reserve_concurrency in Hc. apply st_bind_ok in Hc as (u & s & Hg & Hc). injection Hg as _ <-.
    unfold stmt in Hc. destruct (db_locks db !! at_user_id cmd) eqn:Hl; simpl in Hc;
      repeat case_match; try done; by injection Hc as <-. }
  assert (Hs3 : db_reservations db' = db_reservations s2).
  { rewrite (post_all_reservations _ _ _ _ _ Hp).
    destruct (bool_decide (bs = [])); simpl in Hn; [|by injection Hn as <-].
    by apply insert_ledger_ok in Hn as [_ ->]. }
  unfold identities. rewrite Hs3. destruct rearm.
  - destruct (Hre eq_refl) as (r & Hk & Hid). pose proof Hw as Hw'. injection Hw as <-.
    simpl in Hs3 |- *. rewrite Hs1. rewrite lookup_alter_eq, Hk. simpl.
    eexists. split; [|split; [|done]].
    + assert (Hid' : ids (identities db) s1) by (unfold ids, identities; by rewrite Hs1).
      assert (Hf : forall x, identity (rearm_reservation lease_seconds ap micro at_ x) = identity x) by done.
      pose proof (update_reservation_ids _ _ _ Hf _ _ _ Hid' Hw') as Hid2. clear Hid'. rename Hid2 into Hid'.
      unfold ids, identities in Hid'. simpl in Hid'. rewrite Hs1 in Hid'.
      by rewrite Hid'.
    + injection Hid as ? ? ? ?. by split.
  - apply insert_reservation_ok in Hw as (-> & _ & Hfresh). rewrite Hs1 in Hfresh |- *. simpl.
    eexists. split; [|split; [|apply lookup_insert_eq]]; [|by split].
    by apply (ids_wf_insert (new_reservation lease_seconds cmd ap micro at_) db).
Qed.

Lemma admit_row_ok cmd roles cls at_ db res db' :
  balanced db -> ids_wf (identities db) ->
  admit_in_transaction lease_seconds cmd roles cls at_ db = Ok (res, db') ->
  (ta_duplicate res = true /\ db' = db) \/
  (exists ap micro row, ids_wf (identities db') /\ admitted_row cmd ap micro at_ row
     /\ db_reservations db' !! reservation_id_for_turn (at_turn_id cmd) = Some row
     /\ res = {| ta_reservation_id := reservation_id_for_turn (at_turn_id cmd);
                 ta_reserved_micro := micro; ta_policy_id := policy_id (policy (ap_base ap));
                 ta_policy_version := version (policy (ap_base ap)); ta_duplicate := false |}).
Proof.
  intros Hbal Hwf Hr. apply admit_run in Hr as (cls' & ex & dec & _ & Hex & Hdec & Hr); [|done].
  apply admit_replay_ok in Hdec.
  destruct Hr as [(r & -> & -> & ->)|
    (ap & micro & rearm & bs & s1 & s2 & s3 & _ & Hre & Hne & _ & _ & Hlk & Hexp & Hco & Hw)]; [by left|right].
  assert (Hids : identities s3 = identities db).
  { assert (H1 : identities s1 = identities db).
    { destruct (concurrency_limit _); [by eapply (locks_ids _ _ _ _ _ _ eq_refl)|by injection Hlk as <-]. }
    assert (H2 : identities s2 = identities s1) by (by eapply (expire_stale_ids _ _ _ _ _ eq_refl)).
    assert (Hb2 : balanced s2).
    { eapply expire_stale_balanced; [|exact Hexp].
      destruct (concurrency_limit _); [|by injection Hlk as <-].
      eapply balanced_frame; [apply get_or_create_concurrency_lock_frame|exact Hbal|exact Hlk]. }
    apply collect_periods_ok in Hco as (_ & (? & ? & ? & ->) & _); [|done]. unfold identities in *. simpl. congruence. }
  pose proof Hw as Hw'. apply admit_write_run in Hw' as (_ & _ & _ & _ & _ & _ & _ & ->).
  eapply admit_write_row in Hw as (row & Hwf' & Hrow & Hl); [by exists ap, micro, row|by rewrite Hids|].
  intros ->. destruct dec as [r| |]; [by destruct (Hne r)| |done].
  destruct Hdec as (e & -> & Ht & Hu & Hk). apply find_existing_in in Hex as (k & Hk').
  assert (Hi : identities db !! k = Some (identity e)) by (unfold identities; by rewrite lookup_fmap, Hk').
  destruct (iw_row _ Hwf _ _ Hi) as [Hrow Hturn]. simpl in Hrow, Hturn. rewrite Ht in Hturn.
  destruct (identities_lookup _ _ _ _ Hids Hk') as (r' & Hr' & Hid'). rewrite <- Hturn.
  exists r'. split; [done|]. rewrite Hid'. unfold identity. congruence.
Qed.

Lemma step_ids_wf db db' : balanced db -> ids_wf (identities db) -> step lease_seconds db db' -> ids_wf (identities db').
Proof.
  intros Hb Hwf Hs.
  assert (Hkeep : forall A (m : Tx A), (forall i, st_inv (ids i) m) -> ids_wf (identities (run_tx m db).2)).
  { intros A m Hm. pose proof (run_tx_inv _ _ _ (Hm (identities db)) eq_refl) as Hi. unfold ids in Hi.
    by rewrite Hi. }
  destruct Hs as [db2 [cmd roles cls at_| | | | | | | |]|db1 _ Hres _ _].
  - unfold run_tx. destruct (admit_in_transaction _ _ _ _ _ db) as [[res db1]|e] eqn:Hr; [|done]. simpl.
    apply admit_row_ok in Hr as [[_ ->]|(ap & micro & row & Hwf' & _)]; done.
  - apply Hkeep. unfold begin_reservation. apply touch_lease_ids.
  - apply Hkeep. unfold heartbeat. apply touch_lease_ids.
  - apply Hkeep, reserve_feature_ids.
  - apply Hkeep, release_feature_ids.
  - apply Hkeep, settle_ids.
  - apply Hkeep, reconcile_ids.
  - apply Hkeep, finish_ids.
  - apply Hkeep, expire_reservations_ids.
  - unfold identities. by rewrite Hres.
Qed.

Lemma reachable_ids_wf db : reachable lease_seconds db -> ids_wf (identities db).
Proof.
  induction 1 as [db (_ & Hr & _)|db db' Hre IH Hs].
  - unfold identities. rewrite Hr, fmap_empty. split; intros k; intros; by rewrite lookup_empty in *.
  - eapply step_ids_wf; [by eapply reachable_balanced|done|done].
Qed.
End identity.
