(* ===== verification/QuotaWorld.v ===== *)
(** * QuotaWorld: a small deployment the quota theorems are instantiated at

    One default policy (100 micro-credits a day, one concurrent Turn), one pricing rule, one
    user; times are microseconds since the epoch.  The identifier supply is a counter. *)
From S2P Require Import Prelude Clock Usage Pricing Policy Reservation QuotaStore QuotaService QuotaInvariants.
Local Open Scope Z_scope.

#[export] Instance counter_uuids : Uuids :=
  {| uuid4 n := "u" +:+ pretty (N.of_nat n); uuid5_url name := "r:" +:+ name |}.

Definition world_policy : QuotaPolicy :=
  {| policy_id := "p"; code := "base"; version := "v1"; request_limit_micro := Some 60;
     daily_limit_micro := Some 100; weekly_limit_micro := None; concurrency_limit := Some 1;
     max_overdraft_micro := 0; allowed_model_profiles := []; unlimited := false |}.

Definition world_rule : PricingRule :=
  {| rule_key := "m"; rule_version := "1"; effective_from := 0; effective_until := None;
     ordinary_input_rate := 1000000; cached_input_rate := 500000; cache_write_rate := 1000000;
     output_rate := 2000000; reasoning_output_rate := None; visual_input_rate := None;
     image_unit_micro := Some 7; search_call_micro := Some 3; link_page_micro := None |}.

Definition world0 : DB :=
  {| db_policies := {[ "p" := {| po_policy := world_policy; po_name := "Base"; po_status := "active";
                                 po_effective_from := 0; po_effective_until := None;
                                 po_created_by := "admin" |} ]};
     db_bindings := [{| bi_id := "b"; bi_subject_type := SubDefault; bi_subject_id := "*"; bi_policy_id := "p";
                        bi_priority := 0; bi_status := "active"; bi_effective_from := 0;
                        bi_effective_until := None |}];
     db_classrooms := []; db_pricing := [{| prr_id := "pr"; prr_rule := world_rule; prr_status := "active"; prr_created_by := "admin" |}];
     db_grants := []; db_adjustments := []; db_buckets := ∅; db_reservations := ∅;
     db_ledger := []; db_locks := ∅;
     db_operations := {| ot_credits := []; ot_role_credits := []; ot_usage_events := []; ot_billing := [] |}; db_next_uuid := 0 |}.

Definition turn (t : string) (estimate : Z) : AdmitTurn :=
  {| at_request_id := "req"; at_user_id := "alice"; at_workspace_id := None; at_turn_id := t;
     at_model_profile := "fast"; at_estimated_input_tokens := None; at_estimated_output_tokens := 0;
     at_estimated_micro := estimate; at_pricing_key := None; at_idempotency_key := "admit:" +:+ t |}.

(** The lease is 300 seconds; [noon d] is noon of day [d]. *)
Definition lease : Z := 300.
Definition noon (d : Z) : Z := d * DAY + 12 * 3600 * SECOND.
Definition rid (t : string) : string := reservation_id_for_turn t.

Definition usage (t op : string) (credits : Z) (status_ : string) : UsageFact :=
  {| uf_reservation_id := rid t; uf_operation_id := op; uf_credits_micro := credits;
     uf_usage_status := status_; uf_usage_source := "provider"; uf_pricing_key := Some "m";
     uf_pricing_version := Some "1" |}.

Definition finish_cmd (t : string) : FinishTurn :=
  {| fi_reservation_id := rid t; fi_turn_id := t; fi_idempotency_key := "finish:" +:+ t |}.

(** The store after a call that returned. *)
Definition after {A} (m : Tx A) (db : DB) : DB := (run_tx m db).2.
Definition answer {A} (m : Tx A) (db : DB) : result QuotaError A := (run_tx m db).1.

Definition admit_turn (t : string) (estimate at_ : Z) : Tx TurnAdmissionResult :=
  admit_in_transaction lease (turn t estimate) [] [] at_.

(** Turn [t1] admitted with a hold of 40, then charged 25 and finished. *)
Definition world1 : DB := after (admit_turn "t1" 40 (noon 10)) world0.
Definition world2 : DB := after (settle_usage_in_transaction (usage "t1" "op1" 25 "exact") (noon 10 + 1)) world1.
Definition world3 : DB := after (finish_in_transaction (finish_cmd "t1") (noon 10 + 2) None) world2.

Lemma world0_reachable : reachable lease world0.
Proof. apply reach_init. done. Defined.

Lemma world1_reachable : reachable lease world1.
Proof. eapply reach_step; [exact world0_reachable|]. apply step_service, step_admit. Defined.

Lemma world2_reachable : reachable lease world2.
Proof. eapply reach_step; [exact world1_reachable|]. apply step_service, step_settle. Defined.
