(* ===== verification/QuotaAdmission.v ===== *)
(** * QuotaAdmission: what admission and the ledger promise

    The books balance in every reachable store; a fresh admission fits every bucket of every
    policy owner and the concurrency limit; retrying it answers the same and writes nothing. *)
From S2P Require Import Prelude Clock Usage Pricing Policy Reservation QuotaStore QuotaService QuotaInvariants QuotaIdentity QuotaWorld.
Local Open Scope Z_scope.

Section theorems.
Context `{Uuids}.
Variable lease_seconds : Z.

(** C3: in every reachable store each bucket's reserved and consumed credits are exactly the
    sums of the deltas the ledger records for it, every entry with a bucket names an existing
    one, and no two entries share an idempotency key: the bucket table is a replay of the ledger. *)
Theorem ledger_conservation db :
  reachable lease_seconds db ->
  (forall k b, db_buckets db !! k = Some b ->
     b_id b = k
     /\ b_reserved_micro b = sum_by le_reserved_delta_micro (entries_of k (db_ledger db))
     /\ b_consumed_micro b = sum_by le_consumed_delta_micro (entries_of k (db_ledger db)))
  /\ (forall e k, e ∈ db_ledger db -> le_bucket_id e = Some k -> is_Some (db_buckets db !! k))
  /\ NoDup (le_idempotency_key <$> db_ledger db).
Proof.
  intros [Hk Hr Hc Hd Hu]%reachable_balanced. split; [|by split]. intros k b Hb. auto.
Qed.

(** The bucket of an owner's period after the holds of an admission. *)
Lemma admitted_bucket cmd ap micro at_ suffix bs s db' o oid p bt st en limit :
  admitted cmd ap micro at_ suffix bs s db' ->
  (o, oid, p, (bt, st, en, limit)) ∈ owner_periods cmd ap at_ ->
  exists b, db_buckets db' !! b_id b = Some b
    /\ same_scope o oid bt st en b = true /\ b_limit_micro b = Some limit
    /\ b_consumed_micro b + b_reserved_micro b
       <= limit + max_overdraft_micro p + additional_capacity o oid bt st en at_ db'.
Proof.
  intros [Hbal Hcur Hfits Hp] Hin.
  apply list_elem_of_lookup_1 in Hin as [i Hi].
  destruct (Forall2_lookup_l _ _ _ _ _ Hfits Hi) as (b & Hb & Hsc & Hlim & Hav).
  exists (hold_upd micro at_ b b).
  pose proof (post_all_lookup _ _ (hold_laws _ _ _ _ _) _ _ _ b Hp Hcur (list_elem_of_lookup_2 _ _ _ Hb)) as Hl.
  split; [exact Hl|]. split; [exact Hsc|]. split; [exact Hlim|].
  apply post_all_same_rest in Hp as (? & ? & ? & ->). unfold available in Hav. rewrite Hlim in Hav.
  simpl. unfold additional_capacity, capacity_components in *. simpl in *. lia.
Qed.

(** C11: an admission that is not a replay never oversubscribes: for every governing policy
    (the user's, the workspace's, each classroom's) and each of its current periods there is a
    bucket with the policy's limit whose consumed plus reserved credits, the new hold
    included, stay within limit, overdraft and granted capacity. *)
Theorem admission_within_capacity cmd roles cls at_ db res db' :
  reachable lease_seconds db ->
  admit_in_transaction lease_seconds cmd roles cls at_ db = Ok (res, db') ->
  ta_duplicate res = false ->
  exists cls' ap,
    classrooms_in_workspace cls (at_workspace_id cmd) db = Ok (cls', db)
    /\ admit_policies cmd roles cls' at_ db = Ok (ap, db)
    /\ forall o oid p bt st en limit,
      (o, oid, p) ∈ subjects_of cmd ap -> (bt, st, en, limit) ∈ periods p at_ ->
      exists b, db_buckets db' !! b_id b = Some b
        /\ same_scope o oid bt st en b = true /\ b_limit_micro b = Some limit
        /\ b_consumed_micro b + b_reserved_micro b
           <= limit + max_overdraft_micro p + additional_capacity o oid bt st en at_ db'.
Proof.
  intros Hre%reachable_balanced Hr Hdup.
  apply admit_run in Hr as (cls' & ex & dec & Hcls & _ & Hdec & Hr); [|done].
  apply admit_replay_ok in Hdec.
  destruct Hr as [(r & -> & <- & _)|
    (ap & micro & rearm & bs & s1 & s2 & s3 & Hap & _ & _ & _ & _ & Hlk & Hexp & Hco & Hw)]; [congruence|].
  exists cls', ap. split; [done|]. split; [done|].
  assert (Hb1 : balanced s1).
  { destruct (concurrency_limit _); [|by injection Hlk as <-].
    eapply balanced_frame; [apply get_or_create_concurrency_lock_frame|exact Hre|exact Hlk]. }
  pose proof (expire_stale_balanced _ _ _ _ Hb1 Hexp) as Hb2.
  apply collect_periods_ok in Hco as (Hb3 & Hrest & Hcur & _ & Hfits); [|done].
  eapply admit_write_ok in Hw as (suffix & s & Had); [|done|done|].
  - intros o oid p bt st en limit Hs Hp. eapply admitted_bucket; [exact Had|].
    unfold owner_periods. apply list_elem_of_In, in_flat_map. exists (o, oid, p).
    split; [by apply list_elem_of_In|]. apply list_elem_of_In. apply list_elem_of_fmap. eauto.
  - eapply Forall2_impl; [exact Hfits|]. intros sp b. apply fits_frame.
    destruct Hrest as (? & ? & ? & ->). done.
Qed.

(** The counter after [_reserve_concurrency]. *)
Lemma reserve_concurrency_ok user limit now_ db u db' :
  reserve_concurrency user limit now_ db = Ok (u, db') ->
  exists lk, db_locks db' !! user = Some lk /\ lk_active_units lk <= limit
    /\ lk_active_units lk = default 0 (lk_active_units <$> db_locks db !! user) + 1
    /\ forall v, v <> user -> db_locks db' !! v = db_locks db !! v.
Proof.
  intros (u' & s & Hg & Hr)%st_bind_ok. injection Hg as _ <-. unfold stmt in Hr.
  destruct (db_locks db !! user) as [lk|] eqn:Hl; simpl in Hr.
  - rewrite Hl in Hr. destruct (_ <=? limit) eqn:Hle; [|done]. injection Hr as _ <-. simpl.
    eexists. split; [apply lookup_insert_eq|]. simpl. split; [lia|]. split; [done|].
    intros v Hv. by rewrite lookup_insert_ne.
  - rewrite lookup_insert_eq in Hr. destruct (_ <=? limit) eqn:Hle; [|done]. injection Hr as _ <-. simpl.
    eexists. split; [apply lookup_insert_eq|]. simpl. split; [simpl in Hle; lia|]. split; [done|].
    intros v Hv. by rewrite !lookup_insert_ne.
Qed.

(** Nothing after [_reserve_concurrency] in [admit_write] touches the counters. *)
Lemma admit_write_locks cmd ap rearm micro at_ bs db res db' :
  admit_write lease_seconds cmd ap rearm micro at_ bs db = Ok (res, db') ->
  exists s, match concurrency_limit (policy (ap_base ap)) with
            | Some c => reserve_concurrency (at_user_id cmd) c at_
            | None => mret ()
            end db = Ok ((), s) /\ db_locks db' = db_locks s.
Proof.
  intros (s1 & s2 & s3 & Hc & Hw & Hn & Hp & _)%admit_write_run. exists s1. split; [done|].
  apply post_all_same_rest in Hp as (? & ? & ? & ->). simpl.
  assert (Hs3 : db_locks s3 = db_locks s2).
  { destruct (bool_decide (bs = [])); simpl in Hn; [|by injection Hn as <-].
    by apply insert_ledger_ok in Hn as [_ ->]. }
  rewrite Hs3. destruct rearm; [by injection Hw as <-|].
  unfold insert_reservation, stmt in Hw. destruct (_ || _); [done|]. by injection Hw as <-.
Qed.

(** Under a policy with a concurrency limit, an admission that is not a replay first
    expires stale Turns, then takes exactly one unit of its user's counter, and the units in
    use afterwards are within the limit; other users' counters are untouched by the admission. *)
Lemma admission_concurrency cmd roles cls at_ db res db' cls' ap c :
  reachable lease_seconds db ->
  admit_in_transaction lease_seconds cmd roles cls at_ db = Ok (res, db') ->
  ta_duplicate res = false ->
  classrooms_in_workspace cls (at_workspace_id cmd) db = Ok (cls', db) ->
  admit_policies cmd roles cls' at_ db = Ok (ap, db) ->
  concurrency_limit (policy (ap_base ap)) = Some c ->
  exists s lk,
    (_ ← get_or_create_concurrency_lock (at_user_id cmd) at_; expire_stale_in_transaction at_) db = Ok ((), s)
    /\ db_locks db' !! at_user_id cmd = Some lk
    /\ lk_active_units lk = default 0 (lk_active_units <$> db_locks s !! at_user_id cmd) + 1
    /\ lk_active_units lk <= c
    /\ forall v, v <> at_user_id cmd -> db_locks db' !! v = db_locks s !! v.
Proof.
  intros Hre%reachable_balanced Hr Hdup Hcls Hap Hc.
  apply admit_run in Hr as (cls2 & ex & dec & Hcls2 & _ & Hdec & Hr); [|done].
  rewrite Hcls in Hcls2. injection Hcls2 as <-. apply admit_replay_ok in Hdec.
  destruct Hr as [(r & -> & <- & _)|
    (ap2 & micro & rearm & bs & s1 & s2 & s3 & Hap2 & _ & _ & _ & _ & Hlk & Hexp & Hco & Hw)]; [congruence|].
  rewrite Hap in Hap2. injection Hap2 as <-. rewrite Hc in Hlk.
  assert (Hb2 : balanced s2).
  { eapply expire_stale_balanced; [|exact Hexp].
    eapply balanced_frame; [apply get_or_create_concurrency_lock_frame|exact Hre|exact Hlk]. }
  apply collect_periods_ok in Hco as (_ & (? & ? & ? & ->) & _); [|done].
  apply admit_write_locks in Hw as (s & Hs & Hl). rewrite Hc in Hs.
  apply reserve_concurrency_ok in Hs as (lk & Hlk' & Hle & Heq & Hne).
  exists s2, lk. rewrite Hl. split; [|done]. apply st_bind_ok. by exists (), s1.
Qed.

(** Retrying an admission before its lease lapses returns the first answer, marked as a
    duplicate, and writes nothing, whatever roles and classrooms the retry presents. *)
Lemma admission_retry_idempotent cmd roles cls at_ db res db' roles' cls' at' :
  reachable lease_seconds db ->
  admit_in_transaction lease_seconds cmd roles cls at_ db = Ok (res, db') ->
  ta_duplicate res = false -> at' < at_ + seconds lease_seconds ->
  run_tx (admit_in_transaction lease_seconds cmd roles' cls' at') db' =
  (Ok {| ta_reservation_id := ta_reservation_id res; ta_reserved_micro := ta_reserved_micro res;
         ta_policy_id := ta_policy_id res; ta_policy_version := ta_policy_version res;
         ta_duplicate := true |}, db').
Proof.
  intros Hre Hr Hdup Hat.
  pose proof (reachable_ids_wf _ _ Hre) as Hwf. pose proof (reachable_balanced _ _ Hre) as Hbal.
  destruct (admit_row_ok _ _ _ _ _ _ _ _ Hbal Hwf Hr) as [[Hd _]|(ap & micro & row & Hwf' & Hrow & Hl & ->)];
    [congruence|].
  destruct Hrow as [Hid Ht Hu Hk Hst Hle Hm Hp Hv].
  assert (Hcls : exists c, classrooms_in_workspace cls' (at_workspace_id cmd) db' = Ok (c, db')).
  { unfold classrooms_in_workspace. repeat case_match; eexists; reflexivity. }
  destruct Hcls as [c Hcls].
  pose proof (find_existing_key _ _ _ (at_turn_id cmd) Hwf' Hl) as Hf. rewrite Hk in Hf.
  unfold run_tx, admit_in_transaction. unfold mbind, st_bind. rewrite Hcls, Hf.
  unfold admit_replay. rewrite Ht, Hu, Hk, !String.eqb_refl, Hst, Hle. simpl.
  rewrite (proj2 (Z.ltb_lt _ _) Hat). simpl. unfold admission_result. by rewrite Hid, Hm, Hp, Hv.
Qed.
End theorems.

(** ** The theorems at [QuotaWorld] *)

Lemma ledger_conservation_witness :
  reachable lease world2 /\
  (forall k b, db_buckets world2 !! k = Some b ->
     b_id b = k
     /\ b_reserved_micro b = sum_by le_reserved_delta_micro (entries_of k (db_ledger world2))
     /\ b_consumed_micro b = sum_by le_consumed_delta_micro (entries_of k (db_ledger world2))).
Proof. split; [exact world2_reachable|]. exact (proj1 (ledger_conservation lease world2 world2_reachable)). Defined.

Definition t1_result (dup : bool) : TurnAdmissionResult :=
  {| ta_reservation_id := rid "t1"; ta_reserved_micro := 40; ta_policy_id := "p";
     ta_policy_version := "v1"; ta_duplicate := dup |}.

Lemma admission_within_capacity_witness :
  exists b, db_buckets world1 !! b_id b = Some b /\ b_consumed_micro b + b_reserved_micro b <= 100.
Proof.
  destruct (admission_within_capacity lease (turn "t1" 40) [] [] (noon 10) world0 (t1_result false) world1)
    as (cls' & ap & Hcls & Hap & Hb); [exact world0_reachable|vm_compute; reflexivity|reflexivity|].
  vm_compute in Hcls. injection Hcls as <-. vm_compute in Hap. injection Hap as <-.
  destruct (Hb OUser "alice" world_policy Daily (10 * DAY) (11 * DAY) 100) as (b & Hl & _ & _ & Hle).
  - left.
  - left.
  - exists b. split; [exact Hl|]. etransitivity; [exact Hle|]. vm_compute. discriminate.
Defined.


