(* ===== verification/QuotaSettlement.v ===== *)
(** * QuotaSettlement: what settling, reconciling and finishing promise

    Each is decomposed once into the statements it ran ([finish_run], [charge_run]); the
    theorems read the final store off those statements. *)
From S2P Require Import Prelude Clock Usage Pricing Policy Reservation QuotaStore QuotaService QuotaInvariants QuotaIdentity QuotaWorld.
Local Open Scope Z_scope.

(** ** Looking up what was just written *)

Lemma ledger_like_app rid et pat db db' new :
  db_ledger db' = db_ledger db ++ new ->
  ledger_like rid et pat db' =
  ledger_like rid et pat db ++
  List.filter (fun e => bool_decide (le_reservation_id e = Some rid) && String.eqb (le_entry_type e) et
                        && sql_like pat (le_idempotency_key e)) new.
Proof. intros Hl. unfold ledger_like. rewrite Hl. apply List.filter_app. Qed.

Lemma ledger_like_ledger rid et pat db db' :
  db_ledger db' = db_ledger db -> ledger_like rid et pat db' = ledger_like rid et pat db.
Proof. unfold ledger_like. by intros ->. Qed.

(** An entry of this reservation, type and key prefix is found by the prefix's pattern. *)
Definition tagged (rid et p : string) (e : LedgerRow) : Prop :=
  le_reservation_id e = Some rid /\ le_entry_type e = et /\ exists s, le_idempotency_key e = p +:+ s.

Lemma tagged_filter rid et p l :
  Forall (tagged rid et p) l ->
  List.filter (fun e => bool_decide (le_reservation_id e = Some rid) && String.eqb (le_entry_type e) et
                        && sql_like (p +:+ "%") (le_idempotency_key e)) l = l.
Proof.
  induction 1 as [|e l (Hr & Ht & s & Hk) _ IH]; simpl; [done|].
  rewrite Hr, Ht, Hk, bool_decide_eq_true_2, String.eqb_refl, sql_like_self by done. simpl. by rewrite IH.
Qed.

Lemma string_append_assoc (a b c : string) : (a +:+ b) +:+ c = a +:+ (b +:+ c).
Proof. induction a as [|x a IH]; [done|]. change (String x ((a +:+ b) +:+ c) = String x (a +:+ (b +:+ c))). by rewrite IH. Qed.

(** The entries of a loop over at least one bucket, or the single entry without a bucket. *)
Lemma zip_forall {A B C} (P : C -> Prop) (f : A -> B -> C) l k :
  (forall a b, P (f a b)) -> Forall P (zip_with f l k).
Proof. intros Hf. revert k. induction l as [|a l IH]; intros [|b k]; simpl; auto. Qed.

Section settlement.
Context `{Uuids}.

(** What either branch of the posting pattern (the entry without a bucket, or the loop)
    appends to the ledger: a non-empty run of entries that satisfy [P]. *)
Lemma posted_entries (P : LedgerRow -> Prop) upd mk rid et a rd cd key reason meta at_ rows db s1 s2 :
  when (bool_decide (rows = [])) (insert_ledger rid None et a rd cd key reason meta at_) db = Ok ((), s1) ->
  post_all upd mk rows s1 s2 ->
  (forall id, P (ledger_row rid None et a rd cd key reason meta at_ id)) ->
  (forall b id, P (mk b id)) ->
  exists e new, db_ledger s2 = db_ledger db ++ e :: new /\ Forall P (e :: new).
Proof.
  intros Hn (ids & Hlen & Hl)%post_all_ledger Hnone Hmk. destruct rows as [|b rows]; simpl in Hn.
  - apply insert_ledger_ok in Hn as [_ ->]. destruct ids as [|? ?]; [|done]. simpl in Hl.
    rewrite app_nil_r in Hl. eexists _, []. split; [exact Hl|]. by constructor.
  - injection Hn as <-. destruct ids as [|id ids]; [done|]. simpl in Hl.
    eexists _, _. split; [exact Hl|]. constructor; [done|]. by apply zip_forall.
Qed.

Lemma when_none_rest b rid et a rd cd key reason meta at_ db s1 :
  when b (insert_ledger rid None et a rd cd key reason meta at_) db = Ok ((), s1) ->
  same_rest db s1 /\ db_buckets s1 = db_buckets db.
Proof.
  destruct b; simpl; [|intros Hn; by injection Hn as <-].
  intros [_ ->]%insert_ledger_ok. split; [|done].
  etransitivity; [apply same_rest_uuid|apply same_rest_ledger].
Qed.

(** ** Finishing *)

Definition finish_pattern (cmd : FinishTurn) : string := "finish:" +:+ fi_idempotency_key cmd +:+ ":".

(** The earlier answers [finish_in_transaction] replays. *)
Definition finish_markers (cmd : FinishTurn) (db : DB) : list LedgerRow :=
  ledger_like (fi_reservation_id cmd) "release" (finish_pattern cmd +:+ "%") db.

Definition finish_status (ts : option ReservationStatus) (r : ReservationRow) : ReservationStatus :=
  match ts with Some t => t | None => if 0 <? r_settled_micro r then settled else released end.

(** The writes of the call that closes the reservation. *)
Record closes (cmd : FinishTurn) (now_ : Z) (ts : option ReservationStatus) (r : ReservationRow)
  (db : DB) (res : TurnFinishResult) (db' : DB) : Prop := {
  cl_turn : r_turn_id r = fi_turn_id cmd;
  cl_open : is_terminal (r_status r) = false;
  cl_parts : exists rows s1 s2 s3,
    reservation_buckets (fi_reservation_id cmd) db = Ok (rows, db)
    /\ when (bool_decide (rows = []))
         (insert_ledger (Some (fi_reservation_id cmd)) None "release" (- r_reserved_micro r)
            (- r_reserved_micro r) 0 (finish_pattern cmd +:+ "none")
            (if bool_decide (finish_status ts r = settled) then "turn_finished" else "reservation_expired")
            (meta_finish (finish_status ts r) (r_reserved_micro r)) now_) db = Ok ((), s1)
    /\ post_all (finish_upd (r_reserved_micro r) now_)
         (finish_mk cmd (finish_status ts r) (r_reserved_micro r) now_) rows s1 s2
    /\ when (is_active (r_status r)) (release_concurrency (r_user_id r) (r_concurrency_units r) now_) s2
       = Ok ((), s3)
    /\ db' = set_reservations s3 (alter (fun row =>
         write_amounts 0 (r_settled_micro row) (finish_status ts r) (r_over_limit row) now_
           (r_last_heartbeat_at row) now_ row) (fi_reservation_id cmd) (db_reservations s3))
    /\ res = {| tf_reservation_id := fi_reservation_id cmd; tf_status := finish_status ts r;
                tf_released_micro := r_reserved_micro r |};
}.

Lemma finish_run cmd now_ ts db res db' :
  finish_in_transaction cmd now_ ts db = Ok (res, db') ->
  exists r, db_reservations db !! fi_reservation_id cmd = Some r /\
    match head (finish_markers cmd db) with
    | Some e => db' = db /\ tf_reservation_id res = fi_reservation_id cmd
        /\ m_status (le_metadata e) = Some (tf_status res)
        /\ m_released_micro (le_metadata e) = Some (tf_released_micro res)
    | None => (r_turn_id r = fi_turn_id cmd /\ is_terminal (r_status r) = true /\ db' = db
               /\ res = {| tf_reservation_id := fi_reservation_id cmd; tf_status := r_status r;
                           tf_released_micro := 0 |})
              \/ closes cmd now_ ts r db res db'
    end.
Proof.
  intros Hr. unfold finish_in_transaction in Hr.
  apply st_bind_ok in Hr as (ro & s & Hg & Hr). injection Hg as <- <-.
  destruct (db_reservations db !! fi_reservation_id cmd) as [r|] eqn:Hk; [|done]. exists r. split; [done|].
  apply st_bind_ok in Hr as (ex & s & Hg & Hr). injection Hg as <- <-.
  unfold finish_markers, finish_pattern.
  destruct (head _) as [e|].
  - destruct (m_status _) as [st|], (m_released_micro _) as [rel|]; try done. by injection Hr as <- <-.
  - destruct (String.eqb (r_turn_id r) (fi_turn_id cmd)) eqn:Ht; [|done]. apply String.eqb_eq in Ht.
    destruct (is_terminal (r_status r)) eqn:Hterm; [left; by injection Hr as <- <-|right].
    cbn [negb] in Hr. cbv zeta in Hr. st_run Hr. destruct a0, a1, a2, a3.
    pose proof Hrun as Hrows. injection Hrun as _ <-. injection Hrun3 as <-. injection Hr as <- <-.
    split; [done..|]. eexists _, _, _, _. split; [exact Hrows|]. split; [exact Hrun0|].
    split; [by eapply finish_loop|]. split; [exact Hrun2|]. by split.
Qed.

(** The entry a call that closes the reservation leaves for later calls. *)
Lemma closes_marker cmd now_ ts r db res db' :
  closes cmd now_ ts r db res db' -> finish_markers cmd db = [] ->
  exists e, head (finish_markers cmd db') = Some e
    /\ le_metadata e = meta_finish (tf_status res) (tf_released_micro res)
    /\ tf_reservation_id res = fi_reservation_id cmd.
Proof.
  intros [_ _ (rows & s1 & s2 & s3 & _ & Hn & Hp & Hc & -> & ->)] Hnone.
  set (P e := tagged (fi_reservation_id cmd) "release" (finish_pattern cmd) e
              /\ le_metadata e = meta_finish (finish_status ts r) (r_reserved_micro r)).
  eapply (posted_entries P) in Hn as (e & new & Hl & Hall); [|exact Hp|..].
  - assert (Hs3 : db_ledger s3 = db_ledger s2).
    { destruct (is_active (r_status r)); [|by injection Hc as <-].
      by apply (release_concurrency_frame _ _ _ (db_buckets s2) (db_ledger s2)) in Hc as [_ ?]. }
    rewrite <- Hs3 in Hl. unfold finish_markers in *.
    rewrite (ledger_like_app _ _ _ db _ (e :: new)) by exact Hl.
    rewrite Hnone, tagged_filter by (eapply Forall_impl; [exact Hall|]; by intros ? [? _]).
    exists e. split; [done|]. split; [|done]. by apply Forall_cons in Hall as [[_ ?] _].
  - intros id. split; [|done]. split; [done|]. split; [done|]. by eexists.
  - intros b id. split; [|done]. split; [done|]. split; [done|]. exists (b_id b).
    unfold finish_pattern. simpl. by rewrite !string_append_assoc.
Qed.

(** The closed reservation's row. *)
Lemma closes_row cmd now_ ts r db res db' :
  db_reservations db !! fi_reservation_id cmd = Some r -> closes cmd now_ ts r db res db' ->
  db_reservations db' = alter (fun row => write_amounts 0 (r_settled_micro row) (finish_status ts r)
    (r_over_limit row) now_ (r_last_heartbeat_at row) now_ row) (fi_reservation_id cmd) (db_reservations db).
Proof.
  intros Hk [_ _ (rows & s1 & s2 & s3 & _ & Hn & Hp & Hc & -> & _)].
  apply when_none_rest in Hn as [(? & ? & ? & ->) _]. apply post_all_same_rest in Hp as (? & ? & ? & ->).
  simpl. f_equal. destruct (is_active (r_status r)); [|by injection Hc as <-].
  simpl in Hc. unfold release_concurrency in Hc. destruct (_ <=? 0); [by injection Hc as <-|].
  injection Hc as <-. by case_match.
Qed.

(** Finishing is idempotent: repeating a finish that returned gives the same answer, at
    any later time and whatever terminal status is asked for, and writes nothing. *)
Lemma finish_idempotent cmd now_ ts db res db' now' ts' :
  finish_in_transaction cmd now_ ts db = Ok (res, db') ->
  run_tx (finish_in_transaction cmd now' ts') db' = (Ok res, db').
Proof.
  intros (r & Hk & Hr)%finish_run. unfold run_tx.
  destruct (head (finish_markers cmd db)) as [e|] eqn:Hh.
  - destruct Hr as (-> & Hid & Hst & Hrel). unfold finish_in_transaction, get_reservation, gets, mbind, st_bind.
    rewrite Hk. unfold finish_markers, finish_pattern in Hh. rewrite Hh, Hst, Hrel.
    destruct res. simpl in *. by subst.
  - destruct Hr as [(Ht & Hterm & -> & ->)|Hcl].
    + unfold finish_in_transaction, get_reservation, gets, mbind, st_bind.
      rewrite Hk. unfold finish_markers, finish_pattern in Hh. by rewrite Hh, Ht, String.eqb_refl, Hterm.
    + assert (Hnil : finish_markers cmd db = []) by (by destruct (finish_markers cmd db)).
      destruct (closes_marker _ _ _ _ _ _ _ Hcl Hnil) as (e & He & Hm & Hid).
      pose proof (closes_row _ _ _ _ _ _ _ Hk Hcl) as Hrow.
      unfold finish_in_transaction, get_reservation, gets, mbind, st_bind.
      rewrite Hrow, lookup_alter_eq, Hk. simpl. unfold finish_markers, finish_pattern in He. rewrite He, Hm.
      destruct res. simpl in *. by subst.
Qed.

(** The call that closes an open reservation answers with its whole remaining hold, leaves
    the row terminal with nothing reserved, takes at most that hold off each of its buckets
    and never more than the bucket has, keeps what was consumed, and touches no other bucket. *)
Lemma finish_releases_hold lease_seconds cmd now_ ts db res db' r :
  reachable lease_seconds db ->
  finish_in_transaction cmd now_ ts db = Ok (res, db') ->
  db_reservations db !! fi_reservation_id cmd = Some r ->
  finish_markers cmd db = [] -> is_terminal (r_status r) = false ->
  tf_released_micro res = r_reserved_micro r
  /\ (exists r', db_reservations db' !! fi_reservation_id cmd = Some r' /\ r_reserved_micro r' = 0
       /\ r_status r' = finish_status ts r /\ r_settled_micro r' = r_settled_micro r)
  /\ (forall k b, db_buckets db !! k = Some b -> exists b', db_buckets db' !! k = Some b'
       /\ b_consumed_micro b' = b_consumed_micro b
       /\ b_reserved_micro b' =
          if string_in k (reservation_bucket_ids (fi_reservation_id cmd) db)
          then b_reserved_micro b - Z.min (b_reserved_micro b) (r_reserved_micro r)
          else b_reserved_micro b).
Proof.
  intros Hre%reachable_balanced Hf Hk Hnone Hopen.
  apply finish_run in Hf as (r0 & Hk0 & Hf). rewrite Hk in Hk0. injection Hk0 as <-.
  rewrite Hnone in Hf. destruct Hf as [(_ & Hterm & _)|Hcl]; [congruence|].
  pose proof (closes_row _ _ _ _ _ _ _ Hk Hcl) as Hrow.
  destruct Hcl as [_ _ (rows & s1 & s2 & s3 & Hrows & Hn & Hp & Hc & -> & ->)].
  split; [done|]. split.
  { rewrite Hrow, lookup_alter_eq, Hk. by eexists. }
  intros k b Hb.
  assert (Hb3 : db_buckets s3 = db_buckets s2).
  { destruct (is_active (r_status r)); [|by injection Hc as <-].
    by apply (release_concurrency_frame _ _ _ (db_buckets s2) (db_ledger s2)) in Hc as [? _]. }
  simpl. rewrite Hb3. apply when_none_rest in Hn as [_ Hb1].
  injection Hrows as Hrows. 
  assert (Hcur : current (db_buckets s1) rows) by (rewrite Hb1, <- Hrows; by eapply select_current).
  pose proof (bk_key _ _ Hre _ _ Hb) as Hid.
  destruct (string_in k (reservation_bucket_ids (fi_reservation_id cmd) db)) eqn:Hin.
  - assert (Hmem : b ∈ rows).
    { rewrite <- Hrows. eapply select_in; [exact Hb|]. by rewrite Hid. }
    pose proof (post_all_lookup _ _ (finish_laws _ _ _ _) _ _ _ b Hp Hcur Hmem) as Hl. rewrite Hid in Hl.
    eexists. split; [exact Hl|]. split; [done|]. simpl. lia.
  - exists b. split; [|done]. rewrite (post_all_lookup_ne _ _ (finish_laws _ _ _ _) _ _ _ k Hp), Hb1; [done|].
    intros (b0 & Hk0 & Hb0)%list_elem_of_fmap. subst k. rewrite <- Hrows in Hb0.
    apply list_elem_of_In, filter_In in Hb0 as [_ Hb0]. congruence.
Qed.

(** ** Settlement *)

(** The metadata that records a usage fact. *)
Definition records (u : UsageFact) (e : LedgerRow) : Prop :=
  m_credits_micro (le_metadata e) = Some (uf_credits_micro u)
  /\ m_usage_status (le_metadata e) = Some (uf_usage_status u)
  /\ m_usage_source (le_metadata e) = Some (uf_usage_source u)
  /\ m_pricing_key (le_metadata e) = uf_pricing_key u
  /\ m_pricing_version (le_metadata e) = uf_pricing_version u.

Definition over_flag (e : LedgerRow) : bool := default false (m_over_limit (le_metadata e)).

Definition result_of (u : UsageFact) (over : bool) : UsageRecordResult :=
  {| ur_operation_id := uf_operation_id u; ur_usage_source := uf_usage_source u;
     ur_credits_micro := uf_credits_micro u; ur_usage_status := uf_usage_status u;
     ur_over_limit := over; ur_pricing_key := uf_pricing_key u; ur_pricing_version := uf_pricing_version u |}.

Definition known (u : UsageFact) : bool := string_in (uf_usage_source u) ["provider"; "estimated"; "none"].

Lemma known_source_known u : known u = true -> known_source (uf_usage_source u) = uf_usage_source u.
Proof. unfold known, known_source. by intros ->. Qed.

Lemma usage_record_result_ok u over db res db' :
  usage_record_result u (uf_usage_source u) over (uf_pricing_key u) (uf_pricing_version u) db = Ok (res, db') ->
  db' = db /\ res = result_of u over /\ uf_operation_id u <> "" /\ known u = true.
Proof.
  unfold usage_record_result, known. destruct (_ || _) eqn:Hc; [done|]. intros Hr. injection Hr as <- <-.
  apply orb_false_iff in Hc as [Hop Hsrc%negb_false_iff]. by apply String.eqb_neq in Hop.
Qed.

(** A recorded fact presented again is answered from the ledger. *)
Lemma replay_usage_records u e new db :
  uf_operation_id u <> "" -> known u = true -> records u e ->
  replay_usage u (e :: new) e db = Ok (result_of u (existsb over_flag (e :: new)), db).
Proof.
  intros Hop Hk (Hc & Hs & Hsrc & Hpk & Hpv). unfold replay_usage.
  rewrite Hc, Hs, Hsrc, Hpk, Hpv. cbn [default from_option id].
  rewrite Z.eqb_refl, bool_decide_eq_true_2 by done. simpl negb. unfold usage_record_result.
  apply String.eqb_neq in Hop. unfold known in Hk. by rewrite Hop, Hk.
Qed.

Lemma existsb_zip u r et p rs rf ra now_ db rows ids :
  length ids = length rows ->
  existsb over_flag (zip_with (charge_mk u r et p rs rf ra now_ db) rows ids) =
  existsb id (over_after u r now_ db <$> rows).
Proof.
  revert ids. induction rows as [|b rows IH]; intros [|i ids] Hlen; try done. simpl.
  rewrite IH; [done|]. by injection Hlen.
Qed.

(** What a charge leaves in the ledger. *)
Lemma charge_marks u r et p rs rf ra now_ rows db over db' :
  charge u r et p rs rf ra now_ rows db = Ok (over, db') ->
  exists e new, db_ledger db' = db_ledger db ++ e :: new
    /\ Forall (fun e => tagged (uf_reservation_id u) et p e /\ records u e) (e :: new)
    /\ existsb over_flag (e :: new) = over.
Proof.
  intros (s1 & s2 & Hn & Hp & -> & Hu)%charge_run. injection Hu as <-. simpl.
  apply post_all_ledger in Hp as (ids & Hlen & Hl). destruct rows as [|b rows]; simpl in Hn.
  - apply insert_ledger_ok in Hn as [_ ->]. destruct ids as [|? ?]; [|done]. rewrite app_nil_r in Hl.
    eexists _, []. split; [exact Hl|]. split; [|done]. constructor; [|done].
    split; [|done]. split; [done|]. split; [done|]. by eexists.
  - injection Hn as <-. destruct ids as [|i ids]; [done|].
    eexists _, _. split; [exact Hl|]. split.
    + apply (zip_forall _ _ (b :: rows) (i :: ids)). intros b' i'. split; [|done].
      split; [done|]. split; [done|]. by eexists.
    + exact (existsb_zip u r et p rs rf ra now_ db (b :: rows) (i :: ids) Hlen).
Qed.

Lemma charge_reservation u r et p rs rf ra now_ rows db over db' r0 :
  db_reservations db !! uf_reservation_id u = Some r0 ->
  charge u r et p rs rf ra now_ rows db = Ok (over, db') ->
  exists r', db_reservations db' !! uf_reservation_id u = Some r'
    /\ r_reserved_micro r' = Z.max 0 (r_reserved_micro r - ra)
    /\ r_settled_micro r' = r_settled_micro r + uf_credits_micro u
    /\ r_status r' = (if is_terminal (r_status r) then settled else settling).
Proof.
  intros Hk (s1 & s2 & Hn & Hp & -> & Hu)%charge_run. injection Hu as <-. simpl.
  apply when_none_rest in Hn as [(? & ? & ? & ->) _]. apply post_all_same_rest in Hp as (? & ? & ? & ->).
  simpl. rewrite lookup_alter_eq, Hk. by eexists.
Qed.

Definition settle_markers (u : UsageFact) (db : DB) : list LedgerRow :=
  ledger_like (uf_reservation_id u) "settle" (settle_prefix (uf_operation_id u) +:+ "%") db.
Definition reconcile_markers (u : UsageFact) (db : DB) : list LedgerRow :=
  ledger_like (uf_reservation_id u) "reconcile" (reconcile_prefix (uf_operation_id u) +:+ "%") db.

(** Appending entries of another type leaves the markers of a type alone. *)
Lemma ledger_like_other_type rid et et' p pat db db' new :
  db_ledger db' = db_ledger db ++ new -> et <> et' -> Forall (tagged rid et' p) new ->
  ledger_like rid et pat db' = ledger_like rid et pat db.
Proof.
  intros Hl Hne Hall. rewrite (ledger_like_app _ _ _ db _ new) by done.
  rewrite <- (app_nil_r (ledger_like rid et pat db)) at 2. f_equal. clear Hl.
  induction Hall as [|e l (Hr & Ht & _) _ IH]; [done|]. simpl. rewrite Ht.
  apply String.eqb_neq in Hne. rewrite String.eqb_sym in Hne. by rewrite Hne, andb_false_r.
Qed.

(** The fact was pending and this call priced it, or it had been priced before. *)
Lemma reconcile_run u now_ db res db' :
  reconcile_usage_in_transaction u now_ db = Ok (res, db') ->
  exists r, (uf_credits_micro u <? 0) = false
    /\ negb (string_in (uf_usage_status u) ["exact"; "estimated"]) = false
    /\ db_reservations db !! uf_reservation_id u = Some r /\
    match reconcile_markers u db with
    | first :: rest => replay_usage u (first :: rest) first db = Ok (res, db')
    | [] => exists from_ rows over,
        m_usage_status ∘ le_metadata <$> head (settle_markers u db) = Some (Some from_)
        /\ string_in from_ ["pending"; "unavailable"] = true
        /\ reservation_buckets (uf_reservation_id u) db = Ok (rows, db)
        /\ charge u r "reconcile" (reconcile_prefix (uf_operation_id u)) "usage_reconcile" (Some from_)
             (Z.min (r_reserved_micro r) (uf_credits_micro u)) now_ rows db = Ok (over, db')
        /\ res = result_of u over /\ uf_operation_id u <> "" /\ known u = true
    end.
Proof.
  unfold reconcile_usage_in_transaction. intros Hr.
  destruct (_ <? 0) eqn:Hc; [done|]. destruct (negb _) eqn:Hst; [done|].
  apply st_bind_ok in Hr as (ro & s & Hg & Hr). injection Hg as <- <-.
  destruct (db_reservations db !! uf_reservation_id u) as [r|] eqn:Hk; [|done].
  exists r. do 3 (split; [done|]).
  apply st_bind_ok in Hr as (ex & s & Hg & Hr). injection Hg as <- <-.
  fold (reconcile_markers u db) in Hr. destruct (reconcile_markers u db) as [|first rest]; [|exact Hr].
  apply st_bind_ok in Hr as (pe & s & Hg & Hr). injection Hg as <- <-.
  fold (settle_markers u db) in Hr.
  destruct (_ <$> head (settle_markers u db)) as [[from_|]|]; try done.
  destruct (string_in from_ _) eqn:Hf; [|done]. cbn [negb] in Hr. st_run Hr.
  pose proof Hrun as Hrows. injection Hrun as _ <-.
  apply usage_record_result_ok in Hr as (-> & -> & Hop & Hkn).
  exists from_, a, a0. by split.
Qed.

Lemma reconcile_twice u now_ db res db' now' :
  reconcile_usage_in_transaction u now_ db = Ok (res, db') ->
  reconcile_usage_in_transaction u now' db' = Ok (res, db').
Proof.
  intros Hr. pose proof Hr as (r & Hc & Hst & Hk & Hm)%reconcile_run.
  unfold reconcile_usage_in_transaction, get_reservation, gets, mbind, st_bind. rewrite Hc, Hst.
  destruct (reconcile_markers u db) as [|first rest] eqn:Hmk.
  - destruct Hm as (from_ & rows & over & _ & _ & _ & Hch & -> & Hop & Hkn).
    destruct (charge_reservation _ _ _ _ _ _ _ _ _ _ _ _ _ Hk Hch) as (r' & -> & _).
    apply charge_marks in Hch as (e & new & Hl & Hall & <-).
    unfold reconcile_markers in *. rewrite (ledger_like_app _ _ _ db _ (e :: new)) by exact Hl.
    rewrite Hmk, tagged_filter by (eapply Forall_impl; [exact Hall|]; by intros ? [? _]). simpl app.
    apply Forall_cons in Hall as [[_ He] _]. by apply replay_usage_records.
  - pose proof (st_readonly _ _ _ _ (replay_usage_inv _ _ _ _) Hm) as ->.
    rewrite Hk. fold (reconcile_markers u db). by rewrite Hmk.
Qed.

Definition is_pending (s : option string) : bool := bool_decide (s = Some "pending" \/ s = Some "unavailable").
Definition is_priced (u : UsageFact) : bool := string_in (uf_usage_status u) ["exact"; "estimated"].

Lemma statuses_disjoint s :
  string_in s ["pending"; "unavailable"] = true -> string_in s ["exact"; "estimated"] = false.
Proof.
  unfold string_in. intros Hp%bool_decide_eq_true. apply bool_decide_eq_false. intros Hx.
  rewrite !elem_of_cons, elem_of_nil in *. destruct Hp as [->|[->|[]]]; by destruct Hx as [|[|[]]].
Qed.

Lemma is_pending_in s : is_pending (Some s) = string_in s ["pending"; "unavailable"].
Proof.
  unfold is_pending, string_in. apply bool_decide_ext. rewrite !elem_of_cons, elem_of_nil. naive_solver.
Qed.

(** The branches of [settle_usage_in_transaction], for a source the contract knows. *)
Lemma settle_run u now_ db res db' :
  known u = true ->
  settle_usage_in_transaction u now_ db = Ok (res, db') ->
  exists r, (uf_credits_micro u <? 0) = false
    /\ negb (string_in (uf_usage_status u) ["exact"; "estimated"; "pending"; "unavailable"]) = false
    /\ db_reservations db !! uf_reservation_id u = Some r /\
    match settle_markers u db with
    | first :: rest =>
        if is_pending (m_usage_status (le_metadata first)) && is_priced u
        then reconcile_usage_in_transaction u now_ db = Ok (res, db')
        else replay_usage u (first :: rest) first db = Ok (res, db')
    | [] => exists over, res = result_of u over /\ uf_operation_id u <> "" /\
        if string_in (uf_usage_status u) ["pending"; "unavailable"]
        then over = false /\ exists e r',
          db_ledger db' = db_ledger db ++ [e]
          /\ tagged (uf_reservation_id u) "settle" (settle_prefix (uf_operation_id u)) e
          /\ records u e /\ over_flag e = false
          /\ le_bucket_id e = None /\ db_buckets db' = db_buckets db
          /\ db_reservations db' !! uf_reservation_id u = Some r'
          /\ r_reserved_micro r' = r_reserved_micro r /\ r_settled_micro r' = r_settled_micro r
        else exists rows, reservation_buckets (uf_reservation_id u) db = Ok (rows, db)
          /\ charge u r "settle" (settle_prefix (uf_operation_id u)) "provider_usage" None
               (Z.min (r_reserved_micro r)
                  (Z.max (uf_credits_micro u) (feature_hold_micro (uf_reservation_id u) (uf_operation_id u) db)))
               now_ rows db = Ok (over, db')
    end.
Proof.
  intros Hkn. unfold settle_usage_in_transaction. intros Hr.
  destruct (_ <? 0) eqn:Hc; [done|]. destruct (negb _) eqn:Hst; [done|].
  apply st_bind_ok in Hr as (ro & s & Hg & Hr). injection Hg as <- <-.
  destruct (db_reservations db !! uf_reservation_id u) as [r|] eqn:Hk; [|done].
  exists r. do 3 (split; [done|]).
  apply st_bind_ok in Hr as (ex & s & Hg & Hr). injection Hg as <- <-.
  fold (settle_markers u db) in Hr. destruct (settle_markers u db) as [|first rest]; [|by destruct (_ && _)].
  rewrite known_source_known in Hr by done. destruct (string_in _ ["pending"; "unavailable"]) eqn:Hp.
  - st_run Hr. apply insert_ledger_ok in Hrun as [_ ->].
    apply usage_record_result_ok in Hr as (-> & -> & Hop & _).
    exists false. do 2 (split; [done|]). split; [done|].
    destruct (is_terminal (r_status r)); injection Hrun0 as _ <-; simpl.
    all: eexists _, _. all: split; [reflexivity|].
    all: split; [split; [done|]; split; [done|]; by eexists|].
    all: do 3 (split; [by repeat split|]). all: split; [done|].
    + by rewrite Hk.
    + rewrite lookup_alter_eq, Hk. by split.
  - st_run Hr. pose proof Hrun as Hrows. injection Hrun as _ <-. injection Hrun0 as <- <-.
    apply usage_record_result_ok in Hr as (-> & -> & Hop & _). exists a1. do 2 (split; [done|]). by exists a.
Qed.

(** What the call that first records a fact leaves behind. *)
Lemma settle_first_marks u now_ db res db' r :
  db_reservations db !! uf_reservation_id u = Some r -> settle_markers u db = [] -> known u = true ->
  settle_usage_in_transaction u now_ db = Ok (res, db') ->
  exists e new r', settle_markers u db' = e :: new
    /\ db_reservations db' !! uf_reservation_id u = Some r'
    /\ records u e /\ res = result_of u (existsb over_flag (e :: new)) /\ uf_operation_id u <> ""
    /\ is_pending (Some (uf_usage_status u)) && is_priced u = false.
Proof.
  intros Hk Hnil Hkn (r0 & _ & _ & Hk0 & Hm)%settle_run; [|done]. rewrite Hk in Hk0. injection Hk0 as <-.
  rewrite Hnil in Hm. destruct Hm as (over & -> & Hop & Hm).
  assert (Hfind : forall e new, db_ledger db' = db_ledger db ++ e :: new ->
    Forall (fun e => tagged (uf_reservation_id u) "settle" (settle_prefix (uf_operation_id u)) e /\ records u e)
      (e :: new) -> settle_markers u db' = e :: new).
  { intros e new Hl Hall. unfold settle_markers in *. rewrite (ledger_like_app _ _ _ db _ (e :: new)) by exact Hl.
    rewrite Hnil, tagged_filter by (eapply Forall_impl; [exact Hall|]; by intros ? [? _]). done. }
  destruct (string_in _ ["pending"; "unavailable"]) eqn:Hp.
  - destruct Hm as (-> & e & r' & Hl & Ht & He & Ho & _ & _ & Hk' & _). exists e, [], r'.
    split; [apply Hfind; [done|by constructor]|]. do 2 (split; [done|]). simpl. rewrite Ho.
    do 2 (split; [done|]). unfold is_priced. by rewrite (statuses_disjoint _ Hp), andb_false_r.
  - destruct Hm as (rows & _ & Hch).
    destruct (charge_reservation _ _ _ _ _ _ _ _ _ _ _ _ _ Hk Hch) as (r' & Hk' & _).
    apply charge_marks in Hch as (e & new & Hl & Hall & Ho). exists e, new, r'.
    split; [by apply Hfind|]. split; [done|]. rewrite Ho. apply Forall_cons in Hall as [[_ He] _].
    do 3 (split; [done|]). by rewrite is_pending_in, Hp.
Qed.

(** Pricing a pending fact leaves its settlement markers alone. *)
Lemma reconcile_keeps_markers u now_ db res db' :
  reconcile_usage_in_transaction u now_ db = Ok (res, db') ->
  settle_markers u db' = settle_markers u db
  /\ exists r', db_reservations db' !! uf_reservation_id u = Some r'.
Proof.
  intros (r0 & _ & _ & Hk0 & Hrm)%reconcile_run. destruct (reconcile_markers u db) as [|f' rest'].
  - destruct Hrm as (from_ & rows & over & _ & _ & _ & Hch & _).
    destruct (charge_reservation _ _ _ _ _ _ _ _ _ _ _ _ _ Hk0 Hch) as (r' & Hk' & _).
    apply charge_marks in Hch as (e & new & Hl & Hall & _). split; [|eauto].
    eapply (ledger_like_other_type _ "settle" "reconcile"); [exact Hl|discriminate|].
    eapply Forall_impl; [exact Hall|]. by intros ? [? _].
  - pose proof (st_readonly _ _ _ _ (replay_usage_inv _ _ _ _) Hrm) as ->. eauto.
Qed.

(** A settlement that returned is answered from the ledger when it is repeated. *)
Lemma settle_twice u now_ db res db' now' :
  settle_usage_in_transaction u now_ db = Ok (res, db') ->
  known u = true ->
  run_tx (settle_usage_in_transaction u now') db' = (Ok res, db').
Proof.
  intros Hr Hkn. pose proof (settle_run _ _ _ _ _ Hkn Hr) as (r & Hc & Hst & Hk & Hm).
  unfold run_tx, settle_usage_in_transaction, get_reservation, gets, mbind, st_bind. rewrite Hc, Hst.
  destruct (settle_markers u db) as [|first rest] eqn:Hmk.
  - destruct (settle_first_marks _ _ _ _ _ _ Hk Hmk Hkn Hr) as (e & new & r' & Hs & -> & He & -> & Hop & Hnp).
    fold (settle_markers u db'). rewrite Hs. pose proof He as (_ & Hus & _). fold (is_pending (m_usage_status (le_metadata e))) (is_priced u).
    by rewrite Hus, Hnp, replay_usage_records.
  - destruct (is_pending _ && is_priced u) eqn:Hp.
    + destruct (reconcile_keeps_markers _ _ _ _ _ Hm) as (Hs & r' & ->). fold (settle_markers u db'). rewrite Hs, Hmk.
      unfold is_pending, is_priced in Hp. rewrite Hp. by rewrite (reconcile_twice _ _ _ _ _ now' Hm).
    + pose proof (st_readonly _ _ _ _ (replay_usage_inv _ _ _ _) Hm) as ->. rewrite Hk. fold (settle_markers u db). rewrite Hmk.
      unfold is_pending, is_priced in Hp. by rewrite Hp, Hm.
Qed.

(** C28: a usage fact is recorded once: repeating a settlement that returned answers the same
    and writes nothing; so does repeating it after the fact was pending and this call priced
    it. *)
Theorem settle_exactly_once u now_ db res db' now' :
  settle_usage_in_transaction u now_ db = Ok (res, db') ->
  string_in (uf_usage_source u) ["provider"; "estimated"; "none"] = true ->
  run_tx (settle_usage_in_transaction u now') db' = (Ok res, db').
Proof. apply settle_twice. Qed.

(** A charge changes the buckets of the reservation, and those only. *)
Lemma charge_buckets u r et p rs rf ra now_ rows db over db' :
  balanced db -> reservation_buckets (uf_reservation_id u) db = Ok (rows, db) ->
  charge u r et p rs rf ra now_ rows db = Ok (over, db') ->
  forall k b, db_buckets db !! k = Some b -> exists b', db_buckets db' !! k = Some b' /\
    if string_in k (reservation_bucket_ids (uf_reservation_id u) db)
    then b_consumed_micro b' = b_consumed_micro b + uf_credits_micro u
         /\ b_reserved_micro b' = b_reserved_micro b - Z.min (b_reserved_micro b) ra
         /\ b_over_limit b' = over_after u r now_ db b
    else b' = b.
Proof.
  intros Hre Hrows Hch k b Hb.
  apply charge_run in Hch as (s1 & s2 & Hn & Hp & _ & Hu). injection Hu as <-. simpl.
  apply when_none_rest in Hn as [Hrest Hb1]. injection Hrows as Hrows.
  assert (Hcur : current (db_buckets s1) rows) by (rewrite Hb1, <- Hrows; by eapply select_current).
  pose proof (bk_key _ _ Hre _ _ Hb) as Hid.
  destruct (string_in k (reservation_bucket_ids (uf_reservation_id u) db)) eqn:Hin.
  - assert (Hmem : b ∈ rows) by (rewrite <- Hrows; eapply select_in; [exact Hb|by rewrite Hid]).
    pose proof (post_all_lookup _ _ (charge_laws _ _ _ _ _ _ _ _ _) _ _ _ b Hp Hcur Hmem) as Hl. rewrite Hid in Hl.
    eexists. split; [exact Hl|]. simpl. split; [done|]. split; [lia|]. by apply over_after_same_rest.
  - exists b. split; [|done]. rewrite (post_all_lookup_ne _ _ (charge_laws _ _ _ _ _ _ _ _ _) _ _ _ k Hp), Hb1; [done|].
    intros (b0 & Hk1 & Hb0)%list_elem_of_fmap. subst k. rewrite <- Hrows in Hb0.
    apply list_elem_of_In, filter_In in Hb0 as [_ Hb0]. congruence.
Qed.

(** The settlement that prices a fact charges it exactly once to every bucket the
    reservation holds credits in and to no other, moves the hold it replaces out of the
    reserved credits, marks a bucket over its limit exactly when consumption exceeds limit,
    overdraft and granted capacity, and adds the credits to the reservation. *)
Lemma settle_charges_buckets lease_seconds u now_ db res db' r :
  reachable lease_seconds db ->
  settle_usage_in_transaction u now_ db = Ok (res, db') ->
  known u = true -> is_priced u = true ->
  db_reservations db !! uf_reservation_id u = Some r -> settle_markers u db = [] ->
  let release_amount := Z.min (r_reserved_micro r)
    (Z.max (uf_credits_micro u) (feature_hold_micro (uf_reservation_id u) (uf_operation_id u) db)) in
  (forall k b, db_buckets db !! k = Some b -> exists b', db_buckets db' !! k = Some b' /\
     if string_in k (reservation_bucket_ids (uf_reservation_id u) db)
     then b_consumed_micro b' = b_consumed_micro b + uf_credits_micro u
          /\ b_reserved_micro b' = b_reserved_micro b - Z.min (b_reserved_micro b) release_amount
          /\ b_over_limit b' = over_after u r now_ db b
     else b' = b)
  /\ exists r', db_reservations db' !! uf_reservation_id u = Some r'
     /\ r_settled_micro r' = r_settled_micro r + uf_credits_micro u
     /\ r_reserved_micro r' = Z.max 0 (r_reserved_micro r - release_amount).
Proof.
  intros Hre%reachable_balanced Hr Hkn Hpr Hk Hnone release_amount.
  apply settle_run in Hr as (r0 & _ & _ & Hk0 & Hm); [|done]. rewrite Hk in Hk0. injection Hk0 as <-.
  rewrite Hnone in Hm. destruct Hm as (over & _ & _ & Hm).
  assert (Hnp : string_in (uf_usage_status u) ["pending"; "unavailable"] = false).
  { destruct (string_in (uf_usage_status u) ["pending"; "unavailable"]) eqn:Hp; [|done].
    unfold is_priced in Hpr. by rewrite (statuses_disjoint _ Hp) in Hpr. }
  rewrite Hnp in Hm. destruct Hm as (rows & Hrows & Hch). fold release_amount in Hch.
  pose proof (charge_reservation _ _ _ _ _ _ _ _ _ _ _ _ _ Hk Hch) as (r' & Hk' & Hres & Hset & _).
  split; [by eapply charge_buckets|by exists r'].
Qed.

(** ** Expiry *)

(** Expiry of a reservation is one-shot: once an [expiry] release of it is in the ledger,
    every later expiry pass over the row returns without writing, even when the row has been
    re-armed by a retried Turn and is active and stale again. *)
Lemma expiry_is_one_shot at_ db r e st rel :
  db_reservations db !! r_id r = Some r ->
  head (finish_markers {| fi_reservation_id := r_id r; fi_turn_id := r_turn_id r;
                          fi_idempotency_key := "expiry:" +:+ r_id r |} db) = Some e ->
  m_status (le_metadata e) = Some st -> m_released_micro (le_metadata e) = Some rel ->
  run_tx (expire_one at_ r) db = (Ok (), db).
Proof.
  intros Hk Hh Hst Hrel. unfold run_tx, expire_one, finish_in_transaction, get_reservation, gets, mbind, st_bind.
  cbn [fi_reservation_id fi_turn_id fi_idempotency_key]. rewrite Hk.
  unfold finish_markers, finish_pattern in Hh. cbn [fi_reservation_id fi_turn_id fi_idempotency_key] in Hh.
  by rewrite Hh, Hst, Hrel.
Qed.
End settlement.

(** ** Bounded retry *)

Lemma retry_from_spec {A} (operation : nat -> result DBAPIError A) n attempt :
  (attempt + n = MYSQL_TRANSACTION_ATTEMPTS)%nat -> (0 < n)%nat ->
  exists res m, retry_from operation attempt n = Some (res, m)
    /\ (attempt < m <= MYSQL_TRANSACTION_ATTEMPTS)%nat /\ res = operation (m - 1)%nat
    /\ (forall i, (attempt <= i < m - 1)%nat -> exists e, operation i = Err e /\ retryable e = true)
    /\ (forall e, res = Err e -> retryable e = true -> m = MYSQL_TRANSACTION_ATTEMPTS).
Proof.
  unfold MYSQL_TRANSACTION_ATTEMPTS. revert attempt. induction n as [|n IH]; intros attempt Hn Hpos; [lia|].
  cbn [retry_from]. destruct (operation attempt) as [a|e] eqn:Ho.
  - exists (Ok a), (S attempt). split; [done|]. split; [lia|]. replace (S attempt - 1)%nat with attempt by lia.
    split; [done|]. split; [intros i Hi; lia|done].
  - unfold MYSQL_TRANSACTION_ATTEMPTS. destruct (negb (retryable e) || (6 <=? S attempt)%nat) eqn:Hstop.
    + exists (Err e), (S attempt). split; [done|]. split; [lia|]. replace (S attempt - 1)%nat with attempt by lia.
      split; [done|]. split; [intros i Hi; lia|]. intros e' [= <-] Hret. rewrite Hret in Hstop. cbn [negb orb] in Hstop.
      apply Nat.leb_le in Hstop. lia.
    + apply orb_false_iff in Hstop as [Hret%negb_false_iff Hlt%Nat.leb_gt].
      destruct (IH (S attempt)) as (res & m & Hr & Hm & Hres & Hall & Hlast); [lia|lia|].
      exists res, m. split; [done|]. split; [lia|]. split; [done|]. split; [|done].
      intros i Hi. destruct (decide (i = attempt)) as [->|Hne]; [eauto|apply Hall; lia].
Qed.

(** The retry wrapper always ends within six attempts with the outcome of the last one
    it made; every earlier attempt failed with a retryable error (1205 or 1213 on a live
    connection), and it gives up on a retryable error only at the sixth attempt. *)
Lemma retry_mysql_bounded {A} (operation : nat -> result DBAPIError A) :
  exists res m, retry_mysql_transaction operation = Some (res, m)
    /\ (1 <= m <= 6)%nat /\ res = operation (m - 1)%nat
    /\ (forall i, (i < m - 1)%nat -> exists e, operation i = Err e /\ retryable e = true)
    /\ (forall e, res = Err e -> retryable e = true -> m = 6%nat).
Proof.
  destruct (retry_from_spec operation 6 0) as (res & m & Hr & Hm & Hres & Hall & Hlast);
    [done|lia|]. unfold MYSQL_TRANSACTION_ATTEMPTS in *. exists res, m. split; [done|]. split; [lia|].
  split; [done|]. split; [|done]. intros i Hi. apply Hall. lia.
Qed.

(** ** The theorems at [QuotaWorld] *)


(** The row of Turn [t1] in a store. *)
Definition t1_row (db : DB) : option ReservationRow := db_reservations db !! rid "t1".


Lemma settle_exactly_once_witness :
  run_tx (settle_usage_in_transaction (usage "t1" "op1" 25 "exact") (noon 12)) world2 =
  (Ok (result_of (usage "t1" "op1" 25 "exact") false), world2).
Proof.
  apply (settle_exactly_once (usage "t1" "op1" 25 "exact") (noon 10 + 1) world1).
  - vm_compute. reflexivity.
  - reflexivity.
Defined.


(** Turn [t1] admitted, lapsed and expired, admitted again: its second lease lapses too. *)
Definition lapsed : DB := after (expire_reservations (noon 10 + seconds 301)) world1.
Definition rearmed : DB := after (admit_turn "t1" 40 (noon 10 + seconds 400)) lapsed.


(** The consequence: the user's only concurrency unit and the hold of 40 are never given
    back by expiry, however late it runs, and the next Turn is rejected. *)
Lemma rearmed_turn_blocks_user :
  let late := after (expire_reservations (noon 10 + seconds 5000)) rearmed in
  (b_reserved_micro <$> db_buckets late !! "u0") = Some 40
  /\ answer (admit_turn "t2" 10 (noon 10 + seconds 6000)) late = Err (rejection CONCURRENCY_LIMIT 0 None [] true).
Proof. vm_compute. split; reflexivity. Qed.

(** Turn [t1] admitted again a day after its first hold expired: settling 25 charges the
    bucket of the first day as well as the second's. *)
Lemma rearmed_settlement_charges_both_days :
  let next_day := after (admit_turn "t1" 40 (noon 11)) lapsed in
  let settled_db := after (settle_usage_in_transaction (usage "t1" "op1" 25 "exact") (noon 11 + 1)) next_day in
  ((fun b => (b_period_start b, b_reserved_micro b, b_consumed_micro b)) <$> rows (db_buckets next_day))
    = [(11 * DAY, 40, 0); (10 * DAY, 0, 0)]
  /\ ((fun b => (b_period_start b, b_consumed_micro b)) <$> rows (db_buckets settled_db))
    = [(11 * DAY, 25); (10 * DAY, 25)].
Proof. vm_compute. split; reflexivity. Qed.
