(* ===== verification/QuotaManagement.v ===== *)
(** * QuotaManagement: policies, bindings, prices, grants and adjustments

    [QuotaManagementService] of [server/quota/management.py], the writer of the tables that
    [QuotaService] only reads.  Each method is one transaction on the store of [QuotaStore];
    its answer is the row whose payload the method returns.  Arguments are Python values: a
    naive datetime and an unknown owner or bucket type are refused here. *)
From S2P Require Import Prelude Usage Pricing Policy Clock Reservation QuotaStore.
Local Open Scope Z_scope.

(** ** Arguments *)

(** [_utc]: a naive value is refused. *)
Definition management_utc (value : Datetime) : result QuotaError Z :=
  match dt_offset value with Some o => Ok (dt_wall value - o) | None => Err ValueError end.

(** [_stored_utc]: a naive value is UTC. *)
Definition stored_utc (value : Datetime) : Z := instant value.

(** An optional end that must come after the start, each [_utc]. *)
Definition management_until (from : Z) (until : option Datetime) : result QuotaError (option Z) :=
  match until with
  | None => Ok None
  | Some u => u' ← management_utc u; if u' <=? from then Err ValueError else Ok (Some u')
  end.

Definition owner_type_of (s : string) : option OwnerType :=
  if String.eqb s "user" then Some OUser else if String.eqb s "workspace" then Some OWorkspace
  else if String.eqb s "classroom" then Some OClassroom else None.
Definition bucket_type_of (s : string) : option BucketType :=
  if String.eqb s "daily" then Some Daily else if String.eqb s "weekly" then Some Weekly else None.
Definition subject_type_of (s : string) : option PolicySubjectType :=
  if String.eqb s "default" then Some SubDefault else if String.eqb s "role" then Some SubRole
  else if String.eqb s "user" then Some SubUser else if String.eqb s "workspace" then Some SubWorkspace
  else if String.eqb s "classroom" then Some SubClassroom else None.

Definition or_value_error {A} (o : option A) : result QuotaError A :=
  match o with Some a => Ok a | None => Err ValueError end.

(** An owner, a bucket type and a period, as they are stored. *)
Record Scope := {
  sc_owner_type : OwnerType;
  sc_owner_id : string;
  sc_bucket_type : BucketType;
  sc_start : Z;
  sc_end : Z;
}.

(** [_validate_period]. *)
Definition validate_period (owner_type owner_id bucket_type : string) (period_start period_end : Datetime)
  : result QuotaError Scope :=
  o ← or_value_error (owner_type_of owner_type);
  b ← or_value_error (bucket_type_of bucket_type);
  start ← management_utc period_start;
  end_ ← management_utc period_end;
  if end_ <=? start then Err ValueError
  else Ok {| sc_owner_type := o; sc_owner_id := owner_id; sc_bucket_type := b; sc_start := start; sc_end := end_ |}.

(** [with connection.begin_nested()]: an error undoes the statement and is handed to the handler. *)
Definition savepoint {A} (m : Tx A) (handler : QuotaError -> Tx A) : Tx A := fun db =>
  match m db with Ok r => Ok r | Err e => handler e db end.

Definition first_or {A} (e : QuotaError) (o : option A) : Tx A :=
  match o with Some a => mret a | None => raise e end.

Section management.
Context `{Uuids}.

(** ** Policies *)

Record PolicyRequest := {
  pq_code : string;
  pq_version : string;
  pq_name : string;
  pq_request_limit_micro : option Z;
  pq_daily_limit_micro : option Z;
  pq_weekly_limit_micro : option Z;
  pq_concurrency_limit : option Z;
  pq_max_overdraft_micro : Z;
  pq_allowed_model_profiles : list string;
  pq_unlimited : bool;
  pq_effective_from : Datetime;
  pq_effective_until : option Datetime;
  pq_created_by : string;
  pq_status : string;
}.

Definition requested_policy (q : PolicyRequest) (id : string) : QuotaPolicy :=
  {| policy_id := id; code := pq_code q; version := pq_version q; request_limit_micro := pq_request_limit_micro q;
     daily_limit_micro := pq_daily_limit_micro q; weekly_limit_micro := pq_weekly_limit_micro q;
     concurrency_limit := pq_concurrency_limit q; max_overdraft_micro := pq_max_overdraft_micro q;
     allowed_model_profiles := pq_allowed_model_profiles q; unlimited := pq_unlimited q |}.

(** [_validate_policy_values]. *)
Definition policy_values_ok (name : string) (p : QuotaPolicy) : bool :=
  nonempty (code p) && nonempty (version p) && nonempty name
  && forallb opt_nonneg [request_limit_micro p; daily_limit_micro p; weekly_limit_micro p; concurrency_limit p;
                         Some (max_overdraft_micro p)].

Definition same_version (c v : string) (row : PolicyRow) : bool :=
  String.eqb (code (po_policy row)) c && String.eqb (version (po_policy row)) v.

(** The range constraint of the table. *)
Definition range_ok (from : Z) (until : option Z) : bool :=
  match until with Some u => from <? u | None => true end.

(** [INSERT INTO nlp_quota_policies] and [UPDATE ... WHERE id = :id], with the constraints. *)
Definition insert_policy (row : PolicyRow) : Tx () := stmt (fun db =>
  if bool_decide (is_Some (db_policies db !! policy_id (po_policy row)))
     || existsb (same_version (code (po_policy row)) (version (po_policy row))) (rows (db_policies db))
     || negb (range_ok (po_effective_from row) (po_effective_until row))
  then Err IntegrityError
  else Ok ((), set_policies db (<[policy_id (po_policy row) := row]> (db_policies db)))).

Definition update_policy_row (id : string) (row : PolicyRow) : Tx () := stmt (fun db =>
  if existsb (same_version (code (po_policy row)) (version (po_policy row))) (rows (delete id (db_policies db)))
     || negb (range_ok (po_effective_from row) (po_effective_until row))
  then Err IntegrityError
  else Ok ((), set_policies db (alter (fun _ => row) id (db_policies db)))).

(** [create_policy]. *)
Definition create_policy (q : PolicyRequest) : Tx PolicyRow :=
  from ← lift (management_utc (pq_effective_from q));
  until ← lift (management_until from (pq_effective_until q));
  if negb (policy_values_ok (pq_name q) (requested_policy q "")) then raise ValueError
  else if negb (string_in (pq_status q) ["draft"; "active"]) then raise ValueError
  else
    existing ← gets (fun db => select (same_version (pq_code q) (pq_version q)) (db_policies db));
    match existing with
    | _ :: _ => raise (Domain POLICY_VERSION_CONFLICT)
    | [] =>
        id ← fresh_uuid;
        let row := {| po_policy := requested_policy q id; po_name := pq_name q; po_status := pq_status q;
                      po_effective_from := from; po_effective_until := until; po_created_by := pq_created_by q |} in
        _ ← insert_policy row;
        mret row
    end.

(** [get_policy]. *)
Definition get_policy (id : string) : Tx PolicyRow :=
  row ← gets (fun db => db_policies db !! id);
  first_or (Domain POLICY_NOT_FOUND) row.

Definition with_policy_status (st : string) (row : PolicyRow) : PolicyRow :=
  {| po_policy := po_policy row; po_name := po_name row; po_status := st;
     po_effective_from := po_effective_from row; po_effective_until := po_effective_until row;
     po_created_by := po_created_by row |}.

(** The change of status of [publish_policy] and [archive_policy]: only a draft moves. *)
Definition move_draft (id target : string) : Tx PolicyRow :=
  row ← get_policy id;
  if String.eqb (po_status row) target then mret row
  else if negb (String.eqb (po_status row) "draft") then raise (Domain POLICY_CONFLICT)
  else
    _ ← modify (fun db => set_policies db (alter (with_policy_status target) id (db_policies db)));
    get_policy id.
Definition publish_policy (id : string) : Tx PolicyRow := move_draft id "active".
Definition archive_policy (id : string) : Tx PolicyRow := move_draft id "archived".

(** The keyword arguments of [update_policy]: those that are given replace the column. *)
Record PolicyChanges := {
  pc_code : option string;
  pc_version : option string;
  pc_name : option string;
  pc_request_limit_micro : option (option Z);
  pc_daily_limit_micro : option (option Z);
  pc_weekly_limit_micro : option (option Z);
  pc_concurrency_limit : option (option Z);
  pc_max_overdraft_micro : option Z;
  pc_allowed_model_profiles : option (list string);
  pc_unlimited : option bool;
  pc_effective_from : option Datetime;
  pc_effective_until : option (option Datetime);
}.

Definition merged (c : PolicyChanges) (row : PolicyRow) : PolicyRow :=
  let p := po_policy row in
  {| po_policy :=
       {| policy_id := policy_id p; code := default (code p) (pc_code c); version := default (version p) (pc_version c);
          request_limit_micro := default (request_limit_micro p) (pc_request_limit_micro c);
          daily_limit_micro := default (daily_limit_micro p) (pc_daily_limit_micro c);
          weekly_limit_micro := default (weekly_limit_micro p) (pc_weekly_limit_micro c);
          concurrency_limit := default (concurrency_limit p) (pc_concurrency_limit c);
          max_overdraft_micro := default (max_overdraft_micro p) (pc_max_overdraft_micro c);
          allowed_model_profiles := default (allowed_model_profiles p) (pc_allowed_model_profiles c);
          unlimited := default (unlimited p) (pc_unlimited c) |};
     po_name := default (po_name row) (pc_name c); po_status := po_status row;
     po_effective_from := default (po_effective_from row) (stored_utc <$> pc_effective_from c);
     po_effective_until := default (po_effective_until row) (option_map stored_utc <$> pc_effective_until c);
     po_created_by := po_created_by row |}.

(** [update_policy]. *)
Definition update_policy (id : string) (c : PolicyChanges) : Tx PolicyRow :=
  row ← get_policy id;
  if negb (String.eqb (po_status row) "draft") then raise (Domain POLICY_CONFLICT)
  else
    let new := merged c row in
    if negb (range_ok (po_effective_from new) (po_effective_until new)) then raise ValueError
    else if negb (policy_values_ok (po_name new) (po_policy new)) then raise ValueError
    else
      _ ← savepoint (update_policy_row id new)
            (fun e => match e with IntegrityError => raise (Domain POLICY_VERSION_CONFLICT) | _ => raise e end);
      get_policy id.

(** ** Bindings *)

Definition of_subject (t : PolicySubjectType) (id : string) (row : BindingRow) : bool :=
  bool_decide (bi_subject_type row = t) && String.eqb (bi_subject_id row) id.
Definition binding_active (row : BindingRow) : bool := String.eqb (bi_status row) "active".
Definition binding_covers (at_ : Z) (row : BindingRow) : bool := in_window (bi_effective_from row) (bi_effective_until row) at_.

Definition binding_until (until : option Z) (row : BindingRow) : BindingRow :=
  {| bi_id := bi_id row; bi_subject_type := bi_subject_type row; bi_subject_id := bi_subject_id row;
     bi_policy_id := bi_policy_id row; bi_priority := bi_priority row; bi_status := bi_status row;
     bi_effective_from := bi_effective_from row; bi_effective_until := until |}.
Definition binding_retired (row : BindingRow) : BindingRow :=
  {| bi_id := bi_id row; bi_subject_type := bi_subject_type row; bi_subject_id := bi_subject_id row;
     bi_policy_id := bi_policy_id row; bi_priority := bi_priority row; bi_status := "retired";
     bi_effective_from := bi_effective_from row; bi_effective_until := bi_effective_until row |}.

Definition update_binding (id : string) (f : BindingRow -> BindingRow) : Tx () :=
  modify (fun db => set_bindings db (kupdate bi_id id f (db_bindings db))).
(** [INSERT INTO nlp_quota_policy_bindings]; the priority is a [BIGINT UNSIGNED] column. *)
Definition insert_binding (row : BindingRow) : Tx () := stmt (fun db =>
  if negb (unsigned (bi_priority row)) then Err DataError
  else if existsb (fun b => String.eqb (bi_id b) (bi_id row)) (db_bindings db) then Err IntegrityError
  else Ok ((), set_bindings db (db_bindings db ++ [row]))).

Record BindingRequest := {
  bq_subject_type : string;
  bq_subject_id : string;
  bq_policy_id : string;
  bq_priority : Z;
  bq_effective_from : Datetime;
  bq_effective_until : option Datetime;
}.

(** [bind_policy]. *)
Definition bind_policy (q : BindingRequest) : Tx BindingRow :=
  t ← lift (or_value_error (subject_type_of (bq_subject_type q)));
  if bool_decide (t = SubDefault) && negb (String.eqb (bq_subject_id q) "*") then raise ValueError
  else
    start ← lift (management_utc (bq_effective_from q));
    end_ ← lift (management_until start (bq_effective_until q));
    policy ← gets (fun db => db_policies db !! bq_policy_id q);
    if negb (match policy with Some p => String.eqb (po_status p) "active" | None => false end)
    then raise (Domain POLICY_NOT_FOUND)
    else
      current ← gets (fun db => List.filter (fun b =>
        of_subject t (bq_subject_id q) b && binding_active b && binding_covers start b) (db_bindings db));
      _ ← st_iter (fun b => update_binding (bi_id b) (binding_until (Some start))) current;
      id ← fresh_uuid;
      let row := {| bi_id := id; bi_subject_type := t; bi_subject_id := bq_subject_id q; bi_policy_id := bq_policy_id q;
                    bi_priority := bq_priority q; bi_status := "active"; bi_effective_from := start;
                    bi_effective_until := end_ |} in
      _ ← insert_binding row;
      mret row.

(** A binding joined with its policy. *)
Definition joined_binding (id : string) (db : DB) : option BindingRow :=
  row ← kfind bi_id id (db_bindings db);
  _ ← db_policies db !! bi_policy_id row;
  Some row.

(** [get_binding]. *)
Definition get_binding (id : string) : Tx BindingRow :=
  row ← gets (joined_binding id);
  first_or (Domain BINDING_CONFLICT) row.

(** [ORDER BY effective_from DESC], first row. *)
Definition later_start (a b : BindingRow) : bool := bi_effective_from b <=? bi_effective_from a.
Definition closed_at (t : PolicySubjectType) (id : string) (at_ : Z) (b : BindingRow) : bool :=
  of_subject t id b && binding_active b && bool_decide (bi_effective_until b = Some at_).

(** [retire_binding]. *)
Definition retire_binding (id : string) : Tx BindingRow :=
  found ← gets (fun db => kfind bi_id id (db_bindings db));
  row ← first_or (Domain BINDING_CONFLICT) found;
  _ ← when (binding_active row) (
        _ ← update_binding id binding_retired;
        predecessor ← gets (fun db => head (sort_by later_start
          (List.filter (closed_at (bi_subject_type row) (bi_subject_id row) (bi_effective_from row)) (db_bindings db))));
        match predecessor with
        | Some p => update_binding (bi_id p) (binding_until (bi_effective_until row))
        | None => mret ()
        end);
  updated ← gets (joined_binding id);
  first_or NoResultFound updated.

(** [_load_bindings]: the bindings in force at an instant, with their policies. *)
Definition load_binding (db : DB) (at_ : Z) (row : BindingRow) : option PolicyBinding :=
  p ← db_policies db !! bi_policy_id row;
  if negb (String.eqb (po_status p) "active") || negb (binding_active row) then None
  else if negb (binding_covers at_ row) then None
  else if negb (in_window (po_effective_from p) (po_effective_until p) at_) then None
  else Some {| subject_type := bi_subject_type row; subject_id := bi_subject_id row; policy := po_policy p;
               priority := bi_priority row; pb_effective_from := bi_effective_from row;
               pb_effective_until := bi_effective_until row |}.
Definition load_bindings (at_ : Z) (db : DB) : list PolicyBinding := omap (load_binding db at_) (db_bindings db).

Definition is_workspace (b : PolicyBinding) : bool := bool_decide (subject_type b = SubWorkspace).

(** [_resolve_or_none]. *)
Definition resolve_or_none (r : result QuotaErrorCode PolicyBinding) : Tx (option PolicyBinding) :=
  match r with
  | Ok b => mret (Some b)
  | Err POLICY_NOT_FOUND => mret None
  | Err c => raise (Domain c)
  end.

(** [explain_policy]: the base and the workspace binding it shows. *)
Definition explain_policy (user_id : string) (workspace_id : option string) (role_codes classroom_ids : list string)
  (at_value : Datetime) : Tx (PolicyBinding * option PolicyBinding) :=
  at_ ← lift (management_utc at_value);
  bindings ← gets (load_bindings at_);
  base ← match resolve_effective_policy (List.filter (fun b => negb (is_workspace b)) bindings)
                 user_id None role_codes classroom_ids at_ with
         | Ok b => mret b
         | Err c => raise (Domain c)
         end;
  workspace ← match workspace_id, List.filter is_workspace bindings with
              | Some _, (_ :: _) as own => resolve_or_none (resolve_effective_policy own user_id workspace_id [] [] at_)
              | _, _ => mret None
              end;
  mret (base, workspace).

(** ** Prices *)

Definition of_rule_key (k : string) (row : PricingRuleRow) : bool := String.eqb (rule_key (prr_rule row)) k.
Definition of_rule_version (k v : string) (row : PricingRuleRow) : bool :=
  of_rule_key k row && String.eqb (rule_version (prr_rule row)) v.

(** [INSERT INTO nlp_pricing_rules], with its constraints. *)
Definition insert_rule (row : PricingRuleRow) : Tx () := stmt (fun db =>
  if existsb (fun p => String.eqb (prr_id p) (prr_id row)) (db_pricing db)
     || existsb (of_rule_version (rule_key (prr_rule row)) (rule_version (prr_rule row))) (db_pricing db)
     || negb (range_ok (effective_from (prr_rule row)) (effective_until (prr_rule row)))
  then Err IntegrityError
  else Ok ((), set_pricing db (db_pricing db ++ [row]))).

Definition with_rule_range (from : Z) (until : option Z) (r : PricingRule) : PricingRule :=
  {| rule_key := rule_key r; rule_version := rule_version r; effective_from := from; effective_until := until;
     ordinary_input_rate := ordinary_input_rate r; cached_input_rate := cached_input_rate r;
     cache_write_rate := cache_write_rate r; output_rate := output_rate r;
     reasoning_output_rate := reasoning_output_rate r; visual_input_rate := visual_input_rate r;
     image_unit_micro := image_unit_micro r; search_call_micro := search_call_micro r;
     link_page_micro := link_page_micro r |}.
Definition rule_closed (st : string) (until : option Z) (row : PricingRuleRow) : PricingRuleRow :=
  {| prr_id := prr_id row; prr_rule := with_rule_range (effective_from (prr_rule row)) until (prr_rule row);
     prr_status := st; prr_created_by := prr_created_by row |}.

(** [UPDATE nlp_pricing_rules SET status, effective_until WHERE id = :id]. *)
Definition close_rule (id st : string) (until : option Z) : Tx () := stmt (fun db =>
  if existsb (fun p => String.eqb (prr_id p) id && negb (range_ok (effective_from (prr_rule p)) until)) (db_pricing db)
  then Err IntegrityError
  else Ok ((), set_pricing db (kupdate prr_id id (rule_closed st until) (db_pricing db)))).

(** [_pricing_rule_from_row] over the rows: the constructor validates each. *)
Fixpoint rules_from_rows (l : list PricingRule) : result pricing_error (list PricingRule) :=
  match l with
  | [] => Ok []
  | r :: l' => r ← validate_pricing_rule r; rs ← rules_from_rows l'; Ok (r :: rs)
  end.

(** [PricingCatalog([...rows..., candidate])], a [ValueError] being a conflict. *)
Definition check_catalog (existing : list PricingRule) (candidate : PricingRule) : Tx () :=
  match rs ← rules_from_rows existing; PricingCatalog (rs ++ [candidate]) with
  | Ok _ => mret ()
  | Err _ => raise (Domain PRICING_RULE_CONFLICT)
  end.

(** [create_pricing_rule]; the rates are those of [rates]. *)
Definition create_pricing_rule (rates : PricingRule) (from_value : Datetime) (until_value : option Datetime)
  (created_by : string) : Tx PricingRuleRow :=
  from ← lift (management_utc from_value);
  until ← lift (match until_value with None => Ok None | Some u => Some <$> management_utc u end);
  match validate_pricing_rule (with_rule_range from until rates) with
  | Err _ => raise ValidationError
  | Ok candidate =>
      existing ← gets (fun db => List.filter (of_rule_version (rule_key candidate) (rule_version candidate)) (db_pricing db));
      match existing with
      | _ :: _ => raise (Domain PRICING_RULE_CONFLICT)
      | [] =>
          own ← gets (fun db => List.filter (of_rule_key (rule_key candidate)) (db_pricing db));
          _ ← check_catalog (prr_rule <$> own) candidate;
          id ← fresh_uuid;
          let row := {| prr_id := id; prr_rule := candidate; prr_status := "active"; prr_created_by := created_by |} in
          _ ← savepoint (insert_rule row)
                (fun e => match e with IntegrityError => raise (Domain PRICING_RULE_CONFLICT) | _ => raise e end);
          mret row
      end
  end.

(** [get_pricing_rule]. *)
Definition get_pricing_rule (id : string) : Tx PricingRuleRow :=
  row ← gets (fun db => kfind prr_id id (db_pricing db));
  first_or (Domain PRICING_RULE_CONFLICT) row.

(** [retire_pricing_rule]: a rule in force ends now. *)
Definition retire_pricing_rule (id : string) (now_ : Z) : Tx PricingRuleRow :=
  row ← get_pricing_rule id;
  _ ← when (String.eqb (prr_status row) "active")
        (close_rule id "retired"
           (if in_window (effective_from (prr_rule row)) (effective_until (prr_rule row)) now_ then Some now_
            else effective_until (prr_rule row)));
  get_pricing_rule id.

(** [_PRICING_RATE_FIELDS]. *)
Definition rate_fields (r : PricingRule) : list (option Z) :=
  [Some (ordinary_input_rate r); Some (cached_input_rate r); Some (cache_write_rate r); Some (output_rate r);
   reasoning_output_rate r; visual_input_rate r; image_unit_micro r; search_call_micro r; link_page_micro r].
Definition same_rates (a b : PricingRule) : bool := bool_decide (rate_fields a = rate_fields b).

Inductive install_status := AlreadyPresent | Superseded (rule_id : string) | Created.

Definition open_after (at_ : Z) (row : PricingRuleRow) : bool :=
  match effective_until (prr_rule row) with None => true | Some u => at_ <? u end.

(** The one row the built-in version supersedes. *)
Definition find_predecessor (managed : list string) (from : Z) (own : list PricingRuleRow) : Tx (option PricingRuleRow) :=
  match List.filter (open_after from) own with
  | [] => mret None
  | [current] =>
      if bool_decide (effective_until (prr_rule current) <> None)
         || negb (string_in (prr_created_by current) managed)
         || (from <=? effective_from (prr_rule current))
      then raise (Domain PRICING_RULE_CONFLICT)
      else mret (Some current)
  | _ => raise (Domain PRICING_RULE_CONFLICT)
  end.

Definition adjusted_rule (predecessor : option PricingRuleRow) (from : Z) (row : PricingRuleRow) : PricingRule :=
  match predecessor with
  | Some p => if String.eqb (prr_id row) (prr_id p)
              then with_rule_range (effective_from (prr_rule row)) (Some from) (prr_rule row) else prr_rule row
  | None => prr_rule row
  end.

(** The rows are validated before the predecessor's end is replaced. *)
Definition check_adjusted (predecessor : option PricingRuleRow) (from : Z) (own : list PricingRuleRow)
  (candidate : PricingRule) : Tx () :=
  match rules_from_rows (prr_rule <$> own) with
  | Err _ => raise ValidationError
  | Ok _ =>
      match PricingCatalog ((adjusted_rule predecessor from <$> own) ++ [candidate]) with
      | Ok _ => mret ()
      | Err _ => raise (Domain PRICING_RULE_CONFLICT)
      end
  end.

Definition older_rule (a b : PricingRuleRow) : bool := effective_from (prr_rule a) <=? effective_from (prr_rule b).

(** The transaction of [install_builtin_pricing_version]. *)
Definition install_in_transaction (definition : PricingRule) (installed_by : string) (installed_at : Z)
  (managed : list string) : Tx (PricingRuleRow * install_status) :=
  own ← gets (fun db => sort_by older_rule (List.filter (of_rule_key (rule_key definition)) (db_pricing db)));
  match List.find (fun row => String.eqb (rule_version (prr_rule row)) (rule_version definition)) own with
  | Some target =>
      if same_rates (prr_rule target) definition then mret (target, AlreadyPresent)
      else raise (Domain PRICING_RULE_CONFLICT)
  | None =>
      let from := match own with [] => effective_from definition | _ => Z.max (effective_from definition) installed_at end in
      let candidate := with_rule_range from None definition in
      predecessor ← find_predecessor managed from own;
      _ ← check_adjusted predecessor from own candidate;
      _ ← match predecessor with
          | Some p => close_rule (prr_id p) (if from <=? installed_at then "retired" else prr_status p) (Some from)
          | None => mret ()
          end;
      id ← fresh_uuid;
      let row := {| prr_id := id; prr_rule := candidate; prr_status := "active"; prr_created_by := installed_by |} in
      _ ← insert_rule row;
      mret (row, match predecessor with Some p => Superseded (prr_id p) | None => Created end)
  end.

(** [install_builtin_pricing_version]: what another installer committed is looked up again after
    the transaction was rolled back. *)
Definition install_builtin_pricing_version (definition : PricingRule) (installed_by : string) (now_value : Datetime)
  (managed : list string) : Tx (PricingRuleRow * install_status) :=
  if negb (string_in installed_by managed) then raise ValueError
  else
    installed_at ← lift (management_utc now_value);
    savepoint (install_in_transaction definition installed_by installed_at managed)
      (fun e => match e with
                | IntegrityError =>
                    existing ← gets (fun db => List.find
                      (of_rule_version (rule_key definition) (rule_version definition)) (db_pricing db));
                    match existing with
                    | Some row => if same_rates (prr_rule row) definition then mret (row, AlreadyPresent)
                                  else raise (Domain PRICING_RULE_CONFLICT)
                    | None => raise (Domain PRICING_RULE_CONFLICT)
                    end
                | _ => raise e
                end).
End management.

(** * grants, adjustments and their ledger

    The allocation half of [QuotaManagementService] ([server/quota/management.py]): grants of
    credits to the bucket periods of an owner, their revocation and expiry, and manual
    adjustments.  Every change of what is allocated is one row of the ledger, without a bucket
    and with the grant it is about.  Arguments are Python values, as in [QuotaManagement]. *)

Section grants.
Context `{Uuids}.

(** ** The ledger of the managers *)

Definition management_row (grant_id : option string) (entry_type : string) (amount_micro : Z)
  (idempotency_key reason : string) (now_ : Z) (meta : LedgerMeta) (id : string) : LedgerRow :=
  {| le_id := id; le_reservation_id := None; le_bucket_id := None; le_grant_id := grant_id;
     le_entry_type := entry_type; le_amount_micro := amount_micro; le_reserved_delta_micro := 0;
     le_consumed_delta_micro := 0; le_idempotency_key := idempotency_key; le_reason := reason;
     le_metadata := meta; le_created_at := now_ |}.

(** The managers' metadata is not read back: only the bucket type, as a key the service knows. *)
Definition management_meta (bt : option BucketType) : LedgerMeta :=
  {| m_turn_id := None; m_bucket_type := bt; m_operation_id := None; m_credits_micro := None;
     m_usage_status := None; m_usage_source := None; m_pricing_key := None; m_pricing_version := None;
     m_over_limit := None; m_feature_usage := None; m_reserved_micro := None; m_released_micro := None;
     m_status := None; m_reconciled_from := None |}.

(** One [INSERT INTO nlp_quota_ledger_entries] of a row built from a fresh identifier. *)
Definition append_ledger (mk : string -> LedgerRow) : Tx () :=
  id ← fresh_uuid;
  stmt (fun db =>
    if existsb (fun e => String.eqb (le_idempotency_key e) (le_idempotency_key (mk id))) (db_ledger db)
    then Err IntegrityError
    else Ok ((), set_ledger db (db_ledger db ++ [mk id]))).

(** [_management_ledger]. *)
Definition management_ledger (grant_id : option string) (entry_type : string) (amount_micro : Z)
  (idempotency_key reason : string) (now_ : Z) (bt : option BucketType) : Tx () :=
  append_ledger (management_row grant_id entry_type amount_micro idempotency_key reason now_ (management_meta bt)).

(** ** Grants *)

Record GrantRequest := {
  gq_owner_type : string;
  gq_owner_id : string;
  gq_bucket_type : string;
  gq_period_start : Datetime;
  gq_period_end : Datetime;
  gq_allocated_micro : Z;
  gq_source_type : string;
  gq_created_by : string;
  gq_reason : string;
  gq_idempotency_key : string;
  gq_effective_from : Datetime;
  gq_expires_at : option Datetime;
  gq_source_id : option string;
}.

Definition SOURCE_TYPES : list string := ["role"; "purchase"; "grant"; "adjustment"; "reset"].

(** A request after its validation: the columns that are compared and stored. *)
Record Allocation := {
  al_scope : Scope;
  al_effective : Z;
  al_expires : option Z;
}.
Definition validate_grant (q : GrantRequest) : result QuotaError Allocation :=
  scope ← validate_period (gq_owner_type q) (gq_owner_id q) (gq_bucket_type q) (gq_period_start q) (gq_period_end q);
  if negb (string_in (gq_source_type q) SOURCE_TYPES) then Err ValueError
  else if gq_allocated_micro q <? 0 then Err ValueError
  else
    effective ← management_utc (gq_effective_from q);
    expires ← management_until effective (gq_expires_at q);
    Ok {| al_scope := scope; al_effective := effective; al_expires := expires |}.

(** The unique key of the table. *)
Definition of_owner_key (o : OwnerType) (oid key : string) (g : GrantRow) : bool :=
  bool_decide (gr_owner_type g = o) && String.eqb (gr_owner_id g) oid && String.eqb (gr_idempotency_key g) key.

Definition in_scope (sc : Scope) (o : OwnerType) (oid : string) (bt : BucketType) (start end_ : Z) : bool :=
  bool_decide (o = sc_owner_type sc) && String.eqb oid (sc_owner_id sc) && bool_decide (bt = sc_bucket_type sc)
  && (start =? sc_start sc) && (end_ =? sc_end sc).
Definition grant_in_scope (sc : Scope) (g : GrantRow) : bool :=
  in_scope sc (gr_owner_type g) (gr_owner_id g) (gr_bucket_type g) (gr_period_start g) (gr_period_end g).

(** [_grant_request_matches]. *)
Definition grant_request_matches (row : GrantRow) (q : GrantRequest) (al : Allocation) : bool :=
  grant_in_scope (al_scope al) row && (gr_allocated_micro row =? gq_allocated_micro q)
  && String.eqb (gr_source_type row) (gq_source_type q) && (gr_effective_from row =? al_effective al)
  && bool_decide (gr_expires_at row = al_expires al).

Definition new_grant (q : GrantRequest) (al : Allocation) (now_ : Z) (id : string) : GrantRow :=
  let sc := al_scope al in
  {| gr_id := id; gr_owner_type := sc_owner_type sc; gr_owner_id := sc_owner_id sc; gr_bucket_type := sc_bucket_type sc;
     gr_period_start := sc_start sc; gr_period_end := sc_end sc; gr_allocated_micro := gq_allocated_micro q;
     gr_status := "active"; gr_effective_from := al_effective al; gr_expires_at := al_expires al;
     gr_source_type := gq_source_type q; gr_source_id := gq_source_id q; gr_reason := gq_reason q;
     gr_created_by := gq_created_by q; gr_idempotency_key := gq_idempotency_key q; gr_revoked_at := None;
     gr_revoked_by := None; gr_revocation_key := None; gr_created_at := now_ |}.

(** [INSERT INTO nlp_quota_grants]: the column of the amount, the primary key and the owner's
    idempotency key. *)
Definition insert_grant (row : GrantRow) : Tx () := stmt (fun db =>
  if negb (unsigned (gr_allocated_micro row)) then Err DataError
  else if existsb (fun g => String.eqb (gr_id g) (gr_id row)
                       || of_owner_key (gr_owner_type row) (gr_owner_id row) (gr_idempotency_key row) g) (db_grants db)
  then Err IntegrityError
  else Ok ((), set_grants db (db_grants db ++ [row]))).

(** The answer to a request whose key is known. *)
Definition replay_grant (q : GrantRequest) (al : Allocation) (row : GrantRow) : Tx GrantRow :=
  if grant_request_matches row q al then mret row else raise (Domain GRANT_CONFLICT).

Definition grant_of_request (q : GrantRequest) (al : Allocation) (db : DB) : option GrantRow :=
  List.find (of_owner_key (sc_owner_type (al_scope al)) (sc_owner_id (al_scope al)) (gq_idempotency_key q)) (db_grants db).

(** What is written for a new grant. *)
Definition write_grant (q : GrantRequest) (al : Allocation) (now_ : Z) : Tx GrantRow :=
  id ← fresh_uuid;
  let row := new_grant q al now_ id in
  inserted ← savepoint (_ ← insert_grant row; mret None)
               (fun e => match e with
                         | IntegrityError =>
                             winner ← gets (grant_of_request q al);
                             w ← first_or IntegrityError winner;
                             mret (Some w)
                         | _ => raise e
                         end);
  match inserted with
  | Some winner => replay_grant q al winner
  | None =>
      _ ← management_ledger (Some id) "grant" (gq_allocated_micro q) ("grant:" +:+ id) (gq_reason q) now_
            (Some (sc_bucket_type (al_scope al)));
      mret row
  end.

(** [create_grant_in_transaction]. *)
Definition create_grant_in_transaction (q : GrantRequest) (now_ : Z) : Tx GrantRow :=
  al ← lift (validate_grant q);
  existing ← gets (grant_of_request q al);
  match existing with
  | Some row => replay_grant q al row
  | None => write_grant q al now_
  end.

(** [create_grant]. *)
Definition create_grant (q : GrantRequest) (now_ : Z) : Tx GrantRow := create_grant_in_transaction q now_.

(** [get_grant] and [list_grants]. *)
Definition get_grant (id : string) : Tx GrantRow :=
  row ← gets (fun db => kfind gr_id id (db_grants db));
  first_or (Domain GRANT_CONFLICT) row.
Definition newer_grant (a b : GrantRow) : bool := gr_created_at b <=? gr_created_at a.
Definition list_grants (o : option OwnerType) (oid : option string) : Tx (list GrantRow) :=
  gets (fun db => sort_by newer_grant (List.filter (fun g =>
    match o with Some o => bool_decide (gr_owner_type g = o) | None => true end
    && match oid with Some (String _ _ as i) => String.eqb (gr_owner_id g) i | _ => true end) (db_grants db))).

Definition grant_closed (st : string) (revoked : option (Z * string * string)) (g : GrantRow) : GrantRow :=
  {| gr_id := gr_id g; gr_owner_type := gr_owner_type g; gr_owner_id := gr_owner_id g; gr_bucket_type := gr_bucket_type g;
     gr_period_start := gr_period_start g; gr_period_end := gr_period_end g; gr_allocated_micro := gr_allocated_micro g;
     gr_status := st; gr_effective_from := gr_effective_from g; gr_expires_at := gr_expires_at g;
     gr_source_type := gr_source_type g; gr_source_id := gr_source_id g; gr_reason := gr_reason g;
     gr_created_by := gr_created_by g; gr_idempotency_key := gr_idempotency_key g;
     gr_revoked_at := match revoked with Some r => Some r.1.1 | None => gr_revoked_at g end;
     gr_revoked_by := match revoked with Some r => Some r.1.2 | None => gr_revoked_by g end;
     gr_revocation_key := match revoked with Some r => Some r.2 | None => gr_revocation_key g end;
     gr_created_at := gr_created_at g |}.
Definition grant_active (g : GrantRow) : bool := String.eqb (gr_status g) "active".

(** [UPDATE nlp_quota_grants ... WHERE id = :id]; a revocation key is unique. *)
Definition update_grant (id : string) (f : GrantRow -> GrantRow) : Tx () :=
  modify (fun db => set_grants db (kupdate gr_id id f (db_grants db))).
Definition revoke_row (id : string) (now_ : Z) (actor key : string) : Tx () := stmt (fun db =>
  if existsb (fun g => negb (String.eqb (gr_id g) id) && bool_decide (gr_revocation_key g = Some key)) (db_grants db)
  then Err IntegrityError
  else Ok ((), set_grants db (kupdate gr_id id (grant_closed "revoked" (Some (now_, actor, key))) (db_grants db)))).

(** [revoke_grant]. *)
Definition revoke_grant (id actor key : string) (now_ : Z) : Tx GrantRow :=
  row ← get_grant id;
  if negb (grant_active row) then
    if bool_decide (gr_revocation_key row = Some key) then mret row else raise (Domain GRANT_CONFLICT)
  else
    _ ← revoke_row id now_ actor key;
    _ ← management_ledger (Some id) "grant_revoke" (- gr_allocated_micro row) ("grant-revoke:" +:+ key) "grant_revoked"
          now_ None;
    get_grant id.

(** [expire_grants]. *)
Definition expires_by (at_ : Z) (g : GrantRow) : bool :=
  grant_active g && match gr_expires_at g with Some e => e <=? at_ | None => false end.
Definition expire_row (now_ : Z) (g : GrantRow) : Tx () :=
  _ ← update_grant (gr_id g) (grant_closed "expired" None);
  management_ledger (Some (gr_id g)) "grant_expire" (- gr_allocated_micro g) ("grant-expire:" +:+ gr_id g) "grant_expired"
    now_ None.
Definition expire_grants (now_value : Datetime) : Tx Z :=
  now_ ← lift (management_utc now_value);
  due ← gets (fun db => List.filter (expires_by now_) (db_grants db));
  _ ← st_iter (expire_row now_) due;
  mret (Z.of_nat (length due)).

(** ** Adjustments *)

Record AdjustmentRequest := {
  aq_owner_type : string;
  aq_owner_id : string;
  aq_bucket_type : string;
  aq_period_start : Datetime;
  aq_period_end : Datetime;
  aq_amount_micro : Z;
  aq_actor_user_id : string;
  aq_reason : string;
  aq_idempotency_key : string;
}.

Definition of_adjustment_key (key : string) (a : AdjustmentRow) : bool := String.eqb (ad_idempotency_key a) key.
Definition new_adjustment (q : AdjustmentRequest) (sc : Scope) (now_ : Z) (id : string) : AdjustmentRow :=
  {| ad_id := id; ad_owner_type := sc_owner_type sc; ad_owner_id := sc_owner_id sc; ad_bucket_type := sc_bucket_type sc;
     ad_period_start := sc_start sc; ad_period_end := sc_end sc; ad_amount_micro := aq_amount_micro q;
     ad_actor_user_id := aq_actor_user_id q; ad_reason := aq_reason q; ad_idempotency_key := aq_idempotency_key q;
     ad_created_at := now_ |}.
Definition same_adjustment (q : AdjustmentRequest) (sc : Scope) (a : AdjustmentRow) : bool :=
  in_scope sc (ad_owner_type a) (ad_owner_id a) (ad_bucket_type a) (ad_period_start a) (ad_period_end a)
  && (ad_amount_micro a =? aq_amount_micro q) && String.eqb (ad_actor_user_id a) (aq_actor_user_id q)
  && String.eqb (ad_reason a) (aq_reason q).
Definition replay_adjustment (q : AdjustmentRequest) (sc : Scope) (a : AdjustmentRow) : Tx AdjustmentRow :=
  if same_adjustment q sc a then mret a else raise (Domain ADJUSTMENT_CONFLICT).

Definition insert_adjustment (row : AdjustmentRow) : Tx () := stmt (fun db =>
  if existsb (fun a => String.eqb (ad_id a) (ad_id row) || of_adjustment_key (ad_idempotency_key row) a) (db_adjustments db)
  then Err IntegrityError
  else Ok ((), set_adjustments db (db_adjustments db ++ [row]))).

Definition write_adjustment (q : AdjustmentRequest) (sc : Scope) (now_ : Z) : Tx AdjustmentRow :=
  id ← fresh_uuid;
  let row := new_adjustment q sc now_ id in
  inserted ← savepoint (_ ← insert_adjustment row; mret None)
               (fun e => match e with
                         | IntegrityError =>
                             winner ← gets (fun db => List.find (of_adjustment_key (aq_idempotency_key q)) (db_adjustments db));
                             w ← first_or IntegrityError winner;
                             mret (Some w)
                         | _ => raise e
                         end);
  match inserted with
  | Some winner => replay_adjustment q sc winner
  | None =>
      _ ← management_ledger None "adjustment" (aq_amount_micro q) ("adjustment:" +:+ aq_idempotency_key q) (aq_reason q)
            now_ (Some (sc_bucket_type sc));
      mret row
  end.

(** [create_adjustment]. *)
Definition create_adjustment (q : AdjustmentRequest) (now_ : Z) : Tx AdjustmentRow :=
  sc ← lift (validate_period (aq_owner_type q) (aq_owner_id q) (aq_bucket_type q) (aq_period_start q) (aq_period_end q));
  existing ← gets (fun db => List.find (of_adjustment_key (aq_idempotency_key q)) (db_adjustments db));
  match existing with
  | Some row => replay_adjustment q sc row
  | None => write_adjustment q sc now_
  end.

(** [get_adjustment] and [list_adjustments]. *)
Definition get_adjustment (id : string) : Tx AdjustmentRow :=
  row ← gets (fun db => kfind ad_id id (db_adjustments db));
  first_or (Domain ADJUSTMENT_CONFLICT) row.
Definition newer_adjustment (a b : AdjustmentRow) : bool := ad_created_at b <=? ad_created_at a.
Definition list_adjustments (o : option OwnerType) (oid : option string) : Tx (list AdjustmentRow) :=
  gets (fun db => sort_by newer_adjustment (List.filter (fun a =>
    match o with Some o => bool_decide (ad_owner_type a = o) | None => true end
    && match oid with Some (String _ _ as i) => String.eqb (ad_owner_id a) i | _ => true end) (db_adjustments db))).
End grants.
