(* ===== verification/QuotaOperations.v ===== *)
(** * QuotaOperations: replay and repair, provider bills, credit gifts and resets

    [QuotaOperationsService] of [server/quota/operations.py], as far as it writes the books: a
    bucket is recomputed from its ledger and repaired, a provider's bill is matched with the
    usage it is about and its difference charged, and credits are given to a user or to all
    users of a role, or replace what was given before.  [digest] is [sha256(..).hexdigest()].
    The rows that only serialise two operations on one scope are not modelled: transactions
    are serial here. *)
From S2P Require Import Prelude PyText Clock Usage Pricing Policy Reservation QuotaStore QuotaService.
From S2P Require Import QuotaManagement.
Local Open Scope Z_scope.

(** [_REPLAY_ENTRY_TYPES]. *)
Definition REPLAY_ENTRY_TYPES : list string := ["reserve"; "settle"; "reconcile"; "release"; "billing_adjustment"].

Section operations.
Context `{Uuids} (digest : string -> string).

(** [_bounded_idempotency_key]. *)
Definition bounded_idempotency_key (prefix : string) (parts : list string) : string :=
  let value := String.concat ":" (prefix :: parts) in
  if (char_length value <=? 255)%nat then value else prefix +:+ ":sha256:" +:+ digest value.

(** ** Replay and repair *)

Record BucketReplay := {
  br_bucket_id : string;
  br_stored_consumed : Z;
  br_stored_reserved : Z;
  br_expected_consumed : Z;
  br_expected_reserved : Z;
  br_expected_over_limit : bool;
  br_ledger_entries : Z;
  br_needs_repair : bool;
}.

(** [_bucket_over_limit]. *)
Definition bucket_over_limit (bucket : BucketRow) (consumed at_ : Z) : Tx bool :=
  match b_limit_micro bucket with
  | None => mret false
  | Some limit =>
      extra ← gets (additional_capacity_for_bucket bucket at_);
      policy ← gets (fun db => db_policies db !! b_policy_id bucket);
      p ← first_or NoResultFound policy;
      mret (limit + extra + max_overdraft_micro (po_policy p) <? consumed)
  end.

Definition replay_entries (bucket_id : string) (db : DB) : list LedgerRow :=
  List.filter (fun e => bool_decide (le_bucket_id e = Some bucket_id) && string_in (le_entry_type e) REPLAY_ENTRY_TYPES)
    (db_ledger db).

Definition get_bucket (id : string) : Tx BucketRow :=
  bucket ← gets (fun db => db_buckets db !! id);
  first_or KeyError bucket.

(** [_replay_bucket], of [replay_bucket]. *)
Definition replay_bucket (bucket_id : string) (at_ : Z) : Tx BucketReplay :=
  bucket ← get_bucket bucket_id;
  entries ← gets (replay_entries bucket_id);
  let reserved_ := Z.max 0 (sum_by le_reserved_delta_micro entries) in
  let consumed_ := Z.max 0 (sum_by le_consumed_delta_micro entries) in
  over ← bucket_over_limit bucket consumed_ at_;
  mret {| br_bucket_id := bucket_id; br_stored_consumed := b_consumed_micro bucket;
          br_stored_reserved := b_reserved_micro bucket; br_expected_consumed := consumed_;
          br_expected_reserved := reserved_; br_expected_over_limit := over;
          br_ledger_entries := Z.of_nat (length entries);
          br_needs_repair := negb (b_consumed_micro bucket =? consumed_) || negb (b_reserved_micro bucket =? reserved_)
                             || xorb (b_over_limit bucket) over |}.

Definition bucket_entry (reservation_id bucket_id : option string) (entry_type : string) (amount consumed_delta : Z)
  (key reason : string) (now_ : Z) (id : string) : LedgerRow :=
  {| le_id := id; le_reservation_id := reservation_id; le_bucket_id := bucket_id; le_grant_id := None;
     le_entry_type := entry_type; le_amount_micro := amount; le_reserved_delta_micro := 0;
     le_consumed_delta_micro := consumed_delta; le_idempotency_key := key; le_reason := reason;
     le_metadata := management_meta None; le_created_at := now_ |}.

(** [repair_bucket]. *)
Definition repair_bucket (bucket_id reason key : string) (now_ : Z) : Tx BucketReplay :=
  if blank reason || blank key then raise ValueError
  else
    let ledger_key := bounded_idempotency_key "balance-repair" [key] in
    existing ← gets (fun db => List.find (fun e => String.eqb (le_idempotency_key e) ledger_key) (db_ledger db));
    match existing with
    | Some e => if negb (bool_decide (le_bucket_id e = Some bucket_id)) then raise ValueError
                else replay_bucket bucket_id now_
    | None =>
        bucket ← get_bucket bucket_id;
        r ← replay_bucket bucket_id now_;
        _ ← update_bucket bucket_id
              (write_counters (br_expected_reserved r) (br_expected_consumed r) (br_expected_over_limit r)
                 (b_version bucket) now_);
        _ ← append_ledger (bucket_entry None (Some bucket_id) "balance_repair"
                             (br_expected_consumed r - br_stored_consumed r) 0 ledger_key reason now_);
        replay_bucket bucket_id now_
    end.

(** ** Provider bills *)

Record BillingStatement := {
  bs_provider : string;
  bs_statement_id : string;
  bs_operation_id : string;
  bs_idempotency_key : string;
  bs_billed_at : option Datetime;
  bs_billed_credits_micro : option Z;
  bs_billed_tokens : gmap string Z;
}.

Definition set_billing (db : DB) (l : list BillingRow) : DB :=
  set_operations db {| ot_credits := ot_credits (db_operations db); ot_role_credits := ot_role_credits (db_operations db);
                       ot_usage_events := ot_usage_events (db_operations db); ot_billing := l |}.
Definition billing_rows (db : DB) : list BillingRow := ot_billing (db_operations db).

Definition usage_of_operation (operation_id provider_ : string) (db : DB) : option UsageEventRow :=
  List.find (fun u => String.eqb (ue_operation_id u) operation_id && String.eqb (ue_provider u) provider_)
    (ot_usage_events (db_operations db)).

(** The status, the local charge and the difference of a bill. *)
Definition local_credits (u : option UsageEventRow) : option Z := u ≫= ue_credits_micro.
Definition billing_status (u : option UsageEventRow) (billed : option Z) : string :=
  match u with
  | None => "unmatched"
  | Some _ => match billed, local_credits u with
              | Some b, Some l => if b =? l then "matched" else "discrepancy"
              | _, _ => "pending"
              end
  end.
Definition billing_difference (u : option UsageEventRow) (billed : option Z) : option Z :=
  match billed, local_credits u with Some b, Some l => Some (b - l) | _, _ => None end.

(** [_billing_values]. *)
Definition new_bill (s : BillingStatement) (billed_at checked_at : Z) (u : option UsageEventRow) (id : string) : BillingRow :=
  {| bl_id := id; bl_provider := bs_provider s; bl_statement_id := bs_statement_id s; bl_operation_id := bs_operation_id s;
     bl_billed_at := billed_at; bl_billed_credits_micro := bs_billed_credits_micro s; bl_billed_tokens := bs_billed_tokens s;
     bl_matched_usage_event_id := ue_id <$> u; bl_local_credits_micro := local_credits u;
     bl_difference_micro := billing_difference u (bs_billed_credits_micro s);
     bl_status := billing_status u (bs_billed_credits_micro s); bl_idempotency_key := bs_idempotency_key s;
     bl_reconciled_at := checked_at |}.

Definition bill_matched (u : option UsageEventRow) (checked_at : Z) (b : BillingRow) : BillingRow :=
  {| bl_id := bl_id b; bl_provider := bl_provider b; bl_statement_id := bl_statement_id b; bl_operation_id := bl_operation_id b;
     bl_billed_at := bl_billed_at b; bl_billed_credits_micro := bl_billed_credits_micro b;
     bl_billed_tokens := bl_billed_tokens b; bl_matched_usage_event_id := ue_id <$> u;
     bl_local_credits_micro := local_credits u; bl_difference_micro := billing_difference u (bl_billed_credits_micro b);
     bl_status := billing_status u (bl_billed_credits_micro b); bl_idempotency_key := bl_idempotency_key b;
     bl_reconciled_at := checked_at |}.
Definition bill_repaired (now_ : Z) (b : BillingRow) : BillingRow :=
  {| bl_id := bl_id b; bl_provider := bl_provider b; bl_statement_id := bl_statement_id b; bl_operation_id := bl_operation_id b;
     bl_billed_at := bl_billed_at b; bl_billed_credits_micro := bl_billed_credits_micro b;
     bl_billed_tokens := bl_billed_tokens b; bl_matched_usage_event_id := bl_matched_usage_event_id b;
     bl_local_credits_micro := bl_local_credits_micro b; bl_difference_micro := bl_difference_micro b;
     bl_status := "repaired"; bl_idempotency_key := bl_idempotency_key b; bl_reconciled_at := now_ |}.

Definition update_bill (id : string) (f : BillingRow -> BillingRow) : Tx () :=
  modify (fun db => set_billing db (kupdate bl_id id f (billing_rows db))).
Definition insert_bill (row : BillingRow) : Tx () := stmt (fun db =>
  if existsb (fun b => String.eqb (bl_id b) (bl_id row) || String.eqb (bl_idempotency_key b) (bl_idempotency_key row)
                       || String.eqb (bl_provider b) (bl_provider row) && String.eqb (bl_statement_id b) (bl_statement_id row))
       (billing_rows db)
  then Err IntegrityError
  else Ok ((), set_billing db (billing_rows db ++ [row]))).
Definition get_bill (id : string) : Tx BillingRow :=
  row ← gets (fun db => kfind bl_id id (billing_rows db));
  first_or NoResultFound row.

(** [_refresh_billing_match]. *)
Definition refresh_billing_match (row : BillingRow) (checked_at : Z) : Tx BillingRow :=
  if String.eqb (bl_status row) "repaired" then mret row
  else
    u ← gets (usage_of_operation (bl_operation_id row) (bl_provider row));
    _ ← update_bill (bl_id row) (bill_matched u checked_at);
    get_bill (bl_id row).

Definition same_bill (s : BillingStatement) (billed_at : Z) (b : BillingRow) : bool :=
  String.eqb (bl_operation_id b) (bs_operation_id s) && (bl_billed_at b =? billed_at)
  && bool_decide (bl_billed_credits_micro b = bs_billed_credits_micro s)
  && bool_decide (bl_billed_tokens b = bs_billed_tokens s).
Definition same_statement (s : BillingStatement) (b : BillingRow) : bool :=
  String.eqb (bl_provider b) (bs_provider s) && String.eqb (bl_statement_id b) (bs_statement_id s).
Definition of_bill_key (s : BillingStatement) (b : BillingRow) : bool :=
  String.eqb (bl_idempotency_key b) (bs_idempotency_key s).

(** A new bill, or the bill another transaction has stored meanwhile. *)
Definition write_bill (s : BillingStatement) (billed_at checked_at : Z) : Tx BillingRow :=
  u ← gets (usage_of_operation (bs_operation_id s) (bs_provider s));
  id ← fresh_uuid;
  let row := new_bill s billed_at checked_at u id in
  inserted ← savepoint (_ ← insert_bill row; mret None)
               (fun e => match e with
                         | IntegrityError =>
                             by_key ← gets (fun db => List.find (of_bill_key s) (billing_rows db));
                             by_statement ← gets (fun db => List.find (same_statement s) (billing_rows db));
                             w ← first_or IntegrityError (match by_key with Some _ => by_key | None => by_statement end);
                             mret (Some w)
                         | _ => raise e
                         end);
  match inserted with
  | None => mret row
  | Some winner => if same_bill s billed_at winner then refresh_billing_match winner checked_at else raise ValueError
  end.

(** [_reconcile_billing_line]. *)
Definition reconcile_billing_line (s : BillingStatement) (checked_at : Z) : Tx BillingRow :=
  if existsb blank [bs_provider s; bs_statement_id s; bs_operation_id s; bs_idempotency_key s] then raise ValueError
  else
    let billed_at := match bs_billed_at s with Some d => stored_utc d | None => checked_at end in
    if match bs_billed_credits_micro s with Some c => c <? 0 | None => false end then raise ValueError
    else if existsb (fun kv : string * Z => kv.2 <? 0) (map_to_list (bs_billed_tokens s)) then raise ValueError
    else
      existing ← gets (fun db => List.find (of_bill_key s) (billing_rows db));
      match existing with
      | Some row => if same_statement s row && same_bill s billed_at row then refresh_billing_match row checked_at
                    else raise ValueError
      | None =>
          by_statement ← gets (fun db => List.find (same_statement s) (billing_rows db));
          match by_statement with
          | Some row => if same_bill s billed_at row then refresh_billing_match row checked_at else raise ValueError
          | None => write_bill s billed_at checked_at
          end
      end.

(** [reconcile_provider_billing]: the items; its counts are counts of their statuses. *)
Fixpoint reconcile_lines (l : list BillingStatement) (checked_at : Z) : Tx (list BillingRow) :=
  match l with
  | [] => mret []
  | s :: l' => item ← reconcile_billing_line s checked_at; items ← reconcile_lines l' checked_at; mret (item :: items)
  end.
Definition reconcile_provider_billing (l : list BillingStatement) (now_value : Datetime) : Tx (list BillingRow) :=
  reconcile_lines l (stored_utc now_value).

(** What a bucket is charged for a difference: never below zero. *)
Definition applied_delta (delta : Z) (bucket : BucketRow) : Z :=
  if delta <? 0 then Z.max (- b_consumed_micro bucket) delta else delta.

(** The loop body of [repair_billing]. *)
Definition repair_billed_bucket (billing_id reason key : string) (reservation_id : option string) (delta now_ : Z)
  (bucket_id : string) : Tx () :=
  found ← gets (fun db => db_buckets db !! bucket_id);
  bucket ← first_or NoResultFound found;
  let applied := applied_delta delta bucket in
  let next_consumed := b_consumed_micro bucket + applied in
  over ← bucket_over_limit bucket next_consumed now_;
  _ ← update_bucket bucket_id (fun b => write_counters (b_reserved_micro b) next_consumed over (b_version bucket) now_ b);
  append_ledger (bucket_entry reservation_id (Some bucket_id) "billing_adjustment" applied applied
                   (bounded_idempotency_key "billing-repair" [billing_id; key; bucket_id]) reason now_).

(** [repair_billing]. *)
Definition repair_billing (billing_id reason key : string) (now_ : Z) : Tx BillingRow :=
  if blank reason || blank key then raise ValueError
  else
    found ← gets (fun db => kfind bl_id billing_id (billing_rows db));
    bill ← first_or KeyError found;
    if String.eqb (bl_status bill) "repaired" then mret bill
    else
      match (if String.eqb (bl_status bill) "discrepancy" then bl_difference_micro bill else None) with
      | None => raise ValueError
      | Some delta =>
          event ← gets (fun db => List.find (fun u => bool_decide (bl_matched_usage_event_id bill = Some (ue_id u)))
                                    (ot_usage_events (db_operations db)));
          u ← first_or ValueError event;
          ids ← gets (fun db => match ue_reservation_id u with
                                | Some (String _ _ as r) => reservation_bucket_ids r db
                                | _ => []
                                end);
          _ ← st_iter (repair_billed_bucket billing_id reason key (ue_reservation_id u) delta now_) ids;
          _ ← update_bill billing_id (bill_repaired now_);
          get_bill billing_id
      end.

(** ** Gifts and resets *)

Inductive credit_kind := Gift | Reset.
Definition operation_name (k : credit_kind) : string := match k with Gift => "gift" | Reset => "reset" end.

Record CreditRequest := {
  cq_owner_type : string;
  cq_owner_id : string;
  cq_bucket_type : string;
  cq_period_start : Datetime;
  cq_period_end : Datetime;
  cq_amount_micro : Z;
  cq_actor_user_id : string;
  cq_reason : string;
  cq_idempotency_key : string;
  cq_effective_from : Datetime;
  cq_expires_at : option Datetime;
  cq_source_id : option string;
}.

Definition set_credits (db : DB) (l : list CreditOperationRow) : DB :=
  set_operations db {| ot_credits := l; ot_role_credits := ot_role_credits (db_operations db);
                       ot_usage_events := ot_usage_events (db_operations db); ot_billing := ot_billing (db_operations db) |}.
Definition credit_rows (db : DB) : list CreditOperationRow := ot_credits (db_operations db).

(** The grant a credit operation asks for. *)
Definition grant_request (k : credit_kind) (source_type : string) (q : CreditRequest) : GrantRequest :=
  {| gq_owner_type := cq_owner_type q; gq_owner_id := cq_owner_id q; gq_bucket_type := cq_bucket_type q;
     gq_period_start := cq_period_start q; gq_period_end := cq_period_end q; gq_allocated_micro := cq_amount_micro q;
     gq_source_type := source_type; gq_created_by := cq_actor_user_id q; gq_reason := cq_reason q;
     gq_idempotency_key := bounded_idempotency_key ("credit-" +:+ operation_name k) [cq_idempotency_key q];
     gq_effective_from := cq_effective_from q; gq_expires_at := cq_expires_at q; gq_source_id := cq_source_id q |}.

(** The owner and the period of a request; this service takes a naive datetime for UTC. *)
Definition credit_scope (q : CreditRequest) (o : OwnerType) (b : BucketType) : Scope :=
  {| sc_owner_type := o; sc_owner_id := cq_owner_id q; sc_bucket_type := b; sc_start := stored_utc (cq_period_start q);
     sc_end := stored_utc (cq_period_end q) |}.

(** [_assert_credit_operation_matches]. *)
Definition credit_matches (k : credit_kind) (q : CreditRequest) (sc : Scope) (row : CreditOperationRow) : bool :=
  String.eqb (co_operation_type row) (operation_name k)
  && in_scope sc (co_owner_type row) (co_owner_id row) (co_bucket_type row) (co_period_start row) (co_period_end row)
  && (co_amount_micro row =? cq_amount_micro q) && String.eqb (co_actor_user_id row) (cq_actor_user_id q)
  && String.eqb (co_reason row) (cq_reason q) && (co_effective_from row =? stored_utc (cq_effective_from q))
  && bool_decide (co_expires_at row = stored_utc <$> cq_expires_at q).

(** [_credit_payload]: the row, and the status of its grant if it has one. *)
Definition credit_payload (row : CreditOperationRow) : Tx (CreditOperationRow * string) :=
  grant ← gets (fun db => kfind gr_id (co_grant_id row) (db_grants db));
  mret (row, match grant with
             | Some g => if String.eqb (gr_status g) "" then "unknown" else gr_status g
             | None => "unknown"
             end).

Definition new_credit (k : credit_kind) (q : CreditRequest) (sc : Scope) (grant_id id : string) : CreditOperationRow :=
  {| co_id := id; co_operation_type := operation_name k; co_owner_type := sc_owner_type sc; co_owner_id := sc_owner_id sc;
     co_bucket_type := sc_bucket_type sc; co_period_start := sc_start sc; co_period_end := sc_end sc;
     co_amount_micro := cq_amount_micro q; co_grant_id := grant_id; co_actor_user_id := cq_actor_user_id q;
     co_reason := cq_reason q; co_effective_from := stored_utc (cq_effective_from q);
     co_expires_at := stored_utc <$> cq_expires_at q; co_idempotency_key := cq_idempotency_key q |}.
Definition of_credit_key (key : string) (row : CreditOperationRow) : bool := String.eqb (co_idempotency_key row) key.

Definition insert_credit (row : CreditOperationRow) : Tx () := stmt (fun db =>
  if existsb (fun c => String.eqb (co_id c) (co_id row) || of_credit_key (co_idempotency_key row) c) (credit_rows db)
  then Err IntegrityError
  else Ok ((), set_credits db (credit_rows db ++ [row]))).

(** A reset takes back every other active grant of the period. *)
Definition replaced_by (sc : Scope) (grant_id : string) (g : GrantRow) : bool :=
  grant_in_scope sc g && grant_active g && negb (String.eqb (gr_id g) grant_id).
Definition replace_grant (q : CreditRequest) (now_ : Z) (g : GrantRow) : Tx () :=
  _ ← update_grant (gr_id g) (grant_closed "expired" None);
  append_ledger (management_row (Some (gr_id g)) "grant_reset" (- gr_allocated_micro g)
                   (bounded_idempotency_key "grant-reset" [cq_idempotency_key q; gr_id g]) (cq_reason q) now_
                   (management_meta None)).
Definition take_back (k : credit_kind) (q : CreditRequest) (sc : Scope) (grant_id : string) (now_ : Z) : Tx () :=
  match k with
  | Gift => mret ()
  | Reset =>
      prior ← gets (fun db => List.filter (replaced_by sc grant_id) (db_grants db));
      st_iter (replace_grant q now_) prior
  end.

Definition write_credit (k : credit_kind) (source_type : string) (q : CreditRequest) (sc : Scope) (now_ : Z)
  : Tx (CreditOperationRow * string) :=
  grant ← create_grant_in_transaction (grant_request k source_type q) now_;
  _ ← take_back k q sc (gr_id grant) now_;
  id ← fresh_uuid;
  let row := new_credit k q sc (gr_id grant) id in
  inserted ← savepoint (_ ← insert_credit row; mret None)
               (fun e => match e with
                         | IntegrityError =>
                             winner ← gets (fun db => List.find (of_credit_key (cq_idempotency_key q)) (credit_rows db));
                             w ← first_or IntegrityError winner;
                             mret (Some w)
                         | _ => raise e
                         end);
  match inserted with
  | None => credit_payload row
  | Some winner => if credit_matches k q sc winner then credit_payload winner else raise ValueError
  end.

(** [_credit_operation], of [gift_credits] and [reset_credits]. *)
Definition credit_operation (k : credit_kind) (source_type : string) (q : CreditRequest) (now_ : Z)
  : Tx (CreditOperationRow * string) :=
  match owner_type_of (cq_owner_type q), bucket_type_of (cq_bucket_type q) with
  | Some o, Some b =>
      if cq_amount_micro q <? 0 then raise ValueError
      else
        let sc := credit_scope q o b in
        existing ← gets (fun db => List.find (of_credit_key (cq_idempotency_key q)) (credit_rows db));
        match existing with
        | Some row => if credit_matches k q sc row then credit_payload row else raise ValueError
        | None => write_credit k source_type q sc now_
        end
  | _, _ => raise ValueError
  end.
Definition gift_credits (q : CreditRequest) (now_ : Z) : Tx (CreditOperationRow * string) :=
  credit_operation Gift "grant" q now_.
Definition reset_credits (q : CreditRequest) (now_ : Z) : Tx (CreditOperationRow * string) :=
  credit_operation Reset "reset" q now_.

(** ** Gifts to a role *)

Record RoleGift := {
  rg_role_code : string;
  rg_bucket_type : string;
  rg_period_start : Datetime;
  rg_period_end : Datetime;
  rg_amount_micro : Z;
  rg_actor_user_id : string;
  rg_reason : string;
  rg_idempotency_key : string;
  rg_effective_from : Datetime;
  rg_expires_at : option Datetime;
}.

Definition set_role_credits (db : DB) (l : list RoleCreditRow) : DB :=
  set_operations db {| ot_credits := ot_credits (db_operations db); ot_role_credits := l;
                       ot_usage_events := ot_usage_events (db_operations db); ot_billing := ot_billing (db_operations db) |}.
Definition role_credit_rows (db : DB) : list RoleCreditRow := ot_role_credits (db_operations db).

(** The gift one member gets. *)
Definition member_gift (g : RoleGift) (role_code user_id : string) : CreditRequest :=
  {| cq_owner_type := "user"; cq_owner_id := user_id; cq_bucket_type := rg_bucket_type g;
     cq_period_start := rg_period_start g; cq_period_end := rg_period_end g; cq_amount_micro := rg_amount_micro g;
     cq_actor_user_id := rg_actor_user_id g; cq_reason := rg_reason g;
     cq_idempotency_key := bounded_idempotency_key "role-gift" [rg_idempotency_key g; role_code; user_id];
     cq_effective_from := rg_effective_from g; cq_expires_at := rg_expires_at g; cq_source_id := Some role_code |}.

Fixpoint gift_members (g : RoleGift) (role_code : string) (now_ : Z) (ids : list string)
  : Tx (list (CreditOperationRow * string)) :=
  match ids with
  | [] => mret []
  | u :: ids' =>
      item ← credit_operation Gift "role" (member_gift g role_code u) now_;
      items ← gift_members g role_code now_ ids';
      mret (item :: items)
  end.

(** [_assert_role_credit_operation_matches]. *)
Definition role_gift_matches (g : RoleGift) (role_code : string) (row : RoleCreditRow) : bool :=
  String.eqb (rc_role_code row) role_code
  && bool_decide (Some (rc_bucket_type row) = bucket_type_of (rg_bucket_type g))
  && (rc_period_start row =? stored_utc (rg_period_start g)) && (rc_period_end row =? stored_utc (rg_period_end g))
  && (rc_amount_micro row =? rg_amount_micro g) && String.eqb (rc_actor_user_id row) (rg_actor_user_id g)
  && String.eqb (rc_reason row) (rg_reason g) && (rc_effective_from row =? stored_utc (rg_effective_from g))
  && bool_decide (rc_expires_at row = stored_utc <$> rg_expires_at g).

Definition insert_role_credit (row : RoleCreditRow) : Tx () := stmt (fun db =>
  if existsb (fun r => String.eqb (rc_idempotency_key r) (rc_idempotency_key row)) (role_credit_rows db)
  then Err IntegrityError
  else Ok ((), set_role_credits db (role_credit_rows db ++ [row]))).

(** [gift_credits_for_role]; [members] are the active users of the role in order, if it is active. *)
Definition gift_credits_for_role (g : RoleGift) (members : option (list string)) (now_ : Z)
  : Tx (list (CreditOperationRow * string)) :=
  let role_code := strip (rg_role_code g) in
  if String.eqb role_code "" || String.eqb (rg_idempotency_key g) "" then raise ValueError
  else
    existing ← gets (fun db => List.find (fun r => String.eqb (rc_idempotency_key r) (rg_idempotency_key g))
                                 (role_credit_rows db));
    match existing with
    | Some row => if role_gift_matches g role_code row then gift_members g role_code now_ (rc_recipient_user_ids row)
                  else raise ValueError
    | None =>
        match members with
        | None | Some [] => raise ValueError
        | Some ids =>
            items ← gift_members g role_code now_ ids;
            b ← lift (or_value_error (bucket_type_of (rg_bucket_type g)));
            _ ← fresh_uuid;
            _ ← insert_role_credit
                  {| rc_role_code := role_code; rc_bucket_type := b; rc_period_start := stored_utc (rg_period_start g);
                     rc_period_end := stored_utc (rg_period_end g); rc_amount_micro := rg_amount_micro g;
                     rc_actor_user_id := rg_actor_user_id g; rc_reason := rg_reason g;
                     rc_effective_from := stored_utc (rg_effective_from g);
                     rc_expires_at := stored_utc <$> rg_expires_at g; rc_idempotency_key := rg_idempotency_key g;
                     rc_recipient_user_ids := ids |};
            mret items
        end
    end.
End operations.
