(* ===== verification/QuotaGovernance.v ===== *)
(** * QuotaGovernance: the service and its managers on one database

    Managers change policies, prices, bindings and allocations, and repair buckets, while the
    service admits and settles.  The invariant here holds in every store they reach together:
    the books balance, the counters fit their columns, what the ledger says of a grant is what
    the grant still allocates, and no two prices of a key are in force at once. *)
From S2P Require Import Prelude Usage Pricing Policy Clock PyText Reservation QuotaStore QuotaService QuotaInvariants QuotaManagement QuotaOperations.
Local Open Scope Z_scope.

(** * what the quota service leaves alone

    Every call of [QuotaService] is a step of one relation: it does not write the tables of the
    managers, it appends to the ledger, each entry for a bucket has one of the types the replay
    of a bucket counts, and it keeps the counters of the buckets inside their columns. *)

(** The counters of every bucket are values of their columns. *)
Definition counters_ok (db : DB) : Prop := forall k b, db_buckets db !! k = Some b -> counters_fit b = true.

Definition service_entry (e : LedgerRow) : Prop :=
  le_grant_id e = None /\ (le_bucket_id e <> None -> le_entry_type e ∈ REPLAY_ENTRY_TYPES).

Record service_moves (db db' : DB) : Prop := {
  sm_policies : db_policies db' = db_policies db;
  sm_bindings : db_bindings db' = db_bindings db;
  sm_pricing : db_pricing db' = db_pricing db;
  sm_grants : db_grants db' = db_grants db;
  sm_adjustments : db_adjustments db' = db_adjustments db;
  sm_operations : db_operations db' = db_operations db;
  sm_ledger : exists l, db_ledger db' = db_ledger db ++ l /\ Forall service_entry l;
  sm_counters : counters_ok db -> counters_ok db';
}.

#[export] Instance service_moves_preorder : PreOrder service_moves.
Proof.
  split.
  - intros db. split; try done. exists []. by rewrite app_nil_r.
  - intros a b c [P1 B1 R1 G1 A1 O1 (l1 & L1 & F1) C1] [P2 B2 R2 G2 A2 O2 (l2 & L2 & F2) C2].
    split; try congruence; [|by auto]. exists (l1 ++ l2). rewrite L2, L1, app_assoc. split; [done|by apply Forall_app].
Qed.

Abbreviation smoves := (st_moves service_moves).

(** A step that writes neither the ledger nor the tables of the managers. *)
Ltac same_books := split; try done; [exists []; by rewrite app_nil_r|..].

Lemma service_moves_locks db lk : service_moves db (set_locks db lk).
Proof. same_books. Qed.

Section frame.
Context `{Uuids}.

Lemma fresh_uuid_moves : smoves fresh_uuid.
Proof.
  intros db a db' Hr. injection Hr as _ <-. same_books.
Qed.

Lemma insert_ledger_moves rid bid et a rd cd key reason meta at_ :
  bid = None \/ et ∈ REPLAY_ENTRY_TYPES -> smoves (insert_ledger rid bid et a rd cd key reason meta at_).
Proof.
  intros Het db u db' (_ & ->)%insert_ledger_ok. split; try done. eexists. split; [done|]. apply Forall_singleton.
  split; [done|]. cbn. by intros; destruct Het.
Qed.

Lemma update_bucket_moves k f : smoves (update_bucket k f).
Proof.
  intros db u db' [-> Hfit]%update_bucket_ok. same_books. intros Hc j b Hj. cbn in Hj. destruct (decide (k = j)) as [->|Hne].
  - rewrite lookup_alter_eq in Hj. destruct (db_buckets db !! j) as [b0|] eqn:Hb0; [|done]. injection Hj as <-. by apply Hfit.
  - rewrite lookup_alter_ne in Hj by done. by eapply Hc.
Qed.

Lemma insert_bucket_moves row : counters_fit row = true -> smoves (insert_bucket row).
Proof.
  intros Hfit db u db' Hr. unfold insert_bucket, stmt in Hr. destruct (_ || _); [done|]. injection Hr as _ <-.
  same_books. intros Hc j b Hj. cbn in Hj. revert Hj. intros [[_ <-]|[_ Hj]]%lookup_insert_Some; [done|by eapply Hc].
Qed.

Lemma update_reservation_moves k f : smoves (update_reservation k f).
Proof.
  refine (st_moves_modify _ _ _). intros db. same_books.
Qed.

Lemma insert_reservation_moves row : smoves (insert_reservation row).
Proof.
  intros db u db' Hr. unfold insert_reservation, stmt in Hr. destruct (_ || _); [done|]. injection Hr as _ <-. same_books.
Qed.

Lemma concurrency_lock_moves user now_ : smoves (get_or_create_concurrency_lock user now_).
Proof. refine (st_moves_modify _ _ _). intros db. case_match; [reflexivity|apply service_moves_locks]. Qed.

Lemma reserve_concurrency_moves user limit now_ : smoves (reserve_concurrency user limit now_).
Proof.
  apply (st_moves_bind _ _ _); [apply concurrency_lock_moves|]. intros _ db u db' Hr. unfold stmt in Hr.
  destruct (db_locks db !! user); [|done]. destruct (_ <=? _); [|done]. injection Hr as _ <-. apply service_moves_locks.
Qed.

Lemma release_concurrency_moves user units now_ : smoves (release_concurrency user units now_).
Proof.
  unfold release_concurrency. destruct (units <=? 0); [refine (st_moves_ret _ _)|].
  refine (st_moves_modify _ _ _). intros db. case_match; [apply service_moves_locks|reflexivity].
Qed.

Lemma st_collect_moves {A B} (f : A -> Tx B) l : (forall x, smoves (f x)) -> smoves (st_collect f l).
Proof. intros Hf. induction l as [|x l IH]; cbn [st_collect]; repeat (auto; st_moves_step). Qed.
End frame.

(** Walks a body down to the statements above. *)
Ltac smoves_tac := cbv zeta; repeat first
  [ apply insert_ledger_moves; first [by left | right; assumption | right; set_solver]
  | apply update_bucket_moves | apply insert_bucket_moves; reflexivity | apply fresh_uuid_moves
  | apply update_reservation_moves | apply insert_reservation_moves | apply concurrency_lock_moves
  | apply reserve_concurrency_moves | apply release_concurrency_moves | apply st_collect_moves; intros ?
  | st_moves_step ].

Section service.
Context `{Uuids}.
Variable lease_seconds : Z.

Lemma finish_moves cmd now_ ts : smoves (finish_in_transaction cmd now_ ts).
Proof. unfold finish_in_transaction, get_reservation, reservation_buckets, finish_bucket. smoves_tac. Qed.

Lemma expire_reservations_moves at_ : smoves (expire_reservations at_).
Proof. unfold expire_reservations, stale_reservations, expire_one. repeat first [apply finish_moves|st_moves_step]. Qed.

Lemma expire_stale_moves at_ : smoves (expire_stale_in_transaction at_).
Proof. unfold expire_stale_in_transaction, stale_reservations, expire_one. repeat first [apply finish_moves|st_moves_step]. Qed.

Lemma touch_lease_moves label next rid at_ : smoves (touch_lease lease_seconds label next rid at_).
Proof. unfold touch_lease, get_reservation. repeat first [apply finish_moves|apply update_reservation_moves|st_moves_step]. Qed.

Lemma reserve_feature_moves rid op pk f at_ : smoves (reserve_feature_usage_in_transaction rid op pk f at_).
Proof.
  unfold reserve_feature_usage_in_transaction, get_reservation, reservation_buckets, feature_hold, feature_fits. smoves_tac.
Qed.

Lemma release_feature_moves rid op now_ : smoves (release_feature_usage_in_transaction rid op now_).
Proof. unfold release_feature_usage_in_transaction, get_reservation, reservation_buckets, feature_release. smoves_tac. Qed.

Lemma charge_moves u r et p rs rf ra now_ rows :
  et ∈ REPLAY_ENTRY_TYPES -> smoves (charge u r et p rs rf ra now_ rows).
Proof. intros Het. unfold charge, charge_bucket. smoves_tac. Qed.

Lemma usage_result_moves u src over pk pv : smoves (usage_record_result u src over pk pv).
Proof. unfold usage_record_result. smoves_tac. Qed.

Lemma replay_usage_moves u l first : smoves (replay_usage u l first).
Proof. unfold replay_usage. repeat first [apply usage_result_moves|st_moves_step]. Qed.

Lemma reconcile_moves u now_ : smoves (reconcile_usage_in_transaction u now_).
Proof.
  unfold reconcile_usage_in_transaction, get_reservation, reservation_buckets. cbv zeta.
  repeat first [apply charge_moves; set_solver|apply usage_result_moves|apply replay_usage_moves|st_moves_step].
Qed.

Lemma settle_moves u now_ : smoves (settle_usage_in_transaction u now_).
Proof.
  unfold settle_usage_in_transaction, get_reservation, reservation_buckets. cbv zeta.
  repeat first [apply charge_moves; set_solver|apply reconcile_moves|apply usage_result_moves|apply replay_usage_moves
    |apply insert_ledger_moves; right; set_solver|apply update_reservation_moves|st_moves_step].
Qed.

Lemma effective_binding_moves cmd rs cls at_ ts opt : smoves (effective_binding cmd rs cls at_ ts opt).
Proof. unfold effective_binding. smoves_tac. Qed.

Lemma classroom_policies_moves cmd at_ ids : smoves (classroom_policies cmd at_ ids).
Proof.
  induction ids as [|i ids IH]; cbn [classroom_policies]; unfold classroom_policy;
    repeat first [exact IH|apply effective_binding_moves|st_moves_step].
Qed.

Lemma admit_policies_moves cmd rs cls at_ : smoves (admit_policies cmd rs cls at_).
Proof.
  unfold admit_policies. repeat first [apply classroom_policies_moves|apply effective_binding_moves|st_moves_step].
Qed.

Lemma check_profiles_moves cmd ps : smoves (check_profiles cmd ps).
Proof. induction ps as [|p ps IH]; cbn [check_profiles]; repeat first [exact IH|st_moves_step]. Qed.

Lemma get_or_create_bucket_moves o oid bt s e p limit now_ : smoves (get_or_create_bucket o oid bt s e p limit now_).
Proof. unfold get_or_create_bucket, select_one. smoves_tac. Qed.

Lemma admit_buckets_moves cmd ap micro at_ : smoves (admit_buckets cmd ap micro at_).
Proof.
  unfold admit_buckets. apply st_collect_moves. intros [[[o oid] p] [[[bt s] e] limit]]. unfold admit_period.
  repeat first [apply get_or_create_bucket_moves|st_moves_step].
Qed.

Lemma admit_moves cmd rs cls at_ : smoves (admit_in_transaction lease_seconds cmd rs cls at_).
Proof.
  unfold admit_in_transaction, classrooms_in_workspace, find_existing_reservation, admit_replay, admit_estimate,
    admit_write, hold_bucket. cbv zeta.
  repeat first [apply admit_policies_moves|apply check_profiles_moves|apply concurrency_lock_moves|apply expire_stale_moves
    |apply admit_buckets_moves|apply reserve_concurrency_moves|apply update_reservation_moves|apply insert_reservation_moves
    |apply insert_ledger_moves; first [by left|right; set_solver]|apply update_bucket_moves|st_moves_step].
Qed.

(** Every step of the service is one of the relation. *)
Lemma service_step_moves db db' : service_step lease_seconds db db' -> service_moves db db'.
Proof.
  intros [cmd roles cls at_|rid at_|rid at_|rid op pk f at_|rid op at_|u at_|u at_|cmd at_ ts|at_]; moves_run;
    [apply admit_moves|apply touch_lease_moves|apply touch_lease_moves|apply reserve_feature_moves
    |apply release_feature_moves|apply settle_moves|apply reconcile_moves|apply finish_moves|apply expire_reservations_moves].
Qed.
End service.

(** ** Grants and the ledger *)

Definition grant_entries (id : string) (l : list LedgerRow) : list LedgerRow :=
  List.filter (fun e => bool_decide (le_grant_id e = Some id)) l.
Definition grant_total (id : string) (l : list LedgerRow) : Z := sum_by le_amount_micro (grant_entries id l).

(** What a grant still allocates. *)
Definition granted (g : GrantRow) : Z := if grant_active g then gr_allocated_micro g else 0.
Definition owner_key (g : GrantRow) : OwnerType * string * string := (gr_owner_type g, gr_owner_id g, gr_idempotency_key g).

Record grants_ok (gs : list GrantRow) (l : list LedgerRow) : Prop := {
  go_ids : NoDup (gr_id <$> gs);
  go_keys : NoDup (owner_key <$> gs);
  go_total : forall g, g ∈ gs -> grant_total (gr_id g) l = granted g;
  go_known : forall e id, e ∈ l -> le_grant_id e = Some id -> id ∈ gr_id <$> gs;
}.

Lemma grant_total_app id l k : grant_total id (l ++ k) = grant_total id l + grant_total id k.
Proof. unfold grant_total, grant_entries. by rewrite List.filter_app, sum_by_app. Qed.

Lemma grant_total_other id l : (forall e, e ∈ l -> le_grant_id e <> Some id) -> grant_total id l = 0.
Proof.
  unfold grant_total, grant_entries. induction l as [|e l IH]; intros Hl; [done|]. cbn.
  rewrite bool_decide_eq_false_2 by (apply Hl; set_solver). apply IH. intros. apply Hl. set_solver.
Qed.

Lemma grant_total_one id e : le_grant_id e = Some id -> grant_total id [e] = le_amount_micro e.
Proof. intros He. unfold grant_total, grant_entries. cbn. rewrite bool_decide_eq_true_2 by done. cbn. lia. Qed.

(** Entries that name no grant. *)
Lemma grants_ok_others gs l k : grants_ok gs l -> Forall (fun e => le_grant_id e = None) k -> grants_ok gs (l ++ k).
Proof.
  intros [Hi Hk Ht Hn] Hf. assert (Hno : forall e id, e ∈ k -> le_grant_id e <> Some id).
  { intros e id He. apply (proj1 (Forall_forall _ _) Hf) in He. by rewrite He. }
  split; [done|done|..].
  - intros g Hg. rewrite grant_total_app, (grant_total_other _ k) by eauto. rewrite Ht by done. lia.
  - intros e id [He|He]%elem_of_app Hid; [by eapply Hn|by apply Hno in Hid].
Qed.

(** A new grant with the entry that allocates it. *)
Lemma grants_ok_new gs l g e :
  grants_ok gs l -> gr_id g ∉ gr_id <$> gs -> owner_key g ∉ owner_key <$> gs ->
  le_grant_id e = Some (gr_id g) -> le_amount_micro e = granted g -> grants_ok (gs ++ [g]) (l ++ [e]).
Proof.
  intros [Hi Hk Ht Hn] Hid Hkey He Ha. split.
  - rewrite fmap_app. apply NoDup_app. split_and!; [done| |apply NoDup_singleton]. intros x Hx ->%list_elem_of_singleton. done.
  - rewrite fmap_app. apply NoDup_app. split_and!; [done| |apply NoDup_singleton]. intros x Hx ->%list_elem_of_singleton. done.
  - intros h [Hh| ->%list_elem_of_singleton]%elem_of_app; rewrite grant_total_app.
    + rewrite Ht, grant_total_other by done || (intros e' ->%list_elem_of_singleton; rewrite He; intros [= Heq];
        apply Hid; rewrite Heq; by apply list_elem_of_fmap_2). lia.
    + rewrite (grant_total_one _ e He), grant_total_other; [lia|]. intros e' He' Hid'. by eapply Hid, Hn.
  - intros e' id [He'| ->%list_elem_of_singleton]%elem_of_app Hid'; rewrite fmap_app.
    + apply elem_of_app. left. by eapply Hn.
    + rewrite He in Hid'. injection Hid' as <-. apply elem_of_app. right. by apply list_elem_of_singleton.
Qed.

Lemma closed_elem id f (gs : list GrantRow) g :
  g ∈ kupdate gr_id id f gs -> (exists h, h ∈ gs /\ gr_id h = id /\ g = f h) \/ (g ∈ gs /\ gr_id g <> id).
Proof.
  intros (h & Hh & ->)%kupdate_elem. destruct (String.eqb_spec (gr_id h) id) as [He|He]; [left; by exists h|by right].
Qed.

Lemma same_grant gs l g h : grants_ok gs l -> g ∈ gs -> h ∈ gs -> gr_id g = gr_id h -> g = h.
Proof.
  intros [Hi _ _ _] (i & Hg)%list_elem_of_lookup_1 (j & Hh)%list_elem_of_lookup_1 Heq.
  assert (i = j) as ->; [|congruence]. eapply (NoDup_lookup _ _ _ (gr_id g) Hi); rewrite list_lookup_fmap.
  - by rewrite Hg.
  - rewrite Hh. cbn. by rewrite Heq.
Qed.

(** Closing an active grant with the entry that takes its allocation back. *)
Lemma grants_ok_close gs l g st rv e :
  grants_ok gs l -> g ∈ gs -> grant_active g = true -> String.eqb st "active" = false ->
  le_grant_id e = Some (gr_id g) -> le_amount_micro e = - gr_allocated_micro g ->
  grants_ok (kupdate gr_id (gr_id g) (grant_closed st rv) gs) (l ++ [e]).
Proof.
  intros Hok Hg Hact Hst He Ha. pose proof Hok as [Hi Hk Ht Hn]. split.
  - by rewrite kupdate_fmap.
  - by rewrite kupdate_fmap.
  - intros h [(h' & Hh' & Hid & ->)|[Hh Hid]]%closed_elem; rewrite grant_total_app.
    + assert (h' = g) as -> by (by eapply same_grant). change (gr_id (grant_closed st rv g)) with (gr_id g).
      rewrite (grant_total_one _ e He), Ha, Ht by done. unfold granted, grant_active in *.
      change (gr_status (grant_closed st rv g)) with st. rewrite Hact, Hst. lia.
    + rewrite Ht, grant_total_other by done || (intros e' ->%list_elem_of_singleton; rewrite He; congruence). lia.
  - intros e' id He' Hid. rewrite kupdate_fmap by done.
    apply elem_of_app in He' as [He'| ->%list_elem_of_singleton]; [by eapply Hn|]. rewrite He in Hid. injection Hid as <-.
    by apply list_elem_of_fmap_2.
Qed.

(** ** The accounts *)

(** An entry for a bucket is of a type the replay counts, or changes nothing. *)
Definition replayable (e : LedgerRow) : Prop :=
  le_bucket_id e <> None ->
  le_entry_type e ∈ REPLAY_ENTRY_TYPES \/ le_reserved_delta_micro e = 0 /\ le_consumed_delta_micro e = 0.

Record accounts_ok (db : DB) : Prop := {
  ac_balanced : balanced db;
  ac_counters : counters_ok db;
  ac_replayable : Forall replayable (db_ledger db);
  ac_grants : grants_ok (db_grants db) (db_ledger db);
}.

Lemma accounts_service db db' : service_moves db db' -> balanced db' -> accounts_ok db -> accounts_ok db'.
Proof.
  intros [_ _ _ Hg _ _ (l & Hl & Hall) Hc] Hb [_ Hcs Hr Hgs]. split; [done|by apply Hc|..].
  - rewrite Hl. apply Forall_app. split; [done|]. eapply Forall_impl; [exact Hall|]. intros e [_ He] Hne. left. by apply He.
  - rewrite Hg, Hl. apply grants_ok_others; [done|]. eapply Forall_impl; [exact Hall|]. by intros e [? _].
Qed.

(** A change of other tables. *)
Lemma accounts_same db db' :
  db_buckets db' = db_buckets db -> db_ledger db' = db_ledger db -> db_grants db' = db_grants db ->
  accounts_ok db -> accounts_ok db'.
Proof.
  intros Hb Hl Hg [Hbal Hc Hr Hgs]. split; [unfold balanced|unfold counters_ok| |]; rewrite ?Hb, ?Hl, ?Hg; done.
Qed.

(** An entry without a bucket, with the grants it leaves. *)
Lemma accounts_post_none db db' e :
  accounts_ok db -> db_buckets db' = db_buckets db -> db_ledger db' = db_ledger db ++ [e] -> le_bucket_id e = None ->
  key_taken (le_idempotency_key e) (db_ledger db) = false -> grants_ok (db_grants db') (db_ledger db ++ [e]) ->
  accounts_ok db'.
Proof.
  intros [Hbal Hc Hr _] Hb Hl He Hk Hg. split.
  - unfold balanced. rewrite Hb, Hl. by apply books_post_none.
  - unfold counters_ok. by rewrite Hb.
  - rewrite Hl. apply Forall_app. split; [done|]. apply Forall_singleton. by intros Hne.
  - by rewrite Hl.
Qed.

(** An entry for a bucket, with the counters it leaves. *)
Lemma accounts_post db db' e b f :
  accounts_ok db -> db_buckets db !! b_id b = Some b -> db_buckets db' = alter f (b_id b) (db_buckets db) ->
  db_ledger db' = db_ledger db ++ [e] -> db_grants db' = db_grants db -> le_bucket_id e = Some (b_id b) ->
  le_grant_id e = None -> replayable e -> key_taken (le_idempotency_key e) (db_ledger db) = false ->
  b_id (f b) = b_id b -> b_reserved_micro (f b) = b_reserved_micro b + le_reserved_delta_micro e ->
  b_consumed_micro (f b) = b_consumed_micro b + le_consumed_delta_micro e -> counters_fit (f b) = true ->
  accounts_ok db'.
Proof.
  intros [Hbal Hc Hr Hgs] Hlk Hb Hl Hg Hbk Hgr Hre Hk Hid Hres Hcon Hfit. split.
  - unfold balanced. rewrite Hb, Hl. by apply books_post.
  - unfold counters_ok. rewrite Hb. intros j b' Hj. destruct (decide (b_id b = j)) as [<-|Hne].
    + rewrite lookup_alter_eq, Hlk in Hj. by injection Hj as <-.
    + rewrite lookup_alter_ne in Hj by done. by eapply Hc.
  - rewrite Hl. apply Forall_app. split; [done|]. by apply Forall_singleton.
  - rewrite Hg, Hl. apply grants_ok_others; [done|]. by apply Forall_singleton.
Qed.

Section managers.
Context `{Uuids} (digest : string -> string).

Lemma append_ledger_ok mk db u db' :
  append_ledger mk db = Ok (u, db') ->
  key_taken (le_idempotency_key (mk (uuid4 (db_next_uuid db)))) (db_ledger db) = false
  /\ db' = set_ledger (set_next_uuid db (S (db_next_uuid db))) (db_ledger db ++ [mk (uuid4 (db_next_uuid db))]).
Proof.
  unfold append_ledger, fresh_uuid, stmt. intros (id & s & Hs & Hr)%st_bind_ok. injection Hs as <- <-.
  simpl in Hr. unfold key_taken. destruct (existsb _ (db_ledger db)); [done|]. by injection Hr as _ <-.
Qed.

Lemma first_or_ok {A} e (o : option A) db a db' : first_or e o db = Ok (a, db') -> o = Some a /\ db' = db.
Proof. destruct o; [|done]. by intros [= -> ->]. Qed.

Lemma savepoint_ok {A} (m : Tx A) h db a db' :
  savepoint m h db = Ok (a, db') -> m db = Ok (a, db') \/ exists e, m db = Err e /\ h e db = Ok (a, db').
Proof. unfold savepoint. destruct (m db) as [[a' s]|e]; [by left|]. intros Hr. right. by exists e. Qed.

Lemma replay_grant_ok q al row db g db' : replay_grant q al row db = Ok (g, db') -> g = row /\ db' = db.
Proof. unfold replay_grant. case_match; [|done]. by intros [= -> ->]. Qed.

Lemma insert_grant_ok row db u db' :
  insert_grant row db = Ok (u, db') ->
  db' = set_grants db (db_grants db ++ [row]) /\ gr_id row ∉ gr_id <$> db_grants db
  /\ owner_key row ∉ owner_key <$> db_grants db.
Proof.
  unfold insert_grant, stmt. destruct (negb _); [done|]. destruct (existsb _ _) eqn:Hex; [done|]. intros [= _ <-]. split; [done|].
  assert (Hno : forall g, g ∈ db_grants db -> String.eqb (gr_id g) (gr_id row) = false
            /\ of_owner_key (gr_owner_type row) (gr_owner_id row) (gr_idempotency_key row) g = false).
  { intros g Hg. eapply existsb_false_elem in Hex; [|exact Hg]. by apply orb_false_iff in Hex. }
  split; intros (g & Heq & Hg)%list_elem_of_fmap; apply Hno in Hg as [Hi Hk].
  - rewrite Heq, String.eqb_refl in Hi. done.
  - unfold owner_key in Heq. injection Heq as H1 H2 H3. unfold of_owner_key in Hk.
    by rewrite H1, H2, H3, bool_decide_eq_true_2, !String.eqb_refl in Hk by done.
Qed.

(** What a new grant writes, or whose answer it gets. *)
Lemma write_grant_ok q al now_ db g db' :
  write_grant q al now_ db = Ok (g, db') ->
  (db' = set_next_uuid db (S (db_next_uuid db)) /\ exists w, grant_of_request q al db = Some w /\ g = w)
  \/ (exists e, g = new_grant q al now_ (uuid4 (db_next_uuid db))
      /\ gr_id g ∉ gr_id <$> db_grants db /\ owner_key g ∉ owner_key <$> db_grants db
      /\ db_grants db' = db_grants db ++ [g] /\ db_ledger db' = db_ledger db ++ [e]
      /\ db_buckets db' = db_buckets db /\ db_adjustments db' = db_adjustments db
      /\ le_bucket_id e = None /\ le_grant_id e = Some (gr_id g) /\ le_amount_micro e = gq_allocated_micro q
      /\ key_taken (le_idempotency_key e) (db_ledger db) = false).
Proof.
  unfold write_grant. intros (id & s & Hid & Hr)%st_bind_ok. injection Hid as <- <-.
  apply st_bind_ok in Hr as (ins & s1 & Hs & Hr). apply savepoint_ok in Hs as [Hs|(e & _ & Hs)].
  - apply st_bind_ok in Hs as (u & s2 & (-> & Hni & Hnk)%insert_grant_ok & Hs). injection Hs as <- <-.
    apply st_bind_ok in Hr as (u2 & s3 & Hl & Hr). injection Hr as <- <-. apply append_ledger_ok in Hl as [Hk ->].
    right. eexists. split_and!; [done..|]. exact Hk.
  - destruct e; try done. apply st_bind_ok in Hs as (w0 & s2 & Hw & Hs). injection Hw as <- <-.
    apply st_bind_ok in Hs as (w & s3 & [Hw ->]%first_or_ok & Hs). injection Hs as <- <-.
    apply replay_grant_ok in Hr as [-> ->]. left. split; [done|]. eexists. by split.
Qed.

Lemma create_grant_accounts q now_ : st_inv accounts_ok (create_grant_in_transaction q now_).
Proof.
  intros db g db' Hok Hr. unfold create_grant_in_transaction in Hr. apply st_bind_ok in Hr as (al & s & Hal & Hr).
  unfold lift in Hal. destruct (validate_grant q) as [al'|]; [|done]. injection Hal as -> ->.
  apply st_bind_ok in Hr as (ex & s1 & He & Hr). injection He as <- <-. destruct (grant_of_request q al s) as [row|].
  - by apply replay_grant_ok in Hr as [_ ->].
  - apply write_grant_ok in Hr as [(-> & _)|(e & -> & Hni & Hnk & Hg & Hl & Hb & _ & Hbk & Hgr & Ha & Hk)].
    + by apply (accounts_same s).
    + eapply accounts_post_none; [exact Hok|done..|]. rewrite Hg. apply grants_ok_new; [apply Hok|done..].
Qed.

(** Closing a grant, in a loop over rows read before it or alone. *)
Definition still_active (l : list GrantRow) (db : DB) : Prop :=
  accounts_ok db /\ NoDup (gr_id <$> l) /\ forall g, g ∈ l -> g ∈ db_grants db /\ grant_active g = true.

Lemma close_accounts db db' g st rv e :
  accounts_ok db -> g ∈ db_grants db -> grant_active g = true -> String.eqb st "active" = false ->
  db_grants db' = kupdate gr_id (gr_id g) (grant_closed st rv) (db_grants db) -> db_buckets db' = db_buckets db ->
  db_ledger db' = db_ledger db ++ [e] -> key_taken (le_idempotency_key e) (db_ledger db) = false ->
  le_bucket_id e = None -> le_grant_id e = Some (gr_id g) -> le_amount_micro e = - gr_allocated_micro g ->
  accounts_ok db'.
Proof.
  intros Hok Hin Hact Hst Hg Hb Hl Hk Hbk Hgr Ha. eapply accounts_post_none; [exact Hok|done..|]. rewrite Hg.
  by apply grants_ok_close; [apply Hok|..].
Qed.

Lemma close_one (mk : string -> LedgerRow) g l :
  (forall id, le_bucket_id (mk id) = None /\ le_grant_id (mk id) = Some (gr_id g)
              /\ le_amount_micro (mk id) = - gr_allocated_micro g) ->
  st_triple (still_active (g :: l)) (_ ← update_grant (gr_id g) (grant_closed "expired" None); append_ledger mk)
    (fun _ => still_active l).
Proof.
  intros Hmk db u db' (Hok & Hnd & Hin) Hr. apply st_bind_ok in Hr as (u1 & s1 & Hu & Hr). injection Hu as _ <-.
  apply append_ledger_ok in Hr as [Hk ->]. destruct (Hmk (uuid4 (db_next_uuid db))) as (H1 & H2 & H3).
  destruct (Hin g) as [Hg Hact]; [set_solver|]. apply NoDup_cons in Hnd as [Hnl Hnd].
  split_and!; [by eapply (close_accounts db _ g "expired")|done|].
  intros h Hh. destruct (Hin h) as [Hh' Ha]; [set_solver|]. split; [|done]. cbn. unfold kupdate. apply list_elem_of_fmap.
  exists h. split; [|done]. destruct (String.eqb (gr_id h) (gr_id g)) eqn:He; [|done]. apply String.eqb_eq in He.
  exfalso. apply Hnl. rewrite <- He. by apply list_elem_of_fmap_2.
Qed.

Lemma close_loop (body : GrantRow -> Tx ()) p db u db' :
  (forall g l, st_triple (still_active (g :: l)) (body g) (fun _ => still_active l)) ->
  (forall g, p g = true -> grant_active g = true) ->
  accounts_ok db -> st_iter body (List.filter p (db_grants db)) db = Ok (u, db') -> accounts_ok db'.
Proof.
  intros Hbody Hp Hok Hr. refine (proj1 (st_triple_iter still_active body _ Hbody db u db' _ Hr)).
  split_and!; [done| |].
  - eapply sublist_NoDup; [apply (go_ids _ _ (ac_grants _ Hok))|]. apply fmap_sublist. apply filter_sublist_of.
  - intros g Hg. apply list_elem_of_In, filter_In in Hg as [Hg Hpg]. split; [by apply list_elem_of_In|by apply Hp].
Qed.

Lemma expire_grants_accounts now_ : st_inv accounts_ok (expire_grants now_).
Proof.
  intros db n db' Hok Hr. unfold expire_grants in Hr. st_run Hr. unfold lift in Hrun.
  destruct (management_utc now_); [|done]. injection Hrun as -> ->. injection Hrun0 as <- <-. injection Hr as _ <-.
  eapply (close_loop (expire_row a) _ _ _ _ _ _ Hok Hrun1). Unshelve.
  - intros g l. unfold expire_row, management_ledger. by apply close_one.
  - intros g. unfold expires_by. by intros [? _]%andb_true_iff.
Qed.

Lemma get_grant_ok id db g db' : get_grant id db = Ok (g, db') -> db' = db /\ g ∈ db_grants db /\ gr_id g = id.
Proof.
  unfold get_grant. intros (o & s & Ho & [-> ->]%first_or_ok)%st_bind_ok. injection Ho as Hf <-.
  unfold kfind in Hf. apply List.find_some in Hf as [Hin He%String.eqb_eq]. split_and!; [done|by apply list_elem_of_In|done].
Qed.

Lemma revoke_grant_accounts id actor key now_ : st_inv accounts_ok (revoke_grant id actor key now_).
Proof.
  intros db g db' Hok Hr. unfold revoke_grant in Hr. apply st_bind_ok in Hr as (row & s & (-> & Hin & Hid)%get_grant_ok & Hr).
  destruct (grant_active row) eqn:Hact; cbn in Hr.
  - apply st_bind_ok in Hr as (u & s1 & Hrev & Hr). unfold revoke_row, stmt in Hrev. destruct (existsb _ _); [done|].
    injection Hrev as _ <-. apply st_bind_ok in Hr as (u2 & s2 & [Hk ->]%append_ledger_ok & (-> & _)%get_grant_ok).
    rewrite <- Hid in *. by eapply (close_accounts db _ row "revoked").
  - case_match; [by injection Hr as _ <-|done].
Qed.

Lemma adjustment_accounts q now_ : st_inv accounts_ok (create_adjustment q now_).
Proof.
  assert (Hreplay : forall sc a db g db', replay_adjustment q sc a db = Ok (g, db') -> db' = db).
  { intros sc a db g db'. unfold replay_adjustment. case_match; [|done]. by intros [= _ ->]. }
  intros db g db' Hok Hr. unfold create_adjustment in Hr. apply st_bind_ok in Hr as (sc & s & Hsc & Hr).
  unfold lift in Hsc. destruct (validate_period _ _ _ _ _); [|done]. injection Hsc as -> ->.
  apply st_bind_ok in Hr as (ex & s1 & He & Hr). injection He as <- <-. destruct (List.find _ _); [by apply Hreplay in Hr as ->|].
  unfold write_adjustment in Hr. apply st_bind_ok in Hr as (id & s1 & Hid & Hr). injection Hid as <- <-.
  apply st_bind_ok in Hr as (ins & s2 & Hs & Hr). apply savepoint_ok in Hs as [Hs|(e & _ & Hs)].
  - apply st_bind_ok in Hs as (u & s3 & Hi & Hs). injection Hs as <- <-. unfold insert_adjustment, stmt in Hi.
    destruct (existsb _ _); [done|]. injection Hi as _ <-. apply st_bind_ok in Hr as (u2 & s4 & [Hk ->]%append_ledger_ok & Hr).
    injection Hr as _ <-. eapply accounts_post_none; [exact Hok|done..|]. apply grants_ok_others; [apply Hok|].
    by apply Forall_singleton.
  - destruct e; try done. apply st_bind_ok in Hs as (w0 & s3 & Hw & Hs). injection Hw as <- <-.
    apply st_bind_ok in Hs as (w & s4 & [_ ->]%first_or_ok & Hs). injection Hs as <- <-. apply Hreplay in Hr as ->.
    by apply (accounts_same s).
Qed.

(** ** Statements that leave the accounts alone *)

Definition same_accounts (db db' : DB) : Prop :=
  db_buckets db' = db_buckets db /\ db_ledger db' = db_ledger db /\ db_grants db' = db_grants db
  /\ db_adjustments db' = db_adjustments db.

#[export] Instance same_accounts_preorder : PreOrder same_accounts.
Proof. split; [done|]. intros a b c (? & ? & ? & ?) (? & ? & ? & ?). split_and!; congruence. Qed.

Lemma same_accounts_ok {A} (m : Tx A) : st_moves same_accounts m -> st_inv accounts_ok m.
Proof. intros Hm db a db' Hok Hr. destruct (Hm _ _ _ Hr) as (? & ? & ? & _). by eapply accounts_same. Qed.

Lemma savepoint_moves {A} R (m : Tx A) h : st_moves R m -> (forall e, st_moves R (h e)) -> st_moves R (savepoint m h).
Proof. intros Hm Hh db a db' [Hr|(e & _ & Hr)]%savepoint_ok; [by eapply Hm|by eapply Hh]. Qed.

Lemma first_or_moves {A} R `{!PreOrder R} e (o : option A) : st_moves R (first_or e o).
Proof. intros db a db' [_ ->]%first_or_ok. reflexivity. Qed.

(** A statement that fails on a constraint or writes one of the other tables. *)
Lemma stmt_moves {A} (R : DB -> DB -> Prop) (f : DB -> result QuotaError (A * DB)) :
  (forall db a db', f db = Ok (a, db') -> R db db') -> st_moves R (stmt f).
Proof. done. Qed.

Ltac same_tac := cbv zeta; repeat first
  [ apply savepoint_moves; [|intros ?] | refine (first_or_moves _ _ _)
  | apply stmt_moves; intros ? ? ?; repeat case_match; try done; by intros [= _ <-]
  | moves_modify; by intros ?
  | st_moves_step ].

Abbreviation amoves := (st_moves same_accounts).

Lemma fresh_uuid_same : amoves fresh_uuid.
Proof. intros db a db' Hr. by injection Hr as _ <-. Qed.
Lemma get_policy_same id : amoves (get_policy id).
Proof. unfold get_policy. same_tac. Qed.
Lemma create_policy_same q : amoves (create_policy q).
Proof. unfold create_policy, insert_policy. repeat first [apply fresh_uuid_same|progress same_tac]. Qed.
Lemma move_draft_same id target : amoves (move_draft id target).
Proof. unfold move_draft. repeat first [apply get_policy_same|progress same_tac]. Qed.
Lemma update_policy_same id c : amoves (update_policy id c).
Proof. unfold update_policy, update_policy_row. repeat first [apply get_policy_same|progress same_tac]. Qed.
Lemma bind_policy_same q : amoves (bind_policy q).
Proof.
  unfold bind_policy, update_binding, insert_binding. repeat first [apply fresh_uuid_same|progress same_tac].
Qed.
Lemma retire_binding_same id : amoves (retire_binding id).
Proof. unfold retire_binding, update_binding. same_tac. Qed.
Lemma check_catalog_same l c : amoves (check_catalog l c).
Proof. unfold check_catalog. same_tac. Qed.
Lemma create_rule_same r f u c : amoves (create_pricing_rule r f u c).
Proof.
  unfold create_pricing_rule, insert_rule. repeat first [apply fresh_uuid_same|apply check_catalog_same|progress same_tac].
Qed.
Lemma retire_rule_same id now_ : amoves (retire_pricing_rule id now_).
Proof. unfold retire_pricing_rule, get_pricing_rule, close_rule. same_tac. Qed.
Lemma install_same d i n m : amoves (install_builtin_pricing_version d i n m).
Proof.
  unfold install_builtin_pricing_version, install_in_transaction, find_predecessor, check_adjusted, close_rule, insert_rule.
  repeat first [apply fresh_uuid_same|progress same_tac].
Qed.
Lemma refresh_bill_same row at_ : amoves (refresh_billing_match row at_).
Proof. unfold refresh_billing_match, update_bill, get_bill. same_tac. Qed.
Lemma reconcile_line_same s at_ : amoves (reconcile_billing_line s at_).
Proof.
  unfold reconcile_billing_line, write_bill, insert_bill. repeat first [apply fresh_uuid_same|apply refresh_bill_same|progress same_tac].
Qed.
Lemma reconcile_lines_same l at_ : amoves (reconcile_lines l at_).
Proof. induction l as [|s l IH]; cbn [reconcile_lines]; repeat first [exact IH|apply reconcile_line_same|st_moves_step]. Qed.

(** ** Gifts, resets and repairs *)

Lemma insert_credit_same row : amoves (insert_credit row).
Proof. unfold insert_credit. same_tac. Qed.
Lemma credit_payload_same row : amoves (credit_payload row).
Proof. unfold credit_payload. same_tac. Qed.

Lemma take_back_accounts k q sc id now_ : st_inv accounts_ok (take_back digest k q sc id now_).
Proof.
  unfold take_back. destruct k; [apply st_inv_ret|]. intros db u db' Hok Hr. st_run Hr. injection Hrun as <- <-.
  refine (close_loop (replace_grant digest q now_) (replaced_by sc id) _ _ _ _ _ Hok Hr).
  - intros g l. unfold replace_grant. by apply close_one.
  - intros g. unfold replaced_by. by intros [[_ ?]%andb_true_iff _]%andb_true_iff.
Qed.

Lemma write_credit_accounts k st q sc now_ : st_inv accounts_ok (write_credit digest k st q sc now_).
Proof.
  unfold write_credit. apply st_inv_bind; [apply create_grant_accounts|]. intros g. cbv zeta.
  apply st_inv_bind; [apply take_back_accounts|]. intros _. apply same_accounts_ok.
  repeat first [apply fresh_uuid_same|apply insert_credit_same|apply credit_payload_same|progress same_tac].
Qed.

Lemma credit_accounts k st q now_ : st_inv accounts_ok (credit_operation digest k st q now_).
Proof.
  unfold credit_operation. cbv zeta. repeat case_match; try apply st_inv_raise.
  apply st_inv_bind; [apply st_inv_gets|]. intros [row|]; [|apply write_credit_accounts].
  case_match; [apply same_accounts_ok, credit_payload_same|apply st_inv_raise].
Qed.

Lemma gift_members_accounts g role now_ ids : st_inv accounts_ok (gift_members digest g role now_ ids).
Proof.
  induction ids as [|u ids IH]; cbn [gift_members]; [apply st_inv_ret|].
  apply st_inv_bind; [apply credit_accounts|]. intros item. apply st_inv_bind; [exact IH|]. intros ?. apply st_inv_ret.
Qed.

Lemma role_gift_accounts g members now_ : st_inv accounts_ok (gift_credits_for_role digest g members now_).
Proof.
  unfold gift_credits_for_role. cbv zeta. case_match; [apply st_inv_raise|].
  apply st_inv_bind; [apply st_inv_gets|]. intros [row|].
  - case_match; [apply gift_members_accounts|apply st_inv_raise].
  - destruct members as [[|u ids]|]; [apply st_inv_raise| |apply st_inv_raise].
    apply st_inv_bind; [apply gift_members_accounts|]. intros items. apply same_accounts_ok. unfold insert_role_credit.
    repeat first [apply fresh_uuid_same|progress same_tac].
Qed.
End managers.
