(* ===== verification/QuotaPrices.v ===== *)
(** * QuotaPrices: at most one price of a key at any instant

    The rules of a key never overlap, retired ones included: every change of the table is
    checked against the rows that are there, so the service finds at most one active rule and
    the catalogue of all rows is one [PricingCatalog] accepts. *)
From S2P Require Import Prelude Usage Pricing Policy Clock PyText Reservation QuotaStore QuotaService QuotaInvariants QuotaManagement QuotaOperations QuotaGovernance.
Local Open Scope Z_scope.

(** * replay, repair and the database all its writers reach

    The replay of a bucket recomputes what the books hold, so in a governed store it agrees with
    them and a repair changes nothing; where the counters were overwritten from outside, a
    repair restores them.  [manager_step] adds the managers' calls to the service's steps. *)

(** ** Replay *)

Lemma replay_sum f db k :
  Forall replayable (db_ledger db) ->
  (forall e, le_reserved_delta_micro e = 0 /\ le_consumed_delta_micro e = 0 -> f e = 0) ->
  sum_by f (replay_entries k db) = sum_by f (entries_of k (db_ledger db)).
Proof.
  intros Hr Hf. apply sum_filter_and. eapply Forall_impl; [exact Hr|]. intros e He Hk%bool_decide_eq_true_1.
  destruct He as [He|He]; [by rewrite Hk|left|right; by apply Hf]. by apply bool_decide_eq_true_2.
Qed.

Lemma bucket_over_readonly b c at_ db o db' : bucket_over_limit b c at_ db = Ok (o, db') -> db' = db.
Proof.
  unfold bucket_over_limit. destruct (b_limit_micro b); [|by intros [= _ ->]]. intros Hr. st_run Hr.
  apply first_or_ok in Hrun1 as [_ ->]. injection Hrun as _ <-. injection Hrun0 as _ <-. by injection Hr as _ <-.
Qed.

Lemma get_bucket_ok id db b db' : get_bucket id db = Ok (b, db') -> db' = db /\ db_buckets db !! id = Some b.
Proof. unfold get_bucket. intros (o & s & Ho & [-> ->]%first_or_ok)%st_bind_ok. by injection Ho as -> ->. Qed.

Lemma replay_bucket_ok k at_ db r db' :
  replay_bucket k at_ db = Ok (r, db') ->
  db' = db /\ br_bucket_id r = k
  /\ br_expected_reserved r = Z.max 0 (sum_by le_reserved_delta_micro (replay_entries k db))
  /\ br_expected_consumed r = Z.max 0 (sum_by le_consumed_delta_micro (replay_entries k db))
  /\ exists b, db_buckets db !! k = Some b /\ br_stored_reserved r = b_reserved_micro b
               /\ br_stored_consumed r = b_consumed_micro b
               /\ bucket_over_limit b (br_expected_consumed r) at_ db = Ok (br_expected_over_limit r, db)
               /\ br_needs_repair r = negb (b_consumed_micro b =? br_expected_consumed r)
                                      || negb (b_reserved_micro b =? br_expected_reserved r)
                                      || xorb (b_over_limit b) (br_expected_over_limit r).
Proof.
  unfold replay_bucket. cbv zeta. intros (b & s & [-> Hb]%get_bucket_ok & Hr)%st_bind_ok.
  apply st_bind_ok in Hr as (es & s & He & Hr). injection He as <- <-.
  apply st_bind_ok in Hr as (o & s & Ho & Hr). pose proof (bucket_over_readonly _ _ _ _ _ _ Ho) as ->.
  injection Hr as <- <-. cbn. split_and!; [done..|]. by exists b.
Qed.

(** In balanced books the replay finds the stored counters. *)
Lemma replay_books k at_ db r db' :
  accounts_ok db -> replay_bucket k at_ db = Ok (r, db') ->
  br_expected_reserved r = br_stored_reserved r /\ br_expected_consumed r = br_stored_consumed r.
Proof.
  intros [[Hk Hres Hcon _ _] Hc Hrep _] (_ & _ & -> & -> & b & Hb & -> & -> & _)%replay_bucket_ok.
  rewrite !replay_sum by (done || by intros e [? ?]). rewrite <- (Hres _ _ Hb), <- (Hcon _ _ Hb).
  apply Hc in Hb. unfold counters_fit, unsigned in Hb. lia.
Qed.

Section audit.
Context `{Uuids} (digest : string -> string).

(** ** Repair *)

(** What a repair that was not done before writes. *)
Definition repaired (r : BucketReplay) (ver now_ : Z) : BucketRow -> BucketRow :=
  write_counters (br_expected_reserved r) (br_expected_consumed r) (br_expected_over_limit r) ver now_.

Lemma repair_run k reason key now_ db r db' :
  repair_bucket digest k reason key now_ db = Ok (r, db') ->
  (db' = db /\ key_taken (bounded_idempotency_key digest "balance-repair" [key]) (db_ledger db) = true)
  \/ exists b r0 e,
    db_buckets db !! k = Some b /\ replay_bucket k now_ db = Ok (r0, db)
    /\ key_taken (le_idempotency_key e) (db_ledger db) = false
    /\ le_bucket_id e = Some k /\ le_grant_id e = None
    /\ le_reserved_delta_micro e = 0 /\ le_consumed_delta_micro e = 0
    /\ counters_fit (repaired r0 (b_version b) now_ b) = true
    /\ db' = set_ledger (set_next_uuid (set_buckets db (alter (repaired r0 (b_version b) now_) k (db_buckets db)))
                (S (db_next_uuid db))) (db_ledger db ++ [e])
    /\ replay_bucket k now_ db' = Ok (r, db').
Proof.
  unfold repair_bucket. cbv zeta. destruct (_ || _); [done|]. intros (ex & s & He & Hr)%st_bind_ok. injection He as <- <-.
  destruct (List.find _ _) eqn:Hf.
  - destruct (negb _); [done|]. left. apply replay_bucket_ok in Hr as [-> _]. split; [done|].
    apply List.find_some in Hf. apply existsb_exists. by eexists.
  - right. apply st_bind_ok in Hr as (b & s1 & [-> Hb]%get_bucket_ok & Hr).
    apply st_bind_ok in Hr as (r0 & s1 & Hr0 & Hr). pose proof (replay_bucket_ok _ _ _ _ _ Hr0) as [-> _].
    apply st_bind_ok in Hr as (u & s2 & [-> Hfit]%update_bucket_ok & Hr).
    apply st_bind_ok in Hr as (u2 & s3 & [Hk ->]%append_ledger_ok & Hr). cbn in Hk.
    pose proof (replay_bucket_ok _ _ _ _ _ Hr) as [-> _].
    exists b, r0, (bucket_entry None (Some k) "balance_repair" (br_expected_consumed r0 - br_stored_consumed r0) 0
      (bounded_idempotency_key digest "balance-repair" [key]) reason now_ (uuid4 (db_next_uuid db))).
    split_and!; first [exact Hk|by apply Hfit|exact Hr|done].
Qed.

(** A repair finds the counters the ledger accounts for, whatever is stored. *)
Lemma repair_accounts db k b r0 at_ db1 f e ver :
  accounts_ok db -> db_buckets db !! k = Some b -> db_ledger db1 = db_ledger db -> db_grants db1 = db_grants db ->
  db_buckets db1 = alter f k (db_buckets db) -> (forall b, b_id (f b) = b_id b) ->
  replay_bucket k at_ db1 = Ok (r0, db1) -> key_taken (le_idempotency_key e) (db_ledger db) = false ->
  le_bucket_id e = Some k -> le_grant_id e = None -> le_reserved_delta_micro e = 0 -> le_consumed_delta_micro e = 0 ->
  br_expected_reserved r0 = b_reserved_micro b /\ br_expected_consumed r0 = b_consumed_micro b
  /\ accounts_ok (set_ledger (set_next_uuid (set_buckets db1 (alter (repaired r0 ver at_) k (db_buckets db1)))
                     (S (db_next_uuid db1))) (db_ledger db1 ++ [e])).
Proof.
  intros Hok Hb Hl Hg Hbs Hf Hr0 Hk Hbk Hgr Hrd Hcd. pose proof Hok as [[Hkey Hres Hcon _ _] Hc Hrep _].
  assert (He : br_expected_reserved r0 = b_reserved_micro b /\ br_expected_consumed r0 = b_consumed_micro b).
  { apply replay_bucket_ok in Hr0 as (_ & _ & -> & -> & _). unfold replay_entries. rewrite Hl.
    change (List.filter _ (db_ledger db)) with (replay_entries k db). rewrite !replay_sum by (done || by intros ? [? ?]).
    rewrite <- (Hres _ _ Hb), <- (Hcon _ _ Hb). apply Hc in Hb. unfold counters_fit, unsigned in Hb. lia. }
  split_and!; [apply He..|]. destruct He as [He1 He2]. assert (b_id b = k) as <- by eauto.
  eapply (accounts_post db _ e b (repaired r0 ver at_ ∘ f)); [done|done|cbn; by rewrite Hbs, alter_alter_eq|cbn; by rewrite Hl
    |done|done|done|by right|done|cbn; by rewrite Hf|cbn; lia|cbn; lia|].
  specialize (Hc _ _ Hb). unfold counters_fit in *. cbn. by rewrite He1, He2.
Qed.

Lemma repair_bucket_accounts k reason key now_ : st_inv accounts_ok (repair_bucket digest k reason key now_).
Proof.
  intros db r db' Hok [[-> _]|(b & r0 & e & Hb & Hr0 & Hk & Hbk & Hg & Hrd & Hcd & _ & -> & _)]%repair_run; [done|].
  eapply (repair_accounts db k b r0 now_ db id); try done. cbn. by rewrite alter_id.
Qed.

(** ** Bills *)

Lemma billed_bucket_accounts id reason key rid delta now_ k :
  st_inv accounts_ok (repair_billed_bucket digest id reason key rid delta now_ k).
Proof.
  intros db u db' Hok Hr. unfold repair_billed_bucket in Hr. cbv zeta in Hr.
  apply st_bind_ok in Hr as (o & s & Ho & Hr). injection Ho as <- <-.
  apply st_bind_ok in Hr as (b & s & [Hb ->]%first_or_ok & Hr).
  apply st_bind_ok in Hr as (over & s & ->%bucket_over_readonly & Hr).
  apply st_bind_ok in Hr as (u1 & s & [-> Hfit]%update_bucket_ok & Hr). apply append_ledger_ok in Hr as [Hk ->].
  assert (b_id b = k) as <- by (eapply bk_key; [apply Hok|done]).
  eapply (accounts_post db _ _ b); [done|done|cbn; reflexivity|cbn; reflexivity|done..| |done|done| | |]; cbn -[counters_fit].
  - intros _. left. set_solver.
  - lia.
  - lia.
  - by apply Hfit.
Qed.

Lemma repair_billing_accounts id reason key now_ : st_inv accounts_ok (repair_billing digest id reason key now_).
Proof.
  unfold repair_billing. destruct (_ || _); [apply st_inv_raise|]. apply st_inv_bind; [apply st_inv_gets|]. intros found.
  apply st_inv_bind; [intros ???? [_ ->]%first_or_ok; done|]. intros bill. case_match; [apply st_inv_ret|].
  destruct (if String.eqb (bl_status bill) "discrepancy" then _ else _) as [delta|]; [|apply st_inv_raise].
  apply st_inv_bind; [apply st_inv_gets|]. intros event.
  apply st_inv_bind; [intros ???? [_ ->]%first_or_ok; done|]. intros u.
  apply st_inv_bind; [apply st_inv_gets|]. intros ids.
  apply st_inv_bind; [apply st_inv_iter; intros; apply billed_bucket_accounts|]. intros _.
  apply same_accounts_ok. unfold update_bill, get_bill. repeat first [refine (first_or_moves _ _ _)|moves_modify; by intros ?|st_moves_step].
Qed.
End audit.

Definition version_key (p : PricingRuleRow) : string * string := (rule_key (prr_rule p), rule_version (prr_rule p)).

Record prices_ok (l : list PricingRuleRow) : Prop := {
  pr_ids : NoDup (prr_id <$> l);
  pr_versions : NoDup (version_key <$> l);
  pr_valid : forall p, p ∈ l -> rule_valid (prr_rule p);
  pr_disjoint : forall p q at_, p ∈ l -> q ∈ l -> rule_key (prr_rule p) = rule_key (prr_rule q) ->
    rule_active_at at_ (prr_rule p) = true -> rule_active_at at_ (prr_rule q) = true -> prr_rule p = prr_rule q;
}.

Lemma same_price l p q : prices_ok l -> p ∈ l -> q ∈ l -> version_key p = version_key q -> p = q.
Proof.
  intros [_ Hv _ _] (i & Hp)%list_elem_of_lookup_1 (j & Hq)%list_elem_of_lookup_1 Heq.
  assert (i = j) as ->; [|congruence]. eapply (NoDup_lookup _ _ _ (version_key p) Hv); rewrite list_lookup_fmap.
  - by rewrite Hp.
  - rewrite Hq. cbn. by rewrite Heq.
Qed.

Lemma same_rule l p q : prices_ok l -> p ∈ l -> q ∈ l -> prr_id p = prr_id q -> p = q.
Proof.
  intros [Hi _ _ _] Hp Hq Heq. pose proof (kfind_in prr_id _ _ p Hi Hp Heq) as H1.
  pose proof (kfind_in prr_id _ _ q Hi Hq eq_refl) as H2. congruence.
Qed.

(** ** Catalogues *)

(** An accepted catalogue has one active rule of a key. *)
Lemma catalog_one rules cat k at_ r s :
  Forall rule_valid rules -> PricingCatalog rules = Ok cat -> r ∈ rules -> s ∈ rules -> rule_key r = k -> rule_key s = k ->
  rule_active_at at_ r = true -> rule_active_at at_ s = true -> r = s.
Proof.
  intros Hv Hc Hr Hs Hkr Hks Har Has.
  assert (H1 : active_rule cat (Some k) at_ = Ok r) by (by apply (active_rule_iff rules)).
  assert (H2 : active_rule cat (Some k) at_ = Ok s) by (by apply (active_rule_iff rules)). congruence.
Qed.

Lemma group_rules_lookup rules (m : RulesByKey) k :
  default [] (foldl (fun (m : RulesByKey) r => <[rule_key r := default [] (m !! rule_key r) ++ [r]]> m) m rules !! k)
  = default [] (m !! k) ++ List.filter (fun r => String.eqb (rule_key r) k) rules.
Proof.
  revert m. induction rules as [|r rules IH]; intros m; cbn; [by rewrite app_nil_r|]. rewrite IH.
  destruct (String.eqb_spec (rule_key r) k) as [<-|Hne].
  - rewrite lookup_insert_eq. cbn. by rewrite <- app_assoc.
  - by rewrite lookup_insert_ne.
Qed.

Lemma sorted_ranges rs :
  NoDup rs -> Forall rule_valid rs -> Sorted (fun a b => rule_leb a b = true) rs ->
  (forall r s at_, r ∈ rs -> s ∈ rs -> rule_active_at at_ r = true -> rule_active_at at_ s = true -> r = s) ->
  validate_ranges rs = true.
Proof.
  induction rs as [|r rs IH]; [done|]. intros Hnd Hv Hs Hone. destruct rs as [|s rs]; [done|].
  cbn [validate_ranges]. apply andb_true_iff. split.
  - apply negb_true_iff. destruct (ranges_overlap r s) eqn:Ho; [|done]. exfalso.
    apply NoDup_cons in Hnd as [Hnin _]. apply Hnin. apply elem_of_cons. left.
    apply (Hone r s (effective_from s)); [set_solver|set_solver|..].
    + inversion Hs as [|? ? _ Hd]; subst. inversion Hd as [|? ? Hle]; subst. unfold rule_leb in Hle.
      unfold rule_active_at, ranges_overlap in *. by rewrite Hle, Ho || (rewrite Hle; destruct (effective_until r)).
    + apply Forall_cons in Hv as [_ Hv]. apply Forall_cons in Hv as [Hv _]. unfold rule_active_at.
      destruct (effective_until s) as [u|] eqn:Hu; [pose proof (rule_valid_range _ _ Hv Hu)|]; lia.
  - apply IH.
    + by apply NoDup_cons in Hnd as [_ ?].
    + by apply Forall_cons in Hv as [_ ?].
    + by inversion Hs.
    + intros. eapply Hone; [by apply elem_of_cons; right..| |]; done.
Qed.

(** Rules without an overlap are a catalogue. *)
Lemma catalog_accepts rules :
  NoDup rules -> Forall rule_valid rules ->
  (forall r s at_, r ∈ rules -> s ∈ rules -> rule_key r = rule_key s -> rule_active_at at_ r = true ->
     rule_active_at at_ s = true -> r = s) ->
  exists cat, PricingCatalog rules = Ok cat.
Proof.
  intros Hnd Hv Hone. unfold PricingCatalog. cbv zeta. destruct (forallb _ _) eqn:Hall; [by eexists|]. exfalso.
  apply not_true_iff_false in Hall. apply Hall. apply forallb_forall. intros [k rs] Hin%list_elem_of_In%elem_of_map_to_list.
  cbn. rewrite lookup_fmap in Hin. apply fmap_Some in Hin as (g & Hg & ->).
  assert (Hgr : g = List.filter (fun r => String.eqb (rule_key r) k) rules).
  { pose proof (group_rules_lookup rules ∅ k) as Hl. unfold group_rules in Hg. rewrite Hg, lookup_empty in Hl. exact Hl. }
  assert (Hmem : forall r, r ∈ g -> r ∈ rules /\ rule_key r = k).
  { intros r. rewrite Hgr, list_elem_of_In, filter_In, String.eqb_eq. by rewrite list_elem_of_In. }
  apply sorted_ranges.
  - rewrite (sort_by_perm rule_leb g), Hgr. by apply NoDup_ListNoDup, List.NoDup_filter, NoDup_ListNoDup.
  - rewrite (sort_by_perm rule_leb g). apply Forall_forall. intros r [Hr _]%Hmem. by eapply Forall_forall in Hv.
  - apply sort_by_sorted. intros a b. unfold rule_leb. lia.
  - intros r s at_. rewrite (sort_by_perm rule_leb g). intros [Hr Hk]%Hmem [Hs Hk']%Hmem. apply Hone; congruence.
Qed.

Lemma prices_valid l : prices_ok l -> Forall rule_valid (prr_rule <$> l).
Proof. intros Hok. apply Forall_fmap, Forall_forall. by intros p Hp; apply (pr_valid _ Hok). Qed.

Lemma prices_catalog l : prices_ok l -> exists cat, PricingCatalog (prr_rule <$> l) = Ok cat.
Proof.
  intros Hok. pose proof Hok as [_ Hv Hval Hone]. apply catalog_accepts.
  - eapply (NoDup_fmap_1 (fun r => (rule_key r, rule_version r))). by rewrite <- list_fmap_compose.
  - by apply prices_valid.
  - intros r s at_ (p & -> & Hp)%list_elem_of_fmap (q & -> & Hq)%list_elem_of_fmap. by eapply Hone.
Qed.

Lemma prices_one l k at_ :
  prices_ok l ->
  (length (List.filter (fun p => String.eqb (rule_key (prr_rule p)) k
      && String.eqb (prr_status p) "active"
      && in_window (effective_from (prr_rule p)) (effective_until (prr_rule p)) at_) l) <= 1)%nat.
Proof.
  intros Hok. set (f := List.filter _ _). assert (Hnd : NoDup f).
  { apply NoDup_ListNoDup, List.NoDup_filter, NoDup_ListNoDup. eapply NoDup_fmap_1, Hok. }
  assert (Hmem : forall p, p ∈ f -> p ∈ l /\ rule_key (prr_rule p) = k /\ rule_active_at at_ (prr_rule p) = true).
  { intros p. unfold f. rewrite !list_elem_of_In, filter_In, !andb_true_iff, String.eqb_eq. naive_solver. }
  destruct f as [|p [|q f]]; cbn; [lia..|]. exfalso. apply NoDup_cons in Hnd as [Hnin _]. apply Hnin.
  destruct (Hmem p) as (Hp & Hkp & Hap); [set_solver|]. destruct (Hmem q) as (Hq & Hkq & Haq); [set_solver|].
  assert (p = q) as ->; [|set_solver]. eapply same_price; [done..|]. unfold version_key.
  by rewrite (pr_disjoint _ Hok p q at_) by congruence.
Qed.

(** ** Changes of the table *)

Lemma valid_range r from until :
  rule_valid r -> range_ok from until = true -> rule_valid (with_rule_range from until r).
Proof.
  unfold rule_valid, validate_pricing_rule. intros Hv Hr. change (nonempty (rule_key (with_rule_range from until r)))
    with (nonempty (rule_key r)). cbn -[all_nonneg opt_nonneg nonempty forallb]. destruct (negb _); [done|].
  unfold range_ok in Hr. destruct until as [u|]; [|done]. destruct (Z.leb_spec u from); [lia|done].
Qed.

(** A rule that ends earlier. *)
Lemma prices_close l id st until :
  prices_ok l ->
  (forall p, p ∈ l -> prr_id p = id -> range_ok (effective_from (prr_rule p)) until = true) ->
  (forall p at_, p ∈ l -> prr_id p = id ->
     rule_active_at at_ (with_rule_range (effective_from (prr_rule p)) until (prr_rule p)) = true ->
     rule_active_at at_ (prr_rule p) = true) ->
  prices_ok (kupdate prr_id id (rule_closed st until) l).
Proof.
  intros Hok Hr Hs. pose proof Hok as [Hi Hv Hval Hone].
  assert (Hold : forall p at_, p ∈ kupdate prr_id id (rule_closed st until) l -> rule_active_at at_ (prr_rule p) = true ->
    exists q, q ∈ l /\ rule_key (prr_rule p) = rule_key (prr_rule q) /\ rule_active_at at_ (prr_rule q) = true
      /\ p = if String.eqb (prr_id q) id then rule_closed st until q else q).
  { intros p at_ (q & Hq & ->)%kupdate_elem Ha. exists q. split; [done|]. destruct (String.eqb_spec (prr_id q) id) as [He|He]; [|done].
    split_and!; [done|by apply Hs|done]. }
  split.
  - by rewrite kupdate_fmap.
  - by rewrite kupdate_fmap.
  - intros p (q & Hq & ->)%kupdate_elem. destruct (String.eqb_spec (prr_id q) id); [|by apply Hval].
    apply valid_range; [by apply Hval|by apply Hr].
  - intros p p' at_ Hp Hp' Hk Ha Ha'. destruct (Hold p at_ Hp Ha) as (q & Hq & Hkq & Haq & ->).
    destruct (Hold p' at_ Hp' Ha') as (q' & Hq' & Hkq' & Haq' & ->).
    assert (Heq : prr_rule q = prr_rule q') by (by apply (Hone q q' at_); [..|congruence| |]).
    assert (q = q') as -> by (by eapply same_price; [..|unfold version_key; rewrite Heq]). done.
Qed.

(** A rule that is in force only where no other of its key is. *)
Lemma prices_insert l row :
  prices_ok l -> rule_valid (prr_rule row) -> prr_id row ∉ prr_id <$> l -> version_key row ∉ version_key <$> l ->
  (forall p at_, p ∈ l -> rule_key (prr_rule p) = rule_key (prr_rule row) -> rule_active_at at_ (prr_rule p) = true ->
     rule_active_at at_ (prr_rule row) = true -> prr_rule p = prr_rule row) ->
  prices_ok (l ++ [row]).
Proof.
  intros [Hi Hv Hval Hone] Hrow Hid Hver Hx. split.
  - rewrite fmap_app. apply NoDup_app. split_and!; [done| |apply NoDup_singleton]. intros x Hin ->%list_elem_of_singleton. done.
  - rewrite fmap_app. apply NoDup_app. split_and!; [done| |apply NoDup_singleton]. intros x Hin ->%list_elem_of_singleton. done.
  - intros p [Hp| ->%list_elem_of_singleton]%elem_of_app; [by apply Hval|done].
  - intros p q at_ [Hp| ->%list_elem_of_singleton]%elem_of_app [Hq| ->%list_elem_of_singleton]%elem_of_app Hk Ha Hb.
    + by apply (Hone p q at_).
    + by apply (Hx p at_).
    + symmetry. by apply (Hx q at_).
    + done.
Qed.

Section writers.
Context `{Uuids}.

Lemma close_rule_ok id st until db u db' :
  close_rule id st until db = Ok (u, db') ->
  db' = set_pricing db (kupdate prr_id id (rule_closed st until) (db_pricing db))
  /\ forall p, p ∈ db_pricing db -> prr_id p = id -> range_ok (effective_from (prr_rule p)) until = true.
Proof.
  unfold close_rule, stmt. destruct (existsb _ _) eqn:Hex; [done|]. intros [= _ <-]. split; [done|]. intros p Hp <-.
  eapply existsb_false_elem in Hex; [|exact Hp]. rewrite String.eqb_refl in Hex. by apply negb_false_iff in Hex.
Qed.

Lemma insert_rule_ok row db u db' :
  insert_rule row db = Ok (u, db') ->
  db' = set_pricing db (db_pricing db ++ [row]) /\ prr_id row ∉ prr_id <$> db_pricing db
  /\ version_key row ∉ version_key <$> db_pricing db.
Proof.
  unfold insert_rule, stmt. destruct (_ || _ || _) eqn:Hex; [done|]. intros [= _ <-].
  apply orb_false_iff in Hex as [[Hi Hv]%orb_false_iff _]. split_and!; [done|..].
  - intros (p & Heq & Hp)%list_elem_of_fmap. eapply existsb_false_elem in Hi; [|exact Hp]. by rewrite Heq, String.eqb_refl in Hi.
  - intros (p & Heq & Hp)%list_elem_of_fmap. eapply existsb_false_elem in Hv; [|exact Hp]. unfold version_key in Heq.
    injection Heq as H1 H2. unfold of_rule_version, of_rule_key in Hv. by rewrite H1, H2, !String.eqb_refl in Hv.
Qed.

Lemma rules_from_rows_valid l : Forall rule_valid l -> rules_from_rows l = Ok l.
Proof. induction 1 as [|r l Hr _ IH]; [done|]. cbn [rules_from_rows]. rewrite Hr. cbn. by rewrite IH. Qed.

Lemma own_rules k l p : p ∈ List.filter (of_rule_key k) l <-> p ∈ l /\ rule_key (prr_rule p) = k.
Proof. rewrite !list_elem_of_In, filter_In. unfold of_rule_key. by rewrite String.eqb_eq. Qed.

Definition prices_kept {A} (m : Tx A) : Prop := st_inv (fun db => prices_ok (db_pricing db)) m.

Lemma create_rule_prices r from until by_ : prices_kept (create_pricing_rule r from until by_).
Proof.
  intros db row db' Hok Hr. unfold create_pricing_rule in Hr.
  apply st_bind_ok in Hr as (f & s & Hf & Hr). unfold lift in Hf. destruct (management_utc from); [|done]. injection Hf as -> ->.
  apply st_bind_ok in Hr as (t & s1 & Hf & Hr). destruct (match until with None => _ | Some _ => _ end); [|done]. injection Hf as -> ->.
  destruct (validate_pricing_rule _) as [cand|] eqn:Hcand; [|done].
  assert (Hv : rule_valid cand) by (unfold rule_valid, validate_pricing_rule in *; repeat case_match; congruence).
  apply st_bind_ok in Hr as (ex & s & He & Hr). injection He as <- <-. destruct (List.filter _ _); [|done].
  apply st_bind_ok in Hr as (own & s2 & He & Hr). injection He as <- <-.
  apply st_bind_ok in Hr as (u & s2 & Hc & Hr). unfold check_catalog in Hc.
  assert (Hval : Forall rule_valid (prr_rule <$> List.filter (of_rule_key (rule_key cand)) (db_pricing s1))).
  { apply Forall_fmap, Forall_forall. intros p [Hp _]%own_rules. by apply (pr_valid _ Hok). }
  rewrite (rules_from_rows_valid _ Hval) in Hc. cbn -[PricingCatalog] in Hc.
  destruct (PricingCatalog _) as [cat|] eqn:Hcat; [|done]. injection Hc as _ <-.
  apply st_bind_ok in Hr as (id & s2 & He & Hr). injection He as <- <-. cbv zeta in Hr.
  apply st_bind_ok in Hr as (u2 & s3 & Hi & Hr). injection Hr as <- <-. apply savepoint_ok in Hi as [Hi|([] & _ & Hi)]; try done.
  apply insert_rule_ok in Hi as (-> & Hid & Hver). cbn. apply prices_insert; [done..|]. intros p at_ Hp Hk Ha Hb. cbn in Hk, Hb |- *.
  eapply (catalog_one _ _ (rule_key cand) at_); [|exact Hcat|..|exact Ha|exact Hb]; [| | |done|done].
  - apply Forall_app. split; [done|]. by apply Forall_singleton.
  - apply elem_of_app. left. by apply list_elem_of_fmap_2, own_rules.
  - apply elem_of_app. right. by apply list_elem_of_singleton.
Qed.

Lemma retire_rule_prices id now_ : prices_kept (retire_pricing_rule id now_).
Proof.
  intros db row db' Hok Hr. unfold retire_pricing_rule in Hr. apply st_bind_ok in Hr as (p & s & Hp & Hr).
  assert (Hget : forall id db p s, get_pricing_rule id db = Ok (p, s) -> s = db /\ kfind prr_id id (db_pricing db) = Some p).
  { intros ????. unfold get_pricing_rule. intros (o & s' & Ho & [-> ->]%first_or_ok)%st_bind_ok. by injection Ho as -> ->. }
  apply Hget in Hp as [-> [Hin Hid]%kfind_some]. apply st_bind_ok in Hr as (u & s & Hw & [-> _]%Hget).
  unfold when in Hw. destruct (String.eqb _ _); [|by injection Hw as _ <-]. apply close_rule_ok in Hw as [-> Hrange]. cbn.
  apply prices_close; [done|done|]. intros q at_ Hq Hqid.
  assert (q = p) as -> by (by eapply same_rule; [..|rewrite Hqid]).
  unfold rule_active_at. cbn. destruct (in_window _ _ _) eqn:Hw; unfold in_window in Hw;
    destruct (effective_until (prr_rule p)) as [e|]; lia.
Qed.

Lemma find_predecessor_ok managed from own db p db' :
  find_predecessor managed from own db = Ok (p, db') ->
  db' = db /\ match p with
              | None => forall q, q ∈ own -> open_after from q = false
              | Some p => p ∈ own /\ effective_until (prr_rule p) = None /\ effective_from (prr_rule p) < from
              end.
Proof.
  unfold find_predecessor. destruct (List.filter _ _) as [|c [|]] eqn:Hf; [| |done].
  - intros [= <- ->]. split; [done|]. intros q Hq. destruct (open_after from q) eqn:Ho; [|done].
    assert (Hin : q ∈ List.filter (open_after from) own) by (by apply list_elem_of_In, filter_In; rewrite <- list_elem_of_In).
    rewrite Hf in Hin. by apply elem_of_nil in Hin.
  - destruct (_ || _ || _) eqn:Hc; [done|]. intros [= <- ->]. apply orb_false_iff in Hc as [[Hu _]%orb_false_iff Hlt].
    apply bool_decide_eq_false in Hu. apply dec_stable in Hu. split_and!; [done| |done|lia].
    assert (Hin : c ∈ List.filter (open_after from) own) by (rewrite Hf; set_solver).
    by apply list_elem_of_In, filter_In in Hin as [Hin%list_elem_of_In _].
Qed.

(** The rows the catalogue was checked with are those the closing leaves. *)
Lemma adjusted_valid pred from p :
  rule_valid (prr_rule p) -> (forall q, pred = Some q -> prr_id p = prr_id q -> effective_from (prr_rule p) < from) ->
  rule_valid (adjusted_rule pred from p).
Proof.
  intros Hv Hlt. unfold adjusted_rule. destruct pred as [q|]; [|done]. destruct (String.eqb_spec (prr_id p) (prr_id q)) as [He|]; [|done].
  apply valid_range; [done|]. specialize (Hlt q eq_refl He). cbn. lia.
Qed.

Lemma close_predecessor_ok (pred : option PricingRuleRow) st from db u db' :
  match pred with
  | Some p => close_rule (prr_id p) (st p) (Some from)
  | None => mret ()
  end db = Ok (u, db') ->
  exists l, db' = set_pricing db l /\ (prr_id <$> l = prr_id <$> db_pricing db)
    /\ (forall q, q ∈ l -> exists p, p ∈ db_pricing db /\ prr_rule q = adjusted_rule pred from p)
    /\ (l = db_pricing db \/ exists p, pred = Some p /\ l = kupdate prr_id (prr_id p) (rule_closed (st p) (Some from)) (db_pricing db)).
Proof.
  destruct pred as [p|].
  - intros [-> _]%close_rule_ok. eexists. split_and!; [done|by apply kupdate_fmap| |right; eauto].
    intros q (r & Hr & ->)%kupdate_elem. exists r. split; [done|]. cbn. by destruct (String.eqb _ _).
  - intros [= _ <-]. exists (db_pricing db). split_and!; [by destruct db|done| |by left]. intros q Hq. by exists q.
Qed.

Lemma install_prices d by_ at_ managed : rule_valid d -> prices_kept (install_in_transaction d by_ at_ managed).
Proof.
  intros Hd db res db' Hok Hr. unfold install_in_transaction in Hr. cbv zeta in Hr.
  apply st_bind_ok in Hr as (own & s & Ho & Hr). injection Ho as Hown <-.
  destruct (List.find _ own); [case_match; [by injection Hr as _ <-|done]|].
  set (from := match own with [] => _ | _ => _ end) in Hr. set (cand := with_rule_range from None d) in Hr.
  assert (Hmem : forall p, p ∈ own <-> p ∈ db_pricing db /\ rule_key (prr_rule p) = rule_key d).
  { intros p. rewrite <- Hown, (sort_by_perm _ _). apply own_rules. }
  apply st_bind_ok in Hr as (pred & s & [-> Hpred]%find_predecessor_ok & Hr).
  apply st_bind_ok in Hr as (u & s & Hc & Hr). unfold check_adjusted in Hc. destruct (rules_from_rows _); [|done].
  destruct (PricingCatalog _) as [cat|] eqn:Hcat; [|done]. injection Hc as _ <-.
  apply st_bind_ok in Hr as (u1 & s & (l & -> & Hids & Hadj & Hl)%close_predecessor_ok & Hr).
  apply st_bind_ok in Hr as (id & s & Hf & Hr). injection Hf as <- <-.
  apply st_bind_ok in Hr as (u2 & s & (-> & Hni & Hnv)%insert_rule_ok & Hr). injection Hr as _ <-. cbn in Hni, Hnv |- *.
  assert (Hlt : forall p q, p ∈ db_pricing db -> pred = Some q -> prr_id p = prr_id q -> effective_from (prr_rule p) < from).
  { intros p q Hp -> Heq. destruct Hpred as ([Hq _]%Hmem & _ & Hlt). by rewrite (same_rule _ p q Hok Hp Hq Heq). }
  apply prices_insert; [|by apply valid_range|done|done|].
  - destruct Hl as [->|(p & -> & ->)]; [done|]. destruct Hpred as ([Hp _]%Hmem & Hnone & Hfrom).
    apply prices_close; [done|..]; intros q; intros; assert (q = p) as -> by (by eapply same_rule).
    + cbn. lia.
    + unfold rule_active_at in *. cbn in *. rewrite Hnone. lia.
  - intros q t Hq Hk Ha Hb. destruct (Hadj q Hq) as (p & Hp & Heq). rewrite Heq in *.
    assert (Hkp : rule_key (prr_rule p) = rule_key d).
    { trans (rule_key (adjusted_rule pred from p)); [|exact Hk]. unfold adjusted_rule. destruct pred; [|done]. by destruct (String.eqb _ _). }
    eapply (catalog_one _ _ (rule_key d) t); [|exact Hcat|..|done|done|exact Ha|exact Hb].
    + apply Forall_app. split; [|by apply Forall_singleton, valid_range]. apply Forall_fmap, Forall_forall.
      intros r [Hr _]%Hmem. apply adjusted_valid; [by apply (pr_valid _ Hok)|]. intros q'. by apply Hlt.
    + apply elem_of_app. left. by apply list_elem_of_fmap_2, Hmem.
    + apply elem_of_app. right. by apply list_elem_of_singleton.
Qed.

Lemma install_builtin_prices d by_ now_ managed : rule_valid d -> prices_kept (install_builtin_pricing_version d by_ now_ managed).
Proof.
  intros Hd. unfold prices_kept, install_builtin_pricing_version. case_match; [apply st_inv_raise|].
  apply st_inv_bind; [apply st_inv_lift|]. intros at_ db r db' Hok [Hr|(e & _ & Hr)]%savepoint_ok; [by eapply install_prices|].
  destruct e; try done. apply st_bind_ok in Hr as (ex & s & He & Hr). injection He as <- <-.
  destruct (List.find _ _); [|done]. case_match; [by injection Hr as _ <-|done].
Qed.
End writers.
