(* ===== verification/QuotaGoverned.v ===== *)
(** * QuotaGoverned: every store the service and its managers reach together

    [manager_step] is one call of [QuotaManagementService] or [QuotaOperationsService], or a
    change of the two tables other services write: classrooms and usage events.  A store is
    governed when service steps and manager steps lead to it from empty tables. *)
From S2P Require Import Prelude PyText Clock Usage Pricing Policy Reservation QuotaStore QuotaService QuotaInvariants.
From S2P Require Import QuotaManagement QuotaOperations QuotaGovernance QuotaPrices.
Local Open Scope Z_scope.

(** ** Calls that leave the prices alone *)

Definition same_prices (db db' : DB) : Prop := db_pricing db' = db_pricing db.

#[export] Instance same_prices_preorder : PreOrder same_prices.
Proof. split; [done|]. intros a b c. unfold same_prices. congruence. Qed.

Lemma same_prices_kept {A} (m : Tx A) : st_moves same_prices m -> prices_kept m.
Proof. intros Hm db a db' Hok Hr. by rewrite (Hm _ _ _ Hr). Qed.

Abbreviation pmoves := (st_moves same_prices).

Ltac prices_step := first
  [ progress cbv zeta | apply savepoint_moves; [|intros ?] | refine (first_or_moves _ _ _)
  | apply stmt_moves; intros ? ? ?; repeat case_match; try done; by intros [= _ <-]
  | moves_modify; by intros ?
  | st_moves_step ].
Ltac prices_tac := repeat prices_step.

Section prices.
Context `{Uuids} (digest : string -> string).

Lemma fresh_uuid_prices : pmoves fresh_uuid.
Proof. intros db a db' Hr. by injection Hr as _ <-. Qed.
Lemma append_ledger_prices mk : pmoves (append_ledger mk).
Proof. unfold append_ledger. repeat first [apply fresh_uuid_prices|prices_step]. Qed.

Lemma create_policy_prices q : pmoves (create_policy q).
Proof. unfold create_policy, insert_policy. repeat first [apply fresh_uuid_prices|prices_step]. Qed.
Lemma move_draft_prices id target : pmoves (move_draft id target).
Proof. unfold move_draft, get_policy. prices_tac. Qed.
Lemma update_policy_prices id c : pmoves (update_policy id c).
Proof. unfold update_policy, update_policy_row, get_policy. prices_tac. Qed.
Lemma bind_policy_prices q : pmoves (bind_policy q).
Proof. unfold bind_policy, update_binding, insert_binding. repeat first [apply fresh_uuid_prices|prices_step]. Qed.
Lemma retire_binding_prices id : pmoves (retire_binding id).
Proof. unfold retire_binding, update_binding. prices_tac. Qed.

Lemma replay_grant_prices q al row : pmoves (replay_grant q al row).
Proof. unfold replay_grant. prices_tac. Qed.
Lemma create_grant_prices q now_ : pmoves (create_grant_in_transaction q now_).
Proof.
  unfold create_grant_in_transaction, write_grant, insert_grant, management_ledger.
  repeat first [apply fresh_uuid_prices|apply append_ledger_prices|apply replay_grant_prices|prices_step].
Qed.
Lemma revoke_grant_prices id actor key now_ : pmoves (revoke_grant id actor key now_).
Proof.
  unfold revoke_grant, get_grant, revoke_row, management_ledger. repeat first [apply append_ledger_prices|prices_step].
Qed.
Lemma expire_grants_prices now_ : pmoves (expire_grants now_).
Proof.
  unfold expire_grants, expire_row, update_grant, management_ledger. repeat first [apply append_ledger_prices|prices_step].
Qed.
Lemma adjustment_prices q now_ : pmoves (create_adjustment q now_).
Proof.
  unfold create_adjustment, write_adjustment, replay_adjustment, insert_adjustment, management_ledger.
  repeat first [apply fresh_uuid_prices|apply append_ledger_prices|prices_step].
Qed.

Lemma update_bucket_prices k f : pmoves (update_bucket k f).
Proof. by intros db u db' [-> _]%update_bucket_ok. Qed.
Lemma over_limit_prices b c at_ : pmoves (bucket_over_limit b c at_).
Proof. by intros db u db' ->%bucket_over_readonly. Qed.
Lemma replay_bucket_prices k at_ : pmoves (replay_bucket k at_).
Proof. by intros db r db' [-> _]%replay_bucket_ok. Qed.
Lemma repair_bucket_prices k reason key now_ : pmoves (repair_bucket digest k reason key now_).
Proof.
  unfold repair_bucket, get_bucket.
  repeat first [apply replay_bucket_prices|apply append_ledger_prices|apply update_bucket_prices|prices_step].
Qed.
Lemma refresh_bill_prices row at_ : pmoves (refresh_billing_match row at_).
Proof. unfold refresh_billing_match, update_bill, get_bill. prices_tac. Qed.
Lemma reconcile_lines_prices l at_ : pmoves (reconcile_lines l at_).
Proof.
  induction l as [|s l IH]; cbn [reconcile_lines]; unfold reconcile_billing_line, write_bill, insert_bill;
    repeat first [exact IH|apply fresh_uuid_prices|apply refresh_bill_prices|prices_step].
Qed.
Lemma repair_billing_prices id reason key now_ : pmoves (repair_billing digest id reason key now_).
Proof.
  unfold repair_billing, repair_billed_bucket, update_bill, get_bill.
  repeat first [apply append_ledger_prices|apply update_bucket_prices|apply over_limit_prices|prices_step].
Qed.
Lemma credit_prices k st q now_ : pmoves (credit_operation digest k st q now_).
Proof.
  unfold credit_operation, write_credit, take_back, replace_grant, update_grant, insert_credit, credit_payload.
  repeat first [apply create_grant_prices|apply fresh_uuid_prices|apply append_ledger_prices|prices_step].
Qed.
Lemma role_gift_prices g members now_ : pmoves (gift_credits_for_role digest g members now_).
Proof.
  assert (Hm : forall role ids, pmoves (gift_members digest g role now_ ids)).
  { intros role ids. induction ids as [|u ids IH]; cbn [gift_members]; repeat first [exact IH|apply credit_prices|st_moves_step]. }
  unfold gift_credits_for_role, insert_role_credit. repeat first [apply Hm|apply fresh_uuid_prices|prices_step].
Qed.
End prices.

(** ** The system *)
Section governed.
Context `{Uuids} (digest : string -> string) (lease_seconds : Z).

Inductive manager_step (db : DB) : DB -> Prop :=
| ms_create_policy q : manager_step db (run_tx (create_policy q) db).2
| ms_publish_policy id : manager_step db (run_tx (publish_policy id) db).2
| ms_archive_policy id : manager_step db (run_tx (archive_policy id) db).2
| ms_update_policy id c : manager_step db (run_tx (update_policy id c) db).2
| ms_bind_policy q : manager_step db (run_tx (bind_policy q) db).2
| ms_retire_binding id : manager_step db (run_tx (retire_binding id) db).2
| ms_create_rule rates from until by_ : manager_step db (run_tx (create_pricing_rule rates from until by_) db).2
| ms_retire_rule id at_ : manager_step db (run_tx (retire_pricing_rule id at_) db).2
| ms_install d by_ at_ managed : rule_valid d ->
    manager_step db (run_tx (install_builtin_pricing_version d by_ at_ managed) db).2
| ms_create_grant q at_ : manager_step db (run_tx (create_grant q at_) db).2
| ms_revoke_grant id actor key at_ : manager_step db (run_tx (revoke_grant id actor key at_) db).2
| ms_expire_grants at_ : manager_step db (run_tx (expire_grants at_) db).2
| ms_adjustment q at_ : manager_step db (run_tx (create_adjustment q at_) db).2
| ms_repair_bucket k reason key at_ : manager_step db (run_tx (repair_bucket digest k reason key at_) db).2
| ms_reconcile_billing l at_ : manager_step db (run_tx (reconcile_provider_billing l at_) db).2
| ms_repair_billing id reason key at_ : manager_step db (run_tx (repair_billing digest id reason key at_) db).2
| ms_gift q at_ : manager_step db (run_tx (gift_credits digest q at_) db).2
| ms_reset q at_ : manager_step db (run_tx (reset_credits digest q at_) db).2
| ms_role_gift g members at_ : manager_step db (run_tx (gift_credits_for_role digest g members at_) db).2
| ms_others cls us :
    manager_step db
      (set_operations
         {| db_policies := db_policies db; db_bindings := db_bindings db; db_classrooms := cls;
            db_pricing := db_pricing db; db_grants := db_grants db; db_adjustments := db_adjustments db;
            db_buckets := db_buckets db; db_reservations := db_reservations db; db_ledger := db_ledger db;
            db_locks := db_locks db; db_operations := db_operations db; db_next_uuid := db_next_uuid db |}
         {| ot_credits := ot_credits (db_operations db); ot_role_credits := ot_role_credits (db_operations db);
            ot_usage_events := us; ot_billing := ot_billing (db_operations db) |}).

(** Tables nobody has written yet. *)
Definition empty_tables (db : DB) : Prop :=
  initial db /\ db_grants db = [] /\ db_adjustments db = [] /\ db_pricing db = [].

Inductive governed : DB -> Prop :=
| gov_init db : empty_tables db -> governed db
| gov_service db db' : governed db -> service_step lease_seconds db db' -> governed db'
| gov_manager db db' : governed db -> manager_step db db' -> governed db'.

Lemma manager_accounts db db' : manager_step db db' -> accounts_ok db -> accounts_ok db'.
Proof.
  intros [] Hok; try (by apply (accounts_same db)); (eapply run_tx_inv; [|exact Hok]);
    try (apply same_accounts_ok; first [apply create_policy_same|apply move_draft_same|apply update_policy_same
      |apply bind_policy_same|apply retire_binding_same|apply create_rule_same|apply retire_rule_same|apply install_same
      |apply reconcile_lines_same]).
  - apply create_grant_accounts.
  - apply revoke_grant_accounts.
  - apply expire_grants_accounts.
  - apply adjustment_accounts.
  - apply repair_bucket_accounts.
  - apply repair_billing_accounts.
  - apply credit_accounts.
  - apply credit_accounts.
  - apply role_gift_accounts.
Qed.

Lemma manager_prices db db' : manager_step db db' -> prices_ok (db_pricing db) -> prices_ok (db_pricing db').
Proof.
  intros [] Hok; try done; (eapply (run_tx_inv (fun db => prices_ok (db_pricing db))); [|exact Hok]);
    try (apply same_prices_kept; first [apply create_policy_prices|apply move_draft_prices|apply update_policy_prices
      |apply bind_policy_prices|apply retire_binding_prices|apply create_grant_prices|apply revoke_grant_prices
      |apply expire_grants_prices|apply adjustment_prices|apply repair_bucket_prices|apply reconcile_lines_prices
      |apply repair_billing_prices|apply credit_prices|apply role_gift_prices]).
  - apply create_rule_prices.
  - apply retire_rule_prices.
  - by apply install_builtin_prices.
Qed.

Lemma service_accounts db db' : service_step lease_seconds db db' -> accounts_ok db -> accounts_ok db'.
Proof.
  intros Hs Hok. eapply accounts_service; [by eapply service_step_moves| |done].
  eapply step_balanced; [apply Hok|by apply step_service].
Qed.

Lemma empty_accounts db : empty_tables db -> accounts_ok db /\ prices_ok (db_pricing db).
Proof.
  intros (Hi & Hg & _ & Hp). pose proof Hi as (Hb & _ & Hl & _). split; [split|].
  - by apply initial_balanced.
  - intros k b. by rewrite Hb, lookup_empty.
  - rewrite Hl. constructor.
  - rewrite Hg, Hl. split; try constructor; try (intros ? ?%elem_of_nil; done). intros ?? ?%elem_of_nil; done.
  - rewrite Hp. split; try constructor; try (intros ? ?%elem_of_nil; done). intros ??? ?%elem_of_nil; done.
Qed.

Lemma governed_ok db : governed db -> accounts_ok db /\ prices_ok (db_pricing db).
Proof.
  induction 1 as [db Hi|db db' _ [Ha Hp] Hs|db db' _ [Ha Hp] Hs].
  - by apply empty_accounts.
  - split; [by eapply service_accounts|]. apply service_step_moves in Hs as [_ _ -> _ _ _ _ _]. done.
  - split; [by eapply manager_accounts|by eapply manager_prices].
Qed.
End governed.
