(* ===== verification/QuotaPromises.v ===== *)
(** * QuotaPromises: what managers can rely on

    The theorems about [QuotaManagementService] and [QuotaOperationsService]: the ledger
    explains every grant, replay and repair agree with the books, retries are answered with
    what was written, a reset replaces what was given, prices never overlap, a retired binding
    gives way to its predecessor, and what [explain_policy] shows is what admission uses.
    [StewardWorld] holds the stores the witnesses are about. *)
From S2P Require Import Prelude PyText Clock Usage Pricing Policy Reservation QuotaStore QuotaService QuotaInvariants QuotaWorld.
From S2P Require Import QuotaManagement QuotaOperations QuotaGovernance QuotaPrices QuotaGoverned.
Local Open Scope Z_scope.

Section promises.
Context `{Uuids} (digest : string -> string) (lease_seconds : Z).

(** ** Grants *)

(** C5: in every governed store the ledger entries of a grant add up to what the grant still
    allocates - its amount while it is active, nothing once it was revoked, expired or replaced -
    every entry about a grant names a stored one, and an owner's key names at most one grant. *)
Theorem grants_match_ledger db :
  governed digest lease_seconds db ->
  (forall g, g ∈ db_grants db ->
     grant_total (gr_id g) (db_ledger db) = if grant_active g then gr_allocated_micro g else 0)
  /\ (forall e id, e ∈ db_ledger db -> le_grant_id e = Some id -> id ∈ gr_id <$> db_grants db)
  /\ (forall g h, g ∈ db_grants db -> h ∈ db_grants db -> owner_key g = owner_key h -> g = h).
Proof.
  intros [[_ _ _ Hg] _]%governed_ok. pose proof Hg as [_ Hk Ht Hn]. split_and!; [exact Ht|exact Hn|].
  intros g h (i & Hi)%list_elem_of_lookup_1 (j & Hj)%list_elem_of_lookup_1 Heq.
  assert (i = j) as ->; [|congruence]. eapply (NoDup_lookup _ _ _ (owner_key g) Hk); rewrite list_lookup_fmap.
  - by rewrite Hi.
  - rewrite Hj. cbn. by rewrite Heq.
Qed.

Lemma create_grant_found q now_ db g db' :
  create_grant q now_ db = Ok (g, db') ->
  exists al, validate_grant q = Ok al /\ grant_of_request q al db' = Some g /\ grant_request_matches g q al = true
             /\ (grant_of_request q al db = Some g \/ grant_active g = true).
Proof.
  unfold create_grant, create_grant_in_transaction. intros (al & s & Hal & Hr)%st_bind_ok. unfold lift in Hal.
  destruct (validate_grant q) as [al'|]; [|done]. injection Hal as -> ->. exists al. split; [done|].
  apply st_bind_ok in Hr as (ex & s1 & He & Hr). injection He as <- <-. destruct (grant_of_request q al s) as [row|] eqn:Hf.
  - unfold replay_grant in Hr. destruct (grant_request_matches _ _ _) eqn:Hm; [|done]. injection Hr as <- <-. eauto.
  - apply write_grant_ok in Hr as [(-> & w & Hw & ->)|(e & -> & _ & _ & Hg & _)]; [congruence|].
    split_and!; [| |by right].
    + unfold grant_of_request in *. rewrite Hg. rewrite find_app_none by done. cbn. unfold of_owner_key. cbn.
      by rewrite bool_decide_eq_true_2, !String.eqb_refl by done.
    + unfold grant_request_matches, grant_in_scope, in_scope. cbn.
      by rewrite !bool_decide_eq_true_2, !String.eqb_refl, !Z.eqb_refl by done.
Qed.

(** A grant request is safe to retry: whenever the first call returned, the same request
    at any later time returns the same row and writes nothing, and a request for the same
    owner and key that asks for anything else is refused as a conflict, again without a write. *)
Lemma create_grant_retry q now_ db g db' :
  create_grant q now_ db = Ok (g, db') ->
  (forall later, create_grant q later db' = Ok (g, db'))
  /\ (forall q' al' later, validate_grant q' = Ok al' ->
        sc_owner_type (al_scope al') = gr_owner_type g -> sc_owner_id (al_scope al') = gr_owner_id g ->
        gq_idempotency_key q' = gq_idempotency_key q -> grant_request_matches g q' al' = false ->
        create_grant q' later db' = Err (Domain GRANT_CONFLICT)).
Proof.
  intros (al & Hal & Hf & Hm & _)%create_grant_found. split.
  - intros later. unfold create_grant, create_grant_in_transaction, lift, mbind, st_bind. rewrite Hal. cbn. rewrite Hf.
    unfold replay_grant. by rewrite Hm.
  - intros q' al' later Hal' Ho Hid Hkey Hno. unfold create_grant, create_grant_in_transaction, lift, mbind, st_bind.
    rewrite Hal'. cbn. assert (grant_of_request q' al' db' = Some g) as ->.
    { pose proof Hm as Hs. unfold grant_request_matches, grant_in_scope, in_scope in Hs. unfold grant_of_request.
      rewrite Ho, Hid, Hkey. rewrite !andb_true_iff, bool_decide_eq_true, String.eqb_eq in Hs. destruct_and! Hs.
      unfold grant_of_request in Hf. congruence. }
    unfold replay_grant. by rewrite Hno.
Qed.

(** ** Replay and repair *)

Lemma replay_total k at_ db b :
  db_buckets db !! k = Some b -> is_Some (db_policies db !! b_policy_id b) -> exists r, replay_bucket k at_ db = Ok (r, db).
Proof.
  intros Hb [p Hp]. unfold replay_bucket, get_bucket, bucket_over_limit, gets, mbind, st_bind. rewrite Hb. cbn -[replay_entries].
  destruct (b_limit_micro b); [|by eexists]. cbn -[replay_entries]. rewrite Hp. by eexists.
Qed.

(** C29: in every governed store the audit of a bucket returns and finds the stored counters in
    the ledger: what it expects is what is stored, each a value of its unsigned 64-bit column,
    and it asks for a repair only where the [over_limit] flag is out of date. *)
Theorem replay_agrees_with_books db k b at_ :
  governed digest lease_seconds db -> db_buckets db !! k = Some b -> is_Some (db_policies db !! b_policy_id b) ->
  exists r, replay_bucket k at_ db = Ok (r, db)
    /\ br_expected_reserved r = b_reserved_micro b /\ 0 <= b_reserved_micro b < 2 ^ 64
    /\ br_expected_consumed r = b_consumed_micro b /\ 0 <= b_consumed_micro b < 2 ^ 64
    /\ br_needs_repair r = xorb (b_over_limit b) (br_expected_over_limit r).
Proof.
  intros [Hok _]%governed_ok Hb Hp. destruct (replay_total k at_ db b Hb Hp) as [r Hr]. exists r. split; [done|].
  destruct (replay_books _ _ _ _ _ Hok Hr) as [He1 He2].
  apply replay_bucket_ok in Hr as (_ & _ & _ & _ & b' & Hb' & Hs1 & Hs2 & _ & ->).
  rewrite Hb in Hb'. injection Hb' as <-. rewrite He1, He2, Hs1, Hs2, !Z.eqb_refl.
  pose proof (ac_counters _ Hok _ _ Hb) as Hfit. unfold counters_fit, unsigned, UNSIGNED_BOUND in Hfit.
  split_and!; lia || done.
Qed.

(** The flag is computed from the limit, the capacity and the policy only. *)
Lemma needs_no_repair k at_ db db' r0 r b b' :
  accounts_ok db' -> db_buckets db' !! k = Some b' ->
  replay_bucket k at_ db = Ok (r0, db) -> db_buckets db !! k = Some b -> replay_bucket k at_ db' = Ok (r, db') ->
  db_policies db' = db_policies db -> db_grants db' = db_grants db -> db_adjustments db' = db_adjustments db ->
  b_over_limit b' = br_expected_over_limit r0 -> b_consumed_micro b' = br_expected_consumed r0 ->
  b_limit_micro b' = b_limit_micro b -> b_policy_id b' = b_policy_id b -> b_owner_type b' = b_owner_type b ->
  b_owner_id b' = b_owner_id b -> b_bucket_type b' = b_bucket_type b -> b_period_start b' = b_period_start b ->
  b_period_end b' = b_period_end b -> br_needs_repair r = false.
Proof.
  intros Hok' Hb' Hr0 Hb Hr Hp Hg Ha Ho Hc Hl Hpid H1 H2 H3 H4 H5. destruct (replay_books _ _ _ _ _ Hok' Hr) as [He1 He2].
  apply replay_bucket_ok in Hr as (_ & _ & _ & _ & b2 & Hb2 & Hs1 & Hs2 & Hov & ->). rewrite Hb' in Hb2. injection Hb2 as <-.
  apply replay_bucket_ok in Hr0 as (_ & _ & _ & _ & b3 & Hb3 & _ & _ & Hov0 & _). rewrite Hb in Hb3. injection Hb3 as <-.
  rewrite He1, He2, Hs1, Hs2, !Z.eqb_refl, Ho. cbn. enough (Heq : br_expected_over_limit r0 = br_expected_over_limit r) by (rewrite Heq; apply xorb_nilpotent).
  unfold bucket_over_limit, first_or, gets, additional_capacity_for_bucket, additional_capacity, capacity_components in *.
  rewrite Hl, Hpid, H1, H2, H3, H4, H5, He2, Hs2, Hc in Hov.
  destruct (b_limit_micro b); [|injection Hov as <-; by injection Hov0 as <-].
  unfold mbind, st_bind in Hov, Hov0. cbn in Hov, Hov0. rewrite Hp, Hg, Ha in Hov.
  destruct (db_policies db !! _); [|done]. injection Hov as <-. by injection Hov0 as <-.
Qed.

(** Repairs restore the books: whatever was written over the counters of a bucket of a
    governed store, a repair under a new key puts back exactly the counters the ledger accounts
    for, leaves every other bucket and every older ledger entry alone, reports that nothing is
    left to repair, and the books balance again. *)
Lemma repair_restores_books db k b reserved_ consumed_ over ver reason key at_ r db' :
  governed digest lease_seconds db -> db_buckets db !! k = Some b ->
  key_taken (bounded_idempotency_key digest "balance-repair" [key]) (db_ledger db) = false ->
  repair_bucket digest k reason key at_
    (set_buckets db (alter (write_counters reserved_ consumed_ over ver at_) k (db_buckets db))) = Ok (r, db') ->
  balanced db' /\ br_needs_repair r = false
  /\ (exists b', db_buckets db' !! k = Some b' /\ b_reserved_micro b' = b_reserved_micro b
        /\ b_consumed_micro b' = b_consumed_micro b)
  /\ (forall j, j <> k -> db_buckets db' !! j = db_buckets db !! j)
  /\ exists e, db_ledger db' = db_ledger db ++ [e] /\ le_reserved_delta_micro e = 0 /\ le_consumed_delta_micro e = 0.
Proof.
  intros [Hok _]%governed_ok Hb Hfree Hr. set (w := write_counters reserved_ consumed_ over ver at_) in Hr.
  set (db1 := set_buckets _ _) in Hr.
  apply repair_run in Hr as [[_ Hk]|(b1 & r0 & e & Hb1 & Hr0 & Hk & Hbk & Hgr & Hrd & Hcd & _ & Hdb & Hr)]; [by destruct (eq_true_false_abs _ Hk Hfree)|].
  destruct (repair_accounts db k b r0 at_ db1 w e (b_version b1)) as (He1 & He2 & Hok'); [done..|].
  rewrite <- Hdb in Hok'. assert (Hb' : db_buckets db' !! k = Some (repaired r0 (b_version b1) at_ (w b))).
  { rewrite Hdb. cbn. by rewrite lookup_alter_eq, lookup_alter_eq, Hb. }
  split_and!; [apply Hok'| | | |].
  - assert (b1 = w b) as -> by (cbn in Hb1; rewrite lookup_alter_eq, Hb in Hb1; by injection Hb1).
    eapply (needs_no_repair k at_ db1 db' r0 r (w b)); [exact Hok'|exact Hb'|exact Hr0|exact Hb1|exact Hr|..];
      first [done|by rewrite Hdb].
  - eexists. split_and!; [exact Hb'|done|done].
  - intros j Hj. rewrite Hdb. cbn. by rewrite !lookup_alter_ne by done.
  - exists e. by rewrite Hdb.
Qed.

(** ** Resets *)

Lemma replace_loop q now_ l db u db' :
  st_iter (replace_grant digest q now_) l db = Ok (u, db') ->
  gr_id <$> db_grants db' = gr_id <$> db_grants db /\ db_adjustments db' = db_adjustments db
  /\ credit_rows db' = credit_rows db
  /\ (forall h, h ∈ db_grants db' -> grant_active h = true -> h ∈ db_grants db /\ gr_id h ∉ gr_id <$> l)
  /\ (forall h, h ∈ db_grants db -> gr_id h ∉ gr_id <$> l -> h ∈ db_grants db').
Proof.
  revert db. induction l as [|g l IH]; intros db Hr; cbn [st_iter] in Hr.
  - injection Hr as _ <-. split_and!; [done..| |done]. intros h Hh _. split; [done|set_solver].
  - apply st_bind_ok in Hr as (u1 & s & Hg & (Hids & Had & Hcr & Hold & Hkeep)%IH). unfold replace_grant in Hg.
    apply st_bind_ok in Hg as (u2 & s1 & Hu & Hg). injection Hu as _ <-. apply append_ledger_ok in Hg as [_ ->].
    cbn -[kupdate] in *. split_and!; [by rewrite Hids, kupdate_fmap|done|done|..].
    + intros h Hh Hact. destruct (Hold h Hh Hact) as [[(h' & _ & _ & ->)|[Hin Hne]]%closed_elem Hni]; [done|].
      split; [done|]. cbn. set_solver.
    + intros h Hh Hni. cbn in Hni. apply Hkeep; [|set_solver]. apply kupdate_elem. exists h. split; [done|].
      destruct (String.eqb_spec (gr_id h) (gr_id g)); [set_solver|done].
Qed.

(** The scope of a credit operation is the one its grant is stored under. *)
Lemma grant_scope k st q o b al :
  owner_type_of (cq_owner_type q) = Some o -> bucket_type_of (cq_bucket_type q) = Some b ->
  validate_grant (grant_request digest k st q) = Ok al ->
  al_scope al = credit_scope q o b /\ al_effective al = stored_utc (cq_effective_from q)
  /\ al_expires al = stored_utc <$> cq_expires_at q.
Proof.
  intros Ho Hb. assert (Hutc : forall d z, management_utc d = Ok z -> stored_utc d = z).
  { intros d z. unfold management_utc, stored_utc, instant. by destruct (dt_offset d) as [off|]; [intros [= <-]|]. }
  unfold validate_grant, validate_period, grant_request. cbn. rewrite Ho, Hb. cbn.
  destruct (management_utc (cq_period_start q)) as [s|] eqn:Hs; [cbn|done].
  destruct (management_utc (cq_period_end q)) as [e|] eqn:He; [cbn|done]. destruct (e <=? s); [done|]. cbn.
  destruct (negb _); [done|]. destruct (_ <? 0); [done|]. destruct (management_utc (cq_effective_from q)) as [f|] eqn:Hf; [cbn|done].
  unfold management_until. destruct (cq_expires_at q) as [x|].
  - destruct (management_utc x) as [x'|] eqn:Hx; [cbn|done]. destruct (x' <=? f); [done|]. intros [= <-]. cbn.
    unfold credit_scope. by rewrite (Hutc _ _ Hs), (Hutc _ _ He), (Hutc _ _ Hf), (Hutc _ _ Hx).
  - intros [= <-]. cbn. unfold credit_scope. by rewrite (Hutc _ _ Hs), (Hutc _ _ He), (Hutc _ _ Hf).
Qed.

Definition same_operations (db db' : DB) : Prop :=
  db_operations db' = db_operations db /\ db_adjustments db' = db_adjustments db.

#[local] Instance same_operations_preorder : PreOrder same_operations.
Proof. split; [done|]. intros a b c [? ?] [? ?]. split; congruence. Qed.

Lemma create_grant_rest q at_ : st_moves same_operations (create_grant q at_).
Proof.
  unfold create_grant, create_grant_in_transaction, write_grant, replay_grant, insert_grant, management_ledger, append_ledger, fresh_uuid.
  repeat prices_step.
Qed.

(** The parts of a reset that was not done before, in the order they ran. *)
Lemma reset_run q at_ db row st db' :
  reset_credits digest q at_ db = Ok ((row, st), db') ->
  List.find (of_credit_key (cq_idempotency_key q)) (credit_rows db) = None ->
  exists o b g s1 s2 u id,
    owner_type_of (cq_owner_type q) = Some o /\ bucket_type_of (cq_bucket_type q) = Some b
    /\ create_grant (grant_request digest Reset "reset" q) at_ db = Ok (g, s1)
    /\ st_iter (replace_grant digest q at_) (List.filter (replaced_by (credit_scope q o b) (gr_id g)) (db_grants s1)) s1 = Ok (u, s2)
    /\ row = new_credit Reset q (credit_scope q o b) (gr_id g) id
    /\ db_grants db' = db_grants s2 /\ db_adjustments db' = db_adjustments s2
    /\ st = match kfind gr_id (gr_id g) (db_grants s2) with
            | Some g' => if String.eqb (gr_status g') "" then "unknown" else gr_status g'
            | None => "unknown"
            end.
Proof.
  unfold reset_credits, credit_operation. destruct (owner_type_of _) as [o|]; [|done]. destruct (bucket_type_of _) as [b|]; [|done].
  destruct (_ <? 0); [done|]. cbv zeta. intros (ex & s & He & Hr)%st_bind_ok Hf. injection He as <- <-. rewrite Hf in Hr.
  unfold write_credit in Hr. apply st_bind_ok in Hr as (g & s1 & Hg & Hr). apply st_bind_ok in Hr as (u & s2 & Ht & Hr).
  unfold take_back in Ht. apply st_bind_ok in Ht as (pr & s1' & Hp & Ht). injection Hp as <- <-.
  apply st_bind_ok in Hr as (id & s & Hid & Hr). injection Hid as <- <-. cbv zeta in Hr.
  assert (Hcr : credit_rows s2 = credit_rows db).
  { apply replace_loop in Ht as (_ & _ & -> & _). unfold credit_rows. by destruct (create_grant_rest _ _ _ _ _ Hg) as [-> _]. }
  apply st_bind_ok in Hr as (ins & s & [Hs|(e & _ & Hs)]%savepoint_ok & Hr).
  - apply st_bind_ok in Hs as (u1 & s3 & Hi & Hs). injection Hs as <- <-. unfold insert_credit, stmt in Hi.
    destruct (existsb _ _); [done|]. injection Hi as _ <-. unfold credit_payload in Hr.
    apply st_bind_ok in Hr as (go & s & Hgo & Hr). injection Hgo as <- <-. injection Hr as <- <- <-.
    exists o, b, g, s1, s2, u. eexists. split_and!; done.
  - destruct e; try done. apply st_bind_ok in Hs as (w0 & s3 & Hw & Hs). injection Hw as <- <-. cbn in Hs.
    change (credit_rows (set_next_uuid s2 _)) with (credit_rows s2) in Hs. rewrite Hcr, Hf in Hs. done.
Qed.

(** Which instants a grant that matches a request counts at, and which grants count. *)
Lemma matched_counts g q al t :
  grant_request_matches g q al = true ->
  (if grant_counts (sc_owner_type (al_scope al)) (sc_owner_id (al_scope al)) (sc_bucket_type (al_scope al))
        (sc_start (al_scope al)) (sc_end (al_scope al)) t g then gr_allocated_micro g else 0)
  = if grant_active g && in_window (al_effective al) (al_expires al) t then gq_allocated_micro q else 0.
Proof.
  unfold grant_request_matches, grant_in_scope, in_scope, grant_counts, grant_active.
  rewrite !andb_true_iff, !bool_decide_eq_true, !String.eqb_eq, !Z.eqb_eq. intros Hm. destruct_and! Hm. subst.
  repeat match goal with H : ?a = _ |- context [?a] => rewrite H end.
  by rewrite !bool_decide_eq_true_2, !String.eqb_refl, !Z.eqb_refl by done.
Qed.

Lemma counts_scope sc t g :
  grant_counts (sc_owner_type sc) (sc_owner_id sc) (sc_bucket_type sc) (sc_start sc) (sc_end sc) t g = true ->
  grant_in_scope sc g = true /\ grant_active g = true.
Proof.
  unfold grant_counts, grant_in_scope, in_scope, grant_active. rewrite !andb_true_iff. naive_solver.
Qed.

(** A reset replaces what was given: when a reset under a new key answers with an active
    grant, the credits granted for the period count exactly the requested amount at every
    instant of its window and nothing outside it, whatever grants were there before; what was
    adjusted by hand stays, and the row that is returned is the request. *)
Lemma reset_replaces_credits q at_ db row db' t :
  governed digest lease_seconds db -> List.find (of_credit_key (cq_idempotency_key q)) (credit_rows db) = None ->
  reset_credits digest q at_ db = Ok ((row, "active"), db') ->
  let scope f := f (co_owner_type row) (co_owner_id row) (co_bucket_type row) (co_period_start row) (co_period_end row) in
  scope capacity_components t db'
    = (if in_window (co_effective_from row) (co_expires_at row) t then co_amount_micro row else 0,
       (scope capacity_components t db).2)
  /\ co_owner_id row = cq_owner_id q /\ co_amount_micro row = cq_amount_micro q
  /\ co_period_start row = stored_utc (cq_period_start q) /\ co_period_end row = stored_utc (cq_period_end q)
  /\ co_effective_from row = stored_utc (cq_effective_from q) /\ co_expires_at row = stored_utc <$> cq_expires_at q.
Proof.
  intros [Hok _]%governed_ok Hf (o & b & g & s1 & s2 & u & id & Ho & Hb & Hg & Hloop & -> & Hgs & Had & Hst)%reset_run scope; [|done].
  subst scope. cbn [new_credit co_owner_type co_owner_id co_bucket_type co_period_start co_period_end co_effective_from co_expires_at
    co_amount_micro credit_scope sc_owner_type sc_owner_id sc_bucket_type sc_start sc_end]. split; [|done].
  pose proof (create_grant_accounts _ _ _ _ _ Hok Hg) as [_ _ _ Hgok]. destruct (create_grant_rest _ _ _ _ _ Hg) as [_ Had1].
  apply create_grant_found in Hg as (al & Hal & Hfind & Hm & _).
  destruct (grant_scope _ _ _ _ _ _ Ho Hb Hal) as (Hsc & Heff & Hexp).
  assert (Hin1 : g ∈ db_grants s1) by (apply List.find_some in Hfind as [? _]; by apply list_elem_of_In).
  apply replace_loop in Hloop as (Hids & Had2 & _ & Hold & _).
  assert (Hg2 : g ∈ db_grants s2 /\ grant_active g = true).
  { destruct (kfind _ _ _) as [g'|] eqn:Hk; [|done]. apply kfind_some in Hk as [Hin Hid].
    assert (Hact : grant_active g' = true) by (unfold grant_active; destruct (String.eqb (gr_status g') ""); [done|]; by rewrite <- Hst).
    destruct (Hold g' Hin Hact) as [Hin' _]. by rewrite <- (same_grant _ _ g' g Hgok Hin' Hin1 Hid). }
  unfold capacity_components. rewrite Hgs, Had, Had2, Had1. cbn [snd]. f_equal.
  rewrite (sum_filter_single _ _ _ g); [|eapply NoDup_fmap_1; rewrite Hids; apply Hgok|apply Hg2|].
  - pose proof (matched_counts _ _ _ t Hm) as Hc. rewrite Hsc, Heff, Hexp, (proj2 Hg2) in Hc. exact Hc.
  - intros h Hh Hc. apply (counts_scope (credit_scope q o b)) in Hc as [Hhs Hact]. destruct (Hold h Hh Hact) as [Hh1 Hni].
    destruct (decide (gr_id h = gr_id g)) as [He|He]; [by eapply same_grant|]. destruct Hni. apply list_elem_of_fmap_2.
    apply list_elem_of_In, filter_In. split; [by apply list_elem_of_In|]. unfold replaced_by. rewrite Hact.
    apply String.eqb_neq in He. rewrite He. cbn. by rewrite Hhs.
Qed.
End promises.
