(* ===== verification/QuotaRules.v ===== *)
(** * QuotaRules: which price and which policy is in force

    Prices of a key never overlap, retiring a binding gives its window back to the binding it
    replaced, and the policy [explain_policy] shows is the one admission uses. *)
From S2P Require Import Prelude PyText Clock Usage Pricing Policy Reservation QuotaStore QuotaService QuotaInvariants.
From S2P Require Import QuotaManagement QuotaGovernance QuotaPrices QuotaGoverned.
Local Open Scope Z_scope.

Section rules.
Context `{Uuids} (digest : string -> string) (lease_seconds : Z).

(** Prices never overlap: in every governed store, at every instant, at most one active
    rule of a key is in force, so admission is never refused over an ambiguous price; and the
    rows of the table, retired ones included, always form a catalogue settlement accepts, in
    which two rules of a key in force at once are one rule. *)
Lemma prices_never_overlap db :
  governed digest lease_seconds db ->
  (forall k at_, (length (active_pricing_rows k at_ db) <= 1)%nat)
  /\ exists cat, PricingCatalog (prr_rule <$> db_pricing db) = Ok cat
      /\ forall p at_, p ∈ db_pricing db -> rule_active_at at_ (prr_rule p) = true ->
           active_rule cat (Some (rule_key (prr_rule p))) at_ = Ok (prr_rule p).
Proof.
  intros [_ Hok]%governed_ok. split; [intros; by apply prices_one|]. destruct (prices_catalog _ Hok) as [cat Hcat].
  exists cat. split; [done|]. intros p at_ Hp Ha. apply (active_rule_iff _ _ _ _ _ (prices_valid _ Hok) Hcat).
  split_and!; [by apply list_elem_of_fmap_2|done|done].
Qed.

(** ** Bindings *)

Definition same_subject (row b : BindingRow) : bool := of_subject (bi_subject_type row) (bi_subject_id row) b && binding_active b.

(** What a new binding writes. *)
Definition ended (row : BindingRow) (l mine : list BindingRow) : list BindingRow :=
  foldl (fun l b => kupdate bi_id (bi_id b) (binding_until (Some (bi_effective_from row))) l) l mine.

Lemma end_bindings from mine db u db' :
  st_iter (fun b => update_binding (bi_id b) (binding_until (Some from))) mine db = Ok (u, db') ->
  db' = set_bindings db (foldl (fun l b => kupdate bi_id (bi_id b) (binding_until (Some from)) l) (db_bindings db) mine).
Proof.
  revert db. induction mine as [|b mine IH]; intros db Hr; cbn [st_iter] in Hr.
  - injection Hr as _ <-. by destruct db.
  - apply st_bind_ok in Hr as (u1 & s & Hu & ->%IH). by injection Hu as _ <-.
Qed.

Lemma bind_policy_run q db row db' :
  bind_policy q db = Ok (row, db') ->
  let mine := List.filter (fun b => same_subject row b && binding_covers (bi_effective_from row) b) (db_bindings db) in
  bi_id row ∉ bi_id <$> ended row (db_bindings db) mine /\ binding_active row = true
  /\ is_Some (db_policies db !! bi_policy_id row)
  /\ match bi_effective_until row with Some u => bi_effective_from row < u | None => True end
  /\ db' = set_bindings (set_next_uuid db (S (db_next_uuid db))) (ended row (db_bindings db) mine ++ [row]).
Proof.
  unfold bind_policy. intros (t & s & Ht & Hr)%st_bind_ok. unfold lift in Ht. destruct (or_value_error _); [|done].
  injection Ht as -> ->. destruct (_ && _); [done|]. apply st_bind_ok in Hr as (start & s1 & Hs & Hr). unfold lift in Hs.
  destruct (management_utc (bq_effective_from q)); [|done]. injection Hs as -> ->.
  apply st_bind_ok in Hr as (end_ & s & He & Hr). unfold lift in He. destruct (management_until _ _) as [e|] eqn:Hu; [|done].
  injection He as -> ->. apply st_bind_ok in Hr as (p & s1 & Hp & Hr). injection Hp as Hp <-.
  destruct (negb _) eqn:Hact; [done|]. apply st_bind_ok in Hr as (c & s1 & Hc & Hr). injection Hc as <- <-.
  apply st_bind_ok in Hr as (u & s1 & ->%end_bindings & Hr). apply st_bind_ok in Hr as (id & s1 & Hid & Hr). injection Hid as <- <-.
  cbv zeta in Hr. apply st_bind_ok in Hr as (u1 & s1 & Hi & Hr). injection Hr as <- <-. unfold insert_binding, stmt in Hi.
  destruct (negb (unsigned _)); [done|]. destruct (existsb _ _) eqn:Hex; [done|]. injection Hi as _ <-. cbn.
  split_and!; [|done| | |done].
  - intros (b & Hb & Hin)%list_elem_of_fmap. eapply existsb_false_elem in Hex; [|exact Hin]. by rewrite <- Hb, String.eqb_refl in Hex.
  - rewrite Hp. destruct p; [by eexists|done].
  - unfold management_until in Hu. destruct (bq_effective_until q) as [d|]; [|by injection Hu as <-].
    destruct (management_utc d) as [u'|]; [cbn in Hu|done]. destruct (u' <=? start) eqn:Hle; [done|]. injection Hu as <-. lia.
Qed.

Lemma retire_run id db row l p l' row' :
  kfind bi_id id (db_bindings db) = Some row -> binding_active row = true ->
  kupdate bi_id id binding_retired (db_bindings db) = l ->
  head (sort_by later_start (List.filter (closed_at (bi_subject_type row) (bi_subject_id row) (bi_effective_from row)) l)) = Some p ->
  kupdate bi_id (bi_id p) (binding_until (bi_effective_until row)) l = l' ->
  kfind bi_id id l' = Some row' -> is_Some (db_policies db !! bi_policy_id row') ->
  retire_binding id db = Ok (row', set_bindings db l').
Proof.
  intros Hf Hact <- Hp <- Hf' [pol Hpol]. unfold retire_binding, gets, mbind, st_bind. rewrite Hf. cbn -[kupdate kfind sort_by closed_at].
  unfold when. rewrite Hact. cbn -[kupdate kfind sort_by closed_at]. unfold mbind, st_bind. cbn -[kupdate kfind sort_by closed_at]. rewrite Hp.
  cbn -[kupdate kfind]. unfold joined_binding. cbn -[kupdate kfind]. rewrite Hf'. cbn -[kupdate kfind]. by rewrite Hpol.
Qed.

(** The binding a retired one replaced is the only one that ended at its start. *)
Lemma closed_one row l1 P l2 :
  (forall b, b ∈ l1 -> same_subject row b = true -> bi_effective_until b <> Some (bi_effective_from row)) ->
  (forall b, b ∈ l2 -> same_subject row b = true -> bi_effective_until b <> Some (bi_effective_from row)) ->
  same_subject row P = true ->
  List.filter (closed_at (bi_subject_type row) (bi_subject_id row) (bi_effective_from row))
    ((l1 ++ binding_until (Some (bi_effective_from row)) P :: l2) ++ [binding_retired row])
  = [binding_until (Some (bi_effective_from row)) P].
Proof.
  intros H1 H2 HP. assert (Hn : forall l, (forall b, b ∈ l -> same_subject row b = true -> bi_effective_until b <> Some (bi_effective_from row)) ->
    List.filter (closed_at (bi_subject_type row) (bi_subject_id row) (bi_effective_from row)) l = []).
  { intros l Hl. apply filter_none. intros b Hb. unfold closed_at. destruct (same_subject row b) eqn:Hs; unfold same_subject in Hs; rewrite Hs; [|done].
    apply bool_decide_eq_false_2. by apply Hl. }
  rewrite !List.filter_app. cbn [List.filter]. rewrite (Hn l1 H1), (Hn l2 H2).
  assert (closed_at (bi_subject_type row) (bi_subject_id row) (bi_effective_from row) (binding_until (Some (bi_effective_from row)) P) = true) as ->.
  { unfold closed_at. cbn. rewrite bool_decide_eq_true_2 by done. unfold same_subject in HP. exact (andb_true_intro (conj HP eq_refl)). }
  assert (closed_at (bi_subject_type row) (bi_subject_id row) (bi_effective_from row) (binding_retired row) = false) as ->; [|done].
  unfold closed_at. cbn. by rewrite andb_false_r.
Qed.

(** Retiring undoes binding: where one binding [P] of a subject was in force when a new one
    was bound to it, and no active binding of the subject ended just then, retiring the new
    one returns, keeps it as a retired row, and hands its window back to [P], which from then
    on ends when the new binding would have; where the two had the same end, every older row is
    again what it was.  Nothing else in the database changes. *)
Lemma retire_undoes_binding q db row db1 P :
  NoDup (bi_id <$> db_bindings db) -> bind_policy q db = Ok (row, db1) ->
  List.filter (fun b => same_subject row b && binding_covers (bi_effective_from row) b) (db_bindings db) = [P] ->
  (forall b, b ∈ db_bindings db -> same_subject row b = true -> bi_effective_until b <> Some (bi_effective_from row)) ->
  exists l, retire_binding (bi_id row) db1
            = Ok (binding_retired row, set_bindings (set_next_uuid db (S (db_next_uuid db))) (l ++ [binding_retired row]))
    /\ l = kupdate bi_id (bi_id P) (binding_until (bi_effective_until row)) (db_bindings db)
    /\ (bi_effective_until P = bi_effective_until row -> l = db_bindings db).
Proof.
  intros Hnd Hr Hmine Hno. apply bind_policy_run in Hr as (Hni & Hact & Hpol & Hlt & Hdb). rewrite Hmine in Hni, Hdb.
  assert (HP : P ∈ db_bindings db /\ same_subject row P = true).
  { assert (HP : P ∈ [P]) by set_solver. rewrite <- Hmine in HP. by apply list_elem_of_In, filter_In in HP as [?%list_elem_of_In [? _]%andb_true_iff]. }
  destruct HP as [HP HPs]. apply list_elem_of_split in HP as (l1 & l2 & Hl). rewrite Hl in Hnd, Hno.
  rewrite fmap_app, fmap_cons in Hnd. apply NoDup_app in Hnd as (_ & Hd & [HP2 _]%NoDup_cons).
  assert (HP1 : bi_id P ∉ bi_id <$> l1) by (intros Hin; apply (Hd _ Hin); set_solver).
  unfold ended in Hni, Hdb. cbn [foldl] in Hni, Hdb. rewrite Hl, kupdate_split in Hni, Hdb by done.
  set (P' := binding_until (Some (bi_effective_from row)) P) in *.
  assert (HR : bi_id row ∉ bi_id <$> l1 ++ binding_until (bi_effective_until row) P :: l2) by (rewrite fmap_app in Hni |- *; exact Hni).
  exists (l1 ++ binding_until (bi_effective_until row) P :: l2). split_and!.
  - set (l := l1 ++ binding_until _ P :: l2) in *.
    trans (@Ok QuotaError _ (binding_retired row, set_bindings db1 (l ++ [binding_retired row]))); [|by rewrite Hdb].
    rewrite Hdb. eapply (retire_run _ _ row _ P'); [by apply kfind_last|done|apply kupdate_split; [done|by apply not_elem_of_nil]|..|done].
    + unfold P'. rewrite (closed_one row l1 P l2); [done| | |done].
      * intros b Hb Hs. apply (Hno b); [|done]. apply elem_of_app. by left.
      * intros b Hb Hs. apply (Hno b); [|done]. apply elem_of_app. right. by right.
    + rewrite <- app_assoc. cbn [app]. change (bi_id P') with (bi_id P). change (bi_id P) with (bi_id P') at 1.
      rewrite kupdate_split; [by unfold l; rewrite <- app_assoc|done|].
      rewrite fmap_app. cbn. intros [Hin|Hin%list_elem_of_singleton]%elem_of_app; [by destruct HP2|].
      apply Hni. rewrite <- Hin, fmap_app. set_solver.
    + exact (kfind_last bi_id _ (binding_retired row) HR).
  - by rewrite Hl, kupdate_split.
  - intros <-. rewrite Hl. by destruct P.
Qed.

(** ** The policy that is shown *)

Abbreviation BASE_TYPES := [SubDefault; SubRole; SubUser; SubClassroom].

Lemma filter_omap {A B} (p : B -> bool) (f g : A -> option B) l :
  (forall x, (match f x with Some y => if p y then Some y else None | None => None end) = g x) ->
  List.filter p (omap f l) = omap g l.
Proof.
  intros Hg. induction l as [|x l IH]; [done|]. cbn. rewrite <- Hg, <- IH. destruct (f x) as [y|]; [|done]. cbn. by destruct (p y).
Qed.

Ltac types_tac := destruct (db_policies _ !! _) as [p|]; cbn; [|by case_match];
  destruct (String.eqb (po_status p) _), (String.eqb (bi_status _) _), (in_window (bi_effective_from _) _ _),
    (in_window (po_effective_from p) _ _), (bi_subject_type _); reflexivity.

Lemma base_bindings db at_ :
  List.filter (fun b => negb (is_workspace b)) (load_bindings at_ db) = omap (binding_of_row db at_ BASE_TYPES) (db_bindings db).
Proof.
  apply filter_omap. intros row. unfold load_binding, binding_of_row, binding_active, binding_covers, is_workspace. cbn.
  types_tac.
Qed.

Lemma workspace_bindings db at_ :
  List.filter is_workspace (load_bindings at_ db) = omap (binding_of_row db at_ [SubWorkspace]) (db_bindings db).
Proof.
  apply filter_omap. intros row. unfold load_binding, binding_of_row, binding_active, binding_covers, is_workspace. cbn.
  types_tac.
Qed.

Lemma resolve_ext l u w w' r r' c c' at_ :
  (forall b, b ∈ l -> binding_eligible u w r c at_ b = binding_eligible u w' r' c' at_ b) ->
  resolve_effective_policy l u w r c at_ = resolve_effective_policy l u w' r' c' at_.
Proof.
  intros Heq. unfold resolve_effective_policy. rewrite (filter_ext_in _ (binding_eligible u w' r' c' at_)); [done|].
  intros b Hb. by apply Heq, list_elem_of_In.
Qed.

Lemma of_types db at_ ts b : b ∈ omap (binding_of_row db at_ ts) (db_bindings db) -> subject_type b ∈ ts.
Proof.
  intros (row & _ & Hb)%list_elem_of_omap. unfold binding_of_row in Hb. destruct (negb _) eqn:Ht; [done|].
  repeat (case_match; try done). injection Hb as <-. apply negb_false_iff, bool_decide_eq_true in Ht. exact Ht.
Qed.

(** Without a workspace no workspace binding applies. *)
Lemma resolve_no_workspace l u r c at_ :
  (forall b, b ∈ l -> subject_type b = SubWorkspace) -> resolve_effective_policy l u None r c at_ = Err POLICY_NOT_FOUND.
Proof.
  intros Hl. unfold resolve_effective_policy. rewrite filter_none; [done|]. intros b Hb. unfold binding_eligible.
  rewrite (Hl b Hb). apply andb_false_r.
Qed.

(** The base and the workspace lookup, as both methods make them. *)
Lemma explain_run cmd roles classrooms d at_ db :
  management_utc d = Ok at_ ->
  explain_policy (at_user_id cmd) (at_workspace_id cmd) roles classrooms d db
  = match resolve_effective_policy (omap (binding_of_row db at_ BASE_TYPES) (db_bindings db)) (at_user_id cmd)
            (at_workspace_id cmd) roles classrooms at_ with
    | Err c => Err (Domain c)
    | Ok b =>
        match resolve_effective_policy (omap (binding_of_row db at_ [SubWorkspace]) (db_bindings db)) (at_user_id cmd)
                (at_workspace_id cmd) roles classrooms at_ with
        | Ok w => Ok ((b, Some w), db)
        | Err POLICY_NOT_FOUND => Ok ((b, None), db)
        | Err c => Err (Domain c)
        end
    end.
Proof.
  intros Hd. unfold explain_policy, lift, gets, mbind, st_bind. rewrite Hd. cbn -[load_bindings resolve_effective_policy List.filter].
  rewrite base_bindings, workspace_bindings. set (B := omap _ _). set (W := omap _ _).
  assert (HB : forall b, b ∈ B -> subject_type b ∈ BASE_TYPES) by (intros b; apply of_types).
  assert (HW : forall b, b ∈ W -> subject_type b = SubWorkspace) by (by intros b ?%of_types%list_elem_of_singleton).
  rewrite (resolve_ext B _ None (at_workspace_id cmd) _ roles _ classrooms).
  2:{ intros b Hb. specialize (HB b Hb). unfold binding_eligible. destruct (subject_type b); [done..| |done]. rewrite !elem_of_cons, elem_of_nil in HB. naive_solver. }
  destruct (resolve_effective_policy B _ _ _ _ _); [|done]. cbn -[resolve_effective_policy].
  destruct (at_workspace_id cmd) as [w|].
  - rewrite (resolve_ext W _ (Some w) (Some w) roles [] classrooms [] _).
    2:{ intros b Hb. unfold binding_eligible. by rewrite (HW b Hb). }
    destruct W as [|b W]; [done|]. destruct (resolve_effective_policy _ _ _ _ _ _) as [?|[]]; done.
  - rewrite (resolve_no_workspace W) by done. by destruct W.
Qed.

(** The explanation is what admission does: for a principal at an instant, [explain_policy]
    shows a base and a workspace policy exactly when the two lookups of admission return
    them, and whenever admission finds its policies the explanation returns those. *)
Lemma explain_agrees_with_admission cmd roles classrooms d at_ db :
  management_utc d = Ok at_ ->
  let explained b w := explain_policy (at_user_id cmd) (at_workspace_id cmd) roles classrooms d db = Ok ((b, w), db) in
  (forall b w, explained b w <->
     effective_binding cmd roles classrooms at_ BASE_TYPES false db = Ok (Some b, db)
     /\ effective_binding cmd roles classrooms at_ [SubWorkspace] true db = Ok (w, db))
  /\ (forall ap db', admit_policies cmd roles classrooms at_ db = Ok (ap, db') -> explained (ap_base ap) (ap_workspace ap)).
Proof.
  intros Hd explained. assert (Hiff : forall b w, explained b w <->
     effective_binding cmd roles classrooms at_ BASE_TYPES false db = Ok (Some b, db)
     /\ effective_binding cmd roles classrooms at_ [SubWorkspace] true db = Ok (w, db)).
  { intros b w. unfold explained. rewrite (explain_run cmd roles classrooms d at_ db Hd).
    unfold effective_binding, gets, mbind, st_bind. cbn -[resolve_effective_policy].
    destruct (resolve_effective_policy _ _ _ _ _ _) as [b'|c']; cbn -[resolve_effective_policy]; [|by split; [|intros [? _]]].
    destruct (resolve_effective_policy _ _ _ _ _ _) as [w'|[]]; first
      [ split; [by intros [= -> <-] | by intros [[= ->] [= <-]]] | split; [done | by intros [_ ?]] ]. }
  split; [exact Hiff|]. intros ap db' Hr. unfold admit_policies in Hr. apply st_bind_ok in Hr as (b & s & Hb & Hr).
  destruct b as [b|]; [|done]. apply st_bind_ok in Hr as (w & s1 & Hw & Hr). apply st_bind_ok in Hr as (cl & s2 & _ & Hr).
  injection Hr as <- <-. cbn. pose proof (st_readonly _ _ _ _ (effective_binding_readonly _ _ _ _ _ _ _) Hb) as ->.
  pose proof (st_readonly _ _ _ _ (effective_binding_readonly _ _ _ _ _ _ _) Hw) as ->. by apply Hiff.
Qed.
End rules.
