(* ===== verification/QuotaStewards.v ===== *)
(** * QuotaStewards: a small deployment and its managers

    [QuotaWorld]'s deployment with a price, a grant, a reset and an admitted Turn, at which the
    theorems of [QuotaPromises] and [QuotaRules] are instantiated. *)
From S2P Require Import Prelude PyText Clock Usage Pricing Policy Reservation QuotaStore QuotaService QuotaInvariants QuotaWorld.
From S2P Require Import QuotaManagement QuotaOperations QuotaGovernance QuotaPrices QuotaGoverned QuotaPromises QuotaRules.
Local Open Scope Z_scope.

Module StewardWorld.
(** A stand-in for the hash. *)
Definition digest (s : string) : string := "h" +:+ s.
Definition utc_at (t : Z) : Datetime := {| dt_wall := t; dt_offset := Some 0 |}.

Definition db0 : DB := set_pricing world0 [].

(** The price, then its successor. *)
Definition rates : PricingRule := world_rule.
Definition db1 : DB := after (create_pricing_rule rates (utc_at 0) (Some (utc_at (noon 20))) "admin") db0.
Definition successor : PricingRule :=
  {| rule_key := "m"; rule_version := "2"; effective_from := noon 20; effective_until := None;
     ordinary_input_rate := 1; cached_input_rate := 1; cache_write_rate := 1; output_rate := 1;
     reasoning_output_rate := None; visual_input_rate := None; image_unit_micro := None;
     search_call_micro := None; link_page_micro := None |}.
Definition db2 : DB := after (create_pricing_rule successor (utc_at (noon 20)) None "admin") db1.

(** Thirty credits for a day, then a reset to fifty. *)
Definition grant_q : GrantRequest :=
  {| gq_owner_type := "user"; gq_owner_id := "alice"; gq_bucket_type := "daily"; gq_period_start := utc_at (10 * DAY);
     gq_period_end := utc_at (11 * DAY); gq_allocated_micro := 30; gq_source_type := "grant"; gq_created_by := "admin";
     gq_reason := "bonus"; gq_idempotency_key := "g1"; gq_effective_from := utc_at (10 * DAY); gq_expires_at := None;
     gq_source_id := None |}.
Definition reset_q : CreditRequest :=
  {| cq_owner_type := "user"; cq_owner_id := "alice"; cq_bucket_type := "daily"; cq_period_start := utc_at (10 * DAY);
     cq_period_end := utc_at (11 * DAY); cq_amount_micro := 50; cq_actor_user_id := "admin"; cq_reason := "fresh start";
     cq_idempotency_key := "r1"; cq_effective_from := utc_at (noon 10); cq_expires_at := Some (utc_at (noon 10 + 3600 * SECOND));
     cq_source_id := None |}.
Definition db3 : DB := after (create_grant grant_q (noon 10)) db2.
Definition db4 : DB := after (reset_credits digest reset_q (noon 10)) db3.
Definition db5 : DB := after (admit_turn "t1" 40 (noon 10)) db4.

Lemma db0_governed : governed digest lease db0.
Proof. apply gov_init. by repeat split. Defined.
Lemma db2_governed : governed digest lease db2.
Proof. eapply gov_manager; [eapply gov_manager; [exact db0_governed|]|]; apply ms_create_rule. Defined.
Lemma db3_governed : governed digest lease db3.
Proof. eapply gov_manager; [exact db2_governed|apply ms_create_grant]. Defined.
Lemma db4_governed : governed digest lease db4.
Proof. eapply gov_manager; [exact db3_governed|apply ms_reset]. Defined.
Lemma db5_governed : governed digest lease db5.
Proof. eapply gov_service; [exact db4_governed|]. apply step_admit. Defined.

(** A repair of a bucket whose counters were overwritten, and a binding that replaces another. *)
Definition bucket5 : BucketRow := default (new_bucket "" OUser "" Daily 0 0 world_policy None 0) (db_buckets db5 !! "u8").
Definition spoiled : DB := set_buckets db5 (alter (write_counters 7 999 true 3 (noon 10)) "u8" (db_buckets db5)).
Definition repaired5 : DB := after (repair_bucket digest "u8" "audit" "k1" (noon 10)) spoiled.
Definition report5 : option BucketReplay :=
  match answer (repair_bucket digest "u8" "audit" "k1" (noon 10)) spoiled with Ok r => Some r | Err _ => None end.

Definition bind_q : BindingRequest :=
  {| bq_subject_type := "default"; bq_subject_id := "*"; bq_policy_id := "p"; bq_priority := 0;
     bq_effective_from := utc_at (noon 12); bq_effective_until := None |}.
Definition db6 : DB := after (bind_policy bind_q) db5.
Definition bound : BindingRow :=
  {| bi_id := "u10"; bi_subject_type := SubDefault; bi_subject_id := "*"; bi_policy_id := "p"; bi_priority := 0;
     bi_status := "active"; bi_effective_from := noon 12; bi_effective_until := None |}.
Definition first_binding : BindingRow :=
  {| bi_id := "b"; bi_subject_type := SubDefault; bi_subject_id := "*"; bi_policy_id := "p";
     bi_priority := 0; bi_status := "active"; bi_effective_from := 0; bi_effective_until := None |}.
End StewardWorld.
Import StewardWorld.

Lemma grants_match_ledger_witness :
  governed digest lease db4
  /\ (forall g, g ∈ db_grants db4 ->
        grant_total (gr_id g) (db_ledger db4) = if grant_active g then gr_allocated_micro g else 0)
  /\ gr_status <$> db_grants db4 = ["expired"; "active"].
Proof.
  split; [exact db4_governed|]. split; [|vm_compute; reflexivity].
  apply (grants_match_ledger digest lease db4 db4_governed).
Defined.

Lemma create_grant_retry_witness :
  exists g, answer (create_grant grant_q (noon 10)) db2 = Ok g
  /\ forall later, create_grant grant_q later db3 = Ok (g, db3).
Proof.
  eexists. split; [vm_compute; reflexivity|]. apply (create_grant_retry grant_q (noon 10) db2). vm_compute. reflexivity.
Defined.

Lemma replay_agrees_with_books_witness :
  exists r, replay_bucket "u8" (noon 10) db5 = Ok (r, db5)
    /\ br_expected_reserved r = b_reserved_micro bucket5 /\ b_reserved_micro bucket5 = 40.
Proof.
  destruct (replay_agrees_with_books digest lease db5 "u8" bucket5 (noon 10) db5_governed) as (r & Hr & He & _).
  - vm_compute. reflexivity.
  - vm_compute. eexists. reflexivity.
  - exists r. split; [exact Hr|]. split; [exact He|vm_compute; reflexivity].
Defined.

Lemma repair_restores_books_witness :
  balanced repaired5 /\ (b_consumed_micro <$> db_buckets spoiled !! "u8") = Some 999
  /\ (b_consumed_micro <$> db_buckets repaired5 !! "u8") = Some 0.
Proof.
  split; [|split; vm_compute; reflexivity].
  refine (proj1 (repair_restores_books digest lease db5 "u8" bucket5 7 999 true 3 "audit" "k1" (noon 10)
    (default (Build_BucketReplay "" 0 0 0 0 false 0 false) report5) repaired5 db5_governed _ _ _)); vm_compute; reflexivity.
Defined.

Lemma reset_replaces_credits_witness :
  capacity_components OUser "alice" Daily (10 * DAY) (11 * DAY) (noon 10) db3 = (30, 0)
  /\ capacity_components OUser "alice" Daily (10 * DAY) (11 * DAY) (noon 10 + 1) db4 = (50, 0).
Proof.
  split; [vm_compute; reflexivity|].
  refine (proj1 (reset_replaces_credits digest lease reset_q (noon 10) db3 (new_credit Reset reset_q
    (credit_scope reset_q OUser Daily) "u4" "u7") db4 (noon 10 + 1) db3_governed _ _)); vm_compute; reflexivity.
Defined.

Lemma prices_never_overlap_witness :
  (length (active_pricing_rows "m" (noon 20) db2) <= 1)%nat /\ length (db_pricing db2) = 2%nat.
Proof.
  split; [|vm_compute; reflexivity].
  apply (proj1 (prices_never_overlap digest lease db2 db2_governed)).
Defined.

Lemma retire_undoes_binding_witness :
  exists l, retire_binding "u10" db6
            = Ok (binding_retired bound, set_bindings (set_next_uuid db5 11) (l ++ [binding_retired bound]))
    /\ l = db_bindings db5.
Proof.
  destruct (retire_undoes_binding bind_q db5 bound db6 first_binding) as (l & Hr & _ & Hl).
  - vm_compute. apply NoDup_singleton.
  - vm_compute. reflexivity.
  - vm_compute. reflexivity.
  - intros b Hb _. assert (b = first_binding) as ->; [|discriminate]. apply list_elem_of_singleton. exact Hb.
  - exists l. split; [exact Hr|]. apply Hl. vm_compute. reflexivity.
Defined.

Lemma explain_agrees_with_admission_witness :
  exists b w, explain_policy "alice" None [] [] (utc_at (noon 10)) db5 = Ok ((b, w), db5) /\ policy_id (policy b) = "p".
Proof.
  destruct (explain_agrees_with_admission (turn "t2" 10) [] [] (utc_at (noon 10)) (noon 10) db5) as [_ Hap];
    [vm_compute; reflexivity|].
  eexists _, _. split; [eapply (Hap {| ap_base := _; ap_workspace := _; ap_classrooms := _ |}); vm_compute; reflexivity|].
  vm_compute. reflexivity.
Defined.
