(* ===== verification/Reporting.v ===== *)
(** * Reporting: the durable usage reporter

    [DurableModelUsageReporter] ([server/quota/reporting.py]): one row of [nlp_usage_events] per
    provider attempt, priced from the catalogue and settled against the attempt's reservation in
    the same transaction.  The row's identifier and the clock readings are arguments, and the
    digest of [hashlib] is a parameter.  [report_transaction] is the body of the
    [with self._engine.begin()] block, given the row the block read first; [report_sync] adds the
    re-run after an [IntegrityError], with what other connections commit between that read and
    the writes as an argument.  Texts are counted in characters of one byte.  Not modelled: the
    engine's life cycle, the notification of subscribers after the commit. *)
From S2P Require Import Prelude Clock Usage Pricing Policy Reservation QuotaStore QuotaService.
Local Open Scope Z_scope.

Definition IMAGE_ANALYZE_PRICING_KEY : string := "feature/image-understanding".
Definition LINK_READ_PRICING_KEY : string := "feature/link-read".
Definition PROVIDER_RESPONSE_ID_MAX_LENGTH : nat := 255.

(** The texts the enumerations are stored and settled under. *)
Definition source_name (s : UsageSource) : string :=
  match s with SrcProvider => "provider" | SrcEstimated => "estimated" | SrcNone => "none" end.

(** A text that is neither [None] nor empty. *)
Definition truthy (o : option string) : option string :=
  match o with Some s => if String.eqb s "" then None else Some s | None => None end.

(** [a or b] on optional texts. *)
Definition or_else (a b : option string) : option string :=
  match truthy a with Some s => Some s | None => b end.

(** ** The price of a report *)

(** [_pricing_rules]: every rule of the key, retired ones too, each validated as it is built. *)
Fixpoint validated (rules : list PricingRule) : result pricing_error (list PricingRule) :=
  match rules with
  | [] => Ok []
  | r :: rest => v ← validate_pricing_rule r; vs ← validated rest; Ok (v :: vs)
  end.

Definition pricing_rules (inv : ModelInvocation) (db : DB) : result pricing_error (list PricingRule) :=
  match pricing_key (identity inv) with
  | None => Ok []
  | Some k => validated (prr_rule <$> List.filter (fun row => String.eqb (rule_key (prr_rule row)) k) (db_pricing db))
  end.

Definition not_final (u : CanonicalTokenUsage) (outcome : InvocationOutcome) : bool :=
  match semantics u with SemCumulative | SemDelta | SemPartial => true | SemFinal => false end
  || match oc_status outcome with Cancelled | Interrupted => true | _ => false end.

(** The [try] of [_price]: every pricing error leaves the report pending. *)
Definition catalogue_price (inv : ModelInvocation) (u : CanonicalTokenUsage) (outcome : InvocationOutcome) (db : DB)
  : result pricing_error PricedUsage :=
  rules ← pricing_rules inv db;
  catalog ← PricingCatalog rules;
  price catalog inv u outcome true.

(** [_price]: the version, the credits and the status of the event. *)
Definition report_price (inv : ModelInvocation) (u : CanonicalTokenUsage) (outcome : InvocationOutcome) (db : DB)
  : option string * option Z * string :=
  if bool_decide (source u = SrcNone) then (None, None, "unavailable")
  else if not_final u outcome then (None, None, "pending")
  else match catalogue_price inv u outcome db with
       | Err _ => (None, None, "pending")
       | Ok priced => (Some (priced_version priced), Some (credits_micro priced),
                       if bool_decide (source u = SrcEstimated) then "estimated" else "exact")
       end.

Section reporter.
Context `{Uuids}.

(** [hashlib.sha256(...).hexdigest()]. *)
Variable sha256 : string -> string.
(** Whether the reporter was given a [QuotaService]. *)
Variable quota_service : bool.

(** [_storage_safe_provider_response_id]. *)
Definition storage_safe_provider_response_id (value : option string) : option string :=
  match value with
  | None => None
  | Some v =>
      if (String.length v <=? PROVIDER_RESPONSE_ID_MAX_LENGTH)%nat then Some v
      else
        let digest := sha256 v in
        let marker := ":sha256:" in
        let prefix_length := (PROVIDER_RESPONSE_ID_MAX_LENGTH - String.length marker - String.length digest)%nat in
        Some (String.substring 0 prefix_length v +:+ marker +:+ digest)
  end.

(** [_values]: the row of a report. *)
Definition event_values (id : string) (inv : ModelInvocation) (u : CanonicalTokenUsage) (outcome : InvocationOutcome)
  (created_at : Z) (db : DB) : UsageEventRow :=
  let '(pricing_version, credits_micro, usage_status) := report_price inv u outcome db in
  let a := attribution inv in
  let i := identity inv in
  let f := feature_usage inv in
  {| ue_id := id; ue_operation_id := operation_id inv; ue_reservation_id := ua_reservation_id a;
     ue_user_id := ua_user_id a; ue_workspace_id := ua_workspace_id a;
     ue_conversation_id := ua_conversation_id a; ue_turn_id := ua_turn_id a; ue_worker_id := ua_worker_id a;
     ue_parent_operation_id := ua_parent_operation_id a; ue_purpose := ua_purpose a;
     ue_provider := provider i; ue_provider_model := provider_model i;
     ue_provider_response_id := storage_safe_provider_response_id (provider_response_id u);
     ue_model_profile := model_profile i; ue_preset := preset i; ue_route := route i;
     ue_pricing_key := pricing_key i; ue_attempt := attempt inv; ue_fallback_index := fallback_index inv;
     ue_outcome_status := oc_status outcome; ue_finish_reason := finish_reason outcome;
     ue_error_kind := error_kind outcome;
     ue_input_tokens := input_tokens u; ue_cached_input_tokens := cached_input_tokens u;
     ue_cache_miss_input_tokens := cache_miss_input_tokens u;
     ue_cache_write_input_tokens := cache_write_input_tokens u; ue_output_tokens := output_tokens u;
     ue_reasoning_output_tokens := reasoning_output_tokens u;
     ue_visual_input_tokens := visual_input_tokens f; ue_image_units := image_units f;
     ue_search_calls := search_calls f; ue_link_pages := link_pages f; ue_total_tokens := total_tokens u;
     ue_usage_source := source u; ue_cache_status := cache_status u; ue_usage_status := usage_status;
     ue_pricing_version := pricing_version; ue_credits_micro := credits_micro;
     ue_raw_usage := {| up_invocation := inv; up_usage := u; up_outcome := outcome |};
     ue_dedupe_key := operation_id inv; ue_idempotency_key := operation_id inv;
     ue_started_at := started_at inv; ue_occurred_at := completed_at outcome; ue_created_at := created_at;
     ue_archived_at := None; ue_archive_batch_id := None |}.

(** ** The event table *)

Definition set_usage_events (db : DB) (l : list UsageEventRow) : DB :=
  set_operations db
    {| ot_credits := ot_credits (db_operations db); ot_role_credits := ot_role_credits (db_operations db);
       ot_usage_events := l; ot_billing := ot_billing (db_operations db) |}.

(** The [BIGINT UNSIGNED] columns of a row and its bounded texts. *)
Definition text_fits (n : nat) (s : string) : bool := (String.length s <=? n)%nat.
Definition opt_text_fits (n : nat) (s : option string) : bool :=
  match s with Some s => text_fits n s | None => true end.

Definition event_fits (e : UsageEventRow) : bool :=
  forallb unsigned
    [ue_attempt e; ue_fallback_index e; ue_input_tokens e; ue_cached_input_tokens e; ue_cache_miss_input_tokens e;
     ue_cache_write_input_tokens e; ue_output_tokens e; ue_reasoning_output_tokens e; ue_visual_input_tokens e;
     ue_image_units e; ue_search_calls e; ue_link_pages e; ue_total_tokens e; default 0 (ue_credits_micro e)]
  && forallb (text_fits 128) [ue_operation_id e; ue_user_id e; ue_provider e; ue_preset e]
  && forallb (text_fits 255) [ue_provider_model e; ue_dedupe_key e; ue_idempotency_key e]
  && forallb (opt_text_fits 128)
       [ue_reservation_id e; ue_workspace_id e; ue_conversation_id e; ue_turn_id e; ue_worker_id e;
        ue_parent_operation_id e; ue_model_profile e; ue_route e; ue_finish_reason e; ue_error_kind e]
  && forallb (opt_text_fits 255) [ue_provider_response_id e; ue_pricing_key e]
  && opt_text_fits 64 (ue_pricing_version e).

(** [_existing_event]. *)
Definition existing_event (operation_id_ : string) (db : DB) : option UsageEventRow :=
  kfind ue_operation_id operation_id_ (ot_usage_events (db_operations db)).

(** [INSERT INTO nlp_usage_events], with its primary key and the unique operation. *)
Definition insert_event (e : UsageEventRow) : Tx () := stmt (fun db =>
  if negb (event_fits e) then Err DataError
  else if existsb (fun x => String.eqb (ue_id x) (ue_id e) || String.eqb (ue_operation_id x) (ue_operation_id e))
            (ot_usage_events (db_operations db))
  then Err IntegrityError
  else Ok ((), set_usage_events db (ot_usage_events (db_operations db) ++ [e]))).

(** [mutable_values] over a stored row: the keys and [created_at] stay, and so do the columns
    [_values] does not name. *)
Definition overwrite_event (v e : UsageEventRow) : UsageEventRow :=
  {| ue_id := ue_id e; ue_operation_id := ue_operation_id e; ue_reservation_id := ue_reservation_id v;
     ue_user_id := ue_user_id v; ue_workspace_id := ue_workspace_id v;
     ue_conversation_id := ue_conversation_id v; ue_turn_id := ue_turn_id v; ue_worker_id := ue_worker_id v;
     ue_parent_operation_id := ue_parent_operation_id v; ue_purpose := ue_purpose v;
     ue_provider := ue_provider v; ue_provider_model := ue_provider_model v;
     ue_provider_response_id := ue_provider_response_id v;
     ue_model_profile := ue_model_profile v; ue_preset := ue_preset v; ue_route := ue_route v;
     ue_pricing_key := ue_pricing_key v; ue_attempt := ue_attempt v; ue_fallback_index := ue_fallback_index v;
     ue_outcome_status := ue_outcome_status v; ue_finish_reason := ue_finish_reason v;
     ue_error_kind := ue_error_kind v;
     ue_input_tokens := ue_input_tokens v; ue_cached_input_tokens := ue_cached_input_tokens v;
     ue_cache_miss_input_tokens := ue_cache_miss_input_tokens v;
     ue_cache_write_input_tokens := ue_cache_write_input_tokens v; ue_output_tokens := ue_output_tokens v;
     ue_reasoning_output_tokens := ue_reasoning_output_tokens v;
     ue_visual_input_tokens := ue_visual_input_tokens v; ue_image_units := ue_image_units v;
     ue_search_calls := ue_search_calls v; ue_link_pages := ue_link_pages v; ue_total_tokens := ue_total_tokens v;
     ue_usage_source := ue_usage_source v; ue_cache_status := ue_cache_status v;
     ue_usage_status := ue_usage_status v;
     ue_pricing_version := ue_pricing_version v; ue_credits_micro := ue_credits_micro v;
     ue_raw_usage := ue_raw_usage v;
     ue_dedupe_key := ue_dedupe_key e; ue_idempotency_key := ue_idempotency_key e;
     ue_started_at := ue_started_at v; ue_occurred_at := ue_occurred_at v; ue_created_at := ue_created_at e;
     ue_archived_at := ue_archived_at e; ue_archive_batch_id := ue_archive_batch_id e |}.

(** [UPDATE nlp_usage_events SET ... WHERE operation_id = :operation_id]. *)
Definition update_event (operation_id_ : string) (v : UsageEventRow) : Tx () := stmt (fun db =>
  if event_fits v
  then Ok ((), set_usage_events db
                 (kupdate ue_operation_id operation_id_ (overwrite_event v) (ot_usage_events (db_operations db))))
  else Err DataError).

(** ** Reporting *)

(** The usage fact an event is settled or reconciled as. *)
Definition event_fact (reservation_id operation_id_ : string) (v : UsageEventRow) : UsageFact :=
  {| uf_reservation_id := reservation_id; uf_operation_id := operation_id_;
     uf_credits_micro := default 0 (ue_credits_micro v); uf_usage_status := ue_usage_status v;
     uf_usage_source := source_name (ue_usage_source v); uf_pricing_key := ue_pricing_key v;
     uf_pricing_version := ue_pricing_version v |}.

(** [_settle_in_transaction], when there is a service and a reservation. *)
Definition settle_event (reservation_id : option string) (operation_id_ : string) (v : UsageEventRow) (now_ : Z) : Tx () :=
  match truthy reservation_id with
  | Some rid =>
      if quota_service then _ ← settle_usage_in_transaction (event_fact rid operation_id_ v) now_; mret ()
      else mret ()
  | None => mret ()
  end.

(** The reconciliation of a pending event, as of the moment its attempt completed. *)
Definition reconcile_event (reservation_id : option string) (operation_id_ : string) (v : UsageEventRow) : Tx () :=
  match truthy reservation_id with
  | Some rid =>
      if quota_service then
        _ ← reconcile_usage_in_transaction (event_fact rid operation_id_ v) (ue_occurred_at v); mret ()
      else mret ()
  | None => mret ()
  end.

(** The pending event can be priced now. *)
Definition becomes_priced (current next : string) : bool :=
  string_in current ["pending"; "unavailable"] && string_in next ["exact"; "estimated"].

(** The block after [existing] was read; the answer is the reservation to notify. *)
Definition report_transaction (existing : option UsageEventRow) (v : UsageEventRow) (now_ : Z) : Tx (option string) :=
  let op := ue_operation_id v in
  match existing with
  | Some e =>
      let priced_now := becomes_priced (ue_usage_status e) (ue_usage_status v) in
      let notify := or_else (ue_reservation_id e) (ue_reservation_id v) in
      if bool_decide (ue_raw_usage e = ue_raw_usage v) && negb priced_now then
        _ ← settle_event (ue_reservation_id e) op v now_;
        mret notify
      else if priced_now then
        _ ← reconcile_event (or_else (ue_reservation_id e) (ue_reservation_id v)) op v;
        _ ← update_event op v;
        mret notify
      else if bool_decide (ue_raw_usage e = ue_raw_usage v) then mret notify
      else raise UsageEventConflictError
  | None =>
      _ ← insert_event v;
      _ ← settle_event (ue_reservation_id v) op v now_;
      mret (ue_reservation_id v)
  end.

(** [_report_sync]: [ids] supplies the row identifiers of the attempts, [others] what is
    committed between the read of an attempt and its writes; [None] is the end of the fuel. *)
Fixpoint report_sync (fuel : nat) (ids : nat -> string) (others : list (DB -> DB)) (inv : ModelInvocation)
  (u : CanonicalTokenUsage) (outcome : InvocationOutcome) (now_ : Z) (db : DB)
  : option (result QuotaError (option string) * DB) :=
  match fuel with
  | O => None
  | S rest =>
      let v := event_values (ids rest) inv u outcome now_ db in
      let existing := existing_event (operation_id inv) db in
      let db := default (fun d => d) (head others) db in
      match run_tx (report_transaction existing v now_) db with
      | (Err IntegrityError, _) =>
          match existing_event (operation_id inv) db with
          | None => Some (Err IntegrityError, db)
          | Some _ => report_sync rest ids (tail others) inv u outcome now_ db
          end
      | answer => Some answer
      end
  end.

(** One report without interference. *)
Definition report (id : string) (inv : ModelInvocation) (u : CanonicalTokenUsage) (outcome : InvocationOutcome)
  (now_ : Z) : Tx (option string) :=
  v ← gets (event_values id inv u outcome now_);
  existing ← gets (existing_event (operation_id inv));
  report_transaction existing v now_.

(** ** Feature holds of billable tools *)

Definition any_feature (f : BillableFeatureUsage) : bool :=
  existsb (fun z => negb (z =? 0)) [visual_input_tokens f; image_units f; search_calls f; link_pages f].

(** [reserve_feature_usage]. *)
Definition reserve_feature_usage (inv : ModelInvocation) (at_ : Z) : Tx () :=
  match ua_reservation_id (attribution inv) with
  | Some rid =>
      if negb quota_service || negb (any_feature (feature_usage inv)) then mret ()
      else match pricing_key (identity inv) with
           | None => raise (UnpricedInvocation UnknownPricingKeyError)
           | Some key =>
               _ ← reserve_feature_usage_in_transaction rid (operation_id inv) key (feature_usage inv) at_;
               mret ()
           end
  | None => mret ()
  end.

(** [release_feature_usage]. *)
Definition release_feature_usage (inv : ModelInvocation) (at_ : Z) : Tx () :=
  match ua_reservation_id (attribution inv) with
  | Some rid =>
      if quota_service then _ ← release_feature_usage_in_transaction rid (operation_id inv) at_; mret ()
      else mret ()
  | None => mret ()
  end.

(** [_tool_identity]: the identity and the purpose of a billable tool. *)
Definition tool_identity (tool_name : string) : result QuotaError (ModelIdentity * UsagePurpose) :=
  let internal key :=
    {| provider := "internal-tool"; provider_model := tool_name; model_profile := None; preset := tool_name;
       route := None; pricing_key := Some key; context_window_tokens := None; max_output_tokens := None |} in
  if String.eqb tool_name "web_fetch" then Ok (internal LINK_READ_PRICING_KEY, PWorker)
  else if String.eqb tool_name "image_analyze" then Ok (internal IMAGE_ANALYZE_PRICING_KEY, PVision)
  else Err ValueError.

(** [attribution.model_copy(update={"purpose": purpose})]. *)
Definition with_purpose (a : UsageAttributionContext) (p : UsagePurpose) : UsageAttributionContext :=
  {| ua_request_id := ua_request_id a; ua_user_id := ua_user_id a; ua_workspace_id := ua_workspace_id a;
     ua_conversation_id := ua_conversation_id a; ua_turn_id := ua_turn_id a;
     ua_reservation_id := ua_reservation_id a; ua_worker_id := ua_worker_id a;
     ua_parent_operation_id := ua_parent_operation_id a; ua_purpose := p |}.

(** The reporter slot of the model factory: whether it holds this reporter, and whether it must. *)
Record BillingSlot := { slot_filled : bool; slot_required : bool }.

(** [begin_billable_tool_usage], for the attribution in force and a fresh operation. *)
Definition begin_billable_tool_usage (slot : BillingSlot) (tool_name : string) (f : BillableFeatureUsage)
  (a : UsageAttributionContext) (operation_id_ : string) (at_ : Z) : Tx (option ModelInvocation) :=
  if negb (slot_filled slot) then
    if slot_required slot then raise UsageReporterUnavailableError else mret None
  else
    ip ← lift (tool_identity tool_name);
    let inv := {| operation_id := operation_id_; identity := ip.1; attribution := with_purpose a ip.2;
                  attempt := 1; fallback_index := 0; started_at := at_; feature_usage := f |} in
    _ ← reserve_feature_usage inv at_;
    mret (Some inv).

(** [CanonicalTokenUsage(source="provider")]. *)
Definition tool_usage : CanonicalTokenUsage :=
  {| input_tokens := 0; cached_input_tokens := 0; cache_miss_input_tokens := 0; cache_write_input_tokens := 0;
     output_tokens := 0; reasoning_output_tokens := 0; total_tokens := 0; source := SrcProvider;
     cache_status := CacheUnavailable; semantics := SemFinal; provider_response_id := None |}.

Definition tool_outcome (completed_at_ : Z) : InvocationOutcome :=
  {| oc_status := Succeeded; finish_reason := None; error_kind := None; completed_at := completed_at_ |}.

(** [complete_billable_tool_usage]. *)
Definition complete_billable_tool_usage (slot : BillingSlot) (id : string) (inv : option ModelInvocation) (now_ : Z)
  : Tx () :=
  match inv with
  | None => mret ()
  | Some inv =>
      if negb (slot_filled slot) then raise UsageReporterUnavailableError
      else _ ← report id inv tool_usage (tool_outcome now_) now_; mret ()
  end.

(** [cancel_billable_tool_usage]. *)
Definition cancel_billable_tool_usage (slot : BillingSlot) (inv : option ModelInvocation) (now_ : Z) : Tx () :=
  match inv with
  | None => mret ()
  | Some inv => if slot_filled slot then release_feature_usage inv now_ else mret ()
  end.
End reporter.
