(* ===== verification/ReportingSafety.v ===== *)
(** * ReportingSafety: usage events and the ledger agree

    The account of an operation is the ledger entry that says what it was charged: its
    reconciliation, or its settlement while it has none.  A store is metered when reports,
    service calls and manager calls lead to it; there every event is accounted for as it says
    ([metered_ok]), an event that has a price is final, a repeated or racing report writes
    nothing, and a price that comes late is charged once. *)
From S2P Require Import Prelude Usage Pricing Policy Clock PyText Reservation QuotaStore QuotaService QuotaInvariants QuotaIdentity QuotaWorld QuotaSettlement QuotaManagement QuotaOperations QuotaGovernance QuotaPrices QuotaGoverned Reporting.
Local Open Scope Z_scope.

(** * which calls post usage

    Only a report writes usage events and the [settle] and [reconcile] entries of the ledger.
    Every other call of [QuotaService], [QuotaManagementService] and [QuotaOperationsService] is
    quiet: it keeps the events and appends entries of other types. *)

Definition USAGE_ENTRY_TYPES : list string := ["settle"; "reconcile"].

Definition usage_events (db : DB) : list UsageEventRow := ot_usage_events (db_operations db).

Definition other_entry (e : LedgerRow) : Prop := string_in (le_entry_type e) USAGE_ENTRY_TYPES = false.

Record quiet (db db' : DB) : Prop := {
  qu_events : usage_events db' = usage_events db;
  qu_ledger : exists l, db_ledger db' = db_ledger db ++ l /\ Forall other_entry l;
}.

#[export] Instance quiet_preorder : PreOrder quiet.
Proof.
  split.
  - intros db. split; [done|]. exists []. by rewrite app_nil_r.
  - intros a b c [E1 (l1 & L1 & F1)] [E2 (l2 & L2 & F2)]. split; [congruence|]. exists (l1 ++ l2).
    rewrite L2, L1, app_assoc. split; [done|by apply Forall_app].
Qed.

Abbreviation qmoves := (st_moves quiet).

Lemma quiet_same db db' : usage_events db' = usage_events db -> db_ledger db' = db_ledger db -> quiet db db'.
Proof. intros He Hl. split; [done|]. exists []. by rewrite Hl, app_nil_r. Qed.

Ltac quiet_step := first
  [ progress cbv zeta | apply savepoint_moves; [|intros ?] | refine (first_or_moves _ _ _)
  | apply stmt_moves; intros ? ? ?; repeat case_match; try done; intros [= _ <-]; by apply quiet_same
  | moves_modify; intros ?; by repeat case_match; apply quiet_same
  | st_moves_step ].
Ltac quiet_tac := repeat quiet_step.

Section statements.
Context `{Uuids}.

Lemma fresh_uuid_quiet : qmoves fresh_uuid.
Proof. intros db a db' Hr. injection Hr as _ <-. by apply quiet_same. Qed.

Lemma append_ledger_quiet mk :
  (forall id, string_in (le_entry_type (mk id)) USAGE_ENTRY_TYPES = false) -> qmoves (append_ledger mk).
Proof.
  intros Hmk db u db' (_ & ->)%append_ledger_ok. split; [done|]. eexists. split; [done|]. apply Forall_singleton, Hmk.
Qed.

Lemma insert_ledger_quiet rid bid et a rd cd key reason meta at_ :
  string_in et USAGE_ENTRY_TYPES = false -> qmoves (insert_ledger rid bid et a rd cd key reason meta at_).
Proof.
  intros Het db u db' (_ & ->)%insert_ledger_ok. split; [done|]. eexists. split; [done|]. by apply Forall_singleton.
Qed.

Lemma update_bucket_quiet k f : qmoves (update_bucket k f).
Proof. intros db u db' [-> _]%update_bucket_ok. by apply quiet_same. Qed.
End statements.

Ltac ledger_quiet := first
  [ apply fresh_uuid_quiet | apply update_bucket_quiet
  | apply append_ledger_quiet; intros ?; reflexivity
  | apply insert_ledger_quiet; reflexivity ].

(** ** The quota service *)
Section service.
Context `{Uuids} (lease_seconds : Z).

Lemma update_reservation_quiet k f : qmoves (update_reservation k f).
Proof. unfold update_reservation. quiet_tac. Qed.
Lemma release_concurrency_quiet user units now_ : qmoves (release_concurrency user units now_).
Proof. unfold release_concurrency. quiet_tac. Qed.

Lemma finish_quiet cmd now_ ts : qmoves (finish_in_transaction cmd now_ ts).
Proof.
  unfold finish_in_transaction, get_reservation, reservation_buckets, finish_bucket.
  repeat first [ledger_quiet|apply release_concurrency_quiet|apply update_reservation_quiet|quiet_step].
Qed.
Lemma expire_reservations_quiet at_ : qmoves (expire_reservations at_).
Proof. unfold expire_reservations, stale_reservations, expire_one. repeat first [apply finish_quiet|quiet_step]. Qed.
Lemma expire_stale_quiet at_ : qmoves (expire_stale_in_transaction at_).
Proof. unfold expire_stale_in_transaction, stale_reservations, expire_one. repeat first [apply finish_quiet|quiet_step]. Qed.
Lemma touch_lease_quiet label next rid at_ : qmoves (touch_lease lease_seconds label next rid at_).
Proof. unfold touch_lease, get_reservation. repeat first [apply finish_quiet|apply update_reservation_quiet|quiet_step]. Qed.
Lemma begin_quiet rid at_ : qmoves (begin_reservation lease_seconds rid at_).
Proof. exact (touch_lease_quiet "begin-expiry:" (fun _ => running) rid at_). Qed.
Lemma heartbeat_quiet rid at_ : qmoves (heartbeat lease_seconds rid at_).
Proof. exact (touch_lease_quiet "heartbeat-expiry:" (fun s => s) rid at_). Qed.
Lemma reserve_feature_quiet rid op pk f at_ : qmoves (reserve_feature_usage_in_transaction rid op pk f at_).
Proof.
  unfold reserve_feature_usage_in_transaction, get_reservation, reservation_buckets, feature_hold, feature_fits.
  repeat first [ledger_quiet|apply update_reservation_quiet|quiet_step].
Qed.
Lemma release_feature_quiet rid op now_ : qmoves (release_feature_usage_in_transaction rid op now_).
Proof.
  unfold release_feature_usage_in_transaction, get_reservation, reservation_buckets, feature_release.
  repeat first [ledger_quiet|apply update_reservation_quiet|quiet_step].
Qed.

Lemma st_collect_quiet {A B} (f : A -> Tx B) l : (forall x, qmoves (f x)) -> qmoves (st_collect f l).
Proof. intros Hf. induction l as [|x l IH]; cbn [st_collect]; repeat (auto; quiet_step). Qed.
Lemma get_or_create_bucket_quiet o oid bt s e p limit now_ : qmoves (get_or_create_bucket o oid bt s e p limit now_).
Proof. unfold get_or_create_bucket, insert_bucket, select_one. repeat first [ledger_quiet|quiet_step]. Qed.
Lemma concurrency_lock_quiet user now_ : qmoves (get_or_create_concurrency_lock user now_).
Proof. unfold get_or_create_concurrency_lock. quiet_tac. Qed.
Lemma readonly_quiet {A} (m : Tx A) : (forall db, st_inv (eq db) m) -> qmoves m.
Proof. intros Hm db a db' Hr. rewrite <- (Hm db db a db' eq_refl Hr). reflexivity. Qed.

Lemma admit_quiet cmd rs cls at_ : qmoves (admit_in_transaction lease_seconds cmd rs cls at_).
Proof.
  unfold admit_in_transaction, find_existing_reservation, admit_buckets, admit_period, admit_write, reserve_concurrency,
    insert_reservation, hold_bucket.
  repeat first
    [ ledger_quiet | apply concurrency_lock_quiet | apply get_or_create_bucket_quiet | apply expire_stale_quiet
    | apply update_reservation_quiet | apply st_collect_quiet; intros ?
    | apply readonly_quiet, classrooms_readonly | apply readonly_quiet; intros ?; apply admit_replay_readonly
    | apply readonly_quiet; intros ?; apply admit_policies_readonly
    | apply readonly_quiet; intros ?; apply check_profiles_readonly
    | apply readonly_quiet; intros ?; apply admit_estimate_readonly | quiet_step ].
Qed.
End service.

(** ** The managers *)
Section managers.
Context `{Uuids} (digest : string -> string).

Lemma create_policy_quiet q : qmoves (create_policy q).
Proof. unfold create_policy, insert_policy. repeat first [ledger_quiet|quiet_step]. Qed.
Lemma move_draft_quiet id target : qmoves (move_draft id target).
Proof. unfold move_draft, get_policy. quiet_tac. Qed.
Lemma update_policy_quiet id c : qmoves (update_policy id c).
Proof. unfold update_policy, update_policy_row, get_policy. quiet_tac. Qed.
Lemma bind_policy_quiet q : qmoves (bind_policy q).
Proof. unfold bind_policy, update_binding, insert_binding. repeat first [ledger_quiet|quiet_step]. Qed.
Lemma retire_binding_quiet id : qmoves (retire_binding id).
Proof. unfold retire_binding, update_binding. quiet_tac. Qed.

Lemma create_rule_quiet r f u c : qmoves (create_pricing_rule r f u c).
Proof. unfold create_pricing_rule, insert_rule, check_catalog. repeat first [ledger_quiet|quiet_step]. Qed.
Lemma retire_rule_quiet id now_ : qmoves (retire_pricing_rule id now_).
Proof. unfold retire_pricing_rule, get_pricing_rule, close_rule. quiet_tac. Qed.
Lemma install_quiet d i n m : qmoves (install_builtin_pricing_version d i n m).
Proof.
  unfold install_builtin_pricing_version, install_in_transaction, find_predecessor, check_adjusted, close_rule, insert_rule.
  repeat first [ledger_quiet|quiet_step].
Qed.

Lemma replay_grant_quiet q al row : qmoves (replay_grant q al row).
Proof. unfold replay_grant. quiet_tac. Qed.
Lemma create_grant_quiet q now_ : qmoves (create_grant_in_transaction q now_).
Proof.
  unfold create_grant_in_transaction, write_grant, insert_grant, management_ledger.
  repeat first [ledger_quiet|apply replay_grant_quiet|quiet_step].
Qed.
Lemma revoke_grant_quiet id actor key now_ : qmoves (revoke_grant id actor key now_).
Proof. unfold revoke_grant, get_grant, revoke_row, management_ledger. repeat first [ledger_quiet|quiet_step]. Qed.
Lemma expire_grants_quiet now_ : qmoves (expire_grants now_).
Proof. unfold expire_grants, expire_row, update_grant, management_ledger. repeat first [ledger_quiet|quiet_step]. Qed.
Lemma adjustment_quiet q now_ : qmoves (create_adjustment q now_).
Proof.
  unfold create_adjustment, write_adjustment, replay_adjustment, insert_adjustment, management_ledger.
  repeat first [ledger_quiet|quiet_step].
Qed.

Lemma over_limit_quiet b c at_ : qmoves (bucket_over_limit b c at_).
Proof. intros db u db' ->%bucket_over_readonly. reflexivity. Qed.
Lemma replay_bucket_quiet k at_ : qmoves (replay_bucket k at_).
Proof. intros db r db' [-> _]%replay_bucket_ok. reflexivity. Qed.
Lemma repair_bucket_quiet k reason key now_ : qmoves (repair_bucket digest k reason key now_).
Proof. unfold repair_bucket, get_bucket. repeat first [apply replay_bucket_quiet|ledger_quiet|quiet_step]. Qed.
Lemma refresh_bill_quiet row at_ : qmoves (refresh_billing_match row at_).
Proof. unfold refresh_billing_match, update_bill, get_bill. quiet_tac. Qed.
Lemma reconcile_lines_quiet l at_ : qmoves (reconcile_lines l at_).
Proof.
  induction l as [|s l IH]; cbn [reconcile_lines]; unfold reconcile_billing_line, write_bill, insert_bill;
    repeat first [exact IH|ledger_quiet|apply refresh_bill_quiet|quiet_step].
Qed.
Lemma repair_billing_quiet id reason key now_ : qmoves (repair_billing digest id reason key now_).
Proof.
  unfold repair_billing, repair_billed_bucket, update_bill, get_bill.
  repeat first [ledger_quiet|apply over_limit_quiet|quiet_step].
Qed.
Lemma credit_quiet k st q now_ : qmoves (credit_operation digest k st q now_).
Proof.
  unfold credit_operation, write_credit, take_back, replace_grant, update_grant, insert_credit, credit_payload.
  repeat first [apply create_grant_quiet|ledger_quiet|quiet_step].
Qed.
Lemma role_gift_quiet g members now_ : qmoves (gift_credits_for_role digest g members now_).
Proof.
  assert (Hm : forall role ids, qmoves (gift_members digest g role now_ ids)).
  { intros role ids. induction ids as [|u ids IH]; cbn [gift_members]; repeat first [exact IH|apply credit_quiet|st_moves_step]. }
  unfold gift_credits_for_role, insert_role_credit. repeat first [apply Hm|ledger_quiet|quiet_step].
Qed.

(** A manager's call, or another service's write that leaves the usage events alone. *)
Lemma manager_quiet db db' : manager_step digest db db' -> usage_events db' = usage_events db -> quiet db db'.
Proof.
  intros [] Hev; try (by apply quiet_same); apply (st_moves_run quiet);
    unfold publish_policy, archive_policy, create_grant, reconcile_provider_billing, gift_credits, reset_credits;
    first [apply create_policy_quiet|apply move_draft_quiet|apply update_policy_quiet|apply bind_policy_quiet
      |apply retire_binding_quiet|apply create_rule_quiet|apply retire_rule_quiet|apply install_quiet
      |apply create_grant_quiet|apply revoke_grant_quiet|apply expire_grants_quiet|apply adjustment_quiet
      |apply repair_bucket_quiet|apply reconcile_lines_quiet|apply repair_billing_quiet|apply credit_quiet
      |apply role_gift_quiet].
Qed.
End managers.

(** ** Keys of an operation *)

Definition no_colon (s : string) : bool :=
  forallb (fun c => negb (Ascii.eqb c ":"%char)) (String.list_ascii_of_string s).

(** An operation identifier without wildcards and without the separator of the keys. *)
Definition plain (op : string) : bool := like_literal op && no_colon op.

Lemma like_literal_app a b : like_literal (a +:+ b) = like_literal a && like_literal b.
Proof. unfold like_literal. by rewrite list_ascii_app, forallb_app. Qed.

Lemma prefix_same p a b : String.prefix (p +:+ a) (p +:+ b) = String.prefix a b.
Proof.
  induction p as [|c p IH]; [done|]. change (String.prefix (String c (p +:+ a)) (String c (p +:+ b)) = String.prefix a b).
  cbn [String.prefix]. by destruct (Ascii.ascii_dec c c).
Qed.

Lemma no_colon_cons c s : no_colon (String c s) = true -> c <> ":"%char /\ no_colon s = true.
Proof. intros [Hc Hs]%andb_true_iff. split; [|exact Hs]. intros ->. done. Qed.

Lemma prefix_cons c d a b : String.prefix (String c a) (String d b) = true -> c = d /\ String.prefix a b = true.
Proof. cbn [String.prefix]. by destruct (Ascii.ascii_dec c d). Qed.

Lemma prefix_colon a b s :
  no_colon a = true -> no_colon b = true -> String.prefix (a +:+ ":") ((b +:+ ":") +:+ s) = true -> a = b.
Proof.
  revert b. induction a as [|c a IH]; intros [|d b] Ha Hb Hp; [done| | |].
  - apply no_colon_cons in Hb as [Hb _]. by apply (prefix_cons ":"%char d "" ((b +:+ ":") +:+ s)) in Hp as [<- _].
  - apply no_colon_cons in Ha as [Ha _]. by apply (prefix_cons c ":"%char (a +:+ ":") s) in Hp as [-> _].
  - apply no_colon_cons in Ha as [_ Ha], Hb as [_ Hb].
    apply (prefix_cons c d (a +:+ ":") ((b +:+ ":") +:+ s)) in Hp as [-> Hp]. f_equal. by apply IH.
Qed.

(** The entries of one operation do not match the pattern of another. *)
Lemma keys_apart p op op' s :
  like_literal p = true -> plain op = true -> plain op' = true ->
  sql_like ((p +:+ op' +:+ ":") +:+ "%") ((p +:+ op +:+ ":") +:+ s) = true -> op' = op.
Proof.
  unfold plain. intros Hp [Hl Hc]%andb_true_iff [Hl' Hc']%andb_true_iff.
  assert (Hlit : like_literal (p +:+ op' +:+ ":") = true) by (by rewrite !like_literal_app, Hp, Hl').
  intros Hk. pose proof (sql_like_prefix (p +:+ op' +:+ ":") ((p +:+ op +:+ ":") +:+ s) Hlit) as Heq.
  rewrite Hk in Heq. symmetry in Heq. rewrite (string_append_assoc p) in Heq. rewrite prefix_same in Heq.
  by eapply prefix_colon.
Qed.

(** ** The account of an operation *)

Definition settle_log (rid op : string) (db : DB) : list LedgerRow :=
  ledger_like rid "settle" (settle_prefix op +:+ "%") db.
Definition reconcile_log (rid op : string) (db : DB) : list LedgerRow :=
  ledger_like rid "reconcile" (reconcile_prefix op +:+ "%") db.

Definition account (rid op : string) (db : DB) : option LedgerRow :=
  match head (reconcile_log rid op db) with Some r => Some r | None => head (settle_log rid op db) end.

(** The entry charges [credits] and reports the status. *)
Definition charges (credits : Z) (status : string) (e : LedgerRow) : Prop :=
  m_credits_micro (le_metadata e) = Some credits /\ m_usage_status (le_metadata e) = Some status.

Definition entry_priced (e : LedgerRow) : Prop :=
  exists s, m_usage_status (le_metadata e) = Some s /\ string_in s ["exact"; "estimated"] = true.

(** What was reconciled had been recorded without a price before. *)
Definition pending_first (rid op : string) (db : DB) : Prop :=
  forall r, head (reconcile_log rid op db) = Some r ->
    entry_priced r /\ exists s, head (settle_log rid op db) = Some s /\ is_pending (m_usage_status (le_metadata s)) = true.

(** The store moved by entries of the operation. *)
Definition own_entry (rid op : string) (e : LedgerRow) : Prop :=
  tagged rid "settle" (settle_prefix op) e \/ tagged rid "reconcile" (reconcile_prefix op) e.
Definition posts (rid op : string) (db db' : DB) : Prop :=
  exists l, db_ledger db' = db_ledger db ++ l /\ Forall (own_entry rid op) l.

Lemma posts_nothing rid op db db' : db_ledger db' = db_ledger db -> posts rid op db db'.
Proof. intros Hl. exists []. by rewrite Hl, app_nil_r. Qed.

Lemma log_grows rid et pat db db' l :
  db_ledger db' = db_ledger db ++ l -> exists k, ledger_like rid et pat db' = ledger_like rid et pat db ++ k.
Proof. intros Hl. eexists. by apply ledger_like_app. Qed.

Lemma log_kept rid et pat db db' l :
  db_ledger db' = db_ledger db ++ l ->
  Forall (fun e => bool_decide (le_reservation_id e = Some rid) && String.eqb (le_entry_type e) et
                   && sql_like pat (le_idempotency_key e) = false) l ->
  ledger_like rid et pat db' = ledger_like rid et pat db.
Proof.
  intros Hl Hall. rewrite (ledger_like_app _ _ _ db db' l Hl), filter_none, app_nil_r; [done|].
  intros e He. rewrite Forall_forall in Hall. by apply Hall.
Qed.

Lemma quiet_logs rid op db db' :
  quiet db db' -> settle_log rid op db' = settle_log rid op db /\ reconcile_log rid op db' = reconcile_log rid op db.
Proof.
  intros [_ (l & Hl & Hall)]. split; apply (log_kept _ _ _ _ _ l Hl); (eapply Forall_impl; [exact Hall|]);
    intros e He; unfold other_entry, USAGE_ENTRY_TYPES, string_in in He; apply bool_decide_eq_false in He;
    destruct (String.eqb_spec (le_entry_type e) "settle"), (String.eqb_spec (le_entry_type e) "reconcile");
    try (destruct He; rewrite !elem_of_cons; tauto); by rewrite andb_false_r.
Qed.

Lemma posts_logs rid op rid' op' db db' :
  plain op = true -> plain op' = true -> posts rid op db db' -> (rid', op') <> (rid, op) ->
  settle_log rid' op' db' = settle_log rid' op' db /\ reconcile_log rid' op' db' = reconcile_log rid' op' db.
Proof.
  intros Hp Hp' (l & Hl & Hall) Hne. split; apply (log_kept _ _ _ _ _ l Hl); (eapply Forall_impl; [exact Hall|]);
    intros e [(Hr & Ht & s & Hk)|(Hr & Ht & s & Hk)]; rewrite Hr, Ht, Hk; try (by rewrite andb_false_r).
  all: destruct (decide (rid' = rid)) as [->|Hrid]; [|rewrite bool_decide_eq_false_2 by congruence; done].
  all: rewrite bool_decide_eq_true_2 by done; cbn [andb]; apply not_true_iff_false; intros Hlike; apply Hne; f_equal;
    eapply keys_apart; [|exact Hp|exact Hp'|exact Hlike]; reflexivity.
Qed.

Lemma head_app_some {A} (l k : list A) x : head l = Some x -> head (l ++ k) = Some x.
Proof. by destruct l. Qed.

Section account.
Context `{Uuids}.

(** *** The first settlement of an operation *)
Lemma settle_first_account u now_ db res db' :
  known u = true -> settle_usage_in_transaction u now_ db = Ok (res, db') ->
  settle_log (uf_reservation_id u) (uf_operation_id u) db = [] ->
  pending_first (uf_reservation_id u) (uf_operation_id u) db ->
  posts (uf_reservation_id u) (uf_operation_id u) db db'
  /\ reconcile_log (uf_reservation_id u) (uf_operation_id u) db' = []
  /\ exists e, account (uf_reservation_id u) (uf_operation_id u) db' = Some e
       /\ charges (uf_credits_micro u) (uf_usage_status u) e.
Proof.
  intros Hkn Hr Hnil Hpf.
  assert (Hrec : reconcile_log (uf_reservation_id u) (uf_operation_id u) db = []).
  { destruct (reconcile_log _ _ db) as [|r l] eqn:Hl; [done|]. destruct (Hpf r) as (_ & s & Hs & _); [by rewrite Hl|].
    by rewrite Hnil in Hs. }
  pose proof (settle_run _ _ _ _ _ Hkn Hr) as (r & _ & _ & Hk & Hm).
  destruct (settle_first_marks _ _ _ _ _ _ Hk Hnil Hkn Hr) as (e & new & r' & Hs & _ & He & _).
  unfold settle_markers in Hm. change (ledger_like _ _ _ _) with (settle_log (uf_reservation_id u) (uf_operation_id u) db) in Hm.
  rewrite Hnil in Hm. destruct Hm as (over & _ & _ & Hm).
  assert (Hown : exists l, db_ledger db' = db_ledger db ++ l
    /\ Forall (tagged (uf_reservation_id u) "settle" (settle_prefix (uf_operation_id u))) l).
  { destruct (string_in _ _) in Hm.
    - destruct Hm as (_ & e0 & r0 & Hl & Ht & _). exists [e0]. split; [done|by constructor].
    - destruct Hm as (rows & _ & (e0 & l & Hl & Hall & _)%charge_marks). eexists. split; [exact Hl|].
      eapply Forall_impl; [exact Hall|]. by intros ? [? _]. }
  destruct Hown as (l & Hl & Hall).
  assert (Hrec' : reconcile_log (uf_reservation_id u) (uf_operation_id u) db' = []).
  { rewrite <- Hrec. unfold reconcile_log. eapply ledger_like_other_type; [exact Hl| |exact Hall]. done. }
  split_and!; [exists l; split; [done|eapply Forall_impl; [exact Hall|]; by left]|done|].
  exists e. unfold account. rewrite Hrec'. cbn. change (settle_markers u db') with
    (settle_log (uf_reservation_id u) (uf_operation_id u) db') in Hs. rewrite Hs. split; [done|].
  by destruct He as (? & ? & _).
Qed.

(** *** A settlement after which nothing was left to price *)
Lemma settle_again u now_ db res db' e :
  known u = true -> settle_usage_in_transaction u now_ db = Ok (res, db') ->
  pending_first (uf_reservation_id u) (uf_operation_id u) db ->
  account (uf_reservation_id u) (uf_operation_id u) db = Some e ->
  is_pending (m_usage_status (le_metadata e)) && is_priced u = false -> db' = db.
Proof.
  intros Hkn Hr Hpf Hacc Hnp. apply settle_run in Hr as (r & _ & _ & Hk & Hm); [|done].
  change (settle_markers u db) with (settle_log (uf_reservation_id u) (uf_operation_id u) db) in Hm.
  unfold account in Hacc. destruct (settle_log _ _ db) as [|first rest] eqn:Hs.
  - destruct (head _) as [r0|] eqn:Hh; [|done]. destruct (Hpf r0 Hh) as (_ & s & Hs' & _). by rewrite Hs in Hs'.
  - assert (Hreplay : forall l f, replay_usage u l f db = Ok (res, db') -> db' = db)
      by (intros l f; by intros ->%(st_readonly _ _ _ _ (replay_usage_inv _ _ _ _))).
    destruct (_ && _) eqn:Hc; [|by eapply Hreplay].
    apply reconcile_run in Hm as (r1 & _ & _ & _ & Hm).
    change (reconcile_markers u db) with (reconcile_log (uf_reservation_id u) (uf_operation_id u) db) in Hm.
    destruct (reconcile_log _ _ db) as [|f l] eqn:Hrec; [|by eapply Hreplay].
    cbn in Hacc. injection Hacc as <-. congruence.
Qed.

(** *** The reconciliation of a pending operation *)
Lemma reconcile_first_account u now_ db res db' e :
  reconcile_usage_in_transaction u now_ db = Ok (res, db') ->
  pending_first (uf_reservation_id u) (uf_operation_id u) db ->
  account (uf_reservation_id u) (uf_operation_id u) db = Some e ->
  is_pending (m_usage_status (le_metadata e)) = true ->
  posts (uf_reservation_id u) (uf_operation_id u) db db'
  /\ pending_first (uf_reservation_id u) (uf_operation_id u) db'
  /\ exists e', account (uf_reservation_id u) (uf_operation_id u) db' = Some e'
       /\ charges (uf_credits_micro u) (uf_usage_status u) e'.
Proof.
  intros Hr Hpf Hacc Hpend. pose proof (reconcile_keeps_markers _ _ _ _ _ Hr) as (Hs & _).
  apply reconcile_run in Hr as (r & _ & Hst & Hk & Hm).
  change (reconcile_markers u db) with (reconcile_log (uf_reservation_id u) (uf_operation_id u) db) in Hm.
  assert (Hrec : reconcile_log (uf_reservation_id u) (uf_operation_id u) db = []).
  { unfold account in Hacc. destruct (reconcile_log _ _ db) as [|r0 l] eqn:Hl; [done|]. cbn in Hacc. injection Hacc as <-.
    destruct (Hpf r0) as ((s & Hs' & Hp) & _); [by rewrite Hl|]. rewrite Hs', is_pending_in in Hpend.
    by rewrite (statuses_disjoint _ Hpend) in Hp. }
  rewrite Hrec in Hm. destruct Hm as (from_ & rows & over & Hfrom & Hpf' & Hrows & Hch & _).
  apply charge_marks in Hch as (e' & new & Hl & Hall & _).
  assert (Hlog : reconcile_log (uf_reservation_id u) (uf_operation_id u) db' = e' :: new).
  { unfold reconcile_log. rewrite (ledger_like_app _ _ _ db db' (e' :: new) Hl). unfold reconcile_log in Hrec. rewrite Hrec.
    apply tagged_filter. eapply Forall_impl; [exact Hall|]. by intros ? [? _]. }
  apply Forall_cons in Hall as [[Ht (Hc & Hus & _)] Hall].
  split_and!.
  - exists (e' :: new). split; [done|]. constructor; [by right|]. eapply Forall_impl; [exact Hall|]. intros ? [? _]. by right.
  - intros r0. rewrite Hlog. cbn. intros [= <-]. split; [exists (uf_usage_status u); by apply negb_false_iff in Hst|].
    change (settle_markers u db') with (settle_log (uf_reservation_id u) (uf_operation_id u) db') in Hs. rewrite Hs.
    change (settle_markers u db) with (settle_log (uf_reservation_id u) (uf_operation_id u) db) in *.
    destruct (head (settle_log _ _ db)) as [s|]; [|done]. exists s. split; [done|]. cbn in Hfrom.
    injection Hfrom as Hfrom. by rewrite Hfrom, is_pending_in.
  - exists e'. unfold account. by rewrite Hlog.
Qed.

(** *** Settling again after the reconciliation *)

(** An answer from the ledger does not depend on the other tables. *)
Lemma replay_usage_any u l first db res db' db2 :
  replay_usage u l first db = Ok (res, db') -> replay_usage u l first db2 = Ok (res, db2).
Proof.
  unfold replay_usage, usage_record_result. destruct (_ || _); [done|]. destruct (_ || _); [done|]. by intros [= -> _].
Qed.

Lemma reconcile_replays u now_ db res db' now' db2 :
  reconcile_usage_in_transaction u now_ db = Ok (res, db') ->
  db_ledger db2 = db_ledger db' -> db_reservations db2 = db_reservations db' ->
  reconcile_usage_in_transaction u now' db2 = Ok (res, db2).
Proof.
  intros Hr Hl2 Hr2. pose proof (reconcile_keeps_markers _ _ _ _ _ Hr) as (_ & r' & Hk').
  pose proof Hr as (r & Hc & Hst & Hk & Hm)%reconcile_run.
  unfold reconcile_usage_in_transaction, get_reservation, gets, mbind, st_bind. rewrite Hc, Hst, Hr2, Hk'.
  rewrite (ledger_like_ledger _ _ _ db' db2 Hl2).
  change (reconcile_markers u db) with (reconcile_log (uf_reservation_id u) (uf_operation_id u) db) in Hm.
  change (ledger_like (uf_reservation_id u) "reconcile" _ db') with (reconcile_log (uf_reservation_id u) (uf_operation_id u) db').
  destruct (reconcile_log _ _ db) as [|first rest] eqn:Hmk.
  - destruct Hm as (from_ & rows & over & _ & _ & _ & Hch & -> & Hop & Hkn).
    apply charge_marks in Hch as (e & new & Hl & Hall & <-).
    unfold reconcile_log in *. rewrite (ledger_like_app _ _ _ db db' (e :: new) Hl).
    rewrite Hmk, tagged_filter by (eapply Forall_impl; [exact Hall|]; by intros ? [? _]). simpl app.
    apply Forall_cons in Hall as [[_ He] _]. by apply replay_usage_records.
  - pose proof (st_readonly _ _ _ _ (replay_usage_inv _ _ _ _) Hm) as ->. rewrite Hmk. by eapply replay_usage_any.
Qed.

Lemma settle_after_reconcile u now_ db res db' now' db2 :
  reconcile_usage_in_transaction u now_ db = Ok (res, db') ->
  (exists s, head (settle_log (uf_reservation_id u) (uf_operation_id u) db) = Some s
             /\ is_pending (m_usage_status (le_metadata s)) = true) ->
  db_ledger db2 = db_ledger db' -> db_reservations db2 = db_reservations db' ->
  settle_usage_in_transaction u now' db2 = Ok (res, db2).
Proof.
  intros Hr (s & Hs & Hp) Hl2 Hres2. pose proof (reconcile_keeps_markers _ _ _ _ _ Hr) as (Hs' & r' & Hk).
  pose proof (reconcile_replays _ _ _ _ _ now' db2 Hr Hl2 Hres2) as Hr2.
  apply reconcile_run in Hr as (r & Hc & Hst & _ & _).
  assert (Hin : string_in (uf_usage_status u) ["exact"; "estimated"] = true) by (by apply negb_false_iff in Hst).
  assert (Hall : string_in (uf_usage_status u) ["exact"; "estimated"; "pending"; "unavailable"] = true).
  { unfold string_in in *. rewrite bool_decide_eq_true in *. set_solver. }
  unfold settle_usage_in_transaction, get_reservation, gets, mbind, st_bind. rewrite Hc, Hall. cbn [negb]. rewrite Hres2, Hk.
  rewrite (ledger_like_ledger _ _ _ db' db2 Hl2). fold (settle_markers u db'). rewrite Hs'.
  change (settle_markers u db) with (settle_log (uf_reservation_id u) (uf_operation_id u) db).
  destruct (settle_log _ _ db) as [|first rest]; [done|].
  cbn in Hs. injection Hs as ->. unfold is_pending in Hp. by rewrite Hin, Hp.
Qed.
End account.

(** ** What a report computes and runs *)

Lemma priced_usage_nonneg p q : validate_priced_usage p = Ok q -> q = p /\ 0 <= credits_micro p.
Proof.
  unfold validate_priced_usage. destruct (_ && _) eqn:Hv; [|done]. intros [= <-]. split; [done|].
  apply andb_true_iff in Hv as [_ Hv]. cbn in Hv. lia.
Qed.

Lemma price_credits cat inv u oc b p : price cat inv u oc b = Ok p -> 0 <= credits_micro p.
Proof.
  unfold price. destruct (bool_decide _); [done|]. destruct (_ && _); [done|].
  destruct (active_rule _ _ _) as [rule|]; [|done]. cbn [mbind result_bind].
  destruct (check_feature_prices _ _ _) as [[]|]; [|done]. cbn [mbind result_bind].
  destruct (split_input _ _) as [[oi ci] cw], (split_output _ _) as [oo ro].
  intros Hv. by apply priced_usage_nonneg in Hv as [-> ?].
Qed.

(** A status with a price comes with credits; one without comes with none. *)
Definition status_coherent (status : string) (credits : option Z) : Prop :=
  (string_in status ["exact"; "estimated"] = true /\ exists c, credits = Some c /\ 0 <= c)
  \/ (string_in status ["pending"; "unavailable"] = true /\ credits = None).

Lemma report_price_coherent inv u oc db :
  status_coherent (report_price inv u oc db).2 (report_price inv u oc db).1.2.
Proof.
  unfold report_price. repeat case_match; cbn; try (by right).
  - left. split; [done|]. eexists. split; [done|]. unfold catalogue_price in *.
    destruct (pricing_rules _ _); [|done]. cbn [mbind result_bind] in *. destruct (PricingCatalog _); [|done].
    by eapply price_credits.
  - left. split; [done|]. eexists. split; [done|]. unfold catalogue_price in *.
    destruct (pricing_rules _ _); [|done]. cbn [mbind result_bind] in *. destruct (PricingCatalog _); [|done].
    by eapply price_credits.
Qed.

Lemma coherent_disjoint status credits :
  status_coherent status credits -> string_in status ["exact"; "estimated"] = negb (string_in status ["pending"; "unavailable"]).
Proof.
  intros [[H _]|[H _]].
  - rewrite H. symmetry. apply negb_true_iff, not_true_iff_false. intros Hp%statuses_disjoint. congruence.
  - by rewrite H, (statuses_disjoint _ H).
Qed.

Lemma truthy_or_else a : truthy (or_else a a) = truthy a.
Proof. unfold or_else. destruct (truthy a) as [s|] eqn:Ht; [|done]. destruct a as [s'|]; [|done]. cbn in *.
  destruct (String.eqb s' "") eqn:He; [done|]. injection Ht as <-. cbn. by rewrite He. Qed.

Lemma or_else_same a : or_else a a = a.
Proof. unfold or_else. destruct a as [s|]; [|done]. cbn. by destruct (String.eqb s ""). Qed.

Section values.
Context `{Uuids} (sha256 : string -> string) (quota_service : bool).

Lemma values_operation id inv u oc t db : ue_operation_id (event_values sha256 id inv u oc t db) = operation_id inv.
Proof. unfold event_values. by destruct (report_price _ _ _ _) as [[? ?] ?]. Qed.
Lemma values_reservation id inv u oc t db :
  ue_reservation_id (event_values sha256 id inv u oc t db) = ua_reservation_id (attribution inv).
Proof. unfold event_values. by destruct (report_price _ _ _ _) as [[? ?] ?]. Qed.
Lemma values_raw id inv u oc t db :
  ue_raw_usage (event_values sha256 id inv u oc t db) = {| up_invocation := inv; up_usage := u; up_outcome := oc |}.
Proof. unfold event_values. by destruct (report_price _ _ _ _) as [[? ?] ?]. Qed.
Lemma values_status id inv u oc t db :
  status_coherent (ue_usage_status (event_values sha256 id inv u oc t db)) (ue_credits_micro (event_values sha256 id inv u oc t db)).
Proof.
  pose proof (report_price_coherent inv u oc db) as Hc. unfold event_values. by destruct (report_price _ _ _ _) as [[? ?] ?].
Qed.

(** The fact depends on the prices and on the report, not on the row's identifier or the clock. *)
Lemma values_fact rid id id' inv u oc t t' db db' :
  db_pricing db' = db_pricing db ->
  event_fact rid (operation_id inv) (event_values sha256 id' inv u oc t' db')
  = event_fact rid (operation_id inv) (event_values sha256 id inv u oc t db).
Proof.
  intros Hp. assert (Hr : report_price inv u oc db' = report_price inv u oc db).
  { unfold report_price, catalogue_price, pricing_rules. by rewrite Hp. }
  unfold event_values. rewrite Hr. destruct (report_price inv u oc db) as [[? ?] ?]. reflexivity.
Qed.

Lemma fact_known rid op v : known (event_fact rid op v) = true.
Proof. unfold known. cbn. by destruct (ue_usage_source v). Qed.

Lemma settle_event_run res op v now_ db x db' :
  settle_event quota_service res op v now_ db = Ok (x, db') ->
  match truthy res with
  | Some rid => if quota_service then exists y, settle_usage_in_transaction (event_fact rid op v) now_ db = Ok (y, db')
                else db' = db
  | None => db' = db
  end.
Proof.
  unfold settle_event. destruct (truthy res) as [rid|]; [|by intros [= _ <-]]. destruct quota_service; [|by intros [= _ <-]].
  intros (y & s & Hs & Hr)%st_bind_ok. injection Hr as _ <-. by exists y.
Qed.

Lemma reconcile_event_run res op v db x db' :
  reconcile_event quota_service res op v db = Ok (x, db') ->
  match truthy res with
  | Some rid => if quota_service
                then exists y, reconcile_usage_in_transaction (event_fact rid op v) (ue_occurred_at v) db = Ok (y, db')
                else db' = db
  | None => db' = db
  end.
Proof.
  unfold reconcile_event. destruct (truthy res) as [rid|]; [|by intros [= _ <-]]. destruct quota_service; [|by intros [= _ <-]].
  intros (y & s & Hs & Hr)%st_bind_ok. injection Hr as _ <-. by exists y.
Qed.

Lemma insert_usage_event_ok e db x db' :
  insert_event e db = Ok (x, db') ->
  db' = set_usage_events db (usage_events db ++ [e]) /\ ue_operation_id e ∉ (ue_operation_id <$> usage_events db)
  /\ event_fits e = true.
Proof.
  unfold insert_event, stmt. destruct (negb (event_fits e)) eqn:Hf; [done|]. apply negb_false_iff in Hf.
  destruct (existsb _ _) eqn:Hex; [done|]. intros [= _ <-]. split; [done|]. split; [|done].
  intros (e' & Hop & He')%list_elem_of_fmap. eapply existsb_false_elem in Hex; [|exact He'].
  apply orb_false_iff in Hex as [_ Hex%String.eqb_neq]. by apply Hex.
Qed.

Lemma update_usage_event_ok op v db x db' :
  update_event op v db = Ok (x, db') ->
  db' = set_usage_events db (kupdate ue_operation_id op (overwrite_event v) (usage_events db)).
Proof. unfold update_event, stmt. destruct (event_fits v); [|done]. by intros [= _ <-]. Qed.

(** The branches of a report that returned. *)
Lemma report_run id inv u oc now_ db r db' :
  report sha256 quota_service id inv u oc now_ db = Ok (r, db') ->
  let v := event_values sha256 id inv u oc now_ db in
  match existing_event (operation_id inv) db with
  | Some e =>
      if becomes_priced (ue_usage_status e) (ue_usage_status v)
      then exists s,
        reconcile_event quota_service (or_else (ue_reservation_id e) (ua_reservation_id (attribution inv))) (operation_id inv) v db
          = Ok ((), s)
        /\ db' = set_usage_events s (kupdate ue_operation_id (operation_id inv) (overwrite_event v) (usage_events s))
      else ue_raw_usage e = {| up_invocation := inv; up_usage := u; up_outcome := oc |}
           /\ settle_event quota_service (ue_reservation_id e) (operation_id inv) v now_ db = Ok ((), db')
  | None =>
      operation_id inv ∉ (ue_operation_id <$> usage_events db)
      /\ settle_event quota_service (ua_reservation_id (attribution inv)) (operation_id inv) v now_
           (set_usage_events db (usage_events db ++ [v])) = Ok ((), db')
  end.
Proof.
  intros Hr v. unfold report in Hr. apply st_bind_ok in Hr as (v' & s & Hv & Hr). injection Hv as <- <-. fold v in Hr.
  apply st_bind_ok in Hr as (ex & s & He & Hr). injection He as <- <-.
  assert (Hop : ue_operation_id v = operation_id inv) by apply values_operation.
  assert (Hrs : ue_reservation_id v = ua_reservation_id (attribution inv)) by apply values_reservation.
  assert (Hraw : ue_raw_usage v = {| up_invocation := inv; up_usage := u; up_outcome := oc |}) by apply values_raw.
  clearbody v. unfold report_transaction in Hr. cbv zeta in Hr. rewrite Hop, ?Hrs, ?Hraw in Hr.
  destruct (existing_event (operation_id inv) db) as [e|].
  - destruct (becomes_priced _ _).
    + rewrite andb_false_r in Hr. apply st_bind_ok in Hr as ([] & s & Hrec & Hr).
      apply st_bind_ok in Hr as ([] & s' & Hup & Hr). injection Hr as _ <-. exists s. split; [done|].
      by apply update_usage_event_ok in Hup.
    + rewrite andb_true_r in Hr. destruct (bool_decide _) eqn:Heq; [|done]. apply bool_decide_eq_true in Heq.
      split; [done|]. apply st_bind_ok in Hr as ([] & s & Hs & Hr). by injection Hr as _ <-.
  - apply st_bind_ok in Hr as ([] & s & Hins & Hr). apply insert_usage_event_ok in Hins as (-> & Hni & _).
    apply st_bind_ok in Hr as ([] & s & Hs & Hr). injection Hr as _ <-. rewrite Hop in Hni. by split.
Qed.
End values.

(** ** The invariant of a metered store *)
Section metered.
Context `{Uuids} (sha256 digest : string -> string) (quota_service : bool) (lease_seconds : Z).

Record metered_ok (db : DB) : Prop := {
  mo_plain : Forall (fun ev => plain (ue_operation_id ev) = true) (usage_events db);
  mo_unique : NoDup (ue_operation_id <$> usage_events db);
  mo_first : forall rid op, plain op = true -> pending_first rid op db;
  mo_events : forall rid op, plain op = true -> settle_log rid op db <> [] -> op ∈ (ue_operation_id <$> usage_events db);
  mo_account : quota_service = true -> forall ev rid, ev ∈ usage_events db -> truthy (ue_reservation_id ev) = Some rid ->
    exists e, account rid (ue_operation_id ev) db = Some e
              /\ charges (default 0 (ue_credits_micro ev)) (ue_usage_status ev) e;
  mo_status : Forall (fun ev => status_coherent (ue_usage_status ev) (ue_credits_micro ev)) (usage_events db);
}.

Lemma metered_empty db : usage_events db = [] -> db_ledger db = [] -> metered_ok db.
Proof.
  intros He Hl. assert (Hs : forall rid et pat, ledger_like rid et pat db = []) by (intros; unfold ledger_like; by rewrite Hl).
  split; rewrite ?He.
  - done.
  - constructor.
  - intros rid op _ r. unfold reconcile_log. by rewrite Hs.
  - intros rid op _. unfold settle_log. by rewrite Hs.
  - intros _ ev rid Hev. by apply elem_of_nil in Hev.
  - done.
Qed.

Lemma metered_quiet db db' : quiet db db' -> metered_ok db -> metered_ok db'.
Proof.
  intros Hq [Hp Hu Hf He Ha Hs]. pose proof (qu_events _ _ Hq) as Hev.
  assert (Hlogs : forall rid op, settle_log rid op db' = settle_log rid op db /\ reconcile_log rid op db' = reconcile_log rid op db)
    by (intros; by apply quiet_logs).
  split; rewrite ?Hev; try done.
  - intros rid op Hop. unfold pending_first. destruct (Hlogs rid op) as [-> ->]. by apply Hf.
  - intros rid op Hop. destruct (Hlogs rid op) as [-> _]. by apply He.
  - intros Hqs ev rid Hin Hr. unfold account. destruct (Hlogs rid (ue_operation_id ev)) as [-> ->]. by apply Ha.
Qed.

(** A step that posts entries of one operation and records that operation's event. *)
Lemma metered_post rid op v db db' :
  metered_ok db -> plain op = true -> posts rid op db db' -> pending_first rid op db' ->
  op ∈ (ue_operation_id <$> usage_events db') ->
  (ue_operation_id <$> usage_events db) ⊆ (ue_operation_id <$> usage_events db') ->
  NoDup (ue_operation_id <$> usage_events db') ->
  (forall ev, ev ∈ usage_events db' -> (ue_operation_id ev <> op /\ ev ∈ usage_events db)
     \/ (ue_operation_id ev = op /\ ue_reservation_id ev = ue_reservation_id v
         /\ ue_usage_status ev = ue_usage_status v /\ ue_credits_micro ev = ue_credits_micro v)) ->
  status_coherent (ue_usage_status v) (ue_credits_micro v) ->
  (quota_service = true -> forall rid', truthy (ue_reservation_id v) = Some rid' ->
    exists e, account rid' op db' = Some e /\ charges (default 0 (ue_credits_micro v)) (ue_usage_status v) e) ->
  metered_ok db'.
Proof.
  intros [Hp Hu Hf He Ha Hs] Hop Hpost Hfirst Hin Hsub Hnd Hev Hst Hacc. rewrite Forall_forall in Hp, Hs.
  assert (Hpl : forall ev, ev ∈ usage_events db' -> plain (ue_operation_id ev) = true).
  { intros ev [[_ Hin0]|[-> _]]%Hev; [by apply Hp|done]. }
  split; try done.
  - by apply Forall_forall.
  - intros rid' op' Hop'. destruct (decide ((rid', op') = (rid, op))) as [[= -> ->]|Hne]; [done|].
    unfold pending_first. destruct (posts_logs _ _ _ _ _ _ Hop Hop' Hpost Hne) as [-> ->]. by apply Hf.
  - intros rid' op' Hop' Hl. destruct (decide ((rid', op') = (rid, op))) as [[= -> ->]|Hne]; [done|].
    destruct (posts_logs _ _ _ _ _ _ Hop Hop' Hpost Hne) as [Hl' _]. rewrite Hl' in Hl. by apply Hsub, (He rid').
  - intros Hq ev rid' [[Hne Hin0]|(-> & Hr & -> & ->)]%Hev Ht; [|rewrite Hr in Ht; by apply Hacc].
    assert (Hpair : (rid', ue_operation_id ev) <> (rid, op)) by congruence.
    destruct (posts_logs _ _ _ _ _ _ Hop (Hp _ Hin0) Hpost Hpair) as [Hl1 Hl2].
    unfold account. rewrite Hl1, Hl2. by apply Ha.
  - apply Forall_forall. intros ev [[_ Hin0]|(_ & _ & -> & ->)]%Hev; [by apply Hs|done].
Qed.

(** The event of an operation keeps its reservation from report to report. *)
Definition same_reservation (inv : ModelInvocation) (db : DB) : Prop :=
  forall e, existing_event (operation_id inv) db = Some e -> ue_reservation_id e = ua_reservation_id (attribution inv).

Lemma settle_keeps_events u now_ db x db' :
  settle_usage_in_transaction u now_ db = Ok (x, db') -> usage_events db' = usage_events db.
Proof. intros Hr. apply settle_moves in Hr as [_ _ _ _ _ Ho _ _]. unfold usage_events. by rewrite Ho. Qed.

Lemma reconcile_keeps_events u now_ db x db' :
  reconcile_usage_in_transaction u now_ db = Ok (x, db') -> usage_events db' = usage_events db.
Proof. intros Hr. apply reconcile_moves in Hr as [_ _ _ _ _ Ho _ _]. unfold usage_events. by rewrite Ho. Qed.

(** An event that cannot be priced now is settled already. *)
Lemma settled_event_quiet e v now_ db x db' :
  metered_ok db -> e ∈ usage_events db -> status_coherent (ue_usage_status v) (ue_credits_micro v) ->
  becomes_priced (ue_usage_status e) (ue_usage_status v) = false ->
  settle_event quota_service (ue_reservation_id e) (ue_operation_id e) v now_ db = Ok (x, db') -> db' = db.
Proof.
  intros Hok He Hst Hnp Hr. apply settle_event_run in Hr. destruct (truthy _) as [rid|] eqn:Ht; [|done].
  destruct quota_service eqn:Hq; [|done]. destruct Hr as (y & Hr).
  destruct (mo_account _ Hok Hq e rid He Ht) as (le & Hacc & _ & Hus).
  assert (Hop : plain (ue_operation_id e) = true) by (pose proof (mo_plain _ Hok) as Hp; rewrite Forall_forall in Hp; by apply Hp).
  eapply settle_again in Hr; [done|apply fact_known|by apply (mo_first _ Hok)|exact Hacc|].
  rewrite Hus, is_pending_in. exact Hnp.
Qed.

Lemma existing_in op db e : existing_event op db = Some e -> e ∈ usage_events db /\ ue_operation_id e = op.
Proof. apply kfind_some. Qed.

Lemma set_events_log db l rid et pat : ledger_like rid et pat (set_usage_events db l) = ledger_like rid et pat db.
Proof. done. Qed.

(** The first report of an operation. *)
Lemma insert_metered v now_ db x db' :
  metered_ok db -> plain (ue_operation_id v) = true -> ue_operation_id v ∉ (ue_operation_id <$> usage_events db) ->
  status_coherent (ue_usage_status v) (ue_credits_micro v) ->
  settle_event quota_service (ue_reservation_id v) (ue_operation_id v) v now_ (set_usage_events db (usage_events db ++ [v]))
    = Ok (x, db') ->
  metered_ok db'.
Proof.
  intros Hok Hop Hni Hst Hr. set (op := ue_operation_id v) in *. set (db1 := set_usage_events db _) in *.
  assert (Hs0 : forall rid, settle_log rid op db1 = []).
  { intros rid. destruct (settle_log rid op db1) eqn:Hl; [done|]. destruct Hni. apply (mo_events _ Hok rid); [done|].
    change (settle_log rid op db1 <> []). by rewrite Hl. }
  assert (Hpost : exists rid, posts rid op db db' /\ usage_events db' = usage_events db ++ [v] /\ pending_first rid op db'
    /\ (quota_service = true -> forall rid', truthy (ue_reservation_id v) = Some rid' -> exists e,
         account rid' op db' = Some e /\ charges (default 0 (ue_credits_micro v)) (ue_usage_status v) e)).
  { apply settle_event_run in Hr. destruct (truthy _) as [rid|].
    - exists rid. destruct quota_service.
      + destruct Hr as (y & Hr). pose proof (settle_keeps_events _ _ _ _ _ Hr) as Hev.
        apply settle_first_account in Hr as (Hp & Hrec & Hacc);
          [|apply fact_known|apply Hs0|exact (mo_first _ Hok rid op Hop)].
        split_and!; [exact Hp|exact Hev|intros r; cbn in Hrec; fold op in Hrec; by rewrite Hrec|].
        by intros _ rid' [= <-].
      + subst db'. split_and!; [by apply posts_nothing|done|exact (mo_first _ Hok rid op Hop)|done].
    - subst db'. exists "". split_and!; [by apply posts_nothing|done|exact (mo_first _ Hok "" op Hop)|done]. }
  destruct Hpost as (rid & Hp & Hev & Hf & Hacc).
  assert (Hops : (ue_operation_id <$> usage_events db') = (ue_operation_id <$> usage_events db) ++ [op])
    by (by rewrite Hev, fmap_app).
  eapply (metered_post rid op v); [exact Hok|done|exact Hp|exact Hf|rewrite Hops; set_solver|rewrite Hops; set_solver| | |done|exact Hacc].
  - rewrite Hops. apply NoDup_app. split_and!; [apply Hok|set_solver|apply NoDup_singleton].
  - intros ev. rewrite Hev, elem_of_app, list_elem_of_singleton. intros [Hin| ->]; [left|by right].
    split; [|done]. intros Heq. apply Hni. rewrite <- Heq. by apply list_elem_of_fmap_2.
Qed.

(** A pending event that has a price now. *)
Lemma reprice_metered e v db x s :
  metered_ok db -> e ∈ usage_events db -> ue_operation_id v = ue_operation_id e -> ue_reservation_id v = ue_reservation_id e ->
  status_coherent (ue_usage_status v) (ue_credits_micro v) ->
  becomes_priced (ue_usage_status e) (ue_usage_status v) = true ->
  reconcile_event quota_service (ue_reservation_id e) (ue_operation_id e) v db = Ok (x, s) ->
  metered_ok (set_usage_events s (kupdate ue_operation_id (ue_operation_id e) (overwrite_event v) (usage_events s))).
Proof.
  intros Hok He Hvop Hvr Hst Hbp Hr. apply andb_true_iff in Hbp as [Hpend _]. set (op := ue_operation_id e) in *.
  assert (Hop : plain op = true) by (pose proof (mo_plain _ Hok) as Hp; rewrite Forall_forall in Hp; by apply Hp).
  assert (Hpost : exists rid, posts rid op db s /\ usage_events s = usage_events db /\ pending_first rid op s
    /\ (quota_service = true -> forall rid', truthy (ue_reservation_id v) = Some rid' -> exists e,
         account rid' op s = Some e /\ charges (default 0 (ue_credits_micro v)) (ue_usage_status v) e)).
  { apply reconcile_event_run in Hr. rewrite Hvr. destruct (truthy _) as [rid|] eqn:Ht.
    - exists rid. destruct quota_service eqn:Hq.
      + destruct Hr as (y & Hr). pose proof (reconcile_keeps_events _ _ _ _ _ Hr) as Hev.
        destruct (mo_account _ Hok Hq e rid He Ht) as (le & Hacc & _ & Hus).
        eapply reconcile_first_account in Hr as (Hp & Hf & Hacc');
          [|exact (mo_first _ Hok rid op Hop)|exact Hacc|by rewrite Hus, is_pending_in].
        split_and!; [exact Hp|exact Hev|exact Hf|]. by intros _ rid' [= <-].
      + subst s. split_and!; [by apply posts_nothing|done|exact (mo_first _ Hok rid op Hop)|done].
    - subst s. exists "". split_and!; [by apply posts_nothing|done|exact (mo_first _ Hok "" op Hop)|done]. }
  destruct Hpost as (rid & Hp & Hev & Hf & Hacc). rewrite Hev.
  assert (Hops : (ue_operation_id <$> kupdate ue_operation_id op (overwrite_event v) (usage_events db))
                 = (ue_operation_id <$> usage_events db)) by (by apply kupdate_keys).
  assert (Hin : op ∈ (ue_operation_id <$> usage_events db)) by (by apply list_elem_of_fmap_2).
  eapply (metered_post rid op v db); [exact Hok|done|exact Hp|exact Hf|..];
    change (usage_events (set_usage_events s ?l)) with l; rewrite ?Hops; try done; try apply Hok.
  intros ev (y & Hy & ->)%kupdate_elem. destruct (String.eqb_spec (ue_operation_id y) op) as [Heq|Hne]; [right|by left].
  by cbn.
Qed.

Lemma report_metered id inv u oc now_ db r db' :
  metered_ok db -> plain (operation_id inv) = true -> same_reservation inv db ->
  report sha256 quota_service id inv u oc now_ db = Ok (r, db') -> metered_ok db'.
Proof.
  intros Hok Hop Hsame Hr. apply report_run in Hr. cbv zeta in Hr.
  pose proof (values_operation sha256 id inv u oc now_ db) as Hvop.
  pose proof (values_reservation sha256 id inv u oc now_ db) as Hvr.
  pose proof (values_status sha256 id inv u oc now_ db) as Hst.
  set (v := event_values sha256 id inv u oc now_ db) in *. clearbody v.
  destruct (existing_event (operation_id inv) db) as [e|] eqn:Hex.
  - pose proof (Hsame e Hex) as Hre. apply existing_in in Hex as [He Heop]. destruct (becomes_priced _ _) eqn:Hbp.
    + destruct Hr as (s & Hr & ->). rewrite <- Hre, or_else_same, <- Heop in Hr. rewrite <- Heop.
      eapply reprice_metered; [exact Hok|done|congruence|congruence|done|done|exact Hr].
    + destruct Hr as [_ Hr]. rewrite <- Heop in Hr. by rewrite (settled_event_quiet _ _ _ _ _ _ Hok He Hst Hbp Hr).
  - destruct Hr as [Hni Hr]. rewrite <- Hvop, <- Hvr in Hr. rewrite <- Hvop in Hop, Hni. by eapply insert_metered.
Qed.

(** ** The system *)

(** The calls of the service other than the two a report makes. *)
Inductive service_call (db : DB) : DB -> Prop :=
| sc_admit cmd roles cls at_ : service_call db (run_tx (admit_in_transaction lease_seconds cmd roles cls at_) db).2
| sc_begin rid at_ : service_call db (run_tx (begin_reservation lease_seconds rid at_) db).2
| sc_heartbeat rid at_ : service_call db (run_tx (heartbeat lease_seconds rid at_) db).2
| sc_reserve_feature rid op pk f at_ : service_call db (run_tx (reserve_feature_usage_in_transaction rid op pk f at_) db).2
| sc_release_feature rid op at_ : service_call db (run_tx (release_feature_usage_in_transaction rid op at_) db).2
| sc_finish cmd at_ ts : service_call db (run_tx (finish_in_transaction cmd at_ ts) db).2
| sc_expire at_ : service_call db (run_tx (expire_reservations at_) db).2.

Inductive metered : DB -> Prop :=
| met_init db : empty_tables db -> usage_events db = [] -> metered db
| met_service db db' : metered db -> service_call db db' -> metered db'
| met_manager db db' : metered db -> manager_step digest db db' -> usage_events db' = usage_events db -> metered db'
| met_report db id inv u oc now_ :
    metered db -> plain (operation_id inv) = true -> same_reservation inv db ->
    metered (run_tx (report sha256 quota_service id inv u oc now_) db).2.

Lemma service_call_step db db' : service_call db db' -> service_step lease_seconds db db' /\ quiet db db'.
Proof.
  intros [].
  - split; [apply step_admit|apply (st_moves_run quiet), admit_quiet].
  - split; [apply step_begin|apply (st_moves_run quiet), begin_quiet].
  - split; [apply step_heartbeat|apply (st_moves_run quiet), heartbeat_quiet].
  - split; [apply step_reserve_feature|apply (st_moves_run quiet), reserve_feature_quiet].
  - split; [apply step_release_feature|apply (st_moves_run quiet), release_feature_quiet].
  - split; [apply step_finish|apply (st_moves_run quiet), finish_quiet].
  - split; [apply step_expire|apply (st_moves_run quiet), expire_reservations_quiet].
Qed.

Lemma metered_invariant db : metered db -> metered_ok db.
Proof.
  induction 1 as [db ((_ & _ & Hl & _) & _) He|db db' _ IH Hs|db db' _ IH Hs He|db id inv u oc now_ _ IH Hop Hres].
  - by apply metered_empty.
  - apply service_call_step in Hs as [_ Hq]. by eapply metered_quiet.
  - apply manager_quiet in Hs; [|done]. by eapply metered_quiet.
  - unfold run_tx. destruct (report _ _ _ _ _ _ _ _) as [[r db']|e] eqn:Hr; [|done]. by eapply report_metered.
Qed.

(** A step of the reporter is a write of its table and a call of the service. *)
Lemma events_governed db l : governed digest lease_seconds db -> governed digest lease_seconds (set_usage_events db l).
Proof.
  intros Hg. eapply gov_manager; [exact Hg|]. destruct db. exact (ms_others digest _ _ l).
Qed.

Lemma settle_event_governed res op v now_ db x db' :
  governed digest lease_seconds db -> settle_event quota_service res op v now_ db = Ok (x, db') -> governed digest lease_seconds db'.
Proof.
  intros Hg Hr%settle_event_run. destruct (truthy res) as [rid|]; [|by subst]. destruct quota_service; [|by subst].
  destruct Hr as (y & Hr). eapply gov_service; [exact Hg|].
  pose proof (step_settle lease_seconds db (event_fact rid op v) now_) as Hs. unfold run_tx in Hs. by rewrite Hr in Hs.
Qed.

Lemma reconcile_event_governed res op v db x db' :
  governed digest lease_seconds db -> reconcile_event quota_service res op v db = Ok (x, db') -> governed digest lease_seconds db'.
Proof.
  intros Hg Hr%reconcile_event_run. destruct (truthy res) as [rid|]; [|by subst]. destruct quota_service; [|by subst].
  destruct Hr as (y & Hr). eapply gov_service; [exact Hg|].
  pose proof (step_reconcile lease_seconds db (event_fact rid op v) (ue_occurred_at v)) as Hs. unfold run_tx in Hs. by rewrite Hr in Hs.
Qed.

Lemma metered_governed db : metered db -> governed digest lease_seconds db.
Proof.
  induction 1 as [db Hi He|db db' _ IH Hs|db db' _ IH Hs _|db id inv u oc now_ _ IH _ _].
  - by apply gov_init.
  - apply service_call_step in Hs as [Hs _]. by eapply gov_service.
  - by eapply gov_manager.
  - unfold run_tx. destruct (report _ _ _ _ _ _ _ _) as [[r db']|e] eqn:Hr; [|done]. apply report_run in Hr. cbv zeta in Hr.
    destruct (existing_event _ _) as [e|].
    + destruct (becomes_priced _ _).
      * destruct Hr as (s & Hr & ->). apply events_governed. by eapply reconcile_event_governed.
      * destruct Hr as [_ Hr]. by eapply settle_event_governed.
    + destruct Hr as [_ Hr]. eapply settle_event_governed; [|exact Hr]. by apply events_governed.
Qed.

(** ** Reports repeated *)

(** A report that finds its own event settled returns without writing. *)
Lemma report_finds id inv u oc now_ db e :
  existing_event (operation_id inv) db = Some e ->
  ue_raw_usage e = {| up_invocation := inv; up_usage := u; up_outcome := oc |} ->
  becomes_priced (ue_usage_status e) (ue_usage_status (event_values sha256 id inv u oc now_ db)) = false ->
  settle_event quota_service (ue_reservation_id e) (operation_id inv) (event_values sha256 id inv u oc now_ db) now_ db = Ok ((), db) ->
  report sha256 quota_service id inv u oc now_ db = Ok (or_else (ue_reservation_id e) (ua_reservation_id (attribution inv)), db).
Proof.
  intros Hex Hraw Hbp Hs. unfold report, gets. unfold mbind at 1 2, st_bind at 1 2. rewrite Hex.
  unfold report_transaction. cbv zeta. rewrite values_operation, values_reservation, values_raw, Hbp, Hraw.
  rewrite bool_decide_eq_true_2 by done. cbn [andb negb]. unfold mbind, st_bind. by rewrite Hs.
Qed.

Lemma same_price_status id id' inv u oc t t' db db' :
  db_pricing db' = db_pricing db ->
  ue_usage_status (event_values sha256 id' inv u oc t' db') = ue_usage_status (event_values sha256 id inv u oc t db).
Proof. intros Hp. exact (f_equal uf_usage_status (values_fact sha256 "" id id' inv u oc t t' db db' Hp)). Qed.

Lemma priced_once s : becomes_priced s s = false.
Proof. unfold becomes_priced. destruct (string_in s ["pending"; "unavailable"]) eqn:Hp; [|done]. by apply statuses_disjoint. Qed.

Lemma settle_event_done res op v now_ db :
  (forall rid, truthy res = Some rid -> quota_service = true ->
     exists y, settle_usage_in_transaction (event_fact rid op v) now_ db = Ok (y, db)) ->
  settle_event quota_service res op v now_ db = Ok ((), db).
Proof.
  intros Hs. unfold settle_event. destruct (truthy res) as [rid|]; [|done]. destruct quota_service; [|done].
  destruct (Hs rid) as [y Hy]; [done..|]. unfold mbind, st_bind. by rewrite Hy.
Qed.

Lemma settle_event_pricing res op v now_ db x db' :
  settle_event quota_service res op v now_ db = Ok (x, db') ->
  db_pricing db' = db_pricing db /\ usage_events db' = usage_events db.
Proof.
  intros Hr%settle_event_run. destruct (truthy res); [|by subst]. destruct quota_service; [|by subst].
  destruct Hr as (y & Hr). apply settle_moves in Hr as [_ _ Hp _ _ Ho _ _]. unfold usage_events. by rewrite Hp, Ho.
Qed.

(** A settlement of the event that returned, made again. *)
Lemma settle_event_twice id id' res inv u oc t t' db0 db1 db now_ now' x :
  db_pricing db = db_pricing db0 ->
  settle_event quota_service res (operation_id inv) (event_values sha256 id inv u oc t db0) now_ db1 = Ok (x, db) ->
  settle_event quota_service res (operation_id inv) (event_values sha256 id' inv u oc t' db) now' db = Ok ((), db).
Proof.
  intros Hp Hr%settle_event_run. apply settle_event_done. intros rid Ht Hq.
  rewrite (values_fact sha256 rid id id' inv u oc t t' db0 db Hp).
  rewrite Ht, Hq in Hr. destruct Hr as (y & Hs).
  pose proof (settle_twice _ _ _ _ _ now' Hs (fact_known _ _ _)) as Hs2. exists y. unfold run_tx in Hs2.
  destruct (settle_usage_in_transaction _ now' db) as [[a s]|]; [|done]. by injection Hs2 as -> ->.
Qed.

(** The event of a report that returned is found by the same report, settled. *)
Definition finds_settled (id' : string) (inv : ModelInvocation) (u : CanonicalTokenUsage) (oc : InvocationOutcome)
  (now' : Z) (db : DB) : Prop :=
  exists e, existing_event (operation_id inv) db = Some e
    /\ ue_raw_usage e = {| up_invocation := inv; up_usage := u; up_outcome := oc |}
    /\ ue_reservation_id e = ua_reservation_id (attribution inv)
    /\ becomes_priced (ue_usage_status e) (ue_usage_status (event_values sha256 id' inv u oc now' db)) = false
    /\ settle_event quota_service (ue_reservation_id e) (operation_id inv) (event_values sha256 id' inv u oc now' db) now' db
       = Ok ((), db).

Lemma reprice_finds e id id' inv u oc now_ now' db s :
  metered_ok db -> existing_event (operation_id inv) db = Some e ->
  ue_reservation_id e = ua_reservation_id (attribution inv) ->
  becomes_priced (ue_usage_status e) (ue_usage_status (event_values sha256 id inv u oc now_ db)) = true ->
  reconcile_event quota_service (ue_reservation_id e) (operation_id inv) (event_values sha256 id inv u oc now_ db) db = Ok ((), s) ->
  finds_settled id' inv u oc now'
    (set_usage_events s (kupdate ue_operation_id (operation_id inv)
       (overwrite_event (event_values sha256 id inv u oc now_ db)) (usage_events s))).
Proof.
  intros Hok Hex Hres Hbp Hr. set (v := event_values sha256 id inv u oc now_ db) in *. set (op := operation_id inv) in *.
  assert (Hs : db_pricing s = db_pricing db /\ usage_events s = usage_events db).
  { apply reconcile_event_run in Hr. destruct (truthy _); [|by subst]. destruct quota_service; [|by subst].
    destruct Hr as (y & Hr). apply reconcile_moves in Hr as [_ _ Hp _ _ Ho _ _]. unfold usage_events. by rewrite Hp, Ho. }
  destruct Hs as [Hp Hev]. set (db' := set_usage_events s _).
  assert (Hp' : db_pricing db' = db_pricing db) by done.
  exists (overwrite_event v e). split_and!.
  - unfold existing_event, db'. change (ot_usage_events (db_operations (set_usage_events s ?l))) with l.
    rewrite Hev. unfold existing_event in Hex. rewrite kfind_kupdate by done. fold (usage_events db) in Hex. by rewrite Hex.
  - apply values_raw.
  - apply values_reservation.
  - cbn [ue_usage_status overwrite_event]. unfold v. rewrite (same_price_status id id' inv u oc now_ now' db db' Hp'). apply priced_once.
  - change (ue_reservation_id (overwrite_event v e)) with (ue_reservation_id v). unfold v at 1. rewrite values_reservation, <- Hres.
    apply settle_event_done. intros rid Ht Hq. unfold op. rewrite (values_fact sha256 rid id id' inv u oc now_ now' db db' Hp').
    apply reconcile_event_run in Hr. rewrite Ht, Hq in Hr. destruct Hr as (y & Hr). exists y.
    eapply settle_after_reconcile; [exact Hr| |done|done]. apply existing_in in Hex as [He Heop].
    destruct (mo_account _ Hok Hq e rid He Ht) as (le & Hacc & _ & Hus). cbn [uf_reservation_id uf_operation_id event_fact].
    apply andb_true_iff in Hbp as [Hpend _]. fold op in Heop. rewrite Heop in Hacc. unfold account in Hacc.
    destruct (head (reconcile_log rid op db)) as [r|] eqn:Hh.
    + injection Hacc as <-. assert (Hop : plain op = true).
      { rewrite <- Heop. pose proof (mo_plain _ Hok) as Hpl. rewrite Forall_forall in Hpl. by apply Hpl. }
      destruct (mo_first _ Hok rid op Hop r Hh) as (_ & Hl). exact Hl.
    + exists le. split; [exact Hacc|]. by rewrite Hus, is_pending_in.
Qed.

Lemma report_repeats id inv u oc now_ db r db' id' now' :
  metered_ok db -> same_reservation inv db -> report sha256 quota_service id inv u oc now_ db = Ok (r, db') ->
  report sha256 quota_service id' inv u oc now' db' = Ok (ua_reservation_id (attribution inv), db').
Proof.
  intros Hok Hsame Hr. assert (Hf : finds_settled id' inv u oc now' db').
  - apply report_run in Hr. cbv zeta in Hr. pose proof (values_status sha256 id inv u oc now_ db) as Hst.
    destruct (existing_event (operation_id inv) db) as [e|] eqn:Hex.
    + pose proof (Hsame e Hex) as Hre. destruct (becomes_priced _ _) eqn:Hbp.
      * destruct Hr as (s & Hr & ->). rewrite <- Hre, or_else_same in Hr. by eapply reprice_finds.
      * destruct Hr as [Hraw Hr]. pose proof (existing_in _ _ _ Hex) as [He Heop].
        pose proof Hr as Hr'. rewrite <- Heop in Hr'. pose proof (settled_event_quiet _ _ _ _ _ _ Hok He Hst Hbp Hr') as ->.
        exists e. split_and!; try done.
        -- by rewrite (same_price_status id id' inv u oc now_ now' db db eq_refl).
        -- by eapply settle_event_twice.
    + destruct Hr as [Hni Hr]. pose proof (settle_event_pricing _ _ _ _ _ _ _ Hr) as [Hp Hev]. set (v := event_values _ id _ _ _ _ _) in *.
      exists v. split_and!.
      * unfold existing_event. fold (usage_events db'). rewrite Hev. change (usage_events (set_usage_events db ?l)) with l.
        rewrite <- (values_operation sha256 id inv u oc now_ db). apply kfind_last. unfold v. by rewrite values_operation.
      * apply values_raw.
      * apply values_reservation.
      * unfold v. rewrite (same_price_status id id' inv u oc now_ now' db db' Hp). apply priced_once.
      * unfold v at 1. rewrite values_reservation. by eapply settle_event_twice.
  - destruct Hf as (e & Hex & Hraw & Hre & Hbp & Hs). rewrite (report_finds _ _ _ _ _ _ e) by done. by rewrite Hre, or_else_same.
Qed.

(** The ledger has nothing but the pending settlement of an event without a price. *)
Lemma pending_unreconciled op rid e db :
  metered_ok db -> quota_service = true -> existing_event op db = Some e ->
  string_in (ue_usage_status e) ["pending"; "unavailable"] = true -> truthy (ue_reservation_id e) = Some rid ->
  reconcile_log rid op db = [].
Proof.
  intros Hok Hq [Hin <-]%existing_in Hpend Ht.
  assert (Hop : plain (ue_operation_id e) = true) by (pose proof (mo_plain _ Hok) as Hp; rewrite Forall_forall in Hp; by apply Hp).
  destruct (reconcile_log _ _ db) as [|f l] eqn:Hl; [done|].
  destruct (mo_first _ Hok rid _ Hop f) as ((st & Hst & Hx) & _); [by rewrite Hl|].
  destruct (mo_account _ Hok Hq e rid Hin Ht) as (le & Hacc & _ & Hus). unfold account in Hacc. rewrite Hl in Hacc.
  cbn in Hacc. injection Hacc as <-. rewrite Hst in Hus. injection Hus as ->. by rewrite (statuses_disjoint _ Hpend) in Hx.
Qed.
End metered.
