(* ===== verification/ReportingTools.v ===== *)
(** * ReportingTools: the hold of a billable tool

    [begin_billable_tool_usage] holds the price of a tool before it runs and
    [cancel_billable_tool_usage] gives the hold back.  The two are decomposed into the
    statements they run; a fresh operation's release is shown to go through. *)
From S2P Require Import Prelude PyText Clock Usage Pricing Policy Reservation QuotaStore QuotaService QuotaInvariants.
From S2P Require Import QuotaIdentity QuotaWorld QuotaSettlement QuotaManagement QuotaOperations QuotaGovernance.
From S2P Require Import QuotaPrices QuotaGoverned Reporting ReportingSafety.
Local Open Scope Z_scope.

(** No entry of the ledger belongs to a feature hold of the operation. *)
Definition unused_operation (op : string) (db : DB) : Prop :=
  forall e s, e ∈ db_ledger db ->
    le_idempotency_key e <> reserve_feature_prefix op +:+ s /\ le_idempotency_key e <> release_feature_prefix op +:+ s.

Lemma prefix_split p s : String.prefix p s = true -> exists t, s = p +:+ t.
Proof.
  revert s. induction p as [|c p IH]; intros s Hp; [by exists s|]. destruct s as [|d s]; [done|].
  apply prefix_cons in Hp as [-> (t & ->)%IH]. by exists t.
Qed.

Lemma append_cancel p a b : p +:+ a = p +:+ b -> a = b.
Proof. induction p as [|c p IH]; [done|]. intros He. apply IH. by injection He. Qed.

(** A pattern of a plain operation finds the keys that start with its prefix. *)
Lemma unused_log rid et p op db :
  like_literal p = true -> plain op = true ->
  (forall e s, e ∈ db_ledger db -> le_idempotency_key e <> (p +:+ op +:+ ":") +:+ s) ->
  ledger_like rid et ((p +:+ op +:+ ":") +:+ "%") db = [].
Proof.
  intros Hp [Hl _]%andb_true_iff Hno. apply filter_none. intros e He. apply andb_false_iff. right.
  pose proof (sql_like_prefix (p +:+ op +:+ ":") (le_idempotency_key e)) as Heq. rewrite !like_literal_app, Hp, Hl in Heq.
  specialize (Heq eq_refl). refine (eq_trans Heq _). apply not_true_iff_false. intros (t & Ht)%prefix_split. by eapply Hno.
Qed.

Lemma zip_forall_in {A B C} (P : C -> Prop) (f : A -> B -> C) l k :
  (forall a b, a ∈ l -> P (f a b)) -> Forall P (zip_with f l k).
Proof.
  revert k. induction l as [|a l IH]; intros [|b k] Hf; cbn; try constructor; [apply Hf; by left|].
  apply IH. intros a' b' Ha. apply Hf. by right.
Qed.

Section tools.
Context `{Uuids}.

(** The writes of a reservation that was not there before. *)
Lemma reserve_feature_run rid op pk f at_ db micro db1 :
  reserve_feature_usage_in_transaction rid op pk f at_ db = Ok (micro, db1) ->
  ledger_like rid "reserve" (reserve_feature_prefix op +:+ "%") db = [] ->
  exists r rows s1 s2,
    db_reservations db !! rid = Some r /\ is_active (r_status r) = true
    /\ estimate_feature_micro pk f at_ db = Ok micro
    /\ reservation_buckets rid db = Ok (rows, db)
    /\ when (bool_decide (rows = [])) (insert_ledger (Some rid) None "reserve" micro micro 0
         (reserve_feature_prefix op +:+ "none") "feature_admission" (meta_feature op pk f micro None) at_) db = Ok ((), s1)
    /\ post_all (hold_upd micro at_) (feature_mk rid op pk f micro at_) rows s1 s2
    /\ db1 = set_reservations s2 (alter (set_reserved (r_reserved_micro r + micro) at_) rid (db_reservations s2)).
Proof.
  intros Hr Hnil. unfold reserve_feature_usage_in_transaction in Hr.
  apply st_bind_ok in Hr as (ro & s & Hg & Hr). injection Hg as <- <-.
  destruct (db_reservations db !! rid) as [r|] eqn:Hk; [|done].
  destruct (negb (is_active (r_status r))) eqn:Ha; [done|]. apply negb_false_iff in Ha. cbn [orb] in Hr.
  destruct (r_lease_expires_at r <=? at_); [done|]. cbv zeta in Hr.
  apply st_bind_ok in Hr as (ex & s & Hg & Hr). injection Hg as <- <-. rewrite Hnil in Hr.
  apply st_bind_ok in Hr as (est & s & Hg & Hr). injection Hg as <- <-.
  destruct (estimate_feature_micro pk f at_ db) as [m|] eqn:Hest; [|done].
  apply st_bind_ok in Hr as (m' & s & Hg & Hr). injection Hg as <- <-.
  apply st_bind_ok in Hr as ([] & s & Hlim & Hr).
  assert (s = db) as ->.
  { destruct (ps_request_limit_micro _); [destruct (_ <? _)|]; by inversion Hlim. }
  apply st_bind_ok in Hr as (rows & s & Hrows & Hr). pose proof Hrows as Hrows'. injection Hrows' as _ <-.
  apply st_bind_ok in Hr as ([] & s & Hfit & Hr).
  assert (s = db) as ->.
  { symmetry. eapply (st_inv_iter (eq db)); [|reflexivity|exact Hfit]. intros b. unfold feature_fits. repeat st_inv_step. }
  apply st_bind_ok in Hr as ([] & s1 & Hnone & Hr). apply st_bind_ok in Hr as ([] & s2 & Hloop & Hr).
  apply st_bind_ok in Hr as ([] & s3 & Hup & Hr). injection Hr as <- <-. injection Hup as <-.
  exists r, rows, s1, s2. split_and!; try done. by eapply feature_loop.
Qed.

(** The loop of a release goes through when its keys are free and its counters fit. *)
Lemma feature_release_goes_through rid op released_ now_ rows db :
  NoDup (b_id <$> rows) -> current (db_buckets db) rows ->
  (forall b, b ∈ rows -> key_taken (release_feature_prefix op +:+ b_id b) (db_ledger db) = false) ->
  (forall b, b ∈ rows -> counters_fit b = true) -> 0 <= released_ ->
  exists db', st_iter (feature_release rid op released_ now_) rows db = Ok ((), db').
Proof.
  intros Hnd Hcur Hkeys Hfit Hrel. revert db Hcur Hkeys.
  induction rows as [|b rows IH]; intros db Hcur Hkeys; [by exists db|].
  apply NoDup_cons in Hnd as [Hni Hnd]. apply Forall_cons in Hcur as [Hb Hcur].
  cbn [st_iter]. set (key := release_feature_prefix op +:+ b_id b).
  assert (Hkey : key_taken key (db_ledger db) = false) by (apply Hkeys; by left).
  assert (Hfb : counters_fit (write_reserved b (Z.max 0 (b_reserved_micro b - Z.min (b_reserved_micro b) released_)) now_ b) = true).
  { pose proof (Hfit b) as Hx. unfold counters_fit, unsigned, UNSIGNED_BOUND in *. cbn. specialize (Hx ltac:(by left)). lia. }
  assert (Hstep : exists e, feature_release rid op released_ now_ b db = Ok ((), set_buckets
      (set_ledger (set_next_uuid db (S (db_next_uuid db))) (db_ledger db ++ [e]))
      (alter (write_reserved b (Z.max 0 (b_reserved_micro b - Z.min (b_reserved_micro b) released_)) now_) (b_id b) (db_buckets db)))
      /\ le_idempotency_key e = key).
  { eexists. split.
    - unfold feature_release, insert_ledger, fresh_uuid, update_bucket, stmt. unfold mbind, st_bind. cbv zeta. cbn [db_ledger set_next_uuid].
      fold key. unfold key_taken in Hkey. rewrite Hkey. cbn [db_buckets set_ledger set_next_uuid]. rewrite Hb, Hfb. reflexivity.
    - reflexivity. }
  destruct Hstep as (e & Hstep & He). destruct (IH Hnd ltac:(intros; apply Hfit; by right) (set_buckets
      (set_ledger (set_next_uuid db (S (db_next_uuid db))) (db_ledger db ++ [e]))
      (alter (write_reserved b (Z.max 0 (b_reserved_micro b - Z.min (b_reserved_micro b) released_)) now_) (b_id b) (db_buckets db))))
    as (db' & Hdb').
  - cbn. by apply current_alter.
  - intros b' Hb'. change (db_ledger (set_buckets (set_ledger ?d ?l) ?m)) with l. rewrite key_taken_app, Hkeys by (by right). rewrite He. cbn [orb]. apply String.eqb_neq. unfold key.
    intros Hx%append_cancel. apply Hni. rewrite Hx. by apply list_elem_of_fmap_2.
  - exists db'. unfold mbind, st_bind. by rewrite Hstep.
Qed.

Definition in_reservation (rid : string) (db : DB) (k : string) : bool := string_in k (reservation_bucket_ids rid db).

Lemma in_reservation_iff rid db k :
  in_reservation rid db k = true <->
  exists e, e ∈ db_ledger db /\ le_reservation_id e = Some rid /\ le_entry_type e = "reserve" /\ le_bucket_id e = Some k.
Proof.
  unfold in_reservation, string_in, reservation_bucket_ids. rewrite bool_decide_eq_true, elem_of_remove_dups, list_elem_of_omap.
  split.
  - intros (e & [He Hc]%filter_elem_of & Hb). apply andb_true_iff in Hc as [Hr%bool_decide_eq_true Ht%String.eqb_eq]. by exists e.
  - intros (e & He & Hr & Ht & Hb). exists e. split; [|done]. apply filter_elem_of. split; [done|].
    by rewrite Hr, Ht, bool_decide_eq_true_2.
Qed.

(** What a hold leaves: the row, the buckets and the entries of the operation. *)
Record held (rid op : string) (micro at_ : Z) (r : ReservationRow) (db db1 : DB) : Prop := {
  hd_row : db_reservations db1 !! rid = Some (set_reserved (r_reserved_micro r + micro) at_ r);
  hd_bucket : forall k b, db_buckets db !! k = Some b ->
    db_buckets db1 !! k = Some (if in_reservation rid db k then hold_upd micro at_ b b else b);
  hd_ids : forall k, in_reservation rid db1 k = in_reservation rid db k;
  hd_entries : exists e new, db_ledger db1 = db_ledger db ++ e :: new
    /\ Forall (fun e => tagged rid "reserve" (reserve_feature_prefix op) e /\ m_reserved_micro (le_metadata e) = Some micro) (e :: new);
}.

Lemma reserve_feature_held rid op pk f at_ db micro db1 :
  balanced db -> reserve_feature_usage_in_transaction rid op pk f at_ db = Ok (micro, db1) ->
  ledger_like rid "reserve" (reserve_feature_prefix op +:+ "%") db = [] ->
  exists r, db_reservations db !! rid = Some r /\ held rid op micro at_ r db db1.
Proof.
  intros Hbal Hr Hnil. apply reserve_feature_run in Hr as (r & rows & s1 & s2 & Hk & _ & _ & Hrows & Hn & Hp & ->); [|done].
  exists r. split; [done|]. injection Hrows as Hrows. pose proof (when_none_rest _ _ _ _ _ _ _ _ _ _ _ _ Hn) as [(? & ? & ? & Hs1) Hb1].
  assert (Hcur : current (db_buckets s1) rows) by (rewrite Hb1, <- Hrows; by eapply select_current).
  set (P e := (tagged rid "reserve" (reserve_feature_prefix op) e /\ m_reserved_micro (le_metadata e) = Some micro)
              /\ forall k, le_bucket_id e = Some k -> in_reservation rid db k = true).
  assert (Hlog : exists e new, db_ledger s2 = db_ledger db ++ e :: new /\ Forall P (e :: new)).
  { destruct rows as [|b0 rows].
    - cbn in Hn. apply insert_ledger_ok in Hn as [_ Hn]. inversion Hp; subst s2. rewrite Hn. eexists _, []. split; [done|].
      constructor; [|done]. split; [|done]. split; [|done]. split; [done|]. split; [done|]. by eexists.
    - apply post_all_ledger in Hp as (ids & Hlen & Hl). destruct ids as [|i ids]; [done|]. injection Hn as <-.
      exists (feature_mk rid op pk f micro at_ b0 i), (zip_with (feature_mk rid op pk f micro at_) rows ids). split; [exact Hl|].
      apply (zip_forall_in P (feature_mk rid op pk f micro at_) (b0 :: rows) (i :: ids)). intros b id Hb. split.
      + split; [|done]. split; [done|]. split; [done|]. by eexists.
      + cbn. intros k [= <-]. rewrite <- Hrows in Hb. by apply filter_elem_of in Hb as [_ Hb]. }
  destruct Hlog as (e & new & Hl & Hall). pose proof (post_all_same_rest _ _ _ _ _ Hp) as (? & ? & ? & Hs2).
  split.
  - cbn. rewrite Hs2, Hs1. cbn. by rewrite lookup_alter_eq, Hk.
  - intros k b Hb. cbn. pose proof (bk_key _ _ Hbal _ _ Hb) as Hid. destruct (in_reservation rid db k) eqn:Hin.
    + rewrite <- Hid. apply (post_all_lookup _ _ (feature_laws rid op pk f micro at_) _ _ _ b Hp Hcur). rewrite <- Hrows.
      eapply select_in; [exact Hb|]. by rewrite Hid.
    + rewrite (post_all_lookup_ne _ _ (feature_laws rid op pk f micro at_) _ _ _ k Hp), Hb1; [done|].
      intros (b0 & -> & Hb0)%list_elem_of_fmap. rewrite <- Hrows in Hb0. apply filter_elem_of in Hb0 as [_ Hb0].
      unfold in_reservation in Hin. congruence.
  - intros k. apply eq_true_iff_eq. rewrite !in_reservation_iff. split.
    + intros (e' & He' & Hrid & Ht & Hbk). cbn in He'. rewrite Hl in He'. apply elem_of_app in He' as [He'|He']; [by exists e'|].
      rewrite Forall_forall in Hall. destruct (Hall e' He') as [_ Hin]. by apply in_reservation_iff, Hin.
    + intros (e' & He' & Hx). exists e'. split; [|done]. cbn. rewrite Hl. apply elem_of_app. by left.
  - exists e, new. split; [exact Hl|]. eapply Forall_impl; [exact Hall|]. by intros ? [? _].
Qed.

Lemma free_key p s l : (forall e t, e ∈ l -> le_idempotency_key e <> p +:+ t) -> key_taken (p +:+ s) l = false.
Proof.
  intros Hno. apply not_true_iff_false. intros (e & He & Hk)%existsb_exists. apply list_elem_of_In in He.
  apply String.eqb_eq in Hk. by eapply Hno.
Qed.

(** The keys of the operation's release are still free after its hold. *)
Lemma held_release_free rid op micro at_ r db db1 e t :
  unused_operation op db -> held rid op micro at_ r db db1 -> e ∈ db_ledger db1 ->
  le_idempotency_key e <> release_feature_prefix op +:+ t.
Proof.
  intros Hun [_ _ _ (e0 & new & Hl & Hall)] He. rewrite Hl in He. apply elem_of_app in He as [He|He]; [by apply (Hun e t)|].
  rewrite Forall_forall in Hall. destruct (Hall e He) as [(_ & _ & s & ->) _]. done.
Qed.

Lemma release_feature_run rid op later r e rows db :
  db_reservations db !! rid = Some r ->
  ledger_like rid "release" (release_feature_prefix op +:+ "%") db = [] ->
  head (ledger_like rid "reserve" (reserve_feature_prefix op +:+ "%") db) = Some e ->
  forall requested, m_reserved_micro (le_metadata e) = Some requested -> reservation_buckets rid db = Ok (rows, db) ->
  forall s1 s2, let released_ := Z.min (r_reserved_micro r) requested in
  when (bool_decide (rows = [])) (insert_ledger (Some rid) None "release" (- released_) (- released_) 0
     (release_feature_prefix op +:+ "none") "feature_execution_failed" (meta_release op released_) later) db = Ok ((), s1) ->
  st_iter (feature_release rid op released_ later) rows s1 = Ok ((), s2) ->
  release_feature_usage_in_transaction rid op later db
  = Ok (released_, set_reservations s2 (alter (set_reserved (Z.max 0 (r_reserved_micro r - released_)) later) rid (db_reservations s2))).
Proof.
  intros Hk Hrel Hres requested Hreq Hrows s1 s2 released_ Hn Hloop.
  unfold release_feature_usage_in_transaction, get_reservation, gets. unfold mbind at 1, st_bind at 1. rewrite Hk.
  unfold mbind at 1, st_bind at 1. rewrite Hrel. unfold mbind at 1, st_bind at 1.
  destruct (ledger_like rid "reserve" _ db) as [|e' es]; [done|]. injection Hres as ->. rewrite Hreq. cbv zeta.
  unfold mbind at 1, st_bind at 1. rewrite Hrows. unfold mbind at 1, st_bind at 1. fold released_. rewrite Hn.
  unfold mbind at 1, st_bind at 1. by rewrite Hloop.
Qed.

Lemma select_ids bs l p : books bs l -> NoDup (b_id <$> select p bs).
Proof.
  intros Hb. assert (Hids : b_id <$> (map_to_list bs).*2 = (map_to_list bs).*1).
  { rewrite <- list_fmap_compose. apply list_fmap_ext. intros i [k b] Hi. cbn. apply (bk_key _ _ Hb).
    apply elem_of_map_to_list. by eapply list_elem_of_lookup_2. }
  eapply sublist_NoDup; [|apply fmap_sublist, filter_sublist_of]. unfold rows. rewrite Hids. apply NoDup_fst_map_to_list.
Qed.

(** A hold released: the row and the buckets are what they were. *)
Lemma release_held rid op micro at_ later r db db1 :
  balanced db1 -> counters_ok db1 -> balanced db -> counters_ok db -> unused_operation op db -> plain op = true ->
  db_reservations db !! rid = Some r -> 0 <= r_reserved_micro r -> 0 <= micro -> held rid op micro at_ r db db1 ->
  exists db2, release_feature_usage_in_transaction rid op later db1 = Ok (micro, db2)
    /\ (exists r2, db_reservations db2 !! rid = Some r2 /\ r_reserved_micro r2 = r_reserved_micro r)
    /\ (forall k b, db_buckets db !! k = Some b -> exists b2, db_buckets db2 !! k = Some b2
          /\ b_reserved_micro b2 = b_reserved_micro b /\ b_consumed_micro b2 = b_consumed_micro b
          /\ b_over_limit b2 = b_over_limit b).
Proof.
  intros Hbal1 Hc1 Hbal Hc Hun Hop Hk Hr0 Hm0 Hh. pose proof Hh as [Hrow Hbk Hids (e & new & Hl & Hall)].
  set (released_ := Z.min (r_reserved_micro (set_reserved (r_reserved_micro r + micro) at_ r)) micro).
  assert (Hrel : released_ = micro) by (unfold released_; cbn; lia).
  assert (Hlog : ledger_like rid "reserve" (reserve_feature_prefix op +:+ "%") db1 = e :: new).
  { rewrite (ledger_like_app _ _ _ db db1 (e :: new) Hl). rewrite tagged_filter by (eapply Forall_impl; [exact Hall|]; by intros ? [? _]).
    unfold reserve_feature_prefix at 1. rewrite (unused_log rid "reserve" "reserve-feature:" op db); [done|done|done|].
    intros e' s He'. exact (proj1 (Hun e' s He')). }
  assert (Hlog' : ledger_like rid "release" (release_feature_prefix op +:+ "%") db1 = []).
  { apply (unused_log rid "release" "release-feature:" op db1); [done|done|]. intros e' s He'. by eapply held_release_free. }
  assert (Hfree : forall s, key_taken (release_feature_prefix op +:+ s) (db_ledger db1) = false).
  { intros s. apply free_key. intros e' t He'. by eapply held_release_free. }
  set (rows := select (fun b => in_reservation rid db1 (b_id b)) (db_buckets db1)).
  assert (Hrows : reservation_buckets rid db1 = Ok (rows, db1)) by done.
  assert (Hn : exists s1, when (bool_decide (rows = [])) (insert_ledger (Some rid) None "release" (- released_) (- released_) 0
     (release_feature_prefix op +:+ "none") "feature_execution_failed" (meta_release op released_) later) db1 = Ok ((), s1)).
  { destruct (bool_decide _); [|by eexists]. cbn. unfold insert_ledger, fresh_uuid, stmt, mbind, st_bind. eexists.
    cbn [db_ledger set_next_uuid]. pose proof (Hfree "none") as Hf. unfold key_taken in Hf. rewrite Hf. reflexivity. }
  destruct Hn as (s1 & Hn). pose proof (when_none_rest _ _ _ _ _ _ _ _ _ _ _ _ Hn) as [Hrest Hb1].
  assert (Hcur : current (db_buckets s1) rows) by (rewrite Hb1; by eapply select_current).
  destruct (feature_release_goes_through rid op released_ later rows s1) as (s2 & Hloop).
  - exact (select_ids _ _ _ Hbal1).
  - exact Hcur.
  - intros b Hb. destruct (bool_decide_reflect (rows = [])) as [Hnil|Hne] in Hn; [rewrite Hnil in Hb; by apply elem_of_nil in Hb|].
    injection Hn as <-. apply Hfree.
  - intros b Hb. apply (Hc1 (b_id b)). pose proof (select_current _ _ (fun b => in_reservation rid db1 (b_id b)) Hbal1) as Hx.
    unfold current in Hx. rewrite Forall_forall in Hx. by apply Hx.
  - lia.
  - pose proof (feature_release_loop _ _ _ _ _ _ _ _ Hloop) as Hp.
    pose proof (release_feature_run rid op later _ e rows db1 Hrow Hlog' ltac:(by rewrite Hlog) micro
      ltac:(by apply Forall_cons in Hall as [[_ ?] _]) Hrows s1 s2 Hn Hloop) as Hrun. fold released_ in Hrun. rewrite Hrel in Hrun.
    apply post_all_same_rest in Hp as Hsr. destruct Hsr as (? & ? & ? & Hs2), Hrest as (? & ? & ? & Hs1).
    eexists. split; [exact Hrun|]. split.
    + cbn. rewrite Hs2, Hs1. cbn. rewrite lookup_alter_eq, Hrow. eexists. split; [reflexivity|]. cbn. lia.
    + intros k b Hb. specialize (Hbk k b Hb). pose proof (bk_key _ _ Hbal _ _ Hb) as Hid.
      change (db_buckets (set_reservations s2 ?m)) with (db_buckets s2). destruct (in_reservation rid db k) eqn:Hin.
      * assert (Hmem : hold_upd micro at_ b b ∈ rows) by (eapply select_in; [exact Hbk|cbn; by rewrite Hids, Hid]).
        pose proof (post_all_lookup _ _ (feature_release_laws _ _ _ _) _ _ _ _ Hp Hcur Hmem) as Hl2. cbn [b_id hold_upd] in Hl2.
        change (b_id (hold_upd micro at_ b b)) with (b_id b) in Hl2. rewrite Hid in Hl2. eexists. split; [exact Hl2|].
        pose proof (Hc k b Hb) as Hfit. unfold counters_fit, unsigned in Hfit. cbn. split; [lia|done].
      * exists b. split; [|done]. rewrite (post_all_lookup_ne _ _ (feature_release_laws _ _ _ _) _ _ _ k Hp), Hb1; [done|].
        intros (b0 & -> & Hb0)%list_elem_of_fmap. apply filter_elem_of in Hb0 as [_ Hb0]. rewrite Hids in Hb0. congruence.
Qed.

(** The hold of valid features at a governed price is a number of credits. *)
Lemma estimate_feature_nonneg pk f at_ db micro :
  prices_ok (db_pricing db) -> feature_valid f -> estimate_feature_micro pk f at_ db = Ok micro -> 0 <= micro.
Proof.
  intros Hp Hf He. unfold estimate_feature_micro in He.
  destruct (active_pricing_rows pk at_ db) as [|row [|? ?]] eqn:Hrows; try done.
  assert (Hin : row ∈ db_pricing db).
  { assert (Hin : row ∈ active_pricing_rows pk at_ db) by (rewrite Hrows; by left). by apply filter_elem_of in Hin as [? _]. }
  apply (pr_valid _ Hp), rule_valid_facts in Hin. apply feature_valid_facts in Hf. destruct_and!.
  cbv zeta in He. destruct (existsb _ _); [done|]. injection He as <-.
  assert (0 <= ceil_div (visual_input_tokens f * default 0 (visual_input_rate (prr_rule row))) 1000000).
  { apply ceil_div_nonneg; [lia|]. by apply Z.mul_nonneg_nonneg. }
  assert (forall x y, 0 <= x -> 0 <= y -> 0 <= x * y) as Hm by (intros; by apply Z.mul_nonneg_nonneg).
  pose proof (Hm (image_units f) (default 0 (image_unit_micro (prr_rule row))) ltac:(done) ltac:(done)).
  pose proof (Hm (search_calls f) (default 0 (search_call_micro (prr_rule row))) ltac:(done) ltac:(done)).
  pose proof (Hm (link_pages f) (default 0 (link_page_micro (prr_rule row))) ltac:(done) ltac:(done)). lia.
Qed.
End tools.
