(* ===== verification/ReportingPromises.v ===== *)
(** * ReportingPromises: what the usage reporter guarantees

    The properties of the reporter over metered stores, and a deployment they are instantiated
    at: one Turn, an attempt reported before its price exists, the price, the report again. *)
From S2P Require Import Prelude PyText Clock Usage Pricing Policy Reservation QuotaStore QuotaService QuotaInvariants.
From S2P Require Import QuotaIdentity QuotaWorld QuotaSettlement QuotaManagement QuotaOperations QuotaGovernance.
From S2P Require Import QuotaPrices QuotaGoverned QuotaStewards Reporting ReportingSafety ReportingTools.
Local Open Scope Z_scope.

Section promises.
Context `{Uuids} (sha256 digest : string -> string) (quota_service : bool) (lease_seconds : Z).

(** C6: the usage events and the ledger agree: in every store that reports, service calls and
    manager calls lead to, an operation has one event, an event has credits exactly when its
    status says it is priced, and the ledger's account of an event with a reservation charges
    that reservation the event's credits under the event's status. *)
Theorem event_agrees_with_ledger db :
  metered sha256 digest quota_service lease_seconds db ->
  NoDup (ue_operation_id <$> usage_events db)
  /\ (forall ev, ev ∈ usage_events db -> status_coherent (ue_usage_status ev) (ue_credits_micro ev))
  /\ (quota_service = true -> forall ev rid, ev ∈ usage_events db -> truthy (ue_reservation_id ev) = Some rid ->
        exists e, account rid (ue_operation_id ev) db = Some e
                  /\ m_credits_micro (le_metadata e) = Some (default 0 (ue_credits_micro ev))
                  /\ m_usage_status (le_metadata e) = Some (ue_usage_status ev)).
Proof.
  intros [_ Hu _ _ Ha Hs]%metered_invariant. split; [done|]. split; [|exact Ha]. by apply Forall_forall.
Qed.

(** An event that has a price is final: whatever is reported for its operation later, by
    whom and under whatever prices, the store stays as it is. *)
Lemma priced_event_is_final id inv u oc now_ db e :
  metered sha256 digest quota_service lease_seconds db ->
  existing_event (operation_id inv) db = Some e ->
  string_in (ue_usage_status e) ["exact"; "estimated"] = true ->
  (run_tx (report sha256 quota_service id inv u oc now_) db).2 = db.
Proof.
  intros Hok%metered_invariant Hex Hpr. unfold run_tx.
  destruct (report _ _ _ _ _ _ _ _) as [[r db']|] eqn:Hr; [|done]. apply report_run in Hr. cbv zeta in Hr. rewrite Hex in Hr.
  pose proof (values_status sha256 id inv u oc now_ db) as Hst.
  assert (Hbp : forall s, becomes_priced (ue_usage_status e) s = false).
  { intros s. unfold becomes_priced. destruct (string_in _ ["pending"; _]) eqn:Hp; [|done]. apply statuses_disjoint in Hp. congruence. }
  rewrite Hbp in Hr. destruct Hr as [_ Hr]. apply existing_in in Hex as [He Heop]. rewrite <- Heop in Hr.
  by eapply settled_event_quiet.
Qed.

Lemma values_fit id id' inv u oc t t' db :
  event_fits (event_values sha256 id' inv u oc t' db) = event_fits (event_values sha256 id inv u oc t db).
Proof. unfold event_values. destruct (report_price inv u oc db) as [[? ?] ?]. reflexivity. Qed.

(** C27: a report that returned settles its attempt once: delivered again it returns and writes
    nothing, and a reporter that read the table before the winner committed, so that its own
    insert fails, finds the winner's event and returns the same without writing. *)
Theorem report_settles_once id inv u oc now_ db r db' :
  metered sha256 digest quota_service lease_seconds db -> same_reservation inv db ->
  report sha256 quota_service id inv u oc now_ db = Ok (r, db') ->
  (forall id' later, report sha256 quota_service id' inv u oc later db' = Ok (ua_reservation_id (attribution inv), db'))
  /\ (existing_event (operation_id inv) db = None ->
      forall fuel ids later, report_sync sha256 quota_service (S (S fuel)) ids [fun _ => db'] inv u oc later db
        = Some (Ok (ua_reservation_id (attribution inv)), db')).
Proof.
  intros Hok%metered_invariant Hsame Hr.
  assert (Hagain : forall id' later,
    report sha256 quota_service id' inv u oc later db' = Ok (ua_reservation_id (attribution inv), db'))
    by (intros id' later; by eapply report_repeats).
  split; [exact Hagain|]. intros Hnone fuel ids later.
  assert (Hins : event_fits (event_values sha256 id inv u oc now_ db) = true
    /\ exists e, existing_event (operation_id inv) db' = Some e).
  { pose proof Hr as Hr'. apply report_run in Hr'. cbv zeta in Hr'. rewrite Hnone in Hr'. destruct Hr' as [Hni Hs].
    apply settle_event_pricing in Hs as [_ Hev]. split.
    - unfold report in Hr. apply st_bind_ok in Hr as (v & s & Hv & Hr). injection Hv as <- <-.
      apply st_bind_ok in Hr as (ex & s & He & Hr). injection He as <- <-. rewrite Hnone in Hr.
      apply st_bind_ok in Hr as ([] & s & (_ & _ & Hfit)%insert_usage_event_ok & _). exact Hfit.
    - unfold existing_event. fold (usage_events db'). rewrite Hev. change (usage_events (set_usage_events db ?l)) with l.
      eexists. rewrite <- (values_operation sha256 id inv u oc now_ db). apply kfind_last. by rewrite values_operation. }
  destruct Hins as [Hfit [e He]].
  assert (Hlose : forall v, event_fits v = true -> ue_operation_id v = operation_id inv ->
    run_tx (report_transaction quota_service None v later) db' = (Err IntegrityError, db')).
  { intros v Hv Hop. unfold run_tx, report_transaction. cbv zeta. unfold mbind, st_bind, insert_event, stmt. rewrite Hv. cbn [negb].
    apply existing_in in He as [Hin Heop]. assert (existsb (fun x => String.eqb (ue_id x) (ue_id v)
      || String.eqb (ue_operation_id x) (ue_operation_id v)) (ot_usage_events (db_operations db')) = true) as ->; [|done].
    apply existsb_exists. exists e. split; [by apply list_elem_of_In|]. by rewrite Hop, Heop, String.eqb_refl, orb_true_r. }
  cbn [report_sync]. rewrite Hnone. cbn [head default tail].
  rewrite Hlose; [|by rewrite (values_fit id _ inv u oc now_ later)|by rewrite values_operation].
  cbn [Datatypes.id]. rewrite !He.
  pose proof (Hagain (ids fuel) later) as Hw. unfold report, gets, mbind, st_bind in Hw. rewrite He in Hw.
  unfold run_tx. by rewrite Hw.
Qed.
End promises.

Section late.
Context `{Uuids} (sha256 digest : string -> string) (lease_seconds : Z).

(** A price that comes late is charged once, as of the moment the attempt completed: the
    report that finds its event pending charges the credits of the catalogue to every bucket
    the reservation holds credits in and to no other, adds them to the reservation, and leaves
    the event, the same row, with the price and its status; before, the event had charged
    nothing. *)
Lemma late_price_charges_once id inv u oc now_ db r db' e rid row version_ credits status :
  metered sha256 digest true lease_seconds db -> same_reservation inv db ->
  existing_event (operation_id inv) db = Some e ->
  string_in (ue_usage_status e) ["pending"; "unavailable"] = true ->
  truthy (ua_reservation_id (attribution inv)) = Some rid -> db_reservations db !! rid = Some row ->
  report_price inv u oc db = (Some version_, Some credits, status) ->
  report sha256 true id inv u oc now_ db = Ok (r, db') ->
  ue_credits_micro e = None
  /\ (forall k b, db_buckets db !! k = Some b -> exists b', db_buckets db' !! k = Some b' /\
        if string_in k (reservation_bucket_ids rid db)
        then b_consumed_micro b' = b_consumed_micro b + credits
             /\ b_reserved_micro b' = b_reserved_micro b - Z.min (b_reserved_micro b) (Z.min (r_reserved_micro row) credits)
             /\ b_over_limit b' = over_after (event_fact rid (operation_id inv) (event_values sha256 id inv u oc now_ db)) row
                                    (completed_at oc) db b
        else b' = b)
  /\ (exists row', db_reservations db' !! rid = Some row' /\ r_settled_micro row' = r_settled_micro row + credits)
  /\ exists e', existing_event (operation_id inv) db' = Some e' /\ ue_id e' = ue_id e
       /\ ue_usage_status e' = status /\ ue_credits_micro e' = Some credits.
Proof.
  intros Hm Hsame Hex Hpend Ht Hrow Hprice Hr. pose proof (metered_invariant _ _ _ _ _ Hm) as Hok.
  apply metered_governed, governed_ok in Hm as [[Hbal _ _ _] _].
  assert (Hst0 : status_coherent (ue_usage_status e) (ue_credits_micro e)).
  { pose proof (mo_status _ _ Hok) as Hs. rewrite Forall_forall in Hs. apply Hs. by apply existing_in in Hex as [? _]. }
  split; [destruct Hst0 as [[Hx _]|[_ Hn]]; [by rewrite (statuses_disjoint _ Hpend) in Hx|done]|].
  assert (Hv : ue_usage_status (event_values sha256 id inv u oc now_ db) = status
    /\ ue_credits_micro (event_values sha256 id inv u oc now_ db) = Some credits
    /\ ue_occurred_at (event_values sha256 id inv u oc now_ db) = completed_at oc).
  { unfold event_values. by rewrite Hprice. }
  assert (Hpr : string_in status ["exact"; "estimated"] = true).
  { pose proof (report_price_coherent inv u oc db) as Hc. rewrite Hprice in Hc. by destruct Hc as [[? _]|[_ ?]]. }
  apply report_run in Hr. cbv zeta in Hr. rewrite Hex in Hr. rewrite (Hsame _ Hex), or_else_same in Hr.
  destruct Hv as (Hvs & Hvc & Hvo). unfold becomes_priced in Hr. rewrite Hvs, Hpend, Hpr in Hr. destruct Hr as (s & Hr & ->).
  assert (Hev : usage_events s = usage_events db).
  { apply reconcile_event_run in Hr. rewrite Ht in Hr. destruct Hr as (y & Hr). by eapply reconcile_keeps_events. }
  set (v := event_values sha256 id inv u oc now_ db) in *.
  apply reconcile_event_run in Hr. rewrite Ht in Hr. destruct Hr as (y & Hr). rewrite Hvo in Hr.
  apply reconcile_run in Hr as (row0 & _ & _ & Hk & Hm). cbn [uf_reservation_id event_fact] in Hk. rewrite Hrow in Hk. injection Hk as <-.
  change (reconcile_markers _ db) with (reconcile_log rid (operation_id inv) db) in Hm.
  rewrite (pending_unreconciled _ _ _ _ _ Hok eq_refl Hex Hpend) in Hm by (by rewrite (Hsame _ Hex)).
  destruct Hm as (from_ & rows & over & _ & _ & Hrows & Hch & _).
  change (db_buckets (set_usage_events s ?l)) with (db_buckets s).
  change (db_reservations (set_usage_events s ?l)) with (db_reservations s).
  assert (Hc : uf_credits_micro (event_fact rid (operation_id inv) v) = credits) by (cbn; by rewrite Hvc).
  rewrite <- Hc. split_and!.
  - exact (charge_buckets _ _ _ _ _ _ _ _ _ _ _ _ Hbal Hrows Hch).
  - destruct (charge_reservation (event_fact rid (operation_id inv) v) row _ _ _ _ _ _ _ _ _ _ row Hrow Hch) as (row' & Hk' & _ & Hs & _). by exists row'.
  - exists (overwrite_event v e). split_and!; [|done|done|by rewrite Hc].
    unfold existing_event in *. change (ot_usage_events (db_operations (set_usage_events s ?l))) with l. rewrite Hev.
    rewrite kfind_kupdate by done. fold (usage_events db) in Hex. by rewrite Hex.
Qed.
End late.

Section tools.
Context `{Uuids} (digest : string -> string) (lease_seconds : Z).

(** A billable tool that is cancelled costs nothing: after [begin_billable_tool_usage] held
    its price under a fresh operation, [cancel_billable_tool_usage] returns at any later time,
    and the reservation and every bucket have the reserved and the consumed credits they had
    before. *)
Lemma cancelled_tool_returns_hold slot tool f a op at_ later db inv db1 rid r :
  governed digest lease_seconds db -> unused_operation op db -> plain op = true ->
  feature_valid f -> any_feature f = true -> ua_reservation_id a = Some rid ->
  db_reservations db !! rid = Some r -> 0 <= r_reserved_micro r ->
  begin_billable_tool_usage true slot tool f a op at_ db = Ok (Some inv, db1) ->
  exists db2, cancel_billable_tool_usage true slot (Some inv) later db1 = Ok ((), db2)
    /\ (exists r2, db_reservations db2 !! rid = Some r2 /\ r_reserved_micro r2 = r_reserved_micro r)
    /\ (forall k b, db_buckets db !! k = Some b -> exists b2, db_buckets db2 !! k = Some b2
          /\ b_reserved_micro b2 = b_reserved_micro b /\ b_consumed_micro b2 = b_consumed_micro b
          /\ b_over_limit b2 = b_over_limit b).
Proof.
  intros Hg Hun Hop Hf Hany Ha Hk Hr0 Hb. apply governed_ok in Hg as [[Hbal Hc _ _] Hp].
  unfold begin_billable_tool_usage in Hb. destruct (slot_filled slot) eqn:Hslot; [|by destruct (slot_required slot)]. cbn [negb] in Hb.
  apply st_bind_ok in Hb as ([i p] & s & Hid & Hb). unfold lift in Hid. destruct (tool_identity tool) as [ip|] eqn:Htool; [|done].
  injection Hid as -> <-. cbv zeta in Hb. apply st_bind_ok in Hb as ([] & s & Hres & Hb). injection Hb as Hinv <-.
  unfold reserve_feature_usage in Hres. cbn [attribution operation_id feature_usage Usage.identity] in Hres.
  change (ua_reservation_id (with_purpose a _)) with (ua_reservation_id a) in Hres. rewrite Ha, Hany in Hres. cbn [negb orb] in Hres.
  destruct (pricing_key i) as [key|] eqn:Hkey; cbn [fst] in Hres; rewrite Hkey in Hres; [|done].
  apply st_bind_ok in Hres as (micro & s' & Hres & Hx). injection Hx as <-.
  assert (Hnil : ledger_like rid "reserve" (reserve_feature_prefix op +:+ "%") db = []).
  { apply (unused_log rid "reserve" "reserve-feature:" op db); [done|done|]. intros e s He. exact (proj1 (Hun e s He)). }
  assert (Hm0 : 0 <= micro).
  { pose proof Hres as (? & ? & ? & ? & _ & _ & Hest & _)%reserve_feature_run; [|done]. by eapply estimate_feature_nonneg. }
  pose proof (reserve_feature_balanced _ _ _ _ _ _ _ _ Hbal Hres) as Hbal1.
  pose proof (sm_counters _ _ (reserve_feature_moves _ _ _ _ _ _ _ _ Hres) Hc) as Hc1.
  pose proof (reserve_feature_held _ _ _ _ _ _ _ _ Hbal Hres Hnil) as (r' & Hk' & Hheld). rewrite Hk in Hk'. injection Hk' as <-.
  destruct (release_held rid op micro at_ later r db s' Hbal1 Hc1 Hbal Hc Hun Hop Hk Hr0 Hm0 Hheld) as (db2 & Hrun & Hrow & Hbk).
  exists db2. split; [|done]. unfold cancel_billable_tool_usage. rewrite Hslot. rewrite <- Hinv. unfold release_feature_usage.
  cbn [attribution operation_id]. change (ua_reservation_id (with_purpose a _)) with (ua_reservation_id a). rewrite Ha.
  unfold mbind, st_bind. by rewrite Hrun.
Qed.
End tools.

(** ** The theorems at a deployment *)
Module ReportingWorld.
Import StewardWorld.

(** A stand-in for [hashlib.sha256]. *)
Definition sha256 (s : string) : string := "h" +:+ s.

(** Turn [t1] is admitted with a hold of 40; its attempt [op1] used ten input tokens. *)
Definition admitted : DB := after (admit_turn "t1" 40 (noon 10)) db0.

Definition attempt_of (reservation : option string) : ModelInvocation :=
  {| operation_id := "op1";
     Usage.identity := {| provider := "openai"; provider_model := "gpt"; model_profile := None; preset := "fast"; route := None;
                    pricing_key := Some "m"; context_window_tokens := None; max_output_tokens := None |};
     attribution := {| ua_request_id := "req"; ua_user_id := "alice"; ua_workspace_id := None; ua_conversation_id := None;
                       ua_turn_id := Some "t1"; ua_reservation_id := reservation; ua_worker_id := None;
                       ua_parent_operation_id := None; ua_purpose := PCoordinator |};
     attempt := 1; fallback_index := 0; started_at := noon 10; feature_usage := no_features |}.
Definition inv : ModelInvocation := attempt_of (Some (rid "t1")).
Definition ten_tokens : CanonicalTokenUsage :=
  {| input_tokens := 10; cached_input_tokens := 0; cache_miss_input_tokens := 0; cache_write_input_tokens := 0;
     output_tokens := 0; reasoning_output_tokens := 0; total_tokens := 10; source := SrcProvider;
     cache_status := CacheUnavailable; semantics := SemFinal; provider_response_id := Some "r1" |}.
Definition finished : InvocationOutcome :=
  {| oc_status := Succeeded; finish_reason := None; error_kind := None; completed_at := noon 10 + 5 |}.

Definition deliver_report (id : string) (now_ : Z) : Tx (option string) := report sha256 true id inv ten_tokens finished now_.

(** Reported before the price exists, priced, reported again. *)
Definition pending_db : DB := after (deliver_report "e1" (noon 10 + 6)) admitted.
Definition priced_db : DB := after (create_pricing_rule rates (utc_at 0) None "admin") pending_db.
Definition charged_db : DB := after (deliver_report "e2" (noon 10 + 60)) priced_db.

Lemma same_reservation_here db e :
  existing_event "op1" db = Some e -> ue_reservation_id e = Some (rid "t1") -> same_reservation inv db.
Proof. intros He Hr e' He'. change (existing_event "op1" db = Some e') in He'. rewrite He in He'. by injection He' as <-. Qed.

Lemma admitted_metered : metered sha256 digest true lease admitted.
Proof.
  apply (met_service sha256 digest true lease db0); [apply met_init; [by repeat split|vm_compute; reflexivity]|apply sc_admit].
Qed.
Lemma pending_metered : metered sha256 digest true lease pending_db.
Proof.
  apply met_report; [exact admitted_metered|vm_compute; reflexivity|]. intros e He. vm_compute in He. discriminate.
Qed.
Lemma priced_metered : metered sha256 digest true lease priced_db.
Proof. eapply met_manager; [exact pending_metered|apply ms_create_rule|vm_compute; reflexivity]. Qed.

Definition pending_event : UsageEventRow := event_values sha256 "e1" inv ten_tokens finished (noon 10 + 6) admitted.
Definition charged_event : UsageEventRow :=
  overwrite_event (event_values sha256 "e2" inv ten_tokens finished (noon 10 + 60) priced_db) pending_event.

Lemma priced_same : same_reservation inv priced_db.
Proof. apply (same_reservation_here _ pending_event); vm_compute; reflexivity. Qed.
Lemma charged_metered : metered sha256 digest true lease charged_db.
Proof. apply met_report; [exact priced_metered|vm_compute; reflexivity|exact priced_same]. Qed.

(** The reservation of the priced store. *)
Definition t1 : ReservationRow := default (new_reservation lease (turn "t1" 40) {| ap_base := {| subject_type := SubDefault;
  subject_id := ""; policy := world_policy; priority := 0; pb_effective_from := 0; pb_effective_until := None |};
  ap_workspace := None; ap_classrooms := [] |} 0 0) (db_reservations priced_db !! rid "t1").

(** An image is priced; the tool analyses two of them under the operation [op2]. *)
Definition image_rule : PricingRule :=
  {| rule_key := IMAGE_ANALYZE_PRICING_KEY; rule_version := "1"; effective_from := 0; effective_until := None;
     ordinary_input_rate := 0; cached_input_rate := 0; cache_write_rate := 0; output_rate := 0; reasoning_output_rate := None;
     visual_input_rate := None; image_unit_micro := Some 7; search_call_micro := None; link_page_micro := None |}.
Definition tool_db : DB := after (create_pricing_rule image_rule (utc_at 0) None "admin") admitted.
Definition two_images : BillableFeatureUsage :=
  {| visual_input_tokens := 0; image_units := 2; search_calls := 0; link_pages := 0 |}.
Definition slot : BillingSlot := {| slot_filled := true; slot_required := true |}.
Definition begin_tool : Tx (option ModelInvocation) :=
  begin_billable_tool_usage true slot "image_analyze" two_images (attribution inv) "op2" (noon 10 + 1).
Definition held_db : DB := after begin_tool tool_db.
Definition tool_inv : ModelInvocation := match answer begin_tool tool_db with Ok (Some i) => i | _ => inv end.
Definition tool_t1 : ReservationRow := default t1 (db_reservations tool_db !! rid "t1").

Lemma tool_metered : metered sha256 digest true lease tool_db.
Proof. eapply met_manager; [exact admitted_metered|apply ms_create_rule|vm_compute; reflexivity]. Qed.
End ReportingWorld.
Import ReportingWorld.

Lemma event_agrees_with_ledger_witness :
  (exists e, account (rid "t1") "op1" charged_db = Some e /\ m_credits_micro (le_metadata e) = Some 10
             /\ m_usage_status (le_metadata e) = Some "exact")
  /\ ue_credits_micro charged_event = Some 10.
Proof.
  destruct (event_agrees_with_ledger sha256 StewardWorld.digest true lease charged_db charged_metered) as (_ & _ & Ha).
  split; [|vm_compute; reflexivity].
  destruct (Ha eq_refl charged_event (rid "t1")) as (e & He & Hc & Hs); [|vm_compute; reflexivity|].
  - vm_compute. left.
  - exists e. split; [exact He|]. split; [rewrite Hc|rewrite Hs]; vm_compute; reflexivity.
Defined.


Lemma report_settles_once_witness :
  existing_event "op1" admitted = None /\
  report_sync sha256 true 2 (fun _ => "e9") [fun _ => pending_db] inv ten_tokens finished (noon 10 + 7) admitted
  = Some (Ok (Some (rid "t1")), pending_db).
Proof.
  split; [vm_compute; reflexivity|].
  refine (proj2 (report_settles_once sha256 StewardWorld.digest true lease "e1" inv ten_tokens finished (noon 10 + 6) admitted
    (Some (rid "t1")) pending_db admitted_metered _ _) _ 0%nat (fun _ => "e9") (noon 10 + 7)).
  - intros e He. vm_compute in He. discriminate.
  - vm_compute. reflexivity.
  - vm_compute. reflexivity.
Defined.



(** The premise [same_reservation] matters: when the report that prices a pending event names
    another reservation, the first one is charged and the event moves to the second, which the
    next delivery charges again. *)
Lemma moved_reservation_charges_twice :
  let both := after (admit_turn "t2" 10 (noon 11)) (after (finish_in_transaction (finish_cmd "t1") (noon 10 + 50) None) priced_db) in
  let elsewhere id := report sha256 true id (attempt_of (Some (rid "t2"))) ten_tokens finished (noon 11 + 1) in
  let twice := after (elsewhere "e3") (after (elsewhere "e2") both) in
  ((fun rid_ => r_settled_micro <$> (db_reservations twice !! rid_)) <$> [rid "t1"; rid "t2"]) = [Some 10; Some 10]
  /\ length (usage_events twice) = 1%nat.
Proof. vm_compute. split; reflexivity. Qed.
