(* ===== verification/Storage.v ===== *)
(** * Storage: account-wide storage reservations

    [server/storage/policy.py] and [server/storage/quota.py].  An account row carries the
    bytes used and reserved per bucket; a reservation row makes each pending write visible.
    [AsyncStorageQuota] and [SyncStorageQuota] are objects with a policy they refine as they
    read the account, so each method takes the object and returns its new value.  The sizes
    of the tables that [_async_reconcile] and [_reconcile] add up are the field
    [s_measured] of the store; the two settings are section variables. *)
From S2P Require Import Prelude.
Local Open Scope Z_scope.

Inductive StorageBucket := CORE | FILES.

#[export] Instance StorageBucket_eq_dec : EqDecision StorageBucket.
Proof. solve_decision. Defined.

Record StoragePolicy := {
  core_quota_bytes : Z;
  files_quota_bytes : Z;
  max_file_bytes : Z;
  max_items : Z;
}.

(** [StoragePolicy.quota_for]. *)
Definition quota_for (p : StoragePolicy) (b : StorageBucket) : Z :=
  match b with CORE => core_quota_bytes p | FILES => files_quota_bytes p end.

Definition MIB : Z := 1024 * 1024.

Definition role_policy (core files file items : Z) : StoragePolicy :=
  {| core_quota_bytes := core * MIB; files_quota_bytes := files * MIB;
     max_file_bytes := file * MIB; max_items := items |}.

(** [ROLE_POLICIES], in the order of [_ROLE_PRIORITY]. *)
Definition ROLE_POLICIES : list (string * StoragePolicy) :=
  [("guest", role_policy 32 16 5 50); ("student", role_policy 128 128 10 500);
   ("teacher", role_policy 256 512 25 2000); ("developer", role_policy 256 512 25 2000);
   ("admin", role_policy 256 512 25 2000)].

(** [policy_for_roles]: the highest-priority role the user has, or the guest policy. *)
Definition policy_for_roles (roles : list string) : StoragePolicy :=
  match List.find (fun rp : string * StoragePolicy => string_in rp.1 roles) (rev ROLE_POLICIES) with
  | Some rp => rp.2
  | None => role_policy 32 16 5 50
  end.

(** [fits_quota]. *)
Definition fits_quota (used reserved_ incoming quota : Z) : bool :=
  Z.max 0 used + Z.max 0 reserved_ + Z.max 0 incoming <=? Z.max 0 quota.

(** The override columns of an account. *)
Record StorageOverrides := {
  ov_core_quota_bytes : option Z;
  ov_files_quota_bytes : option Z;
  ov_max_file_bytes : option Z;
  ov_max_items : option Z;
}.

(** [policy_with_overrides]. *)
Definition policy_with_overrides (p : StoragePolicy) (o : StorageOverrides) : StoragePolicy :=
  {| core_quota_bytes := default (core_quota_bytes p) (ov_core_quota_bytes o);
     files_quota_bytes := default (files_quota_bytes p) (ov_files_quota_bytes o);
     max_file_bytes := default (max_file_bytes p) (ov_max_file_bytes o);
     max_items := default (max_items p) (ov_max_items o) |}.

(** ** The store *)

(** [StorageAccountModel]; [sa_reconciled] is [last_reconciled_at is not None]. *)
Record StorageAccount := {
  sa_core_used : Z;
  sa_files_used : Z;
  sa_core_reserved : Z;
  sa_files_reserved : Z;
  sa_overrides : StorageOverrides;
  sa_reconciled : bool;
}.

Inductive SReservationStatus := SReserved | SCommitted | SReleased.

#[export] Instance SReservationStatus_eq_dec : EqDecision SReservationStatus.
Proof. solve_decision. Defined.

(** [StorageReservationModel]. *)
Record SReservationRow := {
  sr_owner : string;
  sr_bucket : StorageBucket;
  sr_amount : Z;
  sr_resource_type : string;
  sr_resource_key : option string;
  sr_status : SReservationStatus;
}.

Record SDB := {
  s_accounts : gmap string StorageAccount;
  s_reservations : gmap string SReservationRow;
  s_roles : gmap string (list string);
  s_measured : string -> Z * Z;
  s_disk_free : option Z;
  s_next_uuid : nat;
}.

Inductive StorageError := StorageQuotaExceeded | LedgerUnavailable | StorageIntegrityError.

Abbreviation Stx := (ST SDB StorageError).

(** The frozen dataclass [QuotaReservation] a caller holds between reserve and finalize. *)
Record QuotaReservation := {
  qr_id : string;
  qr_owner : string;
  qr_bucket : StorageBucket;
  qr_amount : Z;
  qr_resource_type : string;
}.

(** The state of an [AsyncStorageQuota] or [SyncStorageQuota] object. *)
Record QuotaObj := {
  q_owner : string;
  q_roles : option (list string);
  q_policy : StoragePolicy;
}.

Definition with_policy (q : QuotaObj) (p : StoragePolicy) : QuotaObj :=
  {| q_owner := q_owner q; q_roles := q_roles q; q_policy := p |}.

Definition set_accounts (db : SDB) (m : gmap string StorageAccount) : SDB :=
  {| s_accounts := m; s_reservations := s_reservations db; s_roles := s_roles db;
     s_measured := s_measured db; s_disk_free := s_disk_free db; s_next_uuid := s_next_uuid db |}.

Definition set_sreservations (db : SDB) (m : gmap string SReservationRow) : SDB :=
  {| s_accounts := s_accounts db; s_reservations := m; s_roles := s_roles db;
     s_measured := s_measured db; s_disk_free := s_disk_free db; s_next_uuid := s_next_uuid db |}.

Definition set_suuid (db : SDB) (n : nat) : SDB :=
  {| s_accounts := s_accounts db; s_reservations := s_reservations db; s_roles := s_roles db;
     s_measured := s_measured db; s_disk_free := s_disk_free db; s_next_uuid := n |}.

Definition used_of (a : StorageAccount) (b : StorageBucket) : Z :=
  match b with CORE => sa_core_used a | FILES => sa_files_used a end.

Definition reserved_of (a : StorageAccount) (b : StorageBucket) : Z :=
  match b with CORE => sa_core_reserved a | FILES => sa_files_reserved a end.

(** [_used_and_reserved]. *)
Definition used_and_reserved (a : StorageAccount) (b : StorageBucket) : Z * Z :=
  (used_of a b, reserved_of a b).

(** All four counters of one account, as the [global_bytes] query adds them. *)
Definition account_total (a : StorageAccount) : Z :=
  sa_core_used a + sa_files_used a + sa_core_reserved a + sa_files_reserved a.

Definition global_bytes (db : SDB) : Z := map_sum account_total (s_accounts db).

(** Column updates. *)
Definition write_used (core files : Z) (a : StorageAccount) : StorageAccount :=
  {| sa_core_used := core; sa_files_used := files; sa_core_reserved := sa_core_reserved a;
     sa_files_reserved := sa_files_reserved a; sa_overrides := sa_overrides a; sa_reconciled := true |}.

Definition write_sreserved (b : StorageBucket) (v : Z) (a : StorageAccount) : StorageAccount :=
  {| sa_core_used := sa_core_used a; sa_files_used := sa_files_used a;
     sa_core_reserved := match b with CORE => v | FILES => sa_core_reserved a end;
     sa_files_reserved := match b with CORE => sa_files_reserved a | FILES => v end;
     sa_overrides := sa_overrides a; sa_reconciled := sa_reconciled a |}.

(** [reserved = max(0, reserved - amount)]. *)
Definition drop_reserved (b : StorageBucket) (amount : Z) (a : StorageAccount) : StorageAccount :=
  write_sreserved b (Z.max 0 (reserved_of a b - amount)) a.

Definition write_sstatus (st : SReservationStatus) (r : SReservationRow) : SReservationRow :=
  {| sr_owner := sr_owner r; sr_bucket := sr_bucket r; sr_amount := sr_amount r;
     sr_resource_type := sr_resource_type r; sr_resource_key := sr_resource_key r; sr_status := st |}.

Definition new_account : StorageAccount :=
  {| sa_core_used := 0; sa_files_used := 0; sa_core_reserved := 0; sa_files_reserved := 0;
     sa_overrides := {| ov_core_quota_bytes := None; ov_files_quota_bytes := None;
                        ov_max_file_bytes := None; ov_max_items := None |};
     sa_reconciled := false |}.

Definition update_account (owner : string) (f : StorageAccount -> StorageAccount) : Stx () :=
  modify (fun db => set_accounts db (alter f owner (s_accounts db))).

Definition update_sreservation (id : string) (f : SReservationRow -> SReservationRow) : Stx () :=
  modify (fun db => set_sreservations db (alter f id (s_reservations db))).

Section storage.
Context `{Uuids}.

(** [settings.NLP_AGENT_STORAGE_GLOBAL_DATA_LIMIT_BYTES] and [..._MIN_FREE_BYTES]. *)
Variables GLOBAL_DATA_LIMIT_BYTES MIN_FREE_BYTES : Z.

(** [_disk_has_floor]; [None] is an unreadable disk. *)
Definition disk_has_floor (incoming : Z) (db : SDB) : bool :=
  match s_disk_free db with
  | None => true
  | Some free => MIN_FREE_BYTES <=? free - Z.max 0 incoming
  end.

(** [validate_final_usage]. *)
Definition validate_final_usage (core_used files_used core_quota files_quota global_used : Z) : Stx () :=
  if core_quota <? core_used then raise StorageQuotaExceeded
  else if files_quota <? files_used then raise StorageQuotaExceeded
  else if GLOBAL_DATA_LIMIT_BYTES <? global_used then raise StorageQuotaExceeded
  else mret ().

(** ** [AsyncStorageQuota] *)

Definition async_new (owner : string) (roles : option (list string)) : QuotaObj :=
  {| q_owner := owner; q_roles := roles; q_policy := policy_for_roles (default [] roles) |}.

(** [_resolve_policy]. *)
Definition resolve_policy (q : QuotaObj) : Stx QuotaObj :=
  match q_roles q with
  | Some _ => mret q
  | None =>
      roles ← gets (fun db => default [] (s_roles db !! q_owner q));
      mret {| q_owner := q_owner q; q_roles := Some roles; q_policy := policy_for_roles roles |}
  end.

(** The insert-or-ignore and the first reconciliation both adapters start with. *)
Definition materialise_account (owner : string) : Stx StorageAccount :=
  _ ← modify (fun db => match s_accounts db !! owner with
                        | Some _ => db
                        | None => set_accounts db (<[owner := new_account]> (s_accounts db))
                        end);
  account ← gets (fun db => s_accounts db !! owner);
  match account with
  | None => raise LedgerUnavailable
  | Some a =>
      if sa_reconciled a then mret a
      else
        m ← gets (fun db => s_measured db owner);
        _ ← update_account owner (write_used m.1 m.2);
        mret (write_used m.1 m.2 a)
  end.

(** [_locked_account] and [SyncStorageQuota._account]: the account and the object with the
    administrator's overrides applied. *)
Definition locked_account (q : QuotaObj) : Stx (StorageAccount * QuotaObj) :=
  a ← materialise_account (q_owner q);
  mret (a, with_policy q (policy_with_overrides (q_policy q) (sa_overrides a))).

(** The row, and the counter of its bucket. *)
Definition insert_sreservation (q : QuotaObj) (bucket : StorageBucket) (amount : Z)
  (resource_type : string) (resource_key : option string) (a : StorageAccount)
  : Stx (option QuotaReservation * QuotaObj) := fun db =>
  let id := uuid4 (s_next_uuid db) in
  let row := {| sr_owner := q_owner q; sr_bucket := bucket; sr_amount := amount;
                sr_resource_type := resource_type; sr_resource_key := resource_key;
                sr_status := SReserved |} in
  if bool_decide (is_Some (s_reservations db !! id)) then Err StorageIntegrityError
  else Ok ((Some {| qr_id := id; qr_owner := q_owner q; qr_bucket := bucket; qr_amount := amount;
                    qr_resource_type := resource_type |}, q),
           set_suuid
             (set_accounts (set_sreservations db (<[id := row]> (s_reservations db)))
                (alter (write_sreserved bucket (reserved_of a bucket + amount)) (q_owner q) (s_accounts db)))
             (S (s_next_uuid db))).

(** What both adapters check once the account is locked. *)
Definition reserve_checks (q : QuotaObj) (bucket : StorageBucket) (amount : Z) (a : StorageAccount) : Stx () :=
  let '(used, reserved_) := used_and_reserved a bucket in
  if negb (fits_quota used reserved_ amount (quota_for (q_policy q) bucket))
  then raise StorageQuotaExceeded
  else
    total ← gets global_bytes;
    if GLOBAL_DATA_LIMIT_BYTES <? total + amount then raise StorageQuotaExceeded
    else
      floor ← gets (disk_has_floor amount);
      if floor : bool then mret () else raise StorageQuotaExceeded.

(** [AsyncStorageQuota.reserve]. *)
Definition async_reserve (q : QuotaObj) (bucket : StorageBucket) (amount_bytes : Z)
  (resource_type : string) (resource_key : option string) : Stx (option QuotaReservation * QuotaObj) :=
  let amount := Z.max 0 amount_bytes in
  if amount =? 0 then mret (None, q)
  else
    q ← resolve_policy q;
    aq ← locked_account q;
    let a := aq.1 in let q := aq.2 in
    if bool_decide (bucket = FILES) && (max_file_bytes (q_policy q) <? amount)
    then raise StorageQuotaExceeded
    else
      _ ← reserve_checks q bucket amount a;
      insert_sreservation q bucket amount resource_type resource_key a.

(** The open reservation row a held object refers to. *)
Definition open_row (q : QuotaObj) (r : QuotaReservation) (db : SDB) : option SReservationRow :=
  match s_reservations db !! qr_id r with
  | Some row => if String.eqb (sr_owner row) (q_owner q) && bool_decide (sr_status row = SReserved)
                then Some row else None
  | None => None
  end.

(** The used bytes after the write: measured, or the account's plus the actual amount. *)
Definition final_used (r : QuotaReservation) (row : SReservationRow) (a : StorageAccount)
  (actual_bytes : option Z) (reconcile : bool) (measured : Z * Z) : Z * Z :=
  let actual := Z.max 0 (default (sr_amount row) actual_bytes) in
  if reconcile then measured
  else (sa_core_used a + (if bool_decide (qr_bucket r = CORE) then actual else 0),
        sa_files_used a + (if bool_decide (qr_bucket r = FILES) then actual else 0)).

(** The settlement both adapters share, from the locked account on. *)
Definition settle_reservation (q : QuotaObj) (r : QuotaReservation) (row : SReservationRow)
  (a : StorageAccount) (actual_bytes : option Z) (reconcile : bool) : Stx () :=
  total ← gets global_bytes;
  m ← gets (fun db => s_measured db (q_owner q));
  let '(core, files) := final_used r row a actual_bytes reconcile m in
  let remaining := sa_core_reserved a + sa_files_reserved a - sr_amount row in
  _ ← validate_final_usage core files (core_quota_bytes (q_policy q)) (files_quota_bytes (q_policy q))
        (total - account_total a + core + files + Z.max 0 remaining);
  _ ← update_account (q_owner q) (fun acc => drop_reserved (qr_bucket r) (sr_amount row) (write_used core files acc));
  update_sreservation (qr_id r) (write_sstatus SCommitted).

(** [AsyncStorageQuota.finalize]. *)
Definition async_finalize (q : QuotaObj) (reservation : option QuotaReservation)
  (actual_bytes : option Z) (reconcile : bool) : Stx () :=
  match reservation with
  | None => mret ()
  | Some r =>
      row ← gets (open_row q r);
      match row with
      | None => mret ()
      | Some row =>
          account ← gets (fun db => s_accounts db !! q_owner q);
          match account with
          | None => raise LedgerUnavailable
          | Some a => settle_reservation q r row a actual_bytes reconcile
          end
      end
  end.

(** [AsyncStorageQuota.release]. *)
Definition async_release (q : QuotaObj) (reservation : option QuotaReservation) : Stx () :=
  match reservation with
  | None => mret ()
  | Some r =>
      row ← gets (open_row q r);
      account ← gets (fun db => s_accounts db !! q_owner q);
      match row, account with
      | Some row, Some _ =>
          _ ← update_account (q_owner q) (drop_reserved (qr_bucket r) (sr_amount row));
          update_sreservation (qr_id r) (write_sstatus SReleased)
      | _, _ => mret ()
      end
  end.

(** [AsyncStorageQuota.reconcile] and [SyncStorageQuota.reconcile]. *)
Definition storage_reconcile (q : QuotaObj) : Stx QuotaObj :=
  aq ← locked_account q;
  m ← gets (fun db => s_measured db (q_owner q));
  _ ← update_account (q_owner q) (write_used m.1 m.2);
  mret aq.2.

(** ** [SyncStorageQuota] *)

(** The constructor reads the roles at once. *)
Definition sync_new (owner : string) (roles : option (list string)) : Stx QuotaObj :=
  roles ← match roles with
          | Some rs => mret rs
          | None => gets (fun db => default [] (s_roles db !! owner))
          end;
  mret {| q_owner := owner; q_roles := Some roles; q_policy := policy_for_roles roles |}.

(** [SyncStorageQuota.reserve]: no per-file limit. *)
Definition sync_reserve (q : QuotaObj) (bucket : StorageBucket) (amount_bytes : Z)
  (resource_type : string) (resource_key : option string) : Stx (option QuotaReservation * QuotaObj) :=
  let amount := Z.max 0 amount_bytes in
  if amount =? 0 then mret (None, q)
  else
    aq ← locked_account q;
    let a := aq.1 in let q := aq.2 in
    _ ← reserve_checks q bucket amount a;
    insert_sreservation q bucket amount resource_type resource_key a.

(** [SyncStorageQuota.finalize]: the account is materialised and the overrides re-read. *)
Definition sync_finalize (q : QuotaObj) (reservation : option QuotaReservation)
  (actual_bytes : option Z) (reconcile : bool) : Stx QuotaObj :=
  match reservation with
  | None => mret q
  | Some r =>
      row ← gets (open_row q r);
      match row with
      | None => mret q
      | Some row =>
          aq ← locked_account q;
          _ ← settle_reservation aq.2 r row aq.1 actual_bytes reconcile;
          mret aq.2
      end
  end.

(** [SyncStorageQuota.release]. *)
Definition sync_release (q : QuotaObj) (reservation : option QuotaReservation) : Stx () :=
  match reservation with
  | None => mret ()
  | Some r =>
      row ← gets (open_row q r);
      match row with
      | None => mret ()
      | Some row =>
          _ ← update_account (q_owner q) (drop_reserved (qr_bucket r) (sr_amount row));
          update_sreservation (qr_id r) (write_sstatus SReleased)
      end
  end.
End storage.
