(* ===== verification/StorageSafety.v ===== *)
(** * StorageSafety: storage reservations never oversubscribe

    The reserved counters equal the sum of the open reservation rows in every reachable
    store; a reservation is admitted, and a write finalised, only within the bucket quotas
    and the shared pool; the synchronous adapter reserves core bytes exactly as the
    asynchronous one does. *)
From S2P Require Import Prelude Storage.
Local Open Scope Z_scope.

(** What an open reservation adds to the reserved counter of an owner's bucket. *)
Definition counts (o : string) (b : StorageBucket) (row : SReservationRow) : Z :=
  if bool_decide (sr_owner row = o) && bool_decide (sr_bucket row = b) && bool_decide (sr_status row = SReserved)
  then sr_amount row else 0.

Record storage_wf (db : SDB) : Prop := {
  sw_reserved : forall o a b, s_accounts db !! o = Some a ->
    reserved_of a b = map_sum (counts o b) (s_reservations db);
  sw_account : forall id row, s_reservations db !! id = Some row ->
    sr_status row = SReserved -> is_Some (s_accounts db !! sr_owner row);
  sw_amount : forall id row, s_reservations db !! id = Some row -> 0 <= sr_amount row;
}.

(** A held object is one [reserve] returned for its row. *)
Definition held (r : QuotaReservation) (db : SDB) : Prop :=
  forall row, s_reservations db !! qr_id r = Some row -> sr_bucket row = qr_bucket r.

(** ** Arithmetic of the counters *)

Lemma counts_nonneg o b row : 0 <= sr_amount row -> 0 <= counts o b row.
Proof. unfold counts. by case_match. Qed.

Lemma counts_open o b row :
  sr_owner row = o -> sr_status row = SReserved ->
  counts o b row = if bool_decide (sr_bucket row = b) then sr_amount row else 0.
Proof.
  intros Ho Hs. unfold counts. rewrite (bool_decide_eq_true_2 _ Ho), (bool_decide_eq_true_2 _ Hs).
  by rewrite andb_true_r.
Qed.

Lemma counts_other o b row : sr_owner row <> o -> counts o b row = 0.
Proof. intros Ho. unfold counts. by rewrite bool_decide_eq_false_2. Qed.

Lemma counts_closed o b st row : st <> SReserved -> counts o b (write_sstatus st row) = 0.
Proof. intros Hs. unfold counts. simpl. by rewrite (bool_decide_eq_false_2 (st = SReserved)), andb_false_r. Qed.

Lemma reserved_of_write a b b' v :
  reserved_of (write_sreserved b v a) b' = if bool_decide (b = b') then v else reserved_of a b'.
Proof. by destruct b, b'. Qed.

(** The counter of a row that is open covers the row. *)
Lemma reserved_covers db o a id row :
  storage_wf db -> s_accounts db !! o = Some a -> s_reservations db !! id = Some row ->
  sr_owner row = o -> sr_status row = SReserved ->
  sr_amount row <= reserved_of a (sr_bucket row) /\ forall b, 0 <= reserved_of a b.
Proof.
  intros [Hr _ Hp] Ha Hrow Ho Hs. split.
  - rewrite (Hr _ _ _ Ha). transitivity (counts o (sr_bucket row) row).
    + rewrite (counts_open _ _ _ Ho Hs), bool_decide_eq_true_2 by done. done.
    + eapply map_sum_ge; [|exact Hrow]. intros k v Hk. by eapply counts_nonneg, Hp.
  - intros b. rewrite (Hr _ _ _ Ha). apply map_sum_nonneg. intros k v Hk. by eapply counts_nonneg, Hp.
Qed.

(** ** The writes *)

Lemma wf_accounts db m :
  storage_wf db ->
  (forall o a', m !! o = Some a' -> (exists a, s_accounts db !! o = Some a /\ forall b, reserved_of a' b = reserved_of a b)
     \/ (s_accounts db !! o = None /\ forall b, reserved_of a' b = 0)) ->
  (forall o, is_Some (s_accounts db !! o) -> is_Some (m !! o)) ->
  storage_wf (set_accounts db m).
Proof.
  intros [Hr Ha Hp] Hm Hdom. split; simpl; [|eauto|eauto].
  intros o a' b [(a & Hoa & Hres)|[Hnone Hz]]%Hm.
  - rewrite Hres. by apply Hr.
  - rewrite Hz. unfold map_sum. symmetry. apply sum_by_zero. rewrite Forall_forall. intros row Hrow.
    apply list_elem_of_fmap in Hrow as ([k row'] & -> & Hk). apply elem_of_map_to_list in Hk. simpl.
    unfold counts. destruct (bool_decide (sr_status row' = SReserved)) eqn:Hs; [|by rewrite andb_false_r].
    apply bool_decide_eq_true in Hs. destruct (Ha _ _ Hk Hs) as [acc Hacc].
    rewrite (bool_decide_eq_false_2 (sr_owner row' = o)); [done|]. intros <-. congruence.
Qed.

Lemma wf_update_account db o (f : StorageAccount -> StorageAccount) :
  storage_wf db -> (forall a b, reserved_of (f a) b = reserved_of a b) ->
  storage_wf (set_accounts db (alter f o (s_accounts db))).
Proof.
  intros Hwf Hf. apply wf_accounts; [done|..].
  - intros o' a' Ha'. left. destruct (decide (o = o')) as [->|Hne].
    + rewrite lookup_alter_eq in Ha'. apply fmap_Some in Ha' as (a & Ha & ->). eauto.
    + rewrite lookup_alter_ne in Ha' by done. eauto.
  - intros o' [a Ha]. destruct (decide (o = o')) as [->|Hne].
    + rewrite lookup_alter_eq, Ha. by eexists.
    + rewrite lookup_alter_ne by done. by eexists.
Qed.

(** Opening a row and raising its counter. *)
Lemma wf_open db o a b amount rtype key id n :
  storage_wf db -> s_accounts db !! o = Some a -> s_reservations db !! id = None -> 0 <= amount ->
  storage_wf (set_suuid (set_accounts
    (set_sreservations db (<[id := {| sr_owner := o; sr_bucket := b; sr_amount := amount; sr_resource_type := rtype;
        sr_resource_key := key; sr_status := SReserved |}]> (s_reservations db)))
    (alter (write_sreserved b (reserved_of a b + amount)) o (s_accounts db))) n).
Proof.
  intros [Hr Ha Hp] Hoa Hid Hamt. split; simpl.
  - intros o' a' b' Ha'. rewrite map_sum_insert by done. destruct (decide (o = o')) as [->|Hne].
    + rewrite lookup_alter_eq, Hoa in Ha'. injection Ha' as <-.
      rewrite reserved_of_write, counts_open by done. simpl. rewrite <- (Hr _ _ _ Hoa).
      destruct (decide (b = b')) as [->|Hb]; [by rewrite !bool_decide_eq_true_2 by done|].
      rewrite !bool_decide_eq_false_2 by done. lia.
    + rewrite lookup_alter_ne in Ha' by done. rewrite counts_other by done. rewrite (Hr _ _ _ Ha'). lia.
  - intros id' row [[<- <-]|[_ Hrow]]%lookup_insert_Some Hs; simpl.
    + rewrite lookup_alter_eq, Hoa. by eexists.
    + destruct (Ha _ _ Hrow Hs) as [acc Hacc]. destruct (decide (o = sr_owner row)) as [->|Hne].
      * rewrite lookup_alter_eq, Hacc. by eexists.
      * rewrite lookup_alter_ne by done. by eexists.
  - intros id' row [[<- <-]|[_ Hrow]]%lookup_insert_Some; [done|by eapply Hp].
Qed.

(** Closing a row and lowering its counter, whatever happens to the used bytes. *)
Lemma wf_close db o a b id row st (f : StorageAccount -> StorageAccount) :
  storage_wf db -> s_accounts db !! o = Some a -> s_reservations db !! id = Some row ->
  sr_owner row = o -> sr_status row = SReserved -> sr_bucket row = b -> st <> SReserved ->
  (forall acc b', reserved_of (f acc) b' = reserved_of acc b') ->
  storage_wf (set_sreservations
    (set_accounts db (alter (fun acc => drop_reserved b (sr_amount row) (f acc)) o (s_accounts db)))
    (alter (write_sstatus st) id (s_reservations db))).
Proof.
  intros Hwf Hoa Hrow Ho Hs Hb Hst Hf.
  destruct (reserved_covers _ _ _ _ _ Hwf Hoa Hrow Ho Hs) as [Hcov _]. destruct Hwf as [Hr Ha Hp].
  split; simpl.
  - intros o' a' b' Ha'. rewrite (map_sum_alter _ _ _ _ _ Hrow), counts_closed by done.
    destruct (decide (o = o')) as [->|Hne].
    + rewrite lookup_alter_eq, Hoa in Ha'. injection Ha' as <-. unfold drop_reserved.
      rewrite reserved_of_write, !Hf, counts_open, <- (Hr _ _ b' Hoa) by done.
      destruct (decide (b = b')) as [<-|Hne].
      * rewrite !bool_decide_eq_true_2 by done. subst b. lia.
      * rewrite !bool_decide_eq_false_2 by congruence. lia.
    + rewrite lookup_alter_ne in Ha' by done. rewrite counts_other by congruence. rewrite (Hr _ _ _ Ha'). lia.
  - assert (Hdom : forall o', is_Some (s_accounts db !! o') ->
      is_Some (alter (fun acc => drop_reserved b (sr_amount row) (f acc)) o (s_accounts db) !! o')).
    { intros o' [acc Hacc]. destruct (decide (o = o')) as [->|Hne].
      - rewrite lookup_alter_eq, Hacc. by eexists.
      - rewrite lookup_alter_ne by done. by eexists. }
    intros id' row' Hrow' Hs'. apply Hdom. destruct (decide (id = id')) as [->|Hne].
    + rewrite lookup_alter_eq, Hrow in Hrow'. injection Hrow' as <-. simpl in *. eauto.
    + rewrite lookup_alter_ne in Hrow' by done. eauto.
  - intros id' row' Hrow'. destruct (decide (id = id')) as [->|Hne].
    + rewrite lookup_alter_eq, Hrow in Hrow'. injection Hrow' as <-. simpl. by eapply Hp.
    + rewrite lookup_alter_ne in Hrow' by done. by eapply Hp.
Qed.

(** ** The operations *)

Section operations.
Context `{Uuids}.
Variables GLOBAL MINFREE : Z.

Lemma materialise_account_ok o db a db' :
  storage_wf db -> materialise_account o db = Ok (a, db') ->
  storage_wf db' /\ s_accounts db' !! o = Some a /\ s_reservations db' = s_reservations db
  /\ s_next_uuid db' = s_next_uuid db.
Proof.
  intros Hwf Hr. unfold materialise_account in Hr.
  apply st_bind_ok in Hr as (u & s & Hs & Hr). injection Hs as <- Hs.
  assert (Hwf1 : storage_wf s /\ s_reservations s = s_reservations db /\ s_next_uuid s = s_next_uuid db).
  { destruct (s_accounts db !! o) eqn:Ho; subst s; [done|]. split; [|done]. apply wf_accounts; [done|..].
    - intros o' a' [[<- <-]|[_ Ho']]%lookup_insert_Some; [right|left; eauto]. split; [done|]. by intros [].
    - intros o' Hs. rewrite lookup_insert_is_Some. destruct (decide (o = o')); auto. }
  clear Hs. destruct Hwf1 as (Hwf1 & Hres & Hn).
  apply st_bind_ok in Hr as (ao & s1 & Hs & Hr). injection Hs as <- <-.
  destruct (s_accounts s !! o) as [acc|] eqn:Ho; [|done]. destruct (sa_reconciled acc).
  - injection Hr as <- <-. done.
  - st_run Hr. injection Hrun as <- <-. injection Hrun0 as _ <-. injection Hr as <- <-. simpl.
    split; [by apply wf_update_account; [|by intros ? []]|]. by rewrite lookup_alter_eq, Ho.
Qed.

Lemma locked_account_ok q db aq db' :
  storage_wf db -> locked_account q db = Ok (aq, db') ->
  storage_wf db' /\ s_accounts db' !! q_owner q = Some aq.1 /\ s_reservations db' = s_reservations db
  /\ aq.2 = with_policy q (policy_with_overrides (q_policy q) (sa_overrides aq.1)).
Proof.
  intros Hwf Hr. unfold locked_account in Hr. apply st_bind_ok in Hr as (a & s & Ha & Hr).
  injection Hr as <- <-. apply materialise_account_ok in Ha as (? & ? & ? & _); done.
Qed.

Lemma resolve_policy_ok q db q' db' :
  resolve_policy q db = Ok (q', db') -> db' = db /\ q_owner q' = q_owner q.
Proof. unfold resolve_policy. destruct (q_roles q); intros Hr; by injection Hr as <- <-. Qed.

(** The two checks and the insert, from a locked account. *)
Lemma reserve_tail q b amount rtype key a db u s res db' :
  storage_wf db -> s_accounts db !! q_owner q = Some a -> 0 < amount ->
  reserve_checks GLOBAL MINFREE q b amount a db = Ok (u, s) ->
  insert_sreservation q b amount rtype key a s = Ok (res, db') ->
  storage_wf db' /\ res.2 = q
  /\ (exists r row, res.1 = Some r /\ s_reservations db' !! qr_id r = Some row
      /\ sr_bucket row = qr_bucket r /\ sr_amount row = amount /\ qr_bucket r = b /\ sr_owner row = q_owner q
      /\ sr_status row = SReserved)
  /\ (exists a', s_accounts db' !! q_owner q = Some a'
      /\ used_of a' b + reserved_of a' b <= Z.max 0 (quota_for (q_policy q) b))
  /\ global_bytes db' <= GLOBAL.
Proof.
  intros Hwf Ha Hpos Hc Hi. unfold reserve_checks, used_and_reserved in Hc.
  destruct (fits_quota _ _ _ _) eqn:Hfit; [|done]. cbn [negb] in Hc.
  apply st_bind_ok in Hc as (t & s0 & Ht & Hc). injection Ht as <- <-.
  destruct (GLOBAL <? _) eqn:Hg; [done|]. apply st_bind_ok in Hc as (fl & s0 & Hf & Hc). injection Hf as <- <-.
  destruct (disk_has_floor _ _ _); [|done]. injection Hc as _ <-.
  unfold insert_sreservation in Hi. destruct (bool_decide _) eqn:Hid; [done|].
  apply bool_decide_eq_false, eq_None_not_Some in Hid. injection Hi as <- <-. simpl.
  assert (Hlk : alter (write_sreserved b (reserved_of a b + amount)) (q_owner q) (s_accounts db) !! q_owner q
                = Some (write_sreserved b (reserved_of a b + amount) a)).
  { by rewrite lookup_alter_eq, Ha. }
  split; [apply wf_open; auto; lia|]. split; [done|]. split; [|split].
  - eexists _, _. split; [reflexivity|]. simpl. rewrite lookup_insert_eq. by split.
  - eexists. split; [exact Hlk|]. rewrite reserved_of_write, bool_decide_eq_true_2 by done.
    unfold fits_quota in Hfit. destruct b; simpl in *; lia.
  - unfold global_bytes in *. simpl. rewrite (map_sum_alter _ _ _ _ _ Ha).
    unfold account_total. destruct b; simpl in *; unfold account_total in *; lia.
Qed.

(** What an admitted reservation leaves: its open row, and both limits respected. *)
Record admits (q q' : QuotaObj) (b : StorageBucket) (amount : Z) (r : QuotaReservation) (db' : SDB) : Prop := {
  ad_owner : q_owner q' = q_owner q;
  ad_row : exists row, s_reservations db' !! qr_id r = Some row /\ sr_bucket row = qr_bucket r
    /\ sr_amount row = amount /\ qr_bucket r = b /\ sr_owner row = q_owner q /\ sr_status row = SReserved;
  ad_bucket : exists a', s_accounts db' !! q_owner q = Some a'
    /\ used_of a' b + reserved_of a' b <= Z.max 0 (quota_for (q_policy q') b);
  ad_pool : global_bytes db' <= GLOBAL;
}.

Lemma async_reserve_ok q b n rtype key db res q' db' :
  storage_wf db ->
  async_reserve GLOBAL MINFREE q b n rtype key db = Ok ((res, q'), db') ->
  storage_wf db' /\
  match res with
  | None => n <= 0 /\ db' = db
  | Some r => admits q q' b n r db' /\ (b = FILES -> n <= max_file_bytes (q_policy q'))
  end.
Proof.
  intros Hwf Hr. unfold async_reserve in Hr.
  destruct (Z.max 0 n =? 0) eqn:Hz; [injection Hr as <- _ <-; split; [done|]; split; [lia|done]|].
  apply st_bind_ok in Hr as (q1 & s1 & [-> Ho]%resolve_policy_ok & Hr).
  apply st_bind_ok in Hr as (aq & s2 & (Hwf2 & Ha & _ & Hq)%locked_account_ok & Hr); [|done]. cbv zeta in Hr.
  destruct (bool_decide _ && _) eqn:Hfile; [done|].
  apply st_bind_ok in Hr as (u & s3 & Hc & Hi).
  assert (Hq1 : q_owner aq.2 = q_owner q1) by (by rewrite Hq).
  assert (Hq2 : q_owner aq.2 = q_owner q) by congruence. rewrite <- Hq1 in Ha.
  assert (Hpos : 0 < Z.max 0 n) by lia.
  destruct (reserve_tail _ _ _ _ _ _ _ _ _ _ _ Hwf2 Ha Hpos Hc Hi) as (Hwf' & Hres & (r & row & Hr & Hrow) & Hbk & Hg).
  simpl in Hres, Hr. subst q' res.
  replace (Z.max 0 n) with n in * by lia. split; [done|]. split.
  - split; [done| |by rewrite <- Hq2|done]. exists row. by rewrite <- Hq2.
  - intros ->. rewrite bool_decide_eq_true_2 in Hfile by done. simpl in Hfile. lia.
Qed.

Lemma open_row_some q r db row :
  open_row q r db = Some row ->
  s_reservations db !! qr_id r = Some row /\ sr_owner row = q_owner q /\ sr_status row = SReserved.
Proof.
  unfold open_row. destruct (s_reservations db !! qr_id r) as [row'|]; [|done].
  destruct (_ && _) eqn:Hc; [|done]. intros [= <-].
  apply andb_true_iff in Hc as [Ho%String.eqb_eq Hs%bool_decide_eq_true]. done.
Qed.

(** What a settled write leaves: limits respected, the hold gone, the row closed. *)
Record settles (q : QuotaObj) (r : QuotaReservation) (row : SReservationRow) (a : StorageAccount)
  (db db' : SDB) : Prop := {
  se_account : exists a', s_accounts db' !! q_owner q = Some a'
    /\ sa_core_used a' <= core_quota_bytes (q_policy q) /\ sa_files_used a' <= files_quota_bytes (q_policy q)
    /\ forall b, reserved_of a' b = reserved_of a b - (if bool_decide (sr_bucket row = b) then sr_amount row else 0);
  se_others : forall o, o <> q_owner q -> s_accounts db' !! o = s_accounts db !! o;
  se_pool : global_bytes db' <= GLOBAL;
  se_row : s_reservations db' = alter (write_sstatus SCommitted) (qr_id r) (s_reservations db);
}.

Lemma settle_reservation_ok q r row a actual rec db u db' :
  storage_wf db -> held r db -> s_accounts db !! q_owner q = Some a -> open_row q r db = Some row ->
  settle_reservation GLOBAL q r row a actual rec db = Ok (u, db') ->
  storage_wf db' /\ settles q r row a db db'.
Proof.
  intros Hwf Hheld Ha Hrow Hr. apply open_row_some in Hrow as (Hrow & Ho & Hs).
  pose proof (Hheld _ Hrow) as Hb.
  destruct (reserved_covers _ _ _ _ _ Hwf Ha Hrow Ho Hs) as [Hcov Hnn].
  unfold settle_reservation in Hr. st_run Hr. injection Hrun as <- <-. injection Hrun0 as <- <-.
  destruct (final_used _ _ _ _ _ _) as [core files]. cbv zeta in Hr. st_run Hr. rename Hrun into Hrun1, Hrun0 into Hrun2.
  unfold validate_final_usage in Hrun1.
  destruct (_ <? core) eqn:Hc; [done|]. destruct (_ <? files) eqn:Hf; [done|]. destruct (GLOBAL <? _) eqn:Hg; [done|].
  injection Hrun1 as _ <-. injection Hrun2 as _ <-. injection Hr as _ <-. simpl.
  pose proof (Hnn CORE) as Hnc. pose proof (Hnn FILES) as Hnf. simpl in Hnc, Hnf.
  split; [by apply (wf_close db (q_owner q) a (qr_bucket r) (qr_id r) row SCommitted (write_used core files))|].
  split; simpl.
  - rewrite lookup_alter_eq, Ha. eexists. split; [reflexivity|]. unfold drop_reserved. rewrite <- Hb in *.
    split; [destruct (sr_bucket row); simpl; lia|]. split; [destruct (sr_bucket row); simpl; lia|].
    intros b. rewrite reserved_of_write. destruct (bool_decide (sr_bucket row = b)) eqn:Hbb.
    + apply bool_decide_eq_true in Hbb as <-. destruct (sr_bucket row); simpl in *; lia.
    + destruct b; simpl; lia.
  - intros o Hne. by rewrite lookup_alter_ne.
  - unfold global_bytes in *. simpl. rewrite (map_sum_alter _ _ _ _ _ Ha). rewrite <- Hb in *.
    unfold account_total, drop_reserved in *. destruct (sr_bucket row); simpl in *; lia.
  - done.
Qed.

Lemma async_finalize_ok q r actual rec db u db' :
  storage_wf db -> held r db -> async_finalize GLOBAL q (Some r) actual rec db = Ok (u, db') ->
  storage_wf db' /\
  match open_row q r db with
  | None => db' = db
  | Some row => exists a, s_accounts db !! q_owner q = Some a /\ settles q r row a db db'
  end.
Proof.
  intros Hwf Hheld Hr. unfold async_finalize in Hr.
  apply st_bind_ok in Hr as (ro & s & Hg & Hr). injection Hg as <- <-.
  destruct (open_row q r db) as [row|] eqn:Hrow; [|by injection Hr as _ <-].
  apply st_bind_ok in Hr as (ao & s & Hg & Hr). injection Hg as <- <-.
  destruct (s_accounts db !! q_owner q) as [a|] eqn:Ha; [|done].
  apply settle_reservation_ok in Hr as [Hwf' Hset]; [|done..]. split; [done|]. by exists a.
Qed.

Lemma sync_finalize_ok q r actual rec db q' db' :
  storage_wf db -> held r db -> sync_finalize GLOBAL q (Some r) actual rec db = Ok (q', db') -> storage_wf db'.
Proof.
  intros Hwf Hheld Hr. unfold sync_finalize in Hr.
  apply st_bind_ok in Hr as (ro & s & Hg & Hr). injection Hg as <- <-.
  destruct (open_row q r db) as [row|] eqn:Hrow; [|by injection Hr as _ <-].
  apply st_bind_ok in Hr as (aq & s & Hl & Hr). apply locked_account_ok in Hl as (Hwf2 & Ha & Hres & Hq); [|done].
  apply st_bind_ok in Hr as (u & s2 & Hset & Hr). injection Hr as _ <-.
  assert (Hq2 : q_owner aq.2 = q_owner q) by (by rewrite Hq).
  eapply settle_reservation_ok in Hset as [? _]; [done|done| | |].
  - intros row' Hk. apply Hheld. by rewrite <- Hres.
  - by rewrite Hq2.
  - unfold open_row in *. by rewrite Hres, Hq2.
Qed.

Lemma release_writes_ok q r row db :
  storage_wf db -> held r db -> open_row q r db = Some row ->
  storage_wf (set_sreservations
    (set_accounts db (alter (drop_reserved (qr_bucket r) (sr_amount row)) (q_owner q) (s_accounts db)))
    (alter (write_sstatus SReleased) (qr_id r) (s_reservations db))).
Proof.
  intros Hwf Hheld (Hrow & Ho & Hs)%open_row_some.
  destruct (sw_account _ Hwf _ _ Hrow Hs) as [a Ha]. rewrite Ho in Ha.
  by apply (wf_close db (q_owner q) a (qr_bucket r) (qr_id r) row SReleased id); auto.
Qed.

Lemma async_release_ok q r db u db' :
  storage_wf db -> held r db -> async_release q (Some r) db = Ok (u, db') -> storage_wf db'.
Proof.
  intros Hwf Hheld Hr. unfold async_release in Hr. st_run Hr.
  injection Hrun as <- <-. injection Hrun0 as <- <-.
  destruct (open_row q r db) as [row|] eqn:Hrow; [|by injection Hr as _ <-].
  destruct (s_accounts db !! q_owner q); [|by injection Hr as _ <-]. st_run Hr.
  injection Hrun as _ <-. injection Hr as _ <-. by apply release_writes_ok.
Qed.

Lemma sync_release_ok q r db u db' :
  storage_wf db -> held r db -> sync_release q (Some r) db = Ok (u, db') -> storage_wf db'.
Proof.
  intros Hwf Hheld Hr. unfold sync_release in Hr. st_run Hr. injection Hrun as <- <-.
  destruct (open_row q r db) as [row|] eqn:Hrow; [|by injection Hr as _ <-]. st_run Hr.
  injection Hrun as _ <-. injection Hr as _ <-. by apply release_writes_ok.
Qed.

Lemma reconcile_ok q db q' db' : storage_wf db -> storage_reconcile q db = Ok (q', db') -> storage_wf db'.
Proof.
  intros Hwf Hr. unfold storage_reconcile in Hr. st_run Hr.
  apply locked_account_ok in Hrun as (Hwf2 & _); [|done].
  injection Hrun0 as <- <-. injection Hrun1 as _ <-. injection Hr as _ <-.
  apply wf_update_account; [done|]. by intros ? [].
Qed.

Lemma sync_reserve_ok q b n rtype key db res q' db' :
  storage_wf db -> sync_reserve GLOBAL MINFREE q b n rtype key db = Ok ((res, q'), db') -> storage_wf db'.
Proof.
  intros Hwf Hr. unfold sync_reserve in Hr.
  destruct (Z.max 0 n =? 0) eqn:Hz; [by injection Hr as _ _ <-|].
  apply st_bind_ok in Hr as (aq & s2 & (Hwf2 & Ha & _ & Hq)%locked_account_ok & Hr); [|done]. cbv zeta in Hr.
  apply st_bind_ok in Hr as (u & s3 & Hc & Hi).
  assert (Hq1 : q_owner aq.2 = q_owner q) by (by rewrite Hq). rewrite <- Hq1 in Ha.
  assert (Hpos : 0 < Z.max 0 n) by lia.
  by destruct (reserve_tail _ _ _ _ _ _ _ _ _ _ _ Hwf2 Ha Hpos Hc Hi) as (Hwf' & _).
Qed.

(** ** The stores the two adapters can reach *)

(** Everything of an account but the administrator's overrides. *)
Definition counters (a : StorageAccount) : Z * Z * Z * Z * bool :=
  (sa_core_used a, sa_files_used a, sa_core_reserved a, sa_files_reserved a, sa_reconciled a).

Inductive storage_step (db : SDB) : SDB -> Prop :=
| sstep_async_reserve q b n rtype key :
    storage_step db (run_tx (async_reserve GLOBAL MINFREE q b n rtype key) db).2
| sstep_async_finalize q r actual rec : held r db ->
    storage_step db (run_tx (async_finalize GLOBAL q (Some r) actual rec) db).2
| sstep_async_release q r : held r db -> storage_step db (run_tx (async_release q (Some r)) db).2
| sstep_sync_reserve q b n rtype key :
    storage_step db (run_tx (sync_reserve GLOBAL MINFREE q b n rtype key) db).2
| sstep_sync_finalize q r actual rec : held r db ->
    storage_step db (run_tx (sync_finalize GLOBAL q (Some r) actual rec) db).2
| sstep_sync_release q r : held r db -> storage_step db (run_tx (sync_release q (Some r)) db).2
| sstep_reconcile q : storage_step db (run_tx (storage_reconcile q) db).2
| sstep_environment db' :
    (** roles, other tables, the disk and administrators' overrides change *)
    counters <$> s_accounts db' = counters <$> s_accounts db ->
    s_reservations db' = s_reservations db -> storage_step db db'.

Inductive storage_reachable : SDB -> Prop :=
| sreach_init db : s_accounts db = ∅ -> s_reservations db = ∅ -> storage_reachable db
| sreach_step db db' : storage_reachable db -> storage_step db db' -> storage_reachable db'.

Lemma run_tx_wf {A} (m : Stx A) db :
  storage_wf db -> (forall a db', m db = Ok (a, db') -> storage_wf db') -> storage_wf (run_tx m db).2.
Proof. intros Hwf Hm. unfold run_tx. destruct (m db) as [[a db']|e]; [by eapply Hm|done]. Qed.

Lemma environment_wf db db' :
  storage_wf db -> counters <$> s_accounts db' = counters <$> s_accounts db ->
  s_reservations db' = s_reservations db -> storage_wf db'.
Proof.
  intros [Hr Ha Hp] Hc Hres.
  assert (Hback : forall o a', s_accounts db' !! o = Some a' ->
    exists a, s_accounts db !! o = Some a /\ counters a' = counters a).
  { intros o a' Ho. assert (Hl : (counters <$> s_accounts db') !! o = Some (counters a')) by (by rewrite lookup_fmap, Ho).
    rewrite Hc, lookup_fmap in Hl. apply fmap_Some in Hl as (a & ? & ?). eauto. }
  split.
  - intros o a' b (a & Hoa & Hcc)%Hback. rewrite Hres, <- (Hr _ _ _ Hoa). unfold counters in Hcc.
    destruct b; simpl; congruence.
  - intros id row. rewrite Hres. intros Hrow Hs. destruct (Ha _ _ Hrow Hs) as [a Hoa].
    assert (Hl : (counters <$> s_accounts db) !! sr_owner row = Some (counters a)) by (by rewrite lookup_fmap, Hoa).
    rewrite <- Hc, lookup_fmap in Hl. destruct (s_accounts db' !! sr_owner row); [by eexists|done].
  - intros id row. rewrite Hres. apply Hp.
Qed.

Lemma storage_step_wf db db' : storage_wf db -> storage_step db db' -> storage_wf db'.
Proof.
  intros Hwf Hs. destruct Hs; try (apply run_tx_wf; [done|intros a db' Hr]).
  - destruct a. by eapply async_reserve_ok in Hr as [? _].
  - by eapply async_finalize_ok in Hr as [? _].
  - by eapply async_release_ok.
  - destruct a. by eapply sync_reserve_ok.
  - by eapply sync_finalize_ok.
  - by eapply sync_release_ok.
  - by eapply reconcile_ok.
  - by eapply environment_wf.
Qed.

Lemma storage_reachable_wf db : storage_reachable db -> storage_wf db.
Proof.
  induction 1 as [db Ha Hr|db db' _ IH Hs]; [|by eapply storage_step_wf].
  split; intros *; rewrite ?Ha, ?Hr, ?lookup_empty; done.
Qed.

(** ** The theorems *)

(** In every reachable store an account's reserved bytes of a bucket are exactly the sum
    of its open reservation rows, whatever mix of the two adapters wrote them. *)
Lemma storage_reserved_conservation db o a b :
  storage_reachable db -> s_accounts db !! o = Some a ->
  reserved_of a b = map_sum (counts o b) (s_reservations db).
Proof. intros Hre%storage_reachable_wf Ha. by apply Hre. Qed.

(** A reservation is granted only when the bucket's used plus reserved bytes, the new
    reservation included, stay within the quota of the policy in force, and the shared pool
    of all accounts stays within the global limit; a file also fits the per-file limit. *)
Lemma storage_reserve_within_limits q b n rtype key db r q' db' :
  storage_reachable db ->
  async_reserve GLOBAL MINFREE q b n rtype key db = Ok ((Some r, q'), db') ->
  (exists a', s_accounts db' !! q_owner q = Some a'
     /\ used_of a' b + reserved_of a' b <= Z.max 0 (quota_for (q_policy q') b))
  /\ global_bytes db' <= GLOBAL
  /\ (b = FILES -> n <= max_file_bytes (q_policy q'))
  /\ exists row, s_reservations db' !! qr_id r = Some row /\ sr_amount row = n /\ sr_status row = SReserved.
Proof.
  intros Hre%storage_reachable_wf Hr. apply async_reserve_ok in Hr as [_ [[_ (row & Hrow & _ & Hn & _ & _ & Hs) Hb Hg] Hf]];
    [|done]. split; [done|]. split; [done|]. split; [done|]. by exists row.
Qed.

(** Finalising an open reservation leaves the measured usage within both bucket quotas
    and the shared pool within the global limit, gives exactly the reserved amount back,
    touches no other account, and closes the row so that repeating it writes nothing. *)
Lemma storage_finalize_within_limits q r actual rec db u db' row a :
  storage_reachable db -> held r db -> open_row q r db = Some row -> s_accounts db !! q_owner q = Some a ->
  async_finalize GLOBAL q (Some r) actual rec db = Ok (u, db') ->
  settles q r row a db db'
  /\ forall actual' rec', run_tx (async_finalize GLOBAL q (Some r) actual' rec') db' = (Ok (), db').
Proof.
  intros Hre%storage_reachable_wf Hheld Hrow Ha Hr.
  apply async_finalize_ok in Hr as [_ Hr]; [|done..]. rewrite Hrow in Hr.
  destruct Hr as (a0 & Ha0 & Hset). rewrite Ha in Ha0. injection Ha0 as <-. split; [done|].
  intros actual' rec'. apply open_row_some in Hrow as (Hk & _ & _).
  unfold run_tx, async_finalize, gets, mbind, st_bind. unfold open_row.
  rewrite (se_row _ _ _ _ _ _ Hset), lookup_alter_eq, Hk. simpl. by destruct (String.eqb _ _).
Qed.

(** For core bytes the synchronous adapter reserves exactly as the asynchronous one:
    same decision, same reservation, same store, same error. *)
Lemma sync_reserve_core_equivalent owner roles n rtype key db :
  (fun x : option QuotaReservation * QuotaObj * SDB => (x.1.1, x.2)) <$>
    async_reserve GLOBAL MINFREE (async_new owner roles) CORE n rtype key db
  = (fun x : option QuotaReservation * QuotaObj * SDB => (x.1.1, x.2)) <$>
    (q ← sync_new owner roles; sync_reserve GLOBAL MINFREE q CORE n rtype key) db.
Proof.
  unfold async_reserve, sync_reserve, sync_new, resolve_policy, async_new. cbv zeta.
  destruct (Z.max 0 n =? 0) eqn:Hz; destruct roles as [rs|]; try done.
Qed.
End operations.

(** ** A concrete account *)

#[local] Instance storage_uuids : Uuids :=
  {| uuid4 n := "s" +:+ pretty (N.of_nat n); uuid5_url name := name |}.

Module StorageExample.
Definition LIMIT : Z := 1000 * MIB.
Definition FLOOR : Z := MIB.

(** A student whose rows measure one MiB. *)
Definition db0 : SDB :=
  {| s_accounts := ∅; s_reservations := ∅; s_roles := {[ "alice" := ["student"] ]};
     s_measured := fun _ => (MIB, 0); s_disk_free := Some (100 * MIB); s_next_uuid := 0 |}.

Definition alice : QuotaObj := async_new "alice" None.
Definition alice' : QuotaObj :=
  {| q_owner := "alice"; q_roles := Some ["student"]; q_policy := role_policy 128 128 10 500 |}.
Definition held0 : QuotaReservation :=
  {| qr_id := "s0"; qr_owner := "alice"; qr_bucket := CORE; qr_amount := 500; qr_resource_type := "turn_event" |}.
Definition db1 : SDB := (run_tx (async_reserve LIMIT FLOOR alice CORE 500 "turn_event" None) db0).2.
Definition db2 : SDB := (run_tx (async_finalize LIMIT alice' (Some held0) None true) db1).2.
Definition account1 : StorageAccount :=
  {| sa_core_used := MIB; sa_files_used := 0; sa_core_reserved := 500; sa_files_reserved := 0;
     sa_overrides := sa_overrides new_account; sa_reconciled := true |}.

Lemma db1_reachable : storage_reachable LIMIT FLOOR db1.
Proof. eapply sreach_step; [by apply (sreach_init _ _ db0)|]. apply sstep_async_reserve. Qed.
End StorageExample.




(** The synchronous adapter does not look at the per-file limit: it grants a file the
    asynchronous one refuses. *)
Lemma sync_reserve_ignores_file_limit :
  (run_tx (async_reserve StorageExample.LIMIT StorageExample.FLOOR StorageExample.alice FILES (11 * MIB) "file" None)
     StorageExample.db0).1 = Err StorageQuotaExceeded
  /\ is_ok (run_tx (q ← sync_new "alice" None;
                    sync_reserve StorageExample.LIMIT StorageExample.FLOOR q FILES (11 * MIB) "file" None)
              StorageExample.db0).1 = true.
Proof. vm_compute. split; reflexivity. Qed.
