(* ===== verification/Json.v ===== *)
(** * Json: the JSON values the server stores, and [json.dumps]

    Values as the columns hold them (integers only; no float is stored by the modelled code)
    and the standard encoder with [ensure_ascii=False]: the separators are arguments, strings
    are UTF-8 byte strings, so the length of an encoding is its size in bytes. *)
From S2P Require Import Prelude.
Local Open Scope Z_scope.

Inductive json :=
| JNull
| JBool (b : bool)
| JNum (n : Z)
| JStr (s : string)
| JArr (l : list json)
| JObj (l : list (string * json)).

#[export] Instance json_eq_dec : EqDecision json.
Proof.
  unfold EqDecision. fix go 1. intros x y.
  destruct x as [|b|n|s|l|l], y as [|b'|n'|s'|l'|l']; try (right; discriminate).
  - left. reflexivity.
  - destruct (decide (b = b')); [left|right]; congruence.
  - destruct (decide (n = n')); [left|right]; congruence.
  - destruct (decide (s = s')); [left|right]; congruence.
  - assert (Hd : forall k, Decision (l = k)).
    { induction l as [|x l IH]; intros [|y k]; try (right; discriminate); [left; reflexivity|].
      destruct (go x y); [|right; congruence]. destruct (IH k); [left|right]; congruence. }
    destruct (Hd l'); [left|right]; congruence.
  - assert (Hd : forall k, Decision (l = k)).
    { induction l as [|[i x] l IH]; intros [|[j y] k]; try (right; discriminate); [left; reflexivity|].
      destruct (decide (i = j)); [|right; congruence]. destruct (go x y); [|right; congruence].
      destruct (IH k); [left|right]; congruence. }
    destruct (Hd l'); [left|right]; congruence.
Defined.

(** [value.get(key)] on an object; the last binding of a key wins in Python, keys are distinct. *)
Definition jget (key : string) (v : json) : option json :=
  match v with
  | JObj l => snd <$> List.find (fun kv : string * json => String.eqb kv.1 key) l
  | _ => None
  end.

Definition jstr (v : option json) : option string :=
  match v with Some (JStr s) => Some s | _ => None end.

(** The escapes of [py_encode_basestring]. *)
Definition hex_digit (n : nat) : ascii :=
  ascii_of_nat (if (n <? 10)%nat then 48 + n else 87 + n).

Definition escape_char (c : ascii) : string :=
  let n := nat_of_ascii c in
  match n with
  | 8%nat => String "\"%char "b"
  | 9%nat => String "\"%char "t"
  | 10%nat => String "\"%char "n"
  | 12%nat => String "\"%char "f"
  | 13%nat => String "\"%char "r"
  | 34%nat => String "\"%char (String (ascii_of_nat 34) "")
  | 92%nat => String "\"%char (String "\"%char "")
  | _ => if (n <? 32)%nat
         then String "\"%char ("u00" +:+ String (hex_digit (n / 16)) (String (hex_digit (n mod 16)) ""))
         else String c ""
  end.

Fixpoint escape (s : string) : string :=
  match s with EmptyString => "" | String c s' => escape_char c +:+ escape s' end.

Definition quote (s : string) : string :=
  String (ascii_of_nat 34) (escape s) +:+ String (ascii_of_nat 34) "".

Fixpoint join (sep : string) (l : list string) : string :=
  match l with [] => "" | [x] => x | x :: l' => x +:+ sep +:+ join sep l' end.

(** [json.dumps(v, ensure_ascii=False, separators=(item, key))]. *)
Fixpoint dumps (item key : string) (v : json) : string :=
  match v with
  | JNull => "null"
  | JBool true => "true"
  | JBool false => "false"
  | JNum n => pretty n
  | JStr s => quote s
  | JArr l => "[" +:+ join item (List.map (dumps item key) l) +:+ "]"
  | JObj l => "{" +:+ join item (List.map (fun kv => quote kv.1 +:+ key +:+ dumps item key kv.2) l) +:+ "}"
  end.

(** The default separators, and the size of the compact encoding ([_json_bytes]). *)
Definition dumps_default : json -> string := dumps ", " ": ".
Definition byte_length (s : string) : Z := Z.of_nat (String.length s).
Definition json_bytes (v : json) : Z := byte_length (dumps "," ":" v).

Lemma byte_length_nonneg s : 0 <= byte_length s.
Proof. unfold byte_length. lia. Qed.

Example dumps_compact :
  dumps "," ":" (JObj [("a", JArr [JNum 1; JNull]); ("b", JStr "x")])
  = String "{" (quote "a" +:+ ":[1,null]," +:+ quote "b" +:+ ":" +:+ quote "x" +:+ "}").
Proof. vm_compute. reflexivity. Qed.
