(* ===== verification/TurnStore.v ===== *)
(** * TurnStore: the rows of Turn reliability

    [TurnModel], [TurnEventModel], [ToolCallModel], [OutboxMessageModel], [DeadLetterModel] and
    [TurnCancellationModel] of [server/infrastructure/mysql/models.py], the store that holds
    them next to the storage ledger of [Storage], and the statements
    [server/application/turn_reliability.py] runs on it.  Times are instants in microseconds. *)
From S2P Require Import Prelude Clock Json Storage.
Local Open Scope Z_scope.

Record ConversationRow := { cv_owner_user_id : string; cv_workspace_id : string }.

Record TurnRow := {
  t_conversation_id : string;
  t_workspace_id : string;
  t_user_id : string;
  t_status : string;
  t_claim_generation : Z;
  t_claimed_by : option string;
  t_lease_expires_at : option Z;
  t_heartbeat_at : option Z;
  t_completed_at : option Z;
  t_error_kind : option string;
  t_error_message : option string;
}.

Record TurnEventRow := {
  ev_id : string;
  ev_turn_id : string;
  ev_sequence : Z;
  ev_claim_generation : Z;
  ev_event_type : string;
  ev_payload : json;
}.

Record ToolCallRow := {
  tc_id : string;
  tc_turn_id : string;
  tc_operation_id : string;
  tc_claim_generation : Z;
  tc_tool_name : string;
  tc_idempotency_key : string;
  tc_status : string;
  tc_request : json;
  tc_result : option json;
}.

Record OutboxRow := {
  ob_id : string;
  ob_topic : string;
  ob_payload : json;
  ob_status : string;
  ob_attempts : Z;
  ob_available_at : Z;
  ob_locked_by : option string;
  ob_locked_until : option Z;
  ob_redis_message_id : option string;
  ob_published_at : option Z;
  ob_created_at : Z;
}.

Record DeadLetterRow := { dl_id : string; dl_turn_id : option string; dl_reason : string; dl_payload : json }.

Record TDB := {
  t_conversations : gmap string ConversationRow;
  t_turns : gmap string TurnRow;
  t_cancellations : gset string;
  t_events : list TurnEventRow;
  t_tool_calls : list ToolCallRow;
  t_outbox : list OutboxRow;
  t_dead_letters : list DeadLetterRow;
  t_storage : SDB;
  t_next_uuid : nat;
}.

Inductive TurnError :=
| LostTurnClaimError (turn_id : string)
| TurnStorageError (e : StorageError)
| TurnIntegrityError
| NoRecoverableDispatch (turn_id : string)
| NaiveAwareComparison
| MissingTaskPayload.

Abbreviation Ttx := (ST TDB TurnError).

Definition set_turns (db : TDB) (m : gmap string TurnRow) : TDB :=
  {| t_conversations := t_conversations db; t_turns := m; t_cancellations := t_cancellations db;
     t_events := t_events db; t_tool_calls := t_tool_calls db; t_outbox := t_outbox db;
     t_dead_letters := t_dead_letters db; t_storage := t_storage db; t_next_uuid := t_next_uuid db |}.

Definition set_events (db : TDB) (l : list TurnEventRow) : TDB :=
  {| t_conversations := t_conversations db; t_turns := t_turns db; t_cancellations := t_cancellations db;
     t_events := l; t_tool_calls := t_tool_calls db; t_outbox := t_outbox db;
     t_dead_letters := t_dead_letters db; t_storage := t_storage db; t_next_uuid := t_next_uuid db |}.

Definition set_tool_calls (db : TDB) (l : list ToolCallRow) : TDB :=
  {| t_conversations := t_conversations db; t_turns := t_turns db; t_cancellations := t_cancellations db;
     t_events := t_events db; t_tool_calls := l; t_outbox := t_outbox db;
     t_dead_letters := t_dead_letters db; t_storage := t_storage db; t_next_uuid := t_next_uuid db |}.

Definition set_outbox (db : TDB) (l : list OutboxRow) : TDB :=
  {| t_conversations := t_conversations db; t_turns := t_turns db; t_cancellations := t_cancellations db;
     t_events := t_events db; t_tool_calls := t_tool_calls db; t_outbox := l;
     t_dead_letters := t_dead_letters db; t_storage := t_storage db; t_next_uuid := t_next_uuid db |}.

Definition set_dead_letters (db : TDB) (l : list DeadLetterRow) : TDB :=
  {| t_conversations := t_conversations db; t_turns := t_turns db; t_cancellations := t_cancellations db;
     t_events := t_events db; t_tool_calls := t_tool_calls db; t_outbox := t_outbox db;
     t_dead_letters := l; t_storage := t_storage db; t_next_uuid := t_next_uuid db |}.

Definition set_storage (db : TDB) (s : SDB) : TDB :=
  {| t_conversations := t_conversations db; t_turns := t_turns db; t_cancellations := t_cancellations db;
     t_events := t_events db; t_tool_calls := t_tool_calls db; t_outbox := t_outbox db;
     t_dead_letters := t_dead_letters db; t_storage := s; t_next_uuid := t_next_uuid db |}.

Definition set_tuuid (db : TDB) (n : nat) : TDB :=
  {| t_conversations := t_conversations db; t_turns := t_turns db; t_cancellations := t_cancellations db;
     t_events := t_events db; t_tool_calls := t_tool_calls db; t_outbox := t_outbox db;
     t_dead_letters := t_dead_letters db; t_storage := t_storage db; t_next_uuid := n |}.

(** ** Assignments to a Turn row, one per group of attributes set together *)

(** [status], [completed_at]; the lease is dropped but the heartbeat column stays. *)
Definition turn_cancelled (now_ : Z) (t : TurnRow) : TurnRow :=
  {| t_conversation_id := t_conversation_id t; t_workspace_id := t_workspace_id t; t_user_id := t_user_id t;
     t_status := "cancelled"; t_claim_generation := t_claim_generation t; t_claimed_by := None;
     t_lease_expires_at := None; t_heartbeat_at := t_heartbeat_at t; t_completed_at := Some now_;
     t_error_kind := t_error_kind t; t_error_message := t_error_message t |}.

Definition turn_claimed (worker_id : string) (lease_s now_ : Z) (t : TurnRow) : TurnRow :=
  {| t_conversation_id := t_conversation_id t; t_workspace_id := t_workspace_id t; t_user_id := t_user_id t;
     t_status := "running"; t_claim_generation := t_claim_generation t + 1; t_claimed_by := Some worker_id;
     t_lease_expires_at := Some (now_ + seconds lease_s); t_heartbeat_at := Some now_;
     t_completed_at := t_completed_at t; t_error_kind := t_error_kind t; t_error_message := t_error_message t |}.

Definition turn_renewed (lease_s now_ : Z) (t : TurnRow) : TurnRow :=
  {| t_conversation_id := t_conversation_id t; t_workspace_id := t_workspace_id t; t_user_id := t_user_id t;
     t_status := t_status t; t_claim_generation := t_claim_generation t; t_claimed_by := t_claimed_by t;
     t_lease_expires_at := Some (now_ + seconds lease_s); t_heartbeat_at := Some now_;
     t_completed_at := t_completed_at t; t_error_kind := t_error_kind t; t_error_message := t_error_message t |}.

Definition turn_exhausted (now_ : Z) (t : TurnRow) : TurnRow :=
  {| t_conversation_id := t_conversation_id t; t_workspace_id := t_workspace_id t; t_user_id := t_user_id t;
     t_status := "failed"; t_claim_generation := t_claim_generation t; t_claimed_by := None;
     t_lease_expires_at := None; t_heartbeat_at := None; t_completed_at := Some now_;
     t_error_kind := Some "turn_lease_recovery_exhausted";
     t_error_message := Some "turn lease recovery limit exceeded" |}.

Definition turn_handed_over (t : TurnRow) : TurnRow :=
  {| t_conversation_id := t_conversation_id t; t_workspace_id := t_workspace_id t; t_user_id := t_user_id t;
     t_status := "accepted"; t_claim_generation := t_claim_generation t + 1; t_claimed_by := None;
     t_lease_expires_at := None; t_heartbeat_at := None; t_completed_at := t_completed_at t;
     t_error_kind := t_error_kind t; t_error_message := t_error_message t |}.

(** ** Statements *)

(** A transaction given by its effect on the store. *)
Definition tstmt {A} (f : TDB -> result TurnError (A * TDB)) : Ttx A := f.

Section turn_store.
Context `{Uuids}.

(** The bytes the account-owned rows of all tables measure, as [_async_reconcile] adds them. *)
Variable measure : TDB -> string -> Z * Z.

Definition turn_uuid : Ttx string := fun db =>
  Ok (uuid4 (t_next_uuid db), set_tuuid db (S (t_next_uuid db))).

(** [select(TurnModel).where(TurnModel.id == turn_id).with_for_update()]. *)
Definition get_turn (turn_id : string) : Ttx (option TurnRow) := gets (fun db => t_turns db !! turn_id).

Definition update_turn (turn_id : string) (f : TurnRow -> TurnRow) : Ttx () :=
  modify (fun db => set_turns db (alter f turn_id (t_turns db))).

Definition is_cancelled (turn_id : string) : Ttx bool :=
  gets (fun db => bool_decide (turn_id ∈ t_cancellations db)).

(** A storage-ledger statement inside the Turn transaction; the ledger sees the sizes of the
    rows as they are at that moment. *)
Definition with_measure (s : SDB) (m : string -> Z * Z) : SDB :=
  {| s_accounts := s_accounts s; s_reservations := s_reservations s; s_roles := s_roles s;
     s_measured := m; s_disk_free := s_disk_free s; s_next_uuid := s_next_uuid s |}.

Definition on_storage {A} (m : Stx A) : Ttx A := fun db =>
  match m (with_measure (t_storage db) (measure db)) with
  | Ok (a, s) => Ok (a, set_storage db s)
  | Err e => Err (TurnStorageError e)
  end.

(** [_next_sequence]. *)
Definition next_sequence (turn_id : string) (db : TDB) : Z :=
  list_maxZ 0 (ev_sequence <$> List.filter (fun e => String.eqb (ev_turn_id e) turn_id) (t_events db)) + 1.

(** [session.add(TurnEventModel(...))], with its unique (turn, sequence). *)
Definition insert_event (turn_id : string) (generation : Z) (event_type : string) (payload : json)
  : Ttx TurnEventRow :=
  id ← turn_uuid;
  seq ← gets (next_sequence turn_id);
  let row := {| ev_id := id; ev_turn_id := turn_id; ev_sequence := seq; ev_claim_generation := generation;
                ev_event_type := event_type; ev_payload := payload |} in
  tstmt (fun db =>
    if existsb (fun e => String.eqb (ev_turn_id e) turn_id && (ev_sequence e =? seq)) (t_events db)
    then Err TurnIntegrityError
    else Ok (row, set_events db (t_events db ++ [row]))).

(** [UTC_TIMESTAMP(6)] of a statement run on this store: the clock of the database server,
    which need not agree with the worker's [utc_now()]. *)
Variable db_clock : TDB -> Z.

(** [enqueue]: both times are the server defaults of the columns, the identifier is the
    primary key of the table. *)
Definition enqueue (topic : string) (payload : json) : Ttx OutboxRow :=
  id ← turn_uuid;
  now_ ← gets db_clock;
  let row := {| ob_id := id; ob_topic := topic; ob_payload := payload; ob_status := "pending";
                ob_attempts := 0; ob_available_at := now_; ob_locked_by := None; ob_locked_until := None;
                ob_redis_message_id := None; ob_published_at := None; ob_created_at := now_ |} in
  tstmt (fun db =>
    if existsb (fun o => String.eqb (ob_id o) id) (t_outbox db) then Err TurnIntegrityError
    else Ok (row, set_outbox db (t_outbox db ++ [row]))).

Definition insert_dead_letter (turn_id : string) (reason : string) (payload : json) : Ttx () :=
  id ← turn_uuid;
  modify (fun db => set_dead_letters db (t_dead_letters db ++
    [{| dl_id := id; dl_turn_id := Some turn_id; dl_reason := reason; dl_payload := payload |}])).

(** The tool call of a Turn's operation. *)
Definition is_operation (turn_id operation_id : string) (c : ToolCallRow) : bool :=
  String.eqb (tc_turn_id c) turn_id && String.eqb (tc_operation_id c) operation_id.

Definition find_operation (turn_id operation_id : string) : Ttx (option ToolCallRow) :=
  gets (fun db => List.find (is_operation turn_id operation_id) (t_tool_calls db)).
End turn_store.
