(* ===== verification/TurnReliability.v ===== *)
(** * TurnReliability: Turn leases, fencing, recovery and the outbox

    [TurnReliabilityService] and [OutboxRelay] of [server/application/turn_reliability.py],
    each method the body it runs inside the caller's database transaction; [now_] is the
    method's [utc_now()].  Times stored by a column default
    come from the database's own clock [db_clock].  Rows another transaction holds are skipped through the predicate
    [unlocked].  Redis is an argument: what it answers to a command after the commands it
    has already accepted, [None] standing for a connection error. *)
From S2P Require Import Prelude Clock Json Storage TurnStore.
Local Open Scope Z_scope.

(** The outcomes of [claim_turn]: a generation, [CancelledTurnClaim()] or [None]. *)
Inductive claim_outcome := Claimed (generation : Z) | CancelledTurnClaim | NotClaimed.

Section reliability.
Context `{Uuids}.
Variable measure : TDB -> string -> Z * Z.
Variable db_clock : TDB -> Z.
Variables GLOBAL_DATA_LIMIT_BYTES MIN_FREE_BYTES : Z.

(** The ownership conditions of the claiming [SELECT ... JOIN]. *)
Definition claimable_by (db : TDB) (t : TurnRow) (user_id workspace_id : option string) : bool :=
  match t_conversations db !! t_conversation_id t with
  | None => false
  | Some c =>
      match user_id with
      | Some u => String.eqb (t_user_id t) u && String.eqb (cv_owner_user_id c) u
      | None => true
      end
      && match workspace_id with
         | Some w => String.eqb (t_workspace_id t) w && String.eqb (cv_workspace_id c) w
         | None => true
         end
  end.

(** The status test of [claim_turn].  A running row with a lease is compared with [now]:
    MySQL returns a [DATETIME] without a time zone and [utc_now()] has one, and Python refuses
    to order the two. *)
Definition claim_open (t : TurnRow) : result TurnError bool :=
  if String.eqb (t_status t) "accepted" then Ok true
  else if String.eqb (t_status t) "running" then
    match t_lease_expires_at t with Some _ => Err NaiveAwareComparison | None => Ok false end
  else Ok false.

(** [claim_turn]. *)
Definition claim_turn (turn_id worker_id : string) (lease_s : Z) (user_id workspace_id : option string)
  (now_ : Z) : Ttx claim_outcome :=
  turn ← gets (fun db => match t_turns db !! turn_id with
                         | Some t => if claimable_by db t user_id workspace_id then Some t else None
                         | None => None
                         end);
  match turn with
  | None => mret NotClaimed
  | Some t =>
      cancelled ← is_cancelled turn_id;
      if cancelled : bool then
        _ ← when (string_in (t_status t) ["accepted"; "running"]) (update_turn turn_id (turn_cancelled now_));
        mret CancelledTurnClaim
      else
        open_ ← lift (claim_open t);
        if negb open_ then mret NotClaimed
        else
          _ ← update_turn turn_id (turn_claimed worker_id lease_s now_);
          mret (Claimed (t_claim_generation t + 1))
  end.

(** [heartbeat]. *)
Definition turn_heartbeat (turn_id : string) (generation : Z) (worker_id : string) (lease_s now_ : Z) : Ttx bool :=
  turn ← get_turn turn_id;
  match turn with
  | None => raise (LostTurnClaimError turn_id)
  | Some t =>
      if negb (t_claim_generation t =? generation) || negb (bool_decide (t_claimed_by t = Some worker_id))
      then raise (LostTurnClaimError turn_id)
      else
        cancelled ← is_cancelled turn_id;
        if cancelled : bool then
          _ ← update_turn turn_id (turn_cancelled now_);
          mret false
        else
          _ ← update_turn turn_id (turn_renewed lease_s now_);
          mret true
  end.

(** The hold of the storage ledger around a write of [amount] core bytes, as every write of
    this service takes it: a fresh quota object of the Turn's user. *)
Definition hold_core (user_id : string) (amount : Z) (resource_type resource_key : string)
  : Ttx (option QuotaReservation * QuotaObj) :=
  on_storage measure (async_reserve GLOBAL_DATA_LIMIT_BYTES MIN_FREE_BYTES (async_new user_id None) CORE amount
                        resource_type (Some resource_key)).

Definition commit_core (hold : option QuotaReservation * QuotaObj) : Ttx () :=
  on_storage measure (async_finalize GLOBAL_DATA_LIMIT_BYTES hold.2 hold.1 None true).

(** The stuck Turns [recover_stuck_turns] selects. *)
Definition is_stuck (t : TurnRow) (now_ : Z) : bool :=
  String.eqb (t_status t) "running"
  && (match t_lease_expires_at t with Some e => e <? now_ | None => false end
      || (bool_decide (t_claimed_by t = None) && bool_decide (t_lease_expires_at t = None))).

Definition stuck_turns (unlocked : string -> bool) (now_ : Z) (db : TDB) : list (string * TurnRow) :=
  List.filter (fun kt : string * TurnRow => is_stuck kt.2 now_ && unlocked kt.1) (map_to_list (t_turns db)).

(** The payload of the newest dispatch message of a Turn. *)
Definition is_dispatch_of (turn_id : string) (o : OutboxRow) : bool :=
  String.eqb (ob_topic o) "turn.dispatch"
  && bool_decide (jstr (jget "turn_id" (ob_payload o)) = Some turn_id).

Definition newest_dispatch (turn_id : string) (db : TDB) : option json :=
  ob_payload <$> head (sort_by (fun a b => ob_created_at b <=? ob_created_at a)
                         (List.filter (is_dispatch_of turn_id) (t_outbox db))).

(** One recovered Turn: [Some] identifier when it was handed over, [None] when it was given up. *)
Definition recover_one (max_retries now_ : Z) (kt : string * TurnRow) : Ttx (option string) :=
  let '(turn_id, t) := kt in
  if max_retries * 2 <=? t_claim_generation t then
    _ ← update_turn turn_id (turn_exhausted now_);
    _ ← insert_dead_letter turn_id "turn lease recovery limit exceeded"
          (JObj [("generation", JNum (t_claim_generation t))]);
    mret None
  else
    let generation := t_claim_generation t + 1 in
    _ ← update_turn turn_id turn_handed_over;
    hold ← hold_core (t_user_id t) 256 "turn_event"
             (turn_id +:+ ":handover:" +:+ pretty generation);
    _ ← insert_event turn_id generation "turn.handover" (JObj [("reason", JStr "lease_expired")]);
    _ ← commit_core hold;
    original ← gets (newest_dispatch turn_id);
    match original with
    | Some payload =>
        match jstr (jget "task" payload) with
        | Some _ => _ ← enqueue db_clock "turn.dispatch" payload; mret (Some turn_id)
        | None => raise (NoRecoverableDispatch turn_id)
        end
    | None => raise (NoRecoverableDispatch turn_id)
    end.

Fixpoint recover_all (max_retries now_ : Z) (l : list (string * TurnRow)) : Ttx (list string) :=
  match l with
  | [] => mret []
  | kt :: l' =>
      r ← recover_one max_retries now_ kt;
      rs ← recover_all max_retries now_ l';
      mret (option_list r ++ rs)
  end.

(** [recover_stuck_turns]. *)
Definition recover_stuck_turns (max_retries : Z) (unlocked : string -> bool) (now_ : Z) : Ttx (list string) :=
  turns ← gets (stuck_turns unlocked now_);
  recover_all max_retries now_ turns.

(** [append_event]. *)
Definition append_event (turn_id : string) (generation : Z) (event_type : string) (payload : json)
  : Ttx TurnEventRow :=
  turn ← get_turn turn_id;
  match turn with
  | None => raise (LostTurnClaimError turn_id)
  | Some t =>
      if negb (t_claim_generation t =? generation) then raise (LostTurnClaimError turn_id)
      else
        hold ← hold_core (t_user_id t) (byte_length (dumps_default payload) + 256) "turn_event"
                 (turn_id +:+ ":" +:+ event_type);
        event ← insert_event turn_id generation event_type payload;
        _ ← commit_core hold;
        mret event
  end.

(** [record_operation]: the recorded call is returned to whoever asks; only a new one is
    fenced.  When the insert or the settlement fails the exception ends the transaction. *)
Definition record_operation (turn_id : string) (generation : Z) (operation_id tool_name : string)
  (request : json) : Ttx ToolCallRow :=
  existing ← find_operation turn_id operation_id;
  match existing with
  | Some call => mret call
  | None =>
      turn ← get_turn turn_id;
      match turn with
      | None => raise (LostTurnClaimError turn_id)
      | Some t =>
          if negb (t_claim_generation t =? generation) then raise (LostTurnClaimError turn_id)
          else
            hold ← hold_core (t_user_id t) (json_bytes request + byte_length tool_name + 256) "tool_call"
                     (turn_id +:+ ":" +:+ operation_id +:+ ":request");
            id ← turn_uuid;
            let row := {| tc_id := id; tc_turn_id := turn_id; tc_operation_id := operation_id;
                          tc_claim_generation := generation; tc_tool_name := tool_name;
                          tc_idempotency_key := turn_id +:+ ":" +:+ operation_id; tc_status := "pending";
                          tc_request := request; tc_result := None |} in
            _ ← modify (fun db => set_tool_calls db (t_tool_calls db ++ [row]));
            _ ← commit_core hold;
            mret row
      end
  end.

(** [operation.status = "succeeded"; operation.result_json = result]. *)
Definition call_succeeded (result : json) (c : ToolCallRow) : ToolCallRow :=
  {| tc_id := tc_id c; tc_turn_id := tc_turn_id c; tc_operation_id := tc_operation_id c;
     tc_claim_generation := tc_claim_generation c; tc_tool_name := tc_tool_name c;
     tc_idempotency_key := tc_idempotency_key c; tc_status := "succeeded"; tc_request := tc_request c;
     tc_result := Some result |}.

(** [complete_operation]. *)
Definition complete_operation (turn_id : string) (generation : Z) (operation_id : string) (result : json)
  : Ttx ToolCallRow :=
  turn ← get_turn turn_id;
  operation ← find_operation turn_id operation_id;
  match turn, operation with
  | Some t, Some call =>
      if negb (t_claim_generation t =? generation) || negb (tc_claim_generation call =? generation)
      then raise (LostTurnClaimError turn_id)
      else
        let result_delta := Z.max 1 (json_bytes result - json_bytes (default (JObj []) (tc_result call))) in
        hold ← hold_core (t_user_id t) result_delta "tool_call"
                 (turn_id +:+ ":" +:+ operation_id +:+ ":result");
        _ ← modify (fun db => set_tool_calls db
              (List.map (fun c => if is_operation turn_id operation_id c then call_succeeded result c else c)
                 (t_tool_calls db)));
        _ ← commit_core hold;
        mret (call_succeeded result call)
  | _, _ => raise (LostTurnClaimError turn_id)
  end.
End reliability.

(** ** The outbox relay *)

Inductive redis_command :=
| Publish (channel payload : string)
| XAdd (stream : string) (fields : list (string * string)).

Section relay.
Variables (stream relay_id authorization_channel : string) (lock_s : Z).

(** The identifier Redis answers with, given the commands it accepted before. *)
Variable redis : list redis_command -> redis_command -> option string.

(** The reading of [utc_now()] once these commands have been accepted. *)
Variable clock : list redis_command -> Z.

(** The [WHERE] clause of [publish_batch]. *)
Definition publishable (now_ : Z) (o : OutboxRow) : bool :=
  string_in (ob_status o) ["pending"; "retry"] && (ob_available_at o <=? now_)
  && match ob_locked_until o with None => true | Some u => u <? now_ end.

(** [ORDER BY available_at, id]. *)
Definition outbox_leb (a b : OutboxRow) : bool :=
  (ob_available_at a <? ob_available_at b)
  || ((ob_available_at a =? ob_available_at b) && string_leb (ob_id a) (ob_id b)).

Definition select_batch (limit : nat) (unlocked : string -> bool) (now_ : Z) (l : list OutboxRow)
  : list OutboxRow :=
  take limit (sort_by outbox_leb (List.filter (fun o => publishable now_ o && unlocked (ob_id o)) l)).

Definition row_publishing (now_ : Z) (o : OutboxRow) : OutboxRow :=
  {| ob_id := ob_id o; ob_topic := ob_topic o; ob_payload := ob_payload o; ob_status := "publishing";
     ob_attempts := ob_attempts o + 1; ob_available_at := ob_available_at o; ob_locked_by := Some relay_id;
     ob_locked_until := Some (now_ + seconds lock_s); ob_redis_message_id := ob_redis_message_id o;
     ob_published_at := ob_published_at o; ob_created_at := ob_created_at o |}.

Definition row_published (redis_id : string) (now_ : Z) (o : OutboxRow) : OutboxRow :=
  {| ob_id := ob_id o; ob_topic := ob_topic o; ob_payload := ob_payload o; ob_status := "published";
     ob_attempts := ob_attempts o; ob_available_at := ob_available_at o; ob_locked_by := ob_locked_by o;
     ob_locked_until := None; ob_redis_message_id := Some redis_id;
     ob_published_at := Some now_; ob_created_at := ob_created_at o |}.

(** The command a message is sent with. *)
Definition command_of (o : OutboxRow) : result TurnError redis_command :=
  if String.eqb (ob_topic o) "authorization.changed"
  then Ok (Publish authorization_channel (dumps_default (ob_payload o)))
  else if String.eqb (ob_topic o) "turn.dispatch" then
    match jstr (jget "task" (ob_payload o)) with
    | Some task => Ok (XAdd stream [("payload", task)])
    | None => Err MissingTaskPayload
    end
  else Ok (XAdd stream [("topic", ob_topic o); ("payload", dumps_default (ob_payload o))]).

(** [UPDATE] of one row by identifier. *)
Definition update_outbox (id : string) (f : OutboxRow -> OutboxRow) (l : list OutboxRow) : list OutboxRow :=
  List.map (fun o => if String.eqb (ob_id o) id then f o else o) l.

(** How a batch ends: done, a [ValueError], or the connection error of Redis. *)
Inductive relay_error := RelayValueError | RedisError.

(** The sending loop over the claimed rows: the table, and the commands Redis accepted, which
    no rollback takes back. *)
Fixpoint send_all (rows : list OutboxRow) (table : list OutboxRow) (log : list redis_command)
  : result relay_error (list OutboxRow) * list redis_command :=
  match rows with
  | [] => (Ok table, log)
  | o :: rows' =>
      match command_of o with
      | Err _ => (Err RelayValueError, log)
      | Ok c =>
          match redis log c with
          | None => (Err RedisError, log)
          | Some id => send_all rows' (update_outbox (ob_id o) (row_published id (clock (log ++ [c]))) table) (log ++ [c])
          end
      end
  end.

(** [publish_batch] in its transaction: on an error the table is rolled back. *)
Definition publish_batch (limit : nat) (unlocked : string -> bool) (now_ : Z) (table : list OutboxRow)
  (log : list redis_command) : result relay_error nat * list OutboxRow * list redis_command :=
  let rows := select_batch limit unlocked now_ table in
  let claimed := foldl (fun t o => update_outbox (ob_id o) (row_publishing now_) t) table rows in
  match send_all rows claimed log with
  | (Ok table', log') => (Ok (length rows), table', log')
  | (Err e, log') => (Err e, table, log')
  end.
End relay.

(** ** One round of the worker's relay loop

    [relay_forever] of [server/worker/runtime.py]: recovery and one batch inside a single
    transaction; [None] for the round's answer stands for the exception that ends it. *)
Section relay_loop.
Context `{Uuids}.
Variable measure : TDB -> string -> Z * Z.
Variable db_clock : TDB -> Z.
Variables GLOBAL_DATA_LIMIT_BYTES MIN_FREE_BYTES : Z.
Variables (stream relay_id authorization_channel : string) (lock_s : Z).
Variable redis : list redis_command -> redis_command -> option string.
Variable clock : list redis_command -> Z.

Definition relay_round (max_retries : Z) (limit : nat) (unlocked unlocked_row : string -> bool)
  (now_ now2 : Z) (db : TDB) (log : list redis_command) : option (list string * nat) * TDB * list redis_command :=
  match recover_stuck_turns measure db_clock GLOBAL_DATA_LIMIT_BYTES MIN_FREE_BYTES max_retries unlocked now_ db with
  | Err _ => (None, db, log)
  | Ok (recovered, db1) =>
      match publish_batch stream relay_id authorization_channel lock_s redis clock limit unlocked_row now2
              (t_outbox db1) log with
      | (Ok n, table, log') => (Some (recovered, n), set_outbox db1 table, log')
      | (Err _, _, log') => (None, db, log')
      end
  end.
End relay_loop.
