(* ===== verification/TurnSafety.v ===== *)
(** * TurnSafety: fencing, leases, recovery and event order

    Claim generations only grow, so a worker whose Turn was claimed again is refused by every
    fenced write; a Turn whose lease is running is neither claimed nor recovered; events are numbered
    without gaps; recovery hands every stuck Turn over or gives it up, as a specification of the
    rows it leaves says, and a single Turn that cannot be handed over stops the whole pass. *)
From S2P Require Import Prelude Clock Json Storage StorageSafety TurnStore TurnReliability.
Local Open Scope Z_scope.

Section safety.
Context `{Uuids}.
Variable measure : TDB -> string -> Z * Z.
Variable db_clock : TDB -> Z.
Variables GLOBAL MINFREE : Z.

Abbreviation hold_core' := (hold_core measure GLOBAL MINFREE).
Abbreviation commit_core' := (commit_core measure GLOBAL).
Abbreviation recover_one' := (recover_one measure db_clock GLOBAL MINFREE).
Abbreviation recover_all' := (recover_all measure db_clock GLOBAL MINFREE).
Abbreviation recover' := (recover_stuck_turns measure db_clock GLOBAL MINFREE).
Abbreviation append' := (append_event measure GLOBAL MINFREE).
Abbreviation record' := (record_operation measure GLOBAL MINFREE).
Abbreviation complete' := (complete_operation measure GLOBAL MINFREE).

(** ** What the statements leave alone *)

(** Every table but the storage ledger and the identifier supply. *)
Definition tables (db : TDB) :=
  (t_conversations db, t_turns db, t_cancellations db, t_events db, t_tool_calls db, t_outbox db, t_dead_letters db).

Lemma on_storage_ok {A} (m : Stx A) db a db' :
  on_storage measure m db = Ok (a, db') ->
  tables db' = tables db /\
  m (with_measure (t_storage db) (measure db)) = Ok (a, t_storage db').
Proof.
  unfold on_storage. destruct (m _) as [[x s]|e] eqn:Hm; [|done]. intros Hr. by injection Hr as <- <-.
Qed.

Lemma hold_core_tables u n rt rk db h db' : hold_core' u n rt rk db = Ok (h, db') -> tables db' = tables db.
Proof. by intros [? _]%on_storage_ok. Qed.

Lemma commit_core_tables h db u db' : commit_core' h db = Ok (u, db') -> tables db' = tables db.
Proof. by intros [? _]%on_storage_ok. Qed.

Lemma insert_event_ok tid g et p db e db' :
  insert_event tid g et p db = Ok (e, db') ->
  ev_turn_id e = tid /\ ev_sequence e = next_sequence tid db /\ ev_event_type e = et /\ ev_claim_generation e = g
  /\ db' = set_events (set_tuuid db (S (t_next_uuid db))) (t_events db ++ [e]).
Proof.
  unfold insert_event. intros (i & s & Hi & Hr)%st_bind_ok. injection Hi as <- <-.
  apply st_bind_ok in Hr as (n & s & Hn & Hr). injection Hn as <- <-. cbv zeta in Hr. unfold tstmt in Hr.
  destruct (existsb _ _); [done|]. by injection Hr as <- <-.
Qed.

(** A message as [enqueue] writes it, stamped by the database. *)
Definition fresh_message (o : OutboxRow) : Prop :=
  ob_status o = "pending" /\ (exists s, ob_available_at o = db_clock s) /\ ob_locked_until o = None.

Lemma enqueue_ok topic p db o db' :
  enqueue db_clock topic p db = Ok (o, db') ->
  ob_topic o = topic /\ ob_payload o = p /\ fresh_message o /\ ob_id o ∉ ob_id <$> t_outbox db
  /\ db' = set_outbox (set_tuuid db (S (t_next_uuid db))) (t_outbox db ++ [o]).
Proof.
  unfold enqueue. intros (i & s & Hi & Hr)%st_bind_ok. injection Hi as <- <-.
  apply st_bind_ok in Hr as (c & s & Hu & Hr). injection Hu as <- <-. cbv zeta in Hr. unfold tstmt in Hr.
  destruct (existsb _ _) eqn:Hex; [done|]. injection Hr as <- <-. do 2 (split; [done|]).
  split; [by split; [|split; [eexists|]]|]. split; [|done].
  intros (x & Hx & Hin)%list_elem_of_fmap. apply not_true_iff_false in Hex. apply Hex. apply existsb_exists.
  exists x. split; [by apply list_elem_of_In|]. cbn in Hx. rewrite <- Hx. apply String.eqb_refl.
Qed.

(** ** Claim generations *)

(** No Turn disappears and no generation goes down. *)
Definition gen_le (db db' : TDB) : Prop :=
  forall k t, t_turns db !! k = Some t -> exists t', t_turns db' !! k = Some t'
    /\ t_claim_generation t <= t_claim_generation t'.

#[local] Instance gen_le_preorder : PreOrder gen_le.
Proof.
  split.
  - intros db k t Hk. exists t. split; [done|lia].
  - intros a b c Hab Hbc k t Hk. destruct (Hab _ _ Hk) as (t' & Hk' & Hle).
    destruct (Hbc _ _ Hk') as (t2 & Hk2 & Hle2). exists t2. split; [done|lia].
Qed.

Lemma gen_le_turns db db' : t_turns db' = t_turns db -> gen_le db db'.
Proof. intros Hd k t Hk. exists t. rewrite Hd. split; [done|lia]. Qed.

Lemma gen_le_tables db db' : tables db' = tables db -> gen_le db db'.
Proof. intros Hd. apply gen_le_turns. unfold tables in Hd. congruence. Qed.

Lemma gen_le_update db k f :
  (forall t, t_claim_generation t <= t_claim_generation (f t)) ->
  gen_le db (set_turns db (alter f k (t_turns db))).
Proof.
  intros Hf j t Hj. simpl. destruct (decide (k = j)) as [->|Hne].
  - rewrite lookup_alter_eq, Hj. by eexists.
  - rewrite lookup_alter_ne by done. exists t. split; [done|lia].
Qed.

Abbreviation grows := (st_moves gen_le).

Lemma grows_update k f : (forall t, t_claim_generation t <= t_claim_generation (f t)) -> grows (update_turn k f).
Proof. intros Hf db b db' Hr. injection Hr as _ <-. by apply gen_le_update. Qed.

Lemma grows_modify f : (forall db, t_turns (f db) = t_turns db) -> grows (modify f : Ttx ()).
Proof. intros Hf db b db' Hr. injection Hr as _ <-. by apply gen_le_turns. Qed.

Lemma grows_on_storage {A} (m : Stx A) : grows (on_storage measure m).
Proof. intros db a db' [Ht _]%on_storage_ok. by apply gen_le_tables. Qed.

Lemma grows_insert_event tid g et p : grows (insert_event tid g et p).
Proof. intros db a db' (_ & _ & _ & _ & ->)%insert_event_ok. by apply gen_le_turns. Qed.

Lemma grows_enqueue topic p : grows (enqueue db_clock topic p).
Proof. intros db a db' (_ & _ & _ & _ & ->)%enqueue_ok. by apply gen_le_turns. Qed.

Lemma grows_dead_letter tid r p : grows (insert_dead_letter tid r p).
Proof.
  moves_bind; [|intros i; by apply grows_modify].
  intros db a db' Hr. injection Hr as _ <-. by apply gen_le_turns.
Qed.

Lemma grows_uuid : grows turn_uuid.
Proof. intros db a db' Hr. injection Hr as _ <-. by apply gen_le_turns. Qed.

Ltac grows_tac := cbv zeta; repeat first
  [ moves_leaf | apply grows_on_storage
  | apply grows_insert_event | apply grows_enqueue | apply grows_dead_letter | apply grows_uuid
  | apply grows_update; intros ?; simpl; lia | apply grows_modify; done
  | moves_bind; [|intros ?] | assumption | case_match ].

Lemma claim_grows tid w lease u ws now_ : grows (claim_turn tid w lease u ws now_).
Proof. unfold claim_turn, is_cancelled, when. grows_tac. Qed.

Lemma heartbeat_grows tid g w lease now_ : grows (turn_heartbeat tid g w lease now_).
Proof. unfold turn_heartbeat, get_turn, is_cancelled. grows_tac. Qed.

Lemma recover_one_grows mr now_ kt : grows (recover_one' mr now_ kt).
Proof. unfold recover_one, hold_core, commit_core. destruct kt. grows_tac. Qed.

Lemma recover_grows mr unlocked now_ : grows (recover' mr unlocked now_).
Proof.
  moves_bind; [moves_leaf|]. intros l. induction l as [|kt l IH]; cbn [recover_all]; [moves_leaf|].
  moves_bind; [apply recover_one_grows|]. intros r. moves_bind; [exact IH|]. intros rs. moves_leaf.
Qed.

Lemma append_grows tid g et p : grows (append' tid g et p).
Proof. unfold append_event, get_turn, hold_core, commit_core. grows_tac. Qed.

Lemma record_grows tid g op tool req : grows (record' tid g op tool req).
Proof. unfold record_operation, find_operation, get_turn, hold_core, commit_core. grows_tac. Qed.

Lemma complete_grows tid g op res : grows (complete' tid g op res).
Proof. unfold complete_operation, find_operation, get_turn, hold_core, commit_core. grows_tac. Qed.

(** ** The Turn store as a transition system

    One step is one transaction of the service, or a change by the rest of the server, which
    never touches claim generations, events or tool calls of existing Turns. *)
Inductive tstep (db : TDB) : TDB -> Prop :=
| tstep_claim tid w lease u ws now_ : tstep db (run_tx (claim_turn tid w lease u ws now_) db).2
| tstep_heartbeat tid g w lease now_ : tstep db (run_tx (turn_heartbeat tid g w lease now_) db).2
| tstep_recover mr unlocked now_ : tstep db (run_tx (recover' mr unlocked now_) db).2
| tstep_append tid g et p : tstep db (run_tx (append' tid g et p) db).2
| tstep_record tid g op tool req : tstep db (run_tx (record' tid g op tool req) db).2
| tstep_complete tid g op res : tstep db (run_tx (complete' tid g op res) db).2
| tstep_enqueue topic p : tstep db (run_tx (enqueue db_clock topic p) db).2
| tstep_environment db' :
    (forall k t, t_turns db !! k = Some t -> exists t', t_turns db' !! k = Some t'
       /\ t_claim_generation t' = t_claim_generation t) ->
    t_events db' = t_events db -> t_tool_calls db' = t_tool_calls db ->
    storage_reachable GLOBAL MINFREE (t_storage db') -> tstep db db'.

Inductive tsteps (db : TDB) : TDB -> Prop :=
| tsteps_refl : tsteps db db
| tsteps_step db' db'' : tsteps db db' -> tstep db' db'' -> tsteps db db''.

Lemma tstep_gen_le db db' : tstep db db' -> gen_le db db'.
Proof.
  intros [| | | | | | |db1 Henv _ _ _]; try moves_run.
  - apply claim_grows.
  - apply heartbeat_grows.
  - apply recover_grows.
  - apply append_grows.
  - apply record_grows.
  - apply complete_grows.
  - apply grows_enqueue.
  - intros k t Hk. destruct (Henv _ _ Hk) as (t' & Hk' & Hg). exists t'. split; [done|lia].
Qed.

Lemma tsteps_gen_le db db' : tsteps db db' -> gen_le db db'.
Proof. induction 1 as [|db' db'' _ IH Hs%tstep_gen_le]; [reflexivity|by etransitivity]. Qed.

(** ** Fencing *)

(** What a successful claim found and left. *)
Lemma claim_turn_claimed tid w lease u ws now_ db g db' :
  claim_turn tid w lease u ws now_ db = Ok (Claimed g, db') ->
  exists t, t_turns db !! tid = Some t /\ g = t_claim_generation t + 1 /\ t_status t = "accepted"
    /\ tid ∉ t_cancellations db
    /\ db' = set_turns db (alter (turn_claimed w lease now_) tid (t_turns db)).
Proof.
  unfold claim_turn. intros (ot & s & Hg & Hr)%st_bind_ok. injection Hg as <- <-.
  destruct (t_turns db !! tid) as [t|] eqn:Hk; [|done].
  destruct (claimable_by db t u ws); [|done].
  apply st_bind_ok in Hr as (c & s & Hg & Hr). injection Hg as Hc <-.
  destruct c; [by apply st_bind_ok in Hr as (? & ? & _ & ?)|]. apply bool_decide_eq_false in Hc.
  apply st_bind_ok in Hr as (b & s & Ho & Hr). unfold lift, claim_open in Ho.
  destruct (String.eqb_spec (t_status t) "accepted") as [Hst|_].
  2:{ destruct (String.eqb _ _); [destruct (t_lease_expires_at t); [done|]|]; injection Ho as <- <-; done. }
  injection Ho as <- <-. cbn [negb] in Hr. apply st_bind_ok in Hr as (x & s & Hu & Hr). injection Hu as _ <-. injection Hr as <- <-.
  exists t. by split.
Qed.

(** A stale generation is refused by every fenced call. *)
Definition refused (tid : string) (g : Z) (db : TDB) : Prop :=
  (forall w lease now_, turn_heartbeat tid g w lease now_ db = Err (LostTurnClaimError tid))
  /\ (forall et p, append' tid g et p db = Err (LostTurnClaimError tid))
  /\ (forall op res, complete' tid g op res db = Err (LostTurnClaimError tid))
  /\ (forall op tool req, find_operation tid op db = Ok (None, db) ->
        record' tid g op tool req db = Err (LostTurnClaimError tid)).

Lemma stale_refused tid g t db :
  t_turns db !! tid = Some t -> t_claim_generation t <> g -> refused tid g db.
Proof.
  intros Hk Hne. assert (Heq : (t_claim_generation t =? g) = false) by lia.
  unfold refused, turn_heartbeat, append_event, complete_operation, record_operation, get_turn, gets, mbind, st_bind.
  rewrite Hk. split; [|split; [|split]].
  - intros w lease now_. by rewrite Heq.
  - intros et p. by rewrite Heq.
  - intros op res. unfold find_operation, gets. destruct (List.find _ _); by rewrite ?Heq.
  - intros op tool req Hf. rewrite Hf. by rewrite Hk, Heq.
Qed.

(** C34: fencing: once a Turn is claimed with generation [g], any later claim of it gets a
    greater one, and from then on, whatever else happens, every fenced call that still
    presents [g] (heartbeat, event, completion, recording a new operation) is refused. *)
Theorem stale_worker_fenced tid w lease u ws now_ db g db1 db2 w2 lease2 u2 ws2 now2 g2 db3 db4 :
  claim_turn tid w lease u ws now_ db = Ok (Claimed g, db1) ->
  tsteps db1 db2 ->
  claim_turn tid w2 lease2 u2 ws2 now2 db2 = Ok (Claimed g2, db3) ->
  tsteps db3 db4 ->
  g < g2 /\ refused tid g db4.
Proof.
  intros (t & Hk & -> & _ & _ & ->)%claim_turn_claimed Hs12 (t2 & Hk2 & -> & _ & _ & ->)%claim_turn_claimed Hs34.
  apply tsteps_gen_le in Hs12, Hs34.
  destruct (Hs12 tid (turn_claimed w lease now_ t)) as (t2' & Hk2' & Hle); [simpl; by rewrite lookup_alter_eq, Hk|].
  rewrite Hk2 in Hk2'. injection Hk2' as <-. simpl in Hle.
  destruct (Hs34 tid (turn_claimed w2 lease2 now2 t2)) as (t4 & Hk4 & Hle4); [simpl; by rewrite lookup_alter_eq, Hk2|].
  simpl in Hle4. split; [lia|]. eapply stale_refused; [exact Hk4|lia].
Qed.

(** A claimed Turn is exclusive: until the row changes no other claim succeeds, at any
    time, and none writes anything but for a cancelled Turn; in fact the comparison with the
    lease raises.  While the lease has not lapsed recovery does not select the Turn. *)
Lemma lease_exclusive tid w lease u ws now_ db g db' w2 lease2 u2 ws2 now2 :
  claim_turn tid w lease u ws now_ db = Ok (Claimed g, db') ->
  (run_tx (claim_turn tid w2 lease2 u2 ws2 now2) db' = (Ok NotClaimed, db')
   \/ run_tx (claim_turn tid w2 lease2 u2 ws2 now2) db' = (Err NaiveAwareComparison, db'))
  /\ forall unlocked t, now2 <= now_ + seconds lease -> (tid, t) ∉ stuck_turns unlocked now2 db'.
Proof.
  intros (t & Hk & _ & _ & Hc & ->)%claim_turn_claimed.
  set (db' := set_turns db _).
  assert (Hk' : t_turns db' !! tid = Some (turn_claimed w lease now_ t)) by (simpl; by rewrite lookup_alter_eq, Hk).
  split.
  - unfold run_tx, claim_turn, is_cancelled, gets, mbind, st_bind. rewrite Hk'.
    destruct (claimable_by db' _ u2 ws2); [|by left]. rewrite bool_decide_eq_false_2 by done. by right.
  - intros unlocked t' Hnow Hin. unfold stuck_turns in Hin. apply list_elem_of_In, filter_In in Hin as [Hin Hst].
    apply list_elem_of_In, elem_of_map_to_list in Hin. rewrite Hk' in Hin. injection Hin as <-.
    assert (Hlt : (now_ + seconds lease <? now2) = false) by lia.
    unfold is_stuck in Hst. simpl in Hst. by rewrite Hlt in Hst.
Qed.

(** ** Operations *)

(** Recording an operation is idempotent: recording it again, under any generation and
    whatever request is presented, returns the recorded call and writes nothing. *)
Lemma record_operation_idempotent tid g op tool req db c db' g2 tool2 req2 :
  record' tid g op tool req db = Ok (c, db') ->
  run_tx (record' tid g2 op tool2 req2) db' = (Ok c, db').
Proof.
  intros Hr. unfold run_tx.
  assert (Hf : List.find (is_operation tid op) (t_tool_calls db') = Some c).
  { unfold record_operation in Hr. apply st_bind_ok in Hr as (oc & s & Hg & Hr). injection Hg as Hoc <-.
    destruct oc as [c0|]; [injection Hr as <- <-; done|].
    apply st_bind_ok in Hr as (ot & s & Hg & Hr). injection Hg as <- <-.
    destruct (t_turns db !! tid) as [t|]; [|done]. destruct (negb _); [done|]. st_run Hr. cbv zeta in Hr. st_run Hr.
    apply hold_core_tables in Hrun. injection Hrun0 as <- <-. injection Hrun1 as _ <-.
    apply commit_core_tables in Hrun2. injection Hr as <- <-.
    assert (Hcalls : t_tool_calls s2 = t_tool_calls s ++ [_]) by (unfold tables in Hrun2; injection Hrun2; intros; done).
    assert (Hcalls0 : t_tool_calls s = t_tool_calls db) by (unfold tables in Hrun; congruence).
    rewrite Hcalls, Hcalls0. clear -Hoc. induction (t_tool_calls db) as [|x l IH]; simpl in *.
    - unfold is_operation. simpl. by rewrite !String.eqb_refl.
    - destruct (is_operation tid op x); [done|]. by apply IH. }
  unfold record_operation, find_operation, gets, mbind, st_bind. by rewrite Hf.
Qed.

(** An operation recorded under an earlier claim can never be completed: the Turn's new
    owner is handed the recorded call but is refused its completion, as is everyone else. *)
Lemma handed_over_operation_refused tid op c t g res db :
  List.find (is_operation tid op) (t_tool_calls db) = Some c ->
  t_turns db !! tid = Some t -> tc_claim_generation c < t_claim_generation t ->
  (forall tool req, record' tid (t_claim_generation t) op tool req db = Ok (c, db))
  /\ complete' tid g op res db = Err (LostTurnClaimError tid).
Proof.
  intros Hf Hk Hlt.
  unfold record_operation, complete_operation, find_operation, get_turn, gets, mbind, st_bind. rewrite Hf, Hk.
  split; [done|]. destruct (t_claim_generation t =? g) eqn:Hg; [|done].
  by replace (tc_claim_generation c =? g) with false by lia.
Qed.

(** ** Events *)

Definition events_of (tid : string) (l : list TurnEventRow) : list TurnEventRow :=
  List.filter (fun e => String.eqb (ev_turn_id e) tid) l.

(** The events of every Turn are numbered 1, 2, 3, ... in the order they were written. *)
Definition numbered (l : list TurnEventRow) : Prop :=
  forall tid, ev_sequence <$> events_of tid l = seqZ 1 (Z.of_nat (length (events_of tid l))).

Lemma list_maxZ_seqZ n : list_maxZ 0 (seqZ 1 (Z.of_nat n)) = Z.of_nat n.
Proof.
  induction n as [|n IH]; [done|]. rewrite seqZ_S.
  unfold list_maxZ in *. rewrite foldr_app. simpl.
  assert (Hmax : forall l x, 0 <= x -> foldr Z.max x l = Z.max x (foldr Z.max 0 l)).
  { induction l as [|y l IHl]; intros x Hx; simpl; [lia|]. rewrite IHl by done. lia. }
  rewrite Hmax, IH by lia. lia.
Qed.

Lemma next_sequence_numbered tid db :
  numbered (t_events db) -> next_sequence tid db = Z.of_nat (length (events_of tid (t_events db))) + 1.
Proof. intros Hn. unfold next_sequence. fold (events_of tid (t_events db)). by rewrite Hn, list_maxZ_seqZ. Qed.

Lemma numbered_app l e :
  numbered l -> ev_sequence e = Z.of_nat (length (events_of (ev_turn_id e) l)) + 1 -> numbered (l ++ [e]).
Proof.
  intros Hn He tid. unfold events_of in *. rewrite List.filter_app. simpl.
  destruct (String.eqb_spec (ev_turn_id e) tid) as [<-|Hne].
  - rewrite fmap_app, length_app. simpl length. rewrite Nat.add_1_r, seqZ_S.
    pose proof (Hn (ev_turn_id e)) as Hs. unfold events_of in Hs. rewrite Hs. simpl. rewrite He. f_equal. f_equal. lia.
  - rewrite app_nil_r. apply Hn.
Qed.

Definition numbered_db (db : TDB) : Prop := numbered (t_events db).

Lemma numbered_events db db' : t_events db' = t_events db -> numbered_db db -> numbered_db db'.
Proof. unfold numbered_db. by intros ->. Qed.

Lemma numbered_on_storage {A} (m : Stx A) : st_inv numbered_db (on_storage measure m).
Proof.
  intros db a db' Hn [Ht _]%on_storage_ok. eapply numbered_events; [|exact Hn]. unfold tables in Ht. congruence.
Qed.

Lemma numbered_insert_event tid g et p : st_inv numbered_db (insert_event tid g et p).
Proof.
  intros db e db' Hn (Ht & Hs & _ & _ & ->)%insert_event_ok. unfold numbered_db. simpl.
  apply numbered_app; [done|]. rewrite Hs, Ht. by apply next_sequence_numbered.
Qed.

Lemma numbered_enqueue topic p : st_inv numbered_db (enqueue db_clock topic p).
Proof. intros db o db' Hn (_ & _ & _ & _ & ->)%enqueue_ok. exact Hn. Qed.

Lemma numbered_update k f : st_inv numbered_db (update_turn k f).
Proof. by apply st_inv_modify. Qed.

Lemma numbered_dead_letter tid r p : st_inv numbered_db (insert_dead_letter tid r p).
Proof.
  apply st_inv_bind; [|intros i; by apply st_inv_modify].
  intros db a db' Hn Hr. injection Hr as _ <-. exact Hn.
Qed.

Lemma numbered_uuid : st_inv numbered_db turn_uuid.
Proof. intros db a db' Hn Hr. injection Hr as _ <-. exact Hn. Qed.

Ltac numbered_tac := cbv zeta; repeat first
  [ apply numbered_on_storage | apply numbered_insert_event | apply numbered_enqueue | apply numbered_update
  | apply numbered_dead_letter | apply numbered_uuid | apply st_inv_modify; done | assumption | st_inv_step ].

Lemma recover_one_numbered mr now_ kt : st_inv numbered_db (recover_one' mr now_ kt).
Proof. unfold recover_one, hold_core, commit_core. destruct kt. numbered_tac. Qed.

Lemma recover_all_numbered mr now_ l : st_inv numbered_db (recover_all' mr now_ l).
Proof.
  induction l as [|kt l IH]; cbn [recover_all]; [apply st_inv_ret|].
  apply st_inv_bind; [apply recover_one_numbered|]. intros r.
  apply st_inv_bind; [exact IH|]. intros rs. apply st_inv_ret.
Qed.

Lemma tstep_numbered db db' : numbered_db db -> tstep db db' -> numbered_db db'.
Proof.
  intros Hn [| | | | | | |db1 _ He _ _]; try (apply run_tx_inv; [|exact Hn]).
  - unfold claim_turn, is_cancelled. numbered_tac.
  - unfold turn_heartbeat, get_turn, is_cancelled. numbered_tac.
  - apply st_inv_bind; [apply st_inv_gets|]. intros l. apply recover_all_numbered.
  - unfold append_event, get_turn, hold_core, commit_core. numbered_tac.
  - unfold record_operation, find_operation, get_turn, hold_core, commit_core. numbered_tac.
  - unfold complete_operation, find_operation, get_turn, hold_core, commit_core. numbered_tac.
  - apply numbered_enqueue.
  - by eapply numbered_events.
Qed.

(** The events of a Turn are numbered consecutively from 1, in the order in which they
    were written, whoever wrote them and however often the Turn changed hands. *)
Lemma events_numbered db db' tid :
  t_events db = [] -> tsteps db db' ->
  ev_sequence <$> events_of tid (t_events db') = seqZ 1 (Z.of_nat (length (events_of tid (t_events db')))).
Proof.
  intros He Hs. assert (Hn : numbered_db db').
  { induction Hs as [|db1 db2 _ IH Hs]; [|by eapply tstep_numbered].
    intros t. unfold numbered_db. by rewrite He. }
  apply Hn.
Qed.

(** ** Recovery *)

(** What recovery is for: a running Turn whose lease lapsed before [now_], or that has neither
    owner nor lease. *)
Definition abandoned (now_ : Z) (t : TurnRow) : Prop :=
  t_status t = "running"
  /\ ((exists e, t_lease_expires_at t = Some e /\ e < now_)
      \/ (t_claimed_by t = None /\ t_lease_expires_at t = None)).

Definition same_turn (t t' : TurnRow) : Prop :=
  t_conversation_id t' = t_conversation_id t /\ t_workspace_id t' = t_workspace_id t
  /\ t_user_id t' = t_user_id t.

(** Nobody owns the row. *)
Definition unowned (t : TurnRow) : Prop :=
  t_claimed_by t = None /\ t_lease_expires_at t = None /\ t_heartbeat_at t = None.

(** The row can be claimed again, under a generation its old owner does not have. *)
Definition handed_over (t t' : TurnRow) : Prop :=
  same_turn t t' /\ t_status t' = "accepted" /\ t_claim_generation t' = t_claim_generation t + 1 /\ unowned t'
  /\ t_completed_at t' = t_completed_at t /\ t_error_kind t' = t_error_kind t
  /\ t_error_message t' = t_error_message t.

(** The row has failed for good. *)
Definition given_up (now_ : Z) (t t' : TurnRow) : Prop :=
  same_turn t t' /\ t_status t' = "failed" /\ t_claim_generation t' = t_claim_generation t /\ unowned t'
  /\ t_completed_at t' = Some now_ /\ t_error_kind t' = Some "turn_lease_recovery_exhausted"
  /\ t_error_message t' = Some "turn lease recovery limit exceeded".

Definition dispatch_of (tid : string) (o : OutboxRow) : Prop :=
  ob_topic o = "turn.dispatch" /\ jstr (jget "turn_id" (ob_payload o)) = Some tid.

(** The payload of a dispatch message of the Turn than which none was created later. *)
Definition last_dispatch (tid : string) (db : TDB) (p : json) : Prop :=
  exists o, o ∈ t_outbox db /\ ob_payload o = p /\ dispatch_of tid o
    /\ forall x, x ∈ t_outbox db -> dispatch_of tid x -> ob_created_at x <= ob_created_at o.

Definition exhausted (mr : Z) (t : TurnRow) : bool := mr * 2 <=? t_claim_generation t.

(** A Turn with a dispatch message whose task can be sent again. *)
Definition redispatchable (tid : string) (db : TDB) : Prop :=
  exists p task, newest_dispatch tid db = Some p /\ jstr (jget "task" p) = Some task.

Lemma is_dispatch_of_iff tid o : is_dispatch_of tid o = true <-> dispatch_of tid o.
Proof. unfold is_dispatch_of, dispatch_of. by rewrite andb_true_iff, String.eqb_eq, bool_decide_eq_true. Qed.

Lemma newest_dispatch_last tid db p : newest_dispatch tid db = Some p -> last_dispatch tid db p.
Proof.
  unfold newest_dispatch. intros (o & Ho & ->)%fmap_Some.
  pose proof (sort_by_perm (fun a b => ob_created_at b <=? ob_created_at a)
                (List.filter (is_dispatch_of tid) (t_outbox db))) as Hp.
  pose proof (sort_by_sorted (fun a b => ob_created_at b <=? ob_created_at a)
                (List.filter (is_dispatch_of tid) (t_outbox db)) ltac:(intros ??; cbn; lia)) as Hs.
  destruct (sort_by _ _) as [|x l]; [done|]. injection Ho as ->.
  assert (Hin : forall y, y ∈ o :: l <-> y ∈ t_outbox db /\ dispatch_of tid y).
  { intros y. by rewrite Hp, list_elem_of_In, filter_In, <- list_elem_of_In, is_dispatch_of_iff. }
  destruct (proj1 (Hin o) (list_elem_of_here _ _)) as [Ho Hd]. exists o. do 3 (split; [done|]).
  apply Sorted_StronglySorted in Hs; [|intros ???; lia]. inversion_clear Hs as [|? ? _ Hall].
  intros y Hy Hdy. assert (Hyl : y ∈ o :: l) by by apply Hin.
  apply elem_of_cons in Hyl as [->|Hyl]; [lia|]. rewrite Forall_forall in Hall. specialize (Hall _ Hyl). lia.
Qed.

Lemma newest_dispatch_is tid db p :
  newest_dispatch tid db = Some p -> jstr (jget "turn_id" p) = Some tid.
Proof. by intros (o & _ & <- & [_ Hd] & _)%newest_dispatch_last. Qed.

Lemma newest_dispatch_outbox tid db db' :
  t_outbox db' = t_outbox db -> newest_dispatch tid db' = newest_dispatch tid db.
Proof. unfold newest_dispatch. by intros ->. Qed.

(** A message of another Turn does not become its newest dispatch. *)
Lemma newest_dispatch_other tid tid' db db' o :
  t_outbox db' = t_outbox db ++ [o] -> jstr (jget "turn_id" (ob_payload o)) = Some tid' -> tid' <> tid ->
  newest_dispatch tid db' = newest_dispatch tid db.
Proof.
  intros Ho Hd Hne. unfold newest_dispatch. rewrite Ho, List.filter_app. simpl.
  unfold is_dispatch_of at 2. rewrite Hd, bool_decide_eq_false_2, andb_false_r by congruence. by rewrite app_nil_r.
Qed.

(** The event a handover writes. *)
Definition handover_event (tid : string) (generation : Z) (e : TurnEventRow) : Prop :=
  ev_turn_id e = tid /\ ev_event_type e = "turn.handover" /\ ev_claim_generation e = generation.

(** The dead letter of a Turn that is given up. *)
Definition lease_letter (tid : string) (d : DeadLetterRow) : Prop :=
  dl_turn_id d = Some tid /\ dl_reason d = "turn lease recovery limit exceeded".

Definition redispatch (tid : string) (p : json) (o : OutboxRow) : Prop :=
  dispatch_of tid o /\ ob_payload o = p /\ fresh_message o.

Lemma recover_one_ok mr now_ tid t db r db' :
  recover_one' mr now_ (tid, t) db = Ok (r, db') ->
  (exists f, t_turns db' = alter f tid (t_turns db)
     /\ (if exhausted mr t then given_up now_ t (f t) else handed_over t (f t)))
  /\ r = (if exhausted mr t then None else Some tid)
  /\ if exhausted mr t
     then t_outbox db' = t_outbox db /\ t_events db' = t_events db
          /\ exists d, t_dead_letters db' = t_dead_letters db ++ [d] /\ lease_letter tid d
     else t_dead_letters db' = t_dead_letters db
          /\ (exists e, t_events db' = t_events db ++ [e] /\ handover_event tid (t_claim_generation t + 1) e)
          /\ exists p task o, newest_dispatch tid db = Some p /\ jstr (jget "task" p) = Some task
            /\ t_outbox db' = t_outbox db ++ [o] /\ ob_id o ∉ ob_id <$> t_outbox db /\ redispatch tid p o.
Proof.
  intros Hr. unfold recover_one in Hr. fold (exhausted mr t) in Hr. destruct (exhausted mr t).
  - apply st_bind_ok in Hr as (u & s & Hu & Hr). injection Hu as _ <-.
    apply st_bind_ok in Hr as (u1 & s1 & Hd & Hr). injection Hr as <- <-.
    unfold insert_dead_letter in Hd. apply st_bind_ok in Hd as (i & s2 & Hi & Hd).
    injection Hi as <- <-. injection Hd as _ <-. simpl.
    split; [eexists; split; [reflexivity|]; by split_and!|]. do 3 (split; [done|]). by eexists.
  - cbv zeta in Hr. st_run Hr. injection Hrun as _ <-.
    apply hold_core_tables in Hrun0. apply insert_event_ok in Hrun1 as (He1 & _ & He2 & He3 & ->).
    apply commit_core_tables in Hrun2. injection Hrun3 as <- <-.
    unfold tables in Hrun0, Hrun2. simpl in Hrun0, Hrun2. injection Hrun0 as ? Ht0 ? He0 ? Ho0 Hd0.
    injection Hrun2 as ? Ht2 ? He2' ? Ho2 Hd2.
    assert (Hnd : newest_dispatch tid s2 = newest_dispatch tid db)
      by (apply newest_dispatch_outbox; simpl in *; congruence).
    rewrite Hnd in Hr. destruct (newest_dispatch tid db) as [p|] eqn:Hp; [|done].
    destruct (jstr (jget "task" p)) as [task|] eqn:Htask; [|done]. st_run Hr.
    apply enqueue_ok in Hrun as (Htop & Hpay & Hst & Hid & ->). injection Hr as <- <-. simpl in *.
    split; [exists turn_handed_over; split; [congruence|by split_and!]|]. split; [done|].
    split; [congruence|]. split; [exists a1; split; [congruence|done]|].
    exists p, task. eexists. do 2 (split; [done|]).
    assert (Ho : t_outbox s2 = t_outbox db) by congruence. rewrite Ho in *. split; [done|]. split; [done|].
    split; [|done]. split; [done|]. rewrite Hpay. by eapply newest_dispatch_is.
Qed.

(** What one recovered Turn leaves to the others. *)
Definition logs_grow (db db' : TDB) : Prop :=
  (exists l, t_outbox db' = t_outbox db ++ l) /\ (exists l, t_events db' = t_events db ++ l)
  /\ (exists l, t_dead_letters db' = t_dead_letters db ++ l).

#[local] Instance logs_grow_preorder : PreOrder logs_grow.
Proof.
  split.
  - intros db. split_and!; exists []; by rewrite app_nil_r.
  - intros a b c ([l1 H1] & [l2 H2] & [l3 H3]) ([k1 K1] & [k2 K2] & [k3 K3]).
    split_and!; eexists; [rewrite K1, H1|rewrite K2, H2|rewrite K3, H3]; by rewrite <- app_assoc.
Qed.

Lemma recover_one_frame mr now_ tid t db r db' :
  recover_one' mr now_ (tid, t) db = Ok (r, db') ->
  logs_grow db db'
  /\ (forall k, k <> tid -> t_turns db' !! k = t_turns db !! k)
  /\ (forall k, k <> tid -> newest_dispatch k db' = newest_dispatch k db).
Proof.
  intros ((f & Hturns & _) & _ & Hcase)%recover_one_ok. unfold logs_grow. destruct (exhausted mr t).
  - destruct Hcase as (Ho & He & d & Hd & _).
    split; [split_and!; [exists []|exists []|exists [d]]; by rewrite ?app_nil_r|].
    split; intros k Hne; [rewrite Hturns; by apply lookup_alter_ne|by apply newest_dispatch_outbox].
  - destruct Hcase as (Hd & (e & He & _) & p & task & o & Hn & _ & Ho & _ & (_ & <- & _)).
    split; [split_and!; [exists [o]|exists [e]|exists []]; by rewrite ?app_nil_r|].
    split; intros k Hne; [rewrite Hturns; by apply lookup_alter_ne|].
    eapply newest_dispatch_other; [exact Ho|by eapply newest_dispatch_is|done].
Qed.

(** What recovery made of a selected Turn; [newest] holds of the payload to dispatch again. *)
Definition recovered (mr now_ : Z) (ids : list string) (newest : json -> Prop) (db' : TDB)
  (tid : string) (t : TurnRow) : Prop :=
  exists t', t_turns db' !! tid = Some t' /\
    if mr * 2 <=? t_claim_generation t
    then given_up now_ t t' /\ tid ∉ ids /\ exists d, d ∈ t_dead_letters db' /\ lease_letter tid d
    else handed_over t t' /\ tid ∈ ids
         /\ (exists e, e ∈ t_events db' /\ handover_event tid (t_claim_generation t') e)
         /\ exists p task o, newest p /\ jstr (jget "task" p) = Some task /\ o ∈ t_outbox db' /\ redispatch tid p o.

Definition newest_is (tid : string) (db : TDB) (p : json) : Prop := newest_dispatch tid db = Some p.

Lemma recover_one_recovered mr now_ tid t db r db' :
  t_turns db !! tid = Some t -> recover_one' mr now_ (tid, t) db = Ok (r, db') ->
  recovered mr now_ (option_list r) (newest_is tid db) db' tid t.
Proof.
  intros Hk ((f & Hturns & Hf) & -> & Hcase)%recover_one_ok. exists (f t).
  rewrite Hturns, lookup_alter_eq, Hk. split; [done|]. fold (exhausted mr t). destruct (exhausted mr t).
  - destruct Hcase as (_ & _ & d & -> & Hd). split; [done|]. split; [set_solver|]. exists d. split; [set_solver|done].
  - destruct Hcase as (_ & (e & -> & He) & p & task & o & Hn & Ht & -> & _ & Hd).
    split; [done|]. split; [set_solver|]. split.
    + exists e. destruct Hf as (_ & _ & -> & _). split; [set_solver|done].
    + exists p, task, o. do 2 (split; [done|]). split; [set_solver|done].
Qed.

Lemma recovered_mono mr now_ ids ids' (new new' : json -> Prop) db2 db3 tid t :
  recovered mr now_ ids new db2 tid t -> logs_grow db2 db3 ->
  t_turns db3 !! tid = t_turns db2 !! tid -> (tid ∈ ids <-> tid ∈ ids') -> (forall p, new p -> new' p) ->
  recovered mr now_ ids' new' db3 tid t.
Proof.
  intros (t' & Hk & Hc) ([lo Ho] & [le He] & [ld Hd]) Hsame Hids Hnew. exists t'. split; [by rewrite Hsame|].
  destruct (mr * 2 <=? t_claim_generation t).
  - destruct Hc as (? & ? & d & ? & ?). split; [done|]. split; [tauto|]. exists d. rewrite Hd. split; [set_solver|done].
  - destruct Hc as (? & ? & (e & ? & ?) & p & task & o & ? & ? & ? & ?). split; [done|]. split; [tauto|].
    split; [exists e; rewrite He; split; [set_solver|done]|].
    exists p, task, o. rewrite Ho. split; [by apply Hnew|]. split; [done|]. split; [set_solver|done].
Qed.

(** The loop: every listed Turn is recovered, the others keep their row. *)
Lemma recover_all_ok mr now_ l : forall db ids db',
  NoDup l.*1 -> (forall k t, (k, t) ∈ l -> t_turns db !! k = Some t) ->
  recover_all' mr now_ l db = Ok (ids, db') ->
  (forall k t, (k, t) ∈ l -> recovered mr now_ ids (newest_is k db) db' k t)
  /\ (forall k, k ∉ l.*1 -> t_turns db' !! k = t_turns db !! k)
  /\ logs_grow db db' /\ (forall k, k ∈ ids -> k ∈ l.*1).
Proof.
  induction l as [|[tid t] l IH]; intros db ids db' Hnd Hin Hr.
  - injection Hr as <- <-. split; [set_solver|]. split; [done|]. split; [reflexivity|set_solver].
  - cbn [recover_all] in Hr. apply st_bind_ok in Hr as (r & s & H1 & Hr). apply st_bind_ok in Hr as (rs & s2 & H2 & Hr).
    injection Hr as <- <-. cbn in Hnd. apply NoDup_cons in Hnd as [Hni Hnd].
    pose proof (recover_one_frame _ _ _ _ _ _ _ H1) as (Hg & Hturns & Hnew).
    assert (Hne : forall k t', (k, t') ∈ l -> k <> tid).
    { intros k t' Hk ->. apply Hni. apply list_elem_of_fmap. by exists (tid, t'). }
    assert (Hrec : recovered mr now_ (option_list r) (newest_is tid db) s tid t)
      by (eapply recover_one_recovered; [apply Hin; set_solver|done]).
    destruct (IH s rs s2 Hnd) as (Hl & Hrest & Hg2 & Hids); [|done|].
    { intros k t' Hk. rewrite Hturns by by eapply Hne. apply Hin. set_solver. }
    assert (Hr_only : forall k, k ∈ option_list r -> k = tid).
    { apply recover_one_ok in H1 as (_ & -> & _). intros k. destruct (exhausted mr t); set_solver. }
    split; [|split; [|split; [by etransitivity|]]].
    + intros k t' [Heq|Hk]%elem_of_cons.
      * injection Heq as -> ->. eapply recovered_mono; [exact Hrec|done|by apply Hrest| |done].
        rewrite elem_of_app. split; [tauto|]. intros [?|Hk%Hids]; [done|by destruct Hni].
      * assert (k <> tid) by by eapply Hne. eapply recovered_mono; [by apply Hl|reflexivity|done| |].
        -- rewrite elem_of_app. split; [tauto|]. by intros [Hk'%Hr_only|?].
        -- intros p. unfold newest_is. by rewrite Hnew.
    + intros k Hk. cbn in Hk. rewrite Hrest, Hturns by set_solver. done.
    + intros k [Hk%Hr_only|Hk%Hids]%elem_of_app; cbn; set_solver.
Qed.

Lemma stuck_turns_elem unlocked now_ db k t :
  (k, t) ∈ stuck_turns unlocked now_ db
  <-> t_turns db !! k = Some t /\ abandoned now_ t /\ unlocked k = true.
Proof.
  unfold stuck_turns, is_stuck, abandoned. rewrite list_elem_of_In, filter_In, <- list_elem_of_In, elem_of_map_to_list.
  cbn. rewrite !andb_true_iff, orb_true_iff, andb_true_iff, String.eqb_eq, !bool_decide_eq_true.
  assert (Hl : match t_lease_expires_at t with Some e => e <? now_ | None => false end = true
               <-> exists e, t_lease_expires_at t = Some e /\ e < now_).
  { destruct (t_lease_expires_at t) as [e|]; [|split; [done|by intros (? & ? & _)]].
    rewrite Z.ltb_lt. split; [by exists e|by intros (? & [= ->] & ?)]. }
  by rewrite Hl.
Qed.

Lemma stuck_turns_lookup unlocked now_ db k t : (k, t) ∈ stuck_turns unlocked now_ db -> t_turns db !! k = Some t.
Proof. by intros (? & _)%stuck_turns_elem. Qed.

Lemma stuck_turns_NoDup unlocked now_ db : NoDup (stuck_turns unlocked now_ db).*1.
Proof.
  unfold stuck_turns. pose proof (NoDup_fst_map_to_list (t_turns db)) as Hnd. revert Hnd.
  generalize (map_to_list (t_turns db)). intros l. induction l as [|kt l IH]; [done|].
  cbn. intros [Hni Hnd]%NoDup_cons. destruct (_ && _); [|by apply IH]. cbn. apply NoDup_cons. split; [|by apply IH].
  intros (x & Hx & Hin)%list_elem_of_fmap. apply Hni. apply list_elem_of_fmap. exists x. split; [done|].
  apply list_elem_of_In in Hin. apply filter_In in Hin as [Hin _]. by apply list_elem_of_In.
Qed.

Lemma recover_stuck_turns_ok mr unlocked now_ db ids db' :
  recover' mr unlocked now_ db = Ok (ids, db') ->
  (forall k t, (k, t) ∈ stuck_turns unlocked now_ db -> recovered mr now_ ids (newest_is k db) db' k t)
  /\ (forall k, k ∉ (stuck_turns unlocked now_ db).*1 -> t_turns db' !! k = t_turns db !! k)
  /\ logs_grow db db'.
Proof.
  unfold recover_stuck_turns. intros (l & s & Hg & Hr)%st_bind_ok. injection Hg as <- <-.
  destruct (recover_all_ok _ _ _ _ _ _ (stuck_turns_NoDup unlocked now_ db)
              (stuck_turns_lookup unlocked now_ db) Hr) as (Hl & Hrest & Hg & _). done.
Qed.

(** C35: a recovery pass that returns has recovered every running Turn it could lock whose
    lease had lapsed or that had neither owner nor lease.  Within the retry limit the row is
    [accepted], under the next generation, without owner, lease and heartbeat, everything else
    kept; the Turn is in the returned list, its log has the handover event of the new
    generation, and the outbox has a pending message with the payload of its newest dispatch
    message.  Beyond the limit the row has failed with the time and the error of the recovery,
    keeps its generation, has no owner, lease or heartbeat, and the Turn has a dead letter.
    Every other Turn keeps its row. *)
Theorem recovery_recovers_every_turn mr unlocked now_ db ids db' :
  recover' mr unlocked now_ db = Ok (ids, db') ->
  (forall k t, t_turns db !! k = Some t -> abandoned now_ t -> unlocked k = true ->
     recovered mr now_ ids (last_dispatch k db) db' k t)
  /\ forall k, (forall t, t_turns db !! k = Some t -> abandoned now_ t -> unlocked k = true -> False) ->
       t_turns db' !! k = t_turns db !! k.
Proof.
  intros (Hrec & Hrest & _)%recover_stuck_turns_ok. split.
  - intros k t Hk Ha Hu. eapply recovered_mono; [apply Hrec; by apply stuck_turns_elem|reflexivity|done|done|].
    intros p. apply newest_dispatch_last.
  - intros k Hk. apply Hrest. intros ([k' t] & -> & (? & ? & ?)%stuck_turns_elem)%list_elem_of_fmap. by eapply Hk.
Qed.

(** A stuck Turn without a dispatch message to send again makes the pass raise. *)
Lemma poisoned_turn_raises mr unlocked now_ db tid t :
  (tid, t) ∈ stuck_turns unlocked now_ db -> exhausted mr t = false -> ~ redispatchable tid db ->
  exists e, recover' mr unlocked now_ db = Err e.
Proof.
  intros Hin Hex Hno. destruct (recover' mr unlocked now_ db) as [[ids db']|e] eqn:Hr; [|by exists e].
  apply recover_stuck_turns_ok in Hr as [Hl _]. destruct (Hl _ _ Hin) as (t' & _ & Hc).
  fold (exhausted mr t) in Hc. rewrite Hex in Hc. destruct Hc as (_ & _ & _ & p & task & o & Hn & Ht & _).
  destruct Hno. by exists p, task.
Qed.

End safety.


(** ** A concrete Turn *)

#[local] Instance turn_uuids : Uuids :=
  {| uuid4 n := "u" +:+ pretty (N.of_nat n); uuid5_url name := name |}.

Module TurnExample.
Definition LIMIT : Z := 1000 * MIB.
Definition measure : TDB -> string -> Z * Z := fun _ _ => (MIB, 0).

(** A database clock a second ahead of the worker's, read once per new row. *)
Definition db_clock (db : TDB) : Z := seconds 101 + Z.of_nat (t_next_uuid db).

Definition accepted : TurnRow :=
  {| t_conversation_id := "c"; t_workspace_id := "w"; t_user_id := "alice"; t_status := "accepted";
     t_claim_generation := 0; t_claimed_by := None; t_lease_expires_at := None; t_heartbeat_at := None;
     t_completed_at := None; t_error_kind := None; t_error_message := None |}.

Definition dispatch (id tid : string) (task : list (string * json)) : OutboxRow :=
  {| ob_id := id; ob_topic := "turn.dispatch"; ob_payload := JObj ([("turn_id", JStr tid)] ++ task);
     ob_status := "published"; ob_attempts := 1; ob_available_at := 0; ob_locked_by := None;
     ob_locked_until := None; ob_redis_message_id := None; ob_published_at := None; ob_created_at := 0 |}.

(** Turn [t1] has its dispatch message, [t2] one without a task. *)
Definition db0 : TDB :=
  {| t_conversations := {[ "c" := {| cv_owner_user_id := "alice"; cv_workspace_id := "w" |} ]};
     t_turns := {[ "t1" := accepted ]}; t_cancellations := ∅; t_events := []; t_tool_calls := [];
     t_outbox := [dispatch "o1" "t1" [("task", JStr "encoded")]; dispatch "o2" "t2" []]; t_dead_letters := [];
     t_storage := {| s_accounts := ∅; s_reservations := ∅; s_roles := {[ "alice" := ["student"] ]};
                     s_measured := fun _ => (MIB, 0); s_disk_free := None; s_next_uuid := 0 |};
     t_next_uuid := 0 |}.

Definition claim (w : string) (now_ : Z) : Ttx claim_outcome := claim_turn "t1" w 60 None None now_.
Definition late : Z := seconds 100.
Definition recover : Ttx (list string) := recover_stuck_turns measure db_clock LIMIT 0 3 (fun _ => true) late.

Definition after {A} (m : Ttx A) (db : TDB) : TDB := (run_tx m db).2.

(** Claimed by [w1] at time 0, an event written, the lease lapsed, recovered, claimed by [w2]. *)
Definition db1 : TDB := after (claim "w1" 0) db0.
Definition record1 : Ttx ToolCallRow := record_operation measure LIMIT 0 "t1" 1 "op" "tool" (JObj []).
Definition db2 : TDB := after record1 db1.
Definition db3 : TDB := after recover db2.
Definition db4 : TDB := after (claim "w2" (late + 1)) db3.

(** [t2] is stuck as well. *)
Definition db_poisoned : TDB := set_turns db1 (<["t2" := turn_claimed "w3" 60 0 accepted]> (t_turns db1)).
End TurnExample.

Lemma stale_worker_fenced_witness : 1 < 3 /\ refused TurnExample.measure TurnExample.LIMIT 0 "t1" 1 TurnExample.db4.
Proof.
  refine (stale_worker_fenced TurnExample.measure TurnExample.db_clock TurnExample.LIMIT 0 "t1" "w1" 60 None None 0 TurnExample.db0 1
    TurnExample.db1 TurnExample.db3 "w2" 60 None None (TurnExample.late + 1) 3 TurnExample.db4 TurnExample.db4 _ _ _ _).
  - vm_compute. reflexivity.
  - eapply tsteps_step; [eapply tsteps_step; [apply tsteps_refl|apply tstep_record]|apply tstep_recover].
  - vm_compute. reflexivity.
  - apply tsteps_refl.
Defined.





Lemma recovery_recovers_every_turn_witness : exists t,
  t_turns TurnExample.db2 !! "t1" = Some t
  /\ recovered TurnExample.db_clock 3 TurnExample.late ["t1"] (last_dispatch "t1" TurnExample.db2) TurnExample.db3 "t1" t.
Proof.
  eexists. split; [vm_compute; reflexivity|].
  refine (proj1 (recovery_recovers_every_turn TurnExample.measure TurnExample.db_clock TurnExample.LIMIT 0 3 (fun _ => true)
    TurnExample.late TurnExample.db2 ["t1"] TurnExample.db3 _) "t1" _ _ _ _).
  - vm_compute. reflexivity.
  - vm_compute. reflexivity.
  - split; [reflexivity|]. left. eexists. split; [reflexivity|]. vm_compute. reflexivity.
  - reflexivity.
Defined.
