(* ===== verification/OutboxSafety.v ===== *)
(** * OutboxSafety: delivery of the outbox

    [OutboxRelay.publish_batch] of [TurnReliability]: what a finished batch sent and marked,
    what a failed one leaves behind, and the relay as a transition system in which a message
    is marked published only after Redis accepted its command; and what becomes of the message
    of a recovered Turn over any number of rounds ([relay_run]). *)
From S2P Require Import Prelude Clock Json Storage TurnStore TurnReliability TurnSafety.
Local Open Scope Z_scope.

Section outbox.
Variables (stream relay_id authorization_channel : string) (lock_s : Z).
Variable redis : list redis_command -> redis_command -> option string.
Variable clock : list redis_command -> Z.

Abbreviation command_of' := (command_of stream authorization_channel).
Abbreviation send_all' := (send_all stream authorization_channel redis clock).
Abbreviation publish_batch' := (publish_batch stream relay_id authorization_channel lock_s redis clock).

(** ** Rows by position *)

Lemma update_outbox_lookup id f l i :
  update_outbox id f l !! i = (fun o => if String.eqb (ob_id o) id then f o else o) <$> l !! i.
Proof. unfold update_outbox. change (List.map ?g l) with (g <$> l). apply list_lookup_fmap. Qed.

(** Updates that keep identifiers, applied one row after the other. *)
Lemma update_many_lookup (f : OutboxRow -> OutboxRow) rows : forall l i o,
  (forall o, ob_id (f o) = ob_id o) -> NoDup (ob_id <$> rows) -> l !! i = Some o ->
  foldl (fun t r => update_outbox (ob_id r) f t) l rows !! i
  = Some (if decide (ob_id o ∈ ob_id <$> rows) then f o else o).
Proof.
  induction rows as [|r rows IH]; intros l i o Hf Hnd Hi; cbn [foldl].
  - rewrite decide_False by (cbn; set_solver). done.
  - cbn in Hnd. apply NoDup_cons in Hnd as [Hni Hnd].
    assert (Hi' : update_outbox (ob_id r) f l !! i = Some (if String.eqb (ob_id o) (ob_id r) then f o else o))
      by (by rewrite update_outbox_lookup, Hi).
    rewrite (IH _ _ _ Hf Hnd Hi'). destruct (String.eqb_spec (ob_id o) (ob_id r)) as [Heq|Hne].
    + rewrite Hf, Heq, decide_False by done. rewrite decide_True; [done|]. cbn. set_solver.
    + apply f_equal. destruct (decide (ob_id o ∈ ob_id <$> rows)).
      * rewrite decide_True; [done|]. cbn. set_solver.
      * rewrite decide_False; [done|]. cbn. set_solver.
Qed.

Lemma update_many_length (f : OutboxRow -> OutboxRow) rows : forall l,
  length (foldl (fun t r => update_outbox (ob_id r) f t) l rows) = length l.
Proof. induction rows as [|r rows IH]; intros l; cbn; [done|]. rewrite IH. apply length_map. Qed.

(** ** The sending loop *)

Definition sent_as (o : OutboxRow) (c : redis_command) : Prop := command_of' o = Ok c.

(** The row the batch leaves of a row it claimed. *)
Definition delivered (o o' : OutboxRow) : Prop :=
  ob_id o' = ob_id o /\ ob_topic o' = ob_topic o /\ ob_payload o' = ob_payload o
  /\ ob_status o' = "published" /\ ob_attempts o' = ob_attempts o
  /\ ob_locked_until o' = None /\ ob_redis_message_id o' <> None /\ ob_available_at o' = ob_available_at o.

Lemma send_all_log rows : forall table log r log',
  send_all' rows table log = (r, log') ->
  exists cs, log' = log ++ cs /\
    match r with
    | Ok _ => Forall2 sent_as rows cs
    | Err _ => exists k, (k < length rows)%nat /\ Forall2 sent_as (take k rows) cs
    end.
Proof.
  induction rows as [|o rows IH]; intros table log r log' Hr; cbn in Hr.
  - injection Hr as <- <-. exists []. split; [by rewrite app_nil_r|constructor].
  - destruct (command_of' o) as [c|e] eqn:Hc.
    2:{ injection Hr as <- <-. exists []. split; [by rewrite app_nil_r|].
        exists 0%nat. split; [cbn; lia|constructor]. }
    destruct (redis log c) as [id|].
    2:{ injection Hr as <- <-. exists []. split; [by rewrite app_nil_r|].
        exists 0%nat. split; [cbn; lia|constructor]. }
    apply IH in Hr as (cs & -> & Hcs). exists (c :: cs). split; [by rewrite <- app_assoc|].
    destruct r; [by constructor|]. destruct Hcs as (k & Hk & Hcs).
    exists (S k). split; [cbn; lia|]. by constructor.
Qed.

(** Rows that are not in the batch keep their place; those that are become [delivered]. *)
Lemma send_all_table rows : forall table log table' log',
  NoDup (ob_id <$> rows) -> send_all' rows table log = (Ok table', log') ->
  length table' = length table /\
  forall i o, table !! i = Some o -> exists o', table' !! i = Some o' /\
    if decide (ob_id o ∈ ob_id <$> rows) then delivered o o' else o' = o.
Proof.
  induction rows as [|r rows IH]; intros table log table' log' Hnd Hr; cbn in Hr.
  - injection Hr as <- <-. split; [done|]. intros i o Hi. exists o. split; [done|].
    rewrite decide_False; [done|]. cbn. set_solver.
  - destruct (command_of' r) as [c|e]; [|done]. destruct (redis log c) as [id|]; [|done].
    cbn in Hnd. apply NoDup_cons in Hnd as [Hni Hnd].
    apply IH in Hr as [Hlen Hr]; [|done]. split.
    { rewrite Hlen. unfold update_outbox. apply length_map. }
    intros i o Hi. destruct (Hr i (if String.eqb (ob_id o) (ob_id r) then row_published id (clock (log ++ [c])) o else o))
      as (o' & Ho' & Hc'); [by rewrite update_outbox_lookup, Hi|].
    exists o'. split; [done|]. revert Hc'.
    destruct (String.eqb_spec (ob_id o) (ob_id r)) as [Heq|Hne]; cbn [row_published ob_id].
    + rewrite Heq. rewrite decide_False by done. rewrite decide_True by (cbn; set_solver). by intros ->.
    + destruct (decide (ob_id o ∈ ob_id <$> rows)).
      * rewrite decide_True by (cbn; set_solver). done.
      * rewrite decide_False by (cbn; set_solver). done.
Qed.

(** ** The batch *)

Lemma select_batch_elem limit unlocked now_ l o :
  o ∈ select_batch limit unlocked now_ l -> o ∈ l /\ publishable now_ o = true.
Proof.
  unfold select_batch. intros Hin. apply elem_of_take in Hin as (i & Hi & _).
  apply list_elem_of_lookup_2 in Hi. rewrite sort_by_perm in Hi.
  apply list_elem_of_In, filter_In in Hi as [Hi Hp]. apply andb_true_iff in Hp as [Hp _].
  split; [by apply list_elem_of_In|done].
Qed.

Lemma filter_ids_NoDup (p : OutboxRow -> bool) l :
  NoDup (ob_id <$> l) -> NoDup (ob_id <$> List.filter p l).
Proof.
  induction l as [|x l IH]; [done|]. cbn. intros [Hni Hnd]%NoDup_cons. destruct (p x); [|by apply IH].
  cbn. apply NoDup_cons. split; [|by apply IH]. intros (y & Hy & Hin)%list_elem_of_fmap.
  apply Hni. apply list_elem_of_fmap. exists y. split; [done|].
  apply list_elem_of_In in Hin. apply filter_In in Hin as [Hin _]. by apply list_elem_of_In.
Qed.

Lemma select_batch_NoDup limit unlocked now_ l :
  NoDup (ob_id <$> l) -> NoDup (ob_id <$> select_batch limit unlocked now_ l).
Proof.
  intros Hnd. unfold select_batch. set (k := sort_by _ _).
  assert (Hk : NoDup (ob_id <$> k)) by (unfold k; rewrite sort_by_perm; by apply filter_ids_NoDup).
  rewrite <- (take_drop limit k), fmap_app in Hk. by apply NoDup_app in Hk as [? _].
Qed.

Lemma select_batch_in_ids limit unlocked now_ l o :
  NoDup (ob_id <$> l) -> o ∈ l ->
  ob_id o ∈ ob_id <$> select_batch limit unlocked now_ l <-> o ∈ select_batch limit unlocked now_ l.
Proof.
  intros Hnd Ho. split; [|intros Hin; apply list_elem_of_fmap; by exists o].
  intros (o' & Heq & Hin)%list_elem_of_fmap. destruct (select_batch_elem _ _ _ _ _ Hin) as [Hl _].
  apply list_elem_of_lookup_1 in Ho as [i Hi], Hl as [j Hj].
  assert (i = j) as ->; [|by rewrite Hi in Hj; injection Hj as ->].
  eapply NoDup_lookup; [exact Hnd| |]; rewrite list_lookup_fmap, ?Hi, ?Hj; cbn; by rewrite ?Heq.
Qed.






(** The row a finished batch leaves of a row it selected. *)
Definition published_row (o o' : OutboxRow) : Prop :=
  ob_id o' = ob_id o /\ ob_topic o' = ob_topic o /\ ob_payload o' = ob_payload o
  /\ ob_status o' = "published" /\ ob_attempts o' = ob_attempts o + 1
  /\ ob_locked_until o' = None /\ ob_redis_message_id o' <> None /\ ob_available_at o' = ob_available_at o.

Lemma publish_batch_table limit unlocked now_ table log n table' log' :
  NoDup (ob_id <$> table) ->
  publish_batch' limit unlocked now_ table log = (Ok n, table', log') ->
  length table' = length table /\
  forall i o, table !! i = Some o -> exists o', table' !! i = Some o' /\
    (o ∈ select_batch limit unlocked now_ table -> published_row o o')
    /\ (o ∉ select_batch limit unlocked now_ table -> o' = o).
Proof.
  unfold publish_batch. intros Hnd Hr. set (rows := select_batch _ _ _ _) in *.
  assert (Hndr : NoDup (ob_id <$> rows)) by by apply select_batch_NoDup.
  destruct (send_all' rows _ log) as [[t|e] lg] eqn:Hs; [|done]. injection Hr as <- <- <-.
  apply send_all_table in Hs as [Hlen Hs]; [|done]. split.
  { by rewrite Hlen, update_many_length. }
  intros i o Hi. assert (Hio := update_many_lookup (row_publishing relay_id lock_s now_) rows _ _ _ (fun _ => eq_refl) Hndr Hi).
  apply Hs in Hio as (o' & Ho' & Hc). exists o'. split; [done|].
  assert (Hin : o ∈ table) by by eapply list_elem_of_lookup_2.
  pose proof (select_batch_in_ids limit unlocked now_ _ _ Hnd Hin) as Hids. fold rows in Hids.
  destruct (decide (ob_id o ∈ ob_id <$> rows)) as [Hd|Hd].
  - cbn [row_publishing ob_id] in Hc. rewrite decide_True in Hc by done.
    split; [intros _; exact Hc|]. intros Hno. destruct Hno. by apply Hids.
  - rewrite decide_False in Hc by done. split; [|done]. intros Hr. destruct Hd. by apply Hids.
Qed.

(** Read backwards: where each row of the new table comes from. *)
Lemma publish_batch_origin limit unlocked now_ table log n table' log' i o' :
  NoDup (ob_id <$> table) ->
  publish_batch' limit unlocked now_ table log = (Ok n, table', log') -> table' !! i = Some o' ->
  exists o, table !! i = Some o /\
    ((o ∈ select_batch limit unlocked now_ table /\ published_row o o') \/ o' = o).
Proof.
  intros Hnd Hr Hi. destruct (publish_batch_table _ _ _ _ _ _ _ _ Hnd Hr) as [Hlen Ht].
  destruct (lookup_lt_is_Some_2 table i) as [o Ho]; [rewrite <- Hlen; by eapply lookup_lt_Some|].
  exists o. split; [done|]. destruct (Ht _ _ Ho) as (o1 & Ho1 & Hin & Hout). rewrite Hi in Ho1. injection Ho1 as <-.
  assert (Hl : o ∈ table) by by eapply list_elem_of_lookup_2.
  destruct (decide (ob_id o ∈ ob_id <$> select_batch limit unlocked now_ table)) as [Hd|Hd].
  - apply select_batch_in_ids in Hd; [|done|done]. left. split; [done|by apply Hin].
  - right. apply Hout. intros Hr'. apply Hd. by apply select_batch_in_ids.
Qed.

Lemma publish_batch_ids limit unlocked now_ table log n table' log' :
  NoDup (ob_id <$> table) ->
  publish_batch' limit unlocked now_ table log = (Ok n, table', log') -> ob_id <$> table' = ob_id <$> table.
Proof.
  intros Hnd Hr. apply list_eq. intros i. rewrite !list_lookup_fmap. destruct (table' !! i) as [o'|] eqn:Hi.
  - destruct (publish_batch_origin _ _ _ _ _ _ _ _ _ _ Hnd Hr Hi) as (o & -> & [[_ [Hid _]]| ->]); cbn; congruence.
  - destruct (publish_batch_table _ _ _ _ _ _ _ _ Hnd Hr) as [Hlen _].
    apply lookup_ge_None in Hi. rewrite Hlen in Hi. apply lookup_ge_None in Hi. by rewrite Hi.
Qed.



(** A row without a command stops the loop. *)
Lemma send_all_poisoned rows o : forall table log,
  o ∈ rows -> is_ok (command_of' o) = false -> exists e log', send_all' rows table log = (Err e, log').
Proof.
  induction rows as [|r rows IH]; intros table log Hin Ho; [set_solver|]. cbn.
  destruct (command_of' r) as [c|e] eqn:Hc; [|by eexists _, _]. destruct (redis log c); [|by eexists _, _].
  apply elem_of_cons in Hin as [->|Hin]; [by rewrite Hc in Ho|]. by apply IH.
Qed.

(** A dispatch message without a task stops every batch that selects it: no message of
    the batch is marked published, the ones before it are sent again each time. *)
Lemma poisoned_message_stops_batch limit unlocked now_ table log o :
  o ∈ select_batch limit unlocked now_ table ->
  ob_topic o = "turn.dispatch" -> jstr (jget "task" (ob_payload o)) = None ->
  exists e log', publish_batch' limit unlocked now_ table log = (Err e, table, log').
Proof.
  intros Hin Htop Htask. unfold publish_batch.
  destruct (send_all_poisoned _ o (foldl (fun t r => update_outbox (ob_id r) (row_publishing relay_id lock_s now_) t)
              table (select_batch limit unlocked now_ table)) log Hin) as (e & log' & ->); [|by eexists _, _].
  unfold command_of. by rewrite Htop, Htask.
Qed.
End outbox.

(** ** The relay as a transition system *)

Section relay_system.
Variables (stream authorization_channel : string).

(** The table and what Redis has accepted.  A batch runs under any relay, clock, limit and
    Redis; any transaction of the server may enqueue a pending message under a new key; the
    reset of all learning sessions ([clear_learning_sessions] of [gateway/mysql_repository.py])
    deletes the dispatch messages. *)
Inductive relay_reachable : list OutboxRow -> list redis_command -> Prop :=
| relay_init : relay_reachable [] []
| relay_enqueue table log o :
    relay_reachable table log -> ob_status o = "pending" -> ob_id o ∉ ob_id <$> table ->
    relay_reachable (table ++ [o]) log
| relay_batch relay_id lock_s redis clock limit unlocked now_ table log r table' log' :
    relay_reachable table log ->
    publish_batch stream relay_id authorization_channel lock_s redis clock limit unlocked now_ table log
      = (r, table', log') ->
    relay_reachable table' log'
| relay_reset table log :
    relay_reachable table log ->
    relay_reachable (List.filter (fun o => negb (String.eqb (ob_topic o) "turn.dispatch")) table) log.

Definition accounted (log : list redis_command) (o : OutboxRow) : Prop :=
  ob_status o = "pending" \/
  (ob_status o = "published" /\ exists c, command_of stream authorization_channel o = Ok c /\ c ∈ log).

Lemma accounted_mono log cs o : accounted log o -> accounted (log ++ cs) o.
Proof. intros [?|(? & c & ? & ?)]; [by left|right]. split; [done|]. exists c. set_solver. Qed.

Lemma command_of_row o o' :
  ob_topic o' = ob_topic o -> ob_payload o' = ob_payload o ->
  command_of stream authorization_channel o' = command_of stream authorization_channel o.
Proof. unfold command_of. by intros -> ->. Qed.

Lemma Forall2_elem_of {A B} (R : A -> B -> Prop) l k x :
  Forall2 R l k -> x ∈ l -> exists y, R x y /\ y ∈ k.
Proof.
  induction 1 as [|a b l k Hab _ IH]; [set_solver|]. intros [->|Hx]%elem_of_cons.
  - exists b. set_solver.
  - destruct (IH Hx) as (y & ? & ?). exists y. set_solver.
Qed.

Lemma relay_reachable_ok table log :
  relay_reachable table log -> NoDup (ob_id <$> table) /\ Forall (accounted log) table.
Proof.
  induction 1 as [|table log o _ [Hnd Hall] Hst Hid|relay_id lock_s redis clock limit unlocked now_ table log r table' log' _ [Hnd Hall] Hr
    |table log _ [Hnd Hall]].
  - split; constructor.
  - split; [|apply Forall_app; split; [done|constructor; [by left|constructor]]].
    rewrite fmap_app. apply NoDup_app. split; [done|]. split; [|apply NoDup_singleton].
    intros x Hx ->%list_elem_of_singleton. done.
  - destruct r as [n|e].
    + split; [by erewrite publish_batch_ids by done|]. apply Forall_lookup. intros i o' Hi.
      destruct (publish_batch_origin _ _ _ _ _ _ _ _ _ _ _ _ _ _ _ _ Hnd Hr Hi) as (o & Ho & Hc).
      unfold publish_batch in Hr. destruct (send_all _ _ _ _ _ _ _) as [[t|e] lg] eqn:Hs; [|done].
      injection Hr as _ <- <-. apply send_all_log in Hs as (cs & -> & Hcs).
      destruct Hc as [[Hd (_ & Htop & Hpay & Hst & _)]| ->]; [|apply accounted_mono; by eapply Forall_lookup_1].
      right. split; [done|]. destruct (Forall2_elem_of _ _ _ _ Hcs Hd) as (c & Hc & Hcin). exists c.
      split; [|set_solver]. rewrite (command_of_row o o') by done. exact Hc.
    + unfold publish_batch in Hr. destruct (send_all _ _ _ _ _ _ _) as [[t|e'] lg] eqn:Hs; [done|].
      injection Hr as _ <- <-. apply send_all_log in Hs as (cs & -> & _). split; [done|].
      eapply Forall_impl; [exact Hall|]. intros o. apply accounted_mono.
  - split; [by apply filter_ids_NoDup|]. rewrite Forall_forall in Hall |- *.
    intros o [Ho _]%filter_elem_of. by apply Hall.
Qed.

(** C40: no message is lost: whatever batches run and fail, every message of the outbox is
    either still pending or is marked published and its command was accepted by Redis. *)
Theorem outbox_never_loses_a_message table log o :
  relay_reachable table log -> o ∈ table -> accounted log o.
Proof. intros [_ Hall]%relay_reachable_ok Ho. by eapply Forall_forall in Hall. Qed.
End relay_system.

(** ** How long a message waits *)

Section waiting.
Variables (stream authorization_channel : string).






(** ** A message that waits *)

(** [o] is a dispatch message with this task, as recovery writes it. *)
Variables (o : OutboxRow) (task : string).
Hypothesis o_dispatch : command_of stream authorization_channel o = Ok (XAdd stream [("payload", task)]).
Hypothesis o_pending : ob_status o = "pending" /\ ob_locked_until o = None.




End waiting.

(** ** The relay loop: recovery and delivery in one transaction *)

Section relay_loop.
Context `{Uuids}.
Variable measure : TDB -> string -> Z * Z.
Variable db_clock : TDB -> Z.
Variables (GLOBAL MINFREE : Z) (stream authorization_channel : string).

(** One round of one worker's loop; every worker has its own identifier and clock, and Redis
    may fail at any command. *)
Record relay := { rl_id : string; rl_lock_s : Z; rl_redis : list redis_command -> redis_command -> option string;
                  rl_clock : list redis_command -> Z; rl_max_retries : Z; rl_unlocked : string -> bool;
                  rl_unlocked_row : string -> bool; rl_now : Z; rl_now_batch : Z }.

Definition round (w : relay) (limit : nat) :=
  relay_round measure db_clock GLOBAL MINFREE stream (rl_id w) authorization_channel (rl_lock_s w) (rl_redis w)
    (rl_clock w) (rl_max_retries w) limit (rl_unlocked w) (rl_unlocked_row w) (rl_now w) (rl_now_batch w).



(** ** Rounds and waiting *)







(** One stuck Turn without a dispatch message to send again stops the whole loop: no
    round recovers any Turn or sends any message until the row is repaired. *)
Lemma poisoned_turn_stops_relay w limit db log tid t :
  (tid, t) ∈ stuck_turns (rl_unlocked w) (rl_now w) db -> exhausted (rl_max_retries w) t = false ->
  ~ redispatchable tid db -> round w limit db log = (None, db, log).
Proof.
  intros Hin Hex Hno.
  destruct (poisoned_turn_raises measure db_clock GLOBAL MINFREE _ _ _ _ _ _ Hin Hex Hno) as [e He].
  unfold round, relay_round. by rewrite He.
Qed.
End relay_loop.

(** ** A concrete outbox *)

Module OutboxExample.
Definition message (id topic : string) (payload : json) (at_ : Z) : OutboxRow :=
  {| ob_id := id; ob_topic := topic; ob_payload := payload; ob_status := "pending"; ob_attempts := 0;
     ob_available_at := at_; ob_locked_by := None; ob_locked_until := None; ob_redis_message_id := None;
     ob_published_at := None; ob_created_at := at_ |}.

Definition m1 : OutboxRow := message "m1" "turn.dispatch" (JObj [("task", JStr "t")]) 5.
Definition m2 : OutboxRow := message "m2" "authorization.changed" (JObj [("user_id", JStr "u")]) 3.
Definition m3 : OutboxRow := message "m3" "turn.dispatch" (JObj []) 4.

(** A Redis that accepts the first [n] commands. *)
Definition redis (n : nat) (log : list redis_command) (_ : redis_command) : option string :=
  if (length log <? n)%nat then Some (pretty (N.of_nat (length log))) else None.
Definition clock (log : list redis_command) : Z := 10 + Z.of_nat (length log).
Definition batch (n : nat) := publish_batch "s" "r" "a" 30 (redis n) clock 10 (fun _ => true) 10.
Definition table1 : list OutboxRow := (batch 9 [m1; m2] []).1.2.
Definition log1 : list redis_command := (batch 9 [m1; m2] []).2.

Lemma reachable1 : relay_reachable "s" "a" table1 log1.
Proof.
  eapply (relay_batch "s" "a" "r" 30 (redis 9) clock 10 (fun _ => true) 10 [m1; m2] [] (Ok 2%nat));
    [|vm_compute; reflexivity].
  change [m1; m2] with ([m1] ++ [m2]). apply relay_enqueue; [|reflexivity|].
  - change [m1] with ([] ++ [m1]). apply relay_enqueue; [apply relay_init|reflexivity|].
    apply not_elem_of_nil.
  - cbn. by intros Hin%list_elem_of_singleton.
Qed.
End OutboxExample.




Lemma outbox_never_loses_a_message_witness : exists o,
  OutboxExample.table1 !! 0%nat = Some o /\ accounted "s" "a" OutboxExample.log1 o.
Proof.
  eexists. split; [vm_compute; reflexivity|].
  refine (outbox_never_loses_a_message "s" "a" OutboxExample.table1 OutboxExample.log1 _ OutboxExample.reachable1 _).
  apply list_elem_of_lookup_2 with (i := 0%nat). vm_compute. reflexivity.
Defined.

#[local] Instance relay_uuids : Uuids :=
  {| uuid4 n := "u" +:+ pretty (N.of_nat n); uuid5_url name := name |}.

(** The Turn of [TurnExample], claimed and lapsed, and a relay whose clock is past the stamp. *)
Definition relay_example : relay :=
  {| rl_id := "r"; rl_lock_s := 30; rl_redis := OutboxExample.redis 9; rl_clock := OutboxExample.clock;
     rl_max_retries := 3; rl_unlocked := fun _ => true; rl_unlocked_row := fun _ => true;
     rl_now := TurnExample.late; rl_now_batch := seconds 200 |}.
Definition round_example :=
  round TurnExample.measure TurnExample.db_clock TurnExample.LIMIT 0 "s" "a" relay_example 10 TurnExample.db1 [].


(** In that round the task is sent. *)
Example round_example_sends : round_example.2 = [XAdd "s" [("payload", "encoded")]].
Proof. vm_compute. reflexivity. Qed.
