(* ===== verification/WorkerEvents.v ===== *)
(** * WorkerEvents: the completion events of worker agents

    [core/worker_events.py] and the barrier of [core/coordinator_runtime.py].  The five
    dictionaries of [WorkerEventBus] are kept per session, in a [Mailbox].  The functions of the
    first part are the methods run without suspending: a waiting [get] is the answer [None],
    after which the method is entered again where it left ([take_from_queue]); a [put] that
    timed out is [publish] on a full queue.  The second part takes [publish], [get] and
    [get_for_turn] apart at their awaits, where the event loop runs other callbacks: [wait_for]
    runs [queue.put] and [queue.get] in a task of their own, so an event can be in the queue
    before its publisher goes on, and out of it before its consumer does. *)
From S2P Require Import Prelude.

(** [WorkerExecutionResultSpec], the fields the runtime branches on. *)
Record ExecutionResult := {
  er_status : string;
  er_termination_reason : string;
}.

(** [WorkerCompletedEvent]. *)
Record WorkerCompletedEvent := {
  we_event_id : string;
  we_session_id : string;
  we_worker_id : string;
  we_parent_turn_id : string;
  we_attempt : Z;
  we_execution : ExecutionResult;
  we_join : bool;
}.

(** What the bus keeps of one session. *)
Record Mailbox := {
  mb_queue : list WorkerCompletedEvent;
  mb_overflow : list WorkerCompletedEvent;
  mb_deferred : list WorkerCompletedEvent;
  mb_seen_ids : gset string;
  mb_seen_order : list string;
}.

Definition empty_mailbox : Mailbox :=
  {| mb_queue := []; mb_overflow := []; mb_deferred := []; mb_seen_ids := ∅; mb_seen_order := [] |}.

(** [WorkerEventMetrics]. *)
Record EventMetrics := {
  em_published : nat;
  em_consumed : nat;
  em_duplicate_events : nat;
  em_publish_timeouts : nat;
  em_queue_depth_peak : nat;
}.

(** [WorkerEventBus]: mailboxes by session, metrics and subscriptions. *)
Record Bus := {
  bus_mailboxes : gmap string Mailbox;
  bus_subscribers : list (string * option string);
  bus_metrics : EventMetrics;
}.

Definition mailbox (b : Bus) (session_id : string) : Mailbox :=
  default empty_mailbox (bus_mailboxes b !! session_id).

Definition set_mailbox (b : Bus) (session_id : string) (m : Mailbox) (em : EventMetrics) : Bus :=
  {| bus_mailboxes := <[session_id := m]> (bus_mailboxes b); bus_subscribers := bus_subscribers b;
     bus_metrics := em |}.

Definition with_lists (m : Mailbox) (queue overflow deferred : list WorkerCompletedEvent) : Mailbox :=
  {| mb_queue := queue; mb_overflow := overflow; mb_deferred := deferred;
     mb_seen_ids := mb_seen_ids m; mb_seen_order := mb_seen_order m |}.

Section bus.
Variables max_events_per_session dedupe_window : nat.

(** [asyncio.Queue.full]: a queue of size zero is unbounded. *)
Definition queue_full (q : list WorkerCompletedEvent) : bool :=
  (0 <? max_events_per_session)%nat && (max_events_per_session <=? length q)%nat.

(** [_refill]. *)
Fixpoint refill (queue overflow : list WorkerCompletedEvent)
  : list WorkerCompletedEvent * list WorkerCompletedEvent :=
  match overflow with
  | [] => (queue, [])
  | e :: overflow' => if queue_full queue then (queue, overflow) else refill (queue ++ [e]) overflow'
  end.

(** [queue.get_nowait()] and the refill after it; [None] when the queue is empty. *)
Definition pop (m : Mailbox) : option (WorkerCompletedEvent * Mailbox) :=
  match mb_queue m with
  | [] => None
  | e :: queue' =>
      let '(queue, overflow) := refill queue' (mb_overflow m) in
      Some (e, with_lists m queue overflow (mb_deferred m))
  end.

(** [_remember]: the oldest identifiers leave the window. *)
Fixpoint forget (excess : nat) (seen : gset string) (order : list string) : gset string * list string :=
  match excess, order with
  | S k, id :: order' => forget k (seen ∖ {[ id ]}) order'
  | _, _ => (seen, order)
  end.

Definition remember (id : string) (m : Mailbox) : Mailbox :=
  let order := mb_seen_order m ++ [id] in
  let '(seen, order') := forget (length order - dedupe_window) ({[ id ]} ∪ mb_seen_ids m) order in
  {| mb_queue := mb_queue m; mb_overflow := mb_overflow m; mb_deferred := mb_deferred m;
     mb_seen_ids := seen; mb_seen_order := order' |}.

(** [_notify_subscribers]: the subscriptions whose callback is invoked. *)
Definition notified (session_id : string) (b : Bus) : list string :=
  fst <$> List.filter (fun s : string * option string =>
    match s.2 with None => true | Some x => String.eqb x session_id end) (bus_subscribers b).

(** [publish]: the answer, the callbacks invoked, and the bus. *)
Definition publish (e : WorkerCompletedEvent) (b : Bus) : bool * list string * Bus :=
  let sid := we_session_id e in
  let m := mailbox b sid in
  let em := bus_metrics b in
  if bool_decide (we_event_id e ∈ mb_seen_ids m) then
    (false, [],
     {| bus_mailboxes := bus_mailboxes b; bus_subscribers := bus_subscribers b;
        bus_metrics := {| em_published := em_published em; em_consumed := em_consumed em;
                          em_duplicate_events := S (em_duplicate_events em);
                          em_publish_timeouts := em_publish_timeouts em;
                          em_queue_depth_peak := em_queue_depth_peak em |} |})
  else
    let full := queue_full (mb_queue m) in
    let m1 := if full then with_lists m (mb_queue m) (mb_overflow m ++ [e]) (mb_deferred m)
              else with_lists m (mb_queue m ++ [e]) (mb_overflow m) (mb_deferred m) in
    let m2 := remember (we_event_id e) m1 in
    let em' := {| em_published := S (em_published em); em_consumed := em_consumed em;
                  em_duplicate_events := em_duplicate_events em;
                  em_publish_timeouts := em_publish_timeouts em + (if full then 1 else 0);
                  em_queue_depth_peak := Nat.max (em_queue_depth_peak em) (length (mb_queue m2)) |} in
    let b' := set_mailbox b sid m2 em' in
    (true, notified sid b', b').

Definition consumed (n : nat) (em : EventMetrics) : EventMetrics :=
  {| em_published := em_published em; em_consumed := em_consumed em + n;
     em_duplicate_events := em_duplicate_events em; em_publish_timeouts := em_publish_timeouts em;
     em_queue_depth_peak := em_queue_depth_peak em |}.

(** [get]; [None] while it waits. *)
Definition get (session_id : string) (b : Bus) : option WorkerCompletedEvent * Bus :=
  match pop (mailbox b session_id) with
  | None => (None, b)
  | Some (e, m) => (Some e, set_mailbox b session_id m (consumed 1 (bus_metrics b)))
  end.

(** The test of [get_for_turn] and [drain_for_turn]. *)
Definition matches_turn (parent_turn_id : string) (worker_ids : option (gset string))
  (e : WorkerCompletedEvent) : bool :=
  String.eqb (we_parent_turn_id e) parent_turn_id
  && match worker_ids with None => true | Some ws => bool_decide (we_worker_id e ∈ ws) end.

(** [del deferred[index]] of the first match. *)
Fixpoint take_first (p : WorkerCompletedEvent -> bool) (l : list WorkerCompletedEvent)
  : option (WorkerCompletedEvent * list WorkerCompletedEvent) :=
  match l with
  | [] => None
  | e :: l' =>
      if p e then Some (e, l')
      else match take_first p l' with Some (x, r) => Some (x, e :: r) | None => None end
  end.

(** The waiting loop of [get_for_turn] until it finds a match or the queue is empty; every
    round takes one event out of the queue and the overflow. *)
Fixpoint take_from_queue (fuel : nat) (p : WorkerCompletedEvent -> bool) (m : Mailbox)
  : option WorkerCompletedEvent * Mailbox :=
  match fuel with
  | O => (None, m)
  | S fuel' =>
      match pop m with
      | None => (None, m)
      | Some (e, m') =>
          if p e then (Some e, m')
          else take_from_queue fuel' p (with_lists m' (mb_queue m') (mb_overflow m') (mb_deferred m' ++ [e]))
      end
  end.

Definition backlog (m : Mailbox) : nat := length (mb_queue m) + length (mb_overflow m).

(** [get_for_turn]; [None] while it waits. *)
Definition get_for_turn (session_id parent_turn_id : string) (worker_ids : option (gset string)) (b : Bus)
  : option WorkerCompletedEvent * Bus :=
  let p := matches_turn parent_turn_id worker_ids in
  let m := mailbox b session_id in
  match take_first p (mb_deferred m) with
  | Some (e, deferred) =>
      (Some e, set_mailbox b session_id (with_lists m (mb_queue m) (mb_overflow m) deferred)
                 (consumed 1 (bus_metrics b)))
  | None =>
      match take_from_queue (backlog m) p m with
      | (Some e, m') => (Some e, set_mailbox b session_id m' (consumed 1 (bus_metrics b)))
      | (None, m') => (None, set_mailbox b session_id m' (bus_metrics b))
      end
  end.

(** The queue loop of [drain]: up to [n] events. *)
Fixpoint pop_many (n : nat) (m : Mailbox) : list WorkerCompletedEvent * Mailbox :=
  match n with
  | O => ([], m)
  | S n' =>
      match pop m with
      | None => ([], m)
      | Some (e, m') => let '(es, m'') := pop_many n' m' in (e :: es, m'')
      end
  end.

(** [drain]: deferred events, then the queue, then what is left of the overflow. *)
Definition drain_mailbox (limit : nat) (m : Mailbox) : list WorkerCompletedEvent * Mailbox :=
  let first := take limit (mb_deferred m) in
  let m1 := with_lists m (mb_queue m) (mb_overflow m) (drop limit (mb_deferred m)) in
  let '(popped, m2) := pop_many (limit - length first) m1 in
  let n := limit - length first - length popped in
  (first ++ popped ++ take n (mb_overflow m2),
   with_lists m2 (mb_queue m2) (drop n (mb_overflow m2)) (mb_deferred m2)).

Definition drain (session_id : string) (limit : nat) (b : Bus) : list WorkerCompletedEvent * Bus :=
  let '(events, m) := drain_mailbox limit (mailbox b session_id) in
  (events, set_mailbox b session_id m (consumed (length events) (bus_metrics b))).

(** The deferred loop of [drain_for_turn]: the first [n] matches, and what is retained. *)
Fixpoint split_matches (n : nat) (p : WorkerCompletedEvent -> bool) (l : list WorkerCompletedEvent)
  : list WorkerCompletedEvent * list WorkerCompletedEvent :=
  match l with
  | [] => ([], [])
  | e :: l' =>
      match n with
      | S n' => if p e then let '(ys, ns) := split_matches n' p l' in (e :: ys, ns)
                else let '(ys, ns) := split_matches n p l' in (ys, e :: ns)
      | O => ([], e :: l')
      end
  end.

(** Its queue loop. *)
Fixpoint drain_queue (fuel n : nat) (p : WorkerCompletedEvent -> bool) (m : Mailbox)
  : list WorkerCompletedEvent * Mailbox :=
  match fuel, n with
  | S fuel', S n' =>
      match pop m with
      | None => ([], m)
      | Some (e, m') =>
          if p e then let '(es, m'') := drain_queue fuel' n' p m' in (e :: es, m'')
          else drain_queue fuel' n p (with_lists m' (mb_queue m') (mb_overflow m') (mb_deferred m' ++ [e]))
      end
  | _, _ => ([], m)
  end.

Definition drain_for_turn (session_id parent_turn_id : string) (limit : nat) (worker_ids : option (gset string))
  (b : Bus) : list WorkerCompletedEvent * Bus :=
  let p := matches_turn parent_turn_id worker_ids in
  let m := mailbox b session_id in
  let '(events, retained) := split_matches limit p (mb_deferred m) in
  let m1 := with_lists m (mb_queue m) (mb_overflow m) retained in
  let '(more, m2) := drain_queue (backlog m1) (limit - length events) p m1 in
  (events ++ more, set_mailbox b session_id m2 (consumed (length (events ++ more)) (bus_metrics b))).

(** [has_pending]. *)
Definition has_pending (session_id : string) (b : Bus) : bool :=
  let m := mailbox b session_id in
  negb (bool_decide (mb_queue m = [])) || negb (bool_decide (mb_overflow m = []))
  || negb (bool_decide (mb_deferred m = [])).

(** ** Stretches between awaits *)

Definition count_duplicate (b : Bus) : Bus :=
  let em := bus_metrics b in
  {| bus_mailboxes := bus_mailboxes b; bus_subscribers := bus_subscribers b;
     bus_metrics := {| em_published := em_published em; em_consumed := em_consumed em;
                       em_duplicate_events := S (em_duplicate_events em); em_publish_timeouts := em_publish_timeouts em;
                       em_queue_depth_peak := em_queue_depth_peak em |} |}.

(** [queue.put_nowait] of the put task, and the [except asyncio.TimeoutError] of [publish]. *)
Definition store (e : WorkerCompletedEvent) (m : Mailbox) : Mailbox :=
  with_lists m (mb_queue m ++ [e]) (mb_overflow m) (mb_deferred m).
Definition overflow (e : WorkerCompletedEvent) (m : Mailbox) : Mailbox :=
  with_lists m (mb_queue m) (mb_overflow m ++ [e]) (mb_deferred m).
Definition on_mailbox (s : string) (f : Mailbox -> Mailbox) (b : Bus) : Bus :=
  set_mailbox b s (f (mailbox b s)) (bus_metrics b).

(** The rest of [publish] once the event is stored: [_remember], the metrics, the callbacks. *)
Definition settle_publish (timed_out : bool) (e : WorkerCompletedEvent) (b : Bus) : list string * Bus :=
  let sid := we_session_id e in
  let m := remember (we_event_id e) (mailbox b sid) in
  let em := bus_metrics b in
  let b' := set_mailbox b sid m
    {| em_published := S (em_published em); em_consumed := em_consumed em;
       em_duplicate_events := em_duplicate_events em;
       em_publish_timeouts := em_publish_timeouts em + (if timed_out then 1 else 0);
       em_queue_depth_peak := Nat.max (em_queue_depth_peak em) (length (mb_queue m)) |} in
  (notified sid b', b').

(** [queue.get] of the get task, and [_refill] when its consumer goes on. *)
Definition take_queue (m : Mailbox) : option (WorkerCompletedEvent * Mailbox) :=
  match mb_queue m with
  | [] => None
  | e :: queue' => Some (e, with_lists m queue' (mb_overflow m) (mb_deferred m))
  end.
Definition refilled (m : Mailbox) : Mailbox :=
  let '(queue, overflow) := refill (mb_queue m) (mb_overflow m) in with_lists m queue overflow (mb_deferred m).
Definition defer (e : WorkerCompletedEvent) (m : Mailbox) : Mailbox :=
  with_lists m (mb_queue m) (mb_overflow m) (mb_deferred m ++ [e]).

(** Who waits for an event: [get], or [get_for_turn] with its arguments. *)
Inductive Selector := AnyEvent | ForTurn (parent_turn_id : string) (worker_ids : option (gset string)).
Definition accepts (sel : Selector) (e : WorkerCompletedEvent) : bool :=
  match sel with AnyEvent => true | ForTurn t ws => matches_turn t ws e end.
Definition from_deferred (sel : Selector) (m : Mailbox) : option (WorkerCompletedEvent * list WorkerCompletedEvent) :=
  match sel with AnyEvent => None | ForTurn t ws => take_first (matches_turn t ws) (mb_deferred m) end.

(** A call that is suspended. *)
Inductive BusTask :=
| Putting (e : WorkerCompletedEvent)                              (* past the duplicate test, not stored *)
| Stored (e : WorkerCompletedEvent)                               (* stored, the publisher has not gone on *)
| Waiting (session_id : string) (sel : Selector)
| Holding (session_id : string) (sel : Selector) (e : WorkerCompletedEvent).  (* out of the queue, not refilled *)

(** The bus, the suspended calls, the events accepted, handed out and withdrawn so far, each
    with its session, and the identifiers of those whose [publish] went through, oldest first. *)
Record BusRun := {
  br_bus : Bus;
  br_tasks : list BusTask;
  br_accepted : list (string * WorkerCompletedEvent);
  br_handed : list (string * WorkerCompletedEvent);
  br_withdrawn : list (string * WorkerCompletedEvent);
  br_settled : list (string * string);
}.
Definition run_with (b : Bus) (tasks : list BusTask) (x : BusRun) : BusRun :=
  {| br_bus := b; br_tasks := tasks; br_accepted := br_accepted x; br_handed := br_handed x; br_withdrawn := br_withdrawn x;
     br_settled := br_settled x |}.
Definition run_accept (s : string) (e : WorkerCompletedEvent) (x : BusRun) : BusRun :=
  {| br_bus := br_bus x; br_tasks := br_tasks x; br_accepted := br_accepted x ++ [(s, e)]; br_handed := br_handed x;
     br_withdrawn := br_withdrawn x; br_settled := br_settled x |}.
Definition run_hand (s : string) (l : list WorkerCompletedEvent) (x : BusRun) : BusRun :=
  {| br_bus := br_bus x; br_tasks := br_tasks x; br_accepted := br_accepted x;
     br_handed := br_handed x ++ ((fun e => (s, e)) <$> l); br_withdrawn := br_withdrawn x; br_settled := br_settled x |}.
Definition run_withdraw (s : string) (e : WorkerCompletedEvent) (x : BusRun) : BusRun :=
  {| br_bus := br_bus x; br_tasks := br_tasks x; br_accepted := br_accepted x; br_handed := br_handed x;
     br_withdrawn := br_withdrawn x ++ [(s, e)]; br_settled := br_settled x |}.
Definition run_settle (e : WorkerCompletedEvent) (x : BusRun) : BusRun :=
  {| br_bus := br_bus x; br_tasks := br_tasks x; br_accepted := br_accepted x; br_handed := br_handed x;
     br_withdrawn := br_withdrawn x; br_settled := br_settled x ++ [(we_session_id e, we_event_id e)] |}.

Definition count_consumed (n : nat) (b : Bus) : Bus :=
  {| bus_mailboxes := bus_mailboxes b; bus_subscribers := bus_subscribers b; bus_metrics := consumed n (bus_metrics b) |}.

(** One stretch of one call, or a call that does not suspend.  A call that is cancelled before
    its put or get has happened leaves; [wait_for] returns the result of one that has. *)
Inductive bus_task_step (x : BusRun) : BusRun -> Prop :=
| bt_duplicate e :
    we_event_id e ∈ mb_seen_ids (mailbox (br_bus x) (we_session_id e)) ->
    bus_task_step x (run_with (count_duplicate (br_bus x)) (br_tasks x) x)
| bt_publish e :
    we_event_id e ∉ mb_seen_ids (mailbox (br_bus x) (we_session_id e)) ->
    bus_task_step x (run_accept (we_session_id e) e (run_with (br_bus x) (br_tasks x ++ [Putting e]) x))
| bt_put l1 e l2 :
    br_tasks x = l1 ++ Putting e :: l2 -> queue_full (mb_queue (mailbox (br_bus x) (we_session_id e))) = false ->
    bus_task_step x (run_with (on_mailbox (we_session_id e) (store e) (br_bus x)) (l1 ++ Stored e :: l2) x)
| bt_settle l1 e l2 :
    br_tasks x = l1 ++ Stored e :: l2 ->
    bus_task_step x (run_settle e (run_with (settle_publish false e (br_bus x)).2 (l1 ++ l2) x))
| bt_timed_out l1 e l2 :
    br_tasks x = l1 ++ Putting e :: l2 ->
    bus_task_step x (run_settle e
      (run_with (settle_publish true e (on_mailbox (we_session_id e) (overflow e) (br_bus x))).2 (l1 ++ l2) x))
| bt_withdrawn l1 e l2 :
    br_tasks x = l1 ++ Putting e :: l2 ->
    bus_task_step x (run_withdraw (we_session_id e) e (run_with (br_bus x) (l1 ++ l2) x))
| bt_deferred s sel e deferred :
    from_deferred sel (mailbox (br_bus x) s) = Some (e, deferred) ->
    bus_task_step x (run_hand s [e] (run_with
      (count_consumed 1 (on_mailbox s (fun m => with_lists m (mb_queue m) (mb_overflow m) deferred) (br_bus x))) (br_tasks x) x))
| bt_wait s sel :
    from_deferred sel (mailbox (br_bus x) s) = None ->
    bus_task_step x (run_with (br_bus x) (br_tasks x ++ [Waiting s sel]) x)
| bt_take l1 s sel l2 e m :
    br_tasks x = l1 ++ Waiting s sel :: l2 -> take_queue (mailbox (br_bus x) s) = Some (e, m) ->
    bus_task_step x (run_with (on_mailbox s (fun _ => m) (br_bus x)) (l1 ++ Holding s sel e :: l2) x)
| bt_hand l1 s sel e l2 :
    br_tasks x = l1 ++ Holding s sel e :: l2 -> accepts sel e = true ->
    bus_task_step x (run_hand s [e] (run_with (count_consumed 1 (on_mailbox s refilled (br_bus x))) (l1 ++ l2) x))
| bt_defer l1 s sel e l2 again :
    br_tasks x = l1 ++ Holding s sel e :: l2 -> accepts sel e = false ->
    bus_task_step x (run_with (on_mailbox s (fun m => defer e (refilled m)) (br_bus x))
                       (l1 ++ (if again : bool then [Waiting s sel] else []) ++ l2) x)
| bt_leave l1 s sel l2 :
    br_tasks x = l1 ++ Waiting s sel :: l2 -> bus_task_step x (run_with (br_bus x) (l1 ++ l2) x)
| bt_drain s n r b :
    drain s n (br_bus x) = (r, b) -> bus_task_step x (run_hand s r (run_with b (br_tasks x) x))
| bt_drain_for_turn s t n ws r b :
    drain_for_turn s t n ws (br_bus x) = (r, b) -> bus_task_step x (run_hand s r (run_with b (br_tasks x) x))
| bt_subscribers subs :
    bus_task_step x (run_with {| bus_mailboxes := bus_mailboxes (br_bus x); bus_subscribers := subs;
                                 bus_metrics := bus_metrics (br_bus x) |} (br_tasks x) x).
End bus.
