(* ===== verification/WorkerEventsSafety.v ===== *)
(** * WorkerEventsSafety: the event bus loses and repeats nothing

    [WorkerEventBus] spreads a session's events over a bounded queue, an overflow and a
    deferred list.  With calls that do not suspend it is one list per session, oldest first, with
    three ways to take from it, and each worker's events arrive in order.  With calls that
    interleave at their awaits, time out and are cancelled, the order may be lost, but every
    event is still in exactly one place. *)
From S2P Require Import Prelude WorkerEvents.

(** ** The abstract mailbox *)

Abbreviation Mail := (list WorkerCompletedEvent).

Inductive mail_label :=
| Sent (e : WorkerCompletedEvent)
| Duplicate
| TookFirst (p : WorkerCompletedEvent -> bool) (r : option WorkerCompletedEvent)
| Drained (n : nat) (p : WorkerCompletedEvent -> bool) (r : Mail).

(** What a label does to a session's list: append; nothing; remove the first match; remove
    the first [n] matches. *)
Inductive mail_step : Mail -> mail_label -> Mail -> Prop :=
| mail_sent l e : mail_step l (Sent e) (l ++ [e])
| mail_duplicate l : mail_step l Duplicate l
| mail_waits p l : Forall (fun e => p e = false) l -> mail_step l (TookFirst p None) l
| mail_took p l1 e l2 :
    Forall (fun x => p x = false) l1 -> p e = true ->
    mail_step (l1 ++ e :: l2) (TookFirst p (Some e)) (l1 ++ l2)
| mail_drained n p l : mail_step l (Drained n p (split_matches n p l).1) (split_matches n p l).2.

Section refinement.
Variables max_events_per_session dedupe_window : nat.

Abbreviation full := (queue_full max_events_per_session).
Abbreviation pop' := (pop max_events_per_session).

(** The abstraction, and the invariant: events overflow only behind a full queue. *)
Definition pending (m : Mailbox) : Mail := mb_deferred m ++ mb_queue m ++ mb_overflow m.
Definition mailbox_wf (m : Mailbox) : Prop := mb_overflow m <> [] -> full (mb_queue m) = true.

Lemma refill_ok ov : forall q q' ov',
  refill max_events_per_session q ov = (q', ov') -> q' ++ ov' = q ++ ov /\ (ov' <> [] -> full q' = true).
Proof.
  induction ov as [|e ov IH]; intros q q' ov' Hr; cbn in Hr.
  - injection Hr as <- <-. done.
  - destruct (full q) eqn:Hf; [by injection Hr as <- <-|]. apply IH in Hr as [Heq Hw].
    by rewrite Heq, <- app_assoc.
Qed.

Lemma pop_some m e m' :
  pop' m = Some (e, m') ->
  mailbox_wf m' /\ mb_deferred m' = mb_deferred m
  /\ mb_queue m ++ mb_overflow m = e :: mb_queue m' ++ mb_overflow m'.
Proof.
  unfold pop. destruct (mb_queue m) as [|x q] eqn:Hq; [done|].
  destruct (refill _ _ _) as [q' ov'] eqn:Hr. intros Hp. injection Hp as <- <-.
  apply refill_ok in Hr as [Heq Hw]. unfold mailbox_wf. simpl. by rewrite Heq.
Qed.

Lemma pop_none m : mailbox_wf m -> pop' m = None -> mb_queue m = [] /\ mb_overflow m = [].
Proof.
  unfold pop, mailbox_wf. destruct (mb_queue m) as [|x q] eqn:Hq.
  - intros Hw _. split; [done|]. destruct (mb_overflow m); [done|].
    specialize (Hw ltac:(done)). unfold queue_full in Hw. cbn [length] in Hw.
    apply andb_true_iff in Hw as [H1%Nat.ltb_lt H2%Nat.leb_le]. lia.
  - destruct (refill _ _ _). done.
Qed.

(** [(l1 ++ [e]) ++ l2], as a mailbox that defers [e] builds it. *)
Lemma pending_defer m e m' q :
  pop' m = Some (e, m') -> mb_queue m ++ mb_overflow m = e :: q ->
  pending (with_lists m' (mb_queue m') (mb_overflow m') (mb_deferred m' ++ [e])) = pending m.
Proof.
  intros (_ & Hd & Hl)%pop_some _. unfold pending. simpl. by rewrite Hd, Hl, <- app_assoc.
Qed.

Lemma backlog_pop m e m' : pop' m = Some (e, m') -> backlog m = S (backlog m').
Proof. intros (_ & _ & Hl)%pop_some. unfold backlog. rewrite <- !length_app, Hl. done. Qed.

(** ** The loops *)

Lemma take_from_queue_ok p : forall fuel m r m',
  mailbox_wf m -> (backlog m <= fuel)%nat -> Forall (fun x => p x = false) (mb_deferred m) ->
  take_from_queue max_events_per_session fuel p m = (r, m') ->
  mailbox_wf m' /\ mail_step (pending m) (TookFirst p r) (pending m').
Proof.
  assert (Hwait : forall m m', mailbox_wf m -> Forall (fun x => p x = false) (mb_deferred m) ->
    pop' m = None -> m' = m -> mailbox_wf m' /\ mail_step (pending m) (TookFirst p None) (pending m')).
  { intros m m' Hwf Hno Hp ->. split; [done|]. apply pop_none in Hp as [Hq Ho]; [|done].
    constructor. unfold pending. by rewrite Hq, Ho, app_nil_r. }
  induction fuel as [|fuel IH]; intros m r m' Hwf Hfuel Hno Hr; cbn in Hr.
  - injection Hr as <- <-. apply Hwait; [done..| |done]. unfold pop, backlog in *.
    by destruct (mb_queue m); [|simpl in Hfuel; lia].
  - destruct (pop' m) as [[e m1]|] eqn:Hp; [|injection Hr as <- <-; by apply Hwait].
    pose proof (pop_some _ _ _ Hp) as (Hwf1 & Hd & Hl). apply backlog_pop in Hp as Hb.
    destruct (p e) eqn:He.
    + injection Hr as <- <-. split; [done|]. unfold pending. rewrite Hl, Hd. by constructor.
    + rewrite <- (pending_defer _ _ _ _ Hp Hl). eapply (IH (with_lists m1 _ _ _)); [..|exact Hr].
      * done.
      * unfold backlog in *. simpl. lia.
      * simpl. rewrite Hd. apply Forall_app. split; [done|]. by constructor.
Qed.

Lemma take_first_some p : forall l e l',
  take_first p l = Some (e, l') ->
  exists l1 l2, l = l1 ++ e :: l2 /\ l' = l1 ++ l2 /\ Forall (fun x => p x = false) l1 /\ p e = true.
Proof.
  induction l as [|x l IH]; intros e l' Ht; cbn in Ht; [done|]. destruct (p x) eqn:Hx.
  - injection Ht as <- <-. by exists [], l.
  - destruct (take_first p l) as [[y k]|] eqn:Hk; [|done]. injection Ht as <- <-.
    destruct (IH _ _ eq_refl) as (l1 & l2 & -> & -> & Hf & Hp). exists (x :: l1), l2. by repeat constructor.
Qed.

Lemma take_first_none p l : take_first p l = None -> Forall (fun x => p x = false) l.
Proof.
  induction l as [|x l IH]; cbn; intros Ht; [constructor|]. destruct (p x) eqn:Hx; [done|].
  destruct (take_first p l) as [[y k]|] eqn:Hk; [done|]. constructor; auto.
Qed.

Lemma split_matches_app p : forall l n k,
  split_matches n p (l ++ k) =
  let '(ys, ns) := split_matches n p l in
  let '(ys', ns') := split_matches (n - length ys) p k in (ys ++ ys', ns ++ ns').
Proof.
  assert (Hz : forall l, split_matches 0 p l = ([], l)) by by intros [].
  induction l as [|x l IH]; intros n k; cbn [app split_matches].
  - cbn. rewrite Nat.sub_0_r. by destruct (split_matches n p k).
  - destruct n as [|n]; [by rewrite Hz|]. destruct (p x); rewrite IH.
    + destruct (split_matches n p l) as [ys ns]. cbn. by destruct (split_matches (n - length ys) p k).
    + destruct (split_matches (S n) p l) as [ys ns]. by destruct (split_matches (S n - length ys) p k).
Qed.

Lemma split_matches_retained p : forall l n ys ns,
  split_matches n p l = (ys, ns) -> (length ys < n)%nat -> split_matches (n - length ys) p ns = ([], ns).
Proof.
  induction l as [|x l IH]; intros n ys ns Hs Hn; cbn in Hs.
  - injection Hs as <- <-. done.
  - destruct n as [|n]; [lia|]. destruct (p x) eqn:Hx.
    + destruct (split_matches n p l) as [ys' ns'] eqn:Hl. injection Hs as <- <-. cbn in Hn |- *.
      eapply IH; [exact Hl|lia].
    + destruct (split_matches (S n) p l) as [ys' ns'] eqn:Hl. injection Hs as <- <-.
      specialize (IH _ _ _ Hl Hn). destruct (S n - length ys') as [|k] eqn:Hk; [lia|].
      cbn. by rewrite Hx, IH.
Qed.

(** The queue loop takes the first [n] matches of the queue and the overflow and moves what
    does not match behind the deferred events. *)
Lemma drain_queue_ok p : forall fuel n m r m',
  mailbox_wf m -> (backlog m <= fuel)%nat ->
  drain_queue max_events_per_session fuel n p m = (r, m') ->
  mailbox_wf m' /\ r = (split_matches n p (mb_queue m ++ mb_overflow m)).1
  /\ pending m' = mb_deferred m ++ (split_matches n p (mb_queue m ++ mb_overflow m)).2.
Proof.
  assert (Hz : forall l, split_matches 0 p l = ([], l)) by by intros [].
  induction fuel as [|fuel IH]; intros n m r m' Hwf Hfuel Hr.
  - cbn in Hr. injection Hr as <- <-. unfold backlog in Hfuel. unfold pending.
    destruct (mb_queue m), (mb_overflow m); simpl in Hfuel; try lia. by rewrite ?app_nil_r.
  - destruct n as [|n]; cbn [drain_queue] in Hr; [injection Hr as <- <-; by rewrite Hz|].
    destruct (pop' m) as [[e m1]|] eqn:Hp.
    2:{ injection Hr as <- <-. apply pop_none in Hp as [Hq Ho]; [|done]. unfold pending. by rewrite Hq, Ho. }
    pose proof (pop_some _ _ _ Hp) as (Hwf1 & Hd & Hl). apply backlog_pop in Hp as Hb.
    rewrite Hl. cbn [split_matches]. destruct (p e) eqn:He.
    + destruct (drain_queue _ fuel n p m1) as [es m2] eqn:Hr1. injection Hr as <- <-.
      destruct (IH n m1 es m2) as (Hw2 & -> & ->); [done|lia|done|]. rewrite Hd.
      by destruct (split_matches n p _).
    + destruct (IH (S n) (with_lists m1 (mb_queue m1) (mb_overflow m1) (mb_deferred m1 ++ [e])) r m')
        as (Hw2 & -> & ->); [done|unfold backlog in *; simpl; lia|done|].
      simpl. rewrite Hd, <- app_assoc. by destruct (split_matches (S n) p _).
Qed.

(** ** The operations *)

Lemma split_matches_all l : forall n, split_matches n (fun _ => true) l = (take n l, drop n l).
Proof. induction l as [|x l IH]; intros [|n]; cbn; try done. by rewrite IH. Qed.

Lemma pop_many_ok : forall n m es m',
  mailbox_wf m -> pop_many max_events_per_session n m = (es, m') ->
  mailbox_wf m' /\ mb_deferred m' = mb_deferred m
  /\ es = take n (mb_queue m ++ mb_overflow m)
  /\ mb_queue m' ++ mb_overflow m' = drop n (mb_queue m ++ mb_overflow m).
Proof.
  induction n as [|n IH]; intros m es m' Hwf Hr; cbn in Hr; [by injection Hr as <- <-|].
  destruct (pop' m) as [[e m1]|] eqn:Hp.
  - destruct (pop_many _ n m1) as [es1 m2] eqn:Hr1. injection Hr as <- <-.
    pose proof (pop_some _ _ _ Hp) as (Hwf1 & Hd & Hl). destruct (IH _ _ _ Hwf1 Hr1) as (Hwf2 & Hd2 & -> & Hq).
    rewrite Hl. cbn. by rewrite Hd2.
  - injection Hr as <- <-. apply pop_none in Hp as [Hq Ho]; [|done]. by rewrite Hq, Ho.
Qed.

Lemma drain_mailbox_ok limit m es m' :
  mailbox_wf m -> drain_mailbox max_events_per_session limit m = (es, m') ->
  mailbox_wf m' /\ es = take limit (pending m) /\ pending m' = drop limit (pending m).
Proof.
  intros Hwf. unfold drain_mailbox. set (m1 := with_lists m _ _ _).
  destruct (pop_many _ _ m1) as [es1 m2] eqn:Hr. intros Hm. injection Hm as <- <-.
  apply pop_many_ok in Hr as (Hwf2 & Hd2 & -> & Hq); [|exact Hwf]. cbn [m1 with_lists mb_queue mb_overflow mb_deferred] in *.
  set (q := mb_queue m ++ mb_overflow m) in *. set (n := (limit - length (take limit (mb_deferred m)))%nat) in *.
  assert (Hn : n = (limit - length (mb_deferred m))%nat) by (unfold n; rewrite length_take; lia).
  assert (Hk : take (n - length (take n q)) (mb_overflow m2) = []
               /\ drop (n - length (take n q)) (mb_overflow m2) = mb_overflow m2).
  { rewrite length_take. destruct (decide (n <= length q)%nat) as [Hle|Hgt].
    - replace (n - n `min` length q)%nat with 0%nat by lia. by destruct (mb_overflow m2).
    - assert (Hnil : drop n q = []) by (apply length_zero_iff_nil; rewrite length_drop; lia).
      rewrite Hnil in Hq. apply app_eq_nil in Hq as [_ ->]. by rewrite take_nil, drop_nil. }
  destruct Hk as [Hk1 Hk2]. unfold pending. simpl. rewrite Hk1, Hk2, Hd2, Hq, app_nil_r.
  rewrite take_app, drop_app, Hn. done.
Qed.

Lemma publish_mailbox_ok e m :
  mailbox_wf m ->
  let m1 := if full (mb_queue m) then with_lists m (mb_queue m) (mb_overflow m ++ [e]) (mb_deferred m)
            else with_lists m (mb_queue m ++ [e]) (mb_overflow m) (mb_deferred m) in
  let m2 := remember dedupe_window (we_event_id e) m1 in
  mailbox_wf m2 /\ pending m2 = pending m ++ [e].
Proof.
  intros Hwf m1. cut (mailbox_wf m1 /\ pending m1 = pending m ++ [e]).
  { intros [H1 H2]. unfold remember. destruct (forget _ _ _). split; [exact H1|]. unfold pending in *. exact H2. }
  unfold m1, mailbox_wf, pending. destruct (full (mb_queue m)) eqn:Hf; simpl.
  - by rewrite !app_assoc.
  - assert (Ho : mb_overflow m = []).
    { destruct (mb_overflow m) eqn:Ho; [done|]. unfold mailbox_wf in Hwf. rewrite Ho, Hf in Hwf. by specialize (Hwf ltac:(done)). }
    rewrite Ho, !app_nil_r, app_assoc. done.
Qed.

(** ** The bus *)

Definition bus_wf (b : Bus) : Prop := forall s, mailbox_wf (mailbox b s).
Definition abs (b : Bus) (s : string) : Mail := pending (mailbox b s).

Lemma mailbox_set b s m em s' :
  mailbox (set_mailbox b s m em) s' = if decide (s = s') then m else mailbox b s'.
Proof.
  unfold mailbox, set_mailbox. simpl. destruct (decide (s = s')) as [->|Hne].
  - by rewrite lookup_insert_eq.
  - by rewrite lookup_insert_ne.
Qed.

(** One call of the bus on session [s], with its observable effect. *)
Inductive bus_step (b : Bus) (s : string) : mail_label -> Bus -> Prop :=
| bus_publish e b' calls :
    we_session_id e = s ->
    publish max_events_per_session dedupe_window e b = (true, calls, b') -> bus_step b s (Sent e) b'
| bus_publish_again e b' calls :
    we_session_id e = s ->
    publish max_events_per_session dedupe_window e b = (false, calls, b') -> bus_step b s Duplicate b'
| bus_get_for_turn t ws r b' :
    get_for_turn max_events_per_session s t ws b = (r, b') -> bus_step b s (TookFirst (matches_turn t ws) r) b'
| bus_drain n r b' :
    drain max_events_per_session s n b = (r, b') -> bus_step b s (Drained n (fun _ => true) r) b'
| bus_drain_for_turn t n ws r b' :
    drain_for_turn max_events_per_session s t n ws b = (r, b') ->
    bus_step b s (Drained n (matches_turn t ws) r) b'.

Lemma step_at b s m em lbl l' :
  bus_wf b -> mailbox_wf m -> mail_step (abs b s) lbl l' -> pending m = l' ->
  bus_wf (set_mailbox b s m em) /\ mail_step (abs b s) lbl (abs (set_mailbox b s m em) s)
  /\ forall s', s' <> s -> abs (set_mailbox b s m em) s' = abs b s'.
Proof.
  intros Hb Hm Hs <-. split; [|split].
  - intros s'. rewrite mailbox_set. by destruct (decide (s = s')).
  - unfold abs at 2. rewrite mailbox_set. by destruct (decide (s = s)).
  - intros s' Hne. unfold abs. rewrite mailbox_set. by destruct (decide (s = s')).
Qed.

Lemma publish_ok e b r calls b' :
  bus_wf b -> publish max_events_per_session dedupe_window e b = (r, calls, b') ->
  let s := we_session_id e in
  bus_wf b' /\ mail_step (abs b s) (if r then Sent e else Duplicate) (abs b' s)
  /\ forall s', s' <> s -> abs b' s' = abs b s'.
Proof.
  intros Hwf Hp s. unfold publish in Hp. fold s in Hp. destruct (bool_decide _).
  - injection Hp as <- _ <-. split; [exact Hwf|]. split; [constructor|done].
  - injection Hp as <- _ <-. destruct (publish_mailbox_ok e _ (Hwf s)) as [Hm Hpend].
    eapply step_at; [done..| |exact Hpend]. constructor.
Qed.

Lemma get_for_turn_ok s t ws b r b' :
  bus_wf b -> get_for_turn max_events_per_session s t ws b = (r, b') ->
  bus_wf b' /\ mail_step (abs b s) (TookFirst (matches_turn t ws) r) (abs b' s)
  /\ forall s', s' <> s -> abs b' s' = abs b s'.
Proof.
  intros Hwf Hg. unfold get_for_turn in Hg. set (p := matches_turn t ws) in *.
  destruct (take_first p (mb_deferred (mailbox b s))) as [[e d]|] eqn:Ht.
  - injection Hg as <- <-. apply take_first_some in Ht as (l1 & l2 & Hl & -> & Hf & He).
    eapply step_at; [done|exact (Hwf s)| |].
    + unfold abs, pending. rewrite Hl, <- app_assoc. cbn [app]. by constructor.
    + unfold pending. simpl. by rewrite <- app_assoc.
  - apply take_first_none in Ht. destruct (take_from_queue _ _ p _) as [o m'] eqn:Hq.
    apply take_from_queue_ok in Hq as [Hm Hs]; [|exact (Hwf s)|lia|done].
    destruct o as [e|]; injection Hg as <- <-; by eapply step_at.
Qed.

Lemma drain_ok s n b r b' :
  bus_wf b -> drain max_events_per_session s n b = (r, b') ->
  bus_wf b' /\ mail_step (abs b s) (Drained n (fun _ => true) r) (abs b' s)
  /\ forall s', s' <> s -> abs b' s' = abs b s'.
Proof.
  intros Hwf Hd. unfold drain in Hd. destruct (drain_mailbox _ _ _) as [es m] eqn:Hm. injection Hd as <- <-.
  apply drain_mailbox_ok in Hm as (Hm & -> & Hp); [|exact (Hwf s)].
  eapply step_at; [done..| |exact Hp].
  pose proof (mail_drained n (fun _ => true) (abs b s)) as Hs. by rewrite split_matches_all in Hs.
Qed.

Lemma drain_for_turn_ok s t n ws b r b' :
  bus_wf b -> drain_for_turn max_events_per_session s t n ws b = (r, b') ->
  bus_wf b' /\ mail_step (abs b s) (Drained n (matches_turn t ws) r) (abs b' s)
  /\ forall s', s' <> s -> abs b' s' = abs b s'.
Proof.
  intros Hwf Hd. unfold drain_for_turn in Hd. set (p := matches_turn t ws) in *.
  destruct (split_matches n p (mb_deferred (mailbox b s))) as [ys ns] eqn:Hsp.
  destruct (drain_queue _ _ _ p _) as [more m2] eqn:Hq. injection Hd as <- <-.
  apply drain_queue_ok in Hq as (Hm & -> & Hp); [|exact (Hwf s)|lia]. simpl in Hp.
  eapply step_at; [done..| |exact Hp].
  pose proof (mail_drained n p (abs b s)) as Hs. unfold abs, pending in Hs |- *.
  rewrite split_matches_app, Hsp in Hs. by destruct (split_matches (n - length ys) p _).
Qed.

Lemma bus_step_ok b s lbl b' :
  bus_wf b -> bus_step b s lbl b' ->
  bus_wf b' /\ mail_step (abs b s) lbl (abs b' s) /\ forall s', s' <> s -> abs b' s' = abs b s'.
Proof.
  intros Hwf [e b1 calls <- Hp|e b1 calls <- Hp|t ws r b1 Hg|n r b1 Hd|t n ws r b1 Hd].
  - by apply (publish_ok e b true calls).
  - by apply (publish_ok e b false calls).
  - by apply get_for_turn_ok.
  - by apply drain_ok.
  - by apply drain_for_turn_ok.
Qed.
End refinement.

(** ** Histories *)

Section history.
Variables max_events_per_session dedupe_window : nat.

Abbreviation bus_step' := (bus_step max_events_per_session dedupe_window).

Definition new_bus : Bus :=
  {| bus_mailboxes := ∅; bus_subscribers := [];
     bus_metrics := {| em_published := 0; em_consumed := 0; em_duplicate_events := 0; em_publish_timeouts := 0;
                       em_queue_depth_peak := 0 |} |}.

(** The event a label sends and the events it hands out. *)
Definition sent_by (lbl : mail_label) : Mail := match lbl with Sent e => [e] | _ => [] end.
Definition handed_by (lbl : mail_label) : Mail :=
  match lbl with TookFirst _ r => option_list r | Drained _ _ r => r | _ => [] end.

(** Runs of the bus with what was sent to and handed out of every session; subscriptions
    come and go. *)
Inductive bus_run : Bus -> (string -> Mail) -> (string -> Mail) -> Prop :=
| run_new : bus_run new_bus (fun _ => []) (fun _ => [])
| run_call b sent handed s lbl b' :
    bus_run b sent handed -> bus_step' b s lbl b' ->
    bus_run b' (fun s' => sent s' ++ if decide (s = s') then sent_by lbl else [])
               (fun s' => handed s' ++ if decide (s = s') then handed_by lbl else [])
| run_subscribe b sent handed subs :
    bus_run b sent handed ->
    bus_run {| bus_mailboxes := bus_mailboxes b; bus_subscribers := subs; bus_metrics := bus_metrics b |} sent handed.

(** A worker's events of one Turn. *)
Definition of_worker (w t : string) (e : WorkerCompletedEvent) : bool :=
  String.eqb (we_worker_id e) w && String.eqb (we_parent_turn_id e) t.

(** A test that cannot tell two events of the same worker and Turn apart. *)
Definition by_stream (p : WorkerCompletedEvent -> bool) : Prop :=
  forall e e', we_worker_id e = we_worker_id e' -> we_parent_turn_id e = we_parent_turn_id e' -> p e = p e'.

Lemma matches_turn_by_stream t ws : by_stream (matches_turn t ws).
Proof. intros e e' Hw Ht. unfold matches_turn. by rewrite Hw, Ht. Qed.

Lemma of_worker_eq w t e e' : of_worker w t e = true -> of_worker w t e' = true ->
  we_worker_id e = we_worker_id e' /\ we_parent_turn_id e = we_parent_turn_id e'.
Proof.
  unfold of_worker. intros [H1%String.eqb_eq H2%String.eqb_eq]%andb_true_iff [H3%String.eqb_eq H4%String.eqb_eq]%andb_true_iff.
  by rewrite H1, H2, H3, H4.
Qed.

(** Taking by stream keeps the order inside a stream. *)
Lemma filter_none_of p w t l e :
  by_stream p -> of_worker w t e = true -> p e = true -> Forall (fun x => p x = false) l ->
  List.filter (of_worker w t) l = [].
Proof.
  intros Hp He Hpe. induction 1 as [|x l Hx _ IH]; [done|]. cbn. destruct (of_worker w t x) eqn:Hw; [|done].
  destruct (of_worker_eq _ _ _ _ He Hw) as [H1 H2]. rewrite (Hp _ _ H1 H2) in Hpe. congruence.
Qed.

Lemma split_matches_stream p w t : by_stream p -> forall l n,
  List.filter (of_worker w t) (split_matches n p l).1 ++ List.filter (of_worker w t) (split_matches n p l).2
  = List.filter (of_worker w t) l.
Proof.
  intros Hp. assert (Hnone : forall l n x, of_worker w t x = true -> p x = false ->
    List.filter (of_worker w t) (split_matches n p l).1 = []).
  { induction l as [|y l IH]; intros n x Hx Hpx; [done|]. destruct n as [|n]; [done|]. cbn.
    destruct (p y) eqn:Hy; specialize (IH n x Hx Hpx) as IH1; specialize (IH (S n) x Hx Hpx) as IH2;
      [destruct (split_matches n p l)|destruct (split_matches (S n) p l)]; cbn in *; [|done].
    destruct (of_worker w t y) eqn:Hwy; [|done]. destruct (of_worker_eq _ _ _ _ Hx Hwy) as [H1 H2].
    rewrite (Hp _ _ H1 H2) in Hpx. congruence. }
  induction l as [|x l IH]; intros n; [done|]. destruct n as [|n]; [done|]. cbn. destruct (p x) eqn:Hx.
  - specialize (IH n). destruct (split_matches n p l). cbn in *. destruct (of_worker w t x); cbn; by rewrite IH.
  - specialize (IH (S n)). specialize (Hnone l (S n) x). destruct (split_matches (S n) p l). cbn in *.
    destruct (of_worker w t x); [|done]. rewrite Hnone in * by done. cbn in *. by rewrite IH.
Qed.

Definition label_by_stream (lbl : mail_label) : Prop :=
  match lbl with TookFirst p _ | Drained _ p _ => by_stream p | _ => True end.

Lemma mail_step_stream l lbl l' w t :
  mail_step l lbl l' -> label_by_stream lbl ->
  List.filter (of_worker w t) (l ++ sent_by lbl)
  = List.filter (of_worker w t) (handed_by lbl) ++ List.filter (of_worker w t) l'.
Proof.
  intros [k e|k|p k _|p l1 e l2 Hf He|n p k] Hs; cbn [sent_by handed_by]; rewrite ?app_nil_r; try done.
  - cbn. rewrite !List.filter_app. cbn. destruct (of_worker w t e) eqn:Hw; [|done].
    by rewrite (filter_none_of p w t l1 e).
  - by rewrite split_matches_stream.
Qed.

Lemma bus_step_by_stream b s lbl b' : bus_step' b s lbl b' -> label_by_stream lbl.
Proof. intros []; cbn; try done; apply matches_turn_by_stream. Qed.

Lemma bus_run_ok b sent handed :
  bus_run b sent handed ->
  bus_wf max_events_per_session b /\
  forall s w t, List.filter (of_worker w t) (sent s)
                = List.filter (of_worker w t) (handed s) ++ List.filter (of_worker w t) (abs b s).
Proof.
  induction 1 as [|b sent handed s lbl b' _ [Hwf IH] Hs|b sent handed subs _ [Hwf IH]].
  - split; [|done]. intros s Ho. done.
  - pose proof (bus_step_by_stream _ _ _ _ Hs) as Hst. apply bus_step_ok in Hs as (Hwf' & Hm & Hother); [|done].
    split; [done|]. intros s' w t. destruct (decide (s = s')) as [<-|Hne].
    + rewrite !List.filter_app, IH, <- !app_assoc. f_equal. rewrite <- List.filter_app.
      by apply mail_step_stream.
    + rewrite !app_nil_r, Hother by done. apply IH.
  - by split.
Qed.

(** While no call suspends, the event bus refines one list per session: each call of
    [publish], [get_for_turn], [drain] and [drain_for_turn] appends to it, or removes exactly
    its first matches, in order, and leaves the other sessions alone, however the events are
    spread over the bounded queue, the overflow and the deferred list. *)
Lemma event_bus_refines_mailbox b sent handed s lbl b' :
  bus_run b sent handed -> bus_step' b s lbl b' ->
  mail_step (abs b s) lbl (abs b' s) /\ (forall s', s' <> s -> abs b' s' = abs b s')
  /\ forall s', has_pending s' b' = negb (bool_decide (abs b' s' = [])).
Proof.
  intros [Hwf _]%bus_run_ok Hs. apply bus_step_ok in Hs as (_ & Hm & Hother); [|done].
  split; [done|]. split; [done|]. intros s'. unfold has_pending, abs, pending.
  destruct (mailbox b' s') as [[] [] [] ? ?]; done.
Qed.

(** No completion is lost or delivered twice: in every run what was published of a
    worker's events for a Turn is, in order, what was handed out followed by what is still
    pending. *)
Lemma events_delivered_once_in_order b sent handed s w t :
  bus_run b sent handed ->
  List.filter (of_worker w t) (sent s)
  = List.filter (of_worker w t) (handed s) ++ List.filter (of_worker w t) (abs b s).
Proof. intros [_ H]%bus_run_ok. apply H. Qed.
End history.

(** ** Calls that suspend *)

Section interleaved.
Variables max_events_per_session dedupe_window : nat.

(** What a suspended call has in its hands: an event not yet stored, or taken and not yet
    handed out. *)
Definition in_flight (s : string) (t : BusTask) : Mail :=
  match t with
  | Putting e => if decide (we_session_id e = s) then [e] else []
  | Holding s' _ e => if decide (s' = s) then [e] else []
  | _ => []
  end.
Definition flight (s : string) (l : list BusTask) : Mail := l ≫= in_flight s.
Definition of_session (s : string) (l : list (string * WorkerCompletedEvent)) : Mail :=
  snd <$> List.filter (fun se : string * WorkerCompletedEvent => String.eqb se.1 s) l.

Definition accounted (s : string) (x : BusRun) : Mail :=
  of_session s (br_handed x) ++ abs (br_bus x) s ++ flight s (br_tasks x) ++ of_session s (br_withdrawn x).
Definition conserved (x : BusRun) : Prop := forall s, of_session s (br_accepted x) ≡ₚ accounted s x.

Lemma of_session_app s l k : of_session s (l ++ k) = of_session s l ++ of_session s k.
Proof. unfold of_session. by rewrite List.filter_app, fmap_app. Qed.
Lemma of_session_all s s' l :
  of_session s ((fun e => (s', e)) <$> l) = if decide (s' = s) then l else [].
Proof.
  unfold of_session. induction l as [|e l IH]; cbn; [by case_decide|]. destruct (String.eqb_spec s' s) as [->|Hne]; cbn.
  - rewrite decide_True in * by done. by rewrite IH.
  - rewrite decide_False in * by done. done.
Qed.
Lemma of_session_one s s' e : of_session s [(s', e)] = if decide (s' = s) then [e] else [].
Proof. exact (of_session_all s s' [e]). Qed.
Lemma flight_app s l k : flight s (l ++ k) = flight s l ++ flight s k.
Proof. unfold flight. apply bind_app. Qed.
Lemma flight_cons s t l : flight s (t :: l) = in_flight s t ++ flight s l.
Proof. done. Qed.

(** *** What a stretch does to the pending events, up to their order *)

Lemma refilled_pending m : pending (refilled max_events_per_session m) ≡ₚ pending m.
Proof.
  unfold refilled. destruct (refill _ _ _) as [q ov] eqn:Hr. apply refill_ok in Hr as [Heq _]. unfold pending. cbn.
  by rewrite Heq.
Qed.

Lemma remember_pending id m : pending (remember dedupe_window id m) = pending m.
Proof. unfold remember. by destruct (forget _ _ _). Qed.

Lemma take_queue_pending m e m' : take_queue m = Some (e, m') -> pending m ≡ₚ e :: pending m'.
Proof.
  unfold take_queue, pending. destruct (mb_queue m) as [|x q] eqn:Hq; [done|]. intros [= -> <-]. cbn. solve_Permutation.
Qed.

Lemma pop_pending m e m' : pop max_events_per_session m = Some (e, m') -> pending m ≡ₚ e :: pending m'.
Proof. intros (_ & Hd & Hl)%pop_some. unfold pending. rewrite Hl, Hd. solve_Permutation. Qed.

Lemma pop_many_pending n : forall m es m',
  pop_many max_events_per_session n m = (es, m') -> pending m ≡ₚ es ++ pending m'.
Proof.
  induction n as [|n IH]; intros m es m' Hr; cbn in Hr; [by injection Hr as <- <-|].
  destruct (pop _ m) as [[e m1]|] eqn:Hp; [|by injection Hr as <- <-].
  destruct (pop_many _ n m1) as [es1 m2] eqn:Hr1. injection Hr as <- <-. rewrite (pop_pending _ _ _ Hp), (IH _ _ _ Hr1). done.
Qed.

Lemma drain_mailbox_pending n m es m' :
  drain_mailbox max_events_per_session n m = (es, m') -> pending m ≡ₚ es ++ pending m'.
Proof.
  unfold drain_mailbox. set (m1 := with_lists m _ _ _). destruct (pop_many _ _ m1) as [es1 m2] eqn:Hr. intros [= <- <-].
  apply pop_many_pending in Hr. unfold m1, pending in *. cbn in *.
  set (k := (n - _ - _)%nat). rewrite <- (take_drop n (mb_deferred m)) at 1. rewrite <- app_assoc, Hr.
  rewrite <- (take_drop k (mb_overflow m2)) at 1. solve_Permutation.
Qed.

Lemma drain_queue_pending p fuel : forall n m es m',
  drain_queue max_events_per_session fuel n p m = (es, m') -> pending m ≡ₚ es ++ pending m'.
Proof.
  induction fuel as [|fuel IH]; intros n m es m' Hr; [by injection Hr as <- <-|].
  destruct n as [|n]; cbn in Hr; [by injection Hr as <- <-|].
  destruct (pop _ m) as [[e m1]|] eqn:Hp; [|by injection Hr as <- <-]. rewrite (pop_pending _ _ _ Hp). destruct (p e).
  - destruct (drain_queue _ fuel n p m1) as [es1 m2] eqn:Hr1. injection Hr as <- <-. by rewrite (IH _ _ _ _ Hr1).
  - rewrite <- (IH _ _ _ _ Hr). unfold pending. cbn. solve_Permutation.
Qed.

Lemma split_matches_perm p l : forall n, l ≡ₚ (split_matches n p l).1 ++ (split_matches n p l).2.
Proof.
  induction l as [|x l IH]; intros n; [done|]. destruct n as [|n]; [done|]. cbn. destruct (p x).
  - specialize (IH n). destruct (split_matches n p l). cbn in *. by rewrite IH at 1.
  - specialize (IH (S n)). destruct (split_matches (S n) p l) as [ys ns]. cbn in *. rewrite IH at 1. solve_Permutation.
Qed.

(** *** Every step conserves *)

Lemma abs_on_mailbox s f b s' : abs (on_mailbox s f b) s' = if decide (s = s') then pending (f (mailbox b s)) else abs b s'.
Proof. unfold abs, on_mailbox. rewrite mailbox_set. by case_decide. Qed.

Lemma abs_settle timed_out e b s : abs (settle_publish dedupe_window timed_out e b).2 s = abs b s.
Proof.
  unfold settle_publish. cbn [snd]. unfold abs. rewrite mailbox_set. case_decide as Hs; [|done]. subst s. apply remember_pending.
Qed.

Lemma drain_abs s n b r b' s' :
  drain max_events_per_session s n b = (r, b') -> abs b s' ≡ₚ (if decide (s = s') then r else []) ++ abs b' s'.
Proof.
  unfold drain. destruct (drain_mailbox _ _ _) as [es m] eqn:Hm. intros [= <- <-]. apply drain_mailbox_pending in Hm.
  unfold abs. rewrite mailbox_set. case_decide as Hs; [by subst s'|done].
Qed.

Lemma drain_for_turn_abs s t n ws b r b' s' :
  drain_for_turn max_events_per_session s t n ws b = (r, b') -> abs b s' ≡ₚ (if decide (s = s') then r else []) ++ abs b' s'.
Proof.
  unfold drain_for_turn. set (m := mailbox b s). destruct (split_matches _ _ _) as [ys ns] eqn:Hsp.
  destruct (drain_queue _ _ _ _ _) as [more m2] eqn:Hq. intros [= <- <-]. apply drain_queue_pending in Hq.
  pose proof (split_matches_perm (matches_turn t ws) (mb_deferred m) n) as Hp. rewrite Hsp in Hp. cbn in Hp.
  unfold abs. rewrite mailbox_set. case_decide as Hs; [subst s'|done]. rewrite <- app_assoc, <- Hq. unfold pending. cbn.
  fold m. rewrite Hp at 1. solve_Permutation.
Qed.

Lemma conserved_step x x' :
  bus_task_step max_events_per_session dedupe_window x x' -> conserved x -> conserved x'.
Proof.
  intros Hs Hc s. specialize (Hc s). unfold accounted in *.
  destruct Hs as [e _|e _|l1 e l2 Ht _|l1 e l2 Ht|l1 e l2 Ht|l1 e l2 Ht|s1 sel e d Hd|s1 sel _|l1 s1 sel l2 e m Ht Hq
    |l1 s1 sel e l2 Ht Ha|l1 s1 sel e l2 again Ht Ha|l1 s1 sel l2 Ht|s1 n r b Hr|s1 t n ws r b Hr|subs];
    cbn [run_with run_accept run_hand run_withdraw run_settle br_bus br_tasks br_accepted br_handed br_withdrawn];
    rewrite ?of_session_app, ?of_session_one, ?of_session_all, ?flight_app, ?abs_settle, ?abs_on_mailbox;
    try (rewrite Hc; try rewrite Ht; rewrite ?flight_app, ?flight_cons; cbn [in_flight]).
  - done.
  - change (flight s [Putting e]) with ((if decide (we_session_id e = s) then [e] else []) ++ []). solve_Permutation.
  - case_decide as Hd; [subst s|done]. unfold abs, store, pending. cbn. solve_Permutation.
  - done.
  - case_decide as Hd; [subst s|done]. unfold abs, overflow, pending. cbn. solve_Permutation.
  - solve_Permutation.
  - change (abs (count_consumed 1 ?b) s) with (abs b s). rewrite abs_on_mailbox. destruct (decide (s1 = s)) as [->|_]; [|by rewrite app_nil_r].
    destruct sel as [|t ws]; [done|]. cbn in Hd. apply take_first_some in Hd as (k1 & k2 & Hl & -> & _).
    unfold abs, pending. cbn. rewrite Hl. solve_Permutation.
  - by rewrite app_nil_r.
  - destruct (decide (s1 = s)) as [->|_]; [|done]. unfold abs at 1.
    rewrite (take_queue_pending _ _ _ Hq). solve_Permutation.
  - change (abs (count_consumed 1 ?b) s) with (abs b s). rewrite abs_on_mailbox. destruct (decide (s1 = s)) as [->|_]; [|by rewrite !app_nil_r].
    rewrite refilled_pending. unfold abs. solve_Permutation.
  - assert (Hw : flight s (if again then [Waiting s1 sel] else []) = []) by by destruct again.
    rewrite Hw. destruct (decide (s1 = s)) as [->|_]; [|done].
    assert (Hp : pending (defer e (refilled max_events_per_session (mailbox (br_bus x) s))) ≡ₚ e :: abs (br_bus x) s).
    { unfold abs. rewrite <- (refilled_pending (mailbox (br_bus x) s)). unfold defer, pending. cbn. solve_Permutation. }
    rewrite Hp. solve_Permutation.
  - done.
  - rewrite (drain_abs _ _ _ _ _ s Hr). solve_Permutation.
  - rewrite (drain_for_turn_abs _ _ _ _ _ _ _ s Hr). solve_Permutation.
  - done.
Qed.

Definition new_run : BusRun :=
  {| br_bus := new_bus; br_tasks := []; br_accepted := []; br_handed := []; br_withdrawn := []; br_settled := [] |}.
Abbreviation bus_steps := (rtc (bus_task_step max_events_per_session dedupe_window) new_run).

(** *** The window of remembered identifiers *)

Definition memory (m : Mailbox) : gset string * list string := (mb_seen_ids m, mb_seen_order m).
Definition settled (s : string) (x : BusRun) : list string :=
  snd <$> List.filter (fun si : string * string => String.eqb si.1 s) (br_settled x).
Definition last_n {A} (n : nat) (l : list A) : list A := drop (length l - n) l.

Lemma last_n_snoc {A} n (l : list A) x :
  drop (length (last_n n l ++ [x]) - n) (last_n n l ++ [x]) = last_n n (l ++ [x]).
Proof.
  unfold last_n. rewrite !length_app, length_drop. cbn [length]. destruct (decide (length l <= n)%nat) as [Hle|Hgt].
  - replace (length l - n)%nat with 0%nat by lia. by rewrite drop_0, Nat.sub_0_r.
  - rewrite <- (drop_app_le l [x]) by lia. rewrite drop_drop. f_equal. lia.
Qed.

Lemma forget_spec k seen order : forget k seen order = (seen ∖ list_to_set (take k order), drop k order).
Proof.
  revert seen order. induction k as [|k IH]; intros seen order; cbn.
  - f_equal. set_solver.
  - destruct order as [|id order]; cbn; [f_equal; set_solver|]. rewrite IH. f_equal. set_solver.
Qed.

Lemma memory_remember id m :
  memory (remember dedupe_window id m)
  = let order := mb_seen_order m ++ [id] in let k := (length order - dedupe_window)%nat in
    (({[id]} ∪ mb_seen_ids m) ∖ list_to_set (take k order), drop k order).
Proof. unfold remember, memory. by rewrite forget_spec. Qed.

(** The order is that of the last publications, and while they differ so is the set. *)
Definition window_ok (l : list string) (mem : gset string * list string) : Prop :=
  mem.2 = last_n dedupe_window l /\ (NoDup l -> mem.1 = list_to_set mem.2).

Lemma window_remember l id m :
  window_ok l (memory m) -> window_ok (l ++ [id]) (memory (remember dedupe_window id m)).
Proof.
  unfold window_ok. rewrite memory_remember. cbn [memory fst snd]. intros [Ho Hs]. rewrite Ho in *. split; [apply last_n_snoc|].
  intros Hn. assert (Hl : NoDup l) by by apply NoDup_app in Hn as [? _]. rewrite (Hs Hl).
  assert (Hnd : NoDup (last_n dedupe_window l ++ [id])).
  { eapply sublist_NoDup; [exact Hn|]. apply sublist_app; [apply sublist_drop|done]. }
  set (k := (_ - _)%nat). rewrite <- (take_drop k (last_n dedupe_window l ++ [id])) in Hnd.
  apply NoDup_app in Hnd as (_ & Hdis & _).
  assert (Hall : {[id]} ∪ list_to_set (last_n dedupe_window l)
                 =@{gset string} list_to_set (take k (last_n dedupe_window l ++ [id])) ∪ list_to_set (drop k (last_n dedupe_window l ++ [id]))).
  { rewrite <- list_to_set_app_L, take_drop, list_to_set_app_L. set_solver. }
  rewrite Hall. apply set_eq. intros i. rewrite elem_of_difference, elem_of_union, !elem_of_list_to_set.
  specialize (Hdis i). tauto.
Qed.

(** *** Everything else leaves the memory alone *)

Lemma memory_pop m e m' : pop max_events_per_session m = Some (e, m') -> memory m' = memory m.
Proof. unfold pop. destruct (mb_queue m); [done|]. destruct (refill _ _ _). by intros [= _ <-]. Qed.

Lemma memory_pop_many n m es m' : pop_many max_events_per_session n m = (es, m') -> memory m' = memory m.
Proof.
  revert m es m'. induction n as [|n IH]; intros m es m' Hr; cbn in Hr; [by injection Hr as _ <-|].
  destruct (pop _ m) as [[e m1]|] eqn:Hp; [|by injection Hr as _ <-].
  destruct (pop_many _ n m1) as [es1 m2] eqn:Hr1. injection Hr as _ <-. rewrite (IH _ _ _ Hr1). by eapply memory_pop.
Qed.

Lemma memory_drain_mailbox n m es m' : drain_mailbox max_events_per_session n m = (es, m') -> memory m' = memory m.
Proof.
  unfold drain_mailbox. destruct (pop_many _ _ _) as [es1 m2] eqn:Hr. intros [= _ <-].
  apply memory_pop_many in Hr. exact Hr.
Qed.

Lemma memory_drain_queue p fuel n m es m' : drain_queue max_events_per_session fuel n p m = (es, m') -> memory m' = memory m.
Proof.
  revert n m es m'. induction fuel as [|fuel IH]; intros n m es m' Hr; [by injection Hr as _ <-|].
  destruct n as [|n]; cbn in Hr; [by injection Hr as _ <-|].
  destruct (pop _ m) as [[e m1]|] eqn:Hp; [|by injection Hr as _ <-]. rewrite <- (memory_pop _ _ _ Hp). destruct (p e).
  - destruct (drain_queue _ fuel n p m1) as [es1 m2] eqn:Hr1. injection Hr as _ <-. by eapply IH.
  - by apply IH in Hr.
Qed.

Lemma memory_on_mailbox s f b s' :
  memory (f (mailbox b s)) = memory (mailbox b s) -> memory (mailbox (on_mailbox s f b) s') = memory (mailbox b s').
Proof. intros Hf. unfold on_mailbox. rewrite mailbox_set. case_decide as Hs; [by subst|done]. Qed.

Lemma memory_refilled m : memory (refilled max_events_per_session m) = memory m.
Proof. unfold refilled. by destruct (refill _ _ _). Qed.

Definition remembers (x : BusRun) : Prop := forall s, window_ok (settled s x) (memory (mailbox (br_bus x) s)).

Lemma remembers_same x x' :
  remembers x -> br_settled x' = br_settled x ->
  (forall s, memory (mailbox (br_bus x') s) = memory (mailbox (br_bus x) s)) -> remembers x'.
Proof. intros Hx Hs Hm s. unfold settled. rewrite Hs, Hm. apply Hx. Qed.

Lemma remembers_settled x b timed_out e tasks :
  remembers x -> (forall s, memory (mailbox b s) = memory (mailbox (br_bus x) s)) ->
  remembers (run_settle e (run_with (settle_publish dedupe_window timed_out e b).2 tasks x)).
Proof.
  intros Hx Hb s. unfold settled, settle_publish. cbn [run_settle run_with br_settled br_bus snd].
  rewrite List.filter_app, fmap_app, mailbox_set. cbn [List.filter fst]. case_decide as Hs.
  - subst s. rewrite String.eqb_refl. apply window_remember. rewrite Hb. apply Hx.
  - rewrite (proj2 (String.eqb_neq _ _) Hs). rewrite app_nil_r, Hb. apply Hx.
Qed.

Lemma remembers_step x x' : bus_task_step max_events_per_session dedupe_window x x' -> remembers x -> remembers x'.
Proof.
  intros [e _|e _|l1 e l2 Ht _|l1 e l2 Ht|l1 e l2 Ht|l1 e l2 Ht|s1 sel e d Hd|s1 sel _|l1 s1 sel l2 e m Ht Hq
    |l1 s1 sel e l2 Ht Ha|l1 s1 sel e l2 again Ht Ha|l1 s1 sel l2 Ht|s1 n r b Hr|s1 t n ws r b Hr|subs] Hx;
    try (by eapply remembers_same);
    try (apply remembers_settled; [done|]; intros s; done || by apply memory_on_mailbox);
    apply (remembers_same x); try done; intros s; cbn [run_with run_hand br_bus];
    try (change (mailbox (count_consumed 1 ?b) s) with (mailbox b s)); try (apply memory_on_mailbox).
  - done.
  - done.
  - unfold take_queue in Hq. destruct (mb_queue _); [done|]. by injection Hq as _ <-.
  - apply memory_refilled.
  - apply memory_refilled.
  - unfold drain in Hr. destruct (drain_mailbox _ _ _) as [es m] eqn:Hm. injection Hr as _ <-. rewrite mailbox_set.
    case_decide as Hs; [subst s1|done]. by apply memory_drain_mailbox in Hm.
  - unfold drain_for_turn in Hr. destruct (split_matches _ _ _) as [ys ns]. destruct (drain_queue _ _ _ _ _) as [more m2] eqn:Hm.
    injection Hr as _ <-. rewrite mailbox_set. case_decide as Hs; [subst s1|done]. by apply memory_drain_queue in Hm.
Qed.

(** C32: no completion is lost and none is handed out twice, however publishers, [get],
    [get_for_turn] and the two drains interleave at their awaits, time out or are cancelled:
    the events of a session that [publish] took on (those not refused as duplicates) are, each
    exactly once, the events handed out, the events the bus still has in its queue, overflow or
    deferred list, the events in the hands of a suspended call, and the events whose publisher
    was cancelled before they were stored.  As long as no identifier went through [publish]
    twice, those that are refused as duplicates are exactly the last [dedupe_window] that went
    through.  [has_pending] is true exactly while the bus has an event. *)
Theorem events_neither_lost_nor_repeated x s :
  bus_steps x ->
  of_session s (br_accepted x)
    ≡ₚ of_session s (br_handed x) ++ abs (br_bus x) s ++ flight s (br_tasks x) ++ of_session s (br_withdrawn x)
  /\ (NoDup (settled s x) -> forall id,
        id ∈ mb_seen_ids (mailbox (br_bus x) s) <-> id ∈ last_n dedupe_window (settled s x))
  /\ has_pending s (br_bus x) = negb (bool_decide (abs (br_bus x) s = [])).
Proof.
  intros Hrun. assert (Hc : conserved x /\ remembers x).
  { revert Hrun. apply (rtc_ind_r (fun x => conserved x /\ remembers x)).
    - split; [intros s'; done|]. intros s'. split; [done|]. by intros _.
    - intros y z _ Hs [Hy Hr]. split; [by eapply conserved_step|by eapply remembers_step]. }
  destruct Hc as [Hc Hm]. split_and!; [apply Hc| |].
  - intros Hn id. destruct (Hm s) as [Ho Hs]. cbn in Ho, Hs. by rewrite (Hs Hn), Ho, elem_of_list_to_set.
  - unfold has_pending, abs, pending. by destruct (mailbox (br_bus x) s) as [[] [] [] ? ?].
Qed.

(** A call that never suspends is the method as a whole. *)
Lemma publish_is_its_stretches e b :
  we_event_id e ∉ mb_seen_ids (mailbox b (we_session_id e)) ->
  let full := queue_full max_events_per_session (mb_queue (mailbox b (we_session_id e))) in
  let b1 := on_mailbox (we_session_id e) (if full then overflow e else store e) b in
  publish max_events_per_session dedupe_window e b
  = (true, (settle_publish dedupe_window full e b1).1, (settle_publish dedupe_window full e b1).2).
Proof.
  intros Hno. cbv zeta. unfold publish, settle_publish, on_mailbox. rewrite bool_decide_eq_false_2 by done.
  set (s := we_session_id e). set (m := mailbox b s). rewrite mailbox_set, decide_True by done. cbn [fst snd].
  unfold set_mailbox. cbn [bus_mailboxes bus_subscribers bus_metrics]. rewrite insert_insert_eq.
  by destruct (queue_full max_events_per_session (mb_queue m)).
Qed.

Lemma pop_is_its_stretches m :
  pop max_events_per_session m =
  match take_queue m with Some (e, m') => Some (e, refilled max_events_per_session m') | None => None end.
Proof. unfold pop, take_queue, refilled. destruct (mb_queue m); [done|]. cbn. by destruct (refill _ _ _). Qed.
End interleaved.

(** ** A concrete run: a queue of one, an overflow, and a Turn that waits for its own event *)

Module EventsExample.
Definition event (id w t : string) : WorkerCompletedEvent :=
  {| we_event_id := id; we_session_id := "s"; we_worker_id := w; we_parent_turn_id := t; we_attempt := 1;
     we_execution := {| er_status := "completed"; er_termination_reason := "completed" |}; we_join := true |}.
Definition e1 := event "1" "w1" "t1".
Definition e2 := event "2" "w2" "t2".
Definition bus1 : Bus := (publish 1 10 e1 new_bus).2.
Definition bus2 : Bus := (publish 1 10 e2 bus1).2.
Definition bus3 : Bus := (get_for_turn 1 "s" "t2" None bus2).2.
Definition sent (s' : string) : Mail :=
  (([] ++ if decide ("s" = s') then [e1] else []) ++ if decide ("s" = s') then [e2] else []).
Definition none (s' : string) : Mail :=
  (([] ++ if decide ("s" = s') then [] else []) ++ if decide ("s" = s') then [] else []).

Lemma run2 : bus_run 1 10 bus2 sent none.
Proof.
  apply (run_call 1 10 bus1 (fun s' => [] ++ if decide ("s" = s') then [e1] else [])
           (fun s' => [] ++ if decide ("s" = s') then [] else []) "s" (Sent e2) bus2).
  - apply (run_call 1 10 new_bus (fun _ => []) (fun _ => []) "s" (Sent e1) bus1); [constructor|].
    eapply (bus_publish _ _ _ _ e1); [done|]. vm_compute. reflexivity.
  - eapply (bus_publish _ _ _ _ e2); [done|]. vm_compute. reflexivity.
Qed.
End EventsExample.

(** Two events meet a queue of one; a consumer takes the first, the second arrives in time. *)
Module InterleavedExample.
Import EventsExample.
Definition x1 : BusRun := run_accept "s" e1 (run_with new_bus ([] ++ [Putting e1]) new_run).
Definition x2 : BusRun := run_with (on_mailbox "s" (store e1) (br_bus x1)) ([] ++ Stored e1 :: []) x1.
Definition x3 : BusRun := run_settle e1 (run_with (settle_publish 10 false e1 (br_bus x2)).2 ([] ++ []) x2).
Definition x4 : BusRun := run_accept "s" e2 (run_with (br_bus x3) (br_tasks x3 ++ [Putting e2]) x3).
Definition x5 : BusRun := run_with (br_bus x4) (br_tasks x4 ++ [Waiting "s" AnyEvent]) x4.
Definition m6 : Mailbox := with_lists (mailbox (br_bus x5) "s") [] [] [].
Definition x6 : BusRun := run_with (on_mailbox "s" (fun _ => m6) (br_bus x5)) ([Putting e2] ++ Holding "s" AnyEvent e1 :: []) x5.
Definition x7 : BusRun :=
  run_hand "s" [e1] (run_with (count_consumed 1 (on_mailbox "s" (refilled 1) (br_bus x6))) ([Putting e2] ++ []) x6).
(** The put of [e2] runs into its timeout although the queue is empty by now. *)
Definition x8 : BusRun :=
  run_settle e2 (run_with (settle_publish 10 true e2 (on_mailbox "s" (overflow e2) (br_bus x7))).2 ([] ++ []) x7).

Lemma reach7 : rtc (bus_task_step 1 10) new_run x7.
Proof.
  eapply rtc_l; [apply (bt_publish 1 10 new_run e1); apply (bool_decide_unpack _); vm_compute; exact I|]. change (run_accept _ e1 _) with x1.
  eapply rtc_l; [apply (bt_put 1 10 x1 [] e1 []); reflexivity|]. change (run_with _ ([] ++ Stored e1 :: []) _) with x2.
  eapply rtc_l; [apply (bt_settle 1 10 x2 [] e1 []); reflexivity|]. change (run_settle _ (run_with _ ([] ++ []) _)) with x3.
  eapply rtc_l; [apply (bt_publish 1 10 x3 e2); apply (bool_decide_unpack _); vm_compute; exact I|].
  change (run_accept _ e2 _) with x4.
  eapply rtc_l; [apply (bt_wait 1 10 x4 "s" AnyEvent); reflexivity|]. change (run_with _ (_ ++ [Waiting _ _]) _) with x5.
  eapply rtc_l; [apply (bt_take 1 10 x5 [Putting e2] "s" AnyEvent [] e1 m6); reflexivity|].
  change (run_with _ (_ ++ Holding _ _ _ :: []) _) with x6.
  apply rtc_once. apply (bt_hand 1 10 x6 [Putting e2] "s" AnyEvent e1 []); reflexivity.
Qed.

(** The event is then in the overflow of an empty queue, where a waiting consumer does not look. *)
Lemma stranded_in_overflow :
  rtc (bus_task_step 1 10) new_run x8 /\ mb_queue (mailbox (br_bus x8) "s") = [] /\
  mb_overflow (mailbox (br_bus x8) "s") = [e2] /\ take_queue (mailbox (br_bus x8) "s") = None.
Proof.
  split; [|split_and!; vm_compute; reflexivity]. eapply rtc_r; [exact reach7|].
  apply (bt_timed_out 1 10 x7 [] e2 []). reflexivity.
Qed.
End InterleavedExample.

Lemma events_neither_lost_nor_repeated_witness :
  [EventsExample.e1; EventsExample.e2] ≡ₚ [EventsExample.e1] ++ [] ++ [EventsExample.e2] ++ [] /\
  ("1" ∈ mb_seen_ids (mailbox (br_bus InterleavedExample.x7) "s") <-> "1" ∈ ["1"]) /\
  has_pending "s" (br_bus InterleavedExample.x7) = false.
Proof.
  destruct (events_neither_lost_nor_repeated 1 10 InterleavedExample.x7 "s" InterleavedExample.reach7) as (H1 & H2 & H3).
  split; [exact H1|]. split; [|exact H3]. exact (H2 (NoDup_singleton "1") "1").
Defined.
