(* ===== verification/WorkerTasks.v ===== *)
(** * WorkerTasks: lifecycle, capacity and cancellation of worker agents

    [core/worker_lifecycle.py], [core/task_manager.py], the barrier of
    [core/coordinator_runtime.py] and the life of one worker as
    [server/tools/worker_tool.py] drives it.  [TaskManager] is a mutable object used from one
    event loop: a method runs to its end, or to the [await] of a capacity waiter, before
    anything else does, and an exception keeps what was done ([Prelude.Py]).  The two
    dictionaries are insertion-ordered lists keyed by task identifier.  Times are
    microseconds; the metadata of trace events, log lines and the summaries that [stop_task] and
    [cancel_workers] answer with are not modelled. *)
From S2P Require Import Prelude WorkerEvents.
Local Open Scope Z_scope.

(** ** [core/worker_lifecycle.py] *)

Inductive WorkerLifecycleStatus :=
| pending | running | waiting | retrying | cancelling | completed | failed | cancelled | timed_out.

#[export] Instance status_eq_dec : EqDecision WorkerLifecycleStatus.
Proof. solve_decision. Defined.

Definition TERMINAL_STATUSES : list WorkerLifecycleStatus := [completed; failed; cancelled; timed_out].

Definition ALLOWED_TRANSITIONS (s : WorkerLifecycleStatus) : list WorkerLifecycleStatus :=
  match s with
  | pending => [running; cancelling; cancelled; failed]
  | running => [waiting; retrying; cancelling; completed; failed; cancelled; timed_out]
  | waiting => [running; retrying; cancelling; failed; cancelled; timed_out]
  | retrying => [running; cancelling; failed; cancelled; timed_out]
  | cancelling => [cancelled; failed]
  | completed | failed | cancelled | timed_out => []
  end.

Definition terminal (s : WorkerLifecycleStatus) : bool := bool_decide (s ∈ TERMINAL_STATUSES).

Definition status_name (s : WorkerLifecycleStatus) : string :=
  match s with
  | pending => "pending" | running => "running" | waiting => "waiting" | retrying => "retrying"
  | cancelling => "cancelling" | completed => "completed" | failed => "failed"
  | cancelled => "cancelled" | timed_out => "timed_out"
  end.

(** [validate_transition]: true when it does not raise. *)
Definition validate_transition (current target : WorkerLifecycleStatus) : bool :=
  bool_decide (current = target) || bool_decide (target ∈ ALLOWED_TRANSITIONS current).

Inductive TaskError := ValueError | InvalidWorkerTransition | CancelledError | RecursionError.

Record WorkerResourceBudget := {
  max_turns : Z;
  max_duration : Z;
  max_tokens : Z;
  max_tool_calls : Z;
  max_injections : Z;
  injection_batch_size : Z;
  max_tool_result_chars : Z;
  finalize_on_exhaustion : bool;
}.

(** [WorkerResourceBudget.__post_init__]. *)
Definition budget_valid (b : WorkerResourceBudget) : bool :=
  (1 <=? max_turns b) && (0 <? max_duration b) && (1 <=? max_tokens b) && (0 <=? max_tool_calls b)
  && (0 <=? max_injections b) && (1 <=? injection_batch_size b) && (512 <=? max_tool_result_chars b).

Record WorkerRetryPolicy := {
  max_attempts : Z;
  base_delay : Z;
  max_delay : Z;
  retryable_categories : list string;
}.

(** [WorkerRetryPolicy.__post_init__]. *)
Definition retry_policy_valid (p : WorkerRetryPolicy) : bool :=
  (1 <=? max_attempts p) && (0 <=? base_delay p) && (0 <=? max_delay p).

Definition delay_for (p : WorkerRetryPolicy) (completed_attempts : Z) : Z :=
  Z.min (max_delay p) (base_delay p * 2 ^ Z.max 0 (completed_attempts - 1)).

Definition should_retry (p : WorkerRetryPolicy) (category : string) (attempt : Z) : bool :=
  (attempt <? max_attempts p) && string_in category (retryable_categories p).

(** ** Task records *)

(** [WorkerCommand]. *)
Record WorkerCommand := {
  cmd_id : string;
  cmd_session_id : string;
  cmd_worker_id : string;
  cmd_kind : string;
  cmd_content : string;
}.

(** [WorkerTraceEvent]. *)
Record WorkerTraceEvent := {
  te_sequence : Z;
  te_timestamp : Z;
  te_status : WorkerLifecycleStatus;
  te_reason : string;
  te_attempt : Z;
}.

Inductive WorkerWaitMode := wait_all | wait_any | wait_quorum.

#[export] Instance wait_mode_eq_dec : EqDecision WorkerWaitMode.
Proof. solve_decision. Defined.

(** The fields of [ActiveTaskInfo] fixed at registration. *)
Record TaskSpec := {
  tk_task_id : string;
  tk_task_type : string;
  tk_command : string;
  tk_session_id : string;
  tk_join : bool;
  tk_parent_turn_id : string;
  tk_parent_worker_id : string;
  tk_wait_mode : WorkerWaitMode;
  tk_quorum : Z;
  tk_wait_timeout : Z;
  tk_created_at : Z;
  tk_budget : WorkerResourceBudget;
  tk_retry_policy : WorkerRetryPolicy;
}.

(** [ActiveTaskInfo]; [tk_future_cancelled] says that [future.cancel()] was called. *)
Record ActiveTaskInfo := {
  tk_spec : TaskSpec;
  tk_attempt : Z;
  tk_status : WorkerLifecycleStatus;
  tk_started_at : option Z;
  tk_completed_at : option Z;
  tk_wait_consumed : bool;
  tk_capacity_acquired : bool;
  tk_cancellation_reason : string;
  tk_result : option ExecutionResult;
  tk_pending_messages : list WorkerCommand;
  tk_trace : list WorkerTraceEvent;
  tk_future_cancelled : bool;
}.

Definition task_id (t : ActiveTaskInfo) : string := tk_task_id (tk_spec t).
Definition session_of (t : ActiveTaskInfo) : string := tk_session_id (tk_spec t).

(** [task.status = status] with the times it stamps. *)
Definition with_status (s : WorkerLifecycleStatus) (now_ : Z) (t : ActiveTaskInfo) : ActiveTaskInfo :=
  {| tk_spec := tk_spec t; tk_attempt := tk_attempt t; tk_status := s;
     tk_started_at := if bool_decide (s = running) && bool_decide (tk_started_at t = None)
                      then Some now_ else tk_started_at t;
     tk_completed_at := if terminal s then Some now_ else tk_completed_at t;
     tk_wait_consumed := tk_wait_consumed t; tk_capacity_acquired := tk_capacity_acquired t;
     tk_cancellation_reason := tk_cancellation_reason t; tk_result := tk_result t;
     tk_pending_messages := tk_pending_messages t; tk_trace := tk_trace t;
     tk_future_cancelled := tk_future_cancelled t |}.

Definition with_attempt (n : Z) (t : ActiveTaskInfo) : ActiveTaskInfo :=
  {| tk_spec := tk_spec t; tk_attempt := n; tk_status := tk_status t; tk_started_at := tk_started_at t;
     tk_completed_at := tk_completed_at t; tk_wait_consumed := tk_wait_consumed t;
     tk_capacity_acquired := tk_capacity_acquired t; tk_cancellation_reason := tk_cancellation_reason t;
     tk_result := tk_result t; tk_pending_messages := tk_pending_messages t; tk_trace := tk_trace t;
     tk_future_cancelled := tk_future_cancelled t |}.

Definition with_consumed (t : ActiveTaskInfo) : ActiveTaskInfo :=
  {| tk_spec := tk_spec t; tk_attempt := tk_attempt t; tk_status := tk_status t; tk_started_at := tk_started_at t;
     tk_completed_at := tk_completed_at t; tk_wait_consumed := true;
     tk_capacity_acquired := tk_capacity_acquired t; tk_cancellation_reason := tk_cancellation_reason t;
     tk_result := tk_result t; tk_pending_messages := tk_pending_messages t; tk_trace := tk_trace t;
     tk_future_cancelled := tk_future_cancelled t |}.

Definition with_capacity (b : bool) (t : ActiveTaskInfo) : ActiveTaskInfo :=
  {| tk_spec := tk_spec t; tk_attempt := tk_attempt t; tk_status := tk_status t; tk_started_at := tk_started_at t;
     tk_completed_at := tk_completed_at t; tk_wait_consumed := tk_wait_consumed t;
     tk_capacity_acquired := b; tk_cancellation_reason := tk_cancellation_reason t;
     tk_result := tk_result t; tk_pending_messages := tk_pending_messages t; tk_trace := tk_trace t;
     tk_future_cancelled := tk_future_cancelled t |}.

(** [task.cancellation_reason = reason]; [task.future.cancel()]. *)
Definition with_cancellation_reason (reason : string) (t : ActiveTaskInfo) : ActiveTaskInfo :=
  {| tk_spec := tk_spec t; tk_attempt := tk_attempt t; tk_status := tk_status t; tk_started_at := tk_started_at t;
     tk_completed_at := tk_completed_at t; tk_wait_consumed := tk_wait_consumed t;
     tk_capacity_acquired := tk_capacity_acquired t; tk_cancellation_reason := reason;
     tk_result := tk_result t; tk_pending_messages := tk_pending_messages t; tk_trace := tk_trace t;
     tk_future_cancelled := tk_future_cancelled t |}.

Definition with_future_cancelled (t : ActiveTaskInfo) : ActiveTaskInfo :=
  {| tk_spec := tk_spec t; tk_attempt := tk_attempt t; tk_status := tk_status t; tk_started_at := tk_started_at t;
     tk_completed_at := tk_completed_at t; tk_wait_consumed := tk_wait_consumed t;
     tk_capacity_acquired := tk_capacity_acquired t; tk_cancellation_reason := tk_cancellation_reason t;
     tk_result := tk_result t; tk_pending_messages := tk_pending_messages t; tk_trace := tk_trace t;
     tk_future_cancelled := true |}.

(** [task.result = result or task.result]. *)
Definition with_result (r : option ExecutionResult) (t : ActiveTaskInfo) : ActiveTaskInfo :=
  {| tk_spec := tk_spec t; tk_attempt := tk_attempt t; tk_status := tk_status t; tk_started_at := tk_started_at t;
     tk_completed_at := tk_completed_at t; tk_wait_consumed := tk_wait_consumed t;
     tk_capacity_acquired := tk_capacity_acquired t; tk_cancellation_reason := tk_cancellation_reason t;
     tk_result := match r with Some _ => r | None => tk_result t end;
     tk_pending_messages := tk_pending_messages t; tk_trace := tk_trace t;
     tk_future_cancelled := tk_future_cancelled t |}.

Definition with_messages (l : list WorkerCommand) (t : ActiveTaskInfo) : ActiveTaskInfo :=
  {| tk_spec := tk_spec t; tk_attempt := tk_attempt t; tk_status := tk_status t; tk_started_at := tk_started_at t;
     tk_completed_at := tk_completed_at t; tk_wait_consumed := tk_wait_consumed t;
     tk_capacity_acquired := tk_capacity_acquired t; tk_cancellation_reason := tk_cancellation_reason t;
     tk_result := tk_result t; tk_pending_messages := l; tk_trace := tk_trace t;
     tk_future_cancelled := tk_future_cancelled t |}.

Definition with_trace (l : list WorkerTraceEvent) (t : ActiveTaskInfo) : ActiveTaskInfo :=
  {| tk_spec := tk_spec t; tk_attempt := tk_attempt t; tk_status := tk_status t; tk_started_at := tk_started_at t;
     tk_completed_at := tk_completed_at t; tk_wait_consumed := tk_wait_consumed t;
     tk_capacity_acquired := tk_capacity_acquired t; tk_cancellation_reason := tk_cancellation_reason t;
     tk_result := tk_result t; tk_pending_messages := tk_pending_messages t; tk_trace := l;
     tk_future_cancelled := tk_future_cancelled t |}.

(** [TaskManagerMetrics]. *)
Record TaskManagerMetrics := {
  m_commands_enqueued : nat;
  m_commands_rejected : nat;
  m_terminal_tasks_pruned : nat;
  m_lifecycle_transitions : nat;
  m_cancellations_requested : nat;
  m_capacity_waits : nat;
}.

(** A future of [_capacity_waiters]: its identity, whether it is done, and the task (with its
    session) whose coroutine awaits it. *)
Record Waiter := { w_key : nat; w_task : string; w_session : string; w_done : bool }.

(** The state of [TaskManager]. *)
Record TaskManager := {
  tm_active_tasks : list ActiveTaskInfo;
  tm_terminal_tasks : list ActiveTaskInfo;
  tm_metrics : TaskManagerMetrics;
  tm_running_total : Z;
  tm_running_by_session : gmap string Z;
  tm_capacity_waiters : list Waiter;
  tm_next_waiter : nat;
}.

Definition set_tasks (tm : TaskManager) (active term : list ActiveTaskInfo) : TaskManager :=
  {| tm_active_tasks := active; tm_terminal_tasks := term; tm_metrics := tm_metrics tm;
     tm_running_total := tm_running_total tm; tm_running_by_session := tm_running_by_session tm;
     tm_capacity_waiters := tm_capacity_waiters tm; tm_next_waiter := tm_next_waiter tm |}.

Definition set_metrics (tm : TaskManager) (m : TaskManagerMetrics) : TaskManager :=
  {| tm_active_tasks := tm_active_tasks tm; tm_terminal_tasks := tm_terminal_tasks tm; tm_metrics := m;
     tm_running_total := tm_running_total tm; tm_running_by_session := tm_running_by_session tm;
     tm_capacity_waiters := tm_capacity_waiters tm; tm_next_waiter := tm_next_waiter tm |}.

Definition set_running (tm : TaskManager) (n : Z) (by_session : gmap string Z) : TaskManager :=
  {| tm_active_tasks := tm_active_tasks tm; tm_terminal_tasks := tm_terminal_tasks tm; tm_metrics := tm_metrics tm;
     tm_running_total := n; tm_running_by_session := by_session;
     tm_capacity_waiters := tm_capacity_waiters tm; tm_next_waiter := tm_next_waiter tm |}.

Definition set_waiters (tm : TaskManager) (l : list Waiter) (n : nat) : TaskManager :=
  {| tm_active_tasks := tm_active_tasks tm; tm_terminal_tasks := tm_terminal_tasks tm; tm_metrics := tm_metrics tm;
     tm_running_total := tm_running_total tm; tm_running_by_session := tm_running_by_session tm;
     tm_capacity_waiters := l; tm_next_waiter := n |}.

Inductive counter :=
| commands_enqueued | commands_rejected | terminal_tasks_pruned | lifecycle_transitions
| cancellations_requested | capacity_waits.

(** [self.metrics.<counter> += n]. *)
Definition bump (c : counter) (n : nat) (tm : TaskManager) : TaskManager :=
  let m := tm_metrics tm in
  set_metrics tm
    {| m_commands_enqueued := m_commands_enqueued m + match c with commands_enqueued => n | _ => 0 end;
       m_commands_rejected := m_commands_rejected m + match c with commands_rejected => n | _ => 0 end;
       m_terminal_tasks_pruned := m_terminal_tasks_pruned m + match c with terminal_tasks_pruned => n | _ => 0 end;
       m_lifecycle_transitions := m_lifecycle_transitions m + match c with lifecycle_transitions => n | _ => 0 end;
       m_cancellations_requested :=
         m_cancellations_requested m + match c with cancellations_requested => n | _ => 0 end;
       m_capacity_waits := m_capacity_waits m + match c with capacity_waits => n | _ => 0 end |}.

(** ** [TaskManager] *)

Section manager.
Variables (mailbox_size terminal_limit : nat) (terminal_ttl max_concurrent_workers max_concurrent_per_session : Z)
  (trace_limit : nat).

Abbreviation Call := (Py TaskManager TaskError).

(** [_append_trace] on the task. *)
Definition append_trace (reason : string) (now_ : Z) (t : ActiveTaskInfo) : ActiveTaskInfo :=
  let e := {| te_sequence := match last (tk_trace t) with Some x => te_sequence x + 1 | None => 1 end;
              te_timestamp := now_; te_status := tk_status t; te_reason := reason; te_attempt := tk_attempt t |} in
  let l := tk_trace t ++ [e] in
  with_trace (drop (length l - trace_limit) l) t.

Definition active_find (id : string) (tm : TaskManager) : option ActiveTaskInfo :=
  kfind task_id id (tm_active_tasks tm).

(** [self.active_tasks.get(task_id) or self.terminal_tasks.get(task_id)]. *)
Definition task_find (id : string) (tm : TaskManager) : option ActiveTaskInfo :=
  match active_find id tm with Some t => Some t | None => kfind task_id id (tm_terminal_tasks tm) end.

(** A change of the task object that [task_find] returns. *)
Definition update_task (id : string) (f : ActiveTaskInfo -> ActiveTaskInfo) (tm : TaskManager) : TaskManager :=
  match active_find id tm with
  | Some _ => set_tasks tm (kupdate task_id id f (tm_active_tasks tm)) (tm_terminal_tasks tm)
  | None => set_tasks tm (tm_active_tasks tm) (kupdate task_id id f (tm_terminal_tasks tm))
  end.

(** [register_task]. *)
Definition register_task (spec : TaskSpec) (now_ : Z) : Call ActiveTaskInfo := fun tm =>
  let id := tk_task_id spec in
  let '(previous, tm1) :=
    match active_find id tm with
    | Some t => (Some t, set_tasks tm (kremove task_id id (tm_active_tasks tm)) (tm_terminal_tasks tm))
    | None => (kfind task_id id (tm_terminal_tasks tm),
               set_tasks tm (tm_active_tasks tm) (kremove task_id id (tm_terminal_tasks tm)))
    end in
  let spec' := {| tk_task_id := id; tk_task_type := tk_task_type spec; tk_command := tk_command spec;
                  tk_session_id := tk_session_id spec; tk_join := tk_join spec;
                  tk_parent_turn_id := tk_parent_turn_id spec; tk_parent_worker_id := tk_parent_worker_id spec;
                  tk_wait_mode := tk_wait_mode spec; tk_quorum := Z.max 1 (tk_quorum spec);
                  tk_wait_timeout := Z.max 100000 (tk_wait_timeout spec); tk_created_at := now_;
                  tk_budget := tk_budget spec; tk_retry_policy := tk_retry_policy spec |} in
  let task := append_trace "registered" now_
                {| tk_spec := spec';
                   tk_attempt := match previous with Some p => tk_attempt p + 1 | None => 1 end;
                   tk_status := pending; tk_started_at := None; tk_completed_at := None;
                   tk_wait_consumed := false; tk_capacity_acquired := false; tk_cancellation_reason := "";
                   tk_result := None; tk_pending_messages := []; tk_trace := []; tk_future_cancelled := false |} in
  (Ok task, set_tasks tm1 (tm_active_tasks tm1 ++ [task]) (tm_terminal_tasks tm1)).

(** [cleanup_terminal]: the loop over a snapshot of the items, in order. *)
Fixpoint cleanup_loop (now_ : Z) (items terminal_ : list ActiveTaskInfo) (removed : nat)
  : list ActiveTaskInfo * nat :=
  match items with
  | [] => (terminal_, removed)
  | t :: items' =>
      let expired := match tk_completed_at t with Some c => terminal_ttl <? now_ - c | None => false end in
      let over_limit := Z.of_nat terminal_limit <? Z.of_nat (length terminal_) - Z.of_nat removed in
      if negb expired && negb over_limit then cleanup_loop now_ items' terminal_ removed
      else cleanup_loop now_ items' (kremove task_id (task_id t) terminal_) (S removed)
  end.

Definition cleanup_terminal (now_ : Z) : Call nat := fun tm =>
  let '(terminal_, removed) := cleanup_loop now_ (tm_terminal_tasks tm) (tm_terminal_tasks tm) 0 in
  (Ok removed, bump terminal_tasks_pruned removed (set_tasks tm (tm_active_tasks tm) terminal_)).

(** [get_task]. *)
Definition get_task (id : string) (now_ : Z) : Call (option ActiveTaskInfo) :=
  _ ← cleanup_terminal now_;
  py_gets (task_find id).

(** [queue_command]. *)
Definition queue_command (command : WorkerCommand) (now_ : Z) : Call bool := fun tm =>
  let id := cmd_worker_id command in
  match active_find id tm with
  | None => (Ok false, bump commands_rejected 1 tm)
  | Some t =>
      if negb (String.eqb (session_of t) (cmd_session_id command)) || terminal (tk_status t)
      then (Ok false, bump commands_rejected 1 tm)
      else if (0 <? mailbox_size)%nat && (mailbox_size <=? length (tk_pending_messages t))%nat
      then (Ok false, bump commands_rejected 1 tm)
      else (Ok true,
            update_task id (fun t => append_trace "command_enqueued" now_
                                       (with_messages (tk_pending_messages t ++ [command]) t))
              (bump commands_enqueued 1 tm))
  end.

(** [transition_task]. *)
Definition transition_task (id : string) (status : WorkerLifecycleStatus) (reason : string) (now_ : Z)
  : Call () := fun tm =>
  match task_find id tm with
  | None => (Err ValueError, tm)
  | Some t =>
      if negb (validate_transition (tk_status t) status) then (Err InvalidWorkerTransition, tm)
      else (Ok (), update_task id (fun t => append_trace reason now_ (with_status status now_ t))
                     (bump lifecycle_transitions 1 tm))
  end.

(** [set_attempt]. *)
Definition set_attempt (id : string) (attempt now_ : Z) : Call () :=
  py_modify (fun tm =>
    match active_find id tm with
    | None => tm
    | Some _ => update_task id (fun t => append_trace "attempt_started" now_ (with_attempt attempt t)) tm
    end).

(** [complete_task]. *)
Definition complete_task (id : string) (status : WorkerLifecycleStatus) (result : option ExecutionResult)
  (now_ : Z) : Call () := fun tm =>
  match task_find id tm with
  | None => (Ok (), tm)
  | Some t =>
      (_ ← py_when (negb (terminal (tk_status t)))
             (transition_task id status
                (match result with Some r => er_termination_reason r | None => status_name status end) now_);
       _ ← py_modify (fun tm =>
             match task_find id tm with
             | None => tm
             | Some t =>
                 set_tasks tm (kremove task_id id (tm_active_tasks tm))
                   (kremove task_id id (tm_terminal_tasks tm) ++ [with_result result t])
             end);
       _ ← cleanup_terminal now_;
       mret ()) tm
  end.

(** [_running_by_session[session]] of the default dictionary. *)
Definition session_count (tm : TaskManager) (s : string) : Z := default 0 (tm_running_by_session tm !! s).

Definition has_room (tm : TaskManager) (s : string) : bool :=
  (tm_running_total tm <? max_concurrent_workers) && (session_count tm s <? max_concurrent_per_session).

(** One round of the loop of [acquire_execution_slot]: [None] when the slot is taken, [Some]
    waiter when the coroutine suspends on it. *)
Definition acquire_round (id : string) (now_ : Z) : Call (option nat) := fun tm =>
  match active_find id tm with
  | None => (Err CancelledError, tm)
  | Some t =>
      let s := session_of t in
      if has_room tm s then
        (_ ← py_modify (fun tm =>
               update_task id (with_capacity true)
                 (set_running tm (tm_running_total tm + 1)
                    (<[s := session_count tm s + 1]> (tm_running_by_session tm))));
         _ ← transition_task id running "capacity_acquired" now_;
         mret None) tm
      else
        let k := tm_next_waiter tm in
        (Ok (Some k),
         update_task id (append_trace "capacity_wait" now_)
           (bump capacity_waits 1
              (set_waiters tm
                 (tm_capacity_waiters tm ++ [{| w_key := k; w_task := id; w_session := s; w_done := false |}])
                 (S k))))
  end.

(** The [finally] of the wait. *)
Definition drop_waiter (k : nat) (tm : TaskManager) : TaskManager :=
  set_waiters tm (List.filter (fun w => negb (w_key w =? k)%nat) (tm_capacity_waiters tm)) (tm_next_waiter tm).

(** [release_execution_slot]. *)
Definition release_execution_slot (id : string) (now_ : Z) : Call () :=
  py_modify (fun tm =>
    match task_find id tm with
    | None => tm
    | Some t =>
        if negb (tk_capacity_acquired t) then tm
        else
          let s := session_of t in
          let tm1 := set_running tm (Z.max 0 (tm_running_total tm - 1))
                       (<[s := Z.max 0 (session_count tm s - 1)]> (tm_running_by_session tm)) in
          let tm2 := update_task id (fun t => append_trace "capacity_released" now_ (with_capacity false t)) tm1 in
          set_waiters tm2
            (List.map (fun w => {| w_key := w_key w; w_task := w_task w; w_session := w_session w; w_done := true |})
               (tm_capacity_waiters tm2)) (tm_next_waiter tm2)
    end).

Definition children_of (id : string) (tm : TaskManager) : list string :=
  task_id <$> List.filter (fun t => String.eqb (tk_parent_worker_id (tk_spec t)) id) (tm_active_tasks tm).

(** [stop_task] and [cancel_descendants], which call each other; the fuel is the recursion
    the interpreter allows. *)
Fixpoint stop_task (fuel : nat) (id reason : string) (now_ : Z) : Call () := fun tm =>
  match fuel with
  | O => (Err RecursionError, tm)
  | S fuel' =>
      match active_find id tm with
      | None => (Err ValueError, tm)
      | Some t =>
          (_ ← py_when (negb (bool_decide (tk_status t = cancelling)))
                 (transition_task id cancelling reason now_);
           _ ← py_modify (fun tm => bump cancellations_requested 1
                                      (update_task id (with_cancellation_reason reason) tm));
           children ← py_gets (children_of id);
           _ ← py_iter (fun child => present ← py_gets (active_find child);
                          match present with
                          | Some _ => stop_task fuel' child ("parent_cancelled:" +:+ id) now_
                          | None => mret ()
                          end) children;
           py_modify (update_task id with_future_cancelled)) tm
      end
  end.

(** [cancel_workers], in the order the set is visited. *)
Definition cancel_workers (fuel : nat) (ids : list string) (reason : string) (now_ : Z) : Call () :=
  py_iter (fun id => present ← py_gets (active_find id);
             match present with
             | Some _ => stop_task fuel id reason now_
             | None => mret ()
             end) ids.

(** [cancel_session] and [cancel_turn]. *)
Definition session_tasks (session_id : string) (tm : TaskManager) : list string :=
  task_id <$> List.filter (fun t => String.eqb (session_of t) session_id) (tm_active_tasks tm).

Definition turn_tasks (session_id turn_id : string) (tm : TaskManager) : list string :=
  task_id <$> List.filter (fun t => String.eqb (session_of t) session_id
                                    && String.eqb (tk_parent_turn_id (tk_spec t)) turn_id) (tm_active_tasks tm).

Definition cancel_session (fuel : nat) (session_id reason : string) (now_ : Z) : Call () :=
  ids ← py_gets (session_tasks session_id); cancel_workers fuel ids reason now_.

Definition cancel_turn (fuel : nat) (session_id turn_id reason : string) (now_ : Z) : Call () :=
  ids ← py_gets (turn_tasks session_id turn_id); cancel_workers fuel ids reason now_.

(** ** Waiting for workers *)

(** [WorkerWaitPlan]. *)
Record WorkerWaitPlan := {
  wp_session_id : string;
  wp_parent_turn_id : string;
  wp_worker_ids : gset string;
  wp_mode : WorkerWaitMode;
  wp_quorum : Z;
  wp_timeout : Z;
}.

Definition awaited (session_id parent_turn_id : string) (tm : TaskManager) : list ActiveTaskInfo :=
  List.filter (fun t => String.eqb (session_of t) session_id
                        && String.eqb (tk_parent_turn_id (tk_spec t)) parent_turn_id
                        && tk_join (tk_spec t) && negb (tk_wait_consumed t))
    (tm_active_tasks tm ++ tm_terminal_tasks tm).

(** [build_wait_plan]. *)
Definition build_wait_plan (session_id parent_turn_id : string) (tm : TaskManager) : option WorkerWaitPlan :=
  match awaited session_id parent_turn_id tm with
  | [] => None
  | t :: rest =>
      let tasks := t :: rest in
      let same := forallb (fun x => bool_decide (tk_wait_mode (tk_spec x) = tk_wait_mode (tk_spec t))) tasks in
      Some {| wp_session_id := session_id; wp_parent_turn_id := parent_turn_id;
              wp_worker_ids := list_to_set (task_id <$> tasks);
              wp_mode := if same then tk_wait_mode (tk_spec t) else wait_all;
              wp_quorum := Z.min (Z.of_nat (length tasks))
                             (list_maxZ (tk_quorum (tk_spec t)) ((fun x => tk_quorum (tk_spec x)) <$> rest));
              wp_timeout := list_minZ (tk_wait_timeout (tk_spec t))
                              ((fun x => tk_wait_timeout (tk_spec x)) <$> rest) |}
  end.

(** [mark_wait_consumed]. *)
Definition mark_wait_consumed (ids : gset string) (tm : TaskManager) : TaskManager :=
  foldl (fun tm id => update_task id with_consumed tm) tm (elements ids).

(** [CoordinatorRuntime._barrier_satisfied]. *)
Definition barrier_satisfied (plan : WorkerWaitPlan) (completed_ : gset string) : bool :=
  let count := Z.of_nat (size (completed_ ∩ wp_worker_ids plan)) in
  match wp_mode plan with
  | wait_any => 1 <=? count
  | wait_quorum => wp_quorum plan <=? count
  | wait_all => Z.of_nat (size (wp_worker_ids plan)) <=? count
  end.

(** ** The life of one worker: [_background_task_wrapper]

    Between registration and its end a worker is queued (its coroutine has not run), waits for
    a slot, or executes.  Everything after the body, the [finally] that releases the slot and
    [complete_task], runs without suspending. *)
Inductive worker_phase := Queued | AwaitingSlot (k : nat) | Executing | Concluded.

#[export] Instance worker_phase_eq_dec : EqDecision worker_phase.
Proof. solve_decision. Defined.

(** The manager, the phase of every worker ever spawned, and their order of birth. *)
Record System := {
  sys_manager : TaskManager;
  sys_phases : gmap string worker_phase;
  sys_births : gmap string nat;
  sys_spawned : nat;
}.

Definition set_phase (sys : System) (tm : TaskManager) (id : string) (p : worker_phase) : System :=
  {| sys_manager := tm; sys_phases := <[id := p]> (sys_phases sys); sys_births := sys_births sys;
     sys_spawned := sys_spawned sys |}.

Definition set_manager (sys : System) (tm : TaskManager) : System :=
  {| sys_manager := tm; sys_phases := sys_phases sys; sys_births := sys_births sys;
     sys_spawned := sys_spawned sys |}.

(** The end of the wrapper, with the status of its result. *)
Definition conclude (id : string) (status : WorkerLifecycleStatus) (reason : string) (now_ : Z) : Call () :=
  _ ← release_execution_slot id now_;
  complete_task id status (Some {| er_status := status_name status; er_termination_reason := reason |}) now_.

Definition concluded (id : string) (status : WorkerLifecycleStatus) (reason : string) (now_ : Z) (sys : System)
  (tm : TaskManager) : System :=
  set_phase sys (conclude id status reason now_ tm).2 id Concluded.

(** The wrapper from a round of [acquire_execution_slot] on: it executes, waits, or ends
    through one of its [except] clauses. *)
Definition run_acquire (id : string) (now_ : Z) (sys : System) (tm : TaskManager) : System :=
  match acquire_round id now_ tm with
  | (Ok None, tm') => set_phase sys tm' id Executing
  | (Ok (Some k), tm') => set_phase sys tm' id (AwaitingSlot k)
  | (Err CancelledError, tm') => concluded id cancelled "cancelled" now_ sys tm'
  | (Err _, tm') => concluded id failed "unrecoverable_error" now_ sys tm'
  end.

(** A spawned worker: its coroutine is created and the task registered under a fresh
    identifier; its parent, if any, was spawned before. *)
Definition spawn (spec : TaskSpec) (now_ : Z) (sys : System) : System :=
  {| sys_manager := (register_task spec now_ (sys_manager sys)).2;
     sys_phases := <[tk_task_id spec := Queued]> (sys_phases sys);
     sys_births := <[tk_task_id spec := sys_spawned sys]> (sys_births sys);
     sys_spawned := S (sys_spawned sys) |}.

Inductive sys_step (sys : System) : System -> Prop :=
| step_spawn spec now_ :
    tk_task_id spec <> "" -> sys_phases sys !! tk_task_id spec = None ->
    sys_births sys !! tk_task_id spec = None ->
    tk_parent_worker_id spec = "" \/ is_Some (sys_births sys !! tk_parent_worker_id spec) ->
    sys_step sys (spawn spec now_ sys)
| step_start id now_ :
    sys_phases sys !! id = Some Queued -> sys_step sys (run_acquire id now_ sys (sys_manager sys))
| step_cancel_unstarted id :
    (* a coroutine cancelled before its first step is never entered *)
    sys_phases sys !! id = Some Queued -> sys_step sys (set_phase sys (sys_manager sys) id Concluded)
| step_wake id k w now_ :
    sys_phases sys !! id = Some (AwaitingSlot k) -> w ∈ tm_capacity_waiters (sys_manager sys) ->
    w_key w = k -> w_done w = true ->
    sys_step sys (run_acquire id now_ sys (drop_waiter k (sys_manager sys)))
| step_cancel_waiting id k now_ :
    sys_phases sys !! id = Some (AwaitingSlot k) ->
    sys_step sys (concluded id cancelled "cancelled" now_ sys (drop_waiter k (sys_manager sys)))
| step_attempt id n now_ :
    sys_phases sys !! id = Some Executing -> sys_step sys (set_manager sys (set_attempt id n now_ (sys_manager sys)).2)
| step_retry id status reason now_ :
    sys_phases sys !! id = Some Executing -> status = retrying \/ status = running ->
    sys_step sys (match transition_task id status reason now_ (sys_manager sys) with
                  | (Ok _, tm) => set_manager sys tm
                  | (Err _, tm) => concluded id failed "unrecoverable_error" now_ sys tm
                  end)
| step_finish id status reason now_ :
    sys_phases sys !! id = Some Executing -> terminal status = true ->
    sys_step sys (concluded id status reason now_ sys (sys_manager sys))
| step_stop fuel id reason now_ : sys_step sys (set_manager sys (stop_task fuel id reason now_ (sys_manager sys)).2)
| step_cancel_workers fuel ids reason now_ :
    sys_step sys (set_manager sys (cancel_workers fuel ids reason now_ (sys_manager sys)).2)
| step_command c now_ : sys_step sys (set_manager sys (queue_command c now_ (sys_manager sys)).2)
| step_get id now_ : sys_step sys (set_manager sys (get_task id now_ (sys_manager sys)).2)
| step_consume ids : sys_step sys (set_manager sys (mark_wait_consumed ids (sys_manager sys))).

(** [TaskManager.__init__]. *)
Definition new_manager : TaskManager :=
  {| tm_active_tasks := []; tm_terminal_tasks := [];
     tm_metrics := {| m_commands_enqueued := 0; m_commands_rejected := 0; m_terminal_tasks_pruned := 0;
                      m_lifecycle_transitions := 0; m_cancellations_requested := 0; m_capacity_waits := 0 |};
     tm_running_total := 0; tm_running_by_session := ∅; tm_capacity_waiters := []; tm_next_waiter := 0 |}.

Definition new_system : System :=
  {| sys_manager := new_manager; sys_phases := ∅; sys_births := ∅; sys_spawned := 0 |}.

Inductive sys_reachable : System -> Prop :=
| sys_init : sys_reachable new_system
| sys_more sys sys' : sys_reachable sys -> sys_step sys sys' -> sys_reachable sys'.
End manager.
