(* ===== verification/WorkerSafety.v ===== *)
(** * WorkerSafety: capacity, cancellation and barriers of worker agents

    In every reachable system of workers the slots counted as taken are exactly those of the
    executing workers, within both limits; a worker that still waits for a slot is one for
    which there is no room; cancelling a worker cancels its whole subtree and nothing else;
    waiting for workers makes progress. *)
From S2P Require Import Prelude WorkerEvents WorkerTasks.
Local Open Scope Z_scope.

Section safety.
Variables (mailbox_size terminal_limit : nat) (terminal_ttl max_workers max_per_session : Z) (trace_limit : nat).

Abbreviation cleanup' := (cleanup_terminal terminal_limit terminal_ttl).
Abbreviation transition' := (transition_task trace_limit).
Abbreviation stop' := (stop_task trace_limit).
Abbreviation has_room' := (has_room max_workers max_per_session).
Abbreviation acquire' := (acquire_round max_workers max_per_session trace_limit).
Abbreviation release' := (release_execution_slot trace_limit).
Abbreviation complete' := (complete_task terminal_limit terminal_ttl trace_limit).
Abbreviation conclude' := (conclude terminal_limit terminal_ttl trace_limit).
Abbreviation concluded' := (concluded terminal_limit terminal_ttl trace_limit).
Abbreviation sys_step' :=
  (sys_step mailbox_size terminal_limit terminal_ttl max_workers max_per_session trace_limit).
Abbreviation sys_reachable' :=
  (sys_reachable mailbox_size terminal_limit terminal_ttl max_workers max_per_session trace_limit).

Abbreviation ids l := (task_id <$> l).

(** ** Changes that leave capacity alone *)

(** Same task, same slot, not ended by the change. *)
Definition same (t t' : ActiveTaskInfo) : Prop :=
  tk_spec t' = tk_spec t /\ tk_capacity_acquired t' = tk_capacity_acquired t
  /\ (terminal (tk_status t) = false -> terminal (tk_status t') = false).

Lemma same_refl t : same t t.
Proof. done. Qed.

Lemma same_trans t1 t2 t3 : same t1 t2 -> same t2 t3 -> same t1 t3.
Proof. intros (H1 & H2 & H3) (H4 & H5 & H6). split; [congruence|]. split; [congruence|tauto]. Qed.

Lemma same_trace reason now_ t : same t (append_trace trace_limit reason now_ t).
Proof. done. Qed.

Record quiet (tm tm' : TaskManager) : Prop := {
  q_active : Forall2 same (tm_active_tasks tm) (tm_active_tasks tm');
  q_nodup : NoDup (ids (tm_terminal_tasks tm)) -> NoDup (ids (tm_terminal_tasks tm'));
  q_terminal : forall t', t' ∈ tm_terminal_tasks tm' -> exists t, t ∈ tm_terminal_tasks tm
    /\ tk_spec t = tk_spec t' /\ tk_capacity_acquired t = tk_capacity_acquired t';
  q_length : (length (tm_terminal_tasks tm') <= length (tm_terminal_tasks tm))%nat;
  q_total : tm_running_total tm' = tm_running_total tm;
  q_session : tm_running_by_session tm' = tm_running_by_session tm;
  q_waiters : tm_capacity_waiters tm' = tm_capacity_waiters tm;
  q_next : tm_next_waiter tm' = tm_next_waiter tm;
}.

#[local] Instance same_preorder : PreOrder same.
Proof. split; [exact same_refl|exact same_trans]. Qed.

#[local] Instance quiet_preorder : PreOrder quiet.
Proof.
  split.
  - intros tm. split; try done. intros t Ht. by exists t.
  - intros a b c Hab Hbc. split.
    + etransitivity; [apply Hab|apply Hbc].
    + intros Hnd. by apply Hbc, Hab.
    + intros t3 H3. destruct (q_terminal _ _ Hbc _ H3) as (t2 & H2 & Hi2 & Hc2).
      destruct (q_terminal _ _ Hab _ H2) as (t1 & H1 & Hi1 & Hc1). exists t1. split; [done|]. split; congruence.
    + etransitivity; [apply Hbc|apply Hab].
    + etransitivity; [apply Hbc|apply Hab].
    + etransitivity; [apply Hbc|apply Hab].
    + etransitivity; [apply Hbc|apply Hab].
    + etransitivity; [apply Hbc|apply Hab].
Qed.

Lemma kupdate_same id f l : (forall t, same t (f t)) -> Forall2 same l (kupdate task_id id f l).
Proof.
  intros Hf. induction l as [|t l IH]; [constructor|]. constructor; [|exact IH].
  destruct (String.eqb _ _); [apply Hf|apply same_refl].
Qed.

Lemma same_id t t' : same t t' -> task_id t' = task_id t.
Proof. unfold task_id. by intros (-> & _). Qed.

Lemma update_task_quiet id f tm : (forall t, same t (f t)) -> quiet tm (update_task id f tm).
Proof.
  intros Hf. unfold update_task. destruct (active_find id tm).
  - split; simpl; try done; [by apply kupdate_same|]. intros t Ht. by exists t.
  - split; simpl; try done.
    + intros Hnd. rewrite kupdate_keys; [done|]. intros t. by apply same_id.
    + intros t' (t & Ht & ->)%kupdate_elem. exists t. split; [done|]. destruct (String.eqb _ _); [|done].
      destruct (Hf t) as (Hs & Hc & _). by rewrite Hs, Hc.
    + unfold kupdate. by rewrite length_map.
Qed.

Lemma bump_quiet c n tm : quiet tm (bump c n tm).
Proof. split; simpl; try done. intros t Ht. by exists t. Qed.

Lemma cleanup_loop_sub now_ items : forall l removed l' n,
  cleanup_loop terminal_limit terminal_ttl now_ items l removed = (l', n) ->
  (forall t, t ∈ l' -> t ∈ l) /\ (length l' <= length l)%nat /\ (NoDup (ids l) -> NoDup (ids l')).
Proof.
  induction items as [|x items IH]; intros l removed l' n Hr; cbn [cleanup_loop] in Hr.
  - injection Hr as <- <-. done.
  - destruct (_ && _); [by eapply IH|]. apply IH in Hr as (Hin & Hlen & Hnd). split; [|split].
    + intros t Ht%Hin. by apply kremove_elem in Ht as [? _].
    + assert (length (kremove task_id (task_id x) l) <= length l)%nat; [|lia]. apply filter_length_le.
    + intros Hl. apply Hnd. by apply kremove_keys.
Qed.

Lemma cleanup_quiet now_ tm : quiet tm (cleanup' now_ tm).2.
Proof.
  unfold cleanup_terminal. destruct (cleanup_loop _ _ _ _ _ _) as [l n] eqn:Hl. cbn [snd].
  apply cleanup_loop_sub in Hl as (Hin & Hlen & Hnd).
  split; simpl; try done. intros t Ht%Hin. by exists t.
Qed.

Definition quietly {A} (m : Py TaskManager TaskError A) : Prop := forall tm, quiet tm (m tm).2.

Lemma quietly_bind {A B} (m : Py TaskManager TaskError A) (f : A -> Py TaskManager TaskError B) :
  quietly m -> (forall a, quietly (f a)) -> quietly (m ≫= f).
Proof.
  intros Hm Hf tm. unfold mbind, py_bind. specialize (Hm tm). destruct (m tm) as [[a|e] tm']; [|done].
  etransitivity; [exact Hm|apply Hf].
Qed.

Lemma quietly_ret {A} (a : A) : quietly (mret a).
Proof. intros tm. reflexivity. Qed.

Lemma quietly_gets {A} (f : TaskManager -> A) : quietly (py_gets f).
Proof. intros tm. reflexivity. Qed.

Lemma quietly_modify f : (forall tm, quiet tm (f tm)) -> quietly (py_modify f).
Proof. intros Hf tm. apply Hf. Qed.

Lemma quietly_when b m : quietly m -> quietly (py_when b m).
Proof. destruct b; [done|]. intros _. apply quietly_ret. Qed.

Lemma quietly_iter {A} (body : A -> Py TaskManager TaskError ()) l : (forall x, quietly (body x)) -> quietly (py_iter body l).
Proof.
  intros Hb. induction l as [|x l IH]; simpl; [apply quietly_ret|]. apply quietly_bind; [done|]. by intros _.
Qed.

Lemma transition_quiet id status reason now_ :
  terminal status = false -> quietly (transition' id status reason now_).
Proof.
  intros Hs tm. unfold transition_task. destruct (task_find id tm) as [t|]; [|reflexivity].
  destruct (negb _); [reflexivity|]. cbn [snd]. etransitivity; [apply bump_quiet|]. apply update_task_quiet.
  intros x. done.
Qed.

Lemma stop_task_quiet fuel : forall id reason now_, quietly (stop' fuel id reason now_).
Proof.
  induction fuel as [|fuel IH]; intros id reason now_ tm; cbn [stop_task]; [reflexivity|].
  destruct (active_find id tm) as [t|]; [|reflexivity].
  match goal with |- quiet tm (?m tm).2 => cut (quietly m); [intros Hq; apply Hq|] end.
  apply quietly_bind; [apply quietly_when; by apply transition_quiet|]. intros _.
  apply quietly_bind; [|intros _; apply quietly_bind; [apply quietly_gets|]; intros children;
    apply quietly_bind; [|intros _; apply quietly_modify; intros tm'; by apply update_task_quiet]].
  - apply quietly_modify. intros tm'. etransitivity; [|apply bump_quiet]. by apply update_task_quiet.
  - apply quietly_iter. intros c. apply quietly_bind; [apply quietly_gets|]. intros [x|]; [apply IH|apply quietly_ret].
Qed.

Lemma cancel_workers_quiet fuel l reason now_ : quietly (cancel_workers trace_limit fuel l reason now_).
Proof.
  apply quietly_iter. intros c. apply quietly_bind; [apply quietly_gets|].
  intros [x|]; [apply stop_task_quiet|apply quietly_ret].
Qed.

Lemma set_attempt_quiet id n now_ : quietly (set_attempt trace_limit id n now_).
Proof.
  apply quietly_modify. intros tm. destruct (active_find id tm); [|reflexivity]. by apply update_task_quiet.
Qed.

Lemma queue_command_quiet c now_ : quietly (queue_command mailbox_size trace_limit c now_).
Proof.
  intros tm. unfold queue_command. destruct (active_find _ tm) as [t|]; [|apply bump_quiet].
  destruct (_ || _); [apply bump_quiet|]. destruct (_ && _); [apply bump_quiet|]. cbn [snd].
  etransitivity; [apply bump_quiet|]. by apply update_task_quiet.
Qed.

Lemma get_task_quiet id now_ : quietly (get_task terminal_limit terminal_ttl id now_).
Proof. apply quietly_bind; [intros tm; apply cleanup_quiet|]. intros _. apply quietly_gets. Qed.

Lemma mark_consumed_quiet l tm : quiet tm (mark_wait_consumed l tm).
Proof.
  unfold mark_wait_consumed. revert tm. induction (elements l) as [|id k IH]; intros tm; cbn [foldl]; [reflexivity|].
  etransitivity; [|apply IH]. by apply update_task_quiet.
Qed.

(** ** The invariant *)

Definition holds (t : ActiveTaskInfo) : Z := if tk_capacity_acquired t then 1 else 0.
Definition holds_in (s : string) (t : ActiveTaskInfo) : Z :=
  if tk_capacity_acquired t && String.eqb (session_of t) s then 1 else 0.

Record tm_ok (tm : TaskManager) (ph : gmap string worker_phase) : Prop := {
  ok_active : NoDup (ids (tm_active_tasks tm));
  ok_terminal : NoDup (ids (tm_terminal_tasks tm));
  ok_phase : forall t, t ∈ tm_active_tasks tm -> exists p, ph !! task_id t = Some p
    /\ (tk_capacity_acquired t = true <-> p = Executing) /\ terminal (tk_status t) = false;
  ok_executing : forall id, ph !! id = Some Executing -> id ∈ ids (tm_active_tasks tm);
  ok_ended : forall t, t ∈ tm_terminal_tasks tm ->
    ph !! task_id t = Some Concluded /\ tk_capacity_acquired t = false /\ task_id t ∉ ids (tm_active_tasks tm);
  ok_total : tm_running_total tm = sum_by holds (tm_active_tasks tm);
  ok_session : forall s, session_count tm s = sum_by (holds_in s) (tm_active_tasks tm);
  ok_limits : tm_running_total tm <= max_workers /\ forall s, session_count tm s <= max_per_session;
  ok_waiters : forall w, w ∈ tm_capacity_waiters tm -> w_done w = false -> has_room' tm (w_session w) = false;
  ok_waiting : forall id k, ph !! id = Some (AwaitingSlot k) ->
    exists w, w ∈ tm_capacity_waiters tm /\ w_key w = k /\ w_task w = id;
  ok_keys : NoDup (w_key <$> tm_capacity_waiters tm)
    /\ forall w, w ∈ tm_capacity_waiters tm -> (w_key w < tm_next_waiter tm)%nat;
}.

Lemma Forall2_same_sum (f : ActiveTaskInfo -> Z) l l' :
  (forall t t', same t t' -> f t' = f t) -> Forall2 same l l' -> sum_by f l' = sum_by f l.
Proof. intros Hf. unfold sum_by. induction 1 as [|t t' l l' Ht _ IH]; simpl; [done|]. rewrite IH. f_equal. by apply Hf. Qed.

Lemma Forall2_same_ids l l' : Forall2 same l l' -> ids l' = ids l.
Proof. induction 1 as [|t t' l l' Ht _ IH]; cbn; [done|]. cbn in IH. rewrite IH. f_equal. by apply same_id. Qed.

Lemma Forall2_same_elem l l' t' : Forall2 same l l' -> t' ∈ l' -> exists t, t ∈ l /\ same t t'.
Proof.
  induction 1 as [|t x l l' Ht _ IH]; [set_solver|]. intros [->|Hin]%elem_of_cons.
  - exists t. set_solver.
  - destruct (IH Hin) as (y & ? & ?). exists y. set_solver.
Qed.

Lemma holds_same t t' : same t t' -> holds t' = holds t.
Proof. unfold holds. by intros (_ & -> & _). Qed.

Lemma holds_in_same s t t' : same t t' -> holds_in s t' = holds_in s t.
Proof. unfold holds_in, session_of. by intros (-> & -> & _). Qed.

Lemma has_room_eq tm tm' s :
  tm_running_total tm' = tm_running_total tm -> tm_running_by_session tm' = tm_running_by_session tm ->
  has_room' tm' s = has_room' tm s.
Proof. unfold has_room, session_count. by intros -> ->. Qed.

Lemma tm_ok_quiet tm tm' ph : tm_ok tm ph -> quiet tm tm' -> tm_ok tm' ph.
Proof.
  intros Hok Hq. pose proof (q_active _ _ Hq) as Ha. pose proof (Forall2_same_ids _ _ Ha) as Hids.
  split; rewrite ?Hids.
  - apply Hok.
  - apply Hq, Hok.
  - intros t' Ht'. destruct (Forall2_same_elem _ _ _ Ha Ht') as (t & Ht & Hs).
    destruct (ok_phase _ _ Hok _ Ht) as (p & Hp & Hc & Hst). exists p. rewrite (same_id _ _ Hs).
    destruct Hs as (_ & -> & Hterm). tauto.
  - apply Hok.
  - intros t' Ht'. destruct (q_terminal _ _ Hq _ Ht') as (t & Ht & Hs & <-).
    unfold task_id. rewrite <- Hs. by apply Hok.
  - rewrite (q_total _ _ Hq), (Forall2_same_sum holds _ _ holds_same Ha). apply Hok.
  - intros s. unfold session_count. rewrite (q_session _ _ Hq).
    rewrite (Forall2_same_sum (holds_in s) _ _ (holds_in_same s) Ha). apply Hok.
  - unfold session_count. rewrite (q_total _ _ Hq), (q_session _ _ Hq). apply Hok.
  - intros w. rewrite (q_waiters _ _ Hq). intros Hw Hd. rewrite (has_room_eq tm); [by apply Hok|apply Hq|apply Hq].
  - rewrite (q_waiters _ _ Hq). apply Hok.
  - rewrite (q_waiters _ _ Hq), (q_next _ _ Hq). apply Hok.
Qed.

(** A worker that is neither executing nor ended changes phase. *)
Lemma tm_ok_phase tm ph id p p' :
  tm_ok tm ph -> ph !! id = Some p -> p <> Executing -> p <> Concluded -> p' <> Executing ->
  (forall k, p' = AwaitingSlot k -> exists w, w ∈ tm_capacity_waiters tm /\ w_key w = k /\ w_task w = id) ->
  tm_ok tm (<[id := p']> ph).
Proof.
  intros Hok Hp Hne Hnc Hne' Hw. split; try apply Hok.
  - intros t Ht. destruct (ok_phase _ _ Hok _ Ht) as (q & Hq & Hc & Hst).
    destruct (decide (id = task_id t)) as [->|Hd].
    + exists p'. rewrite lookup_insert_eq. rewrite Hq in Hp. injection Hp as ->. tauto.
    + exists q. by rewrite lookup_insert_ne.
  - intros j [[_ Hj]|[_ Hj]]%lookup_insert_Some; [done|by apply Hok].
  - intros t Ht. destruct (ok_ended _ _ Hok _ Ht) as (Hq & Hc & Hn). split; [|done].
    destruct (decide (id = task_id t)) as [->|Hd]; [congruence|by rewrite lookup_insert_ne].
  - intros j k [[<- Hj]|[_ Hj]]%lookup_insert_Some; [by apply Hw|by apply Hok].
Qed.

Lemma active_find_some id tm t : active_find id tm = Some t -> t ∈ tm_active_tasks tm /\ task_id t = id.
Proof. apply kfind_some. Qed.

Lemma active_find_in tm ph t : tm_ok tm ph -> t ∈ tm_active_tasks tm -> active_find (task_id t) tm = Some t.
Proof. intros Hok Ht. apply kfind_in; [apply Hok|done|done]. Qed.

(** ** Registration *)

Lemma register_ok spec now_ tm ph :
  tm_ok tm ph -> ph !! tk_task_id spec = None ->
  tm_ok (register_task trace_limit spec now_ tm).2 (<[tk_task_id spec := Queued]> ph).
Proof.
  intros Hok Hph. set (id := tk_task_id spec) in *.
  assert (Ha : active_find id tm = None).
  { destruct (active_find id tm) as [t|] eqn:Hf; [|done]. apply active_find_some in Hf as [Ht Hid].
    destruct (ok_phase _ _ Hok _ Ht) as (p & Hp & _). congruence. }
  assert (Ht : kfind task_id id (tm_terminal_tasks tm) = None).
  { destruct (kfind _ _ _) as [t|] eqn:Hf; [|done]. apply kfind_some in Hf as [Ht Hid].
    destruct (ok_ended _ _ Hok _ Ht) as (Hp & _). congruence. }
  unfold register_task. fold id. rewrite Ha, Ht. cbn [set_tasks tm_active_tasks tm_terminal_tasks snd].
  rewrite (kremove_none _ _ _ Ht). set (x := append_trace _ _ _ _).
  assert (Hx : task_id x = id /\ tk_capacity_acquired x = false /\ tk_status x = pending) by done.
  destruct Hx as (Hxi & Hxc & Hxs).
  apply kfind_none in Ha. apply kfind_none in Ht.
  assert (Hids : ids (tm_active_tasks tm ++ [x]) = ids (tm_active_tasks tm) ++ [id]) by by rewrite fmap_app.
  split; cbn [set_tasks tm_active_tasks tm_terminal_tasks tm_running_total tm_capacity_waiters tm_next_waiter]; rewrite ?Hids.
  - apply NoDup_app. split; [apply Hok|]. split; [|apply NoDup_singleton]. intros y Hy ->%list_elem_of_singleton. done.
  - apply Hok.
  - intros t [Hin| ->%list_elem_of_singleton]%elem_of_app.
    + destruct (ok_phase _ _ Hok _ Hin) as (p & Hp & Hrest). exists p. rewrite lookup_insert_ne; [done|]. congruence.
    + exists Queued. rewrite Hxi, lookup_insert_eq, Hxc, Hxs. split; [done|]. by split.
  - intros j [[_ Hj]|[_ Hj]]%lookup_insert_Some; [done|]. apply elem_of_app. left. by apply Hok.
  - intros t Hin. destruct (ok_ended _ _ Hok _ Hin) as (Hp & Hc & Hn). rewrite lookup_insert_ne by congruence.
    split; [done|]. split; [done|]. rewrite elem_of_app, list_elem_of_singleton. intros [?|Heq]; [done|].
    apply Ht. rewrite <- Heq. by apply list_elem_of_fmap_2.
  - rewrite sum_by_app. unfold sum_by at 2. cbn [foldr]. unfold holds at 2. rewrite Hxc, (ok_total _ _ Hok). lia.
  - intros s. rewrite sum_by_app. unfold sum_by at 2. cbn [foldr]. unfold holds_in at 2. rewrite Hxc.
    pose proof (ok_session _ _ Hok s) as Hs. unfold session_count in *. cbn [set_tasks tm_running_by_session andb]. lia.
  - apply (ok_limits _ _ Hok).
  - intros w Hw Hd. apply (ok_waiters _ _ Hok w Hw Hd).
  - intros j k [[_ Hj]|[_ Hj]]%lookup_insert_Some; [done|by apply Hok].
  - apply Hok.
Qed.

(** ** Taking and giving back a slot *)

Lemma holds_with_capacity b t : holds (with_capacity b t) = if b then 1 else 0.
Proof. done. Qed.

Lemma session_count_insert tm n s v s' :
  session_count (set_running tm n (<[s := v]> (tm_running_by_session tm))) s'
  = if decide (s = s') then v else session_count tm s'.
Proof.
  unfold session_count. cbn [set_running tm_running_by_session]. destruct (decide (s = s')) as [->|Hne].
  - by rewrite lookup_insert_eq.
  - by rewrite lookup_insert_ne.
Qed.

Lemma holds_in_session s t b : session_of t = s ->
  holds_in s (with_capacity b t) = holds (with_capacity b t) /\ holds_in s t = holds t
  /\ forall s', s' <> s -> holds_in s' t = 0 /\ holds_in s' (with_capacity b t) = 0.
Proof.
  intros <-. unfold holds_in, holds. change (session_of (with_capacity b t)) with (session_of t).
  cbn [with_capacity tk_capacity_acquired]. rewrite String.eqb_refl, !andb_true_r. do 2 (split; [done|]).
  intros s' Hne. assert (Heq : String.eqb (session_of t) s' = false) by (apply String.eqb_neq; congruence).
  by rewrite Heq, !andb_false_r.
Qed.

(** Rewriting one active task into one with another slot flag, and the counters with it. *)
Lemma active_with_capacity tm ph id t b g :
  tm_ok tm ph -> active_find id tm = Some t -> (forall x, same (with_capacity b x) (g x)) ->
  let l := kupdate task_id id g (tm_active_tasks tm) in
  ids l = ids (tm_active_tasks tm)
  /\ (forall x, x ∈ l -> (task_id x = id /\ same (with_capacity b t) x) \/ (task_id x <> id /\ x ∈ tm_active_tasks tm))
  /\ sum_by holds l = sum_by holds (tm_active_tasks tm) - holds t + (if b then 1 else 0)
  /\ forall s, sum_by (holds_in s) l
       = sum_by (holds_in s) (tm_active_tasks tm)
         + if decide (session_of t = s) then (if b then 1 else 0) - holds t else 0.
Proof.
  intros Hok Hf Hg l. pose proof (active_find_some _ _ _ Hf) as [Hin Hid].
  assert (Hgid : forall x, task_id (g x) = task_id x) by (intros x; by rewrite (same_id _ _ (Hg x))).
  split; [by apply kupdate_keys|]. split; [|split].
  - intros x (y & Hy & ->)%kupdate_elem. destruct (String.eqb_spec (task_id y) id) as [Heq|Hne]; [left|by right].
    rewrite Hgid. split; [done|]. rewrite <- Heq, (active_find_in _ _ _ Hok Hy) in Hf. injection Hf as ->. apply Hg.
  - unfold l. rewrite (kupdate_sum _ _ _ _ _ t) by (apply Hok || exact Hf).
    by rewrite (holds_same _ _ (Hg t)), holds_with_capacity.
  - intros s. unfold l. rewrite (kupdate_sum _ _ _ _ _ t) by (apply Hok || exact Hf).
    rewrite (holds_in_same _ _ _ (Hg t)). destruct (holds_in_session (session_of t) t b eq_refl) as (H1 & H2 & H3).
    destruct (decide (session_of t = s)) as [<-|Hne].
    + rewrite H1, H2, holds_with_capacity. lia.
    + destruct (H3 s) as [-> ->]; [congruence|]. lia.
Qed.

Lemma sum_holds_nonneg l : 0 <= sum_by holds l.
Proof. apply sum_by_nonneg, Forall_forall. intros t _. unfold holds. by case_match. Qed.

Definition taken (tm : TaskManager) (id s : string) : TaskManager :=
  update_task id (with_capacity true)
    (set_running tm (tm_running_total tm + 1) (<[s := session_count tm s + 1]> (tm_running_by_session tm))).

Lemma take_slot_ok tm ph id t p :
  tm_ok tm ph -> active_find id tm = Some t -> ph !! id = Some p -> p <> Executing ->
  has_room' tm (session_of t) = true ->
  tm_ok (taken tm id (session_of t)) (<[id := Executing]> ph).
Proof.
  intros Hok Hf Hp Hne Hroom. unfold taken, update_task. change (active_find id (set_running _ _ _)) with (active_find id tm).
  rewrite Hf. pose proof (active_find_some _ _ _ Hf) as [Hin Hid].
  destruct (active_with_capacity tm ph id t true (with_capacity true) Hok Hf (fun x => same_refl _)) as (Hids & Helem & Htot & Hses).
  destruct (ok_phase _ _ Hok _ Hin) as (q & Hq & Hc & Hst). rewrite Hid, Hp in Hq. injection Hq as <-.
  assert (Hh : holds t = 0) by (unfold holds; destruct (tk_capacity_acquired t); [by destruct Hne; apply Hc|done]).
  apply andb_true_iff in Hroom as [Hr1%Z.ltb_lt Hr2%Z.ltb_lt].
  split; cbn [set_tasks set_running tm_active_tasks tm_terminal_tasks tm_running_total tm_capacity_waiters tm_next_waiter];
    rewrite ?Hids.
  - apply Hok.
  - apply Hok.
  - intros x [[Hx (_ & Hcx & Hsx)]|[Hx Hxin]]%Helem.
    + exists Executing. rewrite Hx, lookup_insert_eq, Hcx. cbn. split; [done|]. split; [done|]. by apply Hsx.
    + rewrite lookup_insert_ne by done. by apply Hok.
  - intros j [[<- _]|[_ Hj]]%lookup_insert_Some; [rewrite <- Hid; by apply list_elem_of_fmap_2|by apply Hok].
  - intros x Hx. destruct (ok_ended _ _ Hok _ Hx) as (Hpx & Hcx & Hn). rewrite lookup_insert_ne; [done|].
    intros ->. apply Hn. rewrite <- Hid. by apply list_elem_of_fmap_2.
  - rewrite Htot, (ok_total _ _ Hok). lia.
  - intros s. rewrite Hses, Hh. change (session_count (set_tasks ?x _ _) s) with (session_count x s).
    rewrite session_count_insert, (ok_session _ _ Hok (session_of t)). pose proof (ok_session _ _ Hok s).
    destruct (decide (session_of t = s)) as [<-|]; lia.
  - split; [lia|]. intros s. change (session_count (set_tasks ?x _ _) s) with (session_count x s).
    rewrite session_count_insert. pose proof (proj2 (ok_limits _ _ Hok) s).
    destruct (decide (session_of t = s)) as [<-|]; lia.
  - intros w Hw Hd. pose proof (ok_waiters _ _ Hok w Hw Hd) as Hno. unfold has_room in *.
    cbn [set_tasks set_running tm_running_total]. change (session_count (set_tasks ?x _ _) ?s) with (session_count x s).
    rewrite session_count_insert. apply andb_false_iff. apply andb_false_iff in Hno as [H1%Z.ltb_ge|H2%Z.ltb_ge].
    + left. apply Z.ltb_ge. lia.
    + right. apply Z.ltb_ge. destruct (decide (session_of t = w_session w)) as [Heq|]; [rewrite Heq; lia|lia].
  - intros j k [[_ Hj]|[_ Hj]]%lookup_insert_Some; [done|by apply Hok].
  - apply Hok.
Qed.

Lemma all_done_waiters (l : list Waiter) w :
  w ∈ List.map (fun w => {| w_key := w_key w; w_task := w_task w; w_session := w_session w; w_done := true |}) l ->
  w_done w = true /\ exists w', w' ∈ l /\ w_key w = w_key w' /\ w_task w = w_task w'.
Proof.
  intros Hw. apply list_elem_of_In, in_map_iff in Hw as (w' & <- & Hw'). split; [done|]. exists w'.
  split; [by apply list_elem_of_In|done].
Qed.

(** A task that holds a slot is counted. *)
Lemma holder_counted tm ph id t :
  tm_ok tm ph -> active_find id tm = Some t -> tk_capacity_acquired t = true ->
  holds t = 1 /\ 1 <= tm_running_total tm /\ 1 <= session_count tm (session_of t).
Proof.
  intros Hok Hf Hcap. assert (Hh : holds t = 1) by (unfold holds; by rewrite Hcap).
  destruct (active_with_capacity tm ph id t false (with_capacity false) Hok Hf (fun x => same_refl _)) as (_ & _ & Htot & Hses).
  pose proof (sum_holds_nonneg (kupdate task_id id (with_capacity false) (tm_active_tasks tm))) as Hnn.
  split; [done|]. split; [rewrite (ok_total _ _ Hok); lia|]. specialize (Hses (session_of t)).
  rewrite decide_True in Hses by done. rewrite (ok_session _ _ Hok).
  assert (0 <= sum_by (holds_in (session_of t)) (kupdate task_id id (with_capacity false) (tm_active_tasks tm))); [|lia].
  apply sum_by_nonneg, Forall_forall. intros x _. unfold holds_in. by case_match.
Qed.

(** Releasing at the end of a worker: the slot, if it had one, is free and everyone waiting
    is woken. *)
Lemma release_ok tm ph id p now_ :
  tm_ok tm ph -> ph !! id = Some p -> p <> Concluded ->
  tm_ok (release' id now_ tm).2 (<[id := Concluded]> ph).
Proof.
  intros Hok Hp Hnc. unfold release_execution_slot. cbn [py_modify snd].
  assert (Hquiet : p <> Executing -> tm_ok tm (<[id := Concluded]> ph)) by (intros; eapply tm_ok_phase; done).
  assert (Hterm : kfind task_id id (tm_terminal_tasks tm) = None).
  { destruct (kfind _ _ _) as [x|] eqn:Hx; [|done]. apply kfind_some in Hx as [Hx Hidx].
    destruct (ok_ended _ _ Hok _ Hx) as (Hpx & _). congruence. }
  unfold task_find. destruct (active_find id tm) as [t|] eqn:Hf.
  2:{ rewrite Hterm. apply Hquiet. intros ->. apply (ok_executing _ _ Hok) in Hp. by apply kfind_none in Hf. }
  pose proof (active_find_some _ _ _ Hf) as [Hin Hid].
  destruct (ok_phase _ _ Hok _ Hin) as (q & Hq & Hc & Hst). rewrite Hid, Hp in Hq. injection Hq as <-.
  destruct (tk_capacity_acquired t) eqn:Hcap; cbn [negb].
  2:{ apply Hquiet. intros ->. by destruct Hc as [_ Hc]; specialize (Hc eq_refl). }
  unfold update_task. change (active_find id (set_running _ _ _)) with (active_find id tm). rewrite Hf.
  destruct (active_with_capacity tm ph id t false
    (fun x => append_trace trace_limit "capacity_released" now_ (with_capacity false x)) Hok Hf
    (fun x => same_trace _ _ _)) as (Hids & Helem & Htot & Hses).
  destruct (holder_counted _ _ _ _ Hok Hf Hcap) as (Hh & H1 & H2).
  split; cbn [set_waiters set_tasks set_running tm_active_tasks tm_terminal_tasks tm_running_total
    tm_capacity_waiters tm_next_waiter]; rewrite ?Hids.
  - apply Hok.
  - apply Hok.
  - intros x [[Hx (_ & Hcx & Hsx)]|[Hx Hxin]]%Helem.
    + exists Concluded. rewrite Hx, lookup_insert_eq, Hcx. cbn. split; [done|]. split; [done|]. by apply Hsx.
    + rewrite lookup_insert_ne by done. by apply Hok.
  - intros j [[_ Hj]|[_ Hj]]%lookup_insert_Some; [done|by apply Hok].
  - intros x Hx. destruct (ok_ended _ _ Hok _ Hx) as (Hpx & Hcx & Hn). rewrite lookup_insert_ne; [done|].
    intros ->. apply Hn. rewrite <- Hid. by apply list_elem_of_fmap_2.
  - rewrite Htot, (ok_total _ _ Hok) in *. lia.
  - intros s. rewrite Hses, Hh. change (session_count (set_waiters (set_tasks ?x _ _) _ _) s) with (session_count x s).
    rewrite session_count_insert. pose proof (ok_session _ _ Hok s).
    destruct (decide (session_of t = s)) as [<-|]; lia.
  - pose proof (proj1 (ok_limits _ _ Hok)) as Hl. split; [lia|]. intros s. change (session_count (set_waiters (set_tasks ?x _ _) _ _) s) with (session_count x s).
    rewrite session_count_insert. pose proof (proj2 (ok_limits _ _ Hok) s).
    destruct (decide (session_of t = s)) as [<-|]; lia.
  - intros w [Hd _]%all_done_waiters. congruence.
  - intros j k [[_ Hj]|[_ Hj]]%lookup_insert_Some; [done|].
    destruct (ok_waiting _ _ Hok _ _ Hj) as (w & Hw & Hk & Hwt).
    exists {| w_key := w_key w; w_task := w_task w; w_session := w_session w; w_done := true |}.
    split; [|done]. apply list_elem_of_In, in_map_iff. exists w. split; [done|by apply list_elem_of_In].
  - destruct (ok_keys _ _ Hok) as [Hnd Hlt]. split.
    + change (List.map ?g ?l) with (g <$> l). rewrite <- list_fmap_compose. exact Hnd.
    + intros w (_ & w' & Hw' & -> & _)%all_done_waiters. by apply Hlt.
Qed.

Lemma wait_ok tm ph id t p :
  tm_ok tm ph -> active_find id tm = Some t -> ph !! id = Some p -> p <> Executing -> p <> Concluded ->
  has_room' tm (session_of t) = false ->
  tm_ok (set_waiters tm (tm_capacity_waiters tm ++
           [{| w_key := tm_next_waiter tm; w_task := id; w_session := session_of t; w_done := false |}])
           (S (tm_next_waiter tm)))
    (<[id := AwaitingSlot (tm_next_waiter tm)]> ph).
Proof.
  intros Hok Hf Hp Hne Hnc Hroom. set (w := {| w_key := _; w_task := _; w_session := _; w_done := _ |}).
  assert (Hok' : tm_ok (set_waiters tm (tm_capacity_waiters tm ++ [w]) (S (tm_next_waiter tm))) ph).
  { destruct (ok_keys _ _ Hok) as [Hnd Hlt].
    split; cbn [set_waiters tm_active_tasks tm_terminal_tasks tm_running_total tm_capacity_waiters tm_next_waiter];
      try apply Hok.
    - intros x [Hx| ->%list_elem_of_singleton]%elem_of_app Hd; [by apply Hok|exact Hroom].
    - intros j k Hj. destruct (ok_waiting _ _ Hok _ _ Hj) as (x & Hx & Hk). exists x. split; [set_solver|done].
    - split.
      + rewrite fmap_app. apply NoDup_app. split; [done|]. split; [|apply NoDup_singleton].
        intros k (x & -> & Hx)%list_elem_of_fmap Hk%list_elem_of_singleton. cbn in Hk. specialize (Hlt _ Hx). lia.
      + intros x [Hx| ->%list_elem_of_singleton]%elem_of_app; [specialize (Hlt _ Hx); lia|cbn; lia]. }
  eapply tm_ok_phase; [exact Hok'|exact Hp|done..|].
  intros k Hk. injection Hk as <-. exists w. split; [|done]. cbn. set_solver.
Qed.

(** Dropping the waiter of a worker that no longer waits. *)
Lemma drop_waiter_ok tm ph k :
  tm_ok tm ph -> (forall id, ph !! id <> Some (AwaitingSlot k)) -> tm_ok (drop_waiter k tm) ph.
Proof.
  intros Hok Hno. destruct (ok_keys _ _ Hok) as [Hnd Hlt].
  assert (Hin : forall w, w ∈ List.filter (fun w => negb (w_key w =? k)%nat) (tm_capacity_waiters tm)
                          <-> w ∈ tm_capacity_waiters tm /\ w_key w <> k).
  { intros w. rewrite !list_elem_of_In, filter_In, negb_true_iff, Nat.eqb_neq. done. }
  split; cbn [drop_waiter set_waiters tm_active_tasks tm_terminal_tasks tm_running_total tm_capacity_waiters tm_next_waiter];
    try apply Hok.
  - intros w [Hw _]%Hin Hd. by apply Hok.
  - intros id j Hj. destruct (ok_waiting _ _ Hok _ _ Hj) as (w & Hw & Hk & Ht). exists w. split; [|done].
    apply Hin. split; [done|]. intros Heq. apply (Hno id). congruence.
  - split; [|intros w [Hw _]%Hin; by apply Hlt].
    revert Hnd. generalize (tm_capacity_waiters tm). intros l. induction l as [|x l IH]; [done|].
    cbn. intros [Hni Hnd]%NoDup_cons. destruct (negb _); [|by apply IH]. cbn. apply NoDup_cons.
    split; [|by apply IH]. intros (y & Hy & Hyin)%list_elem_of_fmap. apply Hni. apply list_elem_of_fmap.
    exists y. split; [done|]. apply list_elem_of_In, filter_In in Hyin as [Hyin _]. by apply list_elem_of_In.
Qed.

(** A worker that waits on [k] stops waiting. *)
Lemma stop_waiting tm ph id k :
  tm_ok tm ph -> ph !! id = Some (AwaitingSlot k) -> tm_ok (drop_waiter k tm) (<[id := Queued]> ph).
Proof.
  intros Hok Hp. assert (Hok' : tm_ok tm (<[id := Queued]> ph)) by (by eapply tm_ok_phase).
  apply drop_waiter_ok; [done|]. intros j [[_ Hj]|[Hne Hj]]%lookup_insert_Some; [done|].
  destruct (ok_waiting _ _ Hok _ _ Hj) as (w1 & Hw1 & Hk1 & Ht1).
  destruct (ok_waiting _ _ Hok _ _ Hp) as (w2 & Hw2 & Hk2 & Ht2).
  apply list_elem_of_lookup_1 in Hw1 as [i1 Hi1], Hw2 as [i2 Hi2].
  assert (i1 = i2) as ->; [|congruence]. apply (NoDup_lookup (w_key <$> tm_capacity_waiters tm) i1 i2 k); [apply (ok_keys _ _ Hok)| |];
    rewrite list_lookup_fmap, ?Hi1, ?Hi2; cbn; congruence.
Qed.

(** ** The end of a worker *)

Lemma kremove_kupdate id f l : (forall t, task_id (f t) = task_id t) ->
  kremove task_id id (kupdate task_id id f l) = kremove task_id id l.
Proof.
  intros Hf. unfold kremove, kupdate. induction l as [|t l IH]; [done|]. cbn.
  destruct (String.eqb (task_id t) id) eqn:Ht; cbn; rewrite ?Hf, Ht; cbn; by rewrite IH.
Qed.

Lemma kremove_all l id : id ∉ ids l -> kremove task_id id l = l.
Proof. intros Hni. apply kremove_none. by apply kfind_none. Qed.

(** Moving a task without a slot to the terminal tasks. *)
Lemma move_ok tm ph id t x :
  tm_ok tm ph -> ph !! id = Some Concluded -> task_find id tm = Some t ->
  task_id x = id -> tk_capacity_acquired x = false ->
  tm_ok (set_tasks tm (kremove task_id id (tm_active_tasks tm)) (kremove task_id id (tm_terminal_tasks tm) ++ [x])) ph.
Proof.
  intros Hok Hp Hf Hx Hc. destruct (kremove_keys task_id id _ (ok_active _ _ Hok)) as [Hna Hnia].
  destruct (kremove_keys task_id id _ (ok_terminal _ _ Hok)) as [Hnt Hnit].
  assert (Hsum : forall f, (forall y, y ∈ tm_active_tasks tm -> tk_capacity_acquired y = false -> f y = 0) ->
    sum_by f (kremove task_id id (tm_active_tasks tm)) = sum_by f (tm_active_tasks tm)).
  { intros f Hz. destruct (active_find id tm) as [y|] eqn:Hy.
    - rewrite (kremove_sum _ _ _ _ y) by (apply Hok || exact Hy). apply active_find_some in Hy as [Hy Hid].
      destruct (ok_phase _ _ Hok _ Hy) as (q & Hq & Hcap & _). rewrite Hid, Hp in Hq. injection Hq as <-.
      rewrite Hz; [lia|done|]. destruct (tk_capacity_acquired y); [|done]. by destruct Hcap as [Hcap _]; specialize (Hcap eq_refl).
    - apply kfind_none in Hy. by rewrite kremove_all. }
  split; cbn [set_tasks tm_active_tasks tm_terminal_tasks tm_running_total tm_capacity_waiters tm_next_waiter];
    try apply Hok; try done.
  - rewrite fmap_app. apply NoDup_app. split; [done|]. split; [|apply NoDup_singleton].
    intros y Hy ->%list_elem_of_singleton. rewrite Hx in Hy. done.
  - intros y [Hy _]%kremove_elem. by apply Hok.
  - intros j Hj. assert (j <> id) by congruence. apply (ok_executing _ _ Hok) in Hj.
    apply list_elem_of_fmap in Hj as (y & -> & Hy). apply list_elem_of_fmap_2. by apply kremove_elem.
  - intros y [[Hy Hne]%kremove_elem| ->%list_elem_of_singleton]%elem_of_app.
    + destruct (ok_ended _ _ Hok _ Hy) as (Hpy & Hcy & Hn). split; [done|]. split; [done|].
      intros (z & Hz & [Hzin _]%kremove_elem)%list_elem_of_fmap. apply Hn. rewrite Hz. by apply list_elem_of_fmap_2.
    + by rewrite Hx.
  - rewrite Hsum; [apply Hok|]. unfold holds. by intros y _ ->.
  - intros s. rewrite Hsum; [apply (ok_session _ _ Hok)|]. unfold holds_in. by intros y _ ->.
Qed.

Lemma task_find_cap tm ph id t :
  tm_ok tm ph -> ph !! id = Some Concluded -> task_find id tm = Some t ->
  task_id t = id /\ tk_capacity_acquired t = false.
Proof.
  intros Hok Hp. unfold task_find. destruct (active_find id tm) as [y|] eqn:Hy.
  - intros Heq. injection Heq as <-. apply active_find_some in Hy as [Hy Hid]. split; [done|].
    destruct (ok_phase _ _ Hok _ Hy) as (q & Hq & Hcap & _). rewrite Hid, Hp in Hq. injection Hq as <-.
    destruct (tk_capacity_acquired y); [|done]. by destruct Hcap as [Hcap _]; specialize (Hcap eq_refl).
  - intros [Ht Hid]%kfind_some. split; [done|]. by apply (ok_ended _ _ Hok).
Qed.

Lemma task_find_update id f tm t : (forall t, task_id (f t) = task_id t) ->
  task_find id tm = Some t -> task_find id (update_task id f tm) = Some (f t).
Proof.
  intros Hf. unfold task_find, update_task. destruct (active_find id tm) as [y|] eqn:Hy.
  - intros Heq. injection Heq as ->. unfold active_find in *. cbn [set_tasks tm_active_tasks].
    by rewrite kfind_kupdate, Hy by done.
  - intros Ht. unfold active_find in *. cbn [set_tasks tm_active_tasks tm_terminal_tasks].
    by rewrite Hy, kfind_kupdate, Ht by done.
Qed.

Lemma update_task_removed id f tm : (forall t, task_id (f t) = task_id t) ->
  kremove task_id id (tm_active_tasks (update_task id f tm)) = kremove task_id id (tm_active_tasks tm)
  /\ kremove task_id id (tm_terminal_tasks (update_task id f tm)) = kremove task_id id (tm_terminal_tasks tm).
Proof.
  intros Hf. unfold update_task. destruct (active_find id tm); cbn [set_tasks tm_active_tasks tm_terminal_tasks];
    by rewrite ?kremove_kupdate.
Qed.

(** What [complete_task] does: nothing, or it moves the task and prunes. *)
Lemma complete_shape id st r now_ tm :
  (complete' id st r now_ tm).2 = tm \/
  exists t x, task_find id tm = Some t /\ tk_spec x = tk_spec t
    /\ tk_capacity_acquired x = tk_capacity_acquired t
    /\ quiet (set_tasks tm (kremove task_id id (tm_active_tasks tm)) (kremove task_id id (tm_terminal_tasks tm) ++ [x]))
             (complete' id st r now_ tm).2.
Proof.
  unfold complete_task. destruct (task_find id tm) as [t|] eqn:Hf; [|by left].
  set (reason := match r with Some r => er_termination_reason r | None => status_name st end).
  assert (Hmove : forall tm1 x, task_find id tm1 = Some x ->
    kremove task_id id (tm_active_tasks tm1) = kremove task_id id (tm_active_tasks tm) ->
    kremove task_id id (tm_terminal_tasks tm1) = kremove task_id id (tm_terminal_tasks tm) ->
    tm_running_total tm1 = tm_running_total tm -> tm_running_by_session tm1 = tm_running_by_session tm ->
    tm_capacity_waiters tm1 = tm_capacity_waiters tm -> tm_next_waiter tm1 = tm_next_waiter tm ->
    quiet (set_tasks tm (kremove task_id id (tm_active_tasks tm)) (kremove task_id id (tm_terminal_tasks tm) ++ [with_result r x]))
      (cleanup' now_ (set_tasks tm1 (kremove task_id id (tm_active_tasks tm1))
                        (kremove task_id id (tm_terminal_tasks tm1) ++ [with_result r x]))).2).
  { intros tm1 x _ -> -> H1 H2 H3 H4. etransitivity; [|apply cleanup_quiet]. split; try done. intros y Hy. by exists y. }
  unfold py_when, py_modify, mbind, py_bind, mret, py_ret. destruct (terminal (tk_status t)); cbn [negb].
  - right. exists t, (with_result r t). rewrite Hf. do 3 (split; [done|]).
    specialize (Hmove tm t Hf eq_refl eq_refl eq_refl eq_refl eq_refl eq_refl). revert Hmove.
    by destruct (cleanup' now_ _) as [[n|e] tm2].
  - unfold transition_task. rewrite Hf. destruct (negb (validate_transition _ _)); [by left|]. right.
    set (f := fun t => append_trace trace_limit reason now_ (with_status st now_ t)).
    exists t, (with_result r (f t)). do 3 (split; [done|]).
    assert (Hfid : forall y, task_id (f y) = task_id y) by done.
    set (tm1 := update_task id f (bump lifecycle_transitions 1 tm)).
    assert (Hf1 : task_find id tm1 = Some (f t)) by by apply task_find_update.
    rewrite Hf1. destruct (update_task_removed id f (bump lifecycle_transitions 1 tm) Hfid) as [Hra Hrt].
    assert (Hrest : tm_running_total tm1 = tm_running_total tm /\ tm_running_by_session tm1 = tm_running_by_session tm
      /\ tm_capacity_waiters tm1 = tm_capacity_waiters tm /\ tm_next_waiter tm1 = tm_next_waiter tm)
      by (unfold tm1, update_task; by destruct (active_find _ _)).
    destruct Hrest as (H1 & H2 & H3 & H4). specialize (Hmove tm1 _ Hf1 Hra Hrt H1 H2 H3 H4). revert Hmove.
    by destruct (cleanup' now_ _) as [[n|e] tm2].
Qed.

Lemma complete_ok tm ph id st r now_ :
  tm_ok tm ph -> ph !! id = Some Concluded -> tm_ok (complete' id st r now_ tm).2 ph.
Proof.
  intros Hok Hp. destruct (complete_shape id st r now_ tm) as [->|(t & x & Hf & Hx & Hc & Hq)]; [done|].
  destruct (task_find_cap _ _ _ _ Hok Hp Hf) as [Hid Hcap].
  eapply tm_ok_quiet; [|exact Hq]. eapply move_ok; [done..| |]; unfold task_id in *; congruence.
Qed.

Lemma conclude_ok tm ph id p st reason now_ :
  tm_ok tm ph -> ph !! id = Some p -> p <> Concluded ->
  tm_ok (conclude' id st reason now_ tm).2 (<[id := Concluded]> ph).
Proof.
  intros Hok Hp Hnc. pose proof (release_ok _ _ _ _ now_ Hok Hp Hnc) as Hr.
  unfold conclude, mbind, py_bind. destruct (release' id now_ tm) as [[u|e] tm1] eqn:Hrel; [|done].
  apply complete_ok; [exact Hr|]. by rewrite lookup_insert_eq.
Qed.

(** ** The system *)

Record births_ok (active : list ActiveTaskInfo) (births : gmap string nat) (spawned : nat) : Prop := {
  bo_none : births !! "" = None;
  bo_below : forall id n, births !! id = Some n -> (n < spawned)%nat;
  bo_older : forall t, t ∈ active -> exists n, births !! task_id t = Some n
    /\ (tk_parent_worker_id (tk_spec t) = ""
        \/ exists m, births !! tk_parent_worker_id (tk_spec t) = Some m /\ (m < n)%nat);
}.

Record sys_ok (sys : System) : Prop := {
  so_tm : tm_ok (sys_manager sys) (sys_phases sys);
  so_births : births_ok (tm_active_tasks (sys_manager sys)) (sys_births sys) (sys_spawned sys);
}.

(** The tasks of [l'] are tasks of [l]. *)
Definition specs_within (l' l : list ActiveTaskInfo) : Prop :=
  forall t', t' ∈ l' -> exists t, t ∈ l /\ tk_spec t' = tk_spec t.

Lemma births_within l l' b n : specs_within l' l -> births_ok l b n -> births_ok l' b n.
Proof.
  intros Hw Hb. split; try apply Hb. intros t' Ht'. destruct (Hw _ Ht') as (t & Ht & Hs).
  unfold task_id. rewrite Hs. by apply Hb.
Qed.

Lemma quiet_within tm tm' : quiet tm tm' -> specs_within (tm_active_tasks tm') (tm_active_tasks tm).
Proof.
  intros Hq t' Ht'. destruct (Forall2_same_elem _ _ _ (q_active _ _ Hq) Ht') as (t & Ht & Hs & _). by exists t.
Qed.

Lemma update_within id f tm :
  (forall t, tk_spec (f t) = tk_spec t) -> specs_within (tm_active_tasks (update_task id f tm)) (tm_active_tasks tm).
Proof.
  intros Hf t'. unfold update_task. destruct (active_find id tm); cbn [set_tasks tm_active_tasks]; [|by exists t'].
  intros (t & Ht & ->)%kupdate_elem. exists t. split; [done|]. by destruct (String.eqb _ _).
Qed.

#[local] Instance specs_within_preorder : PreOrder specs_within.
Proof.
  split; [intros l t Ht; by exists t|]. intros a b c Hab Hbc t Ht.
  destruct (Hab _ Ht) as (t2 & H2 & E2). destruct (Hbc _ H2) as (t3 & H3 & E3). exists t3. split; [done|congruence].
Qed.

Lemma kremove_within id l : specs_within (kremove task_id id l) l.
Proof. intros t [Ht _]%kremove_elem. by exists t. Qed.

Lemma release_within id now_ tm : specs_within (tm_active_tasks (release' id now_ tm).2) (tm_active_tasks tm).
Proof.
  unfold release_execution_slot. cbn [py_modify snd]. destruct (task_find id tm); [|reflexivity].
  destruct (negb _); [reflexivity|]. cbn [set_waiters tm_active_tasks].
  exact (update_within id (fun x => append_trace trace_limit "capacity_released" now_ (with_capacity false x))
    (set_running tm _ _) (fun _ => eq_refl)).
Qed.

Lemma conclude_within id st reason now_ tm :
  specs_within (tm_active_tasks (conclude' id st reason now_ tm).2) (tm_active_tasks tm).
Proof.
  unfold conclude, mbind, py_bind. pose proof (release_within id now_ tm) as Hr.
  destruct (release' id now_ tm) as [[u|e] tm1] eqn:Hrel; [|done]. etransitivity; [|exact Hr].
  destruct (complete_shape id st (Some {| er_status := status_name st; er_termination_reason := reason |}) now_ tm1)
    as [->|(t & x & _ & _ & _ & Hq)]; [reflexivity|].
  etransitivity; [by apply quiet_within|]. cbn [set_tasks tm_active_tasks]. apply kremove_within.
Qed.

Lemma taken_eq tm id t : active_find id tm = Some t ->
  taken tm id (session_of t)
  = update_task id (with_capacity true) (set_running tm (tm_running_total tm + 1)
      (<[session_of t := session_count tm (session_of t) + 1]> (tm_running_by_session tm))).
Proof. done. Qed.

Lemma conclude_queued ph tm id p st reason now_ :
  tm_ok tm (<[id := p]> ph) -> p <> Concluded ->
  tm_ok (conclude' id st reason now_ tm).2 (<[id := Concluded]> ph).
Proof.
  intros Hok Hnc. rewrite <- (insert_insert_eq ph id Concluded p).
  apply (conclude_ok _ _ _ p); [done|by rewrite lookup_insert_eq|done].
Qed.

(** One round of the acquisition of a worker that holds nothing. *)
Lemma run_acquire_ok id now_ sys tm :
  tm_ok tm (<[id := Queued]> (sys_phases sys)) ->
  let sys' := run_acquire terminal_limit terminal_ttl max_workers max_per_session trace_limit id now_ sys tm in
  tm_ok (sys_manager sys') (sys_phases sys')
  /\ specs_within (tm_active_tasks (sys_manager sys')) (tm_active_tasks tm)
  /\ sys_births sys' = sys_births sys /\ sys_spawned sys' = sys_spawned sys.
Proof.
  intros Hok. assert (Hq : <[id := Queued]> (sys_phases sys) !! id = Some Queued) by apply lookup_insert_eq.
  unfold run_acquire, acquire_round. destruct (active_find id tm) as [t|] eqn:Hf.
  2:{ cbn. split; [by apply (conclude_queued _ _ _ Queued)|]. split; [apply conclude_within|done]. }
  destruct (has_room' tm (session_of t)) eqn:Hroom.
  - unfold py_modify, mbind, py_bind. fold (taken tm id (session_of t)).
    assert (Htk : tm_ok (taken tm id (session_of t)) (<[id := Executing]> (sys_phases sys))).
    { pose proof (take_slot_ok _ _ _ _ _ Hok Hf Hq ltac:(done) Hroom) as Htk. by rewrite insert_insert_eq in Htk. }
    assert (Hin : specs_within (tm_active_tasks (taken tm id (session_of t))) (tm_active_tasks tm)).
    { exact (update_within id (with_capacity true) (set_running tm _ _) (fun _ => eq_refl)). }
    pose proof (transition_quiet id running "capacity_acquired" now_ eq_refl (taken tm id (session_of t))) as Hquiet.
    destruct (transition' id running "capacity_acquired" now_ _) as [[u|e] tm2] eqn:Htr; cbn [snd] in Hquiet; cbn.
    + split; [by eapply tm_ok_quiet|]. split; [etransitivity; [by apply quiet_within|done]|done].
    + assert (Hok2 : tm_ok tm2 (<[id := Executing]> (sys_phases sys))) by by eapply tm_ok_quiet.
      destruct e; cbn; (split; [by apply (conclude_queued _ _ _ Executing)|]);
        (split; [etransitivity; [apply conclude_within|]; etransitivity; [by apply quiet_within|done]|done]).
  - cbn. pose proof (wait_ok _ _ _ _ _ Hok Hf Hq ltac:(done) ltac:(done) Hroom) as Hw.
    rewrite insert_insert_eq in Hw. set (tmw := set_waiters _ _ _) in *. split; [|split; [|done]].
    + eapply tm_ok_quiet; [exact Hw|]. etransitivity; [|apply update_task_quiet; intros; apply same_trace].
      apply (bump_quiet capacity_waits 1 tmw).
    + exact (update_within id (append_trace trace_limit "capacity_wait" now_) (bump capacity_waits 1 tmw) (fun _ => eq_refl)).
Qed.

Lemma concluded_ok id st reason now_ sys tm p :
  tm_ok tm (<[id := p]> (sys_phases sys)) -> p <> Concluded ->
  specs_within (tm_active_tasks tm) (tm_active_tasks (sys_manager sys)) ->
  births_ok (tm_active_tasks (sys_manager sys)) (sys_births sys) (sys_spawned sys) ->
  sys_ok (concluded' id st reason now_ sys tm).
Proof.
  intros Hok Hnc Hin Hb. split; cbn.
  - by apply (conclude_queued _ _ _ p).
  - eapply births_within; [|exact Hb]. etransitivity; [apply conclude_within|done].
Qed.

Lemma quiet_step sys tm : sys_ok sys -> quiet (sys_manager sys) tm -> sys_ok (set_manager sys tm).
Proof.
  intros [Hok Hb] Hq. split; cbn; [by eapply tm_ok_quiet|]. eapply births_within; [by apply quiet_within|done].
Qed.

Lemma spawn_ok spec now_ sys :
  sys_ok sys -> tk_task_id spec <> "" -> sys_phases sys !! tk_task_id spec = None ->
  sys_births sys !! tk_task_id spec = None ->
  tk_parent_worker_id spec = "" \/ is_Some (sys_births sys !! tk_parent_worker_id spec) ->
  sys_ok (spawn trace_limit spec now_ sys).
Proof.
  intros [Hok Hb] Hne Hph Hbi Hpar. split; cbn; [by apply register_ok|].
  assert (Hact : forall t, t ∈ tm_active_tasks (register_task trace_limit spec now_ (sys_manager sys)).2 ->
    t ∈ tm_active_tasks (sys_manager sys) \/ (task_id t = tk_task_id spec /\ tk_parent_worker_id (tk_spec t) = tk_parent_worker_id spec)).
  { intros t. unfold register_task. destruct (active_find _ _); cbn [set_tasks tm_active_tasks snd];
      intros [Ht| ->%list_elem_of_singleton]%elem_of_app; [apply kremove_elem in Ht as [Ht _]; by left|by right|by left|by right]. }
  split.
  - rewrite lookup_insert_ne by done. apply Hb.
  - intros id n [[_ <-]|[_ Hn]]%lookup_insert_Some; [lia|]. apply (bo_below _ _ _ Hb) in Hn. lia.
  - intros t [Ht|[Hid Hp]]%Hact.
    + destruct (bo_older _ _ _ Hb _ Ht) as (n & Hn & Hold). exists n.
      rewrite lookup_insert_ne by congruence. split; [done|]. destruct Hold as [?|(m & Hm & Hlt)]; [by left|right].
      exists m. rewrite lookup_insert_ne by congruence. done.
    + exists (sys_spawned sys). rewrite Hid, lookup_insert_eq. split; [done|]. rewrite Hp.
      destruct Hpar as [Hpar|[m Hm]]; [by left|right]. exists m. rewrite lookup_insert_ne by congruence.
      split; [done|]. by apply (bo_below _ _ _ Hb) in Hm.
Qed.

Lemma sys_step_ok sys sys' : sys_ok sys -> sys_step' sys sys' -> sys_ok sys'.
Proof.
  intros Hs Hstep. pose proof Hs as [Hok Hb].
  destruct Hstep as [spec now_ Hne Hph Hbi Hpar|id now_ Hph|id Hph|id k w now_ Hph Hw Hk Hd|id k now_ Hph
    |id n now_ Hph|id st reason now_ Hph Hst|id st reason now_ Hph Hst|fuel id reason now_|fuel l reason now_
    |c now_|id now_|l].
  - by apply spawn_ok.
  - destruct (run_acquire_ok id now_ sys (sys_manager sys)) as (H1 & H2 & H3 & H4).
    { by rewrite insert_id. }
    split; [done|]. rewrite H3, H4. by eapply births_within.
  - split; [|done]. cbn. eapply tm_ok_phase; [done|exact Hph|done..].
  - destruct (run_acquire_ok id now_ sys (drop_waiter k (sys_manager sys))) as (H1 & H2 & H3 & H4).
    { by apply stop_waiting. }
    split; [done|]. rewrite H3, H4. by eapply births_within.
  - apply (concluded_ok _ _ _ _ _ _ Queued); [by apply stop_waiting|done|reflexivity|done].
  - apply quiet_step; [done|]. apply set_attempt_quiet.
  - assert (Hq : quietly (transition' id st reason now_)) by (apply transition_quiet; by destruct Hst as [->| ->]).
    specialize (Hq (sys_manager sys)). destruct (transition' id st reason now_ (sys_manager sys)) as [[u|e] tm] eqn:Htr.
    + by apply quiet_step.
    + apply (concluded_ok _ _ _ _ _ _ Executing); [rewrite insert_id by done; by eapply tm_ok_quiet|done|by apply quiet_within|done].
  - apply (concluded_ok _ _ _ _ _ _ Executing); [by rewrite insert_id|done|reflexivity|done].
  - apply quiet_step; [done|]. apply stop_task_quiet.
  - apply quiet_step; [done|]. apply cancel_workers_quiet.
  - apply quiet_step; [done|]. apply queue_command_quiet.
  - apply quiet_step; [done|]. apply get_task_quiet.
  - apply quiet_step; [done|]. apply mark_consumed_quiet.
Qed.

Lemma sys_reachable_ok sys : 0 <= max_workers -> 0 <= max_per_session -> sys_reachable' sys -> sys_ok sys.
Proof.
  intros Hw Hp. induction 1 as [|sys sys' _ IH Hs]; [|by eapply sys_step_ok].
  split; [|split; [done|done|intros t Ht; by apply elem_of_nil in Ht]].
  split; cbn; try apply NoDup_nil_2; try (intros x Hx; by apply elem_of_nil in Hx); try done.
  split; [by apply NoDup_nil_2|intros w Hx; by apply elem_of_nil in Hx].
Qed.

(** ** Capacity *)

Definition executing (sys : System) : list ActiveTaskInfo :=
  List.filter (fun t => bool_decide (sys_phases sys !! task_id t = Some Executing)) (tm_active_tasks (sys_manager sys)).

Definition executing_in (s : string) (sys : System) : list ActiveTaskInfo :=
  List.filter (fun t => String.eqb (session_of t) s) (executing sys).

Lemma holds_executing sys t :
  tm_ok (sys_manager sys) (sys_phases sys) -> t ∈ tm_active_tasks (sys_manager sys) ->
  tk_capacity_acquired t = bool_decide (sys_phases sys !! task_id t = Some Executing).
Proof.
  intros Hok Ht. destruct (ok_phase _ _ Hok _ Ht) as (p & Hp & Hc & _). rewrite Hp.
  destruct (decide (p = Executing)) as [->|Hne].
  - rewrite bool_decide_eq_true_2 by done. by apply Hc.
  - rewrite bool_decide_eq_false_2 by congruence. destruct (tk_capacity_acquired t); [|done]. by destruct Hne; apply Hc.
Qed.

(** The terminal tasks kept never exceed the limit. *)
Lemma cleanup_loop_bound now_ l l' n :
  (length l <= S terminal_limit)%nat ->
  cleanup_loop terminal_limit terminal_ttl now_ l l 0 = (l', n) -> (length l' <= terminal_limit)%nat.
Proof.
  intros Hlen Hr. destruct l as [|x l]; cbn [cleanup_loop] in Hr; [injection Hr as <- _; cbn; lia|].
  assert (Hrem : (length (kremove task_id (task_id x) (x :: l)) <= length l)%nat).
  { unfold kremove. cbn. rewrite String.eqb_refl. cbn. apply filter_length_le. }
  cbn in Hlen. destruct (_ && _) eqn:Hb.
  - apply cleanup_loop_sub in Hr as (_ & Hle & _). apply andb_true_iff in Hb as [_ Hb%negb_true_iff%Z.ltb_ge].
    cbn in Hle, Hb. lia.
  - apply cleanup_loop_sub in Hr as (_ & Hle & _). lia.
Qed.

Definition bounded (tm : TaskManager) : Prop := (length (tm_terminal_tasks tm) <= terminal_limit)%nat.

Lemma quiet_bounded tm tm' : quiet tm tm' -> bounded tm -> bounded tm'.
Proof. intros Hq. pose proof (q_length _ _ Hq). unfold bounded. lia. Qed.

Lemma update_task_bounded id f tm : bounded tm -> bounded (update_task id f tm).
Proof.
  unfold bounded, update_task. destruct (active_find id tm); cbn [set_tasks tm_terminal_tasks]; [done|].
  unfold kupdate. by rewrite length_map.
Qed.

Lemma kremove_length id l : (length (kremove task_id id l) <= length l)%nat.
Proof. apply filter_length_le. Qed.

Lemma complete_bounded id st r now_ tm : bounded tm -> bounded (complete' id st r now_ tm).2.
Proof.
  intros Hb. unfold complete_task. destruct (task_find id tm) as [t|]; [|done].
  assert (Hend : forall tm1, bounded tm1 -> bounded ((_ ← py_modify (fun tm => match task_find id tm with
      | None => tm | Some t => set_tasks tm (kremove task_id id (tm_active_tasks tm))
                    (kremove task_id id (tm_terminal_tasks tm) ++ [with_result r t]) end);
      _ ← cleanup' now_; mret ()) tm1).2).
  { intros tm1 Hb1. unfold mbind, py_bind, py_modify. set (tm2 := match task_find id tm1 with Some _ => _ | None => _ end).
    assert (Hlen : (length (tm_terminal_tasks tm2) <= S terminal_limit)%nat).
    { unfold bounded in Hb1. unfold tm2. destruct (task_find id tm1); cbn [set_tasks tm_terminal_tasks]; [|lia].
      rewrite length_app. cbn. pose proof (kremove_length id (tm_terminal_tasks tm1)). lia. }
    unfold cleanup_terminal. destruct (cleanup_loop _ _ _ _ _ _) as [l n] eqn:Hl. cbn.
    by eapply cleanup_loop_bound. }
  unfold mbind, py_bind, py_when in *. destruct (negb _); [|by apply Hend].
  unfold transition_task. destruct (task_find id tm); [|done]. destruct (negb _); [done|]. cbn.
  apply Hend. by apply update_task_bounded.
Qed.

Lemma release_bounded id now_ tm : bounded tm -> bounded (release' id now_ tm).2.
Proof.
  intros Hb. unfold release_execution_slot. cbn [py_modify snd]. destruct (task_find id tm); [|done].
  destruct (negb _); [done|].
  exact (update_task_bounded id (fun x => append_trace trace_limit "capacity_released" now_ (with_capacity false x))
    (set_running tm _ _) Hb).
Qed.

Lemma conclude_bounded id st reason now_ tm : bounded tm -> bounded (conclude' id st reason now_ tm).2.
Proof.
  intros Hb. unfold conclude, mbind, py_bind. pose proof (release_bounded id now_ tm Hb) as Hr.
  destruct (release' id now_ tm) as [[u|e] tm1]; [by apply complete_bounded|done].
Qed.

Lemma run_acquire_bounded id now_ sys tm :
  bounded tm -> bounded (sys_manager (run_acquire terminal_limit terminal_ttl max_workers max_per_session trace_limit id now_ sys tm)).
Proof.
  intros Hb. assert (Ha : bounded (acquire' id now_ tm).2).
  { unfold acquire_round. destruct (active_find id tm) as [t|]; [|done]. destruct (has_room' _ _).
    - unfold py_modify, mbind, py_bind.
      assert (Htk : bounded (taken tm id (session_of t))) by by apply update_task_bounded.
      pose proof (quiet_bounded _ _ (transition_quiet id running "capacity_acquired" now_ eq_refl _) Htk) as Hq.
      unfold taken in Hq. by destruct (transition' id running _ _ _) as [[u|e] tm2].
    - cbn [snd]. by apply update_task_bounded. }
  unfold run_acquire. destruct (acquire' id now_ tm) as [[[k|]|[]] tm']; cbn; try done; by apply conclude_bounded.
Qed.

Lemma sys_bounded sys : sys_reachable' sys -> bounded (sys_manager sys).
Proof.
  assert (Hquiet : forall A (m : Py TaskManager TaskError A) tm, quietly m -> bounded tm -> bounded (m tm).2)
    by (intros A m tm Hq; by apply quiet_bounded).
  induction 1 as [|sys sys' _ IH Hs]; [unfold bounded; cbn; lia|].
  destruct Hs as [spec now_ Hne Hph Hbi Hpar|id now_ Hph|id Hph|id k w now_ Hph Hw Hk Hd|id k now_ Hph
    |id n now_ Hph|id st reason now_ Hph Hst|id st reason now_ Hph Hst|fuel id reason now_|fuel l reason now_
    |c now_|id now_|l];
    try (apply run_acquire_bounded); try (apply conclude_bounded); try exact IH;
    try (apply Hquiet; [|exact IH]; first
      [apply set_attempt_quiet | apply stop_task_quiet | apply cancel_workers_quiet | apply queue_command_quiet | apply get_task_quiet]).
  - cbn. unfold register_task. destruct (active_find _ _); cbn [set_tasks tm_terminal_tasks snd]; [done|].
    unfold bounded in *. cbn [set_tasks tm_terminal_tasks].
    pose proof (kremove_length (tk_task_id spec) (tm_terminal_tasks (sys_manager sys))). lia.
  - assert (Hq : quietly (transition' id st reason now_)) by (apply transition_quiet; by destruct Hst as [->| ->]).
    specialize (Hq (sys_manager sys)). destruct (transition' id st reason now_ (sys_manager sys)) as [[u|e] tm].
    + by eapply quiet_bounded.
    + apply conclude_bounded. by eapply quiet_bounded.
  - eapply quiet_bounded; [apply mark_consumed_quiet|done].
Qed.

(** C30: slots and memory are accounted for: in every reachable system the slots counted as
    taken, in total and per session, are exactly those of the workers that execute, however
    workers end (finished, failed, cancelled while queued, waiting or running); they stay
    within both limits, and no more ended tasks are kept than the limit. *)
Theorem capacity_is_accounted sys :
  0 <= max_workers -> 0 <= max_per_session -> sys_reachable' sys ->
  let tm := sys_manager sys in
  tm_running_total tm = Z.of_nat (length (executing sys)) /\ tm_running_total tm <= max_workers
  /\ (forall s, session_count tm s = Z.of_nat (length (executing_in s sys)) /\ session_count tm s <= max_per_session)
  /\ (forall id, sys_phases sys !! id = Some Executing <-> id ∈ ids (executing sys))
  /\ (length (tm_terminal_tasks tm) <= terminal_limit)%nat.
Proof.
  intros Hw Hp Hr tm. pose proof (sys_reachable_ok _ Hw Hp Hr) as [Hok _]. fold tm in Hok.
  split; [|split; [apply Hok|split; [|split; [|by apply sys_bounded]]]].
  - rewrite (ok_total _ _ Hok). apply sum_by_filter. intros t Ht. unfold holds. by rewrite (holds_executing sys).
  - intros s. split; [|apply Hok]. rewrite (ok_session _ _ Hok). unfold executing_in, executing. rewrite filter_filter_and.
    apply sum_by_filter. intros t Ht. unfold holds_in. by rewrite (holds_executing sys).
  - intros id. unfold executing. split.
    + intros Hph. pose proof (ok_executing _ _ Hok _ Hph) as (t & -> & Ht)%list_elem_of_fmap.
      apply list_elem_of_fmap_2, list_elem_of_In, filter_In. split; [by apply list_elem_of_In|by apply bool_decide_eq_true_2].
    + intros (t & -> & Ht)%list_elem_of_fmap. apply list_elem_of_In, filter_In in Ht as [_ Ht].
      by apply bool_decide_eq_true in Ht.
Qed.

(** No wake-up is lost: a worker that waits for a slot either has been woken, and can
    run its next round, or there is no room for its session right now. *)
Lemma no_lost_wakeup sys id k :
  0 <= max_workers -> 0 <= max_per_session -> sys_reachable' sys ->
  sys_phases sys !! id = Some (AwaitingSlot k) ->
  exists w, w ∈ tm_capacity_waiters (sys_manager sys) /\ w_key w = k /\ w_task w = id
    /\ if w_done w
       then sys_step' sys (run_acquire terminal_limit terminal_ttl max_workers max_per_session trace_limit id 0 sys
                             (drop_waiter k (sys_manager sys)))
       else has_room' (sys_manager sys) (w_session w) = false.
Proof.
  intros Hw Hp Hr Hph. pose proof (sys_reachable_ok _ Hw Hp Hr) as [Hok _].
  destruct (ok_waiting _ _ Hok _ _ Hph) as (w & Hin & Hk & Ht). exists w. do 3 (split; [done|]).
  destruct (w_done w) eqn:Hd; [by eapply step_wake|by apply Hok].
Qed.

(** ** Cancellation *)

(** [x] is [root] or a worker below it. *)
Inductive descends (l : list ActiveTaskInfo) (root : string) : string -> Prop :=
| descends_self : descends l root root
| descends_child t : t ∈ l -> descends l root (tk_parent_worker_id (tk_spec t)) -> descends l root (task_id t).

Definition stopped (t : ActiveTaskInfo) : Prop := tk_status t = cancelling /\ tk_future_cancelled t = true.

(** What a cancellation may do to any task. *)
Definition kept (t t' : ActiveTaskInfo) : Prop :=
  tk_spec t' = tk_spec t /\ (terminal (tk_status t) = false -> terminal (tk_status t') = false)
  /\ (tk_status t = cancelling -> tk_status t' = cancelling)
  /\ (tk_future_cancelled t = true -> tk_future_cancelled t' = true).

(** Stopping the workers of [roots] in [l]: their descendants are stopped, the others are
    untouched. *)
Definition stops (l : list ActiveTaskInfo) (roots : list string) (t t' : ActiveTaskInfo) : Prop :=
  kept t t' /\ ((exists r, r ∈ roots /\ descends l r (task_id t)) -> stopped t')
  /\ ((forall r, r ∈ roots -> ~ descends l r (task_id t)) -> t' = t).

Lemma Forall2_compose {A} (R1 R2 R3 : A -> A -> Prop) l1 l2 l3 :
  (forall a b c, R1 a b -> R2 b c -> R3 a c) -> Forall2 R1 l1 l2 -> Forall2 R2 l2 l3 -> Forall2 R3 l1 l3.
Proof.
  intros Hc H12. revert l3. induction H12; intros l3 H23; inversion H23; subst; constructor; eauto.
Qed.

Lemma Forall2_compose3 {A} (R1 R2 R3 R : A -> A -> Prop) l1 l2 l3 l4 :
  (forall a b c d, R1 a b -> R2 b c -> R3 c d -> R a d) ->
  Forall2 R1 l1 l2 -> Forall2 R2 l2 l3 -> Forall2 R3 l3 l4 -> Forall2 R l1 l4.
Proof.
  intros Hc H1 H2 H3. eapply Forall2_compose; [|exact H1|eapply (Forall2_compose R2 R3 (fun a c => exists b, R2 a b /\ R3 b c)); [|exact H2|exact H3]].
  - intros a b c Hab (x & Hbx & Hxc). by eapply Hc.
  - intros a b c Hab Hbc. by exists b.
Qed.

Lemma kept_trans a b c : kept a b -> kept b c -> kept a c.
Proof. unfold kept. intros (H1 & H2 & H3 & H4) (H5 & H6 & H7 & H8). split; [congruence|]. tauto. Qed.

Lemma kept_refl t : kept t t.
Proof. done. Qed.

Lemma kept_stopped t t' : kept t t' -> stopped t -> stopped t'.
Proof. unfold kept, stopped. tauto. Qed.

Lemma Forall2_kept_specs l l' : Forall2 kept l l' -> tk_spec <$> l' = tk_spec <$> l.
Proof. induction 1 as [|t t' l l' [Hs _] _ IH]; [done|]. cbn. cbn in IH. by rewrite Hs, IH. Qed.

Lemma specs_elem (l l' : list ActiveTaskInfo) t : tk_spec <$> l' = tk_spec <$> l -> t ∈ l ->
  exists t', t' ∈ l' /\ tk_spec t' = tk_spec t.
Proof.
  intros Heq Ht. assert (Hin : tk_spec t ∈ tk_spec <$> l') by (rewrite Heq; by apply list_elem_of_fmap_2).
  apply list_elem_of_fmap in Hin as (t' & Hs & Ht'). by exists t'.
Qed.

Lemma descends_specs l l' r x : tk_spec <$> l' = tk_spec <$> l -> descends l r x -> descends l' r x.
Proof.
  intros Heq. induction 1 as [|t Ht _ IH]; [constructor|].
  destruct (specs_elem _ _ _ Heq Ht) as (t' & Ht' & Hs).
  replace (task_id t) with (task_id t') by (unfold task_id; by rewrite Hs).
  apply descends_child; [done|]. by rewrite Hs.
Qed.

Lemma specs_ids (l l' : list ActiveTaskInfo) : tk_spec <$> l' = tk_spec <$> l -> ids l' = ids l.
Proof.
  intros Heq. replace (ids l') with (tk_task_id <$> (tk_spec <$> l')) by (by rewrite <- list_fmap_compose).
  rewrite Heq. by rewrite <- list_fmap_compose.
Qed.

(** Depth of the forest of workers. *)
Definition ranked (rank : string -> nat) (l : list ActiveTaskInfo) : Prop :=
  forall t, t ∈ l -> tk_parent_worker_id (tk_spec t) ∈ ids l -> (rank (task_id t) < rank (tk_parent_worker_id (tk_spec t)))%nat.

Lemma ranked_specs rank l l' : tk_spec <$> l' = tk_spec <$> l -> ranked rank l -> ranked rank l'.
Proof.
  intros Heq Hr t' Ht' Hp. destruct (specs_elem l' l t' (eq_sym Heq) Ht') as (t & Ht & Hs).
  rewrite (specs_ids _ _ Heq), <- Hs in Hp. specialize (Hr _ Ht Hp). unfold task_id in *. by rewrite <- Hs.
Qed.

Record forest (rank : string -> nat) (l : list ActiveTaskInfo) : Prop := {
  fo_nodup : NoDup (ids l);
  fo_rank : ranked rank l;
  fo_live : forall t, t ∈ l -> terminal (tk_status t) = false;
}.

Lemma forest_kept rank l l' : Forall2 kept l l' -> forest rank l -> forest rank l'.
Proof.
  intros Hk [Hn Hr Hl]. pose proof (Forall2_kept_specs _ _ Hk) as Hs. split.
  - by rewrite (specs_ids _ _ Hs).
  - by eapply ranked_specs.
  - intros t' Ht'. clear Hs Hn Hr. induction Hk as [|a b l l' Hab _ IH]; [by apply elem_of_nil in Ht'|].
    apply elem_of_cons in Ht' as [->|Ht'].
    + apply Hab. apply Hl. set_solver.
    + apply IH; [|done]. intros t Ht. apply Hl. set_solver.
Qed.

Lemma kupdate_kept id f l : (forall t, t ∈ l -> task_id t = id -> kept t (f t)) ->
  Forall2 (fun t t' => kept t t' /\ (task_id t = id -> t' = f t) /\ (task_id t <> id -> t' = t)) l (kupdate task_id id f l).
Proof.
  intros Hf. unfold kupdate. induction l as [|t l IH]; [constructor|]. constructor.
  - destruct (String.eqb_spec (task_id t) id) as [Heq|Hne].
    + split; [apply Hf; [set_solver|done]|]. by split.
    + split; [apply kept_refl|]. by split.
  - apply IH. intros x Hx. apply Hf. set_solver.
Qed.

(** Stopping one root, then the rest. *)
Lemma stops_cons l r roots t t1 t2 l1 :
  tk_spec <$> l1 = tk_spec <$> l -> stops l [r] t t1 -> stops l1 roots t1 t2 -> stops l (r :: roots) t t2.
Proof.
  intros Hs (Hk1 & Hd1 & Hn1) (Hk2 & Hd2 & Hn2). assert (Hid : task_id t1 = task_id t) by (unfold task_id; by rewrite (proj1 Hk1)).
  split; [by eapply kept_trans|]. split.
  - intros (x & [->|Hx]%elem_of_cons & Hd).
    + eapply kept_stopped; [exact Hk2|]. apply Hd1. exists r. split; [set_solver|done].
    + apply Hd2. exists x. split; [done|]. rewrite Hid. by eapply descends_specs.
  - intros Hno. rewrite Hn2, Hn1; [done| |].
    + intros x ->%list_elem_of_singleton. apply Hno. set_solver.
    + intros x Hx Hd. apply (Hno x); [set_solver|]. rewrite Hid in Hd. by eapply descends_specs.
Qed.

Lemma descends_split l id x : descends l id x ->
  x = id \/ exists t, t ∈ l /\ tk_parent_worker_id (tk_spec t) = id /\ descends l (task_id t) x.
Proof.
  induction 1 as [|t Ht _ IH]; [by left|right]. destruct IH as [Heq|(c & Hc & Hp & Hd)].
  - exists t. split; [done|]. split; [done|constructor].
  - exists c. split; [done|]. split; [done|]. by apply descends_child.
Qed.

Lemma descends_join l id t x :
  t ∈ l -> tk_parent_worker_id (tk_spec t) = id -> descends l (task_id t) x -> descends l id x.
Proof.
  intros Ht Hp. induction 1 as [|y Hy _ IH]; [|by apply descends_child].
  apply descends_child; [done|]. rewrite Hp. constructor.
Qed.

(** A change of the one task [id]. *)
Definition changes (id : string) (P : ActiveTaskInfo -> Prop) (t t' : ActiveTaskInfo) : Prop :=
  kept t t' /\ (task_id t = id -> P t') /\ (task_id t <> id -> t' = t).

Lemma update_changes id f P tm t :
  active_find id tm = Some t -> (forall x, x ∈ tm_active_tasks tm -> task_id x = id -> kept x (f x) /\ P (f x)) ->
  Forall2 (changes id P) (tm_active_tasks tm) (tm_active_tasks (update_task id f tm)).
Proof.
  intros Hf Hk. unfold update_task. rewrite Hf. cbn [set_tasks tm_active_tasks].
  assert (Hkept : forall x, x ∈ tm_active_tasks tm -> task_id x = id -> kept x (f x)) by (intros; by apply Hk).
  pose proof (kupdate_kept id f _ Hkept) as H2. clear Hkept. revert Hk.
  induction H2 as [|a b l l' (Hab & Hid & Hne) _ IH]; intros Hk; constructor.
  - split; [done|]. split; [|done]. intros Heq. rewrite Hid by done. apply Hk; [set_solver|done].
  - apply IH. intros x Hx. apply Hk. set_solver.
Qed.

Lemma changes_kept id P l l' : Forall2 (changes id P) l l' -> Forall2 kept l l'.
Proof. induction 1 as [|t t' k1 k2 [Hk _] _ IH]; by constructor. Qed.

Lemma changes_refl id P l : (forall t, t ∈ l -> task_id t = id -> P t) -> Forall2 (changes id P) l l.
Proof.
  intros HP. induction l as [|t l IH]; constructor; [|apply IH; intros; apply HP; set_solver].
  split; [apply kept_refl|]. split; [|done]. intros Hid. apply HP; [set_solver|done].
Qed.

Lemma forest_find rank tm id : forest rank (tm_active_tasks tm) -> id ∈ ids (tm_active_tasks tm) ->
  exists t, active_find id tm = Some t /\ t ∈ tm_active_tasks tm /\ task_id t = id.
Proof.
  intros Hfo (t & -> & Ht)%list_elem_of_fmap. exists t. split; [|done]. apply kfind_in; [apply Hfo|done|done].
Qed.

(** The transition to [cancelling] of a live task. *)
Lemma cancelling_step rank id reason now_ tm t :
  forest rank (tm_active_tasks tm) -> active_find id tm = Some t ->
  exists tm1, py_when (negb (bool_decide (tk_status t = cancelling))) (transition' id cancelling reason now_) tm = (Ok (), tm1)
    /\ Forall2 (changes id (fun x => tk_status x = cancelling)) (tm_active_tasks tm) (tm_active_tasks tm1).
Proof.
  intros Hfo Hf. pose proof (active_find_some _ _ _ Hf) as [Ht Hid].
  assert (Huniq : forall x, x ∈ tm_active_tasks tm -> task_id x = id -> x = t).
  { intros x Hx Heq. assert (Hfx : active_find id tm = Some x) by (apply kfind_in; [apply Hfo|done|done]). congruence. }
  destruct (decide (tk_status t = cancelling)) as [Hc|Hc].
  - rewrite bool_decide_eq_true_2 by done. exists tm. split; [done|]. apply changes_refl.
    intros x Hx Heq. by rewrite (Huniq x).
  - rewrite bool_decide_eq_false_2 by done. cbn [negb py_when]. unfold transition_task, task_find. rewrite Hf.
    assert (Hv : validate_transition (tk_status t) cancelling = true).
    { pose proof (fo_live _ _ Hfo _ Ht) as Hl. revert Hl Hc. by destruct (tk_status t). }
    rewrite Hv. cbn [negb]. eexists. split; [done|].
    eapply (update_changes _ _ _ (bump lifecycle_transitions 1 tm) t Hf). intros x Hx Heq. split; [|done].
    split; [done|]. split; [done|]. by split.
Qed.

Lemma stops_nil l : Forall2 (stops l []) l l.
Proof.
  assert (H : forall k, Forall2 (stops l []) k k); [|apply H]. induction k as [|t k IH]; constructor; [|done].
  split; [apply kept_refl|]. split; [|done]. intros (r & Hr & _). by apply elem_of_nil in Hr.
Qed.

Lemma Forall2_stops_kept l roots k k' : Forall2 (stops l roots) k k' -> Forall2 kept k k'.
Proof. induction 1 as [|t t' k1 k2 [Hk _] _ IH]; by constructor. Qed.

(** The loop over the children, given what stopping one worker does. *)
Lemma stop_children rank fuel reason now_ :
  (forall id tm, forest rank (tm_active_tasks tm) -> id ∈ ids (tm_active_tasks tm) -> (rank id < fuel)%nat ->
     exists tm', stop' fuel id reason now_ tm = (Ok (), tm')
       /\ Forall2 (stops (tm_active_tasks tm) [id]) (tm_active_tasks tm) (tm_active_tasks tm')) ->
  forall cs tm, forest rank (tm_active_tasks tm) ->
  (forall c, c ∈ cs -> c ∈ ids (tm_active_tasks tm) /\ (rank c < fuel)%nat) ->
  exists tm', py_iter (fun child => present ← py_gets (active_find child);
                match present with Some _ => stop' fuel child reason now_ | None => mret () end) cs tm = (Ok (), tm')
    /\ Forall2 (stops (tm_active_tasks tm) cs) (tm_active_tasks tm) (tm_active_tasks tm').
Proof.
  intros IH. induction cs as [|c cs IHc]; intros tm Hfo Hcs; [exists tm; split; [done|apply stops_nil]|].
  destruct (Hcs c) as [Hin Hr]; [set_solver|]. destruct (forest_find _ _ _ Hfo Hin) as (t & Hf & _).
  destruct (IH c tm Hfo Hin Hr) as (tm1 & H1 & Hs1). pose proof (Forall2_stops_kept _ _ _ _ Hs1) as Hk1.
  pose proof (Forall2_kept_specs _ _ Hk1) as Hsp.
  destruct (IHc tm1) as (tm2 & H2 & Hs2).
  - by eapply forest_kept.
  - intros x Hx. rewrite (specs_ids _ _ Hsp). apply Hcs. set_solver.
  - exists tm2. split.
    + cbn [py_iter]. unfold mbind at 1, py_bind at 1. unfold mbind at 1, py_bind at 1, py_gets. rewrite Hf, H1. exact H2.
    + eapply Forall2_compose; [|exact Hs1|exact Hs2]. intros a b d. by apply stops_cons.
Qed.

(** Assembling the parts of one [stop_task]. *)
Lemma stops_assemble l id cs a b d e :
  (forall c, c ∈ cs <-> exists t, t ∈ l /\ tk_parent_worker_id (tk_spec t) = id /\ task_id t = c) ->
  changes id (fun x => tk_status x = cancelling) a b -> stops l cs b d ->
  changes id (fun x => tk_future_cancelled x = true) d e -> stops l [id] a e.
Proof.
  intros Hcs (Hk1 & Hc1 & Hn1) (Hk2 & Hd2 & Hn2) (Hk3 & Hc3 & Hn3).
  assert (Hb : task_id b = task_id a) by (unfold task_id; by rewrite (proj1 Hk1)).
  assert (Hd : task_id d = task_id a) by (unfold task_id in *; by rewrite (proj1 Hk2)).
  split; [eapply kept_trans; [eapply kept_trans; [exact Hk1|exact Hk2]|exact Hk3]|]. split.
  - intros (r & ->%list_elem_of_singleton & Hdesc). destruct (descends_split _ _ _ Hdesc) as [Heq|(t & Ht & Hp & Hdt)].
    + split; [|by apply Hc3; rewrite Hd]. apply Hk3, Hk2. by apply Hc1.
    + eapply kept_stopped; [exact Hk3|]. apply Hd2. exists (task_id t). rewrite Hb. split; [|done].
      apply Hcs. by exists t.
  - intros Hno. assert (Hne : task_id a <> id).
    { intros Heq. apply (Hno id); [set_solver|]. rewrite Heq. constructor. }
    rewrite Hn3 by (by rewrite Hd). rewrite Hn2; [by apply Hn1|].
    intros c (t & Ht & Hp & <-)%Hcs Hdc. rewrite Hb in Hdc. apply (Hno id); [set_solver|].
    by eapply descends_join.
Qed.

Lemma stops_specs l l' roots t t' :
  tk_spec <$> l' = tk_spec <$> l -> stops l' roots t t' -> stops l roots t t'.
Proof.
  intros Hs (Hk & Hd & Hn). split; [done|]. split.
  - intros (r & Hr & Hx). apply Hd. exists r. split; [done|]. by eapply descends_specs.
  - intros Hno. apply Hn. intros r Hr Hx. apply (Hno r Hr). by eapply descends_specs.
Qed.

Lemma children_specs (l l' : list ActiveTaskInfo) id c : tk_spec <$> l' = tk_spec <$> l ->
  (exists t, t ∈ l' /\ tk_parent_worker_id (tk_spec t) = id /\ task_id t = c)
  <-> exists t, t ∈ l /\ tk_parent_worker_id (tk_spec t) = id /\ task_id t = c.
Proof.
  assert (H : forall k k' : list ActiveTaskInfo, tk_spec <$> k' = tk_spec <$> k ->
    (exists t, t ∈ k /\ tk_parent_worker_id (tk_spec t) = id /\ task_id t = c) ->
    exists t, t ∈ k' /\ tk_parent_worker_id (tk_spec t) = id /\ task_id t = c).
  { intros k k' Hs (t & Ht & Hp & Hc). destruct (specs_elem _ _ _ Hs Ht) as (t' & Ht' & Hst).
    exists t'. unfold task_id in *. by rewrite Hst. }
  intros Hs. split; apply H; congruence.
Qed.

Lemma children_of_elem id tm c :
  c ∈ children_of id tm <-> exists t, t ∈ tm_active_tasks tm /\ tk_parent_worker_id (tk_spec t) = id /\ task_id t = c.
Proof.
  unfold children_of. rewrite list_elem_of_fmap. setoid_rewrite list_elem_of_In. setoid_rewrite filter_In.
  setoid_rewrite String.eqb_eq. naive_solver.
Qed.

Lemma stop_task_stops rank fuel : forall id reason now_ tm,
  forest rank (tm_active_tasks tm) -> id ∈ ids (tm_active_tasks tm) -> (rank id < fuel)%nat ->
  exists tm', stop' fuel id reason now_ tm = (Ok (), tm')
    /\ Forall2 (stops (tm_active_tasks tm) [id]) (tm_active_tasks tm) (tm_active_tasks tm').
Proof.
  induction fuel as [|fuel IH]; intros id reason now_ tm Hfo Hin Hr; [lia|]. cbn [stop_task].
  destruct (forest_find _ _ _ Hfo Hin) as (t & Hf & Ht & Hid). rewrite Hf.
  destruct (cancelling_step rank id reason now_ tm t Hfo Hf) as (tm1 & H1 & Hc1).
  pose proof (changes_kept _ _ _ _ Hc1) as Hk1. pose proof (forest_kept _ _ _ Hk1 Hfo) as Hfo1.
  pose proof (Forall2_kept_specs _ _ Hk1) as Hsp1.
  destruct (forest_find rank tm1 id Hfo1) as (t1 & Hf1 & Ht1 & Hid1); [by rewrite (specs_ids _ _ Hsp1)|].
  set (tm2 := bump cancellations_requested 1 (update_task id (with_cancellation_reason reason) tm1)).
  assert (Hc2 : Forall2 (changes id (fun x => tk_status x = cancelling)) (tm_active_tasks tm) (tm_active_tasks tm2)).
  { eapply Forall2_compose; [|exact Hc1|].
    2:{ apply (update_changes id (with_cancellation_reason reason) (fun _ => True) tm1 t1 Hf1). intros x _ _. done. }
    intros a b c (Ha1 & Ha2 & Ha3) (Hb1 & _ & Hb3). split; [by eapply kept_trans|].
    assert (Hb : task_id b = task_id a) by (unfold task_id; by rewrite (proj1 Ha1)). split.
    - intros Heq. by apply Hb1, Ha2.
    - intros Hne. rewrite Hb3 by congruence. by apply Ha3. }
  pose proof (changes_kept _ _ _ _ Hc2) as Hk2. pose proof (forest_kept _ _ _ Hk2 Hfo) as Hfo2.
  pose proof (Forall2_kept_specs _ _ Hk2) as Hsp2.
  destruct (stop_children rank fuel ("parent_cancelled:" +:+ id) now_ (fun c tm' => IH c _ now_ tm')
              (children_of id tm2) tm2 Hfo2) as (tm3 & H3 & Hs3).
  { intros c (x & Hx & Hp & <-)%children_of_elem. split; [by apply list_elem_of_fmap_2|].
    assert ((rank (task_id x) < rank id)%nat); [|lia]. rewrite <- Hp.
    apply (fo_rank _ _ Hfo2 _ Hx). rewrite Hp, (specs_ids _ _ Hsp2). done. }
  pose proof (Forall2_stops_kept _ _ _ _ Hs3) as Hk3. pose proof (forest_kept _ _ _ Hk3 Hfo2) as Hfo3.
  pose proof (Forall2_kept_specs _ _ Hk3) as Hsp3.
  destruct (forest_find rank tm3 id Hfo3) as (t3 & Hf3 & _); [by rewrite (specs_ids _ _ Hsp3), (specs_ids _ _ Hsp2)|].
  exists (update_task id with_future_cancelled tm3). split.
  - unfold mbind, py_bind, py_modify, py_gets in *. rewrite H1. fold tm2. by rewrite H3.
  - assert (Hc4 : Forall2 (changes id (fun x => tk_future_cancelled x = true)) (tm_active_tasks tm3)
                    (tm_active_tasks (update_task id with_future_cancelled tm3)))
      by (apply (update_changes _ _ _ _ t3 Hf3); intros x _ _; done).
    eapply Forall2_compose3; [|exact Hc2|exact Hs3|exact Hc4]. intros a b d e Ha Hb Hd.
    eapply (stops_assemble _ id (children_of id tm2)); [|exact Ha| |exact Hd].
    + intros c. rewrite children_of_elem. apply children_specs. by rewrite Hsp2.
    + eapply stops_specs; [|exact Hb]. by rewrite Hsp2.
Qed.

Lemma sys_forest sys : sys_ok sys ->
  forest (fun id => (sys_spawned sys - default 0 (sys_births sys !! id))%nat) (tm_active_tasks (sys_manager sys)).
Proof.
  intros [Hok Hb]. split; [apply Hok| |].
  - intros t Ht Hp. destruct (bo_older _ _ _ Hb _ Ht) as (n & Hn & [Hnone|(m & Hm & Hlt)]).
    + rewrite Hnone in Hp. apply list_elem_of_fmap in Hp as (x & Hx & Hxin).
      destruct (bo_older _ _ _ Hb _ Hxin) as (k & Hk & _). rewrite <- Hx in Hk. by rewrite (bo_none _ _ _ Hb) in Hk.
    + rewrite Hn, Hm. cbn. apply (bo_below _ _ _ Hb) in Hn. lia.
  - intros t Ht. by destruct (ok_phase _ _ Hok _ Ht) as (p & _ & _ & Hl).
Qed.

(** C31: cancelling a worker cancels its subtree: with a recursion budget above the number of
    workers ever spawned [stop_task] always returns, every worker below the cancelled one is
    then [cancelling] with its future cancelled, and every other worker is untouched. *)
Theorem stop_task_cancels_subtree sys id reason now_ fuel :
  0 <= max_workers -> 0 <= max_per_session -> sys_reachable' sys ->
  let tm := sys_manager sys in
  id ∈ ids (tm_active_tasks tm) -> (sys_spawned sys < fuel)%nat ->
  exists tm', stop' fuel id reason now_ tm = (Ok (), tm')
    /\ length (tm_active_tasks tm') = length (tm_active_tasks tm)
    /\ forall i t, tm_active_tasks tm !! i = Some t -> exists t', tm_active_tasks tm' !! i = Some t'
         /\ tk_spec t' = tk_spec t
         /\ (descends (tm_active_tasks tm) id (task_id t) -> stopped t')
         /\ (~ descends (tm_active_tasks tm) id (task_id t) -> t' = t).
Proof.
  intros Hw Hp Hr tm Hin Hfuel. pose proof (sys_reachable_ok _ Hw Hp Hr) as Hok.
  destruct (stop_task_stops _ fuel id reason now_ tm (sys_forest _ Hok) Hin) as (tm' & Hs & Hall); [lia|].
  exists tm'. split; [done|]. split; [symmetry; by eapply Forall2_length|].
  intros i t Hi. destruct (Forall2_lookup_l _ _ _ _ _ Hall Hi) as (t' & Hi' & (Hk & _) & Hd & Hn).
  exists t'. split; [done|]. split; [done|]. split.
  - intros Hdesc. apply Hd. exists id. split; [set_solver|done].
  - intros Hno. apply Hn. by intros r ->%list_elem_of_singleton.
Qed.

(** ** Waiting *)

Definition quorums (tm : TaskManager) : Prop :=
  forall t, t ∈ tm_active_tasks tm ++ tm_terminal_tasks tm -> 1 <= tk_quorum (tk_spec t).

Lemma quiet_quorums tm tm' : quiet tm tm' -> quorums tm -> quorums tm'.
Proof.
  intros Hq Hok t' [Ht'|Ht']%elem_of_app.
  - destruct (quiet_within _ _ Hq _ Ht') as (t & Ht & ->). apply Hok. set_solver.
  - destruct (q_terminal _ _ Hq _ Ht') as (t & Ht & <- & _). apply Hok. set_solver.
Qed.

Lemma update_quorums id f tm : (forall t, tk_spec (f t) = tk_spec t) -> quorums tm -> quorums (update_task id f tm).
Proof.
  intros Hf Hok t'. unfold update_task. destruct (active_find id tm); cbn [set_tasks tm_active_tasks tm_terminal_tasks];
    (intros [Ht'|Ht']%elem_of_app; [|]); try (apply Hok; set_solver);
    apply kupdate_elem in Ht' as (t & Ht & ->);
    (assert (Hspec : tk_spec (if String.eqb (task_id t) id then f t else t) = tk_spec t) by (by destruct (String.eqb _ _)));
    rewrite Hspec; apply Hok; set_solver.
Qed.

Lemma complete_quorums id st r now_ tm : quorums tm -> quorums (complete' id st r now_ tm).2.
Proof.
  intros Hok. destruct (complete_shape id st r now_ tm) as [->|(t & x & Hf & Hx & _ & Hq)]; [done|].
  eapply quiet_quorums; [exact Hq|]. intros y. cbn [set_tasks tm_active_tasks tm_terminal_tasks].
  intros [[Hy _]%kremove_elem|[[Hy _]%kremove_elem| ->%list_elem_of_singleton]%elem_of_app]%elem_of_app;
    [apply Hok; set_solver|apply Hok; set_solver|]. rewrite Hx. apply Hok.
  unfold task_find in Hf. destruct (active_find id tm) as [y|] eqn:Hy.
  - injection Hf as <-. apply active_find_some in Hy as [Hy _]. set_solver.
  - apply kfind_some in Hf as [Hf _]. set_solver.
Qed.

Lemma release_quorums id now_ tm : quorums tm -> quorums (release' id now_ tm).2.
Proof.
  intros Hok. unfold release_execution_slot. cbn [py_modify snd]. destruct (task_find id tm); [|done].
  destruct (negb _); [done|].
  exact (update_quorums id (fun x => append_trace trace_limit "capacity_released" now_ (with_capacity false x))
    (set_running tm _ _) (fun _ => eq_refl) Hok).
Qed.

Lemma conclude_quorums id st reason now_ tm : quorums tm -> quorums (conclude' id st reason now_ tm).2.
Proof.
  intros Hb. unfold conclude, mbind, py_bind. pose proof (release_quorums id now_ tm Hb) as Hr.
  destruct (release' id now_ tm) as [[u|e] tm1]; [by apply complete_quorums|done].
Qed.

Lemma acquire_quorums id now_ tm : quorums tm -> quorums (acquire' id now_ tm).2.
Proof.
  intros Hb. unfold acquire_round. destruct (active_find id tm) as [t|]; [|done]. destruct (has_room' _ _).
  - unfold py_modify, mbind, py_bind.
    assert (Htk : quorums (taken tm id (session_of t))) by exact (update_quorums id (with_capacity true) (set_running tm _ _) (fun _ => eq_refl) Hb).
    pose proof (quiet_quorums _ _ (transition_quiet id running "capacity_acquired" now_ eq_refl _) Htk) as Hq.
    unfold taken in Hq. by destruct (transition' id running _ _ _) as [[u|e] tm2].
  - cbn [snd]. by apply (update_quorums id (append_trace trace_limit "capacity_wait" now_)).
Qed.

Lemma sys_quorums sys : sys_reachable' sys -> quorums (sys_manager sys).
Proof.
  assert (Hquiet : forall A (m : Py TaskManager TaskError A) tm, quietly m -> quorums tm -> quorums (m tm).2)
    by (intros A m tm Hq; by apply quiet_quorums).
  assert (Hrun : forall id now_ s tm, quorums tm -> quorums (sys_manager
    (run_acquire terminal_limit terminal_ttl max_workers max_per_session trace_limit id now_ s tm))).
  { intros id now_ s tm Hb. pose proof (acquire_quorums id now_ tm Hb) as Ha. unfold run_acquire.
    destruct (acquire' id now_ tm) as [[[k|]|[]] tm']; cbn; try done; by apply conclude_quorums. }
  induction 1 as [|sys sys' _ IH Hs]; [intros t Ht; by apply elem_of_nil in Ht|].
  destruct Hs as [spec now_ Hne Hph Hbi Hpar|id now_ Hph|id Hph|id k w now_ Hph Hw Hk Hd|id k now_ Hph
    |id n now_ Hph|id st reason now_ Hph Hst|id st reason now_ Hph Hst|fuel id reason now_|fuel l reason now_
    |c now_|id now_|l];
    try (apply Hrun); try (apply conclude_quorums); try exact IH;
    try (apply Hquiet; [|exact IH]; first
      [apply set_attempt_quiet | apply stop_task_quiet | apply cancel_workers_quiet | apply queue_command_quiet | apply get_task_quiet]).
  - cbn. intros t. unfold register_task. destruct (active_find _ _); cbn [set_tasks tm_active_tasks tm_terminal_tasks snd];
      intros [[Ht| ->%list_elem_of_singleton]%elem_of_app|Ht]%elem_of_app; try (apply kremove_elem in Ht as [Ht _]);
      try (apply IH; set_solver); cbn; lia.
  - assert (Hq : quietly (transition' id st reason now_)) by (apply transition_quiet; by destruct Hst as [->| ->]).
    specialize (Hq (sys_manager sys)). destruct (transition' id st reason now_ (sys_manager sys)) as [[u|e] tm].
    + by eapply quiet_quorums.
    + apply conclude_quorums. by eapply quiet_quorums.
  - eapply quiet_quorums; [apply mark_consumed_quiet|done].
Qed.

(** Marking: a task of the new state was marked, or is an unmarked task of the old. *)
Lemma mark_list l : forall tm,
  (forall t, t ∈ tm_terminal_tasks tm -> task_id t ∉ ids (tm_active_tasks tm)) ->
  let tm' := foldl (fun tm id => update_task id with_consumed tm) tm l in
  forall t, t ∈ tm_active_tasks tm' ++ tm_terminal_tasks tm' ->
    tk_wait_consumed t = true \/ (t ∈ tm_active_tasks tm ++ tm_terminal_tasks tm /\ task_id t ∉ l).
Proof.
  induction l as [|id l IH]; intros tm Hdis; cbn [foldl]; intros t Ht; [right; split; [done|set_solver]|].
  assert (Hids : ids (tm_active_tasks (update_task id with_consumed tm)) = ids (tm_active_tasks tm)).
  { unfold update_task. destruct (active_find id tm); cbn [set_tasks tm_active_tasks]; [by apply kupdate_keys|done]. }
  destruct (IH (update_task id with_consumed tm)) with (t := t) as [Hc|[Hin Hni]]; [|done|by left|].
  { intros x. rewrite Hids. unfold update_task. destruct (active_find id tm); cbn [set_tasks tm_terminal_tasks]; [apply Hdis|].
    intros (y & Hy & ->)%kupdate_elem. assert (Heq : task_id (if String.eqb (task_id y) id then with_consumed y else y) = task_id y)
      by by destruct (String.eqb _ _). rewrite Heq. by apply Hdis. }
  unfold update_task in Hin. destruct (active_find id tm) as [a|] eqn:Ha; cbn [set_tasks tm_active_tasks tm_terminal_tasks] in Hin;
    apply elem_of_app in Hin as [Hin|Hin].
  - apply kupdate_elem in Hin as (y & Hy & ->). destruct (String.eqb_spec (task_id y) id); [by left|right; set_solver].
  - right. split; [set_solver|]. intros [Heq|?]%elem_of_cons; [|done]. apply (Hdis _ Hin).
    apply active_find_some in Ha as [Ha <-]. rewrite Heq. by apply list_elem_of_fmap_2.
  - right. split; [set_solver|]. intros [Heq|?]%elem_of_cons; [|done]. apply kfind_none in Ha. apply Ha.
    rewrite <- Heq. by apply list_elem_of_fmap_2.
  - apply kupdate_elem in Hin as (y & Hy & ->). destruct (String.eqb_spec (task_id y) id); [by left|right; set_solver].
Qed.

Lemma awaited_elem s p tm t : t ∈ awaited s p tm <-> t ∈ tm_active_tasks tm ++ tm_terminal_tasks tm
  /\ session_of t = s /\ tk_parent_turn_id (tk_spec t) = p /\ tk_join (tk_spec t) = true /\ tk_wait_consumed t = false.
Proof.
  unfold awaited. rewrite list_elem_of_In, filter_In, <- list_elem_of_In, !andb_true_iff, !String.eqb_eq, negb_true_iff. tauto.
Qed.

Lemma list_maxZ_default d l : d <= list_maxZ d l.
Proof. unfold list_maxZ. induction l as [|x l IH]; simpl; lia. Qed.

Lemma awaited_NoDup sys s p : tm_ok (sys_manager sys) (sys_phases sys) -> NoDup (ids (awaited s p (sys_manager sys))).
Proof.
  intros Hok. assert (Hall : NoDup (ids (tm_active_tasks (sys_manager sys) ++ tm_terminal_tasks (sys_manager sys)))).
  { rewrite fmap_app. apply NoDup_app. split; [apply Hok|]. split; [|apply Hok].
    intros x Hx (t & -> & Ht)%list_elem_of_fmap. by apply (ok_ended _ _ Hok) in Ht as (_ & _ & Hn). }
  revert Hall. unfold awaited. generalize (tm_active_tasks (sys_manager sys) ++ tm_terminal_tasks (sys_manager sys)).
  intros l. induction l as [|t l IH]; [done|]. cbn. intros [Hni Hnd]%NoDup_cons. destruct (_ && _); [|by apply IH].
  cbn. apply NoDup_cons. split; [|by apply IH]. intros (x & Hx & Hin)%list_elem_of_fmap. apply Hni.
  rewrite Hx. apply list_elem_of_fmap_2. by apply list_elem_of_In, filter_In in Hin as [Hin%list_elem_of_In _].
Qed.

(** A wait plan is well formed and the waiting loop advances: the plan names at least one
    worker, asks for between one and all of them, is satisfied by nothing less than one
    completion and by all of them, and once its workers are marked no plan names them again. *)
Lemma wait_plan_progresses sys s p plan :
  0 <= max_workers -> 0 <= max_per_session -> sys_reachable' sys ->
  build_wait_plan s p (sys_manager sys) = Some plan ->
  wp_worker_ids plan <> ∅
  /\ 1 <= wp_quorum plan <= Z.of_nat (size (wp_worker_ids plan))
  /\ barrier_satisfied plan (wp_worker_ids plan) = true /\ barrier_satisfied plan ∅ = false
  /\ build_wait_plan s p (mark_wait_consumed (wp_worker_ids plan) (sys_manager sys)) = None.
Proof.
  intros Hw Hp Hr Hplan. pose proof (sys_reachable_ok _ Hw Hp Hr) as [Hok _]. pose proof (sys_quorums _ Hr) as Hq.
  pose proof (awaited_NoDup _ s p Hok) as Hnd. unfold build_wait_plan in Hplan.
  destruct (awaited s p (sys_manager sys)) as [|t rest] eqn:Haw; [done|].
  set (W := list_to_set (ids (t :: rest)) : gset string).
  set (Q := Z.min (Z.of_nat (length (t :: rest))) (list_maxZ (tk_quorum (tk_spec t)) ((fun x => tk_quorum (tk_spec x)) <$> rest))).
  assert (HW : wp_worker_ids plan = W) by by injection Hplan as <-.
  assert (HQ : wp_quorum plan = Q) by by injection Hplan as <-.
  assert (Hsize : size W = length (t :: rest)) by (unfold W; rewrite size_list_to_set by done; by rewrite length_fmap).
  assert (Hq1 : 1 <= tk_quorum (tk_spec t)) by (apply Hq; apply (awaited_elem s p); rewrite Haw; set_solver).
  pose proof (list_maxZ_default (tk_quorum (tk_spec t)) ((fun x => tk_quorum (tk_spec x)) <$> rest)) as Hmax.
  assert (Hlen : 1 <= Z.of_nat (length (t :: rest))) by (cbn; lia).
  assert (HQ1 : 1 <= Q <= Z.of_nat (size W)) by (rewrite Hsize; unfold Q; lia).
  rewrite HW. clear Hplan Hmax.
  split; [intros He; rewrite He, size_empty in Hsize; cbn in Hsize; lia|].
  split; [by rewrite HQ|]. split; [|split].
  - unfold barrier_satisfied. rewrite HW, HQ, intersection_idemp_L. destruct (wp_mode plan); apply Z.leb_le; lia.
  - unfold barrier_satisfied. rewrite HW, HQ. replace (∅ ∩ W) with (∅ : gset string) by set_solver.
    rewrite size_empty. destruct (wp_mode plan); apply Z.leb_gt; lia.
  - unfold build_wait_plan. destruct (awaited s p (mark_wait_consumed W (sys_manager sys))) as [|x l] eqn:Hx; [done|].
    exfalso. assert (Hxin : x ∈ awaited s p (mark_wait_consumed W (sys_manager sys))) by (rewrite Hx; set_solver).
    apply awaited_elem in Hxin as (Hin & Hs & Ht & Hj & Hc).
    destruct (mark_list (elements W) (sys_manager sys)) with (t := x) as [Hc'|[Hold Hni]]; [|exact Hin|congruence|].
    { intros y Hy. by apply (ok_ended _ _ Hok) in Hy as (_ & _ & Hn). }
    apply Hni, elem_of_elements, elem_of_list_to_set. rewrite <- Haw. apply list_elem_of_fmap_2.
    by apply awaited_elem.
Qed.
End safety.

(** ** A small system: two slots, a parent, its child and a third worker that waits *)

Module WorkersExample.
Definition budget : WorkerResourceBudget :=
  {| max_turns := 6; max_duration := 60000000; max_tokens := 32000; max_tool_calls := 12; max_injections := 15;
     injection_batch_size := 3; max_tool_result_chars := 50000; finalize_on_exhaustion := true |}.
Definition policy : WorkerRetryPolicy :=
  {| max_attempts := 3; base_delay := 500000; max_delay := 5000000; retryable_categories := ["timeout"] |}.
Definition worker (id parent : string) : TaskSpec :=
  {| tk_task_id := id; tk_task_type := "research"; tk_command := "go"; tk_session_id := "s"; tk_join := true;
     tk_parent_turn_id := "t"; tk_parent_worker_id := parent; tk_wait_mode := wait_quorum; tk_quorum := 0;
     tk_wait_timeout := 60000000; tk_created_at := 0; tk_budget := budget; tk_retry_policy := policy |}.

Abbreviation step := (sys_step 20 100 3600000000 2 2 200).
Abbreviation start := (fun id sys => run_acquire 100 3600000000 2 2 200 id 1 sys (sys_manager sys)).

Definition sys3 : System := spawn 200 (worker "c" "") 0 (spawn 200 (worker "b" "a") 0 (spawn 200 (worker "a" "") 0 new_system)).
Definition sys4 : System := start "c" (start "b" (start "a" sys3)).

Lemma sys4_reachable : sys_reachable 20 100 3600000000 2 2 200 sys4.
Proof.
  unfold sys4, sys3. repeat (eapply sys_more; [|first
    [ apply step_start; vm_compute; reflexivity
    | apply step_spawn; [discriminate|vm_compute; reflexivity|vm_compute; reflexivity|
        first [by left|right; eexists; vm_compute; reflexivity]] ]]).
  apply sys_init.
Qed.
End WorkersExample.

Lemma capacity_is_accounted_witness :
  tm_running_total (sys_manager WorkersExample.sys4) = Z.of_nat (length (executing WorkersExample.sys4)).
Proof.
  refine (proj1 (capacity_is_accounted 20 100 3600000000 2 2 200 WorkersExample.sys4 _ _ WorkersExample.sys4_reachable)); lia.
Defined.


Lemma stop_task_cancels_subtree_witness : exists tm',
  stop_task 200 4 "a" "cancel" 2 (sys_manager WorkersExample.sys4) = (Ok (), tm').
Proof.
  destruct (stop_task_cancels_subtree 20 100 3600000000 2 2 200 WorkersExample.sys4 "a" "cancel" 2 4 ltac:(lia) ltac:(lia)
    WorkersExample.sys4_reachable) as (tm' & Hs & _).
  - apply list_elem_of_lookup_2 with (i := 0%nat). vm_compute. reflexivity.
  - apply Nat.ltb_lt. vm_compute. reflexivity.
  - by exists tm'.
Defined.


(** The pruning loop counts what it removed twice, so a longer backlog is not cut to the
    limit: of four ended tasks and a limit of one, two stay. *)
Lemma cleanup_counts_removals_twice :
  let t id := {| tk_spec := WorkersExample.worker id ""; tk_attempt := 1; tk_status := completed; tk_started_at := Some 0;
                 tk_completed_at := Some 0; tk_wait_consumed := true; tk_capacity_acquired := false;
                 tk_cancellation_reason := ""; tk_result := None; tk_pending_messages := []; tk_trace := [];
                 tk_future_cancelled := false |} in
  let l := [t "1"; t "2"; t "3"; t "4"] in
  length (cleanup_loop 1 3600000000 0 l l 0).1 = 2%nat.
Proof. vm_compute. reflexivity. Qed.

(** A worker cancelled before its first step is never concluded: it stays among the active
    tasks, cancelling. *)
Lemma cancelled_unstarted_stays_active :
  let sys := set_manager WorkersExample.sys3 (stop_task 200 4 "c" "cancel" 2 (sys_manager WorkersExample.sys3)).2 in
  let sys' := set_phase sys (sys_manager sys) "c" Concluded in
  sys_step 20 100 3600000000 2 2 200 sys sys'
  /\ (tk_status <$> active_find "c" (sys_manager sys')) = Some cancelling.
Proof. split; [apply step_cancel_unstarted; vm_compute; reflexivity|vm_compute; reflexivity]. Qed.
