(* ===== verification/SandboxStore.v ===== *)
(** * SandboxStore: the rows of the sandbox service

    [SandboxEnvironmentModel], [SandboxRuntimeInstanceModel], [SandboxLeaseModel] and the
    columns of [SessionModel], [UserModel], [RoleModel] and [UserRoleModel] that decide whether
    a sandbox command may run ([server/infrastructure/mysql/models.py]), the store that holds
    them, and the scope of a request ([server/sandbox/contracts.py]).  Times are instants in
    microseconds. *)
From S2P Require Import Prelude Clock Json.
Local Open Scope Z_scope.

(** [RuntimeState] of [server/sandbox/warm_pool.py], with the two states a slot has before it
    is claimable. *)
Inductive RuntimeState :=
| creating | created | READY_UNBOUND | CLAIMING | ASSIGNED | DRAINING | DESTROYED | FAILED.

#[export] Instance runtime_state_eq_dec : EqDecision RuntimeState.
Proof. solve_decision. Defined.

Record EnvironmentRow := {
  en_owner_user_id : string;
  en_resource_profile_id : string;
  en_profile_revision : Z;
  en_status : string;
  en_generation : Z;
  en_active_runtime_id : option string;
  en_last_active_at : option Z;
  en_lease_deadline_at : option Z;
}.

Record RuntimeRow := {
  rt_environment_id : option string;
  rt_runtime_kind : string;
  rt_external_runtime_id : option string;
  rt_image_digest : option string;
  rt_resource_profile_id : string;
  rt_state : RuntimeState;
  rt_generation : Z;
  rt_claim_nonce_hash : option string;
  rt_last_heartbeat_at : option Z;
  rt_failure_reason : option string;
  rt_created_at : Z;
}.

Record LeaseRow := {
  ls_environment_id : string;
  ls_user_id : string;
  ls_auth_session_id : string;
  ls_runtime_instance_id : option string;
  ls_workspace_id : string;
  ls_actor_type : string;
  ls_generation : Z;
  ls_state : string;
  ls_renewed_at : option Z;
  ls_expires_at : Z;
  ls_released_at : option Z;
  ls_reason : option string;
  ls_created_at : Z;
}.

Record SessionRow := {
  se_user_id : string;
  se_workspace_id : string;
  se_authorization_version : Z;
  se_expires_at : Z;
  se_revoked_at : option Z;
}.

Record UserRow := {
  us_authorization_version : Z;
  us_status : string;
  us_deleted_at : option Z;
}.

Record RoleRow := { ro_code : string; ro_status : string }.
Record UserRoleRow := { ur_user_id : string; ur_role_id : string; ur_expires_at : option Z }.

(** [SandboxScope]. *)
Record SandboxScope := {
  sc_owner_user_id : string;
  sc_auth_session_id : string;
  sc_workspace_id : string;
  sc_generation : Z;
  sc_lease_expires_at : Z;
}.

Record XDB := {
  x_environments : gmap string EnvironmentRow;
  x_runtimes : gmap string RuntimeRow;
  x_leases : gmap string LeaseRow;
  x_sessions : gmap string SessionRow;
  x_users : gmap string UserRow;
  x_roles : gmap string RoleRow;
  x_user_roles : list UserRoleRow;
  x_outbox : list (string * json);
  x_next_uuid : nat;
}.

Inductive SandboxError := LookupError | PermissionError | ValueError | IntegrityError | RuntimeError.

Abbreviation Xtx := (ST XDB SandboxError).

Definition set_environments (db : XDB) (m : gmap string EnvironmentRow) : XDB :=
  {| x_environments := m; x_runtimes := x_runtimes db; x_leases := x_leases db; x_sessions := x_sessions db;
     x_users := x_users db; x_roles := x_roles db; x_user_roles := x_user_roles db; x_outbox := x_outbox db;
     x_next_uuid := x_next_uuid db |}.

Definition set_runtimes (db : XDB) (m : gmap string RuntimeRow) : XDB :=
  {| x_environments := x_environments db; x_runtimes := m; x_leases := x_leases db; x_sessions := x_sessions db;
     x_users := x_users db; x_roles := x_roles db; x_user_roles := x_user_roles db; x_outbox := x_outbox db;
     x_next_uuid := x_next_uuid db |}.

Definition set_leases (db : XDB) (m : gmap string LeaseRow) : XDB :=
  {| x_environments := x_environments db; x_runtimes := x_runtimes db; x_leases := m; x_sessions := x_sessions db;
     x_users := x_users db; x_roles := x_roles db; x_user_roles := x_user_roles db; x_outbox := x_outbox db;
     x_next_uuid := x_next_uuid db |}.

Definition set_identity (db : XDB) (s : gmap string SessionRow) (u : gmap string UserRow)
  (r : gmap string RoleRow) (ur : list UserRoleRow) : XDB :=
  {| x_environments := x_environments db; x_runtimes := x_runtimes db; x_leases := x_leases db; x_sessions := s;
     x_users := u; x_roles := r; x_user_roles := ur; x_outbox := x_outbox db; x_next_uuid := x_next_uuid db |}.

Definition set_xoutbox (db : XDB) (l : list (string * json)) : XDB :=
  {| x_environments := x_environments db; x_runtimes := x_runtimes db; x_leases := x_leases db;
     x_sessions := x_sessions db; x_users := x_users db; x_roles := x_roles db; x_user_roles := x_user_roles db;
     x_outbox := l; x_next_uuid := x_next_uuid db |}.

Definition set_xuuid (db : XDB) (n : nat) : XDB :=
  {| x_environments := x_environments db; x_runtimes := x_runtimes db; x_leases := x_leases db;
     x_sessions := x_sessions db; x_users := x_users db; x_roles := x_roles db; x_user_roles := x_user_roles db;
     x_outbox := x_outbox db; x_next_uuid := n |}.

(** ** Assignments to rows, one per group of attributes set together *)

(** The mutable columns of a runtime. *)
Definition runtime_with (env : option string) (ext : option string) (st : RuntimeState) (gen : Z)
  (nonce : option string) (hb : option Z) (reason : option string) (r : RuntimeRow) : RuntimeRow :=
  {| rt_environment_id := env; rt_runtime_kind := rt_runtime_kind r; rt_external_runtime_id := ext;
     rt_image_digest := rt_image_digest r; rt_resource_profile_id := rt_resource_profile_id r; rt_state := st;
     rt_generation := gen; rt_claim_nonce_hash := nonce; rt_last_heartbeat_at := hb; rt_failure_reason := reason;
     rt_created_at := rt_created_at r |}.

Definition with_nonce (nonce : option string) (r : RuntimeRow) : RuntimeRow :=
  runtime_with (rt_environment_id r) (rt_external_runtime_id r) (rt_state r) (rt_generation r) nonce
    (rt_last_heartbeat_at r) (rt_failure_reason r) r.

Definition with_state (st : RuntimeState) (r : RuntimeRow) : RuntimeRow :=
  runtime_with (rt_environment_id r) (rt_external_runtime_id r) st (rt_generation r) (rt_claim_nonce_hash r)
    (rt_last_heartbeat_at r) (rt_failure_reason r) r.

Definition with_reason (reason : string) (r : RuntimeRow) : RuntimeRow :=
  runtime_with (rt_environment_id r) (rt_external_runtime_id r) (rt_state r) (rt_generation r)
    (rt_claim_nonce_hash r) (rt_last_heartbeat_at r) (Some reason) r.

(** A slot bound to an environment. *)
Definition bound_to (env : string) (gen : Z) (nonce : string) (r : RuntimeRow) : RuntimeRow :=
  runtime_with (Some env) (rt_external_runtime_id r) ASSIGNED gen (Some nonce) (rt_last_heartbeat_at r)
    (rt_failure_reason r) r.

Definition with_external (ext : string) (st : RuntimeState) (hb : option Z) (r : RuntimeRow) : RuntimeRow :=
  runtime_with (rt_environment_id r) (Some ext) st (rt_generation r) (rt_claim_nonce_hash r)
    (match hb with Some _ => hb | None => rt_last_heartbeat_at r end) (rt_failure_reason r) r.

Definition with_active (rid : option string) (e : EnvironmentRow) : EnvironmentRow :=
  {| en_owner_user_id := en_owner_user_id e; en_resource_profile_id := en_resource_profile_id e;
     en_profile_revision := en_profile_revision e; en_status := en_status e; en_generation := en_generation e;
     en_active_runtime_id := rid; en_last_active_at := en_last_active_at e;
     en_lease_deadline_at := en_lease_deadline_at e |}.

(** The renewal of an environment by a request of its owner. *)
Definition touched (gen now_ deadline : Z) (e : EnvironmentRow) : EnvironmentRow :=
  {| en_owner_user_id := en_owner_user_id e; en_resource_profile_id := en_resource_profile_id e;
     en_profile_revision := en_profile_revision e; en_status := en_status e;
     en_generation := Z.max (en_generation e) gen; en_active_runtime_id := en_active_runtime_id e;
     en_last_active_at := Some now_; en_lease_deadline_at := Some deadline |}.

(** The fence of a reset. *)
Definition fenced (e : EnvironmentRow) : EnvironmentRow :=
  {| en_owner_user_id := en_owner_user_id e; en_resource_profile_id := en_resource_profile_id e;
     en_profile_revision := en_profile_revision e; en_status := en_status e; en_generation := en_generation e + 1;
     en_active_runtime_id := None; en_last_active_at := en_last_active_at e;
     en_lease_deadline_at := en_lease_deadline_at e |}.

Definition lease_with (workspace : string) (rid : option string) (gen : Z) (st : string) (renewed : option Z)
  (expires : Z) (released : option Z) (reason : option string) (l : LeaseRow) : LeaseRow :=
  {| ls_environment_id := ls_environment_id l; ls_user_id := ls_user_id l;
     ls_auth_session_id := ls_auth_session_id l; ls_runtime_instance_id := rid; ls_workspace_id := workspace;
     ls_actor_type := ls_actor_type l; ls_generation := gen; ls_state := st; ls_renewed_at := renewed;
     ls_expires_at := expires; ls_released_at := released; ls_reason := reason; ls_created_at := ls_created_at l |}.

Definition lease_renewed (workspace : string) (gen now_ expires : Z) (l : LeaseRow) : LeaseRow :=
  lease_with workspace (ls_runtime_instance_id l) gen "active" (Some now_) expires None None l.

Definition lease_ended (st reason : string) (now_ : Z) (l : LeaseRow) : LeaseRow :=
  lease_with (ls_workspace_id l) (ls_runtime_instance_id l) (ls_generation l) st (ls_renewed_at l)
    (ls_expires_at l) (Some now_) (Some reason) l.

Definition lease_bound (rid : option string) (gen : Z) (l : LeaseRow) : LeaseRow :=
  lease_with (ls_workspace_id l) rid gen (ls_state l) (ls_renewed_at l) (ls_expires_at l) (ls_released_at l)
    (ls_reason l) l.

(** ** Statements *)

Section sandbox_store.
Context `{Uuids}.

Definition xstmt {A} (f : XDB -> result SandboxError (A * XDB)) : Xtx A := f.

Definition sandbox_uuid : Xtx string := fun db =>
  Ok (uuid4 (x_next_uuid db), set_xuuid db (S (x_next_uuid db))).

(** [select(SandboxEnvironmentModel).where(owner_user_id == ...)]: the owner is unique. *)
Definition environment_of (owner : string) (db : XDB) : option (string * EnvironmentRow) :=
  List.find (fun kv : string * EnvironmentRow => String.eqb (en_owner_user_id kv.2) owner)
    (map_to_list (x_environments db)).

Definition get_runtime (rid : string) : Xtx (option RuntimeRow) := gets (fun db => x_runtimes db !! rid).
Definition get_lease (lid : string) : Xtx (option LeaseRow) := gets (fun db => x_leases db !! lid).
Definition get_environment (eid : string) : Xtx (option EnvironmentRow) :=
  gets (fun db => x_environments db !! eid).

Definition update_runtime (rid : string) (f : RuntimeRow -> RuntimeRow) : Xtx () :=
  modify (fun db => set_runtimes db (alter f rid (x_runtimes db))).
Definition update_environment (eid : string) (f : EnvironmentRow -> EnvironmentRow) : Xtx () :=
  modify (fun db => set_environments db (alter f eid (x_environments db))).
Definition update_lease (lid : string) (f : LeaseRow -> LeaseRow) : Xtx () :=
  modify (fun db => set_leases db (alter f lid (x_leases db))).

(** [update(SandboxLeaseModel).where(p).values(...)]: the number of rows that matched. *)
Definition update_leases (p : LeaseRow -> bool) (f : LeaseRow -> LeaseRow) : Xtx nat := fun db =>
  Ok (length (List.filter (fun kv : string * LeaseRow => p kv.2) (map_to_list (x_leases db))),
      set_leases db ((fun l => if p l then f l else l) <$> x_leases db)).

(** [session.add(SandboxEnvironmentModel(...))]: primary key, unique owner, foreign key. *)
Definition insert_environment (eid : string) (e : EnvironmentRow) : Xtx () :=
  xstmt (fun db =>
    match x_environments db !! eid, environment_of (en_owner_user_id e) db, x_users db !! en_owner_user_id e with
    | None, None, Some _ => Ok ((), set_environments db (<[eid := e]> (x_environments db)))
    | _, _, _ => Err IntegrityError
    end).

(** [session.add(SandboxLeaseModel(...))]: primary key, unique (environment, session), and the
    foreign keys on (environment, user) and on the session. *)
Definition insert_lease (lid : string) (l : LeaseRow) : Xtx () :=
  xstmt (fun db =>
    if bool_decide (x_leases db !! lid = None)
       && negb (existsb (fun kv : string * LeaseRow =>
                           String.eqb (ls_environment_id kv.2) (ls_environment_id l)
                           && String.eqb (ls_auth_session_id kv.2) (ls_auth_session_id l)) (map_to_list (x_leases db)))
       && bool_decide (en_owner_user_id <$> x_environments db !! ls_environment_id l = Some (ls_user_id l))
       && bool_decide (x_sessions db !! ls_auth_session_id l <> None)
    then Ok ((), set_leases db (<[lid := l]> (x_leases db)))
    else Err IntegrityError).

(** [session.add(SandboxRuntimeInstanceModel(...))]. *)
Definition insert_runtime (rid : string) (r : RuntimeRow) : Xtx () :=
  xstmt (fun db =>
    match x_runtimes db !! rid with
    | None => Ok ((), set_runtimes db (<[rid := r]> (x_runtimes db)))
    | Some _ => Err IntegrityError
    end).

(** [runtime.external_runtime_id = ext], under its unique constraint. *)
Definition external_taken (rid ext : string) (db : XDB) : bool :=
  existsb (fun kv : string * RuntimeRow =>
             negb (String.eqb kv.1 rid) && bool_decide (rt_external_runtime_id kv.2 = Some ext))
    (map_to_list (x_runtimes db)).

Definition set_external (rid ext : string) (st : RuntimeState) (hb : option Z) : Xtx () :=
  xstmt (fun db =>
    if external_taken rid ext db then Err IntegrityError
    else Ok ((), set_runtimes db (alter (with_external ext st hb) rid (x_runtimes db)))).
End sandbox_store.
