(* ===== verification/Sandbox.v ===== *)
(** * Sandbox: leases, the warm pool and the sandbox manager

    [server/sandbox/warm_pool.py], [server/sandbox/service.py], the database side of
    [WarmPoolManager] ([server/sandbox/manager.py]) and the capacity arithmetic of
    [server/sandbox/optimization.py].  Each transaction is a function of the store; [now_] is
    its [_utc_now()], rows another transaction holds are skipped through [unlocked], and the
    hash of a nonce is the parameter [claim_nonce_hash].  What Docker answers is an argument of
    the operations that ask it. *)
From Stdlib Require Import QArith.
From S2P Require Import Prelude PyText Clock Json SandboxStore.
Local Open Scope Z_scope.

(** ** The runtime state machine *)

Definition runtime_transitions (s : RuntimeState) : list RuntimeState :=
  match s with
  | READY_UNBOUND => [CLAIMING; FAILED; DESTROYED]
  | CLAIMING => [ASSIGNED; FAILED; DESTROYED]
  | ASSIGNED => [DRAINING; FAILED]
  | DRAINING => [DESTROYED; FAILED]
  | _ => []
  end.

Definition transition_runtime (current target : RuntimeState) : result SandboxError RuntimeState :=
  if bool_decide (target ∈ runtime_transitions current) then Ok target else Err ValueError.

Definition ready_state_after_kernel_check (s : RuntimeState) : RuntimeState :=
  match s with creating | created => READY_UNBOUND | _ => s end.

(** [reconcile_runtime_ids]: what is missing from Docker, and what is unknown to the database. *)
Definition reconcile_runtime_ids (database_ids docker_ids : gset string) : gset string * gset string :=
  (database_ids ∖ docker_ids, docker_ids ∖ database_ids).

(** ** Priorities and capacity *)

Definition SANDBOX_ROLE_PRIORITY (role : string) : option Z :=
  if String.eqb role "developer" then Some 0 else if String.eqb role "teacher" then Some 1
  else if String.eqb role "student" then Some 2 else if String.eqb role "guest" then Some 3 else None.

Definition role_priority (roles : list string) : Z :=
  match (fun r => default 3 (SANDBOX_ROLE_PRIORITY (lower (strip r)))) <$> roles with
  | [] => 3
  | x :: l => list_minZ x l
  end.

Definition should_defer_claim (current : list string) (waiting : list (list string)) : bool :=
  existsb (fun w => role_priority w <? role_priority current) waiting.

Definition refill_count (target ready_count creating_count : Z) (totals : option (Z * Z))
  : result SandboxError Z :=
  if (target <? 0) || (ready_count <? 0) || (creating_count <? 0) then Err ValueError
  else
    let desired := Z.max 0 (target - ready_count - creating_count) in
    match totals with
    | None => Ok desired
    | Some (total_count, total_max) =>
        if (total_count <? 0) || (total_max <? 0) then Err ValueError
        else Ok (Z.min desired (Z.max 0 (total_max - total_count)))
    end.

Definition host_capacity_allows_create (total_count total_max : Z) (available_memory_mb : Q)
  (memory_reserve_mb runtime_memory_mb : Z) (disk_free_gb : Q) (disk_reserve_gb : Z)
  : result SandboxError bool :=
  if (total_count <? 0) || (total_max <? 0) || (memory_reserve_mb <? 0) || (runtime_memory_mb <? 0)
     || (disk_reserve_gb <? 0) then Err ValueError
  else Ok ((total_count <? total_max)
           && Qle_bool (inject_Z (memory_reserve_mb + runtime_memory_mb)) available_memory_mb
           && Qle_bool (inject_Z disk_reserve_gb) disk_free_gb).

(** The settings the manager reads. *)
Record SandboxSettings := {
  RUNTIME_TOTAL_MAX : Z;
  HOST_RUNTIME_TOTAL_MAX : Z;
  HOST_MEMORY_RESERVE_MB : Z;
  HOST_DISK_RESERVE_GB : Z;
  RUNTIME_MEMORY_MB : Z;
}.

(** What the probes of the Docker adapter answer: [None] for a probe it does not have. *)
Record HostProbe := {
  hp_runtime_count : option Z;
  hp_resources : option (option Q * option Q);
}.

(** [_host_allows_create]. *)
Definition host_allows_create (s : SandboxSettings) (p : HostProbe) (total_count reserved_count : Z)
  : result SandboxError bool :=
  let host_total_max := Z.max 0 (HOST_RUNTIME_TOTAL_MAX s) in
  let host_count := Z.max 0 <$> hp_runtime_count p in
  let effective := match host_count with
                   | Some n => Z.max total_count (n + reserved_count)
                   | None => total_count
                   end in
  let total_max := match host_count with Some _ => host_total_max | None => RUNTIME_TOTAL_MAX s end in
  match hp_resources p with
  | None => Ok (effective <? total_max)
  | Some (Some memory, Some disk) =>
      host_capacity_allows_create effective total_max memory (HOST_MEMORY_RESERVE_MB s) (RUNTIME_MEMORY_MB s)
        disk (HOST_DISK_RESERVE_GB s)
  | Some (memory, disk) =>
      let disk_low := match disk with
                      | Some d => negb (Qle_bool (inject_Z (HOST_DISK_RESERVE_GB s)) d)
                      | None => false
                      end in
      let memory_low := match memory with
                        | Some m => negb (Qle_bool (inject_Z (HOST_MEMORY_RESERVE_MB s + RUNTIME_MEMORY_MB s)) m)
                        | None => false
                        end in
      Ok (negb disk_low && negb memory_low && (effective <? total_max))
  end.

(** ** Authorisation of a command *)

(** [auth_lifecycle_allows_execution]. *)
Definition auth_lifecycle_allows_execution (lease : LeaseRow) (auth_session : option SessionRow)
  (user : option UserRow) (scope_generation : Z) (scope_workspace_id : option string) (now_ : Z) : bool :=
  match auth_session, user with
  | Some s, Some u =>
      String.eqb (se_user_id s) (ls_user_id lease)
      && String.eqb (se_workspace_id s) (ls_workspace_id lease)
      && match scope_workspace_id with None => true | Some w => String.eqb (se_workspace_id s) w end
      && (now_ <? ls_expires_at lease)
      && bool_decide (se_revoked_at s = None)
      && (now_ <? se_expires_at s)
      && (se_authorization_version s =? us_authorization_version u)
      && (se_authorization_version s =? scope_generation)
      && String.eqb (us_status u) "active"
      && bool_decide (us_deleted_at u = None)
  | _, _ => false
  end.

(** The lease belongs to the caller's session. *)
Definition lease_in_scope (scope : SandboxScope) (lease : LeaseRow) : bool :=
  String.eqb (ls_user_id lease) (sc_owner_user_id scope)
  && String.eqb (ls_auth_session_id lease) (sc_auth_session_id scope)
  && String.eqb (ls_workspace_id lease) (sc_workspace_id scope)
  && String.eqb (ls_state lease) "active".

(** [runtime_control_allows]. *)
Definition runtime_control_allows (scope : SandboxScope) (lease : LeaseRow) (runtime_id : string)
  (runtime : RuntimeRow) (expected_generation : option Z) (now_ : Z) : bool :=
  lease_in_scope scope lease
  && (now_ <? ls_expires_at lease)
  && bool_decide (ls_runtime_instance_id lease = Some runtime_id)
  && bool_decide (rt_environment_id runtime = Some (ls_environment_id lease))
  && (ls_generation lease =? rt_generation runtime)
  && match expected_generation with None => true | Some g => rt_generation runtime =? g end
  && bool_decide (rt_state runtime = ASSIGNED).

Section sandbox.
Context `{Uuids}.
Variable claim_nonce_hash : string -> string.

Definition validate_claim_nonce (stored_hash supplied_nonce : string) : bool :=
  String.eqb stored_hash (claim_nonce_hash supplied_nonce).

(** ** [SandboxLifecycleService] *)

(** [ensure_environment]: transactions are serial, so the insertion only meets a conflict when
    the row cannot be inserted at all. *)
Definition ensure_environment (scope : SandboxScope) (resource_profile_id : string) (now_ : Z) : Xtx string :=
  found ← gets (environment_of (sc_owner_user_id scope));
  match found with
  | Some (eid, _) => mret eid
  | None =>
      eid ← sandbox_uuid;
      _ ← insert_environment eid
            {| en_owner_user_id := sc_owner_user_id scope; en_resource_profile_id := resource_profile_id;
               en_profile_revision := 1; en_status := "ready"; en_generation := sc_generation scope;
               en_active_runtime_id := None; en_last_active_at := Some now_; en_lease_deadline_at := None |};
      mret eid
  end.

(** The authentication of a lease has ended. *)
Definition invalid_auth_session (db : XDB) (now_ : Z) (l : LeaseRow) : bool :=
  match x_sessions db !! ls_auth_session_id l with
  | None => false
  | Some s =>
      match x_users db !! se_user_id s with
      | None => false
      | Some u =>
          bool_decide (se_revoked_at s <> None) || (se_expires_at s <=? now_)
          || negb (se_authorization_version s =? us_authorization_version u)
          || negb (String.eqb (us_status u) "active") || bool_decide (us_deleted_at u <> None)
      end
  end.

(** [revoke_expired_leases]. *)
Definition revoke_expired_leases (now_ : Z) : Xtx () :=
  db ← gets (fun db => db);
  _ ← update_leases (fun l => String.eqb (ls_state l) "active"
                              && ((ls_expires_at l <=? now_) || invalid_auth_session db now_ l))
        (lease_ended "expired" "auth.session.expired" now_);
  mret ().

Definition lease_of (eid session_id : string) (db : XDB) : option (string * LeaseRow) :=
  List.find (fun kv : string * LeaseRow =>
               String.eqb (ls_environment_id kv.2) eid && String.eqb (ls_auth_session_id kv.2) session_id)
    (map_to_list (x_leases db)).

(** [ensure_current_lease]: the environment and the lease. *)
Definition ensure_current_lease (scope : SandboxScope) (now_ : Z) : Xtx (string * string) :=
  eid ← ensure_environment scope "python-base" now_;
  _ ← revoke_expired_leases now_;
  _ ← update_environment eid (touched (sc_generation scope) now_ (sc_lease_expires_at scope));
  generation ← gets (fun db => match x_environments db !! eid with Some e => en_generation e | None => 0 end);
  found ← gets (lease_of eid (sc_auth_session_id scope));
  match found with
  | Some (lid, _) =>
      _ ← update_lease lid (lease_renewed (sc_workspace_id scope) generation now_ (sc_lease_expires_at scope));
      mret (eid, lid)
  | None =>
      lid ← sandbox_uuid;
      _ ← insert_lease lid
            {| ls_environment_id := eid; ls_user_id := sc_owner_user_id scope;
               ls_auth_session_id := sc_auth_session_id scope; ls_runtime_instance_id := None;
               ls_workspace_id := sc_workspace_id scope; ls_actor_type := "browser"; ls_generation := generation;
               ls_state := "active"; ls_renewed_at := None; ls_expires_at := sc_lease_expires_at scope;
               ls_released_at := None; ls_reason := None; ls_created_at := now_ |};
      mret (eid, lid)
  end.

Definition notify (topic : string) (payload : json) : Xtx () :=
  modify (fun db => set_xoutbox db (x_outbox db ++ [(topic, payload)])).

(** [release_auth_session_in_transaction]. *)
Definition release_auth_session (user_id auth_session_id reason : string) (now_ : Z) : Xtx () :=
  n ← update_leases (fun l => String.eqb (ls_user_id l) user_id && String.eqb (ls_auth_session_id l) auth_session_id
                              && String.eqb (ls_state l) "active")
        (lease_ended "released" reason now_);
  when (negb (n =? 0)%nat)
    (notify "sandbox.lease.released"
       (JObj [("user_id", JStr user_id); ("auth_session_id", JStr auth_session_id); ("reason", JStr reason)])).

(** [revoke_user_leases]. *)
Definition revoke_user_leases (user_id reason : string) (now_ : Z) : Xtx () :=
  n ← update_leases (fun l => String.eqb (ls_user_id l) user_id && String.eqb (ls_state l) "active")
        (lease_ended "revoked" reason now_);
  when (negb (n =? 0)%nat)
    (notify "sandbox.lease.revoked" (JObj [("user_id", JStr user_id); ("reason", JStr reason)])).

(** ** [WarmPoolService] *)

Definition live_role (now_ : Z) (ur : UserRoleRow) : bool :=
  match ur_expires_at ur with None => true | Some e => now_ <? e end.

(** The active role codes a user holds. *)
Definition roles_of (db : XDB) (now_ : Z) (user_id : string) : list string :=
  omap (fun ur =>
    if String.eqb (ur_user_id ur) user_id && live_role now_ ur
    then match x_roles db !! ur_role_id ur with
         | Some r => if String.eqb (ro_status r) "active" then Some (ro_code r) else None
         | None => None
         end
    else None) (x_user_roles db).

Definition roles_or_guest (l : list string) : list string := match l with [] => ["guest"] | _ => l end.

(** The lease and the authentication behind it are live. *)
Definition lease_live (db : XDB) (now_ : Z) (l : LeaseRow) : bool :=
  String.eqb (ls_state l) "active" && (now_ <? ls_expires_at l)
  && match x_sessions db !! ls_auth_session_id l, x_users db !! ls_user_id l with
     | Some s, Some u =>
         bool_decide (se_revoked_at s = None) && (now_ <? se_expires_at s)
         && (se_authorization_version s =? us_authorization_version u)
         && String.eqb (us_status u) "active" && bool_decide (us_deleted_at u = None)
     | _, _ => false
     end.

(** The users that wait for a runtime, oldest lease first. *)
Definition waiting_users (db : XDB) (current_lease_id : string) (now_ : Z) : list string :=
  (fun kv : string * LeaseRow => ls_user_id kv.2) <$>
  sort_by (fun a b => (ls_created_at a.2 <? ls_created_at b.2)
                      || ((ls_created_at a.2 =? ls_created_at b.2) && string_leb a.1 b.1))
    (List.filter (fun kv : string * LeaseRow =>
                    negb (String.eqb kv.1 current_lease_id) && lease_live db now_ kv.2
                    && bool_decide (ls_runtime_instance_id kv.2 = None)) (map_to_list (x_leases db))).

(** [_has_higher_priority_waiter]. *)
Definition has_higher_priority_waiter (db : XDB) (current_lease_id current_user_id : string) (now_ : Z) : bool :=
  match waiting_users db current_lease_id now_ with
  | [] => false
  | users => should_defer_claim (roles_or_guest (roles_of db now_ current_user_id))
               ((fun u => roles_or_guest (roles_of db now_ u)) <$> users)
  end.

(** The runtime an environment already runs on. *)
Definition existing_runtime (eid : string) (e : EnvironmentRow) (db : XDB) : option string :=
  rid ← en_active_runtime_id e;
  r ← x_runtimes db !! rid;
  if bool_decide (rt_environment_id r = Some eid) && bool_decide (rt_state r = ASSIGNED) then Some rid else None.

(** The oldest pristine slot of a profile. *)
Definition claimable (profile : string) (unlocked : string -> bool) (kv : string * RuntimeRow) : bool :=
  bool_decide (rt_state kv.2 = READY_UNBOUND) && bool_decide (rt_environment_id kv.2 = None)
  && String.eqb (rt_resource_profile_id kv.2) profile && unlocked kv.1.

Definition pick_runtime (profile : string) (unlocked : string -> bool) (db : XDB) : option string :=
  fst <$> head (sort_by (fun a b => (rt_created_at a.2 <? rt_created_at b.2)
                                    || ((rt_created_at a.2 =? rt_created_at b.2) && string_leb a.1 b.1))
                  (List.filter (claimable profile unlocked) (map_to_list (x_runtimes db)))).

(** [claim]: the runtime and its fresh nonce. *)
Definition claim (scope : SandboxScope) (lease_id : option string) (unlocked : string -> bool) (now_ : Z)
  : Xtx (option (string * string)) :=
  found ← gets (environment_of (sc_owner_user_id scope));
  match found with
  | None => raise LookupError
  | Some (eid, e) =>
      existing ← gets (existing_runtime eid e);
      match existing with
      | Some rid =>
          nonce ← sandbox_uuid;
          _ ← update_runtime rid (with_nonce (Some (claim_nonce_hash nonce)));
          mret (Some (rid, nonce))
      | None =>
          defer ← gets (fun db => match lease_id with
                                  | Some lid => has_higher_priority_waiter db lid (sc_owner_user_id scope) now_
                                  | None => false
                                  end);
          if defer : bool then mret None
          else
            picked ← gets (pick_runtime (en_resource_profile_id e) unlocked);
            match picked with
            | None => mret None
            | Some rid =>
                nonce ← sandbox_uuid;
                _ ← lift (transition_runtime CLAIMING ASSIGNED);
                _ ← update_runtime rid (bound_to eid (en_generation e) (claim_nonce_hash nonce));
                _ ← update_environment eid (with_active (Some rid));
                mret (Some (rid, nonce))
            end
      end
  end.

(** [mark_draining]. *)
Definition mark_draining (runtime_id : string) : Xtx (option RuntimeRow) :=
  runtime ← get_runtime runtime_id;
  match runtime with
  | None => mret None
  | Some r =>
      if negb (bool_decide (rt_state r = ASSIGNED)) then mret None
      else
        st ← lift (transition_runtime ASSIGNED DRAINING);
        _ ← update_runtime runtime_id (with_state st);
        mret (Some (with_state st r))
  end.

(** [mark_destroyed]. *)
Definition mark_destroyed (runtime_id : string) : Xtx () :=
  runtime ← get_runtime runtime_id;
  match runtime with
  | None => mret ()
  | Some r =>
      st ← (if bool_decide (rt_state r = DRAINING) then lift (transition_runtime DRAINING DESTROYED)
            else mret (if bool_decide (rt_state r = DESTROYED) then DESTROYED else FAILED));
      _ ← update_runtime runtime_id (fun r => with_nonce None (with_state st r));
      match rt_environment_id r with
      | None => mret ()
      | Some eid =>
          environment ← get_environment eid;
          match environment with
          | None => mret ()
          | Some e => when (bool_decide (en_active_runtime_id e = Some runtime_id))
                        (update_environment eid (with_active None))
          end
      end
  end.

(** ** [WarmPoolManager] *)

(** [_claim_once]. *)
Definition claim_once (scope : SandboxScope) (lease_id : string) (unlocked : string -> bool) (now_ : Z)
  : Xtx (option (string * string)) :=
  lease ← get_lease lease_id;
  match lease with
  | None => mret None
  | Some l =>
      if negb (lease_in_scope scope l) || (ls_expires_at l <=? now_) then mret None
      else
        auth_session ← gets (fun db => x_sessions db !! ls_auth_session_id l);
        user ← gets (fun db => x_users db !! ls_user_id l);
        if negb (auth_lifecycle_allows_execution l auth_session user (sc_generation scope)
                   (Some (sc_workspace_id scope)) now_) then mret None
        else
          environment ← get_environment (ls_environment_id l);
          match environment with
          | None => mret None
          | Some e =>
              if negb (ls_generation l =? en_generation e) then mret None
              else
                claimed ← claim scope (Some lease_id) unlocked now_;
                match claimed with
                | None => mret None
                | Some (rid, nonce) =>
                    _ ← update_lease lease_id (fun l => lease_bound (Some rid) (ls_generation l) l);
                    mret (Some (rid, nonce))
                end
          end
  end.

(** [destroy_runtime], transaction by transaction; [docker_destroy] answers the text of an
    error, or [None]. *)
Definition record_destroy_failure (runtime_id reason : string) : Xtx () :=
  update_runtime runtime_id (with_reason reason).

Definition finish_destroy (runtime_id reason : string) : Xtx () :=
  _ ← update_runtime runtime_id (with_reason reason);
  mark_destroyed runtime_id.

Definition has_container (r : RuntimeRow) : option string :=
  match rt_external_runtime_id r with Some ext => if String.eqb ext "" then None else Some ext | None => None end.

Definition destroy_runtime (docker_destroy : string -> option string) (runtime_id reason : string) (db : XDB) : XDB :=
  match run_tx (mark_draining runtime_id) db with
  | (Ok (Some r), db1) =>
      match has_container r with
      | None => (run_tx (finish_destroy runtime_id reason) db1).2
      | Some ext =>
          match docker_destroy ext with
          | Some error => (run_tx (record_destroy_failure runtime_id (str_take 500 ("destroy.retry: " +:+ error))) db1).2
          | None => (run_tx (finish_destroy runtime_id reason) db1).2
          end
      end
  | (_, db1) => db1
  end.

(** The gate of [reset_runtime], [interrupt_runtime] and [runtime_usage]. *)
Definition control_gate (scope : SandboxScope) (lease_id runtime_id : string) (generation : option Z) (now_ : Z)
  : Xtx (LeaseRow * RuntimeRow) :=
  runtime ← get_runtime runtime_id;
  lease ← get_lease lease_id;
  auth_session ← gets (fun db => l ← lease; x_sessions db !! ls_auth_session_id l);
  user ← gets (fun db => l ← lease; x_users db !! ls_user_id l);
  match runtime with
  | None => raise LookupError
  | Some r =>
      match lease with
      | None => raise PermissionError
      | Some l =>
          if negb (runtime_control_allows scope l runtime_id r generation now_)
             || negb (auth_lifecycle_allows_execution l auth_session user (sc_generation scope)
                        (Some (sc_workspace_id scope)) now_)
          then raise PermissionError
          else mret (l, r)
      end
  end.

(** [reset_runtime] up to its commit: the destruction that follows is [destroy_runtime]. *)
Definition reset_fence (scope : SandboxScope) (lease_id runtime_id : string) (generation : option Z) (now_ : Z)
  : Xtx () :=
  gate ← control_gate scope lease_id runtime_id generation now_;
  match rt_environment_id gate.2 with
  | None => raise LookupError
  | Some eid =>
      environment ← get_environment eid;
      match environment with
      | None => mret ()
      | Some e =>
          _ ← update_environment eid fenced;
          _ ← update_leases (fun l => String.eqb (ls_environment_id l) eid && String.eqb (ls_state l) "active")
                (lease_bound None (en_generation e + 1));
          mret ()
      end
  end.

(** [interrupt_runtime] up to the container it interrupts. *)
Definition interrupt_runtime (scope : SandboxScope) (lease_id runtime_id : string) (generation : option Z) (now_ : Z)
  : Xtx string :=
  gate ← control_gate scope lease_id runtime_id generation now_;
  match has_container gate.2 with None => raise LookupError | Some ext => mret ext end.

(** The transaction of [execute_claimed]. *)
Definition execute_gate (scope : SandboxScope) (lease_id runtime_id : string) (generation : Z)
  (nonce : option string) (now_ : Z) : Xtx (option string) :=
  lease ← get_lease lease_id;
  runtime ← get_runtime runtime_id;
  match lease, runtime with
  | Some l, Some r =>
      if negb (lease_in_scope scope l) || negb (ls_generation l =? rt_generation r)
         || negb (rt_generation r =? generation) || negb (bool_decide (rt_state r = ASSIGNED))
         || negb (bool_decide (rt_environment_id r = Some (ls_environment_id l)))
      then raise PermissionError
      else
        auth_session ← gets (fun db => x_sessions db !! ls_auth_session_id l);
        user ← gets (fun db => x_users db !! ls_user_id l);
        if negb (auth_lifecycle_allows_execution l auth_session user (sc_generation scope)
                   (Some (sc_workspace_id scope)) now_) then raise PermissionError
        else
          _ ← match rt_claim_nonce_hash r with
              | None => mret ()
              | Some h =>
                  match nonce with
                  | Some n => if validate_claim_nonce h n then update_runtime runtime_id (with_nonce None)
                              else raise PermissionError
                  | None => raise PermissionError
                  end
              end;
          mret (has_container r)
  | _, _ => raise PermissionError
  end.

(** [execute_claimed] up to the container that runs the command. *)
Definition execute_claimed (scope : SandboxScope) (lease_id runtime_id : string) (generation : Z)
  (nonce : option string) (now_ : Z) (db : XDB) : result SandboxError string * XDB :=
  match run_tx (execute_gate scope lease_id runtime_id generation nonce now_) db with
  | (Ok (Some ext), db') => (Ok ext, db')
  | (Ok None, db') => (Err RuntimeError, db')
  | (Err e, db') => (Err e, db')
  end.

(** ** Refill and reconciliation *)

(** [_fail_stale_creating]. *)
Definition fail_stale_creating (profile : string) (now_ : Z) : Xtx () :=
  modify (fun db => set_runtimes db ((fun r =>
    if String.eqb (rt_resource_profile_id r) profile && bool_decide (rt_state r = creating)
       && (rt_created_at r <? now_ - 300 * SECOND)
    then with_reason "pool.create.timeout" (with_state FAILED r) else r) <$> x_runtimes db)).

(** [_counts]. *)
Definition count_states (profile : string) (states : list RuntimeState) (db : XDB) : Z :=
  Z.of_nat (length (List.filter (fun kv : string * RuntimeRow =>
    String.eqb (rt_resource_profile_id kv.2) profile && bool_decide (rt_state kv.2 ∈ states))
    (map_to_list (x_runtimes db)))).

Definition OCCUPYING : list RuntimeState := [READY_UNBOUND; creating; CLAIMING; ASSIGNED; DRAINING].

(** The loop of [_refill_locked] that reserves rows; [probe] is what the host answers before
    each of them. *)
Fixpoint reserve_rows (deficit : nat) (s : SandboxSettings) (probe : Z -> HostProbe) (runtime_kind profile : string)
  (image : option string) (total reserved now_ : Z) : Xtx (list string) :=
  match deficit with
  | O => mret []
  | S n =>
      allowed ← lift (host_allows_create s (probe reserved) (total + reserved) reserved);
      if negb allowed then mret []
      else
        rid ← sandbox_uuid;
        _ ← insert_runtime rid
              {| rt_environment_id := None; rt_runtime_kind := runtime_kind; rt_external_runtime_id := None;
                 rt_image_digest := image; rt_resource_profile_id := profile; rt_state := creating;
                 rt_generation := 1; rt_claim_nonce_hash := None; rt_last_heartbeat_at := None;
                 rt_failure_reason := None; rt_created_at := now_ |};
        rest ← reserve_rows n s probe runtime_kind profile image total (reserved + 1) now_;
        mret (rid :: rest)
  end.

(** The reservation of [_refill_locked], under the pool's advisory lock; [target] is
    [_effective_ready_target()]. *)
Definition refill_reserve (s : SandboxSettings) (probe : Z -> HostProbe) (runtime_kind profile : string)
  (image : option string) (target now_ : Z) : Xtx (list string) :=
  _ ← fail_stale_creating profile now_;
  ready_count ← gets (count_states profile [READY_UNBOUND]);
  creating_count ← gets (count_states profile [creating]);
  total_count ← gets (count_states profile OCCUPYING);
  deficit ← lift (refill_count target ready_count creating_count (Some (total_count, RUNTIME_TOTAL_MAX s)));
  reserve_rows (Z.to_nat deficit) s probe runtime_kind profile image total_count 0 now_.

(** The transactions of [_create_one]. *)
Definition record_created (runtime_id ext : string) : Xtx () :=
  runtime ← get_runtime runtime_id;
  match runtime with None => mret () | Some _ => set_external runtime_id ext created None end.

Definition record_failed (runtime_id reason : string) : Xtx () :=
  update_runtime runtime_id (fun r => with_reason reason (with_state FAILED r)).

Definition record_ready (runtime_id ext : string) (now_ : Z) : Xtx () :=
  runtime ← get_runtime runtime_id;
  match runtime with
  | None => mret ()
  | Some r => when (bool_decide (rt_state r ∈ [creating; created]))
                (set_external runtime_id ext (ready_state_after_kernel_check (rt_state r)) (Some now_))
  end.

(** What Docker answers while one slot is provisioned; an error is its text. *)
Record Provisioning := {
  pv_cached : result string bool;
  pv_create : result string string;
  pv_start : result string ();
  pv_kernel : result string ();
}.

(** [_create_one] for a reserved row. *)
Definition create_one (p : Provisioning) (runtime_id : string) (now_ : Z) (db : XDB) : XDB :=
  let fail reason db := (run_tx (record_failed runtime_id (str_take 500 reason)) db).2 in
  match pv_cached p, pv_create p with
  | Err e, _ | Ok _, Err e => fail e db
  | Ok cached, Ok ext =>
      let '(started, db1) :=
        if cached then
          match run_tx (record_created runtime_id ext) db with
          | (Ok _, db1) => (pv_start p, db1)
          | (Err _, db1) => (Err "external_runtime_id is not unique", db1)
          end
        else (Ok (), db) in
      match started, pv_kernel p with
      | Err e, _ | Ok _, Err e => fail e db1
      | Ok _, Ok _ => (run_tx (record_ready runtime_id ext now_) db1).2
      end
  end.

(** [reconcile]: the rows that should have a container. *)
Definition supervised (db : XDB) : list (string * string) :=
  omap (fun kv : string * RuntimeRow =>
    match rt_external_runtime_id kv.2 with
    | Some ext => if bool_decide (rt_state kv.2 ∈ [READY_UNBOUND; ASSIGNED; DRAINING]) && negb (String.eqb ext "")
                  then Some (ext, kv.1) else None
    | None => None
    end) (map_to_list (x_runtimes db)).

Definition fail_missing (runtime_id : string) : Xtx () :=
  runtime ← get_runtime runtime_id;
  match runtime with
  | None => mret ()
  | Some r =>
      when (negb (bool_decide (rt_state r = DESTROYED)))
        (update_runtime runtime_id
           (fun r => with_nonce None (with_reason "docker.container.missing" (with_state FAILED r))))
  end.

(** The rows [reconcile] fails, given the containers Docker reports. *)
Definition missing_runtimes (docker_ids : gset string) (db : XDB) : list string :=
  snd <$> List.filter (fun p : string * string => bool_decide (p.1 ∉ docker_ids)) (supervised db).

(** [_retry_draining_runtimes] and [_destroy_unleased_assigned_runtimes]: what they select. *)
Definition draining_runtimes (db : XDB) : list string :=
  fst <$> List.filter (fun kv : string * RuntimeRow =>
    bool_decide (rt_state kv.2 = DRAINING) && bool_decide (rt_external_runtime_id kv.2 <> None))
    (map_to_list (x_runtimes db)).

Definition unleased_runtimes (now_ : Z) (db : XDB) : list string :=
  fst <$> List.filter (fun kv : string * RuntimeRow =>
    bool_decide (rt_state kv.2 = ASSIGNED)
    && negb (existsb (fun kl : string * LeaseRow =>
               bool_decide (rt_environment_id kv.2 = Some (ls_environment_id kl.2)) && lease_live db now_ kl.2)
             (map_to_list (x_leases db)))) (map_to_list (x_runtimes db)).

(** One pass of [reconcile] over the database, with Docker's answers. *)
Definition reconcile_pool (docker_ids : gset string) (docker_destroy : string -> option string) (now_ : Z)
  (db : XDB) : XDB :=
  let db1 := (run_tx (st_iter fail_missing (missing_runtimes docker_ids db)) db).2 in
  let db2 := foldl (fun db rid =>
               match has_container <$> x_runtimes db !! rid with
               | Some (Some ext) =>
                   match docker_destroy ext with
                   | Some error => (run_tx (record_destroy_failure rid
                                              (str_take 500 ("destroy.retry: " +:+ error))) db).2
                   | None => (run_tx (mark_destroyed rid) db).2
                   end
               | _ => db
               end) db1 (draining_runtimes db1) in
  foldl (fun db rid => destroy_runtime docker_destroy rid "lease.not.active" db) db2 (unleased_runtimes now_ db2).
End sandbox.
