(* ===== verification/SandboxSafety.v ===== *)
(** * SandboxSafety: isolation and fencing of sandbox runtimes

    The manager's transactions interleave with the lease service, with the provisioning of
    slots and with changes of the identity tables: [pool_step] takes any of them.  [ok] is the
    invariant of the store and [persists] what no transaction undoes. *)
From S2P Require Import Prelude Clock Json SandboxStore Sandbox.
Local Open Scope Z_scope.

(** The store, and the rows a provisioning task is working on. *)
Record Pool := { p_db : XDB; p_provisioning : gset string }.

Section safety.
Context `{Uuids}.
Variable claim_nonce_hash : string -> string.

Abbreviation claim_once' := (claim_once claim_nonce_hash).
Abbreviation execute_gate' := (execute_gate claim_nonce_hash).

(** The transactions any process may run at any moment. *)
Inductive pool_tx : forall A, Xtx A -> Prop :=
| tx_ensure_environment sc profile now_ : pool_tx _ (ensure_environment sc profile now_)
| tx_ensure_lease sc now_ : pool_tx _ (ensure_current_lease sc now_)
| tx_release u s reason now_ : pool_tx _ (release_auth_session u s reason now_)
| tx_revoke u reason now_ : pool_tx _ (revoke_user_leases u reason now_)
| tx_expire now_ : pool_tx _ (revoke_expired_leases now_)
| tx_claim sc lid unlocked now_ : pool_tx _ (claim_once' sc lid unlocked now_)
| tx_draining rid : pool_tx _ (mark_draining rid)
| tx_destroy_failure rid reason : pool_tx _ (record_destroy_failure rid reason)
| tx_finish_destroy rid reason : pool_tx _ (finish_destroy rid reason)
| tx_destroyed rid : pool_tx _ (mark_destroyed rid)
| tx_reset sc lid rid g now_ : pool_tx _ (reset_fence sc lid rid g now_)
| tx_execute sc lid rid g nonce now_ : pool_tx _ (execute_gate' sc lid rid g nonce now_)
| tx_stale profile now_ : pool_tx _ (fail_stale_creating profile now_)
| tx_missing l : pool_tx _ (st_iter fail_missing l).

Inductive pool_step (p : Pool) : Pool -> Prop :=
| pool_run_tx A m : pool_tx A m -> pool_step p {| p_db := (run_tx m (p_db p)).2; p_provisioning := p_provisioning p |}
| pool_identity s u r ur :
    pool_step p {| p_db := set_identity (p_db p) s u r ur; p_provisioning := p_provisioning p |}
| pool_refill s probe kind profile image target now_ ids db :
    refill_reserve s probe kind profile image target now_ (p_db p) = Ok (ids, db) ->
    pool_step p {| p_db := db; p_provisioning := list_to_set ids ∪ p_provisioning p |}
| pool_created rid ext : rid ∈ p_provisioning p ->
    pool_step p {| p_db := (run_tx (record_created rid ext) (p_db p)).2; p_provisioning := p_provisioning p |}
| pool_failed rid reason : rid ∈ p_provisioning p ->
    pool_step p {| p_db := (run_tx (record_failed rid reason) (p_db p)).2;
                   p_provisioning := p_provisioning p ∖ {[rid]} |}
| pool_ready rid ext now_ : rid ∈ p_provisioning p ->
    pool_step p {| p_db := (run_tx (record_ready rid ext now_) (p_db p)).2;
                   p_provisioning := p_provisioning p ∖ {[rid]} |}.

Inductive pool_run : Pool -> Pool -> Prop :=
| pool_here p : pool_run p p
| pool_more p p' p'' : pool_run p p' -> pool_step p' p'' -> pool_run p p''.

Definition new_pool : Pool :=
  {| p_db := {| x_environments := ∅; x_runtimes := ∅; x_leases := ∅; x_sessions := ∅; x_users := ∅; x_roles := ∅;
                x_user_roles := []; x_outbox := []; x_next_uuid := 0 |}; p_provisioning := ∅ |}.

(** ** The invariant *)

Definition early (s : RuntimeState) : bool := bool_decide (s ∈ [creating; created; READY_UNBOUND]).
Definition provisional (s : RuntimeState) : bool := bool_decide (s ∈ [creating; created; FAILED]).

Record ok (prov : gset string) (db : XDB) : Prop := {
  ok_lease : forall lid l, x_leases db !! lid = Some l ->
    exists e, x_environments db !! ls_environment_id l = Some e /\ en_owner_user_id e = ls_user_id l;
  ok_owner : forall i j e f, x_environments db !! i = Some e -> x_environments db !! j = Some f ->
    en_owner_user_id e = en_owner_user_id f -> i = j;
  ok_early : forall rid r, x_runtimes db !! rid = Some r -> early (rt_state r) = true -> rt_environment_id r = None;
  ok_generation : forall rid r eid, x_runtimes db !! rid = Some r -> rt_environment_id r = Some eid ->
    exists e, x_environments db !! eid = Some e /\ rt_generation r <= en_generation e;
  ok_provisioning : forall rid, rid ∈ prov ->
    exists r, x_runtimes db !! rid = Some r /\ rt_environment_id r = None /\ provisional (rt_state r) = true;
  ok_external : forall i j r q x, x_runtimes db !! i = Some r -> x_runtimes db !! j = Some q ->
    rt_external_runtime_id r = Some x -> rt_external_runtime_id q = Some x -> i = j;
}.

Definition active (l : LeaseRow) : bool := String.eqb (ls_state l) "active".

(** What stays: owners, the order of generations, the binding of a runtime with its container;
    an active lease is an old one, or carries at least the generation of its environment. *)
Record persists (db db' : XDB) : Prop := {
  keep_environment : forall eid e, x_environments db !! eid = Some e ->
    exists e', x_environments db' !! eid = Some e' /\ en_owner_user_id e' = en_owner_user_id e
      /\ en_generation e <= en_generation e';
  keep_runtime : forall rid r eid, x_runtimes db !! rid = Some r -> rt_environment_id r = Some eid ->
    exists r', x_runtimes db' !! rid = Some r' /\ rt_environment_id r' = Some eid
      /\ rt_generation r' = rt_generation r /\ rt_external_runtime_id r' = rt_external_runtime_id r;
  keep_lease : forall lid l', x_leases db' !! lid = Some l' -> active l' = true ->
    (exists l, x_leases db !! lid = Some l /\ ls_environment_id l = ls_environment_id l' /\ active l = true
       /\ ls_generation l <= ls_generation l')
    \/ (forall e, x_environments db !! ls_environment_id l' = Some e -> en_generation e <= ls_generation l');
}.

#[local] Instance persists_refl : Reflexive persists.
Proof.
  intros db. split; [by eauto with lia| |].
  - intros rid r eid Hr He. by exists r.
  - intros lid l Hl Ha. left. exists l. split_and!; [done..|lia].
Qed.

#[local] Instance persists_trans : Transitive persists.
Proof.
  intros a b c Hab Hbc. split.
  - intros eid e He. destruct (keep_environment _ _ Hab _ _ He) as (e' & He' & Ho & Hg).
    destruct (keep_environment _ _ Hbc _ _ He') as (e'' & He'' & Ho' & Hg').
    exists e''. split_and!; [done|congruence|lia].
  - intros rid r eid Hr Hb. destruct (keep_runtime _ _ Hab _ _ _ Hr Hb) as (r' & Hr' & Hb' & Hg & Hx).
    destruct (keep_runtime _ _ Hbc _ _ _ Hr' Hb') as (r'' & Hr'' & Hb'' & Hg' & Hx').
    exists r''. split_and!; congruence.
  - intros lid l Hl Ha. destruct (keep_lease _ _ Hbc _ _ Hl Ha) as [(l1 & Hl1 & He1 & Ha1 & Hg1)|Hnew].
    + destruct (keep_lease _ _ Hab _ _ Hl1 Ha1) as [(l0 & Hl0 & He0 & Ha0 & Hg0)|Hnew].
      * left. exists l0. split_and!; [done|congruence|done|lia].
      * right. intros e He. rewrite <- He1 in He. specialize (Hnew _ He). lia.
    + right. intros e He. destruct (keep_environment _ _ Hab _ _ He) as (e' & He' & _ & Hg).
      specialize (Hnew _ He'). lia.
Qed.

Definition evolves (prov : gset string) (db db' : XDB) : Prop := ok prov db -> ok prov db' /\ persists db db'.

Abbreviation moves prov := (st_moves (evolves prov)).

Lemma evolves_refl prov db : evolves prov db db.
Proof. by intros Hok. Qed.

Lemma evolves_trans prov a b c : evolves prov a b -> evolves prov b c -> evolves prov a c.
Proof.
  intros Hab Hbc Hok. destruct (Hab Hok) as [Hb Hk]. destruct (Hbc Hb) as [Hc Hk']. split; [done|by etrans].
Qed.

#[local] Instance evolves_preorder prov : PreOrder (evolves prov).
Proof. split; [intros db; apply evolves_refl|intros a b c; apply evolves_trans]. Qed.

(** ** Statements *)

(** A runtime row that keeps its binding, and moves forward or fails. *)
Definition plain (r r' : RuntimeRow) : Prop :=
  rt_environment_id r' = rt_environment_id r /\ rt_generation r' = rt_generation r
  /\ rt_external_runtime_id r' = rt_external_runtime_id r
  /\ (rt_state r' = rt_state r \/ rt_state r' = FAILED
      \/ (early (rt_state r) = false /\ provisional (rt_state r) = false
          /\ early (rt_state r') = false /\ provisional (rt_state r') = false)).

Lemma plain_refl r : plain r r.
Proof. unfold plain. tauto. Qed.

(** The tables the invariant reads. *)
Lemma evolves_same prov db db' :
  x_environments db' = x_environments db -> x_runtimes db' = x_runtimes db -> x_leases db' = x_leases db ->
  evolves prov db db'.
Proof.
  intros He Hr Hl Hok. assert (Hp : persists db db').
  { pose proof (persists_refl db) as [H1 H2 H3]. split; rewrite ?He, ?Hr, ?Hl; done. }
  split; [|done]. destruct Hok. split; rewrite ?He, ?Hr, ?Hl; done.
Qed.

Lemma evolves_runtimes prov db m :
  (forall rid, match x_runtimes db !! rid, m !! rid with
               | Some r, Some r' => plain r r'
               | None, None => True
               | _, _ => False
               end) ->
  evolves prov db (set_runtimes db m).
Proof.
  intros Hm Hok. assert (Hback : forall rid r', m !! rid = Some r' -> exists r, x_runtimes db !! rid = Some r /\ plain r r').
  { intros rid r' Hr'. specialize (Hm rid). rewrite Hr' in Hm. destruct (x_runtimes db !! rid) as [r|]; [eauto|done]. }
  assert (Hforth : forall rid r, x_runtimes db !! rid = Some r -> exists r', m !! rid = Some r' /\ plain r r').
  { intros rid r Hr. specialize (Hm rid). rewrite Hr in Hm. destruct (m !! rid) as [r'|]; [eauto|done]. }
  destruct Hok as [H1 H2 H3 H4 H5 H6]. split.
  - split; cbn [x_environments x_runtimes x_leases set_runtimes]; [done|done| | | |].
    + intros rid r' (r & Hr & He & _ & _ & Hs)%Hback Hearly. rewrite He. apply (H3 _ _ Hr).
      destruct Hs as [Hs|[Hs|Hs]]; [by rewrite <- Hs|by rewrite Hs in Hearly|by destruct Hs as (_ & _ & ? & _); congruence].
    + intros rid r' eid (r & Hr & He & -> & _)%Hback Henv. rewrite He in Henv. by apply (H4 _ _ _ Hr).
    + intros rid (r & Hr & He & Hs)%H5. apply Hforth in Hr as (r' & Hr' & He' & _ & _ & Hst).
      exists r'. split_and!; [done|congruence|].
      destruct Hst as [->|[->|(_ & Hn & _)]]; [done|done|congruence].
    + intros i j r' q' x (r & Hr & _ & _ & Hx & _)%Hback (q & Hq & _ & _ & Hy & _)%Hback Hx' Hy'.
      rewrite Hx in Hx'. rewrite Hy in Hy'. by eapply H6.
  - split; cbn [x_environments x_runtimes x_leases set_runtimes].
    + apply persists_refl.
    + intros rid r eid (r' & Hr' & He & Hg & Hx & _)%Hforth Henv. exists r'. split_and!; congruence.
    + apply persists_refl.
Qed.

Lemma evolves_alter_runtime prov db rid f :
  (forall r, x_runtimes db !! rid = Some r -> plain r (f r)) ->
  evolves prov db (set_runtimes db (alter f rid (x_runtimes db))).
Proof.
  intros Hf. apply evolves_runtimes. intros i. destruct (decide (rid = i)) as [<-|Hne].
  - rewrite lookup_alter_eq. destruct (x_runtimes db !! rid) eqn:Hr; cbn; [by apply Hf|done].
  - rewrite lookup_alter_ne by done. destruct (x_runtimes db !! i); [apply plain_refl|done].
Qed.

Lemma moves_update_runtime prov rid f : (forall r, plain r (f r)) -> moves prov (update_runtime rid f).
Proof. intros Hf db a db' [= _ <-]. by apply evolves_alter_runtime. Qed.

Lemma plain_nonce n r : plain r (with_nonce n r).
Proof. unfold plain. cbn. tauto. Qed.
Lemma plain_reason s r : plain r (with_reason s r).
Proof. unfold plain. cbn. tauto. Qed.
Lemma plain_failed r : plain r (with_state FAILED r).
Proof. unfold plain. cbn. tauto. Qed.

Lemma plain_trans a b c : plain a b -> plain b c -> plain a c.
Proof.
  intros (E1 & G1 & X1 & S1) (E2 & G2 & X2 & S2). unfold plain. split_and!; [congruence..|].
  destruct S2 as [S2|[S2|S2]]; [rewrite S2; tauto|tauto|]. destruct S1 as [S1|[S1|S1]].
  - rewrite S1 in S2. tauto.
  - rewrite S1 in S2. destruct S2 as (_ & S2 & _). discriminate.
  - tauto.
Qed.

Lemma evolves_alter_environment prov db eid f :
  (forall e, en_owner_user_id (f e) = en_owner_user_id e /\ en_generation e <= en_generation (f e)) ->
  evolves prov db (set_environments db (alter f eid (x_environments db))).
Proof.
  intros Hf Hok. set (m := alter f eid (x_environments db)).
  assert (Hforth : forall i e, x_environments db !! i = Some e ->
    exists e', m !! i = Some e' /\ en_owner_user_id e' = en_owner_user_id e /\ en_generation e <= en_generation e').
  { intros i e He. unfold m. destruct (decide (eid = i)) as [<-|Hne].
    - rewrite lookup_alter_eq, He. by eexists.
    - rewrite lookup_alter_ne by done. eauto with lia. }
  assert (Hback : forall i e', m !! i = Some e' ->
    exists e, x_environments db !! i = Some e /\ en_owner_user_id e' = en_owner_user_id e).
  { intros i e'. unfold m. destruct (decide (eid = i)) as [<-|Hne].
    - rewrite lookup_alter_eq. intros (e & He & ->)%fmap_Some. exists e. split; [done|apply Hf].
    - rewrite lookup_alter_ne by done. eauto. }
  destruct Hok as [H1 H2 H3 H4 H5 H6]. split.
  - split; cbn [x_environments x_runtimes x_leases set_environments]; [| |done| |done|done].
    + intros lid l (e & He & Ho)%H1. apply Hforth in He as (e' & He' & Ho' & _). exists e'. split; [done|congruence].
    + intros i j e' f' (e & He & Ho)%Hback (g & Hg & Ho')%Hback Heq. eapply H2; [done|done|congruence].
    + intros rid r i Hr Henv. destruct (H4 _ _ _ Hr Henv) as (e & He & Hg). apply Hforth in He as (e' & He' & _ & Hle).
      exists e'. split; [done|lia].
  - split; cbn [x_environments x_runtimes x_leases set_environments].
    + intros i e He. by apply Hforth.
    + apply persists_refl.
    + apply persists_refl.
Qed.

Lemma moves_update_environment prov eid f :
  (forall e, en_owner_user_id (f e) = en_owner_user_id e /\ en_generation e <= en_generation (f e)) ->
  moves prov (update_environment eid f).
Proof. intros Hf db a db' [= _ <-]. by apply evolves_alter_environment. Qed.

(** A lease row that keeps its identity, and is old or carries the generation. *)
Definition lease_moves (db : XDB) (l l' : LeaseRow) : Prop :=
  ls_environment_id l' = ls_environment_id l /\ ls_user_id l' = ls_user_id l
  /\ (active l' = true -> (active l = true /\ ls_generation l <= ls_generation l')
                          \/ forall e, x_environments db !! ls_environment_id l = Some e -> en_generation e <= ls_generation l').

Lemma lease_moves_refl db l : lease_moves db l l.
Proof. unfold lease_moves. split_and!; [done..|]. left. split; [done|lia]. Qed.

Lemma evolves_leases prov db m :
  (forall lid l', m !! lid = Some l' -> exists l, x_leases db !! lid = Some l /\ lease_moves db l l') ->
  evolves prov db (set_leases db m).
Proof.
  intros Hm Hok. destruct Hok as [H1 H2 H3 H4 H5 H6]. split.
  - split; cbn [x_environments x_runtimes x_leases set_leases]; [|done..].
    intros lid l' (l & Hl & He & Hu & _)%Hm. rewrite He, Hu. by apply (H1 lid).
  - split; cbn [x_environments x_runtimes x_leases set_leases]; [apply persists_refl..|].
    intros lid l' (l & Hl & He & _ & Hg)%Hm Ha. destruct (Hg Ha) as [[Hal Hle]|Hge].
    + left. by exists l.
    + right. by rewrite He.
Qed.

Lemma evolves_alter_lease prov db lid f :
  (forall l, x_leases db !! lid = Some l -> lease_moves db l (f l)) ->
  evolves prov db (set_leases db (alter f lid (x_leases db))).
Proof.
  intros Hf. apply evolves_leases. intros i l'. destruct (decide (lid = i)) as [<-|Hne].
  - rewrite lookup_alter_eq. intros (l & Hl & ->)%fmap_Some. eauto.
  - rewrite lookup_alter_ne by done. intros Hl. exists l'. split; [done|apply lease_moves_refl].
Qed.

Lemma moves_update_lease prov lid f :
  (forall db l, lease_moves db l (f l)) -> moves prov (update_lease lid f).
Proof. intros Hf db a db' [= _ <-]. by apply evolves_alter_lease. Qed.

Lemma evolves_update_leases prov db p f n db' :
  update_leases p f db = Ok (n, db') ->
  (forall l, p l = true -> lease_moves db l (f l)) -> evolves prov db db'.
Proof.
  intros Hr Hf. injection Hr as _ <-. apply evolves_leases. intros lid l'.
  rewrite lookup_fmap. intros (l & Hl & ->)%fmap_Some. exists l. split; [done|].
  destruct (p l) eqn:Hp; [by apply Hf|apply lease_moves_refl].
Qed.

Lemma moves_update_leases prov p f :
  (forall db l, lease_moves db l (f l)) -> moves prov (update_leases p f).
Proof. intros Hf db n db' Hr. eapply evolves_update_leases; [done|]. intros; apply Hf. Qed.

Lemma lease_moves_ended db st reason now_ l : String.eqb st "active" = false -> lease_moves db l (lease_ended st reason now_ l).
Proof. intros Hst. unfold lease_moves, active. cbn. rewrite Hst. done. Qed.

Lemma lease_moves_runtime db rid l : lease_moves db l (lease_bound rid (ls_generation l) l).
Proof. unfold lease_moves, active. cbn. split_and!; [done..|]. intros. left. split; [done|lia]. Qed.

Lemma moves_uuid prov : moves prov sandbox_uuid.
Proof. intros db a db' [= _ <-]. by apply evolves_same. Qed.

Lemma moves_notify prov topic payload : moves prov (notify topic payload).
Proof. intros db a db' [= _ <-]. by apply evolves_same. Qed.

Lemma environment_of_some owner db eid e :
  environment_of owner db = Some (eid, e) -> x_environments db !! eid = Some e /\ en_owner_user_id e = owner.
Proof.
  intros [Hin Ho]%List.find_some. apply list_elem_of_In, elem_of_map_to_list in Hin.
  by apply String.eqb_eq in Ho.
Qed.

Lemma environment_of_none owner db eid e :
  environment_of owner db = None -> x_environments db !! eid = Some e -> en_owner_user_id e <> owner.
Proof.
  intros Hn He <-. assert (Hf := List.find_none _ _ Hn (eid, e)). cbn in Hf. rewrite String.eqb_refl in Hf.
  discriminate Hf. by apply list_elem_of_In, elem_of_map_to_list.
Qed.

Lemma moves_insert_environment prov eid e : moves prov (insert_environment eid e).
Proof.
  intros db a db' Hr. unfold insert_environment, xstmt in Hr.
  destruct (x_environments db !! eid) eqn:Hnew; [done|].
  destruct (environment_of (en_owner_user_id e) db) eqn:Ho; [done|]. destruct (x_users db !! _); [|done].
  injection Hr as _ <-. intros Hok. destruct Hok as [H1 H2 H3 H4 H5 H6].
  assert (Hforth : forall i f, x_environments db !! i = Some f -> <[eid := e]> (x_environments db) !! i = Some f).
  { intros i f Hf. rewrite lookup_insert_ne; [done|]. intros ->. congruence. }
  split.
  - split; cbn [x_environments x_runtimes x_leases set_environments]; [| |done| |done|done].
    + intros lid l (f & Hf & Hu)%H1. exists f. split; [by apply Hforth|done].
    + intros i j f g. rewrite !lookup_insert_Some.
      intros [[<- <-]|[Hi Hf]] [[<- <-]|[Hj Hg]] Heq; [done| | |by eapply H2].
      * by destruct (environment_of_none _ _ _ _ Ho Hg).
      * by destruct (environment_of_none _ _ _ _ Ho Hf).
    + intros rid r i Hr' Henv. destruct (H4 _ _ _ Hr' Henv) as (f & Hf & Hg). exists f. split; [by apply Hforth|done].
  - split; cbn [x_environments x_runtimes x_leases set_environments].
    + intros i f Hf. exists f. split; [by apply Hforth|]. split; [done|lia].
    + apply persists_refl.
    + apply persists_refl.
Qed.

Lemma evolves_insert_lease prov db lid l a db' :
  insert_lease lid l db = Ok (a, db') ->
  (forall e, x_environments db !! ls_environment_id l = Some e -> en_generation e <= ls_generation l) ->
  evolves prov db db'.
Proof.
  intros Hr Hg. unfold insert_lease, xstmt in Hr. case_bool_decide as Hnew; cbn [andb] in Hr; [|done].
  destruct (negb _); cbn [andb] in Hr; [|done]. case_bool_decide as Ho; cbn [andb] in Hr; [|done].
  case_bool_decide; [|done]. injection Hr as _ <-. intros [H1 H2 H3 H4 H5 H6]. split.
  - split; cbn [x_environments x_runtimes x_leases set_leases]; [|done..].
    intros i k. rewrite lookup_insert_Some. intros [[<- <-]|[Hi Hk]]; [|by apply (H1 i)].
    apply fmap_Some in Ho as (e & He & Ho). by exists e.
  - split; cbn [x_environments x_runtimes x_leases set_leases]; [apply persists_refl..|].
    intros i k. rewrite lookup_insert_Some. intros [[<- <-]|[Hi Hk]] Ha; [by right|].
    left. exists k. split_and!; [done..|lia].
Qed.

(** A new slot is unbound and has no container. *)
Lemma evolves_insert_runtime prov db rid r a db' :
  insert_runtime rid r db = Ok (a, db') -> rt_environment_id r = None -> rt_external_runtime_id r = None ->
  evolves prov db db'.
Proof.
  intros Hr He Hx. unfold insert_runtime, xstmt in Hr. destruct (x_runtimes db !! rid) eqn:Hnew; [done|].
  injection Hr as _ <-. intros [H1 H2 H3 H4 H5 H6].
  split.
  - split; cbn [x_environments x_runtimes x_leases set_runtimes]; [done|done| | | |].
    + intros i q. rewrite lookup_insert_Some. intros [[<- <-]|[_ Hq]]; [done|by eapply H3].
    + intros i q eid. rewrite lookup_insert_Some. intros [[<- <-]|[_ Hq]]; [congruence|by eapply H4].
    + intros i (q & Hq & Hs)%H5. exists q. split; [|done]. rewrite lookup_insert_ne; [done|]. intros ->. congruence.
    + intros i j q k x. rewrite !lookup_insert_Some.
      intros [[<- <-]|[_ Hq]] [[<- <-]|[_ Hk]] Hqx Hkx; [done|congruence|congruence|by eapply H6].
  - split; cbn [x_environments x_runtimes x_leases set_runtimes]; [apply persists_refl| |apply persists_refl].
    intros i q eid Hq Henv. exists q. split; [|done]. rewrite lookup_insert_ne; [done|]. intros ->. congruence.
Qed.

(** The container of a slot under provisioning. *)
Lemma external_free rid ext db i q :
  external_taken rid ext db = false -> x_runtimes db !! i = Some q -> rt_external_runtime_id q = Some ext -> i = rid.
Proof.
  intros Ht Hq Hx. destruct (String.eqb_spec i rid) as [|Hne]; [done|exfalso].
  unfold external_taken in Ht. eapply existsb_false_elem in Ht; [|by apply elem_of_map_to_list, Hq].
  cbn in Ht. apply String.eqb_neq in Hne. rewrite Hne, Hx in Ht. by rewrite bool_decide_eq_true_2 in Ht.
Qed.

Lemma evolves_set_external prov db rid ext st hb a db' :
  set_external rid ext st hb db = Ok (a, db') ->
  (forall r, x_runtimes db !! rid = Some r -> rt_environment_id r = None /\ (rid ∈ prov -> provisional st = true)) ->
  evolves prov db db'.
Proof.
  intros Hr Hrid. unfold set_external, xstmt in Hr. destruct (external_taken rid ext db) eqn:Hfree; [done|].
  injection Hr as _ <-. intros [H1 H2 H3 H4 H5 H6].
  set (m := alter (with_external ext st hb) rid (x_runtimes db)).
  assert (Hat : forall i q, m !! i = Some q -> (i = rid /\ exists r, x_runtimes db !! rid = Some r /\ q = with_external ext st hb r)
                                              \/ (i <> rid /\ x_runtimes db !! i = Some q)).
  { intros i q. unfold m. destruct (decide (rid = i)) as [<-|Hne].
    - rewrite lookup_alter_eq. intros (r & Hr & ->)%fmap_Some. left. eauto.
    - rewrite lookup_alter_ne by done. by right. }
  split.
  - split; cbn [x_environments x_runtimes x_leases set_runtimes]; [done|done| | | |].
    + intros i q [[-> (r & Hr & ->)]|[_ Hq]]%Hat; [|by eapply H3]. intros _. apply (Hrid r Hr).
    + intros i q eid [[-> (r & Hr & ->)]|[_ Hq]]%Hat; [|by eapply H4]. cbn. destruct (Hrid r Hr). congruence.
    + intros i Hi. destruct (H5 i Hi) as (q & Hq & He & Hs). unfold m. destruct (decide (rid = i)) as [<-|Hne].
      * rewrite lookup_alter_eq, Hq. eexists. split; [done|]. split; [done|by apply (Hrid q Hq)].
      * rewrite lookup_alter_ne by done. by exists q.
    + intros i j q k x [[-> (r & Hr & ->)]|[Hi Hq]]%Hat [[-> (r' & Hr' & ->)]|[Hj Hk]]%Hat Hqx Hkx; [done| | |by eapply H6].
      * injection Hqx as <-. by rewrite (external_free _ _ _ _ _ Hfree Hk Hkx).
      * injection Hkx as <-. by rewrite (external_free _ _ _ _ _ Hfree Hq Hqx).
  - split; cbn [x_environments x_runtimes x_leases set_runtimes]; [apply persists_refl| |apply persists_refl].
    intros i q eid Hq Henv. exists q. split; [|done]. unfold m. rewrite lookup_alter_ne; [done|].
    intros <-. destruct (Hrid q Hq). congruence.
Qed.

(** A pristine slot is bound to an environment, with its generation. *)
Lemma evolves_bind prov db rid eid e nonce :
  (forall r, x_runtimes db !! rid = Some r -> rt_state r = READY_UNBOUND) ->
  x_environments db !! eid = Some e ->
  evolves prov db (set_runtimes db (alter (bound_to eid (en_generation e) nonce) rid (x_runtimes db))).
Proof.
  intros Hready He [H1 H2 H3 H4 H5 H6]. set (f := bound_to eid (en_generation e) nonce).
  assert (Hat : forall i q, alter f rid (x_runtimes db) !! i = Some q ->
    (i = rid /\ exists r, x_runtimes db !! rid = Some r /\ q = f r) \/ (i <> rid /\ x_runtimes db !! i = Some q)).
  { intros i q. destruct (decide (rid = i)) as [<-|Hne].
    - rewrite lookup_alter_eq. intros (r & Hr & ->)%fmap_Some. left. eauto.
    - rewrite lookup_alter_ne by done. by right. }
  split.
  - split; cbn [x_environments x_runtimes x_leases set_runtimes]; [done|done| | | |].
    + intros i q [[-> (r & Hr & ->)]|[_ Hq]]%Hat; [done|by eapply H3].
    + intros i q eid' [[-> (r & Hr & ->)]|[_ Hq]]%Hat; [|by eapply H4]. intros [= <-]. exists e. split; [done|cbn; lia].
    + intros i Hi. destruct (H5 i Hi) as (q & Hq & Hn & Hs). exists q. split; [|done].
      rewrite lookup_alter_ne; [done|]. intros <-. by rewrite (Hready _ Hq) in Hs.
    + intros i j q k x [[-> (r & Hr & ->)]|[Hi Hq]]%Hat [[-> (r' & Hr' & ->)]|[Hj Hk]]%Hat Hqx Hkx.
      * done.
      * by eapply H6.
      * by eapply H6.
      * by eapply H6.
  - split; cbn [x_environments x_runtimes x_leases set_runtimes]; [apply persists_refl| |apply persists_refl].
    intros i q eid' Hq Henv. exists q. split; [|done]. rewrite lookup_alter_ne; [done|].
    intros <-. rewrite (H3 _ _ Hq) in Henv; [done|]. by rewrite (Hready _ Hq).
Qed.

(** ** The transactions *)

Lemma moves_ensure_environment prov sc profile now_ : moves prov (ensure_environment sc profile now_).
Proof.
  unfold ensure_environment. moves_bind; [moves_leaf|]. intros [[eid e]|]; [moves_leaf|].
  moves_bind; [apply moves_uuid|]. intros eid.
  moves_bind; [apply moves_insert_environment|]. intros _. moves_leaf.
Qed.

Lemma moves_revoke_expired prov now_ : moves prov (revoke_expired_leases now_).
Proof.
  unfold revoke_expired_leases. moves_bind; [moves_leaf|]. intros db.
  moves_bind; [|intros _; moves_leaf]. apply moves_update_leases. intros. by apply lease_moves_ended.
Qed.

Lemma lease_of_some eid s db lid l :
  lease_of eid s db = Some (lid, l) -> x_leases db !! lid = Some l /\ ls_environment_id l = eid.
Proof.
  intros [Hin [He _]%andb_true_iff]%List.find_some. apply list_elem_of_In, elem_of_map_to_list in Hin.
  by apply String.eqb_eq in He.
Qed.

Lemma moves_ensure_lease prov sc now_ : moves prov (ensure_current_lease sc now_).
Proof.
  unfold ensure_current_lease. moves_bind; [apply moves_ensure_environment|]. intros eid.
  moves_bind; [apply moves_revoke_expired|]. intros _.
  moves_bind; [apply moves_update_environment; intros e; cbn; split; [done|lia]|]. intros _.
  intros db [eid' lid'] db' Hr. st_run Hr. injection Hrun as <- <-. injection Hrun0 as <- <-.
  set (g := match x_environments db !! eid with Some e => en_generation e | None => 0 end) in *.
  assert (Hg : forall e, x_environments db !! eid = Some e -> en_generation e <= g).
  { intros e He. unfold g. rewrite He. lia. }
  destruct (lease_of eid (sc_auth_session_id sc) db) as [[lid l]|] eqn:Hl.
  - st_run Hr. injection Hr as _ _ <-. injection Hrun as _ <-. apply lease_of_some in Hl as [Hl He].
    apply evolves_alter_lease. intros l1 Hl1. rewrite Hl in Hl1. injection Hl1 as <-.
    unfold lease_moves. cbn. split_and!; [done..|]. intros _. right. by rewrite He.
  - st_run Hr. injection Hr as _ _ <-. eapply evolves_trans; [by eapply moves_uuid|].
    eapply evolves_insert_lease; [done|]. cbn. intros e He. apply Hg. by injection Hrun as _ <-.
Qed.

Lemma moves_release prov u s reason now_ : moves prov (release_auth_session u s reason now_).
Proof.
  unfold release_auth_session. moves_bind; [|intros n; moves_when; apply moves_notify].
  apply moves_update_leases. intros. by apply lease_moves_ended.
Qed.

Lemma moves_revoke_user prov u reason now_ : moves prov (revoke_user_leases u reason now_).
Proof.
  unfold revoke_user_leases. moves_bind; [|intros n; moves_when; apply moves_notify].
  apply moves_update_leases. intros. by apply lease_moves_ended.
Qed.

Lemma pick_runtime_ready profile unlocked db rid r :
  pick_runtime profile unlocked db = Some rid -> x_runtimes db !! rid = Some r -> claimable profile unlocked (rid, r) = true.
Proof.
  unfold pick_runtime. intros (kv & Hkv & ->)%fmap_Some Hr. apply head_Some_elem_of in Hkv.
  rewrite sort_by_perm in Hkv. apply list_elem_of_In, filter_In in Hkv as [Hin Hc].
  apply list_elem_of_In in Hin. destruct kv as [k q]. apply elem_of_map_to_list in Hin.
  cbn [fst] in *. assert (q = r) as <- by congruence. done.
Qed.

(** What a successful claim did. *)
Lemma claim_cases sc lid unlocked now_ db rid nonce db' :
  claim claim_nonce_hash sc lid unlocked now_ db = Ok (Some (rid, nonce), db') ->
  exists eid e, environment_of (sc_owner_user_id sc) db = Some (eid, e) /\
    ((existing_runtime eid e db = Some rid
      /\ db' = set_runtimes (set_xuuid db (S (x_next_uuid db)))
                 (alter (with_nonce (Some (claim_nonce_hash nonce))) rid (x_runtimes db)))
     \/ (existing_runtime eid e db = None /\ pick_runtime (en_resource_profile_id e) unlocked db = Some rid
         /\ exists db1, db1 = set_runtimes (set_xuuid db (S (x_next_uuid db)))
                            (alter (bound_to eid (en_generation e) (claim_nonce_hash nonce)) rid (x_runtimes db))
            /\ db' = set_environments db1 (alter (with_active (Some rid)) eid (x_environments db1)))).
Proof.
  unfold claim. intros Hr. st_run Hr. injection Hrun as <- <-.
  destruct (environment_of _ db) as [[eid e]|]; [|done]. exists eid, e. split; [done|].
  st_run Hr. injection Hrun as <- <-. destruct (existing_runtime eid e db) as [rid'|].
  - st_run Hr. injection Hrun as <- <-. injection Hrun0 as _ <-. injection Hr as <- <- <-. by left.
  - st_run Hr. injection Hrun as <- <-. destruct (match lid with Some _ => _ | None => _ end); [done|].
    st_run Hr. injection Hrun as <- <-. destruct (pick_runtime _ unlocked db) as [rid'|]; [|done].
    st_run Hr. injection Hrun as <- <-. injection Hrun0 as _ <-. injection Hrun1 as _ <-.
    injection Hrun2 as _ <-. injection Hr as <- <- <-. right. split; [done|]. split; [done|]. by eexists.
Qed.

Lemma claim_none sc lid unlocked now_ db db' :
  claim claim_nonce_hash sc lid unlocked now_ db = Ok (None, db') -> db' = db.
Proof.
  unfold claim. intros Hr. st_run Hr. injection Hrun as <- <-.
  destruct (environment_of _ db) as [[eid e]|]; [|done].
  st_run Hr. injection Hrun as <- <-. destruct (existing_runtime eid e db) as [rid'|].
  - st_run Hr. done.
  - st_run Hr. injection Hrun as <- <-. destruct (match lid with Some _ => _ | None => _ end); [by injection Hr as <-|].
    st_run Hr. injection Hrun as <- <-. destruct (pick_runtime _ unlocked db) as [rid'|]; [|by injection Hr as <-].
    st_run Hr. done.
Qed.

Lemma moves_claim prov sc lid unlocked now_ : moves prov (claim claim_nonce_hash sc lid unlocked now_).
Proof.
  intros db [[rid nonce]|] db' Hr; [|apply claim_none in Hr as ->; apply evolves_refl].
  apply claim_cases in Hr as (eid & e & Henv & [[_ ->]|(_ & Hpick & db1 & -> & ->)]).
  - eapply evolves_trans; [by eapply (moves_uuid _ db)|].
    apply (evolves_alter_runtime _ (set_xuuid db _)). intros. apply plain_nonce.
  - apply environment_of_some in Henv as [He _]. eapply evolves_trans; [|by apply evolves_alter_environment].
    eapply evolves_trans; [by eapply (moves_uuid _ db)|]. apply (evolves_bind _ (set_xuuid db _)); [|done].
    cbn. intros r Hr. eapply pick_runtime_ready in Hr; [|done]. unfold claimable in Hr. cbn in Hr.
    do 3 apply andb_true_iff in Hr as [Hr _]. by apply bool_decide_eq_true in Hr.
Qed.

Lemma moves_claim_once prov sc lid unlocked now_ : moves prov (claim_once' sc lid unlocked now_).
Proof.
  unfold claim_once. moves_bind; [moves_leaf|]. intros [l|]; [|moves_leaf].
  destruct (_ || _); [moves_leaf|]. do 2 (moves_bind; [moves_leaf|]; intros ?).
  destruct (negb _); [moves_leaf|]. moves_bind; [moves_leaf|]. intros [e|]; [|moves_leaf].
  destruct (negb _); [moves_leaf|]. moves_bind; [apply moves_claim|]. intros [[rid nonce]|]; [|moves_leaf].
  moves_bind; [|intros _; moves_leaf]. apply moves_update_lease. intros. apply lease_moves_runtime.
Qed.

Lemma moves_draining prov rid : moves prov (mark_draining rid).
Proof.
  intros db a db' Hr. unfold mark_draining in Hr. st_run Hr. injection Hrun as <- <-.
  destruct (x_runtimes db !! rid) as [r|] eqn:Hl; [|injection Hr as _ <-; apply evolves_refl].
  case_bool_decide as Hst; cbn [negb] in Hr; [|injection Hr as _ <-; apply evolves_refl].
  st_run Hr. injection Hrun as <- <-. injection Hrun0 as _ <-. injection Hr as _ <-.
  apply evolves_alter_runtime. intros q Hq. rewrite Hl in Hq. injection Hq as <-.
  unfold plain. cbn. rewrite Hst. tauto.
Qed.

Lemma moves_destroyed prov rid : moves prov (mark_destroyed rid).
Proof.
  intros db a db' Hr. unfold mark_destroyed in Hr. st_run Hr. injection Hrun as <- <-.
  destruct (x_runtimes db !! rid) as [r|] eqn:Hl; [|injection Hr as _ <-; apply evolves_refl].
  st_run Hr. assert (Hs : s = db /\ plain r (with_state a0 r)).
  { case_bool_decide as Hd; injection Hrun as <- <-; (split; [done|]); unfold plain; cbn.
    - rewrite Hd. tauto.
    - case_bool_decide as Hd'; [rewrite Hd'|]; tauto. }
  destruct Hs as [-> Hp]. injection Hrun0 as _ <-.
  eapply evolves_trans.
  { apply (evolves_alter_runtime _ db rid (fun r => with_nonce None (with_state a0 r))). intros q Hq.
    rewrite Hl in Hq. injection Hq as <-. eapply plain_trans; [done|apply plain_nonce]. }
  destruct (rt_environment_id r) as [eid|]; [|injection Hr as _ <-; apply evolves_refl].
  revert Hr. apply (st_moves_bind (evolves prov)); [moves_leaf|]. intros [e|]; [|moves_leaf].
  moves_when; apply moves_update_environment. intros e'. cbn. split; [done|lia].
Qed.

Lemma control_gate_reads sc lid rid g now_ db a db' :
  control_gate sc lid rid g now_ db = Ok (a, db') ->
  db' = db /\ x_leases db !! lid = Some a.1 /\ x_runtimes db !! rid = Some a.2
  /\ runtime_control_allows sc a.1 rid a.2 g now_ = true.
Proof.
  unfold control_gate. intros Hr. st_run Hr. injection Hrun as <- <-. injection Hrun0 as <- <-.
  injection Hrun1 as <- <-. injection Hrun2 as <- <-.
  destruct (x_runtimes db !! rid) as [r|]; [|done]. destruct (x_leases db !! lid) as [l|]; [|done].
  destruct (runtime_control_allows sc l rid r g now_) eqn:Hc; cbn [negb orb] in Hr; [|done].
  destruct (negb _); [done|]. by injection Hr as <- <-.
Qed.

Lemma moves_reset prov sc lid rid g now_ : moves prov (reset_fence sc lid rid g now_).
Proof.
  intros db a db' Hr. unfold reset_fence in Hr. st_run Hr.
  apply control_gate_reads in Hrun as (-> & Hl & Hq & Hc). destruct (rt_environment_id a0.2) as [eid|]; [|done].
  st_run Hr. injection Hrun as <- <-. destruct (x_environments db !! eid) as [e|] eqn:He; [|injection Hr as _ <-; apply evolves_refl].
  st_run Hr. injection Hr as _ <-. eapply evolves_trans.
  - eapply moves_update_environment; [|done]. intros f. cbn. split; [done|lia].
  - eapply evolves_update_leases; [done|]. injection Hrun as _ <-. intros l [Hle%String.eqb_eq Ha]%andb_true_iff.
    unfold lease_moves. cbn. split_and!; [done..|]. intros _. right. intros f.
    rewrite Hle, lookup_alter_eq, He. intros [= <-]. cbn. lia.
Qed.

Lemma moves_execute prov sc lid rid g nonce now_ : moves prov (execute_gate' sc lid rid g nonce now_).
Proof.
  unfold execute_gate. moves_bind; [moves_leaf|]. intros [l|];
    (moves_bind; [moves_leaf|]; intros [r|]; [|moves_leaf]); [|moves_leaf].
  destruct (_ || _ || _ || _ || _); [moves_leaf|]. do 2 (moves_bind; [moves_leaf|]; intros ?).
  destruct (negb _); [moves_leaf|]. moves_bind; [|intros _; moves_leaf].
  destruct (rt_claim_nonce_hash r) as [h|]; [|moves_leaf]. destruct nonce as [n|]; [|moves_leaf].
  destruct (validate_claim_nonce _ h n); [|moves_leaf]. apply moves_update_runtime. apply plain_nonce.
Qed.

Lemma plain_with_failed r s : plain r (with_reason s (with_state FAILED r)).
Proof. eapply plain_trans; [apply plain_failed|apply plain_reason]. Qed.

Lemma moves_stale prov profile now_ : moves prov (fail_stale_creating profile now_).
Proof.
  intros db a db' [= _ <-]. apply evolves_runtimes. intros rid. rewrite lookup_fmap.
  destruct (x_runtimes db !! rid) as [r|]; cbn; [|done]. case_match; [apply plain_with_failed|apply plain_refl].
Qed.

Lemma moves_missing prov rid : moves prov (fail_missing rid).
Proof.
  unfold fail_missing. moves_bind; [moves_leaf|]. intros [r|]; [|moves_leaf].
  moves_when; apply moves_update_runtime. intros q. eapply plain_trans; [apply plain_with_failed|apply plain_nonce].
Qed.

Lemma pool_tx_moves prov A (m : Xtx A) : pool_tx A m -> moves prov m.
Proof.
  destruct 1; eauto using moves_ensure_environment, moves_ensure_lease, moves_release, moves_revoke_user,
    moves_revoke_expired, moves_claim_once, moves_draining, moves_destroyed, moves_reset, moves_execute, moves_stale.
  - apply moves_update_runtime. intros r. apply plain_reason.
  - moves_bind; [|intros _; apply moves_destroyed]. apply moves_update_runtime. intros r. apply plain_reason.
  - moves_iter. intros rid. apply moves_missing.
Qed.

(** ** Provisioning *)

Definition slot (kind profile : string) (image : option string) (now_ : Z) : RuntimeRow :=
  {| rt_environment_id := None; rt_runtime_kind := kind; rt_external_runtime_id := None; rt_image_digest := image;
     rt_resource_profile_id := profile; rt_state := creating; rt_generation := 1; rt_claim_nonce_hash := None;
     rt_last_heartbeat_at := None; rt_failure_reason := None; rt_created_at := now_ |}.

(** The reserved rows are new, and nothing else changes. *)
Definition reserved (r0 : RuntimeRow) (ids : list string) (db db' : XDB) : Prop :=
  NoDup ids /\ (forall rid, rid ∈ ids -> x_runtimes db !! rid = None /\ x_runtimes db' !! rid = Some r0)
  /\ (forall rid, rid ∉ ids -> x_runtimes db' !! rid = x_runtimes db !! rid)
  /\ x_environments db' = x_environments db /\ x_leases db' = x_leases db.

Lemma reserve_rows_reserved k s probe kind profile image total now_ : forall n db ids db',
  reserve_rows k s probe kind profile image total n now_ db = Ok (ids, db') ->
  reserved (slot kind profile image now_) ids db db' /\ (length ids <= k)%nat
  /\ forall i, (i < length ids)%nat ->
       host_allows_create s (probe (n + Z.of_nat i)) (total + (n + Z.of_nat i)) (n + Z.of_nat i) = Ok true.
Proof.
  induction k as [|k IH]; intros n db ids db' Hr; cbn [reserve_rows] in Hr.
  { injection Hr as <- <-. split; [|split; [cbn; lia|cbn; lia]]. split; [apply NoDup_nil_2|].
    split_and!; [set_solver|done..]. }
  st_run Hr. unfold lift in Hrun. destruct (host_allows_create _ _ _ _) as [b|] eqn:Hh; [|done].
  injection Hrun as <- <-. destruct b; cbn [negb] in Hr.
  2: { injection Hr as <- <-. split; [|split; [cbn; lia|cbn; lia]]. split; [apply NoDup_nil_2|].
       split_and!; [set_solver|done..]. }
  st_run Hr. injection Hrun as <- <-. injection Hr as <- <-. unfold insert_runtime, xstmt in Hrun0.
  set (rid := uuid4 (x_next_uuid db)) in *. cbn [x_runtimes set_xuuid] in Hrun0.
  destruct (x_runtimes db !! rid) eqn:Hnew; [done|]. injection Hrun0 as _ <-.
  apply IH in Hrun1 as ((Hnd & Hin & Hout & He & Hl) & Hlen & Hallow).
  cbn [x_runtimes x_environments x_leases set_runtimes set_xuuid] in Hin, Hout, He, Hl.
  assert (Hni : rid ∉ a1). { intros Hrid. destruct (Hin _ Hrid) as [Hn _]. by rewrite lookup_insert_eq in Hn. }
  split; [|split; [cbn; lia|]].
  - split; [by apply NoDup_cons|]. split_and!; [| |done|done].
    + intros i [->|Hi]%elem_of_cons.
      * split; [done|]. rewrite Hout by done. apply lookup_insert_eq.
      * destruct (Hin _ Hi) as [Hn Hs]. split; [|done]. rewrite lookup_insert_ne in Hn; [done|]. intros <-. done.
    + intros i Hi. apply not_elem_of_cons in Hi as [Hne Hi]. rewrite Hout by done. by rewrite lookup_insert_ne.
  - intros [|i] Hi; [by rewrite Z.add_0_r|]. cbn in Hi.
    replace (n + Z.of_nat (S i)) with (n + 1 + Z.of_nat i) by lia. apply Hallow. lia.
Qed.

Lemma reserve_rows_full k s probe kind profile image total now_ : forall n db ids db',
  (forall i t, host_allows_create s (probe i) t i = Ok true) ->
  reserve_rows k s probe kind profile image total n now_ db = Ok (ids, db') -> length ids = k.
Proof.
  induction k as [|k IH]; intros n db ids db' Hall Hr; cbn [reserve_rows] in Hr; [by injection Hr as <- _|].
  st_run Hr. rewrite Hall in Hrun. injection Hrun as <- <-. cbn [negb] in Hr. st_run Hr.
  injection Hr as <- _. cbn. f_equal. by eapply IH.
Qed.

Lemma reserved_ok kind profile image now_ prov ids db db' :
  reserved (slot kind profile image now_) ids db db' -> ok prov db ->
  ok (list_to_set ids ∪ prov) db' /\ persists db db'.
Proof.
  intros (_ & Hin & Hout & He & Hl) [H1 H2 H3 H4 H5 H6].
  assert (Hat : forall rid r, x_runtimes db' !! rid = Some r ->
            (rid ∈ ids /\ r = slot kind profile image now_) \/ (rid ∉ ids /\ x_runtimes db !! rid = Some r)).
  { intros rid r Hr. destruct (decide (rid ∈ ids)) as [Hi|Hi].
    - left. destruct (Hin _ Hi). split; [done|congruence].
    - right. split; [done|]. by rewrite <- Hout. }
  split.
  - split; rewrite ?He, ?Hl; [done|done| | | |].
    + intros rid r [[_ ->]|[_ Hr]]%Hat; [done|by eapply H3].
    + intros rid r eid [[_ ->]|[_ Hr]]%Hat; [done|by eapply H4].
    + intros rid [Hrid%elem_of_list_to_set|Hrid]%elem_of_union.
      * eexists. split; [by apply Hin|]. done.
      * destruct (H5 _ Hrid) as (r & Hr & Hs). exists r. split; [|done]. rewrite Hout; [done|].
        intros Hi. destruct (Hin _ Hi). congruence.
    + intros i j r q x [[Hi ->]|[_ Hr]]%Hat [[Hj ->]|[_ Hq]]%Hat Hx Hy; [done|done|done|by eapply H6].
  - split; rewrite ?He, ?Hl; [apply persists_refl| |apply persists_refl].
    intros rid r eid Hr Hb. exists r. split_and!; [|done..]. rewrite Hout; [done|].
    intros Hi. destruct (Hin _ Hi). congruence.
Qed.

Lemma refill_rows_ok s probe kind profile image target now_ prov db ids db' :
  refill_reserve s probe kind profile image target now_ db = Ok (ids, db') -> ok prov db ->
  ok (list_to_set ids ∪ prov) db' /\ persists db db'.
Proof.
  intros Hr Hok. unfold refill_reserve in Hr. st_run Hr. injection Hrun0 as <- <-. injection Hrun1 as <- <-.
  injection Hrun2 as <- <-. unfold lift in Hrun3. destruct (refill_count _ _ _ _); [|done]. injection Hrun3 as <- <-.
  apply reserve_rows_reserved in Hr as [Hres _]. destruct (moves_stale prov _ _ _ _ _ Hrun Hok) as [Hok1 Hp].
  destruct (reserved_ok _ _ _ _ _ _ _ _ Hres Hok1) as [Hok2 Hp2]. split; [done|by etrans].
Qed.

Lemma ok_smaller prov prov' db : prov' ⊆ prov -> ok prov db -> ok prov' db.
Proof. intros Hs [H1 H2 H3 H4 H5 H6]. split; [done..| |done]. intros rid Hr. apply H5. set_solver. Qed.

Lemma evolves_created prov rid ext db :
  rid ∈ prov -> evolves prov db (run_tx (record_created rid ext) db).2.
Proof.
  intros Hin Hok. unfold run_tx. destruct (record_created rid ext db) as [[a db']|e] eqn:Hr; [|by apply evolves_refl].
  unfold record_created in Hr. st_run Hr. injection Hrun as <- <-.
  destruct (ok_provisioning _ _ Hok _ Hin) as (r & Hl & Hb & Hs). rewrite Hl in Hr.
  eapply evolves_set_external; [done| |done]. intros q Hq. rewrite Hl in Hq. by injection Hq as <-.
Qed.

Lemma evolves_failed prov rid reason db : evolves prov db (run_tx (record_failed rid reason) db).2.
Proof. moves_run; apply moves_update_runtime. intros r. apply plain_with_failed. Qed.

Lemma evolves_ready prov rid ext now_ db :
  rid ∈ prov -> ok prov db ->
  ok (prov ∖ {[rid]}) (run_tx (record_ready rid ext now_) db).2 /\ persists db (run_tx (record_ready rid ext now_) db).2.
Proof.
  intros Hin Hok. assert (Hok' : ok (prov ∖ {[rid]}) db) by (apply (ok_smaller prov); [set_solver|done]).
  unfold run_tx. destruct (record_ready rid ext now_ db) as [[a db']|e] eqn:Hr; [|by apply evolves_refl].
  unfold record_ready in Hr. st_run Hr. injection Hrun as <- <-.
  destruct (ok_provisioning _ _ Hok _ Hin) as (r & Hl & Hb & Hs). rewrite Hl in Hr.
  case_bool_decide; [|injection Hr as _ <-; by apply evolves_refl].
  eapply evolves_set_external; [done| |done]. intros q Hq. rewrite Hl in Hq. injection Hq as <-.
  split; [done|]. set_solver.
Qed.

Lemma pool_step_ok p p' : pool_step p p' -> ok (p_provisioning p) (p_db p) ->
  ok (p_provisioning p') (p_db p') /\ persists (p_db p) (p_db p').
Proof.
  destruct 1 as [A m Hm|s u r ur|s probe kind profile image target now_ ids db Hr|rid ext Hin|rid reason Hin|rid ext now_ Hin];
    cbn [p_db p_provisioning]; intros Hok.
  - assert (Hrun : evolves (p_provisioning p) (p_db p) (run_tx m (p_db p)).2) by (moves_run; by apply pool_tx_moves).
    by apply Hrun.
  - by apply (evolves_same _ (p_db p)).
  - by eapply refill_rows_ok.
  - by apply evolves_created.
  - destruct (evolves_failed (p_provisioning p) rid reason _ Hok) as [Hok' Hp]. split; [|done].
    apply (ok_smaller (p_provisioning p)); [set_solver|done].
  - by apply evolves_ready.
Qed.

Lemma pool_run_ok p p' : pool_run p p' -> ok (p_provisioning p) (p_db p) ->
  ok (p_provisioning p') (p_db p') /\ persists (p_db p) (p_db p').
Proof.
  induction 1 as [p|p p' p'' _ IH Hs]; intros Hok; [split; [done|apply persists_refl]|].
  destruct (IH Hok) as [Hok' Hp]. destruct (pool_step_ok _ _ Hs Hok') as [Hok'' Hp']. split; [done|by etrans].
Qed.

Lemma reachable_ok p : pool_run new_pool p -> ok (p_provisioning p) (p_db p).
Proof. intros Hr. apply (pool_run_ok _ _ Hr). split; cbn; set_solver. Qed.

(** ** Isolation *)

(** What a command that reached its container had to present. *)
Lemma execute_passed sc lid rid g nonce now_ db a db' :
  execute_gate' sc lid rid g nonce now_ db = Ok (a, db') ->
  exists l r, x_leases db !! lid = Some l /\ x_runtimes db !! rid = Some r /\ lease_in_scope sc l = true
    /\ ls_generation l = rt_generation r /\ rt_generation r = g /\ rt_state r = ASSIGNED
    /\ rt_environment_id r = Some (ls_environment_id l) /\ a = has_container r.
Proof.
  unfold execute_gate. intros Hr. st_run Hr. injection Hrun as <- <-. injection Hrun0 as <- <-.
  destruct (x_leases db !! lid) as [l|]; [|done]. destruct (x_runtimes db !! rid) as [r|]; [|done].
  destruct (lease_in_scope sc l) eqn:Hsc; cbn [negb orb] in Hr; [|done].
  destruct (Z.eqb_spec (ls_generation l) (rt_generation r)) as [Hg|]; cbn [negb orb] in Hr; [|done].
  destruct (Z.eqb_spec (rt_generation r) g) as [Hg'|]; cbn [negb orb] in Hr; [|done].
  case_bool_decide as Hst; cbn [negb orb] in Hr; [|done]. case_bool_decide as Hb; cbn [negb] in Hr; [|done].
  st_run Hr. injection Hrun as <- <-. injection Hrun0 as <- <-. destruct (negb _); [done|].
  st_run Hr. injection Hr as <- _. by exists l, r.
Qed.

Lemma has_container_some r ext : has_container r = Some ext -> rt_external_runtime_id r = Some ext.
Proof. unfold has_container. destruct (rt_external_runtime_id r) as [x|]; [|done]. by destruct (String.eqb x ""). Qed.

Lemma executed sc lid rid g nonce now_ db ext db' :
  execute_claimed claim_nonce_hash sc lid rid g nonce now_ db = (Ok ext, db') ->
  execute_gate' sc lid rid g nonce now_ db = Ok (Some ext, db').
Proof. unfold execute_claimed, run_tx. destruct (execute_gate' _ _ _ _ _ _ _) as [[[x|] d]|e]; by intros [= <- <-]. Qed.

(** The user a command in scope acts for owns the environment of the container it reaches. *)
Lemma executed_owner prov sc lid rid g nonce now_ db ext db' :
  ok prov db -> execute_claimed claim_nonce_hash sc lid rid g nonce now_ db = (Ok ext, db') ->
  exists r eid e, x_runtimes db !! rid = Some r /\ rt_environment_id r = Some eid /\ rt_external_runtime_id r = Some ext
    /\ x_environments db !! eid = Some e /\ en_owner_user_id e = sc_owner_user_id sc.
Proof.
  intros Hok (l & r & Hl & Hr & Hsc & _ & _ & _ & Hb & Hx)%executed%execute_passed.
  destruct (ok_lease _ _ Hok _ _ Hl) as (e & He & Ho). exists r, (ls_environment_id l), e.
  split_and!; [done|done|by apply has_container_some|done|]. rewrite Ho. unfold lease_in_scope in Hsc.
  do 3 apply andb_true_iff in Hsc as [Hsc _]. by apply String.eqb_eq.
Qed.

(** C19: a container serves one user: if a command of one user ever reached a container, every
    command that reaches the same container later, whatever happened in between, is of the
    same user, although slots are pooled and tickets, leases and runtime identifiers come
    from requests. *)
Theorem container_serves_one_user p p' sc sc' lid lid' rid rid' g g' nonce nonce' now_ now' ext db db' :
  pool_run new_pool p -> pool_run p p' ->
  execute_claimed claim_nonce_hash sc lid rid g nonce now_ (p_db p) = (Ok ext, db) ->
  execute_claimed claim_nonce_hash sc' lid' rid' g' nonce' now' (p_db p') = (Ok ext, db') ->
  sc_owner_user_id sc = sc_owner_user_id sc'.
Proof.
  intros Hp%reachable_ok Hrun He He'. destruct (pool_run_ok _ _ Hrun Hp) as [Hp' Hkeep].
  destruct (executed_owner _ _ _ _ _ _ _ _ _ _ Hp He) as (r & eid & e & Hr & Hb & Hx & Henv & <-).
  destruct (executed_owner _ _ _ _ _ _ _ _ _ _ Hp' He') as (q & eid' & f & Hq & Hb' & Hx' & Henv' & <-).
  destruct (keep_runtime _ _ Hkeep _ _ _ Hr Hb) as (r1 & Hr1 & Hb1 & _ & Hx1). rewrite Hx in Hx1.
  assert (rid = rid') as <- by by eapply (ok_external _ _ Hp').
  rewrite Hr1 in Hq. injection Hq as ->. rewrite Hb1 in Hb'. injection Hb' as ->.
  destruct (keep_environment _ _ Hkeep _ _ Henv) as (e1 & He1 & Ho & _). congruence.
Qed.

(** ** Fencing *)






(** ** Capacity *)

Definition in_states (profile : string) (states : list RuntimeState) (r : RuntimeRow) : bool :=
  String.eqb (rt_resource_profile_id r) profile && bool_decide (rt_state r ∈ states).

Lemma count_states_sum profile states db :
  count_states profile states db = map_sum (fun r => if in_states profile states r then 1 else 0) (x_runtimes db).
Proof. apply (map_sum_count (in_states profile states)). Qed.

Lemma count_stale profile states now_ db db' :
  bool_decide (FAILED ∈ states) = false -> fail_stale_creating profile now_ db = Ok ((), db') ->
  count_states profile states db' <= count_states profile states db.
Proof.
  intros Hf [= <-]. rewrite !count_states_sum. cbn [x_runtimes set_runtimes]. rewrite map_sum_fmap.
  apply map_sum_le. intros r. 
  destruct (String.eqb _ profile && _ && _); [|apply Z.le_refl]. unfold in_states. cbn.
  rewrite Hf, andb_false_r. by destruct (_ && _).
Qed.

Lemma reserved_insert r0 ids db db' : reserved r0 ids db db' ->
  x_runtimes db' = foldr (fun rid m => <[rid := r0]> m) (x_runtimes db) ids.
Proof.
  clear claim_nonce_hash. intros (_ & Hin & Hout & _). apply map_eq. intros rid.
  assert (Hfold : forall l, foldr (fun rid m => <[rid := r0]> m) (x_runtimes db) l !! rid
            = if decide (rid ∈ l) then Some r0 else x_runtimes db !! rid).
  { induction l as [|i l IH]; cbn [foldr]; [by rewrite decide_False by set_solver|].
    destruct (decide (i = rid)) as [->|Hne].
    - rewrite lookup_insert_eq. by rewrite decide_True by set_solver.
    - rewrite lookup_insert_ne, IH by done. destruct (decide (rid ∈ l)); [rewrite decide_True by set_solver|
        rewrite decide_False by set_solver]; done. }
  rewrite Hfold. destruct (decide (rid ∈ ids)) as [Hi|Hi]; [by apply Hin|by apply Hout].
Qed.

Lemma count_reserved kind profile image now_ states ids db db' :
  reserved (slot kind profile image now_) ids db db' ->
  count_states profile states db'
  = count_states profile states db + if bool_decide (creating ∈ states) then Z.of_nat (length ids) else 0.
Proof.
  clear claim_nonce_hash. intros Hres. rewrite !count_states_sum. set (f := fun r => if in_states profile states r then 1 else 0).
  rewrite (reserved_insert _ _ _ _ Hres). destruct Hres as (Hnd & Hin & _).
  assert (Hfresh : forall rid, rid ∈ ids -> x_runtimes db !! rid = None) by (intros rid Hi; by apply Hin).
  clear Hin. assert (Hf : f (slot kind profile image now_) = if bool_decide (creating ∈ states) then 1 else 0).
  { unfold f, in_states. cbn. rewrite String.eqb_refl. done. }
  induction ids as [|i l IH]; cbn [foldr length].
  { destruct (bool_decide _); lia. }
  apply NoDup_cons in Hnd as [Hni Hnd]. rewrite map_sum_insert.
  - rewrite IH by (done || intros; apply Hfresh; set_solver). rewrite Hf. destruct (bool_decide _); lia.
  - assert (Hout : forall l', i ∉ l' -> foldr (fun rid m => <[rid := slot kind profile image now_]> m) (x_runtimes db) l' !! i
              = x_runtimes db !! i).
    { induction l' as [|j l' IH']; cbn [foldr]; [done|]. intros Hj. rewrite lookup_insert_ne by set_solver.
      apply IH'. set_solver. }
    rewrite Hout by done. apply Hfresh. set_solver.
Qed.

Lemma host_allows_host s p total k n :
  host_allows_create s p total k = Ok true -> hp_runtime_count p = Some n -> 0 <= n ->
  n + k < Z.max 0 (HOST_RUNTIME_TOTAL_MAX s).
Proof.
  unfold host_allows_create. intros Ha Hn Hpos. rewrite Hn in Ha. cbn in Ha. rewrite (Z.max_r 0 n) in Ha by done.
  destruct (hp_resources p) as [[[m|] [d|]]|].
  - unfold host_capacity_allows_create in Ha. destruct (_ || _); [done|].
    injection Ha as [[Ha _]%andb_true_iff _]%andb_true_iff. apply Z.ltb_lt in Ha. lia.
  - injection Ha as [_ Ha]%andb_true_iff. apply Z.ltb_lt in Ha. lia.
  - injection Ha as [_ Ha]%andb_true_iff. apply Z.ltb_lt in Ha. lia.
  - injection Ha as Ha. apply Z.ltb_lt in Ha. lia.
  - injection Ha as Ha. apply Z.ltb_lt in Ha. lia.
Qed.

(** Refilling the pool keeps every cap and reaches the target: at most [target] slots are
    then ready or being created, the profile occupies no more runtimes than its maximum, the
    host runs no more than its own, unless more were there before; and when the host refuses
    nothing the target or the maximum is reached. *)
Lemma refill_within_caps s probe kind profile image target now_ db ids db' :
  refill_reserve s probe kind profile image target now_ db = Ok (ids, db') ->
  (let supply x := count_states profile [READY_UNBOUND] x + count_states profile [creating] x in
   supply db' <= Z.max target (supply db)
   /\ ((forall n total, host_allows_create s (probe n) total n = Ok true) ->
       target <= supply db' \/ RUNTIME_TOTAL_MAX s <= count_states profile OCCUPYING db'))
  /\ count_states profile OCCUPYING db' <= Z.max (RUNTIME_TOTAL_MAX s) (count_states profile OCCUPYING db)
  /\ (forall n, 0 <= n -> (forall i, hp_runtime_count (probe i) = Some n) ->
      n + Z.of_nat (length ids) <= Z.max n (HOST_RUNTIME_TOTAL_MAX s)).
Proof.
  intros Hr. unfold refill_reserve in Hr. st_run Hr. destruct a. injection Hrun0 as <- <-. injection Hrun1 as <- <-.
  injection Hrun2 as <- <-. unfold lift in Hrun3. set (db1 := s0) in *.
  set (ready := count_states profile [READY_UNBOUND] db1) in *. set (creating_ := count_states profile [creating] db1) in *.
  set (total := count_states profile OCCUPYING db1) in *.
  destruct (refill_count target ready creating_ _) as [deficit|] eqn:Hd; [|done]. injection Hrun3 as <- <-.
  pose proof (count_stale profile [READY_UNBOUND] now_ db db1 eq_refl Hrun) as Hs1.
  pose proof (count_stale profile [creating] now_ db db1 eq_refl Hrun) as Hs2.
  pose proof (count_stale profile OCCUPYING now_ db db1 eq_refl Hrun) as Hs3.
  pose proof Hr as (Hres & Hlen & Hallow)%reserve_rows_reserved.
  pose proof (count_reserved _ profile _ _ [READY_UNBOUND] _ _ _ Hres) as Hc1.
  pose proof (count_reserved _ profile _ _ [creating] _ _ _ Hres) as Hc2.
  pose proof (count_reserved _ profile _ _ OCCUPYING _ _ _ Hres) as Hc3.
  change (bool_decide (creating ∈ [READY_UNBOUND])) with false in Hc1.
  change (bool_decide (creating ∈ [creating])) with true in Hc2.
  change (bool_decide (creating ∈ OCCUPYING)) with true in Hc3.
  fold ready in Hs1, Hc1. fold creating_ in Hs2, Hc2. fold total in Hs3, Hc3. cbn iota in Hc1, Hc2, Hc3.
  unfold refill_count in Hd. destruct (_ || _) in Hd; [done|]. destruct (_ || _) in Hd; [done|]. injection Hd as Hd.
  split; [split|split].
  - lia.
  - intros Hall. assert (Hfull : length ids = Z.to_nat deficit).
    { eapply reserve_rows_full; [|done]. done. }
    lia.
  - lia.
  - intros n Hn Hp. destruct (length ids) as [|k] eqn:Hk; [lia|].
    specialize (Hallow k ltac:(lia)). apply (host_allows_host _ _ _ _ n) in Hallow; [lia|apply Hp|done].
Qed.

(** ** Tickets *)

(** The state a claim leaves: the lease, its environment and the runtime point at each other. *)
Record claimed (sc : SandboxScope) (lid rid nonce : string) (now_ : Z) (db : XDB)
  (eid : string) (e : EnvironmentRow) (l : LeaseRow) (r : RuntimeRow) : Prop := {
  cl_lease : x_leases db !! lid = Some l;
  cl_scope : lease_in_scope sc l = true;
  cl_environment : ls_environment_id l = eid /\ x_environments db !! eid = Some e;
  cl_owner : environment_of (sc_owner_user_id sc) db = Some (eid, e);
  cl_generation : ls_generation l = en_generation e;
  cl_active : en_active_runtime_id e = Some rid;
  cl_runtime : x_runtimes db !! rid = Some r;
  cl_bound : rt_environment_id r = Some eid;
  cl_state : rt_state r = ASSIGNED;
  cl_nonce : rt_claim_nonce_hash r = Some (claim_nonce_hash nonce);
  cl_auth : auth_lifecycle_allows_execution l (x_sessions db !! ls_auth_session_id l) (x_users db !! ls_user_id l)
              (sc_generation sc) (Some (sc_workspace_id sc)) now_ = true;
  cl_expiry : now_ < ls_expires_at l;
}.

Lemma existing_runtime_some eid e db rid :
  existing_runtime eid e db = Some rid ->
  en_active_runtime_id e = Some rid
  /\ exists r, x_runtimes db !! rid = Some r /\ rt_environment_id r = Some eid /\ rt_state r = ASSIGNED.
Proof.
  unfold existing_runtime. destruct (en_active_runtime_id e) as [i|]; cbn; [|done].
  destruct (x_runtimes db !! i) as [r|] eqn:Hr; cbn; [|done]. do 2 case_bool_decide; cbn; [|done..].
  intros [= <-]. eauto.
Qed.

Lemma environment_of_unique prov db' owner eid e :
  ok prov db' -> x_environments db' !! eid = Some e -> en_owner_user_id e = owner ->
  environment_of owner db' = Some (eid, e).
Proof.
  intros Hok He Ho. destruct (environment_of owner db') as [[i f]|] eqn:Hf.
  - apply environment_of_some in Hf as [Hf Hfo]. assert (i = eid) as -> by (eapply (ok_owner _ _ Hok); [done|done|congruence]).
    congruence.
  - by destruct (environment_of_none _ _ _ _ Hf He).
Qed.

(** What [claim_once] checked before it claimed. *)
Lemma claim_once_checks sc lid unlocked now_ db rid nonce db' :
  claim_once' sc lid unlocked now_ db = Ok (Some (rid, nonce), db') ->
  exists l e dbc, x_leases db !! lid = Some l /\ lease_in_scope sc l = true /\ now_ < ls_expires_at l
    /\ auth_lifecycle_allows_execution l (x_sessions db !! ls_auth_session_id l) (x_users db !! ls_user_id l)
         (sc_generation sc) (Some (sc_workspace_id sc)) now_ = true
    /\ x_environments db !! ls_environment_id l = Some e /\ ls_generation l = en_generation e
    /\ claim claim_nonce_hash sc (Some lid) unlocked now_ db = Ok (Some (rid, nonce), dbc)
    /\ db' = set_leases dbc (alter (fun l => lease_bound (Some rid) (ls_generation l) l) lid (x_leases dbc)).
Proof.
  unfold claim_once. intros Hr. st_run Hr. injection Hrun as <- <-. destruct (x_leases db !! lid) as [l|]; [|done].
  destruct (lease_in_scope sc l) eqn:Hsc; cbn [negb orb] in Hr; [|done].
  destruct (Z.leb_spec (ls_expires_at l) now_); [done|]. st_run Hr. injection Hrun as <- <-. injection Hrun0 as <- <-.
  destruct (auth_lifecycle_allows_execution _ _ _ _ _ _) eqn:Hauth; cbn [negb] in Hr; [|done].
  st_run Hr. injection Hrun as <- <-. destruct (x_environments db !! ls_environment_id l) as [e|] eqn:He; [|done].
  destruct (Z.eqb_spec (ls_generation l) (en_generation e)); cbn [negb] in Hr; [|done]. st_run Hr.
  destruct a as [[rid' nonce']|]; [|done]. st_run Hr. injection Hrun0 as _ <-. injection Hr as <- <- <-.
  by exists l, e, s.
Qed.

Lemma claim_once_claimed prov sc lid unlocked now_ db rid nonce db' :
  ok prov db -> claim_once' sc lid unlocked now_ db = Ok (Some (rid, nonce), db') ->
  exists eid e l r, claimed sc lid rid nonce now_ db' eid e l r.
Proof.
  intros Hok Hr. destruct (moves_claim_once _ _ _ _ _ _ _ _ Hr Hok) as [Hok' _].
  apply claim_once_checks in Hr as (l & e & dbc & Hl & Hsc & Hexp & Hauth & He & Hgen & Hc & ->).
  destruct (ok_lease _ _ Hok _ _ Hl) as (e0 & He0 & Ho0). rewrite He in He0. injection He0 as <-.
  assert (Hown : en_owner_user_id e = sc_owner_user_id sc).
  { rewrite Ho0. unfold lease_in_scope in Hsc. do 3 apply andb_true_iff in Hsc as [Hsc _]. by apply String.eqb_eq. }
  pose proof (environment_of_unique _ _ _ _ _ Hok He Hown) as Hof.
  assert (Hdbc : exists e' r, x_leases dbc = x_leases db /\ x_sessions dbc = x_sessions db /\ x_users dbc = x_users db
    /\ x_environments dbc !! ls_environment_id l = Some e' /\ en_owner_user_id e' = en_owner_user_id e
    /\ en_generation e' = en_generation e /\ en_active_runtime_id e' = Some rid /\ x_runtimes dbc !! rid = Some r
    /\ rt_environment_id r = Some (ls_environment_id l) /\ rt_state r = ASSIGNED
    /\ rt_claim_nonce_hash r = Some (claim_nonce_hash nonce)).
  { apply claim_cases in Hc as (eid & f & Hf & Hcase). rewrite Hof in Hf. injection Hf as <- <-.
    destruct Hcase as [[(Hact & r & Hr & Hb & Hst)%existing_runtime_some ->]|(Hno & Hpick & db1 & -> & ->)].
    - exists e, (with_nonce (Some (claim_nonce_hash nonce)) r). cbn. rewrite lookup_alter_eq, Hr. done.
    - apply fmap_Some in Hpick as Hp. destruct Hp as (kv & Hkv & ->). apply head_Some_elem_of in Hkv.
      rewrite sort_by_perm in Hkv. apply list_elem_of_In, filter_In in Hkv as [Hin _].
      apply list_elem_of_In in Hin. destruct kv as [k q]. apply elem_of_map_to_list in Hin.
      exists (with_active (Some k) e), (bound_to (ls_environment_id l) (en_generation e) (claim_nonce_hash nonce) q).
      cbn. rewrite !lookup_alter_eq, He, Hin. done. }
  destruct Hdbc as (e' & r & Hls & Hss & Hus & He' & Ho & Hg & Hact & Hrt & Hb & Hst & Hn).
  set (db' := set_leases dbc _) in *. exists (ls_environment_id l), e', (lease_bound (Some rid) (ls_generation l) l), r.
  split; cbn [x_leases x_runtimes x_environments x_sessions x_users set_leases db'];
    rewrite ?Hss, ?Hus; try done.
  - by rewrite Hls, lookup_alter_eq, Hl.
  - eapply environment_of_unique; [done|done|congruence].
  - cbn. congruence.
Qed.

(** A claim hands out exactly one working ticket: right after a claim of a runtime of the
    lease's generation, a command of that lease is let through if and only if it carries that
    generation and the nonce of this claim, so every earlier ticket is void; the nonce is then
    spent, and a ticket without one is accepted until the next claim. *)
Lemma claim_ticket_works p sc lid unlocked now_ rid nonce db :
  pool_run new_pool p -> claim_once' sc lid unlocked now_ (p_db p) = Ok (Some (rid, nonce), db) ->
  exists l r, x_leases db !! lid = Some l /\ x_runtimes db !! rid = Some r /\
    (ls_generation l = rt_generation r ->
     let db1 := set_runtimes db (alter (with_nonce None) rid (x_runtimes db)) in
     (forall g nonce', execute_gate' sc lid rid g nonce' now_ db
        = if (rt_generation r =? g)
             && match nonce' with Some n => validate_claim_nonce claim_nonce_hash (claim_nonce_hash nonce) n | None => false end
          then Ok (has_container r, db1) else Err PermissionError)
     /\ execute_gate' sc lid rid (rt_generation r) None now_ db1 = Ok (has_container r, db1)).
Proof.
  intros Hp%reachable_ok Hc. apply (claim_once_claimed _ _ _ _ _ _ _ _ _ Hp) in Hc as (eid & e & l & r & Hcl).
  destruct Hcl as [Hl Hsc [Hle He] _ _ _ Hr Hb Hst Hn Hauth _]. exists l, r. do 2 (split; [done|]).
  intros Hg db1. split.
  - intros g nonce'. unfold execute_gate, get_lease, get_runtime, gets, mbind, st_bind. rewrite Hl, Hr, Hsc, Hg, Z.eqb_refl.
    cbn [negb orb]. destruct (rt_generation r =? g); [|done]. cbn [negb orb andb].
    rewrite Hst, Hb, Hle, !bool_decide_eq_true_2 by done. cbn [negb orb]. rewrite Hauth, Hn. cbn [negb].
    destruct nonce' as [n|]; [|done]. by destruct (validate_claim_nonce _ _ n).
  - unfold execute_gate, get_lease, get_runtime, gets, mbind, st_bind. unfold db1.
    cbn [x_leases x_runtimes x_sessions x_users set_runtimes]. rewrite Hl, lookup_alter_eq, Hr. cbn [fmap option_fmap option_map].
    rewrite Hsc. cbn [rt_generation rt_state rt_environment_id rt_claim_nonce_hash with_nonce runtime_with].
    rewrite Hg, !Z.eqb_refl, Hst, Hb, Hle, !bool_decide_eq_true_2 by done. cbn [negb orb].
    cbn [x_sessions x_users set_runtimes]. rewrite Hauth. done.
Qed.

Lemma lease_live_allowed db now_ l g w :
  auth_lifecycle_allows_execution l (x_sessions db !! ls_auth_session_id l) (x_users db !! ls_user_id l) g (Some w) now_ = true ->
  active l = true -> lease_live db now_ l = true.
Proof.
  unfold auth_lifecycle_allows_execution, lease_live, active. intros Ha ->.
  destruct (x_sessions db !! _) as [s|]; [|done]. destruct (x_users db !! _) as [u|]; [|done].
  apply andb_true_iff in Ha as [[[[[[[[[_ _]%andb_true_iff _]%andb_true_iff ->]%andb_true_iff ->]%andb_true_iff
    ->]%andb_true_iff ->]%andb_true_iff _]%andb_true_iff ->]%andb_true_iff ->]. done.
Qed.

Lemma scope_active sc l : lease_in_scope sc l = true -> active l = true.
Proof. unfold lease_in_scope. by intros [_ Ha]%andb_true_iff. Qed.

(** A claim that finds the environment bound answers the same runtime again. *)
Lemma claimed_again sc lid rid nonce now_ db eid e l r unlocked :
  claimed sc lid rid nonce now_ db eid e l r ->
  exists nonce' db', claim_once' sc lid unlocked now_ db = Ok (Some (rid, nonce'), db').
Proof.
  intros [Hl Hsc [Hle He] Hof Hgen Hact Hr Hb Hst Hn Hauth Hexp]. unfold claim_once, claim.
  unfold get_lease, get_environment, gets, mbind, st_bind. rewrite Hl, Hsc. cbn [negb orb].
  destruct (Z.leb_spec (ls_expires_at l) now_); [lia|]. rewrite Hauth. cbn [negb]. rewrite Hle, He, Hgen, Z.eqb_refl.
  cbn [negb]. rewrite Hof. unfold existing_runtime. rewrite Hact. cbn [mbind option_bind]. rewrite Hr. cbn [mbind option_bind].
  rewrite Hb, Hst, !bool_decide_eq_true_2 by done. cbn. eexists _, _. reflexivity.
Qed.

(** A runtime whose generation is behind locks its user out: when a claim answers a runtime
    of an older generation than the lease (the authorisation version outran the environment's
    generation while the runtime was assigned), no command, reset, interrupt or usage query of
    the lease on it is let through, claiming again answers the same runtime, and the
    reconciler does not collect it. *)
Lemma stale_generation_locks_out p sc lid unlocked now_ rid nonce db l r :
  pool_run new_pool p -> claim_once' sc lid unlocked now_ (p_db p) = Ok (Some (rid, nonce), db) ->
  x_leases db !! lid = Some l -> x_runtimes db !! rid = Some r -> ls_generation l <> rt_generation r ->
  (forall sc' g nonce' now', execute_gate' sc' lid rid g nonce' now' db = Err PermissionError)
  /\ (forall sc' g now', control_gate sc' lid rid g now' db = Err PermissionError)
  /\ (forall unlocked', exists nonce' db', claim_once' sc lid unlocked' now_ db = Ok (Some (rid, nonce'), db'))
  /\ rid ∉ unleased_runtimes now_ db.
Proof.
  intros Hp%reachable_ok Hc Hl Hr Hne. apply (claim_once_claimed _ _ _ _ _ _ _ _ _ Hp) in Hc as (eid & e & l0 & r0 & Hcl).
  pose proof (cl_lease _ _ _ _ _ _ _ _ _ _ Hcl) as Hl0. rewrite Hl in Hl0. injection Hl0 as <-.
  pose proof (cl_runtime _ _ _ _ _ _ _ _ _ _ Hcl) as Hr0. rewrite Hr in Hr0. injection Hr0 as <-.
  apply Z.eqb_neq in Hne as Hb. split; [|split; [|split]].
  - intros sc' g nonce' now'. unfold execute_gate, get_lease, get_runtime, gets, mbind, st_bind. rewrite Hl, Hr, Hb.
    by rewrite orb_true_r.
  - intros sc' g now'. unfold control_gate, get_lease, get_runtime, gets, mbind, st_bind, option_bind. rewrite Hl, Hr.
    unfold runtime_control_allows. rewrite Hb, !andb_false_r. done.
  - intros unlocked'. by eapply claimed_again.
  - intros (kv & -> & Hin)%list_elem_of_fmap. apply list_elem_of_In, filter_In in Hin as [Hin Hf].
    apply list_elem_of_In in Hin. destruct kv as [k q]. apply elem_of_map_to_list in Hin. cbn [fst snd] in *.
    rewrite Hr in Hin. injection Hin as <-. apply andb_true_iff in Hf as [_ Hf]. apply negb_true_iff in Hf.
    eapply (existsb_false_elem _ _ (lid, l)) in Hf; [|by apply elem_of_map_to_list].
    cbn [snd] in Hf. apply andb_false_iff in Hf as [Hf|Hf].
    + apply bool_decide_eq_false in Hf. apply Hf. destruct (cl_environment _ _ _ _ _ _ _ _ _ _ Hcl) as [-> _].
      by apply (cl_bound _ _ _ _ _ _ _ _ _ _ Hcl).
    + rewrite (lease_live_allowed _ _ _ _ _ (cl_auth _ _ _ _ _ _ _ _ _ _ Hcl)) in Hf; [done|].
      eapply scope_active, (cl_scope _ _ _ _ _ _ _ _ _ _ Hcl).
Qed.
End safety.

(** ** A small deployment: one slot, one user, two sessions *)

#[local] Instance sandbox_uuids : Uuids := {| uuid4 n := pretty n; uuid5_url s := s |}.

Module SandboxExample.
Definition hash (nonce : string) : string := "h:" +:+ nonce.
Definition settings : SandboxSettings :=
  {| RUNTIME_TOTAL_MAX := 4; HOST_RUNTIME_TOTAL_MAX := 8; HOST_MEMORY_RESERVE_MB := 512; HOST_DISK_RESERVE_GB := 2;
     RUNTIME_MEMORY_MB := 768 |}.
Definition probe (i : Z) : HostProbe := {| hp_runtime_count := Some 2; hp_resources := None |}.
Definition session (version : Z) : SessionRow :=
  {| se_user_id := "u"; se_workspace_id := "w"; se_authorization_version := version; se_expires_at := 1000;
     se_revoked_at := None |}.
Definition scope (s : string) (version : Z) : SandboxScope :=
  {| sc_owner_user_id := "u"; sc_auth_session_id := s; sc_workspace_id := "w"; sc_generation := version;
     sc_lease_expires_at := 1000 |}.
Definition logged_in (version : Z) (s : gmap string SessionRow) (db : XDB) : XDB :=
  set_identity db s {["u" := {| us_authorization_version := version; us_status := "active"; us_deleted_at := None |}]} ∅ [].
Definition all (rid : string) : bool := true.

Definition on (m : Pool -> XDB) (p : Pool) : Pool := {| p_db := m p; p_provisioning := p_provisioning p |}.
Definition tx {A} (m : Xtx A) : Pool -> Pool := on (fun p => (run_tx m (p_db p)).2).

Definition p1 : Pool := on (fun p => logged_in 1 {["s1" := session 1]} (p_db p)) new_pool.
Definition refilled : list string * XDB :=
  match refill_reserve settings probe "docker" "python-base" None 1 0 (p_db p1) with Ok x => x | Err _ => ([], p_db p1) end.
Definition p2 : Pool := {| p_db := refilled.2; p_provisioning := list_to_set refilled.1 ∪ p_provisioning p1 |}.
Definition p3 : Pool := {| p_db := (run_tx (record_ready "0" "box" 1) (p_db p2)).2; p_provisioning := p_provisioning p2 ∖ {["0"]} |}.
Definition p4 : Pool := tx (ensure_current_lease (scope "s1" 1) 2) p3.
Definition p5 : Pool := tx (claim_once hash (scope "s1" 1) "2" all 3) p4.
Definition p6 : Pool := on (fun p => logged_in 2 {["s1" := session 1; "s2" := session 2]} (p_db p)) p5.
Definition p7 : Pool := tx (ensure_current_lease (scope "s2" 2) 4) p6.

Lemma p4_reachable : pool_run hash new_pool p4.
Proof.
  eapply pool_more; [|apply (pool_run_tx hash p3), tx_ensure_lease].
  eapply pool_more; [|apply (pool_ready hash p2); vm_compute; reflexivity].
  eapply pool_more; [|apply (pool_refill hash p1 settings probe "docker" "python-base" None 1 0 refilled.1 refilled.2);
    vm_compute; reflexivity].
  eapply pool_more; [|apply (pool_identity hash new_pool)]. apply pool_here.
Qed.

Lemma p5_reachable : pool_run hash new_pool p5.
Proof. eapply pool_more; [apply p4_reachable|apply (pool_run_tx hash p4), tx_claim]. Qed.

Lemma p7_reachable : pool_run hash new_pool p7.
Proof.
  eapply pool_more; [|apply (pool_run_tx hash p6), tx_ensure_lease].
  eapply pool_more; [apply p5_reachable|apply (pool_identity hash p5)].
Qed.
End SandboxExample.

Lemma container_serves_one_user_witness :
  sc_owner_user_id (SandboxExample.scope "s1" 1) = sc_owner_user_id (SandboxExample.scope "s1" 1).
Proof.
  apply (container_serves_one_user SandboxExample.hash SandboxExample.p5 SandboxExample.p5 _ _ "2" "2" "0" "0" 1 1
    (Some "3") (Some "3") 5 6 "box"
    (execute_claimed SandboxExample.hash (SandboxExample.scope "s1" 1) "2" "0" 1 (Some "3") 5 (p_db SandboxExample.p5)).2
    (execute_claimed SandboxExample.hash (SandboxExample.scope "s1" 1) "2" "0" 1 (Some "3") 6 (p_db SandboxExample.p5)).2).
  - apply SandboxExample.p5_reachable.
  - apply pool_here.
  - vm_compute. reflexivity.
  - vm_compute. reflexivity.
Defined.




