(* ===== verification/GatewayTurns.v ===== *)
(** * GatewayTurns: Turns and their event log in the SQLite repository

    The operations of [GatewayRepository] ([gateway/repository.py]) on [gateway_turns] and
    [gateway_events]: idempotent creation, status changes, the numbered event log with its
    cursors, retention, restart recovery and the reads.  [now_] is the clock a method reads. *)
From S2P Require Import Prelude Clock Json.
Local Open Scope Z_scope.

(** * the SQLite tables of the Gateway repository

    The tables [gateway_turns] and [gateway_events] of [gateway/repository.py], the records read
    out of them and the classification of statuses and event types.  The repository holds one lock and one connection, so its methods
    run one after another; [with self._conn] commits on return and rolls back on an exception.
    Timestamps are instants in microseconds.  The columns hold their [isoformat] texts in UTC,
    which [prune_events] compares as texts; the order is that of the instants, since the fields
    have fixed widths and a text without microseconds goes on with a plus sign, below the dot. *)

Inductive TurnStatus := ACCEPTED | RUNNING | COMPLETED | FAILED | CANCELLED | INTERRUPTED.

#[export] Instance TurnStatus_eq_dec : EqDecision TurnStatus.
Proof. solve_decision. Defined.

Inductive GatewayEventType :=
| TURN_ACCEPTED | TURN_STARTED | TURN_HANDOVER | TURN_COMPLETED | TURN_FAILED | TURN_CANCELLED
| MESSAGE_DELTA | MESSAGE_COMPLETED | MESSAGE_INJECTED
| TOOL_STARTED | TOOL_COMPLETED | TOOL_FAILED | WORKER_UPDATE | GAP.

#[export] Instance GatewayEventType_eq_dec : EqDecision GatewayEventType.
Proof. solve_decision. Defined.

(** A row of [gateway_turns]; the learning columns hold JSON texts. *)
Record GTurnRow := {
  gt_session_id : string;
  gt_workspace_id : string;
  gt_user_id : string;
  gt_status : TurnStatus;
  gt_input_text : string;
  gt_learning_context : option string;
  gt_learning_progress : option string;
  gt_guided_session_id : option string;
  gt_guided_blueprint_id : option string;
  gt_guided_sha256 : option string;
  gt_guided_attempts : option Z;
  gt_guided_status : option string;
  gt_exercise_state : option string;
  gt_final_text : option string;
  gt_error_kind : option string;
  gt_error_message : option string;
  gt_idempotency_key : option string;
  gt_created_at : Z;
  gt_started_at : option Z;
  gt_completed_at : option Z;
}.

(** A row of [gateway_events]. *)
Record GEventRow := {
  ge_event_id : string;
  ge_turn_id : string;
  ge_session_id : string;
  ge_sequence : Z;
  ge_event_type : GatewayEventType;
  ge_created_at : Z;
  ge_payload : json;
}.

#[export] Instance GEventRow_eq_dec : EqDecision GEventRow.
Proof. solve_decision. Defined.

Record GDB := {
  g_turns : gmap string GTurnRow;
  g_events : list GEventRow;
  g_next_uuid : nat;
}.

Inductive GatewayError :=
| GKeyError
| GIntegrityError
| GValueError
| GFileNotFoundError
| RevisionConflictError
| GPermissionError
| GResourceNotFoundError.

Abbreviation Gtx := (ST GDB GatewayError).

Definition set_gturns (db : GDB) (m : gmap string GTurnRow) : GDB :=
  {| g_turns := m; g_events := g_events db; g_next_uuid := g_next_uuid db |}.
Definition set_gevents (db : GDB) (l : list GEventRow) : GDB :=
  {| g_turns := g_turns db; g_events := l; g_next_uuid := g_next_uuid db |}.
Definition set_guuid (db : GDB) (n : nat) : GDB :=
  {| g_turns := g_turns db; g_events := g_events db; g_next_uuid := n |}.

(** What [_turn] reads out of a row. *)
Record GuidedSessionRef := {
  gr_id : string;
  gr_blueprint_id : option string;
  gr_blueprint_snapshot_sha256 : option string;
  gr_attempts : Z;
  gr_status : string;
}.

Record TurnRecord := {
  tr_turn_id : string;
  tr_session_id : string;
  tr_workspace_id : string;
  tr_user_id : string;
  tr_status : TurnStatus;
  tr_input_text : string;
  tr_learning_context : option string;
  tr_learning_progress : option string;
  tr_guided_session : option GuidedSessionRef;
  tr_exercise_state : option string;
  tr_final_text : option string;
  tr_error_kind : option string;
  tr_error_message : option string;
  tr_created_at : Z;
  tr_started_at : option Z;
  tr_completed_at : option Z;
}.

(** A text column that is neither NULL nor empty. *)
Definition truthy (o : option string) : option string :=
  match o with Some EmptyString => None | _ => o end.

(** [_turn]. *)
Definition turn_record (turn_id : string) (t : GTurnRow) : TurnRecord :=
  {| tr_turn_id := turn_id; tr_session_id := gt_session_id t; tr_workspace_id := gt_workspace_id t;
     tr_user_id := gt_user_id t; tr_status := gt_status t; tr_input_text := gt_input_text t;
     tr_learning_context := truthy (gt_learning_context t);
     tr_learning_progress := truthy (gt_learning_progress t);
     tr_guided_session :=
       (fun id => {| gr_id := id; gr_blueprint_id := gt_guided_blueprint_id t;
                     gr_blueprint_snapshot_sha256 := gt_guided_sha256 t;
                     gr_attempts := default 0 (gt_guided_attempts t);
                     gr_status := default "active" (truthy (gt_guided_status t)) |})
       <$> truthy (gt_guided_session_id t);
     tr_exercise_state := truthy (gt_exercise_state t); tr_final_text := gt_final_text t;
     tr_error_kind := gt_error_kind t; tr_error_message := gt_error_message t;
     tr_created_at := gt_created_at t; tr_started_at := gt_started_at t; tr_completed_at := gt_completed_at t |}.

(** ** Statuses and event types *)

Definition terminal (s : TurnStatus) : bool :=
  match s with ACCEPTED | RUNNING => false | _ => true end.

(** The events [prune_events] keeps, and those that end a stream. *)
Definition retained_type (ty : GatewayEventType) : bool :=
  match ty with MESSAGE_COMPLETED | TURN_COMPLETED | TURN_FAILED | TURN_CANCELLED => true | _ => false end.
Definition terminal_type (ty : GatewayEventType) : bool :=
  match ty with TURN_COMPLETED | TURN_FAILED | TURN_CANCELLED => true | _ => false end.

(** ** Assignments to a row *)

(** The columns [update_turn] writes. *)
Definition status_updated (status : TurnStatus) (final_text error_kind error_message exercise_state : option string)
  (now_ : Z) (t : GTurnRow) : GTurnRow :=
  {| gt_session_id := gt_session_id t; gt_workspace_id := gt_workspace_id t; gt_user_id := gt_user_id t;
     gt_status := status; gt_input_text := gt_input_text t; gt_learning_context := gt_learning_context t;
     gt_learning_progress := gt_learning_progress t; gt_guided_session_id := gt_guided_session_id t;
     gt_guided_blueprint_id := gt_guided_blueprint_id t; gt_guided_sha256 := gt_guided_sha256 t;
     gt_guided_attempts := gt_guided_attempts t; gt_guided_status := gt_guided_status t;
     gt_exercise_state := match exercise_state with Some e => Some e | None => gt_exercise_state t end;
     gt_final_text := final_text; gt_error_kind := error_kind;
     gt_error_message := str_take 1000 <$> truthy error_message;
     gt_idempotency_key := gt_idempotency_key t; gt_created_at := gt_created_at t;
     gt_started_at := match status with ACCEPTED => None | RUNNING => Some now_ | _ => gt_started_at t end;
     gt_completed_at := match status with
                        | ACCEPTED => None
                        | RUNNING => gt_completed_at t
                        | _ => Some now_
                        end |}.

Definition guided_status_updated (status : string) (t : GTurnRow) : GTurnRow :=
  {| gt_session_id := gt_session_id t; gt_workspace_id := gt_workspace_id t; gt_user_id := gt_user_id t;
     gt_status := gt_status t; gt_input_text := gt_input_text t; gt_learning_context := gt_learning_context t;
     gt_learning_progress := gt_learning_progress t; gt_guided_session_id := gt_guided_session_id t;
     gt_guided_blueprint_id := gt_guided_blueprint_id t; gt_guided_sha256 := gt_guided_sha256 t;
     gt_guided_attempts := gt_guided_attempts t; gt_guided_status := Some status;
     gt_exercise_state := gt_exercise_state t; gt_final_text := gt_final_text t;
     gt_error_kind := gt_error_kind t; gt_error_message := gt_error_message t;
     gt_idempotency_key := gt_idempotency_key t; gt_created_at := gt_created_at t;
     gt_started_at := gt_started_at t; gt_completed_at := gt_completed_at t |}.

(** The arguments of [create_turn]. *)
Record NewTurn := {
  nt_turn_id : string;
  nt_session_id : string;
  nt_workspace_id : string;
  nt_user_id : string;
  nt_input_text : string;
  nt_idempotency_key : option string;
  nt_learning_context : option string;
  nt_learning_progress : option string;
  nt_guided_session_id : option string;
  nt_guided_blueprint_id : option string;
  nt_guided_sha256 : option string;
  nt_guided_attempts : option Z;
  nt_guided_status : option string;
  nt_exercise_state : option string;
}.

(** The row [create_turn] inserts. *)
Definition new_row (n : NewTurn) (now_ : Z) : GTurnRow :=
  {| gt_session_id := nt_session_id n; gt_workspace_id := nt_workspace_id n; gt_user_id := nt_user_id n;
     gt_status := ACCEPTED; gt_input_text := nt_input_text n; gt_learning_context := nt_learning_context n;
     gt_learning_progress := nt_learning_progress n; gt_guided_session_id := nt_guided_session_id n;
     gt_guided_blueprint_id := nt_guided_blueprint_id n; gt_guided_sha256 := nt_guided_sha256 n;
     gt_guided_attempts := nt_guided_attempts n; gt_guided_status := nt_guided_status n;
     gt_exercise_state := nt_exercise_state n; gt_final_text := None; gt_error_kind := None;
     gt_error_message := None; gt_idempotency_key := nt_idempotency_key n; gt_created_at := now_;
     gt_started_at := None; gt_completed_at := None |}.

(** ** Reads *)

(** [WHERE user_id=? AND session_id=? AND idempotency_key=?]. *)
Definition has_key (user_id session_id key : string) (kv : string * GTurnRow) : bool :=
  String.eqb (gt_user_id kv.2) user_id && String.eqb (gt_session_id kv.2) session_id
  && bool_decide (gt_idempotency_key kv.2 = Some key).

Definition find_key (user_id session_id key : string) (db : GDB) : option (string * GTurnRow) :=
  List.find (has_key user_id session_id key) (map_to_list (g_turns db)).

(** [turn_for_idempotency], [get_turn]. *)
Definition turn_for_idempotency (user_id session_id key : string) (db : GDB) : option TurnRecord :=
  (fun kv : string * GTurnRow => turn_record kv.1 kv.2) <$> find_key user_id session_id key db.

Definition get_turn (turn_id : string) (db : GDB) : option TurnRecord :=
  turn_record turn_id <$> g_turns db !! turn_id.

(** [ORDER BY created_at DESC]. *)
Definition newest_first (l : list (string * GTurnRow)) : list (string * GTurnRow) :=
  sort_by (fun a b => gt_created_at b.2 <=? gt_created_at a.2) l.

(** [active_turn_for_session]. *)
Definition active_turn_for_session (session_id : string) (exclude : option string) (db : GDB) : option TurnRecord :=
  (fun kv : string * GTurnRow => turn_record kv.1 kv.2) <$>
  head (newest_first
    (List.filter (fun kv : string * GTurnRow =>
        String.eqb (gt_session_id kv.2) session_id && negb (terminal (gt_status kv.2))
        && match truthy exclude with Some t => negb (String.eqb kv.1 t) | None => true end)
      (map_to_list (g_turns db)))).

(** [list_turns]. *)
Definition list_turns (session_id : string) (limit : Z) (db : GDB) : list TurnRecord :=
  (fun kv : string * GTurnRow => turn_record kv.1 kv.2) <$>
  take (Z.to_nat (Z.min (Z.max 1 limit) 500))
    (newest_first (List.filter (fun kv : string * GTurnRow => String.eqb (gt_session_id kv.2) session_id)
                     (map_to_list (g_turns db)))).

(** [latest_learning_state]: the newest Turn that was not refused for a conflict;
    [error_kind='turn_conflict'] is not true of NULL, so [NOT (...)] keeps such rows only when
    their status differs. *)
Definition counts_for_learning (t : GTurnRow) : bool :=
  match gt_error_kind t with
  | Some k => negb (bool_decide (gt_status t = FAILED) && String.eqb k "turn_conflict")
  | None => negb (bool_decide (gt_status t = FAILED))
  end.

Definition latest_learning_state (session_id : string) (db : GDB)
  : option string * option string * option string :=
  match head (newest_first (List.filter (fun kv : string * GTurnRow =>
                 String.eqb (gt_session_id kv.2) session_id && counts_for_learning kv.2)
               (map_to_list (g_turns db)))) with
  | None => (None, None, None)
  | Some (id, t) => let r := turn_record id t in
                    (tr_learning_context r, tr_learning_progress r, tr_exercise_state r)
  end.

(** The log of one Turn. *)
Definition of_turn (turn_id : string) (e : GEventRow) : bool := String.eqb (ge_turn_id e) turn_id.
Definition events_of (turn_id : string) (db : GDB) : list GEventRow := List.filter (of_turn turn_id) (g_events db).

(** [ORDER BY sequence]. *)
Definition by_sequence (l : list GEventRow) : list GEventRow :=
  sort_by (fun a b => ge_sequence a <=? ge_sequence b) l.

(** [latest_event_sequence]. *)
Definition latest_event_sequence (turn_id : string) (db : GDB) : Z :=
  list_maxZ 0 (ge_sequence <$> events_of turn_id db).

(** [events_after]. *)
Definition events_after (turn_id : string) (after_sequence limit : Z) (db : GDB) : list GEventRow :=
  take (Z.to_nat (Z.min (Z.max 1 limit) 2000))
    (by_sequence (List.filter (fun e => Z.max 0 after_sequence <? ge_sequence e) (events_of turn_id db))).

(** [health]. *)
Definition durable_events (db : GDB) : Z := Z.of_nat (length (g_events db)).

(** ** Statements *)

Definition gstmt {A} (f : GDB -> result GatewayError (A * GDB)) : Gtx A := f.

(** [INSERT INTO gateway_turns]: the primary key, and the unique key, which NULL never meets. *)
Definition insert_turn (turn_id : string) (t : GTurnRow) : Gtx () := gstmt (fun db =>
  match g_turns db !! turn_id with
  | Some _ => Err GIntegrityError
  | None =>
      match gt_idempotency_key t with
      | Some k => match find_key (gt_user_id t) (gt_session_id t) k db with
                  | Some _ => Err GIntegrityError
                  | None => Ok ((), set_gturns db (<[turn_id := t]> (g_turns db)))
                  end
      | None => Ok ((), set_gturns db (<[turn_id := t]> (g_turns db)))
      end
  end).

Definition update_row (turn_id : string) (f : GTurnRow -> GTurnRow) : Gtx () :=
  modify (fun db => set_gturns db (alter f turn_id (g_turns db))).

(** [INSERT INTO gateway_events]: the primary key, [UNIQUE(turn_id, sequence)] and the foreign key. *)
Definition insert_event (e : GEventRow) : Gtx () := gstmt (fun db =>
  if existsb (fun x => String.eqb (ge_event_id x) (ge_event_id e)) (g_events db)
     || existsb (fun x => of_turn (ge_turn_id e) x && (ge_sequence x =? ge_sequence e)) (g_events db)
  then Err GIntegrityError
  else match g_turns db !! ge_turn_id e with
       | None => Err GIntegrityError
       | Some _ => Ok ((), set_gevents db (g_events db ++ [e]))
       end).

(** [DELETE FROM gateway_events WHERE ...] answers the number of rows. *)
Definition delete_events (p : GEventRow -> bool) : Gtx Z := gstmt (fun db =>
  Ok (Z.of_nat (length (List.filter p (g_events db))),
      set_gevents db (List.filter (fun e => negb (p e)) (g_events db)))).

Section gateway_turns.
Context `{Uuids}.

Definition gateway_uuid : Gtx string := fun db => Ok (uuid4 (g_next_uuid db), set_guuid db (S (g_next_uuid db))).

(** ** Operations *)

(** [create_turn]: the record, and whether it existed before. *)
Definition create_turn (n : NewTurn) (now_ : Z) : Gtx (TurnRecord * bool) :=
  existing ← gets (fun db => match truthy (nt_idempotency_key n) with
                             | Some k => find_key (nt_user_id n) (nt_session_id n) k db
                             | None => None
                             end);
  match existing with
  | Some (id, t) => mret (turn_record id t, true)
  | None =>
      _ ← insert_turn (nt_turn_id n) (new_row n now_);
      row ← gets (fun db => g_turns db !! nt_turn_id n);
      match row with
      | Some t => mret (turn_record (nt_turn_id n) t, false)
      | None => raise GKeyError
      end
  end.

(** A failed dispatch may be retried. *)
Definition retrying_dispatch_failure (current : GTurnRow) (status : TurnStatus) : bool :=
  bool_decide (gt_status current = FAILED) && bool_decide (gt_error_kind current = Some "dispatch_failed")
  && bool_decide (status = ACCEPTED).

(** [update_turn]. *)
Definition update_turn (turn_id : string) (status : TurnStatus)
  (final_text error_kind error_message exercise_state : option string) (now_ : Z) : Gtx TurnRecord :=
  row ← gets (fun db => g_turns db !! turn_id);
  match row with
  | None => raise GKeyError
  | Some current =>
      if terminal (gt_status current) && negb (bool_decide (gt_status current = status))
         && negb (retrying_dispatch_failure current status)
      then mret (turn_record turn_id current)
      else
        _ ← update_row turn_id (status_updated status final_text error_kind error_message exercise_state now_);
        row ← gets (fun db => g_turns db !! turn_id);
        match row with
        | Some t => mret (turn_record turn_id t)
        | None => raise GKeyError
        end
  end.

(** [update_turn_guided_status]. *)
Definition update_turn_guided_status (turn_id status : string) : Gtx () :=
  update_row turn_id (guided_status_updated status).

(** [append_event]. *)
Definition append_event (turn_id session_id : string) (event_type : GatewayEventType) (payload : json) (now_ : Z)
  : Gtx GEventRow :=
  sequence ← gets (fun db => latest_event_sequence turn_id db + 1);
  event_id ← gateway_uuid;
  let e := {| ge_event_id := event_id; ge_turn_id := turn_id; ge_session_id := session_id;
              ge_sequence := sequence; ge_event_type := event_type; ge_created_at := now_;
              ge_payload := payload |} in
  _ ← insert_event e;
  mret e.

(** [ensure_event]. *)
Definition ensure_event (turn_id session_id : string) (event_type : GatewayEventType) (payload : json) (now_ : Z)
  : Gtx GEventRow :=
  found ← gets (fun db => head (by_sequence
             (List.filter (fun e => bool_decide (ge_event_type e = event_type)) (events_of turn_id db))));
  match found with
  | Some e => mret e
  | None => append_event turn_id session_id event_type payload now_
  end.

(** The Turn of an event is in a terminal status. *)
Definition of_terminal_turn (db : GDB) (e : GEventRow) : bool :=
  match g_turns db !! ge_turn_id e with Some t => terminal (gt_status t) | None => false end.

(** The streaming events [prune_events] compacts. *)
Definition compactable (cutoff : Z) (db : GDB) (e : GEventRow) : bool :=
  (ge_created_at e <? cutoff) && negb (retained_type (ge_event_type e)) && of_terminal_turn db e.

(** [ORDER BY e.created_at DESC, e.sequence DESC, e.event_id DESC]. *)
Definition newer_event (a b : GEventRow) : bool :=
  (ge_created_at b <? ge_created_at a)
  || ((ge_created_at b =? ge_created_at a)
      && ((ge_sequence b <? ge_sequence a)
          || ((ge_sequence b =? ge_sequence a) && string_leb (ge_event_id b) (ge_event_id a)))).

(** The identifiers beyond the newest [n] of a session. *)
Definition beyond_cap (n : nat) (session_id : string) (db : GDB) : list string :=
  ge_event_id <$>
  drop n (sort_by newer_event
    (List.filter (fun e => String.eqb (ge_session_id e) session_id && of_terminal_turn db e) (g_events db))).

Record PruneResult := { pr_compacted : Z; pr_capped : Z; pr_remaining : Z }.

(** [prune_events]. *)
Definition cap_session (n : nat) (session_id : string) : Gtx Z :=
  ids ← gets (beyond_cap n session_id);
  delete_events (fun e => string_in (ge_event_id e) ids).

Fixpoint cap_sessions (n : nat) (sessions : list string) : Gtx Z :=
  match sessions with
  | [] => mret 0
  | s :: rest => k ← cap_session n s; m ← cap_sessions n rest; mret (k + m)
  end.

Definition days (n : Z) : Z := seconds (n * 86400).

Definition prune_events (retention_days max_events_per_session now_ : Z) : Gtx PruneResult :=
  let cutoff := now_ - days (Z.max 1 retention_days) in
  db ← gets (fun db => db);
  compacted ← delete_events (compactable cutoff db);
  sessions ← gets (fun db => remove_dups (ge_session_id <$> g_events db));
  capped ← cap_sessions (Z.to_nat (Z.max 1 max_events_per_session)) sessions;
  remaining ← gets durable_events;
  mret {| pr_compacted := Z.max 0 compacted; pr_capped := Z.max 0 capped; pr_remaining := remaining |}.

(** [recover_interrupted]: each update commits on its own. *)
Fixpoint interrupt_all (ids : list string) (now_ : Z) : Gtx (list TurnRecord) :=
  match ids with
  | [] => mret []
  | id :: rest =>
      r ← update_turn id INTERRUPTED None (Some "gateway_restart")
            (Some "Gateway restarted before the turn completed.") None now_;
      l ← interrupt_all rest now_;
      mret (r :: l)
  end.

Definition recover_interrupted (now_ : Z) : Gtx (list TurnRecord) :=
  ids ← gets (fun db => fst <$> List.filter (fun kv : string * GTurnRow => negb (terminal (gt_status kv.2)))
                                  (map_to_list (g_turns db)));
  interrupt_all ids now_.

(** The statements of [delete_session] and [clear_learning_sessions] on these tables; the
    events of a deleted Turn go with it ([ON DELETE CASCADE]). *)
Definition delete_session_turns (session_id : string) : Gtx () := modify (fun db =>
  let turns := filter (fun kv : string * GTurnRow => gt_session_id kv.2 <> session_id) (g_turns db) in
  set_gevents (set_gturns db turns)
    (List.filter (fun e => match turns !! ge_turn_id e with Some _ => true | None => false end) (g_events db))).

Definition clear_turns : Gtx () := modify (fun db => set_gevents (set_gturns db ∅) []).
End gateway_turns.
