(* ===== verification/GatewaySafety.v ===== *)
(** * GatewaySafety: the Turn log of the Gateway repository

    The operations of [GatewayTurns] as steps of a store, the invariant they keep and what
    follows from it: rows have the shape of their status, a key finds the Turn it created,
    a settled Turn stays settled, a cursor reads a log page by page, and retention leaves
    running Turns alone. *)
From S2P Require Import Prelude Clock Json GatewayTurns.
Local Open Scope Z_scope.

(** ** What holds of the rows *)

(** The columns that go with a status. *)
Definition row_ok (t : GTurnRow) : Prop :=
  match gt_status t with
  | ACCEPTED => gt_started_at t = None /\ gt_completed_at t = None
  | RUNNING => gt_started_at t <> None /\ gt_completed_at t = None
  | _ => gt_completed_at t <> None
  end.

Definition key_of (t : GTurnRow) : option (string * string * string) :=
  (fun k => (gt_user_id t, gt_session_id t, k)) <$> gt_idempotency_key t.

Record g_ok (db : GDB) : Prop := {
  ok_row : forall id t, g_turns db !! id = Some t -> row_ok t;
  ok_key : forall i j t u k, g_turns db !! i = Some t -> g_turns db !! j = Some u ->
    key_of t = Some k -> key_of u = Some k -> i = j;
  ok_ids : NoDup (ge_event_id <$> g_events db);
  ok_seq : NoDup ((fun e => (ge_turn_id e, ge_sequence e)) <$> g_events db);
  ok_pos : forall e, e ∈ g_events db -> 1 <= ge_sequence e;
  ok_turn : forall e, e ∈ g_events db -> is_Some (g_turns db !! ge_turn_id e);
}.

(** What an operation other than a deletion does to a row. *)
Definition settled (s : TurnStatus) : bool :=
  match s with COMPLETED | CANCELLED | INTERRUPTED => true | _ => false end.

Definition row_moves (t t' : GTurnRow) : Prop :=
  key_of t' = key_of t /\ gt_input_text t' = gt_input_text t /\ gt_created_at t' = gt_created_at t
  /\ (settled (gt_status t) = true -> gt_status t' = gt_status t).

Definition rows_kept (db db' : GDB) : Prop :=
  forall id t, g_turns db !! id = Some t -> exists t', g_turns db' !! id = Some t' /\ row_moves t t'.

Lemma row_moves_refl t : row_moves t t.
Proof. done. Qed.

Lemma row_moves_trans t u v : row_moves t u -> row_moves u v -> row_moves t v.
Proof.
  intros (K1 & I1 & C1 & S1) (K2 & I2 & C2 & S2). unfold row_moves. split_and!; [congruence..|].
  intros Hs. rewrite S2; [by apply S1|]. by rewrite S1.
Qed.

#[local] Instance rows_kept_preorder : PreOrder rows_kept.
Proof.
  split.
  - intros db id t Ht. by exists t.
  - intros a b c Hab Hbc id t Ht. destruct (Hab _ _ Ht) as (u & Hu & Htu).
    destruct (Hbc _ _ Hu) as (v & Hv & Huv). exists v. split; [done|]. by eapply row_moves_trans.
Qed.

(** An operation keeps the invariant, and the rows. *)
Definition g_evolves (db db' : GDB) : Prop := g_ok db -> g_ok db' /\ rows_kept db db'.

#[local] Instance g_evolves_preorder : PreOrder g_evolves.
Proof.
  split.
  - intros db Hok. by split.
  - intros a b c Hab Hbc Hok. destruct (Hab Hok) as [Hb Kab]. destruct (Hbc Hb) as [Hc Kbc].
    split; [done|by etrans].
Qed.

Abbreviation gmoves := (st_moves g_evolves).

Lemma g_ok_empty n : g_ok {| g_turns := ∅; g_events := []; g_next_uuid := n |}.
Proof. split; cbn; try (intros * H; by (try rewrite lookup_empty in H)); try constructor; set_solver. Qed.

(** ** Finding a Turn by its key *)

Lemma has_key_iff u s k kv : has_key u s k kv = true <-> key_of kv.2 = Some (u, s, k).
Proof.
  unfold has_key, key_of. rewrite !andb_true_iff, !String.eqb_eq, bool_decide_eq_true.
  destruct (gt_idempotency_key kv.2) as [k'|]; cbn; [|naive_solver].
  split; [intros [[-> ->] [= ->]]; done|]. by intros [= -> -> ->].
Qed.

Lemma find_key_some u s k db id t :
  find_key u s k db = Some (id, t) -> g_turns db !! id = Some t /\ key_of t = Some (u, s, k).
Proof.
  intros [Hin Hk]%find_some. apply has_key_iff in Hk. split; [|done].
  by apply list_elem_of_In, elem_of_map_to_list in Hin.
Qed.

Lemma find_key_none u s k db id t :
  find_key u s k db = None -> g_turns db !! id = Some t -> key_of t <> Some (u, s, k).
Proof.
  intros Hn Ht Hk. assert (has_key u s k (id, t) = false) as Hf; [|by rewrite (proj2 (has_key_iff _ _ _ (id, t)) Hk) in Hf].
  eapply find_none; [done|]. by apply list_elem_of_In, elem_of_map_to_list.
Qed.

Lemma find_key_unique u s k db id t :
  g_ok db -> g_turns db !! id = Some t -> key_of t = Some (u, s, k) -> find_key u s k db = Some (id, t).
Proof.
  intros Hok Ht Hk. destruct (find_key u s k db) as [[j w]|] eqn:Hf.
  - apply find_key_some in Hf as [Hw Hkw]. assert (j = id) as -> by by eapply ok_key.
    rewrite Ht in Hw. by injection Hw as ->.
  - by eapply find_key_none in Hf.
Qed.

(** ** Statements *)

Lemma g_ok_row_update db id f :
  (forall t, g_turns db !! id = Some t -> (row_ok t -> row_ok (f t)) /\ row_moves t (f t)) ->
  g_evolves db (set_gturns db (alter f id (g_turns db))).
Proof.
  intros Hf Hok.
  assert (Hl : forall j u, alter f id (g_turns db) !! j = Some u ->
            exists t, g_turns db !! j = Some t /\ (row_ok t -> row_ok u) /\ key_of u = key_of t).
  { intros j u Hu. destruct (decide (id = j)) as [->|Hne].
    - rewrite lookup_alter_eq in Hu. destruct (g_turns db !! j) as [t|]; [|done]. injection Hu as <-.
      exists t. destruct (Hf _ eq_refl) as [Hr Hm]. split_and!; [done..|apply Hm].
    - rewrite lookup_alter_ne in Hu by done. by exists u. }
  split.
  - split; cbn; try apply Hok.
    + intros j u Hu. destruct (Hl _ _ Hu) as (t & Ht & Hr & _). by eapply Hr, ok_row.
    + intros i j t u k Ht Hu Hkt Hku. destruct (Hl _ _ Ht) as (t0 & Ht0 & _ & Ek). destruct (Hl _ _ Hu) as (u0 & Hu0 & _ & Ek').
      apply (ok_key db Hok _ _ _ _ k Ht0 Hu0); congruence.
    + intros e He. destruct (ok_turn db Hok _ He) as [t Ht]. destruct (decide (id = ge_turn_id e)) as [->|Hne].
      * rewrite lookup_alter_eq, Ht. by eexists.
      * rewrite lookup_alter_ne by done. by eexists.
  - intros j t Ht. cbn. destruct (decide (id = j)) as [->|Hne].
    + rewrite lookup_alter_eq, Ht. eexists. split; [done|by apply Hf].
    + rewrite lookup_alter_ne by done. by exists t.
Qed.

Lemma insert_turn_ok id t db u db' : insert_turn id t db = Ok (u, db') ->
  g_turns db !! id = None /\ db' = set_gturns db (<[id := t]> (g_turns db))
  /\ (forall k, gt_idempotency_key t = Some k -> find_key (gt_user_id t) (gt_session_id t) k db = None).
Proof.
  unfold insert_turn, gstmt. destruct (g_turns db !! id) as [w|]; [done|].
  destruct (gt_idempotency_key t) as [k|].
  - destruct (find_key _ _ k db) as [|] eqn:Hf; [done|]. intros [= _ <-]. split_and!; [done..|]. by intros k' [= <-].
  - intros [= _ <-]. done.
Qed.

Lemma moves_insert_turn id t : row_ok t -> gmoves (insert_turn id t).
Proof.
  intros Hr db u db' (Hnone & -> & Hkey)%insert_turn_ok Hok.
  assert (Hfresh : forall j w k, g_turns db !! j = Some w -> key_of w = Some k -> key_of t <> Some k).
  { intros j w k Hw Hk Ht. unfold key_of in Ht. destruct (gt_idempotency_key t) as [k0|] eqn:Hk0; [|done].
    injection Ht as <-. specialize (Hkey _ eq_refl). by eapply find_key_none in Hkey; [|exact Hw]. }
  split; [split; cbn; try apply Hok|].
  - intros j w. destruct (decide (id = j)) as [->|Hne].
    + rewrite lookup_insert_eq. by intros [= <-].
    + rewrite lookup_insert_ne by done. by apply ok_row.
  - intros i j w v k. destruct (decide (id = i)) as [->|Hi], (decide (i = j)) as [->|Hj]; try done.
    + rewrite lookup_insert_eq, lookup_insert_ne by done. intros [= <-] Hv Ht Hk. by destruct (Hfresh _ _ _ Hv Hk).
    + rewrite (lookup_insert_ne _ id i) by done. destruct (decide (id = j)) as [->|Hj'].
      * rewrite lookup_insert_eq. intros Hw [= <-] Hk Ht. by destruct (Hfresh _ _ _ Hw Hk).
      * rewrite lookup_insert_ne by done. intros. by eapply ok_key.
  - intros e He. destruct (decide (id = ge_turn_id e)) as [->|Hne]; [rewrite lookup_insert_eq; by eexists|].
    rewrite lookup_insert_ne by done. by apply ok_turn.
  - intros j w Hw. exists w. cbn. split; [|done]. rewrite lookup_insert_ne; [done|]. congruence.
Qed.

Lemma moves_same_rows {A} (m : Gtx A) :
  (forall db a db', m db = Ok (a, db') -> g_turns db' = g_turns db /\ g_events db' = g_events db) -> gmoves m.
Proof.
  intros Hm db a db' [Ht He]%Hm Hok. split.
  - split; rewrite ?Ht, ?He; apply Hok.
  - intros id t Hid. exists t. by rewrite Ht.
Qed.

Lemma moves_events db db' :
  g_turns db' = g_turns db -> g_events db' `sublist_of` g_events db -> g_evolves db db'.
Proof.
  intros Ht Hs Hok. split; [split; rewrite ?Ht; try apply Hok|].
  - eapply sublist_NoDup; [apply Hok|by apply fmap_sublist].
  - eapply sublist_NoDup; [apply Hok|by apply fmap_sublist].
  - intros e He. apply (ok_pos db Hok). by eapply elem_of_sublist.
  - intros e He. apply (ok_turn db Hok). by eapply elem_of_sublist.
  - intros id t Hid. exists t. by rewrite Ht.
Qed.

Lemma moves_delete_events p : gmoves (delete_events p).
Proof. intros db k db' [= _ <-]. apply moves_events; [done|]. apply filter_sublist_of. Qed.

Lemma insert_event_run e db u db' : insert_event e db = Ok (u, db') ->
  db' = set_gevents db (g_events db ++ [e]) /\ is_Some (g_turns db !! ge_turn_id e)
  /\ ge_event_id e ∉ ge_event_id <$> g_events db
  /\ (ge_turn_id e, ge_sequence e) ∉ (fun e => (ge_turn_id e, ge_sequence e)) <$> g_events db.
Proof.
  unfold insert_event, gstmt. destruct (existsb _ _) eqn:Hid; [done|]. destruct (existsb _ _) eqn:Hseq in |- *; [done|].
  destruct (g_turns db !! ge_turn_id e) as [t|]; [|done]. intros [= _ <-]. split_and!; [done|by eexists| |].
  - intros (x & Hx & Hin)%list_elem_of_fmap. eapply existsb_false_elem in Hid; [|done]. by rewrite Hx, String.eqb_refl in Hid.
  - intros (x & [= Ht Hs] & Hin)%list_elem_of_fmap. eapply existsb_false_elem in Hseq; [|done].
    by rewrite <- Hs, Z.eqb_refl, andb_true_r in Hseq; unfold of_turn in Hseq; rewrite <- Ht, String.eqb_refl in Hseq.
Qed.

Lemma moves_insert_event e : 1 <= ge_sequence e -> gmoves (insert_event e).
Proof.
  intros Hpos db u db' (-> & Ht & Hid & Hseq)%insert_event_run Hok. split; [|by intros id t Hl; exists t].
  split; cbn; try apply Hok.
  - rewrite fmap_app. apply NoDup_app. split_and!; [apply Hok| |apply NoDup_singleton].
    by intros x Hx ->%list_elem_of_singleton.
  - rewrite fmap_app. apply NoDup_app. split_and!; [apply Hok| |apply NoDup_singleton].
    by intros x Hx ->%list_elem_of_singleton.
  - intros x [Hx| ->%list_elem_of_singleton]%elem_of_app; [by apply (ok_pos db)|done].
  - intros x [Hx| ->%list_elem_of_singleton]%elem_of_app; [by apply (ok_turn db)|done].
Qed.

(** ** Operations *)

Section safety.
Context `{Uuids}.

Lemma moves_gateway_uuid : gmoves gateway_uuid.
Proof. apply moves_same_rows. by intros db a db' [= _ <-]. Qed.

Lemma moves_create n now_ : gmoves (create_turn n now_).
Proof.
  unfold create_turn. moves_bind; [moves_leaf|]. intros [[id t]|]; [moves_leaf|].
  moves_bind; [by apply moves_insert_turn|]. intros _. moves_bind; [moves_leaf|]. intros [t|]; moves_leaf.
Qed.

Lemma status_updated_row status ft ek em ex now_ t :
  terminal (gt_status t) = false \/ gt_status t = status \/ status = ACCEPTED ->
  row_ok t -> row_ok (status_updated status ft ek em ex now_ t).
Proof. unfold row_ok. cbn. destruct status, (gt_status t); cbn; naive_solver. Qed.

Lemma status_updated_moves status ft ek em ex now_ t :
  settled (gt_status t) = false \/ gt_status t = status -> row_moves t (status_updated status ft ek em ex now_ t).
Proof. unfold row_moves. cbn. intros [Hs|Hs]; split_and!; try done. by rewrite Hs. Qed.

(** When the guard of [update_turn] lets a change pass. *)
Definition may_become (t : GTurnRow) (status : TurnStatus) : Prop :=
  terminal (gt_status t) = false \/ gt_status t = status
  \/ (gt_status t = FAILED /\ gt_error_kind t = Some "dispatch_failed" /\ status = ACCEPTED).

Lemma update_turn_cases id status ft ek em ex now_ db r db' :
  update_turn id status ft ek em ex now_ db = Ok (r, db') ->
  exists t, g_turns db !! id = Some t
    /\ ((may_become t status
         /\ db' = set_gturns db (alter (status_updated status ft ek em ex now_) id (g_turns db))
         /\ r = turn_record id (status_updated status ft ek em ex now_ t))
        \/ (~ may_become t status /\ db' = db /\ r = turn_record id t)).
Proof.
  unfold update_turn. intros Hr. st_run Hr. injection Hrun as <- <-.
  destruct (g_turns db !! id) as [t|] eqn:Ht; [|done]. exists t. split; [done|].
  unfold retrying_dispatch_failure in Hr. destruct (_ && _) eqn:Hg.
  - injection Hr as <- <-. right. split; [|done]. rewrite !andb_true_iff, !negb_true_iff, !andb_false_iff in Hg.
    rewrite !bool_decide_eq_false in Hg. unfold may_become. destruct Hg as [[Ht' Hs] Hd]. rewrite Ht'. naive_solver.
  - left. st_run Hr. injection Hrun as _ <-. injection Hrun0 as <- <-. cbn in Hr. rewrite lookup_alter_eq, Ht in Hr.
    injection Hr as <- <-. split; [|done]. rewrite !andb_false_iff, !negb_false_iff, !andb_true_iff, !bool_decide_eq_true in Hg.
    unfold may_become. naive_solver.
Qed.

Lemma may_become_settled t status : may_become t status -> settled (gt_status t) = false \/ gt_status t = status.
Proof. unfold may_become. destruct (gt_status t); cbn; naive_solver. Qed.

Lemma moves_update_turn id status ft ek em ex now_ : gmoves (update_turn id status ft ek em ex now_).
Proof.
  intros db r db' (t & Ht & [(Hm & -> & _)|(_ & -> & _)])%update_turn_cases; [|reflexivity].
  apply g_ok_row_update. intros u Hu. rewrite Ht in Hu. injection Hu as <-. split.
  - apply status_updated_row. unfold may_become in Hm. naive_solver.
  - apply status_updated_moves. by apply may_become_settled.
Qed.

Lemma moves_guided_status id st : gmoves (update_turn_guided_status id st).
Proof. moves_modify. intros db. apply g_ok_row_update. by intros t _. Qed.

Lemma latest_nonneg id db : 0 <= latest_event_sequence id db.
Proof. unfold latest_event_sequence. induction (ge_sequence <$> _); simpl; lia. Qed.

Lemma latest_ge id db e : e ∈ events_of id db -> ge_sequence e <= latest_event_sequence id db.
Proof. intros He. unfold latest_event_sequence. apply list_maxZ_ge. by apply list_elem_of_fmap_2. Qed.

(** What appending an event does. *)
Lemma append_event_run tid sid ty pl now_ db e db' : append_event tid sid ty pl now_ db = Ok (e, db') ->
  g_turns db' = g_turns db /\ g_events db' = g_events db ++ [e] /\ is_Some (g_turns db !! tid)
  /\ ge_turn_id e = tid /\ ge_session_id e = sid /\ ge_event_type e = ty /\ ge_payload e = pl
  /\ ge_sequence e = latest_event_sequence tid db + 1.
Proof.
  unfold append_event. intros Hr. st_run Hr. injection Hrun as <- <-. injection Hrun0 as <- <-. injection Hr as <- <-.
  apply insert_event_run in Hrun1 as (-> & Ht & _ & _). done.
Qed.

Lemma moves_append tid sid ty pl now_ : gmoves (append_event tid sid ty pl now_).
Proof.
  intros db e db' Hr. unfold append_event in Hr. st_run Hr. injection Hrun as <- <-. injection Hr as _ <-.
  transitivity s0; [by eapply moves_gateway_uuid|]. eapply moves_insert_event, Hrun1. cbn.
  pose proof (latest_nonneg tid db). lia.
Qed.

Lemma moves_ensure tid sid ty pl now_ : gmoves (ensure_event tid sid ty pl now_).
Proof. unfold ensure_event. moves_bind; [moves_leaf|]. intros [e|]; [moves_leaf|apply moves_append]. Qed.

Lemma moves_cap_sessions n l : gmoves (cap_sessions n l).
Proof.
  induction l as [|s l IH]; [apply (st_moves_ret g_evolves)|]. moves_bind.
  - moves_bind; [moves_leaf|]. intros ids. apply moves_delete_events.
  - intros k. moves_bind; [exact IH|]. intros m. moves_leaf.
Qed.

Lemma moves_prune days_ n now_ : gmoves (prune_events days_ n now_).
Proof.
  unfold prune_events. moves_bind; [moves_leaf|]. intros db. moves_bind; [apply moves_delete_events|]. intros k.
  moves_bind; [moves_leaf|]. intros l. moves_bind; [apply moves_cap_sessions|]. intros m.
  moves_bind; [moves_leaf|]. intros r. moves_leaf.
Qed.

Lemma moves_interrupt_all l now_ : gmoves (interrupt_all l now_).
Proof.
  induction l as [|id l IH]; [apply (st_moves_ret g_evolves)|]. moves_bind; [apply moves_update_turn|]. intros r.
  moves_bind; [exact IH|]. intros rs. moves_leaf.
Qed.

Lemma moves_recover now_ : gmoves (recover_interrupted now_).
Proof. moves_bind; [moves_leaf|]. intros l. apply moves_interrupt_all. Qed.

(** Deleting Turns with their events keeps the invariant. *)
Lemma deletion_ok (m : gmap string GTurnRow) l db :
  m ⊆ g_turns db -> l `sublist_of` g_events db -> (forall e, e ∈ l -> is_Some (m !! ge_turn_id e)) ->
  g_ok db -> g_ok (set_gevents (set_gturns db m) l).
Proof.
  intros Hm Hl Hfk Hok. split; cbn; try done.
  - intros id t Ht. eapply ok_row; [done|]. by eapply lookup_weaken.
  - intros i j t u k Ht Hu. eapply (ok_key db); [done| |]; by eapply lookup_weaken.
  - eapply sublist_NoDup; [apply Hok|by apply fmap_sublist].
  - eapply sublist_NoDup; [apply Hok|by apply fmap_sublist].
  - intros e He. apply (ok_pos db Hok). by eapply elem_of_sublist.
Qed.

Lemma delete_session_ok sid : st_inv g_ok (delete_session_turns sid).
Proof.
  intros db u db' Hok [= _ <-]. apply deletion_ok; [apply map_filter_subseteq|apply filter_sublist_of| |done].
  intros e [_ He]%list_elem_of_In%filter_In. destruct (_ !! ge_turn_id e) as [t|]; [by eexists|done].
Qed.

Lemma clear_ok : st_inv g_ok clear_turns.
Proof. intros db u db' Hok [= _ <-]. apply deletion_ok; [apply map_empty_subseteq|apply sublist_nil_l| |done]. set_solver. Qed.

(** The sequences of a Turn are distinct. *)
Lemma sequences_distinct tid db : g_ok db -> NoDup (ge_sequence <$> events_of tid db).
Proof.
  intros Hok. pose proof (ok_seq db Hok) as Hseq.
  apply (NoDup_fmap_1 (pair tid)).
  rewrite <- list_fmap_compose. eapply sublist_NoDup; [exact Hseq|].
  assert (Heq : (pair tid ∘ ge_sequence) <$> events_of tid db
                = (fun e => (ge_turn_id e, ge_sequence e)) <$> events_of tid db).
  { apply list_fmap_ext. intros i e He%list_elem_of_lookup_2. cbn. f_equal.
    apply list_elem_of_In, filter_In in He as [_ He]. unfold of_turn in He. by apply String.eqb_eq in He. }
  rewrite Heq. apply fmap_sublist, filter_sublist_of.
Qed.

(** ** Steps *)

(** One call of the repository that deletes no Turn. *)
Inductive gstep (db : GDB) : GDB -> Prop :=
| g_create n now_ : gstep db (run_tx (create_turn n now_) db).2
| g_update id st ft ek em ex now_ : gstep db (run_tx (update_turn id st ft ek em ex now_) db).2
| g_guided id st : gstep db (run_tx (update_turn_guided_status id st) db).2
| g_append tid sid ty pl now_ : gstep db (run_tx (append_event tid sid ty pl now_) db).2
| g_ensure tid sid ty pl now_ : gstep db (run_tx (ensure_event tid sid ty pl now_) db).2
| g_prune d n now_ : gstep db (run_tx (prune_events d n now_) db).2
| g_recover now_ : gstep db (run_tx (recover_interrupted now_) db).2.

Inductive gsteps (db : GDB) : GDB -> Prop :=
| gsteps_refl : gsteps db db
| gsteps_step db' db'' : gsteps db db' -> gstep db' db'' -> gsteps db db''.

(** Any history of the repository. *)
Inductive greachable : GDB -> Prop :=
| gr_new n : greachable {| g_turns := ∅; g_events := []; g_next_uuid := n |}
| gr_step db db' : greachable db -> gstep db db' -> greachable db'
| gr_delete db sid : greachable db -> greachable (run_tx (delete_session_turns sid) db).2
| gr_clear db : greachable db -> greachable (run_tx clear_turns db).2.

Lemma gstep_evolves db db' : gstep db db' -> g_evolves db db'.
Proof.
  intros []; moves_run.
  - apply moves_create.
  - apply moves_update_turn.
  - apply moves_guided_status.
  - apply moves_append.
  - apply moves_ensure.
  - apply moves_prune.
  - apply moves_recover.
Qed.

Lemma gsteps_evolves db db' : gsteps db db' -> g_evolves db db'.
Proof. induction 1 as [|db' db'' _ IH Hs]; [reflexivity|]. etransitivity; [exact IH|by apply gstep_evolves]. Qed.

Lemma greachable_ok db : greachable db -> g_ok db.
Proof.
  induction 1 as [n|db db' _ IH Hs|db sid _ IH|db _ IH].
  - apply g_ok_empty.
  - by apply (gstep_evolves _ _ Hs).
  - by apply run_tx_inv; [apply delete_session_ok|].
  - by apply run_tx_inv; [apply clear_ok|].
Qed.
End safety.

(** ** What the repository promises *)

Section promises.
Context `{Uuids}.

(** C39: In every state the repository can reach, by any calls in any order, a row has the
    timestamps of its status (an accepted Turn none, a running one a start and no end, a
    finished one an end), no two Turns share a user, session and idempotency key, and the
    events of a Turn are numbered from one without repetition and belong to an existing Turn. *)
Theorem gateway_rows_well_formed db : greachable db ->
  (forall id t, g_turns db !! id = Some t -> row_ok t)
  /\ (forall i j t u k, g_turns db !! i = Some t -> g_turns db !! j = Some u ->
        key_of t = Some k -> key_of u = Some k -> i = j)
  /\ (forall tid, NoDup (ge_sequence <$> events_of tid db))
  /\ (forall e, e ∈ g_events db -> 1 <= ge_sequence e /\ is_Some (g_turns db !! ge_turn_id e)).
Proof.
  intros Hr. destruct (greachable_ok _ Hr) as [Hrow Hkey _ _ Hpos Hturn]. split_and!; [done..| |by split; auto].
  intros tid. by apply sequences_distinct, greachable_ok.
Qed.

Lemma create_turn_run n now_ db r dup db' : create_turn n now_ db = Ok ((r, dup), db') ->
  exists t, g_turns db' !! tr_turn_id r = Some t /\ r = turn_record (tr_turn_id r) t
    /\ (forall k, truthy (nt_idempotency_key n) = Some k -> key_of t = Some (nt_user_id n, nt_session_id n, k)).
Proof.
  unfold create_turn. intros Hr. st_run Hr. injection Hrun as <- <-.
  destruct (truthy (nt_idempotency_key n)) as [k|] eqn:Hk; [destruct (find_key _ _ k db) as [[id t]|] eqn:Hf|].
  - injection Hr as <- <- <-. apply find_key_some in Hf as [Ht Hkey]. exists t. cbn. split_and!; [done..|]. by intros k' [= <-].
  - st_run Hr. apply insert_turn_ok in Hrun as (_ & -> & _). injection Hrun0 as <- <-. cbn in Hr.
    rewrite lookup_insert_eq in Hr. injection Hr as <- _ <-. exists (new_row n now_). cbn. rewrite lookup_insert_eq.
    split_and!; [done..|]. intros k' [= <-]. unfold key_of. cbn.
    destruct (nt_idempotency_key n) as [[|c s]|]; try done. by injection Hk as <-.
  - st_run Hr. apply insert_turn_ok in Hrun as (_ & -> & _). injection Hrun0 as <- <-. cbn in Hr.
    rewrite lookup_insert_eq in Hr. injection Hr as <- _ <-. exists (new_row n now_). cbn. rewrite lookup_insert_eq.
    by split_and!.
Qed.

(** Submitting twice with one idempotency key creates one Turn: whatever calls came
    between, short of deleting the session, the second call answers the Turn of the first,
    says that it existed, and changes nothing. *)
Lemma created_turn_is_found_again n now_ db r dup db1 db2 n' now' k :
  greachable db -> truthy (nt_idempotency_key n) = Some k ->
  create_turn n now_ db = Ok ((r, dup), db1) -> gsteps db1 db2 ->
  nt_user_id n' = nt_user_id n -> nt_session_id n' = nt_session_id n ->
  nt_idempotency_key n' = nt_idempotency_key n ->
  exists t, g_turns db2 !! tr_turn_id r = Some t
    /\ create_turn n' now' db2 = Ok ((turn_record (tr_turn_id r) t, true), db2)
    /\ gt_input_text t = tr_input_text r.
Proof.
  intros Hok%greachable_ok Hk Hc Hs Hu Hsid Hkey'.
  destruct (create_turn_run _ _ _ _ _ _ Hc) as (t1 & Ht1 & Hr & Hkey). specialize (Hkey _ Hk).
  pose proof (moves_create _ _ _ _ _ Hc Hok) as [Hok1 _].
  destruct (gsteps_evolves _ _ Hs Hok1) as [Hok2 Hkept].
  destruct (Hkept _ _ Ht1) as (t2 & Ht2 & Hkey2 & Hin & _ & _).
  exists t2. split_and!; [done| |by rewrite Hr].
  assert (Hf : find_key (nt_user_id n) (nt_session_id n) k db2 = Some (tr_turn_id r, t2))
    by (apply find_key_unique; [done..|congruence]).
  unfold create_turn, mbind, st_bind, gets. by rewrite Hkey', Hk, Hu, Hsid, Hf.
Qed.

(** A completed, cancelled or interrupted Turn is final: it keeps its status through any
    later calls, and an update to another status is answered with the Turn as it is and
    changes nothing. *)
Lemma settled_turn_is_final db db' id t :
  greachable db -> g_turns db !! id = Some t -> settled (gt_status t) = true -> gsteps db db' ->
  exists t', g_turns db' !! id = Some t' /\ gt_status t' = gt_status t
    /\ forall status ft ek em ex now_, status <> gt_status t ->
         update_turn id status ft ek em ex now_ db' = Ok (turn_record id t', db').
Proof.
  intros Hok%greachable_ok Ht Hset Hs. destruct (gsteps_evolves _ _ Hs Hok) as [_ Hkept].
  destruct (Hkept _ _ Ht) as (t' & Ht' & _ & _ & _ & Hst). specialize (Hst Hset). exists t'. split_and!; [done..|].
  intros status ft ek em ex now_ Hne. unfold update_turn, mbind, st_bind, gets. rewrite Ht'.
  unfold retrying_dispatch_failure. rewrite Hst. rewrite (bool_decide_eq_false_2 (gt_status t = status)) by congruence.
  by destruct (gt_status t).
Qed.

(** An empty idempotency key is no key for the lookup but is stored as one, so a second
    Turn of the session submitted with it is refused by the unique index. *)
Lemma empty_key_refuses_second_turn n now_ db r db1 n' now' :
  nt_idempotency_key n = Some "" -> create_turn n now_ db = Ok ((r, false), db1) ->
  nt_user_id n' = nt_user_id n -> nt_session_id n' = nt_session_id n -> nt_idempotency_key n' = Some "" ->
  create_turn n' now' db1 = Err GIntegrityError.
Proof.
  intros Hk Hr Hu Hs Hk'. unfold create_turn in Hr. rewrite Hk in Hr. st_run Hr. injection Hrun as <- <-. st_run Hr.
  apply insert_turn_ok in Hrun as (_ & -> & _). injection Hrun0 as <- <-. cbn in Hr.
  rewrite lookup_insert_eq in Hr. injection Hr as _ <-.
  unfold create_turn, mbind, st_bind, gets. rewrite Hk'. cbn [truthy]. unfold insert_turn, gstmt. cbn [gt_idempotency_key new_row gt_user_id gt_session_id].
  rewrite Hk'. destruct (g_turns _ !! _); [done|]. destruct (find_key _ _ "" _) as [|] eqn:Hf; [done|].
  exfalso. eapply (find_key_none _ _ _ _ (nt_turn_id n) (new_row n now_)) in Hf; [|cbn; by rewrite lookup_insert_eq].
  apply Hf. unfold key_of. cbn. by rewrite Hk, Hu, Hs.
Qed.
End promises.

#[local] Instance gateway_uuids : Uuids := {| uuid4 n := "e" +:+ pretty n; uuid5_url s := s |}.

(** A session with one finished Turn and three events. *)
Module GatewayExample.
Definition turn (id : string) (key : option string) : NewTurn :=
  {| nt_turn_id := id; nt_session_id := "s"; nt_workspace_id := "w"; nt_user_id := "u"; nt_input_text := "hello";
     nt_idempotency_key := key; nt_learning_context := None; nt_learning_progress := None;
     nt_guided_session_id := None; nt_guided_blueprint_id := None; nt_guided_sha256 := None;
     nt_guided_attempts := Some 0; nt_guided_status := Some "active"; nt_exercise_state := None |}.

Definition db0 : GDB := {| g_turns := ∅; g_events := []; g_next_uuid := 0 |}.
Definition db1 : GDB := (run_tx (create_turn (turn "t" (Some "k")) 10) db0).2.
Definition db2 : GDB := (run_tx (append_event "t" "s" TURN_ACCEPTED (JObj []) 11) db1).2.
Definition db3 : GDB := (run_tx (update_turn "t" COMPLETED (Some "done") None None None 12) db2).2.
Definition db4 : GDB := (run_tx (append_event "t" "s" MESSAGE_COMPLETED (JObj []) 13) db3).2.
Definition db5 : GDB := (run_tx (append_event "t" "s" TURN_COMPLETED (JObj []) 14) db4).2.
Definition row3 : GTurnRow := status_updated COMPLETED (Some "done") None None None 12 (new_row (turn "t" (Some "k")) 10).

Lemma step1 : gstep db0 db1. Proof. exact (g_create db0 (turn "t" (Some "k")) 10). Qed.
Lemma step2 : gstep db1 db2. Proof. exact (g_append db1 "t" "s" TURN_ACCEPTED (JObj []) 11). Qed.
Lemma step3 : gstep db2 db3. Proof. exact (g_update db2 "t" COMPLETED (Some "done") None None None 12). Qed.
Lemma step4 : gstep db3 db4. Proof. exact (g_append db3 "t" "s" MESSAGE_COMPLETED (JObj []) 13). Qed.
Lemma step5 : gstep db4 db5. Proof. exact (g_append db4 "t" "s" TURN_COMPLETED (JObj []) 14). Qed.

Lemma db3_reachable : greachable db3.
Proof. exact (gr_step _ _ (gr_step _ _ (gr_step _ _ (gr_new 0) step1) step2) step3). Qed.

Lemma db5_reachable : greachable db5.
Proof. exact (gr_step _ _ (gr_step _ _ db3_reachable step4) step5). Qed.

Lemma db15_steps : gsteps db1 db5.
Proof.
  exact (gsteps_step _ _ _ (gsteps_step _ _ _ (gsteps_step _ _ _ (gsteps_step _ _ _ (gsteps_refl _) step2) step3) step4) step5).
Qed.
End GatewayExample.

Lemma gateway_rows_well_formed_witness :
  g_turns GatewayExample.db5 !! "t" = Some GatewayExample.row3 /\ row_ok GatewayExample.row3.
Proof.
  assert (Ht : g_turns GatewayExample.db5 !! "t" = Some GatewayExample.row3) by (vm_compute; reflexivity).
  split; [exact Ht|]. exact (proj1 (gateway_rows_well_formed _ GatewayExample.db5_reachable) "t" _ Ht).
Defined.

(** * what [prune_events] leaves of the event log

    The two passes of [GatewayRepository.prune_events]: it compacts the streaming events of
    finished Turns that are older than the retention period, then caps the events of the
    finished Turns of every session. *)

(** The events of the finished Turns of a session. *)
Definition finished_in (session_id : string) (db : GDB) (e : GEventRow) : bool :=
  String.eqb (ge_session_id e) session_id && of_terminal_turn db e.
Definition finished_events (session_id : string) (db : GDB) : list GEventRow :=
  List.filter (finished_in session_id db) (g_events db).

Lemma newer_event_total a b : newer_event a b = false -> newer_event b a = true.
Proof.
  unfold newer_event. rewrite !orb_false_iff, !andb_false_iff, !orb_false_iff, !andb_false_iff.
  intros [H1 H2]. rewrite !orb_true_iff, !andb_true_iff, !orb_true_iff, !andb_true_iff.
  destruct (ge_created_at a <? ge_created_at b) eqn:Hc; [by left|right].
  assert (Heq : ge_created_at a = ge_created_at b) by lia. split; [lia|].
  destruct (ge_sequence a <? ge_sequence b) eqn:Hq; [by left|right]. split; [lia|].
  apply string_leb_total. destruct H2 as [H2|[H2 [H3|H3]]]; [lia|lia|done].
Qed.

Lemma newer_event_created a b : newer_event a b = true -> ge_created_at b <= ge_created_at a.
Proof. unfold newer_event. rewrite orb_true_iff, andb_true_iff. lia. Qed.

Section retention.
Context `{Uuids}.

Lemma finished_in_turns sid db db' e : g_turns db' = g_turns db -> finished_in sid db' e = finished_in sid db e.
Proof. unfold finished_in, of_terminal_turn. by intros ->. Qed.

Lemma delete_events_run p db k db' : delete_events p db = Ok (k, db') ->
  g_turns db' = g_turns db /\ g_events db' = List.filter (fun e => negb (p e)) (g_events db)
  /\ k + durable_events db' = durable_events db.
Proof.
  intros [= <- <-]. split_and!; [done..|]. unfold durable_events. cbn.
  rewrite <- (Permutation_length (filter_split p (g_events db))), length_app. lia.
Qed.

(** One capped session: the events beyond the cap go, and only they. *)
Lemma cap_session_run n sid db k db' : g_ok db -> cap_session n sid db = Ok (k, db') ->
  g_turns db' = g_turns db /\ k + durable_events db' = durable_events db
  /\ g_events db' `sublist_of` g_events db
  /\ (forall e, e ∈ g_events db ->
        e ∈ g_events db' <-> e ∉ drop n (sort_by newer_event (finished_events sid db)))
  /\ Permutation (finished_events sid db') (take n (sort_by newer_event (finished_events sid db)))
  /\ (forall sid', sid' <> sid -> finished_events sid' db' = finished_events sid' db).
Proof.
  intros Hok Hr. unfold cap_session in Hr. st_run Hr. injection Hrun as <- <-.
  apply delete_events_run in Hr as (Ht & He & Hk).
  set (l := sort_by newer_event (finished_events sid db)) in *.
  assert (Hp : Permutation l (finished_events sid db)) by apply sort_by_perm.
  assert (Hsub : forall e, e ∈ l -> e ∈ g_events db /\ finished_in sid db e = true).
  { intros e Hin. rewrite Hp in Hin. by apply filter_elem_of in Hin. }
  assert (Hids : forall e, e ∈ g_events db -> (ge_event_id e ∈ beyond_cap n sid db <-> e ∈ drop n l)).
  { intros e Hin. unfold beyond_cap. fold (finished_in sid db). fold (finished_events sid db). fold l. split.
    - intros (x & Hx & Hxl)%list_elem_of_fmap. assert (x = e) as <-; [|done].
      assert (Hxin : x ∈ l) by (rewrite <- (take_drop n l); apply elem_of_app; by right).
      apply Hsub in Hxin as [Hxin _]. apply list_elem_of_lookup in Hin as [i Hi], Hxin as [j Hj].
      assert (i = j) as ->; [|congruence]. eapply NoDup_lookup; [apply (ok_ids db Hok)| |]; rewrite list_lookup_fmap.
      + by rewrite Hi.
      + rewrite Hj. cbn. by rewrite Hx.
    - intros Hd. by apply list_elem_of_fmap_2. }
  assert (Hnd : NoDup l) by (rewrite Hp; eapply sublist_NoDup; [|apply filter_sublist_of]; eapply NoDup_fmap_1, (ok_ids db Hok)).
  assert (Hkept : forall e, e ∈ g_events db -> (e ∈ g_events db' <-> e ∉ drop n l)).
  { intros e Hin. rewrite He, filter_elem_of, negb_true_iff. unfold string_in. rewrite bool_decide_eq_false.
    rewrite (Hids e Hin). tauto. }
  assert (Hsb : g_events db' `sublist_of` g_events db) by (rewrite He; apply filter_sublist_of).
  split_and!; [done..| |].
  2:{ intros sid' Hne. unfold finished_events at 1. rewrite He, filter_filter_and. unfold finished_events.
      apply filter_ext_in. intros e Hin%list_elem_of_In. rewrite (finished_in_turns _ _ _ _ Ht).
      destruct (finished_in sid' db e) eqn:Hf; [|apply andb_false_r]. apply andb_true_iff. split; [|done].
      apply negb_true_iff. unfold string_in. apply bool_decide_eq_false. rewrite (Hids e Hin). intros Hd.
      assert (Hl : e ∈ l) by (rewrite <- (take_drop n l); apply elem_of_app; by right). apply Hsub in Hl as [_ Hf'].
      unfold finished_in in Hf, Hf'. apply andb_true_iff in Hf as [H1%String.eqb_eq _], Hf' as [H2%String.eqb_eq _].
      by subst. }
  apply NoDup_Permutation.
  - eapply sublist_NoDup; [|apply filter_sublist_of]. eapply sublist_NoDup; [|exact Hsb]. eapply NoDup_fmap_1, (ok_ids db Hok).
  - eapply sublist_NoDup; [exact Hnd|apply sublist_take].
  - intros e. unfold finished_events. rewrite filter_elem_of, (finished_in_turns _ _ _ _ Ht). split.
    + intros [Hin Hf]. assert (Hdb : e ∈ g_events db) by (by eapply elem_of_sublist). apply Hkept in Hin; [|done].
      assert (Hl : e ∈ l) by (rewrite Hp; by apply filter_elem_of). rewrite <- (take_drop n l) in Hl.
      by apply elem_of_app in Hl as [Hl|Hl].
    + intros Htk. assert (Hl : e ∈ l) by (by eapply elem_of_sublist; [|apply sublist_take]).
      apply Hsub in Hl as [Hdb Hf]. split; [|done]. apply Hkept; [done|]. intros Hd.
      rewrite <- (take_drop n l) in Hnd. apply NoDup_app in Hnd as (_ & Hnd & _). by eapply Hnd.
Qed.

Lemma cap_session_ok n sid db k db' : g_ok db -> cap_session n sid db = Ok (k, db') -> g_ok db'.
Proof.
  intros Hok Hr. unfold cap_session in Hr. st_run Hr. injection Hrun as <- <-. by apply (moves_delete_events _ _ _ _ Hr).
Qed.

(** What capping the sessions [l] does to a store. *)
Record capped (n : nat) (l : list string) (db db' : GDB) (k : Z) : Prop := {
  cp_ok : g_ok db';
  cp_turns : g_turns db' = g_turns db;
  cp_count : k + durable_events db' = durable_events db;
  cp_sub : g_events db' `sublist_of` g_events db;
  cp_gone : forall e, e ∈ g_events db -> e ∉ g_events db' ->
    ge_session_id e ∈ l /\ e ∈ drop n (sort_by newer_event (finished_events (ge_session_id e) db));
  cp_other : forall sid, sid ∉ l -> finished_events sid db' = finished_events sid db;
  cp_within : forall sid, sid ∈ l ->
    Permutation (finished_events sid db') (take n (sort_by newer_event (finished_events sid db)));
}.

Lemma finished_of_drop n sid db e :
  e ∈ drop n (sort_by newer_event (finished_events sid db)) -> finished_in sid db e = true.
Proof.
  intros Hd. assert (Hin : e ∈ sort_by newer_event (finished_events sid db)).
  { rewrite <- (take_drop n). apply elem_of_app. by right. }
  rewrite sort_by_perm in Hin. by apply filter_elem_of in Hin as [_ ?].
Qed.

Lemma finished_session sid db e : finished_in sid db e = true -> ge_session_id e = sid.
Proof. unfold finished_in. rewrite andb_true_iff, String.eqb_eq. by intros []. Qed.

Lemma cap_sessions_run n l db k db' : g_ok db -> NoDup l -> cap_sessions n l db = Ok (k, db') -> capped n l db db' k.
Proof.
  revert db k db'. induction l as [|sid l IH]; intros db k db' Hok Hnd Hr.
  { injection Hr as <- <-. split; try done; by intros sid Hsid%elem_of_nil. }
  apply NoDup_cons in Hnd as [Hsid Hnd]. cbn [cap_sessions] in Hr. st_run Hr. injection Hr as <- <-.
  pose proof (cap_session_ok _ _ _ _ _ Hok Hrun) as Hok1.
  apply cap_session_run in Hrun as (Ht & Hk & Hs & Hm & Hp & Ho); [|done].
  destruct (IH _ _ _ Hok1 Hnd Hrun0) as [Hok2 Ht2 Hk2 Hs2 Hg2 Ho2 Hw2]. split.
  - done.
  - congruence.
  - lia.
  - by etrans.
  - intros e Hin Hout. destruct (decide (e ∈ g_events s)) as [Hin1|Hout1].
    + destruct (Hg2 _ Hin1 Hout) as [Hl Hd]. assert (ge_session_id e <> sid) by (by intros <-).
      rewrite Ho in Hd by done. split; [by right|done].
    + assert (Hd : e ∈ drop n (sort_by newer_event (finished_events sid db))).
      { destruct (decide (e ∈ drop n (sort_by newer_event (finished_events sid db)))); [done|]. by apply Hm in n0. }
      assert (ge_session_id e = sid) as -> by (by eapply finished_session, finished_of_drop). split; [by left|done].
  - intros sid' [Hne Hl]%not_elem_of_cons. rewrite Ho2 by done. by apply Ho.
  - intros sid' [->|Hl]%elem_of_cons.
    + by rewrite Ho2.
    + rewrite (Hw2 _ Hl), Ho; [done|]. by intros ->.
Qed.
Lemma finished_empty sid db :
  sid ∉ (ge_session_id <$> g_events db) -> finished_events sid db = [].
Proof.
  intros Hn. apply filter_none. intros e He. apply not_true_iff_false. intros Hf%finished_session. subst sid.
  apply Hn. by apply list_elem_of_fmap_2.
Qed.

(** The two passes of a run. *)
Lemma prune_run days_ n now_ db r db' : g_ok db -> prune_events days_ n now_ db = Ok (r, db') ->
  exists db1, let p := compactable (now_ - days (Z.max 1 days_)) db in
    g_turns db1 = g_turns db /\ g_events db1 = List.filter (fun e => negb (p e)) (g_events db)
    /\ capped (Z.to_nat (Z.max 1 n)) (remove_dups (ge_session_id <$> g_events db1)) db1 db' (pr_capped r)
    /\ pr_compacted r + durable_events db1 = durable_events db /\ pr_remaining r = durable_events db'.
Proof.
  intros Hok Hr. unfold prune_events in Hr. st_run Hr. injection Hrun as <- <-. injection Hrun1 as <- <-.
  injection Hrun3 as <- <-. injection Hr as <- <-. exists s0.
  pose proof (moves_delete_events _ _ _ _ Hrun0 Hok) as [Hok0 _].
  apply delete_events_run in Hrun0 as (Ht & He & Hk). cbn.
  pose proof (cap_sessions_run _ _ _ _ _ Hok0 (NoDup_remove_dups _) Hrun2) as Hc.
  assert (0 <= a0).
  { pose proof Hk as Hk0. unfold durable_events in Hk0. rewrite He in Hk0.
    pose proof (sublist_length _ _ (filter_sublist_of (fun e => negb (compactable (now_ - days (Z.max 1 days_)) db e)) (g_events db))). lia. }
  assert (0 <= a2) by (pose proof (cp_count _ _ _ _ _ Hc) as Hc2; unfold durable_events in Hc2;
    pose proof (sublist_length _ _ (cp_sub _ _ _ _ _ Hc)); lia).
  rewrite (Z.max_r 0 a0), (Z.max_r 0 a2) by done. by split_and!.
Qed.

(** Retention: [prune_events] removes nothing of a Turn that is not finished; afterwards
    the finished Turns of a session have at most [max(1, max_events_per_session)] events; an
    event that went was either an old streaming event or made room for that many events of its
    session that are no older; and the three counts it answers add up. *)
Lemma prune_keeps_running_and_newest days_ n now_ db r db' :
  greachable db -> prune_events days_ n now_ db = Ok (r, db') ->
  g_turns db' = g_turns db
  /\ (forall e, e ∈ g_events db -> of_terminal_turn db e = false -> e ∈ g_events db')
  /\ (forall sid, Z.of_nat (length (finished_events sid db')) <= Z.max 1 n)
  /\ (forall e, e ∈ g_events db -> e ∉ g_events db' ->
        (ge_created_at e < now_ - days (Z.max 1 days_) /\ retained_type (ge_event_type e) = false)
        \/ (Z.of_nat (length (finished_events (ge_session_id e) db')) = Z.max 1 n
            /\ forall x, x ∈ finished_events (ge_session_id e) db' -> ge_created_at e <= ge_created_at x))
  /\ pr_compacted r + pr_capped r + pr_remaining r = durable_events db.
Proof.
  intros Hok%greachable_ok Hr. destruct (prune_run _ _ _ _ _ _ Hok Hr) as (db1 & Ht & He & Hc & Hk & Hrem).
  destruct Hc as [Hok' Ht' Hcount Hsub Hgone Hother Hwithin].
  set (k := Z.to_nat (Z.max 1 n)) in *. assert (Hkn : Z.of_nat k = Z.max 1 n) by lia.
  assert (Hin1 : forall e, e ∈ g_events db1 <-> e ∈ g_events db /\ compactable (now_ - days (Z.max 1 days_)) db e = false)
    by (intros e; by rewrite He, filter_elem_of, negb_true_iff).
  assert (Hstays : forall e, e ∈ g_events db1 -> of_terminal_turn db e = false -> e ∈ g_events db').
  { intros e Hin Hrun. destruct (decide (e ∈ g_events db')) as [|Hout]; [done|].
    destruct (Hgone _ Hin Hout) as [_ Hd%finished_of_drop]. unfold finished_in, of_terminal_turn in Hd.
    rewrite Ht in Hd. fold (of_terminal_turn db e) in Hd. by rewrite Hrun, andb_false_r in Hd. }
  split_and!; [congruence| | | |lia].
  - intros e Hin Hrun. apply Hstays; [|done]. apply Hin1. split; [done|]. unfold compactable. by rewrite Hrun, andb_false_r.
  - intros sid. destruct (decide (sid ∈ remove_dups (ge_session_id <$> g_events db1))) as [Hs|Hs].
    + rewrite (Permutation_length (Hwithin _ Hs)), length_take. lia.
    + rewrite (Hother _ Hs), finished_empty; [cbn; lia|]. by rewrite <- elem_of_remove_dups.
  - intros e Hin Hout. destruct (decide (e ∈ g_events db1)) as [Hin'|Hout'].
    + right. destruct (Hgone _ Hin' Hout) as [Hs Hd]. rewrite (Permutation_length (Hwithin _ Hs)). split.
      * rewrite length_take. assert (k < length (sort_by newer_event (finished_events (ge_session_id e) db1)))%nat; [|lia].
        apply list_elem_of_lookup in Hd as [i Hi]. rewrite lookup_drop in Hi. apply lookup_lt_Some in Hi. lia.
      * intros x Hx. rewrite (Hwithin _ Hs) in Hx.
        eapply (sort_by_cut newer_event (fun a b => ge_created_at b <= ge_created_at a)); [..|exact Hx|exact Hd].
        -- intros a b. apply newer_event_total.
        -- intros a b. apply newer_event_created.
        -- intros a b c. lia.
    + left. destruct (compactable (now_ - days (Z.max 1 days_)) db e) eqn:Hcp; [|by destruct Hout'; apply Hin1].
      unfold compactable in Hcp. rewrite !andb_true_iff, negb_true_iff in Hcp. split; [lia|tauto].
Qed.
End retention.

#[local] Existing Instance gateway_uuids.
