(* ===== verification/EventFeed.v ===== *)
(** * EventFeed: how a connection follows the log of a Turn

    [GatewayEventBroker] ([gateway/events.py]), the replay and delivery of
    [WebSocketConnection] ([server/web/websocket.py]) with its send queue, and the interface
    through which both read the durable log.

    A connection holds one lock per Turn, so the calls that deliver events of one Turn run one
    after another; between two pages such a call waits for, the log may have changed.  A call is
    therefore a function of the list of stores its successive reads see, which is also what
    bounds it: [None] means that it would read once more. *)
From S2P Require Import Prelude Json GatewayTurns.
Local Open Scope Z_scope.

(** ** The durable log, as its readers see it *)

Class EventLog (S : Type) := {
  el_ok : S -> Prop;
  (** the events of a Turn in the order of their sequences *)
  el_log : string -> S -> list GEventRow;
  (** [events_after] and [latest_event_sequence] *)
  el_read : string -> Z -> Z -> S -> list GEventRow;
  el_latest : string -> S -> Z;
  el_increasing : forall tid s, el_ok s -> StronglySorted Z.lt (ge_sequence <$> el_log tid s);
  el_positive : forall tid s e, el_ok s -> e ∈ el_log tid s -> 1 <= ge_sequence e;
  el_of_turn : forall tid s e, e ∈ el_log tid s -> ge_turn_id e = tid;
  el_read_spec : forall tid after limit s, el_ok s ->
    el_read tid after limit s
    = take (Z.to_nat (Z.min (Z.max 1 limit) 2000)) (List.filter (fun e => Z.max 0 after <? ge_sequence e) (el_log tid s));
  el_latest_spec : forall tid s, el_ok s -> el_latest tid s = list_maxZ 0 (ge_sequence <$> el_log tid s);
}.

(** ** [GatewayEventBroker] *)

Inductive item := Event (e : GEventRow) | Interrupted.

Record Subscription := {
  sub_queue : list item;
  sub_maxsize : Z;
  sub_turn_id : option string;
  sub_session_id : option string;
}.

Record Broker := { bk_subscriptions : list (Z * Subscription); bk_next_id : Z }.

Definition with_queue (s : Subscription) (q : list item) : Subscription :=
  {| sub_queue := q; sub_maxsize := sub_maxsize s; sub_turn_id := sub_turn_id s; sub_session_id := sub_session_id s |}.

(** [asyncio.Queue.full]: a queue without a maximum is never full. *)
Definition subscription_full (s : Subscription) : bool :=
  (0 <? sub_maxsize s) && (sub_maxsize s <=? Z.of_nat (length (sub_queue s))).

(** [put_nowait], or [get_nowait] and [put_nowait] when the queue is full. *)
Inductive outcome := Put | Displaced | Lost.
#[export] Instance outcome_eq_dec : EqDecision outcome.
Proof. solve_decision. Defined.

Definition put_or_displace (x : item) (s : Subscription) : Subscription * outcome :=
  if negb (subscription_full s) then (with_queue s (sub_queue s ++ [x]), Put)
  else match sub_queue s with
       | [] => (s, Lost)
       | _ :: q => let s' := with_queue s q in
                   if subscription_full s' then (s', Lost) else (with_queue s' (q ++ [x]), Displaced)
       end.

Definition wants (e : GEventRow) (s : Subscription) : bool :=
  match sub_turn_id s with Some t => String.eqb t (ge_turn_id e) | None => true end
  && match sub_session_id s with Some c => String.eqb c (ge_session_id e) | None => true end.

(** [subscribe]. *)
Definition subscribe (turn_id session_id : option string) (maxsize : Z) (b : Broker)
  : result GatewayError (Z * Broker) :=
  match turn_id, session_id with
  | None, None => Err GValueError
  | _, _ =>
      let s := {| sub_queue := []; sub_maxsize := maxsize; sub_turn_id := turn_id; sub_session_id := session_id |} in
      Ok (bk_next_id b, {| bk_subscriptions := bk_subscriptions b ++ [(bk_next_id b, s)]; bk_next_id := bk_next_id b + 1 |})
  end.

(** [unsubscribe]. *)
Definition unsubscribe (id : Z) (b : Broker) : Broker :=
  {| bk_subscriptions := List.filter (fun ks : Z * Subscription => negb (ks.1 =? id)) (bk_subscriptions b);
     bk_next_id := bk_next_id b |}.

(** [publish]: the number of displaced items. *)
Definition publish_to (e : GEventRow) (ks : Z * Subscription) : Subscription * outcome :=
  if wants e ks.2 then put_or_displace (Event e) ks.2 else (ks.2, Put).

Definition publish (e : GEventRow) (b : Broker) : Broker * Z :=
  ({| bk_subscriptions := (fun ks => (ks.1, (publish_to e ks).1)) <$> bk_subscriptions b;
      bk_next_id := bk_next_id b |},
   Z.of_nat (length (List.filter (fun ks => negb (bool_decide ((publish_to e ks).2 = Put))) (bk_subscriptions b)))).

(** [interrupt_all]: the number of subscriptions woken. *)
Definition interrupt_all (b : Broker) : Broker * Z :=
  ({| bk_subscriptions := (fun ks => (ks.1, (put_or_displace Interrupted ks.2).1)) <$> bk_subscriptions b;
      bk_next_id := bk_next_id b |},
   Z.of_nat (length (List.filter (fun ks : Z * Subscription =>
       negb (bool_decide ((put_or_displace Interrupted ks.2).2 = Lost))) (bk_subscriptions b)))).

(** [GatewayEventSubscription.__anext__] on what the queue hands over. *)
Inductive next_event := NextEvent (e : GEventRow) | StreamInterrupted | StopIteration.

Definition anext (closed : bool) (x : item) : next_event :=
  if closed then StopIteration else match x with Event e => NextEvent e | Interrupted => StreamInterrupted end.

(** ** [WebSocketConnection]: the frames of one Turn *)

Inductive frame :=
| EventFrame (e : GEventRow)
| GapFrame (turn_id session_id : string) (expected received : Z) (expired : bool)
| UpdatedFrame (turn_id session_id : string).

(** [_last_sequences.get(turn_id, 0)], and the frames handed to [send] so far. *)
Record Feed := { fd_last : Z; fd_frames : list frame }.

Definition feed0 : Feed := {| fd_last := 0; fd_frames := [] |}.

Definition send_frame (f : frame) (fd : Feed) : Feed :=
  {| fd_last := fd_last fd; fd_frames := fd_frames fd ++ [f] |}.

(** [_send_gateway_event_locked]. *)
Definition send_gateway_event (e : GEventRow) (fd : Feed) : Feed :=
  if ge_sequence e <=? fd_last fd then fd
  else
    let fd := send_frame (EventFrame e) {| fd_last := ge_sequence e; fd_frames := fd_frames fd |} in
    if terminal_type (ge_event_type e) then send_frame (UpdatedFrame (ge_turn_id e) (ge_session_id e)) fd else fd.

(** The [for event in events] of [_replay_locked]: the events up to the target. *)
Fixpoint send_page (events : list GEventRow) (target : Z) (fd : Feed) (sent : Z) : Feed * Z :=
  match events with
  | [] => (fd, sent)
  | e :: rest =>
      if target <? ge_sequence e then (fd, sent)
      else send_page rest target (send_gateway_event e fd) (sent + 1)
  end.

Section feed.
Context {S : Type} `{EventLog S}.

(** [_replay_locked] on the stores [reads]: the feed, the number of events sent and the reads left. *)
Fixpoint replay_locked (tid : string) (target : Z) (reads : list S) (fd : Feed) (sent : Z)
  : option (Feed * Z * list S) :=
  if fd_last fd <? target then
    match reads with
    | [] => None
    | s :: reads' =>
        let after := fd_last fd in
        match el_read tid after (Z.min 2000 (target - after)) s with
        | [] => Some (fd, sent, reads')
        | (first :: _) as events =>
            let fd := if after + 1 <? ge_sequence first
                      then send_frame (GapFrame (ge_turn_id first) (ge_session_id first) (after + 1) (ge_sequence first) true) fd
                      else fd in
            let r := send_page events target fd sent in
            replay_locked tid target reads' r.1 r.2
        end
    end
  else Some (fd, sent, reads).

(** [replay_turn]: [latest] is read before the lock is taken. *)
Definition replay_turn (tid : string) (after_sequence latest : Z) (reads : list S) (fd : Feed)
  : option (result GatewayError (Feed * Z)) :=
  if latest <? after_sequence then Some (Err GValueError)
  else
    let fd := {| fd_last := Z.max (fd_last fd) after_sequence; fd_frames := fd_frames fd |} in
    match replay_locked tid latest reads fd 0 with
    | Some (fd, sent, _) => Some (Ok (fd, sent))
    | None => None
    end.

(** [_deliver_gateway_event]. *)
Definition deliver (e : GEventRow) (reads : list S) (fd : Feed) : option Feed :=
  let last := fd_last fd in
  if ge_sequence e <=? last then Some fd
  else if last + 1 <? ge_sequence e then
    match replay_locked (ge_turn_id e) (ge_sequence e - 1) reads fd 0 with
    | None => None
    | Some (fd, _, _) =>
        let last := fd_last fd in
        let fd := if last + 1 <? ge_sequence e
                  then send_frame (GapFrame (ge_turn_id e) (ge_session_id e) (last + 1) (ge_sequence e) false) fd
                  else fd in
        Some (send_gateway_event e fd)
    end
  else Some (send_gateway_event e fd).
End feed.

(** ** The send queue of a connection *)

Record Outbound := {
  ob_queue : list frame;
  ob_size : Z;
  ob_closed : bool;
  ob_wire : list frame;  (** what the client was sent *)
}.

Definition outbound0 (send_queue_size : Z) : Outbound :=
  {| ob_queue := []; ob_size := Z.max 1 send_queue_size; ob_closed := false; ob_wire := [] |}.

(** [_terminate] with [_fail_queued_frames]. *)
Definition terminate (o : Outbound) : Outbound :=
  {| ob_queue := []; ob_size := ob_size o; ob_closed := true; ob_wire := ob_wire o |}.

(** [send] without waiting. *)
Definition send (f : frame) (o : Outbound) : Outbound * bool :=
  if ob_closed o then (o, false)
  else if ob_size o <=? Z.of_nat (length (ob_queue o)) then (terminate o, false)
  else ({| ob_queue := ob_queue o ++ [f]; ob_size := ob_size o; ob_closed := ob_closed o; ob_wire := ob_wire o |}, true).

(** One round of [_sender_loop]: [transmitted] says whether the client took the frame in time. *)
Definition sender_round (transmitted : bool) (o : Outbound) : Outbound :=
  if ob_closed o then o
  else match ob_queue o with
       | [] => o
       | f :: q =>
           if transmitted
           then {| ob_queue := q; ob_size := ob_size o; ob_closed := ob_closed o; ob_wire := ob_wire o ++ [f] |}
           else terminate {| ob_queue := q; ob_size := ob_size o; ob_closed := ob_closed o; ob_wire := ob_wire o |}
       end.
