(* ===== verification/EventFeedSafety.v ===== *)
(** * EventFeedSafety: a connection shows every event once, in order

    The SQLite repository is an [EventLog]; replay and delivery send exactly the missing part
    of a complete log; whatever the log, the broker and the sender do, the client of a
    connection never sees an event twice or out of order. *)
From S2P Require Import Prelude Json GatewayTurns GatewaySafety EventFeed.
Local Open Scope Z_scope.

(** ** The repository implements the log *)

Lemma by_sequence_perm l : Permutation (by_sequence l) l.
Proof. apply sort_by_perm. Qed.

Lemma by_sequence_sorted l :
  NoDup (ge_sequence <$> l) -> StronglySorted (fun a b => ge_sequence a < ge_sequence b) (by_sequence l).
Proof.
  intros Hnd. assert (Hs : StronglySorted (fun a b => ge_sequence a <= ge_sequence b) (by_sequence l)).
  { apply Sorted_StronglySorted; [intros a b c; lia|].
    assert (Hs : Sorted (fun a b => (ge_sequence a <=? ge_sequence b) = true) (by_sequence l))
      by (apply sort_by_sorted; intros a b; lia).
    induction Hs as [|x k Hs IH Hd]; constructor; [done|]. destruct Hd; constructor. lia. }
  rewrite <- (by_sequence_perm l) in Hnd. revert Hnd. induction Hs as [|x k Hs IH Hall]; constructor.
  - apply IH. by inversion Hnd.
  - cbn in Hnd. apply NoDup_cons in Hnd as [Hx _]. rewrite Forall_forall in *. intros y Hy. specialize (Hall y Hy).
    assert (ge_sequence x <> ge_sequence y); [|lia]. intros Heq. apply Hx. rewrite Heq. by apply list_elem_of_fmap_2.
Qed.

Lemma by_sequence_filter p l :
  NoDup (ge_sequence <$> l) -> by_sequence (List.filter p l) = List.filter p (by_sequence l).
Proof.
  intros Hnd.
  assert (Hnd' : NoDup (ge_sequence <$> List.filter p l))
    by (eapply sublist_NoDup; [exact Hnd|apply fmap_sublist, filter_sublist_of]).
  eapply (StronglySorted_unique_strong (fun a b => ge_sequence a < ge_sequence b)).
  - intros x y _ _. lia.
  - by apply by_sequence_sorted.
  - by apply StronglySorted_filter, by_sequence_sorted.
  - rewrite by_sequence_perm. by rewrite (filter_perm p _ _ (by_sequence_perm l)).
Qed.

(** The SQLite repository. *)
#[export] Program Instance gateway_log : EventLog GDB := {|
  el_ok := g_ok;
  el_log tid db := by_sequence (events_of tid db);
  el_read := events_after;
  el_latest := latest_event_sequence;
|}.
Next Obligation.
  intros tid db Hok. apply StronglySorted_fmap, by_sequence_sorted. by apply sequences_distinct.
Qed.
Next Obligation.
  intros tid db e Hok He. rewrite by_sequence_perm in He. apply filter_elem_of in He as [He _]. by apply (ok_pos db).
Qed.
Next Obligation.
  intros tid db e He. rewrite by_sequence_perm in He. apply filter_elem_of in He as [_ He]. by apply String.eqb_eq.
Qed.
Next Obligation.
  intros tid after limit db Hok. unfold events_after. by rewrite by_sequence_filter by by apply sequences_distinct.
Qed.
Next Obligation.
  intros tid db _. unfold latest_event_sequence. apply list_maxZ_perm, fmap_Permutation. symmetry. apply by_sequence_perm.
Qed.

(** ** Following a complete log *)

Definition event_frames (e : GEventRow) : list frame :=
  EventFrame e :: (if terminal_type (ge_event_type e) then [UpdatedFrame (ge_turn_id e) (ge_session_id e)] else []).
Definition frames_of (l : list GEventRow) : list frame := l ≫= event_frames.

(** Nothing was compacted away: the events are numbered 1, 2, 3, ... *)
Definition complete (l : list GEventRow) : Prop := ge_sequence <$> l = seqZ 1 (Z.of_nat (length l)).

(** The events numbered [a+1] to [b]. *)
Definition slice (a b : Z) (l : list GEventRow) : list GEventRow :=
  take (Z.to_nat (b - a)) (drop (Z.to_nat a) l).

Lemma complete_lookup l i e : complete l -> l !! i = Some e -> ge_sequence e = Z.of_nat i + 1.
Proof.
  intros Hc Hl. assert (Hq : (ge_sequence <$> l) !! i = Some (ge_sequence e)) by (by rewrite list_lookup_fmap, Hl).
  rewrite Hc in Hq. apply lookup_seqZ in Hq. lia.
Qed.

Lemma complete_filter l a : complete l -> 0 <= a -> List.filter (fun e => a <? ge_sequence e) l = drop (Z.to_nat a) l.
Proof.
  intros Hc Ha. rewrite <- (take_drop (Z.to_nat a) l) at 1. rewrite List.filter_app.
  rewrite filter_none, filter_all; [done| |].
  - intros e [i Hi]%list_elem_of_lookup. rewrite lookup_drop in Hi. apply complete_lookup in Hi; [|done]. lia.
  - intros e [i Hi]%list_elem_of_lookup. apply lookup_take_Some in Hi as [Hi Hlt]. apply complete_lookup in Hi; [|done]. lia.
Qed.

Lemma slice_prefix a b l k : l `prefix_of` k -> b <= Z.of_nat (length l) -> 0 <= a -> slice a b l = slice a b k.
Proof.
  intros [m ->] Hb Ha. unfold slice. destruct (decide (a <= Z.of_nat (length l))).
  - rewrite drop_app_le by lia. rewrite take_app_le; [done|]. rewrite length_drop. lia.
  - rewrite !(nil_length_inv (take _ _)); [done|rewrite length_take; lia..].
Qed.

Lemma slice_split a m b l : 0 <= a -> a <= m <= b -> slice a b l = slice a m l ++ slice m b l.
Proof.
  intros Ha Hm. unfold slice. replace (Z.to_nat (b - a)) with (Z.to_nat (m - a) + Z.to_nat (b - m))%nat by lia.
  rewrite <- take_take_drop, drop_drop. by replace (Z.to_nat a + Z.to_nat (m - a))%nat with (Z.to_nat m) by lia.
Qed.

Lemma frames_of_app l k : frames_of (l ++ k) = frames_of l ++ frames_of k.
Proof. apply bind_app. Qed.

Lemma send_event_new e fd : fd_last fd < ge_sequence e ->
  send_gateway_event e fd = {| fd_last := ge_sequence e; fd_frames := fd_frames fd ++ event_frames e |}.
Proof.
  intros Hlt. unfold send_gateway_event, send_frame, event_frames. rewrite (proj2 (Z.leb_gt _ _)) by done.
  destruct (terminal_type _); cbn; [|done]. by rewrite <- app_assoc.
Qed.

(** A page numbered without a hole after the last event, within the target. *)
Lemma send_page_chunk l target fd sent :
  ge_sequence <$> l = seqZ (fd_last fd + 1) (Z.of_nat (length l)) -> fd_last fd + Z.of_nat (length l) <= target ->
  send_page l target fd sent
  = ({| fd_last := fd_last fd + Z.of_nat (length l); fd_frames := fd_frames fd ++ frames_of l |},
     sent + Z.of_nat (length l)).
Proof.
  revert fd sent. induction l as [|e l IH]; intros fd sent Hseq Ht; cbn [send_page].
  - cbn. rewrite app_nil_r, !Z.add_0_r. by destruct fd.
  - cbn [length] in *. rewrite Nat2Z.inj_succ in *. rewrite seqZ_cons in Hseq by lia. injection Hseq as He Hl.
    rewrite (proj2 (Z.ltb_ge _ _)) by lia. rewrite send_event_new by lia. rewrite IH; cbn [fd_last fd_frames].
    + f_equal; [|lia]. f_equal; [lia|]. unfold frames_of. cbn [mbind list_bind]. by rewrite app_assoc.
    + etransitivity; [exact Hl|]. f_equal; lia.
    + lia.
Qed.

Section following.
Context {S : Type} `{EventLog S}.

(** What a reader sees while the log of a Turn grows to [L]. *)
Definition sees (tid : string) (L : list GEventRow) (upto : Z) (s : S) : Prop :=
  el_ok s /\ el_log tid s `prefix_of` L /\ upto <= Z.of_nat (length (el_log tid s)).

Lemma complete_prefix l k : l `prefix_of` k -> complete k -> complete l.
Proof.
  intros [m ->] Hc. unfold complete in *. rewrite fmap_app, length_app, Nat2Z.inj_add, seqZ_app in Hc by lia.
  apply app_inj_1 in Hc as [Hl _]; [done|]. rewrite length_fmap, length_seqZ. lia.
Qed.

Lemma slice_seq a b l : complete l -> 0 <= a <= b -> b <= Z.of_nat (length l) ->
  ge_sequence <$> slice a b l = seqZ (a + 1) (b - a) /\ Z.of_nat (length (slice a b l)) = b - a.
Proof.
  intros Hc Ha Hb.
  assert (Hlen : Z.of_nat (length (slice a b l)) = b - a) by (unfold slice; rewrite length_take, length_drop; lia).
  split; [|done]. apply list_eq. intros i. destruct (decide (Z.of_nat i < b - a)) as [Hi|Hi].
  - rewrite list_lookup_fmap. destruct (slice a b l !! i) as [e|] eqn:He.
    + cbn. symmetry. apply lookup_seqZ. unfold slice in He. apply lookup_take_Some in He as [He _].
      rewrite lookup_drop in He. apply complete_lookup in He; [|done]. lia.
    + apply lookup_ge_None in He. lia.
  - rewrite !(proj2 (lookup_ge_None _ _)); [done| |]; rewrite ?length_fmap, ?length_seqZ; lia.
Qed.

(** A page of a complete log. *)
Lemma read_complete tid L a target s : complete L -> 0 <= a < target -> sees tid L target s ->
  el_read tid a (Z.min 2000 (target - a)) s = slice a (a + Z.min 2000 (target - a)) L.
Proof.
  intros Hc Ha (Hok & Hp & Ht). rewrite el_read_spec by done. rewrite (Z.max_r 0 a) by lia.
  rewrite complete_filter; [|by eapply complete_prefix|lia].
  rewrite <- (slice_prefix _ _ _ _ Hp) by lia. unfold slice. f_equal. lia.
Qed.

Lemma replay_complete tid L target reads : forall fd sent,
  complete L -> 0 <= fd_last fd -> Forall (sees tid L target) reads ->
  target - fd_last fd <= 2000 * Z.of_nat (length reads) -> fd_last fd <= target ->
  exists rest, replay_locked tid target reads fd sent
    = Some ({| fd_last := target; fd_frames := fd_frames fd ++ frames_of (slice (fd_last fd) target L) |},
            sent + (target - fd_last fd), rest).
Proof.
  induction reads as [|s reads IH]; intros fd sent Hc Ha Hs Hn Hle; cbn [replay_locked].
  - cbn in Hn. assert (fd_last fd = target) as <- by lia. rewrite Z.ltb_irrefl, Z.sub_diag, Z.add_0_r.
    exists []. unfold slice. rewrite Z.sub_diag. cbn. rewrite app_nil_r. by destruct fd.
  - apply Forall_cons in Hs as [Hs Hss]. destruct (fd_last fd <? target) eqn:Hlt.
    2:{ assert (fd_last fd = target) as <- by lia. exists (s :: reads). rewrite Z.sub_diag, Z.add_0_r.
        unfold slice. rewrite Z.sub_diag. cbn. rewrite app_nil_r. by destruct fd. }
    rewrite (read_complete tid L) by (done || lia). set (k := Z.min 2000 (target - fd_last fd)).
    assert (Htl : target <= Z.of_nat (length L)).
    { destruct Hs as (_ & Hp & Ht). apply prefix_length in Hp. lia. }
    destruct (slice_seq (fd_last fd) (fd_last fd + k) L) as [Hq Hlen]; [done|lia|lia|].
    destruct (slice (fd_last fd) (fd_last fd + k) L) as [|x l] eqn:Hsl; [cbn in Hlen; lia|].
    assert (Hx : ge_sequence x = fd_last fd + 1).
    { rewrite seqZ_cons in Hq by lia. cbn in Hq. by injection Hq. }
    rewrite (proj2 (Z.ltb_ge _ _)) by lia.
    rewrite (send_page_chunk (x :: l)); [|rewrite Hlen; etransitivity; [exact Hq|f_equal; lia]|lia].
    cbn [fst snd]. rewrite Hlen, <- Hsl.
    destruct (IH {| fd_last := fd_last fd + (fd_last fd + k - fd_last fd);
                    fd_frames := fd_frames fd ++ frames_of (slice (fd_last fd) (fd_last fd + k) L) |}
                (sent + (fd_last fd + k - fd_last fd)) Hc) as [rest Hr]; cbn [fd_last]; [lia|done|cbn in Hn; lia|lia|].
    exists rest. rewrite Hr. cbn [fd_last fd_frames].
    replace (fd_last fd + (fd_last fd + k - fd_last fd)) with (fd_last fd + k) by lia.
    rewrite (slice_split (fd_last fd) (fd_last fd + k) target) by lia. rewrite frames_of_app, app_assoc.
    do 3 f_equal. lia.
Qed.
(** Delivery fills the gap: when the log of a Turn is complete, delivering one of its
    events sends exactly the events after the last one shown, up to and including it, in order
    and each once, reading at most one page of 2000 per round and announcing no gap. *)
Lemma deliver_sends_missing_events tid L e reads fd :
  complete L -> e ∈ L -> ge_turn_id e = tid -> 0 <= fd_last fd -> Forall (sees tid L (ge_sequence e - 1)) reads ->
  ge_sequence e - fd_last fd <= 2000 * Z.of_nat (length reads) + 1 ->
  deliver e reads fd = Some {| fd_last := Z.max (fd_last fd) (ge_sequence e);
                               fd_frames := fd_frames fd ++ frames_of (slice (fd_last fd) (ge_sequence e) L) |}.
Proof.
  intros Hc [i Hi]%list_elem_of_lookup <- Ha Hs Hn. pose proof (complete_lookup _ _ _ Hc Hi) as Hseq.
  pose proof (lookup_lt_Some _ _ _ Hi) as Hlt.
  assert (Hlast : slice (ge_sequence e - 1) (ge_sequence e) L = [e]).
  { unfold slice. replace (Z.to_nat (ge_sequence e - (ge_sequence e - 1))) with 1%nat by lia.
    replace (Z.to_nat (ge_sequence e - 1)) with i by lia. by rewrite (drop_S _ _ _ Hi). }
  unfold deliver. destruct (ge_sequence e <=? fd_last fd) eqn:Hle.
  { rewrite Z.max_l by lia. unfold slice. replace (Z.to_nat (ge_sequence e - fd_last fd)) with 0%nat by lia.
    cbn. rewrite app_nil_r. by destruct fd. }
  rewrite Z.max_r by lia. destruct (fd_last fd + 1 <? ge_sequence e) eqn:Hgap.
  - destruct (replay_complete (ge_turn_id e) L (ge_sequence e - 1) reads fd 0) as [rest ->]; [done..|lia|lia|].
    cbn [fd_last]. rewrite (proj2 (Z.ltb_ge _ _)) by lia. rewrite send_event_new by (cbn; lia). cbn [fd_frames].
    rewrite (slice_split (fd_last fd) (ge_sequence e - 1) (ge_sequence e)) by lia. rewrite frames_of_app, Hlast, app_assoc.
    unfold frames_of at 3. cbn. by rewrite app_nil_r.
  - assert (fd_last fd = ge_sequence e - 1) as Heq by lia. rewrite send_event_new by lia. rewrite Heq, Hlast.
    unfold frames_of. cbn. by rewrite app_nil_r.
Qed.

(** A hole stalls the connection: when everything up to the event before the one to
    deliver is gone from the log but later rows are there, [_replay_locked] reads the same page
    for ever, announcing the same gap each time: however often it reads, it has not returned. *)
Lemma replay_never_returns_on_hole tid target reads : forall fd sent,
  fd_last fd < target -> 0 <= fd_last fd ->
  Forall (fun s => el_ok s /\ (exists e, e ∈ el_log tid s /\ target < ge_sequence e)
                   /\ forall e, e ∈ el_log tid s -> ge_sequence e <= fd_last fd \/ target < ge_sequence e) reads ->
  replay_locked tid target reads fd sent = None.
Proof.
  induction reads as [|s reads IH]; intros fd sent Hlt Ha Hs; cbn [replay_locked];
    rewrite (proj2 (Z.ltb_lt _ _) Hlt); [done|].
  apply Forall_cons in Hs as [(Hok & (w & Hw & Hwt) & Hall) Hs]. rewrite el_read_spec by done.
  destruct (Z.to_nat _) as [|n] eqn:Hn; [lia|].
  set (l := List.filter (fun e => Z.max 0 (fd_last fd) <? ge_sequence e) (el_log tid s)).
  assert (Hin : forall e, e ∈ l -> target < ge_sequence e).
  { intros e [He Hl]%filter_elem_of. destruct (Hall e He); lia. }
  assert (Hne : w ∈ l) by (apply filter_elem_of; split; [done|lia]).
  destruct l as [|x l']; [by apply elem_of_nil in Hne|]. cbn [take].
  assert (Hx : target < ge_sequence x) by (apply Hin; by left).
  cbn [send_page]. rewrite (proj2 (Z.ltb_lt _ _) Hx). cbn [fst snd].
  rewrite (proj2 (Z.ltb_lt (fd_last fd + 1) _)) by lia. by apply IH.
Qed.

(** ** What a client sees *)

Definition frame_turn (f : frame) : string :=
  match f with EventFrame e => ge_turn_id e | GapFrame t _ _ _ _ => t | UpdatedFrame t _ => t end.
Definition frame_sequence (f : frame) : option Z := match f with EventFrame e => Some (ge_sequence e) | _ => None end.
Definition sequences (l : list frame) : list Z := omap frame_sequence l.
Definition of_feed (tid : string) (l : list frame) : list frame :=
  List.filter (fun f => String.eqb (frame_turn f) tid) l.

(** One call on a feed: an event of its Turn is delivered, or the client resumes. *)
Inductive feed_step (tid : string) (fd : Feed) : Feed -> Prop :=
| fs_deliver e reads fd' : ge_turn_id e = tid -> Forall el_ok reads -> deliver e reads fd = Some fd' ->
    feed_step tid fd fd'
| fs_replay after latest reads fd' n : Forall el_ok reads ->
    replay_turn tid after latest reads fd = Some (Ok (fd', n)) -> feed_step tid fd fd'.

(** A connection: the feeds of its Turns, how many frames of each were handed to [send], and
    the send queue. *)
Record Connection := { cn_feeds : gmap string Feed; cn_handed : gmap string nat; cn_out : Outbound }.

Definition feed_of (c : Connection) (tid : string) : Feed := default feed0 (cn_feeds c !! tid).
Definition handed (c : Connection) (tid : string) : nat := default 0%nat (cn_handed c !! tid).

Inductive connection_run (size : Z) : Connection -> Prop :=
| cr_open : connection_run size {| cn_feeds := ∅; cn_handed := ∅; cn_out := outbound0 size |}
| cr_call c tid fd : connection_run size c -> feed_step tid (feed_of c tid) fd ->
    connection_run size {| cn_feeds := <[tid := fd]> (cn_feeds c); cn_handed := cn_handed c; cn_out := cn_out c |}
| cr_send c tid f : connection_run size c -> fd_frames (feed_of c tid) !! handed c tid = Some f ->
    connection_run size {| cn_feeds := cn_feeds c; cn_handed := <[tid := Datatypes.S (handed c tid)]> (cn_handed c);
                           cn_out := (send f (cn_out c)).1 |}
| cr_sender c ok : connection_run size c ->
    connection_run size {| cn_feeds := cn_feeds c; cn_handed := cn_handed c; cn_out := sender_round ok (cn_out c) |}
| cr_close c : connection_run size c ->
    connection_run size {| cn_feeds := cn_feeds c; cn_handed := cn_handed c; cn_out := terminate (cn_out c) |}.
(** *** The invariant of a feed *)

Definition feed_ok (tid : string) (fd : Feed) : Prop :=
  StronglySorted Z.lt (sequences (fd_frames fd))
  /\ Forall (fun x => x <= fd_last fd) (sequences (fd_frames fd))
  /\ Forall (fun f => frame_turn f = tid) (fd_frames fd).

(** A call only adds frames, and keeps the invariant. *)
Definition feed_grows (tid : string) (fd fd' : Feed) : Prop :=
  fd_frames fd `prefix_of` fd_frames fd' /\ (feed_ok tid fd -> feed_ok tid fd').

#[local] Instance feed_grows_preorder tid : PreOrder (feed_grows tid).
Proof.
  split; [intros fd; by split|]. intros a b c [P1 O1] [P2 O2]. split; [by etrans|]. auto.
Qed.

Lemma feed_ok_new tid : feed_ok tid feed0.
Proof. unfold feed_ok. cbn. split_and!; constructor. Qed.

Lemma sequences_app l k : sequences (l ++ k) = sequences l ++ sequences k.
Proof. apply omap_app. Qed.

Lemma StronglySorted_snoc l x : StronglySorted Z.lt l -> Forall (fun y => y < x) l -> StronglySorted Z.lt (l ++ [x]).
Proof.
  induction 1 as [|y l Hs IH Hall]; cbn; [by repeat constructor|]. intros [Hy Hl]%Forall_cons. constructor; [by apply IH|].
  apply Forall_app. split; [done|]. by repeat constructor.
Qed.

Lemma grows_gap tid f fd : frame_turn f = tid -> frame_sequence f = None -> feed_grows tid fd (send_frame f fd).
Proof.
  intros Ht Hf. split; [by eexists|]. intros (Hs & Hl & Hall). unfold feed_ok. cbn [send_frame fd_frames fd_last].
  rewrite sequences_app. cbn. rewrite Hf, app_nil_r. split_and!; [done..|]. apply Forall_app. split; [done|]. by repeat constructor.
Qed.

Lemma grows_event tid e fd : ge_turn_id e = tid -> feed_grows tid fd (send_gateway_event e fd).
Proof.
  intros Ht. unfold send_gateway_event. destruct (ge_sequence e <=? fd_last fd) eqn:Hle; [reflexivity|].
  assert (Hev : feed_grows tid fd (send_frame (EventFrame e) {| fd_last := ge_sequence e; fd_frames := fd_frames fd |})).
  { split; [by eexists|]. intros (Hs & Hl & Hall). unfold feed_ok. cbn [send_frame fd_frames fd_last].
    rewrite sequences_app. cbn. split_and!.
    - apply StronglySorted_snoc; [done|]. eapply Forall_impl; [exact Hl|]. cbn. lia.
    - apply Forall_app. split; [|by repeat constructor]. eapply Forall_impl; [exact Hl|]. cbn. lia.
    - apply Forall_app. split; [done|]. by repeat constructor. }
  destruct (terminal_type _); [|done]. etransitivity; [exact Hev|]. by apply grows_gap.
Qed.

Lemma grows_page tid target l : forall fd sent, Forall (fun e => ge_turn_id e = tid) l ->
  feed_grows tid fd (send_page l target fd sent).1.
Proof.
  induction l as [|e l IH]; intros fd sent Hl; cbn [send_page]; [reflexivity|].
  apply Forall_cons in Hl as [He Hl]. destruct (target <? _); [reflexivity|].
  etransitivity; [by apply grows_event|]. by apply IH.
Qed.

Lemma read_of_turn tid a n s : el_ok s -> Forall (fun e => ge_turn_id e = tid) (el_read tid a n s).
Proof.
  intros Hok. rewrite el_read_spec by done. apply Forall_take, Forall_forall. intros e [He _]%filter_elem_of.
  by eapply el_of_turn.
Qed.

Lemma grows_replay tid target reads : forall fd sent r, Forall el_ok reads ->
  replay_locked tid target reads fd sent = Some r -> feed_grows tid fd r.1.1.
Proof.
  induction reads as [|s reads IH]; intros fd sent r Hok; cbn [replay_locked]; destruct (fd_last fd <? target);
    intros Hr; try done; try by injection Hr as <-.
  apply Forall_cons in Hok as [Hs Hok].
  pose proof (read_of_turn tid (fd_last fd) (Z.min 2000 (target - fd_last fd)) s Hs) as Ht.
  destruct (el_read _ _ _ s) as [|x l]; [by injection Hr as <-|]. pose proof (Forall_inv Ht) as Hx.
  etransitivity; [|eapply IH; [exact Hok|exact Hr]]. etransitivity; [|by apply grows_page].
  case_match; [by apply grows_gap|reflexivity].
Qed.

Lemma feed_step_grows tid fd fd' : feed_step tid fd fd' -> feed_grows tid fd fd'.
Proof.
  intros [e reads fd1 Ht Hok Hr|after latest reads fd1 n Hok Hr].
  - unfold deliver in Hr. destruct (_ <=? _); [injection Hr as <-; reflexivity|].
    destruct (fd_last fd + 1 <? _); [|injection Hr as <-; by apply grows_event].
    destruct (replay_locked _ _ _ _ _) as [[[fd2 k] rest]|] eqn:Hrep; [|done]. injection Hr as <-.
    rewrite Ht in Hrep. apply grows_replay in Hrep; [|done].
    etransitivity; [exact Hrep|]. etransitivity; [|by apply grows_event]. case_match; [by apply grows_gap|reflexivity].
  - unfold replay_turn in Hr. destruct (_ <? _); [done|]. destruct (replay_locked _ _ _ _ _) as [[[fd2 k] rest]|] eqn:Hrep; [|done].
    injection Hr as <- _. apply grows_replay in Hrep; [|done]. etransitivity; [|exact Hrep].
    split; [done|]. intros (Hs & Hl & Hall). split_and!; [done| |done]. eapply Forall_impl; [exact Hl|]. cbn. lia.
Qed.

(** *** The invariant of a connection *)

Record conn_ok (c : Connection) : Prop := {
  co_feed : forall tid, feed_ok tid (feed_of c tid);
  co_sent : forall tid, of_feed tid (ob_wire (cn_out c) ++ ob_queue (cn_out c))
                        `prefix_of` take (handed c tid) (fd_frames (feed_of c tid));
  co_handed : forall tid, (handed c tid <= length (fd_frames (feed_of c tid)))%nat;
  co_open : ob_closed (cn_out c) = false -> forall tid,
    of_feed tid (ob_wire (cn_out c) ++ ob_queue (cn_out c)) = take (handed c tid) (fd_frames (feed_of c tid));
}.

Lemma of_feed_app tid l k : of_feed tid (l ++ k) = of_feed tid l ++ of_feed tid k.
Proof. apply List.filter_app. Qed.

Lemma of_feed_prefix tid l k m : of_feed tid (l ++ k) `prefix_of` m -> of_feed tid l `prefix_of` m.
Proof. rewrite of_feed_app. apply prefix_app_l. Qed.

(** Closing, or sending what is queued, keeps the invariant. *)
Lemma conn_ok_out c o : conn_ok c ->
  (ob_wire o ++ ob_queue o `prefix_of` ob_wire (cn_out c) ++ ob_queue (cn_out c)) ->
  (ob_closed o = false -> ob_closed (cn_out c) = false /\ ob_wire o ++ ob_queue o = ob_wire (cn_out c) ++ ob_queue (cn_out c)) ->
  conn_ok {| cn_feeds := cn_feeds c; cn_handed := cn_handed c; cn_out := o |}.
Proof.
  intros [Hf Hs Hn Ho] [k Hk] Hopen. split; cbn; [exact Hf| |exact Hn|].
  - intros tid. apply (of_feed_prefix _ _ k). rewrite <- Hk. apply Hs.
  - intros Hc tid. destruct (Hopen Hc) as [Hc' ->]. by apply Ho.
Qed.

Lemma terminate_prefix o : ob_wire (terminate o) ++ ob_queue (terminate o) `prefix_of` ob_wire o ++ ob_queue o.
Proof. cbn. rewrite app_nil_r. by eexists. Qed.

Lemma sender_round_keeps ok o :
  ob_wire (sender_round ok o) ++ ob_queue (sender_round ok o) `prefix_of` ob_wire o ++ ob_queue o
  /\ (ob_closed (sender_round ok o) = false ->
      ob_closed o = false /\ ob_wire (sender_round ok o) ++ ob_queue (sender_round ok o) = ob_wire o ++ ob_queue o).
Proof.
  destruct o as [q n cl w]. unfold sender_round. cbn. destruct cl; [done|]. destruct q as [|f q]; [done|].
  destruct ok; cbn; [by rewrite <- app_assoc|]. rewrite app_nil_r. split; [by eexists|done].
Qed.

Lemma conn_ok_send c tid f : conn_ok c -> fd_frames (feed_of c tid) !! handed c tid = Some f ->
  conn_ok {| cn_feeds := cn_feeds c; cn_handed := <[tid := Datatypes.S (handed c tid)]> (cn_handed c);
             cn_out := (send f (cn_out c)).1 |}.
Proof.
  intros [Hf Hs Hn Ho] Hl.
  assert (Hturn : frame_turn f = tid).
  { destruct (Hf tid) as (_ & _ & Hall). rewrite Forall_forall in Hall. by eapply Hall, list_elem_of_lookup_2. }
  set (h := fun t => default 0%nat (<[tid := Datatypes.S (handed c tid)]> (cn_handed c) !! t)).
  assert (Hh : forall t, take (h t) (fd_frames (feed_of c t)) = take (handed c t) (fd_frames (feed_of c t)) ++ of_feed t [f]).
  { intros t. unfold h, of_feed. cbn [List.filter]. rewrite Hturn. destruct (decide (tid = t)) as [<-|Hne].
    - rewrite lookup_insert_eq, String.eqb_refl. by apply take_S_r.
    - rewrite lookup_insert_ne, (proj2 (String.eqb_neq _ _)) by done. by rewrite app_nil_r. }
  split; cbn [cn_feeds cn_out]; [exact Hf| | |].
  2:{ intros t. change (handed _ t) with (h t). change (feed_of _ t) with (feed_of c t). unfold h.
      destruct (decide (tid = t)) as [<-|Hne]; [rewrite lookup_insert_eq; by apply lookup_lt_Some in Hl|].
      rewrite lookup_insert_ne by done. apply Hn. }
  - intros t. change (handed _ t) with (h t). change (feed_of _ t) with (feed_of c t). rewrite Hh.
    unfold send. destruct (ob_closed (cn_out c)) eqn:Hc; [by apply prefix_app_r|]. destruct (ob_size _ <=? _).
    + cbn [fst terminate ob_wire ob_queue]. rewrite app_nil_r. apply prefix_app_r. eapply of_feed_prefix, Hs.
    + cbn [fst ob_wire ob_queue]. by rewrite app_assoc, of_feed_app, Ho.
  - intros Hclosed t. change (handed _ t) with (h t). change (feed_of _ t) with (feed_of c t). rewrite Hh. revert Hclosed.
    unfold send. destruct (ob_closed (cn_out c)) eqn:Hc; [cbn; congruence|]. destruct (ob_size _ <=? _); [done|].
    intros _. cbn [fst ob_wire ob_queue]. by rewrite app_assoc, of_feed_app, Ho.
Qed.

Lemma connection_ok size c : connection_run size c -> conn_ok c.
Proof.
  induction 1 as [|c tid fd _ IH Hs|c tid f _ IH Hl|c ok _ IH|c _ IH].
  - split; cbn; [intros tid; apply feed_ok_new|done|intros tid; apply Nat.le_0_l|done].
  - destruct IH as [Hf Hs' Hn Ho]. pose proof (feed_step_grows _ _ _ Hs) as [Hp Hg].
    set (c' := {| cn_feeds := <[tid := fd]> (cn_feeds c); cn_handed := cn_handed c; cn_out := cn_out c |}).
    assert (Hfd : forall t, feed_ok t (feed_of c' t) /\ fd_frames (feed_of c t) `prefix_of` fd_frames (feed_of c' t)).
    { intros t. unfold feed_of at 1 3. cbn. destruct (decide (tid = t)) as [<-|Hne].
      - rewrite lookup_insert_eq. split; [by apply Hg|done].
      - rewrite lookup_insert_ne by done. split; [apply Hf|done]. }
    assert (Htk : forall t, take (handed c' t) (fd_frames (feed_of c' t)) = take (handed c t) (fd_frames (feed_of c t))).
    { intros t. destruct (Hfd t) as [_ [k ->]]. rewrite take_app_le by apply Hn. done. }
    split; [apply Hfd| | |].
    + intros t. rewrite Htk. apply Hs'.
    + intros t. etransitivity; [apply Hn|]. apply prefix_length, Hfd.
    + intros Hc t. rewrite Htk. by apply Ho.
  - by apply conn_ok_send.
  - destruct (sender_round_keeps ok (cn_out c)) as [Hp Ho]. by apply conn_ok_out.
  - apply conn_ok_out; [done|apply terminate_prefix|done].
Qed.

(** C13: Whatever the repository holds, in whatever order and however often events are
    published, replayed and resumed, however the calls of different Turns interleave and
    whenever the connection breaks, the events of a Turn reach the client in strictly
    increasing order of their sequence, so none twice. *)
Theorem client_sees_events_once_in_order size c tid :
  connection_run size c -> StronglySorted Z.lt (sequences (of_feed tid (ob_wire (cn_out c)))).
Proof.
  intros [Hf Hs _ _]%connection_ok. destruct (Hf tid) as (Hsorted & _ & _). specialize (Hs tid).
  apply of_feed_prefix in Hs. assert (Hp : of_feed tid (ob_wire (cn_out c)) `prefix_of` fd_frames (feed_of c tid)).
  { etransitivity; [exact Hs|]. apply prefix_take. }
  destruct Hp as [k Hk]. rewrite Hk, sequences_app in Hsorted. by apply StronglySorted_app_1_l in Hsorted.
Qed.
End following.

#[local] Existing Instance gateway_uuids.

(** The log of the finished Turn, before and after a run of the retention with a cap of one. *)
Module FeedExample.
Definition db : GDB := GatewayExample.db5.
Definition log : list GEventRow := el_log "t" db.
Definition newest : GEventRow :=
  {| ge_event_id := "e2"; ge_turn_id := "t"; ge_session_id := "s"; ge_sequence := 3;
     ge_event_type := TURN_COMPLETED; ge_created_at := 14; ge_payload := JObj [] |}.
Definition pruned : GDB := (run_tx (prune_events 7 1 20) db).2.

Lemma pruned_reachable : greachable pruned.
Proof. exact (gr_step _ _ GatewayExample.db5_reachable (g_prune db 7 1 20)). Qed.
End FeedExample.



Lemma client_sees_events_once_in_order_witness :
  exists c, connection_run 10 c /\ sequences (of_feed "t" (ob_wire (cn_out c))) = [1]
    /\ StronglySorted Z.lt (sequences (of_feed "t" (ob_wire (cn_out c)))).
Proof.
  pose (c0 := {| cn_feeds := ∅; cn_handed := ∅; cn_out := outbound0 10 |}).
  pose (fd := {| fd_last := 3; fd_frames := frames_of (slice 0 3 FeedExample.log) |}).
  assert (H1 : connection_run 10 {| cn_feeds := <["t" := fd]> ∅; cn_handed := ∅; cn_out := outbound0 10 |}).
  { refine (cr_call 10 c0 "t" fd (cr_open 10) _). eapply (fs_deliver "t" feed0 FeedExample.newest [FeedExample.db]); [done| |].
    - constructor; [apply greachable_ok, GatewayExample.db5_reachable|constructor].
    - vm_compute. reflexivity. }
  pose proof (cr_send 10 _ "t" (EventFrame (nth 0 FeedExample.log FeedExample.newest)) H1 ltac:(vm_compute; reflexivity)) as H2.
  pose proof (cr_sender 10 _ true H2) as H3. eexists. split; [exact H3|]. split; [vm_compute; reflexivity|].
  exact (client_sees_events_once_in_order 10 _ "t" H3).
Defined.
