(* ===== verification/KnowledgeStore.v ===== *)
(** * KnowledgeStore: the tables of the knowledge book and its text functions

    [gateway_knowledge_pages], [gateway_knowledge_book_assets], [gateway_knowledge_book_files],
    [gateway_knowledge_book_file_refs] and [gateway_whiteboard_library_items] of
    [gateway/repository.py], and [urllib.parse.unquote] and the regular expression for asset paths,
    on UTF-8 strings. *)
From S2P Require Import Prelude PyText Json GatewayTurns.
Local Open Scope Z_scope.

Record PageRow := {
  kp_draft_markdown : string;
  kp_published_markdown : option string;
  kp_revision : Z;
  kp_published_revision : option Z;
  kp_updated_at : Z;
}.

Record AssetRow := {
  ka_media_type : string;
  ka_draft_content : string;
  ka_published_content : option string;
  ka_size_bytes : Z;
  ka_sha256 : string;
  ka_updated_at : Z;
}.

Record FileRow := {
  kf_workspace_id : string;
  kf_knowledge_point_id : string;
  kf_original_name : string;
  kf_display_name : string;
  kf_media_type : string;
  kf_content : string;
  kf_size_bytes : Z;
  kf_sha256 : string;
  kf_created_by : string;
  kf_created_at : Z;
  kf_updated_at : Z;
}.

Record RefRow := {
  rf_workspace_id : string;
  rf_knowledge_point_id : string;
  rf_file_id : string;
  rf_state : string;
  rf_sort_order : Z;
  rf_created_at : Z;
}.

(** An item of the whiteboard library: [item_json] repeats the code and the name, and has the
    elements and [created], in milliseconds. *)
Record LibraryRow := {
  wl_asset_code : string;
  wl_name : string;
  wl_elements : list json;
  wl_created : Z;
  wl_created_by : string;
  wl_created_at : Z;
}.

Record KDB := {
  k_pages : gmap (string * string) PageRow;
  k_assets : gmap (string * string) AssetRow;
  k_files : gmap string FileRow;
  k_refs : list RefRow;
  k_library : gmap string LibraryRow;
  k_next_uuid : nat;
}.

Abbreviation Ktx := (ST KDB GatewayError).

Definition set_pages (db : KDB) (m : gmap (string * string) PageRow) : KDB :=
  {| k_pages := m; k_assets := k_assets db; k_files := k_files db; k_refs := k_refs db;
     k_library := k_library db; k_next_uuid := k_next_uuid db |}.
Definition set_assets (db : KDB) (m : gmap (string * string) AssetRow) : KDB :=
  {| k_pages := k_pages db; k_assets := m; k_files := k_files db; k_refs := k_refs db;
     k_library := k_library db; k_next_uuid := k_next_uuid db |}.
Definition set_files (db : KDB) (m : gmap string FileRow) : KDB :=
  {| k_pages := k_pages db; k_assets := k_assets db; k_files := m; k_refs := k_refs db;
     k_library := k_library db; k_next_uuid := k_next_uuid db |}.
Definition set_refs (db : KDB) (l : list RefRow) : KDB :=
  {| k_pages := k_pages db; k_assets := k_assets db; k_files := k_files db; k_refs := l;
     k_library := k_library db; k_next_uuid := k_next_uuid db |}.
Definition set_library (db : KDB) (m : gmap string LibraryRow) : KDB :=
  {| k_pages := k_pages db; k_assets := k_assets db; k_files := k_files db; k_refs := k_refs db;
     k_library := m; k_next_uuid := k_next_uuid db |}.
Definition set_kuuid (db : KDB) (n : nat) : KDB :=
  {| k_pages := k_pages db; k_assets := k_assets db; k_files := k_files db; k_refs := k_refs db;
     k_library := k_library db; k_next_uuid := n |}.

(** ** Text *)

(** [urllib.parse.unquote]: percent escapes become bytes, and bytes that are not UTF-8 the
    replacement character, one for every maximal part of a character. *)
Definition hex_value (c : ascii) : option nat :=
  let n := nat_of_ascii c in
  if (48 <=? n)%nat && (n <=? 57)%nat then Some (n - 48)%nat
  else if (65 <=? n)%nat && (n <=? 70)%nat then Some (n - 55)%nat
  else if (97 <=? n)%nat && (n <=? 102)%nat then Some (n - 87)%nat
  else None.

Fixpoint percent_decode (s : string) : string :=
  match s with
  | String "%"%char ((String a (String b s')) as rest) =>
      match hex_value a, hex_value b with
      | Some x, Some y => String (ascii_of_nat (16 * x + y)) (percent_decode s')
      | _, _ => String "%"%char (percent_decode rest)
      end
  | String c s' => String c (percent_decode s')
  | EmptyString => EmptyString
  end.

Definition between (a b : nat) (c : ascii) : bool :=
  (a <=? nat_of_ascii c)%nat && (nat_of_ascii c <=? b)%nat.
Definition REPLACEMENT : string := bytes [239; 191; 189]%nat.

(** The second byte a lead byte of a three- or four-byte character allows. *)
Definition second_ok (lead c : ascii) : bool :=
  let n := nat_of_ascii lead in
  if (n =? 224)%nat then between 160 191 c else if (n =? 237)%nat then between 128 159 c
  else if (n =? 240)%nat then between 144 191 c else if (n =? 244)%nat then between 128 143 c
  else between 128 191 c.

Fixpoint utf8_replace (s : string) : string :=
  match s with
  | EmptyString => EmptyString
  | String a s1 =>
      if between 0 127 a then String a (utf8_replace s1)
      else if between 194 223 a then
        match s1 with
        | String b s2 => if between 128 191 b then String a (String b (utf8_replace s2))
                         else REPLACEMENT +:+ utf8_replace s1
        | EmptyString => REPLACEMENT
        end
      else if between 224 239 a then
        match s1 with
        | String b s2 =>
            if second_ok a b then
              match s2 with
              | String c s3 => if between 128 191 c then String a (String b (String c (utf8_replace s3)))
                               else REPLACEMENT +:+ utf8_replace s2
              | EmptyString => REPLACEMENT
              end
            else REPLACEMENT +:+ utf8_replace s1
        | EmptyString => REPLACEMENT
        end
      else if between 240 244 a then
        match s1 with
        | String b s2 =>
            if second_ok a b then
              match s2 with
              | String c s3 =>
                  if between 128 191 c then
                    match s3 with
                    | String d s4 => if between 128 191 d then String a (String b (String c (String d (utf8_replace s4))))
                                     else REPLACEMENT +:+ utf8_replace s3
                    | EmptyString => REPLACEMENT
                    end
                  else REPLACEMENT +:+ utf8_replace s2
              | EmptyString => REPLACEMENT
              end
            else REPLACEMENT +:+ utf8_replace s1
        | EmptyString => REPLACEMENT
        end
      else REPLACEMENT +:+ utf8_replace s1
  end.

Definition unquote (s : string) : string := utf8_replace (percent_decode s).

(** The longest run of characters that are no closing parenthesis, whitespace or quote. *)
Definition path_char (s : string) : bool :=
  match s with
  | EmptyString => false
  | String c _ => (space_width s =? 0)%nat && negb (Ascii.eqb c ")"%char)
                  && negb (nat_of_ascii c =? 34)%nat && negb (nat_of_ascii c =? 39)%nat
  end.
Fixpoint path_run (s : string) : string :=
  match s with
  | EmptyString => EmptyString
  | String c s' => if path_char s then String c (path_run s') else EmptyString
  end.

(** The [re.findall] for a slash, [assets], a slash and the path [assets/...]: matches do not
    overlap, so [skip] counts the bytes of the last one that are left. *)
Fixpoint find_paths (skip : nat) (s : string) : list string :=
  match s with
  | EmptyString => []
  | String _ s' =>
      match skip with
      | S k => find_paths k s'
      | O =>
          if String.prefix "/assets/assets/" s then
            match path_run (String.substring 15 (String.length s - 15) s) with
            | EmptyString => find_paths 0 s'
            | run => ("assets/" +:+ run) :: find_paths (14 + String.length run) s'
            end
          else find_paths 0 s'
      end
  end.

(** [path.split("/")]. *)
Fixpoint split_slash (s : string) : list string :=
  match s with
  | EmptyString => [""]
  | String "/"%char s' => "" :: split_slash s'
  | String c s' => match split_slash s' with x :: l => String c x :: l | [] => [String c ""] end
  end.

(** [_asset_paths_from_markdown]. *)
Definition asset_paths_from_markdown (markdown : string) : list string :=
  remove_dups (List.filter (fun path => String.prefix "assets/" path && negb (string_in ".." (split_slash path)))
                 (unquote <$> find_paths 0 markdown)).

Example asset_paths_example :
  asset_paths_from_markdown
    "![a](/assets/assets/x.png) /assets/assets/%E4%BD%A0.png) /assets/assets/../y /assets/assets/x.png"
  = [String.append "assets/" (bytes [228; 189; 160; 46; 112; 110; 103]%nat); "assets/x.png"].
Proof. vm_compute. reflexivity. Qed.
