(* ===== verification/KnowledgeBook.v ===== *)
(** * KnowledgeBook: pages, assets and files of the teaching material

    The methods of [GatewayRepository] ([gateway/repository.py]) on the knowledge book: drafts
    under optimistic concurrency, publication, the atomic import of a package, the files with
    their ordered draft and published references, and the whiteboard library.  [now_] is the
    clock a method reads; [sha256] is [hashlib.sha256(content).hexdigest()]. *)
From S2P Require Import Prelude PyText Json GatewayTurns KnowledgeStore.
Local Open Scope Z_scope.

(** ** Pages *)

Definition page (workspace_id point : string) (db : KDB) : option PageRow := k_pages db !! (workspace_id, point).

(** [list_knowledge_pages]: the rows of a workspace with their keys. *)
Definition list_knowledge_pages (workspace_id : string) (db : KDB) : list ((string * string) * PageRow) :=
  List.filter (fun kv : (string * string) * PageRow => String.eqb kv.1.1 workspace_id) (map_to_list (k_pages db)).

(** [get_published_knowledge_page]. *)
Definition get_published_knowledge_page (workspace_id point : string) (db : KDB) : option PageRow :=
  match page workspace_id point db with
  | Some p => match kp_published_markdown p with Some _ => Some p | None => None end
  | None => None
  end.

(** [_check_knowledge_page_revision]. *)
Definition page_revision (current : option PageRow) : Z :=
  match current with Some p => kp_revision p | None => 0 end.

Definition check_knowledge_page_revision (current : option PageRow) (expected : option Z) : Ktx Z :=
  let revision := page_revision current in
  match expected with
  | Some e => if e =? revision then mret revision else raise RevisionConflictError
  | None => mret revision
  end.

Definition draft_written (markdown : string) (revision now_ : Z) (p : PageRow) : PageRow :=
  {| kp_draft_markdown := markdown; kp_published_markdown := kp_published_markdown p; kp_revision := revision;
     kp_published_revision := kp_published_revision p; kp_updated_at := now_ |}.

Definition new_page (markdown : string) (revision now_ : Z) : PageRow :=
  {| kp_draft_markdown := markdown; kp_published_markdown := None; kp_revision := revision;
     kp_published_revision := None; kp_updated_at := now_ |}.

Definition page_published (revision now_ : Z) (p : PageRow) : PageRow :=
  {| kp_draft_markdown := kp_draft_markdown p; kp_published_markdown := Some (kp_draft_markdown p);
     kp_revision := kp_revision p; kp_published_revision := Some revision; kp_updated_at := now_ |}.

Definition update_page (key : string * string) (f : PageRow -> PageRow) : Ktx () :=
  modify (fun db => set_pages db (alter f key (k_pages db))).

(** [INSERT INTO gateway_knowledge_pages]. *)
Definition insert_page (key : string * string) (p : PageRow) : Ktx () := fun db =>
  match k_pages db !! key with
  | Some _ => Err GIntegrityError
  | None => Ok ((), set_pages db (<[key := p]> (k_pages db)))
  end.

(** The branch on [current] of [update_knowledge_page] and of the import. *)
Definition write_draft (workspace_id point : string) (current : option PageRow) (markdown : string)
  (revision now_ : Z) : Ktx () :=
  match current with
  | None => insert_page (workspace_id, point) (new_page markdown revision now_)
  | Some _ => update_page (workspace_id, point) (draft_written markdown revision now_)
  end.

(** [update_knowledge_page]. *)
Definition update_knowledge_page (workspace_id point draft_markdown : string) (expected : option Z) (now_ : Z)
  : Ktx (option PageRow) :=
  current ← gets (page workspace_id point);
  revision ← check_knowledge_page_revision current expected;
  _ ← write_draft workspace_id point current draft_markdown (revision + 1) now_;
  gets (page workspace_id point).

(** ** Files and their references *)

Definition file_of (workspace_id file_id : string) (db : KDB) : option FileRow :=
  match k_files db !! file_id with
  | Some f => if String.eqb (kf_workspace_id f) workspace_id then Some f else None
  | None => None
  end.

Definition ref_of_page (workspace_id point state : string) (r : RefRow) : bool :=
  String.eqb (rf_workspace_id r) workspace_id && String.eqb (rf_knowledge_point_id r) point
  && String.eqb (rf_state r) state.
Definition ref_of_file (workspace_id file_id : string) (r : RefRow) : bool :=
  String.eqb (rf_workspace_id r) workspace_id && String.eqb (rf_file_id r) file_id.

(** [ORDER BY sort_order, file_id]. *)
Definition ref_leb (a b : RefRow) : bool :=
  (rf_sort_order a <? rf_sort_order b)
  || ((rf_sort_order a =? rf_sort_order b) && string_leb (rf_file_id a) (rf_file_id b)).
Definition page_refs (workspace_id point state : string) (db : KDB) : list RefRow :=
  sort_by ref_leb (List.filter (ref_of_page workspace_id point state) (k_refs db)).

(** [_validate_knowledge_book_file_ref_state]. *)
Definition validate_file_ref_state (state : string) : Ktx () :=
  if string_in state ["draft"; "published"] then mret () else raise GValueError.

(** [INSERT INTO gateway_knowledge_book_file_refs]: the check on the state, the primary key and
    the foreign key. *)
Definition same_ref (a b : RefRow) : bool :=
  ref_of_page (rf_workspace_id a) (rf_knowledge_point_id a) (rf_state a) b
  && String.eqb (rf_file_id b) (rf_file_id a).
Definition insert_ref (r : RefRow) : Ktx () := fun db =>
  if negb (string_in (rf_state r) ["draft"; "published"]) || existsb (same_ref r) (k_refs db)
  then Err GIntegrityError
  else match k_files db !! rf_file_id r with
       | None => Err GIntegrityError
       | Some _ => Ok ((), set_refs db (k_refs db ++ [r]))
       end.

Definition delete_refs (p : RefRow -> bool) : Ktx () :=
  modify (fun db => set_refs db (List.filter (fun r => negb (p r)) (k_refs db))).

(** [list(dict.fromkeys(l))]: the first occurrences. *)
Fixpoint fromkeys_from (seen l : list string) : list string :=
  match l with
  | [] => []
  | x :: l' => if string_in x seen then fromkeys_from seen l' else x :: fromkeys_from (x :: seen) l'
  end.
Definition fromkeys (l : list string) : list string := fromkeys_from [] l.

(** The rows [executemany] inserts: the position is the sort order. *)
Definition new_refs (workspace_id point state : string) (ids : list string) (now_ : Z) : list RefRow :=
  imap (fun index id => {| rf_workspace_id := workspace_id; rf_knowledge_point_id := point; rf_file_id := id;
                           rf_state := state; rf_sort_order := Z.of_nat index; rf_created_at := now_ |}) ids.

(** The check of one file in [_replace_knowledge_book_file_refs_in_transaction]. *)
Definition check_ref_target (workspace_id point file_id : string) : Ktx () :=
  row ← gets (file_of workspace_id file_id);
  match row with
  | None => raise GFileNotFoundError
  | Some f => if String.eqb (kf_knowledge_point_id f) point then mret () else raise GValueError
  end.

(** [_replace_knowledge_book_file_refs_in_transaction]. *)
Definition replace_file_refs (workspace_id point state : string) (file_ids : list string) (now_ : Z) : Ktx () :=
  _ ← validate_file_ref_state state;
  let ordered_ids := fromkeys file_ids in
  _ ← st_iter (check_ref_target workspace_id point) ordered_ids;
  _ ← delete_refs (ref_of_page workspace_id point state);
  st_iter insert_ref (new_refs workspace_id point state ordered_ids now_).

(** [set_knowledge_book_file_refs], [list_knowledge_book_file_refs]. *)
Definition set_knowledge_book_file_refs := replace_file_refs.
Definition list_knowledge_book_file_refs (workspace_id point state : string) : Ktx (list string) :=
  _ ← validate_file_ref_state state;
  gets (fun db => rf_file_id <$> page_refs workspace_id point state db).

(** [publish_knowledge_book_file_refs]. *)
Definition ref_promoted (now_ : Z) (r : RefRow) : RefRow :=
  {| rf_workspace_id := rf_workspace_id r; rf_knowledge_point_id := rf_knowledge_point_id r;
     rf_file_id := rf_file_id r; rf_state := "published"; rf_sort_order := rf_sort_order r;
     rf_created_at := now_ |}.
Definition publish_knowledge_book_file_refs (workspace_id point : string) (now_ : Z) : Ktx (list string) :=
  draft_rows ← gets (page_refs workspace_id point "draft");
  _ ← delete_refs (ref_of_page workspace_id point "published");
  _ ← st_iter insert_ref (ref_promoted now_ <$> draft_rows);
  mret (rf_file_id <$> draft_rows).

(** ** Publication and import *)

Definition asset_published (now_ : Z) (a : AssetRow) : AssetRow :=
  {| ka_media_type := ka_media_type a; ka_draft_content := ka_draft_content a;
     ka_published_content := Some (ka_draft_content a); ka_size_bytes := ka_size_bytes a;
     ka_sha256 := ka_sha256 a; ka_updated_at := now_ |}.
Definition publish_asset (workspace_id : string) (now_ : Z) (path : string) : Ktx () :=
  modify (fun db => set_assets db (alter (asset_published now_) (workspace_id, path) (k_assets db))).

(** [publish_knowledge_page]. *)
Definition publish_knowledge_page (workspace_id point : string) (expected_revision : Z)
  (published_file_ids : option (list string)) (now_ : Z) : Ktx (option PageRow) :=
  current ← gets (page workspace_id point);
  match current with
  | None => raise GValueError
  | Some p =>
      revision ← check_knowledge_page_revision (Some p) (Some expected_revision);
      if blank (kp_draft_markdown p) then raise GValueError
      else
        _ ← update_page (workspace_id, point) (page_published revision now_);
        _ ← st_iter (publish_asset workspace_id now_) (asset_paths_from_markdown (kp_draft_markdown p));
        _ ← match published_file_ids with
            | Some ids => replace_file_refs workspace_id point "published" ids now_
            | None => mret ()
            end;
        gets (page workspace_id point)
  end.

(** A page and an asset of a package; an asset may come without its digest. *)
Record ImportPage := {
  ip_knowledge_point_id : string;
  ip_expected_revision : Z;
  ip_content_markdown : string;
}.
Record ImportAsset := {
  ia_asset_path : string;
  ia_media_type : string;
  ia_content : string;
  ia_sha256 : option string;
}.

(** [ON CONFLICT(workspace_id, asset_path) DO UPDATE] keeps the published content. *)
Definition asset_imported (a : ImportAsset) (sha : string) (now_ : Z) (old : option AssetRow) : AssetRow :=
  {| ka_media_type := ia_media_type a; ka_draft_content := ia_content a;
     ka_published_content := old ≫= ka_published_content;
     ka_size_bytes := Z.of_nat (String.length (ia_content a)); ka_sha256 := sha; ka_updated_at := now_ |}.
Definition upsert_asset (workspace_id : string) (a : ImportAsset) (sha : string) (now_ : Z) : Ktx () :=
  modify (fun db => set_assets db (partial_alter (fun old => Some (asset_imported a sha now_ old))
                                     (workspace_id, ia_asset_path a) (k_assets db))).

(** [currents]: the rows as they were before the first write, by point. *)
Fixpoint check_pages (workspace_id : string) (pages : list ImportPage) (currents : gmap string (option PageRow))
  : Ktx (gmap string (option PageRow)) :=
  match pages with
  | [] => mret currents
  | p :: rest =>
      current ← gets (page workspace_id (ip_knowledge_point_id p));
      _ ← check_knowledge_page_revision current (Some (ip_expected_revision p));
      check_pages workspace_id rest (<[ip_knowledge_point_id p := current]> currents)
  end.

Definition import_page (workspace_id : string) (currents : gmap string (option PageRow)) (now_ : Z) (p : ImportPage)
  : Ktx () :=
  match currents !! ip_knowledge_point_id p with
  | None => raise GKeyError
  | Some current => write_draft workspace_id (ip_knowledge_point_id p) current (ip_content_markdown p)
                      (ip_expected_revision p + 1) now_
  end.

(** The transaction of [apply_knowledge_book_import], by what is stored as the digest of an asset. *)
Definition import_with (digest : ImportAsset -> Ktx string) (workspace_id : string) (pages : list ImportPage)
  (assets : list ImportAsset) (file_refs : option (list (string * list string))) (now_ : Z)
  : Ktx (list (option PageRow)) :=
  currents ← check_pages workspace_id pages ∅;
  _ ← st_iter (import_page workspace_id currents now_) pages;
  _ ← st_iter (fun a => sha ← digest a; upsert_asset workspace_id a sha now_) assets;
  _ ← st_iter (fun kv : string * list string => replace_file_refs workspace_id kv.1 "draft" kv.2 now_)
        (default [] file_refs);
  gets (fun db => (fun p => page workspace_id (ip_knowledge_point_id p) db) <$> pages).

(** [str(asset["sha256"])] of the SQLite repository. *)
Definition given_digest (a : ImportAsset) : Ktx string :=
  match ia_sha256 a with Some d => mret d | None => raise GKeyError end.
Definition apply_knowledge_book_import := import_with given_digest.

(** [get_knowledge_book_asset]: the published bytes with the columns of the draft. *)
Record AssetView := {
  av_media_type : string;
  av_content : string;
  av_size_bytes : Z;
  av_sha256 : string;
}.
Definition get_knowledge_book_asset (workspace_id path : string) (db : KDB) : option AssetView :=
  match k_assets db !! (workspace_id, path) with
  | Some a => (fun content => {| av_media_type := ka_media_type a; av_content := content;
                                 av_size_bytes := ka_size_bytes a; av_sha256 := ka_sha256 a |})
              <$> ka_published_content a
  | None => None
  end.

Section book.
Context `{Uuids} (sha256 : string -> string).

(** [str(asset.get("sha256") or hashlib.sha256(content).hexdigest())] of the MySQL repository. *)
Definition computed_digest (a : ImportAsset) : Ktx string :=
  mret (match ia_sha256 a ≫= (fun d => truthy (Some d)) with Some d => d | None => sha256 (ia_content a) end).
Definition mysql_apply_knowledge_book_import := import_with computed_digest.

Definition knowledge_uuid : Ktx string := fun db => Ok (uuid4 (k_next_uuid db), set_kuuid db (S (k_next_uuid db))).

Record NewFile := {
  nf_workspace_id : string;
  nf_knowledge_point_id : string;
  nf_original_name : string;
  nf_display_name : string;
  nf_media_type : string;
  nf_content : string;
  nf_created_by : string;
}.
Definition new_file (n : NewFile) (now_ : Z) : FileRow :=
  {| kf_workspace_id := nf_workspace_id n; kf_knowledge_point_id := nf_knowledge_point_id n;
     kf_original_name := nf_original_name n; kf_display_name := nf_display_name n;
     kf_media_type := nf_media_type n; kf_content := nf_content n;
     kf_size_bytes := Z.of_nat (String.length (nf_content n)); kf_sha256 := sha256 (nf_content n);
     kf_created_by := nf_created_by n; kf_created_at := now_; kf_updated_at := now_ |}.

Definition insert_file (id : string) (f : FileRow) : Ktx () := fun db =>
  match k_files db !! id with
  | Some _ => Err GIntegrityError
  | None => Ok ((), set_files db (<[id := f]> (k_files db)))
  end.

(** [create_knowledge_book_file]. *)
Definition create_knowledge_book_file (n : NewFile) (file_id : option string) (now_ : Z)
  : Ktx (option FileRow) :=
  identifier ← match truthy file_id with Some i => mret i | None => knowledge_uuid end;
  _ ← insert_file identifier (new_file n now_);
  gets (file_of (nf_workspace_id n) identifier).

(** [get_knowledge_book_file], and [list_knowledge_book_files] with its [ORDER BY created_at, id]. *)
Definition get_knowledge_book_file := file_of.
Definition list_knowledge_book_files (workspace_id point : string) (db : KDB) : list (string * FileRow) :=
  sort_by (fun a b : string * FileRow =>
             (kf_created_at a.2 <? kf_created_at b.2)
             || ((kf_created_at a.2 =? kf_created_at b.2) && string_leb a.1 b.1))
    (List.filter (fun kv : string * FileRow => String.eqb (kf_workspace_id kv.2) workspace_id
                                               && String.eqb (kf_knowledge_point_id kv.2) point)
       (map_to_list (k_files db))).

(** The join of a reference with its file. *)
Definition joined (db : KDB) (r : RefRow) : option (string * FileRow) :=
  match file_of (rf_workspace_id r) (rf_file_id r) db with
  | Some f => if String.eqb (rf_knowledge_point_id r) (kf_knowledge_point_id f) then Some (rf_file_id r, f) else None
  | None => None
  end.

(** [list_published_knowledge_book_files], [get_published_knowledge_book_file]. *)
Definition list_published_knowledge_book_files (workspace_id point : string) (db : KDB) : list (string * FileRow) :=
  omap (joined db) (page_refs workspace_id point "published" db).
Definition get_published_knowledge_book_file (workspace_id file_id : string) (db : KDB) : option FileRow :=
  snd <$> head (omap (joined db)
    (List.filter (fun r => ref_of_file workspace_id file_id r && String.eqb (rf_state r) "published") (k_refs db))).

Record FileChange := {
  fc_original_name : option string;
  fc_display_name : option string;
  fc_media_type : option string;
  fc_content : option string;
}.
Definition file_changed (c : FileChange) (current : FileRow) (now_ : Z) (f : FileRow) : FileRow :=
  let content := default (kf_content current) (fc_content c) in
  {| kf_workspace_id := kf_workspace_id f; kf_knowledge_point_id := kf_knowledge_point_id f;
     kf_original_name := default (kf_original_name current) (fc_original_name c);
     kf_display_name := default (kf_display_name current) (fc_display_name c);
     kf_media_type := default (kf_media_type current) (fc_media_type c);
     kf_content := content; kf_size_bytes := Z.of_nat (String.length content); kf_sha256 := sha256 content;
     kf_created_by := kf_created_by f; kf_created_at := kf_created_at f; kf_updated_at := now_ |}.

(** [update_knowledge_book_file] takes the lock four times: to read the file, to look for a
    published reference, to write and to read the answer. *)
Definition read_file_to_change (workspace_id file_id : string) : Ktx FileRow :=
  current ← gets (get_knowledge_book_file workspace_id file_id);
  match current with Some f => mret f | None => raise GFileNotFoundError end.
Definition refuse_published (workspace_id file_id : string) : Ktx () :=
  published ← gets (fun db => existsb (fun r => ref_of_file workspace_id file_id r && String.eqb (rf_state r) "published")
                                (k_refs db));
  if published : bool then raise GValueError else mret ().
Definition write_file (workspace_id file_id : string) (c : FileChange) (current : FileRow) (now_ : Z) : Ktx () :=
  modify (fun db => set_files db
    (alter (fun f => if String.eqb (kf_workspace_id f) workspace_id then file_changed c current now_ f else f)
       file_id (k_files db))).
Definition update_knowledge_book_file (workspace_id file_id : string) (c : FileChange) (now_ : Z)
  : Ktx (option FileRow) :=
  current ← read_file_to_change workspace_id file_id;
  _ ← refuse_published workspace_id file_id;
  _ ← write_file workspace_id file_id c current now_;
  gets (get_knowledge_book_file workspace_id file_id).

(** [DELETE FROM gateway_knowledge_book_files]: references go with the file. *)
Definition delete_file_row (workspace_id file_id : string) : Ktx bool := fun db =>
  match file_of workspace_id file_id db with
  | None => Ok (false, db)
  | Some _ => Ok (true, set_refs (set_files db (delete file_id (k_files db)))
                          (List.filter (fun r => negb (String.eqb (rf_file_id r) file_id)) (k_refs db)))
  end.

(** [delete_knowledge_book_file]. *)
Definition delete_knowledge_book_file (workspace_id file_id : string) : Ktx bool :=
  referenced ← gets (fun db => existsb (ref_of_file workspace_id file_id) (k_refs db));
  if referenced : bool then raise GValueError else delete_file_row workspace_id file_id.
End book.

(** * the whiteboard items pages embed

    [list_whiteboard_library], [create_whiteboard_library_item], [rename_whiteboard_library_item],
    [delete_whiteboard_library_item_if_unreferenced] and [count_whiteboard_library_references] of
    [gateway/repository.py].  Pages refer to an item by a marker in their text, so no foreign
    key protects it: the deletion looks for the markers itself, under the lock. *)

(** [s.upper()] and [s.replace('-', '')] on the ASCII texts of UUIDs. *)
Definition ascii_upper (c : ascii) : ascii :=
  let n := nat_of_ascii c in if (97 <=? n)%nat && (n <=? 122)%nat then ascii_of_nat (n - 32) else c.
Fixpoint upper (s : string) : string :=
  match s with EmptyString => EmptyString | String c s' => String (ascii_upper c) (upper s') end.
Fixpoint without_dashes (s : string) : string :=
  match s with
  | EmptyString => EmptyString
  | String "-"%char s' => without_dashes s'
  | String c s' => String c (without_dashes s')
  end.
Definition asset_code_of (item_id : string) : string := "WB-" +:+ upper (str_take 8 (without_dashes item_id)).

(** [asset="id"] and, for an item with a code, [code="..."]. *)
Definition quoted (s : string) : string := String (ascii_of_nat 34) (s +:+ bytes [34%nat]).
Definition markers (item_id : string) (asset_code : option string) : list string :=
  ("asset=" +:+ quoted item_id)
  :: match asset_code ≫= (fun c => truthy (Some c)) with Some c => ["code=" +:+ quoted c] | None => [] end.

Definition mentions (ms : list string) (p : PageRow) : bool :=
  existsb (fun m => contains m (kp_draft_markdown p) || contains m (default "" (kp_published_markdown p))) ms.
Definition reference_count (ms : list string) (db : KDB) : Z :=
  Z.of_nat (length (List.filter (fun kv : (string * string) * PageRow => mentions ms kv.2) (map_to_list (k_pages db)))).

(** [ORDER BY created_at ASC, id ASC]. *)
Definition list_whiteboard_library (db : KDB) : list (string * LibraryRow) :=
  sort_by (fun a b : string * LibraryRow =>
             (wl_created_at a.2 <? wl_created_at b.2)
             || ((wl_created_at a.2 =? wl_created_at b.2) && string_leb a.1 b.1))
    (map_to_list (k_library db)).

(** [INSERT INTO gateway_whiteboard_library_items]: the primary key and the unique asset code. *)
Definition insert_library_item (id : string) (row : LibraryRow) : Ktx () := fun db =>
  match k_library db !! id with
  | Some _ => Err GIntegrityError
  | None =>
      if existsb (fun kv : string * LibraryRow => String.eqb (wl_asset_code kv.2) (wl_asset_code row))
           (map_to_list (k_library db))
      then Err GIntegrityError
      else Ok ((), set_library db (<[id := row]> (k_library db)))
  end.

Definition library_renamed (name : string) (row : LibraryRow) : LibraryRow :=
  {| wl_asset_code := wl_asset_code row; wl_name := name; wl_elements := wl_elements row;
     wl_created := wl_created row; wl_created_by := wl_created_by row; wl_created_at := wl_created_at row |}.

Section library.
Context `{Uuids}.

Definition create_whiteboard_library_item (name : string) (elements : list json) (created_by : string) (now_ : Z)
  : Ktx (string * LibraryRow) :=
  item_id ← knowledge_uuid;
  let row := {| wl_asset_code := asset_code_of item_id; wl_name := name; wl_elements := elements;
                wl_created := now_ `div` 1000; wl_created_by := created_by; wl_created_at := now_ |} in
  _ ← insert_library_item item_id row;
  mret (item_id, row).
End library.

Definition rename_whiteboard_library_item (item_id name : string) : Ktx (option LibraryRow) :=
  row ← gets (fun db => k_library db !! item_id);
  match row with
  | None => mret None
  | Some r => _ ← modify (fun db => set_library db (alter (library_renamed name) item_id (k_library db)));
              mret (Some (library_renamed name r))
  end.

Definition delete_whiteboard_library_item_if_unreferenced (item_id : string) : Ktx (bool * Z) :=
  item_row ← gets (fun db => k_library db !! item_id);
  match item_row with
  | None => mret (false, 0)
  | Some row =>
      count ← gets (reference_count (markers item_id (Some (wl_asset_code row))));
      if negb (count =? 0) then mret (false, count)
      else _ ← modify (fun db => set_library db (delete item_id (k_library db))); mret (true, 0)
  end.

Definition delete_whiteboard_library_item (item_id : string) : Ktx bool :=
  r ← delete_whiteboard_library_item_if_unreferenced item_id; mret r.1.

Definition count_whiteboard_library_references (item_id : string) (db : KDB) : Z :=
  reference_count (markers item_id (wl_asset_code <$> k_library db !! item_id)) db.

Example asset_code_example :
  asset_code_of "3fa85f64-5717-4562-b3fc-2c963f66afa6" = "WB-3FA85F64".
Proof. vm_compute. reflexivity. Qed.
