(* ===== verification/KnowledgeSafety.v ===== *)
(** * KnowledgeSafety: what the knowledge book promises its authors and its readers

    The operations of [KnowledgeBook] as steps of a store with the file changes under way, whose
    lock sections overlap other calls ([kstep]); the invariant these steps keep, and what they leave
    of what readers see. *)
From S2P Require Import Prelude PyText Json GatewayTurns KnowledgeStore KnowledgeBook.
Local Open Scope Z_scope.

(** ** Lists *)

Lemma sort_by_id {A} (leb : A -> A -> bool) l :
  StronglySorted (fun a b => leb a b = true) l -> sort_by leb l = l.
Proof.
  induction 1 as [|x l Hs IH Hx]; [done|]. unfold sort_by in *. cbn. rewrite IH.
  destruct l as [|y l]; [done|]. cbn. by apply Forall_inv in Hx as ->.
Qed.

Lemma imap_sorted {A B} (R : B -> B -> Prop) (f : nat -> A -> B) l :
  (forall i j x y, (i < j)%nat -> R (f i x) (f j y)) -> StronglySorted R (imap f l).
Proof.
  revert f. induction l as [|x l IH]; intros f Hf; cbn; constructor.
  - apply IH. intros i j a b Hij. apply Hf. cbn. lia.
  - apply Forall_forall. intros y (i & z & -> & _)%elem_of_lookup_imap_1. apply Hf. cbn. lia.
Qed.

Lemma fmap_imap_id {A B} (f : nat -> A -> B) (g : B -> A) l : (forall i x, g (f i x) = x) -> g <$> imap f l = l.
Proof. revert f. induction l as [|x l IH]; intros f Hf; [done|]. cbn. by rewrite Hf, IH by (intros; apply Hf). Qed.

Lemma fromkeys_from_spec seen l :
  NoDup (fromkeys_from seen l) /\ (forall x, x ∈ fromkeys_from seen l <-> x ∈ l /\ x ∉ seen).
Proof.
  revert seen. induction l as [|y l IH]; intros seen; cbn.
  - split; [constructor|]. intros x. set_solver.
  - unfold string_in. destruct (IH seen) as [N0 E0]. destruct (IH (y :: seen)) as [N1 E1]. case_bool_decide as Hy.
    + split; [done|]. intros x. rewrite E0. set_solver.
    + split; [constructor; [rewrite E1; set_solver|done]|]. intros x. rewrite elem_of_cons, E1.
      destruct (decide (x = y)); set_solver.
Qed.

Lemma fromkeys_NoDup l : NoDup (fromkeys l).
Proof. apply fromkeys_from_spec. Qed.

Lemma fromkeys_elem l x : x ∈ fromkeys l <-> x ∈ l.
Proof. unfold fromkeys. rewrite (proj2 (fromkeys_from_spec [] l)). set_solver. Qed.

Lemma fromkeys_from_id seen l : NoDup l -> (forall x, x ∈ l -> x ∉ seen) -> fromkeys_from seen l = l.
Proof.
  intros Hl. revert seen. induction Hl as [|x l Hx Hl IH]; intros seen Hs; [done|]. cbn. unfold string_in.
  rewrite bool_decide_eq_false_2 by (apply Hs; set_solver). rewrite IH; [done|]. set_solver.
Qed.

Lemma fromkeys_id l : NoDup l -> fromkeys l = l.
Proof. intros Hl. apply fromkeys_from_id; [done|]. set_solver. Qed.

(** Splits a run and replays its reads and assignments. *)
Ltac k_run H :=
  st_run H;
  repeat match goal with
  | Hr : gets _ _ = Ok (_, _) |- _ => injection Hr as <- <-
  | Hr : modify _ _ = Ok (_, _) |- _ => injection Hr as <- <-
  | Hr : mret _ _ = Ok (_, _) |- _ => injection Hr as <- <-
  end.

(** ** The invariant *)

Definition ref_key (r : RefRow) : string * string * string * string :=
  (rf_workspace_id r, rf_knowledge_point_id r, rf_state r, rf_file_id r).

(** A reference names a file of its own page. *)
Definition ref_target (files : gmap string FileRow) (r : RefRow) : Prop :=
  exists f, files !! rf_file_id r = Some f /\ kf_workspace_id f = rf_workspace_id r
    /\ kf_knowledge_point_id f = rf_knowledge_point_id r.

Record page_ok (p : PageRow) : Prop := {
  page_rev : 1 <= kp_revision p;
  page_pub : is_Some (kp_published_markdown p) <-> is_Some (kp_published_revision p);
  page_le : forall r, kp_published_revision p = Some r -> r <= kp_revision p;
}.

Record k_ok (db : KDB) : Prop := {
  ok_pages : forall key p, k_pages db !! key = Some p -> page_ok p;
  ok_targets : forall r, r ∈ k_refs db -> ref_target (k_files db) r;
  ok_states : forall r, r ∈ k_refs db -> rf_state r = "draft" \/ rf_state r = "published";
  ok_ref_keys : NoDup (ref_key <$> k_refs db);
  ok_codes : forall i j a b, k_library db !! i = Some a -> k_library db !! j = Some b ->
    wl_asset_code a = wl_asset_code b -> i = j;
}.

(** ** What readers see, and what a run may change *)

Definition shown_page (key : string * string) (db : KDB) : option (string * option Z) :=
  p ← k_pages db !! key; m ← kp_published_markdown p; Some (m, kp_published_revision p).
Definition shown_asset (key : string * string) (db : KDB) : option string :=
  k_assets db !! key ≫= ka_published_content.
Definition shown_refs (key : string * string) (db : KDB) : list RefRow :=
  List.filter (ref_of_page key.1 key.2 "published") (k_refs db).

(** Revisions never go back, and the pages outside [P] look the same to readers. *)
Record kept (P : string * string -> Prop) (db db' : KDB) : Prop := {
  kept_rev : forall key, page_revision (k_pages db !! key) <= page_revision (k_pages db' !! key);
  kept_page : forall key, ~ P key -> shown_page key db' = shown_page key db;
  kept_asset : forall ws, (forall pt, ~ P (ws, pt)) -> forall path, shown_asset (ws, path) db' = shown_asset (ws, path) db;
  kept_refs : forall key, ~ P key -> shown_refs key db' = shown_refs key db;
  kept_files : forall key r, ~ P key -> r ∈ shown_refs key db -> k_files db' !! rf_file_id r = k_files db !! rf_file_id r;
}.

Definition k_evolves (P : string * string -> Prop) (db db' : KDB) : Prop := k_ok db -> k_ok db' /\ kept P db db'.

#[export] Instance k_evolves_preorder P : PreOrder (k_evolves P).
Proof.
  split.
  - intros db Hok. split; [done|]. split; done || lia.
  - intros a b c Hab Hbc Ha. destruct (Hab Ha) as [Hb Kab]. destruct (Hbc Hb) as [Hc Kbc]. split; [done|]. split.
    + intros key. etrans; [apply Kab|apply Kbc].
    + intros key Hk. rewrite (kept_page _ _ _ Kbc), (kept_page _ _ _ Kab); done.
    + intros ws Hw path. rewrite (kept_asset _ _ _ Kbc), (kept_asset _ _ _ Kab); done.
    + intros key Hk. rewrite (kept_refs _ _ _ Kbc), (kept_refs _ _ _ Kab); done.
    + intros key r Hk Hr. rewrite (kept_files _ _ _ Kbc key), (kept_files _ _ _ Kab key); try done.
      by rewrite (kept_refs _ _ _ Kab).
Qed.

Abbreviation kmoves P := (st_moves (k_evolves P)).

Lemma k_evolves_weaken (P Q : string * string -> Prop) db db' :
  (forall key, P key -> Q key) -> k_evolves P db db' -> k_evolves Q db db'.
Proof.
  intros HPQ He Hok. destruct (He Hok) as [Hok' [K1 K2 K3 K4 K5]]. split; [done|].
  assert (Hn : forall key, ~ Q key -> ~ P key) by auto.
  split; [done|intros; apply K2|intros; apply K3|intros; apply K4|intros; eapply K5]; eauto.
Qed.

(** ** Statements on pages and assets *)

Lemma k_evolves_set_page (P : string * string -> Prop) db key q :
  page_ok q -> page_revision (k_pages db !! key) <= kp_revision q ->
  (~ P key -> shown_page key (set_pages db (<[key := q]> (k_pages db))) = shown_page key db) ->
  k_evolves P db (set_pages db (<[key := q]> (k_pages db))).
Proof.
  intros Hq Hrev Hpub [O1 O2 O3 O4 O5]. split; [split; cbn; try done|split; cbn; try done].
  - intros k p. destruct (decide (key = k)) as [->|Hne].
    + rewrite lookup_insert_eq. by intros [= <-].
    + rewrite lookup_insert_ne by done. apply O1.
  - intros k. destruct (decide (key = k)) as [->|Hne].
    + by rewrite lookup_insert_eq.
    + rewrite lookup_insert_ne by done. lia.
  - intros k Hk. destruct (decide (key = k)) as [->|Hne]; [by apply Hpub|].
    unfold shown_page. cbn. by rewrite lookup_insert_ne.
Qed.

Lemma k_evolves_set_assets (P : string * string -> Prop) db m :
  (forall ws path, (forall pt, ~ P (ws, pt)) ->
     m !! (ws, path) ≫= ka_published_content = shown_asset (ws, path) db) ->
  k_evolves P db (set_assets db m).
Proof. intros Hm [O1 O2 O3 O4 O5]. split; [by split|split; cbn; try done]. intros ws Hw path. by apply Hm. Qed.

Lemma k_evolves_set_library P db m :
  (forall i j a b, m !! i = Some a -> m !! j = Some b -> wl_asset_code a = wl_asset_code b -> i = j) ->
  k_evolves P db (set_library db m).
Proof. intros Hm [O1 O2 O3 O4 O5]. split; [by split|split; cbn; done]. Qed.

(** What [write_draft] leaves at its page. *)
Definition drafted (markdown : string) (revision now_ : Z) (current : option PageRow) : PageRow :=
  match current with
  | Some p => draft_written markdown revision now_ p
  | None => new_page markdown revision now_
  end.

Lemma write_draft_run ws pt current markdown revision now_ db db' u :
  (is_Some current -> is_Some (page ws pt db)) ->
  write_draft ws pt current markdown revision now_ db = Ok (u, db') ->
  db' = set_pages db (<[(ws, pt) := drafted markdown revision now_ (page ws pt db)]> (k_pages db)).
Proof.
  intros Hc. destruct current as [c|]; cbn.
  - intros [= <- <-]. destruct (Hc ltac:(done)) as [p Hp]. rewrite Hp. f_equal.
    apply map_eq. intros k. destruct (decide ((ws, pt) = k)) as [<-|Hne].
    + rewrite lookup_alter_eq, lookup_insert_eq. unfold page in Hp. by rewrite Hp.
    + by rewrite lookup_alter_ne, lookup_insert_ne.
  - unfold insert_page, page. destruct (k_pages db !! (ws, pt)) eqn:Hp; [done|]. by intros [= <- <-].
Qed.

Lemma drafted_evolves P db ws pt markdown revision now_ :
  k_ok db -> 1 <= revision -> page_revision (page ws pt db) <= revision ->
  k_evolves P db (set_pages db (<[(ws, pt) := drafted markdown revision now_ (page ws pt db)]> (k_pages db))).
Proof.
  intros Hok H1 Hle. unfold page in *. apply k_evolves_set_page.
  - destruct (k_pages db !! (ws, pt)) as [p|] eqn:Hp; cbn.
    + destruct (ok_pages _ Hok _ _ Hp) as [R1 R2 R3]. split; cbn in *; [done..|]. intros r Hr. apply R3 in Hr. lia.
    + split; cbn; [done| |done]. split; intros [? ?]; done.
  - by destruct (k_pages db !! (ws, pt)).
  - intros _. unfold shown_page. cbn. rewrite lookup_insert_eq. by destruct (k_pages db !! (ws, pt)).
Qed.

Lemma check_revision_run current expected db r db' :
  check_knowledge_page_revision current expected db = Ok (r, db') ->
  db' = db /\ r = page_revision current /\ (forall e, expected = Some e -> e = r).
Proof.
  unfold check_knowledge_page_revision. destruct expected as [e|]; [destruct (e =? page_revision current) eqn:He|]; cbn;
    [|done|]; intros [= <- <-]; (split_and!; [done..|]); intros e' [= <-]; lia.
Qed.

Lemma page_revision_nonneg db key : k_ok db -> 0 <= page_revision (k_pages db !! key).
Proof.
  intros Hok. destruct (k_pages db !! key) as [p|] eqn:Hp; cbn; [|lia].
  pose proof (page_rev _ (ok_pages _ Hok _ _ Hp)). lia.
Qed.

Lemma kmoves_update_page_op P ws pt markdown expected now_ : kmoves P (update_knowledge_page ws pt markdown expected now_).
Proof.
  intros db a db' Hrun Hok. unfold update_knowledge_page in Hrun. k_run Hrun.
  apply check_revision_run in Hrun1 as (-> & -> & _). apply write_draft_run in Hrun2 as ->; [|done].
  apply drafted_evolves; [done| |unfold page; lia|done].
  pose proof (page_revision_nonneg db (ws, pt) Hok). unfold page. lia.
Qed.

(** ** The import of pages *)

(** The rows after the pages of a package were written in order. *)
Definition import_rows (ws : string) (now_ : Z) (pages : list ImportPage) (m : gmap (string * string) PageRow)
  : gmap (string * string) PageRow :=
  foldl (fun m p => <[(ws, ip_knowledge_point_id p) :=
                        drafted (ip_content_markdown p) (ip_expected_revision p + 1) now_
                          (m !! (ws, ip_knowledge_point_id p))]> m) m pages.

Lemma check_pages_run ws pages currents db currents' db' :
  check_pages ws pages currents db = Ok (currents', db') ->
  db' = db
  /\ (forall p, p ∈ pages -> ip_expected_revision p = page_revision (page ws (ip_knowledge_point_id p) db)
                          /\ currents' !! ip_knowledge_point_id p = Some (page ws (ip_knowledge_point_id p) db))
  /\ (forall k, k ∉ (ip_knowledge_point_id <$> pages) -> currents' !! k = currents !! k).
Proof.
  revert currents. induction pages as [|p pages IH]; intros currents Hrun; cbn in Hrun.
  - injection Hrun as <- <-. split_and!; [done|set_solver|done].
  - k_run Hrun. apply (check_revision_run _ (Some (ip_expected_revision p))) in Hrun1 as (-> & -> & He). apply IH in Hrun as (-> & Hp & Hk).
    split_and!; [done| |].
    + intros q [->|Hq]%elem_of_cons; [|by apply Hp]. split; [by apply He|].
      destruct (decide (ip_knowledge_point_id p ∈ ip_knowledge_point_id <$> pages)) as [(q & Hpq & Hq)%list_elem_of_fmap|Hn].
      * rewrite Hpq. by apply Hp.
      * rewrite Hk by done. by rewrite lookup_insert_eq.
    + intros k. rewrite fmap_cons, not_elem_of_cons. intros [Hne Hn]. rewrite Hk by done.
      by rewrite lookup_insert_ne.
Qed.

Lemma page_set_page ws k db m q :
  page ws k (set_pages db (<[(ws, m) := q]> (k_pages db))) = if decide (k = m) then Some q else page ws k db.
Proof.
  unfold page. cbn. case_decide as Hk; [by rewrite Hk, lookup_insert_eq|]. rewrite lookup_insert_ne; [done|congruence].
Qed.

Lemma import_pages_run ws currents now_ pages db u db' :
  (forall p, p ∈ pages -> exists c, currents !! ip_knowledge_point_id p = Some c
                          /\ (is_Some c -> is_Some (page ws (ip_knowledge_point_id p) db))) ->
  st_iter (import_page ws currents now_) pages db = Ok (u, db') ->
  db' = set_pages db (import_rows ws now_ pages (k_pages db)).
Proof.
  revert db. induction pages as [|p pages IH]; intros db Hc Hrun; cbn in Hrun |- *.
  - injection Hrun as _ <-. by destruct db.
  - k_run Hrun. destruct (Hc p ltac:(set_solver)) as (c & Hcp & Hs). unfold import_page in Hrun0.
    rewrite Hcp in Hrun0. apply write_draft_run in Hrun0 as ->; [|done].
    apply IH in Hrun as ->; [done|]. intros q Hq. destruct (Hc q ltac:(set_solver)) as (d & Hd & Hds). exists d.
    split; [done|]. intros Hsd. rewrite page_set_page. case_decide; [done|by apply Hds].
Qed.

Lemma import_rows_evolves P ws now_ pages db :
  k_ok db ->
  (forall p, p ∈ pages -> 0 <= ip_expected_revision p
     /\ page_revision (page ws (ip_knowledge_point_id p) db) <= ip_expected_revision p + 1) ->
  (forall p q, p ∈ pages -> q ∈ pages -> ip_knowledge_point_id p = ip_knowledge_point_id q ->
     ip_expected_revision p = ip_expected_revision q) ->
  k_evolves P db (set_pages db (import_rows ws now_ pages (k_pages db))).
Proof.
  revert db. induction pages as [|p pages IH]; intros db Hok Hrev Hsame; cbn.
  - replace (set_pages db (k_pages db)) with db by (by destruct db). done.
  - destruct (Hrev p ltac:(set_solver)) as [H0 Hle].
    assert (Hp : k_evolves P db (set_pages db (<[(ws, ip_knowledge_point_id p) :=
              drafted (ip_content_markdown p) (ip_expected_revision p + 1) now_ (page ws (ip_knowledge_point_id p) db)]>
              (k_pages db)))) by (apply drafted_evolves; [done|lia|done]).
    etrans; [exact Hp|]. destruct (Hp Hok) as [Hok' _]. eapply (IH _ Hok').
    + intros q Hq. destruct (Hrev q ltac:(set_solver)) as [Hq0 Hqle]. split; [done|]. rewrite page_set_page.
      case_decide as Hk; [|done]. rewrite (Hsame q p) by (done || set_solver). unfold drafted.
      destruct (page ws _ db); cbn; lia.
    + intros q r Hq Hr. apply Hsame; set_solver.
Qed.

(** ** References *)

Lemma insert_ref_run r db u db' :
  insert_ref r db = Ok (u, db') ->
  db' = set_refs db (k_refs db ++ [r]) /\ (rf_state r = "draft" \/ rf_state r = "published")
  /\ ref_key r ∉ (ref_key <$> k_refs db).
Proof.
  unfold insert_ref. destruct (negb _ || _) eqn:Hb; [done|]. apply orb_false_iff in Hb as [Hs Hk].
  destruct (k_files db !! rf_file_id r); [|done]. intros [= <- <-]. split_and!; [done| |].
  - apply negb_false_iff in Hs. unfold string_in in Hs. apply bool_decide_eq_true in Hs. set_solver.
  - intros (x & Hx & Hin)%list_elem_of_fmap. eapply existsb_false_elem in Hk; [|exact Hin].
    unfold same_ref, ref_of_page in Hk. unfold ref_key in Hx. injection Hx as E1 E2 E3 E4.
    by rewrite E1, E2, E3, E4, !String.eqb_refl in Hk.
Qed.

Lemma k_ok_snoc_ref db r :
  k_ok db -> ref_target (k_files db) r -> (rf_state r = "draft" \/ rf_state r = "published") ->
  ref_key r ∉ (ref_key <$> k_refs db) -> k_ok (set_refs db (k_refs db ++ [r])).
Proof.
  intros [O1 O2 O3 O4 O5] Ht Hs Hk. split; cbn; try done.
  - intros x [Hx|Hx]%elem_of_app; [by apply O2|]. by apply list_elem_of_singleton in Hx as ->.
  - intros x [Hx|Hx]%elem_of_app; [by apply O3|]. by apply list_elem_of_singleton in Hx as ->.
  - rewrite fmap_app. apply NoDup_app. split_and!; [done| |by apply NoDup_singleton]. intros x Hx.
    cbn. rewrite list_elem_of_singleton. by intros ->.
Qed.

Lemma insert_refs_run l db u db' :
  k_ok db -> (forall r, r ∈ l -> ref_target (k_files db) r) ->
  st_iter insert_ref l db = Ok (u, db') -> db' = set_refs db (k_refs db ++ l) /\ k_ok db'.
Proof.
  revert db. induction l as [|r l IH]; intros db Hok Ht Hrun; cbn in Hrun.
  - injection Hrun as _ <-. rewrite app_nil_r. split; [by destruct db|done].
  - k_run Hrun. apply insert_ref_run in Hrun0 as (-> & Hs & Hk).
    apply IH in Hrun as [-> Hok']; cbn.
    + split; [by rewrite <- app_assoc|done].
    + apply k_ok_snoc_ref; set_solver.
    + set_solver.
Qed.

(** Rows that are new, valid and point at files go in. *)
Lemma insert_refs_go l db :
  (forall r, r ∈ l -> ref_target (k_files db) r /\ (rf_state r = "draft" \/ rf_state r = "published")) ->
  NoDup (ref_key <$> l) -> (forall r, r ∈ l -> ref_key r ∉ (ref_key <$> k_refs db)) ->
  st_iter insert_ref l db = Ok ((), set_refs db (k_refs db ++ l)).
Proof.
  revert db. induction l as [|r l IH]; intros db Ht Hn Hk; cbn.
  - rewrite app_nil_r. by destruct db.
  - destruct (Ht r ltac:(set_solver)) as [(f & Hf & _ & _) Hs]. rewrite fmap_cons in Hn. apply NoDup_cons in Hn as [Hr Hn].
    unfold mbind, st_bind. unfold insert_ref at 1.
    assert (string_in (rf_state r) ["draft"; "published"] = true) as -> by (unfold string_in; apply bool_decide_eq_true; set_solver).
    destruct (existsb (same_ref r) (k_refs db)) eqn:He; cbn.
    + apply existsb_exists in He as (x & Hx & Hsame). exfalso. apply (Hk r ltac:(set_solver)).
      apply list_elem_of_fmap. exists x. split; [|by apply list_elem_of_In]. unfold same_ref, ref_of_page in Hsame.
      rewrite !andb_true_iff, !String.eqb_eq in Hsame. unfold ref_key. destruct Hsame as [[[-> ->] ->] ->]. done.
    + rewrite Hf. rewrite IH; cbn; [by rewrite <- app_assoc|..].
      * intros x Hx. apply Ht. set_solver.
      * done.
      * intros x Hx. rewrite fmap_app. apply not_elem_of_app. split; [apply Hk; set_solver|]. cbn.
        rewrite list_elem_of_singleton. intros Heq. apply Hr. rewrite <- Heq. by apply list_elem_of_fmap_2.
Qed.

Lemma ref_of_page_iff ws pt st r :
  ref_of_page ws pt st r = true <-> rf_workspace_id r = ws /\ rf_knowledge_point_id r = pt /\ rf_state r = st.
Proof. unfold ref_of_page. rewrite !andb_true_iff, !String.eqb_eq. tauto. Qed.

Lemma k_ok_filter_refs p db : k_ok db -> k_ok (set_refs db (List.filter p (k_refs db))).
Proof.
  intros [O1 O2 O3 O4 O5]. split; cbn; try done.
  - intros r [Hr _]%filter_elem_of. by apply O2.
  - intros r [Hr _]%filter_elem_of. by apply O3.
  - eapply sublist_NoDup; [exact O4|]. by apply fmap_sublist, filter_sublist_of.
Qed.

(** Only references of one page and one state changed. *)
Definition refs_replaced (ws pt st : string) (new : list RefRow) (db : KDB) : KDB :=
  set_refs db (List.filter (fun r => negb (ref_of_page ws pt st r)) (k_refs db) ++ new).

Lemma filter_refs_replaced ws pt st new db ws2 pt2 st2 :
  (forall r, r ∈ new -> ref_of_page ws pt st r = true) ->
  List.filter (ref_of_page ws2 pt2 st2) (k_refs (refs_replaced ws pt st new db))
  = if decide ((ws2, pt2, st2) = (ws, pt, st)) then new else List.filter (ref_of_page ws2 pt2 st2) (k_refs db).
Proof.
  intros Hnew. cbn. rewrite List.filter_app, filter_filter_and. case_decide as Hk.
  - injection Hk as -> -> ->. rewrite filter_none, filter_all; [done|exact Hnew|]. intros r _.
    by destruct (ref_of_page ws pt st r).
  - rewrite (filter_none _ new), app_nil_r.
    + apply filter_ext. intros r. destruct (ref_of_page ws2 pt2 st2 r) eqn:H2; [|by rewrite andb_false_r].
      destruct (ref_of_page ws pt st r) eqn:H1; [|done]. apply ref_of_page_iff in H1 as (<- & <- & <-).
      apply ref_of_page_iff in H2 as (<- & <- & <-). done.
    + intros r Hr. apply Hnew, ref_of_page_iff in Hr as (<- & <- & <-).
      destruct (ref_of_page ws2 pt2 st2 r) eqn:H2; [|done]. apply ref_of_page_iff in H2 as (<- & <- & <-). done.
Qed.

Lemma refs_replaced_kept (P : string * string -> Prop) ws pt st new db :
  (forall r, r ∈ new -> ref_of_page ws pt st r = true) -> (st = "published" -> P (ws, pt)) ->
  k_ok (refs_replaced ws pt st new db) -> k_evolves P db (refs_replaced ws pt st new db).
Proof.
  intros Hnew HP Hok' Hok. split; [done|]. split; [done..| |done].
  intros [w p] Hk. unfold shown_refs. cbn [fst snd]. rewrite filter_refs_replaced by done.
  case_decide as Heq; [|done]. injection Heq as -> -> <-. by destruct (Hk (HP eq_refl)).
Qed.

Lemma new_refs_elem ws pt st ids now_ r :
  r ∈ new_refs ws pt st ids now_ ->
  rf_workspace_id r = ws /\ rf_knowledge_point_id r = pt /\ rf_state r = st /\ rf_file_id r ∈ ids.
Proof.
  intros (i & x & -> & Hx)%elem_of_lookup_imap_1. cbn. split_and!; [done..|]. by eapply list_elem_of_lookup_2.
Qed.

Lemma new_refs_ids ws pt st ids now_ : rf_file_id <$> new_refs ws pt st ids now_ = ids.
Proof. by apply fmap_imap_id. Qed.

Lemma new_refs_keys ws pt st ids now_ :
  ref_key <$> new_refs ws pt st ids now_ = (fun id => (ws, pt, st, id)) <$> ids.
Proof.
  rewrite <- (new_refs_ids ws pt st ids now_) at 2. rewrite <- list_fmap_compose. apply list_fmap_ext.
  intros i r Hr. apply list_elem_of_lookup_2, new_refs_elem in Hr as (<- & <- & <- & _). done.
Qed.

Lemma new_refs_sorted ws pt st ids now_ : sort_by ref_leb (new_refs ws pt st ids now_) = new_refs ws pt st ids now_.
Proof.
  apply sort_by_id, imap_sorted. intros i j x y Hij. unfold ref_leb. cbn.
  rewrite (proj2 (Z.ltb_lt _ _)); [done|lia].
Qed.

Lemma check_targets_run ws pt ids db u db' :
  st_iter (check_ref_target ws pt) ids db = Ok (u, db') ->
  db' = db /\ forall id, id ∈ ids -> exists f, file_of ws id db = Some f /\ kf_knowledge_point_id f = pt.
Proof.
  induction ids as [|id ids IH]; intros Hrun; cbn in Hrun.
  - injection Hrun as _ <-. split; [done|set_solver].
  - k_run Hrun. unfold check_ref_target in Hrun0. k_run Hrun0. destruct (file_of ws id db) as [f|] eqn:Hf; [|done].
    destruct (String.eqb (kf_knowledge_point_id f) pt) eqn:Hp; [|done]. injection Hrun0 as _ <-.
    destruct (IH Hrun) as [-> Hall]. split; [done|]. intros j [->|Hj]%elem_of_cons; [|by apply Hall].
    exists f. split; [done|]. by apply String.eqb_eq.
Qed.

Lemma check_targets_go ws pt ids db :
  (forall id, id ∈ ids -> exists f, file_of ws id db = Some f /\ kf_knowledge_point_id f = pt) ->
  st_iter (check_ref_target ws pt) ids db = Ok ((), db).
Proof.
  induction ids as [|id ids IH]; intros Hall; [done|]. cbn. unfold mbind, st_bind. unfold check_ref_target at 1.
  destruct (Hall id ltac:(set_solver)) as (f & Hf & Hp). unfold mbind, st_bind. cbn. rewrite Hf, Hp, String.eqb_refl.
  cbn. apply IH. set_solver.
Qed.

Lemma file_of_target ws id pt st so ts f db :
  file_of ws id db = Some f -> kf_knowledge_point_id f = pt ->
  ref_target (k_files db) {| rf_workspace_id := ws; rf_knowledge_point_id := pt; rf_file_id := id; rf_state := st;
                             rf_sort_order := so; rf_created_at := ts |}.
Proof.
  unfold file_of. intros Hf Hp. destruct (k_files db !! id) as [g|] eqn:Hg; [|done].
  destruct (String.eqb _ _) eqn:Hw; [|done]. injection Hf as ->. exists f. cbn. by apply String.eqb_eq in Hw.
Qed.

Lemma new_refs_targets ws pt st ids now_ db :
  (forall id, id ∈ ids -> exists f, file_of ws id db = Some f /\ kf_knowledge_point_id f = pt) ->
  forall r, r ∈ new_refs ws pt st ids now_ -> ref_target (k_files db) r.
Proof.
  intros Hall r Hr. pose proof (new_refs_elem _ _ _ _ _ _ Hr) as (Hw & Hp & Hs & Hid).
  destruct (Hall _ Hid) as (f & Hf & Hpt). destruct r; cbn in *; subst. by eapply file_of_target.
Qed.

(** The files a page may refer to. *)
Definition own_files (ws pt : string) (ids : list string) (db : KDB) : Prop :=
  forall id, id ∈ ids -> exists f, file_of ws id db = Some f /\ kf_knowledge_point_id f = pt.

Lemma replace_file_refs_run ws pt st ids now_ db u db' :
  k_ok db -> replace_file_refs ws pt st ids now_ db = Ok (u, db') ->
  db' = refs_replaced ws pt st (new_refs ws pt st (fromkeys ids) now_) db /\ k_ok db'
  /\ (st = "draft" \/ st = "published") /\ own_files ws pt ids db.
Proof.
  intros Hok Hrun. unfold replace_file_refs in Hrun. k_run Hrun. unfold validate_file_ref_state in Hrun0.
  destruct (string_in st _) eqn:Hst; [|done]. injection Hrun0 as _ <-.
  apply check_targets_run in Hrun1 as [-> Hall]. injection Hrun2 as <- <-. apply insert_refs_run in Hrun as [-> Hok'].
  - split_and!; [done..| |].
    + unfold string_in in Hst. apply bool_decide_eq_true in Hst. set_solver.
    + intros id Hid. by apply Hall, fromkeys_elem.
  - by apply k_ok_filter_refs.
  - cbn. by apply new_refs_targets.
Qed.

Lemma replace_file_refs_go ws pt st ids now_ db :
  (st = "draft" \/ st = "published") -> own_files ws pt ids db ->
  replace_file_refs ws pt st ids now_ db
  = Ok ((), refs_replaced ws pt st (new_refs ws pt st (fromkeys ids) now_) db).
Proof.
  intros Hst Hall. unfold replace_file_refs, validate_file_ref_state.
  assert (string_in st ["draft"; "published"] = true) as -> by (unfold string_in; apply bool_decide_eq_true; set_solver).
  unfold mbind, st_bind. cbn -[fromkeys]. rewrite check_targets_go by (intros id Hid; by apply Hall, fromkeys_elem).
  rewrite insert_refs_go; [done| | |].
  - intros r Hr. split; [|by apply new_refs_elem in Hr as (_ & _ & -> & _)].
    eapply (new_refs_targets _ _ _ _ _ _); [|exact Hr]. intros id Hid. by apply Hall, fromkeys_elem.
  - rewrite new_refs_keys. apply NoDup_fmap_2; [|apply fromkeys_NoDup]. by intros x y [= ->].
  - intros r Hr. cbn. apply new_refs_elem in Hr as (Hw & Hp & Hs & _). rewrite list_elem_of_fmap.
    intros (x & Hx & [_ Hn]%filter_elem_of). apply negb_true_iff in Hn. injection Hx as E1 E2 E3 _.
    rewrite (proj2 (ref_of_page_iff ws pt st x)) in Hn; [done|]. by rewrite <- E1, <- E2, <- E3.
Qed.

Lemma new_refs_of_page ws pt st ids now_ r : r ∈ new_refs ws pt st ids now_ -> ref_of_page ws pt st r = true.
Proof. intros (Hw & Hp & Hs & _)%new_refs_elem. by apply ref_of_page_iff. Qed.

Lemma kmoves_replace_file_refs (P : string * string -> Prop) ws pt st ids now_ :
  (st = "published" -> P (ws, pt)) -> kmoves P (replace_file_refs ws pt st ids now_).
Proof.
  intros HP db u db' Hrun Hok. destruct (replace_file_refs_run _ _ _ _ _ _ _ _ Hok Hrun) as (-> & Hok' & _ & _).
  apply refs_replaced_kept; try done. intros r. apply new_refs_of_page.
Qed.

(** ** Publication *)

Lemma page_refs_elem ws pt st db r : r ∈ page_refs ws pt st db <-> r ∈ k_refs db /\ ref_of_page ws pt st r = true.
Proof. unfold page_refs. rewrite (sort_by_perm ref_leb). apply filter_elem_of. Qed.

Lemma publish_file_refs_run ws pt now_ db ids db' :
  k_ok db -> publish_knowledge_book_file_refs ws pt now_ db = Ok (ids, db') ->
  db' = refs_replaced ws pt "published" (ref_promoted now_ <$> page_refs ws pt "draft" db) db /\ k_ok db'.
Proof.
  intros Hok Hrun. unfold publish_knowledge_book_file_refs in Hrun. k_run Hrun.
  injection Hrun1 as <- <-. apply insert_refs_run in Hrun2 as [-> Hok'].
  - split; [done|done].
  - by apply k_ok_filter_refs.
  - cbn. intros r (x & -> & [Hx Hp]%page_refs_elem)%list_elem_of_fmap. by apply (ok_targets _ Hok) in Hx.
Qed.

Lemma promoted_of_page ws pt now_ db r :
  r ∈ ref_promoted now_ <$> page_refs ws pt "draft" db -> ref_of_page ws pt "published" r = true.
Proof.
  intros (x & -> & [_ (Hw & Hp & _)%ref_of_page_iff]%page_refs_elem)%list_elem_of_fmap. by apply ref_of_page_iff.
Qed.

Lemma kmoves_publish_file_refs (P : string * string -> Prop) ws pt now_ :
  P (ws, pt) -> kmoves P (publish_knowledge_book_file_refs ws pt now_).
Proof.
  intros HP db ids db' Hrun Hok. destruct (publish_file_refs_run _ _ _ _ _ _ Hok Hrun) as (-> & Hok').
  apply refs_replaced_kept; try done. intros r. apply promoted_of_page.
Qed.

Lemma kmoves_publish_assets (P : string * string -> Prop) ws pt now_ paths :
  P (ws, pt) -> kmoves P (st_iter (publish_asset ws now_) paths).
Proof.
  intros HP. moves_iter. intros path. unfold publish_asset. moves_modify. intros db. apply k_evolves_set_assets.
  intros w p Hw. rewrite lookup_alter_ne; [done|]. intros [= -> _]. by apply (Hw pt).
Qed.

Lemma publish_assets_frame ws now_ paths db u db' :
  st_iter (publish_asset ws now_) paths db = Ok (u, db') ->
  k_pages db' = k_pages db /\ k_refs db' = k_refs db /\ k_files db' = k_files db /\ k_library db' = k_library db
  /\ forall key, k_assets db' !! key
       = if decide (key.1 = ws /\ key.2 ∈ paths) then asset_published now_ <$> k_assets db !! key else k_assets db !! key.
Proof.
  revert db. induction paths as [|path paths IH]; intros db Hrun; cbn in Hrun.
  - injection Hrun as _ <-. split_and!; [done..|]. intros [w p]. case_decide; [set_solver|done].
  - k_run Hrun. injection Hrun0 as _ <-. destruct (IH _ Hrun) as (-> & -> & -> & -> & Ha). split_and!; [done..|].
    intros [w p]. rewrite Ha. cbn. destruct (decide ((ws, path) = (w, p))) as [[= -> ->]|Hne].
    + rewrite lookup_alter_eq. rewrite (decide_True (P := _ /\ p ∈ p :: paths)) by set_solver.
      case_decide; [|done]. by destruct (k_assets db !! (w, p)).
    + rewrite lookup_alter_ne by done.
      destruct (decide (w = ws /\ p ∈ paths)), (decide (w = ws /\ p ∈ path :: paths)); try done; set_solver.
Qed.

Lemma page_published_evolves (P : string * string -> Prop) db ws pt p now_ :
  P (ws, pt) -> page ws pt db = Some p ->
  k_evolves P db (set_pages db (<[(ws, pt) := page_published (kp_revision p) now_ p]> (k_pages db))).
Proof.
  intros HP Hp Hok. unfold page in Hp. apply k_evolves_set_page; [|by rewrite Hp|done|done].
  destruct (ok_pages _ Hok _ _ Hp) as [R1 R2 R3]. split; cbn; [done|done|]. intros r [= <-]. done.
Qed.

Lemma update_page_run key f db p :
  k_pages db !! key = Some p -> update_page key f db = Ok ((), set_pages db (<[key := f p]> (k_pages db))).
Proof.
  intros Hp. unfold update_page, modify. do 3 f_equal. apply map_eq. intros k. destruct (decide (key = k)) as [<-|Hne].
  - by rewrite lookup_alter_eq, lookup_insert_eq, Hp.
  - by rewrite lookup_alter_ne, lookup_insert_ne.
Qed.

(** The run of a publication: the page, its assets and its files. *)
Lemma publish_page_run ws pt expected ids now_ db a db' :
  publish_knowledge_page ws pt expected ids now_ db = Ok (a, db') ->
  exists p db1 db2, page ws pt db = Some p /\ kp_revision p = expected /\ blank (kp_draft_markdown p) = false
    /\ db1 = set_pages db (<[(ws, pt) := page_published (kp_revision p) now_ p]> (k_pages db))
    /\ st_iter (publish_asset ws now_) (asset_paths_from_markdown (kp_draft_markdown p)) db1 = Ok ((), db2)
    /\ match ids with Some l => replace_file_refs ws pt "published" l now_ db2 = Ok ((), db') | None => db' = db2 end
    /\ a = page ws pt db'.
Proof.
  intros Hrun. unfold publish_knowledge_page in Hrun. k_run Hrun. destruct (page ws pt db) as [p|] eqn:Hp; [|done].
  k_run Hrun. apply (check_revision_run _ (Some expected)) in Hrun0 as (-> & -> & He).
  specialize (He _ eq_refl). cbn in He, Hrun. destruct (blank (kp_draft_markdown p)) eqn:Hb; [done|].
  st_run Hrun. rewrite (update_page_run _ _ _ _ Hp) in Hrun0. injection Hrun0 as <- <-. injection Hrun as <- <-.
  repeat match goal with u : () |- _ => destruct u end.
  exists p. eexists _, _. split_and!; [done..|exact Hrun1| |done].
  destruct ids as [l|]; [done|]. by injection Hrun2 as ->.
Qed.

Lemma kmoves_publish_page (P : string * string -> Prop) ws pt expected ids now_ :
  P (ws, pt) -> kmoves P (publish_knowledge_page ws pt expected ids now_).
Proof.
  intros HP db a db' (p & db1 & db2 & Hp & _ & _ & Hdb1 & Ha & Hr & _)%publish_page_run.
  etrans; [by apply (page_published_evolves P _ ws pt p now_)|]. rewrite <- Hdb1.
  etrans; [by eapply kmoves_publish_assets|]. destruct ids as [l|]; [|by subst].
  by eapply kmoves_replace_file_refs.
Qed.

(** ** The import of a package *)

(** A way to find the digest of an asset that writes nothing. *)
Definition reads_digest (digest : ImportAsset -> Ktx string) : Prop :=
  forall a db d db', digest a db = Ok (d, db') -> db' = db.

Lemma given_digest_reads : reads_digest given_digest.
Proof. intros a db d db'. unfold given_digest. by destruct (ia_sha256 a); [intros [= _ <-]|]. Qed.

Lemma computed_digest_reads sha : reads_digest (computed_digest sha).
Proof. by intros a db d db' [= _ <-]. Qed.

Lemma kmoves_upsert_asset P ws a sha now_ : kmoves P (upsert_asset ws a sha now_).
Proof.
  unfold upsert_asset. moves_modify. intros db. apply k_evolves_set_assets. intros w path _.
  destruct (decide ((ws, ia_asset_path a) = (w, path))) as [[= <- <-]|Hne].
  - rewrite lookup_partial_alter_eq. cbn. unfold shown_asset. done.
  - by rewrite lookup_partial_alter_ne.
Qed.

Lemma kmoves_import P digest ws pages assets file_refs now_ :
  reads_digest digest -> kmoves P (import_with digest ws pages assets file_refs now_).
Proof.
  intros Hd db a db' Hrun Hok. unfold import_with in Hrun. st_run Hrun. injection Hrun as _ <-.
  apply check_pages_run in Hrun0 as (-> & Hp & _). apply import_pages_run in Hrun1 as ->.
  2: { intros p Hin. destruct (Hp p Hin) as [_ Hc]. eauto. }
  revert Hok. match goal with |- k_ok db -> ?G => change (k_evolves P db s2) end.
  trans (set_pages db (import_rows ws now_ pages (k_pages db))); [|trans s1].
  - intros Hok. apply import_rows_evolves; [done| | |done].
    + intros p Hin. destruct (Hp p Hin) as [-> _]. split; [by apply page_revision_nonneg|lia].
    + intros p q Hpin Hqin Heq. rewrite (proj1 (Hp p Hpin)), (proj1 (Hp q Hqin)). by rewrite Heq.
  - refine (st_moves_iter (k_evolves P) _ _ _ _ _ _ Hrun2). intros x. moves_bind.
    + refine (st_moves_reads _ _ _). intros s d s' Hs. by eapply Hd.
    + intros sha. apply kmoves_upsert_asset.
  - refine (st_moves_iter (k_evolves P) _ _ _ _ _ _ Hrun3). intros [pt ids].
    by apply kmoves_replace_file_refs.
Qed.

(** ** Files and the library *)

(** A change of the files that keeps their pages, and the files that published references name. *)
Lemma k_evolves_set_files P db m :
  (forall id f, k_files db !! id = Some f -> (exists r, r ∈ k_refs db /\ rf_file_id r = id) ->
     exists g, m !! id = Some g /\ kf_workspace_id g = kf_workspace_id f
       /\ kf_knowledge_point_id g = kf_knowledge_point_id f) ->
  (k_ok db -> forall r, r ∈ k_refs db -> rf_state r = "published" -> m !! rf_file_id r = k_files db !! rf_file_id r) ->
  k_evolves P db (set_files db m).
Proof.
  intros Hkeep Hpub Hok. pose proof Hok as [O1 O2 O3 O4 O5]. split; [split; cbn; try done|split; cbn; try done].
  - intros r Hr. destruct (O2 _ Hr) as (f & Hf & Hw & Hp). destruct (Hkeep _ _ Hf) as (g & Hg & Ew & Ep); [eauto|].
    exists g. split_and!; congruence.
  - intros key r _ [Hr (_ & _ & Hs)%ref_of_page_iff]%filter_elem_of. by apply Hpub.
Qed.

Lemma kmoves_insert_file P id f : kmoves P (insert_file id f).
Proof.
  intros db u db'. unfold insert_file. destruct (k_files db !! id) eqn:Hid; [done|]. intros [= _ <-].
  apply k_evolves_set_files.
  - intros j g Hg _. exists g. rewrite lookup_insert_ne; [done|]. congruence.
  - intros Hok r Hr _. destruct (ok_targets _ Hok r Hr) as (g & Hg & _). rewrite lookup_insert_ne; [done|]. congruence.
Qed.

Lemma refuse_published_run ws id db u db' :
  refuse_published ws id db = Ok (u, db') ->
  db' = db /\ forall r, r ∈ k_refs db -> rf_state r = "published" -> rf_workspace_id r = ws -> rf_file_id r <> id.
Proof.
  unfold refuse_published. intros Hrun. k_run Hrun. destruct (existsb _ _) eqn:He; [done|]. injection Hrun as _ <-.
  split; [done|]. intros r Hr Hs Hw Hid. eapply existsb_false_elem in He; [|done].
  unfold ref_of_file in He. by rewrite Hs, Hw, Hid, !String.eqb_refl in He.
Qed.

Section steps.
Context `{Uuids} (sha256 : string -> string).

Lemma kmoves_uuid P : kmoves P knowledge_uuid.
Proof. intros db a db' [= _ <-]. intros [O1 O2 O3 O4 O5]. split; [by split|split; done]. Qed.

Lemma kmoves_create_file P n file_id now_ : kmoves P (create_knowledge_book_file sha256 n file_id now_).
Proof.
  unfold create_knowledge_book_file. moves_bind.
  - destruct (truthy file_id); [moves_leaf|apply kmoves_uuid].
  - intros id. moves_bind; [apply kmoves_insert_file|]. intros _. moves_leaf.
Qed.

Lemma written_file_keeps ws id c current now_ db j f :
  k_files db !! j = Some f ->
  exists g, alter (fun f => if String.eqb (kf_workspace_id f) ws then file_changed sha256 c current now_ f else f)
              id (k_files db) !! j = Some g
    /\ kf_workspace_id g = kf_workspace_id f /\ kf_knowledge_point_id g = kf_knowledge_point_id f
    /\ (j <> id \/ kf_workspace_id f <> ws -> g = f).
Proof.
  intros Hf. destruct (decide (id = j)) as [->|Hne].
  - rewrite lookup_alter_eq, Hf. cbn. destruct (String.eqb_spec (kf_workspace_id f) ws) as [He|He].
    + eexists. split_and!; [done..|]. naive_solver.
    + by exists f.
  - rewrite lookup_alter_ne by done. by exists f.
Qed.

(** Changing a file that no published reference names. *)
Lemma unread_write_evolves P ws id c current now_ db :
  (forall r, r ∈ k_refs db -> rf_state r = "published" -> rf_workspace_id r = ws -> rf_file_id r <> id) ->
  k_evolves P db (run_tx (write_file sha256 ws id c current now_) db).2.
Proof.
  intros Hnone. cbn. apply k_evolves_set_files.
  - intros j f Hf _. destruct (written_file_keeps ws id c current now_ db j f Hf) as (g & Hg & Hw & Hp & _). eauto.
  - intros Hok r Hr Hs. destruct (ok_targets _ Hok _ Hr) as (f & Hf & Hw & _).
    destruct (written_file_keeps ws id c current now_ db _ f Hf) as (g & Hg & _ & _ & Heq). rewrite Hg, Hf, Heq; [done|].
    destruct (decide (rf_workspace_id r = ws)) as [Hws|Hws]; [left; by apply Hnone|right; congruence].
Qed.

Lemma read_file_to_change_run ws id db f db' :
  read_file_to_change ws id db = Ok (f, db') -> db' = db /\ file_of ws id db = Some f.
Proof.
  unfold read_file_to_change. intros Hrun. k_run Hrun. fold (file_of ws id db) in *. unfold get_knowledge_book_file in Hrun.
  destruct (file_of ws id db); [by injection Hrun as <- <-|done].
Qed.

(** The whole of [update_knowledge_book_file], undisturbed. *)
Lemma kmoves_update_file P ws id c now_ : kmoves P (update_knowledge_book_file sha256 ws id c now_).
Proof.
  intros db a db' Hrun. unfold update_knowledge_book_file in Hrun. k_run Hrun.
  apply read_file_to_change_run in Hrun0 as [-> _]. apply refuse_published_run in Hrun1 as [-> Hnone].
  injection Hrun2 as _ <-. by apply (unread_write_evolves P ws id c a0 now_).
Qed.

Lemma kmoves_delete_file P ws id : kmoves P (delete_knowledge_book_file ws id).
Proof.
  intros db a db' Hrun Hok. unfold delete_knowledge_book_file in Hrun. k_run Hrun.
  destruct (existsb _ _) eqn:He; [done|]. unfold delete_file_row, file_of in Hrun.
  destruct (k_files db !! id) as [f|] eqn:Hf; cbn in Hrun; [|by injection Hrun as _ <-].
  destruct (String.eqb_spec (kf_workspace_id f) ws) as [Hws|Hws]; [|by injection Hrun as _ <-].
  injection Hrun as _ <-.
  assert (Hno : forall r, r ∈ k_refs db -> rf_file_id r <> id).
  { intros r Hr Hid. eapply existsb_false_elem in He; [|exact Hr]. destruct (ok_targets _ Hok r Hr) as (g & Hg & Hw & _).
    rewrite Hid, Hf in Hg. injection Hg as <-. unfold ref_of_file in He.
    by rewrite <- Hw, Hws, Hid, !String.eqb_refl in He. }
  rewrite filter_all by (intros r Hr; apply negb_true_iff, String.eqb_neq; by apply Hno).
  assert (set_refs (set_files db (delete id (k_files db))) (k_refs db) = set_files db (delete id (k_files db))) as -> by done.
  eapply (k_evolves_set_files P); [| |done].
  - intros j g Hg (r & Hr & <-). exists g. rewrite lookup_delete_ne; [done|]. apply not_eq_sym. by apply Hno.
  - intros _ r Hr _. rewrite lookup_delete_ne; [done|]. apply not_eq_sym. by apply Hno.
Qed.

Lemma kmoves_create_library P name elements created_by now_ :
  kmoves P (create_whiteboard_library_item name elements created_by now_).
Proof.
  unfold create_whiteboard_library_item. moves_bind; [apply kmoves_uuid|]. intros id. moves_bind; [|intros _; moves_leaf].
  intros db u db'. unfold insert_library_item. destruct (k_library db !! id) eqn:Hid; [done|].
  destruct (existsb _ _) eqn:He; [done|]. intros [= _ <-] Hok. eapply (k_evolves_set_library P); [|done].
  assert (Hno : forall j b, k_library db !! j = Some b -> wl_asset_code b <> asset_code_of id).
  { intros j b Hb Heq. eapply (existsb_false_elem _ _ (j, b)) in He; [|by apply elem_of_map_to_list].
    cbn in He. by rewrite Heq, String.eqb_refl in He. }
  intros i j a b [[<- <-]|[Hi Ha]]%lookup_insert_Some [[<- <-]|[Hj Hb]]%lookup_insert_Some Hc; cbn in Hc.
  - done.
  - by destruct (Hno _ _ Hb).
  - by destruct (Hno _ _ Ha).
  - by eapply (ok_codes _ Hok).
Qed.

Lemma kmoves_rename_library P id name : kmoves P (rename_whiteboard_library_item id name).
Proof.
  unfold rename_whiteboard_library_item. moves_bind; [moves_leaf|]. intros [r|]; [|moves_leaf].
  moves_bind; [|intros _; moves_leaf]. moves_modify. intros db Hok. eapply (k_evolves_set_library P); [|done].
  assert (Hc : forall i a, alter (library_renamed name) id (k_library db) !! i = Some a ->
            exists b, k_library db !! i = Some b /\ wl_asset_code b = wl_asset_code a).
  { intros i a. destruct (decide (id = i)) as [->|Hne].
    - rewrite lookup_alter_eq. destruct (k_library db !! i) as [b|]; [|done]. intros [= <-]. by exists b.
    - rewrite lookup_alter_ne by done. by exists a. }
  intros i j a b Ha Hb He. destruct (Hc _ _ Ha) as (a' & Ha' & Ea), (Hc _ _ Hb) as (b' & Hb' & Eb).
  eapply (ok_codes _ Hok); [done..|congruence].
Qed.

Lemma kmoves_delete_library P id : kmoves P (delete_whiteboard_library_item id).
Proof.
  unfold delete_whiteboard_library_item. moves_bind; [|intros ?; moves_leaf].
  unfold delete_whiteboard_library_item_if_unreferenced. moves_bind; [moves_leaf|]. intros [row|]; [|moves_leaf].
  moves_bind; [moves_leaf|]. intros count. destruct (negb (count =? 0)); [moves_leaf|].
  moves_bind; [|intros _; moves_leaf]. moves_modify. intros db Hok. eapply (k_evolves_set_library P); [|done].
  intros i j a b [_ Ha]%lookup_delete_Some [_ Hb]%lookup_delete_Some. by eapply ok_codes.
Qed.

(** ** Calls *)

(** A call that takes the lock once to write; its label is the page it publishes something of. *)
Inductive kcall : option (string * string) -> KDB -> KDB -> Prop :=
| kc_update_page db ws pt markdown expected now_ :
    kcall None db (run_tx (update_knowledge_page ws pt markdown expected now_) db).2
| kc_import db ws pages assets file_refs now_ :
    kcall None db (run_tx (apply_knowledge_book_import ws pages assets file_refs now_) db).2
| kc_mysql_import db ws pages assets file_refs now_ :
    kcall None db (run_tx (mysql_apply_knowledge_book_import sha256 ws pages assets file_refs now_) db).2
| kc_draft_refs db ws pt ids now_ :
    kcall None db (run_tx (set_knowledge_book_file_refs ws pt "draft" ids now_) db).2
| kc_create_file db n file_id now_ :
    kcall None db (run_tx (create_knowledge_book_file sha256 n file_id now_) db).2
| kc_delete_file db ws id : kcall None db (run_tx (delete_knowledge_book_file ws id) db).2
| kc_create_library db name elements created_by now_ :
    kcall None db (run_tx (create_whiteboard_library_item name elements created_by now_) db).2
| kc_rename_library db id name : kcall None db (run_tx (rename_whiteboard_library_item id name) db).2
| kc_delete_library db id : kcall None db (run_tx (delete_whiteboard_library_item id) db).2
| kc_publish_page db ws pt expected ids now_ :
    kcall (Some (ws, pt)) db (run_tx (publish_knowledge_page ws pt expected ids now_) db).2
| kc_publish_refs db ws pt now_ :
    kcall (Some (ws, pt)) db (run_tx (publish_knowledge_book_file_refs ws pt now_) db).2
| kc_set_refs db ws pt st ids now_ :
    kcall (Some (ws, pt)) db (run_tx (set_knowledge_book_file_refs ws pt st ids now_) db).2.

Lemma kcall_evolves l db db' : kcall l db db' -> k_evolves (fun key => l = Some key) db db'.
Proof.
  intros [ | | | | | | | | | | | ]; moves_run;
    try (apply kmoves_import; (apply given_digest_reads || apply computed_digest_reads));
    eauto using kmoves_update_page_op, kmoves_replace_file_refs, kmoves_create_file,
      kmoves_delete_file, kmoves_create_library, kmoves_rename_library, kmoves_delete_library, kmoves_publish_page,
      kmoves_publish_file_refs.
  by apply kmoves_replace_file_refs.
Qed.

(** ** Calls that run at once

    [update_knowledge_book_file] gives the lock back between reading the file, looking for a
    published reference and writing; it runs in a thread of its own ([asyncio.to_thread]), so
    any other call may come in between. *)

(** A call of it that read the file: what it was asked to write, the row it read, and whether it
    found no published reference. *)
Record FileEdit := {
  fe_workspace_id : string;
  fe_file_id : string;
  fe_change : FileChange;
  fe_current : FileRow;
  fe_checked : bool;
}.
Definition edit_begun (ws id : string) (c : FileChange) (f : FileRow) : FileEdit :=
  {| fe_workspace_id := ws; fe_file_id := id; fe_change := c; fe_current := f; fe_checked := false |}.
Definition edit_checked (e : FileEdit) : FileEdit :=
  {| fe_workspace_id := fe_workspace_id e; fe_file_id := fe_file_id e; fe_change := fe_change e;
     fe_current := fe_current e; fe_checked := true |}.
Definition edit_written (e : FileEdit) (now_ : Z) : Ktx () :=
  write_file sha256 (fe_workspace_id e) (fe_file_id e) (fe_change e) (fe_current e) now_.

(** The store and the edits under way. *)
Record KWorld := { kw_db : KDB; kw_edits : list FileEdit }.

Inductive kstep : option (string * string) -> KWorld -> KWorld -> Prop :=
| ks_call l db db' edits :
    kcall l db db' -> kstep l {| kw_db := db; kw_edits := edits |} {| kw_db := db'; kw_edits := edits |}
| ks_read db edits ws id c f :
    read_file_to_change ws id db = Ok (f, db) ->
    kstep None {| kw_db := db; kw_edits := edits |} {| kw_db := db; kw_edits := edits ++ [edit_begun ws id c f] |}
| ks_check db pre e post :
    fe_checked e = false -> refuse_published (fe_workspace_id e) (fe_file_id e) db = Ok ((), db) ->
    kstep None {| kw_db := db; kw_edits := pre ++ e :: post |}
               {| kw_db := db; kw_edits := pre ++ edit_checked e :: post |}
| ks_write db pre e post now_ :
    fe_checked e = true ->
    kstep None {| kw_db := db; kw_edits := pre ++ e :: post |}
               {| kw_db := (run_tx (edit_written e now_) db).2; kw_edits := pre ++ post |}
| ks_drop db pre e post :
    kstep None {| kw_db := db; kw_edits := pre ++ e :: post |} {| kw_db := db; kw_edits := pre ++ post |}.

(** Any number of steps that publish only pages in [P]. *)
Inductive kruns (P : string * string -> Prop) (x : KWorld) : KWorld -> Prop :=
| kr_refl : kruns P x x
| kr_step l y z : kruns P x y -> kstep l y z -> (forall key, l = Some key -> P key) -> kruns P x z.

Definition empty_book (n : nat) : KDB :=
  {| k_pages := ∅; k_assets := ∅; k_files := ∅; k_refs := []; k_library := ∅; k_next_uuid := n |}.
Definition empty_world (n : nat) : KWorld := {| kw_db := empty_book n; kw_edits := [] |}.
Definition kreachable (x : KWorld) : Prop := exists n, kruns (fun _ => True) (empty_world n) x.

(** The edits that may still write a file whatever is published meanwhile. *)
Definition passed (x : KWorld) (ws id : string) (e : FileEdit) : Prop :=
  e ∈ kw_edits x /\ fe_checked e = true /\ fe_workspace_id e = ws /\ fe_file_id e = id.

(** What a row may have become: itself, or what such an edit makes of it. *)
Definition rewritten (x : KWorld) (ws id : string) (f g : FileRow) : Prop :=
  g = f \/ exists e now_, passed x ws id e /\ g = file_changed sha256 (fe_change e) (fe_current e) now_ f.

(** ** What a run of them keeps *)

Record kw_kept (P : string * string -> Prop) (x y : KWorld) : Prop := {
  kw_rev : forall key, page_revision (k_pages (kw_db x) !! key) <= page_revision (k_pages (kw_db y) !! key);
  kw_page : forall key, ~ P key -> shown_page key (kw_db y) = shown_page key (kw_db x);
  kw_asset : forall ws, (forall pt, ~ P (ws, pt)) -> forall path,
    shown_asset (ws, path) (kw_db y) = shown_asset (ws, path) (kw_db x);
  kw_refs : forall key, ~ P key -> shown_refs key (kw_db y) = shown_refs key (kw_db x);
  kw_passed : forall key r, ~ P key -> r ∈ shown_refs key (kw_db x) -> forall e,
    passed y (rf_workspace_id r) (rf_file_id r) e -> passed x (rf_workspace_id r) (rf_file_id r) e;
  kw_files : forall key r, ~ P key -> r ∈ shown_refs key (kw_db x) -> forall f,
    k_files (kw_db x) !! rf_file_id r = Some f -> exists g, k_files (kw_db y) !! rf_file_id r = Some g
      /\ rewritten x (rf_workspace_id r) (rf_file_id r) f g;
}.
Definition kw_evolves (P : string * string -> Prop) (x y : KWorld) : Prop :=
  k_ok (kw_db x) -> k_ok (kw_db y) /\ kw_kept P x y.

(** A second write leaves nothing of the first. *)
Lemma file_changed_twice c1 f1 t1 c2 f2 t2 f :
  file_changed sha256 c2 f2 t2 (file_changed sha256 c1 f1 t1 f) = file_changed sha256 c2 f2 t2 f.
Proof. done. Qed.

#[export] Instance kw_evolves_preorder P : PreOrder (kw_evolves P).
Proof.
  split.
  - intros x Hok. split; [done|]. split; try done. intros key r _ _ f Hf. exists f. split; [done|by left].
  - intros a b c Hab Hbc Ha. destruct (Hab Ha) as [Hb Kab]. destruct (Hbc Hb) as [Hc Kbc]. split; [done|]. split.
    + intros key. etrans; [apply Kab|apply Kbc].
    + intros key Hk. rewrite (kw_page _ _ _ Kbc), (kw_page _ _ _ Kab); done.
    + intros ws Hw path. rewrite (kw_asset _ _ _ Kbc), (kw_asset _ _ _ Kab); done.
    + intros key Hk. rewrite (kw_refs _ _ _ Kbc), (kw_refs _ _ _ Kab); done.
    + intros key r Hk Hr e He. eapply (kw_passed _ _ _ Kab); [done..|].
      eapply (kw_passed _ _ _ Kbc); [done| |done]. by rewrite (kw_refs _ _ _ Kab).
    + intros key r Hk Hr f Hf. destruct (kw_files _ _ _ Kab key r Hk Hr f Hf) as (g & Hg & Hfg).
      assert (Hr' : r ∈ shown_refs key (kw_db b)) by by rewrite (kw_refs _ _ _ Kab).
      destruct (kw_files _ _ _ Kbc key r Hk Hr' g Hg) as (h & Hh & [->|(e & t & He & ->)]); [by exists g|].
      eexists. split; [exact Hh|]. right. exists e, t. split; [by eapply (kw_passed _ _ _ Kab)|].
      destruct Hfg as [->|(e' & t' & _ & ->)]; [done|apply file_changed_twice].
Qed.

Lemma kw_evolves_weaken (P Q : string * string -> Prop) x y :
  (forall key, P key -> Q key) -> kw_evolves P x y -> kw_evolves Q x y.
Proof.
  intros HPQ He Hok. destruct (He Hok) as [Hok' [K1 K2 K3 K4 K5 K6]]. split; [done|].
  assert (Hn : forall key, ~ Q key -> ~ P key) by auto.
  split; [done|intros; apply K2|intros; apply K3|intros; apply K4|intros; eapply K5|intros; eapply K6]; eauto.
Qed.

(** A call leaves the edits alone, and so does a write of a file nobody reads. *)
Lemma kw_evolves_call (P : string * string -> Prop) db db' edits edits' :
  k_evolves P db db' -> (forall e, e ∈ edits' -> fe_checked e = true -> e ∈ edits) ->
  kw_evolves P {| kw_db := db; kw_edits := edits |} {| kw_db := db'; kw_edits := edits' |}.
Proof.
  intros He Hsub Hok. cbn in Hok |- *. destruct (He Hok) as [Hok' [K1 K2 K3 K4 K5]]. split; [done|]. split; cbn; try done.
  - intros key r _ _ e (Hin & Hc & ? & ?). split_and!; [by apply Hsub|done..].
  - intros key r Hk Hr f Hf. exists f. rewrite (K5 key r Hk Hr). split; [done|by left].
Qed.

Lemma shown_ref key db r : r ∈ shown_refs key db -> r ∈ k_refs db /\ rf_state r = "published".
Proof. by intros [Hr (_ & _ & Hs)%ref_of_page_iff]%filter_elem_of. Qed.

(** The check of an edit rules out the files that readers get. *)
Lemma kw_evolves_check P db pre e post :
  refuse_published (fe_workspace_id e) (fe_file_id e) db = Ok ((), db) ->
  kw_evolves P {| kw_db := db; kw_edits := pre ++ e :: post |} {| kw_db := db; kw_edits := pre ++ edit_checked e :: post |}.
Proof.
  intros [_ Hnone]%refuse_published_run Hok. cbn in Hok |- *. split; [done|]. split; cbn; try done.
  - intros key r _ [Hr Hs]%shown_ref e' (Hin & Hc & Hw & Hid). cbn in Hin.
    apply elem_of_app in Hin as [Hin|[->|Hin]%elem_of_cons]; [split_and!; set_solver| |split_and!; set_solver].
    cbn in Hw, Hid. by destruct (Hnone r Hr Hs).
  - intros key r _ _ f Hf. exists f. split; [done|by left].
Qed.

(** A checked edit writes whatever readers get by now. *)
Lemma kw_evolves_write P db pre e post now_ :
  fe_checked e = true ->
  kw_evolves P {| kw_db := db; kw_edits := pre ++ e :: post |}
               {| kw_db := (run_tx (edit_written e now_) db).2; kw_edits := pre ++ post |}.
Proof.
  intros Hc [O1 O2 O3 O4 O5]. cbn in *.
  set (m := alter _ (fe_file_id e) (k_files db)).
  assert (Hm : forall j f, k_files db !! j = Some f -> exists g, m !! j = Some g /\ kf_workspace_id g = kf_workspace_id f
             /\ kf_knowledge_point_id g = kf_knowledge_point_id f
             /\ (j <> fe_file_id e \/ kf_workspace_id f <> fe_workspace_id e -> g = f)) by (intros; by apply written_file_keeps).
  split; [split; cbn; try done|split; cbn; try done].
  - intros r Hr. destruct (O2 r Hr) as (f & Hf & Hw & Hp). destruct (Hm _ _ Hf) as (g & Hg & Ew & Ep & _).
    exists g. split_and!; congruence.
  - intros key r _ _ e' (Hin & ?). cbn in Hin. split; [set_solver|done].
  - intros key r _ [Hr _]%shown_ref f Hf. destruct (O2 r Hr) as (f' & Hf' & Hw & _).
    assert (f' = f) as -> by congruence. destruct (Hm _ _ Hf) as (g & Hg & _ & _ & Heq). exists g. split; [done|].
    destruct (decide (rf_file_id r = fe_file_id e)) as [Hid|Hid]; [|left; auto].
    destruct (decide (kf_workspace_id f = fe_workspace_id e)) as [Hws|Hws]; [|left; auto].
    right. exists e, now_. split; [split_and!; [set_solver|done|congruence|done]|].
    unfold m in Hg. rewrite Hid, lookup_alter_eq in Hg. rewrite Hid in Hf. rewrite Hf in Hg. cbn in Hg.
    rewrite Hws, String.eqb_refl in Hg. by injection Hg as <-.
Qed.

Lemma kstep_evolves l x y : kstep l x y -> kw_evolves (fun key => l = Some key) x y.
Proof.
  intros [l' db db' edits Hc|db edits ws id c f _|db pre e post _ Hr|db pre e post now_ Hc|db pre e post].
  - apply kw_evolves_call; [by apply kcall_evolves|done].
  - apply kw_evolves_call; [done|]. intros e [Hin| ->%list_elem_of_singleton]%elem_of_app; done.
  - by apply kw_evolves_check.
  - by apply kw_evolves_write.
  - apply kw_evolves_call; [done|]. set_solver.
Qed.

Lemma kruns_evolves P x y : kruns P x y -> kw_evolves P x y.
Proof.
  induction 1 as [|l y z _ IH Hs Hl]; [done|]. etrans; [exact IH|].
  eapply kw_evolves_weaken; [|by apply kstep_evolves]. done.
Qed.

Lemma k_ok_empty n : k_ok (empty_book n).
Proof. split; cbn; try (intros *; rewrite ?lookup_empty; done); try set_solver. constructor. Qed.

Lemma kreachable_ok x : kreachable x -> k_ok (kw_db x).
Proof. intros [n Hr]. apply kruns_evolves in Hr. by apply Hr, k_ok_empty. Qed.

(** Undisturbed, the three sections are the whole call. *)
Lemma update_file_is_its_sections ws id c now_ db edits :
  let run := run_tx (update_knowledge_book_file sha256 ws id c now_) db in
  exists y, kruns (fun _ => False) {| kw_db := db; kw_edits := edits |} y
    /\ kw_db y = run.2 /\ kw_edits y = edits.
Proof.
  intros run. destruct (read_file_to_change ws id db) as [[f db0]|] eqn:Hread.
  2: { exists {| kw_db := db; kw_edits := edits |}. split; [constructor|]. subst run. cbn.
       unfold run_tx, update_knowledge_book_file, mbind, st_bind. by rewrite Hread. }
  destruct (read_file_to_change_run _ _ _ _ _ Hread) as [-> _].
  assert (H1 : kruns (fun _ => False) {| kw_db := db; kw_edits := edits |}
                 {| kw_db := db; kw_edits := edits ++ [edit_begun ws id c f] |})
    by (eapply kr_step; [constructor|by apply ks_read|done]).
  destruct (refuse_published ws id db) as [[[] db1]|] eqn:Hcheck.
  - destruct (refuse_published_run _ _ _ _ _ Hcheck) as [-> _].
    exists {| kw_db := run.2; kw_edits := edits ++ [] |}. split; [|cbn; by rewrite app_nil_r].
    replace run.2 with (run_tx (edit_written (edit_checked (edit_begun ws id c f)) now_) db).2.
    + eapply kr_step; [eapply kr_step; [exact H1|by apply ks_check|done]|by apply ks_write|done].
    + subst run. unfold run_tx, update_knowledge_book_file, mbind, st_bind. by rewrite Hread, Hcheck.
  - exists {| kw_db := db; kw_edits := edits ++ [] |}. split; [eapply kr_step; [exact H1|apply ks_drop|done]|].
    cbn. rewrite app_nil_r. subst run. unfold run_tx, update_knowledge_book_file, mbind, st_bind. by rewrite Hread, Hcheck.
Qed.
End steps.
