(* ===== verification/KnowledgePublication.v ===== *)
(** * KnowledgePublication: what authors and readers of the knowledge book can rely on

    References read back in the order they were written, a stale draft is refused whatever
    happened in between, a package is applied as a whole, a publication shows the draft it was
    asked for, and nothing but a publication, or a file change that had passed its check, changes what
    readers see. *)
From S2P Require Import Prelude PyText Json GatewayTurns GatewaySafety KnowledgeStore KnowledgeBook KnowledgeSafety.
Local Open Scope Z_scope.

(** ** Reading references back *)

Lemma list_refs_replaced ws pt st new db ws2 pt2 st2 :
  (forall r, r ∈ new -> ref_of_page ws pt st r = true) ->
  page_refs ws2 pt2 st2 (refs_replaced ws pt st new db)
  = if decide ((ws2, pt2, st2) = (ws, pt, st)) then sort_by ref_leb new else page_refs ws2 pt2 st2 db.
Proof. intros Hnew. unfold page_refs. rewrite filter_refs_replaced by done. by case_decide. Qed.

Lemma list_refs_run ws pt st db :
  (st = "draft" \/ st = "published") ->
  list_knowledge_book_file_refs ws pt st db = Ok (rf_file_id <$> page_refs ws pt st db, db).
Proof. by intros [-> | ->]. Qed.

Lemma page_refs_own ws pt st db :
  k_ok db -> own_files ws pt (rf_file_id <$> page_refs ws pt st db) db.
Proof.
  intros Hok id (r & -> & [Hr (Hw & Hp & _)%ref_of_page_iff]%page_refs_elem)%list_elem_of_fmap.
  destruct (ok_targets _ Hok _ Hr) as (f & Hf & Hfw & Hfp). exists f. unfold file_of. rewrite Hf, Hfw, Hw, String.eqb_refl.
  split; [done|congruence].
Qed.

Lemma page_refs_NoDup ws pt st db : k_ok db -> NoDup (rf_file_id <$> page_refs ws pt st db).
Proof.
  intros Hok. assert (NoDup (ref_key <$> page_refs ws pt st db)) as Hk.
  { unfold page_refs. rewrite (sort_by_perm ref_leb). eapply sublist_NoDup; [apply (ok_ref_keys _ Hok)|].
    apply fmap_sublist, filter_sublist_of. }
  assert (ref_key <$> page_refs ws pt st db = (fun id => (ws, pt, st, id)) <$> (rf_file_id <$> page_refs ws pt st db)) as He.
  { rewrite <- list_fmap_compose. apply list_fmap_ext. intros i r Hr. apply list_elem_of_lookup_2, page_refs_elem in Hr as [_ Hr].
    apply ref_of_page_iff in Hr as (<- & <- & <-). done. }
  rewrite He in Hk. by apply NoDup_fmap_1 in Hk.
Qed.

Lemma publish_assets_go ws now_ paths db : exists db', st_iter (publish_asset ws now_) paths db = Ok ((), db').
Proof. revert db. induction paths as [|p paths IH]; intros db; [by eexists|]. cbn. apply IH. Qed.

Section published.
Context `{Uuids} (sha256 : string -> string).

(** A list of files of a page, once set, reads back without its repetitions and in its order, the
    lists of all other pages and states read as before, and a list that was read can always be set
    again and then reads the same. *)
Lemma file_refs_roundtrip x ws pt st ids now_ db' :
  kreachable sha256 x -> let db := kw_db x in
  set_knowledge_book_file_refs ws pt st ids now_ db = Ok ((), db') ->
  list_knowledge_book_file_refs ws pt st db' = Ok (fromkeys ids, db')
  /\ (NoDup ids -> fromkeys ids = ids)
  /\ (forall ws2 pt2 st2, (ws2, pt2, st2) <> (ws, pt, st) ->
        page_refs ws2 pt2 st2 db' = page_refs ws2 pt2 st2 db)
  /\ (forall pt2 st2 now2, st2 = "draft" \/ st2 = "published" ->
        let listed := rf_file_id <$> page_refs ws pt2 st2 db' in
        exists db2, set_knowledge_book_file_refs ws pt2 st2 listed now2 db' = Ok ((), db2)
          /\ list_knowledge_book_file_refs ws pt2 st2 db2 = Ok (listed, db2)).
Proof.
  intros Hr%kreachable_ok db Hset. destruct (replace_file_refs_run _ _ _ _ _ _ _ _ Hr Hset) as (-> & Hok' & Hst & _).
  split_and!.
  - rewrite list_refs_run, list_refs_replaced by (done || (intros r; apply new_refs_of_page)). rewrite decide_True by done.
    by rewrite new_refs_sorted, new_refs_ids.
  - apply fromkeys_id.
  - intros ws2 pt2 st2 Hne. rewrite list_refs_replaced by (intros r; apply new_refs_of_page). by rewrite decide_False.
  - intros pt2 st2 now2 Hst2. eexists. split; [by apply replace_file_refs_go, page_refs_own|].
    rewrite list_refs_run, list_refs_replaced by (done || (intros r; apply new_refs_of_page)). rewrite decide_True by done.
    rewrite new_refs_sorted, new_refs_ids, fromkeys_id; [done|]. by apply page_refs_NoDup.
Qed.

(** ** Optimistic concurrency *)

Lemma update_page_op_run ws pt markdown expected now_ db a db' :
  update_knowledge_page ws pt markdown expected now_ db = Ok (a, db') ->
  (forall e, expected = Some e -> e = page_revision (page ws pt db))
  /\ page_revision (page ws pt db') = page_revision (page ws pt db) + 1.
Proof.
  unfold update_knowledge_page. intros Hrun. k_run Hrun. apply check_revision_run in Hrun1 as (-> & -> & He).
  apply write_draft_run in Hrun2 as ->; [|done]. split; [done|]. rewrite page_set_page, decide_True by done.
  by destruct (page ws pt db).
Qed.

Lemma check_revision_stale current e db :
  e <> page_revision current -> check_knowledge_page_revision current (Some e) db = Err RevisionConflictError.
Proof. intros Hne. unfold check_knowledge_page_revision. by rewrite (proj2 (Z.eqb_neq _ _)). Qed.

Lemma check_pages_stale ws pages currents db p :
  p ∈ pages -> ip_expected_revision p <> page_revision (page ws (ip_knowledge_point_id p) db) ->
  check_pages ws pages currents db = Err RevisionConflictError.
Proof.
  intros Hp Hne. revert currents. induction pages as [|q pages IH]; intros currents; [set_solver|].
  cbn -[check_knowledge_page_revision]. unfold mbind, st_bind, gets.
  destruct (decide (ip_expected_revision q = page_revision (page ws (ip_knowledge_point_id q) db))) as [He|He].
  - unfold check_knowledge_page_revision. rewrite He, Z.eqb_refl. cbn. apply IH.
    apply elem_of_cons in Hp as [->|Hp]; [by destruct Hne|done].
  - by rewrite check_revision_stale.
Qed.

(** Of the writers that start from one revision of a page at most one wins: after a draft was written on
    it, whatever calls follow, every update, publication and import that still expects that revision
    is refused with a conflict and changes nothing, while a writer who knows the current revision
    gets through. *)
Lemma stale_draft_refused x ws pt markdown e now_ a db1 P y :
  kreachable sha256 x ->
  update_knowledge_page ws pt markdown (Some e) now_ (kw_db x) = Ok (a, db1) ->
  kruns sha256 P {| kw_db := db1; kw_edits := kw_edits x |} y ->
  let db2 := kw_db y in
  (forall m t, run_tx (update_knowledge_page ws pt m (Some e) t) db2 = (Err RevisionConflictError, db2))
  /\ (forall ids t, run_tx (publish_knowledge_page ws pt e ids t) db2 = (Err RevisionConflictError, db2))
  /\ (forall pages assets refs t, (exists p, p ∈ pages /\ ip_knowledge_point_id p = pt /\ ip_expected_revision p = e) ->
        run_tx (apply_knowledge_book_import ws pages assets refs t) db2 = (Err RevisionConflictError, db2))
  /\ (forall m t, let r := page_revision (page ws pt db2) in
        exists q db3, run_tx (update_knowledge_page ws pt m (Some r) t) db2 = (Ok (Some q), db3)
          /\ kp_draft_markdown q = m /\ kp_revision q = r + 1 /\ page ws pt db3 = Some q).
Proof.
  intros Hok%kreachable_ok Hu Hrun db2. set (db := kw_db x) in *.
  apply update_page_op_run in Hu as Hrev. destruct Hrev as [He Hrev]. specialize (He _ eq_refl).
  assert (k_ok db1) as Hok1 by (by eapply (kmoves_update_page_op (fun _ => True)); [exact Hu|]).
  apply kruns_evolves in Hrun. destruct (Hrun Hok1) as [Hok2 Kept]. pose proof (kw_rev _ _ _ _ Kept (ws, pt)) as Hle.
  cbn in Hle. fold db2 in Hle, Hok2. fold (page ws pt db1) (page ws pt db2) in Hle.
  assert (Hne : e <> page_revision (page ws pt db2)) by lia.
  split_and!.
  - intros m t. unfold run_tx, update_knowledge_page, mbind, st_bind, gets. by rewrite check_revision_stale.
  - intros ids t. unfold run_tx, publish_knowledge_page, mbind, st_bind, gets.
    destruct (page ws pt db2) as [p|] eqn:Hp; [by rewrite check_revision_stale|].
    exfalso. cbn in Hle. pose proof (page_revision_nonneg db (ws, pt) Hok) as H0.
    unfold page in *. lia.
  - intros pages assets refs t (p & Hp & <- & <-). unfold run_tx, apply_knowledge_book_import, import_with, mbind, st_bind.
    by rewrite (check_pages_stale _ _ _ _ p).
  - intros m t r. unfold run_tx, update_knowledge_page, mbind, st_bind, gets, check_knowledge_page_revision, r.
    rewrite Z.eqb_refl. cbn. unfold write_draft. destruct (page ws pt db2) as [p|] eqn:Hp; unfold page in Hp.
    + rewrite (update_page_run _ _ _ _ Hp). unfold page. cbn. rewrite lookup_insert_eq. do 2 eexists.
      split_and!; [done..|]. cbn. by rewrite lookup_insert_eq.
    + unfold insert_page. rewrite Hp. unfold page. cbn. rewrite lookup_insert_eq. do 2 eexists.
      split_and!; [done..|]. cbn. by rewrite lookup_insert_eq.
Qed.

(** ** What readers see *)

(** A file with the list it is in: what readers get of a reference before and after. *)
Definition served (x : KWorld) (ws : string) (a b : string * FileRow) : Prop :=
  b.1 = a.1 /\ rewritten sha256 x ws a.1 a.2 b.2.

Lemma rewritten_columns x ws id f g :
  rewritten sha256 x ws id f g -> kf_workspace_id g = kf_workspace_id f /\ kf_knowledge_point_id g = kf_knowledge_point_id f.
Proof. by intros [->|(e & t & _ & ->)]. Qed.

Lemma list_published_kept (P : string * string -> Prop) x y ws pt :
  k_ok (kw_db x) -> kw_kept sha256 P x y -> ~ P (ws, pt) ->
  Forall2 (served x ws) (list_published_knowledge_book_files ws pt (kw_db x))
                        (list_published_knowledge_book_files ws pt (kw_db y)).
Proof.
  intros Hok Hk HP. unfold list_published_knowledge_book_files, page_refs.
  pose proof (kw_refs _ _ _ _ Hk _ HP) as Hs. unfold shown_refs in Hs. cbn [fst snd] in Hs. rewrite Hs.
  assert (Hin : forall r, r ∈ sort_by ref_leb (List.filter (ref_of_page ws pt "published") (k_refs (kw_db x))) ->
            r ∈ shown_refs (ws, pt) (kw_db x)) by (intros r; by rewrite (sort_by_perm ref_leb)).
  revert Hin. generalize (sort_by ref_leb (List.filter (ref_of_page ws pt "published") (k_refs (kw_db x)))) as l.
  induction l as [|r l IH]; intros Hin; [constructor|]. cbn.
  assert (Hr : r ∈ shown_refs (ws, pt) (kw_db x)) by (apply Hin; set_solver).
  specialize (IH ltac:(intros; apply Hin; set_solver)).
  pose proof Hr as [Hr0 (Hws & _ & _)%ref_of_page_iff]%filter_elem_of. cbn in Hws.
  destruct (ok_targets _ Hok r Hr0) as (f & Hf & Hfw & Hfp).
  destruct (kw_files _ _ _ _ Hk _ r HP Hr f Hf) as (g & Hg & Hfg).
  destruct (rewritten_columns _ _ _ _ _ Hfg) as [Hgw Hgp]. unfold joined, file_of. rewrite Hf, Hg, Hgw, Hfw.
  rewrite !String.eqb_refl, Hgp, Hfp, !String.eqb_refl. constructor; [|exact IH]. split; [done|]. cbn. by rewrite <- Hws.
Qed.

Lemma shown_page_published ws pt db :
  (fun p => (kp_published_markdown p, kp_published_revision p)) <$> get_published_knowledge_page ws pt db
  = (fun mv : string * option Z => (Some mv.1, mv.2)) <$> shown_page (ws, pt) db.
Proof.
  unfold get_published_knowledge_page, shown_page, page. destruct (k_pages db !! (ws, pt)) as [p|]; [|done]. cbn.
  by destruct (kp_published_markdown p) eqn:Hm; cbn; rewrite ?Hm.
Qed.

Lemma shown_asset_view ws path db :
  av_content <$> get_knowledge_book_asset ws path db = shown_asset (ws, path) db.
Proof.
  unfold get_knowledge_book_asset, shown_asset. destruct (k_assets db !! (ws, path)) as [a|]; [|done]. cbn.
  by destruct (ka_published_content a).
Qed.

(** C33: in a run of any steps, the sections of file changes that overlap other calls among them, a
    page of which nothing is published keeps the text and the revision that readers get, and it
    keeps its list of files, in order, with every column of every file, except that a change of
    a file that had already found the file unpublished when the run began may still write it; so
    without such a change the whole list is the same. The bytes of an asset change only with a
    publication in its workspace. *)
Theorem readers_see_publications_only P x y ws pt :
  kreachable sha256 x -> kruns sha256 P x y -> ~ P (ws, pt) ->
  (fun p => (kp_published_markdown p, kp_published_revision p)) <$> get_published_knowledge_page ws pt (kw_db y)
    = (fun p => (kp_published_markdown p, kp_published_revision p)) <$> get_published_knowledge_page ws pt (kw_db x)
  /\ Forall2 (fun a b : string * FileRow => b.1 = a.1
        /\ (b.2 = a.2
            \/ exists e now_, e ∈ kw_edits x /\ fe_checked e = true /\ fe_workspace_id e = ws /\ fe_file_id e = a.1
                 /\ b.2 = file_changed sha256 (fe_change e) (fe_current e) now_ a.2))
       (list_published_knowledge_book_files ws pt (kw_db x)) (list_published_knowledge_book_files ws pt (kw_db y))
  /\ ((forall e, e ∈ kw_edits x -> fe_checked e = true -> fe_workspace_id e = ws ->
         fe_file_id e ∉ (list_published_knowledge_book_files ws pt (kw_db x)).*1) ->
       list_published_knowledge_book_files ws pt (kw_db y) = list_published_knowledge_book_files ws pt (kw_db x))
  /\ ((forall pt2, ~ P (ws, pt2)) -> forall path,
        av_content <$> get_knowledge_book_asset ws path (kw_db y)
        = av_content <$> get_knowledge_book_asset ws path (kw_db x)).
Proof.
  intros Hok%kreachable_ok Hrun HP. apply kruns_evolves in Hrun. destruct (Hrun Hok) as [_ Hk].
  pose proof (list_published_kept P x y ws pt Hok Hk HP) as Hl. split_and!.
  - rewrite !shown_page_published. by rewrite (kw_page _ _ _ _ Hk).
  - eapply Forall2_impl; [exact Hl|]. intros a b [? [?|(e & t & (? & ? & ? & ?) & ?)]]; split; eauto 10.
  - intros Hno. revert Hno. induction Hl as [|[i f] [j g] l l' [Hij Hfg] _ IH]; intros Hno; [done|].
    cbn in Hij, Hfg. subst j. rewrite IH by (intros e H1 H2 H3 H4; apply (Hno e H1 H2 H3); set_solver).
    destruct Hfg as [->|(e & t & (H1 & H2 & H3 & <-) & _)]; [done|]. destruct (Hno e H1 H2 H3). set_solver.
  - intros Hw path. rewrite !shown_asset_view. by apply (kw_asset _ _ _ _ Hk).
Qed.

(** A publication succeeds exactly when the page has a draft with some text at the revision
    expected and the files belong to it; then the page shows its draft under that revision, the
    assets the draft names show their drafts, no other asset changes, and the files are
    those asked for, in order. *)
Lemma publication_shows_draft x ws pt e ids now_ :
  kreachable sha256 x -> let db := kw_db x in
  (is_ok (publish_knowledge_page ws pt e (Some ids) now_ db) = true <->
     (exists p, page ws pt db = Some p /\ kp_revision p = e /\ blank (kp_draft_markdown p) = false)
     /\ own_files ws pt ids db)
  /\ (forall a db', publish_knowledge_page ws pt e (Some ids) now_ db = Ok (a, db') ->
        exists p q, page ws pt db = Some p /\ a = Some q /\ page ws pt db' = Some q
          /\ kp_published_markdown q = Some (kp_draft_markdown p) /\ kp_published_revision q = Some e
          /\ kp_draft_markdown q = kp_draft_markdown p /\ kp_revision q = e
          /\ (forall w path, shown_asset (w, path) db'
                 = if decide (w = ws /\ path ∈ asset_paths_from_markdown (kp_draft_markdown p))
                   then ka_draft_content <$> k_assets db !! (w, path) else shown_asset (w, path) db)
          /\ list_knowledge_book_file_refs ws pt "published" db' = Ok (fromkeys ids, db')).
Proof.
  intros Hr%kreachable_ok db. split.
  - split.
    + destruct (publish_knowledge_page ws pt e (Some ids) now_ db) as [[a db']|] eqn:Hrun; [|done]. intros _.
      apply publish_page_run in Hrun as (p & db1 & db2 & Hp & He & Hb & -> & Ha & Hset & _). split; [eauto|].
      assert (Hok1 : k_ok db2).
      { eapply (kmoves_publish_assets (fun _ => True) ws pt); [done|exact Ha|].
        by apply (page_published_evolves (fun _ => True) db ws pt p now_). }
      destruct (replace_file_refs_run _ _ _ _ _ _ _ _ Hok1 Hset) as (_ & _ & _ & Hown).
      apply publish_assets_frame in Ha as (_ & _ & Hfiles & _). intros id Hid. destruct (Hown id Hid) as (f & Hf & Hfp).
      exists f. split; [|done]. unfold file_of in *. rewrite Hfiles in Hf. done.
    + intros [(p & Hp & <- & Hb) Hown]. unfold publish_knowledge_page, mbind, st_bind, gets. rewrite Hp.
      unfold check_knowledge_page_revision. cbn [page_revision]. rewrite Z.eqb_refl. cbn [mret st_ret].
      unfold mret, st_ret. rewrite Hb, (update_page_run _ _ _ _ Hp).
      destruct (publish_assets_go ws now_ (asset_paths_from_markdown (kp_draft_markdown p))
        (set_pages db (<[(ws, pt):=page_published (kp_revision p) now_ p]> (k_pages db)))) as [db2 Hdb2].
      rewrite Hdb2. apply publish_assets_frame in Hdb2 as (_ & _ & Hfiles & _).
      rewrite replace_file_refs_go; [done|by right|]. intros id Hid. destruct (Hown id Hid) as (f & Hf & Hfp).
      exists f. split; [|done]. unfold file_of in *. by rewrite Hfiles.
  - intros a db' (p & db1 & db2 & Hp & <- & Hb & -> & Ha & Hset & ->)%publish_page_run.
    assert (Hok2 : k_ok db2).
    { eapply (kmoves_publish_assets (fun _ => True) ws pt); [done|exact Ha|].
      by apply (page_published_evolves (fun _ => True) db ws pt p now_). }
    destruct (replace_file_refs_run _ _ _ _ _ _ _ _ Hok2 Hset) as (-> & _ & _ & _).
    apply publish_assets_frame in Ha as (Hpages & _ & _ & _ & Hassets).
    exists p, (page_published (kp_revision p) now_ p).
    assert (Hq : page ws pt (refs_replaced ws pt "published" (new_refs ws pt "published" (fromkeys ids) now_) db2)
                 = Some (page_published (kp_revision p) now_ p)).
    { unfold page. cbn. rewrite Hpages. cbn. by rewrite lookup_insert_eq. }
    split_and!; [done..| |].
    + intros w path. unfold shown_asset. cbn [k_assets refs_replaced set_refs]. rewrite Hassets. cbn.
      case_decide; [|done]. by destruct (k_assets db !! (w, path)).
    + rewrite list_refs_run, list_refs_replaced by (eauto || (intros r; apply new_refs_of_page)).
      rewrite decide_True by done. by rewrite new_refs_sorted, new_refs_ids.
Qed.
End published.

(** * a package is applied as a whole

    [apply_knowledge_book_import] checks every revision before it writes: it goes through exactly
    when every page, asset and list of references of the package can be written, and then all of
    them are. *)

(** ** Pages *)

Abbreviation point := ip_knowledge_point_id.

Lemma check_pages_go ws pages currents db :
  (forall p, p ∈ pages -> ip_expected_revision p = page_revision (page ws (point p) db)) ->
  is_ok (check_pages ws pages currents db) = true.
Proof.
  revert currents. induction pages as [|p pages IH]; intros currents Hall; [done|]. cbn. unfold mbind, st_bind, gets.
  unfold check_knowledge_page_revision. rewrite Hall by set_solver. rewrite Z.eqb_refl. cbn. apply IH. set_solver.
Qed.

Lemma import_rows_cons ws now_ p pages m :
  import_rows ws now_ (p :: pages) m
  = import_rows ws now_ pages (<[(ws, point p) :=
      drafted (ip_content_markdown p) (ip_expected_revision p + 1) now_ (m !! (ws, point p))]> m).
Proof. done. Qed.

Lemma import_rows_other ws now_ pages m key :
  (forall p, p ∈ pages -> (ws, point p) <> key) -> import_rows ws now_ pages m !! key = m !! key.
Proof.
  revert m. induction pages as [|p pages IH]; intros m Hno; [done|]. rewrite import_rows_cons, IH by set_solver.
  rewrite lookup_insert_ne; [done|]. apply Hno. set_solver.
Qed.

Lemma import_rows_own ws now_ pages m p :
  NoDup (point <$> pages) -> p ∈ pages ->
  import_rows ws now_ pages m !! (ws, point p)
  = Some (drafted (ip_content_markdown p) (ip_expected_revision p + 1) now_ (m !! (ws, point p))).
Proof.
  revert m. induction pages as [|q pages IH]; intros m Hn Hp; [set_solver|]. rewrite fmap_cons in Hn.
  apply NoDup_cons in Hn as [Hq Hn]. rewrite import_rows_cons.
  assert (Hne : forall r, r ∈ pages -> point r <> point q) by (intros r Hr He; apply Hq; rewrite <- He; by apply list_elem_of_fmap_2).
  apply elem_of_cons in Hp as [->|Hp].
  - rewrite import_rows_other; [by rewrite lookup_insert_eq|]. intros r Hr [= He]. by apply (Hne r).
  - rewrite IH by done. rewrite lookup_insert_ne; [done|]. intros [= He]. by apply (Hne p).
Qed.

Lemma import_pages_go ws currents now_ pages db :
  NoDup (point <$> pages) ->
  (forall p, p ∈ pages -> currents !! point p = Some (page ws (point p) db)) ->
  exists db', st_iter (import_page ws currents now_) pages db = Ok ((), db').
Proof.
  revert db. induction pages as [|p pages IH]; intros db Hn Hc; [by eexists|]. rewrite fmap_cons in Hn.
  apply NoDup_cons in Hn as [Hp Hn]. cbn. unfold mbind, st_bind. unfold import_page at 1. rewrite Hc by set_solver.
  destruct (write_draft ws (point p) (page ws (point p) db) (ip_content_markdown p) (ip_expected_revision p + 1) now_ db)
    as [[[] db1]|e] eqn:Hw.
  - apply write_draft_run in Hw as ->; [|done]. apply IH; [done|]. intros q Hq. rewrite Hc by set_solver.
    rewrite page_set_page, decide_False; [done|]. intros He. apply Hp. rewrite <- He. by apply list_elem_of_fmap_2.
  - unfold write_draft, page in Hw. destruct (k_pages db !! (ws, point p)) eqn:Hk; [done|].
    unfold insert_page in Hw. by rewrite Hk in Hw.
Qed.

(** ** Assets *)

Definition import_asset (ws : string) (now_ : Z) (a : ImportAsset) : Ktx () :=
  sha ← given_digest a; upsert_asset ws a sha now_.

Lemma import_assets_run ws now_ assets db u db' :
  st_iter (import_asset ws now_) assets db = Ok (u, db') ->
  k_pages db' = k_pages db /\ k_refs db' = k_refs db /\ k_files db' = k_files db /\ k_library db' = k_library db
  /\ (forall a, a ∈ assets -> is_Some (ia_sha256 a))
  /\ (forall key, (forall a, a ∈ assets -> (ws, ia_asset_path a) <> key) -> k_assets db' !! key = k_assets db !! key)
  /\ (NoDup (ia_asset_path <$> assets) -> forall a, a ∈ assets -> exists d, ia_sha256 a = Some d
        /\ k_assets db' !! (ws, ia_asset_path a) = Some (asset_imported a d now_ (k_assets db !! (ws, ia_asset_path a)))).
Proof.
  revert db. induction assets as [|a assets IH]; intros db Hrun; cbn in Hrun.
  - injection Hrun as _ <-. split_and!; done || set_solver.
  - k_run Hrun. unfold import_asset in Hrun0. k_run Hrun0. unfold given_digest in Hrun1.
    destruct (ia_sha256 a) as [d|] eqn:Hd; [|done]. injection Hrun1 as -> ->. injection Hrun0 as _ <-.
    apply IH in Hrun as (-> & -> & -> & -> & Hs & Hother & Hown). split_and!; [done..| | |].
    + intros b [->|Hb]%elem_of_cons; [by rewrite Hd|by apply Hs].
    + intros key Hno. rewrite Hother by set_solver. cbn. rewrite lookup_partial_alter_ne; [done|]. apply Hno. set_solver.
    + rewrite fmap_cons. intros [Ha Hn]%NoDup_cons b [->|Hb]%elem_of_cons.
      * exists a1. split; [done|]. rewrite Hother; [cbn; by rewrite lookup_partial_alter_eq|].
        intros c Hc [= He]. apply Ha. rewrite <- He. by apply list_elem_of_fmap_2.
      * destruct (Hown Hn b Hb) as (e & He & Hk). exists e. split; [done|]. rewrite Hk. cbn.
        rewrite lookup_partial_alter_ne; [done|]. intros [= Heq]. apply Ha. rewrite Heq. by apply list_elem_of_fmap_2.
Qed.

Lemma import_assets_go ws now_ assets db :
  (forall a, a ∈ assets -> is_Some (ia_sha256 a)) -> exists db', st_iter (import_asset ws now_) assets db = Ok ((), db').
Proof.
  revert db. induction assets as [|a assets IH]; intros db Hs; [by eexists|]. cbn. unfold mbind, st_bind.
  unfold import_asset at 1. unfold mbind, st_bind, given_digest. destruct (Hs a ltac:(set_solver)) as [d ->].
  cbn. apply IH. set_solver.
Qed.

(** ** References *)

Definition import_refs (ws : string) (now_ : Z) (kv : string * list string) : Ktx () :=
  replace_file_refs ws kv.1 "draft" kv.2 now_.

Lemma own_files_ext ws pt ids db db' : k_files db' = k_files db -> own_files ws pt ids db -> own_files ws pt ids db'.
Proof. intros Hf Ho id Hid. destruct (Ho id Hid) as (f & Hff & Hp). exists f. unfold file_of in *. by rewrite Hf. Qed.

Lemma import_refs_run ws now_ l db u db' :
  k_ok db -> st_iter (import_refs ws now_) l db = Ok (u, db') ->
  k_ok db' /\ k_pages db' = k_pages db /\ k_assets db' = k_assets db /\ k_files db' = k_files db
  /\ (forall kv, kv ∈ l -> own_files ws kv.1 kv.2 db)
  /\ (forall pt, pt ∉ l.*1 -> page_refs ws pt "draft" db' = page_refs ws pt "draft" db)
  /\ (NoDup l.*1 -> forall kv, kv ∈ l -> rf_file_id <$> page_refs ws kv.1 "draft" db' = fromkeys kv.2).
Proof.
  revert db. induction l as [|[pt ids] l IH]; intros db Hok Hrun; cbn in Hrun.
  - injection Hrun as _ <-. split_and!; done || set_solver.
  - k_run Hrun. destruct (replace_file_refs_run _ _ _ _ _ _ _ _ Hok Hrun0) as (Hdb1 & Hok1 & _ & Hown1).
    destruct (IH _ Hok1 Hrun) as (Hok' & Hp & Ha & Hf & Hown & Hother & Hset). subst s.
    assert (Hrefs : forall pt2, page_refs ws pt2 "draft" (refs_replaced ws pt "draft" (new_refs ws pt "draft" (fromkeys ids) now_) db)
              = if decide (pt2 = pt) then new_refs ws pt "draft" (fromkeys ids) now_ else page_refs ws pt2 "draft" db).
    { intros pt2. rewrite list_refs_replaced by (intros r; apply new_refs_of_page). rewrite new_refs_sorted.
      case_decide as H1; case_decide as H2; done || congruence. }
    split_and!; [done..| | |].
    + intros kv [->|Hkv]%elem_of_cons; [done|]. by apply (own_files_ext _ _ _ _ _ eq_refl (Hown kv Hkv)).
    + intros pt2 Hn. rewrite fmap_cons, not_elem_of_cons in Hn. cbn in Hn. rewrite Hother by tauto.
      rewrite Hrefs, decide_False; tauto.
    + rewrite fmap_cons. intros [Hn1 Hn2]%NoDup_cons kv [->|Hkv]%elem_of_cons; [|by apply Hset].
      cbn in Hn1 |- *. rewrite Hother, Hrefs, decide_True by done. apply new_refs_ids.
Qed.

Lemma import_refs_go ws now_ l db :
  (forall kv, kv ∈ l -> own_files ws kv.1 kv.2 db) -> exists db', st_iter (import_refs ws now_) l db = Ok ((), db').
Proof.
  revert db. induction l as [|[pt ids] l IH]; intros db Hown; [by eexists|]. cbn. unfold mbind, st_bind.
  unfold import_refs at 1. rewrite replace_file_refs_go by ((by left) || apply (Hown (pt, ids)); set_solver).
  apply IH. intros kv Hkv. eapply own_files_ext; [|apply Hown; set_solver]. done.
Qed.

(** ** The package *)

Lemma import_run ws pages assets refs now_ db r db' :
  k_ok db -> apply_knowledge_book_import ws pages assets (Some refs) now_ db = Ok (r, db') ->
  exists db2, (forall p, p ∈ pages -> ip_expected_revision p = page_revision (page ws (point p) db))
    /\ st_iter (import_asset ws now_) assets (set_pages db (import_rows ws now_ pages (k_pages db))) = Ok ((), db2)
    /\ k_ok db2 /\ st_iter (import_refs ws now_) refs db2 = Ok ((), db')
    /\ r = (fun p => page ws (point p) db') <$> pages.
Proof.
  intros Hok Hrun. unfold apply_knowledge_book_import, import_with in Hrun. st_run Hrun.
  apply check_pages_run in Hrun0 as (-> & Hp & _). apply import_pages_run in Hrun1 as ->;
    [|intros p Hin; destruct (Hp p Hin) as [_ Hc]; eauto]. injection Hrun as <- <-.
  repeat match goal with u : () |- _ => destruct u end.
  exists s1. split_and!; [by apply Hp|exact Hrun2| |exact Hrun3|done].
  eapply (st_moves_iter (k_evolves (fun _ => True)) (import_asset ws now_)); [|exact Hrun2|].
  - intros x. unfold import_asset. moves_bind; [|intros sha; apply kmoves_upsert_asset].
    refine (st_moves_reads _ _ _). apply given_digest_reads.
  - apply import_rows_evolves with (P := fun _ => True); [done| | |done].
    + intros p Hin. destruct (Hp p Hin) as [-> _]. split; [by apply page_revision_nonneg|lia].
    + intros p q Hpin Hqin Heq. rewrite (proj1 (Hp p Hpin)), (proj1 (Hp q Hqin)). by rewrite Heq.
Qed.

Lemma import_goes_through ws pages assets refs now_ db :
  NoDup (point <$> pages) ->
  (forall p, p ∈ pages -> ip_expected_revision p = page_revision (page ws (point p) db)) ->
  (forall a, a ∈ assets -> is_Some (ia_sha256 a)) -> (forall kv, kv ∈ refs -> own_files ws kv.1 kv.2 db) ->
  is_ok (apply_knowledge_book_import ws pages assets (Some refs) now_ db) = true.
Proof.
  intros Hn Hp Hs Hown. unfold apply_knowledge_book_import, import_with, mbind, st_bind.
  pose proof (check_pages_go ws pages ∅ db Hp) as Hc.
  destruct (check_pages ws pages ∅ db) as [[currents db0]|] eqn:Hcp; [|done].
  apply check_pages_run in Hcp as (-> & Hcur & _).
  destruct (import_pages_go ws currents now_ pages db Hn) as [db1 H1]; [by intros p Hin; apply Hcur|]. rewrite H1.
  destruct (import_assets_go ws now_ assets db1 Hs) as [db2 H2].
  unfold import_asset, mbind, st_bind in H2. rewrite H2.
  destruct (import_refs_go ws now_ refs db2) as [db3 H3]; [|unfold import_refs in H3; cbn [default from_option id] in H3 |- *; by rewrite H3].
  intros kv Hkv. eapply own_files_ext; [|by apply Hown]. apply import_assets_run in H2 as (_ & _ & -> & _).
  apply import_pages_run in H1 as ->; [done|]. intros p Hin. destruct (Hcur p Hin) as [_ Hcc]. eauto.
Qed.

Lemma drafted_shows markdown revision now_ db key db' :
  k_pages db' !! key = Some (drafted markdown revision now_ (k_pages db !! key)) -> shown_page key db' = shown_page key db.
Proof. intros Hk. unfold shown_page. rewrite Hk. by destruct (k_pages db !! key). Qed.

Section package.
Context `{Uuids} (sha256 : string -> string).

(** A package whose pages name different points is accepted exactly when it knows the current
    revision of every page, brings a digest with every asset and refers to files of the page in
    question; it then has written all of it: each page has its draft under the next revision and
    shows readers what it showed before, each asset has its draft and still its published bytes, and each
    list of references is set; pages outside the package are untouched. *)
Lemma import_applies_package x ws pages assets refs now_ :
  kreachable sha256 x -> let db := kw_db x in NoDup (point <$> pages) ->
  (is_ok (apply_knowledge_book_import ws pages assets (Some refs) now_ db) = true <->
     (forall p, p ∈ pages -> ip_expected_revision p = page_revision (page ws (point p) db))
     /\ (forall a, a ∈ assets -> is_Some (ia_sha256 a))
     /\ (forall kv, kv ∈ refs -> own_files ws kv.1 kv.2 db))
  /\ (forall r db', apply_knowledge_book_import ws pages assets (Some refs) now_ db = Ok (r, db') ->
        r = (fun p => page ws (point p) db') <$> pages
        /\ (forall p, p ∈ pages -> exists q, page ws (point p) db' = Some q
              /\ kp_draft_markdown q = ip_content_markdown p /\ kp_revision q = ip_expected_revision p + 1
              /\ shown_page (ws, point p) db' = shown_page (ws, point p) db)
        /\ (forall key, key ∉ ((fun p => (ws, point p)) <$> pages) -> k_pages db' !! key = k_pages db !! key)
        /\ (NoDup (ia_asset_path <$> assets) -> forall a, a ∈ assets -> exists row,
              k_assets db' !! (ws, ia_asset_path a) = Some row /\ ka_draft_content row = ia_content a
              /\ ia_sha256 a = Some (ka_sha256 row)
              /\ ka_published_content row = shown_asset (ws, ia_asset_path a) db)
        /\ (NoDup refs.*1 -> forall kv, kv ∈ refs ->
              list_knowledge_book_file_refs ws kv.1 "draft" db' = Ok (fromkeys kv.2, db'))).
Proof.
  intros Hok%kreachable_ok db Hn. split; [split|].
  - destruct (apply_knowledge_book_import _ _ _ _ _ db) as [[r db']|] eqn:Hrun; [|done]. intros _.
    apply import_run in Hrun as (db2 & Hp & Ha & Hok2 & Hr & _); [|done].
    apply import_assets_run in Ha as (_ & _ & Hf & _ & Hs & _). apply import_refs_run in Hr as (_ & _ & _ & _ & Hown & _); [|done].
    split_and!; [done..|]. intros kv Hkv. eapply own_files_ext; [|by apply Hown]. by rewrite Hf.
  - intros (Hp & Hs & Hown). by apply import_goes_through.
  - intros r db' (db2 & Hp & Ha & Hok2 & Hr & ->)%import_run; [|done].
    apply import_assets_run in Ha as (Hpages & _ & _ & _ & _ & _ & Hown).
    apply import_refs_run in Hr as (_ & Hpages' & Hassets & _ & _ & _ & Hset); [|done].
    rewrite Hpages in Hpages'. cbn [k_pages set_pages] in Hpages'. split_and!; [done|..].
    + intros p Hin.
      assert (Hq : k_pages db' !! (ws, point p) = Some (drafted (ip_content_markdown p) (ip_expected_revision p + 1) now_
                     (k_pages db !! (ws, point p)))) by (rewrite Hpages'; by apply import_rows_own).
      unfold page. rewrite Hq. eexists. split_and!; [done|by destruct (k_pages db !! _)..|].
      by eapply drafted_shows.
    + intros key Hno. rewrite Hpages'. apply import_rows_other. intros p Hin <-. apply Hno.
      by apply (list_elem_of_fmap_2 (fun p => (ws, point p))).
    + intros Hnd a Hin. destruct (Hown Hnd a Hin) as (d & Hd & Hrow). rewrite Hassets, Hrow. eexists.
      split_and!; [done..|]. cbn. unfold shown_asset. done.
    + intros Hnd kv Hkv. rewrite list_refs_run by (by left). by rewrite (Hset Hnd kv Hkv).
Qed.
End package.
