(* ===== verification/KnowledgeWorld.v ===== *)
(** * KnowledgeWorld: a course with one page, and what goes wrong in it

    A page with an asset and two files, as the store after four calls; the theorems of the
    knowledge book hold of it; and two places where the published side is not what was
    published: the digest of an asset, and a file changed while it is being published
    ([overlapping_edit]). *)
From S2P Require Import Prelude PyText Json GatewayTurns GatewaySafety KnowledgeStore KnowledgeBook KnowledgeSafety KnowledgePublication.
Local Open Scope Z_scope.
#[local] Existing Instance gateway_uuids.

Lemma refuse_published_stops ws id db :
  (exists r, r ∈ k_refs db /\ rf_workspace_id r = ws /\ rf_file_id r = id /\ rf_state r = "published") ->
  refuse_published ws id db = Err GValueError.
Proof.
  intros (r & Hr & <- & <- & Hs). unfold refuse_published, mbind, st_bind, gets.
  rewrite (proj2 (existsb_exists _ (k_refs db))); [done|]. exists r. split; [by apply list_elem_of_In|].
  unfold ref_of_file. by rewrite Hs, !String.eqb_refl.
Qed.

Section flaws.
Context `{Uuids} (sha256 : string -> string).

(** An import that brings a new draft of a published asset changes what readers are told of it and not
    what they get: the old bytes are served with the type, the size and the digest of the new ones. *)
Lemma asset_served_with_draft_digest x ws pages assets now_ a d content r db' :
  kreachable sha256 x -> let db := kw_db x in NoDup (ia_asset_path <$> assets) ->
  a ∈ assets -> ia_sha256 a = Some d -> shown_asset (ws, ia_asset_path a) db = Some content ->
  apply_knowledge_book_import ws pages assets (Some []) now_ db = Ok (r, db') ->
  get_knowledge_book_asset ws (ia_asset_path a) db'
  = Some {| av_media_type := ia_media_type a; av_content := content;
            av_size_bytes := Z.of_nat (String.length (ia_content a)); av_sha256 := d |}.
Proof.
  intros Hok%kreachable_ok db Hnd Ha Hd Hc (db2 & _ & Has & Hok2 & Hr & _)%import_run; [|done].
  apply import_assets_run in Has as (_ & _ & _ & _ & _ & _ & Hown). destruct (Hown Hnd a Ha) as (e & He & Hrow).
  injection Hr as <-. unfold get_knowledge_book_asset. rewrite Hrow. cbn in Hc |- *. unfold shown_asset in Hc.
  rewrite Hc. cbn. rewrite Hd in He. by injection He as ->.
Qed.

(** [update_knowledge_book_file] looks for a published reference before it takes the lock to write: when
    the page publishes the file in between, the call rewrites a published file, which it would
    have refused a moment later. *)
Lemma published_file_rewritten x ws pt id f c t1 t2 db1 u :
  kreachable sha256 x -> let db := kw_db x in
  read_file_to_change ws id db = Ok (f, db) -> refuse_published ws id db = Ok (u, db) ->
  set_knowledge_book_file_refs ws pt "published" [id] t1 db = Ok ((), db1) ->
  update_knowledge_book_file sha256 ws id c t2 db1 = Err GValueError
  /\ list_published_knowledge_book_files ws pt db1 = [(id, f)]
  /\ (forall v db2, write_file sha256 ws id c f t2 db1 = Ok (v, db2) ->
        list_published_knowledge_book_files ws pt db2 = [(id, file_changed sha256 c f t2 f)]).
Proof.
  intros Hok%kreachable_ok db Hread _ Hset. change (kw_db x) with db in Hok. clearbody db. destruct (replace_file_refs_run _ _ _ _ _ _ _ _ Hok Hset) as (-> & Hok1 & _ & Hown).
  apply read_file_to_change_run in Hread as [_ Hg].
  destruct (Hown id ltac:(set_solver)) as (h & Hh & Hp). rewrite Hg in Hh. injection Hh as <-.
  assert (Hfile : k_files db !! id = Some f /\ kf_workspace_id f = ws).
  { unfold file_of in Hg. destruct (k_files db !! id) as [h|]; [|done]. destruct (String.eqb_spec (kf_workspace_id h) ws); [|done].
    by injection Hg as ->. }
  destruct Hfile as [Hf Hw].
  assert (Hrefs : page_refs ws pt "published" (refs_replaced ws pt "published" (new_refs ws pt "published" (fromkeys [id]) t1) db)
                  = new_refs ws pt "published" [id] t1).
  { rewrite list_refs_replaced by (intros r; apply new_refs_of_page). rewrite decide_True by done. apply new_refs_sorted. }
  split_and!.
  - unfold update_knowledge_book_file, mbind, st_bind, read_file_to_change, mbind, st_bind, gets.
    unfold get_knowledge_book_file, file_of. cbn [k_files refs_replaced set_refs]. rewrite Hf, Hw, String.eqb_refl.
    unfold mret, st_ret. rewrite (refuse_published_stops ws id); [done|].
    exists {| rf_workspace_id := ws; rf_knowledge_point_id := pt; rf_file_id := id; rf_state := "published";
              rf_sort_order := 0; rf_created_at := t1 |}. split_and!; [|done..].
    eapply page_refs_elem. rewrite Hrefs. by left.
  - unfold list_published_knowledge_book_files. rewrite Hrefs. cbn. unfold joined, file_of. cbn.
    rewrite Hf. cbn. rewrite Hw, String.eqb_refl. cbn. by rewrite Hp, String.eqb_refl.
  - intros v db2 Hwrite. injection Hwrite as _ <-. unfold list_published_knowledge_book_files.
    match goal with |- context [page_refs ws pt "published" (set_files ?d ?m)] =>
      change (page_refs ws pt "published" (set_files d m)) with (page_refs ws pt "published" d) end.
    rewrite Hrefs. cbn. unfold joined, file_of. cbn. rewrite lookup_alter_eq, Hf. cbn. rewrite Hw, String.eqb_refl. cbn.
    rewrite Hw, String.eqb_refl. cbn. by rewrite Hp, String.eqb_refl.
Qed.
End flaws.

(** ** A course *)

Module KnowledgeExample.
Definition sha (s : string) : string := "sha-" +:+ s.
Definition upload (content : string) : NewFile :=
  {| nf_workspace_id := "w"; nf_knowledge_point_id := "pos"; nf_original_name := "tags.pdf"; nf_display_name := "Tags";
     nf_media_type := "application/pdf"; nf_content := content; nf_created_by := "teacher" |}.
Definition draft (e : Z) (text : string) : ImportPage :=
  {| ip_knowledge_point_id := "pos"; ip_expected_revision := e; ip_content_markdown := text |}.
Definition picture (content : string) : ImportAsset :=
  {| ia_asset_path := "assets/a.png"; ia_media_type := "image/png"; ia_content := content; ia_sha256 := Some (sha content) |}.
Definition text : string := "See ![a](/assets/assets/a.png)".

Definition db0 : KDB := empty_book 0.
Definition db1 : KDB := (run_tx (create_knowledge_book_file sha (upload "one") (Some "f1") 1) db0).2.
Definition db2 : KDB := (run_tx (create_knowledge_book_file sha (upload "two") (Some "f2") 2) db1).2.
Definition db3 : KDB := (run_tx (apply_knowledge_book_import "w" [draft 0 text] [picture "v1"] (Some [("pos", ["f2"; "f1"; "f2"])]) 3) db2).2.
Definition db4 : KDB := (run_tx (publish_knowledge_page "w" "pos" 1 (Some ["f2"]) 4) db3).2.
Definition edit : FileChange :=
  {| fc_original_name := None; fc_display_name := None; fc_media_type := None; fc_content := Some "changed" |}.

(** The course at rest, and once its teacher's change of the unpublished file found it unpublished. *)
Definition x4 : KWorld := {| kw_db := db4; kw_edits := [] |}.

Lemma call_reached db db' l :
  kreachable sha {| kw_db := db; kw_edits := [] |} -> kcall sha l db db' -> kreachable sha {| kw_db := db'; kw_edits := [] |}.
Proof. intros [n Hr] Hc. exists n. eapply kr_step; [exact Hr|by apply ks_call|done]. Qed.

Lemma reached : kreachable sha x4.
Proof.
  apply (call_reached db3 _ _) with (2 := kc_publish_page sha db3 "w" "pos" 1 (Some ["f2"]) 4).
  apply (call_reached db2 _ _) with (2 := kc_import sha db2 "w" [draft 0 text] [picture "v1"] (Some [("pos", ["f2"; "f1"; "f2"])]) 3).
  apply (call_reached db1 _ _) with (2 := kc_create_file sha db1 (upload "two") (Some "f2") 2).
  apply (call_reached db0 _ _) with (2 := kc_create_file sha db0 (upload "one") (Some "f1") 1).
  exists 0%nat. apply kr_refl.
Qed.

Definition view (db : KDB) :=
  (kp_published_markdown <$> page "w" "pos" db, fst <$> list_published_knowledge_book_files "w" "pos" db,
   get_knowledge_book_asset "w" "assets/a.png" db).

Definition f1_row : FileRow := new_file sha (upload "one") 1.
Definition edit_of_f1 : FileEdit := edit_checked (edit_begun "w" "f1" edit f1_row).
Definition x5 : KWorld := {| kw_db := db4; kw_edits := [edit_of_f1] |}.
Definition db6 : KDB := (run_tx (set_knowledge_book_file_refs "w" "pos" "published" ["f1"] 9) db4).2.
Definition db7 : KDB := (run_tx (edit_written sha edit_of_f1 10) db6).2.

Lemma edit_reached : kreachable sha x5.
Proof.
  destruct reached as [n Hr]. exists n. eapply (kr_step _ _ _ None); [eapply (kr_step _ _ _ None); [exact Hr| |done]| |done].
  - exact (ks_read sha db4 [] "w" "f1" edit f1_row eq_refl).
  - refine (ks_check sha db4 [] (edit_begun "w" "f1" edit f1_row) [] eq_refl _). vm_compute. reflexivity.
Qed.

(** The page publishes the file before the change is written: readers get the changed bytes of a
    file published before. *)
Example overlapping_edit :
  (fun kv => kf_content kv.2) <$> list_published_knowledge_book_files "w" "pos" db6 = ["one"]
  /\ kruns sha (fun _ => False) {| kw_db := db6; kw_edits := [edit_of_f1] |} {| kw_db := db7; kw_edits := [] |}
  /\ (fun kv => kf_content kv.2) <$> list_published_knowledge_book_files "w" "pos" db7 = ["changed"].
Proof.
  split_and!; [vm_compute; reflexivity| |vm_compute; reflexivity]. eapply (kr_step _ _ _ None); [apply kr_refl| |done].
  exact (ks_write sha db6 [] edit_of_f1 [] 10 eq_refl).
Qed.

Definition shuffled : KDB := (run_tx (set_knowledge_book_file_refs "w" "pos" "draft" ["f1"; "f2"; "f1"] 9) db4).2.

Lemma file_refs_roundtrip_witness :
  list_knowledge_book_file_refs "w" "pos" "draft" shuffled = Ok (["f1"; "f2"], shuffled)
  /\ page_refs "w" "pos" "published" shuffled = page_refs "w" "pos" "published" db4.
Proof.
  destruct (file_refs_roundtrip sha x4 "w" "pos" "draft" ["f1"; "f2"; "f1"] 9 shuffled reached) as (H1 & _ & H2 & _).
  - vm_compute. reflexivity.
  - split; [exact H1|]. apply H2. discriminate.
Defined.

Definition redrafted : KDB := (run_tx (update_knowledge_page "w" "pos" "New text" (Some 1) 9) db4).2.

(** A draft, while the change of the other file is under way and then written. *)
Lemma readers_see_publications_only_witness :
  let y := {| kw_db := (run_tx (edit_written sha edit_of_f1 10) redrafted).2; kw_edits := [] |} in
  list_published_knowledge_book_files "w" "pos" (kw_db y) = list_published_knowledge_book_files "w" "pos" db4
  /\ av_content <$> get_knowledge_book_asset "w" "assets/a.png" (kw_db y) = Some "v1".
Proof.
  intros y. destruct (readers_see_publications_only sha (fun _ => False) x5 y "w" "pos" edit_reached) as (_ & _ & H1 & H2).
  - eapply (kr_step _ _ _ None {| kw_db := redrafted; kw_edits := [edit_of_f1] |}); [| |done].
    + eapply (kr_step _ _ _ None x5); [apply kr_refl| |done].
      exact (ks_call sha None db4 redrafted [edit_of_f1] (kc_update_page sha db4 "w" "pos" "New text" (Some 1) 9)).
    + exact (ks_write sha redrafted [] edit_of_f1 [] 10 eq_refl).
  - tauto.
  - split.
    + apply H1. intros e ->%list_elem_of_singleton _ _.
      apply (bool_decide_unpack ("f1" ∉ (list_published_knowledge_book_files "w" "pos" db4).*1)). vm_compute. exact I.
    + rewrite H2 by tauto. vm_compute. reflexivity.
Defined.

Lemma import_applies_package_witness :
  is_ok (apply_knowledge_book_import "w" [draft 1 "Second"] [picture "v2"] (Some [("pos", ["f1"])]) 9 db4) = true.
Proof.
  apply (proj1 (import_applies_package sha x4 "w" [draft 1 "Second"] [picture "v2"] [("pos", ["f1"])] 9 reached
                  (NoDup_singleton "pos"))). split_and!.
  - intros p ->%list_elem_of_singleton. vm_compute. reflexivity.
  - intros a ->%list_elem_of_singleton. by eexists.
  - intros kv ->%list_elem_of_singleton id ->%list_elem_of_singleton. eexists. split; vm_compute; reflexivity.
Defined.

Example course_view :
  view db4 = (Some (Some text), ["f2"],
              Some {| av_media_type := "image/png"; av_content := "v1"; av_size_bytes := 2; av_sha256 := "sha-v1" |}).
Proof. vm_compute. reflexivity. Qed.
End KnowledgeExample.
