(* ===== verification/ModelUsage.v ===== *)
(** * ModelUsage: reading token usage out of provider responses

    [core/model_runtime/normalization.py]: the token counts, details and semantics of a usage
    mapping, the canonical usage of a message, a chunk or an error, and the normalisation of the
    messages that are passed on.  Messages are LangChain objects: the model has the attributes
    that are read.  A JSON number is an integer here; a float is refused where a token count is
    expected, like the other types. *)
From S2P Require Import Prelude PyText Json Usage.
Local Open Scope Z_scope.

(** ** Python values *)

Definition truthy_json (v : json) : bool :=
  match v with
  | JNull => false
  | JBool b => b
  | JNum n => negb (n =? 0)
  | JStr s => negb (String.eqb s "")
  | JArr l => match l with [] => false | _ => true end
  | JObj l => match l with [] => false | _ => true end
  end.

Abbreviation dict := (list (string * json)).

Definition dget (key : string) (d : dict) : option json := jget key (JObj d).
Definition dget_or (key : string) (default_ : json) (d : dict) : json := default default_ (dget key d).
Definition py_or (o : option json) (d : json) : json :=
  match o with Some v => if truthy_json v then v else d | None => d end.

(** [d[key] = value], also as one entry of a dict display: an existing key keeps its place. *)
Fixpoint dset (key : string) (value : json) (d : dict) : dict :=
  match d with
  | [] => [(key, value)]
  | (k, v) :: d' => if String.eqb k key then (k, value) :: d' else (k, v) :: dset key value d'
  end.
Definition dupdate (updates d : dict) : dict := fold_left (fun d kv => dset kv.1 kv.2 d) updates d.

(** What a malformed response raises. *)
Inductive norm_error :=
| TokenBoolean (field : string)
| TokenNegative (field : string) (n : Z)
| TokenType (field : string) (v : json)
| NotAMapping (v : json)
| NotHashable (v : json)
| BadInt (v : json)
| InvalidUsage (e : usage_error).

Definition as_dict (v : json) : result norm_error dict :=
  match v with JObj l => Ok l | _ => Err (NotAMapping v) end.

(** [int(s)]: an optional sign and digits with single underscores between them. *)
Definition digit_value (c : ascii) : option Z :=
  let n := nat_of_ascii c in if (48 <=? n)%nat && (n <=? 57)%nat then Some (Z.of_nat n - 48) else None.
Fixpoint parse_digits (acc : Z) (after_digit : bool) (s : string) : option Z :=
  match s with
  | EmptyString => if after_digit then Some acc else None
  | String "_"%char s' => if after_digit then parse_digits acc false s' else None
  | String c s' => match digit_value c with Some d => parse_digits (10 * acc + d) true s' | None => None end
  end.
Definition parse_int (s : string) : option Z :=
  match strip s with
  | String "-"%char s' => Z.opp <$> parse_digits 0 false s'
  | String "+"%char s' => parse_digits 0 false s'
  | s' => parse_digits 0 false s'
  end.

(** [int(v)]. *)
Definition py_int (v : json) : result norm_error Z :=
  match v with
  | JNum n => Ok n
  | JBool b => Ok (if b then 1 else 0)
  | JStr s => match parse_int s with Some n => Ok n | None => Err (BadInt v) end
  | _ => Err (BadInt v)
  end.
(** [int(v or 0)]. *)
Definition int_or_zero (v : json) : result norm_error Z := if truthy_json v then py_int v else Ok 0.

(** ** Usage mappings *)

(** [_usage_semantics]. *)
Definition semantics_of (s : string) : option UsageSemantics :=
  if String.eqb s "final" then Some SemFinal else if String.eqb s "cumulative" then Some SemCumulative
  else if String.eqb s "delta" then Some SemDelta else if String.eqb s "partial" then Some SemPartial else None.
Definition semantics_name (s : UsageSemantics) : string :=
  match s with SemFinal => "final" | SemCumulative => "cumulative" | SemDelta => "delta" | SemPartial => "partial" end.
Definition usage_semantics (value : json) (default_ : UsageSemantics) : result norm_error UsageSemantics :=
  match value with
  | JStr s => Ok (default default_ (semantics_of s))
  | JArr _ | JObj _ => Err (NotHashable value)
  | _ => Ok default_
  end.

(** [_parse_token_int]. *)
Definition parse_token_int (v : json) (field : string) : result norm_error Z :=
  match v with
  | JNull => Ok 0
  | JBool _ => Err (TokenBoolean field)
  | JNum n => if n <? 0 then Err (TokenNegative field n) else Ok n
  | _ => Err (TokenType field v)
  end.

Record UsageDetails := {
  ud_raw : dict;
  ud_input_details : dict;
  ud_output_details : dict;
  ud_cache_reported : bool;
  ud_input : json;
  ud_output : json;
  ud_cache_read : json;
  ud_cache_write : json;
  ud_cache_miss : json;
  ud_reasoning : json;
  ud_total : json;
}.

(** [{k: v for k, v in (...).items() if v is not None}]. *)
Definition not_null (kv : string * json) : bool := match kv.2 with JNull => false | _ => true end.
Definition details_of (first second : string) (raw : dict) : result norm_error dict :=
  d ← as_dict (py_or (dget first raw) (py_or (dget second raw) (JObj [])));
  Ok (List.filter not_null d).

Definition reported_in (d : dict) (key : string) : bool :=
  match dget key d with Some JNull | None => false | Some _ => true end.

(** [_extract_usage_details]. *)
Definition extract_usage_details (metadata : option json) : result norm_error UsageDetails :=
  raw ← as_dict (py_or metadata (JObj []));
  input_details ← details_of "input_token_details" "prompt_tokens_details" raw;
  output_details ← details_of "output_token_details" "completion_tokens_details" raw;
  Ok {| ud_raw := raw; ud_input_details := input_details; ud_output_details := output_details;
        ud_cache_reported :=
          existsb (reported_in raw) ["prompt_cache_hit_tokens"; "cached_tokens"; "cache_read_input_tokens";
                                     "prompt_cache_miss_tokens"; "cache_write_input_tokens"]
          || existsb (reported_in input_details) ["cache_read"; "cached_tokens"; "cache_miss"; "cache_write";
                                                  "cache_creation_input_tokens"];
        ud_input := dget_or "input_tokens" (dget_or "prompt_tokens" (JNum 0) raw) raw;
        ud_output := dget_or "output_tokens" (dget_or "completion_tokens" (JNum 0) raw) raw;
        ud_cache_read := dget_or "prompt_cache_hit_tokens"
          (dget_or "cached_tokens" (dget_or "cache_read_input_tokens"
             (dget_or "cache_read" (dget_or "cached_tokens" (JNum 0) input_details) input_details) raw) raw) raw;
        ud_cache_write := dget_or "cache_write_input_tokens"
          (dget_or "cache_write" (dget_or "cache_creation_input_tokens" (JNum 0) input_details) input_details) raw;
        ud_cache_miss := dget_or "prompt_cache_miss_tokens" (dget_or "cache_miss" (JNum 0) input_details) raw;
        ud_reasoning := dget_or "reasoning_tokens"
          (dget_or "reasoning" (dget_or "reasoning_tokens" (JNum 0) output_details) output_details) raw;
        ud_total := dget_or "total_tokens" JNull raw |}.

Definition stated_semantics (d : UsageDetails) (default_ : UsageSemantics) : result norm_error UsageSemantics :=
  usage_semantics (py_or (dget "usage_semantics" (ud_raw d)) (dget_or "semantics" JNull (ud_raw d))) default_.

(** [normalize_usage]: the entries of the mapping it answers. *)
Record NormalUsage := {
  nu_input_tokens : Z;
  nu_output_tokens : Z;
  nu_total_tokens : Z;
  nu_input_token_details : dict;
  nu_output_token_details : dict;
  nu_cache_read : Z;
  nu_cache_miss : Z;
  nu_cache_write : Z;
  nu_cache_status : CacheMeasurementStatus;
  nu_semantics : UsageSemantics;
}.

Definition normalize_usage (metadata : option json) (default_semantics : UsageSemantics) : result norm_error NormalUsage :=
  d ← extract_usage_details metadata;
  input_tokens ← int_or_zero (ud_input d);
  output_tokens ← int_or_zero (ud_output d);
  cache_read ← int_or_zero (ud_cache_read d);
  cache_miss ← int_or_zero (ud_cache_miss d);
  cache_write ← int_or_zero (ud_cache_write d);
  reasoning ← int_or_zero (ud_reasoning d);
  total ← match ud_total d with JNull => Ok (input_tokens + output_tokens) | v => py_int v end;
  semantics ← stated_semantics d default_semantics;
  Ok {| nu_input_tokens := Z.max 0 input_tokens; nu_output_tokens := Z.max 0 output_tokens;
        nu_total_tokens := Z.max 0 total;
        nu_input_token_details :=
          dupdate [("cache_read", JNum (Z.max 0 cache_read)); ("cache_miss", JNum (Z.max 0 cache_miss));
                   ("cache_write", JNum (Z.max 0 cache_write))] (ud_input_details d);
        nu_output_token_details := dupdate [("reasoning", JNum (Z.max 0 reasoning))] (ud_output_details d);
        nu_cache_read := Z.max 0 cache_read; nu_cache_miss := Z.max 0 cache_miss;
        nu_cache_write := Z.max 0 cache_write;
        nu_cache_status := if ud_cache_reported d then CacheMeasured else CacheUnavailable;
        nu_semantics := semantics |}.

(** The mapping as it is stored in a message. *)
Definition metadata_of (u : NormalUsage) : dict :=
  [("input_tokens", JNum (nu_input_tokens u)); ("output_tokens", JNum (nu_output_tokens u));
   ("total_tokens", JNum (nu_total_tokens u)); ("input_token_details", JObj (nu_input_token_details u));
   ("output_token_details", JObj (nu_output_token_details u))].
Definition dict_of_usage (u : NormalUsage) : dict :=
  metadata_of u
  ++ [("prompt_cache_hit_tokens", JNum (nu_cache_read u)); ("prompt_cache_miss_tokens", JNum (nu_cache_miss u));
      ("cache_write_input_tokens", JNum (nu_cache_write u));
      ("cache_status", JStr (match nu_cache_status u with CacheMeasured => "measured" | CacheUnavailable => "unavailable" end));
      ("usage_semantics", JStr (semantics_name (nu_semantics u)))].

(** [CanonicalTokenUsage(...)]: the constructor validates. *)
Definition construct_usage (u : CanonicalTokenUsage) : result norm_error CanonicalTokenUsage :=
  match validate_subsets_and_total u with Ok u => Ok u | Err e => Err (InvalidUsage e) end.

Definition zero_usage (src : UsageSource) (sem : UsageSemantics) (response_id : option string) : CanonicalTokenUsage :=
  {| input_tokens := 0; cached_input_tokens := 0; cache_miss_input_tokens := 0; cache_write_input_tokens := 0;
     output_tokens := 0; reasoning_output_tokens := 0; total_tokens := 0; source := src;
     cache_status := CacheUnavailable; semantics := sem; provider_response_id := response_id |}.

(** [canonical_usage]. *)
Definition canonical_usage (metadata : option json) (response_id : option string) (src : option UsageSource)
  (sem : UsageSemantics) : result norm_error CanonicalTokenUsage :=
  if negb (truthy_json (default JNull metadata)) then
    Ok (zero_usage (if bool_decide (src = Some SrcProvider) then SrcProvider else SrcNone) sem response_id)
  else
    d ← extract_usage_details metadata;
    input ← parse_token_int (ud_input d) "input_tokens";
    output ← parse_token_int (ud_output d) "output_tokens";
    cached ← parse_token_int (ud_cache_read d) "cached_input_tokens";
    miss ← parse_token_int (ud_cache_miss d) "cache_miss_input_tokens";
    write ← parse_token_int (ud_cache_write d) "cache_write_input_tokens";
    reasoning ← parse_token_int (ud_reasoning d) "reasoning_output_tokens";
    let has_tokens := existsb (fun n => negb (n =? 0)) [input; cached; miss; write; output; reasoning] in
    let resolved := match src with
                    | Some s => s
                    | None => if has_tokens || match ud_raw d with [] => false | _ => true end then SrcProvider else SrcNone
                    end in
    stated ← stated_semantics d sem;
    construct_usage
      {| input_tokens := input; cached_input_tokens := cached; cache_miss_input_tokens := miss;
         cache_write_input_tokens := write; output_tokens := output; reasoning_output_tokens := reasoning;
         total_tokens := input + output; source := resolved;
         cache_status := if bool_decide (resolved = SrcProvider) && ud_cache_reported d then CacheMeasured
                         else CacheUnavailable;
         semantics := stated; provider_response_id := response_id |}.

(** ** Messages *)

(** What is read of a LangChain message or chunk; [ms_content] and [ms_tool_calls] say whether the
    attribute is truthy, [ms_is_chunk] that it is an [AIMessageChunk]. *)
Record Message := {
  ms_is_chunk : bool;
  ms_content : bool;
  ms_tool_calls : bool;
  ms_usage_metadata : json;
  ms_response_metadata : dict;
  ms_additional_kwargs : dict;
}.

Section messages.
(** [str(v)] of a list or a dict. *)
Variable container_text : json -> string.

Definition py_str (v : json) : string :=
  match v with
  | JNull => "None"
  | JBool b => if b then "True" else "False"
  | JNum n => pretty n
  | JStr s => s
  | JArr _ | JObj _ => container_text v
  end.

(** [if d.get(key): return str(d[key])]. *)
Definition truthy_text (key : string) (d : dict) : option string :=
  match dget key d with Some v => if truthy_json v then Some (py_str v) else None | None => None end.

(** [extract_provider_response_id]. *)
Definition extract_provider_response_id (m : Message) : option string :=
  match truthy_text "provider_response_id" (ms_response_metadata m) with
  | Some s => Some s
  | None => match truthy_text "provider_response_id" (ms_additional_kwargs m) with
            | Some s => Some s
            | None => truthy_text "id" (ms_response_metadata m)
            end
  end.

Definition default_semantics_of (m : Message) : UsageSemantics := if ms_is_chunk m then SemCumulative else SemFinal.

(** [resp_meta.get("token_usage") or resp_meta.get("usage")]. *)
Definition response_usage_value (m : Message) : json :=
  py_or (dget "token_usage" (ms_response_metadata m)) (dget_or "usage" JNull (ms_response_metadata m)).

(** [response_canonical_usage]. *)
Definition response_canonical_usage (m : Message) : result norm_error CanonicalTokenUsage :=
  let id := extract_provider_response_id m in
  let def := default_semantics_of m in
  let kwargs_semantics := usage_semantics (dget_or "provider_usage_semantics" JNull (ms_additional_kwargs m)) def in
  match dget_or "provider_usage_raw" JNull (ms_additional_kwargs m) with
  | JNull =>
      if truthy_json (ms_usage_metadata m) then
        sem ← kwargs_semantics; canonical_usage (Some (ms_usage_metadata m)) id (Some SrcProvider) sem
      else if truthy_json (response_usage_value m) then
        canonical_usage (Some (response_usage_value m)) id (Some SrcProvider) def
      else if truthy_json (dget_or "provider_usage" JNull (ms_additional_kwargs m)) then
        sem ← kwargs_semantics;
        canonical_usage (dget "provider_usage" (ms_additional_kwargs m)) id (Some SrcProvider) sem
      else canonical_usage None id (Some SrcNone) (if ms_is_chunk m then SemPartial else SemFinal)
  | raw => sem ← kwargs_semantics; canonical_usage (Some raw) id (Some SrcProvider) sem
  end.

(** [response_usage]. *)
Definition response_usage (m : Message) : result norm_error NormalUsage :=
  if truthy_json (ms_usage_metadata m) then normalize_usage (Some (ms_usage_metadata m)) (default_semantics_of m)
  else normalize_usage (Some (if truthy_json (response_usage_value m) then response_usage_value m else JObj []))
         (default_semantics_of m).

Definition has_counts (u : NormalUsage) : bool :=
  negb (nu_input_tokens u =? 0) || negb (nu_output_tokens u =? 0) || negb (nu_total_tokens u =? 0).

(** [normalize_chunk]. *)
Definition normalize_chunk (m : Message) : result norm_error Message :=
  usage ← response_usage m;
  Ok (if has_counts usage then
        {| ms_is_chunk := ms_is_chunk m; ms_content := ms_content m; ms_tool_calls := ms_tool_calls m;
           ms_usage_metadata := JObj (metadata_of usage); ms_response_metadata := ms_response_metadata m;
           ms_additional_kwargs := dupdate [("provider_usage", JObj (dict_of_usage usage));
             ("provider_usage_semantics", JStr (semantics_name (nu_semantics usage)))] (ms_additional_kwargs m) |}
      else m).

(** [normalize_message]. *)
Definition normalize_message (m : Message) : result norm_error Message :=
  usage ← response_usage m;
  let response_metadata :=
    match dget "finish_reason" (ms_response_metadata m) with
    | Some (JStr "function_call") => dset "finish_reason" (JStr "tool_calls") (ms_response_metadata m)
    | _ => ms_response_metadata m
    end in
  Ok {| ms_is_chunk := ms_is_chunk m; ms_content := ms_content m; ms_tool_calls := ms_tool_calls m;
        ms_usage_metadata := if has_counts usage then JObj (metadata_of usage) else ms_usage_metadata m;
        ms_response_metadata := response_metadata;
        ms_additional_kwargs := if has_counts usage
                                then dupdate [("provider_usage", JObj (dict_of_usage usage))] (ms_additional_kwargs m)
                                else ms_additional_kwargs m |}.

(** ** Billable features *)

(** The mapping [response_billable_feature_usage] reads, if it is one. *)
Definition feature_source (m : Message) : option dict :=
  match dget "provider_usage_raw" (ms_additional_kwargs m) with
  | Some (JObj d) => Some d
  | _ => match ms_usage_metadata m with
         | JObj d => Some d
         | _ => match response_usage_value m with JObj d => Some d | _ => None end
         end
  end.

(** The entries of the answer of [response_billable_feature_usage]. *)
Record FeatureUpdates := {
  fu_visual_input_tokens : option Z;
  fu_search_calls : option Z;
}.

Definition parse_optional (v : json) (field : string) : result norm_error (option Z) :=
  match v with JNull => Ok None | _ => n ← parse_token_int v field; Ok (Some n) end.

Definition response_billable_feature_usage (m : Message) : result norm_error FeatureUpdates :=
  match feature_source m with
  | None => Ok {| fu_visual_input_tokens := None; fu_search_calls := None |}
  | Some raw =>
      let input_details := py_or (dget "input_tokens_details" raw)
                             (py_or (dget "input_token_details" raw) (py_or (dget "prompt_tokens_details" raw) (JObj []))) in
      let raw_visual := match dget_or "image_tokens" JNull raw with
                        | JNull => default JNull (jget "image_tokens" input_details)
                        | v => v
                        end in
      visual ← parse_optional raw_visual "visual_input_tokens";
      let plugins := py_or (dget "plugins" raw) (JObj []) in
      let count := default JNull (jget "search" plugins ≫= jget "count") in
      calls ← parse_optional count "search_calls";
      Ok {| fu_visual_input_tokens := visual; fu_search_calls := calls |}
  end.

(** The identifier of the response in an error, and its usage. *)
Definition error_response_id (b details : dict) : json :=
  match py_or (dget "id" b) (dget_or "request_id" JNull b) with
  | JNull => py_or (dget "id" details) (dget_or "request_id" JNull details)
  | v => v
  end.
Definition error_usage (raw : json) (b details : dict) : result norm_error CanonicalTokenUsage :=
  canonical_usage (Some raw)
    (match error_response_id b details with JNull => None | v => Some (py_str v) end) (Some SrcProvider) SemPartial.

(** [error_canonical_usage], of the [body] of an error. *)
Definition error_canonical_usage (body : option json) : result norm_error CanonicalTokenUsage :=
  let nothing := Ok (zero_usage SrcNone SemPartial None) in
  match body with
  | Some (JObj b) =>
      let details := match dget "error" b with Some (JObj d) => d | _ => [] end in
      let raw_usage := match dget_or "usage" JNull b with JNull => dget_or "usage" JNull details | v => v end in
      match raw_usage with
      | JObj _ => error_usage raw_usage b details
      | _ => nothing
      end
  | _ => nothing
  end.
End messages.
