(* ===== verification/ModelRuntime.v ===== *)
(** * ModelRuntime: retries, failover, circuit breaking and streaming of model calls

    [ResilientChatModel] of [core/model_runtime/runtime.py]: [astream] and [ainvoke] over a chain of
    candidates.  What the world does in a call is a script: how long the provider takes for each chunk,
    what it sends or raises, when the consumer resumes or closes the generator, when the caller is
    cancelled, and what the usage reporter answers.  The state is the clock, the circuit of each
    candidate and a log of what the call did.  Times are microseconds. *)
From S2P Require Import Prelude PyText Json Usage ModelUsage.
Local Open Scope Z_scope.

(** ** Circuits *)

Record CircuitState := {
  failures : Z;
  open_until : Z;
}.
Definition closed_circuit : CircuitState := {| failures := 0; open_until := 0 |}.

Record CircuitBreakerPolicy := {
  failure_threshold : Z;
  cooldown : Z;
}.

Definition circuit_available (now_ : Z) (c : CircuitState) : bool := open_until c <=? now_.
Definition circuit_succeed (c : CircuitState) : CircuitState := closed_circuit.
Definition circuit_fail (p : CircuitBreakerPolicy) (now_ : Z) (c : CircuitState) : CircuitState :=
  {| failures := failures c + 1;
     open_until := if failure_threshold p <=? failures c + 1 then now_ + cooldown p else open_until c |}.

(** ** Candidates *)

Record ModelCandidate := {
  mc_preset_name : string;
  mc_provider_name : string;
  mc_model_id : string;
  mc_pricing_key : option string;
  mc_context_window_tokens : Z;
  mc_max_output_tokens : Z;
  mc_forced_search : bool;         (** [native_search.enabled and native_search.forced] *)
  mc_total : Z;                    (** [timeouts] *)
  mc_first_token : Z;
  mc_stream_idle : Z;
  mc_max_attempts : nat;           (** [retry] *)
  mc_base_delay : Z;
  mc_max_delay : Z;
  mc_full_jitter : bool;
  mc_breaker : CircuitBreakerPolicy;
  mc_error_finish_reasons : list (string * string);
}.

(** ** Errors *)

(** An exception of a provider client: the attributes [classify_model_error] reads;
    [pf_retry_after] is the header when [float] accepts it. *)
Record ProviderFailure := {
  pf_status : option Z;
  pf_code : string;
  pf_message : string;
  pf_body : option json;
  pf_retry_after : option Z;
}.

Inductive model_error :=
| StructuredOutputParseError
| EmptyModelResponseError
| ModelFinishReasonError (finish_reason error_kind : string)
| TimeoutError
| ProviderError (e : ProviderFailure)
| NormalizationFailed (e : norm_error)
| GeneratorExit.

Record ErrorDecision := {
  retryable : bool;
  kind : string;
  retry_after : option Z;
}.
Definition decision (r : bool) (k : string) : ErrorDecision := {| retryable := r; kind := k; retry_after := None |}.

Section runtime.
(** [str(v)] of a list or dict, and the texts of the exceptions normalisation raises. *)
Context `{Uuids} (container_text : json -> string) (message_of : norm_error -> string).

Definition plain_failure (message : string) : ProviderFailure :=
  {| pf_status := None; pf_code := ""; pf_message := message; pf_body := None; pf_retry_after := None |}.

(** [code] and [message] after the body was looked at. *)
Definition error_details (e : ProviderFailure) : string * string :=
  let message := lower (pf_message e) in
  let code := lower (strip (pf_code e)) in
  match pf_body e with
  | Some (JObj body) =>
      match dget_or "error" (JObj body) body with
      | JObj details =>
          (lower (strip (py_str container_text (py_or (dget "code" details) (JStr code)))),
           lower (message +:+ " " +:+ py_str container_text (dget_or "type" (JStr "") details)
                  +:+ " " +:+ py_str container_text (dget_or "message" (JStr "") details)))
      | _ => (code, message)
      end
  | _ => (code, message)
  end.

Definition QUOTA_CODES : list string :=
  ["1308"; "1309"; "1310"; "1311"; "1313"; "1314"; "1315"; "1316"; "1317"; "1318"; "1319"; "1320"; "1321"].
Definition quota_markers : list string :=
  ["allocationquota.freetieronly"; "insufficient_quota"; "quota_exceeded"; "insufficient balance";
   "payment_required"; "out of credits"; "billing"].
Definition any_marker (markers : list string) (text : string) : bool := existsb (fun m => contains m text) markers.

Definition status_in (e : ProviderFailure) (l : list Z) : bool :=
  match pf_status e with Some s => existsb (fun x => x =? s) l | None => false end.

(** [classify_model_error], from [status = getattr(...)] on. *)
Definition classify_failure (e : ProviderFailure) : ErrorDecision :=
  let '(code, message) := error_details e in
  let retry_after := Z.max 0 <$> pf_retry_after e in
  let again k := {| retryable := true; kind := k; retry_after := retry_after |} in
  if String.eqb code "1113" then decision false "upstream_provider_quota_exhausted"
  else if String.eqb code "1261" then decision false "upstream_context_length_exceeded"
  else if String.eqb code "1301" then decision false "upstream_unknown"
  else if string_in code ["1210"; "1212"; "1213"; "1214"; "1215"] then decision false "upstream_invalid_request"
  else if string_in code ["1211"; "1221"; "1222"] then decision false "upstream_model_unavailable"
  else if String.eqb code "1302" then again "upstream_rate_limited"
  else if String.eqb code "1305" then again "upstream_overloaded"
  else if string_in code QUOTA_CODES then decision false "upstream_provider_quota_exhausted"
  else if any_marker quota_markers (code +:+ " " +:+ message) then decision false "upstream_provider_quota_exhausted"
  else if status_in e [402] then decision false "upstream_provider_quota_exhausted"
  else if status_in e [429] then again "upstream_rate_limited"
  else if status_in e [401; 403] then decision false "upstream_auth_failed"
  else if status_in e [404] then decision false "upstream_model_unavailable"
  else if status_in e [400; 422] then
    if contains "context" message && contains "length" message
    then decision false "upstream_context_length_exceeded" else decision false "upstream_invalid_request"
  else if status_in e [408; 409] || match pf_status e with Some s => 500 <=? s | None => false end
  then again "upstream_overloaded"
  else if any_marker ["timeout"; "timed out"] message then decision true "upstream_timeout"
  else if any_marker ["connection"; "reset"] message then decision true "upstream_connection_error"
  else if any_marker ["overloaded"; "temporarily unavailable"] message then decision true "upstream_overloaded"
  else decision false "upstream_unknown".

(** [classify_model_error]. *)
Definition classify_model_error (e : model_error) : ErrorDecision :=
  match e with
  | StructuredOutputParseError => decision false "structured_output_parse_error"
  | EmptyModelResponseError => decision true "upstream_empty_response"
  | ModelFinishReasonError _ k => decision (String.eqb k "upstream_overloaded") k
  | TimeoutError => decision true "upstream_timeout"
  | ProviderError f => classify_failure f
  | NormalizationFailed n => classify_failure (plain_failure (message_of n))
  | GeneratorExit => classify_failure (plain_failure "")
  end.

(** [error_canonical_usage(error)]: only the errors of a provider have a body. *)
Definition usage_of_error (e : model_error) : result norm_error CanonicalTokenUsage :=
  match e with ProviderError f => error_canonical_usage container_text (pf_body f) | _ => Ok (zero_usage SrcNone SemPartial None) end.

(** [_finish_reason_error]: the reason and its error kind. *)
Definition finish_reason_error (c : ModelCandidate) (finish_reason : option string) : option (string * string) :=
  match finish_reason with
  | Some EmptyString | None => None
  | Some r => List.find (fun kv => String.eqb kv.1 r) (mc_error_finish_reasons c)
  end.

(** [_delay]; [random_] is what [random.uniform] draws. *)
Definition delay (c : ModelCandidate) (attempt : Z) (d : ErrorDecision) (random_ : Z) : Z :=
  match retry_after d with
  | Some r => Z.min (mc_max_delay c) r
  | None =>
      let cap := Z.min (mc_max_delay c) (mc_base_delay c * 2 ^ Z.max 0 (attempt - 1)) in
      if mc_full_jitter c then Z.max 0 (Z.min cap random_) else cap
  end.

(** ** Usage over a stream *)

Definition with_semantics (sem : UsageSemantics) (u : CanonicalTokenUsage) : CanonicalTokenUsage :=
  {| input_tokens := input_tokens u; cached_input_tokens := cached_input_tokens u;
     cache_miss_input_tokens := cache_miss_input_tokens u; cache_write_input_tokens := cache_write_input_tokens u;
     output_tokens := output_tokens u; reasoning_output_tokens := reasoning_output_tokens u;
     total_tokens := total_tokens u; source := source u; cache_status := cache_status u; semantics := sem;
     provider_response_id := provider_response_id u |}.
Definition with_response_id (id : option string) (u : CanonicalTokenUsage) : CanonicalTokenUsage :=
  {| input_tokens := input_tokens u; cached_input_tokens := cached_input_tokens u;
     cache_miss_input_tokens := cache_miss_input_tokens u; cache_write_input_tokens := cache_write_input_tokens u;
     output_tokens := output_tokens u; reasoning_output_tokens := reasoning_output_tokens u;
     total_tokens := total_tokens u; source := source u; cache_status := cache_status u; semantics := semantics u;
     provider_response_id := id |}.

(** [a or b] on texts. *)
Definition text_or (a b : option string) : option string :=
  match a with Some EmptyString | None => b | _ => a end.

(** [_merge_delta_usage]. *)
Definition merge_delta_usage (current : option CanonicalTokenUsage) (incoming : CanonicalTokenUsage)
  : result norm_error CanonicalTokenUsage :=
  match current with
  | None => Ok (with_semantics SemDelta incoming)
  | Some c =>
      if bool_decide (source c = SrcNone) then Ok (with_semantics SemDelta incoming)
      else construct_usage
        {| input_tokens := input_tokens c + input_tokens incoming;
           cached_input_tokens := cached_input_tokens c + cached_input_tokens incoming;
           cache_miss_input_tokens := cache_miss_input_tokens c + cache_miss_input_tokens incoming;
           cache_write_input_tokens := cache_write_input_tokens c + cache_write_input_tokens incoming;
           output_tokens := output_tokens c + output_tokens incoming;
           reasoning_output_tokens := reasoning_output_tokens c + reasoning_output_tokens incoming;
           total_tokens := total_tokens c + total_tokens incoming;
           source := SrcProvider; cache_status := CacheUnavailable; semantics := SemDelta;
           provider_response_id := text_or (provider_response_id incoming) (provider_response_id c) |}
  end.

(** [if provider_response_id and usage.provider_response_id is None]. *)
Definition fill_response_id (id : option string) (u : CanonicalTokenUsage) : CanonicalTokenUsage :=
  match id, provider_response_id u with
  | Some (String _ _), None => with_response_id id u
  | _, _ => u
  end.

(** [_finalize_stream_usage]. *)
Definition finalize_stream_usage (latest : CanonicalTokenUsage) (delta : option CanonicalTokenUsage)
  (id : option string) (complete : bool) : CanonicalTokenUsage :=
  with_semantics (if complete then SemFinal else SemPartial) (fill_response_id id (default latest delta)).

(** [_with_response_feature_usage]. *)
Definition with_features (f : BillableFeatureUsage) (i : ModelInvocation) : ModelInvocation :=
  {| operation_id := operation_id i; identity := identity i; attribution := attribution i; attempt := attempt i;
     fallback_index := fallback_index i; started_at := started_at i; feature_usage := f |}.
Definition features_updated (u : FeatureUpdates) (f : BillableFeatureUsage) : BillableFeatureUsage :=
  {| visual_input_tokens := default (visual_input_tokens f) (fu_visual_input_tokens u);
     image_units := match fu_visual_input_tokens u with Some v => if 0 <? v then 0 else image_units f | None => image_units f end;
     search_calls := default (search_calls f) (fu_search_calls u);
     link_pages := link_pages f |}.
Definition with_response_feature_usage (invocation : option ModelInvocation) (m : Message)
  : result norm_error (option ModelInvocation) :=
  match invocation with
  | None => Ok None
  | Some i => u ← response_billable_feature_usage m; Ok (Some (with_features (features_updated u (feature_usage i)) i))
  end.

(** ** Visibility *)

Definition answer_visible_chunk (m : Message) : bool := ms_content m || ms_tool_calls m.
Definition visible_chunk (m : Message) : bool :=
  answer_visible_chunk m || truthy_json (dget_or "reasoning_content" JNull (ms_additional_kwargs m)).

(** ** The world of a call *)

Inductive consumer := Resumes (after : Z) | Closes.

Inductive read_item :=
| RChunk (m : Message) (c : consumer)
| RStop
| RRaise (e : model_error)
| RCancel.
Record stream_read := {
  rd_delay : Z;
  rd_item : read_item;
}.

Inductive call_result := CallOk | CallFails | CallCancelled.

(** What a call of [model.ainvoke] ends with; a structured response has its parsing error, if any. *)
Inductive invoke_item :=
| IResponse (m : Message)
| IStructured (raw : Message) (parsing_failed : bool)
| IRaise (e : model_error)
| ICancel.

(** One attempt: a stream whose reads run out is silent from then on. *)
Record attempt_script := {
  as_reserve : call_result;
  as_reads : list stream_read;
  as_invoke_delay : Z;
  as_invoke : invoke_item;
  as_report : call_result;
  as_report_again : call_result;
  as_random : Z;
  as_sleep_cancelled : bool;
}.
Definition silent_script : attempt_script :=
  {| as_reserve := CallOk; as_reads := []; as_invoke_delay := 0; as_invoke := IRaise TimeoutError; as_report := CallOk;
     as_report_again := CallOk; as_random := 0; as_sleep_cancelled := false |}.

Inductive rt_event :=
| Attempted (fallback : nat) (attempt : Z) (operation : string)
| Yielded (fallback : nat) (attempt : Z) (m : Message)
| Reported (i : ModelInvocation) (u : CanonicalTokenUsage) (o : InvocationOutcome)
| Slept (fallback : nat) (d : Z).

Record RT := {
  rt_now : Z;
  rt_circuits : list CircuitState;
  rt_log : list rt_event;
  rt_scripts : list attempt_script;
  rt_next_uuid : nat;
}.

(** What leaves the generator or the coroutine. *)
Inductive raised :=
| ModelRaised (e : model_error)
| StreamInterruptedError
| ModelRuntimeExhaustedError
| UsageReporterUnavailableError
| MissingUsageAttributionError
| ReporterRaised
| CancelledError.

Abbreviation Call := (Py RT raised).

Definition set_now (s : RT) (t : Z) : RT :=
  {| rt_now := t; rt_circuits := rt_circuits s; rt_log := rt_log s; rt_scripts := rt_scripts s; rt_next_uuid := rt_next_uuid s |}.
Definition set_circuits (s : RT) (l : list CircuitState) : RT :=
  {| rt_now := rt_now s; rt_circuits := l; rt_log := rt_log s; rt_scripts := rt_scripts s; rt_next_uuid := rt_next_uuid s |}.
Definition add_log (s : RT) (e : rt_event) : RT :=
  {| rt_now := rt_now s; rt_circuits := rt_circuits s; rt_log := rt_log s ++ [e]; rt_scripts := rt_scripts s;
     rt_next_uuid := rt_next_uuid s |}.

Definition update_circuit (fallback : nat) (f : CircuitState -> CircuitState) : Call () :=
  py_modify (fun s => set_circuits s (alter f fallback (rt_circuits s))).
Definition next_script : Call attempt_script := fun s =>
  (Ok (default silent_script (head (rt_scripts s))),
   {| rt_now := rt_now s; rt_circuits := rt_circuits s; rt_log := rt_log s; rt_scripts := tail (rt_scripts s);
      rt_next_uuid := rt_next_uuid s |}).
Definition runtime_uuid : Call string := fun s =>
  (Ok (uuid4 (rt_next_uuid s)),
   {| rt_now := rt_now s; rt_circuits := rt_circuits s; rt_log := rt_log s; rt_scripts := rt_scripts s;
      rt_next_uuid := S (rt_next_uuid s) |}).

(** ** The model *)

Record ReporterSlot := {
  sl_required : bool;
  sl_reporter : bool;       (** a reporter is configured *)
  sl_can_reserve : bool;    (** and has [reserve_feature_usage] *)
}.

(** [ResilientChatModel] and what a call finds in its context variables. *)
Record ResilientChatModel := {
  rm_candidates : list ModelCandidate;
  rm_model_profile : option string;
  rm_route : option string;
  rm_slot : option ReporterSlot;
  rm_attribution : option UsageAttributionContext;  (** [resolve_usage_attribution] *)
  rm_features : BillableFeatureUsage;               (** [current_billable_feature_usage] *)
}.

Section model.
Variable rm : ResilientChatModel.

Definition has_reporter : bool := match rm_slot rm with Some sl => sl_reporter sl | None => false end.
Definition reporter_required : bool := match rm_slot rm with Some sl => sl_required sl | None => false end.

Definition model_identity (c : ModelCandidate) : ModelIdentity :=
  {| provider := mc_provider_name c; provider_model := mc_model_id c; model_profile := rm_model_profile rm;
     preset := mc_preset_name c; route := rm_route rm; pricing_key := mc_pricing_key c;
     context_window_tokens := Some (mc_context_window_tokens c); max_output_tokens := Some (mc_max_output_tokens c) |}.

Definition attempt_features (c : ModelCandidate) : BillableFeatureUsage :=
  let f := rm_features rm in
  {| visual_input_tokens := visual_input_tokens f; image_units := image_units f;
     search_calls := search_calls f + (if mc_forced_search c then 1 else 0); link_pages := link_pages f |}.

(** [_prepare_invocation]. *)
Definition prepare_invocation (c : ModelCandidate) (a : Z) (f : nat) : Call (option ModelInvocation * string) :=
  op ← runtime_uuid;
  now_ ← py_gets rt_now;
  if reporter_required && negb has_reporter then py_raise UsageReporterUnavailableError
  else match rm_attribution rm with
       | None => if has_reporter then py_raise MissingUsageAttributionError else mret (None, op)
       | Some at_ =>
           mret (Some {| operation_id := op; identity := model_identity c; attribution := at_; attempt := a;
                         fallback_index := Z.of_nat f; started_at := now_; feature_usage := attempt_features c |}, op)
       end.

Definition answered (r : call_result) : Call () :=
  match r with CallOk => mret () | CallFails => py_raise ReporterRaised | CallCancelled => py_raise CancelledError end.

(** [_reserve_feature_attempt]. *)
Definition has_features (f : BillableFeatureUsage) : bool :=
  existsb (fun n => negb (n =? 0)) [visual_input_tokens f; image_units f; search_calls f; link_pages f].
Definition reserve_feature_attempt (invocation : option ModelInvocation) (answer : call_result) : Call () :=
  match invocation with
  | None => mret ()
  | Some i =>
      if negb (has_features (feature_usage i)) then mret ()
      else match rm_slot rm with
           | Some sl => if sl_reporter sl && sl_can_reserve sl then answered answer
                        else if sl_required sl then py_raise UsageReporterUnavailableError else mret ()
           | None => mret ()
           end
  end.

(** [_report_attempt]. *)
Definition report_attempt (invocation : option ModelInvocation) (u : CanonicalTokenUsage) (st : InvocationStatus)
  (finish kind_ : option string) (answer : call_result) : Call () :=
  match invocation with
  | None => mret ()
  | Some i =>
      if negb has_reporter then (if reporter_required then py_raise UsageReporterUnavailableError else mret ())
      else
        now_ ← py_gets rt_now;
        _ ← py_modify (fun s => add_log s (Reported i u {| oc_status := st; finish_reason := finish; error_kind := kind_;
                                                           completed_at := now_ |}));
        answered answer
  end.

(** ** Streaming *)

(** The local variables of an attempt. *)
Record Acc := {
  ac_received : bool;
  ac_visible : bool;
  ac_answer : bool;
  ac_first : bool;
  ac_latest : CanonicalTokenUsage;
  ac_delta : option CanonicalTokenUsage;
  ac_finish : option string;
  ac_drain : option Z;
  ac_response_id : option string;
  ac_invocation : option ModelInvocation;
}.
Definition acc0 (i : option ModelInvocation) : Acc :=
  {| ac_received := false; ac_visible := false; ac_answer := false; ac_first := true;
     ac_latest := zero_usage SrcNone SemFinal None; ac_delta := None; ac_finish := None; ac_drain := None;
     ac_response_id := None; ac_invocation := i |}.

Definition acc_seen (m : Message) (x : Acc) : Acc :=
  {| ac_received := true; ac_visible := ac_visible x || visible_chunk m;
     ac_answer := ac_answer x || answer_visible_chunk m; ac_first := false; ac_latest := ac_latest x;
     ac_delta := ac_delta x; ac_finish := ac_finish x; ac_drain := ac_drain x;
     ac_response_id := ac_response_id x; ac_invocation := ac_invocation x |}.
Definition acc_measured (latest : CanonicalTokenUsage) (delta : option CanonicalTokenUsage) (id finish : option string)
  (i : option ModelInvocation) (x : Acc) : Acc :=
  {| ac_received := ac_received x; ac_visible := ac_visible x; ac_answer := ac_answer x; ac_first := ac_first x;
     ac_latest := latest; ac_delta := delta; ac_finish := finish; ac_drain := ac_drain x; ac_response_id := id;
     ac_invocation := i |}.
Definition acc_drain_until (t : option Z) (x : Acc) : Acc :=
  {| ac_received := ac_received x; ac_visible := ac_visible x; ac_answer := ac_answer x; ac_first := ac_first x;
     ac_latest := ac_latest x; ac_delta := ac_delta x; ac_finish := ac_finish x; ac_drain := t;
     ac_response_id := ac_response_id x; ac_invocation := ac_invocation x |}.

(** [_FINISH_USAGE_DRAIN_S]. *)
Definition FINISH_USAGE_DRAIN : Z := 250000.

(** From [normalized = normalize_chunk(chunk)] to the [yield]: the message yielded, its finish reason and the variables. *)
Definition measure_chunk (m : Message) (x : Acc) : result norm_error (Message * option string * Acc) :=
  normalized ← (if ms_is_chunk m then normalize_chunk m else Ok m);
  canon ← response_canonical_usage container_text normalized;
  invocation ← with_response_feature_usage (ac_invocation x) normalized;
  delta ← (if bool_decide (source canon = SrcNone) then Ok (ac_delta x)
           else match semantics canon with
                | SemDelta => d ← merge_delta_usage (ac_delta x) canon; Ok (Some d)
                | _ => Ok (ac_delta x)
                end);
  let latest := if bool_decide (source canon = SrcNone) then ac_latest x
                else match semantics canon with SemDelta => ac_latest x | _ => canon end in
  let id := text_or (extract_provider_response_id container_text normalized) (ac_response_id x) in
  let finish := truthy_text container_text "finish_reason" (ms_response_metadata normalized) in
  Ok (normalized, finish, acc_measured latest delta id (text_or finish (ac_finish x)) invocation x).

Inductive loop_end := LEnd | LError (e : model_error) | LCancelled.

(** The [while True] of [astream]. *)
Fixpoint read_stream (c : ModelCandidate) (f : nat) (a started : Z) (reads : list stream_read) (s : RT) (x : Acc)
  : RT * Acc * loop_end :=
  let remaining_total := mc_total c - (rt_now s - started) in
  if remaining_total <=? 0 then (s, x, LError TimeoutError)
  else
    let remaining_drain := match ac_drain x with Some d => d - rt_now s | None => remaining_total end in
    if match ac_drain x with Some _ => remaining_drain <=? 0 | None => false end then (s, x, LEnd)
    else
      let wait := Z.min remaining_total (Z.min remaining_drain (if ac_first x then mc_first_token c else mc_stream_idle c)) in
      let timed_out := (set_now s (rt_now s + wait), x, match ac_drain x with Some _ => LEnd | None => LError TimeoutError end) in
      match reads with
      | [] => timed_out
      | r :: rest =>
          if wait <? rd_delay r then timed_out
          else
            let s := set_now s (rt_now s + Z.max 0 (rd_delay r)) in
            match rd_item r with
            | RStop => (s, x, LEnd)
            | RRaise e => (s, x, match e, ac_drain x with TimeoutError, Some _ => LEnd | _, _ => LError e end)
            | RCancel => (s, x, LCancelled)
            | RChunk m consumer =>
                let x := acc_seen m x in
                match measure_chunk m x with
                | Err e => (s, x, LError (NormalizationFailed e))
                | Ok (normalized, finish, x) =>
                    let s := add_log s (Yielded f a normalized) in
                    match consumer with
                    | Closes => (s, x, LError GeneratorExit)
                    | Resumes after =>
                        let s := set_now s (rt_now s + Z.max 0 after) in
                        let x := match finish, ac_drain x with
                                 | Some _, None => acc_drain_until (Some (rt_now s + FINISH_USAGE_DRAIN)) x
                                 | _, _ => x
                                 end in
                        read_stream c f a started rest s x
                    end
                end
            end
      end.

(** The sleep between attempts. *)
Definition sleep_before_retry (f : nat) (d : Z) (cancelled : bool) : Call () :=
  _ ← py_modify (fun s => set_now (add_log s (Slept f d)) (rt_now s + d));
  if cancelled then py_raise CancelledError else mret ().

(** [if attempt < max_attempts: await asyncio.sleep(...)]. *)
Definition retry_or_give_up (c : ModelCandidate) (f : nat) (a : Z) (d : ErrorDecision) (sc : attempt_script) : Call bool :=
  _ ← py_when (a <? Z.of_nat (mc_max_attempts c))
        (sleep_before_retry f (delay c a d (as_random sc)) (as_sleep_cancelled sc));
  mret false.

(** [if decision.kind != "structured_output_parse_error": candidate.circuit.fail(...)]. *)
Definition count_failure (c : ModelCandidate) (f : nat) (d : ErrorDecision) : Call () :=
  now_ ← py_gets rt_now;
  py_when (negb (String.eqb (kind d) "structured_output_parse_error"))
    (update_circuit f (circuit_fail (mc_breaker c) now_)).

Definition partial_usage (x : Acc) : CanonicalTokenUsage :=
  finalize_stream_usage (ac_latest x) (ac_delta x) (ac_response_id x) false.

(** [except asyncio.CancelledError]. *)
Definition stream_cancelled (x : Acc) (answer : call_result) : Call bool :=
  _ ← report_attempt (ac_invocation x) (partial_usage x) Cancelled (ac_finish x) None answer;
  py_raise CancelledError.

(** [except BaseException as error]. *)
Definition stream_failed (c : ModelCandidate) (f : nat) (a : Z) (sc : attempt_script) (e : model_error) (x : Acc)
  : Call bool :=
  let d := classify_model_error e in
  _ ← count_failure c f d;
  match (if bool_decide (source (partial_usage x) = SrcNone)
         then u ← usage_of_error e; Ok (fill_response_id (ac_response_id x) u)
         else Ok (partial_usage x)) with
  | Err n => py_raise (ModelRaised (NormalizationFailed n))
  | Ok usage =>
      if ac_visible x && (ac_answer x || negb (retryable d)) then
        _ ← report_attempt (ac_invocation x) usage Interrupted (ac_finish x) (Some (kind d)) (as_report sc);
        py_raise StreamInterruptedError
      else
        _ ← report_attempt (ac_invocation x) usage Failed (ac_finish x) (Some (kind d)) (as_report sc);
        if negb (retryable d) then py_raise (ModelRaised e) else retry_or_give_up c f a d sc
  end.

(** [_report_attempt_best_effort] of a success: a failing reporter is only logged. *)
Definition report_success (invocation : option ModelInvocation) (u : CanonicalTokenUsage) (finish : option string)
  (answer : call_result) : Call call_result := fun s =>
  match report_attempt invocation u Succeeded finish None answer s with
  | (Ok _, s') => (Ok CallOk, s')
  | (Err UsageReporterUnavailableError, s') => (Err UsageReporterUnavailableError, s')
  | (Err CancelledError, s') => (Ok CallCancelled, s')
  | (Err _, s') => (Ok CallFails, s')
  end.

(** One attempt of [astream]: true when the stream is complete. *)
Definition stream_attempt (c : ModelCandidate) (f : nat) (a : Z) : Call bool :=
  sc ← next_script;
  prepared ← prepare_invocation c a f;
  _ ← reserve_feature_attempt prepared.1 (as_reserve sc);
  _ ← py_modify (fun s => add_log s (Attempted f a prepared.2));
  started ← py_gets rt_now;
  ended ← (fun s => let r := read_stream c f a started (as_reads sc) s (acc0 prepared.1) in (Ok (r.1.2, r.2), r.1.1));
  let x := ended.1 in
  match ended.2 with
  | LCancelled => stream_cancelled x (as_report sc)
  | LError e => stream_failed c f a sc e x
  | LEnd =>
      if negb (ac_received x) then stream_failed c f a sc EmptyModelResponseError x
      else match finish_reason_error c (ac_finish x) with
           | Some (r, k) => stream_failed c f a sc (ModelFinishReasonError r k) x
           | None =>
               reported ← report_success (ac_invocation x)
                 (finalize_stream_usage (ac_latest x) (ac_delta x) (ac_response_id x) true) (ac_finish x) (as_report sc);
               match reported with
               | CallCancelled => stream_cancelled x (as_report_again sc)
               | _ => _ ← update_circuit f circuit_succeed; mret true
               end
           end
  end.

(** [for attempt in range(1, max_attempts + 1)]. *)
Fixpoint attempts (body : Z -> Call bool) (l : list Z) : Call bool :=
  match l with
  | [] => mret false
  | a :: rest => done ← body a; if done : bool then mret true else attempts body rest
  end.
Definition attempt_numbers (c : ModelCandidate) : list Z := Z.of_nat <$> seq 1 (mc_max_attempts c).

(** [for fallback_index, candidate in enumerate(self.candidates)]. *)
Fixpoint over_candidates (body : ModelCandidate -> nat -> Z -> Call bool) (f : nat) (cs : list ModelCandidate) : Call () :=
  match cs with
  | [] => py_raise ModelRuntimeExhaustedError
  | c :: rest =>
      available ← py_gets (fun s => circuit_available (rt_now s) (default closed_circuit (rt_circuits s !! f)));
      if negb available then over_candidates body (S f) rest
      else done ← attempts (body c f) (attempt_numbers c);
           if done : bool then mret () else over_candidates body (S f) rest
  end.

(** [astream]. *)
Definition astream : Call () := over_candidates stream_attempt 0 (rm_candidates rm).

(** ** Calls that answer at once *)

(** [except BaseException as error] of [ainvoke]. *)
Definition invoke_failed (c : ModelCandidate) (f : nat) (a : Z) (sc : attempt_script) (invocation : option ModelInvocation)
  (already_reported : bool) (e : model_error) : Call bool :=
  let d := classify_model_error e in
  _ ← count_failure c f d;
  _ ← (if already_reported then mret ()
       else match usage_of_error e with
            | Err n => py_raise (ModelRaised (NormalizationFailed n))
            | Ok usage => report_attempt invocation usage Failed None (Some (kind d)) (as_report sc)
            end);
  if negb (retryable d) then py_raise (ModelRaised e) else retry_or_give_up c f a d sc.

(** What is read of a response: its usage with its identifier, the invocation and the finish reason. *)
Definition measure_response (m : Message) (invocation : option ModelInvocation)
  : result norm_error (CanonicalTokenUsage * option ModelInvocation * option string) :=
  canon ← response_canonical_usage container_text m;
  invocation ← with_response_feature_usage invocation m;
  Ok (fill_response_id (extract_provider_response_id container_text m) canon, invocation,
      truthy_text container_text "finish_reason" (ms_response_metadata m)).

(** [_report_attempt_guarded] before an error that counts against the provider: a failing reporter ends
    the call with its own error. *)
Definition report_then_fail (c : ModelCandidate) (f : nat) (a : Z) (sc : attempt_script) (invocation : option ModelInvocation)
  (usage : CanonicalTokenUsage) (finish : option string) (k : string) (e : model_error) : Call bool :=
  _ ← report_attempt invocation usage Failed finish (Some k) (as_report sc);
  invoke_failed c f a sc invocation true e.

(** One attempt of [ainvoke] on a model with structured output: true when there is a response. *)
Definition invoke_attempt (c : ModelCandidate) (f : nat) (a : Z) : Call bool :=
  sc ← next_script;
  prepared ← prepare_invocation c a f;
  _ ← reserve_feature_attempt prepared.1 (as_reserve sc);
  _ ← py_modify (fun s => add_log s (Attempted f a prepared.2));
  let fail := invoke_failed c f a sc prepared.1 false in
  let respond (raw : Message) (parsing_failed : bool) :=
    match measure_response raw prepared.1 with
    | Err n => fail (NormalizationFailed n)
    | Ok (usage, invocation, finish) =>
        match finish_reason_error c finish with
        | Some (r, k) => report_then_fail c f a sc invocation usage finish k (ModelFinishReasonError r k)
        | None =>
            if parsing_failed then
              report_then_fail c f a sc invocation usage finish "structured_output_parse_error" StructuredOutputParseError
            else
              reported ← report_success invocation usage finish (as_report sc);
              match reported with
              | CallCancelled => py_raise CancelledError
              | _ => _ ← update_circuit f circuit_succeed; mret true
              end
        end
    end in
  if mc_total c <? as_invoke_delay sc then
    _ ← py_modify (fun s => set_now s (rt_now s + mc_total c)); fail TimeoutError
  else
    _ ← py_modify (fun s => set_now s (rt_now s + Z.max 0 (as_invoke_delay sc)));
    match as_invoke sc with
    | IResponse m => respond m false
    | IStructured raw parsing_failed => respond raw parsing_failed
    | IRaise e => fail e
    | ICancel =>
        _ ← report_attempt prepared.1 (zero_usage SrcNone SemFinal None) Cancelled None None (as_report sc);
        py_raise CancelledError
    end.

(** [ainvoke] when the response is not normalised. *)
Definition ainvoke_structured : Call () := over_candidates invoke_attempt 0 (rm_candidates rm).

(** [ainvoke] on a normalising model: the chunks of a stream, joined by LangChain. *)
Definition chunks_of (log : list rt_event) : list Message :=
  omap (fun e => match e with Yielded _ _ m => Some m | _ => None end) log.
Definition ainvoke (join : list Message -> Message) : Call Message := fun s =>
  match astream s with
  | (Err e, s') => (Err e, s')
  | (Ok _, s') =>
      match chunks_of (drop (length (rt_log s)) (rt_log s')) with
      | [] => (Err ModelRuntimeExhaustedError, s')
      | chunks => match normalize_message (join chunks) with
                  | Ok m => (Ok m, s')
                  | Err n => (Err (ModelRaised (NormalizationFailed n)), s')
                  end
      end
  end.
End model.
End runtime.
