(* ===== verification/ModelRuntimeSafety.v ===== *)
(** * ModelRuntimeSafety: what a model call does, whatever its providers do

    The log of a call is a word of a small language: candidates in order, attempts in order, and of
    each attempt what it yielded, its one usage report and the sleep before the next.  From that
    follow that a visible answer is never replayed, that every attempt is accounted for once and
    with a valid usage, and that attempts and delays keep the limits of the policy. *)
From S2P Require Import Prelude PyText Json Usage ModelUsage ModelRuntime.
Local Open Scope Z_scope.

(** ** Usage values are valid *)

Lemma construct_usage_ok u v : construct_usage u = Ok v -> v = u /\ usage_valid u.
Proof.
  unfold construct_usage. destruct (validate_subsets_and_total u) as [w|] eqn:Hv; [|done]. intros [= <-].
  assert (w = u) as ->; [|done]. unfold validate_subsets_and_total in Hv. by repeat case_match; simplify_eq.
Qed.

Lemma zero_usage_valid src sem id : usage_valid (zero_usage src sem id).
Proof. by destruct src. Qed.

Lemma with_semantics_valid sem u : usage_valid u -> usage_valid (with_semantics sem u).
Proof. unfold usage_valid, validate_subsets_and_total, with_semantics, usage_fields. cbn. by repeat case_match. Qed.

Lemma fill_response_id_valid id u : usage_valid u -> usage_valid (fill_response_id id u).
Proof.
  intros Hu. unfold fill_response_id. repeat case_match; try done.
  revert Hu. unfold usage_valid, validate_subsets_and_total, with_response_id, usage_fields. cbn. by repeat case_match.
Qed.

Lemma result_bind_ok {E A B} (m : result E A) (k : A -> result E B) b :
  (m ≫= k) = Ok b -> exists a, m = Ok a /\ k a = Ok b.
Proof. destruct m as [a|]; [|done]. eauto. Qed.

(** Splits a successful computation into its parts. *)
Ltac result_run H :=
  repeat match type of H with
  | (_ ≫= _) = Ok _ =>
      let a := fresh "a" in let H1 := fresh "Hpart" in apply result_bind_ok in H as (a & H1 & H)
  end.

Lemma canonical_usage_valid metadata id src sem u : canonical_usage metadata id src sem = Ok u -> usage_valid u.
Proof.
  unfold canonical_usage. destruct (negb _); [intros [= <-]; apply zero_usage_valid|]. intros Hrun. result_run Hrun.
  by apply construct_usage_ok in Hrun as [-> Hv].
Qed.

Lemma response_canonical_usage_valid text m u : response_canonical_usage text m = Ok u -> usage_valid u.
Proof.
  unfold response_canonical_usage. intros Hrun. repeat case_match; result_run Hrun; by eapply canonical_usage_valid.
Qed.

Lemma error_canonical_usage_valid text body u : error_canonical_usage text body = Ok u -> usage_valid u.
Proof.
  unfold error_canonical_usage. intros Hrun.
  repeat case_match; try (injection Hrun as <-; apply zero_usage_valid); by eapply canonical_usage_valid.
Qed.

Lemma merge_delta_usage_valid current incoming u :
  usage_valid incoming -> merge_delta_usage current incoming = Ok u -> usage_valid u.
Proof.
  intros Hi. unfold merge_delta_usage. destruct current as [c|]; [case_bool_decide|].
  - intros [= <-]. by apply with_semantics_valid.
  - intros Hc. by apply construct_usage_ok in Hc as [-> Hv].
  - intros [= <-]. by apply with_semantics_valid.
Qed.

(** Adding the deltas of a provider never fails. *)
Lemma merge_delta_usage_total current incoming :
  (forall c, current = Some c -> usage_valid c) -> usage_valid incoming ->
  exists u, merge_delta_usage current incoming = Ok u
    /\ total_tokens u = match current with
                        | Some c => if bool_decide (source c = SrcNone) then total_tokens incoming
                                    else total_tokens c + total_tokens incoming
                        | None => total_tokens incoming
                        end.
Proof.
  intros Hc Hi. unfold merge_delta_usage. destruct current as [c|]; [case_bool_decide as Hs|]; [by eexists| |by eexists].
  apply usage_valid_facts in Hi as Fi. specialize (Hc c eq_refl) as Hv. apply usage_valid_facts in Hv as Fc.
  unfold construct_usage, validate_subsets_and_total, all_nonneg, usage_fields. cbn [forallb input_tokens
    cached_input_tokens cache_miss_input_tokens cache_write_input_tokens output_tokens reasoning_output_tokens
    total_tokens source cache_status semantics provider_response_id].
  repeat (rewrite (proj2 (Z.leb_le _ _)) by lia). repeat (rewrite (proj2 (Z.ltb_ge _ _)) by lia).
  rewrite (proj2 (Z.eqb_eq _ _)) by lia. cbn. by eexists.
Qed.

Section safety.
Context `{Uuids} (text : json -> string) (message_of : norm_error -> string).

(** ** The stream of one attempt *)

Definition same_operation (i j : option ModelInvocation) : Prop :=
  match i, j with
  | None, None => True
  | Some i, Some j => operation_id i = operation_id j
  | _, _ => False
  end.

Record acc_ok (i : option ModelInvocation) (x : Acc) : Prop := {
  ok_latest : usage_valid (ac_latest x);
  ok_delta : forall d, ac_delta x = Some d -> usage_valid d;
  ok_op : same_operation i (ac_invocation x);
  ok_visible : ac_answer x = true -> ac_visible x = true;
}.

Lemma acc0_ok i : acc_ok i (acc0 i).
Proof. split; cbn; [apply zero_usage_valid|done| |done]. by destruct i. Qed.

Lemma finalize_valid i x complete :
  acc_ok i x -> usage_valid (finalize_stream_usage (ac_latest x) (ac_delta x) (ac_response_id x) complete).
Proof.
  intros [H1 H2 _ _]. apply with_semantics_valid, fill_response_id_valid. destruct (ac_delta x) eqn:Hd; cbn; eauto.
Qed.

Lemma normalized_visible m n : normalize_chunk m = Ok n -> answer_visible_chunk n = answer_visible_chunk m.
Proof. unfold normalize_chunk. intros Hrun. result_run Hrun. injection Hrun as <-. by destruct (has_counts _). Qed.

Lemma measure_chunk_ok i m x n finish x' :
  acc_ok i x -> measure_chunk text m x = Ok (n, finish, x') ->
  acc_ok i x' /\ ac_answer x' = ac_answer x /\ ac_visible x' = ac_visible x
  /\ answer_visible_chunk n = answer_visible_chunk m.
Proof.
  intros [H1 H2 H3 H4] Hrun. unfold measure_chunk in Hrun. result_run Hrun. injection Hrun as <- _ <-.
  apply response_canonical_usage_valid in Hpart0 as Hv. split_and!; [split; cbn|done|done|].
  - repeat case_match; done.
  - intros d. case_bool_decide; [injection Hpart2 as <-; apply H2|].
    destruct (semantics a0); try (injection Hpart2 as <-; apply H2).
    result_run Hpart2. injection Hpart2 as <-. intros [= <-]. by eapply merge_delta_usage_valid.
  - unfold with_response_feature_usage in Hpart1. destruct (ac_invocation x) as [j|]; [|injection Hpart1 as <-; by destruct i].
    result_run Hpart1. injection Hpart1 as <-. by destruct i.
  - done.
  - destruct (ms_is_chunk m); [by apply normalized_visible|by injection Hpart as ->].
Qed.

Definition shows_answer (ys : list Message) : bool := existsb answer_visible_chunk ys.

Lemma read_stream_trace c f a started reads s x i :
  acc_ok i x ->
  let r := read_stream text c f a started reads s x in
  exists ys, rt_log r.1.1 = rt_log s ++ (Yielded f a <$> ys) /\ rt_circuits r.1.1 = rt_circuits s
    /\ rt_scripts r.1.1 = rt_scripts s /\ acc_ok i r.1.2
    /\ (ac_answer x = true \/ shows_answer ys = true -> ac_answer r.1.2 = true)
    /\ (ac_visible x = true \/ shows_answer ys = true -> ac_visible r.1.2 = true).
Proof.
  assert (Hstop : forall s s' x x' e, acc_ok i x' -> rt_log s' = rt_log s -> rt_circuits s' = rt_circuits s ->
    rt_scripts s' = rt_scripts s -> (ac_answer x = true -> ac_answer x' = true) -> (ac_visible x = true -> ac_visible x' = true) ->
    exists ys, rt_log (s', x', e : loop_end).1.1 = rt_log s ++ (Yielded f a <$> ys) /\ rt_circuits s' = rt_circuits s
    /\ rt_scripts s' = rt_scripts s /\ acc_ok i x' /\ (ac_answer x = true \/ shows_answer ys = true -> ac_answer x' = true)
    /\ (ac_visible x = true \/ shows_answer ys = true -> ac_visible x' = true)).
  { intros s1 s2 x1 x2 e Hx Hl Hc Hs Ha Hv. exists []. cbn. rewrite app_nil_r. split_and!; try done.
    - intros [?|?]; [by apply Ha|done].
    - intros [?|?]; [by apply Hv|done]. }
  revert s x. induction reads as [|r reads IH]; intros s x Hx; cbn.
  - repeat case_match; by apply Hstop.
  - destruct (mc_total c - _ <=? 0); [by apply Hstop|].
    destruct (match ac_drain x with Some _ => _ | None => false end); [by apply Hstop|].
    destruct (_ <? rd_delay r); [by apply Hstop|].
    destruct (rd_item r) as [m cons| |e|]; [|by apply Hstop..].
    assert (Hvis : answer_visible_chunk m = true -> visible_chunk m = true) by (unfold visible_chunk; by intros ->).
    assert (Hseen : acc_ok i (acc_seen m x)).
    { destruct Hx as [? ? ? Hav]. split; [done..|]. cbn. rewrite !orb_true_iff. intros [?|?]; auto. }
    destruct (measure_chunk text m (acc_seen m x)) as [[[n finish] x1]|e] eqn:Hm.
    2: { apply Hstop; [done..| |]; cbn; intros Hb; by rewrite Hb. }
    apply (measure_chunk_ok i) in Hm as (Hx1 & Ha1 & Hv1 & Hn); [|done].
    destruct cons as [after|].
    + match goal with |- context [read_stream text c f a started reads ?s2 ?x2] =>
        destruct (IH s2 x2) as (ys & Hl & Hc & Hs & Hok & Ha & Hv) end.
      { destruct finish; [|done]. destruct (ac_drain x1); [done|]. destruct Hx1; by split. }
      exists (n :: ys). split_and!; [rewrite Hl; cbn; by rewrite <- app_assoc|done..| |].
      * intros Hor. apply Ha. cbn in Hor. rewrite orb_true_iff in Hor.
        assert (ac_answer x1 = true \/ shows_answer ys = true) as [H1|H1]; [|left|by right].
        { rewrite Ha1. cbn. rewrite orb_true_iff, <- Hn. tauto. }
        by destruct finish; [destruct (ac_drain x1)|].
      * intros Hor. apply Hv. cbn in Hor. rewrite orb_true_iff in Hor.
        assert (ac_visible x1 = true \/ shows_answer ys = true) as [H1|H1]; [|left|by right].
        { rewrite Hv1. cbn. rewrite orb_true_iff. rewrite Hn in Hor. destruct Hor as [?|[?|?]]; auto. }
        by destruct finish; [destruct (ac_drain x1)|].
    + exists [n]. cbn. rewrite Ha1, Hv1. cbn. rewrite Hn. split_and!; [done..| |].
      * rewrite !orb_true_iff. intros [?|[?|?]]; done || auto.
      * rewrite !orb_true_iff. intros [?|[?|?]]; done || auto.
Qed.
(** ** The log of an attempt *)

Variable rm : ResilientChatModel.

(** Usage is reported: there is a reporter, and someone to charge. *)
Definition accounted : bool := has_reporter rm && match rm_attribution rm with Some _ => true | None => false end.

Definition report_of (op : string) (st : InvocationStatus) (l : list rt_event) : Prop :=
  if accounted
  then exists i u o, l = [Reported i u o] /\ operation_id i = op /\ oc_status o = st /\ usage_valid u
  else l = [].

(** What a reporter can raise. *)
Definition reporter_error (e : raised) : Prop :=
  e = ReporterRaised \/ e = CancelledError \/ e = UsageReporterUnavailableError.

Definition sleep_of (c : ModelCandidate) (f : nat) (l : list rt_event) : Prop :=
  l = [] \/ exists d, l = [Slept f d] /\ d <= Z.max 0 (mc_max_delay c).

(** The words an attempt can log, with what it ends with: [Ok true] when the response is complete,
    [Ok false] when the next attempt or candidate is tried. *)
Inductive attempt_trace (c : ModelCandidate) (f : nat) (a : Z) : list rt_event -> result raised bool -> Prop :=
| tr_refused e : attempt_trace c f a [] (Err e)
| tr_done op ys rep :
    report_of op Succeeded rep -> attempt_trace c f a (Attempted f a op :: (Yielded f a <$> ys) ++ rep) (Ok true)
| tr_success_cancelled op ys rep rep2 e :
    report_of op Succeeded rep -> rep2 = [] \/ report_of op Cancelled rep2 -> reporter_error e ->
    attempt_trace c f a (Attempted f a op :: (Yielded f a <$> ys) ++ rep ++ rep2) (Err e)
| tr_stopped op ys st rep e :
    report_of op st rep -> st <> Succeeded ->
    attempt_trace c f a (Attempted f a op :: (Yielded f a <$> ys) ++ rep) (Err e)
| tr_unreported op ys n :
    attempt_trace c f a (Attempted f a op :: (Yielded f a <$> ys)) (Err (ModelRaised (NormalizationFailed n)))
| tr_retry op ys rep sl r :
    shows_answer ys = false -> report_of op Failed rep -> sleep_of c f sl -> r = Ok false \/ r = Err CancelledError ->
    attempt_trace c f a (Attempted f a op :: (Yielded f a <$> ys) ++ rep ++ sl) r.

(** An invocation as [prepare_invocation] makes it. *)
Definition prepared_for (op : string) (i : option ModelInvocation) : Prop :=
  match i with
  | Some j => operation_id j = op /\ is_Some (rm_attribution rm)
  | None => accounted = false
  end.

Lemma same_operation_prepared op i j : prepared_for op i -> same_operation i j -> prepared_for op j.
Proof. destruct i, j; cbn; try done. by intros [-> Ha] ->. Qed.

Lemma prepare_wp c a f s :
  py_wp (prepare_invocation rm c a f) s (fun r s' => rt_log s' = rt_log s /\ rt_circuits s' = rt_circuits s
    /\ rt_scripts s' = rt_scripts s /\ forall p, r = Ok p -> prepared_for p.2 p.1).
Proof.
  unfold prepare_invocation. repeat py_wp_step. unfold accounted.
  destruct (reporter_required rm && _); [by apply py_wp_raise|].
  destruct (rm_attribution rm) as [at_|] eqn:Ha.
  - apply py_wp_ret. split_and!; [done..|]. by intros p [= <-].
  - destruct (has_reporter rm) eqn:Hh; [by apply py_wp_raise|]. apply py_wp_ret. split_and!; [done..|]. intros p [= <-].
    cbn. unfold accounted. by rewrite Hh.
Qed.

(** A call that touches neither log nor circuits nor scripts. *)
Definition frames (s s' : RT) : Prop :=
  rt_log s' = rt_log s /\ rt_circuits s' = rt_circuits s /\ rt_scripts s' = rt_scripts s.

Lemma reserve_wp i answer s : py_wp (reserve_feature_attempt rm i answer) s (fun _ s' => s' = s).
Proof.
  unfold reserve_feature_attempt, answered. destruct i as [i|]; [|by apply py_wp_ret].
  destruct (negb _); [by apply py_wp_ret|]. destruct (rm_slot rm) as [sl|]; [|by apply py_wp_ret].
  destruct (sl_reporter sl && _); [by destruct answer|]. by destruct (sl_required sl).
Qed.

Lemma report_wp op i u st finish k answer s :
  prepared_for op i -> usage_valid u ->
  py_wp (report_attempt rm i u st finish k answer) s (fun r s' =>
    exists l, rt_log s' = rt_log s ++ l /\ report_of op st l /\ rt_circuits s' = rt_circuits s
      /\ forall e, r = Err e -> reporter_error e /\ (e = UsageReporterUnavailableError -> accounted = false)).
Proof.
  intros Hp Hu. unfold report_attempt, report_of, reporter_error.
  destruct i as [i|]; cbn in Hp.
  - destruct Hp as [Hop [at_ Hat]]. unfold accounted. rewrite Hat. destruct (has_reporter rm) eqn:Hh; cbn.
    + repeat py_wp_step. cbn. match goal with |- py_wp _ ?s2 _ =>
        apply (py_wp_conseq _ s2 (fun r s' => s' = s2 /\ forall e, r = Err e -> e = ReporterRaised \/ e = CancelledError)) end.
      { unfold answered. destruct answer; (split; [done|]); intros e [= <-]; auto. }
      intros r s' [-> He]. cbn. eexists. split_and!; [done| |done|].
      * do 3 eexists. split_and!; done.
      * intros e Hr. apply He in Hr as [-> | ->]; (split; [auto|done]).
    + destruct (reporter_required rm).
      * apply py_wp_raise. exists []. rewrite app_nil_r. split_and!; [done..|]. intros e [= <-]. auto.
      * apply py_wp_ret. exists []. by rewrite app_nil_r.
  - rewrite Hp. apply py_wp_ret. exists []. by rewrite app_nil_r.
Qed.
Lemma delay_bound c a d random_ : delay c a d random_ <= Z.max 0 (mc_max_delay c).
Proof. unfold delay. destruct (retry_after d); [lia|]. destruct (mc_full_jitter c); lia. Qed.

Lemma retry_wp c f a d sc s :
  py_wp (retry_or_give_up c f a d sc) s (fun r s' =>
    exists sl, rt_log s' = rt_log s ++ sl /\ sleep_of c f sl /\ (r = Ok false \/ r = Err CancelledError)).
Proof.
  unfold retry_or_give_up, py_when. repeat py_wp_step. destruct (a <? _).
  - unfold sleep_before_retry. repeat py_wp_step. pose proof (delay_bound c a d (as_random sc)).
    destruct (as_sleep_cancelled sc); repeat py_wp_step; eexists; (split_and!; [done| |auto]); right; eauto.
  - repeat py_wp_step. exists []. rewrite app_nil_r. split_and!; [done|by left|auto].
Qed.

Lemma count_failure_wp c f d s (Q : result raised () -> RT -> Prop) :
  (forall s', rt_log s' = rt_log s -> Q (Ok ()) s') -> py_wp (count_failure c f d) s Q.
Proof. intros HQ. unfold count_failure, py_when. repeat py_wp_step. destruct (negb _); repeat py_wp_step; by apply HQ. Qed.

(** How an attempt whose provider failed ends. *)
Definition failed_end (c : ModelCandidate) (f : nat) (op : string) (replayable : bool) (l : list rt_event)
  (r : result raised bool) : Prop :=
  (exists n, l = [] /\ r = Err (ModelRaised (NormalizationFailed n)))
  \/ (exists st e, report_of op st l /\ st <> Succeeded /\ r = Err e)
  \/ (replayable = true /\ exists rep sl, l = rep ++ sl /\ report_of op Failed rep /\ sleep_of c f sl
        /\ (r = Ok false \/ r = Err CancelledError)).

Lemma failure_usage_valid op i x e u :
  acc_ok i x -> prepared_for op i ->
  (if bool_decide (source (partial_usage x) = SrcNone)
   then u ← usage_of_error text e; Ok (fill_response_id (ac_response_id x) u)
   else Ok (partial_usage x)) = Ok u -> usage_valid u.
Proof.
  intros Hx _. case_bool_decide; intros Hu.
  - result_run Hu. injection Hu as <-. apply fill_response_id_valid. destruct e; try (injection Hpart as <-; apply zero_usage_valid).
    by eapply error_canonical_usage_valid.
  - injection Hu as <-. by eapply finalize_valid.
Qed.

Lemma stream_failed_wp op i c f a sc e x s :
  acc_ok i x -> prepared_for op i -> (ac_answer x = true -> ac_visible x = true) ->
  py_wp (stream_failed text message_of rm c f a sc e x) s (fun r s' =>
    exists l, rt_log s' = rt_log s ++ l /\ failed_end c f op (negb (ac_answer x)) l r).
Proof.
  intros Hx Hp Hav. pose proof (same_operation_prepared _ _ _ Hp (ok_op _ _ Hx)) as Hpx. unfold stream_failed.
  apply py_wp_bind, count_failure_wp. intros s1 Hs1. rewrite <- Hs1.
  destruct (if bool_decide _ then _ else _) as [u|n] eqn:Hu.
  2: { apply py_wp_raise. exists []. rewrite app_nil_r. split; [done|]. left. eauto. }
  eapply failure_usage_valid in Hu; [|done..].
  destruct (ac_visible x && (ac_answer x || negb (retryable (classify_model_error text message_of e)))) eqn:Hvis.
  - apply py_wp_bind. eapply py_wp_conseq; [by apply report_wp|].
    intros r s' (l & Hl & Hr & _ & He). destruct r as [v|e']; [apply py_wp_raise|]; exists l; (split; [done|]); right; left; eauto.
  - apply py_wp_bind. eapply py_wp_conseq; [by apply report_wp|].
    intros r s' (l & Hl & Hr & _ & He). destruct r as [v|e']; [|exists l; split; [done|]; right; left; eauto].
    destruct (retryable (classify_model_error text message_of e)) eqn:Hret; cbn [negb].
    + eapply py_wp_conseq; [apply retry_wp|]. intros r s2 (sl & Hsl & Hslp & Hres). exists (l ++ sl).
      split; [by rewrite Hsl, Hl, app_assoc|]. right. right. split; [|eauto 6].
      destruct (ac_answer x); [|done]. cbn in Hvis. by rewrite Hav in Hvis.
    + apply py_wp_raise. exists l. split; [done|]. right. left. eauto.
Qed.

Lemma stream_cancelled_wp op i x answer s :
  acc_ok i x -> prepared_for op i ->
  py_wp (stream_cancelled rm x answer) s (fun r s' =>
    exists l e, rt_log s' = rt_log s ++ l /\ report_of op Cancelled l /\ r = Err e /\ reporter_error e).
Proof.
  intros Hx Hp. pose proof (same_operation_prepared _ _ _ Hp (ok_op _ _ Hx)) as Hpx. unfold stream_cancelled.
  apply py_wp_bind. eapply py_wp_conseq; [apply report_wp; [done|by eapply finalize_valid]|].
  intros r s' (l & Hl & Hr & _ & He). destruct r as [v|e].
  - apply py_wp_raise. exists l, CancelledError. split_and!; [done..|]. right. by left.
  - exists l, e. split_and!; [done..|]. by apply He.
Qed.

Lemma report_success_wp op i u finish answer s :
  prepared_for op i -> usage_valid u ->
  py_wp (report_success rm i u finish answer) s (fun r s' =>
    exists l, rt_log s' = rt_log s ++ l /\ report_of op Succeeded l /\ forall e, r = Err e -> accounted = false).
Proof.
  intros Hp Hu. pose proof (report_wp op i u Succeeded finish None answer s Hp Hu) as Hr. unfold py_wp, report_success in *.
  destruct (report_attempt rm i u Succeeded finish None answer s) as [[v|e] s']; cbn in *;
    destruct Hr as (l & Hl & Hrep & _ & He); [exists l; by split_and!|].
  destruct e; exists l; split_and!; try done; intros e' [= <-]; by apply (proj2 (He _ eq_refl)).
Qed.

Lemma failed_end_trace c f a op ys l r b :
  failed_end c f op b l r -> (b = true -> shows_answer ys = false) ->
  attempt_trace c f a (Attempted f a op :: (Yielded f a <$> ys) ++ l) r.
Proof.
  intros [(n & -> & ->)|[(st & e & Hr & Hst & ->)|(-> & rep & sl & -> & Hr & Hs & Hres)]] Hb.
  - rewrite app_nil_r. apply tr_unreported.
  - by eapply tr_stopped.
  - apply tr_retry; auto.
Qed.

Lemma stream_attempt_traced c f a s :
  py_wp (stream_attempt text message_of rm c f a) s (fun r s' =>
    exists l, rt_log s' = rt_log s ++ l /\ attempt_trace c f a l r).
Proof.
  unfold stream_attempt. apply py_wp_bind. unfold next_script, py_wp at 1. cbn [fst snd].
  apply py_wp_bind. eapply py_wp_conseq; [apply prepare_wp|]. intros r1 s1 (Hl1 & _ & _ & Hp1). cbn in Hl1.
  destruct r1 as [[inv op]|e]; [|exists []; rewrite app_nil_r; split; [done|apply tr_refused]].
  specialize (Hp1 _ eq_refl). cbn in Hp1. cbn [fst snd].
  apply py_wp_bind. eapply py_wp_conseq; [apply reserve_wp|]. intros r2 s2 ->.
  destruct r2 as [u|e]; [|exists []; rewrite app_nil_r; split; [done|apply tr_refused]].
  apply py_wp_bind, py_wp_modify, py_wp_bind, py_wp_gets, py_wp_bind. unfold py_wp at 1. cbn [fst snd].
  match goal with |- context [read_stream text c f a ?st ?rd ?s0 ?x0] =>
    pose proof (read_stream_trace c f a st rd s0 x0 inv (acc0_ok inv)) as Hread; cbn zeta in Hread;
    destruct (read_stream text c f a st rd s0 x0) as [[s3 x] ended] end.
  cbn [fst snd] in *. destruct Hread as (ys & Hl & _ & _ & Hx & Ha & Hv).
  assert (Hlog : rt_log s3 = rt_log s ++ (Attempted f a op :: (Yielded f a <$> ys))).
  { rewrite Hl. cbn. rewrite Hl1. by rewrite <- app_assoc. }
  assert (Hend : forall r s' l, rt_log s' = rt_log s3 ++ l -> attempt_trace c f a (Attempted f a op :: (Yielded f a <$> ys) ++ l) r ->
            exists l, rt_log s' = rt_log s ++ l /\ attempt_trace c f a l r).
  { intros r s' l Hs' Ht. eexists. split; [|exact Ht]. rewrite Hs', Hlog, <- app_assoc. done. }
  assert (Hfail : forall e, py_wp (stream_failed text message_of rm c f a (default silent_script (head (rt_scripts s))) e x) s3
            (fun r s' => exists l, rt_log s' = rt_log s ++ l /\ attempt_trace c f a l r)).
  { intros e. eapply py_wp_conseq; [apply (stream_failed_wp op inv); [done..|]|].
    - apply (ok_visible _ _ Hx).
    - intros r s' (l & Hs' & Hf). eapply Hend; [done|]. eapply failed_end_trace; [done|].
      intros Hna. destruct (shows_answer ys); [|done]. by rewrite Ha in Hna by auto. }
  destruct ended as [|e|]; cbn.
  - destruct (ac_received x); cbn; [|apply Hfail]. destruct (finish_reason_error c (ac_finish x)) as [[r k]|]; [apply Hfail|].
    apply py_wp_bind. eapply py_wp_conseq.
    { apply (report_success_wp op); [by eapply same_operation_prepared, Hx|by eapply finalize_valid]. }
    intros r s' (l & Hs' & Hr & He). destruct r as [res|e].
    + destruct res; [| |].
      1,2: apply py_wp_bind; unfold update_circuit; apply py_wp_modify, py_wp_ret; eapply Hend; [exact Hs'|]; by apply tr_done.
      eapply py_wp_conseq; [by apply (stream_cancelled_wp op inv)|].
      intros r2 s4 (l2 & e & Hs4 & Hr2 & -> & Hre). eapply Hend; [by rewrite Hs4, Hs', <- app_assoc|].
      apply tr_success_cancelled; auto.
    + eapply Hend; [exact Hs'|]. apply (tr_stopped _ _ _ _ _ Failed); [|done]. specialize (He _ eq_refl).
      unfold report_of in *. by rewrite He in *.
  - apply Hfail.
  - eapply py_wp_conseq; [by apply (stream_cancelled_wp op inv)|].
    intros r2 s4 (l2 & e & Hs4 & Hr2 & -> & Hre). eapply Hend; [exact Hs4|]. by eapply tr_stopped.
Qed.
(** ** The log of a call that answers at once *)

Lemma invoke_failed_wp op i c f a sc reported_ e s L :
  prepared_for op i -> (if reported_ : bool then report_of op Failed L else L = []) ->
  py_wp (invoke_failed text message_of rm c f a sc i reported_ e) s (fun r s' =>
    exists l, rt_log s' = rt_log s ++ l /\ failed_end c f op true (L ++ l) r).
Proof.
  intros Hp HL. unfold invoke_failed. apply py_wp_bind, count_failure_wp. intros s1 Hs1. rewrite <- Hs1. apply py_wp_bind.
  assert (Hafter : forall s2 l, report_of op Failed (L ++ l) -> rt_log s2 = rt_log s1 ++ l ->
    py_wp (if negb (retryable (classify_model_error text message_of e)) then py_raise (ModelRaised e)
           else retry_or_give_up c f a (classify_model_error text message_of e) sc) s2
      (fun r s' => exists l, rt_log s' = rt_log s1 ++ l /\ failed_end c f op true (L ++ l) r)).
  { intros s2 l Hrep Hl. destruct (negb _).
    - apply py_wp_raise. exists l. split; [done|]. right. left. eauto.
    - eapply py_wp_conseq; [apply retry_wp|]. intros r s3 (sl & Hsl & Hslp & Hr). exists (l ++ sl).
      split; [by rewrite Hsl, Hl, app_assoc|]. right. right. split; [done|]. exists (L ++ l), sl.
      by rewrite app_assoc. }
  destruct reported_.
  - apply py_wp_ret. apply (Hafter s1 []); by rewrite app_nil_r.
  - subst L. destruct (usage_of_error text e) as [u|n] eqn:Hu.
    + eapply py_wp_conseq; [apply (report_wp op); [done|]|].
      { destruct e; try (injection Hu as <-; apply zero_usage_valid). by eapply error_canonical_usage_valid. }
      intros r s2 (l & Hl & Hr & _ & He). destruct r as [v|e']; [by apply (Hafter s2 l)|].
      exists l. split; [done|]. right. left. eauto.
    + apply py_wp_raise. exists []. rewrite app_nil_r. split; [done|]. left. eauto.
Qed.

Lemma measure_response_ok op m i u j fin :
  prepared_for op i -> measure_response text m i = Ok (u, j, fin) -> usage_valid u /\ prepared_for op j.
Proof.
  intros Hp Hrun. unfold measure_response in Hrun. result_run Hrun. injection Hrun as <- <- _.
  split; [eapply fill_response_id_valid, response_canonical_usage_valid, Hpart|].
  unfold with_response_feature_usage in Hpart0. destruct i as [i|]; [|by injection Hpart0 as <-].
  result_run Hpart0. by injection Hpart0 as <-.
Qed.

Lemma invoke_attempt_traced c f a s :
  py_wp (invoke_attempt text message_of rm c f a) s (fun r s' =>
    exists l, rt_log s' = rt_log s ++ l /\ attempt_trace c f a l r).
Proof.
  unfold invoke_attempt. apply py_wp_bind. unfold next_script, py_wp at 1. cbn [fst snd].
  apply py_wp_bind. eapply py_wp_conseq; [apply prepare_wp|]. intros r1 s1 (Hl1 & _ & _ & Hp1). cbn in Hl1.
  destruct r1 as [[inv op]|e]; [|exists []; rewrite app_nil_r; split; [done|apply tr_refused]].
  specialize (Hp1 _ eq_refl). cbn in Hp1. cbn [fst snd].
  apply py_wp_bind. eapply py_wp_conseq; [apply reserve_wp|]. intros r2 s2 ->.
  destruct r2 as [u|e]; [|exists []; rewrite app_nil_r; split; [done|apply tr_refused]].
  apply py_wp_bind, py_wp_modify. set (sc := default silent_script (head (rt_scripts s))).
  set (Q := fun r s' => exists l, rt_log s' = rt_log s ++ l /\ attempt_trace c f a l r).
  assert (Hend : forall r s' l, rt_log s' = (rt_log s ++ [Attempted f a op]) ++ l ->
            attempt_trace c f a (Attempted f a op :: (Yielded f a <$> []) ++ l) r -> Q r s').
  { intros r s' l Hs' Ht. exists (Attempted f a op :: l). split; [by rewrite Hs', <- app_assoc|exact Ht]. }
  assert (Hfail : forall e s3, rt_log s3 = rt_log s ++ [Attempted f a op] ->
            py_wp (invoke_failed text message_of rm c f a sc inv false e) s3 Q).
  { intros e s3 Hs3. eapply py_wp_conseq; [by apply (invoke_failed_wp op _ _ _ _ _ false e s3 [])|].
    intros r s' (l & Hl & Hf). eapply Hend; [by rewrite Hl, Hs3|]. by eapply (failed_end_trace _ _ _ _ []). }
  assert (Hthen : forall i u fin k e s3, rt_log s3 = rt_log s ++ [Attempted f a op] -> prepared_for op i -> usage_valid u ->
            py_wp (report_then_fail text message_of rm c f a sc i u fin k e) s3 Q).
  { intros i u0 fin k e s3 Hs3 Hi Hu. unfold report_then_fail. apply py_wp_bind. eapply py_wp_conseq; [by apply report_wp|].
    intros r s4 (L & HL & Hr & _ & He). destruct r as [v|e'].
    - eapply py_wp_conseq; [by apply (invoke_failed_wp op _ _ _ _ _ true e s4 L)|].
      intros r s5 (l & Hl & Hf). eapply Hend; [by rewrite Hl, HL, Hs3, <- app_assoc|]. by eapply (failed_end_trace _ _ _ _ []).
    - eapply Hend; [by rewrite HL, Hs3|]. by eapply tr_stopped. }
  assert (Hrespond : forall raw bad s3, rt_log s3 = rt_log s ++ [Attempted f a op] ->
    py_wp (match measure_response text raw inv with
           | Err n => invoke_failed text message_of rm c f a sc inv false (NormalizationFailed n)
           | Ok (usage, invocation, finish) =>
               match finish_reason_error c finish with
               | Some (r, k) => report_then_fail text message_of rm c f a sc invocation usage finish k (ModelFinishReasonError r k)
               | None =>
                   if bad : bool then
                     report_then_fail text message_of rm c f a sc invocation usage finish "structured_output_parse_error" StructuredOutputParseError
                   else
                     reported ← report_success rm invocation usage finish (as_report sc);
                     match reported with
                     | CallCancelled => py_raise CancelledError
                     | _ => _ ← update_circuit f circuit_succeed; mret true
                     end
               end
           end) s3 Q).
  { intros raw bad s3 Hs3. destruct (measure_response text raw inv) as [[[usage j] fin]|n] eqn:Hm; [|by apply Hfail].
    destruct (measure_response_ok op _ _ _ _ _ Hp1 Hm) as [Hu Hj].
    destruct (finish_reason_error c fin) as [[r k]|]; [by apply Hthen|]. destruct bad; [by apply Hthen|].
    apply py_wp_bind. eapply py_wp_conseq; [by apply (report_success_wp op)|].
    intros r s4 (l & Hl & Hr & He). rewrite Hs3 in Hl. destruct r as [[| |]|e].
    1,2: apply py_wp_bind, py_wp_modify, py_wp_ret; eapply Hend; [exact Hl|]; by apply tr_done.
    - apply py_wp_raise. apply (Hend _ _ (l ++ [])); [by rewrite app_nil_r|]. apply tr_success_cancelled; [done|by left|].
      right. by left.
    - eapply Hend; [exact Hl|]. apply (tr_stopped _ _ _ _ _ Failed); [|done]. specialize (He _ eq_refl).
      unfold report_of in *. by rewrite He in *. }
  assert (Hbase : forall t, rt_log (set_now (add_log s1 (Attempted f a op)) t) = rt_log s ++ [Attempted f a op]) by (intros t; cbn; by rewrite Hl1).
  destruct (mc_total c <? as_invoke_delay sc).
  - apply py_wp_bind, py_wp_modify. apply Hfail, Hbase.
  - apply py_wp_bind, py_wp_modify. destruct (as_invoke sc) as [m|raw bad|e|].
    + apply (Hrespond m false), Hbase.
    + apply (Hrespond raw bad), Hbase.
    + apply Hfail, Hbase.
    + apply py_wp_bind. eapply py_wp_conseq; [apply (report_wp op); [done|apply zero_usage_valid]|].
      intros r s4 (l & Hl & Hr & _ & He). rewrite Hbase in Hl.
      destruct r as [v|e]; [apply py_wp_raise|]; (eapply Hend; [exact Hl|by eapply tr_stopped]).
Qed.

(** ** The log of a call *)

Inductive attempts_trace (c : ModelCandidate) (f : nat) : list Z -> list rt_event -> result raised bool -> Prop :=
| at_none : attempts_trace c f [] [] (Ok false)
| at_stop a rest l r : attempt_trace c f a l r -> r <> Ok false -> attempts_trace c f (a :: rest) l r
| at_next a rest l1 l2 r :
    attempt_trace c f a l1 (Ok false) -> attempts_trace c f rest l2 r -> attempts_trace c f (a :: rest) (l1 ++ l2) r.

Inductive candidates_trace : nat -> list ModelCandidate -> list rt_event -> result raised () -> Prop :=
| ct_none f : candidates_trace f [] [] (Err ModelRuntimeExhaustedError)
| ct_skip f c rest l r : candidates_trace (S f) rest l r -> candidates_trace f (c :: rest) l r
| ct_done f c rest l : attempts_trace c f (attempt_numbers c) l (Ok true) -> candidates_trace f (c :: rest) l (Ok ())
| ct_raise f c rest l e : attempts_trace c f (attempt_numbers c) l (Err e) -> candidates_trace f (c :: rest) l (Err e)
| ct_next f c rest l1 l2 r :
    attempts_trace c f (attempt_numbers c) l1 (Ok false) -> candidates_trace (S f) rest l2 r ->
    candidates_trace f (c :: rest) (l1 ++ l2) r.

Section traced.
Variable body : ModelCandidate -> nat -> Z -> Py RT raised bool.
Hypothesis body_traced : forall c f a s,
  py_wp (body c f a) s (fun r s' => exists l, rt_log s' = rt_log s ++ l /\ attempt_trace c f a l r).

Lemma attempts_traced c f nums s :
  py_wp (attempts (body c f) nums) s (fun r s' => exists l, rt_log s' = rt_log s ++ l /\ attempts_trace c f nums l r).
Proof.
  revert s. induction nums as [|a nums IH]; intros s; cbn.
  - apply py_wp_ret. exists []. rewrite app_nil_r. split; [done|constructor].
  - apply py_wp_bind. eapply py_wp_conseq; [apply body_traced|]. intros r s1 (l & Hl & Ht).
    destruct r as [[|]|e].
    + apply py_wp_ret. exists l. split; [done|]. by apply at_stop.
    + eapply py_wp_conseq; [apply IH|]. intros r s2 (l2 & Hl2 & Ht2). exists (l ++ l2).
      split; [by rewrite Hl2, Hl, app_assoc|]. by apply at_next.
    + exists l. split; [done|]. by apply at_stop.
Qed.

Lemma over_candidates_traced f cs s :
  py_wp (over_candidates body f cs) s (fun r s' => exists l, rt_log s' = rt_log s ++ l /\ candidates_trace f cs l r).
Proof.
  revert f s. induction cs as [|c cs IH]; intros f s; cbn.
  - apply py_wp_raise. exists []. rewrite app_nil_r. split; [done|constructor].
  - apply py_wp_bind, py_wp_gets. destruct (negb _).
    + eapply py_wp_conseq; [apply IH|]. intros r s' (l & Hl & Ht). exists l. split; [done|]. by apply ct_skip.
    + apply py_wp_bind. eapply py_wp_conseq; [apply attempts_traced|]. intros r s1 (l & Hl & Ht). destruct r as [[|]|e].
      * apply py_wp_ret. exists l. split; [done|]. by apply ct_done.
      * eapply py_wp_conseq; [apply IH|]. intros r s2 (l2 & Hl2 & Ht2). exists (l ++ l2).
        split; [by rewrite Hl2, Hl, app_assoc|]. by eapply ct_next.
      * exists l. split; [done|]. by apply ct_raise.
Qed.
End traced.

Lemma astream_traced s :
  exists l, rt_log (astream text message_of rm s).2 = rt_log s ++ l
    /\ candidates_trace 0 (rm_candidates rm) l (astream text message_of rm s).1.
Proof. apply (over_candidates_traced _ stream_attempt_traced 0 (rm_candidates rm) s). Qed.

Lemma ainvoke_structured_traced s :
  exists l, rt_log (ainvoke_structured text message_of rm s).2 = rt_log s ++ l
    /\ candidates_trace 0 (rm_candidates rm) l (ainvoke_structured text message_of rm s).1.
Proof. apply (over_candidates_traced _ invoke_attempt_traced 0 (rm_candidates rm) s). Qed.
End safety.
