(* ===== verification/ModelRuntimePromises.v ===== *)
(** * ModelRuntimePromises: what callers, accounting and operators can rely on

    Consequences of the language of logs ([ModelRuntimeSafety.candidates_trace]) for every call,
    streamed or not, and for every behaviour of providers, consumer, reporter and clock; the circuit
    breaker as a function of its history; and two ways a call counts against the wrong party. *)
From S2P Require Import Prelude PyText Json Usage ModelUsage ModelRuntime ModelRuntimeSafety.
Local Open Scope Z_scope.

(** ** Reading a log *)

Definition attempted (l : list rt_event) : list (nat * Z) :=
  omap (fun e => match e with Attempted f a _ => Some (f, a) | _ => None end) l.
Definition attempted_ops (l : list rt_event) : list string :=
  omap (fun e => match e with Attempted _ _ op => Some op | _ => None end) l.
Definition reports (l : list rt_event) : list (string * InvocationStatus) :=
  omap (fun e => match e with Reported i _ o => Some (operation_id i, oc_status o) | _ => None end) l.

Lemma attempted_app l k : attempted (l ++ k) = attempted l ++ attempted k.
Proof. apply omap_app. Qed.
Lemma attempted_ops_app l k : attempted_ops (l ++ k) = attempted_ops l ++ attempted_ops k.
Proof. apply omap_app. Qed.
Lemma reports_app l k : reports (l ++ k) = reports l ++ reports k.
Proof. apply omap_app. Qed.

Lemma attempted_yields f a ys : attempted (Yielded f a <$> ys) = [].
Proof. by induction ys. Qed.
Lemma attempted_ops_yields f a ys : attempted_ops (Yielded f a <$> ys) = [].
Proof. by induction ys. Qed.
Lemma reports_yields f a ys : reports (Yielded f a <$> ys) = [].
Proof. by induction ys. Qed.

(** An event that neither starts an attempt nor yields. *)
Definition after_stream (e : rt_event) : Prop :=
  match e with Reported _ u _ => usage_valid u | Slept _ _ => True | _ => False end.

(** [e] belongs to attempt [a] of candidate [f] and does not start it. *)
Definition within (f : nat) (a : Z) (e : rt_event) : Prop :=
  match e with Attempted _ _ _ => False | Yielded g b _ => g = f /\ b = a | _ => True end.

(** No yield of the log shows an answer. *)
Definition quiet (l : list rt_event) : Prop := forall f a m, Yielded f a m ∈ l -> answer_visible_chunk m = false.

Section promises.
Context `{Uuids} (text : json -> string) (message_of : norm_error -> string) (rm : ResilientChatModel).

(** A call of either kind: [astream], or [ainvoke] with structured output. *)
Definition call (structured : bool) : Py RT raised () :=
  if structured then ainvoke_structured text message_of rm else astream text message_of rm.

Lemma call_traced structured s :
  exists l, rt_log (call structured s).2 = rt_log s ++ l
    /\ candidates_trace rm 0 (rm_candidates rm) l (call structured s).1.
Proof. destruct structured; [apply ainvoke_structured_traced|apply astream_traced]. Qed.

(** ** One attempt *)

Lemma report_of_after op st l : report_of rm op st l -> Forall after_stream l.
Proof.
  unfold report_of. destruct (accounted rm); [|by intros ->]. intros (i & u & o & -> & _ & _ & Hu). by repeat constructor.
Qed.

Lemma sleep_of_after c f l : sleep_of c f l -> Forall after_stream l.
Proof. intros [->|(d & -> & _)]; by repeat constructor. Qed.

Lemma attempt_shape c f a l r :
  attempt_trace rm c f a l r ->
  l = [] \/ exists op ys tail, l = Attempted f a op :: (Yielded f a <$> ys) ++ tail /\ Forall after_stream tail.
Proof.
  intros [e|op ys rep Hr|op ys rep rep2 e Hr Hr2 _|op ys st rep e Hr _|op ys n|op ys rep sl r' _ Hr Hs _]; [by left|right..].
  - eexists op, ys, rep. split; [done|]. by eapply report_of_after.
  - eexists op, ys, (rep ++ rep2). split; [done|]. apply Forall_app. split; [by eapply report_of_after|].
    destruct Hr2 as [->|Hr2]; [done|by eapply report_of_after].
  - eexists op, ys, rep. split; [done|]. by eapply report_of_after.
  - eexists op, ys, []. by rewrite app_nil_r.
  - eexists op, ys, (rep ++ sl). split; [done|]. apply Forall_app. split; [by eapply report_of_after|by eapply sleep_of_after].
Qed.

Lemma shows_answer_false ys m : shows_answer ys = false -> m ∈ ys -> answer_visible_chunk m = false.
Proof. intros Hs Hm. by eapply existsb_false_elem in Hs. Qed.

Lemma attempt_quiet c f a l : attempt_trace rm c f a l (Ok false) -> quiet l.
Proof.
  intros Ht g b m Hin. remember (Ok false) as r0 eqn:Hr0.
  destruct Ht as [e|op ys rep Hr|op ys rep rep2 e Hr Hr2 He|op ys st rep e Hr Hst|op ys n|op ys rep sl r Hq Hr Hs Hres];
    try discriminate.
  apply elem_of_cons in Hin as [Hin|Hin]; [done|]. apply elem_of_app in Hin as [Hin|Hin].
  - apply list_elem_of_fmap in Hin as (n & [= -> -> ->] & Hn). by eapply shows_answer_false.
  - apply report_of_after in Hr. apply sleep_of_after in Hs. assert (Forall after_stream (rep ++ sl)) as Hall by (by apply Forall_app).
    by apply (proj1 (Forall_forall _ _) Hall) in Hin.
Qed.

Lemma attempt_within c f a l r : attempt_trace rm c f a l r -> forall e, e ∈ tail l -> within f a e.
Proof.
  intros [->|(op & ys & tl & -> & Htl)]%attempt_shape e Hin; cbn in Hin; [set_solver|].
  apply elem_of_app in Hin as [(m & -> & _)%list_elem_of_fmap|Hin]; [done|].
  apply (proj1 (Forall_forall _ _) Htl) in Hin. by destruct e.
Qed.

(** ** No replay *)

(** Whatever follows a visible answer belongs to the attempt that gave it. *)
Definition never_replayed (l : list rt_event) : Prop :=
  forall l1 f a m l2, l = l1 ++ Yielded f a m :: l2 -> answer_visible_chunk m = true -> Forall (within f a) l2.

Lemma never_replayed_attempt c f a l r : attempt_trace rm c f a l r -> never_replayed l.
Proof.
  intros Ht l1 g b m l2 -> _. pose proof (attempt_within _ _ _ _ _ Ht) as Hw.
  assert (Hy : within f a (Yielded g b m) /\ Forall (within f a) l2).
  { destruct l1 as [|e l1]; cbn in Hw.
    - apply attempt_shape in Ht as [?|(? & ? & ? & ? & _)]; discriminate.
    - split; [apply Hw; set_solver|]. apply Forall_forall. intros e' He'. apply Hw. set_solver. }
  by destruct Hy as [[-> ->] Hall].
Qed.

Lemma never_replayed_app l k : quiet l -> never_replayed k -> never_replayed (l ++ k).
Proof.
  intros Hq Hk l1 f a m l2 Heq Hm. apply app_eq_inv in Heq as [(l3 & -> & Heq)|(l3 & -> & Heq)].
  - destruct l3 as [|e l3]; cbn in Heq.
    + by eapply (Hk [] f a m l2).
    + injection Heq as <- ->. exfalso. rewrite (Hq f a m) in Hm by set_solver. done.
  - by eapply Hk.
Qed.

Lemma attempts_replay c f nums l r :
  attempts_trace rm c f nums l r -> never_replayed l /\ (r = Ok false -> quiet l).
Proof.
  induction 1 as [|a rest l r Ht Hr|a rest l1 l2 r Ht _ [IH1 IH2]].
  - split; [intros l1 f' a m l2 Heq; by destruct l1|]. intros _ f' a m Hin. by apply elem_of_nil in Hin.
  - split; [by eapply never_replayed_attempt|done].
  - apply attempt_quiet in Ht. split; [by apply never_replayed_app|]. intros Hr f' a' m [Hin|Hin]%elem_of_app; [by eapply Ht|].
    by eapply (IH2 Hr).
Qed.

(** C1: once an attempt has yielded answer text or a tool call, the call starts no other attempt, with this
    or any other candidate, and yields nothing that is not of this attempt: a caller never sees an
    answer twice. *)
Theorem answer_never_replayed structured s :
  exists l, rt_log (call structured s).2 = rt_log s ++ l /\ never_replayed l.
Proof.
  destruct (call_traced structured s) as (l & Hl & Ht). exists l. split; [done|]. clear Hl.
  induction Ht as [f|f c rest l r Ht IH|f c rest l Ht|f c rest l e Ht|f c rest l1 l2 r Ht1 Ht2 IH]; [|done|..].
  - intros l1 f' a m l2 Heq. by destruct l1.
  - by apply attempts_replay in Ht as [? _].
  - by apply attempts_replay in Ht as [? _].
  - apply attempts_replay in Ht1 as [_ Hq]. apply never_replayed_app; auto.
Qed.
(** ** Accounting *)

Definition valid_reports (l : list rt_event) : Prop := forall i u o, Reported i u o ∈ l -> usage_valid u.

Lemma attempt_valid c f a l r : attempt_trace rm c f a l r -> valid_reports l.
Proof.
  intros [->|(op & ys & tl & -> & Htl)]%attempt_shape i u o Hin; [by apply elem_of_nil in Hin|].
  apply elem_of_cons in Hin as [?|Hin]; [done|].
  apply elem_of_app in Hin as [(m & ? & _)%list_elem_of_fmap|Hin]; [done|].
  by apply (proj1 (Forall_forall _ _) Htl) in Hin.
Qed.

(** The attempts a call ends with, how they are reported, and what the call answers. *)
Inductive last_attempt : list string -> list (string * InvocationStatus) -> result raised () -> Prop :=
| la_complete op : last_attempt [op] [(op, Succeeded)] (Ok ())
| la_none e : last_attempt [] [] (Err e)
| la_stopped op st e : st <> Succeeded -> last_attempt [op] [(op, st)] (Err e)
| la_cancelled_late op rest e :
    rest = [] \/ rest = [(op, Cancelled)] -> reporter_error e -> last_attempt [op] ((op, Succeeded) :: rest) (Err e)
| la_unreported op n : last_attempt [op] [] (Err (ModelRaised (NormalizationFailed n))).

Definition failed (op : string) : string * InvocationStatus := (op, Failed).

(** All attempts of [l] failed and were reported as such. *)
Definition all_failed (l : list rt_event) : Prop := reports l = failed <$> attempted_ops l.

Definition closes_with (l : list rt_event) (r : result raised ()) : Prop :=
  exists ops last reps, attempted_ops l = ops ++ last /\ reports l = (failed <$> ops) ++ reps /\ last_attempt last reps r.

Definition as_call (r : result raised bool) : result raised () :=
  match r with Ok _ => Ok () | Err e => Err e end.

Lemma report_of_reports op st l :
  accounted rm = true -> report_of rm op st l -> attempted_ops l = [] /\ reports l = [(op, st)].
Proof. intros Ha. unfold report_of. rewrite Ha. by intros (i & u & o & -> & <- & <- & _). Qed.

Lemma sleep_of_reports c f l : sleep_of c f l -> attempted_ops l = [] /\ reports l = [].
Proof. by intros [->|(d & -> & _)]. Qed.

Lemma attempt_accounted c f a l r :
  accounted rm = true -> attempt_trace rm c f a l r ->
  (r = Ok false -> all_failed l) /\ (r <> Ok false -> closes_with l (as_call r)).
Proof.
  intros Ha [e|op ys rep Hr|op ys rep rep2 e Hr Hr2 He|op ys st rep e Hr Hst|op ys n|op ys rep sl r' Hq Hr Hs Hres];
    try (apply (report_of_reports _ _ _ Ha) in Hr as [Ho Hrep]); (split; [intros Hf|intros Hnf]); try done;
    unfold all_failed, closes_with; cbn; rewrite ?attempted_ops_app, ?reports_app, ?attempted_ops_yields, ?reports_yields,
      ?Ho, ?Hrep; cbn.
  - exists [], [], []. split_and!; [done..|constructor].
  - exists [], [op], [(op, Succeeded)]. split_and!; [done..|constructor].
  - destruct Hr2 as [->|Hr2].
    + exists [], [op], [(op, Succeeded)]. split_and!; [done..|]. apply la_cancelled_late; auto.
    + apply (report_of_reports _ _ _ Ha) in Hr2 as [-> ->]. exists [], [op], [(op, Succeeded); (op, Cancelled)].
      split_and!; [done..|]. apply la_cancelled_late; auto.
  - exists [], [op], [(op, st)]. split_and!; [done..|]. by constructor.
  - exists [], [op], []. split_and!; [done..|constructor].
  - by apply sleep_of_reports in Hs as [-> ->].
  - apply sleep_of_reports in Hs as [-> ->]. destruct Hres as [->| ->]; [done|]. exists [op], [], [].
    split_and!; [done..|constructor].
Qed.

Lemma closes_with_app l k r : all_failed l -> closes_with k r -> closes_with (l ++ k) r.
Proof.
  intros Hl (ops & last & reps & Ho & Hr & Hla). exists (attempted_ops l ++ ops), last, reps.
  rewrite attempted_ops_app, reports_app, Ho, Hr, fmap_app, Hl, !app_assoc. done.
Qed.

Lemma all_failed_app l k : all_failed l -> all_failed k -> all_failed (l ++ k).
Proof. unfold all_failed. intros Hl Hk. by rewrite reports_app, attempted_ops_app, fmap_app, Hl, Hk. Qed.

Lemma attempts_accounted c f nums l r :
  accounted rm = true -> attempts_trace rm c f nums l r ->
  (r = Ok false -> all_failed l) /\ (r <> Ok false -> closes_with l (as_call r)).
Proof.
  intros Ha. induction 1 as [|a rest l r Ht Hr|a rest l1 l2 r Ht _ [IH1 IH2]]; [done|by eapply attempt_accounted|].
  apply (attempt_accounted _ _ _ _ _ Ha) in Ht as [Hf _]. specialize (Hf eq_refl).
  split; intros Hr; [apply all_failed_app|apply closes_with_app]; auto.
Qed.

Lemma candidates_valid f cs l r : candidates_trace rm f cs l r -> valid_reports l.
Proof.
  assert (Happ : forall l k, valid_reports l -> valid_reports k -> valid_reports (l ++ k)).
  { intros l1 l2 H1 H2 i u o [Hin|Hin]%elem_of_app; eauto. }
  assert (Hatt : forall c f nums l r, attempts_trace rm c f nums l r -> valid_reports l).
  { induction 1; [intros i u o Hin; by apply elem_of_nil in Hin|by eapply attempt_valid|apply Happ; [by eapply attempt_valid|done]]. }
  induction 1; [intros i u o Hin; by apply elem_of_nil in Hin|done|by eapply Hatt..|apply Happ; [by eapply Hatt|done]].
Qed.

(** C2: when usage is accounted for, each attempt of a call is reported with its own operation, in order
    and with a valid usage: all but the last as failed, the last as succeeded exactly when the call
    returns; it is reported twice only when the call is cancelled while its success is being
    reported, and not at all only when the usage in its error is malformed. *)
Theorem attempts_reported_once structured s :
  accounted rm = true ->
  exists l, rt_log (call structured s).2 = rt_log s ++ l /\ valid_reports l /\ closes_with l (call structured s).1.
Proof.
  intros Ha. destruct (call_traced structured s) as (l & Hl & Ht). exists l. split_and!; [done|by eapply candidates_valid|].
  clear Hl. induction Ht as [f|f c rest l r Ht IH|f c rest l Ht|f c rest l e Ht|f c rest l1 l2 r Ht1 Ht2 IH].
  - exists [], [], []. split_and!; [done..|constructor].
  - done.
  - by apply (attempts_accounted _ _ _ _ _ Ha) in Ht as [_ Hc]; apply Hc.
  - by apply (attempts_accounted _ _ _ _ _ Ha) in Ht as [_ Hc]; apply Hc.
  - apply (attempts_accounted _ _ _ _ _ Ha) in Ht1 as [Hf _]. apply closes_with_app; auto.
Qed.

(** ** Bounds *)

(** The first [k] attempts of candidate [i]. *)
Definition first_attempts (ik : nat * nat) : list (nat * Z) := (fun a => (ik.1, Z.of_nat a)) <$> seq 1 ik.2.

(** A plan of attempts: some of the candidates from [f] on, in order, each with its first attempts. *)
Inductive plan_from : nat -> list ModelCandidate -> list (nat * nat) -> Prop :=
| plan_nil f cs : plan_from f cs []
| plan_skip f c cs p : plan_from (S f) cs p -> plan_from f (c :: cs) p
| plan_take f c cs k p : (k <= mc_max_attempts c)%nat -> plan_from (S f) cs p -> plan_from f (c :: cs) ((f, k) :: p).

Definition sleeps_within (f : nat) (cs : list ModelCandidate) (l : list rt_event) : Prop :=
  forall g d, Slept g d ∈ l -> exists i c, g = (f + i)%nat /\ cs !! i = Some c /\ d <= Z.max 0 (mc_max_delay c).

Lemma report_of_no_sleep op st l g d : report_of rm op st l -> Slept g d ∉ l.
Proof.
  unfold report_of. destruct (accounted rm); [intros (i & u & o & -> & _)|intros ->]; [|apply not_elem_of_nil].
  by rewrite list_elem_of_singleton.
Qed.

Lemma slept_in_tail f a op ys l g d : Slept g d ∈ Attempted f a op :: (Yielded f a <$> ys) ++ l -> Slept g d ∈ l.
Proof.
  intros [Hin|Hin]%elem_of_cons; [done|]. by apply elem_of_app in Hin as [(m & ? & _)%list_elem_of_fmap|Hin].
Qed.

Lemma attempt_bounds c f a l r :
  attempt_trace rm c f a l r ->
  (attempted l = [(f, a)] \/ attempted l = [] /\ r <> Ok false)
  /\ (forall g d, Slept g d ∈ l -> g = f /\ d <= Z.max 0 (mc_max_delay c)).
Proof.
  intros Ht. pose proof (attempt_shape _ _ _ _ _ Ht) as [->|(op & ys & tl & Heq & Htl)].
  - split; [|intros g d Hin; by apply elem_of_nil in Hin]. right. split; [done|]. intros ->. inversion Ht.
  - split.
    + left. rewrite Heq. cbn. rewrite attempted_app, attempted_yields. cbn. f_equal.
      clear -Htl. induction Htl as [|e tl He _ IH]; [done|]. by destruct e.
    + intros g d Hin. clear Heq Htl.
      destruct Ht as [e|op' ys' rep Hr|op' ys' rep rep2 e Hr Hr2 He|op' ys' st rep e Hr Hst|op' ys' n|op' ys' rep sl r' Hq Hr Hs Hres];
        [by apply elem_of_nil in Hin|try apply slept_in_tail in Hin..].
      * by apply (report_of_no_sleep _ _ _ g d) in Hr.
      * apply elem_of_app in Hin as [Hin|Hin]; [by apply (report_of_no_sleep _ _ _ g d) in Hr|].
        destruct Hr2 as [->|Hr2]; [by apply elem_of_nil in Hin|by apply (report_of_no_sleep _ _ _ g d) in Hr2].
      * by apply (report_of_no_sleep _ _ _ g d) in Hr.
      * rewrite <- (app_nil_r (Yielded f a <$> ys')) in Hin. apply slept_in_tail in Hin. by apply elem_of_nil in Hin.
      * apply elem_of_app in Hin as [Hin|Hin]; [by apply (report_of_no_sleep _ _ _ g d) in Hr|].
        destruct Hs as [->|(d' & -> & Hd)]; [by apply elem_of_nil in Hin|].
        apply list_elem_of_singleton in Hin. by injection Hin as -> ->.
Qed.

Lemma attempts_bounds c f nums l r :
  attempts_trace rm c f nums l r ->
  (exists k, (k <= length nums)%nat /\ attempted l = pair f <$> take k nums)
  /\ (forall g d, Slept g d ∈ l -> g = f /\ d <= Z.max 0 (mc_max_delay c)).
Proof.
  induction 1 as [|a rest l r Ht Hr|a rest l1 l2 r Ht _ [(k & Hk & Hat) IH]].
  - split; [by exists 0%nat|]. intros g d Hin. by apply elem_of_nil in Hin.
  - apply attempt_bounds in Ht as [[Hat|[Hat _]] Hs]; (split; [|done]).
    + exists 1%nat. cbn. rewrite take_0. split; [lia|done].
    + exists 0%nat. split; [lia|done].
  - apply attempt_bounds in Ht as [[Hat1|[_ Hn]] Hs]; [|done]. split.
    + exists (S k). cbn. split; [lia|]. by rewrite attempted_app, Hat1, Hat.
    + intros g d [Hin|Hin]%elem_of_app; eauto.
Qed.

Lemma take_attempt_numbers c f k : (k <= mc_max_attempts c)%nat ->
  pair f <$> take k (attempt_numbers c) = first_attempts (f, k).
Proof.
  intros Hk. unfold attempt_numbers, first_attempts. rewrite <- fmap_take, take_seq, Nat.min_l by done.
  by rewrite <- list_fmap_compose.
Qed.

Lemma candidates_bounds f cs l r :
  candidates_trace rm f cs l r ->
  (exists p, plan_from f cs p /\ attempted l = p ≫= first_attempts) /\ sleeps_within f cs l.
Proof.
  assert (Hshift : forall f c cs l, sleeps_within (S f) cs l -> sleeps_within f (c :: cs) l).
  { intros g c0 cs0 l0 Hs h d Hin. destruct (Hs h d Hin) as (i & c1 & -> & Hc & Hd). exists (S i), c1. split_and!; [lia|done|done]. }
  assert (Hone : forall f c cs l r, attempts_trace rm c f (attempt_numbers c) l r ->
    (exists k, (k <= mc_max_attempts c)%nat /\ attempted l = first_attempts (f, k)) /\ sleeps_within f (c :: cs) l).
  { intros g c0 cs0 l0 r0 [(k & Hk & Hat) Hs]%attempts_bounds. unfold attempt_numbers in Hk. rewrite length_fmap, length_seq in Hk.
    split.
    - exists k. split; [done|]. by rewrite Hat, take_attempt_numbers.
    - intros h d Hin. destruct (Hs h d Hin) as [-> Hd]. exists 0%nat, c0. split_and!; [lia|done|done]. }
  induction 1 as [f|f c rest l r Ht [(p & Hp & Hat) IH]|f c rest l Ht|f c rest l e Ht|f c rest l1 l2 r Ht1 Ht2 [(p & Hp & Hat) IH]].
  - split; [by exists []; split; [constructor|]|]. intros g d Hin. by apply elem_of_nil in Hin.
  - split; [exists p; by split; [constructor|]|by apply Hshift].
  - destruct (Hone f c rest l _ Ht) as [(k & Hk & Hat) Hs]. split; [|done]. exists [(f, k)].
    split; [by repeat constructor|]. cbn. by rewrite app_nil_r.
  - destruct (Hone f c rest l _ Ht) as [(k & Hk & Hat) Hs]. split; [|done]. exists [(f, k)].
    split; [by repeat constructor|]. cbn. by rewrite app_nil_r.
  - destruct (Hone f c rest l1 _ Ht1) as [(k & Hk & Hat1) Hs]. split.
    + exists ((f, k) :: p). split; [by constructor|]. by rewrite attempted_app, Hat1, Hat.
    + intros g d [Hin|Hin]%elem_of_app; [by apply Hs|by apply (Hshift _ _ _ _ IH)].
Qed.

Lemma plan_length f cs p : plan_from f cs p ->
  (length (p ≫= first_attempts) <= sum_list (mc_max_attempts <$> cs))%nat.
Proof.
  induction 1 as [|f c cs p _ IH|f c cs k p Hk _ IH]; [cbn; lia|cbn -[first_attempts]; lia|].
  rewrite bind_cons, length_app, fmap_cons. unfold first_attempts at 1. rewrite length_fmap, length_seq. cbn [fst snd].
  change (sum_list (mc_max_attempts c :: (mc_max_attempts <$> cs)))
    with (mc_max_attempts c + sum_list (mc_max_attempts <$> cs))%nat. lia.
Qed.

(** The attempts of a call are the first attempts of some of the candidates, in the order of the
    candidates and numbered from 1, at most [max_attempts] of each and so at most their sum; and
    no sleep between two attempts is longer than the [max_delay] of the candidate. *)
Lemma attempts_within_policy structured s :
  exists l, rt_log (call structured s).2 = rt_log s ++ l
    /\ (exists p, plan_from 0 (rm_candidates rm) p /\ attempted l = p ≫= first_attempts)
    /\ (length (attempted l) <= sum_list (mc_max_attempts <$> rm_candidates rm))%nat
    /\ sleeps_within 0 (rm_candidates rm) l.
Proof.
  destruct (call_traced structured s) as (l & Hl & Ht). exists l. apply candidates_bounds in Ht as [(p & Hp & Hat) Hs].
  split_and!; [done|eauto| |done]. rewrite Hat. by eapply plan_length.
Qed.
(** ** The circuit breaker *)

Inductive circuit_outcome := Failure (at_ : Z) | Success.

Definition circuit_step (p : CircuitBreakerPolicy) (c : CircuitState) (o : circuit_outcome) : CircuitState :=
  match o with Failure t => circuit_fail p t c | Success => circuit_succeed c end.
Definition circuit_after (p : CircuitBreakerPolicy) (h : list circuit_outcome) : CircuitState :=
  fold_left (circuit_step p) h closed_circuit.

(** The times of the failures since the last success, newest first, of a history read backwards. *)
Fixpoint recent_failures (h : list circuit_outcome) : list Z :=
  match h with Failure t :: h' => t :: recent_failures h' | _ => [] end.

Lemma circuit_after_snoc p h o : circuit_after p (h ++ [o]) = circuit_step p (circuit_after p h) o.
Proof. unfold circuit_after. by rewrite fold_left_app. Qed.

Lemma circuit_after_spec p h :
  let fs := recent_failures (rev h) in
  failures (circuit_after p h) = Z.of_nat (length fs)
  /\ (1 <= failure_threshold p ->
      open_until (circuit_after p h)
      = match fs with
        | t :: _ => if failure_threshold p <=? Z.of_nat (length fs) then t + cooldown p else 0
        | [] => 0
        end).
Proof.
  induction h as [|o h [IH1 IH2]] using rev_ind; [by split|]. rewrite circuit_after_snoc, rev_app_distr. cbn -[Z.of_nat].
  destruct o as [t|]; cbn -[Z.of_nat]; [|by split]. rewrite IH1. split; [lia|]. intros Hp. rewrite (IH2 Hp).
  replace (Z.of_nat (length (recent_failures (rev h))) + 1) with (Z.of_nat (S (length (recent_failures (rev h))))) by lia.
  destruct (failure_threshold p <=? Z.of_nat (S (length (recent_failures (rev h))))) eqn:Hle; [done|].
  destruct (recent_failures (rev h)) as [|t' fs]; [done|]. cbn -[Z.of_nat].
  destruct (failure_threshold p <=? Z.of_nat (S (length fs))) eqn:Hle'; [|done].
  exfalso. apply Z.leb_le in Hle'. apply Z.leb_gt in Hle. rewrite length_cons in Hle. lia.
Qed.

(** C38: the breaker of a candidate is a function of the outcomes of all calls that share it, in
    whatever order they came: it refuses a candidate exactly when at least [failure_threshold] attempts
    failed since the last success and the last of them is less than [cooldown] ago; and while the
    breakers of all candidates refuse, a call makes no attempt and changes nothing. *)
Theorem circuit_breaker_is_its_history p h now_ :
  1 <= failure_threshold p -> 0 <= now_ ->
  (circuit_available now_ (circuit_after p h) = false <->
     exists t fs, recent_failures (rev h) = t :: fs
       /\ failure_threshold p <= Z.of_nat (length (t :: fs)) /\ now_ < t + cooldown p)
  /\ (forall structured s,
        (forall i c, rm_candidates rm !! i = Some c ->
           exists cs, rt_circuits s !! i = Some cs /\ circuit_available (rt_now s) cs = false) ->
        call structured s = (Err ModelRuntimeExhaustedError, s)).
Proof.
  intros Hp Hnow. split.
  - destruct (circuit_after_spec p h) as [_ Ho]. unfold circuit_available. rewrite (Ho Hp), Z.leb_gt.
    destruct (recent_failures (rev h)) as [|t fs].
    + split; [lia|]. by intros (t & fs & ? & _).
    + destruct (failure_threshold p <=? _) eqn:Hle.
      * split; [intros; exists t, fs; split_and!; [done|lia..]|]. by intros (t' & fs' & [= -> ->] & _ & Hlt).
      * split; [lia|]. intros (t' & fs' & [= -> ->] & Hge & _). lia.
  - intros structured s Hopen.
    assert (Hall : forall body f cs, (forall i c, cs !! i = Some c ->
              exists st, rt_circuits s !! (f + i)%nat = Some st /\ circuit_available (rt_now s) st = false) ->
            over_candidates body f cs s = (Err ModelRuntimeExhaustedError, s)).
    { intros body f cs. revert f. induction cs as [|c cs IH]; intros f Hcs; [done|]. cbn. unfold mbind, py_bind, py_gets.
      destruct (Hcs 0%nat c eq_refl) as (st & Hst & Hav). rewrite Nat.add_0_r in Hst. rewrite Hst. cbn. rewrite Hav. cbn.
      apply IH. intros i c' Hi. destruct (Hcs (S i) c' Hi) as (st' & Hst' & Hav'). exists st'. by rewrite Nat.add_succ_r in Hst'. }
    unfold call. destruct structured; by apply Hall.
Qed.

(** ** Counting against the wrong party *)

(** A chunk of text without metadata. *)
Definition text_chunk : Message :=
  {| ms_is_chunk := true; ms_content := true; ms_tool_calls := false; ms_usage_metadata := JNull;
     ms_response_metadata := []; ms_additional_kwargs := [] |}.

Lemma measure_text_chunk x :
  measure_chunk text text_chunk x
  = Ok (text_chunk, None, acc_measured (ac_latest x) (ac_delta x) (ac_response_id x) (ac_finish x) (ac_invocation x) x).
Proof.
  destruct x as [? ? ? ? ? ? ? ? ? [[? ? ? ? ? ? [v i c l]]|]]; [|done]. by unfold measure_chunk.
Qed.

Lemma closing_is_unknown : classify_model_error text message_of GeneratorExit = decision false "upstream_unknown".
Proof. by vm_compute. Qed.

Lemma reserve_nothing i r s : has_features (feature_usage i) = false -> reserve_feature_attempt rm (Some i) r s = (Ok (), s).
Proof. intros Hi. unfold reserve_feature_attempt. by rewrite Hi. Qed.

(** What is read of a stream whose consumer closes it at the first text. *)
Lemma read_closed c f a s i wait :
  0 <= wait <= mc_first_token c -> wait <= mc_total c -> 0 < mc_total c ->
  exists x, read_stream text c f a (rt_now s) [{| rd_delay := wait; rd_item := RChunk text_chunk Closes |}] s (acc0 i)
    = (add_log (set_now s (rt_now s + wait)) (Yielded f a text_chunk), x, LError GeneratorExit)
    /\ ac_visible x = true /\ ac_answer x = true /\ ac_invocation x = i /\ source (partial_usage x) = SrcNone.
Proof.
  intros Hw Ht Htot. cbn [read_stream]. cbn [ac_drain acc0]. destruct (_ <=? 0) eqn:Hz; [apply Z.leb_le in Hz; lia|].
  cbn [rd_delay rd_item ac_first acc0]. destruct (_ <? wait) eqn:Hz2; [apply Z.ltb_lt in Hz2; lia|].
  rewrite measure_text_chunk. rewrite Z.max_r by lia. by eexists.
Qed.

(** A consumer that closes the stream after its first text counts against the candidate: the
    [GeneratorExit] is caught with every other error, so the breaker of the candidate records a failure
    although the provider did nothing wrong, the attempt is reported as interrupted by an unknown
    upstream error, and what leaves the generator is [StreamInterruptedError]. *)
Lemma closing_counts_as_failure c f a s sc rest cs wait :
  accounted rm = true -> rt_scripts s = sc :: rest ->
  as_reads sc = [{| rd_delay := wait; rd_item := RChunk text_chunk Closes |}] -> as_report sc = CallOk ->
  has_features (attempt_features rm c) = false ->
  0 <= wait <= mc_first_token c -> wait <= mc_total c -> 0 < mc_total c ->
  rt_circuits s !! f = Some cs ->
  let t := rt_now s + wait in
  exists s' op i u o,
    stream_attempt text message_of rm c f a s = (Err StreamInterruptedError, s')
    /\ rt_circuits s' !! f = Some (circuit_fail (mc_breaker c) t cs)
    /\ rt_log s' = rt_log s ++ [Attempted f a op; Yielded f a text_chunk; Reported i u o]
    /\ oc_status o = Interrupted /\ error_kind o = Some "upstream_unknown".
Proof.
  intros Ha Hsc Hreads Hrep Hf Hw Ht Htot Hcs t.
  unfold accounted in Ha. apply andb_true_iff in Ha as [Hr Hat]. destruct (rm_attribution rm) as [at_|] eqn:Hattr; [|done].
  unfold stream_attempt, mbind, py_bind, next_script. rewrite Hsc. cbn [head default tail].
  unfold prepare_invocation, mbind, py_bind, runtime_uuid, py_gets.
  cbn -[reserve_feature_attempt read_stream stream_failed].
  rewrite Hr, andb_false_r, Hattr, Hreads. cbn -[reserve_feature_attempt read_stream stream_failed].
  rewrite reserve_nothing by done. cbn -[read_stream stream_failed].
  match goal with |- context [read_stream _ _ _ _ _ _ ?s1 (acc0 ?i)] =>
    destruct (read_closed c f a s1 i wait Hw Ht Htot) as (x & Heq & Hvis & Hans & Hinv & Hsrc) end.
  cbn -[read_stream] in Heq. rewrite Heq. cbn -[stream_failed]. unfold stream_failed, mbind, py_bind.
  rewrite closing_is_unknown. cbn -[partial_usage].
  rewrite Hsrc, Hvis, Hans, Hinv. cbn. unfold report_attempt, mbind, py_bind. rewrite Hr, Hrep. cbn.
  eexists _, _, _, _, _. split; [done|]. cbn. rewrite list_lookup_alter_eq, Hcs. cbn.
  split; [done|]. split; [by rewrite <- !app_assoc|by split].
Qed.
End promises.

(** ** A world *)

Module RuntimeExample.
#[local] Instance runtime_uuids : Uuids := {| uuid4 n := "op" +:+ pretty n; uuid5_url s := s |}.

Definition no_text (v : json) : string := "".
Definition message_of (e : norm_error) : string := "invalid usage".

Definition model_candidate (name : string) : ModelCandidate :=
  {| mc_preset_name := name; mc_provider_name := "provider"; mc_model_id := name; mc_pricing_key := None;
     mc_context_window_tokens := 128000; mc_max_output_tokens := 4096; mc_forced_search := false;
     mc_total := 60000000; mc_first_token := 20000000; mc_stream_idle := 10000000; mc_max_attempts := 2;
     mc_base_delay := 500000; mc_max_delay := 8000000; mc_full_jitter := false;
     mc_breaker := {| failure_threshold := 2; cooldown := 30000000 |}; mc_error_finish_reasons := [] |}.

Definition main := model_candidate "main".
Definition spare := model_candidate "spare".

Definition model : ResilientChatModel :=
  {| rm_candidates := [main; spare]; rm_model_profile := Some "default"; rm_route := None;
     rm_slot := Some {| sl_required := true; sl_reporter := true; sl_can_reserve := true |};
     rm_attribution := Some {| ua_request_id := "r"; ua_user_id := "u"; ua_workspace_id := None; ua_conversation_id := None;
                               ua_turn_id := Some "t"; ua_reservation_id := None; ua_worker_id := None;
                               ua_parent_operation_id := None; ua_purpose := PCoordinator |};
     rm_features := {| visual_input_tokens := 0; image_units := 0; search_calls := 0; link_pages := 0 |} |}.

Definition script (reads : list stream_read) : attempt_script :=
  {| as_reserve := CallOk; as_reads := reads; as_invoke_delay := 0; as_invoke := IResponse text_chunk; as_report := CallOk;
     as_report_again := CallOk; as_random := 0; as_sleep_cancelled := false |}.
Definition provider_failure (status : Z) (body : option json) : model_error :=
  ProviderError {| pf_status := Some status; pf_code := ""; pf_message := "no"; pf_body := body; pf_retry_after := None |}.
Definition fails (status : Z) (body : option json) : attempt_script :=
  script [{| rd_delay := 1000; rd_item := RRaise (provider_failure status body) |}].
Definition answers : attempt_script :=
  script [{| rd_delay := 1000; rd_item := RChunk text_chunk (Resumes 10) |}; {| rd_delay := 1000; rd_item := RStop |}].
Definition closed : attempt_script := script [{| rd_delay := 1000; rd_item := RChunk text_chunk Closes |}].

Definition world (scripts : list attempt_script) : RT :=
  {| rt_now := 0; rt_circuits := [closed_circuit; closed_circuit]; rt_log := []; rt_scripts := scripts; rt_next_uuid := 0 |}.

Definition run (scripts : list attempt_script) : result raised () * RT := astream no_text message_of model (world scripts).

(** Two overloads of the first candidate, then an answer of the second; the breaker of the first opens. *)
Example fails_over :
  let '(r, s) := run [fails 503 None; fails 503 None; answers] in
  r = Ok () /\ attempted (rt_log s) = [(0%nat, 1); (0%nat, 2); (1%nat, 1)]
  /\ reports (rt_log s) = [("op0", Failed); ("op1", Failed); ("op2", Succeeded)]
  /\ rt_circuits s = [{| failures := 2; open_until := 30502000 |}; closed_circuit].
Proof. vm_compute. by split_and!. Qed.

(** A negative count in the usage of an error that would be retried ends the call: no report, no retry,
    no other candidate. *)
Definition malformed_usage : json := JObj [("usage", JObj [("input_tokens", JNum (-1))])].
Example malformed_usage_ends_the_call :
  let '(r, s) := run [fails 503 (Some malformed_usage); answers; answers] in
  (exists n, r = Err (ModelRaised (NormalizationFailed n))) /\ attempted (rt_log s) = [(0%nat, 1)] /\ reports (rt_log s) = [].
Proof. vm_compute. split_and!; [by eexists|done..]. Qed.

Lemma attempts_reported_once_witness :
  exists l, rt_log (call no_text message_of model false (world [fails 503 None; answers])).2 = [] ++ l
    /\ valid_reports l /\ closes_with l (call no_text message_of model false (world [fails 503 None; answers])).1.
Proof. apply (attempts_reported_once no_text message_of model false (world [fails 503 None; answers])). reflexivity. Defined.

Lemma circuit_breaker_is_its_history_witness :
  let p := {| failure_threshold := 2; cooldown := 30000000 |} in
  let h := [Failure 5; Success; Failure 10; Failure 20] in
  (circuit_available 30 (circuit_after p h) = false <->
     exists t fs, recent_failures (rev h) = t :: fs /\ 2 <= Z.of_nat (length (t :: fs)) /\ 30 < t + 30000000)
  /\ (forall structured s,
        (forall i c, rm_candidates model !! i = Some c ->
           exists cs, rt_circuits s !! i = Some cs /\ circuit_available (rt_now s) cs = false) ->
        call no_text message_of model structured s = (Err ModelRuntimeExhaustedError, s)).
Proof.
  apply (circuit_breaker_is_its_history no_text message_of model {| failure_threshold := 2; cooldown := 30000000 |}
    [Failure 5; Success; Failure 10; Failure 20] 30); vm_compute; discriminate.
Defined.

End RuntimeExample.
