(* ===== verification/Authorization.v ===== *)
(** * Authorization: permissions, scopes and the decision on an object

    [core/rbac.py], [core/identity.py] and the seed rows of [server/rbac/catalog.py].  A
    principal is what the database (or a local identity) says of a user; [allowed] decides on a
    capability and [allowed_resource] on one object.  [require] and [require_resource] answer
    what they raise together with the decision they hand to the audit of the request
    ([core/authorization_audit.py]). *)
From S2P Require Import Prelude.

(** ** The capability vocabulary *)

Inductive Permission :=
| QUOTA_USAGE_READ_SELF | IDENTITY_PROFILE_READ_SELF | IDENTITY_PROFILE_UPDATE_SELF
| IDENTITY_ACCOUNT_DELETE_SELF | LEARNING_CONTENT_READ_PUBLIC | LEARNING_CONTENT_READ_WORKSPACE
| LEARNING_EXERCISE_SUBMIT | LEARNING_PROGRESS_READ_SELF | LEARNING_CONTENT_MANAGE
| LEARNING_PROGRESS_READ_CLASSROOM | LEARNING_FEEDBACK_SUBMIT | LEARNING_FEEDBACK_READ
| LEARNING_FEEDBACK_WRITE | LEARNING_FEEDBACK_CREATE | CLASSROOM_CREATE | CLASSROOM_MEMBER_MANAGE
| AGENT_SESSION_CREATE | AGENT_SESSION_READ | AGENT_SESSION_UPDATE | AGENT_SESSION_DELETE
| AGENT_TURN_SUBMIT | AGENT_TURN_CANCEL | AGENT_EVENT_REPLAY | AGENT_CHECKPOINT_RESTORE
| SYSTEM_MODEL_PROFILE_MANAGE | SYSTEM_PROMPT_TEMPLATE_MANAGE | SYSTEM_TOOL_CONFIG_MANAGE
| SYSTEM_RUNTIME_MONITOR | SYSTEM_RUNTIME_INSPECT | SYSTEM_RUNTIME_RESET | SYSTEM_USER_MANAGE
| SYSTEM_ROLE_MANAGE | SYSTEM_RELEASE_NOTES_MANAGE | SYSTEM_PERMISSION_READ | SYSTEM_AUDIT_READ
| SYSTEM_SENSITIVE_DATA_READ | SYSTEM_QUOTA_READ | SYSTEM_QUOTA_MANAGE.

#[export] Instance permission_eq_dec : EqDecision Permission.
Proof. solve_decision. Defined.

(** The enumeration, in its order. *)
Definition all_permissions : list Permission :=
  [ QUOTA_USAGE_READ_SELF; IDENTITY_PROFILE_READ_SELF; IDENTITY_PROFILE_UPDATE_SELF;
    IDENTITY_ACCOUNT_DELETE_SELF; LEARNING_CONTENT_READ_PUBLIC; LEARNING_CONTENT_READ_WORKSPACE;
    LEARNING_EXERCISE_SUBMIT; LEARNING_PROGRESS_READ_SELF; LEARNING_CONTENT_MANAGE;
    LEARNING_PROGRESS_READ_CLASSROOM; LEARNING_FEEDBACK_SUBMIT; LEARNING_FEEDBACK_READ;
    LEARNING_FEEDBACK_WRITE; LEARNING_FEEDBACK_CREATE; CLASSROOM_CREATE; CLASSROOM_MEMBER_MANAGE;
    AGENT_SESSION_CREATE; AGENT_SESSION_READ; AGENT_SESSION_UPDATE; AGENT_SESSION_DELETE;
    AGENT_TURN_SUBMIT; AGENT_TURN_CANCEL; AGENT_EVENT_REPLAY; AGENT_CHECKPOINT_RESTORE;
    SYSTEM_MODEL_PROFILE_MANAGE; SYSTEM_PROMPT_TEMPLATE_MANAGE; SYSTEM_TOOL_CONFIG_MANAGE;
    SYSTEM_RUNTIME_MONITOR; SYSTEM_RUNTIME_INSPECT; SYSTEM_RUNTIME_RESET; SYSTEM_USER_MANAGE;
    SYSTEM_ROLE_MANAGE; SYSTEM_RELEASE_NOTES_MANAGE; SYSTEM_PERMISSION_READ; SYSTEM_AUDIT_READ;
    SYSTEM_SENSITIVE_DATA_READ; SYSTEM_QUOTA_READ; SYSTEM_QUOTA_MANAGE ].

Definition value (p : Permission) : string :=
  match p with
  | QUOTA_USAGE_READ_SELF => "quota:usage:read_self"
  | IDENTITY_PROFILE_READ_SELF => "identity:profile:read_self"
  | IDENTITY_PROFILE_UPDATE_SELF => "identity:profile:update_self"
  | IDENTITY_ACCOUNT_DELETE_SELF => "identity:account:delete_self"
  | LEARNING_CONTENT_READ_PUBLIC => "learning:content:read_public"
  | LEARNING_CONTENT_READ_WORKSPACE => "learning:content:read_workspace"
  | LEARNING_EXERCISE_SUBMIT => "learning:exercise:submit"
  | LEARNING_PROGRESS_READ_SELF => "learning:progress:read_self"
  | LEARNING_CONTENT_MANAGE => "learning:content:manage"
  | LEARNING_PROGRESS_READ_CLASSROOM => "learning:progress:read_classroom"
  | LEARNING_FEEDBACK_SUBMIT => "learning:feedback:submit"
  | LEARNING_FEEDBACK_READ => "learning:feedback:read"
  | LEARNING_FEEDBACK_WRITE => "learning:feedback:write"
  | LEARNING_FEEDBACK_CREATE => "learning:feedback:create"
  | CLASSROOM_CREATE => "classroom:classroom:create"
  | CLASSROOM_MEMBER_MANAGE => "classroom:member:manage"
  | AGENT_SESSION_CREATE => "agent:session:create"
  | AGENT_SESSION_READ => "agent:session:read"
  | AGENT_SESSION_UPDATE => "agent:session:update"
  | AGENT_SESSION_DELETE => "agent:session:delete"
  | AGENT_TURN_SUBMIT => "agent:turn:submit"
  | AGENT_TURN_CANCEL => "agent:turn:cancel"
  | AGENT_EVENT_REPLAY => "agent:event:replay"
  | AGENT_CHECKPOINT_RESTORE => "agent:checkpoint:restore"
  | SYSTEM_MODEL_PROFILE_MANAGE => "system:model_profile:manage"
  | SYSTEM_PROMPT_TEMPLATE_MANAGE => "system:prompt_template:manage"
  | SYSTEM_TOOL_CONFIG_MANAGE => "system:tool_config:manage"
  | SYSTEM_RUNTIME_MONITOR => "system:runtime:monitor"
  | SYSTEM_RUNTIME_INSPECT => "system:runtime:inspect"
  | SYSTEM_RUNTIME_RESET => "system:runtime:reset"
  | SYSTEM_USER_MANAGE => "system:user:manage"
  | SYSTEM_ROLE_MANAGE => "system:role:manage"
  | SYSTEM_RELEASE_NOTES_MANAGE => "system:release_notes:manage"
  | SYSTEM_PERMISSION_READ => "system:permission:read"
  | SYSTEM_AUDIT_READ => "system:audit:read"
  | SYSTEM_SENSITIVE_DATA_READ => "system:sensitive_data:read"
  | SYSTEM_QUOTA_READ => "system:quota:read"
  | SYSTEM_QUOTA_MANAGE => "system:quota:manage"
  end.

(** [Permission(code)], [None] where it raises [ValueError]. *)
Definition permission_of (code : string) : option Permission :=
  List.find (fun p => String.eqb (value p) code) all_permissions.

Lemma permission_of_value p : permission_of (value p) = Some p.
Proof. by destruct p; vm_compute. Qed.

Lemma permission_of_some code p : permission_of code = Some p -> value p = code.
Proof. intros [_ Hp]%List.find_some. by apply String.eqb_eq. Qed.

#[export] Instance permission_countable : Countable Permission := inj_countable value permission_of permission_of_value.

(** ** Principals and objects *)

(** [AuthenticatedPrincipal]. *)
Record Principal := {
  user_id : string;
  workspace_ids : gset string;
  classroom_ids : gset string;
  roles : gset string;
  permissions : gset string;
  permission_scopes : gmap string (gset string);
  authorization_version : Z;
}.

Definition system_admin : Principal :=
  {| user_id := "system"; workspace_ids := {["*"]}; classroom_ids := ∅; roles := {["admin"]}; permissions := ∅;
     permission_scopes := ∅; authorization_version := 0 |}.

Definition is_admin (p : Principal) : bool := bool_decide ("admin" ∈ roles p) || bool_decide ("developer" ∈ roles p).

(** Whether [require_workspace] returns. *)
Definition in_workspace (p : Principal) (workspace_id : string) : bool :=
  bool_decide ("*" ∈ workspace_ids p) || bool_decide (workspace_id ∈ workspace_ids p).

(** [can_access] of the session context [(user_id, workspace_id)]. *)
Definition can_access (p : Principal) (context_user context_workspace : string) : bool :=
  String.eqb (user_id p) context_user && in_workspace p context_workspace.

(** [ResourceRef]. *)
Record ResourceRef := {
  resource_type : string;
  owner_user_id : option string;
  workspace_id : option string;
  is_public : bool;
  classroom_id : option string;
}.

(** A string attribute that is present and not empty. *)
Definition given (o : option string) : option string :=
  match o with Some s => if String.eqb s "" then None else Some s | None => None end.

(** [ResourcePolicy.allows]. *)
Definition policy_allows (p : Principal) (scopes : gset string) (r : ResourceRef) : bool :=
  if bool_decide ("system" ∈ scopes) then true
  else if is_public r && bool_decide ("public" ∈ scopes) then true
  else if bool_decide (owner_user_id r = Some (user_id p)) && bool_decide ("own" ∈ scopes) then true
  else
    match given (workspace_id r), bool_decide ("workspace" ∈ scopes) with
    | Some w, true => in_workspace p w
    | _, _ =>
        match given (classroom_id r), bool_decide ("classroom" ∈ scopes) with
        | Some c, true => bool_decide (c ∈ classroom_ids p)
        | _, _ => false
        end
    end.

(** ** The role packages *)

Definition GUEST : gset Permission :=
  list_to_set
    [ IDENTITY_PROFILE_READ_SELF; IDENTITY_PROFILE_UPDATE_SELF; IDENTITY_ACCOUNT_DELETE_SELF;
      LEARNING_CONTENT_READ_PUBLIC; AGENT_SESSION_CREATE; AGENT_SESSION_READ; AGENT_SESSION_UPDATE;
      AGENT_SESSION_DELETE; AGENT_TURN_SUBMIT; AGENT_TURN_CANCEL; AGENT_EVENT_REPLAY; QUOTA_USAGE_READ_SELF ].
Definition STUDENT : gset Permission :=
  GUEST ∪ list_to_set
    [ AGENT_CHECKPOINT_RESTORE; LEARNING_CONTENT_READ_WORKSPACE; LEARNING_EXERCISE_SUBMIT;
      LEARNING_PROGRESS_READ_SELF; LEARNING_FEEDBACK_SUBMIT ].
Definition TEACHER : gset Permission :=
  STUDENT ∪ list_to_set
    [ LEARNING_CONTENT_MANAGE; LEARNING_PROGRESS_READ_CLASSROOM; LEARNING_FEEDBACK_CREATE; CLASSROOM_CREATE;
      CLASSROOM_MEMBER_MANAGE ].
Definition DEVELOPER : gset Permission :=
  TEACHER ∪ list_to_set
    [ LEARNING_FEEDBACK_READ; LEARNING_FEEDBACK_WRITE; SYSTEM_MODEL_PROFILE_MANAGE;
      SYSTEM_PROMPT_TEMPLATE_MANAGE; SYSTEM_TOOL_CONFIG_MANAGE; SYSTEM_RUNTIME_MONITOR; SYSTEM_RUNTIME_INSPECT;
      SYSTEM_RUNTIME_RESET; SYSTEM_USER_MANAGE; SYSTEM_ROLE_MANAGE; SYSTEM_RELEASE_NOTES_MANAGE;
      SYSTEM_PERMISSION_READ; SYSTEM_AUDIT_READ; SYSTEM_QUOTA_READ; SYSTEM_QUOTA_MANAGE ].

(** [ROLE_PERMISSIONS.get(role, ())]. *)
Definition ROLE_PERMISSIONS (role : string) : gset Permission :=
  if String.eqb role "guest" then GUEST else if String.eqb role "student" then STUDENT
  else if String.eqb role "teacher" then TEACHER
  else if String.eqb role "developer" || String.eqb role "admin" then DEVELOPER else ∅.

(** [HIGH_RISK_TOOL_PERMISSIONS]. *)
Definition HIGH_RISK_TOOL_PERMISSIONS : list (string * Permission) :=
  [ ("checkpoint.restore", AGENT_CHECKPOINT_RESTORE);
    ("classroom.feedback.write", LEARNING_FEEDBACK_CREATE);
    ("runtime.model_profile.write", SYSTEM_MODEL_PROFILE_MANAGE);
    ("runtime.prompt_template.write", SYSTEM_PROMPT_TEMPLATE_MANAGE);
    ("runtime.tool_config.write", SYSTEM_TOOL_CONFIG_MANAGE);
    ("sandbox_run_active_kernel", AGENT_TURN_SUBMIT);
    ("sandbox_reset", AGENT_TURN_CANCEL) ].

(** ** Decisions *)

(** The exceptions of the identity services; the last ones carry the status of an HTTP answer or
    stand for what the database and pydantic raise. *)
Inductive IdentityError :=
| AccessDeniedError | PermissionError | KeyError | ValueError | UnknownRoleError | LastDeveloperForbiddenError
| ClassroomNotFoundError | UserServiceError | UserNotFoundError | UserAlreadyExistsError | EmailAlreadyUsedError
| InvalidEmailCodeError | InvalidCaptchaError | InvalidEmailError | SelfDeleteForbiddenError
| WorkspaceServiceError | WorkspaceNotFoundError | WorkspaceAlreadyExistsError | AuthenticationError
| CsrfRejectedError | OriginRejectedError | UnicodeEncodeError | ValidationError | IntegrityError | DataError
| HTTPException (status : Z) (detail : string).

#[export] Instance identity_error_eq_dec : EqDecision IdentityError.
Proof. solve_decision. Defined.

(** [required_permission_for_high_risk_tool]. *)
Definition required_permission_for_high_risk_tool (tool_name : string) : result IdentityError Permission :=
  if String.prefix "mcp_" tool_name then Ok SYSTEM_TOOL_CONFIG_MANAGE
  else match List.find (fun kv : string * Permission => String.eqb kv.1 tool_name) HIGH_RISK_TOOL_PERMISSIONS with
       | Some (_, p) => Ok p
       | None => Err PermissionError
       end.

(** [permissions_for]: stored grants, or the packages of the roles when there are none. *)
Definition permissions_for (p : Principal) : gset Permission :=
  if decide (permissions p = ∅) then set_bind ROLE_PERMISSIONS (roles p)
  else list_to_set (omap permission_of (elements (permissions p))).

(** [allowed]. *)
Definition allowed (p : Principal) (permission : string) (workspace : option string) : bool :=
  match permission_of permission with
  | None => false
  | Some required =>
      bool_decide (required ∈ permissions_for p)
      && match workspace with None => true | Some w => in_workspace p w end
  end.

(** The scopes of an identity without stored ones. *)
Definition compat_scopes (required : Permission) : gset string :=
  if String.prefix "system:" (value required)
     || bool_decide (required = LEARNING_FEEDBACK_READ) || bool_decide (required = LEARNING_FEEDBACK_WRITE)
  then {["system"]} else {["own"]}.

Definition effective_scopes (p : Principal) (required : Permission) : gset string :=
  let scopes := default ∅ (permission_scopes p !! value required) in
  if decide (scopes = ∅) then compat_scopes required else scopes.

(** [allowed_resource]. *)
Definition allowed_resource (p : Principal) (permission : string) (r : ResourceRef) : bool :=
  match permission_of permission with
  | None => false
  | Some required =>
      bool_decide (required ∈ permissions_for p) && policy_allows p (effective_scopes p required) r
  end.

(** [AuthorizationDecision]. *)
Record AuthorizationDecision := {
  d_actor_user_id : string;
  d_decision : string;
  d_permission_code : string;
  d_resource_type : option string;
  d_workspace_id : option string;
}.

Definition verdict (b : bool) : string := if b then "allow" else "deny".

(** [require]: what it raises, and the decision it records. *)
Definition require (p : Principal) (permission : string) (workspace : option string)
  : result IdentityError () * AuthorizationDecision :=
  let ok := allowed p permission workspace in
  (if ok then Ok () else Err AccessDeniedError,
   {| d_actor_user_id := user_id p; d_decision := verdict ok; d_permission_code := permission;
      d_resource_type := None; d_workspace_id := workspace |}).

(** [require_resource]. *)
Definition require_resource (p : Principal) (permission : string) (r : ResourceRef)
  : result IdentityError () * AuthorizationDecision :=
  let ok := allowed_resource p permission r in
  (if ok then Ok () else Err AccessDeniedError,
   {| d_actor_user_id := user_id p; d_decision := verdict ok; d_permission_code := permission;
      d_resource_type := Some (resource_type r); d_workspace_id := workspace_id r |}).

(** ** The seed of the role tables *)

Definition ROLE_NAMES : list string := ["guest"; "student"; "teacher"; "developer"].

Section catalog.
Context `{Uuids}.

Definition role_id (code : string) : string := uuid5_url ("pro-nlp/rbac/role/" +:+ code).
Definition permission_id (code : string) : string := uuid5_url ("pro-nlp/rbac/permission/" +:+ code).

(** [permission.name.startswith] of the prefix [SYSTEM_]. *)
Definition system_named (p : Permission) : bool :=
  match p with
  | SYSTEM_MODEL_PROFILE_MANAGE | SYSTEM_PROMPT_TEMPLATE_MANAGE | SYSTEM_TOOL_CONFIG_MANAGE | SYSTEM_RUNTIME_MONITOR
  | SYSTEM_RUNTIME_INSPECT | SYSTEM_RUNTIME_RESET | SYSTEM_USER_MANAGE | SYSTEM_ROLE_MANAGE
  | SYSTEM_RELEASE_NOTES_MANAGE | SYSTEM_PERMISSION_READ | SYSTEM_AUDIT_READ | SYSTEM_SENSITIVE_DATA_READ
  | SYSTEM_QUOTA_READ | SYSTEM_QUOTA_MANAGE => true
  | _ => false
  end.

Definition permission_scope (p : Permission) : string :=
  match p with
  | LEARNING_CONTENT_READ_PUBLIC => "public"
  | LEARNING_FEEDBACK_READ | LEARNING_FEEDBACK_WRITE => "system"
  | LEARNING_FEEDBACK_SUBMIT => "own"
  | LEARNING_CONTENT_MANAGE | LEARNING_PROGRESS_READ_CLASSROOM | LEARNING_FEEDBACK_CREATE | CLASSROOM_CREATE
  | CLASSROOM_MEMBER_MANAGE => "classroom"
  | LEARNING_CONTENT_READ_WORKSPACE | AGENT_SESSION_READ | AGENT_TURN_SUBMIT | AGENT_EVENT_REPLAY => "workspace"
  | _ => if system_named p then "system" else "own"
  end.

(** [role_permission_rows]: the pairs of role and permission. *)
Definition role_permission_rows : list (string * string) :=
  code ← ROLE_NAMES;
  p ← sort_by (fun a b => string_leb (value a) (value b)) (elements (ROLE_PERMISSIONS code));
  [(role_id code, permission_id (value p))].

(** [role_permission_scope_rows]. *)
Definition role_permission_scope_rows : list (string * string * string) :=
  code ← ROLE_NAMES;
  p ← sort_by (fun a b => string_leb (value a) (value b)) (elements (ROLE_PERMISSIONS code));
  [(role_id code, permission_id (value p), permission_scope p)].
End catalog.
