(* ===== verification/IdentityStore.v ===== *)
(** * IdentityStore: the rows of the identity, workspace and classroom services

    The tables [nlp_users], [nlp_roles], [nlp_permissions] and what binds them, workspaces,
    classrooms and their members, requests to join a classroom, browser sessions, websocket
    tickets, one-time codes and the audit of sent e-mails ([server/infrastructure/mysql/models.py]),
    beside the tables of the sandbox service that live in the same database: a sandbox
    transaction runs on its view of this store ([on_sandbox]).  Times are instants in
    microseconds; [created_at] and [updated_at] are kept where something reads them. *)
From S2P Require Import Prelude Clock Json PyText SandboxStore Authorization.
Local Open Scope Z_scope.

(** ** Rows *)

(** [UserModel]. *)
Record AccountRow := {
  ac_username : string;
  ac_password_hash : string;
  ac_display_name : string;
  ac_status : string;
  ac_authorization_version : Z;
  ac_deleted_at : option Z;
  ac_last_login_at : option Z;
  ac_email : option string;
  ac_email_normalized : option string;
  ac_registration_source : string;
}.

(** [RoleModel], [PermissionModel] and [UserRoleModel]. *)
Record RoleModelRow := { rm_code : string; rm_status : string; rm_is_builtin : bool }.
Record PermissionRow := { pm_code : string; pm_status : string }.
Record AssignmentRow := { as_expires_at : option Z; as_assigned_by_user_id : option string }.

Record WorkspaceRow := { ws_slug : string; ws_name : string; ws_status : string }.
Record MemberRow := { mb_member_type : string; mb_status : string; mb_created_at : Z }.
Record ClassroomRow := { cl_workspace_id : string; cl_name : string; cl_status : string }.
Record ClassMemberRow := { cm_member_role : string; cm_status : string }.

(** [ClassJoinRequestModel]. *)
Record JoinRequestRow := {
  jr_class_id : string;
  jr_user_id : string;
  jr_student_number : option string;
  jr_status : string;
  jr_requested_at : Z;
  jr_reviewed_at : option Z;
  jr_reviewed_by : option string;
}.

(** [SessionModel]. *)
Record AuthSessionRow := {
  ses_user_id : string;
  ses_workspace_id : string;
  ses_token_hash : string;
  ses_csrf_hash : string;
  ses_issued_at : Z;
  ses_last_seen_at : option Z;
  ses_authorization_version : Z;
  ses_expires_at : Z;
  ses_revoked_at : option Z;
}.

(** [WsTicketModel]. *)
Record TicketRow := {
  tk_auth_session_id : string;
  tk_user_id : string;
  tk_workspace_id : string;
  tk_ticket_hash : string;
  tk_origin : string;
  tk_expires_at : Z;
  tk_used_at : option Z;
}.

(** [AuthCodeModel] and [EmailSendAuditModel]. *)
Record AuthCodeRow := {
  co_kind : string;
  co_subject : string;
  co_code_hash : string;
  co_expires_at : Z;
  co_client_ip : option string;
  co_created_at : Z;
}.
Record EmailSendRow := {
  em_email : string;
  em_client_ip : option string;
  em_outcome : string;
  em_created_at : Z;
}.

(** [AuthorizationAuditLogModel]. *)
Record AuditRow := {
  au_actor_user_id : option string;
  au_target_user_id : option string;
  au_decision : string;
  au_reason_code : string;
  au_permission_code : option string;
  au_resource_type : option string;
  au_resource_id : option string;
  au_detail : json;
  au_created_at : Z;
}.

(** ** The store *)

Record IDB := {
  i_users : gmap string AccountRow;
  i_roles : gmap string RoleModelRow;
  i_permissions : gmap string PermissionRow;
  i_user_roles : gmap (string * string) AssignmentRow;
  i_role_permissions : gmap (string * string) (option string);
  i_role_scopes : gset (string * string * string);
  i_workspaces : gmap string WorkspaceRow;
  i_members : gmap (string * string) MemberRow;
  i_classrooms : gmap string ClassroomRow;
  i_class_members : gmap (string * string) ClassMemberRow;
  i_join_requests : gmap string JoinRequestRow;
  i_sessions : gmap string AuthSessionRow;
  i_tickets : gmap string TicketRow;
  i_codes : gmap string AuthCodeRow;
  i_email_audits : list EmailSendRow;
  i_audit : list AuditRow;
  i_environments : gmap string EnvironmentRow;
  i_runtimes : gmap string RuntimeRow;
  i_leases : gmap string LeaseRow;
  i_outbox : list (string * json);
  i_next_uuid : nat;
}.

Definition set_users (db : IDB) (v : gmap string AccountRow) : IDB :=
  {| i_users := v; i_roles := i_roles db; i_permissions := i_permissions db; i_user_roles := i_user_roles db;
     i_role_permissions := i_role_permissions db; i_role_scopes := i_role_scopes db;
     i_workspaces := i_workspaces db; i_members := i_members db; i_classrooms := i_classrooms db;
     i_class_members := i_class_members db; i_join_requests := i_join_requests db; i_sessions := i_sessions db;
     i_tickets := i_tickets db; i_codes := i_codes db; i_email_audits := i_email_audits db;
     i_audit := i_audit db; i_environments := i_environments db; i_runtimes := i_runtimes db;
     i_leases := i_leases db; i_outbox := i_outbox db; i_next_uuid := i_next_uuid db |}.

Definition set_roles (db : IDB) (v : gmap string RoleModelRow) : IDB :=
  {| i_users := i_users db; i_roles := v; i_permissions := i_permissions db; i_user_roles := i_user_roles db;
     i_role_permissions := i_role_permissions db; i_role_scopes := i_role_scopes db;
     i_workspaces := i_workspaces db; i_members := i_members db; i_classrooms := i_classrooms db;
     i_class_members := i_class_members db; i_join_requests := i_join_requests db; i_sessions := i_sessions db;
     i_tickets := i_tickets db; i_codes := i_codes db; i_email_audits := i_email_audits db;
     i_audit := i_audit db; i_environments := i_environments db; i_runtimes := i_runtimes db;
     i_leases := i_leases db; i_outbox := i_outbox db; i_next_uuid := i_next_uuid db |}.

Definition set_permissions (db : IDB) (v : gmap string PermissionRow) : IDB :=
  {| i_users := i_users db; i_roles := i_roles db; i_permissions := v; i_user_roles := i_user_roles db;
     i_role_permissions := i_role_permissions db; i_role_scopes := i_role_scopes db;
     i_workspaces := i_workspaces db; i_members := i_members db; i_classrooms := i_classrooms db;
     i_class_members := i_class_members db; i_join_requests := i_join_requests db; i_sessions := i_sessions db;
     i_tickets := i_tickets db; i_codes := i_codes db; i_email_audits := i_email_audits db;
     i_audit := i_audit db; i_environments := i_environments db; i_runtimes := i_runtimes db;
     i_leases := i_leases db; i_outbox := i_outbox db; i_next_uuid := i_next_uuid db |}.

Definition set_user_roles (db : IDB) (v : gmap (string * string) AssignmentRow) : IDB :=
  {| i_users := i_users db; i_roles := i_roles db; i_permissions := i_permissions db; i_user_roles := v;
     i_role_permissions := i_role_permissions db; i_role_scopes := i_role_scopes db;
     i_workspaces := i_workspaces db; i_members := i_members db; i_classrooms := i_classrooms db;
     i_class_members := i_class_members db; i_join_requests := i_join_requests db; i_sessions := i_sessions db;
     i_tickets := i_tickets db; i_codes := i_codes db; i_email_audits := i_email_audits db;
     i_audit := i_audit db; i_environments := i_environments db; i_runtimes := i_runtimes db;
     i_leases := i_leases db; i_outbox := i_outbox db; i_next_uuid := i_next_uuid db |}.

Definition set_role_permissions (db : IDB) (v : gmap (string * string) (option string)) : IDB :=
  {| i_users := i_users db; i_roles := i_roles db; i_permissions := i_permissions db;
     i_user_roles := i_user_roles db; i_role_permissions := v; i_role_scopes := i_role_scopes db;
     i_workspaces := i_workspaces db; i_members := i_members db; i_classrooms := i_classrooms db;
     i_class_members := i_class_members db; i_join_requests := i_join_requests db; i_sessions := i_sessions db;
     i_tickets := i_tickets db; i_codes := i_codes db; i_email_audits := i_email_audits db;
     i_audit := i_audit db; i_environments := i_environments db; i_runtimes := i_runtimes db;
     i_leases := i_leases db; i_outbox := i_outbox db; i_next_uuid := i_next_uuid db |}.

Definition set_role_scopes (db : IDB) (v : gset (string * string * string)) : IDB :=
  {| i_users := i_users db; i_roles := i_roles db; i_permissions := i_permissions db;
     i_user_roles := i_user_roles db; i_role_permissions := i_role_permissions db; i_role_scopes := v;
     i_workspaces := i_workspaces db; i_members := i_members db; i_classrooms := i_classrooms db;
     i_class_members := i_class_members db; i_join_requests := i_join_requests db; i_sessions := i_sessions db;
     i_tickets := i_tickets db; i_codes := i_codes db; i_email_audits := i_email_audits db;
     i_audit := i_audit db; i_environments := i_environments db; i_runtimes := i_runtimes db;
     i_leases := i_leases db; i_outbox := i_outbox db; i_next_uuid := i_next_uuid db |}.

Definition set_workspaces (db : IDB) (v : gmap string WorkspaceRow) : IDB :=
  {| i_users := i_users db; i_roles := i_roles db; i_permissions := i_permissions db;
     i_user_roles := i_user_roles db; i_role_permissions := i_role_permissions db;
     i_role_scopes := i_role_scopes db; i_workspaces := v; i_members := i_members db;
     i_classrooms := i_classrooms db; i_class_members := i_class_members db;
     i_join_requests := i_join_requests db; i_sessions := i_sessions db; i_tickets := i_tickets db;
     i_codes := i_codes db; i_email_audits := i_email_audits db; i_audit := i_audit db;
     i_environments := i_environments db; i_runtimes := i_runtimes db; i_leases := i_leases db;
     i_outbox := i_outbox db; i_next_uuid := i_next_uuid db |}.

Definition set_members (db : IDB) (v : gmap (string * string) MemberRow) : IDB :=
  {| i_users := i_users db; i_roles := i_roles db; i_permissions := i_permissions db;
     i_user_roles := i_user_roles db; i_role_permissions := i_role_permissions db;
     i_role_scopes := i_role_scopes db; i_workspaces := i_workspaces db; i_members := v;
     i_classrooms := i_classrooms db; i_class_members := i_class_members db;
     i_join_requests := i_join_requests db; i_sessions := i_sessions db; i_tickets := i_tickets db;
     i_codes := i_codes db; i_email_audits := i_email_audits db; i_audit := i_audit db;
     i_environments := i_environments db; i_runtimes := i_runtimes db; i_leases := i_leases db;
     i_outbox := i_outbox db; i_next_uuid := i_next_uuid db |}.

Definition set_classrooms (db : IDB) (v : gmap string ClassroomRow) : IDB :=
  {| i_users := i_users db; i_roles := i_roles db; i_permissions := i_permissions db;
     i_user_roles := i_user_roles db; i_role_permissions := i_role_permissions db;
     i_role_scopes := i_role_scopes db; i_workspaces := i_workspaces db; i_members := i_members db;
     i_classrooms := v; i_class_members := i_class_members db; i_join_requests := i_join_requests db;
     i_sessions := i_sessions db; i_tickets := i_tickets db; i_codes := i_codes db;
     i_email_audits := i_email_audits db; i_audit := i_audit db; i_environments := i_environments db;
     i_runtimes := i_runtimes db; i_leases := i_leases db; i_outbox := i_outbox db;
     i_next_uuid := i_next_uuid db |}.

Definition set_class_members (db : IDB) (v : gmap (string * string) ClassMemberRow) : IDB :=
  {| i_users := i_users db; i_roles := i_roles db; i_permissions := i_permissions db;
     i_user_roles := i_user_roles db; i_role_permissions := i_role_permissions db;
     i_role_scopes := i_role_scopes db; i_workspaces := i_workspaces db; i_members := i_members db;
     i_classrooms := i_classrooms db; i_class_members := v; i_join_requests := i_join_requests db;
     i_sessions := i_sessions db; i_tickets := i_tickets db; i_codes := i_codes db;
     i_email_audits := i_email_audits db; i_audit := i_audit db; i_environments := i_environments db;
     i_runtimes := i_runtimes db; i_leases := i_leases db; i_outbox := i_outbox db;
     i_next_uuid := i_next_uuid db |}.

Definition set_join_requests (db : IDB) (v : gmap string JoinRequestRow) : IDB :=
  {| i_users := i_users db; i_roles := i_roles db; i_permissions := i_permissions db;
     i_user_roles := i_user_roles db; i_role_permissions := i_role_permissions db;
     i_role_scopes := i_role_scopes db; i_workspaces := i_workspaces db; i_members := i_members db;
     i_classrooms := i_classrooms db; i_class_members := i_class_members db; i_join_requests := v;
     i_sessions := i_sessions db; i_tickets := i_tickets db; i_codes := i_codes db;
     i_email_audits := i_email_audits db; i_audit := i_audit db; i_environments := i_environments db;
     i_runtimes := i_runtimes db; i_leases := i_leases db; i_outbox := i_outbox db;
     i_next_uuid := i_next_uuid db |}.

Definition set_sessions (db : IDB) (v : gmap string AuthSessionRow) : IDB :=
  {| i_users := i_users db; i_roles := i_roles db; i_permissions := i_permissions db;
     i_user_roles := i_user_roles db; i_role_permissions := i_role_permissions db;
     i_role_scopes := i_role_scopes db; i_workspaces := i_workspaces db; i_members := i_members db;
     i_classrooms := i_classrooms db; i_class_members := i_class_members db;
     i_join_requests := i_join_requests db; i_sessions := v; i_tickets := i_tickets db; i_codes := i_codes db;
     i_email_audits := i_email_audits db; i_audit := i_audit db; i_environments := i_environments db;
     i_runtimes := i_runtimes db; i_leases := i_leases db; i_outbox := i_outbox db;
     i_next_uuid := i_next_uuid db |}.

Definition set_tickets (db : IDB) (v : gmap string TicketRow) : IDB :=
  {| i_users := i_users db; i_roles := i_roles db; i_permissions := i_permissions db;
     i_user_roles := i_user_roles db; i_role_permissions := i_role_permissions db;
     i_role_scopes := i_role_scopes db; i_workspaces := i_workspaces db; i_members := i_members db;
     i_classrooms := i_classrooms db; i_class_members := i_class_members db;
     i_join_requests := i_join_requests db; i_sessions := i_sessions db; i_tickets := v; i_codes := i_codes db;
     i_email_audits := i_email_audits db; i_audit := i_audit db; i_environments := i_environments db;
     i_runtimes := i_runtimes db; i_leases := i_leases db; i_outbox := i_outbox db;
     i_next_uuid := i_next_uuid db |}.

Definition set_codes (db : IDB) (v : gmap string AuthCodeRow) : IDB :=
  {| i_users := i_users db; i_roles := i_roles db; i_permissions := i_permissions db;
     i_user_roles := i_user_roles db; i_role_permissions := i_role_permissions db;
     i_role_scopes := i_role_scopes db; i_workspaces := i_workspaces db; i_members := i_members db;
     i_classrooms := i_classrooms db; i_class_members := i_class_members db;
     i_join_requests := i_join_requests db; i_sessions := i_sessions db; i_tickets := i_tickets db;
     i_codes := v; i_email_audits := i_email_audits db; i_audit := i_audit db;
     i_environments := i_environments db; i_runtimes := i_runtimes db; i_leases := i_leases db;
     i_outbox := i_outbox db; i_next_uuid := i_next_uuid db |}.

Definition set_email_audits (db : IDB) (v : list EmailSendRow) : IDB :=
  {| i_users := i_users db; i_roles := i_roles db; i_permissions := i_permissions db;
     i_user_roles := i_user_roles db; i_role_permissions := i_role_permissions db;
     i_role_scopes := i_role_scopes db; i_workspaces := i_workspaces db; i_members := i_members db;
     i_classrooms := i_classrooms db; i_class_members := i_class_members db;
     i_join_requests := i_join_requests db; i_sessions := i_sessions db; i_tickets := i_tickets db;
     i_codes := i_codes db; i_email_audits := v; i_audit := i_audit db; i_environments := i_environments db;
     i_runtimes := i_runtimes db; i_leases := i_leases db; i_outbox := i_outbox db;
     i_next_uuid := i_next_uuid db |}.

Definition set_audit (db : IDB) (v : list AuditRow) : IDB :=
  {| i_users := i_users db; i_roles := i_roles db; i_permissions := i_permissions db;
     i_user_roles := i_user_roles db; i_role_permissions := i_role_permissions db;
     i_role_scopes := i_role_scopes db; i_workspaces := i_workspaces db; i_members := i_members db;
     i_classrooms := i_classrooms db; i_class_members := i_class_members db;
     i_join_requests := i_join_requests db; i_sessions := i_sessions db; i_tickets := i_tickets db;
     i_codes := i_codes db; i_email_audits := i_email_audits db; i_audit := v;
     i_environments := i_environments db; i_runtimes := i_runtimes db; i_leases := i_leases db;
     i_outbox := i_outbox db; i_next_uuid := i_next_uuid db |}.

Definition set_leases (db : IDB) (v : gmap string LeaseRow) : IDB :=
  {| i_users := i_users db; i_roles := i_roles db; i_permissions := i_permissions db;
     i_user_roles := i_user_roles db; i_role_permissions := i_role_permissions db;
     i_role_scopes := i_role_scopes db; i_workspaces := i_workspaces db; i_members := i_members db;
     i_classrooms := i_classrooms db; i_class_members := i_class_members db;
     i_join_requests := i_join_requests db; i_sessions := i_sessions db; i_tickets := i_tickets db;
     i_codes := i_codes db; i_email_audits := i_email_audits db; i_audit := i_audit db;
     i_environments := i_environments db; i_runtimes := i_runtimes db; i_leases := v; i_outbox := i_outbox db;
     i_next_uuid := i_next_uuid db |}.

Definition set_outbox (db : IDB) (v : list (string * json)) : IDB :=
  {| i_users := i_users db; i_roles := i_roles db; i_permissions := i_permissions db;
     i_user_roles := i_user_roles db; i_role_permissions := i_role_permissions db;
     i_role_scopes := i_role_scopes db; i_workspaces := i_workspaces db; i_members := i_members db;
     i_classrooms := i_classrooms db; i_class_members := i_class_members db;
     i_join_requests := i_join_requests db; i_sessions := i_sessions db; i_tickets := i_tickets db;
     i_codes := i_codes db; i_email_audits := i_email_audits db; i_audit := i_audit db;
     i_environments := i_environments db; i_runtimes := i_runtimes db; i_leases := i_leases db; i_outbox := v;
     i_next_uuid := i_next_uuid db |}.

Definition set_next_uuid (db : IDB) (v : nat) : IDB :=
  {| i_users := i_users db; i_roles := i_roles db; i_permissions := i_permissions db;
     i_user_roles := i_user_roles db; i_role_permissions := i_role_permissions db;
     i_role_scopes := i_role_scopes db; i_workspaces := i_workspaces db; i_members := i_members db;
     i_classrooms := i_classrooms db; i_class_members := i_class_members db;
     i_join_requests := i_join_requests db; i_sessions := i_sessions db; i_tickets := i_tickets db;
     i_codes := i_codes db; i_email_audits := i_email_audits db; i_audit := i_audit db;
     i_environments := i_environments db; i_runtimes := i_runtimes db; i_leases := i_leases db;
     i_outbox := i_outbox db; i_next_uuid := v |}.

Definition with_sandbox (db : IDB) (x : XDB) : IDB :=
  {| i_users := i_users db; i_roles := i_roles db; i_permissions := i_permissions db;
     i_user_roles := i_user_roles db; i_role_permissions := i_role_permissions db;
     i_role_scopes := i_role_scopes db; i_workspaces := i_workspaces db; i_members := i_members db;
     i_classrooms := i_classrooms db; i_class_members := i_class_members db;
     i_join_requests := i_join_requests db; i_sessions := i_sessions db; i_tickets := i_tickets db;
     i_codes := i_codes db; i_email_audits := i_email_audits db; i_audit := i_audit db;
     i_environments := x_environments x; i_runtimes := x_runtimes x; i_leases := x_leases x;
     i_outbox := x_outbox x; i_next_uuid := x_next_uuid x |}.


Abbreviation Itx := (ST IDB IdentityError).

(** ** The sandbox's view of the store *)

Definition session_view (s : AuthSessionRow) : SessionRow :=
  {| se_user_id := ses_user_id s; se_workspace_id := ses_workspace_id s;
     se_authorization_version := ses_authorization_version s; se_expires_at := ses_expires_at s;
     se_revoked_at := ses_revoked_at s |}.
Definition account_view (a : AccountRow) : UserRow :=
  {| us_authorization_version := ac_authorization_version a; us_status := ac_status a;
     us_deleted_at := ac_deleted_at a |}.
Definition role_view (r : RoleModelRow) : RoleRow := {| ro_code := rm_code r; ro_status := rm_status r |}.
Definition assignment_view (kv : string * string * AssignmentRow) : UserRoleRow :=
  {| ur_user_id := kv.1.1; ur_role_id := kv.1.2; ur_expires_at := as_expires_at kv.2 |}.

Definition sandbox_view (db : IDB) : XDB :=
  {| x_environments := i_environments db; x_runtimes := i_runtimes db; x_leases := i_leases db;
     x_sessions := session_view <$> i_sessions db; x_users := account_view <$> i_users db;
     x_roles := role_view <$> i_roles db; x_user_roles := assignment_view <$> map_to_list (i_user_roles db);
     x_outbox := i_outbox db; x_next_uuid := i_next_uuid db |}.

(** A sandbox transaction inside a transaction of these services; the ones they call do not raise. *)
Definition on_sandbox {A} (m : ST XDB SandboxError A) : Itx A := fun db =>
  match m (sandbox_view db) with
  | Ok (a, x) => Ok (a, with_sandbox db x)
  | Err _ => Err IntegrityError
  end.

(** ** Assignments to rows *)

(** The columns of an account the account calls assign. *)
Definition account_with (hash display status : string) (version : Z) (deleted : option Z) (a : AccountRow)
  : AccountRow :=
  {| ac_username := ac_username a; ac_password_hash := hash; ac_display_name := display; ac_status := status;
     ac_authorization_version := version; ac_deleted_at := deleted; ac_last_login_at := ac_last_login_at a;
     ac_email := ac_email a; ac_email_normalized := ac_email_normalized a;
     ac_registration_source := ac_registration_source a |}.

(** [user.authorization_version += 1]. *)
Definition bumped (a : AccountRow) : AccountRow :=
  account_with (ac_password_hash a) (ac_display_name a) (ac_status a) (ac_authorization_version a + 1)
    (ac_deleted_at a) a.
Definition with_status (status : string) (a : AccountRow) : AccountRow :=
  account_with (ac_password_hash a) (ac_display_name a) status (ac_authorization_version a) (ac_deleted_at a) a.
Definition with_deleted (deleted : option Z) (a : AccountRow) : AccountRow :=
  account_with (ac_password_hash a) (ac_display_name a) (ac_status a) (ac_authorization_version a) deleted a.
Definition with_password (hash : string) (a : AccountRow) : AccountRow :=
  account_with hash (ac_display_name a) (ac_status a) (ac_authorization_version a) (ac_deleted_at a) a.
Definition with_display_name (name : string) (a : AccountRow) : AccountRow :=
  account_with (ac_password_hash a) name (ac_status a) (ac_authorization_version a) (ac_deleted_at a) a.
Definition with_last_login (at_ : Z) (a : AccountRow) : AccountRow :=
  {| ac_username := ac_username a; ac_password_hash := ac_password_hash a; ac_display_name := ac_display_name a;
     ac_status := ac_status a; ac_authorization_version := ac_authorization_version a;
     ac_deleted_at := ac_deleted_at a; ac_last_login_at := Some at_; ac_email := ac_email a;
     ac_email_normalized := ac_email_normalized a; ac_registration_source := ac_registration_source a |}.
Definition with_email (email : string) (a : AccountRow) : AccountRow :=
  {| ac_username := ac_username a; ac_password_hash := ac_password_hash a; ac_display_name := ac_display_name a;
     ac_status := ac_status a; ac_authorization_version := ac_authorization_version a;
     ac_deleted_at := ac_deleted_at a; ac_last_login_at := ac_last_login_at a; ac_email := Some email;
     ac_email_normalized := Some email; ac_registration_source := "email" |}.

(** The columns of a session that change. *)
Definition session_with (csrf : string) (seen : option Z) (expires : Z) (revoked : option Z) (s : AuthSessionRow)
  : AuthSessionRow :=
  {| ses_user_id := ses_user_id s; ses_workspace_id := ses_workspace_id s; ses_token_hash := ses_token_hash s;
     ses_csrf_hash := csrf; ses_issued_at := ses_issued_at s; ses_last_seen_at := seen;
     ses_authorization_version := ses_authorization_version s; ses_expires_at := expires;
     ses_revoked_at := revoked |}.
Definition session_revoked (at_ : Z) (s : AuthSessionRow) : AuthSessionRow :=
  session_with (ses_csrf_hash s) (ses_last_seen_at s) (ses_expires_at s) (Some at_) s.
Definition session_seen (at_ expires : Z) (s : AuthSessionRow) : AuthSessionRow :=
  session_with (ses_csrf_hash s) (Some at_) expires (ses_revoked_at s) s.

(** A decided request. *)
Definition decided (status reviewer : string) (number : option string) (at_ : Z) (r : JoinRequestRow)
  : JoinRequestRow :=
  {| jr_class_id := jr_class_id r; jr_user_id := jr_user_id r; jr_student_number := number; jr_status := status;
     jr_requested_at := jr_requested_at r; jr_reviewed_at := Some at_; jr_reviewed_by := Some reviewer |}.

(** ** Statements *)

Section identity_store.
Context `{Uuids}.

Definition istmt {A} (f : IDB -> result IdentityError (A * IDB)) : Itx A := f.

Definition fresh_uuid : Itx string := fun db =>
  Ok (uuid4 (i_next_uuid db), set_next_uuid db (S (i_next_uuid db))).

(** [session.add(OutboxMessageModel(...))]. *)
Definition publish (topic : string) (payload : json) : Itx () :=
  modify (fun db => set_outbox db (i_outbox db ++ [(topic, payload)])).

Definition get_account (uid : string) : Itx (option AccountRow) := gets (fun db => i_users db !! uid).
Definition update_account (uid : string) (f : AccountRow -> AccountRow) : Itx () :=
  modify (fun db => set_users db (alter f uid (i_users db))).

(** The role row of a code, which is unique. *)
Definition role_of (code : string) (db : IDB) : option (string * RoleModelRow) :=
  List.find (fun kv : string * RoleModelRow => String.eqb (rm_code kv.2) code) (map_to_list (i_roles db)).

(** The account of a user name: MySQL keeps [LOWER(username)] in a column of its own, unique too. *)
Definition account_named (name_lower : string) (db : IDB) : option (string * AccountRow) :=
  List.find (fun kv : string * AccountRow => String.eqb (lower (ac_username kv.2)) name_lower)
    (map_to_list (i_users db)).

(** [session.add(UserModel(...))]: the primary key and the unique user name, in both cases. *)
Definition insert_account (uid : string) (a : AccountRow) : Itx () :=
  istmt (fun db =>
    match i_users db !! uid, account_named (lower (ac_username a)) db with
    | None, None => Ok ((), set_users db (<[uid := a]> (i_users db)))
    | _, _ => Err IntegrityError
    end).

(** The e-mail columns of an account, under the unique index of the normalised one. *)
Definition has_email (email : string) (a : AccountRow) : bool := bool_decide (ac_email_normalized a = Some email).
Definition email_taken (uid email : string) (db : IDB) : bool :=
  existsb (fun kv : string * AccountRow => negb (String.eqb kv.1 uid) && has_email email kv.2) (map_to_list (i_users db)).
Definition set_email (uid email : string) : Itx () :=
  istmt (fun db =>
    if email_taken uid email db then Err IntegrityError
    else Ok ((), set_users db (alter (with_email email) uid (i_users db)))).

(** [session.add(WorkspaceModel(...))]: the widths of the columns, the primary key and the slug. *)
Definition slug_taken (slug : string) (db : IDB) : bool :=
  existsb (fun kv : string * WorkspaceRow => String.eqb (ws_slug kv.2) slug) (map_to_list (i_workspaces db)).
Definition insert_workspace (wid : string) (w : WorkspaceRow) : Itx () :=
  istmt (fun db =>
    if (128 <? char_length (ws_name w))%nat || (64 <? char_length (ws_slug w))%nat then Err DataError
    else if bool_decide (i_workspaces db !! wid <> None) || slug_taken (ws_slug w) db then Err IntegrityError
    else Ok ((), set_workspaces db (<[wid := w]> (i_workspaces db)))).

(** [session.add(WorkspaceMemberModel(...))]: the primary key and both foreign keys. *)
Definition insert_member (wid uid : string) (m : MemberRow) : Itx () :=
  istmt (fun db =>
    match i_members db !! (wid, uid), i_workspaces db !! wid, i_users db !! uid with
    | None, Some _, Some _ => Ok ((), set_members db (<[(wid, uid) := m]> (i_members db)))
    | _, _, _ => Err IntegrityError
    end).
Definition update_member (wid uid : string) (f : MemberRow -> MemberRow) : Itx () :=
  modify (fun db => set_members db (alter f (wid, uid) (i_members db))).

(** [session.add(UserRoleModel(...))]: the primary key and the foreign keys. *)
Definition insert_assignment (uid rid : string) (a : AssignmentRow) : Itx () :=
  istmt (fun db =>
    match i_user_roles db !! (uid, rid), i_users db !! uid, i_roles db !! rid with
    | None, Some _, Some _ =>
        if match as_assigned_by_user_id a with None => true | Some b => bool_decide (i_users db !! b <> None) end
        then Ok ((), set_user_roles db (<[(uid, rid) := a]> (i_user_roles db)))
        else Err IntegrityError
    | _, _, _ => Err IntegrityError
    end).

(** [delete(UserRoleModel).where(user_id == ...)]. *)
Definition delete_assignments (uid : string) : Itx () :=
  modify (fun db => set_user_roles db (filter (fun kv => kv.1.1 <> uid) (i_user_roles db))).

(** [session.add(ClassroomModel(...))]: the primary key, one classroom per workspace, the workspace. *)
Definition classroom_in (wid : string) (db : IDB) : bool :=
  existsb (fun kv : string * ClassroomRow => String.eqb (cl_workspace_id kv.2) wid) (map_to_list (i_classrooms db)).
Definition insert_classroom (cid : string) (c : ClassroomRow) : Itx () :=
  istmt (fun db =>
    if (128 <? char_length (cl_name c))%nat then Err DataError
    else if bool_decide (i_classrooms db !! cid <> None) || classroom_in (cl_workspace_id c) db
            || bool_decide (i_workspaces db !! cl_workspace_id c = None) then Err IntegrityError
    else Ok ((), set_classrooms db (<[cid := c]> (i_classrooms db)))).

(** [session.add(ClassroomMemberModel(...))]. *)
Definition insert_class_member (cid uid : string) (m : ClassMemberRow) : Itx () :=
  istmt (fun db =>
    match i_class_members db !! (cid, uid), i_classrooms db !! cid, i_users db !! uid with
    | None, Some _, Some _ => Ok ((), set_class_members db (<[(cid, uid) := m]> (i_class_members db)))
    | _, _, _ => Err IntegrityError
    end).

(** The unique key [(class_id, user_id, status)] of the join requests. *)
Definition request_key_taken (rid class user status : string) (db : IDB) : bool :=
  existsb (fun kv : string * JoinRequestRow =>
             negb (String.eqb kv.1 rid) && String.eqb (jr_class_id kv.2) class && String.eqb (jr_user_id kv.2) user
             && String.eqb (jr_status kv.2) status) (map_to_list (i_join_requests db)).
Definition put_request (rid : string) (r : JoinRequestRow) : Itx () :=
  istmt (fun db =>
    if request_key_taken rid (jr_class_id r) (jr_user_id r) (jr_status r) db then Err IntegrityError
    else Ok ((), set_join_requests db (<[rid := r]> (i_join_requests db)))).
Definition insert_request (rid : string) (r : JoinRequestRow) : Itx () :=
  istmt (fun db =>
    match i_join_requests db !! rid, i_classrooms db !! jr_class_id r, i_users db !! jr_user_id r with
    | None, Some _, Some _ => put_request rid r db
    | _, _, _ => Err IntegrityError
    end).

(** [session.add(SessionModel(...))]: the primary key, the unique token hash and the foreign keys. *)
Definition session_by_token (hash : string) (db : IDB) : option (string * AuthSessionRow) :=
  List.find (fun kv : string * AuthSessionRow => String.eqb (ses_token_hash kv.2) hash) (map_to_list (i_sessions db)).
Definition insert_session (sid : string) (s : AuthSessionRow) : Itx () :=
  istmt (fun db =>
    match i_sessions db !! sid, session_by_token (ses_token_hash s) db, i_users db !! ses_user_id s,
          i_workspaces db !! ses_workspace_id s with
    | None, None, Some _, Some _ => Ok ((), set_sessions db (<[sid := s]> (i_sessions db)))
    | _, _, _, _ => Err IntegrityError
    end).
Definition update_session (sid : string) (f : AuthSessionRow -> AuthSessionRow) : Itx () :=
  modify (fun db => set_sessions db (alter f sid (i_sessions db))).
Definition update_sessions (p : AuthSessionRow -> bool) (f : AuthSessionRow -> AuthSessionRow) : Itx () :=
  modify (fun db => set_sessions db ((fun s => if p s then f s else s) <$> i_sessions db)).

(** [session.add(WsTicketModel(...))]. *)
Definition ticket_by_hash (hash : string) (db : IDB) : option (string * TicketRow) :=
  List.find (fun kv : string * TicketRow => String.eqb (tk_ticket_hash kv.2) hash) (map_to_list (i_tickets db)).
Definition insert_ticket (tid : string) (t : TicketRow) : Itx () :=
  istmt (fun db =>
    match i_tickets db !! tid, ticket_by_hash (tk_ticket_hash t) db, i_sessions db !! tk_auth_session_id t with
    | None, None, Some _ => Ok ((), set_tickets db (<[tid := t]> (i_tickets db)))
    | _, _, _ => Err IntegrityError
    end).
Definition update_ticket (tid : string) (f : TicketRow -> TicketRow) : Itx () :=
  modify (fun db => set_tickets db (alter f tid (i_tickets db))).
End identity_store.
