(* ===== verification/IdentityCodes.v ===== *)
(** * IdentityCodes: one-time codes and the limits on sending them

    [server/auth/code_store.py], [server/user/email.py] and the two endpoints of
    [server/web/app.py] that issue codes ([get_captcha], [send_email_code]).  SHA-256 is the
    parameter [sha256_hex]; the code drawn and what the e-mail provider answers are arguments.
    A request is one transaction: an endpoint that raises is rolled back. *)
From S2P Require Import Prelude PyText Clock Json SandboxStore Authorization IdentityStore.
Local Open Scope Z_scope.

(** ** Text *)

(** [s.casefold()], exact on the ASCII characters of the result, which are all that is compared:
    the characters outside ASCII whose case folding has one. *)
Definition CASEFOLDS : list (string * string) :=
  (prod_map bytes (fun s => s)) <$>
  [ ([226; 132; 170]%nat, "k"); ([197; 191]%nat, "s"); ([195; 159]%nat, "ss"); ([225; 186; 158]%nat, "ss");
    ([239; 172; 128]%nat, "ff"); ([239; 172; 129]%nat, "fi"); ([239; 172; 130]%nat, "fl");
    ([239; 172; 131]%nat, "ffi"); ([239; 172; 132]%nat, "ffl"); ([239; 172; 133]%nat, "st");
    ([239; 172; 134]%nat, "st"); ([196; 176]%nat, "i" +:+ bytes [204; 135]%nat);
    ([197; 137]%nat, bytes [202; 188]%nat +:+ "n"); ([199; 176]%nat, "j" +:+ bytes [204; 140]%nat);
    ([225; 186; 150]%nat, "h" +:+ bytes [204; 177]%nat); ([225; 186; 151]%nat, "t" +:+ bytes [204; 136]%nat);
    ([225; 186; 152]%nat, "w" +:+ bytes [204; 138]%nat); ([225; 186; 153]%nat, "y" +:+ bytes [204; 138]%nat);
    ([225; 186; 154]%nat, "a" +:+ bytes [202; 190]%nat) ].

Fixpoint casefold_from (skip : nat) (s : string) : string :=
  match s with
  | EmptyString => EmptyString
  | String c s' =>
      match skip with
      | S k => casefold_from k s'
      | O => match List.find (fun kv : string * string => String.prefix kv.1 s) CASEFOLDS with
             | Some (w, r) => r +:+ casefold_from (pred (String.length w)) s'
             | None => String (ascii_lower c) (casefold_from 0 s')
             end
      end
  end.
Definition casefold (s : string) : string := casefold_from 0 s.

Definition ascii_between (lo hi : nat) (c : ascii) : bool := (lo <=? nat_of_ascii c)%nat && (nat_of_ascii c <=? hi)%nat.
Definition alpha (c : ascii) : bool := ascii_between 65 90 c || ascii_between 97 122 c.
Definition label_char (c : ascii) : bool := alpha c || ascii_between 48 57 c || Ascii.eqb c "-".
Definition local_char (c : ascii) : bool :=
  label_char c || existsb (Ascii.eqb c) (String.list_ascii_of_string "!#$%&'*+/=?^_`{|}~.").

Definition all_chars (p : ascii -> bool) (s : string) : bool := forallb p (String.list_ascii_of_string s).
Definition some_chars (p : ascii -> bool) (s : string) : bool := negb (String.eqb s "") && all_chars p s.

(** [s.split(sep)] for a separator of one character. *)
Fixpoint split_on (sep : ascii) (s : string) : list string :=
  match s with
  | EmptyString => [""]
  | String c s' =>
      if Ascii.eqb c sep then "" :: split_on sep s'
      else match split_on sep s' with
           | [] => [String c ""]
           | x :: l => String c x :: l
           end
  end.

(** [_EMAIL_RE.fullmatch]: none of its classes holds an at sign, and only the first a dot. *)
Definition EMAIL_RE (s : string) : bool :=
  match split_on "@" s with
  | [local; domain] =>
      some_chars local_char local
      && match rev (split_on "." domain) with
         | tld :: label :: labels =>
             all_chars alpha tld && (2 <=? String.length tld)%nat && forallb (some_chars label_char) (label :: labels)
         | _ => false
         end
  | _ => false
  end.

(** [normalize_email]. *)
Definition normalize_email (v : string) : result IdentityError string :=
  let raw := strip v in
  if String.eqb raw "" then Err InvalidEmailError
  else
    let folded := casefold raw in
    if (254 <? char_length folded)%nat || negb (EMAIL_RE folded) then Err InvalidEmailError else Ok folded.

(** ** The code store *)

Definition EMAIL_CODE_TTL_S : Z := 120.
Definition CAPTCHA_TTL_S : Z := 120.
Definition EMAIL_RESEND_COOLDOWN_S : Z := 60.
Definition EMAIL_MAX_PER_EMAIL_HOUR : nat := 10.
Definition EMAIL_MAX_PER_IP_HOUR : nat := 30.
Definition HOUR : Z := seconds 3600.

Section codes.
Context `{Uuids}.
Variable sha256_hex : string -> string.

Definition code_hash (code : string) : string := sha256_hex (casefold (strip code)).

(** The row of a subject: [(kind, subject)] is unique. *)
Definition code_row (kind subject : string) (db : IDB) : option (string * AuthCodeRow) :=
  List.find (fun kv : string * AuthCodeRow => String.eqb (co_kind kv.2) kind && String.eqb (co_subject kv.2) subject)
    (map_to_list (i_codes db)).

Definition put_code (kind subject code : string) (ttl_s : Z) (client_ip : option string) (now_ : Z) : Itx () :=
  found ← gets (code_row kind subject);
  match found with
  | None =>
      cid ← fresh_uuid;
      istmt (fun db =>
        if decide (i_codes db !! cid = None)
        then Ok ((), set_codes db (<[cid := {| co_kind := kind; co_subject := subject; co_code_hash := code_hash code;
                                               co_expires_at := now_ + seconds ttl_s; co_client_ip := client_ip;
                                               co_created_at := now_ |}]> (i_codes db)))
        else Err IntegrityError)
  | Some (cid, row) =>
      modify (fun db => set_codes db (<[cid := {| co_kind := co_kind row; co_subject := co_subject row;
                                                  co_code_hash := code_hash code;
                                                  co_expires_at := now_ + seconds ttl_s; co_client_ip := client_ip;
                                                  co_created_at := co_created_at row |}]> (i_codes db)))
  end.

Definition consume_code (kind subject code : string) (now_ : Z) : Itx bool :=
  found ← gets (code_row kind subject);
  match found with
  | None => mret false
  | Some (cid, row) =>
      _ ← modify (fun db => set_codes db (delete cid (i_codes db)));
      mret (if co_expires_at row <? now_ then false else String.eqb (co_code_hash row) (code_hash code))
  end.

(** [select(func.max(created_at))], [None] when no row matches. *)
Definition last_send (email : string) (db : IDB) : option Z :=
  match em_created_at <$> List.filter (fun r => String.eqb (em_email r) email) (i_email_audits db) with
  | [] => None
  | t :: l => Some (list_maxZ t l)
  end.
Definition sends_since (p : EmailSendRow -> bool) (floor_ : Z) (l : list EmailSendRow) : nat :=
  length (List.filter (fun r => p r && (floor_ <? em_created_at r)) l).

Definition email_send_allowed (email : string) (client_ip : option string) (now_ : Z) : Itx (bool * string) :=
  let hour_ago := now_ - HOUR in
  last_ ← gets (last_send email);
  if match last_ with Some t => now_ - seconds EMAIL_RESEND_COOLDOWN_S <? t | None => false end
  then mret (false, "email_send_too_frequent")
  else
    email_count ← gets (fun db => sends_since (fun r => String.eqb (em_email r) email) hour_ago (i_email_audits db));
    if (EMAIL_MAX_PER_EMAIL_HOUR <=? email_count)%nat then mret (false, "email_send_email_limit")
    else
      match given client_ip with
      | None => mret (true, "")
      | Some ip =>
          ip_count ← gets (fun db => sends_since (fun r => bool_decide (em_client_ip r = Some ip)) hour_ago
                                       (i_email_audits db));
          if (EMAIL_MAX_PER_IP_HOUR <=? ip_count)%nat then mret (false, "email_send_ip_limit") else mret (true, "")
      end.

Definition purge_expired (now_ : Z) : Itx () :=
  let cutoff := now_ - HOUR in
  modify (fun db => set_email_audits
    (set_codes db (filter (fun kv => cutoff <= co_created_at kv.2) (i_codes db)))
    (List.filter (fun r => cutoff <=? em_created_at r) (i_email_audits db))).

Definition record_email_send (email : string) (client_ip : option string) (outcome : string) (now_ : Z) : Itx () :=
  _ ← fresh_uuid;
  modify (fun db => set_email_audits db
    (i_email_audits db ++ [{| em_email := email; em_client_ip := client_ip; em_outcome := outcome;
                              em_created_at := now_ |}])).

(** ** The endpoints *)

(** [get_captcha]. *)
Definition get_captcha (captcha_id code : string) (now_ : Z) : Itx () :=
  put_code "captcha" captcha_id code CAPTCHA_TTL_S None now_.

(** What [create_email_provider_from_env] answers: an [EmailConfigurationError], no provider, or one
    that does or does not deliver. *)
Inductive EmailProvider := Misconfigured | NoProvider | Provider (delivers : bool).

(** [send_email_code]: the status of the answer. *)
Definition send_email_code (captcha_id captcha_code email_text : string) (client_ip : option string)
  (provider : EmailProvider) (code : string) (now_ : Z) : Itx Z :=
  _ ← purge_expired now_;
  solved ← consume_code "captcha" captcha_id captcha_code now_;
  if negb solved then raise (HTTPException 400 "Invalid or expired CAPTCHA")
  else
    match normalize_email email_text with
    | Err _ => raise (HTTPException 422 "invalid email")
    | Ok email =>
        verdict_ ← email_send_allowed email client_ip now_;
        if negb (verdict_.1 : bool) then raise (HTTPException 429 verdict_.2)
        else
          match provider with
          | Misconfigured => raise (HTTPException 503 "email configuration")
          | Provider false =>
              _ ← record_email_send email client_ip "failed" now_;
              mret 502
          | _ =>
              _ ← record_email_send email client_ip "sent" now_;
              _ ← put_code "email" email code EMAIL_CODE_TTL_S client_ip now_;
              mret 200
          end
    end.
End codes.

Example normalize_email_example : normalize_email " Ada@Example.ORG " = Ok "ada@example.org".
Proof. vm_compute. reflexivity. Qed.
Example normalize_email_rejects : normalize_email "ada@localhost" = Err InvalidEmailError.
Proof. vm_compute. reflexivity. Qed.
