(* ===== verification/IdentityAdmin.v ===== *)
(** * IdentityAdmin: roles, permissions, principals and classrooms

    [RbacService] ([server/rbac/service.py]): what the database says of a user, the roles and the
    permissions they grant, classrooms and the rows of the authorisation audit.  Each call is a
    function of the store inside the transaction of its request; [now_] is its clock.  The role
    row that [_lock_developer_role] locks makes the calls that check for the last developer
    serial, as every call is here. *)
From S2P Require Import Prelude PyText Clock Json SandboxStore Sandbox Authorization IdentityStore IdentityCodes.
Local Open Scope Z_scope.

Section identity_admin.
Context `{Uuids}.
Variable sha256_hex : string -> string.

(** ** Audit and revocation *)

(** [audit]: the foreign keys are those on the actor and on the target. *)
Definition known (uid : option string) (db : IDB) : bool :=
  match uid with None => true | Some u => bool_decide (i_users db !! u <> None) end.
Definition audit (actor target : option string) (decision reason_code : string)
  (permission_code resource_type resource_id : option string) (detail : json) (now_ : Z) : Itx () :=
  _ ← fresh_uuid;
  istmt (fun db =>
    if known actor db && known target db
    then Ok ((), set_audit db (i_audit db ++
           [{| au_actor_user_id := actor; au_target_user_id := target; au_decision := decision;
               au_reason_code := reason_code; au_permission_code := permission_code;
               au_resource_type := resource_type; au_resource_id := resource_id; au_detail := detail;
               au_created_at := now_ |}]))
    else Err IntegrityError).

Definition changed_message (uid reason : string) : json := JObj [("user_id", JStr uid); ("reason", JStr reason)].

(** [_mark_authorization_changed], which the calls of [RbacService] write out. *)
Definition mark_authorization_changed (uid reason : string) (now_ : Z) : Itx () :=
  _ ← on_sandbox (revoke_user_leases uid ("authorization.changed:" +:+ reason) now_);
  _ ← fresh_uuid;
  publish "authorization.changed" (changed_message uid reason).

(** ** What the database says of a user *)

Definition assigned (now_ : Z) (a : AssignmentRow) : bool :=
  match as_expires_at a with None => true | Some e => now_ <? e end.
Definition fixed_role (r : RoleModelRow) : bool := String.eqb (rm_status r) "active" && string_in (rm_code r) ROLE_NAMES.

(** The identifiers of the active fixed roles a user holds at an instant. *)
Definition role_ids (now_ : Z) (uid : string) (db : IDB) : list string :=
  omap (fun kv : string * string * AssignmentRow =>
          if String.eqb kv.1.1 uid && assigned now_ kv.2
          then r ← i_roles db !! kv.1.2; if fixed_role r then Some kv.1.2 else None
          else None) (map_to_list (i_user_roles db)).

(** [roles_for]. *)
Definition roles_for (now_ : Z) (uid : string) (db : IDB) : gset string :=
  list_to_set (omap (fun rid => rm_code <$> i_roles db !! rid) (role_ids now_ uid db)).

Definition active_code (db : IDB) (pid : string) : option string :=
  p ← i_permissions db !! pid; if String.eqb (pm_status p) "active" then Some (pm_code p) else None.

Definition granted_codes (rids : list string) (db : IDB) : gset string :=
  list_to_set (omap (fun kv : string * string * option string =>
                       if decide (kv.1.1 ∈ rids) then active_code db kv.1.2 else None)
                 (map_to_list (i_role_permissions db))).

(** [result[code] = result.get(code, frozenset()) | {scope}]. *)
Definition add_scope (kv : string * string) (m : gmap string (gset string)) : gmap string (gset string) :=
  <[kv.1 := {[kv.2]} ∪ default ∅ (m !! kv.1)]> m.
Definition granted_scopes (rids : list string) (db : IDB) : gmap string (gset string) :=
  foldr add_scope ∅
    (omap (fun k : string * string * string =>
             if decide (k.1.1 ∈ rids) then code ← active_code db k.1.2; Some (code, k.2) else None)
       (elements (i_role_scopes db))).

Definition active_workspaces (uid : string) (db : IDB) : gset string :=
  list_to_set (omap (fun kv : string * string * MemberRow =>
                       if String.eqb kv.1.2 uid && String.eqb (mb_status kv.2) "active" then Some kv.1.1 else None)
                 (map_to_list (i_members db))).
Definition active_classroom (db : IDB) (cid : string) : bool :=
  match i_classrooms db !! cid with Some c => String.eqb (cl_status c) "active" | None => false end.
Definition active_classrooms (uid : string) (db : IDB) : gset string :=
  list_to_set (omap (fun kv : string * string * ClassMemberRow =>
                       if String.eqb kv.1.2 uid && String.eqb (cm_status kv.2) "active" && active_classroom db kv.1.1
                       then Some kv.1.1 else None) (map_to_list (i_class_members db))).

(** [principal_for_user_id]. *)
Definition usable (a : AccountRow) : bool := String.eqb (ac_status a) "active" && bool_decide (ac_deleted_at a = None).
Definition principal_for_user_id (uid : string) (now_ : Z) : Itx Principal :=
  found ← get_account uid;
  match found with
  | Some a =>
      if usable a then
        gets (fun db =>
          let rids := role_ids now_ uid db in
          {| user_id := uid; workspace_ids := active_workspaces uid db; classroom_ids := active_classrooms uid db;
             roles := roles_for now_ uid db; permissions := granted_codes rids db;
             permission_scopes := granted_scopes rids db;
             authorization_version := ac_authorization_version a |})
      else raise PermissionError
  | None => raise PermissionError
  end.

(** [principal_for_username]. *)
Definition principal_for_username (username : string) (now_ : Z) : Itx Principal :=
  found ← gets (account_named (casefold username));
  match found with
  | Some (uid, _) => principal_for_user_id uid now_
  | None => raise PermissionError
  end.

(** ** [RbacService]: roles *)

Definition builtin_role (r : RoleModelRow) : bool := string_in (rm_code r) ROLE_NAMES && rm_is_builtin r.

(** [create_role]: the four roles are fixed. *)
Definition create_role (code name description : string) : Itx () := raise PermissionError.

(** [role_permissions]: a granted permission without a scope has an empty set. *)
Definition scopes_of (rid pid : string) (db : IDB) : gset string :=
  list_to_set ((fun k : string * string * string => k.2) <$>
    List.filter (fun k : string * string * string => bool_decide (k.1 = (rid, pid))) (elements (i_role_scopes db))).
Definition merge_scopes (kv : string * gset string) (m : gmap string (gset string)) : gmap string (gset string) :=
  <[kv.1 := kv.2 ∪ default ∅ (m !! kv.1)]> m.
Definition role_grants (rid : string) (db : IDB) : gmap string (gset string) :=
  foldr merge_scopes ∅
    (omap (fun kv : string * string * option string =>
             if decide (kv.1.1 = rid)
             then p ← i_permissions db !! kv.1.2; Some (pm_code p, scopes_of rid kv.1.2 db)
             else None) (map_to_list (i_role_permissions db))).
Definition role_permissions (role_code : string) : Itx (gmap string (gset string)) :=
  found ← gets (role_of role_code);
  match found with
  | Some (rid, r) => if builtin_role r then gets (role_grants rid) else raise KeyError
  | None => raise KeyError
  end.

(** [invalidate_role_users]: every account with an assignment of the role, expired or not. *)
Definition role_holders (rid : string) (db : IDB) : gset string :=
  list_to_set (omap (fun kv : string * string * AssignmentRow => if String.eqb kv.1.2 rid then Some kv.1.1 else None)
                 (map_to_list (i_user_roles db))).
Definition invalidate_role_users (rid reason : string) (now_ : Z) : Itx (gset string) :=
  user_ids ← gets (role_holders rid);
  _ ← modify (fun db => set_users db
        (map_imap (fun uid a => Some (if decide (uid ∈ user_ids) then bumped a else a)) (i_users db)));
  _ ← st_iter (fun uid => on_sandbox (revoke_user_leases uid ("authorization.changed:" +:+ reason) now_))
        (elements user_ids);
  _ ← st_iter (fun uid => _ ← fresh_uuid; publish "authorization.changed" (changed_message uid reason))
        (elements user_ids);
  mret user_ids.

(** [update_role_status]: the status of a fixed role cannot change. *)
Definition update_role_status (role_code status actor : string) (now_ : Z) : Itx (gset string) :=
  found ← gets (role_of role_code);
  match found with
  | Some (rid, r) =>
      if negb (string_in (rm_code r) ROLE_NAMES) || rm_is_builtin r then raise PermissionError
      else
        _ ← modify (fun db => set_roles db (<[rid := {| rm_code := rm_code r; rm_status := status;
                                                        rm_is_builtin := rm_is_builtin r |}]> (i_roles db)));
        _ ← audit (Some actor) None "allow" "role_status_changed" (Some "system:role:manage") (Some "role")
              (Some role_code) (JObj [("status", JStr status)]) now_;
        invalidate_role_users rid "role_status_changed" now_
  | None => raise PermissionError
  end.

Definition VALID_SCOPES : gset string := {["public"; "own"; "classroom"; "workspace"; "system"]}.
Definition system_only (scopes : gmap string (gset string)) (code : string) : bool :=
  bool_decide (scopes !! code = Some {["system"]}).

(** The checks of [replace_role_permissions] on what is asked for. *)
Definition check_grant (role_code : string) (codes : gset string) (scopes : gmap string (gset string))
  : result IdentityError () :=
  if negb (bool_decide (dom scopes ⊆ codes))
     || negb (bool_decide (map_Forall (fun _ s => s <> ∅ /\ s ⊆ VALID_SCOPES) scopes)) then Err ValueError
  else if bool_decide (value LEARNING_FEEDBACK_READ ∈ codes) && negb (system_only scopes (value LEARNING_FEEDBACK_READ))
  then Err ValueError
  else if bool_decide (value LEARNING_FEEDBACK_WRITE ∈ codes) && negb (system_only scopes (value LEARNING_FEEDBACK_WRITE))
  then Err ValueError
  else if String.eqb role_code "developer" then
    let required : list string := [value SYSTEM_USER_MANAGE; value SYSTEM_ROLE_MANAGE] in
    if negb (bool_decide (list_to_set required ⊆ codes)) then Err PermissionError
    else if existsb (fun code => negb (system_only scopes code)) required then Err ValueError
    else Ok ()
  else Ok ().

Definition permission_rows (codes : gset string) (db : IDB) : list (string * PermissionRow) :=
  List.filter (fun kv : string * PermissionRow => bool_decide (pm_code kv.2 ∈ codes) && String.eqb (pm_status kv.2) "active")
    (map_to_list (i_permissions db)).

(** The rows of a role, replaced. *)
Definition with_role_grants (rid actor : string) (rows : list (string * PermissionRow))
  (scopes : gmap string (gset string)) (db : IDB) : IDB :=
  set_role_scopes
    (set_role_permissions db
       (list_to_map ((fun kv : string * PermissionRow => ((rid, kv.1), Some actor)) <$> rows)
        ∪ filter (fun kv => kv.1.1 <> rid) (i_role_permissions db)))
    (list_to_set (kv ← rows; scope ← elements (default ∅ (scopes !! pm_code kv.2)); [(rid, kv.1, scope)])
     ∪ filter (fun k => k.1.1 <> rid) (i_role_scopes db)).

(** [replace_role_permissions]. *)
Definition replace_role_permissions (role_code : string) (codes : gset string) (scopes : gmap string (gset string))
  (actor : string) (now_ : Z) : Itx (gset string) :=
  found ← gets (role_of role_code);
  match found with
  | Some (rid, r) =>
      if builtin_role r then
        rows ← gets (permission_rows codes);
        if decide (list_to_set ((fun kv : string * PermissionRow => pm_code kv.2) <$> rows) = codes) then
          _ ← lift (check_grant role_code codes scopes);
          _ ← modify (with_role_grants rid actor rows scopes);
          _ ← audit (Some actor) None "allow" "role_permissions_replaced" (Some "system:role:manage") (Some "role")
                (Some role_code) (JObj []) now_;
          invalidate_role_users rid "role_permissions_changed" now_
        else raise UnknownRoleError
      else raise PermissionError
  | None => raise PermissionError
  end.

(** The rows of the roles asked for. *)
Definition requested_roles (codes : gset string) (db : IDB) : list (string * RoleModelRow) :=
  List.filter (fun kv : string * RoleModelRow =>
                 bool_decide (rm_code kv.2 ∈ codes) && fixed_role kv.2 && rm_is_builtin kv.2)
    (map_to_list (i_roles db)).

(** [func.count] of the assignments of the active developer role. *)
Definition is_developer_role (db : IDB) (rid : string) : bool :=
  match i_roles db !! rid with
  | Some r => String.eqb (rm_code r) "developer" && String.eqb (rm_status r) "active"
  | None => false
  end.
Definition developer_count (db : IDB) : nat :=
  length (List.filter (fun kv : string * string * AssignmentRow => is_developer_role db kv.1.2)
            (map_to_list (i_user_roles db))).

Definition json_strings (l : list string) : json := JArr (JStr <$> l).

(** [replace_user_roles]. *)
Definition replace_user_roles (uid : string) (role_codes : gset string) (assigned_by : option string) (now_ : Z)
  : Itx (gset string) :=
  let requested := if decide (role_codes = ∅) then {["guest"]} else role_codes in
  found ← get_account uid;
  match found with
  | None => raise KeyError
  | Some _ =>
      rows ← gets (requested_roles requested);
      let codes : gset string := list_to_set ((fun kv : string * RoleModelRow => rm_code kv.2) <$> rows) in
      current ← gets (roles_for now_ uid);
      count ← gets developer_count;
      if negb (bool_decide (codes = requested)) then raise UnknownRoleError
      else if bool_decide (assigned_by = Some uid) && negb (bool_decide (requested ⊆ current)) then raise PermissionError
      else if bool_decide ("developer" ∈ current) && negb (bool_decide ("developer" ∈ codes)) && (count <=? 1)%nat
      then raise LastDeveloperForbiddenError
      else
        _ ← delete_assignments uid;
        _ ← st_iter (fun kv : string * RoleModelRow =>
              insert_assignment uid kv.1 {| as_expires_at := None; as_assigned_by_user_id := assigned_by |}) rows;
        _ ← update_account uid bumped;
        _ ← mark_authorization_changed uid "user_roles_changed" now_;
        _ ← audit assigned_by (Some uid) "allow" "user_roles_replaced" (Some "system:role:manage") (Some "user")
              (Some uid) (JObj [("before", json_strings (sort_by string_leb (elements current)));
                                ("after", json_strings (sort_by string_leb (elements codes)))]) now_;
        mret codes
  end.

(** ** [RbacService]: classrooms *)

(** [create_classroom]. *)
Definition create_classroom (wid name actor : string) (now_ : Z) : Itx string :=
  taken ← gets (classroom_in wid);
  if taken : bool then raise ValueError
  else
    cid ← fresh_uuid;
    _ ← insert_classroom cid {| cl_workspace_id := wid; cl_name := name; cl_status := "active" |};
    _ ← insert_class_member cid actor {| cm_member_role := "teacher"; cm_status := "active" |};
    _ ← audit (Some actor) None "allow" "classroom_created" (Some "classroom:classroom:create") (Some "classroom")
          (Some cid) (JObj []) now_;
    mret cid.

(** [classroom]. *)
Definition classroom (cid : string) : Itx ClassroomRow :=
  found ← gets (fun db => i_classrooms db !! cid);
  match found with
  | Some c => if String.eqb (cl_status c) "active" then mret c else raise ClassroomNotFoundError
  | None => raise ClassroomNotFoundError
  end.

(** [replace_classroom_member]. *)
Definition replace_classroom_member (cid uid member_role status actor : string) (now_ : Z) : Itx () :=
  if negb (string_in member_role ["student"; "teacher"]) || negb (string_in status ["active"; "disabled"])
  then raise ValueError
  else
    live ← gets (fun db => active_classroom db cid);
    if negb (live : bool) then raise KeyError
    else
      found ← get_account uid;
      match found with
      | None => raise KeyError
      | Some _ =>
          let row := {| cm_member_role := member_role; cm_status := status |} in
          member ← gets (fun db => i_class_members db !! (cid, uid));
          _ ← match member with
              | None => insert_class_member cid uid row
              | Some _ => modify (fun db => set_class_members db (<[(cid, uid) := row]> (i_class_members db)))
              end;
          _ ← update_account uid bumped;
          _ ← mark_authorization_changed uid "classroom_membership_changed" now_;
          audit (Some actor) (Some uid) "allow" "classroom_member_replaced" (Some "classroom:member:manage")
            (Some "classroom") (Some cid) (JObj [("member_role", JStr member_role); ("status", JStr status)]) now_
      end.
End identity_admin.
