(* ===== verification/IdentityAccounts.v ===== *)
(** * IdentityAccounts: accounts, workspaces and requests to join a classroom

    [UserService] ([server/user/service.py]) but for the permanent deletion of an account,
    [WorkspaceService] ([server/workspace/service.py]) and the requests to join a classroom
    ([server/classroom_join/service.py], [server/classroom_join/api.py]).  What pydantic has
    validated ([UserCreate], [WorkspaceCreate]) comes in as arguments, and a password hash is
    what Argon2 answers. *)
From S2P Require Import Prelude PyText Clock Json SandboxStore Sandbox Authorization IdentityStore IdentityCodes IdentityAdmin.
Local Open Scope Z_scope.

Section identity_accounts.
Context `{Uuids}.
Variable sha256_hex : string -> string.

(** ** [UserService] *)

(** [create_user]. *)
Definition create_user (username display_name password_hash : string) (actor : option string) (now_ : Z)
  : Itx string :=
  existing ← gets (account_named (casefold username));
  match existing with
  | Some _ => raise UserAlreadyExistsError
  | None =>
      uid ← fresh_uuid;
      wid ← fresh_uuid;
      _ ← insert_account uid
            {| ac_username := username; ac_password_hash := password_hash; ac_display_name := display_name;
               ac_status := "active"; ac_authorization_version := 1; ac_deleted_at := None;
               ac_last_login_at := None; ac_email := None; ac_email_normalized := None;
               ac_registration_source := "manual" |};
      _ ← insert_workspace wid
            {| ws_slug := "user-" +:+ username; ws_name := display_name +:+ "'s Workspace"; ws_status := "active" |};
      _ ← insert_member wid uid {| mb_member_type := "owner"; mb_status := "active"; mb_created_at := now_ |};
      guest ← gets (role_of "guest");
      match guest with
      | Some (rid, r) =>
          if String.eqb (rm_status r) "active" then
            assigned_by ← gets (fun db => a ← actor; if decide (i_users db !! a = None) then None else Some a);
            _ ← insert_assignment uid rid {| as_expires_at := None; as_assigned_by_user_id := assigned_by |};
            mret uid
          else raise UserServiceError
      | None => raise UserServiceError
      end
  end.

(** [get_user]: an account that is not deleted. *)
Definition get_user (uid : string) : Itx AccountRow :=
  found ← get_account uid;
  match found with
  | Some a => if decide (ac_deleted_at a = None) then mret a else raise UserNotFoundError
  | None => raise UserNotFoundError
  end.

(** [update_user]. *)
Definition update_user (uid : string) (display_name : option string) : Itx () :=
  _ ← get_user uid;
  match display_name with
  | Some name => update_account uid (with_display_name name)
  | None => mret ()
  end.

Definition live_session_of (uid : string) (s : AuthSessionRow) : bool :=
  String.eqb (ses_user_id s) uid && bool_decide (ses_revoked_at s = None).

(** [_revoke_user_sessions]. *)
Definition revoke_sessions_of (uid : string) (now_ : Z) : Itx () :=
  _ ← update_sessions (live_session_of uid) (session_revoked now_);
  on_sandbox (revoke_user_leases uid "authorization.session_revoked" now_).

(** The accounts [_ensure_not_last_developer] counts. *)
Definition developer_ids (db : IDB) : gset string :=
  list_to_set (omap (fun kv : string * string * AssignmentRow =>
                       a ← i_users db !! kv.1.1;
                       if is_developer_role db kv.1.2 && usable a then Some kv.1.1 else None)
                 (map_to_list (i_user_roles db))).
Definition ensure_not_last_developer (uid : string) : Itx () :=
  ids ← gets developer_ids;
  if bool_decide (uid ∈ ids) && (size ids <=? 1)%nat then raise LastDeveloperForbiddenError else mret ().

(** [update_user_status]. *)
Definition update_user_status (uid status : string) (now_ : Z) : Itx () :=
  a ← get_user uid;
  let closing := string_in status ["disabled"; "locked"] in
  _ ← when (closing && String.eqb (ac_status a) "active") (ensure_not_last_developer uid);
  _ ← update_account uid (fun a => bumped (with_status status a));
  _ ← when closing (revoke_sessions_of uid now_);
  mark_authorization_changed uid "user_status_changed" now_.

(** [change_password]. *)
Definition change_password (uid new_hash : string) (now_ : Z) : Itx () :=
  _ ← get_user uid;
  _ ← update_account uid (fun a => bumped (with_password new_hash a));
  _ ← revoke_sessions_of uid now_;
  mark_authorization_changed uid "password_changed" now_.

(** [restore_user]. *)
Definition restore_user (uid : string) (now_ : Z) : Itx () :=
  found ← get_account uid;
  match found with
  | Some a =>
      if decide (ac_deleted_at a = None) then raise UserNotFoundError
      else
        _ ← update_account uid (fun a => bumped (with_status "active" (with_deleted None a)));
        _ ← revoke_sessions_of uid now_;
        mark_authorization_changed uid "user_restored" now_
  | None => raise UserNotFoundError
  end.

(** [soft_delete_user]. *)
Definition soft_delete_user (uid actor : string) (now_ : Z) : Itx () :=
  if String.eqb uid actor then raise SelfDeleteForbiddenError
  else
    _ ← get_user uid;
    _ ← ensure_not_last_developer uid;
    _ ← update_account uid (fun a => bumped (with_status "disabled" (with_deleted (Some now_) a)));
    _ ← revoke_sessions_of uid now_;
    mark_authorization_changed uid "user_soft_deleted" now_.

(** [revoke_user_sessions]: the number of sessions revoked. *)
Definition revoke_user_sessions (uid : string) (now_ : Z) : Itx nat :=
  _ ← get_user uid;
  n ← gets (fun db => length (List.filter (fun kv : string * AuthSessionRow => live_session_of uid kv.2)
                                (map_to_list (i_sessions db))));
  _ ← update_sessions (live_session_of uid) (session_revoked now_);
  _ ← update_account uid bumped;
  _ ← mark_authorization_changed uid "user_sessions_revoked" now_;
  mret n.

(** [register_user]; [username] is the name drawn for the account. *)
Definition register_user (email_text : string) (display_name : option string)
  (captcha_id captcha_code email_code username password_hash : string) (now_ : Z) : Itx string :=
  email ← lift (normalize_email email_text);
  solved ← consume_code sha256_hex "captcha" captcha_id captcha_code now_;
  if negb solved then raise InvalidCaptchaError
  else
    verified ← consume_code sha256_hex "email" email email_code now_;
    if negb verified then raise InvalidEmailCodeError
    else
      existing ← gets (fun db => existsb (fun kv : string * AccountRow =>
                                     has_email email kv.2 || String.eqb (lower (ac_username kv.2)) (casefold username))
                                   (map_to_list (i_users db)));
      if existing : bool then raise EmailAlreadyUsedError
      else
        let stripped := strip (default "" display_name) in
        let name := if String.eqb stripped "" then hd "" (split_on "@" email) else stripped in
        if (char_length name =? 0)%nat || (128 <? char_length name)%nat then raise ValidationError
        else
          uid ← create_user username name password_hash None now_;
          _ ← set_email uid email;
          mret uid.

(** ** [WorkspaceService] *)

(** [create_workspace]; [drawn] is the slug drawn when none is given. *)
Definition create_workspace (slug : option string) (name drawn creator : string) (now_ : Z) : Itx string :=
  let slug := default drawn (given slug) in
  taken ← gets (slug_taken slug);
  if taken : bool then raise WorkspaceAlreadyExistsError
  else
    wid ← fresh_uuid;
    _ ← insert_workspace wid {| ws_slug := slug; ws_name := name; ws_status := "active" |};
    _ ← insert_member wid creator {| mb_member_type := "owner"; mb_status := "active"; mb_created_at := now_ |};
    mret wid.

Definition is_member (wid uid : string) (db : IDB) : bool :=
  match i_members db !! (wid, uid) with Some m => String.eqb (mb_status m) "active" | None => false end.

(** The bump and the message of a change of workspace membership. *)
Definition workspace_membership_changed (uid : string) : Itx () :=
  _ ← update_account uid bumped;
  _ ← fresh_uuid;
  publish "authorization.changed" (changed_message uid "workspace_membership_changed").

(** [add_member]. *)
Definition add_member (wid uid member_type : string) (now_ : Z) : Itx () :=
  workspace ← gets (fun db => i_workspaces db !! wid);
  if negb (match workspace with Some w => String.eqb (ws_status w) "active" | None => false end)
  then raise WorkspaceNotFoundError
  else
    found ← get_account uid;
    if negb (match found with Some a => usable a | None => false end) then raise WorkspaceServiceError
    else
      existing ← gets (fun db => i_members db !! (wid, uid));
      match existing with
      | Some m =>
          if String.eqb (mb_status m) "active" then raise WorkspaceServiceError
          else
            _ ← update_member wid uid (fun m => {| mb_member_type := member_type; mb_status := "active";
                                                   mb_created_at := mb_created_at m |});
            workspace_membership_changed uid
      | None =>
          _ ← insert_member wid uid {| mb_member_type := member_type; mb_status := "active"; mb_created_at := now_ |};
          workspace_membership_changed uid
      end.

Definition active_owner (m : MemberRow) : bool :=
  String.eqb (mb_member_type m) "owner" && String.eqb (mb_status m) "active".
Definition owner_count (wid : string) (db : IDB) : nat :=
  length (List.filter (fun kv : string * string * MemberRow => String.eqb kv.1.1 wid && active_owner kv.2)
            (map_to_list (i_members db))).

(** [remove_member]. *)
Definition remove_member (wid uid : string) : Itx bool :=
  found ← gets (fun db => i_members db !! (wid, uid));
  match found with
  | None => mret false
  | Some m =>
      owners ← gets (owner_count wid);
      if String.eqb (mb_member_type m) "owner" && (owners <=? 1)%nat then raise WorkspaceServiceError
      else
        _ ← update_member wid uid (fun m => {| mb_member_type := mb_member_type m; mb_status := "removed";
                                               mb_created_at := mb_created_at m |});
        account ← get_account uid;
        _ ← when (bool_decide (account <> None)) (workspace_membership_changed uid);
        mret true
  end.

(** ** Requests to join a classroom *)

(** [service.submit_join_request]. *)
Definition submit_join_request (cid uid : string) (student_number : option string) (now_ : Z) : Itx string :=
  rid ← fresh_uuid;
  _ ← insert_request rid
        {| jr_class_id := cid; jr_user_id := uid; jr_student_number := student_number; jr_status := "pending";
           jr_requested_at := now_; jr_reviewed_at := None; jr_reviewed_by := None |};
  mret rid.

Definition pending_request (cid uid : string) (db : IDB) : bool :=
  existsb (fun kv : string * JoinRequestRow =>
             String.eqb (jr_class_id kv.2) cid && String.eqb (jr_user_id kv.2) uid
             && String.eqb (jr_status kv.2) "pending") (map_to_list (i_join_requests db)).

(** The request that [request_id], [class_id] and the status [pending] name together. *)
Definition open_request (rid cid : string) (db : IDB) : option JoinRequestRow :=
  r ← i_join_requests db !! rid;
  if String.eqb (jr_class_id r) cid && String.eqb (jr_status r) "pending" then Some r else None.

(** [service.approve_join_request] and [service.reject_join_request]: the applicant. *)
Definition approve_join_request (rid cid reviewer : string) (number_override : option string) (now_ : Z)
  : Itx (option string) :=
  found ← gets (open_request rid cid);
  match found with
  | None => mret None
  | Some r =>
      let number := match number_override with Some n => Some n | None => jr_student_number r end in
      _ ← put_request rid (decided "approved" reviewer number now_ r);
      mret (Some (jr_user_id r))
  end.
Definition reject_join_request (rid cid reviewer : string) (now_ : Z) : Itx (option string) :=
  found ← gets (open_request rid cid);
  match found with
  | None => mret None
  | Some r =>
      _ ← put_request rid (decided "rejected" reviewer (jr_student_number r) now_ r);
      mret (Some (jr_user_id r))
  end.

(** [_require_classroom_manager]. *)
Definition require_classroom_manager (p : Principal) (cid : string) : Itx () :=
  c ← classroom cid;
  lift (require_resource p (value CLASSROOM_MEMBER_MANAGE)
          {| resource_type := "classroom"; owner_user_id := None; workspace_id := Some (cl_workspace_id c);
             is_public := false; classroom_id := Some cid |}).1.

(** The endpoints: the first submits, the others decide. *)
Definition post_join_request (p : Principal) (cid : string) (student_number : option string) (now_ : Z) : Itx string :=
  _ ← lift (require p (value LEARNING_PROGRESS_READ_SELF) None).1;
  _ ← classroom cid;
  existing ← gets (pending_request cid (user_id p));
  if existing : bool then raise (HTTPException 409 "pending") else submit_join_request cid (user_id p) student_number now_.

Definition post_approval (p : Principal) (cid rid : string) (number_override : option string) (now_ : Z) : Itx () :=
  _ ← require_classroom_manager p cid;
  found ← approve_join_request rid cid (user_id p) number_override now_;
  match found with
  | None => raise (HTTPException 404 "request")
  | Some applicant =>
      _ ← replace_classroom_member cid applicant "student" "active" (user_id p) now_;
      audit (Some (user_id p)) (Some applicant) "allow" "classroom_join_approved" (Some "classroom:member:manage")
        (Some "classroom") (Some cid) (JObj [("request_id", JStr rid)]) now_
  end.

Definition post_rejection (p : Principal) (cid rid : string) (now_ : Z) : Itx () :=
  _ ← require_classroom_manager p cid;
  found ← reject_join_request rid cid (user_id p) now_;
  match found with
  | None => raise (HTTPException 404 "request")
  | Some applicant =>
      audit (Some (user_id p)) (Some applicant) "allow" "classroom_join_rejected" (Some "classroom:member:manage")
        (Some "classroom") (Some cid) (JObj [("request_id", JStr rid)]) now_
  end.
End identity_accounts.
