(* ===== verification/IdentityAuth.v ===== *)
(** * IdentityAuth: browser sessions, websocket tickets and the worker's check

    [DatabaseSessionAuth] and its rate limiter ([server/web/database_auth.py]) and the
    authorisation a worker repeats before it executes a Turn ([server/worker/fencing.py]).
    SHA-256, the verification of an Argon2 hash and the host of an origin are the parameters
    [sha256_hex], [verify] and [netloc]; tokens are drawn by the caller.  [authenticate] commits
    the revocation of a dead session before it raises. *)
From S2P Require Import Prelude PyText Clock Json SandboxStore Sandbox Authorization IdentityStore IdentityCodes IdentityAdmin IdentityAccounts.
Local Open Scope Z_scope.

(** A transaction that ends normally with the exception to raise after its commit. *)
Definition commit_then_raise {A} (m : Itx (result IdentityError A)) (db : IDB) : result IdentityError A * IDB :=
  match m db with
  | Ok (r, db') => (r, db')
  | Err e => (Err e, db)
  end.

(** ** [_RateLimiter] *)

Record RateLimiter := { rl_max_attempts : Z; rl_window_s : Z; rl_failures : gmap string (list Z) }.

Definition rate_limiter (max_attempts window_s : Z) : RateLimiter :=
  {| rl_max_attempts := Z.max 1 max_attempts; rl_window_s := Z.max 1 window_s; rl_failures := ∅ |}.

(** The loop that pops the failures older than the window. *)
Fixpoint drop_old (now_ window_s : Z) (l : list Z) : list Z :=
  match l with
  | t :: l' => if seconds window_s <=? now_ - t then drop_old now_ window_s l' else l
  | [] => []
  end.

Definition set_failures (l : gmap string (list Z)) (r : RateLimiter) : RateLimiter :=
  {| rl_max_attempts := rl_max_attempts r; rl_window_s := rl_window_s r; rl_failures := l |}.
Definition rate_failures (key : string) (r : RateLimiter) : list Z := default [] (rl_failures r !! key).

Definition rate_allowed (key : string) (now_ : Z) (r : RateLimiter) : bool * RateLimiter :=
  let failures := drop_old now_ (rl_window_s r) (rate_failures key r) in
  (Z.of_nat (length failures) <? rl_max_attempts r, set_failures (<[key := failures]> (rl_failures r)) r).
Definition record_failure (key : string) (now_ : Z) (r : RateLimiter) : RateLimiter :=
  set_failures (<[key := rate_failures key r ++ [now_]]> (rl_failures r)) r.
Definition rate_clear (key : string) (r : RateLimiter) : RateLimiter :=
  set_failures (delete key (rl_failures r)) r.

(** ** [DatabaseSessionAuth] *)

(** The settings its constructor clamps. *)
Record AuthSettings := { au_ttl_s : Z; au_idle_timeout_s : Z; au_allowed_origins : list string }.
Definition auth_settings (ttl_s idle_timeout_s : Z) (origins : list string) : AuthSettings :=
  let ttl := Z.min (Z.max ttl_s 300) 604800 in
  {| au_ttl_s := ttl; au_idle_timeout_s := Z.min (Z.max idle_timeout_s 60) ttl; au_allowed_origins := origins |}.

Record Claims := {
  clm_user_id : string;
  clm_workspace_id : string;
  clm_session_id : string;
  clm_token_hash : string;
  clm_csrf_hash : string;
  clm_expires_at : Z;
  clm_authorization_version : Z;
  clm_csrf_token : option string;
}.

Definition claims_of (sid : string) (s : AuthSessionRow) (csrf_token : option string) : Claims :=
  {| clm_user_id := ses_user_id s; clm_workspace_id := ses_workspace_id s; clm_session_id := sid;
     clm_token_hash := ses_token_hash s; clm_csrf_hash := ses_csrf_hash s; clm_expires_at := ses_expires_at s;
     clm_authorization_version := ses_authorization_version s; clm_csrf_token := csrf_token |}.

(** The process: the database and the two limiters of failed logins. *)
Record AuthProcess := { ap_db : IDB; ap_users : RateLimiter; ap_clients : RateLimiter }.

(** [task.authorization] and the context of a worker's task. *)
Record TaskAuthorization := {
  ta_submitter_user_id : string;
  ta_workspace_id : string;
  ta_authorization_version : Z;
}.

Section identity_auth.
Context `{Uuids}.
Variable sha256_hex : string -> string.
Variable verify : string -> string -> bool.
Variable netloc : string -> option string.
Variable cfg : AuthSettings.

(** [token_hash]: [encode] refuses what is not ASCII. *)
Definition token_hash (token : string) : result IdentityError string :=
  if all_chars (fun c => (nat_of_ascii c <? 128)%nat) token then Ok (sha256_hex token) else Err UnicodeEncodeError.
Definition csrf_token_for_session (token : string) : result IdentityError string :=
  token_hash ("nlp-agent:csrf:" +:+ token).

(** [_select_workspace]. *)
Definition select_workspace (uid : string) (wanted : option string) (db : IDB) : option string :=
  (fun kv : string * string * MemberRow => kv.1.1) <$>
  head (sort_by (fun a b : string * string * MemberRow => mb_created_at a.2 <=? mb_created_at b.2)
          (List.filter (fun kv : string * string * MemberRow =>
                          String.eqb kv.1.2 uid && String.eqb (mb_status kv.2) "active"
                          && match given wanted with None => true | Some w => String.eqb kv.1.1 w end)
             (map_to_list (i_members db)))).

(** The session a login opens, once the password is verified. *)
Definition open_session (uid : string) (a : AccountRow) (previous_token workspace : option string) (token : string)
  (now_ : Z) : Itx (string * Claims) :=
  _ ← update_account uid (with_last_login now_);
  selected ← gets (select_workspace uid workspace);
  match selected with
  | None => raise AuthenticationError
  | Some wid =>
      _ ← match given previous_token with
          | None => mret ()
          | Some t =>
              h ← lift (token_hash t);
              update_sessions (fun s => String.eqb (ses_token_hash s) h && bool_decide (ses_revoked_at s = None))
                (session_revoked now_)
          end;
      csrf ← lift (csrf_token_for_session token);
      sid ← fresh_uuid;
      h ← lift (token_hash token);
      let row := {| ses_user_id := uid; ses_workspace_id := wid; ses_token_hash := h;
                    ses_csrf_hash := sha256_hex csrf; ses_issued_at := now_; ses_last_seen_at := Some now_;
                    ses_authorization_version := ac_authorization_version a;
                    ses_expires_at := now_ + seconds (au_ttl_s cfg); ses_revoked_at := None |} in
      _ ← insert_session sid row;
      mret (token, claims_of sid row (Some csrf))
  end.

(** The account a login names, by user name or by e-mail. *)
Definition login_account (normalized : string) (db : IDB) : option (string * AccountRow) :=
  List.find (fun kv : string * AccountRow =>
               (String.eqb (lower (ac_username kv.2)) normalized || has_email normalized kv.2)
               && bool_decide (ac_deleted_at kv.2 = None)) (map_to_list (i_users db)).
Definition login_valid (password : string) (found : option (string * AccountRow)) : option (string * AccountRow) :=
  kv ← found; if String.eqb (ac_status kv.2) "active" && verify (ac_password_hash kv.2) password then Some kv else None.

(** [login] with the limiters of the process. *)
Definition login (username password client_key : string) (previous_token workspace : option string) (token : string)
  (now_ : Z) : Py AuthProcess IdentityError (string * Claims) := fun s =>
  let normalized := casefold username in
  let (user_ok, users) := rate_allowed normalized now_ (ap_users s) in
  let (client_ok, clients) := if user_ok then rate_allowed client_key now_ (ap_clients s) else (false, ap_clients s) in
  if negb (user_ok && client_ok) then
    (Err AuthenticationError, {| ap_db := ap_db s; ap_users := users; ap_clients := clients |})
  else
    match login_valid password (login_account normalized (ap_db s)) with
    | None =>
        (Err AuthenticationError,
         {| ap_db := ap_db s; ap_users := record_failure normalized now_ users;
            ap_clients := record_failure client_key now_ clients |})
    | Some (uid, a) =>
        let (r, db) := run_tx (open_session uid a previous_token workspace token now_) (ap_db s) in
        (r, {| ap_db := db; ap_users := rate_clear normalized users; ap_clients := rate_clear client_key clients |})
    end.

(** [_active_row]. *)
Definition active_row (hash : string) (now_ : Z) (db : IDB) : option (string * AuthSessionRow) :=
  List.find (fun kv : string * AuthSessionRow =>
               String.eqb (ses_token_hash kv.2) hash && bool_decide (ses_revoked_at kv.2 = None)
               && (now_ <? ses_expires_at kv.2)) (map_to_list (i_sessions db)).

(** The account behind a session still is what it was when the session was opened. *)
Definition account_unchanged (s : AuthSessionRow) (db : IDB) : bool :=
  match i_users db !! ses_user_id s with
  | Some a => (ses_authorization_version s =? ac_authorization_version a) && usable a
  | None => false
  end.
Definition idle (now_ : Z) (s : AuthSessionRow) : bool :=
  match ses_last_seen_at s with Some t => seconds (au_idle_timeout_s cfg) <? now_ - t | None => false end.

(** [authenticate]. *)
Definition authenticate_tx (token : option string) (touch : bool) (now_ : Z) : Itx (result IdentityError Claims) :=
  match given token with
  | None => raise AuthenticationError
  | Some t =>
      digest ← lift (token_hash t);
      found ← gets (active_row digest now_);
      match found with
      | None => raise AuthenticationError
      | Some (sid, s) =>
          unchanged ← gets (account_unchanged s);
          if idle now_ s || negb (unchanged : bool) then
            _ ← update_session sid (session_revoked now_);
            _ ← on_sandbox (release_auth_session (ses_user_id s) sid "auth.session.expired" now_);
            mret (Err AuthenticationError)
          else if touch then
            let expires := Z.min (now_ + seconds (au_ttl_s cfg)) (ses_issued_at s + seconds (au_ttl_s cfg)) in
            _ ← update_session sid (session_seen now_ expires);
            mret (Ok (claims_of sid (session_seen now_ expires s) None))
          else mret (Ok (claims_of sid s None))
      end
  end.
Definition authenticate (token : option string) (touch : bool) (now_ : Z) (db : IDB)
  : result IdentityError Claims * IDB := commit_then_raise (authenticate_tx token touch now_) db.

(** [restore_csrf]. *)
Definition restore_csrf (c : Claims) (session_token : option string) (now_ : Z) : Itx string :=
  match given session_token with
  | None => raise AuthenticationError
  | Some t =>
      h ← lift (token_hash t);
      if negb (String.eqb h (clm_token_hash c)) then raise AuthenticationError
      else
        csrf ← lift (csrf_token_for_session t);
        found ← gets (active_row (clm_token_hash c) now_);
        match found with
        | Some (sid, s) =>
            if negb (String.eqb sid (clm_session_id c)) then raise AuthenticationError
            else
              _ ← update_session sid (fun s => session_with (sha256_hex csrf) (Some now_) (ses_expires_at s)
                                                 (ses_revoked_at s) s);
              mret csrf
        | None => raise AuthenticationError
        end
  end.

(** [revoke_token], on logout, and [revoke_session_id]. *)
Definition revoke_token (hash : string) (now_ : Z) : Itx () :=
  found ← gets (session_by_token hash);
  match found with
  | Some (sid, s) =>
      when (bool_decide (ses_revoked_at s = None))
        (_ ← update_session sid (session_revoked now_);
         on_sandbox (release_auth_session (ses_user_id s) sid "auth.session.logged_out" now_))
  | None => mret ()
  end.

Definition revoke_session_id (uid sid : string) (now_ : Z) : Itx (option string) :=
  found ← gets (fun db => i_sessions db !! sid);
  match found with
  | Some s =>
      if String.eqb (ses_user_id s) uid then
        _ ← when (bool_decide (ses_revoked_at s = None))
              (_ ← update_session sid (session_revoked now_);
               on_sandbox (release_auth_session (ses_user_id s) sid "auth.session.revoked" now_));
        mret (Some (ses_token_hash s))
      else mret None
  | None => mret None
  end.

(** [require_csrf] and [require_same_origin]. *)
Definition require_csrf (c : Claims) (supplied : option string) : result IdentityError () :=
  match given supplied with
  | Some t => if String.eqb (sha256_hex t) (clm_csrf_hash c) then Ok () else Err CsrfRejectedError
  | None => Err CsrfRejectedError
  end.

(** [origin.rstrip] of slashes, [.lower()]. *)
Fixpoint rstrip_slash (s : string) : string :=
  match s with
  | EmptyString => EmptyString
  | String c s' => match rstrip_slash s' with
                   | EmptyString => if Ascii.eqb c "/" then EmptyString else String c EmptyString
                   | t => String c t
                   end
  end.
Definition normal_origin (origin : string) : string := lower (rstrip_slash origin).
Definition require_same_origin (origin host : option string) : result IdentityError () :=
  match given origin with
  | None => Err OriginRejectedError
  | Some o =>
      if string_in (normal_origin o) (au_allowed_origins cfg) then Ok ()
      else match netloc o, given host with
           | Some n, Some h => if String.eqb (lower n) (lower h) then Ok () else Err OriginRejectedError
           | _, _ => Err OriginRejectedError
           end
  end.

(** [issue_ws_ticket]. *)
Definition issue_ws_ticket (c : Claims) (origin : string) (host : option string) (ttl_s : Z) (ticket : string)
  (now_ : Z) : Itx string :=
  _ ← lift (require_same_origin (Some origin) host);
  found ← gets (active_row (clm_token_hash c) now_);
  match found with
  | Some (sid, s) =>
      if negb (String.eqb sid (clm_session_id c)) then raise AuthenticationError
      else
        h ← lift (token_hash ticket);
        tid ← fresh_uuid;
        _ ← insert_ticket tid
              {| tk_auth_session_id := sid; tk_user_id := ses_user_id s; tk_workspace_id := ses_workspace_id s;
                 tk_ticket_hash := h; tk_origin := normal_origin origin;
                 tk_expires_at := now_ + seconds (Z.max 5 (Z.min ttl_s 300)); tk_used_at := None |};
        mret ticket
  | None => raise AuthenticationError
  end.

(** The session is one a request may still use. *)
Definition session_usable (now_ : Z) (s : AuthSessionRow) (db : IDB) : bool :=
  bool_decide (ses_revoked_at s = None) && (now_ <? ses_expires_at s) && account_unchanged s db.

Definition ticket_used (now_ : Z) (t : TicketRow) : TicketRow :=
  {| tk_auth_session_id := tk_auth_session_id t; tk_user_id := tk_user_id t; tk_workspace_id := tk_workspace_id t;
     tk_ticket_hash := tk_ticket_hash t; tk_origin := tk_origin t; tk_expires_at := tk_expires_at t;
     tk_used_at := Some now_ |}.

(** [consume_ws_ticket]. *)
Definition open_ticket (hash origin : string) (now_ : Z) (db : IDB) : option (string * TicketRow) :=
  List.find (fun kv : string * TicketRow =>
               String.eqb (tk_ticket_hash kv.2) hash && bool_decide (tk_used_at kv.2 = None)
               && (now_ <? tk_expires_at kv.2) && String.eqb (tk_origin kv.2) (normal_origin origin))
    (map_to_list (i_tickets db)).
Definition consume_ws_ticket (ticket origin host : option string) (now_ : Z) : Itx Claims :=
  match given ticket, given origin with
  | Some t, Some o =>
      _ ← lift (require_same_origin (Some o) host);
      h ← lift (token_hash t);
      found ← gets (open_ticket h o now_);
      match found with
      | None => raise AuthenticationError
      | Some (tid, row) =>
          session ← gets (fun db => i_sessions db !! tk_auth_session_id row);
          match session with
          | None => raise AuthenticationError
          | Some s =>
              fine ← gets (session_usable now_ s);
              if negb (fine : bool) then raise AuthenticationError
              else
                _ ← update_ticket tid (ticket_used now_);
                mret (claims_of (tk_auth_session_id row) s None)
          end
      end
  | _, _ => raise AuthenticationError
  end.

(** [authenticate_session_id]. *)
Definition authenticate_session_id (sid : string) (touch : bool) (now_ : Z) : Itx Claims :=
  found ← gets (fun db => i_sessions db !! sid);
  match found with
  | None => raise AuthenticationError
  | Some s =>
      fine ← gets (session_usable now_ s);
      if negb (fine : bool) then raise AuthenticationError
      else
        _ ← when touch (update_session sid (session_seen now_ (ses_expires_at s)));
        mret (claims_of sid s None)
  end.

(** ** The worker's check *)

(** What [FencedTurnExecutor] checks of a claimed task whose context is of [context_user] in
    [context_workspace]. *)
Definition authorize_task (turn_id context_user context_workspace : string) (task : option TaskAuthorization)
  (now_ : Z) : Itx Principal :=
  match task with
  | None => raise PermissionError
  | Some t =>
      if negb (String.eqb (ta_submitter_user_id t) context_user) then raise PermissionError
      else if negb (String.eqb (ta_workspace_id t) context_workspace) then raise PermissionError
      else
        p ← principal_for_user_id (ta_submitter_user_id t) now_;
        if negb (authorization_version p =? ta_authorization_version t) then raise PermissionError
        else
          _ ← lift (require p (value AGENT_TURN_SUBMIT) (Some (ta_workspace_id t))).1;
          _ ← audit (Some (user_id p)) None "allow" "worker_turn_authorized" (Some (value AGENT_TURN_SUBMIT))
                (Some "turn") (Some turn_id) (JObj []) now_;
          mret p
  end.
End identity_auth.
