(* ===== verification/IdentityFrame.v ===== *)
(** * IdentityFrame: every call of the identity services, and what they leave alone

    [identity_tx] lists the transactions of the services, [identity_step] adds what runs between
    them: logins, the check of a cookie and any transaction of the sandbox.  [same] relates
    stores that agree on a part, [grows] stores between which no account, session or ticket is
    lost, no version falls and nothing revoked or used comes back. *)
From S2P Require Import Prelude PyText Clock Json SandboxStore Sandbox Authorization.
From S2P Require Import IdentityStore IdentityCodes IdentityAdmin IdentityAccounts IdentityAuth.
Local Open Scope Z_scope.

Section identity_frame.
Context `{Uuids}.
Variable sha256_hex : string -> string.
Variable verify : string -> string -> bool.
Variable netloc : string -> option string.
Variable cfg : AuthSettings.

(** ** The calls *)

Definition ACCOUNT_STATUSES : list string := ["active"; "disabled"; "locked"].

Inductive identity_tx : forall A, Itx A -> Prop :=
| tx_create_user n d h by_ t : identity_tx _ (create_user n d h by_ t)
| tx_update_user u d : identity_tx _ (update_user u d)
| tx_status u st t : st ∈ ACCOUNT_STATUSES -> identity_tx _ (update_user_status u st t)
| tx_password u h t : identity_tx _ (change_password u h t)
| tx_restore u t : identity_tx _ (restore_user u t)
| tx_soft_delete u by_ t : identity_tx _ (soft_delete_user u by_ t)
| tx_revoke_sessions u t : identity_tx _ (revoke_user_sessions u t)
| tx_register e d ci cc ec n h t : identity_tx _ (register_user sha256_hex e d ci cc ec n h t)
| tx_role_status r st by_ t : identity_tx _ (update_role_status r st by_ t)
| tx_role_permissions r codes scopes by_ t : identity_tx _ (replace_role_permissions r codes scopes by_ t)
| tx_user_roles u codes by_ t : identity_tx _ (replace_user_roles u codes by_ t)
| tx_create_classroom w n by_ t : identity_tx _ (create_classroom w n by_ t)
| tx_class_member c u r st by_ t : identity_tx _ (replace_classroom_member c u r st by_ t)
| tx_create_workspace s n d by_ t : identity_tx _ (create_workspace s n d by_ t)
| tx_add_member w u ty t : identity_tx _ (add_member w u ty t)
| tx_remove_member w u : identity_tx _ (remove_member w u)
| tx_post_join p c n t : identity_tx _ (post_join_request p c n t)
| tx_post_approval p c r n t : identity_tx _ (post_approval p c r n t)
| tx_post_rejection p c r t : identity_tx _ (post_rejection p c r t)
| tx_captcha c code t : identity_tx _ (get_captcha sha256_hex c code t)
| tx_send_code c cc e ip pr code t : identity_tx _ (send_email_code sha256_hex c cc e ip pr code t)
| tx_restore_csrf c tok t : identity_tx _ (restore_csrf sha256_hex c tok t)
| tx_revoke_token h t : identity_tx _ (revoke_token h t)
| tx_revoke_session u s t : identity_tx _ (revoke_session_id u s t)
| tx_issue_ticket c o h ttl tk t : identity_tx _ (issue_ws_ticket sha256_hex netloc cfg c o h ttl tk t)
| tx_consume_ticket tk o h t : identity_tx _ (consume_ws_ticket sha256_hex netloc cfg tk o h t)
| tx_session_id s b t : identity_tx _ (authenticate_session_id s b t)
| tx_authorize_task i cu cw ta t : identity_tx _ (authorize_task i cu cw ta t).

Inductive identity_step (db : IDB) : IDB -> Prop :=
| st_tx A m : identity_tx A m -> identity_step db (run_tx m db).2
| st_login us cs n p c prev w tok t :
    identity_step db
      (ap_db (login sha256_hex verify cfg n p c prev w tok t {| ap_db := db; ap_users := us; ap_clients := cs |}).2)
| st_authenticate tok b t : identity_step db (authenticate sha256_hex cfg tok b t db).2
| st_sandbox A (m : ST XDB SandboxError A) : identity_step db (run_tx (on_sandbox m) db).2.

Definition identity_run : relation IDB := rtc identity_step.

(** ** Agreement on a part of the store *)

Definition same {X} (f : IDB -> X) (db db' : IDB) : Prop := f db' = f db.

#[export] Instance same_preorder {X} (f : IDB -> X) : PreOrder (same f).
Proof. split; [done|]. intros x y z Hxy Hyz. unfold same in *. by rewrite Hyz. Qed.
End identity_frame.

(** Leaves of a call: what they change is written out in the record. *)
Lemma st_moves_istmt (R : IDB -> IDB -> Prop) {A} (f : IDB -> result IdentityError (A * IDB)) :
  (forall db a db', f db = Ok (a, db') -> R db db') -> st_moves R (istmt f).
Proof. intros Hf db a db' Hr. by eapply Hf. Qed.

Lemma st_moves_on_sandbox (R : IDB -> IDB -> Prop) {A} (m : ST XDB SandboxError A) :
  (forall db x, R db (with_sandbox db x)) -> st_moves R (on_sandbox m).
Proof.
  intros HR db a db' Hr. unfold on_sandbox in Hr. destruct (m _) as [[b x]|]; [|done].
  injection Hr as <- <-. apply HR.
Qed.

Lemma st_moves_uuid `{Uuids} (R : IDB -> IDB -> Prop) :
  (forall db n, R db (set_next_uuid db n)) -> st_moves R fresh_uuid.
Proof. intros HR db a db' [= <- <-]. apply HR. Qed.

(** Walks a call down to the statements that write, and leaves one goal [R db db'] for each. *)
Ltac imoves_istmt :=
  refine (st_moves_istmt _ _ _);
  let db := fresh "db" in let a := fresh "a" in let db' := fresh "db'" in let Hr := fresh "Hr" in
  intros db a db' Hr;
  try (unfold put_request, istmt in Hr);
  repeat (case_match; try discriminate Hr); injection Hr as <- <-.
Ltac imoves_head m :=
  lazymatch m with
  | ?f _ => imoves_head f
  | _ => m
  end.
Ltac imoves_step :=
  lazymatch goal with
  | |- st_moves _ (modify _) => moves_modify; intros ?
  | |- st_moves _ (istmt _) => imoves_istmt
  | |- st_moves _ (on_sandbox _) => refine (st_moves_on_sandbox _ _ _); intros ? ?
  | |- st_moves _ (if ?b then _ else _) => destruct b
  | |- st_moves _ fresh_uuid => refine (st_moves_uuid _ _); intros ? ?
  | |- st_moves _ _ =>
      first
        [ moves_leaf | moves_bind; [|intros ?] | moves_when | moves_iter; intros ?
        | progress cbv zeta | case_match
        | lazymatch goal with |- st_moves _ ?m => let h := imoves_head m in unfold h end ]
  end.
Ltac imoves := repeat imoves_step.

(** ** What is kept of a table *)

(** Every row is still there, as a row [Q] allows. *)
Definition map_later {A} (Q : A -> A -> Prop) (m m' : gmap string A) : Prop :=
  forall k x, m !! k = Some x -> exists y, m' !! k = Some y /\ Q x y.

Section map_later.
Context {A : Type} (Q : A -> A -> Prop) `{!PreOrder Q}.

#[export] Instance map_later_preorder : PreOrder (map_later Q).
Proof.
  split.
  - intros m k x Hx. exists x. split; [done|reflexivity].
  - intros m1 m2 m3 H12 H23 k x Hx. destruct (H12 k x Hx) as (y & Hy & Hxy).
    destruct (H23 k y Hy) as (z & Hz & Hyz). exists z. split; [done|]. by transitivity y.
Qed.

Lemma later_alter f k m : (forall x, m !! k = Some x -> Q x (f x)) -> map_later Q m (alter f k m).
Proof.
  intros Hf j x Hx. destruct (decide (j = k)) as [->|Hne].
  - exists (f x). rewrite lookup_alter_eq, Hx. split; [done|by apply Hf].
  - exists x. rewrite lookup_alter_ne by done. split; [done|reflexivity].
Qed.

Lemma later_insert k v m : m !! k = None -> map_later Q m (<[k := v]> m).
Proof.
  intros Hk j x Hx. exists x. rewrite lookup_insert_ne by congruence. split; [done|reflexivity].
Qed.

Lemma later_fmap f m : (forall x, Q x (f x)) -> map_later Q m (f <$> m).
Proof. intros Hf j x Hx. exists (f x). by rewrite lookup_fmap, Hx. Qed.

Lemma later_imap f m : (forall k x, exists y, f k x = Some y /\ Q x y) -> map_later Q m (map_imap f m).
Proof. intros Hf j x Hx. destruct (Hf j x) as (y & Hy & Hxy). exists y. by rewrite map_lookup_imap, Hx. Qed.
End map_later.

Definition account_later (a a' : AccountRow) : Prop := ac_authorization_version a <= ac_authorization_version a'.
Record session_later (s s' : AuthSessionRow) : Prop := {
  sl_user : ses_user_id s' = ses_user_id s;
  sl_workspace : ses_workspace_id s' = ses_workspace_id s;
  sl_token : ses_token_hash s' = ses_token_hash s;
  sl_issued : ses_issued_at s' = ses_issued_at s;
  sl_version : ses_authorization_version s' = ses_authorization_version s;
  sl_revoked : ses_revoked_at s <> None -> ses_revoked_at s' <> None;
}.
Record ticket_later (t t' : TicketRow) : Prop := {
  tl_session : tk_auth_session_id t' = tk_auth_session_id t;
  tl_hash : tk_ticket_hash t' = tk_ticket_hash t;
  tl_used : tk_used_at t <> None -> tk_used_at t' <> None;
}.

#[export] Instance account_later_preorder : PreOrder account_later.
Proof. unfold account_later. split; [intros ?; lia|intros ???; lia]. Qed.
#[export] Instance session_later_preorder : PreOrder session_later.
Proof.
  split; [done|]. intros x y z [] []. split; try congruence. auto.
Qed.
#[export] Instance ticket_later_preorder : PreOrder ticket_later.
Proof. split; [done|]. intros x y z [] []. split; try congruence. auto. Qed.

(** A session whose version is one its account has reached. *)
Definition dated (db : IDB) (s : AuthSessionRow) : Prop :=
  exists a, i_users db !! ses_user_id s = Some a /\ ses_authorization_version s <= ac_authorization_version a.

Record grows (db db' : IDB) : Prop := {
  gr_users : map_later account_later (i_users db) (i_users db');
  gr_sessions : map_later session_later (i_sessions db) (i_sessions db');
  gr_tickets : map_later ticket_later (i_tickets db) (i_tickets db');
  gr_born : forall sid s', i_sessions db' !! sid = Some s' ->
    (exists s, i_sessions db !! sid = Some s) \/ dated db' s';
}.

Lemma dated_later db db' s s' :
  map_later account_later (i_users db) (i_users db') -> session_later s s' -> dated db s -> dated db' s'.
Proof.
  intros Hu Hs (a & Ha & Hv). destruct (Hu _ _ Ha) as (a' & Ha' & Hle). exists a'.
  destruct Hs as [-> _ _ _ -> _]. split; [done|]. unfold account_later in Hle. lia.
Qed.

#[export] Instance grows_preorder : PreOrder grows.
Proof.
  split.
  - intros db. split; try reflexivity. intros sid s Hs. left. eauto.
  - intros x y z [U1 S1 T1 B1] [U2 S2 T2 B2]. split; try (etransitivity; eassumption).
    intros sid s Hs. destruct (B2 sid s Hs) as [[s1 Hs1]|Hd]; [|by right].
    destruct (B1 sid s1 Hs1) as [Hold|Hd]; [by left|right].
    destruct (S2 _ _ Hs1) as (s' & Hs' & Hl). rewrite Hs in Hs'. injection Hs' as <-.
    by apply (dated_later y z s1).
Qed.

(** The leaves of [grows]. *)
Lemma grows_same db db' :
  i_users db' = i_users db -> i_sessions db' = i_sessions db -> i_tickets db' = i_tickets db -> grows db db'.
Proof. intros Hu Hs Ht. split; rewrite ?Hu, ?Hs, ?Ht; try reflexivity. intros sid s Hr. left. eauto. Qed.

Lemma grows_users db m : map_later account_later (i_users db) m -> grows db (set_users db m).
Proof. intros Hm. split; cbn; try reflexivity; [done|]. intros sid s Hr. left. eauto. Qed.

Lemma grows_tickets db m : map_later ticket_later (i_tickets db) m -> grows db (set_tickets db m).
Proof. intros Hm. split; cbn; try reflexivity; [done|]. intros sid s Hr. left. eauto. Qed.

Lemma grows_sessions db m :
  map_later session_later (i_sessions db) m ->
  (forall sid s, m !! sid = Some s -> is_Some (i_sessions db !! sid)) -> grows db (set_sessions db m).
Proof. intros Hm Hb. split; cbn; try reflexivity; [done|]. intros sid s Hr. left. by apply Hb in Hr. Qed.

Lemma grows_session_alter db sid f :
  (forall s, session_later s (f s)) -> grows db (set_sessions db (alter f sid (i_sessions db))).
Proof.
  intros Hf. apply grows_sessions.
  - apply later_alter; [apply _|auto].
  - intros k s Hk. apply lookup_alter_Some in Hk as [(-> & s0 & Hs0 & _)|[_ Hs]]; eauto.
Qed.

Lemma grows_session_fmap db f :
  (forall s, session_later s (f s)) -> grows db (set_sessions db (f <$> i_sessions db)).
Proof.
  intros Hf. apply grows_sessions; [apply later_fmap; auto|].
  intros k s Hk. apply lookup_fmap_Some in Hk as (s0 & _ & Hs0). eauto.
Qed.

Lemma revoked_later t s : session_later s (session_revoked t s).
Proof. by split. Qed.
Lemma seen_later t e s : session_later s (session_seen t e s).
Proof. by split. Qed.
Lemma csrf_later c t e s : session_later s (session_with c t e (ses_revoked_at s) s).
Proof. by split. Qed.
Lemma used_later t r : ticket_later r (ticket_used t r).
Proof. by split. Qed.
#[export] Hint Resolve revoked_later seen_later csrf_later used_later : nova.

Ltac grows_leaf :=
  first
    [ apply grows_same; reflexivity
    | apply grows_users; apply later_alter; [apply _|]; intros ? ?; unfold account_later; cbn; lia
    | apply grows_users; apply later_insert; [apply _|assumption]
    | apply grows_users; apply later_imap; intros ? ?; eexists; split; [reflexivity|];
      case_match; unfold account_later; cbn; lia
    | apply grows_session_alter; intros ?; auto with nova
    | apply grows_session_fmap; intros ?; case_match; [apply revoked_later|reflexivity]
    | apply grows_tickets; apply later_alter; [apply _|]; auto with nova
    | apply grows_tickets; apply later_insert; [apply _|assumption] ].

Section grows_calls.
Context `{Uuids}.
Variable sha256_hex : string -> string.
Variable verify : string -> string -> bool.
Variable netloc : string -> option string.
Variable cfg : AuthSettings.

(** A transaction that only has to grow while an account stands at a version, and leaves it there. *)
Definition stands (uid : string) (v : Z) (db : IDB) : Prop :=
  exists a, i_users db !! uid = Some a /\ ac_authorization_version a = v.
Definition grows_at (uid : string) (v : Z) (db db' : IDB) : Prop := stands uid v db -> stands uid v db' /\ grows db db'.

#[local] Instance grows_at_preorder uid v : PreOrder (grows_at uid v).
Proof.
  split; [by intros db Hs|]. intros x y z Hxy Hyz Hx. destruct (Hxy Hx) as [Hy Gxy]. destruct (Hyz Hy) as [Hz Gyz].
  split; [done|by transitivity y].
Qed.

Lemma grows_at_leaf uid v db db' : i_users db' = i_users db -> grows db db' -> grows_at uid v db db'.
Proof. intros Hu Hg Hs. split; [|done]. unfold stands in *. by rewrite Hu. Qed.

Lemma open_session_grows uid a prev w tok t :
  st_moves (grows_at uid (ac_authorization_version a)) (open_session sha256_hex cfg uid a prev w tok t).
Proof.
  imoves; try (apply grows_at_leaf; [reflexivity|grows_leaf]).
  - intros (b & Hb & Hv). split; [|grows_leaf]. exists (with_last_login t b). cbn. by rewrite lookup_alter_eq, Hb.
  - intros (b & Hb & Hv). split; [by exists b|]. split; cbn; try reflexivity.
    + apply later_insert; [apply _|assumption].
    + intros sid s0 Hsid. destruct (decide (sid = a4)) as [->|Hne].
      * rewrite lookup_insert_eq in Hsid. injection Hsid as <-. right. exists b. cbn. split; [done|lia].
      * rewrite lookup_insert_ne in Hsid by congruence. left. eauto.
Qed.

Lemma login_valid_some password name db uid a :
  login_valid verify password (login_account name db) = Some (uid, a) -> i_users db !! uid = Some a.
Proof.
  unfold login_valid. destruct (login_account name db) as [[u b]|] eqn:Hf; [|done]. cbn.
  case_match; [|done]. intros [= <- <-]. unfold login_account in Hf.
  apply List.find_some in Hf as [Hin _]. by apply list_elem_of_In, elem_of_map_to_list in Hin.
Qed.

(** A login changes the store as the session it opens does, if it opens one. *)
Lemma login_moves (R : IDB -> IDB -> Prop) `{!PreOrder R} us cs n p c prev w tok t db :
  (forall uid a, i_users db !! uid = Some a -> R db (run_tx (open_session sha256_hex cfg uid a prev w tok t) db).2) ->
  R db (ap_db (login sha256_hex verify cfg n p c prev w tok t {| ap_db := db; ap_users := us; ap_clients := cs |}).2).
Proof.
  intros HR. unfold login. destruct (rate_allowed _ _ _) as [uok us']. destruct (if uok then _ else _) as [cok cs'].
  destruct (negb _); [reflexivity|]. destruct (login_valid _ _ _) as [[uid a]|] eqn:Hv; [|reflexivity].
  apply login_valid_some, HR in Hv. cbn in *. by destruct (run_tx _ _).
Qed.

Lemma commit_then_raise_moves (R : IDB -> IDB -> Prop) `{!PreOrder R} {A} (m : Itx (result IdentityError A)) db :
  st_moves R m -> R db (commit_then_raise m db).2.
Proof.
  intros Hm. unfold commit_then_raise. destruct (m db) as [[r db']|e] eqn:Hr; [by eapply Hm|reflexivity].
Qed.

Lemma grows_tx A m : identity_tx sha256_hex netloc cfg A m -> st_moves grows m.
Proof. destruct 1; imoves; grows_leaf. Qed.

Lemma grows_step db db' : identity_step sha256_hex verify netloc cfg db db' -> grows db db'.
Proof.
  destruct 1 as [A m Htx|us cs n p c prev w tok t|tok b t|A m].
  - moves_run. by apply grows_tx.
  - apply (login_moves grows). intros uid a Ha.
    assert (Hg : grows_at uid (ac_authorization_version a) db (run_tx (open_session sha256_hex cfg uid a prev w tok t) db).2)
      by (moves_run; apply open_session_grows).
    apply Hg. by exists a.
  - unfold authenticate. apply (commit_then_raise_moves grows). imoves; grows_leaf.
  - moves_run. imoves; grows_leaf.
Qed.

Lemma grows_run db db' : identity_run sha256_hex verify netloc cfg db db' -> grows db db'.
Proof. induction 1 as [|x y z Hxy Hyz IH]; [reflexivity|]. transitivity y; [by apply grows_step|done]. Qed.

(** ** Sessions never run ahead of their accounts *)

Definition sessions_dated (db : IDB) : Prop := forall sid s, i_sessions db !! sid = Some s -> dated db s.

Lemma sessions_dated_grows db db' : grows db db' -> sessions_dated db -> sessions_dated db'.
Proof.
  intros [Hu Hs _ Hb] Hd sid s Hr. destruct (Hb sid s Hr) as [[s0 H0]|Hnew]; [|done].
  destruct (Hs _ _ H0) as (s' & Hs' & Hl). rewrite Hr in Hs'. injection Hs' as <-.
  eapply dated_later; [done|done|by eapply Hd].
Qed.
End grows_calls.
