(* ===== verification/IdentitySafety.v ===== *)
(** * IdentitySafety: what a change of authorisation does

    [authorization_change] lists the calls that change what an account may do.  Each raises the
    version of the account ([change_bumps]) and writes the message that tells the other
    processes ([change_announces]); all but the changes of workspace membership also end the
    account's sandbox leases ([change_revokes]).  A session is opened at the version of its
    account, so it is refused from the change on. *)
From S2P Require Import Prelude Clock PyText Json SandboxStore Sandbox Authorization IdentityStore IdentityCodes IdentityAdmin IdentityAccounts IdentityAuth IdentityFrame.
Local Open Scope Z_scope.

Section identity_safety.
Context `{Uuids}.

(** The calls that change the account they name ... *)
Inductive account_change (u : string) : forall A, Itx A -> Prop :=
| ch_status st t : account_change u _ (update_user_status u st t)
| ch_password h t : account_change u _ (change_password u h t)
| ch_restore t : account_change u _ (restore_user u t)
| ch_soft_delete by_ t : account_change u _ (soft_delete_user u by_ t)
| ch_sessions t : account_change u _ (revoke_user_sessions u t)
| ch_roles codes by_ t : account_change u _ (replace_user_roles u codes by_ t)
| ch_class c mr st by_ t : account_change u _ (replace_classroom_member c u mr st by_ t).

(** ... those that reach it through a role it holds or a request it made ... *)
Inductive grant_change (u : string) (db : IDB) : forall A, Itx A -> Prop :=
| ch_account A m : account_change u A m -> grant_change u db A m
| ch_role_permissions r codes scopes by_ t rid row :
    role_of r db = Some (rid, row) -> u ∈ role_holders rid db ->
    grant_change u db _ (replace_role_permissions r codes scopes by_ t)
| ch_approval p c rid n t r :
    i_join_requests db !! rid = Some r -> jr_user_id r = u -> grant_change u db _ (post_approval p c rid n t).

(** ... and those that change a workspace it is a member of. *)
Inductive authorization_change (u : string) (db : IDB) : forall A, Itx A -> Prop :=
| ch_grant A m : grant_change u db A m -> authorization_change u db A m
| ch_add w ty t : authorization_change u db _ (add_member w u ty t)
| ch_remove w m : i_members db !! (w, u) = Some m -> authorization_change u db _ (remove_member w u).

(** ** The version rises *)

Definition version_of (u : string) (db : IDB) : option Z := ac_authorization_version <$> i_users db !! u.

(** A call after which the version of an existing account is greater. *)
Definition bumps {A} (u : string) (m : Itx A) : Prop :=
  forall db a db' v, m db = Ok (a, db') -> version_of u db = Some v ->
    exists v', version_of u db' = Some v' /\ v < v'.

Lemma grows_version u db db' v :
  grows db db' -> version_of u db = Some v -> exists v', version_of u db' = Some v' /\ v <= v'.
Proof.
  unfold version_of. intros [Hu _ _ _] Hv. destruct (i_users db !! u) as [a|] eqn:Ha; [|done].
  injection Hv as <-. destruct (Hu _ _ Ha) as (a' & -> & Hle). eauto.
Qed.

Lemma bumps_raise {A} u e : bumps u (raise e : Itx A).
Proof. by intros db a db' v. Qed.

Lemma bumps_left {A B} u (m : Itx A) (f : A -> Itx B) :
  bumps u m -> (forall a, st_moves grows (f a)) -> bumps u (m ≫= f).
Proof.
  intros Hm Hf db b db2 v (a & db1 & H1 & H2)%st_bind_ok Hv. destruct (Hm _ _ _ _ H1 Hv) as (v1 & Hv1 & Hlt).
  destruct (grows_version u db1 db2 v1) as (v2 & Hv2 & Hle); [by eapply Hf|done|]. exists v2. split; [done|lia].
Qed.

Lemma bumps_right {A B} u (m : Itx A) (f : A -> Itx B) :
  st_moves grows m -> (forall a, bumps u (f a)) -> bumps u (m ≫= f).
Proof.
  intros Hm Hf db b db2 v (a & db1 & H1 & H2)%st_bind_ok Hv.
  destruct (grows_version u db db1 v) as (v1 & Hv1 & Hle); [by eapply Hm|done|].
  destruct (Hf _ _ _ _ _ H2 Hv1) as (v2 & Hv2 & Hlt). exists v2. split; [done|lia].
Qed.

Lemma bumps_account u f :
  (forall a, ac_authorization_version (f a) = ac_authorization_version a + 1) -> bumps u (update_account u f).
Proof.
  intros Hf db a db' v [= <- <-] Hv. unfold version_of in *. cbn. rewrite lookup_alter_eq.
  destruct (i_users db !! u) as [b|]; [|done]. injection Hv as <-. eexists. split; [reflexivity|]. rewrite Hf. lia.
Qed.

Lemma bumps_holders u (ids : gset string) :
  u ∈ ids -> bumps u (modify (fun db => set_users db
    (map_imap (fun uid a => Some (if decide (uid ∈ ids) then bumped a else a)) (i_users db)))).
Proof.
  intros Hu db a db' v [= <- <-] Hv. unfold version_of in *. cbn. rewrite map_lookup_imap.
  destruct (i_users db !! u) as [b|]; [|done]. injection Hv as <-. cbn. rewrite decide_True by done.
  eexists. split; [reflexivity|]. cbn. lia.
Qed.

Lemma bumps_membership u : bumps u (workspace_membership_changed u).
Proof. apply bumps_left; [by apply bumps_account|]. intros ?. imoves; grows_leaf. Qed.
End identity_safety.

Ltac bumps_step :=
  first
    [ lazymatch goal with |- bumps _ (if ?b then _ else _) => destruct b end
    | apply bumps_raise | apply bumps_membership
    | apply bumps_left; [by apply bumps_account|intros ?; solve [imoves; grows_leaf]]
    | apply bumps_left; [by apply bumps_membership|intros ?; solve [imoves; grows_leaf]]
    | apply bumps_right; [solve [imoves; grows_leaf]|intros ?]
    | progress cbv zeta
    | case_match
    | lazymatch goal with |- bumps _ ?m => let h := imoves_head m in unfold h end ].

Section changes.
Context `{Uuids}.

Lemma bumps_account_change u A m : account_change u A m -> bumps u m.
Proof. destruct 1; repeat bumps_step. Qed.

Lemma bumps_add w u ty t : bumps u (add_member w u ty t).
Proof. repeat bumps_step. Qed.

(** What neither the sandbox nor the other processes see. *)
Definition st_quiet (db db' : IDB) : Prop := i_outbox db' = i_outbox db /\ i_leases db' = i_leases db.

(** What follows the verdict in [post_approval]. *)
Definition approved (c uid rid by_ : string) (t : Z) : Itx () :=
  _ ← replace_classroom_member c uid "student" "active" by_ t;
  audit (Some by_) (Some uid) "allow" "classroom_join_approved" (Some "classroom:member:manage")
    (Some "classroom") (Some c) (JObj [("request_id", JStr rid)]) t.

Lemma audit_keeps actor target d rc pc rt ri det t db a db' :
  audit actor target d rc pc rt ri det t db = Ok (a, db') ->
  i_users db' = i_users db /\ i_user_roles db' = i_user_roles db /\ st_quiet db db'.
Proof.
  unfold audit. intros (x & db1 & Hq & Hr)%st_bind_ok. injection Hq as <- <-. unfold istmt in Hr. case_match; [|done].
  by injection Hr as <- <-.
Qed.

Lemma require_manager_reads p c db a db' : require_classroom_manager p c db = Ok (a, db') -> db' = db.
Proof.
  unfold require_classroom_manager, classroom. intros (cl & db1 & Hc & Hl)%st_bind_ok.
  unfold lift in Hl. destruct (require_resource _ _ _).1; [|done]. injection Hl as <- <-.
  apply st_bind_ok in Hc as (? & db2 & [= <- <-] & Hc).
  repeat case_match; try discriminate Hc. by injection Hc as <- <-.
Qed.

Lemma put_request_grows rid r : st_moves grows (put_request rid r).
Proof. imoves. grows_leaf. Qed.

(** The holders of a role are bumped whatever is written before. *)
Lemma bumps_invalidate u rid reason t db a db' v :
  u ∈ role_holders rid db -> invalidate_role_users rid reason t db = Ok (a, db') -> version_of u db = Some v ->
  exists v', version_of u db' = Some v' /\ v < v'.
Proof.
  unfold invalidate_role_users. intros Hu (ids & db1 & [= <- <-] & Hrest)%st_bind_ok Hv. revert Hrest Hv.
  set (m := _ ≫= _). assert (Hb : bumps u m); [|apply Hb].
  apply bumps_left; [by apply bumps_holders|]. intros ?. imoves; grows_leaf.
Qed.

(** What is left of the two calls once their checks are passed. *)
Lemma replace_permissions_inv r codes scopes by_ t db a db' rid row :
  role_of r db = Some (rid, row) -> replace_role_permissions r codes scopes by_ t db = Ok (a, db') ->
  exists db1 x, i_users db1 = i_users db /\ i_user_roles db1 = i_user_roles db /\ st_quiet db db1 /\
    invalidate_role_users rid "role_permissions_changed" t db1 = Ok (x, db').
Proof.
  intros Hr. unfold replace_role_permissions. intros (found & db1 & [= <- <-] & Hrun)%st_bind_ok. rewrite Hr in Hrun.
  destruct (builtin_role row); [|done]. apply st_bind_ok in Hrun as (rows & db1 & [= <- <-] & Hrun).
  case_match; [|done]. apply st_bind_ok in Hrun as (? & db1 & Hl & Hrun).
  unfold lift in Hl. destruct (check_grant _ _ _); [|done]. injection Hl as <- <-.
  apply st_bind_ok in Hrun as ([] & db1 & [= <-] & Hrun). apply st_bind_ok in Hrun as ([] & db2 & Ha & Hrun).
  apply audit_keeps in Ha as (Hus & Hur & Hq). exists db2, a. by rewrite Hus, Hur.
Qed.

Lemma approval_inv p c rid n t r db a db' :
  i_join_requests db !! rid = Some r -> post_approval p c rid n t db = Ok (a, db') ->
  exists db1 x, put_request rid (decided "approved" (user_id p) (match n with Some n => Some n | None => jr_student_number r end) t r) db
      = Ok (x, db1) /\ approved c (jr_user_id r) rid (user_id p) t db1 = Ok (a, db').
Proof.
  intros Hr. unfold post_approval. intros (? & db1 & Hm & Hrun)%st_bind_ok.
  assert (db1 = db) as -> by (by eapply require_manager_reads).
  apply st_bind_ok in Hrun as (found & db1 & Happ & Hrun). unfold approve_join_request in Happ.
  apply st_bind_ok in Happ as (fr & db2 & [= <- <-] & Happ).
  destruct (open_request rid c db) as [r'|] eqn:Ho; [|by injection Happ as <- <-].
  assert (r' = r) as ->.
  { revert Ho. unfold open_request. rewrite Hr. cbn. destruct (_ && _); congruence. }
  apply st_bind_ok in Happ as (w & db3 & Hput & [= <- <-]). by exists db3, w.
Qed.

Lemma bumps_approved u c rid by_ t : bumps u (approved c u rid by_ t).
Proof. apply bumps_left; [by apply bumps_account_change, ch_class|]. intros ?. imoves; grows_leaf. Qed.

Lemma change_bumps u db A m a db' v :
  authorization_change u db A m -> m db = Ok (a, db') -> version_of u db = Some v ->
  exists v', version_of u db' = Some v' /\ v < v'.
Proof.
  destruct 1 as [A m [A' m' Hm|r codes scopes by_ t rid row Hr Hu|p c rid n t r Hr Hu]|w ty t|w mb Hmb].
  - by apply bumps_account_change.
  - intros (db1 & x & Hus & Hur & _ & Hrun)%(replace_permissions_inv _ _ _ _ _ _ _ _ _ _ Hr) Hv.
    eapply bumps_invalidate; [|exact Hrun|].
    + unfold role_holders. by rewrite Hur.
    + unfold version_of. by rewrite Hus.
  - intros (db1 & x & Hput & Hrun)%(approval_inv _ _ _ _ _ _ _ _ _ Hr) Hv.
    destruct (grows_version u db db1 v) as (v1 & Hv1 & Hle); [by eapply put_request_grows|done|]. rewrite Hu in Hrun.
    destruct (bumps_approved _ _ _ _ _ _ _ _ _ Hrun Hv1) as (v2 & Hv2 & Hlt). exists v2. split; [done|lia].
  - by apply bumps_add.
  - unfold remove_member. intros (found & db1 & [= <- <-] & Hrun)%st_bind_ok Hv. rewrite Hmb in Hrun.
    apply st_bind_ok in Hrun as (owners & db1 & [= <- <-] & Hrun). case_match; [done|].
    apply st_bind_ok in Hrun as ([] & db1 & [= <-] & Hrun). apply st_bind_ok in Hrun as (acc & db1 & [= <- <-] & Hrun).
    apply st_bind_ok in Hrun as ([] & db1 & Hw & [= <- <-]). cbn in Hw. unfold version_of in Hv.
    destruct (i_users db !! u) as [ac|] eqn:Hac; [|done]. rewrite bool_decide_true in Hw by done.
    eapply bumps_membership; [exact Hw|]. unfold version_of. cbn. by rewrite Hac.
Qed.

Lemma change_grows u db A m : authorization_change u db A m -> st_moves grows m.
Proof. destruct 1 as [A m [A' m' []| |]| |]; imoves; grows_leaf. Qed.
End changes.

(** ** Leases end and the other processes are told *)

(** No lease of the user is active. *)
Definition revoked (u : string) (db : IDB) : Prop :=
  forall lid l, i_leases db !! lid = Some l -> ls_user_id l = u -> ls_state l <> "active".

(** Messages are only added. *)
Definition posts (db db' : IDB) : Prop := exists l, i_outbox db' = i_outbox db ++ l.
Definition quiet_leases (db db' : IDB) : Prop := posts db db' /\ i_leases db' = i_leases db.

#[export] Instance posts_preorder : PreOrder posts.
Proof.
  split; [intros db; exists []; by rewrite app_nil_r|]. intros x y z [l Hl] [k Hk]. exists (l ++ k). by rewrite Hk, Hl, app_assoc.
Qed.
#[export] Instance quiet_leases_preorder : PreOrder quiet_leases.
Proof.
  split; [intros db; split; reflexivity|]. intros x y z [Hp Hl] [Hq Hk]. split; [by transitivity y|congruence].
Qed.

(** Between the two stores a change of the user was announced. *)
Definition announced (u : string) (db db' : IDB) : Prop :=
  exists l k reason, i_outbox db' = i_outbox db ++ l ++ ("authorization.changed", changed_message u reason) :: k.

Lemma announced_before u db1 db2 db3 : posts db1 db2 -> announced u db2 db3 -> announced u db1 db3.
Proof. intros [j Hj] (l & k & reason & Ha). exists (j ++ l), k, reason. by rewrite Ha, Hj, <- !app_assoc. Qed.
Lemma announced_after u db1 db2 db3 : announced u db1 db2 -> posts db2 db3 -> announced u db1 db3.
Proof.
  intros (l & k & reason & Ha) [j Hj]. exists l, (k ++ j), reason. by rewrite Hj, Ha, <- !app_assoc.
Qed.

Section revocation.
Context `{Uuids}.

Lemma posts_same db db' : i_outbox db' = i_outbox db -> posts db db'.
Proof. intros Ho. exists []. by rewrite Ho, app_nil_r. Qed.

Lemma quiet_leases_same db db' : i_outbox db' = i_outbox db -> i_leases db' = i_leases db -> quiet_leases db db'.
Proof. intros Ho Hl. split; [by apply posts_same|done]. Qed.

Lemma revoke_leases_spec u reason t db a db' :
  on_sandbox (revoke_user_leases u reason t) db = Ok (a, db') ->
  revoked u db' /\ (forall w, revoked w db -> revoked w db') /\ posts db db'.
Proof.
  unfold on_sandbox, revoke_user_leases, update_leases. cbn -[update_leases]. unfold mbind, st_bind.
  set (n := length _). intros Hr. assert (Hl : i_leases db' =
    (fun l => if String.eqb (ls_user_id l) u && String.eqb (ls_state l) "active" then lease_ended "revoked" reason t l else l)
      <$> i_leases db /\ posts db db').
  { destruct (negb (n =? 0)%nat); injection Hr as <- <-; split; try reflexivity; cbn; [eexists; reflexivity|by apply posts_same]. }
  destruct Hl as [Hl Hp]. clear Hr. unfold revoked. rewrite Hl. split_and!; [| |done].
  - intros lid l Hlid Hu. apply lookup_fmap_Some in Hlid as (l0 & <- & _). revert Hu.
    destruct (_ && _) eqn:Hm; [done|]. intros <-. rewrite String.eqb_refl in Hm. cbn in Hm. by apply String.eqb_neq in Hm.
  - intros w Hw lid l Hlid Hu. apply lookup_fmap_Some in Hlid as (l0 & <- & H0). revert Hu.
    destruct (_ && _); [done|]. intros Hu. by eapply Hw.
Qed.

Lemma posts_revoke u reason t : st_moves posts (on_sandbox (revoke_user_leases u reason t)).
Proof. intros db a db' (_ & _ & Hp)%revoke_leases_spec. done. Qed.

Lemma posts_publish topic payload db : posts db (set_outbox db (i_outbox db ++ [(topic, payload)])).
Proof. by exists [(topic, payload)]. Qed.
End revocation.

Ltac posts_walk :=
  repeat first [apply posts_revoke | imoves_step];
  first [by apply posts_same | apply posts_publish].
Ltac quiet_walk :=
  imoves; first [by apply quiet_leases_same | split; [apply posts_publish|reflexivity]].

Section announcements.
Context `{Uuids}.

(** A call after which the user holds no active lease and has been announced. *)
Definition announces {A} (u : string) (m : Itx A) : Prop :=
  forall db a db', m db = Ok (a, db') -> revoked u db' /\ announced u db db'.

Lemma announces_raise {A} u e : announces u (raise e : Itx A).
Proof. by intros db a db'. Qed.

Lemma announces_left {A B} u (m : Itx A) (f : A -> Itx B) :
  announces u m -> (forall a, st_moves quiet_leases (f a)) -> announces u (m ≫= f).
Proof.
  intros Hm Hf db b db2 (a & db1 & H1 & H2)%st_bind_ok. destruct (Hm _ _ _ H1) as [Hr Ha].
  destruct (Hf _ _ _ _ H2) as [Hp Hl]. split; [|by eapply announced_after]. unfold revoked. by rewrite Hl.
Qed.

Lemma announces_right {A B} u (m : Itx A) (f : A -> Itx B) :
  st_moves posts m -> (forall a, announces u (f a)) -> announces u (m ≫= f).
Proof.
  intros Hm Hf db b db2 (a & db1 & H1 & H2)%st_bind_ok. destruct (Hf _ _ _ _ H2) as [Hr Ha].
  split; [done|]. eapply announced_before; [by eapply Hm|done].
Qed.

Lemma announces_mark u reason t : announces u (mark_authorization_changed u reason t).
Proof.
  unfold mark_authorization_changed. intros db a db' (x & db1 & H1 & H2)%st_bind_ok.
  apply revoke_leases_spec in H1 as (Hr & _ & [j Hj]). apply st_bind_ok in H2 as (y & db2 & Hu & Hp).
  injection Hu as <- <-. injection Hp as <- <-. split; [exact Hr|]. exists j, [], reason. cbn. by rewrite Hj, <- app_assoc.
Qed.
End announcements.

Ltac announces_step :=
  first
    [ lazymatch goal with |- announces _ (if ?b then _ else _) => destruct b end
    | apply announces_raise | apply announces_mark
    | apply announces_left; [by apply announces_mark|intros ?; solve [quiet_walk]]
    | apply announces_right; [solve [posts_walk]|intros ?]
    | progress cbv zeta
    | case_match
    | lazymatch goal with |- announces _ ?m => let h := imoves_head m in unfold h end ].

Section announcing.
Context `{Uuids}.

Lemma announces_account_change u A m : account_change u A m -> announces u m.
Proof. destruct 1; repeat announces_step. Qed.

Lemma announces_approved u c rid by_ t : announces u (approved c u rid by_ t).
Proof. apply announces_left; [by apply announces_account_change, ch_class|]. intros ?. quiet_walk. Qed.

(** The first loop of an invalidation ends the leases of all it visits, the second announces them. *)
Lemma revoke_all_spec reason t l db a db' :
  st_iter (fun uid => on_sandbox (revoke_user_leases uid reason t)) l db = Ok (a, db') ->
  (forall u, u ∈ l \/ revoked u db -> revoked u db') /\ posts db db'.
Proof.
  revert db. induction l as [|x l IH]; cbn; intros db Hr.
  - injection Hr as <- <-. split; [|reflexivity]. intros u [Hu|Hu]; [by apply not_elem_of_nil in Hu|done].
  - apply st_bind_ok in Hr as (y & db1 & (H1 & Hk & Hp)%revoke_leases_spec & Hr). destruct (IH db1 Hr) as [Hall Hq].
    split; [|by transitivity db1]. intros u [[->|Hu]%elem_of_cons|Hu]; apply Hall; auto.
Qed.

Lemma announce_all_spec reason l db a db' :
  st_iter (fun uid => _ ← fresh_uuid; publish "authorization.changed" (changed_message uid reason)) l db = Ok (a, db') ->
  (forall u, u ∈ l -> announced u db db') /\ quiet_leases db db'.
Proof.
  revert db. induction l as [|x l IH]; cbn; intros db Hr.
  - injection Hr as <- <-. split; [|reflexivity]. by intros u Hu%not_elem_of_nil.
  - apply st_bind_ok in Hr as (y & db1 & H1 & Hr). apply st_bind_ok in H1 as (z & db0 & Hu & Hp).
    injection Hu as <- <-. injection Hp as <- <-. destruct (IH _ Hr) as [Hall Hq].
    assert (Hx : announced x db db'); [|split].
    + eapply announced_after; [|apply Hq]. by exists [], [], reason.
    + intros u [->|Hu]%elem_of_cons; [done|]. eapply announced_before; [|by apply Hall]. eexists; reflexivity.
    + transitivity (set_outbox (set_next_uuid db (S (i_next_uuid db)))
        (i_outbox db ++ [("authorization.changed", changed_message x reason)])); [|done].
      split; [eexists; reflexivity|reflexivity].
Qed.

Lemma announces_invalidate u rid reason t db a db' :
  u ∈ role_holders rid db -> invalidate_role_users rid reason t db = Ok (a, db') -> revoked u db' /\ announced u db db'.
Proof.
  unfold invalidate_role_users. intros Hu (ids & db1 & [= <- <-] & Hrun)%st_bind_ok.
  apply st_bind_ok in Hrun as ([] & db1 & [= <-] & Hrun). apply st_bind_ok in Hrun as ([] & db2 & Hrev & Hrun).
  apply st_bind_ok in Hrun as ([] & db3 & Hann & [= <- <-]).
  apply revoke_all_spec in Hrev as [Hall Hp]. apply announce_all_spec in Hann as [Hmsg [_ Hl]].
  apply elem_of_elements in Hu. split.
  - unfold revoked. rewrite Hl. apply Hall. by left.
  - eapply announced_before; [exact Hp|by apply Hmsg].
Qed.

Lemma grant_change_announces u db A m a db' :
  grant_change u db A m -> m db = Ok (a, db') -> revoked u db' /\ announced u db db'.
Proof.
  destruct 1 as [A m Hm|r codes scopes by_ t rid row Hr Hu|p c rid n t r Hr Hu].
  - by apply announces_account_change.
  - intros (db1 & x & _ & Hur & [Ho Hl] & Hrun)%(replace_permissions_inv _ _ _ _ _ _ _ _ _ _ Hr).
    destruct (announces_invalidate u rid "role_permissions_changed" t db1 x db') as [Hrev Hann]; [|done|].
    { unfold role_holders. by rewrite Hur. }
    split; [done|]. by eapply announced_before; [apply posts_same|].
  - intros (db1 & x & Hput & Hrun)%(approval_inv _ _ _ _ _ _ _ _ _ Hr). rewrite Hu in Hrun.
    destruct (announces_approved u c rid (user_id p) t db1 a db' Hrun) as [Hrev Hann]. split; [done|].
    eapply announced_before; [|done]. revert Hput. unfold put_request, istmt. case_match; [done|].
    intros [= <- <-]. by apply posts_same.
Qed.
End announcing.

(** * a concrete deployment

    The store the migration seeds from [server/rbac/catalog.py], for a few permissions, with two accounts made by the
    calls of the services: [root], whom the bootstrap script makes the developer, and [ada], a
    teacher with a classroom and a browser session. *)

Module IdentityWorld.

#[export] Instance identity_uuids : Uuids := {| uuid4 n := "id" +:+ pretty n; uuid5_url s := String.substring 13 64 s |}.

(** Stand-ins for SHA-256, Argon2 and [urlsplit]. *)
Definition sha (s : string) : string := "h" +:+ s.
Definition checks (hash password : string) : bool := String.eqb hash password.
Definition host_of (origin : string) : option string := Some origin.
Definition day_sessions : AuthSettings := auth_settings 86400 900 ["https://nova.example"].

Definition empty : IDB :=
  {| i_users := ∅; i_roles := ∅; i_permissions := ∅; i_user_roles := ∅; i_role_permissions := ∅; i_role_scopes := ∅;
     i_workspaces := ∅; i_members := ∅; i_classrooms := ∅; i_class_members := ∅; i_join_requests := ∅;
     i_sessions := ∅; i_tickets := ∅; i_codes := ∅; i_email_audits := []; i_audit := []; i_environments := ∅;
     i_runtimes := ∅; i_leases := ∅; i_outbox := []; i_next_uuid := 0 |}.

(** What the migration inserts, for a few of the permissions. *)
Definition few : list Permission :=
  [SYSTEM_USER_MANAGE; SYSTEM_ROLE_MANAGE; CLASSROOM_MEMBER_MANAGE; LEARNING_PROGRESS_READ_SELF; AGENT_TURN_SUBMIT].
Definition of_few (pid : string) : bool := existsb (fun p => String.eqb (permission_id (value p)) pid) few.
Definition seed : IDB :=
  set_role_scopes
    (set_role_permissions
       (set_permissions
          (set_roles empty
             (list_to_map ((fun code => (role_id code, {| rm_code := code; rm_status := "active"; rm_is_builtin := true |}))
                             <$> ROLE_NAMES)))
          (list_to_map ((fun p => (permission_id (value p), {| pm_code := value p; pm_status := "active" |})) <$> few)))
       (list_to_map ((fun k => (k, None)) <$> List.filter (fun k => of_few k.2) role_permission_rows)))
    (list_to_set (List.filter (fun k => of_few k.1.2) role_permission_scope_rows)).

Definition after {A} (m : Itx A) (db : IDB) : IDB := (run_tx m db).2.

Lemma after_ok {A} (m : Itx A) db a : (run_tx m db).1 = Ok a -> m db = Ok (a, after m db).
Proof. unfold after, run_tx. destruct (m db) as [[b s]|]; [|done]. by intros [= ->]. Qed.

Definition NOON : Z := 12 * 3600 * SECOND.

Definition with_root : IDB := after (create_user "root" "Root" "pw-root" None NOON) seed.
Definition root : string := "id0".
Definition bootstrapped : IDB := after (replace_user_roles root {["developer"]} None NOON) with_root.
Definition with_ada : IDB := after (create_user "ada" "Ada" "pw-ada" (Some root) NOON) bootstrapped.
Definition ada : string := default "" (fst <$> account_named "ada" with_ada).
Definition staffed : IDB := after (replace_user_roles ada {["teacher"]} (Some root) NOON) with_ada.

(** Ada logs in. *)
Definition nobody : RateLimiter := rate_limiter 5 300.
Definition session_of_ada : string := "id" +:+ pretty (i_next_uuid staffed).
Definition online : IDB :=
  ap_db (login sha checks day_sessions "ada" "pw-ada" "10.0.0.1" None None "tok" NOON
           {| ap_db := staffed; ap_users := nobody; ap_clients := nobody |}).2.

Example world_is_set :
  (roles_for NOON root online, roles_for NOON ada online, ses_user_id <$> i_sessions online !! session_of_ada,
   is_ok (authenticate sha day_sessions (Some "tok") true NOON online).1)
  = ({["developer"]}, {["teacher"]}, Some ada, true).
Proof. vm_compute. reflexivity. Qed.

Lemma online_reached : identity_run sha checks host_of day_sessions staffed online.
Proof. apply rtc_once. apply st_login. Qed.
End IdentityWorld.
