(* ===== verification/IdentityPromises.v ===== *)
(** * IdentityPromises: what the identity services promise

    A change of authorisation fences every credential issued before it and is announced in its
    own transaction; a ticket opens one connection. *)
From S2P Require Import Prelude PyText Clock Json SandboxStore Sandbox Authorization.
From S2P Require Import IdentityStore IdentityCodes IdentityAdmin IdentityAccounts IdentityAuth IdentityFrame IdentitySafety.
Local Open Scope Z_scope.

Section promises.
Context `{Uuids}.
Variable sha256_hex : string -> string.
Variable verify : string -> string -> bool.
Variable netloc : string -> option string.
Variable cfg : AuthSettings.

Abbreviation run := (identity_run sha256_hex verify netloc cfg).

(** ** Stale sessions are refused *)

(** The session is there and its account has moved on. *)
Definition stale (sid u : string) (db : IDB) : Prop :=
  exists s a, i_sessions db !! sid = Some s /\ ses_user_id s = u /\ i_users db !! u = Some a /\
    ses_authorization_version s < ac_authorization_version a.

Lemma stale_changed sid u db s : stale sid u db -> i_sessions db !! sid = Some s -> account_unchanged s db = false.
Proof.
  intros (s' & a & Hs' & Hu & Ha & Hlt) Hs. rewrite Hs in Hs'. injection Hs' as <-. unfold account_unchanged.
  rewrite Hu, Ha. by replace (_ =? _) with false by lia.
Qed.

Lemma stale_token sid u db tok touch t c db' :
  stale sid u db -> authenticate sha256_hex cfg tok touch t db = (Ok c, db') -> clm_session_id c <> sid.
Proof.
  intros Hst. unfold authenticate, commit_then_raise. destruct (authenticate_tx _ _ _ _ _ db) as [[r db1]|e] eqn:Hr; [|done].
  intros [= -> <-]. revert Hr. unfold authenticate_tx. destruct (given tok) as [tk|]; [|done].
  intros (digest & db2 & Hd & Hr)%st_bind_ok. unfold lift in Hd. destruct (token_hash _ tk); [|done]. injection Hd as <- <-.
  apply st_bind_ok in Hr as (found & db2 & [= <- <-] & Hr). destruct (active_row _ t db) as [[sid' s]|] eqn:Hf; [|done].
  apply st_bind_ok in Hr as (same_ & db2 & [= <- <-] & Hr).
  apply List.find_some in Hf as [Hin _]. apply list_elem_of_In, elem_of_map_to_list in Hin.
  destruct (idle cfg t s || negb (account_unchanged s db)) eqn:Hdead.
  { apply st_bind_ok in Hr as (? & db2 & _ & Hr). by apply st_bind_ok in Hr as (? & db3 & _ & [=]). }
  apply orb_false_iff in Hdead as [_ Hsame].
  assert (clm_session_id c = sid') as ->.
  { destruct touch; [apply st_bind_ok in Hr as (? & db2 & _ & Hr)|]; by injection Hr as <- _. }
  intros ->. by rewrite (stale_changed _ _ _ _ Hst Hin) in Hsame.
Qed.

Lemma stale_session_id sid u db touch t : stale sid u db -> is_ok (authenticate_session_id sid touch t db) = false.
Proof.
  intros Hst. pose proof Hst as (s & a & Hs & _). unfold authenticate_session_id.
  unfold mbind, st_bind, gets. rewrite Hs. cbn. unfold session_usable.
  by rewrite (stale_changed sid u db s), andb_false_r.
Qed.

(** A ticket that is accepted: its row, which it uses up, and the session it belongs to. *)
Lemma consume_ticket_inv tk o h t db c db' :
  consume_ws_ticket sha256_hex netloc cfg tk o h t db = Ok (c, db') ->
  exists ticket tid row s, given tk = Some ticket /\ token_hash sha256_hex ticket = Ok (tk_ticket_hash row) /\
    i_tickets db !! tid = Some row /\ tk_used_at row = None /\ i_sessions db !! tk_auth_session_id row = Some s /\
    session_usable t s db = true /\ c = claims_of (tk_auth_session_id row) s None /\
    db' = set_tickets db (alter (ticket_used t) tid (i_tickets db)).
Proof.
  unfold consume_ws_ticket. destruct (given tk) as [ticket|]; [|done]. destruct (given o) as [origin|]; [|done].
  intros (? & db1 & Hl & Hr)%st_bind_ok. unfold lift in Hl. destruct (require_same_origin _ _ _ _); [|done]. injection Hl as <- <-.
  apply st_bind_ok in Hr as (hash & db1 & Hl & Hr). unfold lift in Hl. destruct (token_hash _ _) eqn:Hhash; [|done]. injection Hl as -> <-.
  apply st_bind_ok in Hr as (found & db1 & [= <- <-] & Hr). destruct (open_ticket _ _ _ db) as [[tid row]|] eqn:Hf; [|done].
  apply st_bind_ok in Hr as (session & db1 & [= <- <-] & Hr). destruct (i_sessions db !! _) as [s|] eqn:Hs; [|done].
  apply st_bind_ok in Hr as (fine & db1 & [= <- <-] & Hr).
  destruct (negb (session_usable t s db)) eqn:Hfine; [done|]. apply negb_false_iff in Hfine.
  apply st_bind_ok in Hr as (? & db1 & [= <- <-] & [= <- <-]).
  apply List.find_some in Hf as [Hin Hok]. apply list_elem_of_In, elem_of_map_to_list in Hin. cbn in Hok.
  rewrite !andb_true_iff, bool_decide_eq_true in Hok. destruct Hok as [[[Hh Hu] _] _]. apply String.eqb_eq in Hh.
  exists ticket, tid, row, s. by rewrite Hh.
Qed.

Lemma stale_ticket sid u db tk o h t c db' :
  stale sid u db -> consume_ws_ticket sha256_hex netloc cfg tk o h t db = Ok (c, db') -> clm_session_id c <> sid.
Proof.
  intros Hst (ticket & tid & row & s & _ & _ & _ & _ & Hs & Hfine & -> & _)%consume_ticket_inv. cbn. intros Hsid.
  rewrite Hsid in Hs. unfold session_usable in Hfine. by rewrite (stale_changed _ _ _ _ Hst Hs), andb_false_r in Hfine.
Qed.

Lemma stale_lease sid u db l gen w t :
  stale sid u db ->
  auth_lifecycle_allows_execution l (x_sessions (sandbox_view db) !! sid) (x_users (sandbox_view db) !! u) gen w t = false.
Proof.
  intros (s & a & Hs & Hu & Ha & Hlt). unfold auth_lifecycle_allows_execution, sandbox_view. cbn.
  rewrite !lookup_fmap, Hs, Ha. cbn. replace (ses_authorization_version s =? ac_authorization_version a) with false by lia.
  by rewrite !andb_false_r, ?andb_false_l.
Qed.

Lemma stale_task u db v ta turn cw t :
  version_of u db = Some v -> ta_authorization_version ta < v -> ta_submitter_user_id ta = u ->
  is_ok (authorize_task turn u cw (Some ta) t db) = false.
Proof.
  unfold version_of, authorize_task, principal_for_user_id. intros Hv Hlt Hu. rewrite Hu.
  destruct (i_users db !! u) as [a|] eqn:Ha; [|done]. injection Hv as Hv.
  rewrite String.eqb_refl. cbn -[principal_for_user_id]. destruct (negb _); [done|].
  unfold mbind, st_bind, get_account, gets. rewrite Ha. destruct (usable a); [|done]. cbn.
  by replace (ac_authorization_version a =? ta_authorization_version ta) with false by lia.
Qed.

(** C4: once a call has changed what a user may do, nothing issued before the change is accepted
    again, whatever happens afterwards: neither the cookie, the identifier or a websocket ticket
    of a session that was open, nor a sandbox command under such a session, nor a queued task
    that carries an earlier version. *)
Theorem change_fences_credentials start db0 u A (m : Itx A) a db1 db2 v :
  i_sessions start = ∅ -> run start db0 -> version_of u db0 = Some v ->
  authorization_change u db0 A m -> m db0 = Ok (a, db1) -> run db1 db2 ->
  (forall sid s, i_sessions db0 !! sid = Some s -> ses_user_id s = u ->
     (forall tok touch t c db', authenticate sha256_hex cfg tok touch t db2 = (Ok c, db') -> clm_session_id c <> sid)
     /\ (forall touch t, is_ok (authenticate_session_id sid touch t db2) = false)
     /\ (forall tk o h t c db', consume_ws_ticket sha256_hex netloc cfg tk o h t db2 = Ok (c, db') -> clm_session_id c <> sid)
     /\ (forall l gen w t, auth_lifecycle_allows_execution l (x_sessions (sandbox_view db2) !! sid)
           (x_users (sandbox_view db2) !! u) gen w t = false))
  /\ (forall ta turn cw t, ta_submitter_user_id ta = u -> ta_authorization_version ta <= v ->
        is_ok (authorize_task turn u cw (Some ta) t db2) = false).
Proof.
  intros Hstart Hrun Hv Hch Hm Hrun2.
  destruct (change_bumps u db0 A m a db1 v Hch Hm Hv) as (v1 & Hv1 & Hlt).
  destruct (grows_version u db1 db2 v1) as (v2 & Hv2 & Hle); [by eapply grows_run|done|].
  split; [|intros ta turn cw t Hu Hta; eapply stale_task; [exact Hv2|lia|done]].
  intros sid s Hs Hu. assert (Hst : stale sid u db2).
  { assert (Hd : sessions_dated db0).
    { eapply sessions_dated_grows; [by eapply grows_run|]. intros ? ? Hx. by rewrite Hstart in Hx. }
    destruct (Hd sid s Hs) as (a0 & Ha0 & Hdv). rewrite Hu in Ha0. unfold version_of in Hv. rewrite Ha0 in Hv.
    injection Hv as Hv. assert (Hg : grows db0 db2).
    { transitivity db1; [|by eapply grows_run]. eapply change_grows; done. }
    destruct (gr_sessions _ _ Hg _ _ Hs) as (s2 & Hs2 & Hl). unfold version_of in Hv2.
    destruct (i_users db2 !! u) as [a2|] eqn:Ha2; [|done]. injection Hv2 as Hv2.
    exists s2, a2. rewrite (sl_user _ _ Hl), (sl_version _ _ Hl). split_and!; try done. lia. }
  split_and!; intros; [by eapply stale_token|by eapply stale_session_id|by eapply stale_ticket|by eapply stale_lease].
Qed.

(** The call that changes what a user may do ends, in its own transaction, every lease of a
    sandbox the user holds and adds the message that tells the other processes. *)
Lemma change_is_announced u db A (m : Itx A) a db' :
  grant_change u db A m -> m db = Ok (a, db') -> revoked u db' /\ announced u db db'.
Proof. apply grant_change_announces. Qed.
(** ** A ticket opens one connection *)

Definition tickets_unique (db : IDB) : Prop :=
  forall i j t t', i_tickets db !! i = Some t -> i_tickets db !! j = Some t' -> tk_ticket_hash t = tk_ticket_hash t' -> i = j.
Definition keeps_tickets (db db' : IDB) : Prop := tickets_unique db -> tickets_unique db'.

#[local] Instance keeps_tickets_preorder : PreOrder keeps_tickets.
Proof. split; [by intros db Hu|]. unfold keeps_tickets. intros x y z Hxy Hyz Hx. auto. Qed.

Lemma keeps_tickets_same db db' : i_tickets db' = i_tickets db -> keeps_tickets db db'.
Proof. unfold keeps_tickets, tickets_unique. by intros ->. Qed.

Lemma keeps_tickets_used db tid t : keeps_tickets db (set_tickets db (alter (ticket_used t) tid (i_tickets db))).
Proof.
  intros Hu i j x y Hx Hy Hh. cbn in Hx, Hy.
  assert (Hback : forall k z, alter (ticket_used t) tid (i_tickets db) !! k = Some z ->
            exists z0, i_tickets db !! k = Some z0 /\ tk_ticket_hash z0 = tk_ticket_hash z).
  { intros k z Hz. apply lookup_alter_Some in Hz as [(-> & z0 & Hz0 & ->)|[_ Hz]]; eauto. }
  destruct (Hback i x Hx) as (x0 & Hx0 & Ex), (Hback j y Hy) as (y0 & Hy0 & Ey). apply (Hu i j x0 y0); congruence.
Qed.

Lemma keeps_tickets_insert db tid t :
  ticket_by_hash (tk_ticket_hash t) db = None -> keeps_tickets db (set_tickets db (<[tid := t]> (i_tickets db))).
Proof.
  intros Hn Hu i j x y Hx Hy Hh. cbn in Hx, Hy.
  assert (Hnew : forall k z, i_tickets db !! k = Some z -> tk_ticket_hash z <> tk_ticket_hash t).
  { intros k z Hz Heq. unfold ticket_by_hash in Hn. eapply List.find_none in Hn; [|apply list_elem_of_In, elem_of_map_to_list, Hz].
    cbn in Hn. by rewrite Heq, String.eqb_refl in Hn. }
  apply lookup_insert_Some in Hx as [[<- <-]|[Hi Hx]], Hy as [[<- <-]|[Hj Hy]]; [done| | |by eapply Hu].
  - by destruct (Hnew j y Hy).
  - by destruct (Hnew i x Hx).
Qed.

Ltac tickets_leaf :=
  first [ by apply keeps_tickets_same | apply keeps_tickets_used | by apply keeps_tickets_insert ].

Lemma tickets_step db db' : identity_step sha256_hex verify netloc cfg db db' -> keeps_tickets db db'.
Proof.
  destruct 1 as [A m Htx|us cs n p c prev w tok t|tok b t|A m].
  - moves_run. destruct Htx; imoves; tickets_leaf.
  - apply (login_moves sha256_hex verify cfg keeps_tickets). intros uid a _. moves_run. imoves; tickets_leaf.
  - unfold authenticate. apply (commit_then_raise_moves keeps_tickets). imoves; tickets_leaf.
  - moves_run. imoves; tickets_leaf.
Qed.

Lemma tickets_run db db' : run db db' -> keeps_tickets db db'.
Proof. induction 1 as [|x y z Hxy Hyz IH]; [reflexivity|]. transitivity y; [by apply tickets_step|done]. Qed.

(** C17: a websocket ticket that was accepted is never accepted again, whatever runs in between and
    from whatever origin it is presented. *)
Theorem ticket_opens_one_connection start db0 ticket o h t c db1 db2 o2 h2 t2 :
  i_tickets start = ∅ -> run start db0 ->
  consume_ws_ticket sha256_hex netloc cfg (Some ticket) o h t db0 = Ok (c, db1) -> run db1 db2 ->
  is_ok (consume_ws_ticket sha256_hex netloc cfg (Some ticket) o2 h2 t2 db2) = false.
Proof.
  intros Hstart Hrun Hc Hrun2.
  assert (Hu : tickets_unique db2).
  { apply (tickets_run db1); [done|]. apply (tickets_step db0).
    - replace db1 with (run_tx (consume_ws_ticket sha256_hex netloc cfg (Some ticket) o h t) db0).2
        by (unfold run_tx; by rewrite Hc). apply st_tx. constructor.
    - apply (tickets_run start); [done|]. intros i j x y Hx. by rewrite Hstart in Hx. }
  apply consume_ticket_inv in Hc as (tk1 & tid & row & s & Htk & Hh & Hrow & _ & _ & _ & _ & ->).
  apply grows_run in Hrun2. destruct (gr_tickets _ _ Hrun2 tid (ticket_used t row)) as (row2 & Hrow2 & Hl).
  { cbn. by rewrite lookup_alter_eq, Hrow. }
  destruct (consume_ws_ticket _ _ _ _ o2 h2 t2 db2) as [[c2 db3]|] eqn:Hc2; [|done]. exfalso.
  apply consume_ticket_inv in Hc2 as (tk2 & tid2 & row' & s2 & Ht2 & Hh' & Hrow' & Hunused & _).
  rewrite Htk in Ht2. injection Ht2 as <-. rewrite Hh in Hh'. injection Hh' as Hh'.
  assert (tid2 = tid) as ->. { eapply (Hu tid2 tid); [done..|]. by rewrite (tl_hash _ _ Hl). }
  rewrite Hrow2 in Hrow'. injection Hrow' as <-. by apply (tl_used _ _ Hl).
Qed.
End promises.

(** ** Witnesses *)

Module PromisesWorld.
Import IdentityWorld.

(** Ada's password is reset while her session is open. *)
Definition reset : Itx () := change_password ada "pw-new" (NOON + 1).
Definition renewed : IDB := after reset online.
Definition ada_session : AuthSessionRow :=
  {| ses_user_id := ada; ses_workspace_id := "id" +:+ pretty (S (i_next_uuid bootstrapped)); ses_token_hash := "htok";
     ses_csrf_hash := "hhnlp-agent:csrf:tok"; ses_issued_at := NOON; ses_last_seen_at := Some NOON;
     ses_authorization_version := 2; ses_expires_at := NOON + seconds 86400; ses_revoked_at := None |}.

Lemma reset_changes_ada : grant_change ada online () reset.
Proof. apply ch_account, ch_password. Qed.

Lemma reset_ok : (run_tx reset online).1 = Ok ().
Proof. vm_compute. reflexivity. Qed.
Lemma online_row : i_sessions online !! session_of_ada = Some ada_session.
Proof. vm_compute. reflexivity. Qed.
Lemma ada_version : version_of ada online = Some 2.
Proof. vm_compute. reflexivity. Qed.
Lemma no_session_yet : i_sessions staffed = ∅ /\ i_tickets staffed = ∅.
Proof. vm_compute. split; reflexivity. Qed.

Lemma change_fences_credentials_witness :
  is_ok (authenticate_session_id session_of_ada false NOON online) = true
  /\ is_ok (authenticate_session_id session_of_ada false NOON renewed) = false.
Proof.
  split; [vm_compute; reflexivity|].
  exact (proj1 (proj2 (proj1 (change_fences_credentials sha checks host_of day_sessions staffed online ada () reset ()
    renewed renewed 2 (proj1 no_session_yet) online_reached ada_version (ch_grant _ _ _ _ reset_changes_ada)
    (after_ok _ _ _ reset_ok) (rtc_refl _ _)) session_of_ada ada_session online_row eq_refl)) false NOON).
Defined.

(** Ada holds the lease of a sandbox; the reset ends it. *)
Definition ada_lease : LeaseRow :=
  {| ls_environment_id := "e"; ls_user_id := ada; ls_auth_session_id := session_of_ada; ls_runtime_instance_id := None;
     ls_workspace_id := "w"; ls_actor_type := "browser"; ls_generation := 2; ls_state := "active"; ls_renewed_at := None;
     ls_expires_at := NOON + seconds 600; ls_released_at := None; ls_reason := None; ls_created_at := NOON |}.
Definition leased : IDB := set_leases online {["l" := ada_lease]}.


(** A websocket ticket of Ada's session. *)
Definition ada_claims : Claims := claims_of session_of_ada ada_session None.
Definition ticketed : IDB := after (issue_ws_ticket sha host_of day_sessions ada_claims "https://nova.example" None 60 "wst" NOON) online.
Definition connect : Itx Claims :=
  consume_ws_ticket sha host_of day_sessions (Some "wst") (Some "https://nova.example/") None (NOON + 1).
Definition connected : IDB := after connect ticketed.

Lemma ticketed_reached : identity_run sha checks host_of day_sessions staffed ticketed.
Proof. eapply rtc_r; [exact online_reached|]. apply st_tx. constructor. Qed.
Lemma connect_ok : (run_tx connect ticketed).1 = Ok ada_claims.
Proof. vm_compute. reflexivity. Qed.

Lemma ticket_opens_one_connection_witness : is_ok (connect connected) = false.
Proof.
  exact (ticket_opens_one_connection sha checks host_of day_sessions staffed ticketed "wst" (Some "https://nova.example/") None
    (NOON + 1) ada_claims connected connected (Some "https://nova.example/") None (NOON + 1) (proj2 no_session_yet)
    ticketed_reached (after_ok _ _ _ connect_ok) (rtc_refl _ _)).
Defined.
End PromisesWorld.
