(* ===== verification/IdentityRoles.v ===== *)
(** * IdentityRoles: who is a developer, and what a role grants

    The developers who can act, through every call of the services; what a principal holds in
    terms of the rows of its roles; and what replacing the permissions of a role does. *)
From S2P Require Import Prelude PyText Clock Json SandboxStore Sandbox Authorization.
From S2P Require Import IdentityStore IdentityCodes IdentityAdmin IdentityAccounts IdentityAuth IdentityFrame IdentitySafety.
Local Open Scope Z_scope.

(** ** Lists read off a map *)

Lemma elem_of_omap_map {K A B} `{Countable K} (f : K * A -> option B) (m : gmap K A) y :
  y ∈ omap f (map_to_list m) <-> exists k x, m !! k = Some x /\ f (k, x) = Some y.
Proof.
  rewrite list_elem_of_omap. split.
  - intros ([k x] & Hk & Hf). apply elem_of_map_to_list in Hk. eauto.
  - intros (k & x & Hk & Hf). exists (k, x). by rewrite elem_of_map_to_list.
Qed.

Lemma elem_of_filter_map {K A} `{Countable K} (p : K * A -> bool) (m : gmap K A) k x :
  (k, x) ∈ List.filter p (map_to_list m) <-> m !! k = Some x /\ p (k, x) = true.
Proof. by rewrite filter_elem_of, elem_of_map_to_list. Qed.

Lemma run_tx_cases {S E A} (m : ST S E A) s : (exists a, m s = Ok (a, (run_tx m s).2)) \/ (run_tx m s).2 = s.
Proof. unfold run_tx. destruct (m s) as [[a s']|e]; [left; by exists a|by right]. Qed.

Section identity_roles.
Context `{Uuids}.
Variable sha256_hex : string -> string.
Variable verify : string -> string -> bool.
Variable netloc : string -> option string.
Variable cfg : AuthSettings.

Abbreviation run := (identity_run sha256_hex verify netloc cfg).

(** ** The role tables *)

Record roles_wf (db : IDB) : Prop := {
  rw_codes : forall i j r r', i_roles db !! i = Some r -> i_roles db !! j = Some r' -> rm_code r = rm_code r' -> i = j;
  rw_builtin : forall i r, i_roles db !! i = Some r -> string_in (rm_code r) ROLE_NAMES = true -> rm_is_builtin r = true;
  rw_lasting : forall k a, i_user_roles db !! k = Some a -> as_expires_at a = None;
}.
Definition keeps_roles (db db' : IDB) : Prop :=
  roles_wf db -> roles_wf db' /\ i_roles db' = i_roles db.

#[local] Instance keeps_roles_preorder : PreOrder keeps_roles.
Proof.
  split; [by intros db Hwf|]. unfold keeps_roles. intros x y z Hxy Hyz Hx.
  destruct (Hxy Hx) as [Hy Exy]. destruct (Hyz Hy) as [Hz Eyz]. split; [done|congruence].
Qed.

Lemma keeps_roles_same db db' :
  i_roles db' = i_roles db -> i_user_roles db' = i_user_roles db -> keeps_roles db db'.
Proof. intros Hr Hu [Hc Hb Hl]. split; [split; rewrite ?Hr, ?Hu; done|done]. Qed.

Lemma keeps_roles_insert db k a :
  as_expires_at a = None -> keeps_roles db (set_user_roles db (<[k := a]> (i_user_roles db))).
Proof.
  intros Ha [Hc Hb Hl]. split; [split; cbn; try done|done].
  intros j b [[<- <-]|[_ Hj]]%lookup_insert_Some; [done|by eapply Hl].
Qed.

Lemma keeps_roles_delete db u : keeps_roles db (set_user_roles db (filter (fun kv => kv.1.1 <> u) (i_user_roles db))).
Proof.
  intros [Hc Hb Hl]. split; [split; cbn; try done|done].
  intros j b [Hj _]%map_lookup_filter_Some. by eapply Hl.
Qed.

Lemma role_of_some code db rid r : role_of code db = Some (rid, r) -> i_roles db !! rid = Some r /\ rm_code r = code.
Proof.
  unfold role_of. intros [Hin Hc]%List.find_some. apply list_elem_of_In, elem_of_map_to_list in Hin.
  by apply String.eqb_eq in Hc.
Qed.

(** The status of a fixed role cannot change. *)
Lemma role_status_refused r st by_ t db : roles_wf db -> exists e, update_role_status r st by_ t db = Err e.
Proof.
  intros Hwf. unfold update_role_status, mbind, st_bind, gets. destruct (role_of r db) as [[rid row]|] eqn:Hr; [|by eexists].
  apply role_of_some in Hr as [Hrow <-]. destruct (string_in (rm_code row) ROLE_NAMES) eqn:Hn; [|by eexists].
  rewrite (rw_builtin _ Hwf _ _ Hrow Hn). by eexists.
Qed.

Lemma keeps_roles_status r st by_ t : st_moves keeps_roles (update_role_status r st by_ t).
Proof. intros db a db' Hr Hwf. destruct (role_status_refused r st by_ t db Hwf) as [e He]. by rewrite He in Hr. Qed.

Ltac roles_leaf :=
  first [ by apply keeps_roles_same | by apply keeps_roles_insert | apply keeps_roles_delete ].

Lemma roles_tx A m : identity_tx sha256_hex netloc cfg A m -> st_moves keeps_roles m.
Proof.
  destruct 1;
    lazymatch goal with |- st_moves _ (update_role_status _ _ _ _) => apply keeps_roles_status | _ => imoves; roles_leaf end.
Qed.

Lemma roles_step db db' : identity_step sha256_hex verify netloc cfg db db' -> keeps_roles db db'.
Proof.
  destruct 1 as [A m Htx|us cs n p c prev w tok t|tok b t|A m].
  - moves_run. by apply roles_tx.
  - apply (login_moves sha256_hex verify cfg keeps_roles). intros uid a _. moves_run. imoves; roles_leaf.
  - unfold authenticate. apply (commit_then_raise_moves keeps_roles). imoves; roles_leaf.
  - moves_run. imoves; roles_leaf.
Qed.

Lemma roles_run db db' : run db db' -> keeps_roles db db'.
Proof. induction 1 as [|x y z Hxy Hyz IH]; [reflexivity|]. transitivity y; [by apply roles_step|done]. Qed.

(** ** Developers *)

(** An account that can act as a developer. *)
Definition developer (db : IDB) (u : string) : Prop :=
  exists rid x a, i_user_roles db !! (u, rid) = Some x /\ is_developer_role db rid = true /\
    i_users db !! u = Some a /\ usable a = true.

Lemma elem_of_developers db u : u ∈ developer_ids db <-> developer db u.
Proof.
  unfold developer_ids, developer. rewrite elem_of_list_to_set, elem_of_omap_map. split.
  - intros ([v rid] & x & Hk & Hf). cbn in Hf. destruct (i_users db !! v) as [a|] eqn:Ha; [|done]. cbn in Hf.
    destruct (is_developer_role db rid && usable a) eqn:Hb; [|done]. injection Hf as <-.
    apply andb_true_iff in Hb as [? ?]. by exists rid, x, a.
  - intros (rid & x & a & Hk & Hr & Ha & Hu). exists (u, rid), x. split; [done|]. cbn. rewrite Ha. cbn. by rewrite Hr, Hu.
Qed.

(** Developers other than the accounts of [X] stay so. *)
Definition developers_but (X : string -> Prop) (db db' : IDB) : Prop := forall u, ~ X u -> developer db u -> developer db' u.

#[local] Instance developers_but_preorder X : PreOrder (developers_but X).
Proof. split; [by intros db u|]. intros x y z Hxy Hyz u Hu Hd. by apply Hyz, Hxy. Qed.

Lemma developers_same X db db' :
  i_users db' = i_users db -> i_roles db' = i_roles db -> i_user_roles db' = i_user_roles db -> developers_but X db db'.
Proof. unfold developers_but, developer, is_developer_role. intros -> -> ->. done. Qed.

Lemma developers_users (X : string -> Prop) db m :
  (forall u a, ~ X u -> i_users db !! u = Some a -> usable a = true -> exists a', m !! u = Some a' /\ usable a' = true) ->
  developers_but X db (set_users db m).
Proof.
  intros Hm u Hu (rid & x & a & Hk & Hr & Ha & Hus). destruct (Hm u a Hu Ha Hus) as (a' & Ha' & Hus').
  by exists rid, x, a'.
Qed.

Lemma developers_alter (X : string -> Prop) db v f :
  (forall a, X v \/ (usable a = true -> usable (f a) = true)) ->
  developers_but X db (set_users db (alter f v (i_users db))).
Proof.
  intros Hf. apply developers_users. intros u a Hu Ha Hus. destruct (decide (u = v)) as [->|Hne].
  - exists (f a). rewrite lookup_alter_eq, Ha. split; [done|]. destruct (Hf a); [done|auto].
  - exists a. by rewrite lookup_alter_ne.
Qed.

Lemma developers_insert X db v b : i_users db !! v = None -> developers_but X db (set_users db (<[v := b]> (i_users db))).
Proof.
  intros Hn. apply developers_users. intros u a _ Ha Hus. exists a. by rewrite lookup_insert_ne by congruence.
Qed.

Lemma developers_bumped X db (ids : gset string) :
  developers_but X db (set_users db
    (map_imap (fun uid a => Some (if decide (uid ∈ ids) then bumped a else a)) (i_users db))).
Proof.
  apply developers_users. intros u a _ Ha Hus. exists (if decide (u ∈ ids) then bumped a else a).
  rewrite map_lookup_imap, Ha. by destruct (decide _).
Qed.

Lemma developers_assign X db k a : developers_but X db (set_user_roles db (<[k := a]> (i_user_roles db))).
Proof.
  intros u _ (rid & x & b & Hk & Hr & Hb & Hus). destruct (decide (k = (u, rid))) as [->|Hne].
  - exists rid, a, b. cbn. by rewrite lookup_insert_eq.
  - exists rid, x, b. cbn. by rewrite lookup_insert_ne.
Qed.

Lemma developers_unassign v db :
  developers_but (eq v) db (set_user_roles db (filter (fun kv => kv.1.1 <> v) (i_user_roles db))).
Proof.
  intros u Hu (rid & x & a & Hk & Hr & Ha & Hus). exists rid, x, a. cbn. split; [|done].
  apply map_lookup_filter_Some. split; [done|]. cbn. congruence.
Qed.

Lemma usable_active a : usable a = true -> usable (bumped (with_status "active" a)) = true.
Proof. unfold usable. cbn. by intros [_ ->]%andb_true_iff. Qed.

Ltac developers_leaf :=
  first
    [ by apply developers_same
    | apply developers_alter; intros ?; first [by left | right; first [done | apply usable_active]]
    | by apply developers_insert | apply developers_bumped | apply developers_assign | apply developers_unassign ].

(** The calls that can take a developer away, and from whom. *)
Definition demotes (u : string) (db db' : IDB) : Prop :=
  (exists st t, st ∈ ACCOUNT_STATUSES /\ db' = (run_tx (update_user_status u st t) db).2) \/
  (exists by_ t, db' = (run_tx (soft_delete_user u by_ t) db).2) \/
  (exists codes by_ t, db' = (run_tx (replace_user_roles u codes by_ t) db).2).

Lemma developers_status u st t : st_moves (developers_but (eq u)) (update_user_status u st t).
Proof. imoves; developers_leaf. Qed.
Lemma developers_soft_delete u by_ t : st_moves (developers_but (eq u)) (soft_delete_user u by_ t).
Proof. imoves; developers_leaf. Qed.
Lemma developers_user_roles u codes by_ t : st_moves (developers_but (eq u)) (replace_user_roles u codes by_ t).
Proof. imoves; developers_leaf. Qed.

Lemma developers_demoted u db db' : demotes u db db' -> developers_but (eq u) db db'.
Proof.
  intros [(st & t & _ & ->)|[(by_ & t & ->)|(codes & by_ & t & ->)]]; moves_run;
    [apply developers_status|apply developers_soft_delete|apply developers_user_roles].
Qed.

Abbreviation all_developers := (developers_but (fun _ => False)).

Lemma developers_step db db' :
  roles_wf db -> identity_step sha256_hex verify netloc cfg db db' ->
  all_developers db db' \/ exists u, demotes u db db'.
Proof.
  intros Hwf. destruct 1 as [A m Htx|us cs n p c prev w tok t|tok b t|A m].
  - destruct Htx as [| |u st t| | |u by_ t| | |r st by_ t| |u codes by_ t| | | | | | | | | | | | | | | | |];
      lazymatch goal with
      | |- context [run_tx (update_user_status _ _ _)] => right; exists u; left; eauto
      | |- context [run_tx (soft_delete_user _ _ _)] => right; exists u; right; left; eauto
      | |- context [run_tx (replace_user_roles _ _ _ _)] => right; exists u; right; right; eauto
      | |- context [run_tx (update_role_status _ _ _ _)] =>
          left; destruct (role_status_refused r st by_ t db Hwf) as [e He]; unfold run_tx; rewrite He; reflexivity
      | _ => left; moves_run; imoves; developers_leaf
      end.
  - left. apply (login_moves sha256_hex verify cfg all_developers). intros uid a _. moves_run. imoves; developers_leaf.
  - left. unfold authenticate. apply (commit_then_raise_moves all_developers). imoves; developers_leaf.
  - left. moves_run. imoves; developers_leaf.
Qed.

(** The check for the last developer: passed, another one is left, or the account is none. *)
Lemma developer_spared u db a db' :
  ensure_not_last_developer u db = Ok (a, db') ->
  db' = db /\ (developer db u -> exists v, v <> u /\ developer db v).
Proof.
  unfold ensure_not_last_developer. intros (ids & db1 & [= <- <-] & Hr)%st_bind_ok.
  destruct (bool_decide (u ∈ developer_ids db)) eqn:Hu; cbn in Hr.
  - apply bool_decide_eq_true in Hu. destruct (size (developer_ids db) <=? 1)%nat eqn:Hs; [done|]. injection Hr as <- <-.
    split; [done|]. intros _. apply Nat.leb_gt in Hs.
    destruct (decide (developer_ids db ∖ {[u]} = ∅)) as [He|Hne].
    + assert (Hsub : developer_ids db ⊆ {[u]}).
      { intros x Hx. destruct (decide (x = u)) as [->|Hxu]; [by apply elem_of_singleton|].
        assert (x ∈ developer_ids db ∖ {[u]}) as Hin by (by apply elem_of_difference; rewrite elem_of_singleton).
        rewrite He in Hin. by apply elem_of_empty in Hin. }
      apply subseteq_size in Hsub. rewrite size_singleton in Hsub. lia.
    + apply set_choose_L in Hne as [v Hv]. apply elem_of_difference in Hv as [Hv Hvu].
      rewrite elem_of_singleton in Hvu. exists v. by rewrite <- elem_of_developers.
  - apply bool_decide_eq_false in Hu. injection Hr as <- <-. split; [done|]. by intros Hd%elem_of_developers.
Qed.

Lemma status_spares u st t db a db' :
  st ∈ ACCOUNT_STATUSES -> update_user_status u st t db = Ok (a, db') -> developer db u ->
  developer db' u \/ exists v, v <> u /\ developer db v.
Proof.
  intros Hst Hr Hd. destruct (decide (st = "active")) as [->|Hne].
  - left. assert (Hm : st_moves all_developers (update_user_status u "active" t)) by (imoves; developers_leaf).
    apply (Hm db a db' Hr); [tauto|done].
  - right. assert (Hclosing : string_in st ["disabled"; "locked"] = true).
    { unfold ACCOUNT_STATUSES in Hst. unfold string_in. apply bool_decide_eq_true. set_solver. }
    revert Hr. unfold update_user_status, get_user. intros (b & db1 & Hg & Hr)%st_bind_ok. rewrite Hclosing in Hr.
    apply st_bind_ok in Hg as (f & db2 & [= <- <-] & Hg). pose proof Hd as (rid & x & ac & _ & _ & Hac & Hus).
    rewrite Hac in Hg. case_match; [|done]. injection Hg as <- <-.
    apply andb_true_iff in Hus as [Hact _]. rewrite Hact in Hr. cbn -[ensure_not_last_developer] in Hr.
    apply st_bind_ok in Hr as (? & db1 & (_ & Hsp)%developer_spared & _). auto.
Qed.

Lemma soft_delete_spares u by_ t db a db' :
  soft_delete_user u by_ t db = Ok (a, db') -> developer db u -> exists v, v <> u /\ developer db v.
Proof.
  unfold soft_delete_user, get_user. destruct (String.eqb u by_); [done|].
  intros (b & db1 & Hg & Hr)%st_bind_ok Hd. apply st_bind_ok in Hg as (f & db2 & [= <- <-] & Hg).
  destruct (i_users db !! u); [|done]. case_match; [|done]. injection Hg as <- <-.
  apply st_bind_ok in Hr as (? & db1 & (_ & Hsp)%developer_spared & _). auto.
Qed.

(** An assignment of the developer role to an account that cannot act. *)
Definition idle_developer (db : IDB) : Prop :=
  exists v rid x, i_user_roles db !! (v, rid) = Some x /\ is_developer_role db rid = true /\ ~ developer db v.

Lemma elem_of_role_ids t u db rid :
  rid ∈ role_ids t u db <->
  exists x r, i_user_roles db !! (u, rid) = Some x /\ assigned t x = true /\ i_roles db !! rid = Some r /\ fixed_role r = true.
Proof.
  unfold role_ids. rewrite elem_of_omap_map. split.
  - intros ([v rid'] & x & Hk & Hf). cbn in Hf. destruct (String.eqb_spec v u) as [->|]; [|done].
    destruct (assigned t x) eqn:Ha; [|done]. cbn in Hf. destruct (i_roles db !! rid') as [r|] eqn:Hr; [|done]. cbn in Hf.
    destruct (fixed_role r) eqn:Hfix; [|done]. injection Hf as <-. by exists x, r.
  - intros (x & r & Hk & Ha & Hr & Hfix). exists (u, rid), x. split; [done|]. cbn. by rewrite String.eqb_refl, Ha, Hr; cbn; rewrite Hfix.
Qed.

Lemma elem_of_roles_for t u db code :
  code ∈ roles_for t u db <->
  exists rid x r, i_user_roles db !! (u, rid) = Some x /\ assigned t x = true /\ i_roles db !! rid = Some r /\
    fixed_role r = true /\ rm_code r = code.
Proof.
  unfold roles_for. rewrite elem_of_list_to_set, list_elem_of_omap. setoid_rewrite elem_of_role_ids. split.
  - intros (rid & (x & r & Hk & Ha & Hr & Hf) & Hc). rewrite Hr in Hc. injection Hc as <-. by exists rid, x, r.
  - intros (rid & x & r & Hk & Ha & Hr & Hf & Hc). exists rid. split; [by exists x, r|]. by rewrite Hr, <- Hc.
Qed.

Lemma developer_role_row db rid :
  is_developer_role db rid = true ->
  exists r, i_roles db !! rid = Some r /\ rm_code r = "developer" /\ rm_status r = "active" /\ fixed_role r = true.
Proof.
  unfold is_developer_role. destruct (i_roles db !! rid) as [r|]; [|done].
  intros [Hc%String.eqb_eq Hs%String.eqb_eq]%andb_true_iff. exists r. unfold fixed_role. by rewrite Hc, Hs.
Qed.

Lemma another_elem {A} `{EqDecision A} (l : list A) x : NoDup l -> (1 < length l)%nat -> exists y, y ∈ l /\ y <> x.
Proof.
  destruct l as [|y [|z l]]; cbn; [lia..|]. intros [Hy _]%NoDup_cons _.
  destruct (decide (y = x)) as [->|Hne]; [|exists y; split; [by left|done]]. exists z. split; [by right; left|].
  intros ->. apply Hy. by left.
Qed.

(** Of several rows that satisfy a condition, one has another key than the given one. *)
Lemma another_row {K A} `{Countable K} (p : K * A -> bool) (m : gmap K A) k :
  (1 < length (List.filter p (map_to_list m)))%nat -> exists k' x, k' <> k /\ m !! k' = Some x /\ p (k', x) = true.
Proof.
  intros Hn. rewrite <- (length_fmap fst) in Hn.
  assert (Hnd : NoDup (fst <$> List.filter p (map_to_list m))).
  { apply (sublist_NoDup _ (fst <$> map_to_list m)); [apply NoDup_fst_map_to_list|apply fmap_sublist, filter_sublist_of]. }
  destruct (another_elem _ k Hnd Hn) as (k' & Hk & Hne). apply list_elem_of_fmap in Hk as ([k1 x] & -> & Hin).
  apply elem_of_filter_map in Hin as [Hx Hp]. by exists k1, x.
Qed.

(** Two developer assignments are of two accounts. *)
Lemma two_developers db u rid :
  roles_wf db -> is_developer_role db rid = true -> (1 < developer_count db)%nat ->
  exists v rid' x, v <> u /\ i_user_roles db !! (v, rid') = Some x /\ is_developer_role db rid' = true.
Proof.
  intros Hwf Hrid Hn. destruct (another_row _ _ (u, rid) Hn) as ([v rid'] & x & Hne & Hx & Hd). cbn in Hd.
  exists v, rid', x. split; [|done]. intros ->. apply Hne. f_equal.
  apply developer_role_row in Hd as (r1 & H1 & C1 & _), Hrid as (r2 & H2 & C2 & _).
  eapply (rw_codes _ Hwf); [done|done|congruence].
Qed.

Lemma assign_all u by_ rows db a db' :
  st_iter (fun kv : string * RoleModelRow =>
             insert_assignment u kv.1 {| as_expires_at := None; as_assigned_by_user_id := by_ |}) rows db = Ok (a, db') ->
  i_users db' = i_users db /\ i_roles db' = i_roles db /\
  (forall k, is_Some (i_user_roles db' !! k) <-> is_Some (i_user_roles db !! k) \/ k.1 = u /\ k.2 ∈ rows.*1).
Proof.
  revert db. induction rows as [|kv rows IH]; cbn; intros db Hr.
  - injection Hr as <- <-. split_and!; try done. intros k. set_solver.
  - apply st_bind_ok in Hr as (? & db1 & Hi & Hr). destruct (IH _ Hr) as (Hu & Ho & Hall).
    assert (Hone : i_users db1 = i_users db /\ i_roles db1 = i_roles db /\
      exists x, i_user_roles db1 = <[(u, kv.1) := x]> (i_user_roles db)).
    { revert Hi. unfold insert_assignment, istmt. repeat (case_match; try done). all: intros [= <- <-]; eauto. }
    destruct Hone as (Hu1 & Ho1 & w & Hw). split_and!; [congruence|congruence|]. intros [k1 k2]. rewrite Hall, Hw.
    rewrite lookup_insert_is_Some'. cbn. rewrite elem_of_cons. naive_solver.
Qed.

Lemma replace_roles_rest u by_ (current codes : gset string) t db a db' :
  (_ ← update_account u bumped;
   _ ← mark_authorization_changed u "user_roles_changed" t;
   _ ← audit by_ (Some u) "allow" "user_roles_replaced" (Some "system:role:manage") (Some "user")
         (Some u) (JObj [("before", json_strings (sort_by string_leb (elements current)));
                         ("after", json_strings (sort_by string_leb (elements codes)))]) t;
   mret codes) db = Ok (a, db') -> all_developers db db'.
Proof. match goal with |- ?m _ = _ -> _ => assert (Hm : st_moves all_developers m) end; [imoves; developers_leaf|apply Hm]. Qed.

(** What is left of [replace_user_roles] once its checks are passed. *)
Lemma replace_roles_inv u codes by_ t db a db' :
  replace_user_roles u codes by_ t db = Ok (a, db') ->
  let requested := if decide (codes = ∅) then {["guest"]} else codes in
  let rows := requested_roles requested db in
  list_to_set ((fun kv : string * RoleModelRow => rm_code kv.2) <$> rows) = requested /\
  (by_ = Some u -> requested ⊆ roles_for t u db) /\
  ("developer" ∈ roles_for t u db -> "developer" ∉ requested -> (1 < developer_count db)%nat) /\
  exists db1 x, st_iter (fun kv : string * RoleModelRow =>
      insert_assignment u kv.1 {| as_expires_at := None; as_assigned_by_user_id := by_ |}) rows
      (set_user_roles db (filter (fun kv => kv.1.1 <> u) (i_user_roles db))) = Ok (x, db1) /\ all_developers db1 db'.
Proof.
  unfold replace_user_roles. intros (found & db1 & [= <- <-] & Hr)%st_bind_ok.
  destruct (i_users db !! u); [|done]. set (req := if decide (codes = ∅) then _ else _) in *.
  apply st_bind_ok in Hr as (rows & db1 & [= <- <-] & Hr). apply st_bind_ok in Hr as (current & db1 & [= <- <-] & Hr).
  apply st_bind_ok in Hr as (count & db1 & [= <- <-] & Hr). cbn zeta in *.
  destruct (bool_decide (_ = req)) eqn:Hc; cbn [negb] in Hr; [|done]. apply bool_decide_eq_true in Hc. rewrite Hc in Hr.
  destruct (bool_decide (by_ = Some u) && _) eqn:Hself; [done|].
  destruct (bool_decide ("developer" ∈ roles_for t u db) && _ && _) eqn:Hlast; [done|].
  apply st_bind_ok in Hr as (? & db1 & [= <- <-] & Hr). apply st_bind_ok in Hr as (y & db2 & Hi & Hr).
  split_and!; [done| | |].
  - intros Hby. rewrite bool_decide_true in Hself by done. apply negb_false_iff, bool_decide_eq_true in Hself. done.
  - intros Hd Hn. rewrite (bool_decide_true ("developer" ∈ roles_for _ _ _)), (bool_decide_false ("developer" ∈ req)) in Hlast by done.
    cbn in Hlast. by apply Nat.leb_gt in Hlast.
  - exists db2, y. split; [done|]. revert Hr. apply replace_roles_rest.
Qed.

Lemma user_roles_spare u codes by_ t db a db' :
  roles_wf db -> replace_user_roles u codes by_ t db = Ok (a, db') -> developer db u ->
  developer db' u \/ (exists v, v <> u /\ developer db v) \/ idle_developer db.
Proof.
  intros Hwf Hr Hd. apply replace_roles_inv in Hr as (Hcodes & _ & Hcount & db1 & x & Hi & Hall).
  set (req := if decide (codes = ∅) then _ else _) in *. pose proof Hd as (rid & y & ac & Hk & Hrid & Hac & Hus).
  apply assign_all in Hi as (Hu & Ho & Hassigned). cbn in Hu, Ho.
  destruct (decide ("developer" ∈ req)) as [Hin|Hout].
  - left. apply Hall; [tauto|]. rewrite <- Hcodes in Hin. apply elem_of_list_to_set, list_elem_of_fmap in Hin as ([rid' r] & Hc & Hrow).
    pose proof Hrow as [Hrr Hok]%elem_of_filter_map. cbn in Hok, Hc. apply andb_true_iff in Hok as [[_ Hfix]%andb_true_iff _].
    destruct (Hassigned (u, rid')) as [_ [z Hz]].
    { right. split; [done|]. by apply (list_elem_of_fmap_2 fst _ (rid', r)). }
    exists rid', z, ac. rewrite Hu. split; [done|]. split; [|done]. unfold is_developer_role. rewrite Ho, Hrr, <- Hc.
    by apply andb_true_iff in Hfix as [-> _].
  - right. assert (Hn : (1 < developer_count db)%nat).
    { apply Hcount; [|done]. apply elem_of_roles_for. apply developer_role_row in Hrid as (r & Hr & Hc & _ & Hfix).
      exists rid, y, r. split_and!; try done. unfold assigned. by rewrite (rw_lasting _ Hwf _ _ Hk). }
    destruct (two_developers db u rid Hwf Hrid Hn) as (v & rid' & z & Hne & Hz & Hrid').
    destruct (i_users db !! v) as [b|] eqn:Hb; [destruct (usable b) eqn:Hub|].
    + left. exists v. split; [done|]. by exists rid', z, b.
    + right. exists v, rid', z. split_and!; try done. intros (? & ? & b' & _ & _ & Hb' & Hub'). congruence.
    + right. exists v, rid', z. split_and!; try done. intros (? & ? & b' & _ & _ & Hb' & Hub'). congruence.
Qed.

(** C7: no call leaves the deployment without an account that can act as a developer, but one: a
    replacement of roles, while another developer's account is disabled, locked or deleted. *)
Theorem active_developer_remains start db db' :
  roles_wf start -> run start db -> identity_step sha256_hex verify netloc cfg db db' ->
  (exists u, developer db u) ->
  (exists u, developer db' u)
  \/ (idle_developer db /\ exists u codes by_ t a, replace_user_roles u codes by_ t db = Ok (a, db')).
Proof.
  intros Hstart Hrun Hstep [d Hd]. assert (Hwf : roles_wf db) by (by apply (roles_run start)).
  destruct (developers_step db db' Hwf Hstep) as [Hall|[u Hdem]]; [left; exists d; apply Hall; [tauto|done]|].
  assert (Hothers : (exists v, v <> u /\ developer db v) -> exists v, developer db' v).
  { intros (v & Hne & Hv). exists v. eapply developers_demoted; [exact Hdem|congruence|done]. }
  destruct (decide (d = u)) as [->|Hne]; [|left; apply Hothers; eauto].
  destruct Hdem as [(st & t & Hst & Hdb)|[(by_ & t & Hdb)|(codes & by_ & t & Hdb)]];
    subst db';
    match goal with |- context [run_tx ?m db] => destruct (run_tx_cases m db) as [[a Hr]|Hr] end;
    try (rewrite Hr; left; by eauto).
  - destruct (status_spares _ _ _ _ _ _ Hst Hr Hd) as [|]; left; eauto.
  - left. apply Hothers. by eapply soft_delete_spares.
  - destruct (user_roles_spare _ _ _ _ _ _ _ Hwf Hr Hd) as [|[|]]; [left; eauto..|right; split; [done|by eexists _, _, _, _, _]].
Qed.
End identity_roles.

(** ** Witnesses *)

Module RolesWorld.
Import IdentityWorld.

(** Ada becomes a developer, makes Root a guest as well and is disabled. *)
Definition two_developers_db : IDB := after (replace_user_roles ada {["developer"]} (Some root) NOON) staffed.
Definition root_is_guest : IDB := after (replace_user_roles root {["developer"; "guest"]} (Some ada) NOON) two_developers_db.
Definition ada_disabled : IDB := after (update_user_status ada "disabled" NOON) root_is_guest.
Definition root_leaves : Itx (gset string) := replace_user_roles root {["guest"]} (Some root) NOON.

Abbreviation runs := (identity_run sha checks host_of day_sessions).

Lemma developer_here db u : bool_decide (u ∈ developer_ids db) = true -> developer db u.
Proof. intros Hb. apply elem_of_developers. by apply bool_decide_eq_true in Hb. Qed.

Lemma ada_disabled_reached : runs seed ada_disabled.
Proof.
  repeat (eapply rtc_r; [|apply st_tx; constructor; unfold ACCOUNT_STATUSES; set_solver]). apply rtc_refl.
Qed.

Lemma seed_wf : roles_wf seed.
Proof.
  assert (Hb : forallb (fun kv : string * RoleModelRow => rm_is_builtin kv.2 && String.eqb (role_id (rm_code kv.2)) kv.1)
                 (map_to_list (i_roles seed)) = true) by (vm_compute; reflexivity).
  assert (Hrow : forall i r, i_roles seed !! i = Some r -> rm_is_builtin r = true /\ role_id (rm_code r) = i).
  { intros i r Hr%elem_of_map_to_list%list_elem_of_In. apply (proj1 (forallb_forall _ _) Hb) in Hr.
    apply andb_true_iff in Hr as [Hbuiltin Hid%String.eqb_eq]. exact (conj Hbuiltin Hid). }
  split.
  - intros i j r r' Hi%Hrow Hj%Hrow Hc. destruct Hi as [_ <-], Hj as [_ <-]. by rewrite Hc.
  - by intros i r [Hr _]%Hrow _.
  - intros k a Hk. by vm_compute in Hk.
Qed.

Lemma active_developer_remains_witness :
  (exists u, developer ada_disabled u)
  \/ (idle_developer root_is_guest /\ exists u codes by_ t a, replace_user_roles u codes by_ t root_is_guest = Ok (a, ada_disabled)).
Proof.
  apply (active_developer_remains sha checks host_of day_sessions seed root_is_guest ada_disabled seed_wf).
  - repeat (eapply rtc_r; [|apply st_tx; constructor]). apply rtc_refl.
  - apply st_tx. constructor. unfold ACCOUNT_STATUSES. set_solver.
  - exists root. apply developer_here. vm_compute. reflexivity.
Defined.

(** The exception is real: a developer whose only colleague is disabled may give the role up,
    and the deployment is left with no account that can act as a developer. *)
Lemma developers_can_lock_themselves_out :
  runs seed ada_disabled /\ developer ada_disabled root /\
  is_ok (run_tx root_leaves ada_disabled).1 = true /\ forall u, ~ developer (after root_leaves ada_disabled) u.
Proof.
  split_and!; [exact ada_disabled_reached| |vm_compute; reflexivity|].
  - apply developer_here. vm_compute. reflexivity.
  - intros u Hu%elem_of_developers. assert (He : bool_decide (developer_ids (after root_leaves ada_disabled) = ∅) = true)
      by (vm_compute; reflexivity).
    apply bool_decide_eq_true in He. rewrite He in Hu. by apply elem_of_empty in Hu.
Qed.
End RolesWorld.
