(* ===== verification/IdentityGrants.v ===== *)
(** * IdentityGrants: what a principal holds and what a role grants

    The principal of a user in terms of the rows of its roles, the round trip of the permissions
    of a role, and the fallback to the built-in packages when nothing is granted. *)
From S2P Require Import Prelude PyText Clock Json SandboxStore Sandbox Authorization.
From S2P Require Import IdentityStore IdentityCodes IdentityAdmin IdentityAccounts IdentityAuth IdentityFrame IdentitySafety IdentityRoles.
Local Open Scope Z_scope.

Section identity_grants.
Context `{Uuids}.

(** ** What a principal holds *)

(** A role of the user that counts at an instant. *)
Definition live_role_of (db : IDB) (t : Z) (u rid : string) : Prop :=
  exists x r, i_user_roles db !! (u, rid) = Some x /\ assigned t x = true /\ i_roles db !! rid = Some r /\ fixed_role r = true.

Definition active_permission (db : IDB) (pid code : string) : Prop :=
  exists p, i_permissions db !! pid = Some p /\ pm_status p = "active" /\ pm_code p = code.

(** Every scope row belongs to a granted permission. *)
Definition scopes_granted (db : IDB) : Prop :=
  forall rid pid s, (rid, pid, s) ∈ i_role_scopes db -> is_Some (i_role_permissions db !! (rid, pid)).

Lemma active_code_some db pid code : active_code db pid = Some code <-> active_permission db pid code.
Proof.
  unfold active_code, active_permission. destruct (i_permissions db !! pid) as [p|]; cbn; [|split; [done|by intros (? & ? & _)]].
  destruct (String.eqb_spec (pm_status p) "active"); split; [intros [= <-]; eauto|intros (? & [= <-] & _ & <-); done|done|].
  by intros (? & [= <-] & ? & _).
Qed.

Lemma elem_of_granted_codes t u db code :
  code ∈ granted_codes (role_ids t u db) db <->
  exists rid pid, live_role_of db t u rid /\ is_Some (i_role_permissions db !! (rid, pid)) /\ active_permission db pid code.
Proof.
  unfold granted_codes. rewrite elem_of_list_to_set, elem_of_omap_map. split.
  - intros ([rid pid] & g & Hk & Hf). cbn in Hf. destruct (decide _) as [Hin|]; [|done].
    apply elem_of_role_ids in Hin. exists rid, pid. rewrite <- active_code_some. eauto.
  - intros (rid & pid & Hl & [g Hg] & Ha). exists (rid, pid), g. split; [done|]. cbn.
    rewrite decide_True by (by apply elem_of_role_ids). by apply active_code_some.
Qed.

Lemma elem_of_add_scopes l (code s : string) :
  s ∈ default ∅ (foldr add_scope ∅ l !! code) <-> (code, s) ∈ l.
Proof.
  induction l as [|[c x] l IH]; cbn; [rewrite lookup_empty; set_solver|].
  unfold add_scope at 1. cbn. destruct (decide (c = code)) as [->|Hne].
  - rewrite lookup_insert_eq. cbn. rewrite elem_of_union, elem_of_singleton, IH, elem_of_cons. naive_solver.
  - rewrite lookup_insert_ne, IH, elem_of_cons by done. naive_solver.
Qed.

Lemma elem_of_granted_scopes t u db code s :
  s ∈ default ∅ (granted_scopes (role_ids t u db) db !! code) <->
  exists rid pid, live_role_of db t u rid /\ (rid, pid, s) ∈ i_role_scopes db /\ active_permission db pid code.
Proof.
  unfold granted_scopes. rewrite elem_of_add_scopes, list_elem_of_omap. setoid_rewrite elem_of_elements. split.
  - intros ([[rid pid] x] & Hk & Hf). cbn in Hf. destruct (decide _) as [Hin|]; [|done].
    destruct (active_code db pid) as [c|] eqn:Ha; [|done]. injection Hf as <- <-. apply elem_of_role_ids in Hin.
    exists rid, pid. by rewrite <- active_code_some.
  - intros (rid & pid & Hl & Hk & Ha). exists (rid, pid, s). split; [done|]. cbn.
    rewrite decide_True by (by apply elem_of_role_ids). apply active_code_some in Ha. by rewrite Ha.
Qed.

Lemma principal_inv u t db p db' :
  principal_for_user_id u t db = Ok (p, db') ->
  db' = db /\ user_id p = u /\ roles p = roles_for t u db /\ permissions p = granted_codes (role_ids t u db) db /\
  permission_scopes p = granted_scopes (role_ids t u db) db /\ version_of u db = Some (authorization_version p).
Proof.
  unfold principal_for_user_id, version_of. intros (f & db1 & [= <- <-] & Hr)%st_bind_ok.
  destruct (i_users db !! u) as [a|]; [|done]. destruct (usable a); [|done]. by injection Hr as <- <-.
Qed.

(** ** The permissions of a role *)

(** What is left of [replace_role_permissions]: the rows it wrote. *)
Lemma replace_permissions_rows r codes scopes by_ t db a db' :
  replace_role_permissions r codes scopes by_ t db = Ok (a, db') ->
  exists rid row, role_of r db = Some (rid, row) /\ builtin_role row = true /\
    list_to_set ((fun kv : string * PermissionRow => pm_code kv.2) <$> permission_rows codes db) = codes /\
    check_grant r codes scopes = Ok () /\
    let db1 := with_role_grants rid by_ (permission_rows codes db) scopes db in
    i_role_permissions db' = i_role_permissions db1 /\ i_role_scopes db' = i_role_scopes db1 /\
    i_roles db' = i_roles db /\ i_permissions db' = i_permissions db /\ i_user_roles db' = i_user_roles db.
Proof.
  unfold replace_role_permissions. intros (found & db1 & [= <- <-] & Hrun)%st_bind_ok.
  destruct (role_of r db) as [[rid row]|] eqn:Hr; [|done]. destruct (builtin_role row) eqn:Hb; [|done].
  apply st_bind_ok in Hrun as (rows & db1 & [= <- <-] & Hrun). destruct (decide _) as [Hc|]; [|done].
  apply st_bind_ok in Hrun as ([] & db1 & Hl & Hrun). unfold lift in Hl. destruct (check_grant r codes scopes) as [[]|] eqn:Hg; [|done].
  injection Hl as <-. apply st_bind_ok in Hrun as ([] & db1 & [= <-] & Hrun).
  apply st_bind_ok in Hrun as ([] & db2 & Ha & Hrun).
  assert (Hsame : forall X (f : IDB -> X), st_moves (same f) (audit (Some by_) None "allow" "role_permissions_replaced"
    (Some "system:role:manage") (Some "role") (Some r) (JObj []) t ≫= λ _, invalidate_role_users rid "role_permissions_changed" t) ->
    f db' = f (with_role_grants rid by_ (permission_rows codes db) scopes db)).
  { intros X f Hm. eapply Hm. apply st_bind_ok. eauto. }
  exists rid, row. split_and!; try done.
  - apply (Hsame _ i_role_permissions). imoves; reflexivity.
  - apply (Hsame _ i_role_scopes). imoves; reflexivity.
  - apply (Hsame _ i_roles). imoves; reflexivity.
  - apply (Hsame _ i_permissions). imoves; reflexivity.
  - apply (Hsame _ i_user_roles). imoves; reflexivity.
Qed.

Lemma elem_of_permission_rows codes db pid p :
  (pid, p) ∈ permission_rows codes db <-> i_permissions db !! pid = Some p /\ pm_code p ∈ codes /\ pm_status p = "active".
Proof.
  unfold permission_rows. rewrite elem_of_filter_map. cbn. rewrite andb_true_iff, bool_decide_eq_true, String.eqb_eq. tauto.
Qed.

Lemma lookup_new_grants (rid by_ : string) rows pid :
  is_Some ((list_to_map ((fun kv : string * PermissionRow => ((rid, kv.1), Some by_)) <$> rows)
              : gmap (string * string) (option string)) !! (rid, pid)) <-> pid ∈ rows.*1.
Proof.
  rewrite <- elem_of_dom, dom_list_to_map, elem_of_list_to_set, <- list_fmap_compose, !list_elem_of_fmap. cbn.
  split; intros ([pid' p] & He & Hin); exists (pid', p); cbn in *; simplify_eq; done.
Qed.

(** The grants of a role after it was replaced, and those of the others. *)
Lemma new_grant_rows rid by_ codes scopes db rid' pid :
  is_Some (i_role_permissions (with_role_grants rid by_ (permission_rows codes db) scopes db) !! (rid', pid)) <->
  if decide (rid' = rid) then exists p, (pid, p) ∈ permission_rows codes db else is_Some (i_role_permissions db !! (rid', pid)).
Proof.
  cbn. rewrite lookup_union_is_Some. destruct (decide (rid' = rid)) as [->|Hne].
  - rewrite lookup_new_grants. rewrite list_elem_of_fmap. split.
    + intros [([pid' p] & -> & Hin)|[x Hx]]; [by exists p|].
      apply map_lookup_filter_Some in Hx as [_ Hx]. by cbn in Hx.
    + intros (p & Hp). left. by exists (pid, p).
  - split.
    + intros [[x Hx]|[x Hx]].
      * apply elem_of_list_to_map_2, list_elem_of_fmap in Hx as (? & He & _). by injection He.
      * apply map_lookup_filter_Some in Hx as [Hx _]. eauto.
    + intros [x Hx]. right. exists x. by apply map_lookup_filter_Some.
Qed.

Lemma new_scope_rows rid by_ codes scopes db rid' pid s :
  (rid', pid, s) ∈ i_role_scopes (with_role_grants rid by_ (permission_rows codes db) scopes db) <->
  if decide (rid' = rid) then exists p, (pid, p) ∈ permission_rows codes db /\ s ∈ default ∅ (scopes !! pm_code p)
  else (rid', pid, s) ∈ i_role_scopes db.
Proof.
  cbn. rewrite elem_of_union, elem_of_filter, elem_of_list_to_set, list_elem_of_bind. cbn.
  setoid_rewrite list_elem_of_bind. setoid_rewrite elem_of_elements. setoid_rewrite list_elem_of_singleton.
  destruct (decide (rid' = rid)) as [->|Hne].
  - split.
    + intros [([pid' p] & (s' & He & Hs) & Hin)|[? _]]; [|done]. cbn in *. injection He as -> ->. by exists p.
    + intros (p & Hin & Hs). left. exists (pid, p). split; [|done]. by exists s.
  - split; [intros [([pid' p] & (s' & He & Hs) & Hin)|[_ ?]]; [by injection He|done]|by right].
Qed.

Lemma new_grant_self rid by_ codes scopes db pid :
  is_Some (i_role_permissions (with_role_grants rid by_ (permission_rows codes db) scopes db) !! (rid, pid)) <->
  exists p, (pid, p) ∈ permission_rows codes db.
Proof. rewrite new_grant_rows. by rewrite decide_True. Qed.
Lemma new_scope_self rid by_ codes scopes db pid s :
  (rid, pid, s) ∈ i_role_scopes (with_role_grants rid by_ (permission_rows codes db) scopes db) <->
  exists p, (pid, p) ∈ permission_rows codes db /\ s ∈ default ∅ (scopes !! pm_code p).
Proof. rewrite new_scope_rows. by rewrite decide_True. Qed.

(** What [role_permissions] answers, row by row. *)
Definition granted_row (rid : string) (db : IDB) (pid code : string) : Prop :=
  is_Some (i_role_permissions db !! (rid, pid)) /\ exists p, i_permissions db !! pid = Some p /\ pm_code p = code.

Lemma lookup_merged l (code : string) :
  (is_Some (foldr merge_scopes ∅ l !! code) <-> code ∈ l.*1) /\
  (forall s, s ∈ default ∅ (foldr merge_scopes ∅ l !! code) <-> exists xs, (code, xs) ∈ l /\ s ∈ xs).
Proof.
  induction l as [|[c xs] l [IH1 IH2]]; cbn; [rewrite lookup_empty; split; [|intros s]; set_solver|].
  unfold merge_scopes at 1 3. cbn. destruct (decide (c = code)) as [->|Hne].
  - rewrite lookup_insert_eq. split; [split; [set_solver|by eexists]|]. intros s. cbn. rewrite elem_of_union, IH2.
    setoid_rewrite elem_of_cons. split.
    + intros [Hs|(ys & Hys & Hs)]; [exists xs; auto|exists ys; auto].
    + intros (ys & [[= ->]|Hys] & Hs); [by left|right; eauto].
  - rewrite lookup_insert_ne by done. rewrite IH1. setoid_rewrite IH2. setoid_rewrite elem_of_cons.
    split; [naive_solver|]. intros s. split; [intros (ys & Hys & Hs); eauto|intros (ys & [[= -> _]|Hys] & Hs); [done|eauto]].
Qed.

Lemma elem_of_scopes_of rid pid db s : s ∈ scopes_of rid pid db <-> (rid, pid, s) ∈ i_role_scopes db.
Proof.
  unfold scopes_of. rewrite elem_of_list_to_set, list_elem_of_fmap. setoid_rewrite filter_elem_of.
  setoid_rewrite elem_of_elements. setoid_rewrite bool_decide_eq_true. split.
  - intros ([k x] & -> & Hk & He). cbn in He. by subst k.
  - intros Hk. by exists (rid, pid, s).
Qed.

Lemma elem_of_grant_list rid db code xs :
  (code, xs) ∈ omap (fun kv : string * string * option string =>
             if decide (kv.1.1 = rid)
             then p ← i_permissions db !! kv.1.2; Some (pm_code p, scopes_of rid kv.1.2 db)
             else None) (map_to_list (i_role_permissions db))
  <-> exists pid, granted_row rid db pid code /\ xs = scopes_of rid pid db.
Proof.
  rewrite elem_of_omap_map. unfold granted_row. split.
  - intros ([rid' pid] & g & Hk & Hf). cbn in Hf. destruct (decide (rid' = rid)) as [->|]; [|done].
    destruct (i_permissions db !! pid) as [p|] eqn:Hp; [|done]. injection Hf as <- <-. exists pid. eauto 6.
  - intros (pid & ([g Hg] & p & Hp & <-) & ->). exists (rid, pid), g. split; [done|]. cbn. rewrite decide_True by done.
    by rewrite Hp.
Qed.

Lemma lookup_role_grants rid db code :
  (is_Some (role_grants rid db !! code) <-> exists pid, granted_row rid db pid code) /\
  (forall s, s ∈ default ∅ (role_grants rid db !! code) <->
     exists pid, granted_row rid db pid code /\ (rid, pid, s) ∈ i_role_scopes db).
Proof.
  unfold role_grants. set (l := omap _ _). destruct (lookup_merged l code) as [H1 H2]. split.
  - rewrite H1, list_elem_of_fmap. split.
    + intros ([c xs] & -> & Hin). apply elem_of_grant_list in Hin as (pid & Hg & _). eauto.
    + intros (pid & Hg). exists (code, scopes_of rid pid db). split; [done|]. apply elem_of_grant_list. eauto.
  - intros s. rewrite H2. split.
    + intros (xs & Hin & Hs). apply elem_of_grant_list in Hin as (pid & Hg & ->). exists pid. by rewrite <- elem_of_scopes_of.
    + intros (pid & Hg & Hs). exists (scopes_of rid pid db). split; [|by apply elem_of_scopes_of].
      apply elem_of_grant_list. eauto.
Qed.

(** Such answers are equal when they grant the same codes with the same scopes. *)
Lemma grants_ext (m m' : gmap string (gset string)) :
  (forall code, is_Some (m !! code) <-> is_Some (m' !! code)) ->
  (forall code s, s ∈ default ∅ (m !! code) <-> s ∈ default ∅ (m' !! code)) -> m = m'.
Proof.
  intros H1 H2. apply map_eq. intros code. specialize (H1 code). specialize (H2 code).
  destruct (m !! code) as [x|], (m' !! code) as [y|]; cbn in H2.
  - f_equal. by apply set_eq.
  - destruct H1 as [H1 _]. destruct H1; [by eexists|done].
  - destruct H1 as [_ H1]. destruct H1; [by eexists|done].
  - done.
Qed.

(** The grants as they were asked for. *)
Definition asked (codes : gset string) (scopes : gmap string (gset string)) : gmap string (gset string) :=
  set_to_map (fun code => (code, default ∅ (scopes !! code))) codes.

Lemma lookup_asked codes scopes code :
  asked codes scopes !! code = if decide (code ∈ codes) then Some (default ∅ (scopes !! code)) else None.
Proof.
  unfold asked. destruct (decide (code ∈ codes)) as [Hin|Hout].
  - apply lookup_set_to_map; [done|]. by exists code.
  - apply eq_None_not_Some. intros [x Hx]. apply lookup_set_to_map in Hx as (c & Hc & [= -> _]); done.
Qed.

(** C24: what [replace_role_permissions] stored for a role is read back as it was asked for, each
    permission with its scopes, and every other role reads back as before. *)
Theorem role_grants_read_back r codes scopes by_ t db a db' :
  replace_role_permissions r codes scopes by_ t db = Ok (a, db') ->
  role_permissions r db' = Ok (asked codes scopes, db')
  /\ forall r', r' <> r -> (run_tx (role_permissions r') db').1 = (run_tx (role_permissions r') db).1.
Proof.
  intros (rid & row & Hr & Hb & Hcodes & _ & Hrp & Hrs & Hro & Hpe & _)%replace_permissions_rows.
  assert (Hrole : forall c, role_of c db' = role_of c db) by (intros c; unfold role_of; by rewrite Hro).
  assert (Hasked : forall code, code ∈ codes <-> exists pid p, (pid, p) ∈ permission_rows codes db /\ pm_code p = code).
  { intros code. rewrite <- Hcodes at 1. rewrite elem_of_list_to_set, list_elem_of_fmap. split.
    - intros ([pid p] & -> & Hin). by exists pid, p.
    - intros (pid & p & Hin & <-). by exists (pid, p). }
  split.
  - unfold role_permissions, mbind, st_bind, gets. rewrite Hrole, Hr, Hb. do 2 f_equal. apply grants_ext.
    + intros code. rewrite (proj1 (lookup_role_grants _ _ _)), lookup_asked. unfold granted_row. rewrite Hrp, Hpe.
      setoid_rewrite new_grant_self. specialize (Hasked code).
      destruct (decide (code ∈ codes)) as [Hin|Hout]; (split; [|]).
      * by eexists.
      * intros _. apply Hasked in Hin as (pid & p & Hp & Hc). exists pid. split; [by exists p|].
        apply elem_of_permission_rows in Hp as [Hp _]. eauto.
      * intros (pid & (p & Hp) & p' & Hp' & Hc). destruct Hout. apply Hasked. exists pid, p. split; [done|].
        apply elem_of_permission_rows in Hp as [Hp _]. congruence.
      * by intros [? ?].
    + intros code s. rewrite (proj2 (lookup_role_grants _ _ _)), lookup_asked. unfold granted_row. rewrite Hrp, Hrs, Hpe.
      setoid_rewrite new_grant_self. setoid_rewrite new_scope_self. specialize (Hasked code). split.
      * intros (pid & (_ & p' & Hp' & Hc) & p & Hp & Hs). pose proof Hp as [Hpp _]%elem_of_permission_rows.
        assert (p' = p) as -> by congruence. rewrite Hc in Hs.
        rewrite decide_True by (apply Hasked; by exists pid, p). done.
      * destruct (decide (code ∈ codes)) as [Hin|Hout]; cbn; [|set_solver]. intros Hs.
        apply Hasked in Hin as (pid & p & Hp & Hc). exists pid. pose proof Hp as [Hpp _]%elem_of_permission_rows.
        split; [split; [by exists p|by exists p]|]. exists p. by rewrite Hc.
  - intros r' Hne. unfold role_permissions, run_tx, mbind, st_bind, gets. rewrite Hrole.
    destruct (role_of r' db) as [[rid' row']|] eqn:Hr'; [|done]. destruct (builtin_role row'); [|done]. cbn. f_equal.
    assert (Hrid : rid' <> rid).
    { apply role_of_some in Hr as [Hr Hc], Hr' as [Hr' Hc']. intros ->. congruence. }
    assert (Hrow : forall pid code, granted_row rid' db' pid code <-> granted_row rid' db pid code).
    { intros pid code. unfold granted_row. rewrite Hrp, Hpe, new_grant_rows. by rewrite decide_False. }
    assert (Hscope : forall pid s, (rid', pid, s) ∈ i_role_scopes db' <-> (rid', pid, s) ∈ i_role_scopes db).
    { intros pid s. rewrite Hrs, new_scope_rows. by rewrite decide_False. }
    apply grants_ext; intros code; [|intros s].
    + rewrite !(proj1 (lookup_role_grants _ _ _)). by setoid_rewrite Hrow.
    + rewrite !(proj2 (lookup_role_grants _ _ _)). setoid_rewrite Hrow. by setoid_rewrite Hscope.
Qed.

(** ** A role without permissions *)

(** A role from which every permission is taken grants its built-in package instead: the
    principal of a user who holds no other role has no stored permission, and [permissions_for]
    falls back to the package of the role. *)
Lemma emptied_role_regains_package r by_ t db a db' u t' p db2 :
  roles_wf db -> replace_role_permissions r ∅ ∅ by_ t db = Ok (a, db') ->
  principal_for_user_id u t' db' = Ok (p, db2) -> roles p = {[r]} ->
  permissions p = ∅ /\ permissions_for p = ROLE_PERMISSIONS r.
Proof.
  intros Hwf (rid & row & Hr & _ & _ & _ & Hrp & _ & Hro & _ & _)%replace_permissions_rows
    (_ & _ & Hroles & Hperms & _ & _)%principal_inv Hone.
  assert (Hnone : permissions p = ∅).
  { rewrite Hperms. apply set_eq. intros code. rewrite elem_of_granted_codes. split; [|set_solver].
    intros (rid' & pid & (x & r' & Hk & Ha & Hr' & Hfix) & Hg & _). exfalso.
    assert (Hc : rm_code r' ∈ roles p).
    { rewrite Hroles. apply elem_of_roles_for. exists rid', x, r'. done. }
    rewrite Hone in Hc. apply elem_of_singleton in Hc. rewrite Hro in Hr'. apply role_of_some in Hr as [Hr Hcode].
    assert (rid' = rid) as -> by (eapply (rw_codes _ Hwf); [done|done|congruence]).
    rewrite Hrp in Hg. apply new_grant_self in Hg as (q & Hq). apply elem_of_permission_rows in Hq as (_ & Hq & _). set_solver. }
  split; [done|]. unfold permissions_for. rewrite decide_True by done. rewrite Hone.
  apply set_eq. intros x. rewrite elem_of_set_bind. setoid_rewrite elem_of_singleton. naive_solver.
Qed.
End identity_grants.

(** ** Scopes are only kept for granted permissions *)

Section scopes.
Context `{Uuids}.
Variable sha256_hex : string -> string.
Variable verify : string -> string -> bool.
Variable netloc : string -> option string.
Variable cfg : AuthSettings.

Definition keeps_scopes (db db' : IDB) : Prop := scopes_granted db -> scopes_granted db'.
#[local] Instance keeps_scopes_preorder : PreOrder keeps_scopes.
Proof. split; [by intros db Hs|]. unfold keeps_scopes. intros x y z Hxy Hyz Hx. auto. Qed.

Lemma keeps_scopes_same db db' :
  i_role_permissions db' = i_role_permissions db -> i_role_scopes db' = i_role_scopes db -> keeps_scopes db db'.
Proof. unfold keeps_scopes, scopes_granted. by intros -> ->. Qed.

Lemma keeps_scopes_role rid by_ codes scopes db :
  keeps_scopes db (with_role_grants rid by_ (permission_rows codes db) scopes db).
Proof.
  intros Hs rid' pid s Hin. apply new_scope_rows in Hin. apply new_grant_rows.
  destruct (decide (rid' = rid)); [|by eapply Hs]. destruct Hin as (p & Hp & _). by exists p.
Qed.

Lemma scopes_role_permissions r codes scopes by_ t db :
  keeps_scopes db (run_tx (replace_role_permissions r codes scopes by_ t) db).2.
Proof.
  destruct (run_tx_cases (replace_role_permissions r codes scopes by_ t) db) as [[a Hr]| ->]; [|reflexivity].
  apply replace_permissions_rows in Hr as (rid & row & _ & _ & _ & _ & Hrp & Hrs & _).
  transitivity (with_role_grants rid by_ (permission_rows codes db) scopes db); [apply keeps_scopes_role|].
  by apply keeps_scopes_same.
Qed.

Ltac scopes_leaf := by apply keeps_scopes_same.

Lemma scopes_step db db' : identity_step sha256_hex verify netloc cfg db db' -> keeps_scopes db db'.
Proof.
  destruct 1 as [A m Htx|us cs n p c prev w tok t|tok b t|A m].
  - destruct Htx; first [apply scopes_role_permissions | moves_run; imoves; scopes_leaf].
  - apply (login_moves sha256_hex verify cfg keeps_scopes). intros uid a _. moves_run. imoves; scopes_leaf.
  - unfold authenticate. apply (commit_then_raise_moves keeps_scopes). imoves; scopes_leaf.
  - moves_run. imoves; scopes_leaf.
Qed.

Lemma scopes_run db db' : identity_run sha256_hex verify netloc cfg db db' -> keeps_scopes db db'.
Proof. induction 1 as [|x y z Hxy Hyz IH]; [reflexivity|]. transitivity y; [by apply scopes_step|done]. Qed.

(** A permission some live role of the user grants, and a scope it grants it with. *)
Definition role_grants_it (db : IDB) (t : Z) (u : string) (q : Permission) : Prop :=
  exists rid pid, live_role_of db t u rid /\ is_Some (i_role_permissions db !! (rid, pid)) /\ active_permission db pid (value q).
Definition role_scopes_it (db : IDB) (t : Z) (u : string) (q : Permission) (s : string) : Prop :=
  exists rid pid, live_role_of db t u rid /\ is_Some (i_role_permissions db !! (rid, pid)) /\
    (rid, pid, s) ∈ i_role_scopes db /\ active_permission db pid (value q).

Lemma elem_of_permissions_for p q : permissions p <> ∅ -> q ∈ permissions_for p <-> value q ∈ permissions p.
Proof.
  intros Hne. unfold permissions_for. rewrite decide_False by done.
  rewrite elem_of_list_to_set, list_elem_of_omap. setoid_rewrite elem_of_elements. split.
  - intros (code & Hin & Hq). by apply permission_of_some in Hq as ->.
  - intros Hin. exists (value q). split; [done|apply permission_of_value].
Qed.

(** C14: while a user holds a stored permission, it is allowed exactly the permissions that one of its
    unexpired, enabled roles grants, and the scopes it may use one with are exactly those with
    which such a role grants it, or the built-in scope when there is none. *)
Theorem principal_is_what_roles_grant start db u t p db' q :
  scopes_granted start -> identity_run sha256_hex verify netloc cfg start db ->
  principal_for_user_id u t db = Ok (p, db') -> permissions p <> ∅ ->
  (allowed p (value q) None = true <-> role_grants_it db t u q) /\
  (forall s, s ∈ effective_scopes p q <->
     role_scopes_it db t u q s \/ ((forall s', ~ role_scopes_it db t u q s') /\ s ∈ compat_scopes q)).
Proof.
  intros Hstart Hrun (_ & _ & _ & Hperms & Hscopes & _)%principal_inv Hne.
  assert (Hs : scopes_granted db) by (by apply (scopes_run start)). split.
  - unfold allowed. rewrite permission_of_value, andb_true_r, bool_decide_eq_true, elem_of_permissions_for by done.
    rewrite Hperms. apply elem_of_granted_codes.
  - assert (Hstored : forall s, s ∈ default ∅ (permission_scopes p !! value q) <-> role_scopes_it db t u q s).
    { intros s. rewrite Hscopes, elem_of_granted_scopes. split.
      - intros (rid & pid & Hl & Hr & Ha). exists rid, pid. split_and!; try done. by eapply Hs.
      - intros (rid & pid & Hl & _ & Hr & Ha). by exists rid, pid. }
    intros s. unfold effective_scopes. cbv zeta. destruct (decide _) as [He|Hsome].
    + split; [intros Hc; right|intros [Hr|[_ Hc]]; [|done]].
      * split; [|done]. intros s' Hr%Hstored. rewrite He in Hr. by apply elem_of_empty in Hr.
      * apply Hstored in Hr. rewrite He in Hr. by apply elem_of_empty in Hr.
    + rewrite Hstored. split; [by left|]. intros [Hr|[Hno _]]; [done|]. destruct Hsome. apply set_eq. intros s'.
      split; [intros Hr%Hstored; by apply Hno in Hr|by intros ?%elem_of_empty].
Qed.
End scopes.

(** ** Witnesses *)

Module GrantsWorld.
Import IdentityWorld.

(** The developers give the teachers one permission, then none. *)
Definition one_scope : gmap string (gset string) := {[value CLASSROOM_MEMBER_MANAGE := {["classroom"]}]}.
Definition narrow : Itx (gset string) :=
  replace_role_permissions "teacher" {[value CLASSROOM_MEMBER_MANAGE]} one_scope root NOON.
Definition narrowed : IDB := after narrow staffed.
Definition strip_role : Itx (gset string) := replace_role_permissions "teacher" ∅ ∅ root NOON.
Definition stripped : IDB := after strip_role staffed.

Lemma seed_scopes : scopes_granted seed.
Proof.
  assert (Hb : forallb (fun k : string * string * string => bool_decide (is_Some (i_role_permissions seed !! k.1)))
                 (elements (i_role_scopes seed)) = true) by (vm_compute; reflexivity).
  intros rid pid s Hin%elem_of_elements%list_elem_of_In. apply (proj1 (forallb_forall _ _) Hb), bool_decide_eq_true in Hin.
  done.
Qed.

Lemma staffed_reached : identity_run sha checks host_of day_sessions seed staffed.
Proof. repeat (eapply rtc_r; [|apply st_tx; constructor]). apply rtc_refl. Qed.
Lemma staffed_wf : roles_wf staffed.
Proof. exact (proj1 (roles_run sha checks host_of day_sessions seed staffed staffed_reached RolesWorld.seed_wf)). Qed.

Definition answer {A} (d : A) (m : Itx A) (db : IDB) : A := match (run_tx m db).1 with Ok a => a | Err _ => d end.
Lemma answer_ok {A} (d : A) (m : Itx A) db : is_ok (run_tx m db).1 = true -> m db = Ok (answer d m db, after m db).
Proof. intros Hok. apply after_ok. unfold answer. by destruct ((run_tx m db).1). Qed.

Lemma role_grants_read_back_witness :
  role_permissions "teacher" narrowed = Ok (asked {[value CLASSROOM_MEMBER_MANAGE]} one_scope, narrowed).
Proof.
  exact (proj1 (role_grants_read_back "teacher" {[value CLASSROOM_MEMBER_MANAGE]} one_scope root NOON staffed
    (answer ∅ narrow staffed) narrowed (answer_ok ∅ narrow staffed ltac:(vm_compute; reflexivity)))).
Defined.

Definition ada_after : Principal := answer system_admin (principal_for_user_id ada NOON) stripped.
Lemma ada_after_ok : principal_for_user_id ada NOON stripped = Ok (ada_after, after (principal_for_user_id ada NOON) stripped).
Proof. apply answer_ok. vm_compute. reflexivity. Qed.


Definition ada_now : Principal := answer system_admin (principal_for_user_id ada NOON) staffed.
Lemma ada_now_ok : principal_for_user_id ada NOON staffed = Ok (ada_now, after (principal_for_user_id ada NOON) staffed).
Proof. apply answer_ok. vm_compute. reflexivity. Qed.

Lemma principal_is_what_roles_grant_witness :
  allowed ada_now (value CLASSROOM_MEMBER_MANAGE) None = true /\ role_grants_it staffed NOON ada CLASSROOM_MEMBER_MANAGE.
Proof.
  split; [vm_compute; reflexivity|].
  apply (principal_is_what_roles_grant sha checks host_of day_sessions seed staffed ada NOON ada_now
    (after (principal_for_user_id ada NOON) staffed) CLASSROOM_MEMBER_MANAGE seed_scopes staffed_reached ada_now_ok).
  - assert (Hb : bool_decide (permissions ada_now = ∅) = false) by (vm_compute; reflexivity).
    by apply bool_decide_eq_false in Hb.
  - vm_compute. reflexivity.
Defined.
End GrantsWorld.
