(* ===== verification/IdentitySpaces.v ===== *)
(** * IdentitySpaces: workspaces keep an owner, requests are decided once

    The members of a workspace and the requests to join a classroom, over every call of the
    identity services: a workspace that has an active owner keeps one, and a request that was
    decided stays as it is and cannot be decided again. *)
From S2P Require Import Prelude PyText Clock Json SandboxStore Sandbox Authorization.
From S2P Require Import IdentityStore IdentityCodes IdentityAdmin IdentityAccounts IdentityAuth IdentityFrame IdentitySafety IdentityRoles.
Local Open Scope Z_scope.

Section identity_spaces.
Context `{Uuids}.
Variable sha256_hex : string -> string.
Variable verify : string -> string -> bool.
Variable netloc : string -> option string.
Variable cfg : AuthSettings.

Abbreviation step := (identity_step sha256_hex verify netloc cfg).
Abbreviation run := (identity_run sha256_hex verify netloc cfg).

(** A relation that every transaction, every session and the sandbox respect holds along a run. *)
Lemma steps_keep (R : IDB -> IDB -> Prop) `{!PreOrder R} :
  (forall A m, identity_tx sha256_hex netloc cfg A m -> st_moves R m) ->
  (forall uid a prev w tok t, st_moves R (open_session sha256_hex cfg uid a prev w tok t)) ->
  (forall tok b t, st_moves R (authenticate_tx sha256_hex cfg tok b t)) ->
  (forall db x, R db (with_sandbox db x)) -> forall db db', step db db' -> R db db'.
Proof.
  intros Htx Hlog Hauth Hbox db db' [A m Hm|us cs n p c prev w tok t|tok b t|A m].
  - moves_run. by apply Htx.
  - apply (login_moves sha256_hex verify cfg R). intros uid a _. moves_run. apply Hlog.
  - unfold authenticate. apply (commit_then_raise_moves R), Hauth.
  - moves_run. apply st_moves_on_sandbox, Hbox.
Qed.

(** ** Owners *)

Definition owned (wid : string) (db : IDB) : Prop :=
  exists u m, i_members db !! (wid, u) = Some m /\ active_owner m = true.
Definition keeps_owner (wid : string) (db db' : IDB) : Prop := owned wid db -> owned wid db'.
#[local] Instance keeps_owner_preorder wid : PreOrder (keeps_owner wid).
Proof. split; [by intros db Ho|]. unfold keeps_owner. intros x y z Hxy Hyz Hx. auto. Qed.

Lemma keeps_owner_same wid db db' : i_members db' = i_members db -> keeps_owner wid db db'.
Proof. unfold keeps_owner, owned. by intros ->. Qed.

Lemma keeps_owner_insert wid db k m : i_members db !! k = None -> keeps_owner wid db (set_members db (<[k := m]> (i_members db))).
Proof.
  intros Hk (u & x & Hx & Ha). exists u, x. split; [|done]. cbn. rewrite lookup_insert_ne; [done|]. congruence.
Qed.

(** A member that was not active is let in again. *)
Lemma add_member_keeps wid w u ty t : st_moves (keeps_owner wid) (add_member w u ty t).
Proof.
  intros db a db' Hr Ho. revert Hr. unfold add_member. intros (? & db1 & [= <- <-] & Hr)%st_bind_ok.
  case_match; [done|]. apply st_bind_ok in Hr as (? & db1 & [= <- <-] & Hr). case_match; [done|].
  apply st_bind_ok in Hr as (found & db1 & [= <- <-] & Hr). destruct (i_members db !! (w, u)) as [m|] eqn:Hm.
  - destruct (String.eqb (mb_status m) "active") eqn:Hidle; [done|].
    apply st_bind_ok in Hr as ([] & db1 & [= <-] & Hr).
    assert (Hmoves : st_moves (keeps_owner wid) (workspace_membership_changed u)) by (imoves; by apply keeps_owner_same).
    apply (Hmoves _ _ _ Hr). destruct Ho as (v & x & Hx & Ha). exists v, x. split; [|done]. cbn.
    rewrite lookup_alter_ne; [done|]. intros [= <- <-]. rewrite Hm in Hx. injection Hx as <-.
    apply andb_true_iff in Ha as [_ Ha]. congruence.
  - revert Ho. eapply (st_moves_bind (keeps_owner wid)); [| |exact Hr].
    + imoves; by apply keeps_owner_insert.
    + intros []. imoves; by apply keeps_owner_same.
Qed.

Lemma owner_count_two wid u db :
  (1 < owner_count wid db)%nat -> exists v m, v <> u /\ i_members db !! (wid, v) = Some m /\ active_owner m = true.
Proof.
  intros (k & m & Hne & Hm & Hok)%(another_row _ _ (wid, u)). destruct k as [w v]. cbn in Hok.
  apply andb_true_iff in Hok as [->%String.eqb_eq Ho]. exists v, m. split; [congruence|done].
Qed.

(** An owner only leaves a workspace that has another. *)
Lemma remove_member_keeps wid w u : st_moves (keeps_owner wid) (remove_member w u).
Proof.
  intros db a db' Hr Ho. revert Hr. unfold remove_member. intros (? & db1 & [= <- <-] & Hr)%st_bind_ok.
  destruct (i_members db !! (w, u)) as [m|] eqn:Hm; [|by injection Hr as <- <-].
  apply st_bind_ok in Hr as (owners & db1 & [= <- <-] & Hr). destruct (_ && _) eqn:Hlast; [done|].
  apply st_bind_ok in Hr as ([] & db1 & [= <-] & Hr).
  match type of Hr with ?rest _ = _ =>
    assert (Hmoves : st_moves (keeps_owner wid) rest) by (imoves; by apply keeps_owner_same) end.
  apply (Hmoves _ _ _ Hr). destruct Ho as (v & x & Hx & Ha).
  assert (Hstays : forall v' x', (wid, v') <> (w, u) -> i_members db !! (wid, v') = Some x' -> active_owner x' = true ->
    owned wid (set_members db (alter (fun m => {| mb_member_type := mb_member_type m; mb_status := "removed";
                                                  mb_created_at := mb_created_at m |}) (w, u) (i_members db)))).
  { intros v' x' Hne Hx' Ha'. exists v', x'. split; [|done]. cbn. by rewrite lookup_alter_ne. }
  destruct (decide ((wid, v) = (w, u))) as [[= -> ->]|Hne]; [|by apply (Hstays v x)].
  rewrite Hm in Hx. injection Hx as <-. apply andb_true_iff in Ha as [Hown _]. rewrite Hown in Hlast. cbn in Hlast.
  apply Nat.leb_gt in Hlast. destruct (owner_count_two w u db Hlast) as (v' & m' & Hne & Hm' & Ha').
  apply (Hstays v' m'); congruence.
Qed.

Ltac owner_leaf := first [by apply keeps_owner_same | by apply keeps_owner_insert].

Lemma owner_tx wid A m : identity_tx sha256_hex netloc cfg A m -> st_moves (keeps_owner wid) m.
Proof.
  destruct 1; first [apply add_member_keeps | apply remove_member_keeps | imoves; owner_leaf].
Qed.

(** A workspace that has an active owner has one after every call of the services: owners may
    hand over and leave, but the last one stays. *)
Lemma workspace_owner_remains wid db db' : run db db' -> owned wid db -> owned wid db'.
Proof.
  induction 1 as [|x y z Hxy Hyz IH]; [done|]. intros Ho. apply IH. revert Ho.
  revert Hxy. apply (steps_keep (keeps_owner wid)).
  - apply owner_tx.
  - intros. imoves; owner_leaf.
  - intros. imoves; owner_leaf.
  - intros. by apply keeps_owner_same.
Qed.

(** ** Requests to join *)

(** The two answers to a request. *)
Definition post_decision (approve : bool) (p : Principal) (cid rid : string) (number_override : option string) (now_ : Z)
  : Itx () :=
  if approve then post_approval p cid rid number_override now_ else post_rejection p cid rid now_.
Definition decision_status (approve : bool) : string := if approve then "approved" else "rejected".

Record request_later (r r' : JoinRequestRow) : Prop := {
  rl_class : jr_class_id r' = jr_class_id r;
  rl_user : jr_user_id r' = jr_user_id r;
  rl_decided : jr_status r <> "pending" -> r' = r;
}.
#[local] Instance request_later_preorder : PreOrder request_later.
Proof.
  split; [done|]. intros x y z [C1 U1 D1] [C2 U2 D2]. split; try congruence. intros Hx. rewrite <- (D1 Hx). apply D2.
  by rewrite (D1 Hx).
Qed.
Definition requests_later (db db' : IDB) : Prop := map_later request_later (i_join_requests db) (i_join_requests db').
#[local] Instance requests_later_preorder : PreOrder requests_later.
Proof. split; unfold requests_later; [intros x; reflexivity|intros x y z Hxy Hyz; by transitivity (i_join_requests y)]. Qed.

Lemma requests_same db db' : i_join_requests db' = i_join_requests db -> requests_later db db'.
Proof. intros He. unfold requests_later. rewrite He. reflexivity. Qed.
Lemma requests_new db rid r : i_join_requests db !! rid = None -> requests_later db (set_join_requests db (<[rid := r]> (i_join_requests db))).
Proof. intros Hr. by apply later_insert; [apply _|]. Qed.

Lemma open_request_some rid cid db r :
  open_request rid cid db = Some r <-> i_join_requests db !! rid = Some r /\ jr_class_id r = cid /\ jr_status r = "pending".
Proof.
  unfold open_request. destruct (i_join_requests db !! rid) as [x|]; cbn; [|by split; [|intros [? _]]].
  destruct (_ && _) eqn:Hok.
  - apply andb_true_iff in Hok as [Hc%String.eqb_eq Hs%String.eqb_eq]. split; [by intros [= <-]|by intros ([= ->] & _)].
  - apply andb_false_iff in Hok as [Hc%String.eqb_neq|Hs%String.eqb_neq]; split; [done|by intros ([= ->] & ? & _)|done|by intros ([= ->] & _ & ?)].
Qed.

Lemma requests_decide db rid cid r st by_ n t :
  open_request rid cid db = Some r -> requests_later db (set_join_requests db (<[rid := decided st by_ n t r]> (i_join_requests db))).
Proof.
  intros (Hr & _ & Hs)%open_request_some k x Hx. cbn. destruct (decide (k = rid)) as [->|Hne].
  - rewrite lookup_insert_eq. rewrite Hr in Hx. injection Hx as <-. eexists. split; [done|]. by split.
  - rewrite lookup_insert_ne by congruence. exists x. split; [done|reflexivity].
Qed.

(** What the manager's check and the audit leave alone. *)
Lemma manager_pure p cid db a db' : require_classroom_manager p cid db = Ok (a, db') -> db' = db.
Proof.
  intros Hr. assert (Hm : st_moves (fun x y => y = x) (require_classroom_manager p cid)); [|by eapply Hm].
  imoves.
Qed.

Lemma member_written cid uid role st by_ t db a db' :
  replace_classroom_member cid uid role st by_ t db = Ok (a, db') ->
  i_class_members db' !! (cid, uid) = Some {| cm_member_role := role; cm_status := st |}.
Proof.
  unfold replace_classroom_member. case_match; [done|]. intros (live & db1 & [= <- <-] & Hr)%st_bind_ok. case_match; [done|].
  apply st_bind_ok in Hr as (found & db1 & [= <- <-] & Hr). case_match; [|done].
  apply st_bind_ok in Hr as (member & db1 & [= <- <-] & Hr). apply st_bind_ok in Hr as ([] & db1 & Hw & Hr).
  match type of Hr with ?rest _ = _ =>
    assert (Hm : st_moves (same i_class_members) rest) by (imoves; reflexivity) end.
  rewrite (Hm _ _ _ Hr). destruct (i_class_members db !! (cid, uid)); [injection Hw as <-; apply lookup_insert_eq|].
  revert Hw. unfold insert_class_member, istmt. repeat (case_match; try done). intros [= <-]. apply lookup_insert_eq.
Qed.

Lemma audit_leaves actor target d rc pc rt ri detail t db a db' :
  audit actor target d rc pc rt ri detail t db = Ok (a, db') ->
  i_join_requests db' = i_join_requests db /\ i_class_members db' = i_class_members db.
Proof.
  intros Hr. split; [change (same i_join_requests db db')|change (same i_class_members db db')]; revert Hr;
    match goal with |- _ -> same ?f _ _ =>
      assert (Hm : st_moves (same f) (audit actor target d rc pc rt ri detail t)) by (imoves; reflexivity) end;
    apply Hm.
Qed.

Lemma member_leaves_requests cid uid role st by_ t db a db' :
  replace_classroom_member cid uid role st by_ t db = Ok (a, db') -> i_join_requests db' = i_join_requests db.
Proof.
  assert (Hm : st_moves (same i_join_requests) (replace_classroom_member cid uid role st by_ t)) by (imoves; reflexivity).
  apply Hm.
Qed.

Lemma put_request_inv rid r db a db' :
  put_request rid r db = Ok (a, db') -> db' = set_join_requests db (<[rid := r]> (i_join_requests db)).
Proof. unfold put_request, istmt. case_match; [done|]. by intros [= _ <-]. Qed.

(** What a decision does: the request it closes and, if approved, the student it makes. *)
Lemma decision_inv b p cid rid n t db a db' :
  post_decision b p cid rid n t db = Ok (a, db') ->
  exists r number, open_request rid cid db = Some r /\
    i_join_requests db' = <[rid := decided (decision_status b) (user_id p) number t r]> (i_join_requests db) /\
    (b = true -> i_class_members db' !! (cid, jr_user_id r) = Some {| cm_member_role := "student"; cm_status := "active" |}).
Proof.
  destruct b; cbn [post_decision]; [unfold post_approval|unfold post_rejection];
    intros ([] & db1 & ->%manager_pure & Hr)%st_bind_ok; apply st_bind_ok in Hr as (found & db1 & Hd & Hr);
    apply st_bind_ok in Hd as (? & db2 & [= <- <-] & Hd);
    (destruct (open_request rid cid db) as [r|] eqn:Ho; [|by injection Hd as <- <-]);
    apply st_bind_ok in Hd as ([] & db2 & ->%put_request_inv & Hd); injection Hd as <- <-; exists r; eexists; (split; [done|]).
  - apply st_bind_ok in Hr as ([] & db3 & Hmember & [Hq Hc]%audit_leaves). rewrite Hq, Hc.
    split; [by rewrite (member_leaves_requests _ _ _ _ _ _ _ _ _ Hmember)|]. intros _. by apply member_written in Hmember.
  - apply audit_leaves in Hr as [-> _]. by split.
Qed.

Lemma requests_decision b p cid rid n t : st_moves requests_later (post_decision b p cid rid n t).
Proof.
  intros db a db' (r & number & Ho & Hq & _)%decision_inv. unfold requests_later. rewrite Hq.
  by apply (requests_decide db rid cid).
Qed.

Ltac requests_leaf := first [by apply requests_same | by apply requests_new].

Lemma requests_tx A m : identity_tx sha256_hex netloc cfg A m -> st_moves requests_later m.
Proof.
  destruct 1 as [| | | | | | | | | | | | | | | | |p c r n t|p c r t| | | | | | | | |];
    first [apply (requests_decision true)|apply (requests_decision false p c r None)|imoves; requests_leaf].
Qed.

Lemma requests_run db db' : run db db' -> requests_later db db'.
Proof.
  induction 1 as [|x y z Hxy Hyz IH]; [reflexivity|]. transitivity y; [|done]. revert Hxy. apply (steps_keep requests_later).
  - apply requests_tx.
  - intros. imoves; requests_leaf.
  - intros. imoves; requests_leaf.
  - intros. by apply requests_same.
Qed.

(** An answer to a request to join a classroom is final: approving it makes the applicant an
    active student in the same transaction, the row then never changes under any calls of the
    services, and no approval or rejection of it succeeds again. *)
Lemma join_request_decided_once b p cid rid n t db a db' db2 :
  post_decision b p cid rid n t db = Ok (a, db') -> run db' db2 ->
  exists r number, open_request rid cid db = Some r /\
    i_join_requests db2 !! rid = Some (decided (decision_status b) (user_id p) number t r) /\
    (b = true -> i_class_members db' !! (cid, jr_user_id r) = Some {| cm_member_role := "student"; cm_status := "active" |}) /\
    forall b2 p2 c2 n2 t2 x db3, post_decision b2 p2 c2 rid n2 t2 db2 <> Ok (x, db3).
Proof.
  intros (r & number & Ho & Hq & Hm)%decision_inv Hrun%requests_run. exists r, number. split; [done|].
  assert (Hrow : i_join_requests db2 !! rid = Some (decided (decision_status b) (user_id p) number t r)).
  { destruct (Hrun rid (decided (decision_status b) (user_id p) number t r)) as (y & Hy & Hl).
    - by rewrite Hq, lookup_insert_eq.
    - rewrite Hy. f_equal. apply (rl_decided _ _ Hl). by destruct b. }
  split_and!; try done. intros b2 p2 c2 n2 t2 x db3 (r2 & _ & Ho2 & _)%decision_inv.
  apply open_request_some in Ho2 as (Hr2 & _ & Hs). rewrite Hrow in Hr2. injection Hr2 as <-. cbn in Hs. by destruct b.
Qed.

(** A user can have one request of each status in a class: once a request of theirs has been
    answered, a later one, which the submission accepts, cannot be answered the same way. *)
Lemma same_answer_twice_fails b p cid rid rid1 r1 r n t db :
  open_request rid cid db = Some r -> i_join_requests db !! rid1 = Some r1 -> jr_class_id r1 = cid ->
  jr_user_id r1 = jr_user_id r -> jr_status r1 = decision_status b -> require_classroom_manager p cid db = Ok ((), db) ->
  post_decision b p cid rid n t db = Err IntegrityError.
Proof.
  intros Ho Hr1 Hc Hu Hs Hp. pose proof Ho as (Hr & Hcid & Hpend)%open_request_some.
  assert (Htaken : forall number, request_key_taken rid (jr_class_id (decided (decision_status b) (user_id p) number t r))
    (jr_user_id r) (decision_status b) db = true).
  { intros number. apply existsb_exists. exists (rid1, r1). split; [by apply list_elem_of_In, elem_of_map_to_list|]. cbn.
    rewrite Hcid, Hc, Hu, Hs, !String.eqb_refl. destruct (String.eqb_spec rid1 rid) as [->|]; [|done].
    rewrite Hr in Hr1. injection Hr1 as ->. rewrite Hpend in Hs. by destruct b. }
  destruct b; cbn [post_decision]; [unfold post_approval|unfold post_rejection]; unfold mbind, st_bind; rewrite Hp;
    [unfold approve_join_request|unfold reject_join_request]; unfold mbind, st_bind, gets; rewrite Ho;
    unfold put_request, istmt; cbn [jr_class_id jr_user_id jr_status decided decision_status] in *; by rewrite Htaken.
Qed.
End identity_spaces.

(** ** Witnesses *)

Module SpacesWorld.
Import IdentityWorld.

(** Root has a classroom in the workspace of its account; Ada applies, is approved, leaves and
    applies again. *)
Definition root_space : string := "id1".
Definition open_class : Itx string := create_classroom root_space "NLP" root NOON.
Definition with_class : IDB := after open_class staffed.
Definition class : string := match (run_tx open_class staffed).1 with Ok c => c | Err _ => "" end.
Definition principal_of (u : string) (db : IDB) : Principal :=
  match (run_tx (principal_for_user_id u NOON) db).1 with Ok p => p | Err _ => system_admin end.
Definition apply_ (db : IDB) : Itx string := post_join_request (principal_of ada db) class (Some "42") NOON.
Definition applied : IDB := after (apply_ with_class) with_class.
Definition first_request : string := match (run_tx (apply_ with_class) with_class).1 with Ok r => r | Err _ => "" end.
Definition manager : Principal := principal_of root with_class.
Abbreviation accept := (post_decision true manager class first_request None (NOON + 1)).
Definition accepted : IDB := after accept applied.
Definition left_class : IDB := after (replace_classroom_member class ada "student" "disabled" root (NOON + 2)) accepted.
Definition applied_again : IDB := after (apply_ left_class) left_class.
Definition second_request : string := match (run_tx (apply_ left_class) left_class).1 with Ok r => r | Err _ => "" end.

Lemma accept_ok : (run_tx accept applied).1 = Ok ().
Proof. vm_compute. reflexivity. Qed.
Lemma accept_run : accept applied = Ok ((), accepted).
Proof. exact (after_ok accept applied () accept_ok). Qed.
Lemma applies_again : identity_run sha checks host_of day_sessions accepted applied_again.
Proof.
  eapply rtc_l; [apply st_tx, (tx_class_member _ _ _ class ada "student" "disabled" root (NOON + 2))|].
  apply rtc_once, st_tx, (tx_post_join _ _ _ (principal_of ada left_class) class (Some "42") NOON).
Qed.


Definition first_row : JoinRequestRow :=
  {| jr_class_id := class; jr_user_id := ada; jr_student_number := Some "42"; jr_status := "approved"; jr_requested_at := NOON;
     jr_reviewed_at := Some (NOON + 1); jr_reviewed_by := Some root |}.
Definition second_row : JoinRequestRow :=
  {| jr_class_id := class; jr_user_id := ada; jr_student_number := Some "42"; jr_status := "pending"; jr_requested_at := NOON;
     jr_reviewed_at := None; jr_reviewed_by := None |}.
Lemma both_rows :
  open_request second_request class applied_again = Some second_row /\
  i_join_requests applied_again !! first_request = Some first_row.
Proof. vm_compute. split; reflexivity. Qed.

Definition managed (db : IDB) : bool :=
  match require_classroom_manager manager class db with Ok _ => true | Err _ => false end.
Lemma manager_ok : require_classroom_manager manager class applied_again = Ok ((), applied_again).
Proof.
  assert (Hok : managed applied_again = true) by (vm_compute; reflexivity). unfold managed in Hok.
  destruct (require_classroom_manager manager class applied_again) as [[[] db]|] eqn:Hr; [|done].
  by rewrite (manager_pure _ _ _ _ _ Hr).
Qed.


(** Ada becomes an owner of Root's workspace, and Root leaves it. *)
Definition shared : IDB := after (add_member root_space ada "owner" NOON) staffed.
Definition handed_over : IDB := after (remove_member root_space root) shared.

End SpacesWorld.
