(* ===== verification/IdentityLimits.v ===== *)
(** * IdentityLimits: how often an e-mail address is sent a code

    [email_send_allowed] counts the rows of the audit table, and [purge_expired] deletes from the
    same table.  A trace records every send since the start with its instant, purged or not,
    along any calls of the identity services whose sends happen at non-decreasing instants. *)
From S2P Require Import Prelude PyText Clock Json SandboxStore Sandbox Authorization.
From S2P Require Import IdentityStore IdentityCodes IdentityAdmin IdentityAccounts IdentityAuth IdentityFrame IdentitySafety IdentitySpaces.
Local Open Scope Z_scope.

(** ** Lists of instants *)

(** Each instant is at least [gap] after the one before it. *)
Definition spaced (gap : Z) (l : list Z) : Prop := forall i x y, l !! i = Some x -> l !! S i = Some y -> x + gap <= y.
Definition within (t : Z) (l : list Z) : nat := length (List.filter (fun x => (t - HOUR <? x) && (x <=? t)) l).

Lemma spaced_last gap l x : 0 <= gap -> spaced gap l -> last l = Some x -> Forall (fun y => y <= x) l.
Proof.
  intros Hgap. revert x. induction l as [|y l IH]; intros x Hs Hl; [constructor|]. destruct l as [|z l].
  - injection Hl as ->. repeat constructor. lia.
  - assert (Hz : Forall (fun v => v <= x) (z :: l)).
    { apply IH; [|done]. intros i a b Ha Hb. by apply (Hs (S i)). }
    constructor; [|done]. specialize (Hs 0%nat y z eq_refl eq_refl). apply Forall_cons in Hz as [Hz _]. lia.
Qed.

Lemma spaced_snoc gap l t : spaced gap l -> (forall x, last l = Some x -> x + gap <= t) -> spaced gap (l ++ [t]).
Proof.
  intros Hs Hl i x y Hx Hy. destruct (decide (S i < length l)%nat) as [Hin|Hout].
  - rewrite lookup_app_l in Hx by lia. rewrite lookup_app_l in Hy by lia. by eapply Hs.
  - assert (Hi : S i = length l).
    { apply lookup_lt_Some in Hy. rewrite length_app in Hy. cbn in Hy. lia. }
    rewrite lookup_app_l in Hx by lia. rewrite Hi, lookup_app_r, Nat.sub_diag in Hy by lia. injection Hy as <-.
    apply Hl. rewrite last_lookup, <- Hi. done.
Qed.

(** Dropping the instants before a cutoff drops a prefix. *)
Lemma spaced_cut gap l cutoff :
  0 <= gap -> spaced gap l ->
  exists old, l = old ++ List.filter (fun x => cutoff <=? x) l /\ Forall (fun x => x < cutoff) old.
Proof.
  intros Hgap. induction l as [|x l IH]; intros Hs; [by exists []|].
  destruct IH as (old & He & Hold). { intros i a b Ha Hb. by apply (Hs (S i)). }
  cbn. destruct (Z.leb_spec cutoff x) as [Hle|Hlt].
  - exists []. split; [|constructor]. cbn. f_equal. destruct old as [|y old]; [done|]. exfalso.
    apply Forall_cons in Hold as [Hy _]. rewrite He in Hs. specialize (Hs 0%nat x y eq_refl eq_refl). lia.
  - exists (x :: old). split; [cbn; by f_equal|by constructor].
Qed.

Lemma within_app t l l' : within t (l ++ l') = (within t l + within t l')%nat.
Proof. unfold within. by rewrite List.filter_app, length_app. Qed.

Lemma within_old t l : Forall (fun x => x <= t - HOUR) l -> within t l = 0%nat.
Proof.
  unfold within. induction 1 as [|x l Hx _ IH]; [done|]. cbn. destruct (Z.ltb_spec (t - HOUR) x); [lia|done].
Qed.

(** What is in an hour that ends later is among what is after the start of the earlier hour. *)
Lemma within_le t w l : t <= w -> (within w l <= length (List.filter (fun x => (t - HOUR <? x)%Z) l))%nat.
Proof.
  intros Htw. unfold within. induction l as [|x l IH]; [done|]. cbn.
  destruct (Z.ltb_spec (w - HOUR) x), (Z.ltb_spec (t - HOUR) x); cbn; try lia; case_match; cbn; lia.
Qed.

(** ** The sends *)

Definition sends_of (e : string) (l : list EmailSendRow) : list Z :=
  em_created_at <$> List.filter (fun r => String.eqb (em_email r) e) l.

Lemma sends_of_app e l l' : sends_of e (l ++ l') = sends_of e l ++ sends_of e l'.
Proof. unfold sends_of. by rewrite List.filter_app, fmap_app. Qed.

Lemma sends_of_purged e cutoff l :
  sends_of e (List.filter (fun r => cutoff <=? em_created_at r) l) = List.filter (fun x => cutoff <=? x) (sends_of e l).
Proof.
  unfold sends_of. induction l as [|r l IH]; [done|]. cbn.
  destruct (Z.leb_spec cutoff (em_created_at r)) as [Hc|Hc]; cbn; destruct (String.eqb _ _); cbn; rewrite ?IH; try done.
  - by rewrite (proj2 (Z.leb_le _ _) Hc).
  - by rewrite (proj2 (Z.leb_gt _ _) Hc).
Qed.

Lemma sends_since_of e floor_ l :
  sends_since (fun r => String.eqb (em_email r) e) floor_ l = length (List.filter (fun x => floor_ <? x) (sends_of e l)).
Proof.
  unfold sends_since, sends_of. induction l as [|r l IH]; [done|]. cbn. destruct (String.eqb _ _); cbn; [|done].
  destruct (floor_ <? em_created_at r); cbn; by rewrite IH.
Qed.

Section limits.
Context `{Uuids}.
Variable sha256_hex : string -> string.
Variable verify : string -> string -> bool.
Variable netloc : string -> option string.
Variable cfg : AuthSettings.

(** Every call but the sending of a code leaves the audit table alone. *)
Lemma audits_step db db' :
  identity_step sha256_hex verify netloc cfg db db' ->
  i_email_audits db' = i_email_audits db \/
  exists c cc e ip pr code t, db' = (run_tx (send_email_code sha256_hex c cc e ip pr code t) db).2.
Proof.
  destruct 1 as [A m Htx|us cs n p c prev w tok t|tok b t|A m].
  - destruct Htx; lazymatch goal with
      | |- i_email_audits (run_tx (send_email_code _ _ _ _ _ _ _ _) _).2 = _ \/ _ => right; do 7 eexists; reflexivity
      | |- i_email_audits (run_tx ?m db).2 = _ \/ _ =>
          left; change (same i_email_audits db (run_tx m db).2); moves_run; imoves; reflexivity
      end.
  - left. apply (login_moves sha256_hex verify cfg (same i_email_audits)). intros uid a _. moves_run. imoves; reflexivity.
  - left. unfold authenticate. apply (commit_then_raise_moves (same i_email_audits)). imoves; reflexivity.
  - left. change (same i_email_audits db (run_tx (on_sandbox m) db).2). moves_run. imoves; reflexivity.
Qed.

(** A deployment with all the sends so far, oldest first, and the instant of the last request. *)
Record Mailing := { ml_db : IDB; ml_sent : list (string * Z); ml_clock : Z }.

Inductive mail_step (s : Mailing) : Mailing -> Prop :=
| mail_request c cc e ip pr code t :
    ml_clock s <= t ->
    let r := run_tx (send_email_code sha256_hex c cc e ip pr code t) (ml_db s) in
    mail_step s {| ml_db := r.2; ml_clock := t;
                   ml_sent := match r.1, normalize_email e with
                              | Ok _, Ok address => ml_sent s ++ [(address, t)]
                              | _, _ => ml_sent s
                              end |}
| mail_other db' :
    identity_step sha256_hex verify netloc cfg (ml_db s) db' -> i_email_audits db' = i_email_audits (ml_db s) ->
    mail_step s {| ml_db := db'; ml_sent := ml_sent s; ml_clock := ml_clock s |}.

Definition sent_to (e : string) (s : Mailing) : list Z := snd <$> List.filter (fun x => String.eqb x.1 e) (ml_sent s).

(** What the table still holds of the sends to an address. *)
Record mail_inv (e : string) (s : Mailing) : Prop := {
  mi_kept : exists old, sent_to e s = old ++ sends_of e (i_email_audits (ml_db s)) /\ Forall (fun x => x < ml_clock s - HOUR) old;
  mi_past : Forall (fun x => x <= ml_clock s) (sent_to e s);
  mi_spaced : spaced (seconds EMAIL_RESEND_COOLDOWN_S) (sent_to e s);
  mi_few : forall w, (within w (sent_to e s) <= EMAIL_MAX_PER_EMAIL_HOUR)%nat;
}.

(** A request that answers has purged, found the limits respected and recorded one send. *)
Lemma send_inv c cc e ip pr code t db st db' :
  send_email_code sha256_hex c cc e ip pr code t db = Ok (st, db') ->
  exists address db1 outcome, normalize_email e = Ok address /\
    i_email_audits db1 = List.filter (fun r => t - HOUR <=? em_created_at r) (i_email_audits db) /\
    match last_send address db1 with Some x => x <= t - seconds EMAIL_RESEND_COOLDOWN_S | None => True end /\
    (sends_since (fun r => String.eqb (em_email r) address) (t - HOUR) (i_email_audits db1) < EMAIL_MAX_PER_EMAIL_HOUR)%nat /\
    i_email_audits db' = i_email_audits db1 ++
      [{| em_email := address; em_client_ip := ip; em_outcome := outcome; em_created_at := t |}].
Proof.
  unfold send_email_code. intros ([] & db1 & [= <-] & Hr)%st_bind_ok.
  apply st_bind_ok in Hr as (solved & db1 & Hc & Hr). destruct solved; [|done]. cbn [negb] in Hr.
  destruct (normalize_email e) as [address|]; [|done]. apply st_bind_ok in Hr as (v & db2 & Hv & Hr).
  destruct (v.1) eqn:Hv1; [|done]. cbn [negb] in Hr.
  assert (Hmc : st_moves (same i_email_audits) (consume_code sha256_hex "captcha" c cc t)) by (imoves; reflexivity).
  assert (Hmv : st_moves (fun x y => y = x) (email_send_allowed address ip t)) by imoves.
  pose proof (Hmv _ _ _ Hv) as ->. apply Hmc in Hc. exists address, db1.
  assert (Hlimits : match last_send address db1 with Some x => x <= t - seconds EMAIL_RESEND_COOLDOWN_S | None => True end /\
    (sends_since (fun r => String.eqb (em_email r) address) (t - HOUR) (i_email_audits db1) < EMAIL_MAX_PER_EMAIL_HOUR)%nat).
  { revert Hv. unfold email_send_allowed. intros (l & db3 & [= <- <-] & Hv)%st_bind_ok.
    assert (Hl : match last_send address db1 with Some x => t - seconds EMAIL_RESEND_COOLDOWN_S <? x | None => false end = false).
    { destruct (match last_send address db1 with Some _ => _ | None => _ end); [|done]. by injection Hv as <-. }
    rewrite Hl in Hv. apply st_bind_ok in Hv as (n & db3 & [= <- <-] & Hv). split.
    - destruct (last_send address db1); [|done]. by apply Z.ltb_ge in Hl.
    - apply Nat.leb_gt. destruct (EMAIL_MAX_PER_EMAIL_HOUR <=? _)%nat; [|done]. by injection Hv as <-. }
  destruct Hlimits as [Hl1 Hl2].
  assert (Hrec : forall outcome db4 db5 (u : ()), record_email_send address ip outcome t db4 = Ok (u, db5) ->
    i_email_audits db5 = i_email_audits db4 ++ [{| em_email := address; em_client_ip := ip; em_outcome := outcome; em_created_at := t |}]).
  { intros o db4 db5 []. unfold record_email_send. intros (i & db6 & Hf & [= <-])%st_bind_ok. by injection Hf as <- <-. }
  assert (Hsent : forall db3 n, (_ ← record_email_send address ip "sent" t;
      _ ← put_code sha256_hex "email" address code EMAIL_CODE_TTL_S ip t; mret n) db1 = Ok (st, db3) ->
      i_email_audits db3 = i_email_audits db1 ++ [{| em_email := address; em_client_ip := ip; em_outcome := "sent"; em_created_at := t |}]).
  { intros db3 n (u & db4 & Ho%Hrec & Hput)%st_bind_ok. apply st_bind_ok in Hput as ([] & db5 & Hput & [= _ <-]).
    assert (Hmp : st_moves (same i_email_audits) (put_code sha256_hex "email" address code EMAIL_CODE_TTL_S ip t)) by (imoves; reflexivity).
    rewrite (Hmp _ _ _ Hput). done. }
  destruct pr as [| |[]]; [done|exists "sent"|exists "sent"|exists "failed"]; split_and!; try done; try (by eapply Hsent).
  apply st_bind_ok in Hr as (u & db3 & Ho%Hrec & [= _ <-]). done.
Qed.

(** ** The invariant *)

Lemma last_send_some e db x :
  last (sends_of e (i_email_audits db)) = Some x -> exists m, last_send e db = Some m /\ x <= m.
Proof.
  intros Hl. unfold last_send. fold (sends_of e (i_email_audits db)).
  destruct (sends_of e (i_email_audits db)) as [|y l] eqn:He; [done|]. eexists. split; [done|].
  apply last_Some_elem_of in Hl. apply elem_of_cons in Hl as [->|Hin]; [|by apply list_maxZ_ge].
  clear. unfold list_maxZ. induction l; cbn; lia.
Qed.

Lemma sent_to_app e s address t db c :
  sent_to e {| ml_db := db; ml_sent := ml_sent s ++ [(address, t)]; ml_clock := c |}
  = sent_to e s ++ (if String.eqb address e then [t] else []).
Proof. unfold sent_to. cbn. rewrite List.filter_app, fmap_app. cbn. by destruct (String.eqb address e). Qed.

Lemma inv_same e s db' c :
  mail_inv e s -> ml_clock s <= c ->
  (exists old, sends_of e (i_email_audits (ml_db s)) = old ++ sends_of e (i_email_audits db') /\ Forall (fun x => x < c - HOUR) old) ->
  mail_inv e {| ml_db := db'; ml_sent := ml_sent s; ml_clock := c |}.
Proof.
  intros [(old & Hk & Hold) Hp Hs Hf] Hc (old2 & Hcut & Hold2). split; cbn; try done.
  - exists (old ++ old2). rewrite <- app_assoc, <- Hcut. split; [done|]. apply Forall_app. split; [|done].
    eapply Forall_impl; [exact Hold|]. cbn. lia.
  - eapply Forall_impl; [exact Hp|]. cbn. lia.
Qed.

(** One more send, when the limits allow it. *)
Lemma inv_send e s db' t :
  mail_inv e s -> ml_clock s <= t ->
  (forall x, last (sends_of e (i_email_audits (ml_db s))) = Some x -> x + seconds EMAIL_RESEND_COOLDOWN_S <= t) ->
  (length (List.filter (fun x => t - HOUR <? x)%Z (sends_of e (i_email_audits (ml_db s)))) < EMAIL_MAX_PER_EMAIL_HOUR)%nat ->
  sends_of e (i_email_audits db') = sends_of e (i_email_audits (ml_db s)) ++ [t] ->
  mail_inv e {| ml_db := db'; ml_sent := ml_sent s ++ [(e, t)]; ml_clock := t |}.
Proof.
  intros [(old & Hk & Hold) Hp Hs Hf] Hc Hlast Hcount Hnew.
  assert (Hold' : Forall (fun x => x < t - HOUR) old) by (eapply Forall_impl; [exact Hold|]; cbn; lia).
  split; rewrite ?sent_to_app, ?String.eqb_refl; cbn.
  - exists old. rewrite Hnew, Hk, app_assoc. done.
  - apply Forall_app. split; [|by repeat constructor]. eapply Forall_impl; [exact Hp|]. cbn. lia.
  - apply spaced_snoc; [done|]. intros x Hx. rewrite Hk in Hx.
    destruct (sends_of e (i_email_audits (ml_db s))) as [|y l] eqn:He.
    + rewrite app_nil_r in Hx. apply last_Some_elem_of in Hx. rewrite Forall_forall in Hold'. apply Hold' in Hx.
      unfold HOUR, seconds, EMAIL_RESEND_COOLDOWN_S, SECOND in *. lia.
    + apply Hlast. rewrite last_app_cons in Hx. done.
  - intros w. rewrite within_app. destruct (Z.le_gt_cases t w) as [Htw|Hwt].
    + rewrite Hk, within_app, (within_old w old).
      * pose proof (within_le t w (sends_of e (i_email_audits (ml_db s))) Htw). unfold within at 2. cbn.
        case_match; cbn; lia.
      * eapply Forall_impl; [exact Hold'|]. cbn. lia.
    + specialize (Hf w). unfold within at 2. cbn. destruct (Z.leb_spec t w); [lia|]. rewrite andb_false_r. cbn. lia.
Qed.

Lemma inv_step e s s' : mail_step s s' -> mail_inv e s -> mail_inv e s'.
Proof.
  intros [c cc v ip pr code t Hc|db' _ Ha] Hi; [|apply inv_same; [done|lia|]; exists []; by rewrite Ha].
  cbv zeta. destruct (run_tx _ _) as [[st|x] db'] eqn:Hr; cbn.
  - unfold run_tx in Hr. destruct (send_email_code _ _ _ _ _ _ _ _ (ml_db s)) as [[st' db2]|] eqn:Hs; [|done].
    injection Hr as -> ->. apply send_inv in Hs as (address & db1 & outcome & -> & Hpurge & Hlast & Hcount & Hnew).
    assert (Hcut : exists old, sends_of e (i_email_audits (ml_db s)) = old ++ sends_of e (i_email_audits db1)
      /\ Forall (fun x => x < t - HOUR) old).
    { rewrite Hpurge, sends_of_purged. apply (spaced_cut (seconds EMAIL_RESEND_COOLDOWN_S)); [done|].
      destruct Hi as [(old & Hk & _) _ Hsp _]. rewrite Hk in Hsp. intros i x y Hx Hy.
      apply (Hsp (length old + i)%nat); rewrite lookup_app_r by lia; [|replace (S (length old + i) - length old)%nat with (S i) by lia; done].
      by replace (length old + i - length old)%nat with i by lia. }
    pose proof (inv_same e s db1 t Hi Hc Hcut) as Hi1. destruct (String.eqb_spec address e) as [->|Hne].
    + apply (inv_send e _ db' t Hi1 (Z.le_refl t)).
      * intros x (m & Hm & Hx)%last_send_some. cbn in Hm. rewrite Hm in Hlast. lia.
      * by rewrite <- sends_since_of.
      * cbn. rewrite Hnew, sends_of_app. unfold sends_of at 2. cbn. by rewrite String.eqb_refl.
    + destruct Hi1 as [Hk1 Hp1 Hs1 Hf1].
      assert (He : sends_of e (i_email_audits db') = sends_of e (i_email_audits db1)).
      { rewrite Hnew, sends_of_app. unfold sends_of at 2. cbn. rewrite (proj2 (String.eqb_neq _ _) Hne). apply app_nil_r. }
      split; rewrite ?sent_to_app, ?(proj2 (String.eqb_neq _ _) Hne), ?app_nil_r; cbn; rewrite ?He; done.
  - unfold run_tx in Hr. destruct (send_email_code _ _ _ _ _ _ _ _ (ml_db s)) as [[? ?]|]; [done|].
    injection Hr as _ <-. apply inv_same; [done|done|]. by exists [].
Qed.

(** C18: along any calls of the identity services an address is sent (or fails to be sent) at most ten
    codes in any hour and never two within a minute, although the rows that are counted are
    deleted after an hour. *)
Theorem email_sends_bounded e s s' :
  ml_sent s = [] -> i_email_audits (ml_db s) = [] -> rtc mail_step s s' ->
  (forall w, (within w (sent_to e s') <= 10)%nat) /\
  (forall i x y, sent_to e s' !! i = Some x -> sent_to e s' !! S i = Some y -> x + seconds 60 <= y).
Proof.
  intros Hs Ha Hrun. assert (Hi : mail_inv e s).
  { split; unfold sent_to; rewrite ?Hs, ?Ha; [by exists []|done|by intros ? ? ?|intros w; cbn; lia]. }
  enough (mail_inv e s') as [_ _ Hsp Hf] by done.
  clear Hs Ha. induction Hrun as [|x y z Hxy Hyz IH]; [done|]. by eapply IH, inv_step.
Qed.
End limits.

(** ** Witness *)

Module LimitsWorld.
Import IdentityWorld.

Definition opened : Mailing := {| ml_db := empty; ml_sent := []; ml_clock := NOON |}.
Abbreviation ask := (send_email_code sha "c1" "k7" "Ada@Example.org" None (Provider true) "123456" NOON).
Definition with_captcha : Mailing :=
  {| ml_db := after (get_captcha sha "c1" "k7" NOON) empty; ml_sent := []; ml_clock := NOON |}.
Definition mailed : Mailing :=
  {| ml_db := (run_tx ask (ml_db with_captcha)).2; ml_clock := NOON;
     ml_sent := match (run_tx ask (ml_db with_captcha)).1, normalize_email "Ada@Example.org" with
                | Ok _, Ok address => ml_sent with_captcha ++ [(address, NOON)]
                | _, _ => ml_sent with_captcha
                end |}.

Lemma captcha_step : mail_step sha checks host_of day_sessions opened with_captcha.
Proof.
  apply (mail_other sha checks host_of day_sessions opened (ml_db with_captcha)); [|vm_compute; reflexivity].
  apply st_tx, (tx_captcha sha host_of day_sessions "c1" "k7" NOON).
Qed.
Lemma ask_step : mail_step sha checks host_of day_sessions with_captcha mailed.
Proof.
  exact (mail_request sha checks host_of day_sessions with_captcha "c1" "k7" "Ada@Example.org" None (Provider true) "123456" NOON
    (Z.le_refl NOON)).
Qed.
Lemma mailed_reached : rtc (mail_step sha checks host_of day_sessions) opened mailed.
Proof. exact (rtc_l _ _ _ _ captcha_step (rtc_once _ _ ask_step)). Qed.

Lemma email_sends_bounded_witness :
  sent_to "ada@example.org" mailed = [NOON] /\ (within NOON (sent_to "ada@example.org" mailed) <= 10)%nat.
Proof.
  split; [vm_compute; reflexivity|].
  exact (proj1 (email_sends_bounded sha checks host_of day_sessions "ada@example.org" opened mailed eq_refl eq_refl mailed_reached) NOON).
Defined.
End LimitsWorld.
