(* ===== verification/ToolCatalog.v ===== *)
(** * ToolCatalog: what tools there are, who may use them, and live grants for the risky ones

    [core/tool_safety.py] and the first half of [core/tool_runtime.py]: the descriptor of a tool
    and its validators, the catalog, the authorisation of high-risk tools, the policy that turns a
    request into a snapshot of granted tools, and the tool sets built and restored from it.
    Instants and durations are microseconds in [Z]; methods are functions [Py], whose state an
    exception keeps ([is_granted] forgets an expired grant even when its caller raises). *)
From S2P Require Import Prelude Clock PyText.
Local Open Scope Z_scope.

(** ** Descriptors *)

Inductive ToolSource := BUILTIN | CUSTOM | MCP | ORCHESTRATION.
Inductive ToolScope := COORDINATOR | WORKER.
Inductive ToolRisk := LOW | MEDIUM | HIGH | CRITICAL.
Inductive ToolLockScope := NONE | SESSION | GLOBAL.

#[export] Instance tool_source_eq_dec : EqDecision ToolSource.
Proof. solve_decision. Defined.
#[export] Instance tool_scope_eq_dec : EqDecision ToolScope.
Proof. solve_decision. Defined.
#[export] Instance tool_scope_countable : Countable ToolScope.
Proof.
  refine (inj_countable' (fun s => match s with COORDINATOR => true | WORKER => false end)
            (fun b : bool => if b then COORDINATOR else WORKER) _). by intros [].
Defined.
#[export] Instance tool_risk_eq_dec : EqDecision ToolRisk.
Proof. solve_decision. Defined.
#[export] Instance tool_lock_scope_eq_dec : EqDecision ToolLockScope.
Proof. solve_decision. Defined.

Record ToolRetryPolicy := {
  rp_max_attempts : Z;
  rp_retryable_kinds : gset string;
  rp_base_delay : Z;
  rp_max_delay : Z;
  rp_jitter_millionths : Z;
}.

(** What the module raises. *)
Inductive ToolFailure := ToolValueError | ToolPermissionError | CancelledError | AssertionError | ToolRuntimeError.

#[export] Instance tool_failure_eq_dec : EqDecision ToolFailure.
Proof. solve_decision. Defined.

Definition RETRY_KINDS : gset string := {["timeout"; "network"; "rate_limit"]}.
Definition default_retry : ToolRetryPolicy :=
  {| rp_max_attempts := 1; rp_retryable_kinds := RETRY_KINDS; rp_base_delay := 250000; rp_max_delay := 4 * SECOND;
     rp_jitter_millionths := 200000 |}.

Definition between (lo hi x : Z) : bool := (lo <=? x) && (x <=? hi).

(** [ToolRetryPolicy(...)]: the bounds of the fields, [validate_retryable_kinds], [validate_delays]. *)
Definition retry_valid (p : ToolRetryPolicy) : bool :=
  between 1 5 (rp_max_attempts p) && between 0 (seconds 30) (rp_base_delay p) && between 0 (seconds 120) (rp_max_delay p)
  && between 0 SECOND (rp_jitter_millionths p) && bool_decide (rp_retryable_kinds p ⊆ RETRY_KINDS)
  && (rp_base_delay p <=? rp_max_delay p).

(** [delay_for]; [draw] is what the random factor makes of a delay. *)
Definition delay_for (p : ToolRetryPolicy) (failed_attempt : Z) (draw : Z -> Z) : Z :=
  let delay := rp_base_delay p * 2 ^ Z.max 0 (failed_attempt - 1) in
  let delay := if negb (delay =? 0) && negb (rp_jitter_millionths p =? 0) then draw delay else delay in
  Z.min (rp_max_delay p) (Z.max 0 delay).

(** What the runtime only carries along is left out: [description], [provider_id], [persist_result]. *)
Record ToolDescriptor := {
  d_name : string;
  d_source : ToolSource;
  d_provider : string;
  d_version : string;
  d_category : string;
  d_prompt_priority : Z;
  d_scopes : list ToolScope;
  d_capabilities : gset string;
  d_risk : ToolRisk;
  d_read_only : bool;
  d_idempotent : bool;
  d_concurrency_safe : bool;
  d_exclusive : bool;
  d_lock_scope : ToolLockScope;
  d_timeout : Z;
  d_max_concurrency : Z;
  d_retry : ToolRetryPolicy;
  d_enabled : bool;
  d_factory_name : string;  (* the name of the tool its factory makes *)
}.

Definition high_risk (d : ToolDescriptor) : bool := bool_decide (d_risk d = HIGH) || bool_decide (d_risk d = CRITICAL).
Definition repeatable (d : ToolDescriptor) : bool := d_read_only d || d_idempotent d.

Definition letter (c : ascii) : bool :=
  let n := nat_of_ascii c in ((65 <=? n)%nat && (n <=? 90)%nat) || ((97 <=? n)%nat && (n <=? 122)%nat).
Definition lowercase (c : ascii) : bool := let n := nat_of_ascii c in (97 <=? n)%nat && (n <=? 122)%nat.
Definition digit (c : ascii) : bool := let n := nat_of_ascii c in (48 <=? n)%nat && (n <=? 57)%nat.
Definition dash (c : ascii) : bool := Ascii.eqb c "_" || Ascii.eqb c "-".

(** A first character, then up to [more] others. *)
Definition spelled (first rest : ascii -> bool) (more : nat) (s : string) : bool :=
  match s with
  | EmptyString => false
  | String c s' => first c && forallb rest (String.list_ascii_of_string s') && (String.length s' <=? more)%nat
  end.
Definition TOOL_NAME : string -> bool :=
  spelled (fun c => letter c || Ascii.eqb c "_") (fun c => letter c || digit c || dash c) 63.
Definition TOOL_CATEGORY : string -> bool := spelled lowercase (fun c => lowercase c || digit c || dash c) 31.

(** [validate_capabilities]. *)
Definition capability_valid (s : string) : bool :=
  negb (String.eqb s "") && String.eqb (strip s) s && negb (contains " " s).

Definition with_lock_scope (l : ToolLockScope) (d : ToolDescriptor) : ToolDescriptor :=
  {| d_name := d_name d; d_source := d_source d; d_provider := d_provider d; d_version := d_version d;
     d_category := d_category d; d_prompt_priority := d_prompt_priority d; d_scopes := d_scopes d;
     d_capabilities := d_capabilities d; d_risk := d_risk d; d_read_only := d_read_only d;
     d_idempotent := d_idempotent d; d_concurrency_safe := d_concurrency_safe d; d_exclusive := d_exclusive d;
     d_lock_scope := l; d_timeout := d_timeout d; d_max_concurrency := d_max_concurrency d; d_retry := d_retry d;
     d_enabled := d_enabled d; d_factory_name := d_factory_name d |}.

(** [validate_concurrency_contract]. *)
Definition validate_concurrency_contract (d : ToolDescriptor) : result ToolFailure ToolDescriptor :=
  if bool_decide (d_source d = CUSTOM) && String.eqb (d_category d) "nlp" && negb (String.prefix "nlp_" (d_name d))
  then Err ToolValueError
  else if bool_decide (d_source d = MCP) && negb (String.prefix "mcp_" (d_name d)) then Err ToolValueError
  else if d_exclusive d && d_concurrency_safe d then Err ToolValueError
  else
    let d := if d_exclusive d && bool_decide (d_lock_scope d = NONE) then with_lock_scope GLOBAL d else d in
    if negb (bool_decide (d_lock_scope d = NONE)) && d_concurrency_safe d then Err ToolValueError
    else if negb (d_read_only d) && d_concurrency_safe d then Err ToolValueError
    else if (1 <? rp_max_attempts (d_retry d)) && negb (repeatable d) then Err ToolValueError
    else Ok d.

(** [ToolDescriptor(...)]: the validators of the fields, then of the whole. *)
Definition tool_descriptor (d : ToolDescriptor) : result ToolFailure ToolDescriptor :=
  if negb (TOOL_NAME (d_name d) && between (-1000) 1000 (d_prompt_priority d)
           && bool_decide (set_Forall (fun c => capability_valid c = true) (d_capabilities d))
           && negb (blank (d_version d)) && TOOL_CATEGORY (d_category d)
           && (0 <? d_timeout d) && (d_timeout d <=? seconds 1800) && between 0 100 (d_max_concurrency d)
           && retry_valid (d_retry d))
  then Err ToolValueError
  else validate_concurrency_contract d.

(** ** The authorisation of high-risk tools *)

Record ToolRiskGrant := { rg_granted_by : string; rg_reason : string; rg_expires_at : Z }.
Abbreviation Grants := (gmap (string * string) ToolRiskGrant).

Definition active (now_ : Z) (g : ToolRiskGrant) : bool := now_ <? rg_expires_at g.

(** [ToolAuthorizationManager.grant]. *)
Definition risk_grant (session tool granted_by reason : string) (ttl now_ : Z) (g : Grants)
  : result ToolFailure Grants :=
  if String.eqb session "" || String.eqb granted_by "" || blank reason || (ttl <=? 0) || (seconds 86400 <? ttl)
  then Err ToolValueError
  else Ok (<[(session, tool) := {| rg_granted_by := granted_by; rg_reason := reason; rg_expires_at := now_ + ttl |}]> g).

(** [is_granted]: an expired grant is forgotten. *)
Definition is_granted (session tool : string) (now_ : Z) (g : Grants) : bool * Grants :=
  match g !! (session, tool) with
  | None => (false, g)
  | Some x => if active now_ x then (true, g) else (false, delete (session, tool) g)
  end.

Definition revoke (session tool : string) (g : Grants) : bool * Grants :=
  (bool_decide (g !! (session, tool) <> None), delete (session, tool) g).
Definition revoke_session (session : string) (g : Grants) : nat * Grants :=
  (size (filter (fun kv => kv.1.1 = session) g), filter (fun kv => kv.1.1 <> session) g).

(** ** The catalog *)

Record ToolCatalog := { tc_descriptors : gmap string ToolDescriptor; tc_revision : nat }.

Definition new_catalog : ToolCatalog := {| tc_descriptors := ∅; tc_revision := 0 |}.

(** [register]. *)
Definition register (d : ToolDescriptor) (replace : bool) (c : ToolCatalog) : result ToolFailure ToolCatalog :=
  if bool_decide (tc_descriptors c !! d_name d <> None) && negb replace then Err ToolValueError
  else Ok {| tc_descriptors := <[d_name d := d]> (tc_descriptors c); tc_revision := S (tc_revision c) |}.

Definition unregister (name : string) (c : ToolCatalog) : ToolCatalog :=
  match tc_descriptors c !! name with
  | Some _ => {| tc_descriptors := delete name (tc_descriptors c); tc_revision := S (tc_revision c) |}
  | None => c
  end.

(** [unregister_provider]. *)
Definition of_provider (source : ToolSource) (provider : string) (d : ToolDescriptor) : Prop :=
  d_source d = source /\ d_provider d = provider.
#[export] Instance of_provider_dec source provider d : Decision (of_provider source provider d).
Proof. unfold of_provider. apply _. Defined.
Definition unregister_provider (source : ToolSource) (provider : string) (c : ToolCatalog) : nat * ToolCatalog :=
  let gone := filter (fun kv => of_provider source provider kv.2) (tc_descriptors c) in
  (size gone,
   if decide (gone = ∅) then c
   else {| tc_descriptors := filter (fun kv => ~ of_provider source provider kv.2) (tc_descriptors c);
           tc_revision := S (tc_revision c) |}).

(** [descriptors]: by priority, source and name. *)
Definition source_order (s : ToolSource) : Z :=
  match s with ORCHESTRATION => 0 | BUILTIN => 1 | CUSTOM => 2 | MCP => 3 end.
Definition descriptor_leb (a b : ToolDescriptor) : bool :=
  if d_prompt_priority a =? d_prompt_priority b then
    if source_order (d_source a) =? source_order (d_source b) then string_leb (d_name a) (d_name b)
    else source_order (d_source a) <? source_order (d_source b)
  else d_prompt_priority b <? d_prompt_priority a.
Definition descriptors (c : ToolCatalog) : list ToolDescriptor :=
  sort_by descriptor_leb (map_to_list (tc_descriptors c)).*2.
Definition tool_names (c : ToolCatalog) : list string := d_name <$> descriptors c.

(** ** Requests and snapshots *)

Record ToolGrantRequest := {
  gr_role : ToolScope;
  gr_session_id : string;
  gr_profile : string;
  gr_allowed_tools : gset string;
  gr_allowed_capabilities : gset string;
  gr_denied_tools : gset string;
  gr_denied_capabilities : gset string;
  gr_allow_high_risk : bool;
}.

Record ToolGrantSnapshot := {
  sn_role : ToolScope;
  sn_session_id : string;
  sn_profile : string;
  sn_granted_tools : list string;
  sn_granted_capabilities : list string;
  sn_catalog_revision : nat;
}.

(** [ToolRuntime]: its catalog and the manager of grants. *)
Record ToolRuntime := { tr_catalog : ToolCatalog; tr_grants : Grants }.
Abbreviation Tx := (Py ToolRuntime ToolFailure).

Definition with_grants (g : Grants) (r : ToolRuntime) : ToolRuntime := {| tr_catalog := tr_catalog r; tr_grants := g |}.

(** [self.authorization.is_granted]. *)
Definition check_granted (session tool : string) (now_ : Z) : Tx bool := fun r =>
  let (ok, g) := is_granted session tool now_ (tr_grants r) in (Ok ok, with_grants g r).

(** One turn of the loop of [resolve]. *)
Definition wanted (req : ToolGrantRequest) (d : ToolDescriptor) : bool :=
  d_enabled d && bool_decide (gr_role req ∈ d_scopes d)
  && (bool_decide (d_name d ∈ gr_allowed_tools req) || negb (bool_decide (d_capabilities d ∩ gr_allowed_capabilities req = ∅)))
  && negb (bool_decide (d_name d ∈ gr_denied_tools req))
  && bool_decide (d_capabilities d ∩ gr_denied_capabilities req = ∅).
Definition grantable (req : ToolGrantRequest) (now_ : Z) (d : ToolDescriptor) : Tx bool :=
  if negb (wanted req d) then mret false
  else if high_risk d then
    if gr_allow_high_risk req then check_granted (gr_session_id req) (d_name d) now_ else mret false
  else mret true.
Fixpoint granted_of (req : ToolGrantRequest) (now_ : Z) (l : list ToolDescriptor) : Tx (list ToolDescriptor) :=
  match l with
  | [] => mret []
  | d :: l' =>
      ok ← grantable req now_ d;
      rest ← granted_of req now_ l';
      mret (if ok : bool then d :: rest else rest)
  end.

(** [resolve]. *)
Definition resolve (req : ToolGrantRequest) (now_ : Z) : Tx ToolGrantSnapshot :=
  c ← py_gets tr_catalog;
  if negb (bool_decide (gr_allowed_tools req ⊆ list_to_set (tool_names c))) then py_raise ToolValueError
  else
    granted ← granted_of req now_ (descriptors c);
    mret {| sn_role := gr_role req; sn_session_id := gr_session_id req; sn_profile := gr_profile req;
            sn_granted_tools := d_name <$> granted;
            sn_granted_capabilities := sort_by string_leb (elements (⋃ (d_capabilities <$> granted)));
            sn_catalog_revision := tc_revision c |}.

(** ** Tool sets *)

Record ToolSet := { ts_snapshot : ToolGrantSnapshot; ts_descriptors : list ToolDescriptor }.

(** [instantiate] and [ToolSet(...)]. *)
Definition instantiable (d : ToolDescriptor) : bool := String.eqb (d_factory_name d) (d_name d).
Definition tool_set (s : ToolGrantSnapshot) (l : list ToolDescriptor) : Tx ToolSet :=
  if forallb instantiable l then mret {| ts_snapshot := s; ts_descriptors := l |} else py_raise ToolValueError.

(** The descriptor a name stands for in a tool set: the last one wins. *)
Definition ts_descriptor (name : string) (t : ToolSet) : option ToolDescriptor :=
  List.find (fun d => String.eqb (d_name d) name) (rev (ts_descriptors t)).

(** [build_toolset]. *)
Definition build_toolset (req : ToolGrantRequest) (now_ : Z) : Tx ToolSet :=
  s ← resolve req now_;
  c ← py_gets tr_catalog;
  tool_set s (omap (fun n => tc_descriptors c !! n) (sn_granted_tools s)).

(** The names whose grant is gone, each checked in turn. *)
Fixpoint expired_high_risk (session : string) (now_ : Z) (l : list ToolDescriptor) : Tx (list string) :=
  match l with
  | [] => mret []
  | d :: l' =>
      gone ← (if bool_decide (d_risk d = HIGH) then ok ← check_granted session (d_name d) now_; mret (negb ok)
              else mret false);
      rest ← expired_high_risk session now_ l';
      mret (if gone : bool then d_name d :: rest else rest)
  end.

(** [restore_toolset]. *)
Definition restore_toolset (s : ToolGrantSnapshot) (now_ : Z) : Tx ToolSet :=
  c ← py_gets tr_catalog;
  let ds := omap (fun n => tc_descriptors c !! n) (sn_granted_tools s) in
  if existsb (fun n => bool_decide (tc_descriptors c !! n = None)) (sn_granted_tools s) then py_raise ToolValueError
  else if existsb (fun d => negb (bool_decide (sn_role s ∈ d_scopes d))) ds then py_raise ToolValueError
  else
    gone ← expired_high_risk (sn_session_id s) now_ ds;
    if bool_decide (gone = []) then tool_set s ds else py_raise ToolPermissionError.

(** [ToolRuntime.grant_high_risk]. *)
Definition grant_high_risk (session tool granted_by reason : string) (ttl now_ : Z) : Tx () :=
  c ← py_gets tr_catalog;
  match tc_descriptors c !! tool with
  | None => py_raise ToolValueError
  | Some d =>
      if negb (high_risk d) then py_raise ToolValueError
      else
        g ← py_gets tr_grants;
        match risk_grant session tool granted_by reason ttl now_ g with
        | Ok g' => py_modify (with_grants g')
        | Err e => py_raise e
        end
  end.
