(* ===== verification/ToolExecution.v ===== *)
(** * ToolExecution: one call of a tool, and several

    The second half of [core/tool_runtime.py]: the error a tool's output carries, the
    classification of exceptions, [ToolExecutor.execute] with its retries and audit events,
    [ToolSet.execute] and [execute_many], and [compact_model_content] of [core/agent_runtime.py].
    What a tool does is a script: whether pydantic accepts the arguments, and how each attempt
    ends.  The state of a call is the runtime and the log of what was audited, invoked and slept.
    Durations, telemetry spans and the texts of exceptions' types are not modelled. *)
From S2P Require Import Prelude Clock PyText Json ToolCatalog.
Local Open Scope Z_scope.

(** ** Results *)

Record ToolExecutionError := {
  te_kind : string;
  te_message : string;
  te_code : string;
  te_details : list (string * json);
  te_retryable : bool;
}.

(** What a tool returns: text, a mapping or anything else. *)
Inductive ToolOutput := OText (s : string) | OMapping (l : list (string * json)) | OOther (v : json).

Record ToolExecutionResult := {
  r_tool_name : string;
  r_ok : bool;
  r_output : option ToolOutput;
  r_error : option ToolExecutionError;
  r_attempts : Z;
}.

(** [sanitize] of [validate_safe_details], at the depth left; [None] stands for Python's. *)
Fixpoint sanitize (depth_left : nat) (v : json) : option json :=
  match v with
  | JNull => None
  | JBool _ | JNum _ => Some v
  | JStr s => Some (JStr (str_take 1000 s))
  | JArr l =>
      match depth_left with
      | O => None
      | S k => Some (JArr (omap (sanitize k) (take 32 l)))
      end
  | JObj l =>
      match depth_left with
      | O => None
      | S k => Some (JObj (omap (fun kv : string * json =>
                                   if String.eqb kv.1 "" || (64 <? char_length kv.1)%nat then None
                                   else x ← sanitize k kv.2; Some (kv.1, x)) (take 32 l)))
      end
  end.
Definition validate_safe_details (v : json) : list (string * json) :=
  match v with
  | JObj _ => match sanitize 3 v with Some (JObj l) => l | _ => [] end
  | _ => []
  end.

(** [bool(value)]. *)
Definition truthy (v : json) : bool :=
  match v with
  | JNull => false
  | JBool b => b
  | JNum n => negb (n =? 0)
  | JStr s => negb (String.eqb s "")
  | JArr l => negb (bool_decide (length l = 0%nat))
  | JObj l => negb (bool_decide (length l = 0%nat))
  end.
Definition get (key : string) (l : list (string * json)) : json := default JNull (jget key (JObj l)).
Definition or_json (a b : json) : json := if truthy a then a else b.

(** The characters of [re.fullmatch] for a code. *)
Definition code_char (c : ascii) : bool := letter c || digit c || existsb (Ascii.eqb c) ["_"; "."; ":"; "-"]%char.
Definition safe_code (s : string) : string :=
  if (128 <? char_length s)%nat || negb (forallb code_char (String.list_ascii_of_string s)) then "" else s.

Section tool_execution.
(** [json.loads], [None] where it raises, and [str] of a value that is not a string. *)
Variable loads : string -> option json.
Variable str_of : json -> string.

Definition text_of (v : json) : string := match v with JStr s => s | _ => str_of v end.

(** [_structured_tool_error]. *)
Definition structured_tool_error (payload : list (string * json)) : option ToolExecutionError :=
  let raw_error := get "error" payload in
  if negb (truthy raw_error) then None
  else
    let raw_code := default (JStr "") (jget "code" (JObj payload)) in
    let raw_details := default (JObj []) (jget "details" (JObj payload)) in
    let '(message, raw_code, raw_details) :=
      match raw_error with
      | JObj e =>
          let value := or_json (get "message" e) (or_json (get "error" e) (get "detail" e)) in
          (if bool_decide (value = JNull) then dumps_default raw_error else text_of value,
           or_json (get "code" e) raw_code, default raw_details (jget "details" raw_error))
      | _ => (text_of raw_error, raw_code, raw_details)
      end in
    let code := match raw_code with JNull => "" | v => text_of v end in
    Some {| te_kind := "tool_error"; te_message := message; te_code := safe_code code;
            te_details := validate_safe_details raw_details; te_retryable := false |}.

(** [_detect_tool_error]. *)
Definition ERROR_ZH : string := bytes [233; 148; 153; 232; 175; 175; 239; 188; 154]%nat.
Definition plain_tool_error (message : string) : ToolExecutionError :=
  {| te_kind := "tool_error"; te_message := message; te_code := ""; te_details := []; te_retryable := false |}.
Definition detect_tool_error (output : ToolOutput) : option ToolExecutionError :=
  match output with
  | OMapping l => structured_tool_error l
  | OOther _ => None
  | OText s =>
      let stripped := strip s in
      if String.prefix "Error:" stripped || String.prefix ERROR_ZH stripped then Some (plain_tool_error stripped)
      else if String.prefix "{" stripped then
        match loads stripped with
        | Some (JObj payload) => structured_tool_error payload
        | _ => None
        end
      else None
  end.

(** An exception: its type and text, [status_code] and whether it is a [ConnectionError]. *)
Record ToolException := { ex_type : string; ex_text : string; ex_status : option Z; ex_connection : bool }.

(** [_classify_exception]. *)
Definition classify_exception (e : ToolException) : string * bool :=
  let text := lower (ex_type e +:+ ": " +:+ ex_text e) in
  if bool_decide (ex_status e = Some 429) || contains "rate limit" text || contains "ratelimit" text then ("rate_limit", true)
  else if ex_connection e
          || existsb (fun m => contains m text) ["connection"; "network"; "temporarily unavailable"; "dns"]
  then ("network", true)
  else ("execution", false).

(** ** [ToolExecutor.execute] *)

Inductive Attempt := Returned (o : ToolOutput) | TimedOut | Raised (e : ToolException) | Cancelled.

(** The script of one call: what pydantic says of the arguments, how each attempt ends, and what
    the random factor makes of each delay. *)
Record CallScript := {
  cs_invalid : option string;
  cs_attempt : nat -> Attempt;
  cs_draw : nat -> Z -> Z;
}.

Inductive ToolEvent :=
| Audited (tool phase outcome error_kind : string) (attempt : Z)
| Invoked (tool : string) (attempt : nat)
| Slept (delay : Z).

Record Call := { ca_runtime : ToolRuntime; ca_log : list ToolEvent }.
Abbreviation Cx := (Py Call ToolFailure).

Definition emit (e : ToolEvent) : Cx () := py_modify (fun c => {| ca_runtime := ca_runtime c; ca_log := ca_log c ++ [e] |}).
Definition on_runtime {A} (m : Py ToolRuntime ToolFailure A) : Cx A := fun c =>
  let (r, rt) := m (ca_runtime c) in (r, {| ca_runtime := rt; ca_log := ca_log c |}).

Definition audit (d : ToolDescriptor) (phase outcome error_kind : string) (attempt : Z) : Cx () :=
  emit (Audited (d_name d) phase outcome error_kind attempt).

(** [_failure]. *)
Definition failure (tool : string) (e : ToolExecutionError) (attempts : Z) : ToolExecutionResult :=
  {| r_tool_name := tool; r_ok := false; r_output := None; r_error := Some e; r_attempts := attempts |}.
Definition error_of (kind message : string) (retryable : bool) : ToolExecutionError :=
  {| te_kind := kind; te_message := message; te_code := ""; te_details := []; te_retryable := retryable |}.

(** [_should_retry]. *)
Definition should_retry (d : ToolDescriptor) (r : ToolExecutionResult) (attempt : Z) : bool :=
  match r_error r with
  | Some e => negb (r_ok r) && te_retryable e && bool_decide (te_kind e ∈ rp_retryable_kinds (d_retry d))
              && (attempt <? rp_max_attempts (d_retry d)) && repeatable d
  | None => false
  end.

(** What one attempt comes to, unless it is cancelled; the message of a timeout names the limit. *)
Definition attempt_result (d : ToolDescriptor) (a : Attempt) (attempt : nat) : Cx ToolExecutionResult :=
  let kinds := rp_retryable_kinds (d_retry d) in
  match a with
  | Cancelled => py_raise CancelledError
  | Returned o =>
      mret (match detect_tool_error o with
            | None => {| r_tool_name := d_name d; r_ok := true; r_output := Some o; r_error := None;
                         r_attempts := Z.of_nat attempt |}
            | Some e => failure (d_name d) e (Z.of_nat attempt)
            end)
  | TimedOut =>
      mret (failure (d_name d)
              (error_of "timeout" ("tool timed out after " +:+ pretty (d_timeout d))
                 (repeatable d && bool_decide ("timeout" ∈ kinds))) (Z.of_nat attempt))
  | Raised e =>
      let (kind, retryable) := classify_exception e in
      mret (failure (d_name d)
              (error_of kind (ex_type e +:+ ": " +:+ ex_text e)
                 (retryable && repeatable d && bool_decide (kind ∈ kinds))) (Z.of_nat attempt))
  end.

Definition kind_of (r : ToolExecutionResult) : string := match r_error r with Some e => te_kind e | None => "" end.

(** The loop over [range(attempt, attempt + left)]. *)
Fixpoint attempts (d : ToolDescriptor) (sc : CallScript) (left attempt : nat) : Cx ToolExecutionResult :=
  match left with
  | O => py_raise AssertionError
  | S left' =>
      _ ← audit d "attempt" "started" "" (Z.of_nat attempt);
      _ ← emit (Invoked (d_name d) attempt);
      final ← attempt_result d (cs_attempt sc attempt) attempt;
      if r_ok final || negb (should_retry d final (Z.of_nat attempt)) then mret final
      else
        _ ← audit d "retry" "error" (kind_of final) (Z.of_nat attempt);
        _ ← emit (Slept (delay_for (d_retry d) (Z.of_nat attempt) (cs_draw sc attempt)));
        match left' with
        | O => mret final
        | S _ => attempts d sc left' (S attempt)
        end
  end.

(** [execute]; the semaphore and the lock around the loop are those of [ToolLocks]. *)
Definition execute (d : ToolDescriptor) (sc : CallScript) (session : string) (now_ : Z) : Cx ToolExecutionResult :=
  granted ← (if high_risk d then on_runtime (check_granted session (d_name d) now_) else mret true);
  if negb (granted : bool) then
    _ ← audit d "denied" "denied" "permission_denied" 0;
    mret (failure (d_name d) (error_of "permission_denied" "high-risk tool requires an active session grant" false) 0)
  else
    match cs_invalid sc with
    | Some message =>
        _ ← audit d "completed" "error" "validation" 0;
        mret (failure (d_name d) (error_of "validation" message false) 0)
    | None =>
        final ← attempts d sc (Z.to_nat (rp_max_attempts (d_retry d))) 1;
        _ ← audit d "completed" (if r_ok final then "success" else "error") (kind_of final) (r_attempts final);
        mret final
    end.

(** ** The stretches of an execution

    [execute] suspends wherever it awaits: at the semaphore, the lock and each audit, while the
    tool runs, and in each back-off sleep.  Anything may happen meanwhile (a grant may be
    revoked or expire), and nothing is checked again.  These are the pieces between the
    suspensions; [ToolSafety] shows that, run one after the other, they are [execute], and
    interleaves them with everything else. *)
Inductive CallPoint :=
| Ready (attempt : nat)      (* about to start this attempt, or still waiting for its turn *)
| Awaiting (attempt : nat)   (* the tool runs *)
| Sleeping (attempt : nat) (final : ToolExecutionResult).
Inductive Progress := Done (r : ToolExecutionResult) | At (p : CallPoint).

(** Up to the [AsyncExitStack]: the grant, the arguments. *)
Definition enter (d : ToolDescriptor) (sc : CallScript) (session : string) (now_ : Z) : Cx Progress :=
  granted ← (if high_risk d then on_runtime (check_granted session (d_name d) now_) else mret true);
  if negb (granted : bool) then
    _ ← audit d "denied" "denied" "permission_denied" 0;
    mret (Done (failure (d_name d)
                  (error_of "permission_denied" "high-risk tool requires an active session grant" false) 0))
  else
    match cs_invalid sc with
    | Some message =>
        _ ← audit d "completed" "error" "validation" 0;
        mret (Done (failure (d_name d) (error_of "validation" message false) 0))
    | None => mret (At (Ready 1))
    end.

Definition finish (d : ToolDescriptor) (final : ToolExecutionResult) : Cx Progress :=
  _ ← audit d "completed" (if r_ok final then "success" else "error") (kind_of final) (r_attempts final);
  mret (Done final).

(** From one suspension to the next. *)
Definition resume (d : ToolDescriptor) (sc : CallScript) (p : CallPoint) : Cx Progress :=
  match p with
  | Ready attempt =>
      if rp_max_attempts (d_retry d) <? Z.of_nat attempt then py_raise AssertionError
      else
        _ ← audit d "attempt" "started" "" (Z.of_nat attempt);
        _ ← emit (Invoked (d_name d) attempt);
        mret (At (Awaiting attempt))
  | Awaiting attempt =>
      final ← attempt_result d (cs_attempt sc attempt) attempt;
      if r_ok final || negb (should_retry d final (Z.of_nat attempt)) then finish d final
      else
        _ ← audit d "retry" "error" (kind_of final) (Z.of_nat attempt);
        _ ← emit (Slept (delay_for (d_retry d) (Z.of_nat attempt) (cs_draw sc attempt)));
        mret (At (Sleeping attempt final))
  | Sleeping attempt final =>
      if rp_max_attempts (d_retry d) <=? Z.of_nat attempt then finish d final else mret (At (Ready (S attempt)))
  end.

(** One stretch after the other, with nothing in between. *)
Fixpoint drive (d : ToolDescriptor) (sc : CallScript) (fuel : nat) (p : CallPoint) : Cx ToolExecutionResult :=
  match fuel with
  | O => py_raise AssertionError
  | S fuel' =>
      q ← resume d sc p;
      match q with Done r => mret r | At p' => drive d sc fuel' p' end
  end.

(** [ToolSet.execute]. *)
Definition toolset_execute (t : ToolSet) (name : string) (sc : CallScript) (now_ : Z) : Cx ToolExecutionResult :=
  match ts_descriptor name t with
  | None => mret (failure name (error_of "permission_denied" ("tool '" +:+ name +:+ "' is not granted in this runtime") false) 0)
  | Some d => execute d sc (sn_session_id (ts_snapshot t)) now_
  end.
End tool_execution.

(** ** [ToolSet.execute_many] *)

(** A call that runs alone, or a run of calls that [asyncio.gather] starts together. *)
Inductive Batch := Alone (call : nat) | Together (calls : list nat).

Definition batchable (t : ToolSet) (name : string) : bool :=
  match ts_descriptor name t with Some d => d_concurrency_safe d | None => false end.

Definition flush (l : list nat) : list Batch := match l with [] => [] | _ => [Together l] end.

(** The loops of [execute_many] over the calls from [index] on; [batch] is the run being gathered. *)
Fixpoint batches (t : ToolSet) (batch : list nat) (index : nat) (names : list string) : list Batch :=
  match names with
  | [] => flush batch
  | n :: names' =>
      if batchable t n then batches t (batch ++ [index]) (S index) names'
      else flush batch ++ Alone index :: batches t [] (S index) names'
  end.
Definition execute_many (t : ToolSet) (names : list string) : list Batch := batches t [] 0 names.

(** ** [compact_model_content] *)

(** Text as the list of its characters, which is what [len] and slices count. *)
Definition Text : Type := list Z.
Definition characters (s : string) : Text := (fun c => Z.of_nat (nat_of_ascii c)) <$> String.list_ascii_of_string s.
Definition newline : string := String (ascii_of_nat 10) "".

Definition compaction_marker (original max_chars : Z) : Text :=
  characters (newline +:+ newline +:+ "[tool result compacted: original_chars=" +:+ pretty original
              +:+ ", visible_chars=" +:+ pretty max_chars +:+ "]" +:+ newline +:+ newline).

Definition compact_model_content (content : Text) (max_chars : Z) : Text :=
  let len := Z.of_nat (length content) in
  if len <=? max_chars then content
  else
    let marker := compaction_marker len max_chars in
    let available := Z.max 0 (max_chars - Z.of_nat (length marker)) in
    let head := Z.max 1 (available * 3 / 4) in
    let tail := Z.max 0 (available - head) in
    take (Z.to_nat head) content ++ marker ++ (if tail =? 0 then [] else drop (length content - Z.to_nat tail) content).
