(* ===== verification/ToolSafety.v ===== *)
(** * ToolSafety: which tools are granted, and what a risky call presupposes

    The policy as a predicate on the catalog and the live grants, and the runtime with executions
    that advance one stretch at a time and the history of its grants, revocations, checks and risky
    invocations. *)
From S2P Require Import Prelude Clock PyText Json ToolCatalog ToolExecution.
Local Open Scope Z_scope.

(** ** The policy *)

Definition catalog_ok (c : ToolCatalog) : Prop := forall n d, tc_descriptors c !! n = Some d -> d_name d = n.

Lemma elem_of_descriptors c d : d ∈ descriptors c <-> exists n, tc_descriptors c !! n = Some d.
Proof.
  unfold descriptors. rewrite (sort_by_perm descriptor_leb), list_elem_of_fmap. split.
  - intros ([n d'] & -> & Hin%elem_of_map_to_list). by exists n.
  - intros (n & Hn). exists (n, d). split; [done|by apply elem_of_map_to_list].
Qed.

Lemma elem_of_tool_names c n : catalog_ok c -> n ∈ tool_names c <-> is_Some (tc_descriptors c !! n).
Proof.
  intros Hok. unfold tool_names. rewrite list_elem_of_fmap. setoid_rewrite elem_of_descriptors. split.
  - intros (d & -> & k & Hk). rewrite (Hok _ _ Hk). by eexists.
  - intros [d Hd]. exists d. split; [by rewrite (Hok _ _ Hd)|by exists n].
Qed.

(** A session's grant of a tool counts at an instant. *)
Definition granted_at (session tool : string) (t : Z) (g : Grants) : Prop :=
  exists x, g !! (session, tool) = Some x /\ t < rg_expires_at x.
#[export] Instance granted_at_dec session tool t g : Decision (granted_at session tool t g).
Proof.
  destruct (g !! (session, tool)) as [x|] eqn:Hx.
  - destruct (decide (t < rg_expires_at x)); [left; by exists x|right].
    intros (y & Hy & Ht). rewrite Hx in Hy. by injection Hy as <-.
  - right. intros (y & Hy & _). by rewrite Hx in Hy.
Defined.

Lemma is_granted_spec session tool t g :
  (is_granted session tool t g).1 = bool_decide (granted_at session tool t g) /\
  forall s n, granted_at s n t (is_granted session tool t g).2 <-> granted_at s n t g.
Proof.
  unfold is_granted. destruct (g !! (session, tool)) as [x|] eqn:Hx.
  - unfold active. destruct (Z.ltb_spec t (rg_expires_at x)) as [Hlt|Hge]; cbn.
    + split; [|done]. symmetry. apply bool_decide_eq_true. by exists x.
    + split.
      * symmetry. apply bool_decide_eq_false. intros (y & Hy & Ht). rewrite Hx in Hy. injection Hy as <-. lia.
      * intros s n. unfold granted_at. destruct (decide ((s, n) = (session, tool))) as [He|Hne].
        -- rewrite He, lookup_delete_eq, Hx. split; [by intros (? & ? & _)|intros (y & [= <-] & Ht); lia].
        -- by rewrite lookup_delete_ne.
  - split; [|done]. symmetry. apply bool_decide_eq_false. intros (y & Hy & _). by rewrite Hx in Hy.
Qed.

(** What the loop of [resolve] lets through, on the grants it starts with. *)
Definition admits (req : ToolGrantRequest) (t : Z) (g : Grants) (d : ToolDescriptor) : bool :=
  wanted req d
  && (negb (high_risk d) || (gr_allow_high_risk req && bool_decide (granted_at (gr_session_id req) (d_name d) t g))).

Definition same_grants (t : Z) (r r' : ToolRuntime) : Prop :=
  tr_catalog r' = tr_catalog r /\ forall s n, granted_at s n t (tr_grants r') <-> granted_at s n t (tr_grants r).

Lemma check_granted_spec session tool t r :
  exists r', check_granted session tool t r = (Ok (bool_decide (granted_at session tool t (tr_grants r))), r') /\ same_grants t r r'.
Proof.
  unfold check_granted. destruct (is_granted_spec session tool t (tr_grants r)) as [H1 H2].
  destruct (is_granted session tool t (tr_grants r)) as [ok g]. cbn in *. subst ok. eexists. by split.
Qed.

Lemma grantable_spec req t d r :
  exists r', grantable req t d r = (Ok (admits req t (tr_grants r) d), r') /\ same_grants t r r'.
Proof.
  unfold grantable, admits. destruct (wanted req d); cbn [negb andb]; [|by exists r].
  destruct (high_risk d); cbn [negb orb]; [|by exists r]. destruct (gr_allow_high_risk req); [|by exists r].
  apply check_granted_spec.
Qed.

Lemma same_grants_admits req t r r' d : same_grants t r r' -> admits req t (tr_grants r') d = admits req t (tr_grants r) d.
Proof.
  intros [_ Hg]. unfold admits. do 3 f_equal. by apply bool_decide_ext.
Qed.

Lemma granted_of_spec req t l r :
  exists r', granted_of req t l r = (Ok (List.filter (admits req t (tr_grants r)) l), r') /\ same_grants t r r'.
Proof.
  revert r. induction l as [|d l IH]; intros r; [by exists r|]. cbn [granted_of List.filter].
  rewrite py_bind_eq. destruct (grantable_spec req t d r) as (r1 & -> & H1). rewrite py_bind_eq.
  destruct (IH r1) as (r2 & -> & H2). exists r2. split.
  - rewrite (List.filter_ext _ _ (fun x => same_grants_admits req t r r1 x H1)).
    by destruct (admits req t (tr_grants r) d).
  - destruct H1 as [C1 G1], H2 as [C2 G2]. split; [congruence|]. intros s n. by rewrite G2, G1.
Qed.

(** C12: the policy grants a request exactly the enabled tools of its role that it names or asks for by
    a capability and does not deny, and a high-risk one only with a live grant of the session; a
    request that names an unknown tool is refused. *)
Theorem resolve_grants_exactly req t r :
  catalog_ok (tr_catalog r) ->
  ((exists n, n ∈ gr_allowed_tools req /\ tc_descriptors (tr_catalog r) !! n = None) /\ resolve req t r = (Err ToolValueError, r))
  \/ exists s r', resolve req t r = (Ok s, r') /\
       forall n, n ∈ sn_granted_tools s <->
         exists d, tc_descriptors (tr_catalog r) !! n = Some d /\ d_enabled d = true /\ gr_role req ∈ d_scopes d /\
           (n ∈ gr_allowed_tools req \/ d_capabilities d ∩ gr_allowed_capabilities req <> ∅) /\
           n ∉ gr_denied_tools req /\ d_capabilities d ∩ gr_denied_capabilities req = ∅ /\
           (d_risk d = HIGH \/ d_risk d = CRITICAL ->
              gr_allow_high_risk req = true /\ granted_at (gr_session_id req) n t (tr_grants r)).
Proof.
  intros Hok. unfold resolve. rewrite py_bind_eq. cbn [py_gets]. destruct (bool_decide _) eqn:Hknown; cbn [negb].
  - right. rewrite py_bind_eq. destruct (granted_of_spec req t (descriptors (tr_catalog r)) r) as (r' & -> & _).
    eexists _, r'. split; [reflexivity|]. cbn. intros n. rewrite list_elem_of_fmap. setoid_rewrite filter_elem_of.
    setoid_rewrite elem_of_descriptors. unfold admits, wanted, high_risk.
    setoid_rewrite andb_true_iff. setoid_rewrite orb_true_iff. setoid_rewrite negb_true_iff. split.
    + intros (d & -> & (k & Hk) & Hw & Hrisk). pose proof (Hok _ _ Hk) as <-. exists d. split; [done|].
      rewrite !andb_true_iff, orb_true_iff, !negb_true_iff, !bool_decide_eq_true, !bool_decide_eq_false in Hw.
      destruct Hw as ((((He & Hs) & Hn) & Hd) & Hc). split_and!; try done. intros Hr.
      destruct Hrisk as [Hlow|Hhigh].
      * apply orb_false_iff in Hlow as [Hh%bool_decide_eq_false Hcr%bool_decide_eq_false]. tauto.
      * apply andb_true_iff in Hhigh as [Ha Hg%bool_decide_eq_true]. done.
    + intros (d & Hk & He & Hs & Hn & Hd & Hc & Hrisk). pose proof (Hok _ _ Hk) as Hname. exists d. rewrite Hname.
      split; [done|]. split; [by exists n|].
      rewrite !andb_true_iff, orb_true_iff, !negb_true_iff, !bool_decide_eq_true, !bool_decide_eq_false. split; [tauto|].
      destruct (decide (d_risk d = HIGH \/ d_risk d = CRITICAL)) as [Hr|Hr].
      * right. by destruct (Hrisk Hr) as [-> Hg].
      * left. apply orb_false_iff. split; apply bool_decide_eq_false; tauto.
  - left. split; [|done]. apply bool_decide_eq_false in Hknown.
    destruct (decide (set_Forall (fun n => is_Some (tc_descriptors (tr_catalog r) !! n)) (gr_allowed_tools req))) as [Hall|Hnot].
    + destruct Hknown. intros n Hn. apply elem_of_list_to_set, elem_of_tool_names; [done|]. by apply Hall.
    + apply not_set_Forall_Exists in Hnot as (n & Hn & Hno); [|solve_decision]. exists n. split; [done|]. by apply eq_None_not_Some.
Qed.

(** ** Live grants only disappear *)

Definition within_grants (g : Grants) (r : ToolRuntime) : Prop := tr_grants r ⊆ g.

Lemma within_run {A} (m : Tx A) r : py_inv (within_grants (tr_grants r)) m -> tr_grants (m r).2 ⊆ tr_grants r.
Proof. intros Hm. apply (Hm r). unfold within_grants. reflexivity. Qed.

Lemma within_check g session tool t : py_inv (within_grants g) (check_granted session tool t).
Proof.
  intros r Hr. unfold check_granted, is_granted, within_grants in *. destruct (tr_grants r !! _) as [x|]; [|done].
  destruct (active t x); [done|]. cbn. etransitivity; [apply delete_subseteq|done].
Qed.

Lemma within_resolve g req t : py_inv (within_grants g) (resolve req t).
Proof.
  assert (Hl : forall l, py_inv (within_grants g) (granted_of req t l)).
  { induction l as [|d l IH]; cbn; [apply py_inv_ret|]. unfold grantable.
    repeat (py_inv_step; try done); try apply within_check. }
  unfold resolve. repeat (py_inv_step; try done); apply Hl.
Qed.

Lemma within_tool_set g s l : py_inv (within_grants g) (tool_set s l).
Proof. unfold tool_set. by repeat py_inv_step. Qed.

Lemma within_build g req t : py_inv (within_grants g) (build_toolset req t).
Proof.
  unfold build_toolset. apply py_inv_bind; [apply within_resolve|]. intros s. apply py_inv_bind; [apply py_inv_gets|].
  intros c. apply within_tool_set.
Qed.

Lemma within_restore g s t : py_inv (within_grants g) (restore_toolset s t).
Proof.
  assert (Hl : forall session l, py_inv (within_grants g) (expired_high_risk session t l)).
  { intros session. induction l as [|d l IH]; cbn; [apply py_inv_ret|].
    repeat (py_inv_step; try done); try apply within_check. }
  unfold restore_toolset. repeat (py_inv_step; try done); first [apply Hl|apply within_tool_set].
Qed.

(** ** Grants and risky executions, with their history

    Executions are numbered as they are started; between two stretches of one anything else
    may happen, and it may be cancelled wherever it is suspended. *)

Inductive RiskEvent :=
| RGranted (session tool granted_by reason : string) (ttl t : Z)
| RRevoked (session tool : string)
| RRevokedSession (session : string)
| RChecked (call : nat) (session tool : string) (t : Z)
| RInvoked (call : nat) (session tool : string) (t : Z).

Definition revokes (session tool : string) (e : RiskEvent) : Prop := e = RRevoked session tool \/ e = RRevokedSession session.

(** The history, newest first, holds an explicit grant that lasts until [e] and was not revoked. *)
Definition backed (session tool : string) (e : Z) (h : list RiskEvent) : Prop :=
  exists after before granted_by reason ttl t0,
    h = after ++ RGranted session tool granted_by reason ttl t0 :: before /\ e = t0 + ttl /\
    0 < ttl <= seconds 86400 /\ granted_by <> "" /\ blank reason = false /\ Forall (fun x => ~ revokes session tool x) after.

(** The history holds the one grant check of the execution, at an instant at which a grant that
    had not been revoked was live. *)
Definition checked (call : nat) (session tool : string) (h : list RiskEvent) : Prop :=
  exists after before t e,
    h = after ++ RChecked call session tool t :: before /\ t < e /\ backed session tool e before /\
    forall s n t', RChecked call s n t' ∉ after /\ RChecked call s n t' ∉ before.

Section desk.
Variable loads : string -> option json.
Variable str_of : json -> string.

Record Execution := { xe_tool : ToolDescriptor; xe_script : CallScript; xe_session : string; xe_point : CallPoint }.
Record Desk := {
  dk_runtime : ToolRuntime;
  dk_running : gmap nat Execution;
  dk_next : nat;
  dk_history : list RiskEvent;
}.
Definition opened (r : ToolRuntime) : Desk := {| dk_runtime := r; dk_running := ∅; dk_next := 0; dk_history := [] |}.
Definition on_desk (x : Desk) (r : ToolRuntime) (h : list RiskEvent) : Desk :=
  {| dk_runtime := r; dk_running := dk_running x; dk_next := dk_next x; dk_history := h |}.

Definition is_invoked (e : ToolEvent) : bool := match e with Invoked _ _ => true | _ => false end.

(** Where an execution is after a stretch; one that returned or raised is gone. *)
Definition placed (call : nat) (d : ToolDescriptor) (sc : CallScript) (session : string)
  (r : result ToolFailure Progress) (m : gmap nat Execution) : gmap nat Execution :=
  match r with
  | Ok (At p) => <[call := {| xe_tool := d; xe_script := sc; xe_session := session; xe_point := p |}]> m
  | _ => delete call m
  end.

(** The first stretch of a new execution at the instant [t]. *)
Definition desk_enter (d : ToolDescriptor) (sc : CallScript) (session : string) (t : Z) (x : Desk) : Desk :=
  let (r, c) := enter d sc session t {| ca_runtime := dk_runtime x; ca_log := [] |} in
  {| dk_runtime := ca_runtime c; dk_running := placed (dk_next x) d sc session r (dk_running x);
     dk_next := S (dk_next x);
     dk_history := match r with
                   | Ok (At _) => if high_risk d then RChecked (dk_next x) session (d_name d) t :: dk_history x
                                  else dk_history x
                   | _ => dk_history x
                   end |}.

(** The next stretch of execution [call] at the instant [t]. *)
Definition desk_resume (call : nat) (t : Z) (e : Execution) (x : Desk) : Desk :=
  let (r, c) := resume loads str_of (xe_tool e) (xe_script e) (xe_point e)
                  {| ca_runtime := dk_runtime x; ca_log := [] |} in
  {| dk_runtime := ca_runtime c;
     dk_running := placed call (xe_tool e) (xe_script e) (xe_session e) r (dk_running x);
     dk_next := dk_next x;
     dk_history := if high_risk (xe_tool e) && existsb is_invoked (ca_log c)
                   then RInvoked call (xe_session e) (d_name (xe_tool e)) t :: dk_history x else dk_history x |}.

Inductive desk_step (x : Desk) : Desk -> Prop :=
| dk_catalog c :
    desk_step x (on_desk x {| tr_catalog := c; tr_grants := tr_grants (dk_runtime x) |} (dk_history x))
| dk_grant s n by_ reason ttl t r' :
    grant_high_risk s n by_ reason ttl t (dk_runtime x) = (Ok (), r') ->
    desk_step x (on_desk x r' (RGranted s n by_ reason ttl t :: dk_history x))
| dk_revoke s n :
    desk_step x (on_desk x (with_grants (revoke s n (tr_grants (dk_runtime x))).2 (dk_runtime x))
                   (RRevoked s n :: dk_history x))
| dk_revoke_session s :
    desk_step x (on_desk x (with_grants (revoke_session s (tr_grants (dk_runtime x))).2 (dk_runtime x))
                   (RRevokedSession s :: dk_history x))
| dk_build req t : desk_step x (on_desk x (build_toolset req t (dk_runtime x)).2 (dk_history x))
| dk_restore s t : desk_step x (on_desk x (restore_toolset s t (dk_runtime x)).2 (dk_history x))
| dk_enter d sc session t : desk_step x (desk_enter d sc session t x)
| dk_resume call t e : dk_running x !! call = Some e -> desk_step x (desk_resume call t e x)
| dk_cancel call :
    desk_step x {| dk_runtime := dk_runtime x; dk_running := delete call (dk_running x); dk_next := dk_next x;
                   dk_history := dk_history x |}.

(** *** The stretches make up [execute] *)

Lemma drive_step d sc fuel p c :
  drive loads str_of d sc (S fuel) p c =
  match resume loads str_of d sc p c with
  | (Ok (Done r), c') => (Ok r, c')
  | (Ok (At p'), c') => drive loads str_of d sc fuel p' c'
  | (Err e, c') => (Err e, c')
  end.
Proof. cbn [drive]. rewrite py_bind_eq. by destruct (resume _ _ _ _ _ _) as [[[r|p']|e] c']. Qed.

Definition logged (c : Call) (l : list ToolEvent) : Call := {| ca_runtime := ca_runtime c; ca_log := ca_log c ++ l |}.

Lemma resume_ready d sc k c :
  Z.of_nat k <= rp_max_attempts (d_retry d) ->
  resume loads str_of d sc (Ready k) c =
  (Ok (At (Awaiting k)), logged c [Audited (d_name d) "attempt" "started" "" (Z.of_nat k); Invoked (d_name d) k]).
Proof.
  intros Hk. cbn [resume]. replace (rp_max_attempts (d_retry d) <? Z.of_nat k) with false by lia.
  rewrite py_bind_eq. cbn. rewrite py_bind_eq. cbn. unfold logged. by rewrite <- app_assoc.
Qed.

Lemma attempts_ready d sc left k c :
  attempts loads str_of d sc (S left) k c =
  (final ← attempt_result loads str_of d (cs_attempt sc k) k;
   if r_ok final || negb (should_retry d final (Z.of_nat k)) then mret final
   else
     _ ← audit d "retry" "error" (kind_of final) (Z.of_nat k);
     _ ← emit (Slept (delay_for (d_retry d) (Z.of_nat k) (cs_draw sc k)));
     match left with O => mret final | S _ => attempts loads str_of d sc left (S k) end)
    (logged c [Audited (d_name d) "attempt" "started" "" (Z.of_nat k); Invoked (d_name d) k]).
Proof.
  cbn [attempts]. unfold audit, emit. rewrite py_bind_eq. cbn [py_modify]. rewrite py_bind_eq. cbn [py_modify ca_runtime ca_log].
  unfold logged. by rewrite <- app_assoc.
Qed.

Lemma drive_attempts d sc left k c :
  Z.of_nat (k + left) = rp_max_attempts (d_retry d) + 1 -> (0 < left)%nat ->
  drive loads str_of d sc (3 * left) (Ready k) c =
  (final ← attempts loads str_of d sc left k;
   _ ← audit d "completed" (if r_ok final then "success" else "error") (kind_of final) (r_attempts final);
   mret final) c.
Proof.
  revert k c. induction left as [|left IH]; intros k c Hk Hpos; [lia|].
  replace (3 * S left)%nat with (S (S (S (3 * left)))) by lia.
  rewrite drive_step, resume_ready, drive_step by lia. cbn [resume]. rewrite !py_bind_eq, attempts_ready, py_bind_eq.
  destruct (attempt_result _ _ _ _ _ _) as [[final|e] c1]; [|done].
  destruct (r_ok final || negb (should_retry d final (Z.of_nat k))) eqn:Hstop; [done|].
  unfold audit at 1 3, emit. rewrite !py_bind_eq. cbn [py_modify]. rewrite !py_bind_eq. cbn [py_modify].
  cbn [mret py_ret]. rewrite drive_step. cbn [resume]. destruct left as [|left].
  - replace (rp_max_attempts (d_retry d) <=? Z.of_nat k) with true by lia. done.
  - replace (rp_max_attempts (d_retry d) <=? Z.of_nat k) with false by lia. cbn [mret py_ret].
    rewrite IH by lia. by rewrite py_bind_eq.
Qed.

(** An execution that is never interrupted is [execute]. *)
Lemma execute_is_its_stretches d sc session t c :
  1 <= rp_max_attempts (d_retry d) ->
  execute loads str_of d sc session t c =
  (q ← enter d sc session t;
   match q with
   | Done r => mret r
   | At p => drive loads str_of d sc (3 * Z.to_nat (rp_max_attempts (d_retry d))) p
   end) c.
Proof.
  intros Hmax. unfold execute, enter. rewrite !py_bind_eq. destruct (_ c) as [[granted|e] c1]; [|done].
  destruct (negb granted); [done|]. destruct (cs_invalid sc); [done|]. cbn [mret py_ret].
  by rewrite drive_attempts by lia.
Qed.

(** *** What a stretch does to the grants *)

Lemma stretch_keeps_runtime (m : Py Call ToolFailure Progress) r l :
  py_inv (fun c => ca_runtime c = r) m -> ca_runtime (m {| ca_runtime := r; ca_log := l |}).2 = r.
Proof. intros Hm. by apply (Hm {| ca_runtime := r; ca_log := l |}). Qed.

Lemma resume_keeps_runtime d sc p r : py_inv (fun c => ca_runtime c = r) (resume loads str_of d sc p).
Proof.
  unfold resume, finish, audit, emit, attempt_result.
  repeat (py_inv_step; try done); try (apply py_inv_modify; intros ? ?; done).
Qed.

Lemma enter_spec d sc session t r res c :
  enter d sc session t {| ca_runtime := r; ca_log := [] |} = (res, c) ->
  tr_grants (ca_runtime c) ⊆ tr_grants r /\
  (high_risk d = true -> forall p, res = Ok (At p) -> granted_at session (d_name d) t (tr_grants r)).
Proof.
  unfold enter. rewrite py_bind_eq. destruct (high_risk d).
  - unfold on_runtime. cbn [ca_runtime ca_log].
    destruct (check_granted_spec session (d_name d) t r) as (r' & Hc & _).
    assert (Hsub : tr_grants r' ⊆ tr_grants r).
    { pose proof (within_run _ r (within_check _ session (d_name d) t)) as Hw. by rewrite Hc in Hw. }
    rewrite Hc. destruct (decide (granted_at session (d_name d) t (tr_grants r))) as [Hg|Hno].
    + rewrite (bool_decide_eq_true_2 _ Hg). cbn [negb]. destruct (cs_invalid sc); by intros [= <- <-].
    + rewrite (bool_decide_eq_false_2 _ Hno). cbn. by intros [= <- <-].
  - cbn [mret py_ret negb]. destruct (cs_invalid sc); by intros [= <- <-].
Qed.

(** ** Every risky execution was granted *)

Definition desk_ok (x : Desk) : Prop :=
  forall s n g, tr_grants (dk_runtime x) !! (s, n) = Some g -> backed s n (rg_expires_at g) (dk_history x).

Lemma backed_later s n e ev h : ~ revokes s n ev -> backed s n e h -> backed s n e (ev :: h).
Proof.
  intros Hev (after & before & by_ & reason & ttl & t0 & -> & Hrest). exists (ev :: after), before, by_, reason, ttl, t0.
  split; [done|]. split_and!; try tauto. constructor; tauto.
Qed.

(** The grants shrink, and the history grows by at most a check or an invocation. *)
Lemma desk_ok_within x x' :
  desk_ok x -> tr_grants (dk_runtime x') ⊆ tr_grants (dk_runtime x) ->
  dk_history x' = dk_history x
    \/ (exists i s n t, dk_history x' = RInvoked i s n t :: dk_history x \/ dk_history x' = RChecked i s n t :: dk_history x) ->
  desk_ok x'.
Proof.
  intros Hok Hsub Hh s n g Hg. eapply lookup_weaken in Hg; [|done]. apply Hok in Hg.
  destruct Hh as [->|(i & s' & n' & t & [->| ->])]; [done| |]; (apply backed_later; [|done]); by intros [|].
Qed.

Lemma grant_inv s n by_ reason ttl t r r' :
  grant_high_risk s n by_ reason ttl t r = (Ok (), r') ->
  (by_ <> "" /\ blank reason = false /\ 0 < ttl <= seconds 86400) /\
  tr_grants r' = <[(s, n) := {| rg_granted_by := by_; rg_reason := reason; rg_expires_at := t + ttl |}]> (tr_grants r).
Proof.
  unfold grant_high_risk. rewrite py_bind_eq. cbn [py_gets]. destruct (tc_descriptors _ !! n); [|done].
  destruct (negb _); [done|]. rewrite py_bind_eq. cbn [py_gets]. unfold risk_grant. destruct (_ || _) eqn:Hbad; [done|].
  intros [= <-]. split; [|done]. rewrite !orb_false_iff in Hbad. destruct Hbad as ((((_ & Hb) & Hr) & H0) & H1).
  apply String.eqb_neq in Hb. apply Z.leb_gt in H0. apply Z.ltb_ge in H1. by repeat split.
Qed.

Lemma desk_resume_runtime call t e x : dk_runtime (desk_resume call t e x) = dk_runtime x.
Proof.
  unfold desk_resume. pose proof (stretch_keeps_runtime _ (dk_runtime x) [] (resume_keeps_runtime (xe_tool e) (xe_script e) (xe_point e) (dk_runtime x))) as H.
  destruct (resume _ _ _ _ _ _) as [r c]. exact H.
Qed.

Lemma desk_ok_step x x' : desk_step x x' -> desk_ok x -> desk_ok x'.
Proof.
  intros [c|s n by_ reason ttl t r' Hg|s n|s|req t|sn t|d sc session t|call t e _|call] Hok.
  - done.
  - apply grant_inv in Hg as ((Hb & Hr & Ht) & Hg). intros s' n' g. cbn. rewrite Hg.
    intros [[[= <- <-] <-]|[_ Hold]]%lookup_insert_Some.
    + exists [], (dk_history x), by_, reason, ttl, t. cbn. repeat split; try done; lia.
    + apply backed_later; [by intros [|]|]. by apply Hok.
  - intros s' n' g Hg. cbn in Hg. apply lookup_delete_Some in Hg as [Hne Hg]. apply backed_later; [|by apply Hok].
    intros [[= <- <-]|]; [by destruct Hne|done].
  - intros s' n' g Hg. cbn in Hg. apply map_lookup_filter_Some in Hg as [Hg Hne].
    apply backed_later; [|by apply Hok]. intros [|[= <-]]; [done|by apply Hne].
  - apply (desk_ok_within x); [done| |by left]. apply within_run, within_build.
  - apply (desk_ok_within x); [done| |by left]. apply within_run, within_restore.
  - unfold desk_enter. destruct (enter _ _ _ _ _) as [r c] eqn:He. apply enter_spec in He as [Hsub _].
    apply (desk_ok_within x); [done|done|]. cbn. destruct r as [[|p]|]; [by left| |by left].
    destruct (high_risk d); [right; eauto 6|by left].
  - apply (desk_ok_within x); [done|by rewrite desk_resume_runtime|]. unfold desk_resume.
    destruct (resume _ _ _ _ _ _) as [r c]. cbn. destruct (_ && _); [right; eauto 6|by left].
  - apply (desk_ok_within x); [done|done|by left].
Qed.

(** Numbers of checks are below the counter. *)
Definition numbered_below (k : nat) (h : list RiskEvent) : Prop := forall i s n t, RChecked i s n t ∈ h -> (i < k)%nat.

Definition other_event (call : nat) (ev : RiskEvent) : Prop := forall s n t, ev <> RChecked call s n t.

Lemma checked_later call s n ev h : other_event call ev -> checked call s n h -> checked call s n (ev :: h).
Proof.
  intros Hev (after & before & t & e & -> & Ht & Hb & Hno). exists (ev :: after), before, t, e.
  split; [done|]. do 2 (split; [done|]). intros s' n' t'. split; [|apply Hno].
  rewrite not_elem_of_cons. split; [intros Heq; exact (Hev _ _ _ (eq_sym Heq))|apply Hno].
Qed.

Lemma checked_now call s n t h :
  numbered_below call h -> (exists e, t < e /\ backed s n e h) -> checked call s n (RChecked call s n t :: h).
Proof.
  intros Hn (e & Ht & Hb). exists [], h, t, e. do 3 (split; [done|]). intros s' n' t'. split; [apply not_elem_of_nil|].
  intros Hin%Hn. lia.
Qed.

(** Every risky execution that is under way, and every risky invocation, has been checked. *)
Definition running_checked (x : Desk) : Prop :=
  forall call e, dk_running x !! call = Some e ->
    (call < dk_next x)%nat /\ (high_risk (xe_tool e) = true -> checked call (xe_session e) (d_name (xe_tool e)) (dk_history x)).
Definition invocations_checked (h : list RiskEvent) : Prop :=
  forall newer call s n t older, h = newer ++ RInvoked call s n t :: older -> checked call s n older.

Record desk_inv (x : Desk) : Prop := {
  di_grants : desk_ok x;
  di_numbers : numbered_below (dk_next x) (dk_history x);
  di_running : running_checked x;
  di_invocations : invocations_checked (dk_history x);
}.

Lemma invocations_checked_cons ev h :
  invocations_checked h -> (forall call s n t, ev = RInvoked call s n t -> checked call s n h) -> invocations_checked (ev :: h).
Proof.
  intros Hh Hev [|x newer] call s n t older He; injection He as -> ->; [by eapply Hev|]. by eapply Hh.
Qed.

(** A step that starts nothing and invokes nothing. *)
Lemma desk_inv_event x x' ev :
  desk_inv x -> desk_ok x' -> dk_next x' = dk_next x -> dk_running x' = dk_running x ->
  dk_history x' = dk_history x \/ (dk_history x' = ev :: dk_history x /\ (forall call, other_event call ev)
                                   /\ forall call s n t, ev <> RInvoked call s n t) ->
  desk_inv x'.
Proof.
  intros [Hg Hn Hr Hi] Hg' Hnext Hrun Hh. unfold running_checked in *. split; [done| | |].
  - rewrite Hnext. destruct Hh as [->|(-> & Ho & _)]; [done|]. intros i s n t [Heq|Hin]%elem_of_cons; [|by eapply Hn].
    by destruct (Ho i s n t).
  - intros call e He. rewrite Hnext. rewrite Hrun in He. destruct (Hr _ _ He) as [Hlt Hc]. split; [done|].
    intros Hh'. destruct Hh as [->|(-> & Ho & _)]; [by apply Hc|]. apply checked_later; [done|by apply Hc].
  - destruct Hh as [->|(-> & _ & Hno)]; [done|]. apply invocations_checked_cons; [done|]. intros ???? ->. by edestruct Hno.
Qed.

Lemma placed_lookup call d sc session r m i e :
  placed call d sc session r m !! i = Some e ->
  (i <> call /\ m !! i = Some e)
  \/ (i = call /\ exists p, r = Ok (At p) /\ e = {| xe_tool := d; xe_script := sc; xe_session := session; xe_point := p |}).
Proof.
  destruct r as [[r|p]|err]; cbn; [intros [? ?]%lookup_delete_Some; left; split; congruence| |
    intros [? ?]%lookup_delete_Some; left; split; congruence].
  intros [[<- <-]|[? ?]]%lookup_insert_Some; [right|left; split; congruence]. eauto.
Qed.

Lemma desk_inv_enter d sc session t x : desk_inv x -> desk_inv (desk_enter d sc session t x).
Proof.
  intros Hx. assert (Hok := desk_ok_step _ _ (dk_enter x d sc session t) (di_grants _ Hx)).
  revert Hok. destruct Hx as [Hg Hn Hr Hi]. unfold desk_enter.
  destruct (enter _ _ _ _ _) as [r c] eqn:He. apply enter_spec in He as [_ Hgr]. intros Hok.
  set (h' := match r with Ok (At _) => _ | _ => _ end) in *.
  assert (Hh : h' = dk_history x \/ (h' = RChecked (dk_next x) session (d_name d) t :: dk_history x
                 /\ exists e, t < e /\ backed session (d_name d) e (dk_history x))).
  { unfold h'. destruct r as [[|p]|]; [by left| |by left]. destruct (high_risk d); [right|by left].
    split; [done|]. destruct (Hgr eq_refl p eq_refl) as (g & Hk & Ht). exists (rg_expires_at g). split; [done|by apply Hg]. }
  split; [done| | |]; cbn.
  - intros i s n t'. destruct Hh as [->|[-> _]]; [intros Hin%Hn; lia|].
    intros [[= -> _ _ _]|Hin%Hn]%elem_of_cons; lia.
  - intros call e [[Hne He]|(-> & p & -> & ->)]%placed_lookup; cbn.
    + destruct (Hr _ _ He) as [Hlt Hc]. split; [lia|]. intros Hhr. destruct Hh as [->|[-> _]]; [by apply Hc|].
      apply checked_later; [intros s n t'; congruence|by apply Hc].
    + split; [lia|]. intros Hhr. unfold h'. rewrite Hhr. apply checked_now; [done|].
      destruct (Hgr Hhr p eq_refl) as (g & Hk & Ht). exists (rg_expires_at g). split; [done|by apply Hg].
  - destruct Hh as [->|[-> _]]; [done|]. by apply invocations_checked_cons.
Qed.

Lemma desk_inv_resume call t e x : dk_running x !! call = Some e -> desk_inv x -> desk_inv (desk_resume call t e x).
Proof.
  intros He Hx. assert (Hok := desk_ok_step _ _ (dk_resume x call t e He) (di_grants _ Hx)).
  revert Hok. destruct Hx as [Hg Hn Hr Hi]. unfold desk_resume. destruct (resume _ _ _ _ _ _) as [r c]. intros Hok.
  destruct (Hr _ _ He) as [Hlt Hc]. set (ev := RInvoked call (xe_session e) (d_name (xe_tool e)) t) in *.
  set (h' := if _ && _ then _ else _) in *.
  assert (Hh : h' = dk_history x \/ (h' = ev :: dk_history x /\ high_risk (xe_tool e) = true)).
  { unfold h'. destruct (high_risk (xe_tool e)); [|by left]. cbn. destruct (existsb _ _); [by right|by left]. }
  assert (Hlater : forall i s n, checked i s n (dk_history x) -> checked i s n h').
  { intros i s n Hch. destruct Hh as [->|[-> _]]; [done|]. by apply checked_later. }
  split; [done| | |]; cbn.
  - intros i s n t'. destruct Hh as [->|[-> _]]; [apply Hn|]. intros [?|Hin%Hn]%elem_of_cons; [done|lia].
  - intros i e' [[Hne He']|(-> & p & -> & ->)]%placed_lookup; cbn.
    + destruct (Hr _ _ He') as [Hlt' Hc']. split; [done|]. intros Hhr. by apply Hlater, Hc'.
    + split; [done|]. intros Hhr. by apply Hlater, Hc.
  - destruct Hh as [->|[-> Hhr]]; [done|]. apply invocations_checked_cons; [done|]. intros ???? [= <- <- <- <-]. by apply Hc.
Qed.

Lemma desk_inv_step x x' : desk_step x x' -> desk_inv x -> desk_inv x'.
Proof.
  intros Hs Hx. assert (Hok := desk_ok_step _ _ Hs (di_grants _ Hx)). destruct Hs as [c|s n by_ reason ttl t r' _|s n|s|req t|sn t|d sc session t|call t e He|call].
  - eapply (desk_inv_event x _ (RRevokedSession "")); [done..|by left].
  - eapply (desk_inv_event x); [done..|right]. by split.
  - eapply (desk_inv_event x); [done..|right]. by split.
  - eapply (desk_inv_event x); [done..|right]. by split.
  - eapply (desk_inv_event x _ (RRevokedSession "")); [done..|by left].
  - eapply (desk_inv_event x _ (RRevokedSession "")); [done..|by left].
  - by apply desk_inv_enter.
  - by apply desk_inv_resume.
  - destruct Hx as [Hg Hn Hr Hi]. split; [done|done| |done]. intros i e He. cbn in He. apply lookup_delete_Some in He as [_ He]. by apply Hr.
Qed.

Lemma desk_inv_reachable r x : tr_grants r = ∅ -> rtc desk_step (opened r) x -> desk_inv x.
Proof.
  intros Hempty. apply (rtc_ind_r desk_inv).
  - split; [| | |].
    + intros s n g Hg. cbn in Hg. by rewrite Hempty, lookup_empty in Hg.
    + intros i s n t Hin. by apply elem_of_nil in Hin.
    + intros call e He. cbn in He; by apply lookup_empty_Some in He.
    + by intros [|] ?????.
  - intros y z _ Hs Hy. by eapply desk_inv_step.
Qed.

(** C8: whatever is granted, revoked, resolved, restored, executed and cancelled, interleaved in
    any way and with any clock, the executor invokes a high-risk tool only in an execution that
    was checked once, before the invocation, and at the instant of that check the session had a
    live grant of the tool: named, with a reason, for at most a day that was not over, and not
    revoked before the check.  (The grant may have ended between the check and the invocation:
    [revoked_while_sleeping].) *)
Theorem high_risk_invocation_was_granted r x newer call s n t older :
  tr_grants r = ∅ -> rtc desk_step (opened r) x ->
  dk_history x = newer ++ RInvoked call s n t :: older -> checked call s n older.
Proof. intros Hempty Hrun Hh. by eapply (di_invocations _ (desk_inv_reachable _ _ Hempty Hrun)). Qed.
End desk.

(** ** A shell tool, granted once *)

Definition shell_tool : ToolDescriptor :=
  {| d_name := "shell"; d_source := BUILTIN; d_provider := "core"; d_version := "1"; d_category := "ops"; d_prompt_priority := 0;
     d_scopes := [WORKER]; d_capabilities := {["ops.shell"]}; d_risk := CRITICAL; d_read_only := false; d_idempotent := false;
     d_concurrency_safe := false; d_exclusive := true; d_lock_scope := GLOBAL; d_timeout := seconds 30; d_max_concurrency := 1;
     d_retry := default_retry; d_enabled := true; d_factory_name := "shell" |}.
Definition shell_runtime : ToolRuntime :=
  {| tr_catalog := {| tc_descriptors := {["shell" := shell_tool]}; tc_revision := 1 |}; tr_grants := ∅ |}.
Definition shell_request : ToolGrantRequest :=
  {| gr_role := WORKER; gr_session_id := "s"; gr_profile := "p"; gr_allowed_tools := {["shell"]}; gr_allowed_capabilities := ∅;
     gr_denied_tools := ∅; gr_denied_capabilities := ∅; gr_allow_high_risk := true |}.
Definition granted_shell : ToolRuntime := (grant_high_risk "s" "shell" "admin" "repair" (seconds 60) 0 shell_runtime).2.
Definition shell_script : CallScript :=
  {| cs_invalid := None; cs_attempt := fun _ => Returned (OText "done"); cs_draw := fun _ d => d |}.

Lemma resolve_grants_exactly_witness :
  exists s r', resolve shell_request 0 granted_shell = (Ok s, r') /\ "shell" ∈ sn_granted_tools s.
Proof.
  assert (Hok : catalog_ok (tr_catalog granted_shell)).
  { change (catalog_ok (tr_catalog shell_runtime)). intros n d Hn. cbn in Hn. apply lookup_singleton_Some in Hn as [<- <-]. reflexivity. }
  destruct (resolve_grants_exactly shell_request 0 granted_shell Hok) as [[[n [Hn Hnone]] _]|(s & r' & Hr & Hall)].
  - exfalso. cbn in Hn. apply elem_of_singleton in Hn as ->. vm_compute in Hnone. discriminate.
  - exists s, r'. split; [exact Hr|]. apply Hall. exists shell_tool. split; [reflexivity|].
    split; [reflexivity|]. split; [left|]. split; [left; cbn; by apply elem_of_singleton|]. split; [apply not_elem_of_empty|].
    split; [apply intersection_empty_r_L|]. intros _. split; [reflexivity|]. eexists. split; reflexivity.
Defined.

(** A desk on which the tool is granted, an execution enters and starts its tool. *)
Abbreviation desk_step' := (desk_step (fun _ => None) (fun _ => "")).
Abbreviation desk_resume' := (desk_resume (fun _ => None) (fun _ => "")).

Definition flaky_tool : ToolDescriptor :=
  {| d_name := "shell"; d_source := BUILTIN; d_provider := "core"; d_version := "1"; d_category := "ops"; d_prompt_priority := 0;
     d_scopes := [WORKER]; d_capabilities := {["ops.shell"]}; d_risk := CRITICAL; d_read_only := false; d_idempotent := true;
     d_concurrency_safe := false; d_exclusive := true; d_lock_scope := GLOBAL; d_timeout := seconds 30; d_max_concurrency := 1;
     d_retry := {| rp_max_attempts := 2; rp_base_delay := seconds 1; rp_max_delay := seconds 8; rp_jitter_millionths := 0;
                   rp_retryable_kinds := {["timeout"]} |}; d_enabled := true; d_factory_name := "shell" |}.
Definition flaky_script : CallScript :=
  {| cs_invalid := None; cs_attempt := fun k => if (k =? 1)%nat then TimedOut else Returned (OText "done");
     cs_draw := fun _ d => d |}.

Definition desk1 : Desk :=
  on_desk (opened shell_runtime) granted_shell [RGranted "s" "shell" "admin" "repair" (seconds 60) 0].
Definition desk2 : Desk := desk_enter flaky_tool flaky_script "s" 5 desk1.
Definition at_point (p : CallPoint) : Execution :=
  {| xe_tool := flaky_tool; xe_script := flaky_script; xe_session := "s"; xe_point := p |}.
Definition desk3 : Desk := desk_resume' 0 6 (at_point (Ready 1)) desk2.

Lemma desk3_reachable : rtc desk_step' (opened shell_runtime) desk3.
Proof.
  eapply rtc_l; [apply (dk_grant _ _ (opened shell_runtime) "s" "shell" "admin" "repair" (seconds 60) 0 granted_shell); vm_compute; reflexivity|].
  change (on_desk _ _ _) with desk1. eapply rtc_l; [apply (dk_enter _ _ desk1 flaky_tool flaky_script "s" 5)|].
  apply rtc_once. apply (dk_resume _ _ desk2 0 6). vm_compute. reflexivity.
Qed.

(** The attempt times out, the call sleeps, the grant is revoked, the call invokes the tool again. *)
Definition timed_out : ToolExecutionResult :=
  failure "shell" (error_of "timeout" ("tool timed out after " +:+ pretty (seconds 30)) true) 1.
Definition desk4 : Desk := desk_resume' 0 36 (at_point (Awaiting 1)) desk3.
Definition desk5 : Desk :=
  on_desk desk4 (with_grants (revoke "s" "shell" (tr_grants (dk_runtime desk4))).2 (dk_runtime desk4))
    (RRevoked "s" "shell" :: dk_history desk4).
Definition desk6 : Desk := desk_resume' 0 37 (at_point (Sleeping 1 timed_out)) desk5.
Definition desk7 : Desk := desk_resume' 0 38 (at_point (Ready 2)) desk6.

Lemma revoked_while_sleeping :
  rtc desk_step' (opened shell_runtime) desk7 /\
  dk_history desk7 = [RInvoked 0 "s" "shell" 38; RRevoked "s" "shell"; RInvoked 0 "s" "shell" 6;
                      RChecked 0 "s" "shell" 5; RGranted "s" "shell" "admin" "repair" (seconds 60) 0].
Proof.
  split; [|vm_compute; reflexivity]. etransitivity; [exact desk3_reachable|].
  eapply rtc_l; [apply (dk_resume _ _ desk3 0 36 (at_point (Awaiting 1))); vm_compute; reflexivity|].
  change (desk_resume _ _ 0 36 _ _) with desk4.
  eapply rtc_l; [apply (dk_revoke _ _ desk4 "s" "shell")|]. change (on_desk desk4 _ _) with desk5.
  eapply rtc_l; [apply (dk_resume _ _ desk5 0 37 (at_point (Sleeping 1 timed_out))); vm_compute; reflexivity|].
  change (desk_resume _ _ 0 37 _ _) with desk6.
  apply rtc_once. apply (dk_resume _ _ desk6 0 38 (at_point (Ready 2))). vm_compute. reflexivity.
Qed.

Lemma high_risk_invocation_was_granted_witness :
  dk_history desk3 = [] ++ RInvoked 0 "s" "shell" 6 ::
    [RChecked 0 "s" "shell" 5; RGranted "s" "shell" "admin" "repair" (seconds 60) 0] /\
  checked 0 "s" "shell" [RChecked 0 "s" "shell" 5; RGranted "s" "shell" "admin" "repair" (seconds 60) 0].
Proof.
  assert (Hh : dk_history desk3 = [] ++ RInvoked 0 "s" "shell" 6 ::
    [RChecked 0 "s" "shell" 5; RGranted "s" "shell" "admin" "repair" (seconds 60) 0]) by (vm_compute; reflexivity).
  split; [exact Hh|].
  exact (high_risk_invocation_was_granted (fun _ => None) (fun _ => "") shell_runtime desk3 [] 0 "s" "shell" 6 _ eq_refl
           desk3_reachable Hh).
Defined.

(** * retries, batches and bounds of what a call brings back

    An execution invokes its tool again only where repeating is safe and the failure may pass; a
    batch of calls runs the unsafe ones alone; the details of an error and the content shown to
    the model are bounded. *)

(** ** Retries *)

(** The numbers of the attempts a log has invoked. *)
Definition invocations (l : list ToolEvent) : list nat := omap (fun e => match e with Invoked _ k => Some k | _ => None end) l.

(** An attempt whose failure the policy of the tool expects to pass. *)
Definition transient (d : ToolDescriptor) (a : Attempt) : Prop :=
  match a with
  | TimedOut => "timeout" ∈ rp_retryable_kinds (d_retry d)
  | Raised e => (classify_exception e).2 = true /\ (classify_exception e).1 ∈ rp_retryable_kinds (d_retry d)
  | Returned _ | Cancelled => False
  end.

Section tool_promises.
Variable loads : string -> option json.
Variable str_of : json -> string.

Abbreviation outcome d sc k := (attempt_result loads str_of d (cs_attempt sc k) k).

Lemma detected_is_final o e : detect_tool_error loads str_of o = Some e -> te_retryable e = false.
Proof.
  assert (Hs : forall l e, structured_tool_error str_of l = Some e -> te_retryable e = false).
  { intros l e'. unfold structured_tool_error. repeat case_match; intros [=]; by subst. }
  unfold detect_tool_error. repeat case_match; intros He; first [done|by apply Hs in He|by injection He as <-].
Qed.

Lemma should_retry_error d kind message b k :
  should_retry d (failure (d_name d) (error_of kind message b) k) k = true <->
  b = true /\ kind ∈ rp_retryable_kinds (d_retry d) /\ k < rp_max_attempts (d_retry d) /\ repeatable d = true.
Proof. unfold should_retry. cbn. rewrite !andb_true_iff, bool_decide_eq_true, Z.ltb_lt. tauto. Qed.

(** What an attempt comes to does not depend on the log, and decides whether another follows. *)
Lemma outcome_cases d sc k :
  (cs_attempt sc k = Cancelled /\ forall s, outcome d sc k s = (Err CancelledError, s)) \/
  exists r, (forall s, outcome d sc k s = (Ok r, s)) /\
    (r_ok r || negb (should_retry d r (Z.of_nat k)) = false <->
     repeatable d = true /\ transient d (cs_attempt sc k) /\ Z.of_nat k < rp_max_attempts (d_retry d)).
Proof.
  destruct (cs_attempt sc k) as [o| |e|] eqn:Ha; cbn [attempt_result transient]; [right|right|right|by left].
  - destruct (detect_tool_error loads str_of o) as [e|] eqn:Ho.
    + eexists. split; [reflexivity|]. apply detected_is_final in Ho. unfold should_retry. cbn. rewrite Ho. cbn. split; [done|tauto].
    + eexists. split; [reflexivity|]. cbn. split; [done|tauto].
  - eexists. split; [reflexivity|]. rewrite orb_false_iff, negb_false_iff, should_retry_error, andb_true_iff, bool_decide_eq_true.
    cbn. tauto.
  - destruct (classify_exception e) as [kind retryable]. eexists. split; [reflexivity|].
    rewrite orb_false_iff, negb_false_iff, should_retry_error, !andb_true_iff, bool_decide_eq_true. cbn. tauto.
Qed.

(** The attempts numbered from [k] on: how many there were, and how the last one ended. *)
Definition retried_run (d : ToolDescriptor) (sc : CallScript) (k n : nat) (r : result ToolFailure ToolExecutionResult) : Prop :=
  (forall i, (k <= i < k + n)%nat -> S i <> (k + n)%nat -> repeatable d = true /\ transient d (cs_attempt sc i)) /\
  (0 < n)%nat /\ (forall s, outcome d sc (k + n - 1) s = (r, s)) /\
  (Z.of_nat (k + n - 1) < rp_max_attempts (d_retry d) -> ~ (repeatable d = true /\ transient d (cs_attempt sc (k + n - 1)))).

Lemma invocations_snoc l e : invocations (l ++ [e]) = invocations l ++ invocations [e].
Proof. unfold invocations. by rewrite omap_app. Qed.

Lemma attempts_spec d sc left k c :
  Z.of_nat (k + left) = rp_max_attempts (d_retry d) + 1 -> (0 < left)%nat ->
  exists n r c', attempts loads str_of d sc left k c = (r, c') /\ (n <= left)%nat /\ retried_run d sc k n r /\
    invocations (ca_log c') = invocations (ca_log c) ++ seq k n.
Proof.
  revert k c. induction left as [|left IH]; intros k c Hk Hpos; [lia|]. cbn [attempts]. unfold audit, emit.
  rewrite py_bind_eq. cbn [py_modify ca_runtime ca_log]. rewrite py_bind_eq. cbn [py_modify ca_runtime ca_log].
  rewrite py_bind_eq. destruct (outcome_cases d sc k) as [[Ha Hc]|(r & Hr & Hmore)].
  - exists 1%nat, (Err CancelledError). eexists. rewrite Hc. split; [reflexivity|]. split_and!; [lia| |].
    + unfold retried_run. replace (k + 1 - 1)%nat with k by lia. split_and!; [intros; lia|lia|exact Hc|]. rewrite Ha. cbn. tauto.
    + cbn. rewrite !invocations_snoc. cbn. by rewrite app_nil_r.
  - rewrite Hr. destruct (r_ok r || negb (should_retry d r (Z.of_nat k))) eqn:Hstop.
    + exists 1%nat, (Ok r). eexists. split; [reflexivity|]. split_and!; [lia| |].
      * unfold retried_run. replace (k + 1 - 1)%nat with k by lia. split_and!; [intros; lia|lia|done|].
        intros Hlt [H1 H2]. discriminate (proj2 Hmore (conj H1 (conj H2 Hlt))).
      * cbn. rewrite !invocations_snoc. cbn. by rewrite app_nil_r.
    + destruct (proj1 Hmore eq_refl) as (Hrep & Htr & Hlt). rewrite py_bind_eq. cbn [py_modify ca_runtime ca_log].
      rewrite py_bind_eq. cbn [py_modify ca_runtime ca_log]. destruct left as [|left]; [lia|].
      match goal with |- context [attempts _ _ d sc (S left) (S k) ?c1] =>
        destruct (IH (S k) c1) as (n & r' & c' & Hrun & Hn & Hlast & Hlog); [lia|lia|] end.
      exists (S n), r', c'. rewrite Hrun. split; [done|]. split_and!; [lia| |].
      * destruct Hlast as (Hearlier & Hn0 & Hout & Hend). unfold retried_run.
        replace (k + S n)%nat with (S k + n)%nat by lia. split_and!; [|lia|done|done].
        intros i Hi Hne. destruct (decide (i = k)) as [->|]; [done|]. apply Hearlier; lia.
      * rewrite Hlog. cbn. rewrite !invocations_snoc. cbn. by rewrite !app_nil_r, <- app_assoc.
Qed.

Lemma bind_audit {A} d phase outcome_ kind n (f : () -> Py Call ToolFailure A) c :
  (audit d phase outcome_ kind n ≫= f) c = f () {| ca_runtime := ca_runtime c; ca_log := ca_log c ++ [Audited (d_name d) phase outcome_ kind n] |}.
Proof. done. Qed.

(** C9: an execution invokes its tool at most as often as its retry policy allows; it invokes again
    only a tool that reads or is idempotent, and only after a timeout, a rate limit or a network
    failure the policy names, and then always, as long as an attempt is left; what it returns is
    what the last attempt came to.  Without an invocation it returns a failure. *)
Theorem tool_repeated_only_when_safe d sc session t r :
  let '(res, c) := execute loads str_of d sc session t {| ca_runtime := r; ca_log := [] |} in
  exists n, invocations (ca_log c) = seq 1 n /\ Z.of_nat n <= Z.max 0 (rp_max_attempts (d_retry d)) /\
    (retried_run d sc 1 n res \/
     n = 0%nat /\ match res with Ok f => r_ok f = false | Err _ => rp_max_attempts (d_retry d) < 1 end).
Proof.
  destruct (execute _ _ _ _ _ _ _) as [res c] eqn:Hrun. unfold execute in Hrun. rewrite py_bind_eq in Hrun.
  assert (Hgate : exists b r0, (if high_risk d then on_runtime (check_granted session (d_name d) t) else mret true)
                    {| ca_runtime := r; ca_log := [] |} = (Ok b, {| ca_runtime := r0; ca_log := [] |})).
  { destruct (high_risk d); [|by eexists _, _]. unfold on_runtime. cbn.
    destruct (check_granted_spec session (d_name d) t r) as (r' & -> & _). by eexists _, _. }
  destruct Hgate as (b & r0 & Hgate). rewrite Hgate in Hrun. destruct b; cbn [negb] in Hrun; rewrite ?bind_audit in Hrun.
  - destruct (cs_invalid sc) as [m|].
    + rewrite bind_audit in Hrun. injection Hrun as <- <-. exists 0%nat. by split_and!; [|lia|right].
    + rewrite py_bind_eq in Hrun. destruct (decide (1 <= rp_max_attempts (d_retry d))) as [Hpos|Hneg].
      * destruct (attempts_spec d sc (Z.to_nat (rp_max_attempts (d_retry d))) 1 {| ca_runtime := r0; ca_log := [] |})
          as (n & r' & c' & Ha & Hn & Hrun' & Hlog); [lia|lia|]. rewrite Ha in Hrun. exists n.
        assert (res = r' /\ invocations (ca_log c) = invocations (ca_log c')) as [-> ->].
        { destruct r' as [f|e]; [rewrite bind_audit in Hrun|]; injection Hrun as <- <-; split; try done.
          cbn. rewrite invocations_snoc. cbn. by rewrite app_nil_r. }
        split_and!; [done|lia|by left].
      * rewrite (Z2Nat.nonpos (rp_max_attempts (d_retry d))) in Hrun by lia. injection Hrun as <- <-. exists 0%nat.
        split_and!; [done|lia|right; split; [done|lia]].
  - injection Hrun as <- <-. exists 0%nat. by split_and!; [|lia|right].
Qed.
End tool_promises.

(** ** Batches *)

Inductive TraceEvent := Began (call : nat) | Ended (call : nat).
Definition call_of (e : TraceEvent) : nat := match e with Began i => i | Ended i => i end.

(** What a batch does when its calls return: a call alone begins and ends; calls started together
    begin and end in any interleaving. *)
Definition batch_calls (b : Batch) : list nat := match b with Alone i => [i] | Together l => l end.
Definition batch_trace (b : Batch) (tr : list TraceEvent) : Prop :=
  match b with
  | Alone i => tr = [Began i; Ended i]
  | Together l => tr ≡ₚ (Began <$> l) ++ (Ended <$> l)
                  /\ forall i, i ∈ l -> exists a b c, tr = a ++ Began i :: b ++ Ended i :: c
  end.

Lemma batch_trace_calls b tr i : batch_trace b tr -> i ∈ call_of <$> tr -> i ∈ batch_calls b.
Proof.
  destruct b as [j|l]; [intros ->; cbn; set_solver|]. intros [Hp _]. rewrite Hp, fmap_app, elem_of_app, <- !list_fmap_compose.
  rewrite !list_elem_of_fmap. cbn. intros [(j & -> & Hj)|(j & -> & Hj)]; done.
Qed.

Lemma flush_calls l : flush l ≫= batch_calls = l.
Proof. destruct l; [done|]. cbn. by rewrite app_nil_r. Qed.

Lemma batches_calls t batch k names : batches t batch k names ≫= batch_calls = batch ++ seq k (length names).
Proof.
  revert batch k. induction names as [|n names IH]; intros batch k; cbn [batches length seq].
  - by rewrite flush_calls, app_nil_r.
  - destruct (batchable t n).
    + by rewrite IH, <- app_assoc.
    + rewrite bind_app, flush_calls. cbn [mbind list_bind batch_calls]. rewrite IH. done.
Qed.

Lemma batches_alone t batch k names i :
  (forall j, j ∈ batch -> (j < k)%nat) -> (k <= i)%nat ->
  names !! (i - k)%nat ≫= (fun n => if batchable t n then None else Some ()) = Some () ->
  exists before after, batches t batch k names = before ++ Alone i :: after.
Proof.
  revert batch k. induction names as [|n names IH]; intros batch k Hb Hi Hn; [done|]. cbn [batches].
  destruct (decide (i = k)) as [->|Hne].
  - rewrite Nat.sub_diag in Hn. cbn in Hn. destruct (batchable t n); [done|]. by eexists _, _.
  - replace (i - k)%nat with (S (i - S k)) in Hn by lia. cbn in Hn. destruct (batchable t n).
    + apply IH; [|lia|done]. intros j [Hj|Hj%list_elem_of_singleton]%elem_of_app; [apply Hb in Hj; lia|lia].
    + destruct (IH [] (S k)) as (before & after & ->); [set_solver|lia|done|].
      by exists (flush batch ++ Alone k :: before), after; rewrite <- app_assoc.
Qed.

Lemma traces_calls bs traces :
  Forall2 batch_trace bs traces ->
  concat traces ≡ₚ (Began <$> bs ≫= batch_calls) ++ (Ended <$> bs ≫= batch_calls).
Proof.
  induction 1 as [|b tr bs traces Hb _ IH]; [done|]. cbn [concat mbind list_bind]. rewrite IH, !fmap_app.
  assert (Htr : tr ≡ₚ (Began <$> batch_calls b) ++ (Ended <$> batch_calls b)) by (destruct b as [i|l]; [cbn in Hb; by subst|apply Hb]).
  rewrite Htr. solve_Permutation.
Qed.

Lemma trace_members bs traces j :
  Forall2 batch_trace bs traces -> j ∈ call_of <$> concat traces <-> j ∈ bs ≫= batch_calls.
Proof.
  intros H. rewrite (traces_calls _ _ H), fmap_app, elem_of_app, <- !list_fmap_compose.
  assert (Hid : forall (f : nat -> TraceEvent) (l : list nat), (forall k, call_of (f k) = k) -> (call_of ∘ f) <$> l = l).
  { intros f l Hf. induction l as [|k l IH]; [done|]. cbn. by rewrite Hf, IH. }
  rewrite !Hid by done. tauto.
Qed.

Lemma batch_ordered bs traces i :
  Forall2 batch_trace bs traces -> i ∈ bs ≫= batch_calls -> exists a b c, concat traces = a ++ Began i :: b ++ Ended i :: c.
Proof.
  induction 1 as [|b tr bs traces Hb _ IH]; [by intros ?%elem_of_nil|]. cbn [mbind list_bind concat].
  intros [Hi|Hi]%elem_of_app.
  - assert (Htr : exists a b' c, tr = a ++ Began i :: b' ++ Ended i :: c).
    { destruct b as [j|l]; [|by apply Hb]. apply list_elem_of_singleton in Hi as ->. by exists [], [], []. }
    destruct Htr as (a & b' & c & ->). exists a, b', (c ++ concat traces). cbn. by rewrite <- !app_assoc; cbn; rewrite <- app_assoc.
  - destruct (IH Hi) as (a & b' & c & ->). exists (tr ++ a), b', c. by rewrite <- app_assoc.
Qed.

Lemma seq_split l1 i l2 n : l1 ++ i :: l2 = seq 0 n -> l1 = seq 0 i /\ l2 = seq (S i) (n - S i).
Proof.
  intros H. assert (Hlen : length l1 = i).
  { assert (Hat : seq 0 n !! length l1 = Some i) by (rewrite <- H; by apply list_lookup_middle).
    apply lookup_seq in Hat as [Hat _]. lia. }
  assert (Hn : (i < n)%nat).
  { apply (f_equal length) in H. rewrite length_app, length_seq in H. cbn in H. lia. }
  replace n with (i + S (n - S i))%nat in H at 1 by lia. rewrite seq_app in H. cbn in H.
  apply app_inj_1 in H as [-> [= ->]]; [done|]. by rewrite length_seq.
Qed.

(** C26: calls made together are executed once each, a call begins before it ends, and a call whose tool may not run beside others
    (or is not granted) runs alone: every call before it has ended when it begins, and every call
    after it begins when it has ended. *)
Theorem unsafe_call_runs_alone t names traces :
  Forall2 batch_trace (execute_many t names) traces ->
  concat traces ≡ₚ (Began <$> seq 0 (length names)) ++ (Ended <$> seq 0 (length names)) /\
  (forall i, (i < length names)%nat -> exists a b c, concat traces = a ++ Began i :: b ++ Ended i :: c) /\
  forall i n, names !! i = Some n -> batchable t n = false ->
    exists before after, concat traces = before ++ Began i :: Ended i :: after /\
      (forall j, j ∈ call_of <$> before <-> (j < i)%nat) /\
      (forall j, j ∈ call_of <$> after <-> (i < j < length names)%nat).
Proof.
  intros H. pose proof (batches_calls t [] 0 names) as Hall. fold (execute_many t names) in Hall. cbn in Hall. split_and!.
  - by rewrite (traces_calls _ _ H), Hall.
  - intros i Hi. apply (batch_ordered _ _ _ H). rewrite Hall. apply elem_of_seq. lia.
  - intros i n Hn Hb. destruct (batches_alone t [] 0 names i) as (before & after & Hsplit); [set_solver|lia| |].
    { rewrite Nat.sub_0_r, Hn. cbn. by rewrite Hb. }
    fold (execute_many t names) in Hsplit. rewrite Hsplit in H, Hall.
    apply Forall2_app_inv_l in H as (t1 & t2' & H1 & H2 & ->). inversion H2 as [|? tr ? t2 Htr H3]; subst. cbn in Htr. subst tr.
    rewrite bind_app in Hall. cbn in Hall. apply seq_split in Hall as [Hbefore Hafter].
    exists (concat t1), (concat t2). rewrite concat_app. split_and!; [done| |]; intros j.
    + rewrite (trace_members _ _ _ H1), Hbefore, elem_of_seq. lia.
    + rewrite (trace_members _ _ _ H3), Hafter, elem_of_seq. lia.
Qed.

(** ** Details of an error *)

(** JSON metadata as the module keeps it, [depth] containers deep. *)
Fixpoint bounded (depth : nat) (v : json) : Prop :=
  match v with
  | JNull => False
  | JBool _ | JNum _ => True
  | JStr s => (char_length s <= 1000)%nat
  | JArr l => match depth with O => False | S k => (length l <= 32)%nat /\ Forall (bounded k) l end
  | JObj l =>
      match depth with
      | O => False
      | S k => (length l <= 32)%nat /\ Forall (fun kv : string * json => kv.1 <> "" /\ (char_length kv.1 <= 64)%nat /\ bounded k kv.2) l
      end
  end.

Lemma char_length_cons c s : char_length (String c s) = ((if starts_character c then 1 else 0) + char_length s)%nat.
Proof. unfold char_length. cbn. by destruct (starts_character c). Qed.

Lemma continuation_starts c : utf8_continuation c = negb (starts_character c).
Proof. by destruct c as [[] [] [] [] [] [] [] []]. Qed.

Lemma str_take_length n s : (char_length (str_take n s) <= n)%nat.
Proof.
  revert n. induction s as [|c s IH]; intros n; cbn [str_take]; [cbn; lia|]. rewrite continuation_starts.
  destruct (starts_character c) eqn:Hc; cbn [negb].
  - destruct n as [|n]; [cbn; lia|]. rewrite char_length_cons, Hc. specialize (IH n). lia.
  - rewrite char_length_cons, Hc. apply IH.
Qed.

Lemma str_take_short n s : (char_length s <= n)%nat -> str_take n s = s.
Proof.
  revert n. induction s as [|c s IH]; intros n; [done|]. rewrite char_length_cons. cbn [str_take]. rewrite continuation_starts.
  destruct (starts_character c); cbn [negb]; intros Hn; [destruct n as [|n]; [lia|]|]; rewrite IH by lia; done.
Qed.

Lemma omap_length {A B} (f : A -> option B) l : (length (omap f l) <= length l)%nat.
Proof. induction l as [|x l IH]; [done|]. cbn. destruct (f x); cbn; lia. Qed.

Lemma omap_all {A} (f : A -> option A) l : Forall (fun x => f x = Some x) l -> omap f l = l.
Proof. induction 1 as [|x l Hx _ IH]; [done|]. cbn. by rewrite Hx, IH. Qed.

Lemma sanitize_bounded k v v' : sanitize k v = Some v' -> bounded k v'.
Proof.
  revert v v'. induction k as [|k IH]; intros v v'; destruct v as [|b|n|s|l|l]; cbn [sanitize]; intros [= <-]; cbn [bounded];
    try done; try apply str_take_length.
  all: split; [etransitivity; [apply omap_length|rewrite length_take; lia]|].
  all: apply Forall_forall; intros x (y & Hy & Hx)%list_elem_of_omap.
  { by eapply IH. }
  destruct (String.eqb_spec y.1 ""), (Nat.ltb_spec 64 (char_length y.1)); cbn in Hx; try done.
  destruct (sanitize k y.2) as [z|] eqn:Hz; [|done]. injection Hx as <-. split; [done|split; [done|by eapply IH]].
Qed.

Lemma sanitize_fixed k v : bounded k v -> sanitize k v = Some v.
Proof.
  revert v. induction k as [|k IH]; intros v; destruct v as [|b|n|s|l|l]; cbn [sanitize bounded]; intros Hv; try done;
    try (by rewrite str_take_short).
  all: destruct Hv as [Hlen Hall]; rewrite take_ge by lia; rewrite omap_all; [done|].
  all: eapply Forall_impl; [exact Hall|]; try exact IH.
  intros [key x] (Hkey & Hshort & Hx). cbn [fst snd] in *. apply String.eqb_neq in Hkey.
  apply Nat.ltb_ge in Hshort. rewrite Hkey, Hshort. cbn [orb]. by rewrite (IH x Hx).
Qed.

(** The details of an error are at most three containers deep, with at most thirty-two entries
    each, keys of one to sixty-four characters and texts of at most a thousand; details within
    these bounds are kept as they are. *)
Lemma safe_details_bounded v :
  bounded 3 (JObj (validate_safe_details v)) /\ forall l, bounded 3 (JObj l) -> validate_safe_details (JObj l) = l.
Proof.
  split.
  - destruct v as [|b|n|s|l|l]; try (cbn; split; [lia|constructor]). unfold validate_safe_details.
    destruct (sanitize 3 (JObj l)) as [[|b|n|s|l'|l']|] eqn:Hs; try (cbn; split; [lia|constructor]).
    by apply sanitize_bounded in Hs.
  - intros l Hl. unfold validate_safe_details. by rewrite (sanitize_fixed _ _ Hl).
Qed.

Lemma safe_details_bounded_witness :
  let details := [("status", JNum 503); ("hosts", JArr [JStr "a"])] in
  validate_safe_details (JObj details) = details.
Proof.
  apply (proj2 (safe_details_bounded JNull)). cbn. split; [lia|]. repeat constructor; cbn; try done; lia.
Defined.

(** ** Content for the model *)

(** Content within the limit is shown whole; longer content is cut to exactly the limit, its
    beginning and its end around a marker, where the limit leaves room for the marker.  Where it
    does not, one character and the marker are shown, which is more than the limit. *)
Lemma compaction_respects_limit content max_chars :
  let len := Z.of_nat (length content) in
  let marker := compaction_marker len max_chars in
  let shown := compact_model_content content max_chars in
  (len <= max_chars -> shown = content) /\
  (Z.of_nat (length marker) < max_chars < len -> Z.of_nat (length shown) = max_chars /\
     exists head tail middle, shown = head ++ marker ++ tail /\ content = head ++ middle ++ tail /\ head <> []) /\
  (0 <= max_chars < len -> max_chars <= Z.of_nat (length marker) -> Z.of_nat (length shown) = Z.of_nat (length marker) + 1).
Proof.
  cbv zeta. unfold compact_model_content. set (marker := compaction_marker _ _). split_and!.
  - intros H. by rewrite (proj2 (Z.leb_le _ _) H).
  - intros [Hm Hl]. rewrite (proj2 (Z.leb_gt _ _) Hl). set (available := Z.max 0 _). set (head := Z.max 1 _).
    assert (Hhead : 1 <= head <= available).
    { unfold head. pose proof (Z.div_le_upper_bound (available * 3) 4 available). unfold available in *. lia. }
    assert (Hav : available = max_chars - Z.of_nat (length marker)) by (unfold available; lia).
    rewrite (Z.max_r 0 (available - head)) by lia. set (tail := available - head).
    assert (Htail : (if tail =? 0 then [] else drop (length content - Z.to_nat tail) content)
                    = drop (length content - Z.to_nat tail) content).
    { destruct (Z.eqb_spec tail 0) as [->|]; [|done]. rewrite Nat.sub_0_r. by rewrite drop_all. }
    rewrite Htail. split.
    + rewrite !length_app, length_take, length_drop. lia.
    + exists (take (Z.to_nat head) content), (drop (length content - Z.to_nat tail) content),
        (drop (Z.to_nat head) (take (length content - Z.to_nat tail) content)). split_and!; [done| |].
      * rewrite app_assoc. rewrite <- (take_drop (length content - Z.to_nat tail) content) at 1. f_equal.
        rewrite <- (take_drop (Z.to_nat head) (take _ content)) at 1. by rewrite take_take, Nat.min_l by lia.
      * intros Hnil%(f_equal length). rewrite length_take in Hnil. cbn in Hnil. lia.
  - intros [H0 Hl] Hm. rewrite (proj2 (Z.leb_gt _ _) Hl), (Z.max_l 0 (max_chars - _)) by lia. rewrite !length_app, length_take.
    change (Z.max 1 (0 * 3 / 4)) with 1. change (Z.max 0 (0 - 1)) with 0. change (0 =? 0) with true. cbn [length]. lia.
Qed.

Lemma compaction_respects_limit_witness :
  length (compact_model_content (replicate 200 (7 : Z)) 150) = 150%nat /\ length (compact_model_content (replicate 200 (7 : Z)) 20) = 66%nat.
Proof.
  destruct (compaction_respects_limit (replicate 200 7) 150) as (_ & Hcut & _).
  destruct (compaction_respects_limit (replicate 200 7) 20) as (_ & _ & Hover).
  split; apply Nat2Z.inj.
  - rewrite (proj1 (Hcut ltac:(vm_compute; split; reflexivity))). reflexivity.
  - rewrite (Hover ltac:(vm_compute; split; [discriminate|reflexivity]) ltac:(vm_compute; discriminate)). vm_compute. reflexivity.
Defined.

(** The witness of the batches: two reads together, then a call that runs alone. *)
Definition reader (name : string) (safe : bool) : ToolDescriptor :=
  {| d_name := name; d_source := BUILTIN; d_provider := "core"; d_version := "1"; d_category := "web"; d_prompt_priority := 0;
     d_scopes := [WORKER]; d_capabilities := {["web.read"]}; d_risk := LOW; d_read_only := true; d_idempotent := true;
     d_concurrency_safe := safe; d_exclusive := false; d_lock_scope := NONE; d_timeout := seconds 30; d_max_concurrency := 0;
     d_retry := default_retry; d_enabled := true; d_factory_name := name |}.
Definition reading_set : ToolSet :=
  {| ts_snapshot := {| sn_role := WORKER; sn_session_id := "s"; sn_profile := "p"; sn_granted_tools := ["fetch"; "note"];
                       sn_granted_capabilities := ["web.read"]; sn_catalog_revision := 2 |};
     ts_descriptors := [reader "fetch" true; reader "note" false] |}.

Lemma unsafe_call_runs_alone_witness :
  exists before after,
    concat [[Began 0; Began 1; Ended 1; Ended 0]; [Began 2; Ended 2]] = before ++ Began 2 :: Ended 2 :: after /\
    (forall j, j ∈ call_of <$> before <-> (j < 2)%nat).
Proof.
  assert (H : Forall2 batch_trace (execute_many reading_set ["fetch"; "fetch"; "note"])
                [[Began 0; Began 1; Ended 1; Ended 0]; [Began 2; Ended 2]]).
  { constructor; [|by repeat constructor]. split; [cbn; solve_Permutation|].
    intros i [->|Hi]%elem_of_cons; [by exists [], [Began 1; Ended 1], []|].
    apply list_elem_of_singleton in Hi as ->. by exists [Began 0], [], [Ended 0]. }
  destruct (unsafe_call_runs_alone reading_set ["fetch"; "fetch"; "note"] _ H) as (_ & _ & Halone).
  destruct (Halone 2%nat "note" eq_refl eq_refl) as (before & after & Hc & Hb & _). by exists before, after.
Defined.
