(* ===== verification/ToolLocks.v ===== *)
(** * ToolLocks: the semaphores and locks of [ToolExecutor]

    [_semaphore_for], [_exclusive_lock] and the [AsyncExitStack] of [execute]
    ([core/tool_runtime.py]): a call enters the semaphore of its tool, then its lock, runs its
    attempts and leaves both, however it ends.  [asyncio] switches between calls only where they
    wait, so the executor is a state machine whose steps are the stretches between two waits; a
    waiter may be served in any order. *)
From S2P Require Import Prelude ToolCatalog.
Local Open Scope Z_scope.

(** Where a call is: waiting for the semaphore, then for the lock, in its attempts, or done. *)
Inductive CallPhase := Queued | Permitted | Running | Finished.
#[export] Instance call_phase_eq_dec : EqDecision CallPhase.
Proof. solve_decision. Defined.

Record ToolCall := { xc_tool : ToolDescriptor; xc_session : string; xc_phase : CallPhase }.

(** The lock of a tool: by its name, or by the session and its name. *)
Definition lock_key (d : ToolDescriptor) (session : string) : option (option string * string) :=
  match d_lock_scope d with
  | NONE => None
  | SESSION => Some (Some session, d_name d)
  | GLOBAL => Some (None, d_name d)
  end.
Definition limited (d : ToolDescriptor) : bool := 0 <? d_max_concurrency d.

Record ToolExecutor := {
  xs_calls : gmap nat ToolCall;
  xs_semaphores : gmap string Z;  (* the permits left *)
  xs_locked : gset (option string * string);
}.
Definition new_executor : ToolExecutor := {| xs_calls := ∅; xs_semaphores := ∅; xs_locked := ∅ |}.

Definition put_call (id : nat) (c : ToolCall) (x : ToolExecutor) : ToolExecutor :=
  {| xs_calls := <[id := c]> (xs_calls x); xs_semaphores := xs_semaphores x; xs_locked := xs_locked x |}.
Definition in_phase (p : CallPhase) (c : ToolCall) : ToolCall :=
  {| xc_tool := xc_tool c; xc_session := xc_session c; xc_phase := p |}.
Definition set_permits (name : string) (n : Z) (x : ToolExecutor) : ToolExecutor :=
  {| xs_calls := xs_calls x; xs_semaphores := <[name := n]> (xs_semaphores x); xs_locked := xs_locked x |}.
Definition set_locked (l : gset (option string * string)) (x : ToolExecutor) : ToolExecutor :=
  {| xs_calls := xs_calls x; xs_semaphores := xs_semaphores x; xs_locked := l |}.
Definition permits (name : string) (x : ToolExecutor) : Z := default 0 (xs_semaphores x !! name).

(** [_semaphore_for]: the first descriptor of a name fixes the number of permits. *)
Definition semaphore_for (d : ToolDescriptor) (x : ToolExecutor) : ToolExecutor :=
  if limited d then
    match xs_semaphores x !! d_name d with Some _ => x | None => set_permits (d_name d) (d_max_concurrency d) x end
  else x.

(** A new call that has passed the checks reaches the semaphore. *)
Definition x_start (id : nat) (d : ToolDescriptor) (session : string) (x : ToolExecutor) : option ToolExecutor :=
  match xs_calls x !! id with
  | Some _ => None
  | None => Some (put_call id {| xc_tool := d; xc_session := session; xc_phase := Queued |} (semaphore_for d x))
  end.

Definition take_permit (d : ToolDescriptor) (x : ToolExecutor) : ToolExecutor :=
  if limited d then set_permits (d_name d) (permits (d_name d) x - 1) x else x.
Definition give_permit (d : ToolDescriptor) (x : ToolExecutor) : ToolExecutor :=
  if limited d then set_permits (d_name d) (permits (d_name d) x + 1) x else x.

(** [enter_async_context(semaphore)]. *)
Definition x_admit (id : nat) (x : ToolExecutor) : option ToolExecutor :=
  c ← xs_calls x !! id;
  if bool_decide (xc_phase c = Queued) && (negb (limited (xc_tool c)) || (0 <? permits (d_name (xc_tool c)) x))
  then Some (put_call id (in_phase Permitted c) (take_permit (xc_tool c) x))
  else None.

(** [enter_async_context(lock)]. *)
Definition x_lock (id : nat) (x : ToolExecutor) : option ToolExecutor :=
  c ← xs_calls x !! id;
  if bool_decide (xc_phase c = Permitted) then
    match lock_key (xc_tool c) (xc_session c) with
    | None => Some (put_call id (in_phase Running c) x)
    | Some k => if decide (k ∈ xs_locked x) then None
                else Some (put_call id (in_phase Running c) (set_locked ({[k]} ∪ xs_locked x) x))
    end
  else None.

(** The attempts end, or raise: the stack releases the lock, then the semaphore. *)
Definition unlock (c : ToolCall) (x : ToolExecutor) : ToolExecutor :=
  match lock_key (xc_tool c) (xc_session c) with
  | None => x
  | Some k => set_locked (xs_locked x ∖ {[k]}) x
  end.
Definition x_finish (id : nat) (x : ToolExecutor) : option ToolExecutor :=
  c ← xs_calls x !! id;
  if bool_decide (xc_phase c = Running) then Some (put_call id (in_phase Finished c) (give_permit (xc_tool c) (unlock c x)))
  else None.

(** The task of a waiting call is cancelled. *)
Definition x_cancel (id : nat) (x : ToolExecutor) : option ToolExecutor :=
  c ← xs_calls x !! id;
  match xc_phase c with
  | Queued => Some (put_call id (in_phase Finished c) x)
  | Permitted => Some (put_call id (in_phase Finished c) (give_permit (xc_tool c) x))
  | _ => None
  end.

Inductive executor_step (x : ToolExecutor) : ToolExecutor -> Prop :=
| xs_start id d s x' : x_start id d s x = Some x' -> executor_step x x'
| xs_admit id x' : x_admit id x = Some x' -> executor_step x x'
| xs_lock id x' : x_lock id x = Some x' -> executor_step x x'
| xs_finish id x' : x_finish id x = Some x' -> executor_step x x'
| xs_cancel id x' : x_cancel id x = Some x' -> executor_step x x'.

(** The steps a call that has started takes by itself. *)
Definition advances (id : nat) (x x' : ToolExecutor) : Prop :=
  x_admit id x = Some x' \/ x_lock id x = Some x' \/ x_finish id x = Some x'.

(** * exclusion and progress of the executor

    Permits and locks as an invariant of the executor's steps: how many calls are inside a tool at
    once, which calls exclude each other, and that waiting always ends. *)

(** ** Counting calls *)

Section count.
Context {A : Type} (f : A -> bool).

Definition count (m : gmap nat A) : Z := Z.of_nat (size (filter (fun kv : nat * A => f kv.2 = true) m)).
Definition bit (b : bool) : Z := if b then 1 else 0.

Lemma count_nonneg m : 0 <= count m.
Proof. unfold count. lia. Qed.

Lemma count_le m : count m <= Z.of_nat (size m).
Proof.
  unfold count. apply inj_le. apply map_subseteq_size. apply map_filter_subseteq.
Qed.

Lemma count_insert_fresh m i c : m !! i = None -> count (<[i := c]> m) = count m + bit (f c).
Proof.
  intros Hi. unfold count. destruct (f c) eqn:Hc; cbn [bit].
  - rewrite map_filter_insert_True by done. rewrite map_size_insert_None; [lia|]. by apply map_lookup_filter_None_2; left.
  - rewrite map_filter_insert_False by (cbn; by rewrite Hc). rewrite delete_id by done. lia.
Qed.

Lemma count_update m i c0 c : m !! i = Some c0 -> count (<[i := c]> m) = count m - bit (f c0) + bit (f c).
Proof.
  intros Hi. rewrite <- insert_delete_eq, count_insert_fresh by apply lookup_delete_eq.
  rewrite <- (insert_delete_id m i c0 Hi) at 2. rewrite count_insert_fresh by apply lookup_delete_eq. lia.
Qed.

Lemma count_zero m : (forall i c, m !! i = Some c -> f c = false) -> count m = 0.
Proof.
  intros H. unfold count. rewrite map_empty_filter_2; [done|]. intros i c Hi. cbn. by rewrite (H i c Hi).
Qed.

Lemma count_pos m i c : m !! i = Some c -> f c = true -> 0 < count m.
Proof.
  intros Hi Hc. rewrite <- (insert_delete_id m i c Hi), count_insert_fresh by apply lookup_delete_eq. rewrite Hc.
  pose proof (count_nonneg (delete i m)). cbn. lia.
Qed.
End count.

(** ** Permits *)

Definition holding (n : string) (c : ToolCall) : bool :=
  limited (xc_tool c) && String.eqb (d_name (xc_tool c)) n
  && (bool_decide (xc_phase c = Permitted) || bool_decide (xc_phase c = Running)).
(** How many calls are past the semaphore of a tool. *)
Definition inside (n : string) (x : ToolExecutor) : Z := count (holding n) (xs_calls x).

Definition permits_ok (x : ToolExecutor) : Prop :=
  (forall n p, xs_semaphores x !! n = Some p -> 0 <= p /\ exists id c,
     xs_calls x !! id = Some c /\ d_name (xc_tool c) = n /\ limited (xc_tool c) = true /\
     p + inside n x = d_max_concurrency (xc_tool c)) /\
  (forall id c, xs_calls x !! id = Some c -> limited (xc_tool c) = true -> is_Some (xs_semaphores x !! d_name (xc_tool c))).

(** A call that moves on, and what that does to the permits of its tool. *)
Lemma permits_ok_update x x' id c p :
  permits_ok x -> xs_calls x !! id = Some c -> xs_calls x' = <[id := in_phase p c]> (xs_calls x) ->
  (forall m, xs_semaphores x' !! m = (fun q => q + bit (holding m c) - bit (holding m (in_phase p c))) <$> xs_semaphores x !! m) ->
  (forall m q, xs_semaphores x' !! m = Some q -> 0 <= q) -> permits_ok x'.
Proof.
  intros [H1 H2] Hc Hcalls Hsem Hpos. split.
  - intros n q Hq. split; [by eapply Hpos|]. rewrite Hsem in Hq. destruct (xs_semaphores x !! n) as [q0|] eqn:Hq0; [|done].
    injection Hq as <-. destruct (H1 n q0 Hq0) as (_ & id' & c' & Hc' & Hn & Hl & Hsum).
    assert (Hin : inside n x' = inside n x - bit (holding n c) + bit (holding n (in_phase p c))).
    { unfold inside. rewrite Hcalls. by apply count_update. }
    rewrite Hin, Hcalls. destruct (decide (id' = id)) as [->|Hne].
    + rewrite Hc in Hc'. injection Hc' as <-. exists id, (in_phase p c). rewrite lookup_insert_eq.
      split_and!; [done..|]. cbn [xc_tool in_phase]. lia.
    + exists id', c'. rewrite lookup_insert_ne by done. split_and!; [done..|]. lia.
  - intros id' c' Hc' Hl. rewrite Hcalls in Hc'. rewrite Hsem. apply fmap_is_Some.
    destruct (decide (id' = id)) as [->|Hne].
    + rewrite lookup_insert_eq in Hc'. injection Hc' as <-. by apply (H2 id c).
    + rewrite lookup_insert_ne in Hc' by done. by apply (H2 id').
Qed.

(** The permits move by what the call holds. *)
Lemma moved_permits x c p (q : Z -> Z) :
  (forall z, q z = z + bit (holding (d_name (xc_tool c)) c) - bit (holding (d_name (xc_tool c)) (in_phase p c))) ->
  limited (xc_tool c) = true -> is_Some (xs_semaphores x !! d_name (xc_tool c)) ->
  forall m, <[d_name (xc_tool c) := q (permits (d_name (xc_tool c)) x)]> (xs_semaphores x) !! m
            = (fun z => z + bit (holding m c) - bit (holding m (in_phase p c))) <$> xs_semaphores x !! m.
Proof.
  intros Hq Hl [z Hz] m. destruct (decide (m = d_name (xc_tool c))) as [->|Hne].
  - unfold permits. by rewrite lookup_insert_eq, Hz; cbn; rewrite Hq.
  - rewrite lookup_insert_ne by done. destruct (xs_semaphores x !! m); [|done]. cbn. f_equal.
    assert (Hno : forall c', xc_tool c' = xc_tool c -> holding m c' = false).
    { intros c' Ht. unfold holding. rewrite Ht. apply not_eq_sym, String.eqb_neq in Hne. rewrite Hne. by destruct (limited _). }
    rewrite !Hno by done. cbn. lia.
Qed.

Lemma still_permits x c p :
  (forall m, holding m c = holding m (in_phase p c)) ->
  forall m, xs_semaphores x !! m = (fun z => z + bit (holding m c) - bit (holding m (in_phase p c))) <$> xs_semaphores x !! m.
Proof. intros Hsame m. destruct (xs_semaphores x !! m); [|done]. cbn. rewrite Hsame. f_equal. lia. Qed.

Lemma holding_unlimited c m p : limited (xc_tool c) = false -> holding m c = holding m (in_phase p c).
Proof. intros Hl. unfold holding. cbn. by rewrite Hl. Qed.

Lemma holding_phase c p q :
  xc_phase c = p -> limited (xc_tool c) = true ->
  bit (holding (d_name (xc_tool c)) c) - bit (holding (d_name (xc_tool c)) (in_phase q c))
  = bit (bool_decide (p = Permitted) || bool_decide (p = Running)) - bit (bool_decide (q = Permitted) || bool_decide (q = Running)).
Proof. intros <- Hl. unfold holding. cbn. by rewrite Hl, String.eqb_refl. Qed.

Lemma start_permits_ok id d s x x' : x_start id d s x = Some x' -> permits_ok x -> permits_ok x'.
Proof.
  unfold x_start. destruct (xs_calls x !! id) as [|] eqn:Hid; [done|]. intros [= <-] [H1 H2].
  set (c := {| xc_tool := d; xc_session := s; xc_phase := Queued |}).
  assert (Hq : forall n, holding n c = false) by (intros n; unfold holding; cbn; by rewrite andb_false_r).
  assert (Hcalls : xs_calls (semaphore_for d x) = xs_calls x) by (unfold semaphore_for; by repeat case_match).
  assert (Hin : forall n, inside n (put_call id c (semaphore_for d x)) = inside n x).
  { intros n. unfold inside. cbn. rewrite Hcalls, count_insert_fresh by done. rewrite Hq. cbn. lia. }
  assert (Hother : forall id' c', xs_calls x !! id' = Some c' -> <[id := c]> (xs_calls (semaphore_for d x)) !! id' = Some c').
  { intros id' c' Hc'. rewrite Hcalls, lookup_insert_ne; [done|]. intros ->. by rewrite Hid in Hc'. }
  split.
  - intros n p Hp. rewrite Hin. cbn in Hp. assert (Hold : xs_semaphores x !! n = Some p \/
      limited d = true /\ xs_semaphores x !! d_name d = None /\ n = d_name d /\ p = d_max_concurrency d).
    { unfold semaphore_for in Hp. destruct (limited d); [|by left]. destruct (xs_semaphores x !! d_name d) eqn:Hd; [by left|].
      cbn in Hp. apply lookup_insert_Some in Hp as [[<- <-]|[_ Hp]]; [by right|by left]. }
    destruct Hold as [Hold|(Hl & Hnone & -> & ->)].
    + destruct (H1 n p Hold) as (Hp0 & id' & c' & Hc' & Hrest). split; [done|]. exists id', c'. split; [by apply Hother|done].
    + split; [unfold limited in Hl; lia|]. exists id, c. cbn. rewrite lookup_insert_eq. split_and!; [done..|].
      unfold inside. rewrite count_zero; [lia|]. intros i c' Hc'. unfold holding.
      destruct (limited (xc_tool c')) eqn:Hl'; [|done]. destruct (String.eqb_spec (d_name (xc_tool c')) (d_name d)) as [He|]; [|done].
      destruct (H2 i c' Hc' Hl') as [z Hz]. rewrite He, Hnone in Hz. done.
  - intros id' c' Hc' Hl. cbn in *. rewrite Hcalls in Hc'. unfold semaphore_for.
    apply lookup_insert_Some in Hc' as [[<- <-]|[_ Hc']].
    + cbn in Hl |- *. rewrite Hl. destruct (xs_semaphores x !! d_name d) eqn:Hd; [by rewrite Hd|]. cbn. by rewrite lookup_insert_eq.
    + destruct (H2 _ _ Hc' Hl) as [z Hz]. repeat case_match; try (by eexists). cbn.
      destruct (decide (d_name d = d_name (xc_tool c'))) as [->|]; [by rewrite lookup_insert_eq|by rewrite lookup_insert_ne].
Qed.

Lemma move_same_ok x x' id c p :
  permits_ok x -> xs_calls x !! id = Some c -> xs_calls x' = <[id := in_phase p c]> (xs_calls x) ->
  xs_semaphores x' = xs_semaphores x -> (forall m, holding m c = holding m (in_phase p c)) -> permits_ok x'.
Proof.
  intros Hok Hc Hcalls Hsem Hsame. eapply permits_ok_update; [done..| |]; rewrite Hsem; [by apply still_permits|].
  intros m q Hq. by apply (proj1 Hok m q).
Qed.

Lemma move_delta_ok x x' id c p d :
  permits_ok x -> xs_calls x !! id = Some c -> xs_calls x' = <[id := in_phase p c]> (xs_calls x) ->
  limited (xc_tool c) = true ->
  xs_semaphores x' = <[d_name (xc_tool c) := permits (d_name (xc_tool c)) x + d]> (xs_semaphores x) ->
  d = bit (holding (d_name (xc_tool c)) c) - bit (holding (d_name (xc_tool c)) (in_phase p c)) ->
  0 <= permits (d_name (xc_tool c)) x + d -> permits_ok x'.
Proof.
  intros Hok Hc Hcalls Hl Hsem Hd Hpos. eapply permits_ok_update; [done..| |]; rewrite Hsem.
  - apply (moved_permits x c p (fun z => z + d)); [intros z; lia|done|by apply (proj2 Hok id c)].
  - intros m q [[<- <-]|[_ Hq]]%lookup_insert_Some; [done|by apply (proj1 Hok m q)].
Qed.

Lemma permits_nonneg x id c :
  permits_ok x -> xs_calls x !! id = Some c -> limited (xc_tool c) = true -> 0 <= permits (d_name (xc_tool c)) x.
Proof. intros [H1 H2] Hc Hl. destruct (H2 id c Hc Hl) as [z Hz]. unfold permits. rewrite Hz. by apply (H1 (d_name (xc_tool c)) z). Qed.

Lemma permits_ok_step x x' : executor_step x x' -> permits_ok x -> permits_ok x'.
Proof.
  intros [id d s x1 Hs|id x1 Hs|id x1 Hs|id x1 Hs|id x1 Hs] Hok; [by eapply start_permits_ok|..];
    unfold x_admit, x_lock, x_finish, x_cancel in Hs; destruct (xs_calls x !! id) as [c|] eqn:Hc; try done; cbn in Hs.
  - destruct (bool_decide _ && _) eqn:Hg; [|done]. injection Hs as <-. apply andb_true_iff in Hg as [Hp%bool_decide_eq_true Hg].
    unfold take_permit. destruct (limited (xc_tool c)) eqn:Hl.
    + apply (move_delta_ok x _ id c Permitted (-1)); try done; [by rewrite (holding_phase c Queued)|]. cbn in Hg. lia.
    + apply (move_same_ok x _ id c Permitted); try done. intros m. by apply holding_unlimited.
  - destruct (bool_decide _) eqn:Hp; [|done]. apply bool_decide_eq_true in Hp.
    apply (move_same_ok x _ id c Running); try done.
    + by repeat case_match; simplify_eq.
    + by repeat case_match; simplify_eq.
    + intros m. unfold holding. cbn. by rewrite Hp.
  - destruct (bool_decide _) eqn:Hp; [|done]. apply bool_decide_eq_true in Hp. injection Hs as <-.
    assert (Hsem : xs_semaphores (unlock c x) = xs_semaphores x) by (unfold unlock; by case_match).
    assert (Hcalls : xs_calls (unlock c x) = xs_calls x) by (unfold unlock; by case_match).
    unfold give_permit. destruct (limited (xc_tool c)) eqn:Hl.
    + apply (move_delta_ok x _ id c Finished 1); try done; [by cbn; rewrite Hcalls| |by rewrite (holding_phase c Running)|].
      * cbn. unfold permits. by rewrite Hsem.
      * pose proof (permits_nonneg x id c Hok Hc Hl). lia.
    + apply (move_same_ok x _ id c Finished); try done; [by cbn; rewrite Hcalls|]. intros m. by apply holding_unlimited.
  - destruct (xc_phase c) eqn:Hp; [| |done|done]; injection Hs as <-.
    + apply (move_same_ok x _ id c Finished); try done. intros m. unfold holding. cbn. by rewrite Hp.
    + unfold give_permit. destruct (limited (xc_tool c)) eqn:Hl.
      * apply (move_delta_ok x _ id c Finished 1); try done; [by rewrite (holding_phase c Permitted)|].
        pose proof (permits_nonneg x id c Hok Hc Hl). lia.
      * apply (move_same_ok x _ id c Finished); try done. intros m. by apply holding_unlimited.
Qed.

(** ** Locks *)

Definition runs (k : option string * string) (id : nat) (x : ToolExecutor) : Prop :=
  exists c, xs_calls x !! id = Some c /\ xc_phase c = Running /\ lock_key (xc_tool c) (xc_session c) = Some k.

Definition locks_ok (x : ToolExecutor) : Prop :=
  (forall k, k ∈ xs_locked x <-> exists id, runs k id x) /\
  (forall k id id', runs k id x -> runs k id' x -> id = id').

(** A step that changes one call: who runs afterwards. *)
Lemma runs_update x x' id c k i :
  xs_calls x' = <[id := c]> (xs_calls x) ->
  runs k i x' <-> if decide (i = id) then xc_phase c = Running /\ lock_key (xc_tool c) (xc_session c) = Some k else runs k i x.
Proof.
  intros Hcalls. unfold runs. rewrite Hcalls. case_decide as Hi.
  - subst i. rewrite lookup_insert_eq. split; [by intros (c' & [= <-] & H)|by exists c].
  - by rewrite lookup_insert_ne.
Qed.

(** A call that neither ran before nor runs afterwards. *)
Lemma locks_ok_idle x x' id c :
  locks_ok x -> xs_calls x' = <[id := c]> (xs_calls x) -> xs_locked x' = xs_locked x -> xc_phase c <> Running ->
  (forall c0, xs_calls x !! id = Some c0 -> xc_phase c0 <> Running) -> locks_ok x'.
Proof.
  intros [H1 H2] Hcalls Hlocked Hnew Hold.
  assert (Hsame : forall k i, runs k i x' <-> runs k i x).
  { intros k i. rewrite (runs_update x x' id c k i Hcalls). case_decide as Hi; [|done]. subst i. split; [tauto|].
    intros (c0 & Hc0 & Hp & _). by destruct (Hold c0). }
  split.
  - intros k. rewrite Hlocked, H1. by setoid_rewrite Hsame.
  - intros k i j Hi%Hsame Hj%Hsame. by eapply H2.
Qed.

Lemma lock_locks_ok id x x1 : x_lock id x = Some x1 -> locks_ok x -> locks_ok x1.
Proof.
  intros Hs Hok. unfold x_lock in Hs. destruct (xs_calls x !! id) as [c|] eqn:Hc; [|done]. cbn in Hs.
  destruct (bool_decide _) eqn:Hp; [|done]. apply bool_decide_eq_true in Hp. destruct Hok as [H1 H2].
  destruct (lock_key (xc_tool c) (xc_session c)) as [k|] eqn:Hk.
  + destruct (decide (k ∈ xs_locked x)) as [|Hfree]; [done|]. injection Hs as <-.
    set (y := put_call _ _ _).
    assert (Hr : forall k' i, runs k' i y <-> (i = id /\ k' = k) \/ runs k' i x).
    { intros k' i. rewrite (runs_update x y id (in_phase Running c) k' i eq_refl). cbn. rewrite Hk. case_decide as Hi; [|naive_solver].
      subst i. split; [intros [_ [= ->]]; by left|]. intros [[_ ->]|(c0 & Hc0 & Hp0 & _)]; [done|]. congruence. }
    assert (Hnone : forall i, ~ runs k i x) by (intros i Hi; apply Hfree, H1; by exists i).
    split.
    * intros k'. cbn. setoid_rewrite Hr. rewrite elem_of_union, elem_of_singleton, H1. naive_solver.
    * intros k' i j [[-> ->]|Hi]%Hr [[-> He]|Hj]%Hr; try done; [by destruct (Hnone j)|subst; by destruct (Hnone i)|by eapply H2].
  + injection Hs as <-. set (y := put_call _ _ _).
    assert (Hr : forall k' i, runs k' i y <-> runs k' i x).
    { intros k' i. rewrite (runs_update x y id (in_phase Running c) k' i eq_refl). cbn. rewrite Hk. case_decide as Hi; [|done].
      subst i. split; [by intros [_ ?]|]. intros (c0 & Hc0 & Hp0 & _). congruence. }
    split; [intros k'; cbn; rewrite H1; by setoid_rewrite Hr|]. intros k' i j Hi%Hr Hj%Hr. by eapply H2.
Qed.

Lemma finish_locks_ok id x x1 : x_finish id x = Some x1 -> locks_ok x -> locks_ok x1.
Proof.
  intros Hs Hok. unfold x_finish in Hs. destruct (xs_calls x !! id) as [c|] eqn:Hc; [|done]. cbn in Hs.
  destruct (bool_decide _) eqn:Hp; [|done]. apply bool_decide_eq_true in Hp. injection Hs as <-. destruct Hok as [H1 H2].
  set (y := put_call _ _ _).
  assert (Hr : forall k' i, runs k' i y <-> i <> id /\ runs k' i x).
  { intros k' i. rewrite (runs_update x y id (in_phase Finished c) k' i); [case_decide; naive_solver|].
    unfold y, give_permit, unlock. by repeat case_match. }
  assert (Hlocked : xs_locked y = match lock_key (xc_tool c) (xc_session c) with None => xs_locked x | Some k => xs_locked x ∖ {[k]} end)
    by (unfold y, give_permit, unlock; by repeat case_match).
  split; [|intros k' i j [_ Hi]%Hr [_ Hj]%Hr; by eapply H2]. intros k'. setoid_rewrite Hr. rewrite Hlocked.
  destruct (lock_key (xc_tool c) (xc_session c)) as [k|] eqn:Hk.
  + assert (Hrun : runs k id x) by (by exists c). rewrite elem_of_difference, elem_of_singleton, H1. split.
    * intros [[i Hi] Hne]. exists i. split; [|done]. intros ->. destruct Hi as (c0 & Hc0 & _ & Hk0). congruence.
    * intros (i & Hne & Hi). split; [by exists i|]. intros ->. by apply Hne, (H2 k).
  + rewrite H1. split; [intros [i Hi]|naive_solver]. exists i. split; [|done]. intros ->.
    destruct Hi as (c0 & Hc0 & _ & Hk0). congruence.
Qed.

Lemma locks_ok_step x x' : executor_step x x' -> locks_ok x -> locks_ok x'.
Proof.
  intros [id d s x1 Hs|id x1 Hs|id x1 Hs|id x1 Hs|id x1 Hs] Hok.
  { unfold x_start in Hs. destruct (xs_calls x !! id) eqn:Hid; [done|]. injection Hs as <-.
    eapply (locks_ok_idle x _ id); [done|cbn; unfold semaphore_for; by repeat case_match|cbn; unfold semaphore_for; by repeat case_match|done|].
    intros c0 Hc0. by rewrite Hid in Hc0. }
  - unfold x_admit in Hs. destruct (xs_calls x !! id) as [c|] eqn:Hc; [|done]. cbn in Hs. destruct (bool_decide _ && _) eqn:Hg; [|done]. injection Hs as <-. apply andb_true_iff in Hg as [Hp%bool_decide_eq_true _].
    eapply (locks_ok_idle x _ id); [done|cbn; unfold take_permit; by case_match|cbn; unfold take_permit; by case_match|done|].
    intros c0 Hc0. congruence.
  - by eapply lock_locks_ok.
  - by eapply finish_locks_ok.
  - unfold x_cancel in Hs. destruct (xs_calls x !! id) as [c|] eqn:Hc; [|done]. cbn in Hs. destruct (xc_phase c) eqn:Hp; [| |done|done]; injection Hs as <-.
    + by eapply (locks_ok_idle x _ id); [| | | |intros c0 Hc0; congruence].
    + eapply (locks_ok_idle x _ id); [done|cbn; unfold give_permit; by case_match|cbn; unfold give_permit; by case_match|done|intros c0 Hc0; congruence].
Qed.

Lemma executor_ok x : rtc executor_step new_executor x -> permits_ok x /\ locks_ok x.
Proof.
  intros Hrun. assert (Hstart : permits_ok new_executor /\ locks_ok new_executor).
  { split; split; try done; [intros k; cbn; split; [done|by intros (i & c & ? & _)]|by intros k i j (c & ? & _)]. }
  revert Hstart. induction Hrun as [|x y z Hxy _ IH]; [done|]. intros [Hp Hl]. apply IH.
  split; [by eapply permits_ok_step|by eapply locks_ok_step].
Qed.

(** C15: however calls start, wait, are cancelled and end, two calls that share a lock never run
    their attempts together, and the calls inside a tool with a limit are never more than the
    limit it was called with. *)
Theorem locks_exclude x :
  rtc executor_step new_executor x ->
  (forall i j ci cj k, xs_calls x !! i = Some ci -> xs_calls x !! j = Some cj -> xc_phase ci = Running -> xc_phase cj = Running ->
     lock_key (xc_tool ci) (xc_session ci) = Some k -> lock_key (xc_tool cj) (xc_session cj) = Some k -> i = j) /\
  (forall n, 0 < inside n x -> exists id c, xs_calls x !! id = Some c /\ d_name (xc_tool c) = n /\
     inside n x <= d_max_concurrency (xc_tool c)).
Proof.
  intros [[H1 H2] [_ Hl]]%executor_ok. split.
  - intros i j ci cj k Hi Hj Hpi Hpj Hki Hkj. apply (Hl k); by eexists.
  - intros n Hpos. destruct (decide (exists p, xs_semaphores x !! n = Some p)) as [[p Hp]|Hnone].
    + destruct (H1 n p Hp) as (Hp0 & id & c & Hc & Hn & _ & Hsum). exists id, c. split_and!; [done..|]. lia.
    + unfold inside in Hpos. rewrite count_zero in Hpos; [lia|]. intros i c Hc. unfold holding.
      destruct (limited (xc_tool c)) eqn:Hlim; [|done]. destruct (String.eqb_spec (d_name (xc_tool c)) n) as [He|]; [|done].
      destruct (H2 i c Hc Hlim) as [z Hz]. destruct Hnone. exists z. by rewrite <- He.
Qed.

(** ** Progress *)

Definition in_phases (l : list CallPhase) (c : ToolCall) : bool := existsb (fun p => bool_decide (xc_phase c = p)) l.
Definition unfinished (x : ToolExecutor) : Prop := exists id c, xs_calls x !! id = Some c /\ xc_phase c <> Finished.
(** The steps left to the calls that have started. *)
Definition work (x : ToolExecutor) : Z :=
  count (in_phases [Queued]) (xs_calls x) + count (in_phases [Queued; Permitted]) (xs_calls x)
  + count (in_phases [Queued; Permitted; Running]) (xs_calls x).
Definition advance (x x' : ToolExecutor) : Prop := exists id, advances id x x'.

Lemma advance_shape x x' :
  advance x x' -> exists id c p, xs_calls x !! id = Some c /\ xs_calls x' = <[id := in_phase p c]> (xs_calls x) /\
    ((xc_phase c, p) = (Queued, Permitted) \/ (xc_phase c, p) = (Permitted, Running) \/ (xc_phase c, p) = (Running, Finished)).
Proof.
  intros (id & [H|[H|H]]); unfold x_admit, x_lock, x_finish in H; destruct (xs_calls x !! id) as [c|] eqn:Hc; try done; cbn in H;
    exists id, c.
  - destruct (bool_decide _ && _) eqn:Hg; [|done]. injection H as <-. apply andb_true_iff in Hg as [->%bool_decide_eq_true _].
    exists Permitted. split; [done|]. split; [cbn; unfold take_permit; by case_match|by left].
  - destruct (bool_decide _) eqn:Hp; [|done]. apply bool_decide_eq_true in Hp as ->. exists Running. split; [done|].
    split; [|by right; left]. by repeat case_match; simplify_eq.
  - destruct (bool_decide _) eqn:Hp; [|done]. apply bool_decide_eq_true in Hp as ->. exists Finished. split; [done|].
    split; [|by right; right]. injection H as <-. unfold give_permit, unlock. by repeat case_match.
Qed.

Ltac decide_phases :=
  repeat match goal with |- context [bool_decide ?P] => let b := eval vm_compute in (bool_decide P) in change (bool_decide P) with b end;
  cbn [orb bit].

Lemma advance_work x x' : advance x x' -> work x' = work x - 1 /\ size (xs_calls x') = size (xs_calls x).
Proof.
  intros (id & c & p & Hc & Hcalls & Hp)%advance_shape. split.
  - unfold work. rewrite Hcalls, !(count_update _ _ id c (in_phase p c) Hc).
    generalize (count (in_phases [Queued]) (xs_calls x)) (count (in_phases [Queued; Permitted]) (xs_calls x))
      (count (in_phases [Queued; Permitted; Running]) (xs_calls x)). intros n1 n2 n3.
    unfold in_phases. cbn [existsb in_phase xc_phase].
    destruct Hp as [H|[H|H]]; injection H as -> ->; decide_phases; lia.
  - rewrite Hcalls. by apply map_size_insert_Some.
Qed.

Lemma work_bounds x : 0 <= work x <= 3 * Z.of_nat (size (xs_calls x)).
Proof.
  unfold work. pose proof (count_nonneg (in_phases [Queued]) (xs_calls x)). pose proof (count_le (in_phases [Queued]) (xs_calls x)).
  pose proof (count_nonneg (in_phases [Queued; Permitted]) (xs_calls x)).
  pose proof (count_le (in_phases [Queued; Permitted]) (xs_calls x)).
  pose proof (count_nonneg (in_phases [Queued; Permitted; Running]) (xs_calls x)).
  pose proof (count_le (in_phases [Queued; Permitted; Running]) (xs_calls x)). lia.
Qed.

Lemma phase_found p x :
  (exists id c, xs_calls x !! id = Some c /\ xc_phase c = p) \/ forall id c, xs_calls x !! id = Some c -> xc_phase c <> p.
Proof.
  destruct (decide (map_Exists (fun _ c => xc_phase c = p) (xs_calls x))) as [(id & c & Hc & Hp)|Hno]; [left; eauto|right].
  intros id c Hc Hp. apply Hno. by exists id, c.
Qed.

Lemma can_advance x : permits_ok x -> locks_ok x -> unfinished x -> exists x', advance x x'.
Proof.
  intros [H1 H2] [Hl _] (id & c & Hc & Hp).
  destruct (phase_found Running x) as [(i & r & Hr & Hrun)|Hnorun].
  { eexists. exists i. right; right. unfold x_finish. rewrite Hr. cbn. by rewrite Hrun. }
  destruct (phase_found Permitted x) as [(i & r & Hr & Hadm)|Hnoadm].
  { assert (Hfree : exists x', x_lock i x = Some x').
    { unfold x_lock. rewrite Hr. cbn. rewrite Hadm. cbn. destruct (lock_key _ _) as [k|]; [|by eexists].
      destruct (decide (k ∈ xs_locked x)) as [Hk|]; [|by eexists]. apply Hl in Hk as (j & cj & Hcj & Hj & _). by destruct (Hnorun j cj). }
    destruct Hfree as [x' Hx']. exists x', i. by right; left. }
  destruct (xc_phase c) eqn:Hph; [|by destruct (Hnoadm id c)|by destruct (Hnorun id c)|done].
  assert (Hgo : negb (limited (xc_tool c)) || (0 <? permits (d_name (xc_tool c)) x) = true).
  { destruct (limited (xc_tool c)) eqn:Hlim; [cbn|done]. destruct (H2 id c Hc Hlim) as [z Hz]. unfold permits. rewrite Hz. cbn.
    destruct (H1 _ z Hz) as (_ & i & ci & Hci & _ & Hli & Hsum). unfold inside in Hsum.
    rewrite count_zero in Hsum; [unfold limited in Hli; lia|]. intros j cj Hcj. unfold holding.
    rewrite (bool_decide_eq_false_2 _ (Hnoadm j cj Hcj)), (bool_decide_eq_false_2 _ (Hnorun j cj Hcj)). by rewrite andb_false_r. }
  eexists. exists id. left. unfold x_admit. rewrite Hc. cbn. by rewrite Hph, Hgo.
Qed.

Lemma advance_step x x' : advance x x' -> executor_step x x'.
Proof. intros (id & [H|[H|H]]); [by eapply xs_admit|by eapply xs_lock|by eapply xs_finish]. Qed.

(** C16: waiting for a semaphore or a lock always ends: whichever waiter is served, as long as a
    call that started is not finished some call can go on, and after at most three steps a call
    every one of them is finished. *)
Theorem waiting_ends x n x' :
  rtc executor_step new_executor x -> nsteps advance n x x' ->
  Z.of_nat n <= 3 * Z.of_nat (size (xs_calls x)) /\ (unfinished x' -> exists x'', advance x' x'').
Proof.
  intros Hx Hn. assert (Hwork : work x' = work x - Z.of_nat n).
  { clear Hx. induction Hn as [|n x y z Hxy _ IH]; [lia|]. destruct (advance_work x y Hxy). lia. }
  split.
  - pose proof (work_bounds x). pose proof (work_bounds x'). lia.
  - intros Hu. assert (Hx' : rtc executor_step new_executor x').
    { etransitivity; [exact Hx|]. clear -Hn. induction Hn as [|n x y z Hxy _ IH]; [done|]. eapply rtc_l; [by apply advance_step|done]. }
    destruct (executor_ok x' Hx') as [Hp Hl]. by apply can_advance.
Qed.

(** ** Two calls of one exclusive tool *)

Definition deploy_tool : ToolDescriptor :=
  {| d_name := "deploy"; d_source := BUILTIN; d_provider := "core"; d_version := "1"; d_category := "ops"; d_prompt_priority := 0;
     d_scopes := [WORKER]; d_capabilities := {["ops.deploy"]}; d_risk := MEDIUM; d_read_only := false; d_idempotent := false;
     d_concurrency_safe := false; d_exclusive := true; d_lock_scope := GLOBAL; d_timeout := 30000000; d_max_concurrency := 2;
     d_retry := default_retry; d_enabled := true; d_factory_name := "deploy" |}.
Definition waiting_executor : option ToolExecutor :=
  x1 ← x_start 0 deploy_tool "s" new_executor; x2 ← x_start 1 deploy_tool "t" x1; x3 ← x_admit 0 x2; x_admit 1 x3.

Lemma waiting_reached : exists x, waiting_executor = Some x /\ rtc executor_step new_executor x.
Proof.
  unfold waiting_executor. destruct (x_start 0 _ _ _) as [x1|] eqn:H1; [|done]. cbn [mbind option_bind].
  destruct (x_start 1 _ _ x1) as [x2|] eqn:H2; [|by injection H1 as <-]. cbn [mbind option_bind].
  destruct (x_admit 0 x2) as [x3|] eqn:H3; [|by injection H1 as <-; injection H2 as <-]. cbn [mbind option_bind].
  destruct (x_admit 1 x3) as [x4|] eqn:H4; [|by injection H1 as <-; injection H2 as <-; injection H3 as <-].
  exists x4. split; [done|].
  eapply rtc_l; [by eapply xs_start|]. eapply rtc_l; [by eapply xs_start|]. eapply rtc_l; [by eapply xs_admit|].
  by eapply rtc_l; [eapply xs_admit|].
Qed.

Lemma locks_exclude_witness : exists x, waiting_executor = Some x /\ inside "deploy" x = 2 /\
  exists id c, xs_calls x !! id = Some c /\ inside "deploy" x <= d_max_concurrency (xc_tool c).
Proof.
  destruct waiting_reached as (x & Hx & Hrun). exists x. assert (Hin : inside "deploy" x = 2).
  { unfold waiting_executor in Hx. vm_compute in Hx. injection Hx as <-. vm_compute. reflexivity. }
  split; [exact Hx|split; [exact Hin|]].
  destruct (proj2 (locks_exclude x Hrun) "deploy") as (id & c & Hc & _ & Hle); [rewrite Hin; reflexivity|].
  exists id, c. split; [exact Hc|exact Hle].
Defined.

Lemma waiting_ends_witness : exists x, waiting_executor = Some x /\ unfinished x /\ exists x', advance x x'.
Proof.
  destruct waiting_reached as (x & Hx & Hrun). exists x. assert (Hu : unfinished x).
  { unfold waiting_executor in Hx. vm_compute in Hx. injection Hx as <-. exists 0%nat. eexists. by split; [vm_compute; reflexivity|]. }
  split; [exact Hx|split; [exact Hu|]]. exact (proj2 (waiting_ends x 0 x Hrun (nsteps_O _ _)) Hu).
Defined.
