(* ===== verification/McpRuntime.v ===== *)
(** * McpRuntime: tool servers behind the catalog

    [core/mcp_runtime.py] and [MCPServerConfig] of [core/tool_config.py]: the names of the tools
    of a server, connecting and disconnecting, discovery into the catalog, and a call that
    reconnects when the transport fails.  What a server does on the n-th connection is the
    parameter [world]; the address check and the transports themselves are part of it.  SHA-256
    is the parameter [sha256_hex].  Methods keep what they wrote when they raise ([Py]).  The last
    part cuts connecting and closing at their awaits ([mcp_task_step]), where other operations
    run and a task may be cancelled. *)
From S2P Require Import Prelude Clock PyText ToolCatalog.
Local Open Scope Z_scope.

(** ** Names *)

(** [_INVALID_NAME.sub]: each run of other characters becomes one underscore. *)
Definition name_char (c : ascii) : bool := letter c || digit c || dash c.
Fixpoint sub_invalid (in_run : bool) (s : string) : string :=
  match s with
  | EmptyString => EmptyString
  | String c s' =>
      if name_char c then String c (sub_invalid false s')
      else if in_run then sub_invalid true s' else String "_" (sub_invalid true s')
  end.

(** [s.strip] of underscores. *)
Fixpoint lstrip_underscore (s : string) : string :=
  match s with String c s' => if Ascii.eqb c "_" then lstrip_underscore s' else s | EmptyString => EmptyString end.
Fixpoint rstrip_underscore (s : string) : string :=
  match s with
  | EmptyString => EmptyString
  | String c s' => match rstrip_underscore s' with
                   | EmptyString => if Ascii.eqb c "_" then EmptyString else String c EmptyString
                   | t => String c t
                   end
  end.
Definition strip_underscore (s : string) : string := rstrip_underscore (lstrip_underscore s).

Section mcp.
Variable sha256_hex : string -> string.

(** [mcp_tool_name]. *)
Definition mcp_tool_name (server raw_name : string) : string :=
  let base := strip_underscore (sub_invalid false ("mcp_" +:+ server +:+ "_" +:+ raw_name)) in
  let base := if String.eqb base "" then "mcp_tool" else base in
  if (String.length base <=? 64)%nat then base
  else String.substring 0 55 base +:+ "_" +:+ String.substring 0 8 (sha256_hex base).

(** ** Configuration *)

Inductive Transport := Stdio | Sse | StreamableHttp.
#[export] Instance transport_eq_dec : EqDecision Transport.
Proof. solve_decision. Defined.

Record MCPServerConfig := {
  mc_transport : option Transport;
  mc_command : string;
  mc_args : list string;
  mc_env : gmap string string;
  mc_cwd : string;
  mc_url : string;
  mc_headers : gmap string string;
  mc_allow_private_network : bool;
  mc_enabled_tools : list string;
  mc_read_only_tools : gset string;
  mc_idempotent_tools : gset string;
  mc_high_risk_tools : gset string;
  mc_session_exclusive_tools : gset string;
  mc_global_exclusive_tools : gset string;
  mc_retry_attempts : Z;
  mc_max_concurrency : Z;
  mc_timeout : Z;
  mc_scopes : gset ToolScope;
}.
#[export] Instance mcp_config_eq_dec : EqDecision MCPServerConfig.
Proof. solve_decision. Defined.

Definition with_transport (t : option Transport) (c : MCPServerConfig) : MCPServerConfig :=
  {| mc_transport := t; mc_command := mc_command c; mc_args := mc_args c; mc_env := mc_env c; mc_cwd := mc_cwd c;
     mc_url := mc_url c; mc_headers := mc_headers c; mc_allow_private_network := mc_allow_private_network c;
     mc_enabled_tools := mc_enabled_tools c;
     mc_read_only_tools := mc_read_only_tools c; mc_idempotent_tools := mc_idempotent_tools c;
     mc_high_risk_tools := mc_high_risk_tools c; mc_session_exclusive_tools := mc_session_exclusive_tools c;
     mc_global_exclusive_tools := mc_global_exclusive_tools c; mc_retry_attempts := mc_retry_attempts c;
     mc_max_concurrency := mc_max_concurrency c; mc_timeout := mc_timeout c; mc_scopes := mc_scopes c |}.

(** [validate_transport]. *)
Definition validate_transport (c : MCPServerConfig) : result ToolFailure MCPServerConfig :=
  let t := match mc_transport c with
           | Some t => Some t
           | None => if negb (String.eqb (mc_command c) "") then Some Stdio
                     else if negb (String.eqb (mc_url c) "") then Some StreamableHttp else None
           end in
  let c := with_transport t c in
  match t with
  | Some Stdio => if String.eqb (mc_command c) "" then Err ToolValueError else Ok c
  | Some _ => if String.eqb (mc_url c) "" then Err ToolValueError else Ok c
  | None => Ok c
  end.
Definition mcp_config (c : MCPServerConfig) : result ToolFailure MCPServerConfig :=
  if between 1 5 (mc_retry_attempts c) && between 1 100 (mc_max_concurrency c) && (0 <? mc_timeout c)
     && (mc_timeout c <=? seconds 1800)
  then validate_transport c else Err ToolValueError.

(** ** The runtime *)

(** What happens when the runtime connects for the n-th time: whether the address is accepted, the
    transport opens, the session initialises, and the names of the tools it lists. *)
Record ConnectScript := {
  cn_address_ok : bool;
  cn_opens : bool;
  cn_initializes : bool;
  cn_tools : option (list string);
}.

Record Connection := { cn_config : MCPServerConfig; cn_session : nat }.

Record McpState := {
  ms_catalog : ToolCatalog;
  ms_connections : gmap string Connection;
  ms_open : gset nat;  (* the sessions whose transport is open *)
  ms_semaphores : gmap string Z;
  ms_next : nat;
}.
Abbreviation Mx := (Py McpState ToolFailure).

Definition set_catalog (c : ToolCatalog) (s : McpState) : McpState :=
  {| ms_catalog := c; ms_connections := ms_connections s; ms_open := ms_open s; ms_semaphores := ms_semaphores s;
     ms_next := ms_next s |}.
Definition set_connections (c : gmap string Connection) (s : McpState) : McpState :=
  {| ms_catalog := ms_catalog s; ms_connections := c; ms_open := ms_open s; ms_semaphores := ms_semaphores s;
     ms_next := ms_next s |}.
Definition set_open (o : gset nat) (s : McpState) : McpState :=
  {| ms_catalog := ms_catalog s; ms_connections := ms_connections s; ms_open := o; ms_semaphores := ms_semaphores s;
     ms_next := ms_next s |}.
Definition set_mcp_semaphores (m : gmap string Z) (s : McpState) : McpState :=
  {| ms_catalog := ms_catalog s; ms_connections := ms_connections s; ms_open := ms_open s; ms_semaphores := m;
     ms_next := ms_next s |}.
Definition set_next (n : nat) (s : McpState) : McpState :=
  {| ms_catalog := ms_catalog s; ms_connections := ms_connections s; ms_open := ms_open s; ms_semaphores := ms_semaphores s;
     ms_next := n |}.

Variable world : nat -> ConnectScript.

Definition unregister_server (server : string) (s : McpState) : McpState :=
  set_catalog (unregister_provider MCP server (ms_catalog s)).2 s.
Definition aclose (session : nat) (s : McpState) : McpState := set_open (ms_open s ∖ {[session]}) s.

(** The connection and the tools of a server are gone before its transport is closed. *)
Definition popped (server : string) (s : McpState) : McpState :=
  unregister_server server (set_connections (delete server (ms_connections s)) s).

(** [_disconnect]. *)
Definition disconnect (server : string) : Mx () :=
  found ← py_gets (fun s => ms_connections s !! server);
  _ ← py_modify (popped server);
  match found with
  | Some c => py_modify (aclose (cn_session c))
  | None => mret ()
  end.

(** [_register_tool]. *)
Definition mcp_descriptor (server raw_name : string) (c : MCPServerConfig) : ToolDescriptor :=
  let name := mcp_tool_name server raw_name in
  let read_only := bool_decide (raw_name ∈ mc_read_only_tools c) in
  let idempotent := bool_decide (raw_name ∈ mc_idempotent_tools c) in
  let lock_scope := if decide (raw_name ∈ mc_global_exclusive_tools c) then GLOBAL
                    else if decide (raw_name ∈ mc_session_exclusive_tools c) then SESSION else NONE in
  {| d_name := name; d_source := MCP; d_provider := server; d_version := "mcp"; d_category := "mcp";
     d_prompt_priority := 10; d_scopes := elements (mc_scopes c);
     d_capabilities := {["mcp." +:+ server +:+ "." +:+ raw_name]};
     d_risk := if decide (raw_name ∈ mc_high_risk_tools c) then HIGH else MEDIUM;
     d_read_only := read_only; d_idempotent := idempotent;
     d_concurrency_safe := read_only && bool_decide (lock_scope = NONE); d_exclusive := false;
     d_lock_scope := lock_scope; d_timeout := mc_timeout c; d_max_concurrency := mc_max_concurrency c;
     d_retry := {| rp_max_attempts := if read_only || idempotent then mc_retry_attempts c else 1;
                   rp_retryable_kinds := rp_retryable_kinds default_retry; rp_base_delay := rp_base_delay default_retry;
                   rp_max_delay := rp_max_delay default_retry;
                   rp_jitter_millionths := rp_jitter_millionths default_retry |};
     d_enabled := true; d_factory_name := name |}.

Definition lift_tool {A} (r : result ToolFailure A) : Mx A :=
  match r with Ok a => mret a | Err e => py_raise e end.
Definition register_mcp (server raw_name : string) (c : MCPServerConfig) : Mx () :=
  d ← lift_tool (tool_descriptor (mcp_descriptor server raw_name c));
  catalog ← py_gets ms_catalog;
  next ← lift_tool (register d false catalog);
  py_modify (set_catalog next).

(** Whether a listed tool is enabled, by its own name, by its wrapped one or by a star. *)
Definition enabled_tool (server raw_name : string) (c : MCPServerConfig) : bool :=
  string_in "*" (mc_enabled_tools c) || string_in raw_name (mc_enabled_tools c)
  || string_in (mcp_tool_name server raw_name) (mc_enabled_tools c).

(** [_discover]. *)
Definition discover (server : string) (script : ConnectScript) (c : MCPServerConfig) : Mx () :=
  match cn_tools script with
  | None => py_raise ToolRuntimeError
  | Some listed =>
      let declared := mc_read_only_tools c ∪ mc_idempotent_tools c ∪ mc_high_risk_tools c
                      ∪ mc_session_exclusive_tools c ∪ mc_global_exclusive_tools c in
      if negb (bool_decide (declared ⊆ list_to_set listed)) then py_raise ToolValueError
      else
        _ ← py_iter (fun raw => py_when (enabled_tool server raw c) (register_mcp server raw c)) listed;
        let matched := flat_map (fun raw => if enabled_tool server raw c then [raw; mcp_tool_name server raw] else []) listed in
        if forallb (fun n => String.eqb n "*" || string_in n matched) (mc_enabled_tools c) then mret ()
        else py_raise ToolValueError
  end.

(** The entries of a session that has initialised. *)
Definition recorded (server : string) (session : nat) (c : MCPServerConfig) (s : McpState) : McpState :=
  let s := set_connections (<[server := {| cn_config := c; cn_session := session |}]> (ms_connections s)) s in
  match ms_semaphores s !! server with
  | Some _ => s
  | None => set_mcp_semaphores (<[server := mc_max_concurrency c]> (ms_semaphores s)) s
  end.

(** [try] of [_connect]: the statements whose exception closes the transport. *)
Definition open_and_discover (server : string) (session : nat) (script : ConnectScript) (c : MCPServerConfig) : Mx () :=
  if negb (cn_opens script) then py_raise ToolRuntimeError
  else
    _ ← py_modify (fun s => set_open ({[session]} ∪ ms_open s) s);
    if negb (cn_initializes script) then py_raise ToolRuntimeError
    else
      _ ← py_modify (recorded server session c);
      discover server script c.

(** [m], and [cleanup] before an exception of it goes on. *)
Definition or_else {A} (m : Mx A) (cleanup : McpState -> McpState) : Mx A := fun s =>
  match m s with
  | (Ok a, s') => (Ok a, s')
  | (Err e, s') => (Err e, cleanup s')
  end.

Definition remote (c : MCPServerConfig) : bool :=
  match mc_transport c with Some Sse | Some StreamableHttp => true | _ => false end.

(** [_connect]. *)
Definition connect (server : string) (c : MCPServerConfig) : Mx () :=
  _ ← disconnect server;
  session ← py_gets ms_next;
  _ ← py_modify (fun s => set_next (S (ms_next s)) s);
  let script := world session in
  if remote c && negb (cn_address_ok script) then py_raise ToolValueError
  else or_else (open_and_discover server session script c) (fun s => unregister_server server (aclose session s)).

(** [connect_all], of configurations that are validated first. *)
Fixpoint validated_configs (l : list (string * MCPServerConfig)) : result ToolFailure (list (string * MCPServerConfig)) :=
  match l with
  | [] => Ok []
  | (n, c) :: l' =>
      match mcp_config c, validated_configs l' with
      | Ok c', Ok r => Ok ((n, c') :: r)
      | Err e, _ => Err e
      | _, Err e => Err e
      end
  end.
Definition connect_one (kv : string * MCPServerConfig) : Mx () :=
  current ← py_gets (fun s => ms_connections s !! kv.1);
  if bool_decide (cn_config <$> current = Some kv.2) then mret () else connect kv.1 kv.2.
Definition connect_all (configs : list (string * MCPServerConfig)) : Mx () :=
  valid ← lift_tool (validated_configs configs);
  removed ← py_gets (fun s => elements (dom (ms_connections s) ∖ list_to_set valid.*1));
  _ ← py_iter disconnect removed;
  py_iter connect_one valid.

(** How a request to a server ends. *)
Inductive CallEnd := Answered | Failed | CallCancelled.

(** [call_tool]. *)
Definition call_tool (server : string) (e : CallEnd) : Mx () :=
  found ← py_gets (fun s => ms_connections s !! server);
  match found with
  | None => py_raise ToolRuntimeError
  | Some c =>
      match e with
      | Answered => mret ()
      | CallCancelled => py_raise CancelledError
      | Failed =>
          _ ← connect server (cn_config c);
          py_raise ToolRuntimeError
      end
  end.

(** [close]. *)
Definition close : Mx () :=
  servers ← py_gets (fun s => elements (dom (ms_connections s)));
  py_iter disconnect servers.

(** ** Operations that overlap

    The functions above run without interruption.  In the event loop [_connect] and
    [_disconnect] suspend at every await, where other operations run, where they may be
    cancelled ([except Exception] does not catch that), and where closing a transport may raise.
    A task is a run of one of the two between its suspensions. *)
Inductive McpPoint :=
| ClosingOld (old : option nat)  (* [_disconnect] of [_connect] closes the previous transport *)
| Opening (session : nat)        (* the address check and [_open_session], nothing open yet *)
| Initializing (session : nat)   (* something of the transport is open *)
| Listing (session : nat)        (* recorded, waiting for [list_tools] *)
| Failing (session : nat).       (* the handler closes the transport *)
Inductive McpTask :=
| Connecting (server : string) (c : MCPServerConfig) (p : McpPoint)
| Disconnecting (old : nat).

(** The runtime, the tasks under way, the sessions whose task was cancelled or whose transport
    failed to close, those that were disconnected while their tools were being listed, and every
    attempt to connect so far. *)
Record McpWorld := {
  mw_state : McpState;
  mw_tasks : gmap nat McpTask;
  mw_next : nat;
  mw_lost : gset nat;
  mw_overtaken : gset nat;
  mw_tried : list (string * MCPServerConfig * nat);
}.

Definition on_state (f : McpState -> McpState) (w : McpWorld) : McpWorld :=
  {| mw_state := f (mw_state w); mw_tasks := mw_tasks w; mw_next := mw_next w; mw_lost := mw_lost w;
     mw_overtaken := mw_overtaken w; mw_tried := mw_tried w |}.
Definition set_tasks (m : gmap nat McpTask) (w : McpWorld) : McpWorld :=
  {| mw_state := mw_state w; mw_tasks := m; mw_next := mw_next w; mw_lost := mw_lost w;
     mw_overtaken := mw_overtaken w; mw_tried := mw_tried w |}.
Definition lose (l : gset nat) (w : McpWorld) : McpWorld :=
  {| mw_state := mw_state w; mw_tasks := mw_tasks w; mw_next := mw_next w; mw_lost := l ∪ mw_lost w;
     mw_overtaken := mw_overtaken w; mw_tried := mw_tried w |}.
Definition overtake (session : nat) (w : McpWorld) : McpWorld :=
  {| mw_state := mw_state w; mw_tasks := mw_tasks w; mw_next := mw_next w; mw_lost := mw_lost w;
     mw_overtaken := {[session]} ∪ mw_overtaken w; mw_tried := mw_tried w |}.

(** The lock of the server is free. *)
Definition unlocked (server : string) (w : McpWorld) : Prop :=
  forall i c p, mw_tasks w !! i <> Some (Connecting server c p).

(** A new task. *)
Definition spawn (t : McpTask) (w : McpWorld) : McpWorld :=
  {| mw_state := mw_state w; mw_tasks := <[mw_next w := t]> (mw_tasks w); mw_next := S (mw_next w); mw_lost := mw_lost w;
     mw_overtaken := mw_overtaken w; mw_tried := mw_tried w |}.

(** [_connect] takes its lock and pops the connection it replaces. *)
Definition start_connect (server : string) (c : MCPServerConfig) (w : McpWorld) : McpWorld :=
  spawn (Connecting server c (ClosingOld (cn_session <$> ms_connections (mw_state w) !! server)))
    (on_state (popped server) w).

(** An attempt to connect that waits for the tools of this session. *)
Definition listing (session : nat) (w : McpWorld) : bool :=
  existsb (fun kv : nat * McpTask => match kv.2 with Connecting _ _ (Listing i) => Nat.eqb i session | _ => false end)
    (map_to_list (mw_tasks w)).

(** [_disconnect] on its own, which takes no lock; without a connection it does not suspend. *)
Definition start_disconnect (server : string) (w : McpWorld) : McpWorld :=
  let w' := on_state (popped server) w in
  match ms_connections (mw_state w) !! server with
  | Some c => spawn (Disconnecting (cn_session c)) (if listing (cn_session c) w then overtake (cn_session c) w' else w')
  | None => w'
  end.

(** [aclose] of [session] returns, or raises. *)
Definition closing (session : nat) (closes : bool) (w : McpWorld) : McpWorld :=
  if closes then on_state (aclose session) w else lose {[session]} w.
Definition closing_old (old : option nat) (closes : bool) (w : McpWorld) : McpWorld :=
  match old with Some session => closing session closes w | None => w end.

Definition at_point (id : nat) (server : string) (c : MCPServerConfig) (p : McpPoint) (w : McpWorld) : McpWorld :=
  set_tasks (<[id := Connecting server c p]> (mw_tasks w)) w.
Definition ended (id : nat) (w : McpWorld) : McpWorld := set_tasks (delete id (mw_tasks w)) w.

(** [_connect] after [_disconnect], whose exceptions are only logged. *)
Definition step_old (id : nat) (server : string) (c : MCPServerConfig) (old : option nat) (closes : bool) (w : McpWorld) : McpWorld :=
  let session := ms_next (mw_state w) in
  let w := closing_old old closes (at_point id server c (Opening session) w) in
  let w := on_state (set_next (S session)) w in
  {| mw_state := mw_state w; mw_tasks := mw_tasks w; mw_next := mw_next w; mw_lost := mw_lost w;
     mw_overtaken := mw_overtaken w; mw_tried := (server, c, session) :: mw_tried w |}.

(** The tools are listed: [_discover] registers them, or raises. *)
Definition step_listed (id : nat) (server : string) (c : MCPServerConfig) (session : nat) (w : McpWorld) : McpWorld :=
  let (r, s) := discover server (world session) c (mw_state w) in
  let w := on_state (fun _ => s) w in
  match r with Ok _ => ended id w | Err _ => at_point id server c (Failing session) w end.

(** The handler of [_connect]: what follows a failing [aclose] is skipped. *)
Definition step_failed (id : nat) (server : string) (session : nat) (closes : bool) (w : McpWorld) : McpWorld :=
  let w := closing session closes (ended id w) in
  if closes then on_state (unregister_server server) w else w.

(** The transport a task cancelled here leaves behind; a recorded one stays with its connection. *)
Definition held (t : McpTask) : gset nat :=
  match t with
  | Connecting _ _ (ClosingOld (Some old)) => {[old]}
  | Connecting _ _ (Initializing session) => {[session]}
  | Connecting _ _ (Failing session) => {[session]}
  | Disconnecting old => {[old]}
  | _ => ∅
  end.

Inductive mcp_task_step (w : McpWorld) : McpWorld -> Prop :=
| mt_connect server c : unlocked server w -> mcp_task_step w (start_connect server c w)
| mt_disconnect server : mcp_task_step w (start_disconnect server w)
| mt_old id server c old closes :
    mw_tasks w !! id = Some (Connecting server c (ClosingOld old)) -> mcp_task_step w (step_old id server c old closes w)
| mt_refused id server c session :
    mw_tasks w !! id = Some (Connecting server c (Opening session)) -> mcp_task_step w (ended id w)
| mt_opened id server c session :
    mw_tasks w !! id = Some (Connecting server c (Opening session)) ->
    mcp_task_step w (at_point id server c (Initializing session) (on_state (fun s => set_open ({[session]} ∪ ms_open s) s) w))
| mt_initialized id server c session :
    mw_tasks w !! id = Some (Connecting server c (Initializing session)) ->
    mcp_task_step w (at_point id server c (Listing session) (on_state (recorded server session c) w))
| mt_unopened id server c session :
    mw_tasks w !! id = Some (Connecting server c (Opening session)) ->
    mcp_task_step w (at_point id server c (Failing session) w)
| mt_raised id server c session :
    mw_tasks w !! id = Some (Connecting server c (Initializing session)) ->
    mcp_task_step w (at_point id server c (Failing session) w)
| mt_listed id server c session :
    mw_tasks w !! id = Some (Connecting server c (Listing session)) -> mcp_task_step w (step_listed id server c session w)
| mt_failed id server c session closes :
    mw_tasks w !! id = Some (Connecting server c (Failing session)) ->
    mcp_task_step w (step_failed id server session closes w)
| mt_disconnected id old closes :
    mw_tasks w !! id = Some (Disconnecting old) -> mcp_task_step w (closing old closes (ended id w))
| mt_cancelled id t :
    mw_tasks w !! id = Some t -> mcp_task_step w (lose (held t) (ended id w))
| mt_catalog f :
    (forall n d, tc_descriptors (f (ms_catalog (mw_state w))) !! n = Some d -> d_source d = MCP ->
       tc_descriptors (ms_catalog (mw_state w)) !! n = Some d) ->
    mcp_task_step w (on_state (fun s => set_catalog (f (ms_catalog s)) s) w).
End mcp.

Example mcp_name_example : mcp_tool_name (fun _ => "") "github" "search/issues" = "mcp_github_search_issues".
Proof. vm_compute. reflexivity. Qed.
