(* ===== verification/McpSafety.v ===== *)
(** * McpSafety: what the catalog says of tool servers is true

    However operations overlap, every MCP tool of the catalog was listed to an attempt to connect
    whose configuration enables it, described as that configuration says, and an open session has
    a connection or an operation that owns it, or its operation was cancelled or failed to close it.
    Without overlap and cancellation the session of every tool is open and none is left behind.
    The names and descriptors made for server tools pass the catalog's validators. *)
From S2P Require Import Prelude Clock PyText ToolCatalog ToolSafety McpRuntime.
Local Open Scope Z_scope.

(** * the names and descriptors of server tools

    The name made for a tool of a server has the form the catalog demands, whatever the server
    calls the tool, and the validators accept its descriptor unless name or capability are
    unusable. *)

Abbreviation chars := String.list_ascii_of_string.

Lemma chars_length s : String.length s = length (chars s).
Proof. induction s as [|c s IH]; [done|]. cbn. by rewrite IH. Qed.

Lemma chars_take n s : chars (String.substring 0 n s) = take n (chars s).
Proof. revert n. induction s as [|c s IH]; intros [|n]; try done. cbn. by rewrite IH. Qed.

Lemma forallb_take {A} (f : A -> bool) n l : forallb f l = true -> forallb f (take n l) = true.
Proof. revert n. induction l as [|x l IH]; intros [|n]; try done. cbn. rewrite !andb_true_iff. naive_solver. Qed.

(** ** Names *)

Definition clean (s : string) : bool := forallb name_char (chars s).

Lemma sub_invalid_clean b s : clean (sub_invalid b s) = true.
Proof.
  unfold clean. revert b. induction s as [|c s IH]; intros b; [done|]. cbn [sub_invalid].
  destruct (name_char c) eqn:Hc; [|destruct b; [apply IH|]]; cbn; by rewrite ?Hc, IH.
Qed.

Lemma rstrip_clean s : clean s = true -> clean (rstrip_underscore s) = true.
Proof.
  unfold clean. induction s as [|c s IH]; [done|]. cbn [chars forallb rstrip_underscore]. rewrite andb_true_iff.
  intros [Hc Hs]. specialize (IH Hs). destruct (rstrip_underscore s) as [|c' s'].
  - destruct (Ascii.eqb c "_"); cbn [chars forallb]; by rewrite ?Hc.
  - cbn [chars forallb] in IH |- *. by rewrite Hc, IH.
Qed.

Lemma rstrip_cons c s :
  rstrip_underscore (String c s)
  = match rstrip_underscore s with EmptyString => if Ascii.eqb c "_" then EmptyString else String c EmptyString | t => String c t end.
Proof. done. Qed.

Lemma strip_mcp s :
  strip_underscore (sub_invalid false ("mcp_" +:+ s)) = "mcp" \/
  exists t, strip_underscore (sub_invalid false ("mcp_" +:+ s)) = "mcp_" +:+ t /\ clean t = true.
Proof.
  pose proof (rstrip_clean _ (sub_invalid_clean false s)) as Hc. revert Hc. unfold strip_underscore.
  change (lstrip_underscore (sub_invalid false ("mcp_" +:+ s)))
    with (String "m" (String "c" (String "p" (String "_" (sub_invalid false s))))).
  generalize (sub_invalid false s) as u. intros u. rewrite !rstrip_cons. destruct (rstrip_underscore u) as [|c t]; [by left|].
  right. by exists (String c t).
Qed.

Section names.
Variable sha256_hex : string -> string.
Hypothesis sha256_long : forall s, (8 <= String.length (sha256_hex s))%nat.
Hypothesis sha256_clean : forall s, clean (sha256_hex s) = true.

Lemma mcp_tool_name_shape server raw :
  mcp_tool_name sha256_hex server raw = "mcp" \/
  exists t, mcp_tool_name sha256_hex server raw = "mcp_" +:+ t /\ clean t = true /\ (String.length t <= 60)%nat.
Proof.
  unfold mcp_tool_name. destruct (strip_mcp (server +:+ "_" +:+ raw)) as [->|(t & -> & Ht)]; [by left|]. right.
  replace (String.eqb ("mcp_" +:+ t) "") with false by done. destruct (Nat.leb_spec (String.length ("mcp_" +:+ t)) 64) as [Hle|Hgt].
  - exists t. split_and!; [done..|]. change (String.length ("mcp_" +:+ t)) with (4 + String.length t)%nat in Hle. lia.
  - set (h := sha256_hex _). exists (String.substring 0 51 t +:+ "_" +:+ String.substring 0 8 h). split_and!; [done| |].
    + unfold clean in *. rewrite !list_ascii_app, !forallb_app, !chars_take. cbn [chars forallb].
      unfold h. by rewrite (forallb_take _ _ _ Ht), (forallb_take _ _ _ (sha256_clean _)).
    + pose proof (sha256_long ("mcp_" +:+ t)) as Hh. fold h in Hh. rewrite chars_length in Hh |- *.
      rewrite !list_ascii_app, !length_app, !chars_take, !length_take. cbn [chars length]. lia.
Qed.

Lemma mcp_name_valid server raw : TOOL_NAME (mcp_tool_name sha256_hex server raw) = true.
Proof.
  destruct (mcp_tool_name_shape server raw) as [->|(t & -> & Ht & Hlen)]; [done|].
  assert (Hrest : forallb (fun c => letter c || digit c || dash c) (chars t) = true) by exact Ht.
  unfold TOOL_NAME. change ("mcp_" +:+ t) with (String "m" (String "c" (String "p" (String "_" t)))).
  cbn [spelled chars forallb String.length]. rewrite Hrest. apply andb_true_intro. split; [done|]. apply Nat.leb_le. lia.
Qed.

Lemma mcp_prefix server raw :
  String.prefix "mcp_" (mcp_tool_name sha256_hex server raw) = negb (String.eqb (mcp_tool_name sha256_hex server raw) "mcp").
Proof.
  destruct (mcp_tool_name_shape server raw) as [->|(t & -> & _)]; [done|].
  change ("mcp_" +:+ t) with (String "m" (String "c" (String "p" (String "_" t)))). by destruct t.
Qed.

(** The numbers of a validated configuration are numbers of a valid descriptor. *)
Lemma mcp_config_numbers c :
  mcp_config c = Ok c ->
  1 <= mc_retry_attempts c <= 5 /\ 1 <= mc_max_concurrency c <= 100 /\ (0 <? mc_timeout c) && (mc_timeout c <=? seconds 1800) = true.
Proof.
  unfold mcp_config. destruct (_ && _) eqn:H; [|done]. intros _. unfold between in H. rewrite !andb_true_iff in H. rewrite andb_true_iff. lia.
Qed.

Lemma mcp_retry_valid n : 1 <= n <= 5 ->
  retry_valid {| rp_max_attempts := n; rp_retryable_kinds := RETRY_KINDS; rp_base_delay := 250000; rp_max_delay := 4 * SECOND;
                 rp_jitter_millionths := 200000 |} = true.
Proof.
  intros Hn. unfold retry_valid. cbn [rp_max_attempts rp_retryable_kinds rp_base_delay rp_max_delay rp_jitter_millionths].
  unfold between at 1. rewrite (proj2 (Z.leb_le 1 n)), (proj2 (Z.leb_le n 5)) by lia. by rewrite (bool_decide_eq_true_2 (RETRY_KINDS ⊆ RETRY_KINDS)).
Qed.

(** The contract of concurrency holds of a server's tool but for the namespace. *)
Lemma mcp_contract server raw c :
  validate_concurrency_contract (mcp_descriptor sha256_hex server raw c)
  = if negb (String.eqb (mcp_tool_name sha256_hex server raw) "mcp") then Ok (mcp_descriptor sha256_hex server raw c) else Err ToolValueError.
Proof.
  unfold validate_concurrency_contract, mcp_descriptor, repeatable.
  cbn [d_source d_category d_name d_exclusive d_concurrency_safe d_lock_scope d_read_only d_idempotent d_retry rp_max_attempts].
  rewrite (bool_decide_eq_false_2 (MCP = CUSTOM)), (bool_decide_eq_true_2 (MCP = MCP)) by done. cbn [andb]. rewrite mcp_prefix.
  destruct (String.eqb _ "mcp"); cbn [negb]; [done|]. cbn [andb].
  cbn [d_source d_category d_name d_exclusive d_concurrency_safe d_lock_scope d_read_only d_idempotent d_retry rp_max_attempts].
  set (lock := if decide (raw ∈ mc_global_exclusive_tools c) then GLOBAL else if decide _ then SESSION else NONE).
  destruct (bool_decide (raw ∈ mc_read_only_tools c)), (bool_decide (raw ∈ mc_idempotent_tools c)), (bool_decide (lock = NONE));
    cbn [andb orb negb]; rewrite ?andb_false_r; done.
Qed.

(** The tools of a server enter the catalog under names of at most sixty-four letters, digits,
    underscores and hyphens in the namespace [mcp_], and with metadata that meets the contract of
    the catalog; a tool is refused only when nothing of its name is left or its capability is
    unusable. *)
Lemma mcp_descriptor_accepted server raw c :
  mcp_config c = Ok c ->
  tool_descriptor (mcp_descriptor sha256_hex server raw c)
  = if capability_valid ("mcp." +:+ server +:+ "." +:+ raw) && negb (String.eqb (mcp_tool_name sha256_hex server raw) "mcp")
    then Ok (mcp_descriptor sha256_hex server raw c) else Err ToolValueError.
Proof.
  intros (Hr & Hm & Ht)%mcp_config_numbers. unfold tool_descriptor. rewrite mcp_contract.
  assert (Hall : bool_decide (set_Forall (fun x => capability_valid x = true) (d_capabilities (mcp_descriptor sha256_hex server raw c)))
                 = capability_valid ("mcp." +:+ server +:+ "." +:+ raw)).
  { cbn [d_capabilities mcp_descriptor]. destruct (capability_valid _) eqn:Hv; [apply bool_decide_eq_true|apply bool_decide_eq_false];
      rewrite set_Forall_singleton; congruence. }
  rewrite Hall. cbn [d_name d_prompt_priority d_version d_category d_timeout d_max_concurrency d_retry mcp_descriptor].
  rewrite mcp_name_valid, mcp_retry_valid by (destruct (_ || _); lia). unfold between.
  rewrite (proj2 (Z.leb_le 0 (mc_max_concurrency c))), (proj2 (Z.leb_le (mc_max_concurrency c) 100)) by lia.
  apply andb_true_iff in Ht as [-> ->]. by destruct (capability_valid _).
Qed.
End names.

(** ** A server of searches *)

Definition no_hash (s : string) : string := "00000000".
Definition search_server (enabled : list string) : MCPServerConfig :=
  {| mc_transport := Some Stdio; mc_command := "npx"; mc_args := []; mc_env := ∅; mc_cwd := ""; mc_url := ""; mc_headers := ∅;
     mc_allow_private_network := false; mc_enabled_tools := enabled; mc_read_only_tools := {["search"]}; mc_idempotent_tools := ∅;
     mc_high_risk_tools := ∅; mc_session_exclusive_tools := ∅; mc_global_exclusive_tools := ∅; mc_retry_attempts := 2;
     mc_max_concurrency := 1; mc_timeout := seconds 30; mc_scopes := {[WORKER]} |}.
Lemma mcp_descriptor_accepted_witness :
  tool_descriptor (mcp_descriptor no_hash "_" "_" (search_server ["*"])) = Err ToolValueError /\
  tool_descriptor (mcp_descriptor no_hash "git hub" "issues" (search_server ["*"])) = Err ToolValueError /\
  mcp_tool_name no_hash "git hub" "issues" = "mcp_git_hub_issues".
Proof.
  split; [|split; [|vm_compute; reflexivity]].
  - rewrite (mcp_descriptor_accepted no_hash (fun _ => le_n 8) (fun _ => eq_refl) "_" "_" (search_server ["*"]) eq_refl).
    vm_compute. reflexivity.
  - rewrite (mcp_descriptor_accepted no_hash (fun _ => le_n 8) (fun _ => eq_refl) "git hub" "issues" (search_server ["*"]) eq_refl).
    vm_compute. reflexivity.
Defined.

Section mcp_safety.
Variable sha256_hex : string -> string.
Variable world : nat -> ConnectScript.

(** ** The catalog *)

Lemma unregister_lookup src p c n d :
  tc_descriptors (unregister_provider src p c).2 !! n = Some d <-> tc_descriptors c !! n = Some d /\ ~ of_provider src p d.
Proof.
  unfold unregister_provider. cbn [snd]. case_decide as Hgone.
  - split; [|tauto]. intros Hn. split; [done|]. intros Hp. apply (map_empty_filter_1 _ _ Hgone n d Hn). done.
  - cbn. by rewrite map_lookup_filter_Some.
Qed.

(** A descriptor that the configuration of a connection accounts for. *)
Definition accounted (server : string) (c : MCPServerConfig) (d : ToolDescriptor) : Prop :=
  exists raw, enabled_tool sha256_hex server raw c = true /\ tool_descriptor (mcp_descriptor sha256_hex server raw c) = Ok d.

Record mcp_ok (s : McpState) : Prop := {
  ok_tools : forall n d, tc_descriptors (ms_catalog s) !! n = Some d -> d_source d = MCP ->
    exists c, ms_connections s !! d_provider d = Some c /\ cn_session c ∈ ms_open s /\ accounted (d_provider d) (cn_config c) d;
  ok_fresh : forall server c, ms_connections s !! server = Some c -> (cn_session c < ms_next s)%nat;
  ok_apart : forall server server' c c', ms_connections s !! server = Some c -> ms_connections s !! server' = Some c' ->
    cn_session c = cn_session c' -> server = server';
  ok_open : forall i, i ∈ ms_open s -> exists server c, ms_connections s !! server = Some c /\ cn_session c = i;
}.

(** ** Disconnecting *)

Definition disconnected (server : string) (s : McpState) : McpState :=
  let s1 := unregister_server server (set_connections (delete server (ms_connections s)) s) in
  match ms_connections s !! server with Some c => aclose (cn_session c) s1 | None => s1 end.

Lemma disconnect_run server s : disconnect server s = (Ok (), disconnected server s).
Proof. unfold disconnect, disconnected. rewrite py_bind_eq. cbn [py_gets]. rewrite py_bind_eq. cbn. by destruct (ms_connections s !! server). Qed.

(** The server of a state without tools and connection of it. *)
Definition absent (server : string) (s : McpState) : Prop :=
  ms_connections s !! server = None /\ forall n d, tc_descriptors (ms_catalog s) !! n = Some d -> ~ of_provider MCP server d.

Lemma disconnected_ok server s : mcp_ok s -> mcp_ok (disconnected server s) /\ absent server (disconnected server s).
Proof.
  intros [H1 H2 H3 H4].
  assert (Hconn : ms_connections (disconnected server s) = delete server (ms_connections s)) by (unfold disconnected; by case_match).
  assert (Hcat : ms_catalog (disconnected server s) = (unregister_provider MCP server (ms_catalog s)).2) by (unfold disconnected; by case_match).
  assert (Hnext : ms_next (disconnected server s) = ms_next s) by (unfold disconnected; by case_match).
  assert (Hopen : forall i, i ∈ ms_open (disconnected server s) <->
                    i ∈ ms_open s /\ forall c, ms_connections s !! server = Some c -> cn_session c <> i).
  { intros i. unfold disconnected. destruct (ms_connections s !! server) as [c|]; cbn; [|naive_solver].
    rewrite elem_of_difference, elem_of_singleton. naive_solver. }
  split; [split|split].
  - intros n d Hn Hs. rewrite Hcat in Hn. apply unregister_lookup in Hn as [Hn Hp].
    destruct (H1 n d Hn Hs) as (c & Hc & Ho & Ha). exists c. rewrite Hconn.
    assert (Hne : server <> d_provider d) by (intros ->; by apply Hp). rewrite lookup_delete_ne by done.
    split; [done|]. split; [|done]. apply Hopen. split; [done|]. intros c' Hc' He. by destruct (Hne (H3 _ _ _ _ Hc' Hc He)).
  - intros sv c Hc. rewrite Hconn in Hc. apply lookup_delete_Some in Hc as [_ Hc]. rewrite Hnext. by eapply H2.
  - intros sv sv' c c' Hc Hc' He. rewrite Hconn in Hc, Hc'. apply lookup_delete_Some in Hc as [_ Hc], Hc' as [_ Hc']. by eapply H3.
  - intros i Hi. apply Hopen in Hi as [Hi Hno]. destruct (H4 i Hi) as (sv & c & Hc & He). exists sv, c. rewrite Hconn.
    split; [|done]. apply lookup_delete_Some. split; [|done]. intros ->. by destruct (Hno c Hc).
  - rewrite Hconn. apply lookup_delete_eq.
  - intros n d Hn. rewrite Hcat in Hn. by apply unregister_lookup in Hn as [_ Hp].
Qed.

(** ** Discovering *)

Definition connected (server : string) (c : MCPServerConfig) (session : nat) (s : McpState) : Prop :=
  mcp_ok s /\ ms_connections s !! server = Some {| cn_config := c; cn_session := session |} /\ session ∈ ms_open s.

Lemma register_keeps server c session d s next :
  connected server c session s -> accounted server c d -> d_provider d = server ->
  register d false (ms_catalog s) = Ok next -> connected server c session (set_catalog next s).
Proof.
  intros ([H1 H2 H3 H4] & Hc & Ho) Ha Hp. unfold register. destruct (_ && _); [done|]. intros [= <-].
  split; [|done]. split; try done. intros n d' Hn Hs. cbn in Hn. apply lookup_insert_Some in Hn as [[_ <-]|[_ Hn]].
  - rewrite Hp. by eexists.
  - by eapply H1.
Qed.

Lemma descriptor_provider d d' : tool_descriptor d = Ok d' -> d_provider d' = d_provider d /\ d_source d' = d_source d /\ d_name d' = d_name d.
Proof. unfold tool_descriptor, validate_concurrency_contract. repeat case_match; try done; by intros [= <-]. Qed.

Lemma discover_keeps server c session script : py_inv (connected server c session) (discover sha256_hex server script c).
Proof.
  unfold discover. destruct (cn_tools script) as [listed|]; [|apply py_inv_raise]. case_match; [apply py_inv_raise|].
  apply py_inv_bind; [|intros _; case_match; [apply py_inv_ret|apply py_inv_raise]].
  apply py_inv_iter. intros raw. unfold py_when. destruct (enabled_tool _ _ _ _) eqn:He; [|apply py_inv_ret].
  unfold register_mcp, lift_tool. destruct (tool_descriptor _) as [d|e] eqn:Hd; [|intros s Hs; exact Hs].
  intros s Hs. rewrite py_bind_eq. cbn [mret py_ret]. rewrite py_bind_eq. cbn [py_gets].
  destruct (register d false (ms_catalog s)) as [next|e] eqn:Hr; [|exact Hs].
  destruct (descriptor_provider _ _ Hd) as (Hp & _). cbn. eapply register_keeps; [exact Hs| |exact Hp|exact Hr]. by exists raw.
Qed.

(** ** Connecting *)

(** The connection a failed attempt leaves has no tools and no open session. *)
Definition forgotten (server : string) (session : nat) (s : McpState) : McpState := unregister_server server (aclose session s).

Lemma forgotten_ok server c session s :
  connected server c session s -> mcp_ok (forgotten server session s).
Proof.
  intros ([H1 H2 H3 H4] & Hc & Ho). split; cbn.
  - intros n d Hn Hs. apply unregister_lookup in Hn as [Hn Hp]. destruct (H1 n d Hn Hs) as (c' & Hc' & Ho' & Ha).
    exists c'. split; [done|]. split; [|done]. apply elem_of_difference. split; [done|].
    intros He%elem_of_singleton. apply Hp. split; [done|]. symmetry. by apply (H3 _ _ _ _ Hc Hc').
  - exact H2.
  - exact H3.
  - intros i [Hi _]%elem_of_difference. by apply H4.
Qed.

Lemma next_ok s : mcp_ok s -> mcp_ok (set_next (S (ms_next s)) s).
Proof. intros [H1 H2 H3 H4]. split; try done. intros sv c Hc. specialize (H2 sv c Hc). cbn. lia. Qed.

(** A session that never opened, or whose connection was not recorded. *)
Lemma unrecorded_ok server session s o :
  mcp_ok s -> absent server s -> session ∉ ms_open s -> o = ms_open s \/ o = {[session]} ∪ ms_open s ->
  mcp_ok (forgotten server session (set_open o s)).
Proof.
  intros [H1 H2 H3 H4] [_ Hno] Hs Ho.
  assert (Hopen : forall i, i ∈ o ∖ {[session]} <-> i ∈ ms_open s).
  { intros i. rewrite elem_of_difference, elem_of_singleton. destruct Ho as [->| ->]; set_solver. }
  split; cbn; [|exact H2|exact H3|].
  - intros n d [Hn _]%unregister_lookup Hm. destruct (H1 n d Hn Hm) as (c & Hc & Hi & Ha). exists c. by rewrite Hopen.
  - intros i Hi%Hopen. by apply H4.
Qed.

Lemma recorded_connected server c session s m :
  mcp_ok s -> absent server s -> (session < ms_next s)%nat ->
  (forall sv c', ms_connections s !! sv = Some c' -> cn_session c' <> session) ->
  connected server c session
    (set_mcp_semaphores m (set_connections (<[server := {| cn_config := c; cn_session := session |}]> (ms_connections s))
                             (set_open ({[session]} ∪ ms_open s) s))).
Proof.
  intros [H1 H2 H3 H4] [Hnone Hno] Hs Hfresh. split; [split|split]; cbn.
  - intros n d Hn Hm. destruct (H1 n d Hn Hm) as (c' & Hc' & Ho & Ha). exists c'.
    rewrite lookup_insert_ne by (intros ->; by rewrite Hc' in Hnone). split; [done|]. split; [|done]. set_solver.
  - intros sv c' [[<- <-]|[_ Hc']]%lookup_insert_Some; [done|by eapply H2].
  - intros sv sv' c1 c2 [[<- <-]|[Hne1 Hc1]]%lookup_insert_Some [[<- <-]|[Hne2 Hc2]]%lookup_insert_Some He; try done.
    + cbn in He. by destruct (Hfresh sv' c2 Hc2).
    + cbn in He. by destruct (Hfresh sv c1 Hc1).
    + by eapply H3.
  - intros i [->%elem_of_singleton|Hi]%elem_of_union.
    + exists server. eexists. split; [apply lookup_insert_eq|done].
    + destruct (H4 i Hi) as (sv & c' & Hc' & He). exists sv, c'. rewrite lookup_insert_ne; [done|]. intros ->. by rewrite Hc' in Hnone.
  - apply lookup_insert_eq.
  - set_solver.
Qed.

Abbreviation connect' server c := (connect sha256_hex world server c).

(** The run of [connect]: before discovery, and what discovery and the cleanup make of it. *)
Lemma connect_run server c s :
  let s1 := disconnected server s in
  let session := ms_next s1 in
  let s2 := set_next (S session) s1 in
  mcp_ok s ->
  mcp_ok (connect' server c s).2 /\
  (cn_opens (world session) = true -> cn_initializes (world session) = true -> remote c && negb (cn_address_ok (world session)) = false ->
   exists s3, connected server c session s3 /\
     connect' server c s = or_else (discover sha256_hex server (world session) c) (forgotten server session) s3).
Proof.
  cbv zeta. intros Hok. destruct (disconnected_ok server s Hok) as [Hok1 Habs].
  set (s1 := disconnected server s) in *. set (session := ms_next s1). set (s2 := set_next (S session) s1).
  assert (Hok2 : mcp_ok s2) by by apply next_ok.
  assert (Hfresh : forall sv c', ms_connections s2 !! sv = Some c' -> cn_session c' <> session)
    by (intros sv c' Hc'; pose proof (ok_fresh _ Hok1 sv c' Hc'); unfold session; lia).
  assert (Hclosed : session ∉ ms_open s2).
  { intros Hi. destruct (ok_open _ Hok2 session Hi) as (sv & c' & Hc' & He). by apply (Hfresh sv c'). }
  unfold connect. rewrite py_bind_eq, disconnect_run. fold s1. rewrite py_bind_eq. cbn [py_gets]. rewrite py_bind_eq. cbn [py_modify].
  fold session s2. destruct (remote c && negb (cn_address_ok (world session))); [by split; [exact Hok2|]|].
  unfold or_else, open_and_discover. destruct (cn_opens (world session)); cbn [negb].
  2: { split; [|done]. exact (unrecorded_ok server session s2 (ms_open s2) Hok2 Habs Hclosed (or_introl eq_refl)). }
  rewrite py_bind_eq. cbn [py_modify]. destruct (cn_initializes (world session)); cbn [negb].
  2: { split; [|done]. exact (unrecorded_ok server session s2 _ Hok2 Habs Hclosed (or_intror eq_refl)). }
  rewrite py_bind_eq. cbn [py_modify].
  match goal with |- context [discover _ _ _ _ ?x] => set (s3 := x) end.
  assert (H3 : connected server c session s3).
  { unfold s3, recorded. assert (Hlt : (session < ms_next s2)%nat) by (cbn; lia). case_match.
    - exact (recorded_connected server c session s2 (ms_semaphores s2) Hok2 Habs Hlt Hfresh).
    - exact (recorded_connected server c session s2 _ Hok2 Habs Hlt Hfresh). }
  split.
  - pose proof (discover_keeps server c session (world session) s3 H3) as Hk.
    destruct (discover _ _ _ _ s3) as [[[]|e] s4]; [apply Hk|by eapply forgotten_ok].
  - intros _ _ _. by exists s3.
Qed.

(** ** Whatever the runtime does *)

Inductive mcp_step (s : McpState) : McpState -> Prop :=
| ms_connect_all configs : mcp_step s (connect_all sha256_hex world configs s).2
| ms_call server e : mcp_step s (call_tool sha256_hex world server e s).2
| ms_close : mcp_step s (close s).2
| ms_register d replace c : d_source d <> MCP -> register d replace (ms_catalog s) = Ok c -> mcp_step s (set_catalog c s)
| ms_unregister name : mcp_step s (set_catalog (unregister name (ms_catalog s)) s)
| ms_unregister_provider source provider : mcp_step s (set_catalog (unregister_provider source provider (ms_catalog s)).2 s).

Lemma inv_disconnect server : py_inv mcp_ok (disconnect server).
Proof. intros s Hs. rewrite disconnect_run. apply disconnected_ok, Hs. Qed.

Lemma inv_connect server c : py_inv mcp_ok (connect' server c).
Proof. intros s Hs. by apply connect_run. Qed.

Lemma inv_connect_all configs : py_inv mcp_ok (connect_all sha256_hex world configs).
Proof.
  unfold connect_all, lift_tool. apply py_inv_bind; [case_match; [apply py_inv_ret|apply py_inv_raise]|]. intros valid.
  apply py_inv_bind; [apply py_inv_gets|]. intros removed. apply py_inv_bind; [apply py_inv_iter, inv_disconnect|]. intros _.
  apply py_inv_iter. intros kv. unfold connect_one. apply py_inv_bind; [apply py_inv_gets|]. intros current.
  case_match; [apply py_inv_ret|apply inv_connect].
Qed.

Lemma fewer_tools_ok s c :
  mcp_ok s -> (forall n d, tc_descriptors c !! n = Some d -> d_source d = MCP -> tc_descriptors (ms_catalog s) !! n = Some d) ->
  mcp_ok (set_catalog c s).
Proof. intros [H1 H2 H3 H4] Hc. split; try done. intros n d Hn Hs. apply (H1 n d); [by apply Hc|done]. Qed.

Lemma mcp_ok_step s s' : mcp_step s s' -> mcp_ok s -> mcp_ok s'.
Proof.
  intros [configs|server e| |d replace c Hd Hr|name|source provider] Hok.
  - by apply inv_connect_all.
  - unfold call_tool. rewrite py_bind_eq. cbn [py_gets]. destruct (ms_connections s !! server) as [c|]; [|done].
    destruct e; try done. rewrite py_bind_eq. pose proof (inv_connect server (cn_config c) s Hok) as Hc.
    by destruct (connect' server (cn_config c) s) as [[[]|e] s1].
  - unfold close. rewrite py_bind_eq. cbn [py_gets]. by apply (py_inv_iter mcp_ok), Hok; apply inv_disconnect.
  - apply fewer_tools_ok; [done|]. intros n d' Hn Hs. unfold register in Hr. destruct (_ && _); [done|]. injection Hr as <-.
    cbn in Hn. by apply lookup_insert_Some in Hn as [[_ ->]|[_ Hn]].
  - apply fewer_tools_ok; [done|]. intros n d' Hn Hs. unfold unregister in Hn. destruct (_ !! name); [|done].
    cbn in Hn. by apply lookup_delete_Some in Hn as [_ Hn].
  - apply fewer_tools_ok; [done|]. intros n d' Hn Hs. by apply unregister_lookup in Hn as [Hn _].
Qed.

Definition new_mcp : McpState :=
  {| ms_catalog := new_catalog; ms_connections := ∅; ms_open := ∅; ms_semaphores := ∅; ms_next := 0 |}.

Lemma mcp_reach s : rtc mcp_step new_mcp s -> mcp_ok s.
Proof.
  intros Hrun. assert (Hstart : mcp_ok new_mcp) by (split; cbn; set_solver). revert Hstart.
  induction Hrun as [|x y z Hxy _ IH]; [done|]. intros Hx. by eapply IH, mcp_ok_step.
Qed.

(** While the operations do not overlap, are not cancelled and close their transports, every
    MCP tool of the catalog is one its server's present configuration enables, with the
    descriptor that configuration gives it, and its session is open; and every open session
    belongs to a connection. *)
Lemma mcp_tools_have_open_sessions s :
  rtc mcp_step new_mcp s ->
  (forall n d, tc_descriptors (ms_catalog s) !! n = Some d -> d_source d = MCP ->
     exists c raw, ms_connections s !! d_provider d = Some c /\ cn_session c ∈ ms_open s /\
       enabled_tool sha256_hex (d_provider d) raw (cn_config c) = true /\
       tool_descriptor (mcp_descriptor sha256_hex (d_provider d) raw (cn_config c)) = Ok d) /\
  (forall i, i ∈ ms_open s -> exists server c, ms_connections s !! server = Some c /\ cn_session c = i).
Proof.
  intros [H1 _ _ H4]%mcp_reach. split; [|exact H4]. intros n d Hn Hs.
  destruct (H1 n d Hn Hs) as (c & Hc & Ho & raw & He & Hd). by exists c, raw.
Qed.

(** A server whose transport opens but whose discovery fails keeps a connection with its
    configuration and a closed session and no tool; connecting the same configuration again
    skips it. *)
Lemma failed_discovery_is_never_retried server c s e s' :
  rtc mcp_step new_mcp s ->
  let session := ms_next s in
  cn_opens (world session) = true -> cn_initializes (world session) = true -> remote c && negb (cn_address_ok (world session)) = false ->
  connect' server c s = (Err e, s') ->
  ms_connections s' !! server = Some {| cn_config := c; cn_session := session |} /\ session ∉ ms_open s' /\
  (forall n d, tc_descriptors (ms_catalog s') !! n = Some d -> d_source d = MCP -> d_provider d <> server) /\
  connect_one sha256_hex world (server, c) s' = (Ok (), s').
Proof.
  intros Hok%mcp_reach. cbv zeta. assert (Hsame : ms_next (disconnected server s) = ms_next s) by (unfold disconnected; by case_match).
  destruct (connect_run server c s Hok) as [_ Hrun]. rewrite Hsame in Hrun. intros Hopen Hinit Haddr Herr.
  destruct (Hrun Hopen Hinit Haddr) as (s3 & H3 & Heq). rewrite Herr in Heq. unfold or_else in Heq.
  pose proof (discover_keeps server c (ms_next s) (world (ms_next s)) s3 H3) as Hk.
  destruct (discover _ _ _ _ s3) as [[[]|e'] s4]; [done|]. injection Heq as -> ->. destruct Hk as (_ & Hc & _). cbn in Hc.
  assert (Hconn : ms_connections (forgotten server (ms_next s) s4) !! server = Some {| cn_config := c; cn_session := ms_next s |}) by done.
  split_and!; [done| | |].
  - cbn. set_solver.
  - intros n d [_ Hp]%unregister_lookup Hs He. by apply Hp.
  - unfold connect_one. rewrite py_bind_eq. cbn [py_gets fst snd]. rewrite Hconn. cbn. by rewrite bool_decide_eq_true_2.
Qed.
(** ** Operations that overlap *)

(** A tool registered by an attempt to connect whose connection its server has, or lost to a
    disconnect while the attempt was listing its tools. *)
Definition registered_by (w : McpWorld) (d : ToolDescriptor) : Prop :=
  exists c session listed raw,
    (d_provider d, c, session) ∈ mw_tried w /\ cn_tools (world session) = Some listed /\ raw ∈ listed /\
    enabled_tool sha256_hex (d_provider d) raw c = true /\
    tool_descriptor (mcp_descriptor sha256_hex (d_provider d) raw c) = Ok d /\
    (ms_connections (mw_state w) !! d_provider d = Some {| cn_config := c; cn_session := session |}
     \/ session ∈ mw_overtaken w).

Definition mcp_tool (c : ToolCatalog) (d : ToolDescriptor) : Prop :=
  (exists n, tc_descriptors c !! n = Some d) /\ d_source d = MCP.
Definition tools_registered (w : McpWorld) (c : ToolCatalog) : Prop := forall d, mcp_tool c d -> registered_by w d.

(** Where the transport of an open session is known. *)
Definition session_known (w : McpWorld) (i : nat) : Prop :=
  (exists server c, ms_connections (mw_state w) !! server = Some c /\ cn_session c = i)
  \/ (exists id t, mw_tasks w !! id = Some t /\ i ∈ held t)
  \/ i ∈ mw_lost w.

Definition before_listing (p : McpPoint) : bool := match p with Listing _ | Failing _ => false | _ => true end.
Definition session_of (p : McpPoint) : option nat :=
  match p with ClosingOld _ => None | Opening i | Initializing i | Listing i | Failing i => Some i end.

Record world_ok (w : McpWorld) : Prop := {
  wo_open : forall i, i ∈ ms_open (mw_state w) -> session_known w i;
  wo_free : forall id server c p, mw_tasks w !! id = Some (Connecting server c p) -> before_listing p = true ->
    ms_connections (mw_state w) !! server = None;
  wo_lock : forall id id' server c c' p p', mw_tasks w !! id = Some (Connecting server c p) ->
    mw_tasks w !! id' = Some (Connecting server c' p') -> id = id';
  wo_tried : forall id server c p i, mw_tasks w !! id = Some (Connecting server c p) -> session_of p = Some i ->
    (server, c, i) ∈ mw_tried w;
  wo_ids : forall id t, mw_tasks w !! id = Some t -> (id < mw_next w)%nat;
}.

(** What discovery does to the runtime: its catalog, by registrations of listed and enabled tools. *)
Definition discovered (server : string) (c : MCPServerConfig) (session : nat) (d : ToolDescriptor) : Prop :=
  exists listed raw, cn_tools (world session) = Some listed /\ raw ∈ listed /\ enabled_tool sha256_hex server raw c = true /\
    tool_descriptor (mcp_descriptor sha256_hex server raw c) = Ok d.

Lemma discover_inv server c session (P : McpState -> Prop) :
  (forall d s next, P s -> discovered server c session d -> register d false (ms_catalog s) = Ok next -> P (set_catalog next s)) ->
  py_inv P (discover sha256_hex server (world session) c).
Proof.
  intros HP. unfold discover. destruct (cn_tools (world session)) as [listed|] eqn:Hl; [|apply py_inv_raise].
  case_match; [apply py_inv_raise|]. apply py_inv_bind; [|intros _; case_match; [apply py_inv_ret|apply py_inv_raise]].
  assert (Hsub : forall x, x ∈ listed -> x ∈ listed) by done. revert Hsub. generalize listed at 1 3 as l.
  induction l as [|raw l IH]; intros Hsub; [apply py_inv_ret|]. cbn [py_iter].
  apply py_inv_bind; [|intros _; apply IH; set_solver]. unfold py_when.
  destruct (enabled_tool _ _ _ _) eqn:He; [|apply py_inv_ret]. unfold register_mcp, lift_tool.
  destruct (tool_descriptor _) as [d|e] eqn:Hd; [|intros s Hs; exact Hs].
  intros s Hs. rewrite py_bind_eq. cbn [mret py_ret]. rewrite py_bind_eq. cbn [py_gets].
  destruct (register d false (ms_catalog s)) as [next|e] eqn:Hr; [|exact Hs]. cbn. eapply HP; [done| |done].
  exists listed, raw. split_and!; [done|set_solver|done..].
Qed.

Lemma discover_catalog server c session s :
  exists catalog, (discover sha256_hex server (world session) c s).2 = set_catalog catalog s.
Proof.
  pose proof (discover_inv server c session (fun s' => exists catalog, s' = set_catalog catalog s)) as Hd.
  apply Hd; [|by exists (ms_catalog s); destruct s]. intros d s' next (cat & ->) _ _. by exists next.
Qed.

(** Replacing one task, or ending it. *)
Definition replaced (o : option McpTask) (id : nat) (m : gmap nat McpTask) : gmap nat McpTask :=
  match o with Some t => <[id := t]> m | None => delete id m end.

Lemma replaced_lookup o id m i t :
  replaced o id m !! i = Some t <-> (i = id /\ o = Some t) \/ (i <> id /\ m !! i = Some t).
Proof.
  unfold replaced. destruct o as [t'|]; [rewrite lookup_insert_Some|rewrite lookup_delete_Some]; naive_solver.
Qed.

(** What a step keeps of the places of sessions. *)
Definition conn_kept (w w' : McpWorld) : Prop :=
  forall sv c, ms_connections (mw_state w) !! sv = Some c -> ms_connections (mw_state w') !! sv = Some c.

Lemma known_replace w w' id t o i :
  mw_tasks w !! id = Some t -> mw_tasks w' = replaced o id (mw_tasks w) -> conn_kept w w' -> mw_lost w ⊆ mw_lost w' ->
  session_known w i -> session_known w' i \/ i ∈ held t.
Proof.
  intros Ht Htasks Hc Hl [(sv & c & Hsv & He)|[(id' & t' & Ht' & Hh)|Hlost]].
  - left. left. exists sv, c. split; [by apply Hc|done].
  - destruct (decide (id' = id)) as [->|Hne]; [right; congruence|]. left. right. left. exists id', t'.
    split; [|done]. rewrite Htasks. apply replaced_lookup. by right.
  - left. right. right. by apply Hl.
Qed.

(** A step of one task keeps the invariant when it accounts for its own changes. *)
Lemma ok_replace w w' id t o :
  world_ok w -> mw_tasks w !! id = Some t -> mw_tasks w' = replaced o id (mw_tasks w) -> mw_next w' = mw_next w ->
  mw_tried w ⊆ mw_tried w' ->
  (forall i, i ∈ ms_open (mw_state w') -> session_known w' i) ->
  (forall t', o = Some t' -> exists server c p p', t = Connecting server c p /\ t' = Connecting server c p'
     /\ (before_listing p' = true -> before_listing p = true) /\
     (before_listing p = true -> before_listing p' = true -> ms_connections (mw_state w') !! server = None)
     /\ forall i, session_of p' = Some i -> (server, c, i) ∈ mw_tried w') ->
  (forall sv, ms_connections (mw_state w) !! sv = None -> (forall c p, t <> Connecting sv c p) ->
     ms_connections (mw_state w') !! sv = None) ->
  world_ok w'.
Proof.
  intros [_ Hfree Hlock Htried Hids] Ht Htasks Hnext Hsub Hopen Hnew Hconn. split; [done| | | |].
  - intros id' sv c p Hp Hb. rewrite Htasks in Hp. apply replaced_lookup in Hp as [[-> ->]|[Hne Hp]].
    + destruct (Hnew _ eq_refl) as (sv' & c' & p0 & p' & -> & [= -> -> ->] & Hmono & Hnone & _). by apply Hnone; [apply Hmono|].
    + apply Hconn; [by eapply Hfree|]. intros c' p' ->. apply Hne. by eapply Hlock.
  - intros id1 id2 sv c1 c2 p1 p2 H1 H2. rewrite Htasks in H1, H2.
    apply replaced_lookup in H1 as [[-> ->]|[Hne1 H1]], H2 as [[-> He]|[Hne2 H2]]; [done| | |by eapply Hlock].
    + destruct (Hnew _ eq_refl) as (sv' & c' & p0 & p' & -> & [= -> -> ->] & _). by eapply Hlock.
    + subst o. destruct (Hnew _ eq_refl) as (sv' & c' & p0 & p' & -> & [= -> -> ->] & _). by eapply Hlock.
  - intros id' sv c p i Hp Hi. rewrite Htasks in Hp. apply replaced_lookup in Hp as [[-> ->]|[Hne Hp]].
    + destruct (Hnew _ eq_refl) as (sv' & c' & p0 & p' & -> & [= -> -> ->] & _ & _ & Htr). by apply Htr.
    + apply Hsub. by eapply Htried.
  - intros id' t' Hp. rewrite Htasks in Hp. rewrite Hnext. apply replaced_lookup in Hp as [[-> _]|[_ Hp]]; by eapply Hids.
Qed.

(** Closing [i] removes it from the open sessions or loses it. *)
Lemma closing_open i closes w j :
  j ∈ ms_open (mw_state (closing i closes w)) -> j ∈ ms_open (mw_state w) /\ (j = i -> i ∈ mw_lost (closing i closes w)).
Proof. unfold closing. destruct closes; cbn; set_solver. Qed.
Lemma closing_conn i closes w : ms_connections (mw_state (closing i closes w)) = ms_connections (mw_state w).
Proof. by destruct closes. Qed.
Lemma closing_catalog i closes w : ms_catalog (mw_state (closing i closes w)) = ms_catalog (mw_state w).
Proof. by destruct closes. Qed.
Lemma closing_tasks i closes w : mw_tasks (closing i closes w) = mw_tasks w.
Proof. by destruct closes. Qed.
Lemma closing_next i closes w : mw_next (closing i closes w) = mw_next w.
Proof. by destruct closes. Qed.
Lemma closing_tried i closes w : mw_tried (closing i closes w) = mw_tried w.
Proof. by destruct closes. Qed.
Lemma closing_lost i closes w : mw_lost w ⊆ mw_lost (closing i closes w).
Proof. destruct closes; cbn; set_solver. Qed.

(** A task that only closes what it holds and is done. *)
Lemma ok_closed w id t i closes :
  world_ok w -> mw_tasks w !! id = Some t -> held t = {[i]} -> world_ok (closing i closes (ended id w)).
Proof.
  intros Hw Ht Hh. apply (ok_replace w _ id t None); rewrite ?closing_tasks, ?closing_next, ?closing_tried, ?closing_conn;
    try done.
  intros j [Hj Hi]%closing_open. destruct (known_replace w (closing i closes (ended id w)) id t None j) as [?|Hin]; try done.
  - by rewrite closing_tasks.
  - intros sv c Hc. by rewrite closing_conn.
  - apply (closing_lost i closes (ended id w)).
  - by apply (wo_open _ Hw).
  - rewrite Hh in Hin. apply elem_of_singleton in Hin. right. right. rewrite Hin. by apply Hi.
Qed.

Lemma ok_old w id server c old closes :
  world_ok w -> mw_tasks w !! id = Some (Connecting server c (ClosingOld old)) -> world_ok (step_old id server c old closes w).
Proof.
  intros Hw Ht. set (w' := step_old id server c old closes w).
  assert (Hst : ms_connections (mw_state w') = ms_connections (mw_state w) /\ ms_catalog (mw_state w') = ms_catalog (mw_state w)
    /\ mw_tasks w' = replaced (Some (Connecting server c (Opening (ms_next (mw_state w))))) id (mw_tasks w)
    /\ mw_next w' = mw_next w /\ mw_tried w' = (server, c, ms_next (mw_state w)) :: mw_tried w /\ mw_lost w ⊆ mw_lost w'
    /\ forall j, j ∈ ms_open (mw_state w') -> j ∈ ms_open (mw_state w) /\ (old = Some j -> j ∈ mw_lost w')).
  { unfold w', step_old, closing_old, closing. destruct old as [i|]; [destruct closes|]; cbn; split_and!; try done; set_solver. }
  destruct Hst as (Hc & Hcat & Htasks & Hnext & Htried & Hlost & Hopen).
  apply (ok_replace w _ id (Connecting server c (ClosingOld old)) (Some (Connecting server c (Opening (ms_next (mw_state w)))))); try done.
  - rewrite Htried. set_solver.
  - intros j [Hj Hold]%Hopen.
    destruct (known_replace w w' id _ _ j Ht Htasks) as [?|Hin]; [|done|by apply (wo_open _ Hw)|done|].
    + intros sv x Hx. by rewrite Hc.
    + cbn in Hin. destruct old as [i|]; [|set_solver]. apply elem_of_singleton in Hin as ->. right. right. by apply Hold.
  - intros t' [= <-]. exists server, c, (ClosingOld old), (Opening (ms_next (mw_state w))). do 3 (split; [done|]).
    split; [intros _ _; rewrite Hc; by eapply (wo_free _ Hw)|]. intros i [= <-]. rewrite Htried. set_solver.
  - intros sv Hsv _. by rewrite Hc.
Qed.

(** A connecting task that moves on and changes neither connections nor catalog. *)
Lemma ok_moved w w' id server c p p' i :
  world_ok w -> mw_tasks w !! id = Some (Connecting server c p) -> session_of p = Some i -> session_of p' = Some i ->
  (before_listing p' = true -> before_listing p = true) ->
  mw_tasks w' = replaced (Some (Connecting server c p')) id (mw_tasks w) -> mw_next w' = mw_next w ->
  mw_tried w' = mw_tried w -> mw_lost w' = mw_lost w ->
  ms_connections (mw_state w') = ms_connections (mw_state w) ->
  (forall j, j ∈ ms_open (mw_state w') -> j ∈ ms_open (mw_state w) \/ j ∈ held (Connecting server c p')) ->
  held (Connecting server c p) ⊆ held (Connecting server c p') -> world_ok w'.
Proof.
  intros Hw Ht Hi Hi' Hb Htasks Hnext Htried Hlost Hc Hopen Hheld.
  apply (ok_replace w w' id (Connecting server c p) (Some (Connecting server c p'))); try done; try by rewrite ?Htried.
  - assert (Hnew : forall j, j ∈ held (Connecting server c p') -> session_known w' j).
    { intros j Hj. right. left. exists id, (Connecting server c p'). split; [|done]. rewrite Htasks. apply replaced_lookup. by left. }
    intros j [Hj|Hj]%Hopen; [|by apply Hnew].
    destruct (known_replace w w' id _ _ j Ht Htasks) as [?|Hin]; [|by rewrite Hlost|by apply (wo_open _ Hw)|done|].
    + intros sv x Hx. by rewrite Hc.
    + by apply Hnew, Hheld.
  - intros t' [= <-]. exists server, c, p, p'. do 3 (split; [done|]). split; [intros Hp _; rewrite Hc; by eapply (wo_free _ Hw)|].
    intros j Hj. rewrite Htried. replace j with i by congruence. by eapply (wo_tried _ Hw).
  - intros sv Hsv _. by rewrite Hc.
Qed.

Lemma ok_initialized w id server c session :
  world_ok w -> mw_tasks w !! id = Some (Connecting server c (Initializing session)) ->
  world_ok (at_point id server c (Listing session) (on_state (recorded server session c) w)).
Proof.
  intros Hw Ht. set (w' := at_point _ _ _ _ _).
  assert (Hst : ms_connections (mw_state w') = <[server := {| cn_config := c; cn_session := session |}]> (ms_connections (mw_state w))
     /\ ms_catalog (mw_state w') = ms_catalog (mw_state w) /\ ms_open (mw_state w') = ms_open (mw_state w))
    by (unfold w', recorded; cbn; by case_match).
  destruct Hst as (Hc & Hcat & Hopen). pose proof (wo_free _ Hw _ _ _ _ Ht eq_refl) as Hnone.
  apply (ok_replace w w' id (Connecting server c (Initializing session)) (Some (Connecting server c (Listing session)))); try done.
  - intros j Hj. rewrite Hopen in Hj.
    destruct (known_replace w w' id _ (Some (Connecting server c (Listing session))) j Ht eq_refl) as [?|Hin]; [|done|by apply (wo_open _ Hw)|done|].
    + intros sv x Hx. rewrite Hc. apply lookup_insert_Some. right. split; [|done]. intros ->. by rewrite Hx in Hnone.
    + cbn in Hin. apply elem_of_singleton in Hin as ->. left. exists server. eexists. rewrite Hc.
      split; [apply lookup_insert_eq|done].
  - intros t' [= <-]. exists server, c, (Initializing session), (Listing session). do 4 (split; [done|]).
    intros i [= <-]. by eapply (wo_tried _ Hw).
  - intros sv Hsv Hne. rewrite Hc. apply lookup_insert_None. split; [done|]. intros ->. by eapply Hne.
Qed.

Lemma ok_listed w id server c session :
  world_ok w -> mw_tasks w !! id = Some (Connecting server c (Listing session)) ->
  world_ok (step_listed sha256_hex world id server c session w).
Proof.
  intros Hw Ht. unfold step_listed.
  destruct (discover_catalog server c session (mw_state w)) as [cat Hcat].
  destruct (discover _ _ _ _ _) as [r s]. cbn in Hcat. subst s. destruct r as [u|e].
  - eapply (ok_replace w _ id _ None Hw Ht); try done. intros i Hi. cbn in Hi.
    match goal with |- session_known ?w' _ =>
      destruct (known_replace w w' id _ None i Ht eq_refl) as [?|Hin]; [by intros sv x Hx|done|by apply (wo_open _ Hw)|done|set_solver] end.
  - eapply (ok_moved w _ id server c (Listing session) (Failing session)); try done.
    intros j Hj. by left.
Qed.


Lemma ok_failed w id server c session closes :
  world_ok w -> mw_tasks w !! id = Some (Connecting server c (Failing session)) -> world_ok (step_failed id server session closes w).
Proof.
  intros Hw Ht. pose proof (ok_closed w id _ session closes Hw Ht eq_refl) as Hok. unfold step_failed.
  destruct closes; [|done]. destruct Hok as [H2 H3 H4 H5 H6]. by split.
Qed.

Lemma ok_cancelled w id t : world_ok w -> mw_tasks w !! id = Some t -> world_ok (lose (held t) (ended id w)).
Proof.
  intros Hw Ht. apply (ok_replace w _ id t None); try done. intros i Hi.
  destruct (known_replace w (lose (held t) (ended id w)) id t None i) as [?|Hin]; try done.
  - by intros sv x Hx.
  - cbn. set_solver.
  - by apply (wo_open _ Hw).
  - right. right. cbn. set_solver.
Qed.

(** ** Tasks that start *)

(** Popping the connection of a server and handing its session to a new task. *)
Lemma ok_started w server t :
  world_ok w -> (forall c, ms_connections (mw_state w) !! server = Some c -> cn_session c ∈ held t) ->
  (forall sv c p, t = Connecting sv c p -> sv = server /\ session_of p = None /\ unlocked server w) ->
  world_ok (spawn t (on_state (popped server) w)).
Proof.
  intros [H2 H3 H4 H5 H6] Hheld Ht. set (w' := spawn _ _).
  assert (Hnew : forall i x, mw_tasks w' !! i = Some x -> (i = mw_next w /\ x = t) \/ (i <> mw_next w /\ mw_tasks w !! i = Some x)).
  { intros i x Hx. unfold w', spawn in Hx. cbn in Hx. apply lookup_insert_Some in Hx as [[<- <-]|[? ?]]; [by left|right].
    split; [congruence|done]. }
  assert (Hold : forall i x, mw_tasks w !! i = Some x -> mw_tasks w' !! i = Some x).
  { intros i x Hx. unfold w', spawn. cbn. rewrite lookup_insert_ne; [done|]. intros <-. apply H6 in Hx. lia. }
  assert (Hlocked : forall i sv c p x c' p', t = Connecting sv c p -> mw_tasks w !! i = Some x -> x <> Connecting sv c' p').
  { intros i sv c p x c' p' He Hx ->. destruct (Ht _ _ _ He) as (-> & _ & Hu). by apply (Hu i c' p'). }
  split.
  - intros i Hi. cbn in Hi. destruct (H2 i Hi) as [(sv & c & Hc & He)|[(id & x & Hx & Hh)|Hl]].
    + destruct (decide (sv = server)) as [->|Hne].
      * right. left. exists (mw_next w), t. split; [unfold w', spawn; cbn; by rewrite lookup_insert_eq|]. rewrite <- He. by apply Hheld.
      * left. exists sv, c. unfold w'. cbn. by rewrite lookup_delete_ne.
    + right. left. exists id, x. split; [by apply Hold|done].
    + by right; right.
  - intros id sv c p [[-> He]|[_ Hx]]%Hnew Hb; unfold w'; cbn.
    + symmetry in He. destruct (Ht _ _ _ He) as (-> & _). apply lookup_delete_eq.
    + apply lookup_delete_None. right. by eapply H3.
  - intros id id' sv c c' p p' [[-> He]|[_ Hx]]%Hnew [[-> He']|[_ Hx']]%Hnew; [done| | |by eapply H4].
    + symmetry in He. by destruct (Hlocked _ _ _ _ _ c' p' He Hx').
    + symmetry in He'. by destruct (Hlocked _ _ _ _ _ c p He' Hx).
  - intros id sv c p i [[-> He]|[_ Hx]]%Hnew Hi; [|by eapply H5].
    symmetry in He. destruct (Ht _ _ _ He) as (_ & Hno & _). by rewrite Hno in Hi.
  - intros id x [[-> _]|[_ Hx%H6]]%Hnew; unfold w'; cbn; lia.
Qed.

Lemma ok_popped_nothing w server :
  world_ok w -> ms_connections (mw_state w) !! server = None -> world_ok (on_state (popped server) w).
Proof.
  intros [H2 H3 H4 H5 H6] Hnone. split; [| |done|done|done].
  - intros i Hi. destruct (H2 i Hi) as [(sv & c & Hc & He)|Hrest]; [left|by right]. exists sv, c. cbn.
    rewrite lookup_delete_ne; [done|]. intros ->. by rewrite Hc in Hnone.
  - intros id sv c p Hx Hb. cbn. apply lookup_delete_None. right. by eapply H3.
Qed.

Lemma ok_step w w' : mcp_task_step sha256_hex world w w' -> world_ok w -> world_ok w'.
Proof.
  intros [server c Hu|server|id server c old closes Ht|id server c session Ht|id server c session Ht|id server c session Ht
    |id server c session Ht|id server c session Ht|id server c session Ht|id server c session closes Ht|id old closes Ht|id t Ht|f Hf] Hw.
  - apply ok_started; [done| |by intros sv c' p [= <- _ <-]]. intros x Hx. rewrite Hx. cbn. set_solver.
  - unfold start_disconnect. destruct (ms_connections (mw_state w) !! server) as [c|] eqn:Hc; [|by apply ok_popped_nothing].
    assert (Hok : world_ok (spawn (Disconnecting (cn_session c)) (on_state (popped server) w))).
    { apply ok_started; [done| |done]. intros x Hx. rewrite Hc in Hx. injection Hx as <-. cbn. set_solver. }
    case_match; [|exact Hok]. destruct Hok as [H2 H3 H4 H5 H6]. by split.
  - by apply ok_old.
  - pose proof (ok_cancelled w id _ Hw Ht) as [H2 H3 H4 H5 H6]. split; try done.
    intros i Hi. destruct (H2 i Hi) as [?|[?|Hl]]; [by left|by right; left|]. right. right. cbn in Hl. set_solver.
  - eapply (ok_moved w _ id server c (Opening session) (Initializing session) session Hw Ht); try done;
      cbn; set_solver.
  - by apply ok_initialized.
  - eapply (ok_moved w _ id server c (Opening session) (Failing session) session Hw Ht); try done;
      by left.
  - eapply (ok_moved w _ id server c (Initializing session) (Failing session) session Hw Ht); try done;
      by left.
  - by apply ok_listed.
  - by eapply ok_failed.
  - by eapply ok_closed.
  - by apply ok_cancelled.
  - destruct Hw as [H2 H3 H4 H5 H6]. by split.
Qed.

Definition new_world : McpWorld :=
  {| mw_state := new_mcp; mw_tasks := ∅; mw_next := 0; mw_lost := ∅; mw_overtaken := ∅; mw_tried := [] |}.

Lemma world_reach w : rtc (mcp_task_step sha256_hex world) new_world w -> world_ok w.
Proof.
  apply (rtc_ind_r world_ok); [|intros; by eapply ok_step].
  split; [set_solver|..].
  - intros id sv c p Hx. cbn in Hx. by apply lookup_empty_Some in Hx.
  - intros id id' sv c c' p p' Hx. cbn in Hx. by apply lookup_empty_Some in Hx.
  - intros id sv c p i Hx. cbn in Hx. by apply lookup_empty_Some in Hx.
  - intros id t Hx. cbn in Hx. by apply lookup_empty_Some in Hx.
Qed.

(** ** Whose the tools are *)

(** The attempt has registered nothing yet. *)
Definition early (p : McpPoint) : bool := match p with Failing _ => false | _ => true end.

Record tools_ok (w : McpWorld) : Prop := {
  to_tools : tools_registered w (ms_catalog (mw_state w));
  to_early : forall id server c p, mw_tasks w !! id = Some (Connecting server c p) -> early p = true ->
    forall d, mcp_tool (ms_catalog (mw_state w)) d -> d_provider d <> server;
  to_listing : forall id server c i, mw_tasks w !! id = Some (Connecting server c (Listing i)) ->
    ms_connections (mw_state w) !! server = Some {| cn_config := c; cn_session := i |} \/ i ∈ mw_overtaken w;
}.

Lemma registered_mono w w' d :
  mw_tried w ⊆ mw_tried w' -> mw_overtaken w ⊆ mw_overtaken w' ->
  ms_connections (mw_state w') !! d_provider d = ms_connections (mw_state w) !! d_provider d ->
  registered_by w d -> registered_by w' d.
Proof.
  intros Htr Hov Hc (c & i & l & raw & H1 & H2 & H3 & H4 & H5 & H6). exists c, i, l, raw. rewrite Hc.
  split_and!; [by apply Htr|done..|]. destruct H6 as [?|?]; [by left|right; by apply Hov].
Qed.

(** A step that registers nothing, leaves the connections alone and lets no attempt start listing. *)
Lemma tools_quiet w w' :
  tools_ok w -> mw_tried w ⊆ mw_tried w' -> mw_overtaken w' = mw_overtaken w ->
  ms_connections (mw_state w') = ms_connections (mw_state w) ->
  (forall d, mcp_tool (ms_catalog (mw_state w')) d -> mcp_tool (ms_catalog (mw_state w)) d) ->
  (forall id sv c p, mw_tasks w' !! id = Some (Connecting sv c p) -> early p = true ->
     exists p0, mw_tasks w !! id = Some (Connecting sv c p0) /\ early p0 = true /\ (forall i, p = Listing i -> p0 = p)) ->
  tools_ok w'.
Proof.
  intros [H1 H2 H3] Htr Hov Hc Hcat Htasks. split.
  - intros d Hd%Hcat. eapply registered_mono; [exact Htr|by rewrite Hov|by rewrite Hc|by apply H1].
  - intros id sv c p Hp He d Hd%Hcat. destruct (Htasks _ _ _ _ Hp He) as (p0 & Hp0 & He0 & _). by eapply H2.
  - intros id sv c i Hp. destruct (Htasks _ _ _ _ Hp eq_refl) as (p0 & Hp0 & _ & Hl). rewrite (Hl i eq_refl) in Hp0.
    rewrite Hc, Hov. by eapply H3.
Qed.

(** The same for a step of one task. *)
Lemma tools_replace w w' id t o :
  tools_ok w -> mw_tasks w !! id = Some t -> mw_tasks w' = replaced o id (mw_tasks w) ->
  mw_tried w ⊆ mw_tried w' -> mw_overtaken w' = mw_overtaken w ->
  ms_connections (mw_state w') = ms_connections (mw_state w) ->
  (forall d, mcp_tool (ms_catalog (mw_state w')) d -> mcp_tool (ms_catalog (mw_state w)) d) ->
  (forall sv c p, o = Some (Connecting sv c p) -> early p = true ->
     exists p0, t = Connecting sv c p0 /\ early p0 = true /\ (forall i, p = Listing i -> p0 = p)) ->
  tools_ok w'.
Proof.
  intros Hw Ht Htasks Htr Hov Hc Hcat Ho. apply (tools_quiet w); [done..|]. intros id' sv c p Hp He.
  rewrite Htasks in Hp. apply replaced_lookup in Hp as [[-> Hp]|[_ Hp]].
  - destruct (Ho _ _ _ Hp He) as (p0 & -> & ? & ?). by exists p0.
  - by exists p.
Qed.

Lemma mcp_tool_unregister server c d :
  mcp_tool (unregister_provider MCP server c).2 d -> mcp_tool c d /\ d_provider d <> server.
Proof. intros [[n [Hn Hp]%unregister_lookup] Hs]. split; [split; eauto|]. intros He. by apply Hp. Qed.

Lemma tools_initialized w id server c session :
  world_ok w -> tools_ok w -> mw_tasks w !! id = Some (Connecting server c (Initializing session)) ->
  tools_ok (at_point id server c (Listing session) (on_state (recorded server session c) w)).
Proof.
  intros Hw [H1 H2 H3] Ht. set (w' := at_point _ _ _ _ _).
  assert (Hst : ms_connections (mw_state w') = <[server := {| cn_config := c; cn_session := session |}]> (ms_connections (mw_state w))
     /\ ms_catalog (mw_state w') = ms_catalog (mw_state w)) by (unfold w', recorded; cbn; by case_match).
  destruct Hst as (Hc & Hcat).
  assert (Hclean : forall d, mcp_tool (ms_catalog (mw_state w)) d -> d_provider d <> server) by (by eapply H2).
  split; rewrite ?Hcat.
  - intros d Hd. eapply (registered_mono w); [done..| |by apply H1]. rewrite Hc, lookup_insert_ne; [done|].
    apply not_eq_sym. by apply Hclean.
  - intros id' sv c' p Hp He d Hd. unfold w' in Hp. cbn in Hp. apply lookup_insert_Some in Hp as [[_ [= <- _ _]]|[_ Hp]].
    + by apply Hclean.
    + by eapply H2.
  - intros id' sv c' i Hp. unfold w' in Hp. cbn in Hp. rewrite Hc.
    apply lookup_insert_Some in Hp as [[_ [= <- <- <-]]|[Hne Hp]]; [left; apply lookup_insert_eq|].
    rewrite lookup_insert_ne; [by eapply H3|]. intros <-. apply Hne. by eapply (wo_lock _ Hw).
Qed.

Lemma tools_listed w id server c session :
  world_ok w -> tools_ok w -> mw_tasks w !! id = Some (Connecting server c (Listing session)) ->
  tools_ok (step_listed sha256_hex world id server c session w).
Proof.
  intros Hw [H1 H2 H3] Ht.
  set (new d := d_provider d = server /\ registered_by w d).
  set (P s := (exists catalog, s = set_catalog catalog (mw_state w))
              /\ forall d, mcp_tool (ms_catalog s) d -> mcp_tool (ms_catalog (mw_state w)) d \/ new d).
  assert (HP : P (discover sha256_hex server (world session) c (mw_state w)).2).
  { apply discover_inv; [|split; [by exists (ms_catalog (mw_state w)); destruct (mw_state w)|by left]].
    intros d s next [[cat ->] Hcat] (l & raw & Hl & Hraw & He & Hd) Hr. split; [by exists next|].
    intros d' [[n Hn] Hs]. unfold register in Hr. destruct (_ && _); [done|]. injection Hr as <-. cbn in Hn.
    apply lookup_insert_Some in Hn as [[_ <-]|[_ Hn]]; [|apply Hcat; split; eauto]. right.
    destruct (descriptor_provider _ _ Hd) as (Hp & _). cbn in Hp. split; [done|]. rewrite <- Hp in *.
    exists c, session, l, raw. split_and!; [by eapply (wo_tried _ Hw)|done..|by eapply H3]. }
  set (w' := step_listed _ _ _ _ _ _ _).
  assert (Hst : exists o, mw_tasks w' = replaced o id (mw_tasks w) /\ (o = None \/ o = Some (Connecting server c (Failing session)))
    /\ mw_state w' = (discover sha256_hex server (world session) c (mw_state w)).2
    /\ mw_tried w' = mw_tried w /\ mw_overtaken w' = mw_overtaken w).
  { unfold w', step_listed. destruct (discover _ _ _ _ _) as [[u|e] s]; [exists None|eexists (Some _)]; split_and!; eauto. }
  destruct Hst as (o & Htasks & Ho & Hs & Htr & Hov). rewrite <- Hs in HP. destruct HP as [[cat Hcat] Hnew].
  assert (Hc : ms_connections (mw_state w') = ms_connections (mw_state w)) by by rewrite Hcat.
  assert (Hold : forall i sv c' p, mw_tasks w' !! i = Some (Connecting sv c' p) -> early p = true ->
            i <> id /\ mw_tasks w !! i = Some (Connecting sv c' p)).
  { intros i sv c' p Hp He. rewrite Htasks in Hp. apply replaced_lookup in Hp as [[-> Hp]|Hp]; [|done].
    by destruct Ho as [->| ->]; [|injection Hp as <- <- <-]. }
  split.
  - intros d Hd. apply (registered_mono w); [by rewrite Htr|by rewrite Hov|by rewrite Hc|]. apply Hnew in Hd as [Hd|[_ Hd]]; eauto.
  - intros i sv c' p Hp He d Hd. destruct (Hold _ _ _ _ Hp He) as [Hne Hp']. apply Hnew in Hd as [Hd|[<- _]]; [by eapply H2|].
    intros <-. apply Hne. by eapply (wo_lock _ Hw).
  - intros i sv c' j Hp. destruct (Hold _ _ _ _ Hp eq_refl) as [_ Hp']. rewrite Hc, Hov. by eapply H3.
Qed.

(** Popping the connection of a server. *)
Lemma tools_popped w w' server :
  tools_ok w -> mw_tried w' = mw_tried w -> mw_overtaken w ⊆ mw_overtaken w' -> mw_state w' = popped server (mw_state w) ->
  (forall id sv c p, mw_tasks w' !! id = Some (Connecting sv c p) ->
     mw_tasks w !! id = Some (Connecting sv c p) \/ (sv = server /\ exists old, p = ClosingOld old)) ->
  (forall id c i, mw_tasks w !! id = Some (Connecting server c (Listing i)) -> i ∈ mw_overtaken w') ->
  tools_ok w'.
Proof.
  intros [H1 H2 H3] Htr Hov Hs Htasks Hl.
  assert (Hcat : forall d, mcp_tool (ms_catalog (mw_state w')) d -> mcp_tool (ms_catalog (mw_state w)) d /\ d_provider d <> server).
  { rewrite Hs. intros d. apply mcp_tool_unregister. }
  split.
  - intros d [Hd Hne]%Hcat. apply (registered_mono w); [by rewrite Htr|done| |by apply H1]. rewrite Hs. cbn.
    by rewrite lookup_delete_ne.
  - intros id sv c p Hp He d [Hd Hne]%Hcat. apply Htasks in Hp as [Hp|[-> _]]; [by eapply H2|done].
  - intros id sv c i Hp. apply Htasks in Hp as [Hp|[_ [old Hp]]]; [|done]. rewrite Hs. cbn.
    destruct (decide (sv = server)) as [->|Hne]; [right; by eapply Hl|]. rewrite lookup_delete_ne by done.
    destruct (H3 _ _ _ _ Hp) as [?|?]; [by left|right; by apply Hov].
Qed.

Lemma listing_true w id server c i : mw_tasks w !! id = Some (Connecting server c (Listing i)) -> listing i w = true.
Proof.
  intros Ht. unfold listing. apply existsb_exists. eexists (id, _). split.
  - apply list_elem_of_In, elem_of_map_to_list. exact Ht.
  - cbn. apply Nat.eqb_refl.
Qed.

Lemma tools_start_disconnect w server : tools_ok w -> tools_ok (start_disconnect server w).
Proof.
  intros Hw. pose proof Hw as [_ _ H3].
  assert (Hst : mw_tried (start_disconnect server w) = mw_tried w /\ mw_overtaken w ⊆ mw_overtaken (start_disconnect server w)
    /\ mw_state (start_disconnect server w) = popped server (mw_state w)).
  { unfold start_disconnect. destruct (ms_connections _ !! server); [case_match|]; split_and!; try done. cbn. set_solver. }
  destruct Hst as (Htr & Hov & Hs). eapply (tools_popped w); [done..| |].
  - intros id sv c p. unfold start_disconnect. destruct (ms_connections _ !! server); [|by left].
    cbn. intros Hp. apply lookup_insert_Some in Hp as [[_ [=]]|[_ Hp]]. left. by destruct (listing _ _).
  - intros id c i Ht. destruct (H3 _ _ _ _ Ht) as [Hc|?]; [|by apply Hov]. unfold start_disconnect. rewrite Hc. cbn [cn_session].
    rewrite (listing_true _ _ _ _ _ Ht). cbn. set_solver.
Qed.

Lemma tools_step w w' : mcp_task_step sha256_hex world w w' -> world_ok w -> tools_ok w -> tools_ok w'.
Proof.
  intros [server c Hu|server|id server c old closes Ht|id server c session Ht|id server c session Ht|id server c session Ht
    |id server c session Ht|id server c session Ht|id server c session Ht|id server c session closes Ht|id old closes Ht|id t Ht|f Hf] Hw Ho.
  - eapply (tools_popped w _ server); try done; [|by intros id c' i Hi%Hu].
    intros id sv c' p Hp. cbn in Hp. apply lookup_insert_Some in Hp as [[_ [= <- _ <-]]|[_ Hp]]; [right; eauto|by left].
  - by apply tools_start_disconnect.
  - eapply (tools_replace w _ id _ (Some _) Ho Ht); unfold step_old, closing_old, closing; cbn;
      try (destruct old as [i|]; [destruct closes|]; cbn; done || set_solver).
  - by eapply (tools_replace w _ id _ None Ho Ht).
  - eapply (tools_replace w _ id _ (Some _) Ho Ht); try done. intros sv c' p [= <- <- <-] _. by eexists.
  - by apply tools_initialized.
  - eapply (tools_replace w _ id _ (Some _) Ho Ht); try done. by intros sv c' p [= <- <- <-].
  - eapply (tools_replace w _ id _ (Some _) Ho Ht); try done. by intros sv c' p [= <- <- <-].
  - by apply tools_listed.
  - eapply (tools_replace w _ id _ None Ho Ht); unfold step_failed, closing; destruct closes; try done.
    by intros d [Hd _]%mcp_tool_unregister.
  - by eapply (tools_replace w _ id _ None Ho Ht); destruct closes.
  - by eapply (tools_replace w _ id _ None Ho Ht).
  - apply (tools_quiet w); try done; [|by eauto]. intros d [[n Hn] Hs]. split; [exists n; by apply Hf|done].
Qed.

Lemma tools_reach w : rtc (mcp_task_step sha256_hex world) new_world w -> tools_ok w.
Proof.
  intros Hr. assert (Hboth : world_ok w /\ tools_ok w); [|by destruct Hboth]. revert Hr.
  apply (rtc_ind_r (fun w => world_ok w /\ tools_ok w)).
  - split; [by apply world_reach|]. split; cbn.
    + intros d [[n Hn] _]. cbn in Hn. by apply lookup_empty_Some in Hn.
    + intros id sv c p Hx. by apply lookup_empty_Some in Hx.
    + intros id sv c i Hx. by apply lookup_empty_Some in Hx.
  - intros y z _ Hs [Hy Ho]. split; [by eapply ok_step|by eapply tools_step].
Qed.

(** C22: however connecting, calling, reconnecting and closing overlap, whatever servers answer,
    wherever an operation is cancelled and whichever transports fail to close: every MCP tool of
    the catalog was listed by its server to an attempt to connect it whose configuration enables
    the tool, and has exactly the descriptor that configuration gives it; the server's connection
    is the one of that attempt, unless a disconnect, which takes no lock, removed it while the
    attempt was waiting for the list.  And every session with an open transport belongs to the
    connection of a server, or to an operation under way that will close or record it, or to an
    operation that was cancelled or whose close raised, so only those leave a transport open with
    no connection to close it. *)
Theorem mcp_tools_and_sessions_accounted w :
  rtc (mcp_task_step sha256_hex world) new_world w ->
  (forall n d, tc_descriptors (ms_catalog (mw_state w)) !! n = Some d -> d_source d = MCP ->
     exists c session listed raw, (d_provider d, c, session) ∈ mw_tried w /\ cn_tools (world session) = Some listed /\
       raw ∈ listed /\ enabled_tool sha256_hex (d_provider d) raw c = true /\
       tool_descriptor (mcp_descriptor sha256_hex (d_provider d) raw c) = Ok d /\
       (ms_connections (mw_state w) !! d_provider d = Some {| cn_config := c; cn_session := session |}
        \/ session ∈ mw_overtaken w)) /\
  (forall i, i ∈ ms_open (mw_state w) ->
     (exists server c, ms_connections (mw_state w) !! server = Some c /\ cn_session c = i)
     \/ (exists id t, mw_tasks w !! id = Some t /\ i ∈ held t)
     \/ i ∈ mw_lost w).
Proof.
  intros Hr. split.
  - intros n d Hn Hs. apply (to_tools _ (tools_reach _ Hr)). split; eauto.
  - apply (wo_open _ (world_reach _ Hr)).
Qed.
End mcp_safety.

(** ** A server that connects, and one whose tools are not the configured ones *)

Definition search_world (n : nat) : ConnectScript :=
  {| cn_address_ok := true; cn_opens := true; cn_initializes := true; cn_tools := Some ["search"] |}.

(** A server connects and its tool is registered; a second one is cancelled while it initialises. *)
Abbreviation mcp_steps := (rtc (mcp_task_step no_hash search_world)).
Definition overlap1 : McpWorld := start_connect "github" (search_server ["*"]) new_world.
Definition overlap2 : McpWorld := start_connect "other" (search_server ["*"]) overlap1.
Definition overlap3 : McpWorld := step_old 0 "github" (search_server ["*"]) None true overlap2.
Definition overlap4 : McpWorld := step_old 1 "other" (search_server ["*"]) None true overlap3.
Definition opened_at (id : nat) (server : string) (session : nat) (w : McpWorld) : McpWorld :=
  at_point id server (search_server ["*"]) (Initializing session) (on_state (fun s => set_open ({[session]} ∪ ms_open s) s) w).
Definition overlap5 : McpWorld := opened_at 0 "github" 0 overlap4.
Definition overlap6 : McpWorld := opened_at 1 "other" 1 overlap5.
Definition overlap7 : McpWorld :=
  at_point 0 "github" (search_server ["*"]) (Listing 0) (on_state (recorded "github" 0 (search_server ["*"])) overlap6).
Definition overlap8 : McpWorld := lose {[1%nat]} (ended 1 overlap7).
Definition overlap9 : McpWorld := step_listed no_hash search_world 0 "github" (search_server ["*"]) 0 overlap8.

Lemma overlap_reachable : mcp_steps new_world overlap9.
Proof.
  eapply rtc_l; [apply (mt_connect _ _ new_world "github" (search_server ["*"])); intros i c p Hi; cbn in Hi; by apply lookup_empty_Some in Hi|].
  change (start_connect _ _ new_world) with overlap1.
  eapply rtc_l; [apply (mt_connect _ _ overlap1 "other" (search_server ["*"]))|].
  { intros i c p Hi. cbn in Hi. by apply lookup_insert_Some in Hi as [[_ [=]]|[_ ?%lookup_empty_Some]]. }
  change (start_connect "other" _ _) with overlap2.
  eapply rtc_l; [apply (mt_old _ _ overlap2 0 "github" (search_server ["*"]) None true); vm_compute; reflexivity|].
  change (step_old 0 _ _ _ _ _) with overlap3.
  eapply rtc_l; [apply (mt_old _ _ overlap3 1 "other" (search_server ["*"]) None true); vm_compute; reflexivity|].
  change (step_old 1 _ _ _ _ _) with overlap4.
  eapply rtc_l; [apply (mt_opened _ _ overlap4 0 "github" (search_server ["*"]) 0); vm_compute; reflexivity|].
  change (at_point 0 _ _ _ _) with overlap5.
  eapply rtc_l; [apply (mt_opened _ _ overlap5 1 "other" (search_server ["*"]) 1); vm_compute; reflexivity|].
  change (at_point 1 _ _ _ _) with overlap6.
  eapply rtc_l; [apply (mt_initialized _ _ overlap6 0 "github" (search_server ["*"]) 0); vm_compute; reflexivity|].
  change (at_point 0 _ _ _ (on_state (recorded _ _ _) _)) with overlap7.
  eapply rtc_l; [apply (mt_cancelled _ _ overlap7 1 (Connecting "other" (search_server ["*"]) (Initializing 1))); vm_compute; reflexivity|].
  change (lose _ _) with overlap8.
  apply rtc_once. apply (mt_listed _ _ overlap8 0 "github" (search_server ["*"]) 0). vm_compute. reflexivity.
Qed.

(** The cancelled attempt has left its transport open, with no connection and no task. *)
Lemma cancelled_connect_leaks :
  1%nat ∈ ms_open (mw_state overlap9) /\ mw_tasks overlap9 = ∅ /\ ms_connections (mw_state overlap9) !! "other" = None.
Proof. split; [|split; vm_compute; reflexivity]. apply (bool_decide_unpack _). vm_compute. exact I. Qed.

(** A disconnect in place of that cancellation: the tool is registered with no connection. *)
Definition overtaken8 : McpWorld := start_disconnect "github" overlap7.
Definition overtaken9 : McpWorld := step_listed no_hash search_world 0 "github" (search_server ["*"]) 0 overtaken8.
Lemma disconnect_overtakes_listing :
  mcp_steps overlap7 overtaken9 /\ ms_connections (mw_state overtaken9) !! "github" = None
  /\ is_Some (tc_descriptors (ms_catalog (mw_state overtaken9)) !! "mcp_github_search").
Proof.
  split; [|split; [vm_compute; reflexivity|eexists; vm_compute; reflexivity]].
  eapply rtc_l; [apply (mt_disconnect _ _ overlap7 "github")|]. change (start_disconnect _ _) with overtaken8.
  apply rtc_once. apply (mt_listed _ _ overtaken8 0 "github" (search_server ["*"]) 0). vm_compute. reflexivity.
Qed.

Lemma mcp_tools_and_sessions_accounted_witness :
  exists d, tc_descriptors (ms_catalog (mw_state overlap9)) !! "mcp_github_search" = Some d /\
    exists c session listed raw, (d_provider d, c, session) ∈ mw_tried overlap9 /\ cn_tools (search_world session) = Some listed /\
      raw ∈ listed /\ enabled_tool no_hash (d_provider d) raw c = true /\
      tool_descriptor (mcp_descriptor no_hash (d_provider d) raw c) = Ok d /\
      (ms_connections (mw_state overlap9) !! d_provider d = Some {| cn_config := c; cn_session := session |}
       \/ session ∈ mw_overtaken overlap9).
Proof.
  assert (Hd : exists d, tc_descriptors (ms_catalog (mw_state overlap9)) !! "mcp_github_search" = Some d /\ d_source d = MCP).
  { eexists. split; [vm_compute; reflexivity|reflexivity]. }
  destruct Hd as (d & Hd & Hs). exists d. split; [exact Hd|].
  exact (proj1 (mcp_tools_and_sessions_accounted no_hash search_world overlap9 overlap_reachable) _ _ Hd Hs).
Defined.
