(* ===== verification/ContextLayers.v ===== *)
(** * ContextLayers: the messages a model is shown, and the layers that shorten them

    The messages of LangChain as the context layers read them, the token estimate, the marks of
    synthetic context ([server/agent/compression/internal_context.py]), the removal of halves of
    tool calls ([message_integrity.py]), the clearing of old tool results ([micro_compact.py]), the
    folding of old ranges, which are staged, summarised and shown as one tag
    ([context_collapse.py]), and the summary of all but the newest messages ([auto_compact.py]).
    The content of a message is text.  [rough] is [rough_token_count_estimation] of the payload of
    a message ([utils/tokens.py]): floating point over the JSON text.  The model that writes
    summaries is the argument [summarize], which answers [None] where the call raises; the clock is
    an argument. *)
From S2P Require Import Prelude PyText Json.
Local Open Scope Z_scope.

(** ** Messages *)

(** One entry of [tool_calls]: its id, its name and the text it passes as [file_path]. *)
Record CallRef := { cl_id : option string; cl_name : string; cl_file_path : option string }.

Inductive Body :=
| SystemMessage
| HumanMessage
| AIMessage (tool_calls : list CallRef)
| ToolMessage (tool_call_id : string) (name : string).

Record BaseMessage := {
  m_id : option string;
  m_body : Body;
  m_content : string;
  m_kwargs : list (string * json);    (* additional_kwargs *)
  m_response : list (string * json);  (* response_metadata *)
}.

Definition is_system (m : BaseMessage) : bool := match m_body m with SystemMessage => true | _ => false end.
Definition is_human (m : BaseMessage) : bool := match m_body m with HumanMessage => true | _ => false end.
Definition is_ai (m : BaseMessage) : bool := match m_body m with AIMessage _ => true | _ => false end.
Definition is_tool (m : BaseMessage) : bool := match m_body m with ToolMessage _ _ => true | _ => false end.

(** [bool(value)] and [a or b] of metadata. *)
Definition json_truthy (v : json) : bool :=
  match v with
  | JNull => false
  | JBool b => b
  | JNum n => negb (n =? 0)
  | JStr s => negb (String.eqb s "")
  | JArr l => negb (bool_decide (l = []))
  | JObj l => negb (bool_decide (l = []))
  end.
Definition meta (key : string) (l : list (string * json)) : json := default JNull (jget key (JObj l)).
Definition json_or (a b : json) : json := if json_truthy a then a else b.

(** The id of a message when it is a text that is not empty ([if msg.id]). *)
Definition named (m : BaseMessage) : option string := i ← m_id m; if String.eqb i "" then None else Some i.

(** ** Token estimates *)

Section estimates.
Variable rough : BaseMessage -> Z.

(** [estimate_message_tokens], [rough_estimation_for_messages]. *)
Definition estimate_message_tokens (m : BaseMessage) : Z := 6 + rough m.
Definition rough_estimation_for_messages (l : list BaseMessage) : Z := sum_by estimate_message_tokens l.

Record ContextBudget := { context_window : Z; output_reserve : Z; safety_margin : Z; tool_schema_tokens : Z }.
Definition input_limit (b : ContextBudget) : Z :=
  Z.max 1 (context_window b - output_reserve b - safety_margin b - tool_schema_tokens b).

(** [share pct limit] is [int(limit * pct / 100)] in floating point. *)
Variable share : Z -> Z -> Z.
Definition threshold (pct : Z) (b : ContextBudget) : Z := Z.max 1 (share pct (input_limit b)).

(** ** Synthetic context *)

Definition SUMMARY_ZH : string := bytes [227; 128; 144; 229; 142; 134; 229; 143; 178; 229; 175; 185; 232; 175; 157; 230; 145; 152; 232; 166; 129; 227; 128; 145]%nat.
Definition REPORT_ZH : string :=
  bytes [231; 179; 187; 231; 187; 159; 230; 160; 184; 229; 191; 131; 232; 174; 176; 229; 191; 134; 229; 142; 139; 231; 188; 169; 230; 138; 165; 229; 145; 138]%nat.
Definition RESTORED_ZH : string :=
  bytes [227; 128; 144; 232; 135; 170; 229; 138; 168; 230; 129; 162; 229; 164; 141; 231; 154; 132; 228; 184; 138; 228; 184; 139; 230; 150; 135; 227; 128; 145]%nat.
Definition INTERNAL_OUTPUT_MARKERS : list string :=
  ["<internal_context"; SUMMARY_ZH; REPORT_ZH; "<collapsed id="; "[Context Snip Boundary]"; RESTORED_ZH].

Definition lstrip_text (s : string) : string := lstrip_from 0 s.
Definition looks_like_internal_output (content : string) : bool :=
  let text := str_take 512 (lstrip_text content) in existsb (fun marker => contains marker text) INTERNAL_OUTPUT_MARKERS.
Definition sanitize_public_output (content : string) : string :=
  if looks_like_internal_output content then "" else content.

Definition internal_context_metadata (kind : string) (extra : list (string * json)) : list (string * json) :=
  [("internal_context", JBool true); ("compression_kind", JStr kind)] ++ extra.

Definition is_internal_context_message (m : BaseMessage) : bool :=
  let content := lstrip_text (m_content m) in
  json_truthy (meta "internal_context" (m_kwargs m)) || json_truthy (meta "is_collapsed_summary" (m_kwargs m))
  || json_truthy (meta "snip_marker" (m_kwargs m)) || json_truthy (meta "snip_boundary" (m_kwargs m))
  || String.prefix SUMMARY_ZH content || String.prefix RESTORED_ZH content || looks_like_internal_output content.
Definition public_transcript_messages (l : list BaseMessage) : list BaseMessage :=
  List.filter (fun m => negb (is_internal_context_message m)) l.

(** ** Halves of tool calls *)

(** The ids of the calls of a message, and the ids for which the list holds a result. *)
Definition call_ids (m : BaseMessage) : list string :=
  match m_body m with
  | AIMessage calls => omap (fun c => i ← cl_id c; if String.eqb i "" then None else Some i) calls
  | _ => []
  end.
Definition has_calls (m : BaseMessage) : bool := match m_body m with AIMessage (_ :: _) => true | _ => false end.
Definition tool_result_of (m : BaseMessage) : option string := match m_body m with ToolMessage c _ => Some c | _ => None end.
Definition completed_ids (l : list BaseMessage) : gset string := list_to_set (omap tool_result_of l).

(** The loop of [remove_orphaned_tool_messages]. *)
Fixpoint drop_halves (completed declared : gset string) (l : list BaseMessage) : list BaseMessage :=
  match l with
  | [] => []
  | m :: l' =>
      if has_calls m && negb (forallb (fun c => bool_decide (c ∈ completed)) (call_ids m)) then drop_halves completed declared l'
      else
        let declared := if has_calls m then list_to_set (call_ids m) ∪ declared else declared in
        match tool_result_of m with
        | Some c => if decide (c ∈ declared) then m :: drop_halves completed declared l' else drop_halves completed declared l'
        | None => m :: drop_halves completed declared l'
        end
  end.
Definition remove_orphaned_tool_messages (l : list BaseMessage) : list BaseMessage := drop_halves (completed_ids l) ∅ l.

(** ** Clearing old tool results *)

Definition MC_CLEARED_PLACEHOLDER : string := "[Old tool result content cleared]".
Definition COMPACTABLE_TOOLS : gset string := {["read_local_file"; "get_current_time"; "web_fetch"]}.
Definition register_compactable_tool (name : string) (tools : gset string) : gset string := {[name]} ∪ tools.
Definition unregister_compactable_tool (name : string) (tools : gset string) : gset string := tools ∖ {[name]}.

(** [float_of v] is [float(v)] in microseconds, where Python accepts it. *)
Variable float_of : json -> option Z.

(** [_get_gap_since_last_ai_message], in microseconds. *)
Definition timestamp_of (m : BaseMessage) : json :=
  json_or (json_or (json_or (meta "created_at" (m_kwargs m)) (meta "timestamp" (m_kwargs m))) (meta "created_at" (m_response m)))
          (meta "timestamp" (m_response m)).
Fixpoint gap_in (now_ : Z) (newest_first : list BaseMessage) : option Z :=
  match newest_first with
  | [] => None
  | m :: l =>
      if is_ai m then
        match timestamp_of m with
        | JNull => gap_in now_ l
        | v => match float_of v with Some t => Some (now_ - t) | None => gap_in now_ l end
        end
      else gap_in now_ l
  end.
Definition get_gap_since_last_ai_message (now_ : Z) (l : list BaseMessage) : option Z := gap_in now_ (rev l).

(** [_collect_compactable_tool_ids]. *)
Definition compactable_id (tools : gset string) (m : BaseMessage) : option string :=
  match m_body m with
  | ToolMessage c name =>
      if negb (String.eqb (m_content m) MC_CLEARED_PLACEHOLDER) && bool_decide (name ∈ tools) then Some c else None
  | _ => None
  end.
Definition collect_compactable_tool_ids (tools : gset string) (l : list BaseMessage) : list string := omap (compactable_id tools) l.

(** [{**l, key: v}]. *)
Definition set_meta (key : string) (v : json) (l : list (string * json)) : list (string * json) :=
  if existsb (fun kv : string * json => String.eqb kv.1 key) l
  then (fun kv : string * json => if String.eqb kv.1 key then (key, v) else kv) <$> l
  else l ++ [(key, v)].
(** A message with its content cleared. *)
Definition cleared (m : BaseMessage) : BaseMessage :=
  {| m_id := m_id m; m_body := m_body m; m_content := MC_CLEARED_PLACEHOLDER;
     m_kwargs := set_meta "micro_compacted" (JBool true) (m_kwargs m); m_response := [] |}.
Definition is_micro_compacted (m : BaseMessage) : bool := is_tool m && json_truthy (meta "micro_compacted" (m_kwargs m)).

Record MicroCompactResult := { mc_messages : list BaseMessage; mc_tokens_freed : Z; mc_tools_cleared : Z }.
Definition unchanged (l : list BaseMessage) : MicroCompactResult :=
  {| mc_messages := l; mc_tokens_freed := 0; mc_tools_cleared := 0 |}.

Definition to_clear (clear_ids : list string) (m : BaseMessage) : bool :=
  match tool_result_of m with Some c => string_in c clear_ids | None => false end.

(** [_apply_micro_compact]. *)
Definition apply_micro_compact (l : list BaseMessage) (clear_ids : list string) : MicroCompactResult :=
  {| mc_messages := (fun m => if to_clear clear_ids m then cleared m else m) <$> l;
     mc_tokens_freed :=
       sum_by (fun m => if to_clear clear_ids m
                        then Z.max 0 (estimate_message_tokens m - Z.of_nat (String.length MC_CLEARED_PLACEHOLDER) / 4) else 0) l;
     mc_tools_cleared := Z.of_nat (length (List.filter (to_clear clear_ids) l)) |}.

(** [ids[:-keep]], all of them for zero. *)
Definition all_but (keep : nat) (ids : list string) : list string := take (length ids - keep) ids.

(** [micro_compact_if_needed]; [gap_threshold] is in microseconds. *)
Definition micro_compact_if_needed (tools : gset string) (gap_threshold : Z) (keep_recent : nat) (force : bool) (now_ : Z)
    (l : list BaseMessage) : MicroCompactResult :=
  let due := force || match get_gap_since_last_ai_message now_ l with Some g => gap_threshold <=? g | None => false end in
  if negb due then unchanged l
  else
    let clear_ids := all_but keep_recent (collect_compactable_tool_ids tools l) in
    if bool_decide (clear_ids = []) then unchanged l else apply_micro_compact l clear_ids.
End estimates.

Example internal_example :
  is_internal_context_message {| m_id := None; m_body := SystemMessage; m_content := "  <collapsed id=1>"; m_kwargs := []; m_response := [] |} = true.
Proof. vm_compute. reflexivity. Qed.

(** ** Folded ranges *)

Record CollapseCommit := {
  co_collapse_id : string;
  co_summary_uuid : string;
  co_summary_content : string;
  co_first : string;
  co_last : string;
}.
#[export] Instance collapse_commit_eq_dec : EqDecision CollapseCommit.
Proof. solve_decision. Defined.

(** [StagedSpan]; its summary and its risk keep the values they are made with. *)
Record StagedSpan := { sp_start : string; sp_end : string; sp_staged_at : Z }.
#[export] Instance staged_span_eq_dec : EqDecision StagedSpan.
Proof. solve_decision. Defined.

Record CollapseStore := {
  cs_commits : list CollapseCommit;
  cs_staged : list StagedSpan;
  cs_uuid_to_id : gmap string string;
  cs_enabled : bool;
}.
Definition new_collapse_store : CollapseStore :=
  {| cs_commits := []; cs_staged := []; cs_uuid_to_id := ∅; cs_enabled := true |}.

Definition with_staged (l : list StagedSpan) (s : CollapseStore) : CollapseStore :=
  {| cs_commits := cs_commits s; cs_staged := l; cs_uuid_to_id := cs_uuid_to_id s; cs_enabled := cs_enabled s |}.
Definition add_commit (c : CollapseCommit) (s : CollapseStore) : CollapseStore :=
  {| cs_commits := cs_commits s ++ [c]; cs_staged := cs_staged s;
     cs_uuid_to_id := <[co_summary_uuid c := co_collapse_id c]> (cs_uuid_to_id s); cs_enabled := cs_enabled s |}.
Definition load_commits (l : list CollapseCommit) (s : CollapseStore) : CollapseStore :=
  foldl (fun s c => add_commit c s)
        {| cs_commits := []; cs_staged := cs_staged s; cs_uuid_to_id := ∅; cs_enabled := cs_enabled s |} l.

(** [_extract_messages_by_range]: from the first message with the one id to the first with the other. *)
Fixpoint extract_range (in_range : bool) (first last : string) (l : list BaseMessage) : list BaseMessage :=
  match l with
  | [] => []
  | m :: l' =>
      let in_range := in_range || bool_decide (m_id m = Some first) in
      let rest := if bool_decide (m_id m = Some last) then [] else extract_range in_range first last l' in
      if in_range then m :: rest else rest
  end.
Definition extract_messages_by_range (l : list BaseMessage) (first last : string) : list BaseMessage := extract_range false first last l.

(** [_get_all_committed_ids]. *)
Definition commit_ids (l : list BaseMessage) (c : CollapseCommit) : list string :=
  omap named (extract_messages_by_range l (co_first c) (co_last c)).
Definition get_all_committed_ids (l : list BaseMessage) (s : CollapseStore) : gset string :=
  list_to_set (cs_commits s ≫= commit_ids l).
Definition hidden (ids : gset string) (m : BaseMessage) : bool :=
  match named m with Some i => bool_decide (i ∈ ids) | None => false end.

Definition COLLAPSE_KEEP_RECENT : nat := 15.

(** [try_stage_current_span]. *)
Definition try_stage (now_ : Z) (current : list BaseMessage) (staged : list StagedSpan) : list StagedSpan :=
  if (5 <=? length current)%nat then
    match head current ≫= named, last current ≫= named with
    | Some a, Some b =>
        if existsb (fun s => String.eqb (sp_start s) a) staged then staged
        else staged ++ [{| sp_start := a; sp_end := b; sp_staged_at := now_ |}]
    | _, _ => staged
    end
  else staged.
Fixpoint stage_loop (now_ : Z) (committed : gset string) (candidates current : list BaseMessage) (staged : list StagedSpan) : list StagedSpan :=
  match candidates with
  | [] => try_stage now_ current staged
  | m :: l =>
      if is_system m || hidden committed m then stage_loop now_ committed l [] (try_stage now_ current staged)
      else stage_loop now_ committed l (current ++ [m]) staged
  end.
Definition stage_spans (now_ : Z) (l : list BaseMessage) (s : CollapseStore) : CollapseStore :=
  let candidates := take (length l - COLLAPSE_KEEP_RECENT) l in
  with_staged (stage_loop now_ (get_all_committed_ids l s) candidates [] (cs_staged s)) s.

(** [_project_view]. *)
Definition line_end : string := String (ascii_of_nat 10) "".
Definition quoted_ (s : string) : string := let q := String (ascii_of_nat 34) "" in q +:+ s +:+ q.
Definition collapsed_message (c : CollapseCommit) : BaseMessage :=
  {| m_id := Some (co_summary_uuid c); m_body := SystemMessage;
     m_content := "<collapsed id=" +:+ quoted_ (co_collapse_id c) +:+ ">" +:+ line_end +:+ co_summary_content c +:+ line_end +:+ "</collapsed>";
     m_kwargs := internal_context_metadata "collapse" [("is_collapsed_summary", JBool true)]; m_response := [] |}.
Definition commit_boundaries (l : list CollapseCommit) : gmap string CollapseCommit :=
  foldl (fun d c => <[co_last c := c]> (<[co_first c := c]> d)) ∅ l.
Definition project_message (boundaries : gmap string CollapseCommit) (committed : gset string) (m : BaseMessage) : list BaseMessage :=
  if hidden committed m then
    match named m ≫= fun i => boundaries !! i with
    | Some c => if bool_decide (m_id m = Some (co_first c)) then [collapsed_message c] else []
    | None => []
    end
  else [m].
Definition project_view (l : list BaseMessage) (s : CollapseStore) : list BaseMessage :=
  if bool_decide (cs_commits s = []) then l
  else l ≫= project_message (commit_boundaries (cs_commits s)) (get_all_committed_ids l s).

Section layers.
Context `{Uuids}.
Variable rough : BaseMessage -> Z.
Variable share : Z -> Z -> Z.
Variable summarize : list BaseMessage -> option string.

(** [uuid.uuid4().hex[:16]]. *)
Definition collapse_id_of (u : string) : string :=
  str_take 16 (String.string_of_list_ascii (List.filter (fun c => negb (Ascii.eqb c "-"%char)) (String.list_ascii_of_string u))).

(** The loop of [_commit_staged]: the store, the spans it committed and the identifiers used. *)
Fixpoint commit_loop (l : list BaseMessage) (spans : list StagedSpan) (s : CollapseStore) (next : nat)
  : CollapseStore * list StagedSpan * nat :=
  match spans with
  | [] => (s, [], next)
  | span :: rest =>
      let found := extract_messages_by_range l (sp_start span) (sp_end span) in
      match (if bool_decide (found = []) then None else summarize found) with
      | None => commit_loop l rest s next
      | Some summary =>
          let c := {| co_collapse_id := collapse_id_of (uuid4 next); co_summary_uuid := uuid4 (S next);
                      co_summary_content := summary; co_first := sp_start span; co_last := sp_end span |} in
          let '(s', done_, next') := commit_loop l rest (add_commit c s) (S (S next)) in (s', span :: done_, next')
      end
  end.
Definition commit_staged (l : list BaseMessage) (limit : option nat) (s : CollapseStore) (next : nat) : CollapseStore * nat :=
  let spans := match limit with Some (S k) => take (S k) (cs_staged s) | _ => cs_staged s end in
  let '(s', done_, next') := commit_loop l spans s next in
  (with_staged (List.filter (fun x => negb (bool_decide (x ∈ done_))) (cs_staged s')) s', next').

(** [apply_collapses_if_needed]. *)
Definition apply_collapses_if_needed (now_ : Z) (l : list BaseMessage) (limit : Z) (s : CollapseStore) (next : nat)
  : list BaseMessage * CollapseStore * nat :=
  if negb (cs_enabled s) || bool_decide (l = []) then (l, s, next)
  else
    let tokens := rough_estimation_for_messages rough l in
    if tokens <? share 90 limit then let s := stage_spans now_ l s in (project_view l s, s, next)
    else
      let '(s, next) := commit_staged l (if share 95 limit <=? tokens then None else Some 2%nat) s next in
      (project_view l s, s, next).

(** ** The summary of everything *)

Definition AUTO_KEEP_RECENT : nat := 10.
Definition MAX_CONSECUTIVE_FAILURES : Z := 3.

Record AutoCompactResult := { ar_was_compacted : bool; ar_messages : list BaseMessage; ar_summary : string }.
Definition not_compacted (l : list BaseMessage) : AutoCompactResult :=
  {| ar_was_compacted := false; ar_messages := l; ar_summary := "" |}.

(** [_has_no_new_content_since_last_compact]. *)
Definition is_auto_summary (m : BaseMessage) : bool :=
  is_system m && bool_decide (meta "compression_kind" (m_kwargs m) = JStr "auto_compact").
Definition recent_ids (m : BaseMessage) : gset string :=
  match meta "recent_message_ids" (m_kwargs m) with
  | JArr l => list_to_set (omap (fun v => match v with JStr s => if String.eqb s "" then None else Some s | _ => None end) l)
  | _ => ∅
  end.
Fixpoint only_recent (summary_id : option string) (recent : gset string) (after : bool) (l : list BaseMessage) : bool :=
  match l with
  | [] => true
  | m :: l' =>
      if decide (m_id m = summary_id) then only_recent summary_id recent true l'
      else if negb after || is_internal_context_message m then only_recent summary_id recent after l'
      else match m_id m with
           | Some i => if decide (i ∈ recent) then only_recent summary_id recent after l' else false
           | None => false
           end
  end.
Definition has_no_new_content (l : list BaseMessage) : bool :=
  match List.find is_auto_summary (rev l) with
  | None => false
  | Some m => only_recent (m_id m) (recent_ids m) false l
  end.

(** [_build_post_compact_restoration]. *)
Definition files_of (m : BaseMessage) : list string :=
  match m_body m with
  | AIMessage calls => omap (fun c => if string_in (cl_name c) ["read_local_file"; "edit_local_file"] then cl_file_path c else None) calls
  | _ => []
  end.
Definition RESTORATION_ZH : string :=
  bytes [228; 187; 165; 228; 184; 139; 230; 150; 135; 228; 187; 182; 232; 183; 175; 229; 190; 132; 228; 187; 133; 228; 190; 155;
         230; 168; 161; 229; 158; 139; 230; 129; 162; 229; 164; 141; 231; 138; 182; 230; 128; 129; 239; 188; 140; 231; 166; 129;
         230; 173; 162; 229; 144; 145; 231; 148; 168; 230; 136; 183; 229; 177; 149; 231; 164; 186; 230; 136; 150; 230; 143; 144;
         229; 143; 138; 239; 188; 154]%nat.
Definition restoration (l : list BaseMessage) (id : string) : option BaseMessage :=
  let files := sorted_set (l ≫= files_of) in
  if bool_decide (files = []) then None
  else Some {| m_id := Some id; m_body := SystemMessage;
               m_content := "<internal_context kind=" +:+ quoted_ "restoration" +:+ ">" +:+ line_end +:+ RESTORATION_ZH +:+ line_end
                            +:+ foldr (fun f acc => "- " +:+ f +:+ line_end +:+ acc) "" (drop (length files - 5) files)
                            +:+ "</internal_context>";
               m_kwargs := internal_context_metadata "restoration" []; m_response := [] |}.

(** The message that carries the summary. *)
Definition FOR_MODEL_ZH : string :=
  bytes [228; 187; 165; 228; 184; 139; 229; 134; 133; 229; 174; 185; 228; 187; 133; 228; 190; 155; 230; 168; 161; 229; 158; 139;
         230; 129; 162; 229; 164; 141; 228; 188; 154; 232; 175; 157; 231; 138; 182; 230; 128; 129; 239; 188; 140; 231; 166; 129;
         230; 173; 162; 229; 144; 145; 231; 148; 168; 230; 136; 183; 229; 177; 149; 231; 164; 186; 230; 136; 150; 230; 143; 144;
         229; 143; 138; 227; 128; 130]%nat.
Definition summary_message (summary id : string) (recent : list BaseMessage) : BaseMessage :=
  {| m_id := Some id; m_body := SystemMessage;
     m_content := "<internal_context kind=" +:+ quoted_ "auto_compact" +:+ ">" +:+ line_end +:+ FOR_MODEL_ZH +:+ line_end
                  +:+ summary +:+ line_end +:+ "</internal_context>";
     m_kwargs := internal_context_metadata "auto_compact"
       [("recent_message_ids", JArr (omap (fun m => if is_internal_context_message m then None else JStr <$> m_id m) recent))];
     m_response := [] |}.

(** [autocompact_if_needed]: the failures in a row are counted by session. *)
Definition autocompact_if_needed (limit : Z) (session : string) (l : list BaseMessage) (failures : gmap string Z) (next : nat)
  : AutoCompactResult * gmap string Z * nat :=
  let stop := (not_compacted l, failures, next) in
  let failed := default 0 (failures !! session) in
  if rough_estimation_for_messages rough l <? limit then stop
  else if has_no_new_content l then stop
  else if MAX_CONSECUTIVE_FAILURES <=? failed then stop
  else if (length l <=? AUTO_KEEP_RECENT + 2)%nat then stop
  else
    let systems := List.filter (fun m => is_system m && negb (is_internal_context_message m)) l in
    let internal := List.filter (fun m => is_system m && is_internal_context_message m) l in
    let conversation := List.filter (fun m => negb (is_system m)) l in
    if (length conversation <=? AUTO_KEEP_RECENT)%nat then stop
    else
      let old := internal ++ take (length conversation - AUTO_KEEP_RECENT) conversation in
      let recent := drop (length conversation - AUTO_KEEP_RECENT) conversation in
      match summarize old with
      | None => (not_compacted l, <[session := failed + 1]> failures, next)
      | Some summary =>
          let restored := restoration old (uuid4 (S next)) in
          let kept := systems ++ [summary_message summary (uuid4 next) recent] ++ option_list restored ++ recent in
          ({| ar_was_compacted := true; ar_messages := remove_orphaned_tool_messages kept; ar_summary := summary |},
           <[session := 0]> failures, match restored with Some _ => S (S next) | None => S next end)
      end.
End layers.
