(* ===== verification/ContextManager.v ===== *)
(** * ContextManager: the view of a history that a model is called with

    [server/agent/compression/context_manager.py]: one automatic layer per call (clearing old tool
    results, folding, summarising), then the guard that keeps the view within the input limit of
    the model and drops halves of tool calls.  The persisted state of a session is a revision and
    its folded ranges; what is archived in memory is a list.  One call holds the lock of its
    session from beginning to end. *)
From S2P Require Import Prelude PyText Json ContextLayers.
Local Open Scope Z_scope.

(** ** The hard limit *)

(** [_internal_context_priority]. *)
Definition internal_context_priority (m : BaseMessage) : Z :=
  match meta "compression_kind" (m_kwargs m) with
  | JStr "auto_compact" => 100
  | JStr "collapse" => 80
  | JStr "restoration" => 60
  | JStr "snip_boundary" => 20
  | JStr "snip_marker" => 10
  | _ => 50
  end.

(** [_legalize_turn]. *)
Fixpoint drop_leading (l : list BaseMessage) : list BaseMessage :=
  match l with
  | m :: l' => if is_ai m || is_tool m then drop_leading l' else l
  | [] => []
  end.
Definition legalize_turn (turn : list BaseMessage) : list BaseMessage := drop_leading (drop_halves (completed_ids turn) ∅ turn).

(** The turns of a conversation: each begins with a message of the user, but perhaps the first. *)
Fixpoint turns_of (current l : list BaseMessage) : list (list BaseMessage) :=
  match l with
  | [] => if bool_decide (current = []) then [] else [current]
  | m :: l' => if is_human m && negb (bool_decide (current = [])) then current :: turns_of [m] l' else turns_of (current ++ [m]) l'
  end.

Section manager.
Context `{Uuids}.
Variable rough : BaseMessage -> Z.
Variable share : Z -> Z -> Z.
Variable float_of : json -> option Z.
Abbreviation cost l := (rough_estimation_for_messages rough l).

(** The messages, with their positions, that fit one after the other. *)
Fixpoint fitting (limit used : Z) (l : list (nat * BaseMessage)) : list (nat * BaseMessage) * Z :=
  match l with
  | [] => ([], used)
  | p :: l' =>
      let c := cost [p.2] in
      if used + c <=? limit then let '(r, u) := fitting limit (used + c) l' in (p :: r, u) else fitting limit used l'
  end.

(** The newest turns that fit, from the newest on. *)
Fixpoint newest_turns (limit used : Z) (newest_first : list (list BaseMessage)) : list (list BaseMessage) :=
  match newest_first with
  | [] => []
  | t :: l' =>
      let legal := legalize_turn t in
      if limit <? used + cost legal then [] else newest_turns limit (used + cost legal) l' ++ [legal]
  end.

(** [trim_legal_history]; the identity of an object is its position among the system messages. *)
Definition trim_legal_history (l : list BaseMessage) (limit : Z) : list BaseMessage :=
  if cost l <=? limit then l
  else
    let systems := List.filter is_system l in
    let numbered := zip (seq 0 (length systems)) systems in
    let normal := List.filter (fun p => negb (is_internal_context_message p.2)) numbered in
    let internal := List.filter (fun p => is_internal_context_message p.2) numbered in
    let turns := turns_of [] (List.filter (fun m => negb (is_system m)) l) in
    let '(chosen, used) := fitting limit 0 normal in
    let by_priority := fun a b : nat * BaseMessage => internal_context_priority b.2 <=? internal_context_priority a.2 in
    let '(chosen_internal, used) := fitting limit used (sort_by by_priority internal) in
    let selected := fst <$> (chosen ++ chosen_internal) in
    let kept := newest_turns limit used (rev turns) in
    (snd <$> List.filter (fun p => bool_decide (p.1 ∈ selected)) numbered) ++ concat kept.

(** ** Preparing a view *)

Record PersistedContextState := { ps_revision : Z; ps_collapse_commits : list CollapseCommit }.
Record Archived := { av_source_id : string; av_summary : string; av_source_ids : list string }.

Record ContextManager := {
  cm_persisted : gmap string PersistedContextState;
  cm_stores : gmap string CollapseStore;
  cm_failures : gmap string Z;
  cm_archive : list Archived;
  cm_next : nat;
}.

Record ContextTransform := {
  ct_messages : list BaseMessage;
  ct_tokens_before : Z;
  ct_tokens_after : Z;
  ct_actions : list string;
  ct_removed_message_ids : list string;
}.

(** [_removed_message_ids]. *)
Definition removed_message_ids (original view : list BaseMessage) : list string :=
  List.filter (fun i => negb (bool_decide (i ∈ omap m_id view))) (omap m_id original).

(** [_message_signature]. *)
Definition class_name (m : BaseMessage) : string :=
  match m_body m with
  | SystemMessage => "SystemMessage" | HumanMessage => "HumanMessage" | AIMessage _ => "AIMessage" | ToolMessage _ _ => "ToolMessage"
  end.
Definition message_signature (l : list BaseMessage) : list (string * option string) := (fun m => (class_name m, m_id m)) <$> l.

(** [_finish_transform]. *)
Definition finish_transform (original view : list BaseMessage) (before : Z) (b : ContextBudget) (actions : list string) : ContextTransform :=
  let '(view, actions) :=
    if input_limit b <? cost view then (trim_legal_history view (input_limit b), actions ++ ["hard_trim"])
    else (remove_orphaned_tool_messages view, actions) in
  {| ct_messages := view; ct_tokens_before := before; ct_tokens_after := cost view; ct_actions := actions;
     ct_removed_message_ids := removed_message_ids original view |}.

(** [_store] and [load]. *)
Definition load_state (key : string) (x : ContextManager) : PersistedContextState :=
  default {| ps_revision := 0; ps_collapse_commits := [] |} (cm_persisted x !! key).
Definition store_of (key : string) (x : ContextManager) : CollapseStore :=
  default (load_commits (ps_collapse_commits (load_state key x)) new_collapse_store) (cm_stores x !! key).

Definition with_store (key : string) (s : CollapseStore) (next : nat) (x : ContextManager) : ContextManager :=
  {| cm_persisted := cm_persisted x; cm_stores := <[key := s]> (cm_stores x); cm_failures := cm_failures x;
     cm_archive := cm_archive x; cm_next := next |}.
(** [save], and the archive of the ranges just folded. *)
Definition saved (key : string) (l : list CollapseCommit) (x : ContextManager) : ContextManager :=
  {| cm_persisted := <[key := {| ps_revision := ps_revision (load_state key x) + 1; ps_collapse_commits := l |}]> (cm_persisted x);
     cm_stores := cm_stores x; cm_failures := cm_failures x; cm_archive := cm_archive x; cm_next := cm_next x |}.
Definition archived (l : list Archived) (x : ContextManager) : ContextManager :=
  {| cm_persisted := cm_persisted x; cm_stores := cm_stores x; cm_failures := cm_failures x; cm_archive := cm_archive x ++ l;
     cm_next := cm_next x |}.
Definition with_failures (f : gmap string Z) (next : nat) (x : ContextManager) : ContextManager :=
  {| cm_persisted := cm_persisted x; cm_stores := cm_stores x; cm_failures := f; cm_archive := cm_archive x; cm_next := next |}.

(** [clear]. *)
Definition clear (key : string) (x : ContextManager) : ContextManager :=
  {| cm_persisted := delete key (cm_persisted x); cm_stores := delete key (cm_stores x); cm_failures := cm_failures x;
     cm_archive := cm_archive x; cm_next := cm_next x |}.

Definition collapse_archive (c : CollapseCommit) : Archived :=
  {| av_source_id := "collapse:" +:+ co_collapse_id c; av_summary := co_summary_content c; av_source_ids := [co_first c; co_last c] |}.

Variable summarize : list BaseMessage -> option string.

(** [prepare], of the session with a storage key and an id. *)
Definition prepare (key session : string) (tools : gset string) (now_ : Z) (l : list BaseMessage) (b : ContextBudget) (x : ContextManager)
  : ContextTransform * ContextManager :=
  let before := cost l in
  let micro := micro_compact_if_needed rough float_of tools (60 * 60 * 1000000) 5 (threshold share 60 b <=? before) now_ l in
  let s := store_of key x in
  let x := with_store key s (cm_next x) x in
  if negb (mc_tools_cleared micro =? 0) then
    (finish_transform l (mc_messages micro) before b ["micro_compact:" +:+ pretty (mc_tools_cleared micro)], x)
  else
    let '(view, s', next) := apply_collapses_if_needed rough share summarize now_ l (input_limit b) s (cm_next x) in
    let new_commits := drop (length (cs_commits s)) (cs_commits s') in
    let folded := negb (bool_decide (new_commits = [])) in
    let x := with_store key s' next x in
    let x := if folded then archived (collapse_archive <$> new_commits) (saved key (cs_commits s') x) else x in
    if negb (bool_decide (message_signature view = message_signature l)) then
      (finish_transform l view before b
         [if folded then "collapse:" +:+ pretty (length new_commits) else "collapse:projection"], x)
    else
      let actions := if folded then ["collapse:" +:+ pretty (length new_commits)] else [] in
      let '(r, failures, next) := autocompact_if_needed rough summarize (threshold share 93 b) key view (cm_failures x) (cm_next x) in
      let x := with_failures failures next x in
      if ar_was_compacted r then
        let removed := removed_message_ids view (ar_messages r) in
        let source := "auto_compact:" +:+ match removed with i :: _ => i | [] => session end in
        let x := if String.eqb (ar_summary r) "" then x
                 else archived [{| av_source_id := source; av_summary := ar_summary r; av_source_ids := removed |}] x in
        (finish_transform l (ar_messages r) before b (actions ++ ["auto_compact"]), x)
      else (finish_transform l view before b actions, x).
End manager.
