(* ===== verification/ContextSnip.v ===== *)
(** * ContextSnip: cutting old messages out of a history

    [server/agent/compression/snip_compact.py]: messages are replaced by markers with the same id,
    under a boundary that says so, by a range of short ids ([snip_by_id_range]) or from the oldest
    on ([snip_compact_if_needed]); and the trimming of a stored transcript
    ([session_compression.py]). *)
From S2P Require Import Prelude PyText Json ContextLayers.
Local Open Scope Z_scope.

(** ** Short ids *)

(** [int(s, 16)] of a text without a minus sign; the digits of other scripts, which Python reads
    too, are refused. *)
Definition hex_digit_value (c : ascii) : option Z :=
  let n := Z.of_nat (nat_of_ascii c) in
  if (48 <=? n) && (n <=? 57) then Some (n - 48)
  else if (65 <=? n) && (n <=? 70) then Some (n - 55)
  else if (97 <=? n) && (n <=? 102) then Some (n - 87)
  else None.
Fixpoint hex_digits (value : Z) (after_digit : bool) (l : list ascii) : option Z :=
  match l with
  | [] => if after_digit then Some value else None
  | c :: l' =>
      match hex_digit_value c with
      | Some d => hex_digits (16 * value + d) true l'
      | None => if Ascii.eqb c "_"%char && after_digit then hex_digits value false l' else None
      end
  end.
Definition drop_plus (l : list ascii) : list ascii :=
  match l with c :: l' => if Ascii.eqb c "+"%char then l' else l | [] => [] end.
Definition drop_base (l : list ascii) : list ascii :=
  match l with
  | z :: x :: l' =>
      if Ascii.eqb z "0"%char && (Ascii.eqb x "x"%char || Ascii.eqb x "X"%char) then
        match l' with c :: l'' => if Ascii.eqb c "_"%char then l'' else l' | [] => [] end
      else l
  | _ => l
  end.
Definition int16 (s : string) : option Z :=
  hex_digits 0 false (drop_base (drop_plus (String.list_ascii_of_string (strip s)))).

(** The digits of a number in base 36, of which there are eight at most below 16^10. *)
Fixpoint base36 (fuel : nat) (n : Z) : list Z :=
  match fuel with
  | O => []
  | S fuel => if n =? 0 then [] else base36 fuel (n / 36) ++ [n mod 36]
  end.
Definition char36 (d : Z) : ascii := ascii_of_nat (Z.to_nat (if d <? 10 then 48 + d else 87 + d)).

Definition derive_short_id (msg_id : string) : string :=
  let hex := str_take 10 (String.string_of_list_ascii
    (List.filter (fun c => negb (Ascii.eqb c "-"%char)) (String.list_ascii_of_string msg_id))) in
  match int16 hex with
  | None => str_take 6 msg_id
  | Some n =>
      if n =? 0 then "000000"
      else let digits := take 6 (char36 <$> base36 8 n) in
           String.string_of_list_ascii (replicate (6 - length digits) "0"%char ++ digits)
  end.
Definition get_short_id (m : BaseMessage) : string := match named m with Some i => derive_short_id i | None => "" end.

Example short_id_example : derive_short_id "f47ac10b-58cc-4372-a567-0e02b2c3d479" = "dedln0".
Proof. vm_compute. reflexivity. Qed.

(** ** Markers and boundaries *)

Definition is_snip_marker_message (m : BaseMessage) : bool := bool_decide (meta "snip_marker" (m_kwargs m) = JBool true).
Definition is_snip_boundary_message (m : BaseMessage) : bool := bool_decide (meta "snip_boundary" (m_kwargs m) = JBool true).

Definition make_snip_marker (m : BaseMessage) : BaseMessage :=
  {| m_id := m_id m; m_body := SystemMessage; m_content := "[snipped]";
     m_kwargs := ("snip_marker", JBool true) :: internal_context_metadata "snip_marker" []; m_response := [] |}.

(** [f'{n:,}'] of a number that is not negative. *)
Fixpoint group_thousands (l : list ascii) : list ascii :=
  match l with
  | [] => []
  | c :: l' => c :: (if negb (bool_decide (l' = [])) && (Nat.modulo (length l') 3 =? 0)%nat then ","%char :: group_thousands l' else group_thousands l')
  end.
Definition with_commas (n : Z) : string := String.string_of_list_ascii (group_thousands (String.list_ascii_of_string (pretty n))).

Definition SNIP_REMOVED_ZH : string * string :=
  (bytes [228; 184; 186; 232; 138; 130; 231; 156; 129; 228; 184; 138; 228; 184; 139; 230; 150; 135; 231; 169; 186; 233; 151; 180;
          239; 188; 140; 230; 173; 164; 229; 164; 132; 228; 185; 139; 229; 137; 141; 231; 154; 132; 32]%nat,
   bytes [32; 230; 157; 161; 229; 142; 134; 229; 143; 178; 230; 182; 136; 230; 129; 175; 229; 183; 178; 232; 162; 171; 231; 167;
          187; 233; 153; 164; 227; 128; 130]%nat).
Definition SNIP_FREED_ZH : string * string :=
  (bytes [233; 135; 138; 230; 148; 190; 228; 186; 134; 231; 186; 166; 32]%nat, " tokens" +:+ bytes [227; 128; 130]%nat).
Definition SNIP_GO_ON_ZH : string :=
  bytes [229; 189; 147; 229; 137; 141; 229; 175; 185; 232; 175; 157; 228; 187; 142; 230; 173; 164; 229; 164; 132; 231; 187; 167;
         231; 187; 173; 239; 188; 140; 228; 189; 160; 229; 143; 175; 228; 187; 165; 231; 133; 167; 229; 184; 184; 229; 155; 158;
         229; 164; 141; 239; 188; 140; 230; 151; 160; 233; 156; 128; 230; 143; 144; 229; 143; 138; 232; 191; 153; 230; 172; 161;
         229; 142; 139; 231; 188; 169; 227; 128; 130]%nat.

(** The instant stands for the float of the clock. *)
Definition make_snip_boundary (tokens_freed messages_removed snipped_at : Z) : BaseMessage :=
  {| m_id := None; m_body := SystemMessage;
     m_content := "[Context Snip Boundary]" +:+ line_end
       +:+ SNIP_REMOVED_ZH.1 +:+ pretty messages_removed +:+ SNIP_REMOVED_ZH.2 +:+ line_end
       +:+ SNIP_FREED_ZH.1 +:+ with_commas tokens_freed +:+ SNIP_FREED_ZH.2 +:+ line_end +:+ SNIP_GO_ON_ZH;
     m_kwargs := ("snip_boundary", JBool true) :: internal_context_metadata "snip_boundary"
       [("tokens_freed", JNum tokens_freed); ("messages_removed", JNum messages_removed); ("snipped_at", JNum snipped_at)];
     m_response := [] |}.

(** ** By a range of short ids *)

Definition SNIP_THRESHOLD : Z := 150000.
Definition SNIP_KEEP_RECENT : nat := 10.
Definition SNIP_TARGET_FREE : Z := 30000.
Definition NUDGE_INTERVAL_TOKENS : Z := 10000.

Record SnipCompactResult := { sr_messages : list BaseMessage; sr_tokens_freed : Z; sr_boundary : option BaseMessage }.
Definition nothing_snipped (l : list BaseMessage) : SnipCompactResult := {| sr_messages := l; sr_tokens_freed := 0; sr_boundary := None |}.

(** [id_map.get]: the last message that has an id and this short one. *)
Definition short_index (l : list BaseMessage) (short : string) : option nat :=
  last (List.filter (fun i => match l !! i with Some m => bool_decide (is_Some (named m)) && String.eqb (get_short_id m) short | None => false end)
                    (seq 0 (length l))).
Definition first_open (l : list BaseMessage) : option nat :=
  fst <$> list_find (fun m => negb (is_system m) && negb (is_snip_marker_message m)) l.

Section snip.
Variable rough : BaseMessage -> Z.
Abbreviation cost l := (rough_estimation_for_messages rough l).

Definition snip_by_id_range (now_ : Z) (l : list BaseMessage) (to_id : string) (from_id : option string) : SnipCompactResult :=
  match short_index l to_id with
  | None => nothing_snipped l
  | Some to_idx =>
      let from_idx := match from_id with
                      | Some f => if String.eqb f "" then first_open l else short_index l f
                      | None => first_open l
                      end in
      match from_idx with
      | None => nothing_snipped l
      | Some from_idx =>
          let protected_start := (length l - SNIP_KEEP_RECENT)%nat in
          if (to_idx <? from_idx)%nat then nothing_snipped l
          else if (protected_start <=? from_idx)%nat then nothing_snipped l
          else
            let actual_to := Nat.min to_idx (protected_start - 1) in
            let to_snip := take (S actual_to - from_idx) (drop from_idx l) in
            let freed := cost to_snip in
            let boundary := make_snip_boundary freed (Z.of_nat (length to_snip)) now_ in
            {| sr_messages := take from_idx l ++ [boundary] ++ (make_snip_marker <$> to_snip) ++ drop (S actual_to) l;
               sr_tokens_freed := freed; sr_boundary := Some boundary |}
      end
  end.

(** ** From the oldest on *)

(** The loop of [_do_snip]: what is snipped, the tokens it frees, and what remains. *)
Fixpoint snip_loop (target freed : Z) (snippable : list BaseMessage) : list BaseMessage * Z * list BaseMessage :=
  match snippable with
  | [] => ([], freed, [])
  | m :: l =>
      if target <=? freed then ([], freed, snippable)
      else if is_snip_marker_message m then snip_loop target freed l
      else
        match l with
        | n :: l' =>
            if is_human m && is_ai n then
              let '(s, f, r) := snip_loop target (freed + cost [m; n]) l' in (m :: n :: s, f, r)
            else let '(s, f, r) := snip_loop target (freed + cost [m]) l in (m :: s, f, r)
        | [] => ([m], freed + cost [m], [])
        end
  end.

Fixpoint system_prefix (l : list BaseMessage) : list BaseMessage :=
  match l with m :: l' => if is_system m || is_snip_boundary_message m then m :: system_prefix l' else [] | [] => [] end.

Definition do_snip (now_ : Z) (l : list BaseMessage) (target : Z) (keep : nat) : SnipCompactResult :=
  let candidates := take (length l - keep) l in
  let prefix := system_prefix candidates in
  let '(snipped, freed, remaining) := snip_loop target 0 (drop (length prefix) candidates) in
  if bool_decide (snipped = []) then nothing_snipped l
  else
    let boundary := make_snip_boundary freed (Z.of_nat (length snipped)) now_ in
    {| sr_messages := prefix ++ [boundary] ++ (make_snip_marker <$> snipped) ++ remaining ++ drop (length l - keep) l;
       sr_tokens_freed := freed; sr_boundary := Some boundary |}.

Definition snip_compact_if_needed (now_ : Z) (force : bool) (threshold target : Z) (keep : nat) (l : list BaseMessage) : SnipCompactResult :=
  if bool_decide (l = []) then nothing_snipped l
  else if negb force && (cost l <=? threshold) then nothing_snipped l
  else do_snip now_ l target keep.

(** What follows the last boundary, if there is one. *)
Fixpoint since_boundary (l : list BaseMessage) : option (list BaseMessage) :=
  match l with
  | [] => None
  | m :: l' => match since_boundary l' with Some r => Some r | None => if is_snip_boundary_message m then Some l' else None end
  end.
Definition should_nudge_for_snips (l : list BaseMessage) : bool :=
  match since_boundary l with
  | None => SNIP_THRESHOLD / 2 <? cost l
  | Some since => NUDGE_INTERVAL_TOKENS <? cost since
  end.
End snip.

(** ** Stored transcripts *)

(** An entry of the transcript of a session; [tm_body] are its content, calls, result and usage. *)
Record TranscriptMessage := {
  tm_uuid : string;
  tm_parent : option string;
  tm_session : string;
  tm_type : string;
  tm_role : string;
  tm_body : json;
}.

Section transcript.
(** The estimate of an entry, and what [settings.get_context_limits] answers. *)
Variable tokens_of : TranscriptMessage -> Z.
Variable context_limits : Z * Z.

Definition default_input_limit : Z := Z.max 1 (context_limits.1 - context_limits.2 - 2000).
Definition limit_or_default (max_tokens : option Z) : Z :=
  match max_tokens with Some n => if n =? 0 then default_input_limit else n | None => default_input_limit end.

Definition is_system_entry (m : TranscriptMessage) : bool := String.eqb (tm_role m) "system" || String.eqb (tm_type m) "system".
Definition is_user_entry (m : TranscriptMessage) : bool := String.eqb (tm_role m) "user".

Fixpoint transcript_turns (current l : list TranscriptMessage) : list (list TranscriptMessage) :=
  match l with
  | [] => if bool_decide (current = []) then [] else [current]
  | m :: l' =>
      if is_user_entry m && negb (bool_decide (current = [])) then current :: transcript_turns [m] l'
      else transcript_turns (current ++ [m]) l'
  end.
Fixpoint kept_turns (limit used : Z) (any : bool) (newest_first : list (list TranscriptMessage)) : list (list TranscriptMessage) :=
  match newest_first with
  | [] => []
  | t :: l =>
      let cost := sum_by tokens_of t in
      if any && (limit <? used + cost) then [] else kept_turns limit (used + cost) true l ++ [t]
  end.
Definition compress_messages (max_tokens : option Z) (l : list TranscriptMessage) : list TranscriptMessage :=
  let limit := limit_or_default max_tokens in
  if sum_by tokens_of l <=? limit then l
  else
    let system := List.filter is_system_entry l in
    let conversation := List.filter (fun m => negb (is_system_entry m)) l in
    system ++ concat (kept_turns limit (sum_by tokens_of system) false (rev (transcript_turns [] conversation))).
End transcript.

(** ** What snipping spares *)

Lemma hidden_ids (l : list BaseMessage) : omap m_id (make_snip_marker <$> l) = omap m_id l.
Proof. induction l as [|m l IH]; [done|]. cbn. destruct (m_id m); cbn; by rewrite IH. Qed.

(** However a range is named, the ten newest messages stay, the ids stay in their order, and what
    is not a marker or the boundary is a message of the history outside the range. *)
Lemma snip_spares_recent rough now_ l to_id from_id :
  let v := sr_messages (snip_by_id_range rough now_ l to_id from_id) in
  drop (length l - SNIP_KEEP_RECENT) l `suffix_of` v /\ omap m_id v = omap m_id l /\
  (forall m, m ∈ v -> m ∈ l \/ is_internal_context_message m = true).
Proof.
  cbv zeta. unfold snip_by_id_range.
  assert (Hsame : drop (length l - SNIP_KEEP_RECENT) l `suffix_of` l /\ omap m_id l = omap m_id l /\
            (forall m, m ∈ l -> m ∈ l \/ is_internal_context_message m = true)).
  { split_and!; [apply suffix_drop|done|by left]. }
  destruct (short_index l to_id) as [t|]; [|exact Hsame].
  destruct (match from_id with Some f => _ | None => _ end) as [i|]; [|exact Hsame].
  destruct (Nat.ltb_spec t i); [exact Hsame|]. destruct (Nat.leb_spec (length l - SNIP_KEEP_RECENT) i); [exact Hsame|].
  cbn [sr_messages]. set (a := Nat.min t (length l - SNIP_KEEP_RECENT - 1)). set (cut := take (S a - i) (drop i l)).
  set (boundary := make_snip_boundary _ _ _).
  assert (Hl : l = take i l ++ cut ++ drop (S a) l).
  { unfold cut. replace (drop (S a) l) with (drop (S a - i) (drop i l)); [by rewrite !take_drop|]. rewrite drop_drop. f_equal. lia. }
  split_and!.
  - exists (take i l ++ [boundary] ++ (make_snip_marker <$> cut) ++ take (length l - SNIP_KEEP_RECENT - S a) (drop (S a) l)).
    rewrite <- !app_assoc. do 3 f_equal. rewrite <- (take_drop (length l - SNIP_KEEP_RECENT - S a) (drop (S a) l)) at 1. f_equal.
    rewrite drop_drop. f_equal. lia.
  - transitivity (omap m_id (take i l) ++ omap m_id cut ++ omap m_id (drop (S a) l)); [by rewrite !omap_app, hidden_ids|].
    rewrite <- (omap_app _ cut), <- omap_app. by rewrite <- Hl.
  - intros m [Hm|[Hm|[Hm|Hm]%elem_of_app]%elem_of_app]%elem_of_app.
    + left. rewrite Hl. apply elem_of_app. by left.
    + apply list_elem_of_singleton in Hm as ->. by right.
    + apply list_elem_of_fmap in Hm as (m0 & -> & _). by right.
    + left. rewrite Hl. apply elem_of_app. right. apply elem_of_app. by right.
Qed.
