(* ===== verification/ContextSafety.v ===== *)
(** * ContextSafety: the view fits the model and is a conversation it accepts

    Whatever layers run, a prepared view stays within the input limit, keeps the order of the
    history, invents nothing but synthetic context, and pairs calls of tools with their results. *)
From S2P Require Import Prelude PyText Json ContextLayers ContextManager.
Local Open Scope Z_scope.

(** ** Calls and results *)

(** Every result of the list comes after a call with its id. *)
Definition declared_before (l : list BaseMessage) : Prop :=
  forall a t b c, l = a ++ t :: b -> tool_result_of t = Some c -> exists m, m ∈ a /\ c ∈ call_ids m.
(** Every call of the list is followed by a result with its id. *)
Definition answered_after (l : list BaseMessage) : Prop :=
  forall a m b c, l = a ++ m :: b -> c ∈ call_ids m -> exists t, t ∈ b /\ tool_result_of t = Some c.
(** No call follows a result with its id. *)
Definition results_follow (l : list BaseMessage) : Prop :=
  forall a t b c m, l = a ++ t :: b -> tool_result_of t = Some c -> m ∈ b -> c ∉ call_ids m.

Lemma result_no_calls t c : tool_result_of t = Some c -> has_calls t = false /\ call_ids t = [].
Proof. unfold tool_result_of, has_calls, call_ids. by destruct (m_body t). Qed.

Lemma call_ids_has_calls m c : c ∈ call_ids m -> has_calls m = true.
Proof. unfold call_ids, has_calls. destruct (m_body m) as [| |[|x l]|]; try done; by intros ?%elem_of_nil. Qed.

Lemma drop_halves_sublist done_ decl l : drop_halves done_ decl l `sublist_of` l.
Proof.
  revert decl. induction l as [|m l IH]; intros decl; [done|]. cbn [drop_halves].
  destruct (_ && _); [by apply sublist_cons|]. destruct (tool_result_of m) as [c|]; [case_decide|];
    first [by apply sublist_skip|by apply sublist_cons].
Qed.

Lemma drop_halves_declared done_ decl l a t b c :
  drop_halves done_ decl l = a ++ t :: b -> tool_result_of t = Some c -> c ∈ decl \/ exists m, m ∈ a /\ c ∈ call_ids m.
Proof.
  revert decl a. induction l as [|m l IH]; intros decl a Heq Ht; [by destruct a|]. cbn [drop_halves] in Heq.
  destruct (has_calls m && _); [by eapply IH|].
  assert (Hstep : forall decl', (has_calls m = true /\ decl' = list_to_set (call_ids m) ∪ decl \/ decl' = decl) ->
            forall a', a = m :: a' -> (c ∈ decl' \/ exists m', m' ∈ a' /\ c ∈ call_ids m') -> c ∈ decl \/ exists m', m' ∈ a /\ c ∈ call_ids m').
  { intros decl' Hd a' -> [Hc|(m' & Hm & Hc)]; [|right; exists m'; split; [by right|done]].
    destruct Hd as [[_ ->]| ->]; [|by left]. apply elem_of_union in Hc as [Hc%elem_of_list_to_set|Hc]; [|by left].
    right. exists m. split; [by left|done]. }
  destruct (tool_result_of m) as [c'|] eqn:Hm.
  - destruct (result_no_calls m c' Hm) as [Hno _]. rewrite Hno in *. case_decide as Hd; [|by eapply IH].
    destruct a as [|m' a]; injection Heq as -> Heq; [rewrite Hm in Ht; injection Ht as ->; by left|].
    eapply Hstep; [by right|done|by eapply IH].
  - destruct a as [|m' a]; injection Heq as -> Heq; [by rewrite Hm in Ht|].
    eapply Hstep; [|done|by eapply IH]. destruct (has_calls m'); [by left|by right].
Qed.

Lemma drop_halves_keeps_result done_ decl l t c :
  t ∈ l -> tool_result_of t = Some c -> c ∈ decl -> t ∈ drop_halves done_ decl l.
Proof.
  revert decl. induction l as [|m l IH]; intros decl Hin Ht Hc; [by apply elem_of_nil in Hin|]. cbn [drop_halves].
  apply elem_of_cons in Hin as [<-|Hin].
  - destruct (result_no_calls t c Ht) as [-> _]. rewrite Ht. cbn. case_decide; [by left|done].
  - destruct (has_calls m && _); [by apply IH|].
    assert (Hc' : c ∈ (if has_calls m then list_to_set (call_ids m) ∪ decl else decl)) by (destruct (has_calls m); set_solver).
    destruct (tool_result_of m); [case_decide|]; first [by right; apply IH|by apply IH].
Qed.

(** The loop after a part [done_] of the list. *)
Lemma drop_halves_answered p l decl a m b c :
  results_follow (p ++ l) -> drop_halves (completed_ids (p ++ l)) decl l = a ++ m :: b -> c ∈ call_ids m ->
  exists t, t ∈ b /\ tool_result_of t = Some c.
Proof.
  revert p decl a. induction l as [|x l IH]; intros p decl a Hf Heq Hc; [by destruct a|]. cbn [drop_halves] in Heq.
  assert (Hassoc : p ++ x :: l = (p ++ [x]) ++ l) by (by rewrite <- app_assoc).
  destruct (has_calls x && _) eqn:Hcomplete.
  { rewrite Hassoc in Hf, Heq. by eapply (IH (p ++ [x])). }
  set (decl' := if has_calls x then list_to_set (call_ids x) ∪ decl else decl) in Heq.
  assert (Hrest : forall a', drop_halves (completed_ids (p ++ x :: l)) decl' l = a' ++ m :: b -> exists t, t ∈ b /\ tool_result_of t = Some c).
  { intros a' Ha. rewrite Hassoc in Hf, Ha. by eapply (IH (p ++ [x])). }
  destruct (tool_result_of x) as [c'|] eqn:Hx.
  - case_decide; [|by eapply Hrest]. destruct a as [|y a]; injection Heq as -> Heq; [|by eapply Hrest].
    destruct (result_no_calls m c' Hx) as [_ Hno]. rewrite Hno in Hc. by apply elem_of_nil in Hc.
  - destruct a as [|y a]; injection Heq as -> Heq; [|by eapply Hrest].
    pose proof (call_ids_has_calls m c Hc) as Hhas. rewrite Hhas in Hcomplete. cbn in Hcomplete. apply negb_false_iff in Hcomplete.
    rewrite forallb_forall in Hcomplete. apply list_elem_of_In in Hc as Hin. specialize (Hcomplete c Hin). apply bool_decide_eq_true in Hcomplete.
    apply elem_of_list_to_set, list_elem_of_omap in Hcomplete as (t & Ht & Hres).
    apply elem_of_app in Ht as [Ht|Ht].
    + exfalso. apply list_elem_of_split in Ht as (p1 & p2 & ->). apply (Hf p1 t (p2 ++ m :: l) c m); [by rewrite <- app_assoc|done| |done].
      apply elem_of_app. right. by left.
    + apply elem_of_cons in Ht as [->|Ht]; [by rewrite Hres in Hx|]. exists t. split; [|done]. rewrite <- Heq.
      apply (drop_halves_keeps_result _ _ _ _ c Ht Hres). unfold decl'. rewrite Hhas. set_solver.
Qed.

Lemma drop_halves_legal l :
  declared_before (drop_halves (completed_ids l) ∅ l) /\ (results_follow l -> answered_after (drop_halves (completed_ids l) ∅ l)).
Proof.
  split.
  - intros a t b c Heq Ht. destruct (drop_halves_declared _ _ _ _ _ _ _ Heq Ht) as [Hc|Hm]; [set_solver|done].
  - intros Hf a m b c Heq Hc. by eapply (drop_halves_answered [] l).
Qed.

(** ** What the properties depend on *)

Lemma declared_app l k : declared_before l -> declared_before k -> declared_before (l ++ k).
Proof.
  intros Hl Hk a t b c Heq Ht. apply app_eq_inv in Heq as [(x & -> & Hx)|(x & -> & ->)].
  - destruct x as [|y x]; cbn in Hx.
    + destruct (Hk [] t b c (eq_sym Hx) Ht) as (m & Hm%elem_of_nil & _). done.
    + injection Hx as -> ->. by eapply Hl.
  - destruct (Hk x t b c eq_refl Ht) as (m & Hm & Hc). exists m. split; [apply elem_of_app; by right|done].
Qed.

Lemma answered_app l k : answered_after l -> answered_after k -> answered_after (l ++ k).
Proof.
  intros Hl Hk a m b c Heq Hc. apply app_eq_inv in Heq as [(x & -> & Hx)|(x & -> & ->)].
  - destruct x as [|y x]; cbn in Hx.
    + destruct (Hk [] m b c (eq_sym Hx) Hc) as (t & Ht & Hr). by exists t.
    + injection Hx as -> ->. destruct (Hl a y x c eq_refl Hc) as (t & Ht & Hr). exists t. split; [apply elem_of_app; by left|done].
  - by eapply Hk.
Qed.

Lemma system_no_parts m : is_system m = true -> tool_result_of m = None /\ call_ids m = [].
Proof. unfold is_system, tool_result_of, call_ids. by destruct (m_body m). Qed.

Lemma systems_legal l : Forall (fun m => is_system m = true) l -> declared_before l /\ answered_after l.
Proof.
  intros Hl. split; intros a m b c -> Hc; apply Forall_app in Hl as [_ [Hm _]%Forall_cons]; destruct (system_no_parts m Hm) as [H1 H2].
  - congruence.
  - rewrite H2 in Hc. by apply elem_of_nil in Hc.
Qed.

(** The conversation of a list: ids and bodies of the messages that are not system messages. *)
Definition conversation (l : list BaseMessage) : list BaseMessage := List.filter (fun m => negb (is_system m)) l.
Definition skeleton (l : list BaseMessage) : list (option string * Body) := (fun m => (m_id m, m_body m)) <$> conversation l.

Lemma conversation_app l k : conversation (l ++ k) = conversation l ++ conversation k.
Proof. apply List.filter_app. Qed.

Lemma skeleton_app l k : skeleton (l ++ k) = skeleton l ++ skeleton k.
Proof. unfold skeleton. by rewrite conversation_app, fmap_app. Qed.

Lemma skeleton_systems l : Forall (fun m => is_system m = true) l -> skeleton l = [].
Proof. unfold skeleton, conversation. induction 1 as [|m l Hm _ IH]; [done|]. cbn. by rewrite Hm. Qed.

Lemma filter_sublist (f : BaseMessage -> bool) l k : l `sublist_of` k -> List.filter f l `sublist_of` List.filter f k.
Proof.
  induction 1 as [|m l k _ IH|m l k _ IH]; [done| |]; cbn; destruct (f m); first [by apply sublist_skip|by apply sublist_cons|done].
Qed.

Lemma skeleton_sublist l k : l `sublist_of` k -> skeleton l `sublist_of` skeleton k.
Proof. intros H. by apply fmap_sublist, filter_sublist. Qed.

(** [results_follow] of a list is a property of its skeleton. *)
Definition body_result (b : Body) : option string := match b with ToolMessage c _ => Some c | _ => None end.
Definition body_calls (b : Body) : list string :=
  match b with AIMessage calls => omap (fun c => i ← cl_id c; if String.eqb i "" then None else Some i) calls | _ => [] end.
Definition follows (l : list (option string * Body)) : Prop :=
  forall a t b c m, l = a ++ t :: b -> body_result t.2 = Some c -> m ∈ b -> c ∉ body_calls m.2.

Lemma follows_sublist l k : l `sublist_of` k -> follows k -> follows l.
Proof.
  intros Hsub Hk a t b c m -> Ht Hm Hc. apply sublist_app_l in Hsub as (k1 & k2 & -> & _ & H2).
  apply sublist_cons_l in H2 as (k3 & k4 & -> & H4). apply (Hk (k1 ++ k3) t k4 c m); [by rewrite <- app_assoc|done| |done].
  by eapply elem_of_sublist.
Qed.

Lemma follows_skeleton l : results_follow l <-> follows (skeleton l).
Proof.
  split.
  - intros Hl. assert (Hc : results_follow (conversation l)).
    { intros a t b c m Heq. assert (Hsub : conversation l `sublist_of` l).
      { unfold conversation. clear. induction l as [|m l IH]; [done|]. cbn. destruct (negb _); [by apply sublist_skip|by apply sublist_cons]. }
      rewrite Heq in Hsub. apply sublist_app_l in Hsub as (k1 & k2 & -> & _ & H2). apply sublist_cons_l in H2 as (k3 & k4 & -> & H4).
      intros Ht Hm. apply (Hl (k1 ++ k3) t k4 c m); [by rewrite <- app_assoc|done|]. by eapply elem_of_sublist. }
    intros a t b c m Heq Ht Hm Hin. unfold skeleton in Heq. apply fmap_app_inv in Heq as (l1 & l2 & -> & Heq & Hsplit).
    symmetry in Heq. apply fmap_cons_inv in Heq as (t' & l3 & -> & -> & ->). apply list_elem_of_fmap in Hm as (m' & -> & Hm').
    by apply (Hc l1 t' l3 c m').
  - intros Hs a t b c m -> Ht Hm Hc. assert (Hts : is_system t = false) by (unfold is_system, tool_result_of in *; by destruct (m_body t)).
    assert (Hms : is_system m = false).
    { unfold is_system, call_ids in *. destruct (m_body m); try done. by apply elem_of_nil in Hc. }
    rewrite skeleton_app in Hs. unfold skeleton at 2 in Hs. unfold conversation in Hs. cbn in Hs. rewrite Hts in Hs. cbn in Hs.
    apply (Hs (skeleton a) (m_id t, m_body t) (skeleton b) c (m_id m, m_body m)); [done|done| |done].
    apply list_elem_of_fmap. exists m. split; [done|]. apply filter_elem_of. by rewrite Hms.
Qed.

Lemma follows_thinned l k : skeleton l `sublist_of` skeleton k -> results_follow k -> results_follow l.
Proof. rewrite !follows_skeleton. apply follows_sublist. Qed.

(** ** Turns *)

Definition reply (m : BaseMessage) : bool := is_ai m || is_tool m.

Lemma body_cases m : is_system m = false -> is_human m = negb (reply m).
Proof. unfold is_system, is_human, reply, is_ai, is_tool. by destruct (m_body m). Qed.

(** A turn is a message of the user and replies to it, or replies alone. *)
Definition turn_shape (t : list BaseMessage) : Prop :=
  Forall (fun m => reply m = true) t \/ exists h r, t = h :: r /\ is_human h = true /\ Forall (fun m => reply m = true) r.

Lemma turn_shape_snoc t m : turn_shape t -> reply m = true -> turn_shape (t ++ [m]).
Proof.
  intros [H|(h & r & -> & Hh & Hr)] Hm; [left; by apply Forall_app; split; [|constructor]|].
  right. exists h, (r ++ [m]). split_and!; [done..|]. by apply Forall_app; split; [|constructor].
Qed.

Lemma turns_of_spec l current :
  Forall (fun m => is_system m = false) l -> turn_shape current ->
  Forall turn_shape (turns_of current l) /\ concat (turns_of current l) = current ++ l.
Proof.
  revert current. induction l as [|m l IH]; intros current Hl Hc; cbn [turns_of].
  - case_bool_decide as He; [by subst|]. cbn. rewrite app_nil_r. split; [by constructor|done].
  - apply Forall_cons in Hl as [Hm Hl]. pose proof (body_cases m Hm) as Hb. destruct (is_human m) eqn:Hh; cbn [andb].
    + assert (Hnew : turn_shape [m]) by (right; exists m, []; by repeat split). case_bool_decide as He; cbn [negb].
      * subst current. by apply IH.
      * destruct (IH [m] Hl Hnew) as [H1 H2]. cbn. rewrite H2. split; [by constructor|done].
    + destruct (IH (current ++ [m]) Hl) as [H1 H2]; [apply turn_shape_snoc; [done|]|].
      { by destruct (reply m). }
      split; [done|]. by rewrite H2, <- app_assoc.
Qed.

Lemma drop_leading_replies l : Forall (fun m => reply m = true) l -> drop_leading l = [].
Proof. induction 1 as [|m l Hm _ IH]; [done|]. cbn [drop_leading]. unfold reply in Hm. by rewrite Hm. Qed.

Lemma legalize_turn_spec t :
  turn_shape t -> legalize_turn t = [] \/ legalize_turn t = drop_halves (completed_ids t) ∅ t.
Proof.
  intros [H|(h & r & -> & Hh & Hr)]; unfold legalize_turn; [left|right].
  - apply drop_leading_replies. apply Forall_forall. intros m Hm.
    rewrite Forall_forall in H. apply H. by eapply elem_of_sublist, drop_halves_sublist.
  - assert (Hno : has_calls h = false /\ tool_result_of h = None /\ is_ai h = false /\ is_tool h = false).
    { unfold is_human, has_calls, tool_result_of, is_ai, is_tool in *. by destruct (m_body h). }
    destruct Hno as (H1 & H2 & H3 & H4). cbn [drop_halves]. rewrite H1, H2. cbn [andb drop_leading]. by rewrite H3, H4.
Qed.

Lemma legalize_turn_sublist t : legalize_turn t `sublist_of` t.
Proof.
  unfold legalize_turn. transitivity (drop_halves (completed_ids t) ∅ t); [|apply drop_halves_sublist].
  generalize (drop_halves (completed_ids t) ∅ t). intros l. induction l as [|m l IH]; [done|]. cbn. destruct (_ || _); [by apply sublist_cons|done].
Qed.

Lemma legalize_turn_legal t :
  turn_shape t -> declared_before (legalize_turn t) /\ (results_follow t -> answered_after (legalize_turn t)).
Proof.
  intros [->| ->]%legalize_turn_spec; [|apply drop_halves_legal]. by split; [|intros _]; intros [|] ? ? ?.
Qed.

Section budget.
Variable rough : BaseMessage -> Z.
Hypothesis rough_nonneg : forall m, 0 <= rough m.
Abbreviation cost l := (rough_estimation_for_messages rough l).

Lemma cost_app l k : cost (l ++ k) = cost l + cost k.
Proof. apply sum_by_app. Qed.

Lemma cost_cons m l : cost (m :: l) = 6 + rough m + cost l.
Proof. done. Qed.

Lemma cost_nonneg l : 0 <= cost l.
Proof. apply sum_by_nonneg. apply Forall_forall. intros m _. unfold estimate_message_tokens. specialize (rough_nonneg m). lia. Qed.

Lemma cost_sublist l k : l `sublist_of` k -> cost l <= cost k.
Proof.
  induction 1 as [|m l k _ IH|m l k _ IH]; [lia| |]; rewrite !cost_cons; [lia|]. pose proof (rough_nonneg m). lia.
Qed.

(** ** The newest turns *)

Lemma newest_turns_spec limit used ts :
  used <= limit ->
  used + cost (concat (newest_turns rough limit used ts)) <= limit /\
  exists k, newest_turns rough limit used ts = legalize_turn <$> rev (take k ts).
Proof.
  revert used. induction ts as [|t ts IH]; intros used Hu; cbn [newest_turns]; [split; [cbn; lia|by exists 0%nat]|].
  destruct (Z.ltb_spec limit (used + cost (legalize_turn t))) as [Hover|Hfits]; [split; [cbn; lia|by exists 0%nat]|].
  destruct (IH _ Hfits) as (H1 & k & Hk). split.
  - rewrite concat_app, cost_app. cbn [concat]. rewrite app_nil_r. lia.
  - exists (S k). cbn [take rev]. by rewrite Hk, fmap_app.
Qed.

Lemma concat_sublists (f : list BaseMessage -> list BaseMessage) ts :
  (forall t, f t `sublist_of` t) -> concat (f <$> ts) `sublist_of` concat ts.
Proof. intros Hf. induction ts as [|t ts IH]; [done|]. cbn. by apply sublist_app. Qed.

Lemma concat_drop_sublist k (ts : list (list BaseMessage)) : concat (drop k ts) `sublist_of` concat ts.
Proof. revert k. induction ts as [|t ts IH]; intros [|k]; try done. cbn. apply sublist_inserts_l, IH. Qed.

Lemma rev_take_rev {A} k (ts : list A) : rev (take k (rev ts)) = drop (length ts - k) ts.
Proof. rewrite firstn_rev, rev_involutive. done. Qed.

Lemma newest_legal limit used ts :
  used <= limit -> Forall turn_shape ts ->
  let kept := concat (newest_turns rough limit used (rev ts)) in
  used + cost kept <= limit /\ kept `sublist_of` concat ts /\
  declared_before kept /\ (results_follow (concat ts) -> answered_after kept).
Proof.
  intros Hu Hts. cbv zeta. destruct (newest_turns_spec limit used (rev ts) Hu) as (Hcost & k & Hk). split; [done|].
  rewrite Hk, rev_take_rev. set (ts' := drop _ ts).
  assert (Hts' : Forall turn_shape ts') by by apply Forall_drop. split.
  { etransitivity; [apply concat_sublists, legalize_turn_sublist|apply concat_drop_sublist]. }
  split.
  - clear Hk. induction Hts' as [|t l Ht _ IH]; [by intros [|] ? ? ?|]. cbn. apply declared_app; [by apply legalize_turn_legal|done].
  - intros Hf. assert (Hf' : results_follow (concat ts')).
    { eapply follows_thinned; [|done]. apply skeleton_sublist, concat_drop_sublist. }
    clear Hk Hcost. clearbody ts'. induction Hts' as [|t l Ht _ IH]; [by intros [|] ? ? ?|]. cbn in *. apply answered_app.
    + apply legalize_turn_legal; [done|]. eapply follows_thinned; [|done]. by apply skeleton_sublist, sublist_inserts_r.
    + apply IH. eapply follows_thinned; [|done]. by apply skeleton_sublist, sublist_inserts_l.
Qed.

(** ** The system messages that are kept *)

Lemma fitting_spec limit used l :
  used <= limit ->
  (fitting rough limit used l).1 `sublist_of` l /\
  (fitting rough limit used l).2 = used + cost ((fitting rough limit used l).1).*2 /\ (fitting rough limit used l).2 <= limit.
Proof.
  revert used. induction l as [|p l IH]; intros used Hu; cbn [fitting]; [cbn; split_and!; [done|lia|done]|].
  assert (Hone : cost [p.2] = 6 + rough p.2) by (rewrite cost_cons; cbn; lia).
  destruct (Z.leb_spec (used + cost [p.2]) limit) as [Hle|Hgt].
  - destruct (IH _ Hle) as (H1 & H2 & H3). destruct (fitting rough limit (used + cost [p.2]) l) as [r u]. cbn [fst snd fmap list_fmap] in *.
    rewrite cost_cons. split_and!; [by apply sublist_skip|lia|done].
  - destruct (IH used Hu) as (H1 & H2 & H3). split_and!; [by apply sublist_cons|done|done].
Qed.

(** Messages chosen by their positions are the chosen ones. *)
Lemma chosen_by_position (numbered chosen : list (nat * BaseMessage)) :
  NoDup numbered.*1 -> NoDup chosen -> (forall p, p ∈ chosen -> p ∈ numbered) ->
  List.filter (fun p => bool_decide (p.1 ∈ chosen.*1)) numbered ≡ₚ chosen.
Proof.
  intros Hn Hc Hin. apply NoDup_Permutation; [|done|].
  - apply NoDup_fmap_1 in Hn. eapply sublist_NoDup; [exact Hn|]. clear.
    induction numbered as [|p l IH]; [done|]. cbn. destruct (bool_decide _); [by apply sublist_skip|by apply sublist_cons].
  - intros p. rewrite filter_elem_of, bool_decide_eq_true. split; [|intros Hp; split; [by apply Hin|apply list_elem_of_fmap; by exists p]].
    intros [Hp (q & Hq & Hqc)%list_elem_of_fmap]. replace p with q; [done|]. apply Hin in Hqc.
    destruct p as [i m], q as [j k]. cbn in Hq. subst j. f_equal.
    pose proof (elem_of_list_to_map_1 (M:=gmap nat) numbered i m Hn Hp) as H1.
    pose proof (elem_of_list_to_map_1 (M:=gmap nat) numbered i k Hn Hqc) as H2. congruence.
Qed.

Lemma filter_snd (f : BaseMessage -> bool) (l : list (nat * BaseMessage)) :
  (List.filter (fun p => f p.2) l).*2 = List.filter f l.*2.
Proof. induction l as [|[i m] l IH]; [done|]. cbn. destruct (f m); cbn; by rewrite IH. Qed.

Lemma filter_sub {A} (f : A -> bool) l : List.filter f l `sublist_of` l.
Proof. induction l as [|x l IH]; [done|]. cbn. destruct (f x); [by apply sublist_skip|by apply sublist_cons]. Qed.

Lemma number_fst (l : list BaseMessage) : (zip (seq 0 (length l)) l).*1 = seq 0 (length l).
Proof. apply fst_zip. by rewrite length_seq. Qed.
Lemma number_snd (l : list BaseMessage) : (zip (seq 0 (length l)) l).*2 = l.
Proof. apply snd_zip. by rewrite length_seq. Qed.

(** ** The hard limit *)

Lemma trim_shape l limit :
  0 <= limit -> limit < cost l ->
  exists systems used, trim_legal_history rough l limit
      = systems ++ concat (newest_turns rough limit used (rev (turns_of [] (conversation l)))) /\
    systems `sublist_of` List.filter is_system l /\ used = cost systems /\ used <= limit.
Proof.
  intros H0 Hover. unfold trim_legal_history. rewrite (proj2 (Z.leb_gt _ _) Hover).
  set (systems := List.filter is_system l). set (numbered := zip (seq 0 (length systems)) systems).
  set (normal := List.filter _ numbered). set (internal := List.filter _ numbered). set (turns := turns_of [] _).
  destruct (fitting_spec limit 0 normal H0) as (Hc1 & Hu1 & Hl1). destruct (fitting rough limit 0 normal) as [chosen used1].
  cbn [fst snd] in *. set (sorted := sort_by _ internal).
  destruct (fitting_spec limit used1 sorted Hl1) as (Hc2 & Hu2 & Hl2). destruct (fitting rough limit used1 sorted) as [chosen' used2].
  cbn [fst snd] in *.
  assert (Hnd : NoDup numbered.*1) by (unfold numbered; rewrite number_fst; apply NoDup_seq).
  assert (Hndn : NoDup numbered) by by apply NoDup_fmap_1 in Hnd.
  assert (Hperm : sorted ≡ₚ internal) by apply sort_by_perm.
  assert (Hin1 : forall p, p ∈ chosen -> p ∈ normal) by (intros p Hp; by eapply elem_of_sublist).
  assert (Hin2 : forall p, p ∈ chosen' -> p ∈ internal) by (intros p Hp; rewrite <- Hperm; by eapply elem_of_sublist).
  assert (Hboth : List.filter (fun p => bool_decide (p.1 ∈ (chosen ++ chosen').*1)) numbered ≡ₚ chosen ++ chosen').
  { apply chosen_by_position; [done| |].
    - apply NoDup_app. split; [eapply sublist_NoDup; [|exact Hc1]; eapply sublist_NoDup; [exact Hndn|apply filter_sub]|].
      split; [|eapply sublist_NoDup; [|exact Hc2]; rewrite Hperm; eapply sublist_NoDup; [exact Hndn|apply filter_sub]].
      intros p Hp1%Hin1 Hp2%Hin2. apply filter_elem_of in Hp1 as [_ Hp1], Hp2 as [_ Hp2]. by rewrite Hp2 in Hp1.
    - intros p [Hp|Hp]%elem_of_app; [apply Hin1 in Hp|apply Hin2 in Hp]; by apply filter_elem_of in Hp as [Hp _]. }
  set (kept_systems := snd <$> _). assert (Hsub : kept_systems `sublist_of` systems).
  { unfold kept_systems. rewrite <- (number_snd systems). apply fmap_sublist, filter_sub. }
  assert (Hsys : Forall (fun m => is_system m = true) systems).
  { apply Forall_forall. intros m Hm. by apply filter_elem_of in Hm as [_ Hm]. }
  exists kept_systems, used2. split; [done|]. split; [done|]. split; [|done].
  unfold kept_systems, rough_estimation_for_messages. rewrite Hboth, fmap_app. fold (cost (chosen.*2 ++ chosen'.*2)). rewrite cost_app. lia.
Qed.

Lemma trim_spec l limit :
  0 <= limit -> limit < cost l ->
  let v := trim_legal_history rough l limit in
  cost v <= limit /\ skeleton v `sublist_of` skeleton l /\ (forall m, m ∈ v -> m ∈ l) /\
  declared_before v /\ (results_follow l -> answered_after v).
Proof.
  intros H0 Hover. cbv zeta. destruct (trim_shape l limit H0 Hover) as (systems & used & -> & Hsub & Hused & Hle).
  assert (Hconv : Forall (fun m => is_system m = false) (conversation l)).
  { apply Forall_forall. intros m [_ Hm]%filter_elem_of. by apply negb_true_iff. }
  destruct (turns_of_spec (conversation l) [] Hconv (or_introl (Forall_nil_2 _))) as [Hshape Hconcat]. cbn in Hconcat.
  destruct (newest_legal limit used _ Hle Hshape) as (Hcost & Hkept & Hdecl & Hans). rewrite Hconcat in Hkept, Hans.
  assert (Hsys : Forall (fun m => is_system m = true) systems).
  { apply Forall_forall. intros m Hm. apply (elem_of_sublist _ _ _ Hm) in Hsub. by apply filter_elem_of in Hsub as [_ ?]. }
  destruct (systems_legal systems Hsys) as [Hd Ha]. split_and!.
  - rewrite cost_app. lia.
  - rewrite skeleton_app, (skeleton_systems systems Hsys). unfold skeleton. apply fmap_sublist.
    etransitivity; [apply filter_sub|exact Hkept].
  - intros m [Hm|Hm]%elem_of_app.
    + apply (elem_of_sublist _ _ _ Hm) in Hsub. by apply filter_elem_of in Hsub as [? _].
    + apply (elem_of_sublist _ _ _ Hm) in Hkept. by apply filter_elem_of in Hkept as [? _].
  - by apply declared_app.
  - intros Hf. apply answered_app; [done|]. apply Hans. apply (follows_thinned _ l); [|done].
    unfold skeleton. apply fmap_sublist, filter_sub.
Qed.

(** ** Views made from a history *)

Definition made_from (v l : list BaseMessage) : Prop :=
  skeleton v `sublist_of` skeleton l /\
  forall m, m ∈ v -> m ∈ l \/ (exists m0, m0 ∈ l /\ m = cleared m0) \/ is_system m = true /\ is_internal_context_message m = true.

Lemma made_from_refl l : made_from l l.
Proof. split; [done|]. intros m Hm. by left. Qed.

Lemma made_from_sub v w l :
  made_from w l -> skeleton v `sublist_of` skeleton w -> (forall m, m ∈ v -> m ∈ w) -> made_from v l.
Proof. intros [H1 H2] Hs Hin. split; [by etransitivity|]. intros m Hm. by apply H2, Hin. Qed.

Lemma drop_halves_sub v done_ decl : drop_halves done_ decl v `sublist_of` v.
Proof. apply drop_halves_sublist. Qed.

Lemma finish_spec original view l before b actions :
  made_from view l ->
  let v := ct_messages (finish_transform rough original view before b actions) in
  cost v <= input_limit b /\ made_from v l /\ declared_before v /\ (results_follow l -> answered_after v).
Proof.
  intros Hv. cbv zeta. unfold finish_transform. assert (Hf : results_follow l -> results_follow view) by (by apply follows_thinned, Hv).
  destruct (Z.ltb_spec (input_limit b) (cost view)) as [Hover|Hfits]; cbn [ct_messages].
  - destruct (trim_spec view (input_limit b)) as (Hc & Hs & Hin & Hd & Ha); [unfold input_limit; lia|done|].
    split; [done|]. split; [by eapply made_from_sub|]. split; [done|]. intros Hl. by apply Ha, Hf.
  - destruct (drop_halves_legal view) as [Hd Ha]. pose proof (drop_halves_sublist (completed_ids view) ∅ view) as Hsub.
    split; [pose proof (cost_sublist _ _ Hsub); unfold remove_orphaned_tool_messages; lia|].
    split; [eapply made_from_sub; [exact Hv|by apply skeleton_sublist|intros m Hm; by eapply elem_of_sublist]|].
    split; [done|]. intros Hl. by apply Ha, Hf.
Qed.

Lemma skeleton_map (f : BaseMessage -> BaseMessage) l :
  (forall m, m_id (f m) = m_id m /\ m_body (f m) = m_body m) -> skeleton (f <$> l) = skeleton l.
Proof.
  intros Hkey. unfold skeleton, conversation. induction l as [|m l IH]; [done|]. cbn. destruct (Hkey m) as [Hi Hb].
  assert (Hsys : is_system (f m) = is_system m) by (unfold is_system; by rewrite Hb). rewrite Hsys.
  destruct (is_system m); cbn; [apply IH|]. by rewrite Hi, Hb, IH.
Qed.

Lemma micro_made_from float_of tools gap keep force now_ l :
  made_from (mc_messages (micro_compact_if_needed rough float_of tools gap keep force now_ l)) l.
Proof.
  unfold micro_compact_if_needed. destruct (negb _); [apply made_from_refl|]. case_bool_decide; [apply made_from_refl|].
  cbn [mc_messages apply_micro_compact]. set (ids := all_but _ _). set (f := fun m : BaseMessage => if to_clear ids m then cleared m else m).
  assert (Hkey : forall m, m_id (f m) = m_id m /\ m_body (f m) = m_body m) by (intros m; unfold f; by destruct (to_clear ids m)).
  pose proof (skeleton_map f l Hkey) as Hskel.
  split; [by rewrite Hskel|]. intros m (m0 & -> & Hm)%list_elem_of_fmap. unfold f. destruct (to_clear ids m0); [right; left; by exists m0|by left].
Qed.

Lemma collapsed_internal c : is_system (collapsed_message c) = true /\ is_internal_context_message (collapsed_message c) = true.
Proof. done. Qed.

Lemma project_made_from l s : made_from (project_view l s) l.
Proof.
  unfold project_view. case_bool_decide; [apply made_from_refl|]. set (ids := get_all_committed_ids l s). clearbody ids.
  set (bs := commit_boundaries _). clearbody bs. split.
  - induction l as [|m l IH]; [done|]. cbn [mbind list_bind]. rewrite skeleton_app. change (m :: l) with ([m] ++ l).
    rewrite skeleton_app. apply sublist_app; [|apply IH]. unfold project_message.
    destruct (hidden ids m); [|done]. repeat case_match; apply sublist_nil_l.
  - intros m (m0 & Hm & Hm0)%list_elem_of_bind. unfold project_message in Hm.
    destruct (hidden ids m0); [|apply list_elem_of_singleton in Hm as ->; by left].
    repeat case_match; first [by apply elem_of_nil in Hm|apply list_elem_of_singleton in Hm as ->; right; right; apply collapsed_internal].
Qed.

Section prepared.
Context `{Uuids}.
Variable share : Z -> Z -> Z.
Variable summarize : list BaseMessage -> option string.

Lemma summary_internal text id recent :
  is_system (summary_message text id recent) = true /\ is_internal_context_message (summary_message text id recent) = true.
Proof. done. Qed.

Lemma restoration_internal l id m : restoration l id = Some m -> is_system m = true /\ is_internal_context_message m = true.
Proof. unfold restoration. case_bool_decide; [done|]. by intros [= <-]. Qed.

Lemma collapses_made_from now_ l limit st next :
  made_from (apply_collapses_if_needed rough share summarize now_ l limit st next).1.1 l.
Proof.
  unfold apply_collapses_if_needed. destruct (_ || _); [apply made_from_refl|]. destruct (_ <? _); [apply project_made_from|].
  destruct (commit_staged _ _ _ _ _) as [st' next']. apply project_made_from.
Qed.

Lemma autocompact_made_from limit key v l failures next :
  made_from v l -> made_from (ar_messages (autocompact_if_needed rough summarize limit key v failures next).1.1) l.
Proof.
  intros Hv. unfold autocompact_if_needed. cbv zeta. repeat (case_match; [exact Hv|]). destruct (summarize _) as [text|]; [|exact Hv].
  cbn [fst ar_messages]. set (systems := List.filter _ v). set (recent := drop _ _). set (restored := restoration _ _).
  apply (made_from_sub _ (systems ++ [summary_message text (uuid4 next) recent] ++ option_list restored ++ recent)); [|
    apply skeleton_sublist, drop_halves_sublist|intros m Hm; by eapply elem_of_sublist, drop_halves_sublist].
  assert (Hsys : forall m, m ∈ systems -> m ∈ v) by (intros m Hm; by apply filter_elem_of in Hm as [? _]).
  assert (Hrec : recent `sublist_of` conversation v) by apply sublist_drop.
  assert (Hrest : forall m, m ∈ option_list restored -> is_system m = true /\ is_internal_context_message m = true).
  { intros m Hm. destruct restored as [r|] eqn:Hr; [|by apply elem_of_nil in Hm]. apply list_elem_of_singleton in Hm as ->.
    by eapply restoration_internal. }
  destruct Hv as [Hs Hin]. split.
  - rewrite !skeleton_app, (skeleton_systems systems), (skeleton_systems [_]), (skeleton_systems (option_list restored)); cbn [app].
    + etransitivity; [|exact Hs]. apply fmap_sublist. etransitivity; [apply filter_sub|exact Hrec].
    + apply Forall_forall. intros m Hm. by apply Hrest.
    + by constructor; [apply summary_internal|constructor].
    + apply Forall_forall. intros m Hm. apply filter_elem_of in Hm as [_ Hm]. by apply andb_true_iff in Hm as [? _].
  - intros m [Hm|[Hm|[Hm|Hm]%elem_of_app]%elem_of_app]%elem_of_app.
    + by apply Hin, Hsys.
    + apply list_elem_of_singleton in Hm as ->. right; right. apply summary_internal.
    + right; right. by apply Hrest.
    + apply Hin. apply (elem_of_sublist _ _ _ Hm) in Hrec. by apply filter_elem_of in Hrec as [? _].
Qed.

(** C10: a prepared view fits the input limit of the model; its conversation is a part of the history
    in the same order, every other message is an original one, a cleared result or synthetic
    context; every result in it follows its call, and every call is answered in it, provided no
    call of the history follows a result with its id. *)
Theorem prepared_view_is_legal float_of key session tools now_ l b x :
  let v := ct_messages (prepare rough share float_of summarize key session tools now_ l b x).1 in
  cost v <= input_limit b /\
  skeleton v `sublist_of` skeleton l /\
  (forall m, m ∈ v -> m ∈ l \/ (exists m0, m0 ∈ l /\ m = cleared m0) \/ is_system m = true /\ is_internal_context_message m = true) /\
  declared_before v /\ (results_follow l -> answered_after v).
Proof.
  cbv zeta. unfold prepare. pose proof (micro_made_from float_of tools (60 * 60 * 1000000) 5 (threshold share 60 b <=? cost l) now_ l) as Hmicro.
  pose proof (fun st next => collapses_made_from now_ l (input_limit b) st next) as Hfold.
  assert (Hgoal : forall view before actions, made_from view l ->
    let v := ct_messages (finish_transform rough l view before b actions) in
    cost v <= input_limit b /\ skeleton v `sublist_of` skeleton l /\
    (forall m, m ∈ v -> m ∈ l \/ (exists m0, m0 ∈ l /\ m = cleared m0) \/ is_system m = true /\ is_internal_context_message m = true) /\
    declared_before v /\ (results_follow l -> answered_after v)).
  { intros view before actions Hv. destruct (finish_spec l view l before b actions Hv) as (H1 & [H2 H3] & H4 & H5). by split_and!. }
  destruct (negb _); [by apply Hgoal|]. cbn [cm_next with_store].
  specialize (Hfold (store_of key x) (cm_next x)).
  destruct (apply_collapses_if_needed _ _ _ _ _ _ _ _) as [[view st'] next]. cbn [fst] in Hfold.
  destruct (negb (bool_decide (message_signature view = message_signature l))); [by apply Hgoal|].
  match goal with |- context [autocompact_if_needed _ _ ?a ?k view ?f ?n] => pose proof (autocompact_made_from a k view l f n Hfold) as Hauto;
    destruct (autocompact_if_needed rough summarize a k view f n) as [[r failures] next'] end.
  cbn [fst] in Hauto. destruct (ar_was_compacted r); by apply Hgoal.
Qed.
End prepared.
End budget.
