(* ===== verification/ContextFolding.v ===== *)
(** * ContextFolding: what folding hides

    While a history only grows, the ranges that are staged and folded end before its newest
    messages, which every view shows; a range that loses its last message hides all that follows. *)
From S2P Require Import Prelude PyText Json ContextLayers ContextManager ContextSnip ContextSafety.
Local Open Scope Z_scope.

(** ** Ranges in a history *)

(** The first and the last message of a range, in this order and before the protected end. *)
Definition span_ok (l : list BaseMessage) (first last : string) : Prop :=
  exists i j m n, (i <= j)%nat /\ (j + COLLAPSE_KEEP_RECENT < length l)%nat /\
    l !! i = Some m /\ named m = Some first /\ l !! j = Some n /\ named n = Some last.

Record fold_ok (l : list BaseMessage) (s : CollapseStore) : Prop := {
  fo_ids : NoDup (omap named l);
  fo_staged : forall x, x ∈ cs_staged s -> span_ok l (sp_start x) (sp_end x);
  fo_commits : forall c, c ∈ cs_commits s -> span_ok l (co_first c) (co_last c);
}.

Lemma named_id m i : named m = Some i -> m_id m = Some i.
Proof. unfold named. destruct (m_id m) as [j|]; [|done]. cbn. destruct (String.eqb j ""); [done|]. by intros [= ->]. Qed.

Lemma span_ok_app l k a z : span_ok l a z -> span_ok (l ++ k) a z.
Proof.
  intros (i & j & m & n & Hij & Hj & Hi & Ha & Hn & Hz). exists i, j, m, n. rewrite length_app.
  split_and!; try done; [lia|by apply lookup_app_l_Some|by apply lookup_app_l_Some].
Qed.

(** ** Staging *)

Lemma try_stage_ok now_ l before current rest staged :
  take (length l - COLLAPSE_KEEP_RECENT) l = before ++ current ++ rest ->
  (forall x, x ∈ staged -> span_ok l (sp_start x) (sp_end x)) ->
  forall x, x ∈ try_stage now_ current staged -> span_ok l (sp_start x) (sp_end x).
Proof.
  intros Hl Hs x. unfold try_stage. destruct (Nat.leb_spec 5 (length current)) as [Hlen|]; [|by apply Hs].
  destruct (head current ≫= named) as [a|] eqn:Ha; [|by apply Hs]. destruct (last current ≫= named) as [z|] eqn:Hz; [|by apply Hs].
  destruct (existsb _ _); [by apply Hs|]. intros [Hx| ->%list_elem_of_singleton]%elem_of_app; [by apply Hs|]. cbn.
  destruct (head current) as [m|] eqn:Hm; [|done]. destruct (last current) as [n|] eqn:Hn; [|done]. cbn in Ha, Hz.
  assert (Hcand : forall k y, take (length l - COLLAPSE_KEEP_RECENT) l !! k = Some y -> l !! k = Some y /\ (k + COLLAPSE_KEEP_RECENT < length l)%nat).
  { intros k y Hk. pose proof (lookup_lt_Some _ _ _ Hk) as Hlt. rewrite length_take in Hlt. rewrite lookup_take in Hk. case_decide; [|done]. split; [done|lia]. }
  assert (Hfirst : take (length l - COLLAPSE_KEEP_RECENT) l !! length before = Some m).
  { rewrite Hl. destruct current as [|y current]; [done|]. injection Hm as ->. by apply list_lookup_middle. }
  assert (Hlast : take (length l - COLLAPSE_KEEP_RECENT) l !! (length before + (length current - 1))%nat = Some n).
  { rewrite Hl, app_assoc, lookup_app_l by (rewrite length_app; lia). rewrite lookup_app_r by lia.
    replace (length before + (length current - 1) - length before)%nat with (pred (length current)) by lia. by rewrite <- last_lookup. }
  apply Hcand in Hfirst as [Hf _], Hlast as [Hz' Hj]. exists (length before), (length before + (length current - 1))%nat, m, n.
  split_and!; try done; lia.
Qed.

Lemma stage_loop_ok now_ committed l before current rest staged :
  take (length l - COLLAPSE_KEEP_RECENT) l = before ++ current ++ rest ->
  (forall x, x ∈ staged -> span_ok l (sp_start x) (sp_end x)) ->
  forall x, x ∈ stage_loop now_ committed rest current staged -> span_ok l (sp_start x) (sp_end x).
Proof.
  revert before current staged. induction rest as [|m rest IH]; intros before current staged Hl Hs; cbn [stage_loop].
  - by eapply try_stage_ok.
  - destruct (is_system m || hidden committed m).
    + apply (IH (before ++ current ++ [m]) []); [by rewrite Hl, <- !app_assoc|]. by eapply try_stage_ok.
    + apply (IH before (current ++ [m])); [by rewrite Hl, <- !app_assoc|done].
Qed.

Lemma stage_ok now_ l s : fold_ok l s -> fold_ok l (stage_spans now_ l s).
Proof.
  intros [H1 H2 H3]. split; [done| |done]. cbn. eapply (stage_loop_ok now_ _ l [] []); [done|done].
Qed.

(** ** Committing *)

Lemma commit_loop_ok `{Uuids} summarize l spans s next :
  (forall x, x ∈ spans -> span_ok l (sp_start x) (sp_end x)) -> fold_ok l s -> fold_ok l (commit_loop summarize l spans s next).1.1.
Proof.
  revert s next. induction spans as [|x spans IH]; intros s next Hs Hok; [done|]. cbn [commit_loop].
  assert (Hrest : forall y, y ∈ spans -> span_ok l (sp_start y) (sp_end y)) by (intros y Hy; apply Hs; by right).
  destruct (if bool_decide _ then None else summarize _) as [text|]; [|by apply IH].
  set (c := {| co_collapse_id := _ |}). specialize (IH (add_commit c s) (S (S next)) Hrest).
  destruct (commit_loop _ _ _ _ _) as [[s' done_] next']. apply IH. destruct Hok as [H1 H2 H3]. split; [done|done|].
  cbn. intros y [Hy| ->%list_elem_of_singleton]%elem_of_app; [by apply H3|]. cbn. apply Hs. by left.
Qed.

Lemma commit_staged_ok `{Uuids} summarize l limit s next : fold_ok l s -> fold_ok l (commit_staged summarize l limit s next).1.
Proof.
  intros Hok. unfold commit_staged. set (spans := match limit with Some (S k) => _ | _ => _ end).
  assert (Hs : forall x, x ∈ spans -> span_ok l (sp_start x) (sp_end x)).
  { intros x Hx. apply (fo_staged _ _ Hok). unfold spans in Hx. destruct limit as [[|k]|]; try done. by eapply elem_of_take in Hx as (? & ? & _); eapply list_elem_of_lookup_2. }
  pose proof (commit_loop_ok summarize l spans s next Hs Hok) as Hloop.
  destruct (commit_loop _ _ _ _ _) as [[s' done_] next']. destruct Hloop as [H1 H2 H3]. split; [done| |done].
  cbn. intros x Hx. apply filter_elem_of in Hx as [Hx _]. by apply H2.
Qed.

Lemma apply_ok `{Uuids} rough share summarize now_ l limit s next :
  fold_ok l s -> fold_ok l (apply_collapses_if_needed rough share summarize now_ l limit s next).1.2.
Proof.
  intros Hok. unfold apply_collapses_if_needed. destruct (_ || _); [done|]. destruct (_ <? _); [by apply stage_ok|].
  match goal with |- context [commit_staged _ _ ?k _ _] => pose proof (commit_staged_ok summarize l k s next Hok) as Hc;
    destruct (commit_staged summarize l k s next) as [s' next'] end. exact Hc.
Qed.

(** ** What is hidden *)

Lemma extract_before b first last k n r :
  m_id n = Some last -> forall m, m ∈ extract_range b first last (k ++ n :: r) -> m ∈ k ++ [n].
Proof.
  intros Hn. revert b. induction k as [|x k IH]; intros b m; cbn [extract_range app].
  - rewrite (bool_decide_eq_true_2 _ Hn). destruct (b || _); [done|by intros ?%elem_of_nil].
  - intros Hm. assert (Hrest : forall b', m ∈ (if bool_decide (m_id x = Some last) then [] else extract_range b' first last (k ++ n :: r)) ->
                         m ∈ x :: k ++ [n]).
    { intros b' H. case_bool_decide; [by apply elem_of_nil in H|]. right. by eapply IH. }
    destruct (b || _); [apply elem_of_cons in Hm as [->|Hm]; [by left|]|]; by eapply Hrest.
Qed.

Lemma hidden_early l s m k :
  fold_ok l s -> l !! k = Some m -> (length l <= k + COLLAPSE_KEEP_RECENT)%nat -> hidden (get_all_committed_ids l s) m = false.
Proof.
  intros [Hids _ Hc] Hk Hlate. unfold hidden. destruct (named m) as [i|] eqn:Hi; [|done]. apply bool_decide_eq_false.
  intros Hin. apply elem_of_list_to_set, list_elem_of_bind in Hin as (c & Hic & Hcc). unfold commit_ids in Hic.
  apply list_elem_of_omap in Hic as (m' & Hm' & Hi'). destruct (Hc c Hcc) as (i0 & j & a & z & Hij & Hj & _ & _ & Hz & Hzn).
  rewrite <- (take_drop_middle l j z Hz) in Hm'. unfold extract_messages_by_range in Hm'.
  apply (extract_before false _ _ _ z _ (named_id _ _ Hzn)) in Hm'. rewrite <- (take_S_r l j z Hz) in Hm'.
  assert (Hsplit : omap named l = omap named (take (S j) l) ++ omap named (drop (S j) l)) by (by rewrite <- omap_app, take_drop).
  rewrite Hsplit in Hids. apply NoDup_app in Hids as (_ & Hdisj & _). apply (Hdisj i).
  - apply list_elem_of_omap. by exists m'.
  - apply list_elem_of_omap. exists m. split; [|done]. apply list_elem_of_lookup. exists (k - S j)%nat. rewrite lookup_drop.
    by replace (S j + (k - S j))%nat with k by lia.
Qed.

Lemma project_recent l s : fold_ok l s -> drop (length l - COLLAPSE_KEEP_RECENT) l `suffix_of` project_view l s.
Proof.
  intros Hok. unfold project_view. case_bool_decide; [apply suffix_drop|].
  set (f := project_message _ _). set (n := (length l - COLLAPSE_KEEP_RECENT)%nat).
  assert (Hl : l ≫= f = (take n l ≫= f) ++ (drop n l ≫= f)) by (by rewrite <- bind_app, take_drop).
  rewrite Hl. replace (drop n l ≫= f) with (drop n l) at 1; [by eexists|]. subst n.
  assert (Hall : Forall (fun m => hidden (get_all_committed_ids l s) m = false) (drop (length l - COLLAPSE_KEEP_RECENT) l)).
  { apply Forall_lookup. intros k m Hk. rewrite lookup_drop in Hk. eapply hidden_early; [done|exact Hk|]. lia. }
  clear -Hall. subst f. generalize dependent (drop (length l - COLLAPSE_KEEP_RECENT) l). intros r Hall.
  induction Hall as [|m r Hm _ IH]; [done|]. cbn. unfold project_message at 1. rewrite Hm. cbn. by rewrite <- IH.
Qed.

(** ** A history that grows *)

Section folding.
Context `{Uuids}.
Variable rough : BaseMessage -> Z.
Variable share : Z -> Z -> Z.

Record Folding := { fl_history : list BaseMessage; fl_store : CollapseStore; fl_next : nat }.

Inductive fold_step (x : Folding) : Folding -> Prop :=
| fs_append m : (forall i, named m = Some i -> i ∉ omap named (fl_history x)) ->
    fold_step x {| fl_history := fl_history x ++ [m]; fl_store := fl_store x; fl_next := fl_next x |}
| fs_apply summarize now_ limit :
    let r := apply_collapses_if_needed rough share summarize now_ (fl_history x) limit (fl_store x) (fl_next x) in
    fold_step x {| fl_history := fl_history x; fl_store := r.1.2; fl_next := r.2 |}
| fs_restart : fold_step x {| fl_history := fl_history x; fl_store := load_commits (cs_commits (fl_store x)) new_collapse_store;
                              fl_next := fl_next x |}.

Lemma load_commits_commits l s : cs_commits (load_commits l s) = l /\ cs_staged (load_commits l s) = cs_staged s.
Proof.
  unfold load_commits. assert (Hall : forall s, cs_commits (foldl (fun s c => add_commit c s) s l) = cs_commits s ++ l /\
                                  cs_staged (foldl (fun s c => add_commit c s) s l) = cs_staged s).
  { induction l as [|c l IH]; intros s'; [by rewrite app_nil_r|]. cbn. destruct (IH (add_commit c s')) as [-> ->]. cbn. by rewrite <- app_assoc. }
  by destruct (Hall {| cs_commits := []; cs_staged := cs_staged s; cs_uuid_to_id := ∅; cs_enabled := cs_enabled s |}) as [-> ->].
Qed.

Definition folding_ok (x : Folding) : Prop := fold_ok (fl_history x) (fl_store x).

Lemma folding_step_ok x y : fold_step x y -> folding_ok x -> folding_ok y.
Proof.
  intros [m Hfresh|summarize now_ limit|] [H1 H2 H3].
  - split; cbn.
    + rewrite omap_app. apply NoDup_app. split; [done|]. cbn. destruct (named m) as [i|]; cbn; [|by split; [intros ? _ ?%elem_of_nil|constructor]].
      split; [|by apply NoDup_singleton]. intros j Hj ->%list_elem_of_singleton. by apply (Hfresh i).
    + intros s Hs. by apply span_ok_app, H2.
    + intros c Hc. by apply span_ok_app, H3.
  - by apply apply_ok.
  - destruct (load_commits_commits (cs_commits (fl_store x)) new_collapse_store) as [Hc Hs].
    split; cbn [fl_history fl_store]; [done| |by rewrite Hc]. rewrite Hs. by intros s ?%elem_of_nil.
Qed.

(** C21: while messages are only added to a history, with folding and restarts in between, the view
    that folding makes of it always ends with its fifteen newest messages. *)
Theorem recent_messages_never_folded x summarize now_ limit :
  rtc fold_step {| fl_history := []; fl_store := new_collapse_store; fl_next := 0 |} x ->
  drop (length (fl_history x) - COLLAPSE_KEEP_RECENT) (fl_history x)
  `suffix_of` (apply_collapses_if_needed rough share summarize now_ (fl_history x) limit (fl_store x) (fl_next x)).1.1.
Proof.
  intros Hrun. assert (Hok : folding_ok x).
  { assert (Hstart : folding_ok {| fl_history := []; fl_store := new_collapse_store; fl_next := 0 |})
      by (split; cbn; [constructor|by intros ? ?%elem_of_nil|by intros ? ?%elem_of_nil]).
    revert Hstart. induction Hrun as [|a b c Hab _ IH]; [done|]. intros Ha. by eapply IH, folding_step_ok. }
  pose proof (apply_ok rough share summarize now_ _ limit _ (fl_next x) Hok) as Hafter.
  unfold apply_collapses_if_needed in *. destruct (_ || _); [apply suffix_drop|]. destruct (_ <? _); [by apply project_recent|].
  destruct (commit_staged _ _ _ _ _) as [s' next']. by apply project_recent.
Qed.
End folding.

(** ** A range that loses its last message *)

Lemma extract_open first last l : (forall m, m ∈ l -> m_id m <> Some last) -> extract_range true first last l = l.
Proof.
  induction l as [|m l IH]; intros Hl; [done|]. cbn [extract_range]. rewrite (bool_decide_eq_false_2 (m_id m = Some last)).
  - cbn. f_equal. apply IH. intros m' Hm'. apply Hl. by right.
  - apply Hl. by left.
Qed.

Lemma extract_lost first last p m r :
  m_id m = Some first -> (forall x, x ∈ p -> m_id x <> Some first) -> (forall x, x ∈ p ++ m :: r -> m_id x <> Some last) ->
  extract_messages_by_range (p ++ m :: r) first last = m :: r.
Proof.
  intros Hm. unfold extract_messages_by_range. induction p as [|x p IH]; intros Hp Hl; cbn [app extract_range].
  - rewrite (bool_decide_eq_true_2 _ Hm), (bool_decide_eq_false_2 (m_id m = Some last)) by (apply Hl; by left). cbn. f_equal.
    apply extract_open. intros y Hy. apply Hl. by right.
  - rewrite (bool_decide_eq_false_2 (m_id x = Some first)), (bool_decide_eq_false_2 (m_id x = Some last)); [|apply Hl; by left|apply Hp; by left].
    cbn. apply IH; intros y Hy; [apply Hp|apply Hl]; by right.
Qed.

(** C36: a folded range whose last message is no longer in the history hides every message from its
    first one on, the newest one of the user included. *)
Theorem lost_boundary_hides_rest l s c p m r x :
  c ∈ cs_commits s -> l = p ++ m :: r -> m_id m = Some (co_first c) ->
  (forall y, y ∈ p -> m_id y <> Some (co_first c)) -> (forall y, y ∈ l -> m_id y <> Some (co_last c)) ->
  x ∈ m :: r -> is_system x = false -> named x <> None -> x ∉ project_view l s.
Proof.
  intros Hc -> Hm Hp Hlost Hx Hsys Hnamed Hin. unfold project_view in Hin.
  rewrite bool_decide_eq_false_2 in Hin by (intros He; rewrite He in Hc; by apply elem_of_nil in Hc).
  apply list_elem_of_bind in Hin as (y & Hy & _). unfold project_message in Hy.
  assert (Hhid : hidden (get_all_committed_ids (p ++ m :: r) s) x = true).
  { unfold hidden. destruct (named x) as [i|] eqn:Hi; [|done]. apply bool_decide_eq_true. apply elem_of_list_to_set, list_elem_of_bind.
    exists c. split; [|done]. apply list_elem_of_omap. exists x. by rewrite (extract_lost _ _ p m r Hm Hp Hlost). }
  destruct (hidden _ y) eqn:Hhy; [|apply list_elem_of_singleton in Hy as ->; congruence].
  repeat case_match; first [by apply elem_of_nil in Hy|apply list_elem_of_singleton in Hy as ->; done].
Qed.

(** ** Summarising again *)

Lemma drop_halves_app done_ decl a b :
  exists decl', drop_halves done_ decl (a ++ b) = drop_halves done_ decl a ++ drop_halves done_ decl' b.
Proof.
  revert decl. induction a as [|m a IH]; intros decl; [by exists decl|]. cbn [drop_halves app]. destruct (_ && _); [apply IH|].
  set (decl' := if has_calls m then _ else _). destruct (IH decl') as [d Hd]. exists d. rewrite Hd.
  destruct (tool_result_of m); [by case_decide|done].
Qed.

Lemma only_recent_before id recent a b :
  (forall m, m ∈ a -> m_id m <> id) -> only_recent id recent false (a ++ b) = only_recent id recent false b.
Proof.
  induction a as [|m a IH]; intros Ha; [done|]. cbn [app only_recent]. rewrite decide_False by (apply Ha; by left).
  cbn. apply IH. intros x Hx. apply Ha. by right.
Qed.

Lemma only_recent_after id recent l :
  (forall m, m ∈ l -> is_internal_context_message m = true \/ exists i, m_id m = Some i /\ i ∈ recent) -> only_recent id recent true l = true.
Proof.
  induction l as [|m l IH]; intros Hl; [done|]. cbn [only_recent negb orb].
  assert (Hrest : only_recent id recent true l = true) by (apply IH; intros x Hx; apply Hl; by right).
  case_decide; [done|]. destruct (Hl m) as [-> | (i & Hi & Hr)]; [by left|done|]. destruct (is_internal_context_message m); [done|].
  rewrite Hi. by rewrite decide_True.
Qed.

Lemma recent_ids_summary text id recent m i :
  m ∈ recent -> is_internal_context_message m = false -> named m = Some i -> i ∈ recent_ids (summary_message text id recent).
Proof.
  intros Hm Hint Hi. unfold recent_ids. cbn. apply elem_of_list_to_set, list_elem_of_omap. exists (JStr i).
  pose proof (named_id m i Hi) as Hid. split.
  - apply list_elem_of_omap. exists m. split; [done|]. by rewrite Hint, Hid.
  - unfold named in Hi. rewrite Hid in Hi. cbn in Hi. by destruct (String.eqb i "").
Qed.

Lemma find_none_of {A} (p : A -> bool) l : (forall x, x ∈ l -> p x = false) -> List.find p l = None.
Proof. induction l as [|x l IH]; intros Hl; [done|]. cbn. rewrite (Hl x) by (by left). apply IH. intros y Hy. apply Hl. by right. Qed.

(** The newest summary decides, and whatever follows it was there when it was made. *)
Lemma summarised_has_no_new text id recent systems restored done_ :
  let s := summary_message text id recent in
  (forall m, m ∈ systems -> m_id m <> Some id) ->
  (forall m, m ∈ recent -> is_system m = false /\ (is_internal_context_message m = false -> named m <> None)) ->
  (forall m, m ∈ restored -> is_internal_context_message m = true /\ is_auto_summary m = false) ->
  has_no_new_content (drop_halves done_ ∅ (systems ++ [s] ++ restored ++ recent)) = true.
Proof.
  intros s Hsys Hrec Hrest. destruct (drop_halves_app done_ ∅ systems ([s] ++ restored ++ recent)) as [d ->].
  set (a := drop_halves done_ ∅ systems). change ([s] ++ restored ++ recent) with (s :: (restored ++ recent)).
  replace (drop_halves done_ d (s :: restored ++ recent)) with (s :: drop_halves done_ d (restored ++ recent)) by done.
  set (b := drop_halves done_ d (restored ++ recent)).
  assert (Hb : forall m, m ∈ b -> is_auto_summary m = false /\ (is_internal_context_message m = true \/ exists i, m_id m = Some i /\ i ∈ recent_ids s)).
  { intros m Hm. assert (Hin : m ∈ restored ++ recent) by (eapply elem_of_sublist; [exact Hm|apply drop_halves_sublist]).
    apply elem_of_app in Hin as [Hin|Hin]; [destruct (Hrest m Hin); by split; [|left]|]. destruct (Hrec m Hin) as [Hns Hnm].
    split; [unfold is_auto_summary; by rewrite Hns|]. destruct (is_internal_context_message m) eqn:Hint; [by left|right].
    destruct (named m) as [i|] eqn:Hi; [|by destruct (Hnm eq_refl)]. exists i. split; [by apply named_id|by eapply recent_ids_summary]. }
  unfold has_no_new_content. rewrite rev_app_distr. cbn [rev]. rewrite <- app_assoc.
  rewrite find_app_none by (apply find_none_of; intros m Hm; apply Hb; by rewrite list_elem_of_In, <- in_rev, <- list_elem_of_In in Hm).
  cbn [app List.find]. change (is_auto_summary s) with true. cbv iota. rewrite only_recent_before.
  - cbn [only_recent]. rewrite decide_True by done. apply only_recent_after. intros m Hm. by apply Hb.
  - intros m Hm. apply Hsys. eapply elem_of_sublist; [exact Hm|apply drop_halves_sublist].
Qed.

(** A history that was just summarised is left as it is by further calls, whatever their limit,
    until something is added to it, provided its public messages have ids. *)
Lemma autocompact_is_idempotent `{Uuids} rough summarize limit key l failures next :
  (forall m, m ∈ l -> is_system m = false -> is_internal_context_message m = false -> named m <> None) ->
  Some (uuid4 next) ∉ m_id <$> l ->
  let '(r, failures', next') := autocompact_if_needed rough summarize limit key l failures next in
  ar_was_compacted r = true ->
  forall summarize' limit',
    autocompact_if_needed rough summarize' limit' key (ar_messages r) failures' next' = (not_compacted (ar_messages r), failures', next').
Proof.
  intros Hnamed Hfresh. destruct (autocompact_if_needed _ _ _ _ _ _ _) as [[r failures'] next'] eqn:Hauto. intros Hdone summarize' limit'.
  unfold autocompact_if_needed. destruct (_ <? limit'); [done|].
  enough (has_no_new_content (ar_messages r) = true) as -> by done.
  unfold autocompact_if_needed in Hauto. cbv zeta in Hauto. repeat (case_match; [by simplify_eq|]).
  destruct (summarize _) as [text|]; [|by simplify_eq]. injection Hauto as <- _ _. cbn [ar_messages].
  assert (Hconv : forall m, m ∈ drop (length (List.filter (fun m => negb (is_system m)) l) - AUTO_KEEP_RECENT) (List.filter (fun m => negb (is_system m)) l) ->
            m ∈ l /\ is_system m = false).
  { intros m Hm. assert (Hin : m ∈ List.filter (fun m => negb (is_system m)) l) by (eapply elem_of_sublist; [exact Hm|apply sublist_drop]).
    apply filter_elem_of in Hin as [Hin Hns]. by apply negb_true_iff in Hns. }
  apply summarised_has_no_new.
  - intros m Hm Hid. apply filter_elem_of in Hm as [Hm _]. apply Hfresh, list_elem_of_fmap. by exists m.
  - intros m Hm. apply Hconv in Hm as [Hin Hns]. split; [done|]. by apply Hnamed.
  - intros m Hm. unfold restoration in Hm. case_bool_decide; [by apply elem_of_nil in Hm|]. by apply list_elem_of_singleton in Hm as ->.
Qed.

(** After three failures in a row the histories of a session are not summarised any more. *)
Lemma circuit_stays_open `{Uuids} rough summarize limit key l failures next :
  MAX_CONSECUTIVE_FAILURES <= default 0 (failures !! key) ->
  autocompact_if_needed rough summarize limit key l failures next = (not_compacted l, failures, next).
Proof.
  intros Hopen. unfold autocompact_if_needed. destruct (_ <? limit); [done|]. destruct (has_no_new_content l); [done|].
  by rewrite (proj2 (Z.leb_le _ _) Hopen).
Qed.

(** ** A concrete session *)

Module ContextWorld.
#[local] Instance context_uuids : Uuids := {| uuid4 n := "id-" +:+ pretty n; uuid5_url s := s |}.
Definition rough (m : BaseMessage) : Z := Z.of_nat (String.length (m_content m)).
Definition share (pct limit : Z) : Z := limit * pct / 100.
Definition summarize (l : list BaseMessage) : option string := Some "earlier".
Definition budget : ContextBudget := {| context_window := 500; output_reserve := 0; safety_margin := 0; tool_schema_tokens := 0 |}.
Definition nobody : ContextManager := {| cm_persisted := ∅; cm_stores := ∅; cm_failures := ∅; cm_archive := []; cm_next := 0 |}.
Definition said (b : Body) (id text : string) : BaseMessage :=
  {| m_id := Some id; m_body := b; m_content := text; m_kwargs := []; m_response := [] |}.

(** Three questions, the last of which is answered through a tool, and eight short ones. *)
Definition chat (n : nat) : list BaseMessage :=
  [said HumanMessage ("b" +:+ pretty (2 * n)%nat) "and?"; said (AIMessage []) ("b" +:+ pretty (2 * n + 1)%nat) "so."].
Definition history : list BaseMessage :=
  [said HumanMessage "a1" "hello"; said (AIMessage []) "a2" "hi"; said HumanMessage "a3" "more"; said (AIMessage []) "a4" "yes";
   said HumanMessage "a5" "time?"; said (AIMessage [{| cl_id := Some "c1"; cl_name := "get_current_time"; cl_file_path := None |}]) "a6" "";
   said (ToolMessage "c1" "get_current_time") "a7" "noon"] ++ (seq 0 8 ≫= chat).

(** The result of the tool is snipped, a view is prepared, what it removed leaves the history, and
    the user asks again. *)
Definition snipped : list BaseMessage := sr_messages (snip_by_id_range rough 0 history "00004n" (Some "00004n")).
Definition first_view := prepare rough share (fun _ => None) summarize "key" "s-1" COMPACTABLE_TOOLS 0 snipped budget nobody.
Definition asked_again : list BaseMessage :=
  List.filter (fun m => match m_id m with Some i => negb (string_in i (ct_removed_message_ids first_view.1)) | None => true end) snipped
  ++ [said HumanMessage "z" "And now, after all of that, please tell me the one thing I really want to know from you today"].
Definition second_view := prepare rough share (fun _ => None) summarize "key" "s-1" COMPACTABLE_TOOLS 0 asked_again budget first_view.2.

(** The model is shown a summary and a boundary, and every message of the user is to be removed. *)
Lemma newest_question_vanishes :
  ct_removed_message_ids first_view.1 = ["a6"] /\ ct_actions second_view.1 = ["collapse:1"] /\
  forallb is_system (ct_messages second_view.1) = true /\ "z" ∈ ct_removed_message_ids second_view.1.
Proof. split_and!; [vm_compute; reflexivity..|]. apply (bool_decide_unpack _). vm_compute. exact I. Qed.

Definition folded : CollapseCommit :=
  {| co_collapse_id := "id0"; co_summary_uuid := "id-1"; co_summary_content := "earlier"; co_first := "a1"; co_last := "a6" |}.
Definition question : BaseMessage := said HumanMessage "z" "And now?".

Lemma lost_boundary_hides_rest_witness :
  question ∉ project_view ([said HumanMessage "a1" "hello"] ++ [said (AIMessage []) "a2" "hi"; question]) (load_commits [folded] new_collapse_store).
Proof.
  apply (lost_boundary_hides_rest _ (load_commits [folded] new_collapse_store) folded [] (said HumanMessage "a1" "hello")
           [said (AIMessage []) "a2" "hi"; question]); try done.
  - by left.
  - by intros y ?%elem_of_nil.
  - apply Forall_forall. by repeat constructor.
  - right; right; by left.
Defined.

(** ** Witnesses *)

Lemma results_then_calls p q :
  Forall (fun m => tool_result_of m = None) p -> Forall (fun m => call_ids m = []) q -> results_follow (p ++ q).
Proof.
  intros Hp Hq a t b c m Heq Ht Hm Hc. apply app_eq_inv in Heq as [(k & -> & Hk)|(k & -> & ->)].
  - destruct k as [|y k]; cbn in Hk.
    + subst q. apply Forall_cons in Hq as [_ Hq]. rewrite Forall_forall in Hq. specialize (Hq m Hm). rewrite Hq in Hc. by apply elem_of_nil in Hc.
    + injection Hk as -> ->. apply Forall_app in Hp as [_ [Hn _]%Forall_cons]. congruence.
  - apply Forall_app in Hq as [_ [_ Hq]%Forall_cons]. rewrite Forall_forall in Hq. specialize (Hq m Hm). rewrite Hq in Hc. by apply elem_of_nil in Hc.
Qed.

Lemma history_follows : results_follow history.
Proof.
  apply (results_then_calls (take 6 history) (drop 6 history)); apply Forall_forall, Forall_forall; vm_compute; by repeat constructor.
Qed.

Lemma prepared_view_is_legal_witness :
  answered_after (ct_messages (prepare rough share (fun _ => None) summarize "key" "s-1" COMPACTABLE_TOOLS 0 history budget nobody).1).
Proof.
  exact (proj2 (proj2 (proj2 (proj2 (prepared_view_is_legal rough (fun m => Nat2Z.is_nonneg _) share summarize (fun _ => None)
    "key" "s-1" COMPACTABLE_TOOLS 0 history budget nobody)))) history_follows).
Defined.

Definition long_chat : list BaseMessage := seq 0 11 ≫= chat.
Definition begun : Folding := {| fl_history := []; fl_store := new_collapse_store; fl_next := 0 |}.

Lemma appended l : forall x, NoDup (omap named (fl_history x ++ l)) ->
  rtc (fold_step rough share) x {| fl_history := fl_history x ++ l; fl_store := fl_store x; fl_next := fl_next x |}.
Proof.
  induction l as [|m l IH]; intros [h s n] Hnd; cbn [fl_history fl_store fl_next] in *; [by rewrite app_nil_r|].
  assert (Hassoc : h ++ m :: l = (h ++ [m]) ++ l) by (by rewrite <- app_assoc). rewrite Hassoc in *. clear Hassoc. eapply rtc_l; [|by apply (IH {| fl_history := h ++ [m]; fl_store := s; fl_next := n |})].
  apply (fs_append rough share {| fl_history := h; fl_store := s; fl_next := n |}). intros i Hi Hin. cbn in Hin.
  rewrite omap_app in Hnd. apply NoDup_app in Hnd as (Hnd & _ & _). rewrite omap_app in Hnd.
  apply NoDup_app in Hnd as (_ & Hd & _). apply (Hd i Hin). cbn. rewrite Hi. by left.
Qed.

(** The eight messages before the newest fifteen, staged when there was room and folded when not. *)
Definition eight : list StagedSpan := [{| sp_start := "b0"; sp_end := "b6"; sp_staged_at := 0 |}].
Definition staged_store : CollapseStore := with_staged eight new_collapse_store.

Lemma long_chat_ids : NoDup (omap named ([] ++ long_chat)).
Proof. apply (bool_decide_unpack _). vm_compute. exact I. Qed.

Lemma staged_reached :
  rtc (fold_step rough share) {| fl_history := []; fl_store := new_collapse_store; fl_next := 0 |}
    {| fl_history := long_chat; fl_store := staged_store; fl_next := 0 |}.
Proof.
  refine (rtc_r _ {| fl_history := long_chat; fl_store := new_collapse_store; fl_next := 0 |} _
            (appended long_chat {| fl_history := []; fl_store := new_collapse_store; fl_next := 0 |} long_chat_ids) _).
  assert (Hs : (apply_collapses_if_needed rough share summarize 0 long_chat 10000 new_collapse_store 0).1.2 = staged_store) by (vm_compute; reflexivity).
  rewrite <- Hs. exact (fs_apply rough share {| fl_history := long_chat; fl_store := new_collapse_store; fl_next := 0 |} summarize 0 10000).
Qed.

Lemma recent_messages_never_folded_witness :
  drop (length long_chat - COLLAPSE_KEEP_RECENT) long_chat
  `suffix_of` (apply_collapses_if_needed rough share summarize 0 long_chat 100 staged_store 0).1.1.
Proof.
  exact (recent_messages_never_folded rough share {| fl_history := long_chat; fl_store := staged_store; fl_next := 0 |} summarize 0 100 staged_reached).
Defined.

Example long_chat_is_folded :
  (m_id <$> (apply_collapses_if_needed rough share summarize 0 long_chat 100 staged_store 0).1.1)
  = Some "id-1" :: (m_id <$> drop 7 long_chat).
Proof. vm_compute. reflexivity. Qed.

Lemma autocompact_is_idempotent_witness :
  let x := autocompact_if_needed rough summarize 10 "key" long_chat ∅ 0 in
  ar_was_compacted x.1.1 = true /\
  forall summarize' limit', autocompact_if_needed rough summarize' limit' "key" (ar_messages x.1.1) x.1.2 x.2 = (not_compacted (ar_messages x.1.1), x.1.2, x.2).
Proof.
  cbv zeta. assert (Hdone : ar_was_compacted (autocompact_if_needed rough summarize 10 "key" long_chat ∅ 0).1.1 = true) by (vm_compute; reflexivity).
  split; [exact Hdone|].
  assert (Hnamed : forall m, m ∈ long_chat -> is_system m = false -> is_internal_context_message m = false -> named m <> None).
  { intros m Hm _ _. assert (Hall : Forall (fun m => named m <> None) long_chat) by (vm_compute; by repeat constructor).
    rewrite Forall_forall in Hall. by apply Hall. }
  assert (Hfresh : Some (uuid4 0) ∉ m_id <$> long_chat) by (apply (bool_decide_unpack _); vm_compute; exact I).
  pose proof (autocompact_is_idempotent rough summarize 10 "key" long_chat ∅ 0 Hnamed Hfresh) as H.
  destruct (autocompact_if_needed rough summarize 10 "key" long_chat ∅ 0) as [[r f] n]. exact (H Hdone).
Defined.
End ContextWorld.
