(* ===== verification/SessionKeys.v ===== *)
(** * SessionKeys: the names under which the state of sessions is stored

    [core/session_context.py]: the identity of a session ([SessionContext]), the key made of it in
    base64, and the directories of the local repository.  Keys keep sessions apart, and deleting a
    session removes its own directories and no other. *)
From S2P Require Import Prelude PyText Json ContextLayers ContextManager.
Local Open Scope Z_scope.

(** ** Base64 *)

Definition byte_of (c : ascii) : Z := Z.of_nat (nat_of_ascii c).
Definition char_of (n : Z) : ascii := ascii_of_nat (Z.to_nat n).

(** The digits of [urlsafe_b64encode], and what [urlsafe_b64decode] reads them as: it takes the
    characters of plain base64 too. *)
Definition char64 (d : Z) : ascii :=
  if d <? 26 then char_of (65 + d) else if d <? 52 then char_of (71 + d) else if d <? 62 then char_of (d - 4)
  else if d =? 62 then "-"%char else "_"%char.
Definition value64 (c : ascii) : option Z :=
  let n := byte_of c in
  if (65 <=? n) && (n <=? 90) then Some (n - 65)
  else if (97 <=? n) && (n <=? 122) then Some (n - 71)
  else if (48 <=? n) && (n <=? 57) then Some (n + 4)
  else if Ascii.eqb c "-"%char || Ascii.eqb c "+"%char then Some 62
  else if Ascii.eqb c "_"%char || Ascii.eqb c "/"%char then Some 63
  else None.

Fixpoint digits64 (l : list Z) : list Z :=
  match l with
  | [] => []
  | [a] => [a / 4; a mod 4 * 16]
  | [a; b] => [a / 4; a mod 4 * 16 + b / 16; b mod 16 * 4]
  | a :: b :: c :: l => a / 4 :: a mod 4 * 16 + b / 16 :: b mod 16 * 4 + c / 64 :: c mod 64 :: digits64 l
  end.
(** [-n % 4]. *)
Definition missing (n : nat) : nat := Z.to_nat (- Z.of_nat n mod 4).
Definition urlsafe_b64encode (l : list Z) : list ascii :=
  let body := char64 <$> digits64 l in body ++ replicate (missing (length body)) "="%char.

(** The decoder skips what is no digit and stops at the padding that completes a group. *)
Fixpoint decode64 (quad left_ pads : Z) (l : list ascii) : option (list Z) :=
  match l with
  | [] => if quad =? 0 then Some [] else None
  | c :: l' =>
      if Ascii.eqb c "="%char then
        if quad <? 2 then decode64 quad left_ pads l'
        else if 4 <=? quad + (pads + 1) then Some [] else decode64 quad left_ (pads + 1) l'
      else
        match value64 c with
        | None => decode64 quad left_ pads l'
        | Some d =>
            if quad =? 0 then decode64 1 d 0 l'
            else if quad =? 1 then cons (left_ * 4 + d / 16) <$> decode64 2 (d mod 16) 0 l'
            else if quad =? 2 then cons (left_ * 16 + d / 4) <$> decode64 3 (d mod 4) 0 l'
            else cons (left_ * 64 + d) <$> decode64 0 0 0 l'
        end
  end.
(** A text with a character that is not ASCII raises [ValueError]. *)
Definition is_ascii (c : ascii) : bool := byte_of c <? 128.
Definition urlsafe_b64decode (l : list ascii) : option (list Z) :=
  if forallb is_ascii l then decode64 0 0 0 l else None.

(** [bytes.decode] accepts UTF-8 without overlong forms and surrogates. *)
Definition tail_byte (b : Z) : bool := (128 <=? b) && (b <=? 191).
Fixpoint utf8_ok (l : list Z) : bool :=
  match l with
  | [] => true
  | a :: l1 =>
      if a <? 128 then utf8_ok l1
      else
        match l1 with
        | [] => false
        | b :: l2 =>
            if (194 <=? a) && (a <=? 223) then tail_byte b && utf8_ok l2
            else
              match l2 with
              | [] => false
              | c :: l3 =>
                  if (224 <=? a) && (a <=? 239) then
                    tail_byte b && tail_byte c && negb ((a =? 224) && (b <? 160)) && negb ((a =? 237) && (159 <? b)) && utf8_ok l3
                  else
                    match l3 with
                    | [] => false
                    | d :: l4 =>
                        (240 <=? a) && (a <=? 244) && tail_byte b && tail_byte c && tail_byte d
                        && negb ((a =? 240) && (b <? 144)) && negb ((a =? 244) && (143 <? b)) && utf8_ok l4
                    end
              end
        end
  end.

(** ** Session contexts *)

Record SessionContext := {
  sx_session_id : string;
  sx_user_id : string;
  sx_workspace_id : string;
  sx_channel : string;
  sx_agent_id : string;
  sx_auth_session_id : option string;
  sx_observability_attributes : gmap string string;
}.

(** [_SESSION_ID]. *)
Definition alphanumeric (c : ascii) : bool :=
  let n := byte_of c in ((48 <=? n) && (n <=? 57)) || ((65 <=? n) && (n <=? 90)) || ((97 <=? n) && (n <=? 122)).
Definition identifier_char (c : ascii) : bool := alphanumeric c || existsb (Ascii.eqb c) ["_"; "."; ":"; "-"]%char.
Definition validate_identifier (value : string) : bool :=
  match String.list_ascii_of_string value with
  | [] => false
  | c :: l => alphanumeric c && forallb identifier_char l && (length l <=? 127)%nat
  end.

Inductive SessionError := InvalidIdentifier | ThreadRequired.

Definition session_context (session user workspace channel agent : string) (auth : option string) (attributes : gmap string string)
  : SessionError + SessionContext :=
  if forallb validate_identifier ([session; user; workspace; channel; agent] ++ option_list auth) then
    inr {| sx_session_id := session; sx_user_id := user; sx_workspace_id := workspace; sx_channel := channel; sx_agent_id := agent;
           sx_auth_session_id := auth; sx_observability_attributes := attributes |}
  else inl InvalidIdentifier.

(** The [configurable] part of a configuration, with its values as text; [str(d.get(key) or default)]. *)
Definition or_default (key default_ : string) (d : gmap string string) : string :=
  match d !! key with Some v => if String.eqb v "" then default_ else v | None => default_ end.
Definition from_config (require : bool) (d : gmap string string) : SessionError + SessionContext :=
  if require && String.eqb (or_default "thread_id" "" d) "" then inl ThreadRequired
  else session_context (or_default "thread_id" "default_session" d) (or_default "user_id" "local" d) (or_default "workspace_id" "default" d)
         (or_default "channel" "local" d) (or_default "worker_id" "coordinator" d)
         (let a := or_default "auth_session_id" "" d in if String.eqb a "" then None else Some a) ∅.

(** ** The storage key *)

Definition NUL : ascii := ascii_of_nat 0.
Fixpoint join_nul (l : list (list ascii)) : list ascii :=
  match l with [] => [] | [x] => x | x :: l => x ++ NUL :: join_nul l end.
Fixpoint split_nul (current l : list ascii) : list (list ascii) :=
  match l with
  | [] => [current]
  | c :: l' => if Ascii.eqb c NUL then current :: split_nul [] l' else split_nul (current ++ [c]) l'
  end.

Definition key_parts (c : SessionContext) : list string :=
  [sx_workspace_id c; sx_user_id c; sx_channel c; sx_session_id c; sx_agent_id c].
Fixpoint drop_padding (newest_first : list ascii) : list ascii :=
  match newest_first with c :: l => if Ascii.eqb c "="%char then drop_padding l else newest_first | [] => [] end.
Definition rstrip_padding (l : list ascii) : list ascii := rev (drop_padding (rev l)).
Definition storage_key (c : SessionContext) : string :=
  String.string_of_list_ascii (rstrip_padding (urlsafe_b64encode (byte_of <$> join_nul (String.list_ascii_of_string <$> key_parts c)))).

(** What [delete_session] reads in the name of a directory. *)
Definition parts_of_name (name : string) : option (list string) :=
  let l := String.list_ascii_of_string name in
  raw ← urlsafe_b64decode (l ++ replicate (missing (length l)) "="%char);
  if utf8_ok raw then Some (String.string_of_list_ascii <$> split_nul [] (char_of <$> raw)) else None.

(** ** The local repository *)

(** The directories by their names, and the sessions that have a lock. *)
Record LocalContextStateRepository := { rp_directories : gmap string PersistedContextState; rp_locks : gset string }.

Definition lock_for (c : SessionContext) (r : LocalContextStateRepository) : LocalContextStateRepository :=
  {| rp_directories := rp_directories r; rp_locks := {[storage_key c]} ∪ rp_locks r |}.
Definition load (c : SessionContext) (r : LocalContextStateRepository) : PersistedContextState :=
  default {| ps_revision := 0; ps_collapse_commits := [] |} (rp_directories r !! storage_key c).
Definition save (c : SessionContext) (s : PersistedContextState) (r : LocalContextStateRepository) : LocalContextStateRepository :=
  {| rp_directories := <[storage_key c := {| ps_revision := ps_revision s + 1; ps_collapse_commits := ps_collapse_commits s |}]> (rp_directories r);
     rp_locks := rp_locks r |}.
Definition delete_state (c : SessionContext) (r : LocalContextStateRepository) : bool * LocalContextStateRepository :=
  (bool_decide (is_Some (rp_directories r !! storage_key c)),
   {| rp_directories := delete (storage_key c) (rp_directories r); rp_locks := rp_locks r |}).

(** The directories of a session, of the coordinator and of its workers. *)
Definition of_session (c : SessionContext) (name : string) : bool :=
  match parts_of_name name with
  | Some [workspace; user; _; session; _] =>
      String.eqb workspace (sx_workspace_id c) && String.eqb user (sx_user_id c) && String.eqb session (sx_session_id c)
  | _ => false
  end.
Definition delete_session (c : SessionContext) (r : LocalContextStateRepository) : Z * LocalContextStateRepository :=
  let gone := filter (fun kv : string * PersistedContextState => of_session c kv.1 = true) (rp_directories r) in
  (Z.of_nat (size gone),
   {| rp_directories := filter (fun kv : string * PersistedContextState => of_session c kv.1 = false) (rp_directories r);
      rp_locks := filter (fun k => gone !! k = None) (rp_locks r) |}).

Example key_example :
  (storage_key <$> (match session_context "s-1" "ada" "default" "web" "coordinator" None ∅ with inr c => Some c | inl _ => None end))
  = Some "ZGVmYXVsdABhZGEAd2ViAHMtMQBjb29yZGluYXRvcg".
Proof. vm_compute. reflexivity. Qed.

(** ** Base64 comes back *)

Definition is_byte (b : Z) : Prop := 0 <= b < 256.
Definition is_digit64 (d : Z) : Prop := 0 <= d < 64.

Lemma char64_spec d : is_digit64 d -> value64 (char64 d) = Some d /\ Ascii.eqb (char64 d) "="%char = false.
Proof.
  intros Hd. assert (Hall : forallb (fun n => let d := Z.of_nat n in
    bool_decide (value64 (char64 d) = Some d) && negb (Ascii.eqb (char64 d) "="%char)) (seq 0 64) = true) by (vm_compute; reflexivity).
  rewrite forallb_forall in Hall. specialize (Hall (Z.to_nat d)). rewrite Z2Nat.id in Hall by (unfold is_digit64 in Hd; lia).
  destruct (andb_prop _ _ (Hall ltac:(apply in_seq; unfold is_digit64 in Hd; lia))) as [H1%bool_decide_eq_true H2%negb_true_iff]. done.
Qed.

Lemma char64_ascii d : is_digit64 d -> is_ascii (char64 d) = true.
Proof.
  intros [Hv _]%char64_spec. revert Hv. unfold value64, is_ascii. intros Hv. apply Z.ltb_lt.
  repeat case_match; try done;
    repeat match goal with
    | H : _ && _ = true |- _ => apply andb_prop in H as [? ?]
    | H : _ || _ = true |- _ => apply orb_true_iff in H as [H%Ascii.eqb_eq|H%Ascii.eqb_eq]; rewrite H; done
    end; lia.
Qed.

Lemma decode_digit quad left_ pads d l :
  is_digit64 d -> decode64 quad left_ pads (char64 d :: l)
  = if quad =? 0 then decode64 1 d 0 l
    else if quad =? 1 then cons (left_ * 4 + d / 16) <$> decode64 2 (d mod 16) 0 l
    else if quad =? 2 then cons (left_ * 16 + d / 4) <$> decode64 3 (d mod 4) 0 l
    else cons (left_ * 64 + d) <$> decode64 0 0 0 l.
Proof. intros Hd. destruct (char64_spec d Hd) as [Hv He]. cbn [decode64]. by rewrite He, Hv. Qed.

Ltac euclid := unfold is_byte, is_digit64 in *; Z.to_euclidean_division_equations; lia.

Lemma triples_ind {A} (P : list A -> Prop) :
  P [] -> (forall a, P [a]) -> (forall a b, P [a; b]) -> (forall a b c l, P l -> P (a :: b :: c :: l)) -> forall l, P l.
Proof. intros H0 H1 H2 H3. fix IH 1. intros [|a [|b [|c l]]]; [done|apply H1|apply H2|apply H3, IH]. Qed.

Lemma digits64_digits l : Forall is_byte l -> Forall is_digit64 (digits64 l).
Proof.
  induction l as [|a|a b|a b c l IH] using triples_ind; intros Hl; cbn [digits64]; repeat (apply Forall_cons in Hl as [? Hl]);
    repeat (apply Forall_cons; split); try euclid; try apply Forall_nil_2. by apply IH.
Qed.

Lemma missing_step n : missing (S (S (S (S n)))) = missing n.
Proof. unfold missing. f_equal. rewrite !Nat2Z.inj_succ. euclid. Qed.

Lemma encoded_ascii l : Forall is_byte l -> forallb is_ascii (urlsafe_b64encode l) = true.
Proof.
  intros Hl%digits64_digits. apply forallb_forall. intros c Hc. apply list_elem_of_In in Hc.
  apply elem_of_app in Hc as [(d & -> & Hd)%list_elem_of_fmap|[-> _]%elem_of_replicate]; [|done].
  apply char64_ascii. by rewrite Forall_forall in Hl; apply Hl.
Qed.

Lemma base64_roundtrip l : Forall is_byte l -> urlsafe_b64decode (urlsafe_b64encode l) = Some l.
Proof.
  intros Hbytes. unfold urlsafe_b64decode. rewrite encoded_ascii by done. revert Hbytes.
  unfold urlsafe_b64encode. induction l as [|a|a b|a b c l IH] using triples_ind; intros Hl;
    repeat (apply Forall_cons in Hl as [? Hl]); [done|cbn [digits64 fmap list_fmap length]..]; rewrite ?missing_step; cbn [app];
    rewrite !decode_digit by euclid; cbn [Z.eqb Pos.eqb].
  - change (Some [a / 4 * 4 + a mod 4 * 16 / 16] = Some [a]). do 2 f_equal. euclid.
  - change (Some [a / 4 * 4 + (a mod 4 * 16 + b / 16) / 16; (a mod 4 * 16 + b / 16) mod 16 * 16 + b mod 16 * 4 / 4] = Some [a; b]).
    do 2 f_equal; [euclid|]. f_equal. euclid.
  - rewrite IH by done. cbn [fmap option_fmap option_map]. do 2 f_equal; [euclid|]. f_equal; [euclid|]. f_equal. euclid.
Qed.

Lemma drop_padding_skip n l : drop_padding (replicate n "="%char ++ l) = drop_padding l.
Proof. by induction n. Qed.

Lemma rstrip_body l : Forall is_byte l -> rstrip_padding (urlsafe_b64encode l) = char64 <$> digits64 l.
Proof.
  intros Hl%digits64_digits. unfold rstrip_padding, urlsafe_b64encode. rewrite rev_app_distr.
  replace (rev (replicate _ _)) with (replicate (missing (length (char64 <$> digits64 l))) "="%char).
  - rewrite drop_padding_skip. transitivity (rev (rev (char64 <$> digits64 l))); [|apply rev_involutive]. f_equal.
    destruct (rev (char64 <$> digits64 l)) as [|c r] eqn:Hr; [done|].
    assert (Hc : c ∈ char64 <$> digits64 l) by (rewrite list_elem_of_In, in_rev, Hr; by left).
    apply list_elem_of_fmap in Hc as (d & -> & Hd). cbn [drop_padding]. destruct (char64_spec d) as [_ ->]; [|done].
    by rewrite Forall_forall in Hl; apply Hl.
  - induction (missing _) as [|n IH]; [done|]. cbn. rewrite <- IH. by rewrite <- replicate_cons_app.
Qed.

(** ** The parts of a key *)

Lemma split_app current x l : Forall (fun c => c <> NUL) x -> split_nul current (x ++ NUL :: l) = (current ++ x) :: split_nul [] l.
Proof.
  revert current. induction x as [|c x IH]; intros current Hx; cbn [app split_nul]; [by rewrite Ascii.eqb_refl, app_nil_r|].
  apply Forall_cons in Hx as [Hc Hx]. apply Ascii.eqb_neq in Hc. rewrite Hc, IH by done. by rewrite <- app_assoc.
Qed.

Lemma split_end current x : Forall (fun c => c <> NUL) x -> split_nul current x = [current ++ x].
Proof.
  revert current. induction x as [|c x IH]; intros current Hx; cbn [split_nul]; [by rewrite app_nil_r|].
  apply Forall_cons in Hx as [Hc Hx]. apply Ascii.eqb_neq in Hc. rewrite Hc, IH by done. by rewrite <- app_assoc.
Qed.

Lemma split_join x l : Forall (Forall (fun c => c <> NUL)) (x :: l) -> split_nul [] (join_nul (x :: l)) = x :: l.
Proof.
  revert x. induction l as [|y l IH]; intros x Hl; apply Forall_cons in Hl as [Hx Hl]; [by apply split_end|].
  change (join_nul (x :: y :: l)) with (x ++ NUL :: join_nul (y :: l)). rewrite split_app by done. cbn [app]. f_equal. by apply IH.
Qed.

Lemma byte_of_byte c : is_byte (byte_of c).
Proof. unfold is_byte, byte_of. pose proof (nat_ascii_bounded c). lia. Qed.

Lemma char_of_byte c : char_of (byte_of c) = c.
Proof. unfold char_of, byte_of. rewrite Nat2Z.id. apply ascii_nat_embedding. Qed.

Lemma utf8_ascii l : Forall (fun b => b < 128) l -> utf8_ok l = true.
Proof. induction 1 as [|b l Hb _ IH]; [done|]. cbn [utf8_ok]. by rewrite (proj2 (Z.ltb_lt b 128) Hb). Qed.

Lemma identifier_char_ascii c : identifier_char c = true -> c <> NUL /\ byte_of c < 128.
Proof.
  unfold identifier_char. intros [Ha|Hx]%orb_true_iff.
  - unfold alphanumeric in Ha. split; [by intros ->|lia].
  - apply existsb_exists in Hx as (x & Hin & ->%Ascii.eqb_eq). repeat destruct Hin as [<-|Hin]; done.
Qed.

Definition valid_context (c : SessionContext) : Prop := forallb validate_identifier (key_parts c) = true.

Lemma session_context_valid s u w ch a auth attrs c : session_context s u w ch a auth attrs = inr c -> valid_context c.
Proof.
  unfold session_context, valid_context. destruct (forallb _ _) eqn:Hall; [|done]. intros [= <-]. cbn in Hall |- *.
  rewrite !andb_true_iff in Hall |- *. tauto.
Qed.

Lemma valid_parts c : valid_context c ->
  Forall (Forall (fun x => x <> NUL /\ byte_of x < 128)) (String.list_ascii_of_string <$> key_parts c).
Proof.
  unfold valid_context. generalize (key_parts c). intros l Hl. rewrite forallb_forall in Hl. apply Forall_forall.
  intros x (p & -> & Hp)%list_elem_of_fmap. rewrite list_elem_of_In in Hp. specialize (Hl p Hp). unfold validate_identifier in Hl.
  destruct (String.list_ascii_of_string p) as [|h t]; [done|]. apply andb_true_iff in Hl as [Hl _]. apply andb_true_iff in Hl as [Hh Ht].
  rewrite forallb_forall in Ht. apply Forall_cons. split; [apply identifier_char_ascii; unfold identifier_char; by rewrite Hh|].
  apply Forall_forall. intros y Hy. apply identifier_char_ascii, Ht. by rewrite <- list_elem_of_In.
Qed.

Lemma join_ascii l : Forall (Forall (fun x : ascii => x <> NUL /\ byte_of x < 128)) l -> Forall (fun b => b < 128) (byte_of <$> join_nul l).
Proof.
  intros Hl. apply Forall_fmap. induction Hl as [|x l Hx Hl IH]; [done|].
  assert (Hx' : Forall (fun y => byte_of y < 128) x) by (eapply Forall_impl; [exact Hx|by intros y []]).
  destruct l as [|y l]; [done|]. change (join_nul (x :: y :: l)) with (x ++ NUL :: join_nul (y :: l)).
  apply Forall_app. split; [done|]. apply Forall_cons. by split.
Qed.

Lemma session_parts_read session user workspace channel agent auth attributes c :
  session_context session user workspace channel agent auth attributes = inr c ->
  parts_of_name (storage_key c) = Some [workspace; user; channel; session; agent].
Proof.
  intros Hc. pose proof (session_context_valid _ _ _ _ _ _ _ _ Hc) as Hvalid. apply valid_parts in Hvalid.
  assert (Hparts : key_parts c = [workspace; user; channel; session; agent]).
  { unfold session_context in Hc. destruct (forallb _ _); [|done]. by injection Hc as <-. }
  unfold parts_of_name, storage_key. rewrite Hparts in *. set (parts := [workspace; user; channel; session; agent]) in *.
  set (raw := byte_of <$> join_nul (String.list_ascii_of_string <$> parts)).
  assert (Hbytes : Forall is_byte raw) by (apply Forall_fmap, Forall_forall; intros x _; apply byte_of_byte).
  rewrite String.list_ascii_of_string_of_list_ascii, (rstrip_body raw Hbytes).
  change (_ ++ replicate _ _) with (urlsafe_b64encode raw). rewrite (base64_roundtrip raw Hbytes). cbn [mbind option_bind].
  rewrite utf8_ascii by (by apply join_ascii). f_equal. unfold raw. rewrite <- list_fmap_compose.
  rewrite (list_fmap_ext _ id), list_fmap_id by (intros i x _; apply char_of_byte).
  change (String.list_ascii_of_string <$> parts) with (String.list_ascii_of_string workspace :: (String.list_ascii_of_string <$> tail parts)) in *.
  rewrite split_join.
  - cbn. by rewrite !String.string_of_list_ascii_of_string.
  - eapply Forall_impl; [exact Hvalid|]. intros x Hx. eapply Forall_impl; [exact Hx|]. by intros y [].
Qed.

Lemma valid_parts_read c : valid_context c -> parts_of_name (storage_key c) = Some (key_parts c).
Proof.
  intros Hc. destruct c as [s u w ch a auth attrs].
  assert (Hmade : session_context s u w ch a None ∅ = inr {| sx_session_id := s; sx_user_id := u; sx_workspace_id := w; sx_channel := ch;
    sx_agent_id := a; sx_auth_session_id := None; sx_observability_attributes := ∅ |}).
  { unfold session_context. unfold valid_context in Hc. cbn in Hc |- *. rewrite !andb_true_iff in Hc.
    destruct Hc as (-> & -> & -> & -> & -> & _). done. }
  apply session_parts_read in Hmade. exact Hmade.
Qed.

(** Sessions with one key agree in all that identifies them. *)
Lemma storage_key_inj c d : valid_context c -> valid_context d -> storage_key c = storage_key d <-> key_parts c = key_parts d.
Proof.
  intros Hc Hd. split; [|unfold storage_key; by intros ->]. intros Hk. apply valid_parts_read in Hc, Hd. rewrite Hk in Hc. congruence.
Qed.

(** What one session saves, no other one loads. *)
Lemma saved_state_is_own c d s r :
  valid_context c -> valid_context d ->
  load d (save c s r) = if decide (key_parts c = key_parts d)
                        then {| ps_revision := ps_revision s + 1; ps_collapse_commits := ps_collapse_commits s |} else load d r.
Proof.
  intros Hc Hd. unfold load, save. cbn [rp_directories]. destruct (decide _) as [He|Hne].
  - apply (storage_key_inj c d Hc Hd) in He. by rewrite He, lookup_insert_eq.
  - rewrite lookup_insert_ne; [done|]. intros Hk. by apply Hne, storage_key_inj.
Qed.

(** C23: deleting a session removes the state of every agent and channel of that session, and the
    state of no other session, user or workspace. *)
Theorem delete_session_is_exact c d r :
  valid_context c -> valid_context d ->
  rp_directories (delete_session c r).2 !! storage_key d
  = if decide (sx_workspace_id d = sx_workspace_id c /\ sx_user_id d = sx_user_id c /\ sx_session_id d = sx_session_id c)
    then None else rp_directories r !! storage_key d.
Proof.
  intros Hc Hd. assert (Hof : of_session c (storage_key d) = bool_decide (sx_workspace_id d = sx_workspace_id c /\
    sx_user_id d = sx_user_id c /\ sx_session_id d = sx_session_id c)).
  { unfold of_session. rewrite (valid_parts_read d Hd). cbn [key_parts]. apply eq_true_iff_eq.
    rewrite bool_decide_eq_true, !andb_true_iff, !String.eqb_eq. tauto. }
  unfold delete_session. cbn [snd rp_directories]. destruct (decide _) as [Hsame|Hother].
  - apply map_lookup_filter_None. right. intros s _ Hno. change (of_session c (storage_key d) = false) in Hno.
    rewrite Hof, bool_decide_eq_true_2 in Hno; done.
  - destruct (rp_directories r !! storage_key d) as [s|] eqn:Hs.
    + apply map_lookup_filter_Some. split; [done|]. change (of_session c (storage_key d) = false).
      by rewrite Hof, bool_decide_eq_false_2.
    + apply map_lookup_filter_None. by left.
Qed.

(** C25: the parts that are read in the name of the directory of a session are those of its identity,
    so that sessions share a directory only if they agree in workspace, user, channel, session and agent. *)
Theorem storage_key_names_session session user workspace channel agent auth attributes c :
  session_context session user workspace channel agent auth attributes = inr c ->
  parts_of_name (storage_key c) = Some [workspace; user; channel; session; agent] /\
  forall d, valid_context d -> storage_key d = storage_key c -> key_parts d = [workspace; user; channel; session; agent].
Proof.
  intros Hc. pose proof (session_parts_read _ _ _ _ _ _ _ _ Hc) as Hparts. split; [done|].
  intros d Hd Hk. apply valid_parts_read in Hd. rewrite Hk in Hd. congruence.
Qed.

(** ** A concrete session *)

Module SessionWorld.
Definition ada (channel agent : string) : SessionContext :=
  {| sx_session_id := "s-1"; sx_user_id := "ada"; sx_workspace_id := "w.1"; sx_channel := channel; sx_agent_id := agent;
     sx_auth_session_id := None; sx_observability_attributes := ∅ |}.

Lemma storage_key_names_session_witness :
  parts_of_name (storage_key (ada "web" "coordinator")) = Some ["w.1"; "ada"; "web"; "s-1"; "coordinator"] /\
  forall d, valid_context d -> storage_key d = storage_key (ada "web" "coordinator") -> key_parts d = ["w.1"; "ada"; "web"; "s-1"; "coordinator"].
Proof. apply (storage_key_names_session "s-1" "ada" "w.1" "web" "coordinator" None ∅ (ada "web" "coordinator")). vm_compute. reflexivity. Defined.

Lemma delete_session_is_exact_witness :
  rp_directories (delete_session (ada "web" "coordinator")
    (save (ada "cli" "worker:7") {| ps_revision := 0; ps_collapse_commits := [] |} {| rp_directories := ∅; rp_locks := ∅ |})).2
    !! storage_key (ada "cli" "worker:7") = None.
Proof.
  rewrite (delete_session_is_exact (ada "web" "coordinator") (ada "cli" "worker:7")) by (vm_compute; reflexivity).
  vm_compute. reflexivity.
Defined.
End SessionWorld.
